(* ===== verification/_CoqProject ===== *)
-Q . S2P
Prelude.v
GoLib.v
Codec.v
Crypto.v
Types.v
Merkle.v
Object.v
Smt.v
SmtProofs.v
SmtTheorems.v
Assets.v
Sharding.v
ShardingProofs.v
Tx.v
TxProofs.v
Consensus.v
ConsensusProofs.v
SigningGuard.v
SigningGuardProofs.v
Lending.v
ComputeModel.v
ComputeWire.v
ComputeMarket.v
ComputeProofs.v
Contracts.v
DeviceCredential.v
Execution.v
ExecutionExtended.v
ExecutionValue.v
ExecutionLoans.v
ExecutionCompute.v
ExecutionTokens.v
ExecutionProofs.v
ExecutionIds.v
ExecutionTyping.v
Worldstate.v
WorldstateProofs.v
WorldstateDurable.v
Batch.v
BatchAccess.v
BatchProofs.v
ComputeWork.v
EconomicsPolicy.v
EconomicsEpoch.v
EconomicsCollector.v
EconomicsEngine.v
EconomicsProofs.v
CollectorProofs.v
Node.v
NodeJournal.v
NodeProofs.v
NodeRecovery.v
NodeHistory.v
AnchorProofs.v
HistoryProofs.v
HistoryRecovery.v
HistoryReplay.v
Governance.v
Checkpoint.v
Genesis.v
Vrf.v
Committee.v
Witness.v
WitnessProofs.v
IdleCapital.v
IdleTracker.v
IdleTrackerProofs.v
IdleLineage.v
IdleLineageProofs.v
