(* ===== verification/Prelude.v ===== *)
(** * A verification of the Zephyr Chain protocol, version 2

    The program ([internal/v2]) is a sharded blockchain over objects.  A
    transaction names the objects it consumes with their Merkle witnesses, is
    signed by its sender, and is executed by an engine against those witnesses
    alone; its result is a delta (objects consumed and created) and outputs for
    other shards.  A store keeps the objects of a shard under a sparse Merkle
    root, in memory or durably with a log and checkpoints.  Each block commits
    to the roots of all shards; validators certify its header by weighted
    votes, guarded by a journal against double signing; outputs for other
    shards travel as receipts proved against certified headers.

    ** The library

    Every definition is a translation of the Go code it is mapped to, keeps its
    name where possible, and computes: fallible code returns [res], state is
    passed explicitly, machine integers are [Z] with the wrap-around written
    out ([add64], [sub64], [mul64], [add32]), byte strings are [list byte],
    maps are [gmap].  Wherever the source ranges over a map, the order of
    iteration is an instance of the class [MapOrder], about which only that it
    enumerates the map is known.  SHA-256 and P-256 are the class [Crypto]:
    its only law is the length of a digest, so that no theorem rests on the
    absence of collisions; where one is needed to conclude, the statement
    exhibits the two colliding inputs.  [Crypto.v] also defines SHA-256 itself
    and two checksums that make closed examples cheap to evaluate.

    - [Prelude], [GoLib]: bytes, integers, the monad [res] with its inversion
      tactics ([res_inv], [bool_inv]), loops ([rfold], [rfoldi]) and their
      invariant rules; sorting, binary search, [strings.TrimSpace], maps of
      amounts.
    - [Codec] ([codec/codec.go]): writer and reader, with the hint database
      and tactics ([parse_inv], [solve_reads]) all wire formats use, and the
      class [Wire] of canonical formats.
    - [Crypto], [Types] ([types/types.go]).
    - [Merkle] ([merkle]), [Smt], [SmtProofs], [SmtTheorems] ([state]): the
      binary tree of commitments and the sparse tree of the state.
    - [Object] ([object]), [Assets] ([assets]), [Sharding], [ShardingProofs]
      ([sharding]), [Tx], [TxProofs] ([tx]).
    - [Consensus], [ConsensusProofs] ([consensus]), [SigningGuard],
      [SigningGuardProofs] ([consensus/signing_guard.go]).
    - [Lending] ([lending]), [ComputeModel], [ComputeWire], [ComputeMarket],
      [ComputeProofs] ([compute]), [Contracts] ([contracts]),
      [DeviceCredential] ([devicecredential]).
    - [Execution], [ExecutionExtended] ([execution]): the engine and its 29
      operations; [ExecutionValue], [ExecutionLoans], [ExecutionCompute],
      [ExecutionTokens], [ExecutionProofs]: value; [ExecutionIds],
      [ExecutionTyping]: identifiers and types of what is created.
    - [Worldstate], [WorldstateProofs], [WorldstateDurable] ([worldstate]).
    - [Batch], [BatchAccess], [BatchProofs] ([execution/parallel.go]).
    - [ComputeWork] ([compute/work.go], [settled_work.go],
      [settlement_receipt.go]).
    - [EconomicsPolicy], [EconomicsEpoch], [EconomicsCollector],
      [EconomicsEngine], [EconomicsProofs], [CollectorProofs] ([economics]):
      fees, monetary policy, indices, the collector of an epoch and the
      engine that closes it.
    - [IdleCapital], [IdleTracker], [IdleTrackerProofs]
      ([economics/idle_capital.go], [idle_tracker.go]): lots of capital with
      their age, and the tracker that follows them; [IdleLineage],
      [IdleLineageProofs] ([economics/finalized_*_capital*.go],
      [finalized_compute_productive.go], [compute_capital_components.go]):
      what transfers, imports, the compute market and cross-shard loans do to
      it.  The collector is stated over the class [IdleCapital] of
      [EconomicsCollector]; [idle_tracker] is the instance of the program.
    - [Node], [NodeJournal], [NodeProofs], [NodeRecovery] ([node]): candidate
      blocks, preflight, the journalled commit and recovery.  Effects outside
      the process are parameters that say where a write fails and whether a
      failed write reached the disk.  [NodeHistory], [HistoryProofs],
      [HistoryRecovery], [HistoryReplay], [AnchorProofs] (certified history,
      finality anchor, recovery of a genesis successor).
    - [Governance], [Checkpoint], [Genesis], [Vrf], [Committee]: the packages
      of these names.  The curve operations of the VRF are a class.
    - [Witness], [WitnessProofs] ([node/witness_*.go]): signed checkpoints of
      independent witnesses, their signing intents, floors and fences.

    ** The theorems

    - Value: an accepted transaction conserves every token, over all
      operations, escrows and messages included, as long as no job is at the
      1024 entries its decoder reads, and spends only the signer's coins; settlements of compute jobs pay out exactly what was locked;
      repayments are exact; the recorded supply of a token is.
    - State: the sparse tree commits to its values alone, previews predict
      updates, proofs are complete and binding; the store's root commits to
      exactly its objects, and simulation predicts application.
    - Durability: within the limits of the file readers, which the writers do
      not enforce, the directory reopens after a crash at any byte of a write
      to the state before or after; recovery terminates on any file.
    - Batches: the outcome does not depend on workers or scheduling, and is
      serializable in every order, over any store that meets the class
      [BackendSpec], which both stores do.
    - Consensus: two certificates of one height and round on different headers
      need more than a third of the power to sign twice; the guard never
      authorises two targets for a height and round over any history of
      failures and restarts; the proposer is unique, fair and independent of
      the order of the set.
    - Sharding: a finalised receipt was in the finalised batch of its shard
      (or a collision is exhibited), honest receipts verify, and a receipt is
      consumed once.
    - Formats: parsers accept exactly the canonical encodings.
    - Economics: fees are split without loss, the collector's books balance
      over every history of blocks, the inflation target stays in its band.
      Idle capital: splitting never makes capital younger; the tracker holds
      exactly what was bootstrapped less what was burned and restores from
      its checkpoint while it is within the bound on lots; transfers move each coin with its lineage and age, also
      across shards; every finalised operation leaves the tracker well formed.
    - Nodes: a candidate does not depend on scheduling and can be committed by
      the node that built it; a commit reaches exactly the certified roots or
      fails closed; wherever it is interrupted, recovery from the journal
      completes it (shown for nodes without shadow economics, whose checkpoint
      is not modelled); nodes with certificates of one round agree; such a
      node recovers from its own certified history, never below a mark of its
      anchor or the checkpoint of the operator.
    - Light clients, witnesses, committees, genesis: a fork of two checkpoint
      chains names validators of more than a third of the power that signed
      both sides, or a collision of SHA-256; witnesses
      never clear conflicting intents; a committee is determined by its input;
      nodes with the same genesis file start alike.

    ** Bounds and fuel

    Loops whose recursion is not structural take a fuel argument that the
    caller computes from the data: the tree loops of [Merkle] as many levels
    as leaves, binary search the length of the interval, [TrimSpace] the
    length of the string, the replay loops one more than the bytes of the
    file; lemmas show that the fuel is not what ends them ([replay_terminates],
    [search_loop_spec], [Root_loop_up], [TrimSpace_trimmed]).  Theorems on
    [Execute] assume that no job witness is within two entries of the limit of
    1024 that [ParseOnChainJob] enforces ([job_room]); those on the durable
    store that a checkpoint and a log record stay within the limits their
    readers enforce ([checkpoint_fits], [maxWALEntries]): beyond them the code
    fails, as the findings of the manifest say.

    ** Not modelled

    The Starlark interpreter behind [contracts/script_runtime.go] (a
    third-party package; a parameter, class [ScriptHost]); operating system
    locks, goroutines below the level of schedules; networking, HTTP,
    metrics, commands and simulations; the first version of the chain
    ([internal/ledger], [internal/consensus], [internal/dpos], [internal/api]),
    which version 2 replaces.
    Left out as well: the network service of the node and the light API
    (requests and answers over the modelled functions); the codecs of the
    collector's and the engine's checkpoints and of the economic checkpoint of
    the node (a class without laws: what a theorem needs is its hypothesis);
    the price baskets ([economics/zppi.go], [zeci.go], [zcu_reference.go]) and
    the telemetry per provider, reports that no decision reads; erasure coding
    ([da], a third-party codec), the job runner ([provider]: files and
    processes), the phone's client ([citizen], [mobile]) and the shadow
    evidence of contribution ([contribution]), which the node does not call.
*)

From Stdlib Require Export ZArith Lia.
From Stdlib.Strings Require Export Byte.
From stdpp Require Export prelude gmap list sorting.

Open Scope Z_scope.

(** ** Bytes *)

Abbreviation bytes := (list byte).

#[global] Instance byte_eq_dec : EqDecision byte := Byte.byte_eq_dec.

#[global] Program Instance byte_countable : Countable byte :=
  inj_countable Byte.to_N (fun n => Byte.of_N n) _.
Next Obligation. intros b. apply Byte.of_to_N. Qed.

Definition Z_of_byte (b : byte) : Z := Z.of_N (Byte.to_N b).

(** Truncating conversion, [byte(x)] of Go. *)
Definition byte_of_Z (z : Z) : byte :=
  match Byte.of_N (Z.to_N (z mod 256)) with Some b => b | None => x00 end.

Lemma Z_of_byte_range b : 0 <= Z_of_byte b < 256.
Proof. unfold Z_of_byte. pose proof (Byte.to_N_bounded b). lia. Qed.

Lemma Z_of_byte_of_Z z : Z_of_byte (byte_of_Z z) = z mod 256.
Proof.
  unfold Z_of_byte, byte_of_Z.
  pose proof (Z.mod_pos_bound z 256 ltac:(lia)) as Hb.
  destruct (Byte.of_N (Z.to_N (z mod 256))) as [b|] eqn:E.
  - apply Byte.to_of_N in E. rewrite E. lia.
  - apply Byte.of_N_None_iff in E. lia.
Qed.

Lemma byte_of_Z_of_byte b : byte_of_Z (Z_of_byte b) = b.
Proof.
  unfold byte_of_Z, Z_of_byte.
  pose proof (Byte.to_N_bounded b).
  rewrite Z.mod_small by lia. rewrite N2Z.id, Byte.of_to_N. done.
Qed.

#[global] Instance Z_of_byte_inj : Inj (=) (=) Z_of_byte.
Proof.
  intros b1 b2 H. rewrite <-(byte_of_Z_of_byte b1), H. apply byte_of_Z_of_byte.
Qed.

(** ** Big-endian integers (encoding/binary.BigEndian) *)

Fixpoint be (n : nat) (z : Z) : bytes :=
  match n with
  | O => []
  | S n => be n (z / 256) ++ [byte_of_Z z]
  end.

Definition be_val (l : bytes) : Z :=
  foldl (fun acc b => acc * 256 + Z_of_byte b) 0 l.

Lemma length_be n z : length (be n z) = n.
Proof. revert z. induction n; intros z; simpl; [done|]. rewrite length_app, IHn. simpl. lia. Qed.

Lemma be_val_snoc l b : be_val (l ++ [b]) = be_val l * 256 + Z_of_byte b.
Proof. unfold be_val. rewrite foldl_app. done. Qed.

Lemma be_val_be n z : be_val (be n z) = z mod 256 ^ Z.of_nat n.
Proof.
  revert z. induction n as [|n IH]; intros z; cbn [be].
  - rewrite Z.mod_1_r. done.
  - rewrite be_val_snoc, IH, Z_of_byte_of_Z.
    rewrite Nat2Z.inj_succ, Z.pow_succ_r by lia.
    rewrite Z.rem_mul_r by lia. lia.
Qed.

Lemma be_val_range l : 0 <= be_val l < 256 ^ Z.of_nat (length l).
Proof.
  induction l as [|b l IH] using rev_ind; [done|].
  rewrite be_val_snoc, length_app. simpl. rewrite Nat.add_1_r, Nat2Z.inj_succ, Z.pow_succ_r by lia.
  pose proof (Z_of_byte_range b). nia.
Qed.

Lemma be_be_val l : be (length l) (be_val l) = l.
Proof.
  induction l as [|b l IH] using rev_ind; [done|].
  rewrite length_app, Nat.add_1_r. simpl. rewrite be_val_snoc.
  pose proof (Z_of_byte_range b).
  rewrite Z.div_add_l by lia. rewrite (Z.div_small (Z_of_byte b)) by lia.
  rewrite Z.add_0_r, IH. f_equal. f_equal.
  apply (inj Z_of_byte). rewrite Z_of_byte_of_Z, Z.add_comm, Z.mod_add by lia.
  apply Z.mod_small. lia.
Qed.

Lemma be_val_small n z : 0 <= z < 256 ^ Z.of_nat n -> be_val (be n z) = z.
Proof. intros. rewrite be_val_be. apply Z.mod_small. done. Qed.

Lemma to_nat_pow2 k : Z.to_nat (2 ^ Z.of_nat k) = (2 ^ k)%nat.
Proof.
  change 2 with (Z.of_nat 2). rewrite <-Nat2Z.inj_pow. apply Nat2Z.id.
Qed.

#[global] Arguments be : simpl never.
#[global] Arguments be_val : simpl never.

(** [position ^ 1] flips the last bit. *)
Lemma lxor_even_1 k : Nat.lxor (2 * k) 1 = (2 * k + 1)%nat.
Proof.
  apply Nat.bits_inj_iff. intros i. rewrite Nat.lxor_spec.
  destruct i as [|i]; [by rewrite Nat.testbit_even_0, Nat.testbit_odd_0|].
  rewrite (eq_trans (Nat.testbit_odd_succ' 0 i) (Nat.bits_0 i) : Nat.testbit 1 (S i) = false).
  by rewrite Nat.testbit_even_succ', Nat.testbit_odd_succ', xorb_false_r.
Qed.

Lemma lxor_odd_1 k : Nat.lxor (2 * k + 1) 1 = (2 * k)%nat.
Proof.
  apply Nat.bits_inj_iff. intros i. rewrite Nat.lxor_spec.
  destruct i as [|i]; [by rewrite Nat.testbit_even_0, Nat.testbit_odd_0|].
  rewrite (eq_trans (Nat.testbit_odd_succ' 0 i) (Nat.bits_0 i) : Nat.testbit 1 (S i) = false).
  by rewrite Nat.testbit_even_succ', Nat.testbit_odd_succ', xorb_false_r.
Qed.

(** ** Errors and results

    Go functions return a value and an [error]; the model returns [Ok v] or
    [Err e].  One constructor per error value of the packages that are
    modelled; a package prefix is added only where two packages use the same
    name. *)

Inductive error : Set :=
  (* codec *)
  | ErrUnexpectedEOF | ErrTrailingData | ErrLengthLimit | ErrInvalidBool
  (* merkle, state *)
  | ErrIndex | ErrInvalidProof
  (* object, assets *)
  | ErrInvalidObject | ErrInvalidCoin | ErrInvalidTokenDefinition
  (* tx *)
  | ErrVersion | ErrNetwork | ErrSender | ErrSignature | ErrCanonicalSig
  | ErrStructure | ErrWitness | ErrExpired | ErrWire
  (* execution *)
  | ErrUnsupportedOperation | ErrOwnership | ErrConservation | ErrOverflow
  | ErrShard | ErrTokenPolicy | ErrBatchConflict | ErrBatchStateRoot
  (* sharding *)
  | ErrShardCount | ErrReceipt | ErrReceiptProof | ErrReceiptReplay
  (* worldstate *)
  | ErrObjectNotFound | ErrObjectExists | ErrPersistenceNetwork
  | ErrPersistenceCorrupt | ErrPersistenceClosed
  (* lending *)
  | ErrLending | ErrLendingState
  (* compute *)
  | ErrInvalidOffer | ErrInvalidJob | Compute_ErrInvalidResult
  | ErrMarketNotFound | ErrMarketState | ErrMarketMatch | ErrMarketEscrow
  | ErrMarketVerification | ErrMarketDuplicate | ErrComputeMessage
  (* contracts *)
  | ErrInvalidModule | ErrInvalidDeployment | ErrFuelExhausted
  | ErrUndeclaredAccess | ErrContractWire | ErrInvalidRequest
  | Contracts_ErrInvalidResult
  (* consensus *)
  | ErrValidatorSet | ErrProposal | ErrVote | ErrCertificate
  | ErrInsufficientPower | ErrValidatorWire | ErrSigningGuard
  | ErrSigningConflict | ErrSigningJournal
  (* devicecredential *)
  | ErrCredential | ErrDeviceProof
  (* compute work accounting *)
  | ErrInvalidWorkSpec | ErrInvalidWorkRegistry | ErrInvalidWorkSettlement
  (* economics *)
  | ErrFeePolicy | ErrResourceFee | ErrMonetaryPolicy | ErrEpochMetrics
  | ErrComputeIndex | ErrComputeScarcity | ErrComputeFeedback | ErrVelocity
  | ErrMonetaryState | ErrShadowEpochEngine | ErrZPPI | ErrZCUReference
  | ErrFinalizedEconomics | ErrIdleCapital | ErrZECI
  (* node *)
  | ErrRuntimeConfig | ErrCandidateHeight | ErrCandidateState | ErrCandidateCert
  | ErrStateSimulation | ErrReceiptImport | ErrRuntimeRecoveryRequired
  | ErrGlobalCommitJournal | ErrCertifiedHistory | ErrEconomicCheckpoint
  | ErrFinalityAnchor | ErrFinalityCheckpoint | ErrServiceConfig
  | ErrNotValidator | ErrNotProposer | ErrNoQuorum | ErrProposalState
  | ErrDoubleVote | ErrMempoolConflict | ErrNoSnapshot
  (* governance, checkpoint, genesis, committee, contribution, citizen, da *)
  | ErrGovernance | ErrCheckpointConfig | ErrCheckpointSequence
  | ErrCheckpointValidators | ErrCheckpointCert
  | ErrProtocolVersion | ErrChainName | ErrShardConfig | ErrValidator
  | ErrAllocation | ErrVotingPower | ErrAllocationSupply | ErrGenesisState
  | ErrCommittee | ErrShadowEvidence | ErrChallengeEvidence | ErrTrustedBundle
  | ErrFinality | ErrInvalidSample | ErrInvalidErasureConfig | ErrReconstruction
  (* vrf, witnesses, network, provider *)
  | ErrInvalidPublicKey | Vrf_ErrInvalidProof | ErrInvalidInput | ErrVerifyFailed
  | ErrWitnessCheckpoint | ErrWitnessEvidenceSet | ErrWitnessEquivocation
  | ErrWitnessSigningIntent | ErrNetworkWire | ErrSnapshot
  (* an error of the operating system *)
  | ErrIO.

#[global] Instance error_eq_dec : EqDecision error.
Proof. solve_decision. Defined.

Inductive res (A : Type) : Type :=
  | Ok (a : A)
  | Err (e : error).
Arguments Ok {A} a.
Arguments Err {A} e.

#[global] Instance res_eq_dec {A} `{EqDecision A} : EqDecision (res A).
Proof. solve_decision. Defined.

#[global] Instance res_ret : MRet res := fun A a => Ok a.
#[global] Instance res_bind : MBind res := fun A B f m =>
  match m with Ok a => f a | Err e => Err e end.
#[global] Instance res_fmap : FMap res := fun A B f m =>
  match m with Ok a => Ok (f a) | Err e => Err e end.

Definition is_ok {A} (r : res A) : bool := match r with Ok _ => true | Err _ => false end.

(** The value of a result, or a default: for closed examples. *)
Definition ok_or {A} (d : A) (r : res A) : A := match r with Ok a => a | Err _ => d end.

(** [if cond { return ErrX }] *)
Definition fail_if (cond : bool) (e : error) : res unit :=
  if cond then Err e else Ok tt.

(** [if err != nil { return ErrX }]: the callee's error is replaced. *)
Definition or_err {A} (r : res A) (e : error) : res A :=
  match r with Ok a => Ok a | Err _ => Err e end.

(** [v, ok := f(); if !ok { return ErrX }] *)
Definition some_or {A} (o : option A) (e : error) : res A :=
  match o with Some a => Ok a | None => Err e end.

Declare Scope go_scope.
#[global] Open Scope go_scope.
Notation "m <?> e" := (or_err m e) (at level 59, left associativity) : go_scope.

(** A Go [for] loop over a slice whose body may return an error. *)
Fixpoint rfold {A B} (f : B -> A -> res B) (acc : B) (l : list A) : res B :=
  match l with
  | [] => Ok acc
  | x :: l => acc' ← f acc x; rfold f acc' l
  end.

(** The same loop with the index, [for i, x := range l]. *)
Fixpoint rfoldi {A B} (i : Z) (f : Z -> B -> A -> res B) (acc : B) (l : list A) : res B :=
  match l with
  | [] => Ok acc
  | x :: l => acc' ← f i acc x; rfoldi (i + 1) f acc' l
  end.

Lemma bind_Ok {A B} (m : res A) (f : A -> res B) b :
  (m ≫= f) = Ok b -> exists a, m = Ok a /\ f a = Ok b.
Proof. destruct m; cbn; [eauto|done]. Qed.

Lemma Ok_inj {A} (a b : A) : Ok a = Ok b -> a = b.
Proof. by intros [= ?]. Qed.

Lemma is_ok_true {A} (r : res A) : is_ok r = true -> exists a, r = Ok a.
Proof. destruct r; [eauto|discriminate]. Qed.

Lemma fmap_Ok {A B} (m : res A) (f : A -> B) b :
  (f <$> m) = Ok b -> exists a, m = Ok a /\ b = f a.
Proof. destruct m; cbn; [|done]. intros [= <-]. eauto. Qed.

Lemma fail_if_Ok c e u : fail_if c e = Ok u -> c = false.
Proof. destruct c; done. Qed.

Lemma or_err_Ok {A} (r : res A) e a : (r <?> e) = Ok a -> r = Ok a.
Proof. destruct r; done. Qed.

Lemma some_or_Ok {A} (o : option A) e a : some_or o e = Ok a -> o = Some a.
Proof. destruct o; cbn; congruence. Qed.

Lemma rfold_app {A B} (f : B -> A -> res B) acc l1 l2 :
  rfold f acc (l1 ++ l2) = (acc' ← rfold f acc l1; rfold f acc' l2).
Proof. revert acc. induction l1; intros acc; cbn; [done|]. destruct (f acc a); cbn; eauto. Qed.

(** Invariant rule for a loop that succeeds. *)
Lemma rfold_inv {A B} (P : B -> list A -> Prop) (f : B -> A -> res B) l :
  forall acc acc' done,
    P acc done ->
    (forall a b done' x, P a done' -> x ∈ l -> f a x = Ok b -> P b (done' ++ [x])) ->
    rfold f acc l = Ok acc' ->
    P acc' (done ++ l).
Proof.
  induction l as [|x l IH]; intros acc acc' dn H0 Hs H; cbn in H.
  - injection H as <-. rewrite app_nil_r. done.
  - apply bind_Ok in H as (b & Hb & H).
    rewrite (cons_middle x dn l), app_assoc.
    eapply IH; [eapply Hs; [done|left|done] | | done].
    intros. eapply Hs; [done|by right|done].
Qed.

Lemma rfoldi_inv {A B} (P : B -> list A -> Prop) (f : Z -> B -> A -> res B) l :
  forall i acc acc' done,
    i = Z.of_nat (length done) ->
    P acc done ->
    (forall a b done' x, P a done' -> x ∈ l ->
       f (Z.of_nat (length done')) a x = Ok b -> P b (done' ++ [x])) ->
    rfoldi i f acc l = Ok acc' ->
    P acc' (done ++ l).
Proof.
  induction l as [|x l IH]; intros i acc acc' dn Hi H0 Hs H; cbn in H.
  - injection H as <-. rewrite app_nil_r. done.
  - apply bind_Ok in H as (b & Hb & H). subst i.
    rewrite (cons_middle x dn l), app_assoc.
    eapply IH; [ | eapply Hs; [done|left|done] | | done].
    + rewrite length_app. simpl. lia.
    + intros. eapply Hs; [done|by right|done].
Qed.

Lemma rfold_unit_Forall {A} (f : unit -> A -> res unit) l u :
  rfold f tt l = Ok u -> Forall (fun x => f tt x = Ok tt) l.
Proof.
  induction l as [|x l IH]; cbn; intros Hf; [constructor|].
  apply bind_Ok in Hf as ([] & Hx & Hf). constructor; [done|by apply IH].
Qed.

Lemma rfold_unit_intro {A} (f : unit -> A -> res unit) l :
  Forall (fun x => f tt x = Ok tt) l -> rfold f tt l = Ok tt.
Proof. induction 1 as [|x l Hx _ IH]; cbn; [done|]. by rewrite Hx. Qed.

(** ** Fixed-width unsigned integers *)

Definition MaxUint64 : Z := 2 ^ 64 - 1.
Definition MaxUint32 : Z := 2 ^ 32 - 1.

Definition u8 (z : Z) : Prop := 0 <= z < 2 ^ 8.
Definition u16 (z : Z) : Prop := 0 <= z < 2 ^ 16.
Definition u32 (z : Z) : Prop := 0 <= z < 2 ^ 32.
Definition u64 (z : Z) : Prop := 0 <= z < 2 ^ 64.

(** [uint64] arithmetic wraps around. *)
Definition add64 (a b : Z) : Z := (a + b) mod 2 ^ 64.
Definition sub64 (a b : Z) : Z := (a - b) mod 2 ^ 64.
Definition mul64 (a b : Z) : Z := (a * b) mod 2 ^ 64.
Definition add32 (a b : Z) : Z := (a + b) mod 2 ^ 32.
Definition sub32 (a b : Z) : Z := (a - b) mod 2 ^ 32.

(** [uint32(x)], [int64(x)], [int32(x)]: two's complement truncation. *)
Definition uint32 (z : Z) : Z := z mod 2 ^ 32.
Definition int64 (z : Z) : Z := (z + 2 ^ 63) mod 2 ^ 64 - 2 ^ 63.
Definition int32 (z : Z) : Z := (z + 2 ^ 31) mod 2 ^ 32 - 2 ^ 31.

(** [IsUint64] of a [big.Int]. *)
Definition IsUint64 (z : Z) : bool := (0 <=? z) && (z <=? MaxUint64).

Lemma int64_small z : - 2 ^ 63 <= z < 2 ^ 63 -> int64 z = z.
Proof. intros. unfold int64. rewrite Z.mod_small; lia. Qed.

Lemma int32_small z : - 2 ^ 31 <= z < 2 ^ 31 -> int32 z = z.
Proof. intros. unfold int32. rewrite Z.mod_small; lia. Qed.

Lemma uint32_small z : 0 <= z < 2 ^ 32 -> uint32 z = z.
Proof. intros. unfold uint32. apply Z.mod_small; lia. Qed.

Lemma IsUint64_spec z : IsUint64 z = true <-> u64 z.
Proof. unfold IsUint64, u64, MaxUint64. lia. Qed.

(** The overflow guard of the code base: [math.MaxUint64-a < b]. *)
Definition overflows (a b : Z) : bool := sub64 MaxUint64 a <? b.

Lemma overflows_spec a b : u64 a -> overflows a b = negb (a + b <=? MaxUint64).
Proof.
  unfold u64, overflows, sub64, MaxUint64. intros.
  rewrite Z.mod_small by lia. lia.
Qed.

Lemma add64_small a b : u64 a -> 0 <= b -> overflows a b = false -> add64 a b = a + b /\ u64 (a + b).
Proof.
  intros Ha Hb Ho. rewrite overflows_spec in Ho by done.
  unfold u64, add64, MaxUint64 in *. split; [apply Z.mod_small|]; lia.
Qed.

(** ** Byte arrays of fixed size *)

Definition zero32 : bytes := replicate 32 x00.
Definition IsZero32 (v : bytes) : bool := bool_decide (v = zero32).

Lemma nth_replicate {A} n (x : A) i : nth i (replicate n x) x = x.
Proof. revert i. induction n; intros [|i]; simpl; auto. Qed.

(** [len(v)] as an [int]. *)
Definition blen {A} (v : list A) : Z := Z.of_nat (length v).

(** A Go array type [[n]byte]. *)
Definition arr (n : nat) (v : bytes) : Prop := length v = n.
Abbreviation arr32 := (arr 32).

Lemma arr_zero32 : arr32 zero32.
Proof. done. Qed.

(** ** Tactics *)

(** [res_inv]: turn hypotheses [... = Ok _] about sequenced computations into
    the facts of each step. *)
Ltac res_inv_step :=
  match goal with
  | H : (_ ≫= _) = Ok _ |- _ =>
      let a := fresh "a" in let H1 := fresh "H" in let H2 := fresh "H" in
      apply bind_Ok in H as (a & H1 & H2)
  | H : (_ <$> _) = Ok _ |- _ =>
      let a := fresh "a" in let H1 := fresh "H" in
      apply fmap_Ok in H as (a & H1 & ->)
  | H : fail_if _ _ = Ok _ |- _ => apply fail_if_Ok in H
  | H : (_ <?> _) = Ok _ |- _ => apply or_err_Ok in H
  | H : some_or _ _ = Ok _ |- _ => apply some_or_Ok in H
  | H : Ok ?x = Ok ?y |- _ =>
      (* [injection] would compute the sides *)
      first [is_var y; apply Ok_inj in H; subst y | is_var x; apply Ok_inj in H; subst x
            | injection H; clear H; intros; subst]
  | H : mret _ = Ok _ |- _ => injection H; clear H; intros; subst
  | H : Err _ = Ok _ |- _ => discriminate H
  | a : unit |- _ => destruct a
  end.
Ltac res_inv := repeat res_inv_step.

(** Split boolean guards that were found false or true. *)
Ltac bool_inv :=
  repeat match goal with
  | H : _ || _ = false |- _ => apply orb_false_iff in H as [? ?]
  | H : _ && _ = true |- _ => apply andb_true_iff in H as [? ?]
  | H : negb _ = false |- _ => apply negb_false_iff in H
  | H : negb _ = true |- _ => apply negb_true_iff in H
  | H : bool_decide _ = true |- _ => apply bool_decide_eq_true in H
  | H : bool_decide _ = false |- _ => apply bool_decide_eq_false in H
  | H : IsZero32 _ = false |- _ => unfold IsZero32 in H
  end.
