(* ===== verification/GoLib.v ===== *)
(** * GoLib

    The functions of the Go standard library the protocol code calls:
    [bytes.Compare] and the order on byte strings, [sort.Slice] with such a
    key, [hex.EncodeToString], [strings.TrimSpace]. *)

From stdpp Require Export strings.
From S2P Require Import Prelude.

Open Scope Z_scope.

(** A Go string constant as bytes. *)
Definition str (s : string) : bytes := String.list_byte_of_string s.
Arguments str s%_string.

(** ** bytes.Compare *)

Fixpoint bytes_compare (a b : bytes) : comparison :=
  match a, b with
  | [], [] => Eq
  | [], _ :: _ => Lt
  | _ :: _, [] => Gt
  | x :: a, y :: b =>
      match Z_of_byte x ?= Z_of_byte y with
      | Eq => bytes_compare a b
      | c => c
      end
  end.

Definition bytes_ltb (a b : bytes) : bool :=
  match bytes_compare a b with Lt => true | _ => false end.
Definition bytes_le (a b : bytes) : Prop := bytes_compare a b <> Gt.

#[global] Instance bytes_le_dec : RelDecision bytes_le.
Proof.
  intros a b. unfold bytes_le, Decision.
  destruct (bytes_compare a b); [left|left|right]; congruence.
Defined.

Lemma bytes_compare_eq a b : bytes_compare a b = Eq <-> a = b.
Proof.
  revert b. induction a as [|x a IH]; intros [|y b]; simpl; try done.
  destruct (Z.compare_spec (Z_of_byte x) (Z_of_byte y)) as [H|H|H].
  - apply (inj Z_of_byte) in H as ->. rewrite IH. split; [by intros -> | by intros [= ->]].
  - split; [done|]. intros [= -> ->]. lia.
  - split; [done|]. intros [= -> ->]. lia.
Qed.

Lemma bytes_compare_refl a : bytes_compare a a = Eq.
Proof. by apply bytes_compare_eq. Qed.

Lemma bytes_compare_antisym a b : bytes_compare b a = CompOpp (bytes_compare a b).
Proof.
  revert b. induction a as [|x a IH]; intros [|y b]; simpl; try done.
  rewrite (Z.compare_antisym (Z_of_byte x)).
  destruct (Z_of_byte x ?= Z_of_byte y); simpl; auto.
Qed.

Lemma bytes_compare_lt_trans a b c :
  bytes_compare a b = Lt -> bytes_compare b c = Lt -> bytes_compare a c = Lt.
Proof.
  revert b c. induction a as [|x a IH]; intros [|y b] [|z c]; simpl; try done.
  destruct (Z.compare_spec (Z_of_byte x) (Z_of_byte y)) as [H1|H1|H1],
    (Z.compare_spec (Z_of_byte y) (Z_of_byte z)) as [H2|H2|H2]; try done;
  destruct (Z.compare_spec (Z_of_byte x) (Z_of_byte z)); try lia; eauto.
Qed.

#[global] Instance bytes_le_total : Total bytes_le.
Proof.
  intros a b. unfold bytes_le. rewrite (bytes_compare_antisym a b).
  destruct (bytes_compare a b); simpl; auto.
Qed.

#[global] Instance bytes_le_trans : Transitive bytes_le.
Proof.
  intros a b c. unfold bytes_le. intros H1 H2.
  destruct (bytes_compare a b) eqn:E1; [apply bytes_compare_eq in E1 as ->; done| |done].
  destruct (bytes_compare b c) eqn:E2; [apply bytes_compare_eq in E2 as ->; congruence| |done].
  rewrite (bytes_compare_lt_trans _ _ _ E1 E2). done.
Qed.

#[global] Instance bytes_le_antisym : AntiSymm (=) bytes_le.
Proof.
  intros a b. unfold bytes_le. rewrite (bytes_compare_antisym a b).
  destruct (bytes_compare a b) eqn:E; simpl; try done. intros _ _. by apply bytes_compare_eq.
Qed.

Lemma bytes_ltb_false a b : bytes_ltb a b = false <-> bytes_le b a.
Proof.
  unfold bytes_ltb, bytes_le. rewrite (bytes_compare_antisym a b). by destruct (bytes_compare a b).
Qed.

(** ** hex.EncodeToString *)

Definition hex_digit (d : Z) : byte :=
  if d <? 10 then byte_of_Z (48 + d) else byte_of_Z (87 + d).

Definition hex (b : bytes) : bytes :=
  concat (map (fun x => [hex_digit (Z_of_byte x / 16); hex_digit (Z_of_byte x mod 16)]) b).

(** ** sort.Slice by a key

    The code sorts by byte strings ([bytes.Compare]) and by integers; the
    lemmas hold for every totally ordered key. *)

Class KeyOrder (K : Type) := {
  kle : relation K;
  kle_dec :: RelDecision kle;
  kle_total :: Total kle;
  kle_trans :: Transitive kle;
  kle_antisym :: AntiSymm (=) kle;
}.

#[global] Instance bytes_order : KeyOrder bytes := {| kle := bytes_le |}.
#[global] Instance Z_order : KeyOrder Z.
Proof. refine {| kle := Z.le |}. Defined.

(** Lexicographic order of pairs: a comparison that falls back on a second key. *)
Section pair_order.
Context {A B : Type} `{HA : KeyOrder A} `{HB : KeyOrder B} `{EqDecision A}.

Definition pair_le (p q : A * B) : Prop :=
  (p.1 <> q.1 /\ kle p.1 q.1) \/ (p.1 = q.1 /\ kle p.2 q.2).

#[global] Instance pair_le_dec : RelDecision pair_le.
Proof. intros p q. unfold pair_le. apply _. Defined.

#[global] Instance pair_order : KeyOrder (A * B).
Proof.
  refine {| kle := pair_le |}.
  - intros [a b] [c d]. unfold pair_le. cbn [fst snd]. destruct (decide (a = c)) as [->|Hne].
    + destruct (kle_total b d); [left|right]; by right.
    + destruct (kle_total a c); [left|right]; left; split; done || congruence.
  - intros [a b] [c d] [e f]. unfold pair_le. cbn [fst snd].
    intros [[H1 H2]|[-> H2]] [[H3 H4]|[-> H4]].
    + left. split; [|by etrans]. intros Heq. apply H1. rewrite <-Heq in H4. by apply (kle_antisym a c).
    + by left.
    + by left.
    + right. split; [done|by etrans].
  - intros [a b] [c d]. unfold pair_le. cbn [fst snd]. intros [[H1 H2]|[-> H2]] [[H3 H4]|[H3 H4]]; try congruence.
    + exfalso. apply H1. by apply (kle_antisym a c).
    + f_equal. by apply (kle_antisym b d).
Defined.
End pair_order.

Section sort.
Context {A K : Type} `{KeyOrder K} (key : A -> K).

Definition key_le (x y : A) : Prop := kle (key x) (key y).

#[global] Instance key_le_dec : RelDecision key_le.
Proof. intros x y. apply kle_dec. Defined.
#[global] Instance key_le_total : Total key_le.
Proof. intros x y. apply kle_total. Qed.
#[global] Instance key_le_trans : Transitive key_le.
Proof. intros x y z. apply kle_trans. Qed.

Definition sort_by (l : list A) : list A := merge_sort key_le l.

Lemma sort_by_perm l : sort_by l ≡ₚ l.
Proof. apply merge_sort_Permutation. Qed.

Lemma sort_by_sorted l : StronglySorted key_le (sort_by l).
Proof. apply StronglySorted_merge_sort; apply _. Qed.

Lemma length_sort_by l : length (sort_by l) = length l.
Proof. by rewrite sort_by_perm. Qed.

Lemma elem_of_sort_by x l : x ∈ sort_by l <-> x ∈ l.
Proof. by rewrite sort_by_perm. Qed.

Lemma NoDup_sort_by l : NoDup l -> NoDup (sort_by l).
Proof. by rewrite sort_by_perm. Qed.
End sort.

(** Two strongly sorted lists with the same members and pairwise distinct keys
    are the same list: the result of [sort.Slice] does not depend on the order
    of its input, nor on the sorting algorithm. *)
Lemma sorted_unique {A K} `{KeyOrder K} (key : A -> K) (l1 l2 : list A) :
  NoDup (key <$> l1) ->
  StronglySorted (key_le key) l1 -> StronglySorted (key_le key) l2 ->
  l1 ≡ₚ l2 -> l1 = l2.
Proof.
  revert l2. induction l1 as [|x l1 IH]; intros l2 Hnd Hs1 Hs2 Hp.
  { apply Permutation_nil_l in Hp. done. }
  destruct l2 as [|y l2]; [by apply Permutation_nil_r in Hp|].
  assert (x = y) as ->.
  { apply StronglySorted_inv in Hs1 as [_ Hx]. apply StronglySorted_inv in Hs2 as [_ Hy].
    assert (x ∈ y :: l2) as Hxin by (rewrite <-Hp; left).
    assert (y ∈ x :: l1) as Hyin by (rewrite Hp; left).
    apply elem_of_cons in Hxin as [?|Hxin]; [done|].
    apply elem_of_cons in Hyin as [?|Hyin]; [done|].
    rewrite Forall_forall in Hx, Hy.
    assert (key x = key y) as Hk.
    { apply (anti_symm kle); [by apply Hx | by apply Hy]. }
    exfalso. cbn in Hnd. apply NoDup_cons in Hnd as [Hni _]. apply Hni.
    rewrite Hk. by apply list_elem_of_fmap_2. }
  f_equal. apply IH.
  - cbn in Hnd. by apply NoDup_cons in Hnd as [_ ?].
  - by apply StronglySorted_inv in Hs1 as [? _].
  - by apply StronglySorted_inv in Hs2 as [? _].
  - by apply Permutation_cons_inv in Hp.
Qed.

Lemma sort_by_proper {A K} `{KeyOrder K} (key : A -> K) (l1 l2 : list A) :
  NoDup (key <$> l1) -> l1 ≡ₚ l2 -> sort_by key l1 = sort_by key l2.
Proof.
  intros Hnd Hp. apply (sorted_unique key).
  - by rewrite sort_by_perm.
  - apply sort_by_sorted.
  - apply sort_by_sorted.
  - by rewrite !sort_by_perm.
Qed.

Lemma sorted_lookup {A K} `{KeyOrder K} (key : A -> K) (l : list A) i j x y :
  StronglySorted (key_le key) l -> (i < j)%nat -> l !! i = Some x -> l !! j = Some y -> kle (key x) (key y).
Proof.
  intros Hs. revert i j. induction Hs as [|a l Hs IH Ha]; intros i j Hij Hi Hj; [done|].
  destruct j as [|j]; [lia|]. cbn in Hj. destruct i as [|i]; cbn in Hi.
  - injection Hi as <-. rewrite Forall_forall in Ha. apply Ha. by eapply list_elem_of_lookup_2.
  - apply (IH i j); [lia|done|done].
Qed.

(** In a sorted list equal keys are adjacent: the duplicate scans after a sort
    compare neighbours only. *)
Lemma sorted_adjacent_NoDup {A K} `{KeyOrder K} (key : A -> K) (l : list A) :
  StronglySorted (key_le key) l ->
  (forall i a b, l !! i = Some a -> l !! S i = Some b -> key a <> key b) ->
  NoDup (key <$> l).
Proof.
  induction l as [|a l IH]; intros Hs Ha; [constructor|].
  apply StronglySorted_inv in Hs as [Hs Hle]. cbn. constructor.
  - intros (c & Hc & Hin)%list_elem_of_fmap. destruct l as [|b l]; [by apply not_elem_of_nil in Hin|].
    apply (Ha 0%nat a b eq_refl eq_refl). rewrite Forall_forall in Hle.
    apply (anti_symm kle); [apply (Hle b); left|]. rewrite Hc.
    apply elem_of_cons in Hin as [->|Hin]; [by destruct (total kle (key b) (key b))|].
    apply StronglySorted_inv in Hs as [_ Hb]. rewrite Forall_forall in Hb. exact (Hb c Hin).
  - apply IH; [done|]. intros i x y Hx Hy. exact (Ha (S i) x y Hx Hy).
Qed.

(** ** sort.Search

    Binary search for the least index with [f i = true]; [n] steps of fuel are
    enough since [j - i] shrinks at every step. *)
Fixpoint search_loop (fuel : nat) (f : nat -> bool) (i j : nat) : nat :=
  match fuel with
  | O => i
  | S fuel =>
      if (i <? j)%nat then
        let h := ((i + j) / 2)%nat in
        if negb (f h) then search_loop fuel f (h + 1) j else search_loop fuel f i h
      else i
  end.
Definition sort_Search (n : nat) (f : nat -> bool) : nat := search_loop n f 0 n.

Lemma search_loop_spec fuel f i j n :
  (forall a b, (a <= b)%nat -> (b < n)%nat -> f a = true -> f b = true) ->
  (i <= j <= n)%nat -> (j - i <= fuel)%nat ->
  (forall k, (k < i)%nat -> f k = false) -> (forall k, (j <= k < n)%nat -> f k = true) ->
  let r := search_loop fuel f i j in
  (r <= n)%nat /\ (forall k, (k < r)%nat -> f k = false) /\ (forall k, (r <= k < n)%nat -> f k = true).
Proof.
  intros Hmono. revert i j. induction fuel as [|fuel IH]; intros i j Hij Hf Hlo Hhi; cbn [search_loop].
  { replace j with i in * by lia. split_and!; [lia|done|done]. }
  destruct (i <? j)%nat eqn:E; [apply Nat.ltb_lt in E|apply Nat.ltb_ge in E].
  - assert (i <= (i + j) / 2 < j)%nat as Hh.
    { split; [apply Nat.div_le_lower_bound; lia|apply Nat.Div0.div_lt_upper_bound; lia]. }
    cbv zeta. destruct (f ((i + j) / 2)%nat) eqn:Ef; cbn [negb].
    + apply IH; [lia|lia|done|]. intros k Hk. apply (Hmono ((i + j) / 2)%nat k); [lia|lia|done].
    + apply IH; [lia|lia| |done]. intros k Hk.
      destruct (f k) eqn:Ek; [|done].
      rewrite (Hmono k ((i + j) / 2)%nat) in Ef; [done|lia|lia|done].
  - replace j with i in * by lia. split_and!; [lia|done|done].
Qed.

Lemma sort_Search_spec n f :
  (forall a b, (a <= b)%nat -> (b < n)%nat -> f a = true -> f b = true) ->
  (sort_Search n f <= n)%nat /\ (forall k, (k < sort_Search n f)%nat -> f k = false) /\
  (forall k, (sort_Search n f <= k < n)%nat -> f k = true).
Proof.
  intros Hm. apply (search_loop_spec n f 0 n n); [done|lia|lia| |]; intros; lia.
Qed.

(** ** strings.TrimSpace

    White space as [unicode.IsSpace] defines it, as the UTF-8 encodings of its
    code points: tab, LF, VT, FF, CR, space, U+0085, U+00A0, U+1680,
    U+2000..U+200A, U+2028, U+2029, U+202F, U+205F, U+3000. *)
Definition space_encodings : list bytes :=
  [[x09]; [x0a]; [x0b]; [x0c]; [x0d]; [x20]; [xc2; x85]; [xc2; xa0]; [xe1; x9a; x80]]
  ++ map (fun l => [xe2; x80; byte_of_Z l]) [128; 129; 130; 131; 132; 133; 134; 135; 136; 137; 138; 168; 169; 175]
  ++ [[xe2; x81; x9f]; [xe3; x80; x80]].

Fixpoint strip_prefix (p s : bytes) : option bytes :=
  match p, s with
  | [], _ => Some s
  | x :: p, y :: s => if bool_decide (x = y) then strip_prefix p s else None
  | _ :: _, [] => None
  end.

Fixpoint strip_any (ps : list bytes) (s : bytes) : option bytes :=
  match ps with
  | [] => None
  | p :: ps => match strip_prefix p s with Some s' => Some s' | None => strip_any ps s end
  end.

(** Each step removes at least one byte, so [length s] steps suffice. *)
Fixpoint trim_fuel (ps : list bytes) (fuel : nat) (s : bytes) : bytes :=
  match fuel with
  | O => s
  | S fuel => match strip_any ps s with Some s' => trim_fuel ps fuel s' | None => s end
  end.

Definition trim_left (s : bytes) : bytes := trim_fuel space_encodings (length s) s.
Definition trim_right (s : bytes) : bytes :=
  rev (trim_fuel (map (@rev byte) space_encodings) (length s) (rev s)).

Definition TrimSpace (s : bytes) : bytes := trim_right (trim_left s).

(** Fixed points of [TrimSpace]: no leading and no trailing white space. *)
Definition trimmed (s : bytes) : bool :=
  match strip_any space_encodings s with Some _ => false | None => true end &&
  match strip_any (map (@rev byte) space_encodings) (rev s) with Some _ => false | None => true end.

Lemma trim_fuel_stuck ps n s : strip_any ps s = None -> trim_fuel ps n s = s.
Proof. intros H. destruct n; simpl; [done|]. by rewrite H. Qed.

Lemma TrimSpace_trimmed s : trimmed s = true -> TrimSpace s = s.
Proof.
  unfold trimmed, TrimSpace, trim_left, trim_right. intros H.
  destruct (strip_any space_encodings s) eqn:E1; [done|].
  destruct (strip_any (map _ _) (rev s)) eqn:E2; [done|].
  rewrite (trim_fuel_stuck space_encodings) by done.
  rewrite trim_fuel_stuck by done. apply rev_involutive.
Qed.

Lemma strip_prefix_spec p s s' : strip_prefix p s = Some s' <-> s = p ++ s'.
Proof.
  revert s. induction p as [|x p IH]; intros [|y s]; simpl.
  1-2: split; [by intros [= ->] | by intros ->].
  - split; [done|]. discriminate.
  - case_bool_decide as E; [subst; rewrite IH|].
    + split; [by intros -> | by intros [= ->]].
    + split; [done|]. intros [= -> ->]. done.
Qed.

Lemma strip_any_suffix ps s s' : strip_any ps s = Some s' -> exists p, p ∈ ps /\ s = p ++ s'.
Proof.
  induction ps as [|p ps IH]; simpl; [done|].
  destruct (strip_prefix p s) eqn:E.
  - intros [= ->]. apply strip_prefix_spec in E. exists p. split; [left|done].
  - intros (q & ? & ?)%IH. exists q. split; [by right|done].
Qed.

Lemma trim_fuel_suffix ps n s : exists p, s = p ++ trim_fuel ps n s.
Proof.
  revert s. induction n as [|n IH]; intros s; simpl; [by exists []|].
  destruct (strip_any ps s) eqn:E; [|by exists []].
  apply strip_any_suffix in E as (p & _ & ->).
  destruct (IH l) as [q Hq]. exists (p ++ q). by rewrite <-app_assoc, <-Hq.
Qed.

(** [TrimSpace] returns a substring. *)
Lemma TrimSpace_infix s : exists p q, s = p ++ TrimSpace s ++ q.
Proof.
  unfold TrimSpace, trim_left, trim_right.
  destruct (trim_fuel_suffix space_encodings (length s) s) as [p Hp].
  set (t := trim_fuel space_encodings (length s) s) in *.
  destruct (trim_fuel_suffix (map (@rev byte) space_encodings) (length t) (rev t)) as [q Hq].
  exists p, (rev q). rewrite <-rev_app_distr, <-Hq, rev_involutive. done.
Qed.

Lemma TrimSpace_length s : (length (TrimSpace s) <= length s)%nat.
Proof.
  destruct (TrimSpace_infix s) as (p & q & H). rewrite H at 2. rewrite !length_app. lia.
Qed.

(** ** [TrimSpace] is idempotent *)

Lemma strip_any_prefix ps s t s' : strip_any ps s = Some s' -> exists u, strip_any ps (s ++ t) = Some u.
Proof.
  revert s'. induction ps as [|p ps IH]; simpl; intros s'; [done|].
  destruct (strip_prefix p s) as [u|] eqn:E.
  - apply strip_prefix_spec in E as ->. intros _. exists (u ++ t).
    by rewrite (proj2 (strip_prefix_spec p _ (u ++ t))) by (by rewrite app_assoc).
  - intros H. destruct (strip_prefix p (s ++ t)); [eauto|]. by apply (IH s').
Qed.

Lemma strip_any_shorter ps s s' :
  Forall (fun p => p <> []) ps -> strip_any ps s = Some s' -> (length s' < length s)%nat.
Proof.
  intros Hne H. apply strip_any_suffix in H as (p & Hp & ->).
  rewrite Forall_forall in Hne. apply Hne in Hp. rewrite length_app. destruct p; [done|]. simpl. lia.
Qed.

Lemma trim_fuel_done ps n s :
  Forall (fun p => p <> []) ps -> (length s <= n)%nat -> strip_any ps (trim_fuel ps n s) = None.
Proof.
  intros Hne. revert s. induction n as [|n IH]; intros s Hl.
  - simpl. destruct (strip_any ps s) eqn:E; [|done]. apply strip_any_shorter in E; [lia|done].
  - simpl. destruct (strip_any ps s) eqn:E; [|done].
    apply IH. apply strip_any_shorter in E; [lia|done].
Qed.

Lemma trimmed_TrimSpace s : trimmed (TrimSpace s) = true.
Proof.
  unfold trimmed, TrimSpace, trim_left, trim_right. rewrite rev_involutive.
  set (t := trim_fuel space_encodings (length s) s).
  assert (strip_any space_encodings t = None) as Ht.
  { apply trim_fuel_done; [|lia]. by apply (bool_decide_unpack _). }
  set (u := trim_fuel (map _ _) (length t) (rev t)).
  assert (strip_any (map (@rev byte) space_encodings) u = None) as ->.
  { apply trim_fuel_done; [by apply (bool_decide_unpack _)|]. by rewrite length_rev. }
  destruct (trim_fuel_suffix (map (@rev byte) space_encodings) (length t) (rev t)) as [q Hq].
  fold u in Hq. apply (f_equal (@rev byte)) in Hq. rewrite rev_involutive, rev_app_distr in Hq.
  destruct (strip_any space_encodings (rev u)) eqn:E; [|done].
  destruct (strip_any_prefix _ _ (rev q) _ E) as [v Hv]. congruence.
Qed.

Lemma TrimSpace_idem s : TrimSpace (TrimSpace s) = TrimSpace s.
Proof. apply TrimSpace_trimmed, trimmed_TrimSpace. Qed.

Example trim_ex : TrimSpace (str " ab c 	") = str "ab c".
Proof. reflexivity. Qed.

Lemma TrimSpace_blen s : blen (TrimSpace s) <= blen s.
Proof. unfold blen. pose proof (TrimSpace_length s). lia. Qed.

(** ** hex is injective *)

Lemma hex_digits_inj x y :
  hex_digit (Z_of_byte x / 16) = hex_digit (Z_of_byte y / 16) ->
  hex_digit (Z_of_byte x mod 16) = hex_digit (Z_of_byte y mod 16) -> x = y.
Proof.
  assert (Hd : forall a b, 0 <= a < 16 -> 0 <= b < 16 -> hex_digit a = hex_digit b -> a = b).
  { intros a b Ha Hb E. apply (f_equal Z_of_byte) in E. unfold hex_digit in E.
    destruct (Z.ltb_spec a 10), (Z.ltb_spec b 10); rewrite !Z_of_byte_of_Z in E;
      rewrite !Z.mod_small in E by lia; lia. }
  intros E1 E2. pose proof (Z_of_byte_range x). pose proof (Z_of_byte_range y).
  apply Hd in E1; [|split; [apply Z.div_pos; lia|apply Z.div_lt_upper_bound; lia]..].
  apply Hd in E2; [|apply Z.mod_pos_bound; lia..].
  apply (inj Z_of_byte). rewrite (Z.div_mod (Z_of_byte x) 16), (Z.div_mod (Z_of_byte y) 16) by lia. lia.
Qed.

#[global] Instance hex_inj : Inj (=) (=) hex.
Proof.
  intros a. induction a as [|x a IH]; intros [|y b] E; try done.
  unfold hex in E. cbn in E. injection E as E1 E2 E3. f_equal; [by apply hex_digits_inj|by apply IH].
Qed.

(** ** Go maps

    [range m] visits the entries in an unspecified order; the order is a
    parameter of the definitions that iterate over a map, and the theorems
    hold for every one. *)

Class MapOrder := {
  range_map : forall {V : Type}, gmap bytes V -> list (bytes * V);
  range_map_perm : forall V (m : gmap bytes V), range_map m ≡ₚ map_to_list m;
}.

Definition some_order : MapOrder := {| range_map _ m := map_to_list m; range_map_perm _ _ := reflexivity _ |}.

(** A second order, for examples that compare two. *)
Program Definition reversed_order : MapOrder := {| range_map _ m := reverse (map_to_list m) |}.
Next Obligation. intros V m. cbn. by rewrite reverse_Permutation. Qed.

(** [m[k]] of a [map[K]uint64], and [m[k] += v]. *)
Definition mget (m : gmap bytes Z) (k : bytes) : Z := default 0 (m !! k).
Definition madd64 (m : gmap bytes Z) (k : bytes) (v : Z) : gmap bytes Z := <[k := add64 (mget m k) v]> m.

(** The sum of the values of a map. *)
Definition zsum (l : list Z) : Z := foldr Z.add 0 l.
Definition msum (m : gmap bytes Z) : Z := zsum (map_to_list m).*2.

Lemma zsum_app l k : zsum (l ++ k) = zsum l + zsum k.
Proof. induction l; cbn; [done|]. fold (zsum (l ++ k)) (zsum l). lia. Qed.
Lemma zsum_cons x l : zsum (x :: l) = x + zsum l.
Proof. done. Qed.
#[global] Instance zsum_proper : Proper ((≡ₚ) ==> eq) zsum.
Proof. intros l k Hp. induction Hp; cbn; try fold (zsum l) (zsum l'); lia. Qed.
Lemma zsum_nonneg l : Forall (fun x => 0 <= x) l -> 0 <= zsum l.
Proof. induction 1; cbn; [lia|]. fold (zsum l). lia. Qed.

Lemma msum_empty : msum ∅ = 0.
Proof. unfold msum. by rewrite map_to_list_empty. Qed.
Lemma msum_insert_fresh m k v : m !! k = None -> msum (<[k := v]> m) = v + msum m.
Proof. intros E. unfold msum. by rewrite map_to_list_insert. Qed.
Lemma msum_insert m k v : msum (<[k := v]> m) = msum m - mget m k + v.
Proof.
  unfold mget. destruct (m !! k) as [w|] eqn:E; cbn; [|rewrite msum_insert_fresh by done; lia].
  rewrite <-insert_delete_eq, msum_insert_fresh by apply lookup_delete_eq.
  rewrite <-(insert_delete_id m k w E) at 2. rewrite msum_insert_fresh by apply lookup_delete_eq. lia.
Qed.
Lemma msum_range `{MapOrder} (m : gmap bytes Z) : msum m = zsum (range_map m).*2.
Proof. unfold msum. by rewrite range_map_perm. Qed.

Lemma mget_madd64 m k v k' :
  mget (madd64 m k v) k' = if decide (k = k') then add64 (mget m k) v else mget m k'.
Proof.
  unfold madd64, mget. destruct (decide (k = k')) as [->|Hn].
  - by rewrite lookup_insert_eq.
  - by rewrite lookup_insert_ne.
Qed.

(** A loop of [m[k] += v] over entries with distinct keys. *)
Definition madd_all (m : gmap bytes Z) (l : list (bytes * Z)) : gmap bytes Z :=
  foldl (fun m '(k, v) => madd64 m k v) m l.

Lemma madd_all_fresh l m :
  NoDup l.*1 -> Forall (fun '(_, v) => u64 v) l -> (forall k, k ∈ l.*1 -> m !! k = None) ->
  madd_all m l = list_to_map l ∪ m.
Proof.
  revert m. induction l as [|[k v] l IH]; intros m Hnd Hv Hf; cbn.
  { by rewrite (left_id_L ∅ (∪)). }
  cbn in Hnd. apply NoDup_cons in Hnd as [Hk Hnd]. apply Forall_cons_1 in Hv as [Hv Hvs].
  assert (madd64 m k v = <[k := v]> m) as ->.
  { unfold madd64, mget. rewrite (Hf k) by (cbn; left). cbn. f_equal. unfold add64. by apply Z.mod_small. }
  fold (madd_all (<[k := v]> m) l). rewrite IH; [|done|done|].
  - rewrite <-insert_union_l. apply map_eq. intros k'. destruct (decide (k' = k)) as [->|Hn].
    + rewrite lookup_union, lookup_insert_eq, lookup_insert_eq.
      rewrite (not_elem_of_list_to_map_1 l k Hk). by destruct (Some v).
    + rewrite lookup_insert_ne by done. rewrite !lookup_union. by rewrite lookup_insert_ne.
  - intros k' Hk'. rewrite lookup_insert_ne by (intros ->; done). apply Hf. cbn. by right.
Qed.

Lemma madd_all_empty l :
  NoDup l.*1 -> Forall (fun '(_, v) => u64 v) l -> madd_all ∅ l = list_to_map l.
Proof. intros Hnd Hv. rewrite madd_all_fresh by done. apply (right_id_L ∅ (∪)). Qed.

Lemma msum_list_to_map l : NoDup l.*1 -> msum (list_to_map l) = zsum l.*2.
Proof. intros Hnd. unfold msum. by rewrite map_to_list_to_map. Qed.

(** ** Files *)

(** [data[i:j]] *)
Definition slice (data : bytes) (i j : nat) : bytes := firstn (j - i) (skipn i data).

(** The outcome of [file.Write] followed by [file.Sync]: success, or a failure
    that left the first [n] bytes of the record on disk. *)
Inductive io_outcome := IoOk | IoFail (n : nat).
