(* ===== verification/Codec.v ===== *)
(** * Codec

    Package [internal/v2/codec]: the canonical binary format.  [Writer] appends
    to a buffer, [Reader] walks over a byte slice with an offset.  The second
    half of the file is the proof interface the parsers of all other packages
    use: [reads] (an encoding is read back as the value) and the inversion
    tactic [parse_inv] (a successful parse determines the bytes consumed). *)

From S2P Require Import Prelude GoLib.

Open Scope Z_scope.

(** ** Writer *)

Module Writer.
Definition t : Type := bytes.
Definition new : t := [].

Definition U8 (v : Z) (w : t) : t := w ++ [byte_of_Z v].
Definition U16 (v : Z) (w : t) : t := w ++ be 2 v.
Definition U32 (v : Z) (w : t) : t := w ++ be 4 v.
Definition U64 (v : Z) (w : t) : t := w ++ be 8 v.
Definition Bool (v : bool) (w : t) : t := if v then U8 1 w else U8 0 w.
Definition Fixed (v : bytes) (w : t) : t := w ++ v.
Definition Bytes (v : bytes) (w : t) : t := Fixed v (U32 (blen v mod 2 ^ 32) w).
Definition String (v : bytes) (w : t) : t := Bytes v w.
Definition BytesCopy (w : t) : bytes := w.
End Writer.

(** [w.A(x); w.B(y)] is written [w |> A x |> B y]. *)
Notation "w |> f" := (f w) (at level 61, left associativity, only parsing) : go_scope.

(** ** Reader *)

Record Reader := mkReader { r_data : bytes; r_off : nat }.

(** A parser threads the reader; an error stops it. *)
Definition parser (A : Type) : Type := Reader -> res (A * Reader).

#[global] Instance parser_ret : MRet parser := fun A a r => Ok (a, r).
#[global] Instance parser_bind : MBind parser := fun A B f p r =>
  match p r with Ok (a, r') => f a r' | Err e => Err e end.

(** Lift a reader-independent computation. *)
Definition plift {A} (m : res A) : parser A := fun r =>
  match m with Ok a => Ok (a, r) | Err e => Err e end.

(** Replace the error of a parser. *)
Definition por_err {A} (p : parser A) (e : error) : parser A := fun r => p r <?> e.
Notation "p <!> e" := (por_err p e) (at level 59, left associativity) : go_scope.

(** [for i := range xs { xs[i], err = p() }] for a slice of length [n]. *)
Fixpoint prepeat {A} (n : nat) (p : parser A) : parser (list A) :=
  match n with
  | O => mret []
  | S n => x ← p; xs ← prepeat n p; mret (x :: xs)
  end.

Module Rd.
Definition NewReader (data : bytes) : Reader := mkReader data 0.

Definition take (n : Z) : parser bytes := fun r =>
  if (n <? 0) || (blen (r_data r) <? Z.of_nat (r_off r) + n)
  then Err ErrUnexpectedEOF
  else Ok (firstn (Z.to_nat n) (skipn (r_off r) (r_data r)),
           mkReader (r_data r) (r_off r + Z.to_nat n)).

Definition U8 : parser Z := b ← take 1; mret (be_val b).
Definition U16 : parser Z := b ← take 2; mret (be_val b).
Definition U32 : parser Z := b ← take 4; mret (be_val b).
Definition U64 : parser Z := b ← take 8; mret (be_val b).

Definition Bool : parser bool :=
  v ← U8;
  if v =? 0 then mret false
  else if v =? 1 then mret true
  else plift (Err ErrInvalidBool).

Definition Fixed (n : Z) : parser bytes := take n.

Definition Bytes (max : Z) : parser bytes :=
  n ← U32;
  plift (fail_if (max <? n) ErrLengthLimit);;
  b ← take n;
  mret b.

Definition String (max : Z) : parser bytes := b ← Bytes max; mret b.

Definition Done : parser unit := fun r =>
  if bool_decide (r_off r = length (r_data r)) then Ok (tt, r) else Err ErrTrailingData.
End Rd.

(** Run a parser on a whole payload. *)
Definition parse {A} (p : parser A) (data : bytes) : res A :=
  fst <$> p (Rd.NewReader data).

(** ** Reading back an encoding

    [reads post p e v]: wherever the bytes [e ++ post] remain to be read, [p]
    consumes exactly [e] and returns [v]. *)

Definition reads {A} (post : bytes) (p : parser A) (e : bytes) (v : A) : Prop :=
  forall pre, p (mkReader (pre ++ e ++ post) (length pre))
    = Ok (v, mkReader (pre ++ e ++ post) (length (pre ++ e))).

Lemma reads_parse {A} (p : parser A) e v : reads [] p e v -> parse p e = Ok v.
Proof.
  intros H. specialize (H []). unfold parse, Rd.NewReader.
  rewrite app_nil_r in H. cbn in *. rewrite H. done.
Qed.

Lemma reads_ret {A} post (v : A) : reads post (mret v) [] v.
Proof. intros pre. cbn. rewrite app_nil_r. done. Qed.

Lemma reads_bind {A B} post (p : parser A) (k : A -> parser B) e1 e2 v w :
  reads (e2 ++ post) p e1 v -> reads post (k v) e2 w ->
  reads post (p ≫= k) (e1 ++ e2) w.
Proof.
  intros H1 H2 pre. unfold mbind, parser_bind.
  specialize (H1 pre). specialize (H2 (pre ++ e1)).
  rewrite <-app_assoc. rewrite H1. rewrite <-(app_assoc pre e1 (e2 ++ post)) in H2.
  rewrite H2, <-app_assoc. done.
Qed.

Lemma reads_bind0 {A B} post (p : parser A) (k : A -> parser B) e v w :
  reads (e ++ post) p [] v -> reads post (k v) e w -> reads post (p ≫= k) e w.
Proof. intros H1 H2. exact (reads_bind post p k [] e v w H1 H2). Qed.

(** The encoding of the rest is empty and is not written down. *)
Lemma reads_bind1 {A B} post (p : parser A) (k : A -> parser B) e v w :
  reads post p e v -> reads post (k v) [] w -> reads post (p ≫= k) e w.
Proof. intros H1 H2. rewrite <-(app_nil_r e). by apply (reads_bind post p k e [] v w). Qed.

Lemma reads_or_err {A} post (p : parser A) e v err : reads post p e v -> reads post (p <!> err) e v.
Proof. intros H pre. unfold por_err. rewrite H. done. Qed.

Lemma reads_lift {A} post (m : res A) v : m = Ok v -> reads post (plift m) [] v.
Proof. intros -> pre. unfold plift. rewrite !app_nil_r. done. Qed.

Lemma reads_fail_if post b err : b = false -> reads post (plift (fail_if b err)) [] tt.
Proof. intros ->. by apply reads_lift. Qed.

Lemma reads_done : reads [] Rd.Done [] tt.
Proof. intros pre. unfold Rd.Done. cbn. rewrite app_nil_r. by rewrite bool_decide_true. Qed.

Lemma reads_take post n e : blen e = n -> reads post (Rd.take n) e e.
Proof.
  unfold blen. intros Hn pre. unfold Rd.take. cbn.
  assert ((n <? 0) = false) as -> by lia.
  unfold blen. rewrite !length_app.
  rewrite orb_false_l, (proj2 (Z.ltb_ge _ _)) by lia.
  rewrite drop_app_length, <-Hn, Nat2Z.id, take_app_length. done.
Qed.

Lemma reads_fixed post n e : blen e = n -> reads post (Rd.Fixed n) e e.
Proof. apply reads_take. Qed.

Lemma reads_be n (p : parser Z) post v :
  p = (b ← Rd.take (Z.of_nat n); mret (be_val b)) ->
  0 <= v < 256 ^ Z.of_nat n -> reads post p (be n v) v.
Proof.
  intros -> Hv. eapply reads_bind1.
  - apply reads_take. unfold blen. by rewrite length_be.
  - rewrite (be_val_small n v) by done. apply reads_ret.
Qed.

Lemma reads_u8 post v : u8 v -> reads post Rd.U8 [byte_of_Z v] v.
Proof. intros. by apply (reads_be 1). Qed.
Lemma reads_u16 post v : u16 v -> reads post Rd.U16 (be 2 v) v.
Proof. intros. by apply (reads_be 2). Qed.
Lemma reads_u32 post v : u32 v -> reads post Rd.U32 (be 4 v) v.
Proof. intros. by apply (reads_be 4). Qed.
Lemma reads_u64 post v : u64 v -> reads post Rd.U64 (be 8 v) v.
Proof. intros. by apply (reads_be 8). Qed.

Definition enc_bool (b : bool) : bytes := [byte_of_Z (if b then 1 else 0)].

Lemma reads_bool post v : reads post Rd.Bool (enc_bool v) v.
Proof.
  eapply reads_bind1; [apply reads_u8; by destruct v|].
  destruct v; cbn; apply reads_ret.
Qed.

Definition enc_bytes (b : bytes) : bytes := be 4 (blen b) ++ b.

Lemma be4_mod z : be 4 (z mod 2 ^ 32) = be 4 z.
Proof.
  rewrite <-(be_be_val (be 4 z)), length_be, be_val_be. done.
Qed.

Lemma reads_bytes post max b :
  blen b <= max -> max < 2 ^ 32 -> reads post (Rd.Bytes max) (enc_bytes b) b.
Proof.
  intros Hb Hm. unfold enc_bytes. eapply reads_bind.
  - apply reads_u32. unfold u32, blen in *. lia.
  - eapply reads_bind0; [apply reads_fail_if; lia|].
    eapply reads_bind1; [by apply reads_take|]. apply reads_ret.
Qed.

Lemma reads_string post max b :
  blen b <= max -> max < 2 ^ 32 -> reads post (Rd.String max) (enc_bytes b) b.
Proof. intros. eapply reads_bind1; [by apply reads_bytes|apply reads_ret]. Qed.

Lemma reads_repeat {A} (p : parser A) (enc : A -> bytes) (l : list A) post :
  (forall x post', x ∈ l -> reads post' p (enc x) x) ->
  reads post (prepeat (length l) p) (concat (enc <$> l)) l.
Proof.
  induction l as [|x l IH]; intros H; cbn; [apply reads_ret|].
  eapply reads_bind; [apply H; left|].
  eapply reads_bind1; [apply IH; intros; apply H; by right|]. apply reads_ret.
Qed.

(** The items read back as [g x]: encoders that normalise. *)
Lemma reads_repeat_map {A B} (p : parser B) (enc : A -> bytes) (g : A -> B) (P : A -> Prop) (l : list A) post :
  (forall post' x, P x -> reads post' p (enc x) (g x)) -> Forall P l ->
  reads post (prepeat (Z.to_nat (blen l)) p) (concat (enc <$> l)) (g <$> l).
Proof.
  intros Hp Hl. unfold blen. rewrite Nat2Z.id. revert post.
  induction Hl as [|x l Hx Hl IH]; intros post; cbn; [apply reads_ret|].
  eapply reads_bind; [by apply Hp|]. eapply reads_bind1; [apply IH|]. apply reads_ret.
Qed.

Lemma reads_repeat_count {A} (p : parser A) (enc : A -> bytes) (P : A -> Prop) (l : list A) post :
  (forall post' x, P x -> reads post' p (enc x) x) -> Forall P l ->
  reads post (prepeat (Z.to_nat (blen l)) p) (concat (enc <$> l)) l.
Proof.
  intros Hp Hl. unfold blen. rewrite Nat2Z.id. apply reads_repeat. intros x post' Hx.
  apply Hp. rewrite Forall_forall in Hl. by apply Hl.
Qed.

(** ** Inverting a successful parse *)

Definition rest (r : Reader) : bytes := skipn (r_off r) (r_data r).

Lemma rest_new d : rest (Rd.NewReader d) = d.
Proof. done. Qed.

Lemma pbind_Ok {A B} (p : parser A) (k : A -> parser B) r y :
  (p ≫= k) r = Ok y -> exists a r1, p r = Ok (a, r1) /\ k a r1 = Ok y.
Proof. unfold mbind, parser_bind. destruct (p r) as [[a r1]|]; [eauto|done]. Qed.

Lemma pret_Ok {A} (a : A) r y : (mret a : parser A) r = Ok y -> y = (a, r).
Proof. unfold mret, parser_ret. congruence. Qed.

Lemma plift_Ok {A} (m : res A) r y : plift m r = Ok y -> exists a, m = Ok a /\ y = (a, r).
Proof. unfold plift. destruct m; [|done]. intros [= <-]. eauto. Qed.

Lemma por_err_Ok {A} (p : parser A) e r y : (p <!> e) r = Ok y -> p r = Ok y.
Proof. apply or_err_Ok. Qed.

Lemma parse_Ok {A} (p : parser A) d v :
  parse p d = Ok v -> exists r r', rest r = d /\ p r = Ok (v, r').
Proof.
  unfold parse. intros H. apply fmap_Ok in H as ([a r'] & H & ->).
  exists (Rd.NewReader d), r'. split; [apply rest_new | done].
Qed.

Lemma take_Ok n r b r' :
  Rd.take n r = Ok (b, r') -> rest r = b ++ rest r' /\ 0 <= n /\ blen b = n.
Proof.
  unfold Rd.take, rest. destruct (_ || _) eqn:E; [done|].
  apply orb_false_iff in E as [E1 E2]. intros [= <- <-]. cbn.
  unfold blen in *. rewrite <-drop_drop, take_drop.
  rewrite length_take, length_drop. split; [done|]. lia.
Qed.

Lemma fixed_Ok n r b r' :
  Rd.Fixed n r = Ok (b, r') -> rest r = b ++ rest r' /\ 0 <= n /\ blen b = n.
Proof. apply take_Ok. Qed.

Lemma be_Ok n r v r' :
  (b ← Rd.take (Z.of_nat n); mret (be_val b)) r = Ok (v, r') ->
  rest r = be n v ++ rest r' /\ 0 <= v < 256 ^ Z.of_nat n.
Proof.
  intros H. apply pbind_Ok in H as (b & r1 & H1 & H2).
  apply pret_Ok in H2 as [= -> ->]. apply take_Ok in H1 as (Hr & _ & Hl).
  assert (length b = n) as <- by (unfold blen in Hl; lia).
  rewrite be_be_val. split; [done|apply be_val_range].
Qed.

Lemma u8_Ok r v r' : Rd.U8 r = Ok (v, r') -> rest r = [byte_of_Z v] ++ rest r' /\ u8 v.
Proof. apply (be_Ok 1). Qed.
Lemma u16_Ok r v r' : Rd.U16 r = Ok (v, r') -> rest r = be 2 v ++ rest r' /\ u16 v.
Proof. apply (be_Ok 2). Qed.
Lemma u32_Ok r v r' : Rd.U32 r = Ok (v, r') -> rest r = be 4 v ++ rest r' /\ u32 v.
Proof. apply (be_Ok 4). Qed.
Lemma u64_Ok r v r' : Rd.U64 r = Ok (v, r') -> rest r = be 8 v ++ rest r' /\ u64 v.
Proof. apply (be_Ok 8). Qed.

Lemma bool_Ok r v r' : Rd.Bool r = Ok (v, r') -> rest r = enc_bool v ++ rest r'.
Proof.
  intros H. apply pbind_Ok in H as (b & r1 & H1 & H2). apply u8_Ok in H1 as [-> Hb].
  destruct (b =? 0) eqn:E0; [|destruct (b =? 1) eqn:E1; [|done]];
    apply pret_Ok in H2 as [= -> ->]; unfold enc_bool; do 3 f_equal; lia.
Qed.

Lemma bytes_Ok max r v r' :
  Rd.Bytes max r = Ok (v, r') ->
  rest r = enc_bytes v ++ rest r' /\ blen v <= max /\ blen v < 2 ^ 32.
Proof.
  intros H. apply pbind_Ok in H as (n & r1 & H1 & H).
  apply pbind_Ok in H as (? & ? & H2 & H). apply plift_Ok in H2 as (? & H2 & [= -> ->]).
  apply fail_if_Ok in H2. apply pbind_Ok in H as (b & r3 & H3 & H).
  apply pret_Ok in H as [= -> ->]. apply u32_Ok in H1 as [H1 Hn]. apply take_Ok in H3 as (H3 & _ & Hl).
  unfold enc_bytes. rewrite <-app_assoc, Hl, H1, H3. unfold u32 in Hn. split; [done|lia].
Qed.

Lemma string_Ok max r v r' :
  Rd.String max r = Ok (v, r') ->
  rest r = enc_bytes v ++ rest r' /\ blen v <= max /\ blen v < 2 ^ 32.
Proof. intros H. apply pbind_Ok in H as (b & r1 & H1 & H2). apply pret_Ok in H2 as [= -> ->]. by apply bytes_Ok. Qed.

Lemma done_Ok r u r' : Rd.Done r = Ok (u, r') -> rest r = [] /\ r' = r.
Proof.
  unfold Rd.Done, rest. case_bool_decide as E; [|done]. intros [= <- <-].
  rewrite E, drop_all. done.
Qed.

Lemma prepeat_Ok {A} (p : parser A) (enc : A -> bytes) (P : A -> Prop) n :
  (forall r v r', p r = Ok (v, r') -> rest r = enc v ++ rest r' /\ P v) ->
  forall r l r', prepeat n p r = Ok (l, r') ->
  length l = n /\ rest r = concat (enc <$> l) ++ rest r' /\ Forall P l.
Proof.
  intros Hp. induction n as [|n IH]; intros r l r' H; cbn in H.
  - apply pret_Ok in H as [= -> ->]. done.
  - apply pbind_Ok in H as (x & r1 & H1 & H). apply pbind_Ok in H as (xs & r2 & H2 & H).
    apply pret_Ok in H as [= -> ->]. apply Hp in H1 as (H1 & Hq).
    apply IH in H2 as (Hl & H2 & Hqs). cbn. rewrite <-app_assoc, H1, H2.
    split_and!; [lia|done|by constructor].
Qed.

Lemma prepeat_Forall {A} (p : parser A) (P : A -> Prop) n :
  (forall r v r', p r = Ok (v, r') -> P v) -> forall r l r', prepeat n p r = Ok (l, r') -> Forall P l.
Proof.
  intros Hp. induction n as [|n IH]; intros r l r' H; cbn in H; [by apply pret_Ok in H as [= -> ->]|].
  apply pbind_Ok in H as (x & r1 & H1 & H). apply pbind_Ok in H as (xs & r2 & H2 & H).
  apply pret_Ok in H as [= -> ->]. constructor; [by eapply Hp|by eapply IH].
Qed.

Lemma prepeat_fixed_Ok n m e r l r' :
  prepeat n (Rd.Fixed m <!> e) r = Ok (l, r') ->
  length l = n /\ rest r = concat l ++ rest r' /\ Forall (fun x => blen x = m) l.
Proof.
  intros H. apply (prepeat_Ok _ id (fun x => blen x = m)) in H.
  - by rewrite list_fmap_id in H.
  - intros ? x ? Hx. apply por_err_Ok, fixed_Ok in Hx as (? & _ & ?). done.
Qed.

Lemma reads_repeat_fixed post m e l :
  Forall (fun x => blen x = m) l ->
  reads post (prepeat (length l) (Rd.Fixed m <!> e)) (concat l) l.
Proof.
  intros H. rewrite <-(list_fmap_id l) at 2. apply reads_repeat.
  intros x post' Hx. apply reads_or_err, reads_fixed. rewrite Forall_forall in H. auto.
Qed.

Lemma blen_count {A} (l : list A) n : length l = Z.to_nat n -> 0 <= n -> blen l = n.
Proof. unfold blen. lia. Qed.

Lemma Forall_arr n (l : list bytes) : Forall (arr n) l <-> Forall (fun x => blen x = Z.of_nat n) l.
Proof. unfold arr, blen. split; intros H; (eapply Forall_impl; [exact H|]); cbn; intros; lia. Qed.

(** [parse_inv H]: from [p r = Ok (v, r')] collect what each step read. *)
Ltac parse_inv_step :=
  match goal with
  | H : (_ ≫= _) ?r = Ok _ |- _ =>
      let a := fresh "v" in let r1 := fresh "r" in
      let H1 := fresh "P" in let H2 := fresh "P" in
      apply pbind_Ok in H as (a & r1 & H1 & H2); cbn beta in H2
  | H : mret _ _ = Ok _ |- _ =>
      apply pret_Ok in H; injection H; clear H; intros; subst
  | H : plift _ _ = Ok _ |- _ =>
      let a := fresh "v" in let H1 := fresh "P" in
      apply plift_Ok in H as (a & H1 & H); injection H; clear H; intros; subst
  | H : (_ <!> _) _ = Ok _ |- _ => apply por_err_Ok in H
  | H : Rd.U8 _ = Ok _ |- _ => apply u8_Ok in H as [? ?]
  | H : Rd.U16 _ = Ok _ |- _ => apply u16_Ok in H as [? ?]
  | H : Rd.U32 _ = Ok _ |- _ => apply u32_Ok in H as [? ?]
  | H : Rd.U64 _ = Ok _ |- _ => apply u64_Ok in H as [? ?]
  | H : Rd.Bool _ = Ok _ |- _ => apply bool_Ok in H
  | H : Rd.Fixed _ _ = Ok _ |- _ => apply fixed_Ok in H as (? & _ & ?)
  | H : Rd.Bytes _ _ = Ok _ |- _ => apply bytes_Ok in H as (? & ? & ?)
  | H : Rd.String _ _ = Ok _ |- _ => apply string_Ok in H as (? & ? & ?)
  | H : Rd.Done _ = Ok _ |- _ => apply done_Ok in H as [? ->]
  | H : parse _ _ = Ok _ |- _ =>
      let r := fresh "r" in let r' := fresh "r" in let Hr := fresh "Hr" in
      apply parse_Ok in H as (r & r' & Hr & H)
  | _ => res_inv_step
  end.
Ltac parse_inv := repeat parse_inv_step.

(** Replace every [rest r] of the goal by what was read from [r]. *)
Ltac rest_rw :=
  repeat match goal with H : rest ?r = _ |- context [rest ?r] => rewrite H end.

Create HintDb codec.
#[export] Hint Resolve reads_ret reads_done reads_bool reads_u8 reads_u16 reads_u32 reads_u64
  reads_fixed reads_bytes reads_string reads_or_err reads_lift : codec.

(** [solve_reads]: walk down a parser whose encoding is a concatenation in the
    same order; side conditions (ranges, lengths, guards) are left over when
    the hypotheses do not give them directly. *)
Ltac reads_step :=
  match goal with
  | |- reads _ (mret _) [] _ => apply reads_ret
  | |- reads _ Rd.Done [] _ => apply reads_done
  | |- reads _ (plift (fail_if _ _)) [] _ => apply reads_fail_if
  | |- reads _ (plift _) [] _ => apply reads_lift
  | |- reads _ (_ <!> _) _ _ => apply reads_or_err
  | |- reads _ Rd.Bool _ _ => apply reads_bool
  | |- reads _ Rd.U8 _ _ => apply reads_u8
  | |- reads _ Rd.U16 _ _ => apply reads_u16
  | |- reads _ Rd.U32 _ _ => apply reads_u32
  | |- reads _ Rd.U64 _ _ => apply reads_u64
  | |- reads _ (Rd.Fixed _) _ _ => apply reads_fixed
  | |- reads _ (Rd.Bytes _) _ _ => apply reads_bytes
  | |- reads _ (Rd.String _) _ _ => apply reads_string
  | |- reads _ (plift _ ≫= _) _ _ => eapply reads_bind0
  | |- reads _ ((plift _ <!> _) ≫= _) _ _ => eapply reads_bind0
  | |- reads _ (Rd.Done ≫= _) _ _ => eapply reads_bind0
  | |- reads _ ((Rd.Done <!> _) ≫= _) _ _ => eapply reads_bind0
  | |- reads _ (_ ≫= _) (_ ++ _) _ => eapply reads_bind
  | |- reads _ (_ ≫= _) _ _ => eapply reads_bind1
  end; cbv beta.
Ltac solve_reads := repeat reads_step.

(** Bring a chain of writes into the right-nested concatenation [solve_reads]
    expects. *)
Lemma writer_bytes v w : Writer.Bytes v w = w ++ enc_bytes v.
Proof.
  unfold Writer.Bytes, Writer.Fixed, Writer.U32, enc_bytes. by rewrite be4_mod, <-app_assoc.
Qed.
Lemma writer_string v w : Writer.String v w = w ++ enc_bytes v.
Proof. apply writer_bytes. Qed.
Lemma writer_bool v w : Writer.Bool v w = w ++ enc_bool v.
Proof. by destruct v. Qed.
Lemma writer_loop {A} (f : Writer.t -> A -> Writer.t) (g : A -> bytes) (l : list A) w :
  (forall w x, f w x = w ++ g x) -> foldl f w l = w ++ concat (g <$> l).
Proof.
  intros H. revert w. induction l as [|x l IH]; intros w; cbn; [by rewrite app_nil_r|].
  by rewrite IH, H, <-app_assoc.
Qed.

(** Syntactic matching: unification up to conversion would compute the
    encoding of constant fields. *)
Ltac app_norm :=
  repeat match goal with
  | |- context [@app ?T [] ?l] => change (@app T [] l) with l
  | |- context [@app ?T (@app ?T ?a ?b) ?c] => rewrite <-(app_assoc a b c)
  end.
Ltac writer_norm :=
  unfold Writer.BytesCopy;
  rewrite ?writer_bytes, ?writer_string, ?writer_bool;
  unfold Writer.Fixed, Writer.U8, Writer.U16, Writer.U32, Writer.U64, Writer.new;
  app_norm.

(** ** Canonical wire formats

    What a package promises about a data type with [MarshalBinary] and
    [ParseX]: [parse] accepts exactly the bytes [marshal] gives for a value
    whose fields are in range.  The clients that store encoded values in
    objects are proved against this interface. *)

Class Wire (A : Type) := {
  wire_typed : A -> Prop;
  wire_marshal : A -> res bytes;
  wire_parse : bytes -> res A;
}.

Class Canonical (A : Type) `{Wire A} :=
  wire_canonical : forall (d : bytes) (v : A), wire_parse d = Ok v <-> wire_typed v /\ wire_marshal v = Ok d.

Section canonical.
Context {A : Type} `{Canonical A}.

Lemma wire_roundtrip (v : A) d : wire_typed v -> wire_marshal v = Ok d -> wire_parse d = Ok v.
Proof. intros Ht Hm. apply (wire_canonical d v). by split. Qed.

(** Two values never share an encoding. *)
Lemma wire_inj (v w : A) d : wire_typed v -> wire_typed w -> wire_marshal v = Ok d -> wire_marshal w = Ok d -> v = w.
Proof. intros Hv Hw Mv Mw. pose proof (wire_roundtrip v d Hv Mv). pose proof (wire_roundtrip w d Hw Mw). congruence. Qed.

Lemma wire_parse_marshal d (v : A) : wire_parse d = Ok v -> wire_marshal v = Ok d.
Proof. intros E. by apply (wire_canonical d v) in E as [? ?]. Qed.
Lemma wire_parse_typed d (v : A) : wire_parse d = Ok v -> wire_typed v.
Proof. intros E. by apply (wire_canonical d v) in E as [? ?]. Qed.
End canonical.
