(* ===== verification/Crypto.v ===== *)
(** * Crypto

    The cryptographic functions of the Go standard library, as an interface
    [Crypto] the protocol is modelled over, and as the instance [go_crypto]
    that computes them: [crypto/sha256] (FIPS 180-4), [elliptic.Unmarshal] and
    [ecdsa.Verify] on P-256 (FIPS 186-4, SEC 1).  Every theorem of the
    development holds for any instance; no hypothesis is made about collisions
    or forgeries.  Soundness statements that depend on collision resistance
    name the two colliding inputs instead. *)

From S2P Require Import Prelude GoLib.

Open Scope Z_scope.

Class Crypto := {
  (** [sha256.Sum256]. *)
  sha256 : bytes -> bytes;
  sha256_length : forall m, length (sha256 m) = 32%nat;
  (** [elliptic.Unmarshal(elliptic.P256(), key)]: the point, [None] for nil. *)
  p256_unmarshal : bytes -> option (Z * Z);
  (** [ecdsa.Verify(pub, digest, r, s)]. *)
  ecdsa_verify : Z * Z -> bytes -> Z -> Z -> bool;
}.

(** ** SHA-256 *)

Module Sha256.
Definition w32 (z : Z) : Z := Z.land z (2 ^ 32 - 1).
Definition rotr (n x : Z) : Z := w32 (Z.lor (Z.shiftr x n) (Z.shiftl x (32 - n))).
Definition Ch (x y z : Z) : Z := Z.lxor (Z.land x y) (Z.land (Z.lxor x (2 ^ 32 - 1)) z).
Definition Maj (x y z : Z) : Z := Z.lxor (Z.lxor (Z.land x y) (Z.land x z)) (Z.land y z).
Definition Sigma0 (x : Z) : Z := Z.lxor (Z.lxor (rotr 2 x) (rotr 13 x)) (rotr 22 x).
Definition Sigma1 (x : Z) : Z := Z.lxor (Z.lxor (rotr 6 x) (rotr 11 x)) (rotr 25 x).
Definition sigma0 (x : Z) : Z := Z.lxor (Z.lxor (rotr 7 x) (rotr 18 x)) (Z.shiftr x 3).
Definition sigma1 (x : Z) : Z := Z.lxor (Z.lxor (rotr 17 x) (rotr 19 x)) (Z.shiftr x 10).

(** The round constants are the first 32 bits of the fractional parts of the
    cube roots of the first 64 primes, the initial state those of the square
    roots of the first 8. *)
Definition is_prime (n : nat) : bool :=
  forallb (fun d => negb (n mod d =? 0)%nat) (seq 2 (n - 2)).
Definition primes : list Z := Z.of_nat <$> List.filter is_prime (seq 2 310).

(** [cbrt_bits k r n]: [r] extended by its [k] lower bits towards the integer
    cube root of [n]. *)
Fixpoint cbrt_bits (k : nat) (r n : Z) : Z :=
  match k with
  | O => r
  | S k => let r' := r + 2 ^ Z.of_nat k in cbrt_bits k (if r' ^ 3 <=? n then r' else r) n
  end.

Definition K : list Z :=
  Eval vm_compute in (fun q => w32 (cbrt_bits 36 0 (q * 2 ^ 96))) <$> primes.
Definition H0 : list Z :=
  Eval vm_compute in (fun q => w32 (Z.sqrt (q * 2 ^ 64))) <$> firstn 8 primes.

(** Padding to a multiple of 64 bytes. *)
Definition pad (m : bytes) : bytes :=
  let zeros := Z.to_nat ((55 - blen m) mod 64) in
  m ++ [x80] ++ replicate zeros x00 ++ be 8 (8 * blen m).

Fixpoint words (n : nat) (l : bytes) : list Z :=
  match n with
  | O => []
  | S n => be_val (firstn 4 l) :: words n (skipn 4 l)
  end.

(** The message schedule; the list holds the last words, newest first. *)
Fixpoint schedule (n : nat) (recent : list Z) (acc : list Z) : list Z :=
  match n with
  | O => rev acc
  | S n =>
      let w := w32 (sigma1 (nth 1 recent 0) + nth 6 recent 0
                    + sigma0 (nth 14 recent 0) + nth 15 recent 0) in
      schedule n (w :: firstn 15 recent) (w :: acc)
  end.

Definition round (st : list Z) (kw : Z * Z) : list Z :=
  match st with
  | [a; b; c; d; e; f; g; h] =>
      let t1 := h + Sigma1 e + Ch e f g + fst kw + snd kw in
      let t2 := Sigma0 a + Maj a b c in
      [w32 (t1 + t2); a; b; c; w32 (d + t1); e; f; g]
  | _ => st
  end.

Definition compress (st : list Z) (block : bytes) : list Z :=
  let w16 := words 16 block in
  let w := w16 ++ schedule 48 (rev w16) [] in
  let st' := foldl round st (combine K w) in
  zip_with (fun x y => w32 (x + y)) st st'.

Fixpoint blocks (n : nat) (st : list Z) (m : bytes) : list Z :=
  match n with
  | O => st
  | S n => blocks n (compress st (firstn 64 m)) (skipn 64 m)
  end.

Definition digest_words (m : bytes) : list Z :=
  let p := pad m in blocks (length p / 64) H0 p.

Definition sum256 (m : bytes) : bytes := concat (map (be 4) (digest_words m)).

Lemma length_round st kw : length st = 8%nat -> length (round st kw) = 8%nat.
Proof. do 9 (destruct st as [|? st]; simpl; try done). Qed.

Lemma length_rounds l st : length st = 8%nat -> length (foldl round st l) = 8%nat.
Proof. revert st. induction l; intros st H; simpl; auto using length_round. Qed.

Lemma length_compress st b : length st = 8%nat -> length (compress st b) = 8%nat.
Proof.
  intros H. unfold compress. rewrite length_zip_with.
  rewrite (length_rounds _ st H). lia.
Qed.

Lemma length_blocks n st m : length st = 8%nat -> length (blocks n st m) = 8%nat.
Proof. revert st m. induction n; intros; simpl; auto using length_compress. Qed.

Lemma length_sum256 m : length (sum256 m) = 32%nat.
Proof.
  unfold sum256, digest_words.
  pose proof (length_blocks (length (pad m) / 64) H0 (pad m) eq_refl) as H.
  revert H. generalize (blocks (length (pad m) / 64) H0 (pad m)). intros l.
  do 9 (destruct l as [|? l]; simpl; try done).
Qed.
End Sha256.

(** The test vector of FIPS 180-4 for "abc". *)
Example sha256_abc :
  be_val (Sha256.sum256 (str "abc"))
  = 0xba7816bf8f01cfea414140de5dae2223b00361a396177a9cb410ff61f20015ad.
Proof. vm_compute. reflexivity. Qed.

(** ** P-256 *)

Module P256.
Definition p : Z := 2 ^ 256 - 2 ^ 224 + 2 ^ 192 + 2 ^ 96 - 1.
Definition N : Z := 0xffffffff00000000ffffffffffffffffbce6faada7179e84f3b9cac2fc632551.
Definition B : Z := 0x5ac635d8aa3a93e7b3ebbd55769886bc651d06b0cc53b0f63bce3c3e27d2604b.
Definition Gx : Z := 0x6b17d1f2e12c4247f8bce6e563a440f277037d812deb33a0f4a13945d898c296.
Definition Gy : Z := 0x4fe342e2fe1a7f9b8ee7eb4a7c0f9e162bce33576b315ececbb6406837bf51f5.

Definition on_curve (x y : Z) : bool :=
  (y * y) mod p =? (x * x * x - 3 * x + B) mod p.

(** Uncompressed form: 0x04, then 32 bytes for each coordinate. *)
Definition Unmarshal (k : bytes) : option (Z * Z) :=
  if negb (blen k =? 65) || negb (Z_of_byte (nth 0 k x00) =? 4) then None
  else
    let x := be_val (firstn 32 (skipn 1 k)) in
    let y := be_val (skipn 33 k) in
    if (p <=? x) || (p <=? y) || negb (on_curve x y) then None else Some (x, y).

Fixpoint pow_mod (b : Z) (e : positive) (m : Z) : Z :=
  match e with
  | xH => b mod m
  | xO e => let h := pow_mod b e m in h * h mod m
  | xI e => let h := pow_mod b e m in h * h mod m * b mod m
  end.

(** The inverse modulo a prime, by Fermat. *)
Definition inv (a m : Z) : Z := pow_mod (a mod m) (Z.to_pos (m - 2)) m.

(** Affine points; [None] is the point at infinity. *)
Definition add (P Q : option (Z * Z)) : option (Z * Z) :=
  match P, Q with
  | None, _ => Q
  | _, None => P
  | Some (x1, y1), Some (x2, y2) =>
      if (x1 =? x2) && ((y1 + y2) mod p =? 0) then None
      else
        let l := if x1 =? x2 then (3 * x1 * x1 - 3) * inv (2 * y1) p mod p
                 else (y2 - y1) * inv (x2 - x1) p mod p in
        let x3 := (l * l - x1 - x2) mod p in
        Some (x3, (l * (x1 - x3) - y1) mod p)
  end.

Fixpoint mul_pos (k : positive) (P : option (Z * Z)) : option (Z * Z) :=
  match k with
  | xH => P
  | xO k => let Q := mul_pos k P in add Q Q
  | xI k => let Q := mul_pos k P in add (add Q Q) P
  end.

Definition mul (k : Z) (P : option (Z * Z)) : option (Z * Z) :=
  match k with Zpos k => mul_pos k P | _ => None end.

Definition Verify (pub : Z * Z) (digest : bytes) (r s : Z) : bool :=
  if (r <=? 0) || (s <=? 0) || (N <=? r) || (N <=? s) then false
  else
    let e := be_val (firstn 32 digest) in
    let w := inv s N in
    match add (mul (e * w mod N) (Some (Gx, Gy))) (mul (r * w mod N) (Some pub)) with
    | None => false
    | Some (x, _) => x mod N =? r
    end.
End P256.

Example p256_generator_on_curve : P256.on_curve P256.Gx P256.Gy = true.
Proof. vm_compute. reflexivity. Qed.

Definition go_crypto : Crypto := {|
  sha256 := Sha256.sum256;
  sha256_length := Sha256.length_sum256;
  p256_unmarshal := P256.Unmarshal;
  ecdsa_verify := P256.Verify;
|}.

(** A small instance for concrete executions: a polynomial checksum as the
    hash, and signatures whose two halves both have to be 1. *)
Definition checksum (m : bytes) : bytes :=
  be 32 (foldl (fun acc b => (acc * 263 + Z_of_byte b + 1) mod 2 ^ 256) 7 m).

Definition toy_crypto : Crypto := {|
  sha256 := checksum;
  sha256_length := fun m => length_be 32 _;
  p256_unmarshal := fun k => if blen k =? 65 then Some (be_val k, 0) else None;
  ecdsa_verify := fun _ _ r s => (r =? 1) && (s =? 1);
|}.

(** A checksum of one byte, repeated: cheap to evaluate over a whole sparse
    Merkle tree. *)
Definition small_checksum (m : bytes) : bytes :=
  replicate 32 (byte_of_Z (foldl (fun acc b => (5 * acc + Z_of_byte b + 1) mod 251) 7 m)).

Definition small_crypto : Crypto := {|
  sha256 := small_checksum;
  sha256_length := fun m => eq_refl;
  p256_unmarshal := fun k => if blen k =? 65 then Some (be_val k, 0) else None;
  ecdsa_verify := fun _ _ r s => (r =? 1) && (s =? 1);
|}.
