(* ===== verification/Types.v ===== *)
(** * Types

    [codec.DomainHash] and package [internal/v2/types]: identifiers are 32-byte
    arrays (byte lists whose length 32 is part of the [_ok] predicates), hashes
    are domain separated, and an object id records its shard in its first four
    bytes. *)

From S2P Require Import Prelude GoLib Codec Crypto.

Open Scope Z_scope.

(** The framing [DomainHash] feeds to SHA-256. *)
Definition domain_preimage (domain payload : bytes) : bytes :=
  be 4 (blen domain mod 2 ^ 32) ++ domain ++ be 4 (blen payload mod 2 ^ 32) ++ payload.

Section types.
Context `{Crypto}.

Definition DomainHash (domain payload : bytes) : bytes :=
  sha256 (domain_preimage domain payload).

Definition HashBytes (domain payload : bytes) : bytes := DomainHash domain payload.

Definition AccountIDFromPublicKey (publicKey : bytes) : bytes :=
  DomainHash (str "zephyr/account-id/v2") publicKey.

Definition NodeIDFromPublicKey (publicKey : bytes) : bytes :=
  DomainHash (str "zephyr/node-id/v2") publicKey.

Definition ValidatorIDFromPublicKey (publicKey : bytes) : bytes :=
  DomainHash (str "zephyr/validator-id/v2") publicKey.

Definition AccountShard (account : bytes) (shardCount : Z) : Z :=
  if shardCount <=? 1 then 0
  else (be_val (firstn 8 account) mod shardCount) mod 2 ^ 32.

Definition ObjectShard (id : bytes) : Z := be_val (firstn 4 id).

(** [binary.BigEndian.PutUint32(hash[:4], shardID)] overwrites the first four
    bytes of the hash. *)
Definition ObjectIDForShard (txID : bytes) (index shardID : Z) : bytes :=
  let w := Writer.new |> Writer.Fixed txID |> Writer.U32 index |> Writer.U32 shardID in
  let hash := DomainHash (str "zephyr/object-id/v2") (Writer.BytesCopy w) in
  be 4 shardID ++ skipn 4 hash.

Definition ObjectIDFromTransaction (txID : bytes) (index : Z) : bytes :=
  ObjectIDForShard txID index 0.

Definition TokenIDFromTransaction (txID : bytes) (operationIndex : Z) : bytes :=
  let w := Writer.new |> Writer.Fixed txID |> Writer.U32 operationIndex in
  DomainHash (str "zephyr/token-id/v2") (Writer.BytesCopy w).

Definition ContractIDFromTransaction (txID : bytes) (operationIndex : Z) : bytes :=
  let w := Writer.new |> Writer.Fixed txID |> Writer.U32 operationIndex in
  DomainHash (str "zephyr/contract-id/v2") (Writer.BytesCopy w).

Definition JobIDFromTransaction (txID : bytes) (operationIndex : Z) : bytes :=
  let w := Writer.new |> Writer.Fixed txID |> Writer.U32 operationIndex in
  DomainHash (str "zephyr/compute-job-id/v2") (Writer.BytesCopy w).

Lemma length_DomainHash d p : length (DomainHash d p) = 32%nat.
Proof. apply sha256_length. Qed.

Lemma arr32_DomainHash d p : arr32 (DomainHash d p).
Proof. apply sha256_length. Qed.

Lemma length_ObjectIDForShard t i s : length (ObjectIDForShard t i s) = 32%nat.
Proof.
  unfold ObjectIDForShard. cbv zeta. rewrite length_app, length_be, length_drop, length_DomainHash. done.
Qed.

(** The shard recorded in an object id is the shard it was created for. *)
Lemma ObjectShard_ObjectIDForShard t i s : u32 s -> ObjectShard (ObjectIDForShard t i s) = s.
Proof.
  intros Hs. unfold ObjectShard, ObjectIDForShard. cbv zeta.
  rewrite take_app_le by (rewrite length_be; lia).
  rewrite take_ge by (rewrite length_be; lia).
  by apply be_val_small.
Qed.

Lemma AccountShard_range a n : u32 n -> 1 <= n -> 0 <= AccountShard a n < n.
Proof.
  unfold u32, AccountShard. intros. case_match; [lia|].
  pose proof (Z.mod_pos_bound (be_val (take 8 a)) n ltac:(lia)).
  rewrite Z.mod_small; lia.
Qed.

Lemma AccountShard_u32 a n : u32 n -> u32 (AccountShard a n).
Proof.
  unfold u32, AccountShard. intros. case_match; [lia|].
  apply Z.mod_pos_bound. lia.
Qed.
End types.

(** The framing is injective on the sizes that occur: distinct (domain,
    payload) pairs are never the same SHA-256 input. *)
Lemma domain_preimage_inj d1 p1 d2 p2 :
  blen d1 < 2 ^ 32 -> blen d2 < 2 ^ 32 -> blen p1 < 2 ^ 32 -> blen p2 < 2 ^ 32 ->
  domain_preimage d1 p1 = domain_preimage d2 p2 -> d1 = d2 /\ p1 = p2.
Proof.
  unfold domain_preimage. intros Hd1 Hd2 Hp1 Hp2 H.
  rewrite !be4_mod in H.
  assert (Hdec : forall x, blen x < 2 ^ 32 -> be_val (be 4 (blen (A:=byte) x)) = blen x).
  { intros x Hx. apply be_val_small. unfold blen in *. change (256 ^ Z.of_nat 4) with (2 ^ 32). lia. }
  apply app_inj_1 in H as [Hl H]; [|by rewrite !length_be].
  apply (f_equal be_val) in Hl. rewrite !Hdec in Hl by done.
  apply app_inj_1 in H as [-> H]; [|unfold blen in Hl; lia].
  apply app_inj_1 in H as [_ ->]; [|by rewrite !length_be]. done.
Qed.

Create Rewrite HintDb len.
#[export] Hint Rewrite @length_DomainHash @length_ObjectIDForShard length_be : len.
