(* ===== verification/Merkle.v ===== *)
(** * Merkle

    Package [internal/v2/merkle]: the padded binary Merkle tree that commits to
    shard states, receipts, validators and contract events.  [Root] and
    [BuildProof] work in place on one level buffer; the specification is the
    perfect binary tree [tree_root]. *)

From S2P Require Import Prelude GoLib Codec Crypto Types.

Open Scope Z_scope.

(** [p] doubles from 1; 64 steps cover every 64-bit [int]. *)
Fixpoint nextPowerOfTwo_loop (fuel : nat) (p n : Z) : Z :=
  match fuel with
  | O => p
  | S fuel => if p <? n then nextPowerOfTwo_loop fuel (Z.shiftl p 1) n else p
  end.

Definition nextPowerOfTwo (n : Z) : Z :=
  if n <=? 1 then 1 else nextPowerOfTwo_loop 64 1 n.

(** [for n := target; n > 1; n /= 2 { depth++ }] *)
Fixpoint depth_loop (fuel : nat) (n : Z) (depth : nat) : nat :=
  match fuel with
  | O => depth
  | S fuel => if 1 <? n then depth_loop fuel (n / 2) (S depth) else depth
  end.
Definition requiredDepth (n : Z) : nat := depth_loop 64 n 0.

Record Proof := mkProof {
  Index : Z;
  LeafCount : Z;
  Siblings : list bytes;
}.

Section merkle.
Context `{Crypto}.

Definition Leaf (domain : bytes) (payload : bytes) : bytes :=
  DomainHash (str "zephyr/merkle/leaf/v2/" ++ domain) payload.

(** The 64-byte buffer holds the two hashes side by side. *)
Definition branch (left right : bytes) : bytes :=
  DomainHash (str "zephyr/merkle/branch/v2") (left ++ right).

Definition emptyLeaf : bytes := DomainHash (str "zephyr/merkle/empty/v2") [].

(** The level buffer: the leaves, then padding. *)
Definition initial_level (leaves : list bytes) (width : nat) : list bytes :=
  leaves ++ replicate (width - length leaves) emptyLeaf.

(** [for i := 0; i < width; i += 2 { level[i/2] = branch(level[i], level[i+1]) }] *)
Definition reduce_step (level : list bytes) (i : nat) : list bytes :=
  <[(i / 2)%nat := branch (nth i level []) (nth (i + 1) level [])]> level.
Definition reduce_level (width : nat) (level : list bytes) : list bytes :=
  foldl reduce_step level ((fun k => 2 * k)%nat <$> seq 0 ((width + 1) / 2)).

Fixpoint Root_loop (fuel width : nat) (level : list bytes) : bytes :=
  match fuel with
  | O => nth 0 level []
  | S fuel =>
      if (1 <? width)%nat then Root_loop fuel (width / 2) (reduce_level width level)
      else nth 0 level []
  end.

Definition Root (leaves : list bytes) : bytes :=
  if bool_decide (leaves = []) then emptyLeaf
  else
    let width := Z.to_nat (nextPowerOfTwo (blen leaves)) in
    Root_loop 64 width (initial_level leaves width).

Fixpoint BuildProof_loop (fuel width position : nat) (level siblings : list bytes) : list bytes :=
  match fuel with
  | O => siblings
  | S fuel =>
      if (1 <? width)%nat then
        BuildProof_loop fuel (width / 2) (position / 2) (reduce_level width level)
          (siblings ++ [nth (Nat.lxor position 1) level []])
      else siblings
  end.

Definition BuildProof (leaves : list bytes) (index : Z) : res Proof :=
  if (index <? 0) || (blen leaves <=? index) then Err ErrIndex
  else
    let width := Z.to_nat (nextPowerOfTwo (blen leaves)) in
    let level := initial_level leaves width in
    let siblings := BuildProof_loop 64 width (Z.to_nat index) level [] in
    Ok (mkProof (index mod 2 ^ 32) (blen leaves mod 2 ^ 32) siblings).

(** The walk from the leaf to the root. *)
Definition verify_step (st : bytes * Z) (sibling : bytes) : bytes * Z :=
  let '(current, position) := st in
  ((if position mod 2 =? 0 then branch current sibling else branch sibling current),
   position / 2).

Definition Verify (root leaf : bytes) (proof : Proof) : bool :=
  if (LeafCount proof =? 0) || (LeafCount proof <=? Index proof) then false
  else
    let target := nextPowerOfTwo (LeafCount proof) in
    if negb (Nat.eqb (length (Siblings proof)) (requiredDepth target)) then false
    else bool_decide (fst (foldl verify_step (leaf, Index proof) (Siblings proof)) = root).

Definition MarshalBinary (p : Proof) : bytes :=
  let w := Writer.new |> Writer.U32 (Index p) |> Writer.U32 (LeafCount p)
    |> Writer.U32 (blen (Siblings p) mod 2 ^ 32) in
  Writer.BytesCopy (foldl (fun w sibling => w |> Writer.Fixed sibling) w (Siblings p)).

Definition parseProof : parser Proof :=
  index ← Rd.U32 <!> ErrIndex;
  leafCount ← Rd.U32 <!> ErrIndex;
  plift (fail_if ((leafCount =? 0) || (leafCount <=? index)) ErrIndex);;
  count ← Rd.U32 <!> ErrIndex;
  plift (fail_if (32 <? count) ErrIndex);;
  siblings ← prepeat (Z.to_nat count) (Rd.Fixed 32 <!> ErrIndex);
  Rd.Done <!> ErrIndex;;
  mret (mkProof index leafCount siblings).

Definition ParseProof (data : bytes) : res Proof := parse parseProof data.

(** ** Specification: the perfect binary tree of depth [d] *)

Fixpoint tree_root (d : nat) (leaves : list bytes) : bytes :=
  match d with
  | O => nth 0 leaves []
  | S d => branch (tree_root d (take (2 ^ d) leaves)) (tree_root d (drop (2 ^ d) leaves))
  end.

(** The leaves padded to the next power of two, and its exponent. *)
Definition tree_depth (n : Z) : nat := requiredDepth (nextPowerOfTwo n).
Definition padded (leaves : list bytes) : list bytes :=
  leaves ++ replicate (2 ^ tree_depth (blen leaves) - length leaves) emptyLeaf.
End merkle.

(** ** The power-of-two loops *)

Lemma nextPowerOfTwo_loop_spec fuel k n :
  0 <= k -> n <= 2 ^ (k + Z.of_nat fuel) ->
  exists j, k <= j <= k + Z.of_nat fuel /\ nextPowerOfTwo_loop fuel (2 ^ k) n = 2 ^ j /\
    n <= 2 ^ j /\ (j = k \/ 2 ^ (j - 1) < n).
Proof.
  revert k. induction fuel as [|fuel IH]; intros k Hk Hn; cbn [nextPowerOfTwo_loop].
  - exists k. rewrite Z.add_0_r in Hn. split_and!; try lia; auto.
  - destruct (2 ^ k <? n) eqn:E.
    + rewrite Z.shiftl_mul_pow2 by lia. rewrite <-Z.pow_add_r by lia.
      destruct (IH (k + 1)) as (j & ? & ? & ? & Hj); [lia| |].
      { eapply Z.le_trans; [exact Hn|]. apply Z.pow_le_mono_r; lia. }
      exists j. split_and!; try lia. right.
      destruct Hj as [->|?]; [|done]. replace (k + 1 - 1) with k by lia. lia.
    + exists k. split_and!; try lia; auto.
Qed.

(** [nextPowerOfTwo n] is the least power of two that is at least [n]. *)
Lemma nextPowerOfTwo_spec n :
  n <= 2 ^ 62 ->
  exists j, 0 <= j <= 62 /\ nextPowerOfTwo n = 2 ^ j /\ n <= 2 ^ j /\ (j = 0 \/ 2 ^ (j - 1) < n).
Proof.
  intros Hn. unfold nextPowerOfTwo. destruct (n <=? 1) eqn:E.
  - exists 0. split_and!; try lia; auto.
  - destruct (nextPowerOfTwo_loop_spec 64 0 n) as (j & Hj & Heq & Hle & Hor); [lia| |].
    { eapply Z.le_trans; [exact Hn|]. apply Z.pow_le_mono_r; lia. }
    exists j. split_and!; try done; try lia.
    destruct Hor as [->|Hor]; [lia|].
    assert (2 ^ (j - 1) < 2 ^ 62) as Hlt by lia.
    apply Z.pow_lt_mono_r_iff in Hlt; lia.
Qed.

Lemma depth_loop_pow fuel (k d : nat) :
  (k <= fuel)%nat -> depth_loop fuel (2 ^ Z.of_nat k) d = (k + d)%nat.
Proof.
  revert k d. induction fuel as [|fuel IH]; intros k d Hk; cbn [depth_loop].
  - by replace k with 0%nat by lia.
  - destruct k as [|k]; [done|].
    rewrite Nat2Z.inj_succ, Z.pow_succ_r by lia.
    assert (0 < 2 ^ Z.of_nat k) by (apply Z.pow_pos_nonneg; lia).
    assert ((1 <? 2 * 2 ^ Z.of_nat k) = true) as -> by lia.
    rewrite Z.mul_comm, Z.div_mul by lia. rewrite IH by lia. lia.
Qed.

Lemma requiredDepth_pow (k : nat) : (k <= 64)%nat -> requiredDepth (2 ^ Z.of_nat k) = k.
Proof. intros. unfold requiredDepth. rewrite depth_loop_pow by done. lia. Qed.

(** The width of the level buffer is [2 ^ tree_depth]. *)
Lemma nextPowerOfTwo_depth n :
  n <= 2 ^ 62 ->
  (tree_depth n <= 62)%nat /\ nextPowerOfTwo n = 2 ^ Z.of_nat (tree_depth n) /\
  Z.to_nat (nextPowerOfTwo n) = (2 ^ tree_depth n)%nat /\ n <= 2 ^ Z.of_nat (tree_depth n).
Proof.
  intros Hn. destruct (nextPowerOfTwo_spec n Hn) as (j & Hj & Heq & Hle & _).
  unfold tree_depth. rewrite Heq. rewrite <-(Z2Nat.id j) in * by lia.
  set (k := Z.to_nat j) in *. rewrite requiredDepth_pow by lia.
  split_and!; [lia|done| |done].
  apply to_nat_pow2.
Qed.

(** ** In-place reduction *)

Section reduction.
Context `{Crypto}.

(** One level of the tree, as a function on lists. *)
Fixpoint pairs (l : list bytes) : list bytes :=
  match l with
  | a :: b :: l => branch a b :: pairs l
  | _ => []
  end.

Fixpoint up (d : nat) (l : list bytes) : list bytes :=
  match d with O => l | S d => up d (pairs l) end.

Lemma list_double_ind {A} (P : list A -> Prop) :
  P [] -> (forall a, P [a]) -> (forall a b l, P l -> P (a :: b :: l)) -> forall l, P l.
Proof.
  intros H0 H1 H2 l. assert (P l /\ forall a, P (a :: l)) as [? _]; [|done].
  induction l as [|x l [IH1 IH2]]; split; auto.
Qed.

Lemma length_pairs l : length (pairs l) = (length l / 2)%nat.
Proof.
  induction l as [| |a b l IH] using list_double_ind; try done. cbn [pairs length].
  rewrite IH. replace (S (S (length l))) with (1 * 2 + length l)%nat by lia.
  rewrite Nat.div_add_l by lia. lia.
Qed.

Lemma nth_pairs l k : (2 * k + 1 < length l)%nat ->
  nth k (pairs l) [] = branch (nth (2 * k) l []) (nth (2 * k + 1) l []).
Proof.
  revert k. induction l as [| |a b l IH] using list_double_ind; intros k Hk; cbn in Hk; try lia.
  destruct k as [|k]; [done|].
  replace (2 * S k)%nat with (S (S (2 * k))) by lia. cbn [pairs nth Nat.add].
  rewrite IH by lia. done.
Qed.

Lemma pairs_app l1 l2 : Nat.Even (length l1) -> pairs (l1 ++ l2) = pairs l1 ++ pairs l2.
Proof.
  induction l1 as [| a|a b l IH] using list_double_ind; intros He; [done| |].
  - destruct He as [k Hk]. cbn in Hk. lia.
  - cbn [pairs app]. f_equal. apply IH. destruct He as [k Hk]. cbn in Hk. exists (k - 1)%nat. lia.
Qed.

Lemma nth_insert (l : list bytes) i j x :
  (i < length l)%nat -> nth j (<[i:=x]> l) [] = if decide (j = i) then x else nth j l [].
Proof.
  intros Hi. rewrite !nth_lookup. case_decide as E.
  - subst. by rewrite list_lookup_insert_eq.
  - by rewrite list_lookup_insert_ne.
Qed.

(** After [k] steps the first [k] slots hold the parents, the others are
    untouched; the slots step [k] reads lie at or above [k]. *)
Lemma reduce_steps level k :
  (2 * k <= length level)%nat ->
  let level' := foldl reduce_step level ((fun k => 2 * k)%nat <$> seq 0 k) in
  length level' = length level /\
  forall j, nth j level' [] =
    if (j <? k)%nat then branch (nth (2 * j) level []) (nth (2 * j + 1) level [])
    else nth j level [].
Proof.
  induction k as [|k IH]; intros Hk; cbv zeta in *; [done|].
  rewrite seq_S, fmap_app, foldl_app. cbn [foldl fmap list_fmap Nat.add].
  destruct IH as [Hlen Hnth]; [lia|].
  set (lv := foldl reduce_step level _) in *. unfold reduce_step.
  assert ((2 * k / 2)%nat = k) as -> by (rewrite Nat.mul_comm; by apply Nat.div_mul). split; [by rewrite length_insert|].
  intros j. rewrite nth_insert by lia. rewrite !Hnth.
  destruct (2 * k <? k)%nat eqn:E1; [apply Nat.ltb_lt in E1; lia|].
  destruct (2 * k + 1 <? k)%nat eqn:E2; [apply Nat.ltb_lt in E2; lia|].
  destruct (decide (j = k)) as [->|Hne].
  - assert ((k <? S k)%nat = true) as -> by (apply Nat.ltb_lt; lia). done.
  - destruct (j <? k)%nat eqn:E3, (j <? S k)%nat eqn:E4; try done;
      [apply Nat.ltb_lt in E3; apply Nat.ltb_ge in E4; lia
      |apply Nat.ltb_ge in E3; apply Nat.ltb_lt in E4; lia].
Qed.

Lemma take_ext (l1 l2 : list bytes) m :
  (m <= length l1)%nat -> length l2 = m ->
  (forall j, (j < m)%nat -> nth j l1 [] = nth j l2 []) -> take m l1 = l2.
Proof.
  intros H1 H2 Hn. apply (nth_ext _ _ [] []).
  - rewrite length_take. lia.
  - intros j Hj. rewrite length_take in Hj. rewrite nth_lookup, lookup_take_lt by lia.
    rewrite <-nth_lookup. apply Hn. lia.
Qed.

(** The in-place loop computes one level of the tree. *)
Lemma reduce_level_pairs level m :
  (2 * m <= length level)%nat ->
  length (reduce_level (2 * m) level) = length level /\
  take m (reduce_level (2 * m) level) = pairs (take (2 * m) level).
Proof.
  intros Hm. unfold reduce_level.
  replace ((2 * m + 1) / 2)%nat with m
    by (rewrite Nat.add_comm, (Nat.mul_comm 2), Nat.div_add by lia; done).
  destruct (reduce_steps level m Hm) as [Hl Hn]. split; [done|].
  apply take_ext.
  - rewrite Hl. lia.
  - rewrite length_pairs, length_take.
    rewrite Nat.min_l by lia. rewrite Nat.mul_comm. by apply Nat.div_mul.
  - intros j Hj. rewrite Hn.
    assert ((j <? m)%nat = true) as -> by (apply Nat.ltb_lt; lia).
    rewrite nth_pairs by (rewrite length_take; lia).
    rewrite !nth_lookup, !lookup_take_lt by lia. done.
Qed.

Lemma Root_loop_up d fuel level :
  (d < fuel)%nat -> (2 ^ d <= length level)%nat ->
  Root_loop fuel (2 ^ d) level = nth 0 (up d (take (2 ^ d) level)) [].
Proof.
  revert fuel level. induction d as [|d IH]; intros [|fuel] level Hf Hl; try lia.
  - cbn. destruct level; done.
  - cbn [Root_loop]. rewrite Nat.pow_succ_r'.
    assert (0 < 2 ^ d)%nat by (apply Nat.neq_0_lt_0, Nat.pow_nonzero; lia).
    rewrite Nat.pow_succ_r' in Hl.
    assert ((1 <? 2 * 2 ^ d)%nat = true) as -> by (apply Nat.ltb_lt; lia).
    rewrite Nat.mul_comm, Nat.div_mul, Nat.mul_comm by lia.
    destruct (reduce_level_pairs level (2 ^ d)) as [Hlen Htk]; [done|].
    rewrite IH by lia. rewrite Htk. done.
Qed.

Lemma up_S d l : up (S d) l = pairs (up d l).
Proof. revert l. induction d as [|d IH]; intros l; [done|]. cbn [up] in *. by rewrite IH. Qed.

Lemma up_app d l1 l2 : length l1 = (2 ^ d)%nat -> up d (l1 ++ l2) = up d l1 ++ up d l2.
Proof.
  revert l1 l2. induction d as [|d IH]; intros l1 l2 Hl; [done|]. cbn [up].
  rewrite Nat.pow_succ_r' in Hl.
  rewrite pairs_app by (exists (2 ^ d)%nat; lia). apply IH.
  rewrite length_pairs, Hl, Nat.mul_comm. by apply Nat.div_mul.
Qed.

Lemma length_up d l k : length l = (k * 2 ^ d)%nat -> length (up d l) = k.
Proof.
  revert l. induction d as [|d IH]; intros l Hl; [cbn in *; lia|]. cbn [up].
  apply IH. rewrite length_pairs, Hl, Nat.pow_succ_r'.
  rewrite (Nat.mul_comm 2), Nat.mul_assoc. by apply Nat.div_mul.
Qed.

(** The perfect tree is what reducing level by level gives. *)
Lemma up_tree_root d l : length l = (2 ^ d)%nat -> up d l = [tree_root d l].
Proof.
  revert l. induction d as [|d IH]; intros l Hl.
  - destruct l as [|? [|]]; cbn in Hl; try lia. done.
  - rewrite up_S. rewrite Nat.pow_succ_r' in Hl.
    assert (0 < 2 ^ d)%nat by (apply Nat.neq_0_lt_0, Nat.pow_nonzero; lia).
    rewrite <-(take_drop (2 ^ d) l) at 1. rewrite up_app by (rewrite length_take; lia).
    rewrite !IH by (rewrite ?length_take, ?length_drop; lia). done.
Qed.

Lemma length_padded leaves : blen leaves <= 2 ^ 62 ->
  length (padded leaves) = (2 ^ tree_depth (blen leaves))%nat.
Proof.
  intros Hn. destruct (nextPowerOfTwo_depth _ Hn) as (_ & _ & _ & Hle).
  unfold padded. rewrite length_app, length_replicate. unfold blen in *.
  apply Z2Nat.inj_le in Hle; [|lia..]. rewrite Nat2Z.id, to_nat_pow2 in Hle. lia.
Qed.

Lemma initial_level_padded leaves : blen leaves <= 2 ^ 62 ->
  initial_level leaves (Z.to_nat (nextPowerOfTwo (blen leaves))) = padded leaves.
Proof.
  intros Hn. destruct (nextPowerOfTwo_depth _ Hn) as (_ & _ & Heq & _).
  unfold initial_level, padded. by rewrite Heq.
Qed.

Lemma Root_tree leaves : blen leaves <= 2 ^ 62 ->
  Root leaves = tree_root (tree_depth (blen leaves)) (padded leaves).
Proof.
  intros Hn. destruct (decide (leaves = [])) as [->|Hne]; [done|].
  unfold Root. rewrite bool_decide_false by done. cbv zeta.
  rewrite initial_level_padded by done.
  pose proof (length_padded leaves Hn) as Hl.
  destruct (nextPowerOfTwo_depth _ Hn) as (Hd & _ & -> & _).
  rewrite Root_loop_up by lia. rewrite take_ge by lia. rewrite up_tree_root by done. done.
Qed.
End reduction.

(** ** Proofs: completeness and binding *)

Section proofs.
Context `{Crypto}.

(** The siblings of position [pos] on each level. *)
Fixpoint siblings_of (d pos : nat) (l : list bytes) : list bytes :=
  match d with
  | O => []
  | S d => nth (Nat.lxor pos 1) l [] :: siblings_of d (pos / 2) (pairs l)
  end.

Lemma length_siblings_of d pos l : length (siblings_of d pos l) = d.
Proof. revert pos l. induction d; intros; cbn; auto. Qed.

Lemma BuildProof_loop_siblings d fuel pos level acc :
  (d < fuel)%nat -> (2 ^ d <= length level)%nat -> (pos < 2 ^ d)%nat ->
  BuildProof_loop fuel (2 ^ d) pos level acc
  = acc ++ siblings_of d pos (take (2 ^ d) level).
Proof.
  revert fuel pos level acc. induction d as [|d IH]; intros [|fuel] pos level acc Hf Hl Hp; try lia.
  - cbn. by rewrite app_nil_r.
  - cbn [BuildProof_loop]. rewrite Nat.pow_succ_r' in *.
    assert (0 < 2 ^ d)%nat by (apply Nat.neq_0_lt_0, Nat.pow_nonzero; lia).
    assert ((1 <? 2 * 2 ^ d)%nat = true) as -> by (apply Nat.ltb_lt; lia).
    rewrite (Nat.mul_comm 2 (2 ^ d)), Nat.div_mul by lia. rewrite (Nat.mul_comm (2 ^ d) 2).
    destruct (reduce_level_pairs level (2 ^ d)) as [Hlen Htk]; [done|].
    rewrite IH; [|lia|lia|apply Nat.Div0.div_lt_upper_bound; lia].
    rewrite Htk, <-app_assoc. f_equal. cbn [siblings_of app]. f_equal.
    rewrite !nth_lookup, lookup_take_lt; [done|].
    destruct (Nat.Even_or_Odd pos) as [[k ->]|[k ->]]; rewrite ?lxor_even_1, ?lxor_odd_1; lia.
Qed.

(** Walking up from position [pos] with its siblings reaches the root. *)
Lemma verify_walk d pos l :
  length l = (2 ^ d)%nat -> (pos < 2 ^ d)%nat ->
  fst (foldl verify_step (nth pos l [], Z.of_nat pos) (siblings_of d pos l)) = nth 0 (up d l) [].
Proof.
  revert pos l. induction d as [|d IH]; intros pos l Hl Hp.
  { cbn in *. by replace pos with 0%nat by lia. }
  rewrite Nat.pow_succ_r' in *. cbn [siblings_of foldl up].
  assert (verify_step (nth pos l [], Z.of_nat pos) (nth (Nat.lxor pos 1) l [])
    = (nth (pos / 2) (pairs l) [], Z.of_nat (pos / 2))) as ->.
  { unfold verify_step. rewrite Nat2Z.inj_div.
    destruct (Nat.Even_or_Odd pos) as [[k ->]|[k ->]]; rewrite ?lxor_even_1, ?lxor_odd_1.
    - replace (2 * k / 2)%nat with k by (rewrite Nat.mul_comm; symmetry; by apply Nat.div_mul).
      rewrite nth_pairs by lia.
      by rewrite Nat2Z.inj_mul, Z.mul_comm, Z_mod_mult.
    - replace ((2 * k + 1) / 2)%nat with k
        by (rewrite Nat.add_comm, Nat.mul_comm, Nat.div_add; [done|lia]).
      rewrite nth_pairs by lia.
      by rewrite Nat2Z.inj_add, Nat2Z.inj_mul, Z.add_comm, Z.mul_comm, Z_mod_plus_full. }
  apply IH.
  - rewrite length_pairs, Hl, Nat.mul_comm. by apply Nat.div_mul.
  - apply Nat.Div0.div_lt_upper_bound. lia.
Qed.

(** What [BuildProof] returns for an index in range. *)
Lemma BuildProof_eq leaves index :
  0 <= index < blen leaves -> blen leaves < 2 ^ 32 ->
  BuildProof leaves index =
    Ok (mkProof index (blen leaves)
          (siblings_of (tree_depth (blen leaves)) (Z.to_nat index) (padded leaves))).
Proof.
  intros Hi Hn. assert (blen leaves <= 2 ^ 62) as Hn' by lia.
  unfold BuildProof. assert ((index <? 0) || (blen leaves <=? index) = false) as -> by lia. cbv zeta.
  rewrite initial_level_padded by done.
  pose proof (length_padded leaves Hn') as Hl.
  destruct (nextPowerOfTwo_depth _ Hn') as (Hd & _ & -> & Hle).
  rewrite BuildProof_loop_siblings; [|lia|lia|].
  - rewrite take_ge by lia. rewrite !Z.mod_small by lia. done.
  - apply Nat2Z.inj_lt. rewrite Nat2Z.inj_pow. change (Z.of_nat 2) with 2. lia.
Qed.

Lemma nth_padded leaves (i : nat) : (i < length leaves)%nat -> nth i (padded leaves) [] = nth i leaves [].
Proof. intros. unfold padded. by apply app_nth1. Qed.

Lemma BuildProof_Verify leaves index p :
  blen leaves < 2 ^ 32 -> BuildProof leaves index = Ok p ->
  Verify (Root leaves) (nth (Z.to_nat index) leaves []) p = true.
Proof.
  intros Hn Hb. assert (blen leaves <= 2 ^ 62) as Hn' by lia.
  assert (0 <= index < blen leaves) as Hi.
  { unfold BuildProof in Hb. destruct (_ || _) eqn:E; [done|]. lia. }
  rewrite BuildProof_eq in Hb by lia. injection Hb as <-.
  unfold Verify. cbn [LeafCount Index Siblings].
  assert ((blen leaves =? 0) || (blen leaves <=? index) = false) as -> by lia. cbv zeta.
  rewrite length_siblings_of. fold (tree_depth (blen leaves)). rewrite Nat.eqb_refl. cbn [negb].
  apply bool_decide_true. pose proof (length_padded leaves Hn') as Hl.
  destruct (nextPowerOfTwo_depth _ Hn') as (Hd & _ & _ & Hle).
  assert (Z.to_nat index < 2 ^ tree_depth (blen leaves))%nat as Hlt.
  { apply Nat2Z.inj_lt. rewrite Nat2Z.inj_pow. change (Z.of_nat 2) with 2. lia. }
  pose proof (verify_walk _ _ _ Hl Hlt) as Hw.
  rewrite Z2Nat.id, nth_padded in Hw by (unfold blen in *; lia).
  rewrite Hw, Root_tree, up_tree_root by done. done.
Qed.

(** The 64-byte payloads hashed on the way from a leaf to the root. *)
Fixpoint path_preimages (leaf : bytes) (pos : Z) (sibs : list bytes) : list bytes :=
  match sibs with
  | [] => []
  | s :: sibs =>
      (if pos mod 2 =? 0 then leaf ++ s else s ++ leaf)
      :: path_preimages (fst (verify_step (leaf, pos) s)) (pos / 2) sibs
  end.

(** Two different payloads at the same height of two paths with the same
    SHA-256 branch hash: a collision of the hash function. *)
Definition branch_collision (xs ys : list bytes) : Prop :=
  exists k x y, xs !! k = Some x /\ ys !! k = Some y /\ x <> y /\
    DomainHash (str "zephyr/merkle/branch/v2") x = DomainHash (str "zephyr/merkle/branch/v2") y.

Lemma verify_step_length leaf pos s : length (fst (verify_step (leaf, pos) s)) = 32%nat.
Proof. cbn. case_match; apply length_DomainHash. Qed.

Lemma walk_binding sibs1 sibs2 leaf1 leaf2 pos :
  length sibs1 = length sibs2 -> length leaf1 = length leaf2 -> leaf1 <> leaf2 ->
  fst (foldl verify_step (leaf1, pos) sibs1) = fst (foldl verify_step (leaf2, pos) sibs2) ->
  branch_collision (path_preimages leaf1 pos sibs1) (path_preimages leaf2 pos sibs2).
Proof.
  revert sibs2 leaf1 leaf2 pos.
  induction sibs1 as [|s1 sibs1 IH]; intros [|s2 sibs2] leaf1 leaf2 pos Hl Hll Hne Heq; try done.
  cbn [foldl path_preimages] in *. injection Hl as Hl.
  destruct (decide (fst (verify_step (leaf1, pos) s1) = fst (verify_step (leaf2, pos) s2))) as [E|E].
  - exists 0%nat. do 2 eexists. split_and!; [done|done| |].
    + case_match; intros Ha; apply Hne.
      * by apply app_inj_1 in Ha as [? _].
      * by apply app_inj_2 in Ha as [_ ?].
    + cbn in E. unfold branch in E. case_match; done.
  - destruct (verify_step (leaf1, pos) s1) as [n1 q1] eqn:E1.
    destruct (verify_step (leaf2, pos) s2) as [n2 q2] eqn:E2.
    assert (q1 = pos / 2 /\ q2 = pos / 2) as [-> ->] by (cbn in *; by simplify_eq).
    destruct (IH sibs2 n1 n2 (pos / 2)) as (k & x & y & ?); [done| |done|done|].
    + pose proof (verify_step_length leaf1 pos s1) as L1. rewrite E1 in L1.
      pose proof (verify_step_length leaf2 pos s2) as L2. rewrite E2 in L2. cbn in *. congruence.
    + exists (S k), x, y. done.
Qed.

Lemma Verify_inv root leaf p :
  Verify root leaf p = true ->
  Index p < LeafCount p /\ length (Siblings p) = tree_depth (LeafCount p) /\
  fst (foldl verify_step (leaf, Index p) (Siblings p)) = root.
Proof.
  unfold Verify. intros Hv. destruct (_ || _) eqn:E; [done|]. cbv zeta in Hv.
  destruct (negb _) eqn:E2; [done|]. apply negb_false_iff, Nat.eqb_eq in E2.
  apply bool_decide_eq_true in Hv. split_and!; [lia|done|done].
Qed.

Lemma Verify_binding root leaf1 leaf2 p1 p2 :
  length leaf1 = length leaf2 -> Index p1 = Index p2 -> LeafCount p1 = LeafCount p2 ->
  Verify root leaf1 p1 = true -> Verify root leaf2 p2 = true ->
  leaf1 = leaf2 \/
  branch_collision (path_preimages leaf1 (Index p1) (Siblings p1))
                   (path_preimages leaf2 (Index p2) (Siblings p2)).
Proof.
  intros Hl Hi Hc (H1 & H2 & H3)%Verify_inv (H4 & H5 & H6)%Verify_inv.
  destruct (decide (leaf1 = leaf2)) as [?|Hne]; [by left|right].
  rewrite <-Hi in *. apply walk_binding; congruence.
Qed.

(** ** Membership, whatever leaf count the proof claims

    [Verify] takes the depth of the tree from the proof.  The domain tags keep
    leaves and branches apart, so a proof of another depth still needs a
    collision. *)

Definition branch_input (payload : bytes) : bytes :=
  domain_preimage (str "zephyr/merkle/branch/v2") payload.

(** Every branch payload hashed by the perfect tree over [leaves]. *)
Fixpoint tree_inputs (d : nat) (leaves : list bytes) : list bytes :=
  match d with
  | O => []
  | S d =>
      branch_input (tree_root d (take (2 ^ d) leaves) ++ tree_root d (drop (2 ^ d) leaves))
      :: tree_inputs d (take (2 ^ d) leaves) ++ tree_inputs d (drop (2 ^ d) leaves)
  end.

(** One input of each list, different, with the same SHA-256 hash. *)
Definition inputs_collide (xs ys : list bytes) : Prop :=
  exists x y, x ∈ xs /\ y ∈ ys /\ x <> y /\ sha256 x = sha256 y.

Lemma inputs_collide_mono xs xs' ys ys' :
  (forall x, x ∈ xs -> x ∈ xs') -> (forall y, y ∈ ys -> y ∈ ys') ->
  inputs_collide xs ys -> inputs_collide xs' ys'.
Proof. intros Hx Hy (x & y & ? & ? & ?). exists x, y. auto. Qed.

Lemma path_preimages_snoc sibs s leaf pos :
  exists p, foldl verify_step (leaf, pos) sibs = (fst (foldl verify_step (leaf, pos) sibs), p) /\
  path_preimages leaf pos (sibs ++ [s]) =
  path_preimages leaf pos sibs ++
    [if p mod 2 =? 0 then fst (foldl verify_step (leaf, pos) sibs) ++ s
     else s ++ fst (foldl verify_step (leaf, pos) sibs)].
Proof.
  revert leaf pos. induction sibs as [|s' sibs IH]; intros leaf pos; cbn [app foldl path_preimages].
  - exists pos. done.
  - destruct (verify_step (leaf, pos) s') as [l' p'] eqn:E.
    assert (p' = pos / 2) as -> by (cbn in E; congruence). cbn [fst].
    destruct (IH l' (pos / 2)) as (p & H1 & H2). exists p. split; [exact H1|]. rewrite H2. done.
Qed.

Lemma walk_length sibs leaf pos :
  length leaf = 32%nat -> length (fst (foldl verify_step (leaf, pos) sibs)) = 32%nat.
Proof.
  revert leaf pos. induction sibs as [|s sibs IH]; intros leaf pos Hl; [done|].
  cbn [foldl]. pose proof (verify_step_length leaf pos s) as L.
  destruct (verify_step (leaf, pos) s) as [l' p']. apply IH. exact L.
Qed.

Lemma tree_root_length d leaves :
  length leaves = (2 ^ d)%nat -> Forall arr32 leaves -> length (tree_root d leaves) = 32%nat.
Proof.
  destruct d as [|d]; intros Hl Hall; cbn [tree_root]; [|apply length_DomainHash].
  destruct leaves as [|x [|]]; try done. by apply Forall_cons_1 in Hall as [? _].
Qed.

Lemma branch_input_inj x y : branch_input x = branch_input y -> x = y.
Proof.
  unfold branch_input, domain_preimage. intros Heq. do 2 apply app_inv_head in Heq.
  apply app_inj_1 in Heq as [_ ?]; [done|by rewrite !length_be].
Qed.

#[local] Ltac in_tauto :=
  cbn [tree_inputs]; intros ?; repeat (rewrite elem_of_app || rewrite elem_of_cons); tauto.

(** [pres] holds the preimages of the leaves; none is a branch input. *)
Lemma walk_member d sibs leaf px pos leaves pres :
  leaf = sha256 px -> (forall x, px <> branch_input x) ->
  length leaves = (2 ^ d)%nat ->
  Forall (fun l => exists q, q ∈ pres /\ l = sha256 q /\ forall x, q <> branch_input x) leaves ->
  fst (foldl verify_step (leaf, pos) sibs) = tree_root d leaves ->
  leaf ∈ leaves \/
  inputs_collide (px :: (branch_input <$> path_preimages leaf pos sibs)) (pres ++ tree_inputs d leaves).
Proof.
  intros Hpx Hnb. revert d leaves. induction sibs as [|s sibs IH] using rev_ind; intros d leaves Hl Hall Hr.
  - cbn [foldl fst] in Hr. destruct d as [|d].
    + destruct leaves as [|x [|]]; try done. cbn in Hr. subst x. left. left.
    + right. exists px, (branch_input (tree_root d (take (2 ^ d) leaves) ++ tree_root d (drop (2 ^ d) leaves))).
      split_and!; [left|apply elem_of_app; right; left|apply Hnb|]. rewrite <-Hpx. exact Hr.
  - destruct (path_preimages_snoc sibs s leaf pos) as (p & Hf & ->).
    rewrite foldl_app, Hf in Hr. set (cur := fst (foldl verify_step (leaf, pos) sibs)) in *.
    set (pay := if p mod 2 =? 0 then cur ++ s else s ++ cur).
    assert (tree_root d leaves = sha256 (branch_input pay)) as Hr'.
    { rewrite <-Hr. unfold pay. cbn [foldl verify_step fst]. by destruct (p mod 2 =? 0). }
    rewrite fmap_app. cbn [fmap list_fmap].
    assert (branch_input pay ∈ px :: (branch_input <$> path_preimages leaf pos sibs) ++ [branch_input pay]) as Hin.
    { right. apply elem_of_app. right. left. }
    destruct d as [|d].
    + destruct leaves as [|x [|]]; try done. cbn in Hr'. apply Forall_cons_1 in Hall as [(q & Hq & Hx & Hqb) _].
      right. exists (branch_input pay), q. split_and!; [exact Hin|apply elem_of_app; by left| |congruence].
      intros Heq. by apply (Hqb pay).
    + cbn [tree_root] in Hr'. set (l := take (2 ^ d) leaves) in *. set (r := drop (2 ^ d) leaves) in *.
      assert (length l = (2 ^ d)%nat /\ length r = (2 ^ d)%nat) as [Hll Hlr].
      { unfold l, r. rewrite length_take, length_drop, Hl. cbn. lia. }
      assert (Forall arr32 leaves) as Harr.
      { eapply Forall_impl; [exact Hall|]. intros y (q & _ & -> & _). apply sha256_length. }
      assert (length (tree_root d l) = 32%nat) as L1.
      { apply tree_root_length; [done|]. by apply Forall_take. }
      assert (length (tree_root d r) = 32%nat) as L2.
      { apply tree_root_length; [done|]. by apply Forall_drop. }
      assert (length cur = 32%nat) as L3. { apply walk_length. rewrite Hpx. apply sha256_length. }
      assert (branch (tree_root d l) (tree_root d r) = sha256 (branch_input (tree_root d l ++ tree_root d r)))
        as Hb by done.
      destruct (decide (branch_input pay = branch_input (tree_root d l ++ tree_root d r))) as [E|E].
      * apply branch_input_inj in E. unfold pay in E.
        assert (cur = tree_root d l \/ cur = tree_root d r) as Hc.
        { destruct (p mod 2 =? 0).
          - apply app_inj_1 in E as [? _]; [by left|congruence].
          - apply app_inj_2 in E as [_ ?]; [by right|congruence]. }
        destruct Hc as [Hc|Hc].
        -- destruct (IH d l Hll) as [Hin'|Hcol]; [by apply Forall_take|done| |].
           ++ left. rewrite <-(take_drop (2 ^ d) leaves). apply elem_of_app. by left.
           ++ right. eapply inputs_collide_mono; [| |exact Hcol]; clear; in_tauto.
        -- destruct (IH d r Hlr) as [Hin'|Hcol]; [by apply Forall_drop|done| |].
           ++ left. rewrite <-(take_drop (2 ^ d) leaves). apply elem_of_app. by right.
           ++ right. eapply inputs_collide_mono; [| |exact Hcol]; clear; in_tauto.
      * right. exists (branch_input pay), (branch_input (tree_root d l ++ tree_root d r)).
        split_and!; [exact Hin|apply elem_of_app; right; left|done|congruence].
Qed.

Definition leaf_input (domain payload : bytes) : bytes :=
  domain_preimage (str "zephyr/merkle/leaf/v2/" ++ domain) payload.
Definition empty_input : bytes := domain_preimage (str "zephyr/merkle/empty/v2") [].

(** What verifying [p] for a payload hashes, and what [Root] hashes. *)
Definition verify_inputs (domain payload : bytes) (p : Proof) : list bytes :=
  leaf_input domain payload
  :: (branch_input <$> path_preimages (Leaf domain payload) (Index p) (Siblings p)).
Definition root_inputs (domain : bytes) (payloads : list bytes) : list bytes :=
  ((leaf_input domain <$> payloads) ++ [empty_input])
  ++ tree_inputs (tree_depth (blen payloads)) (padded (Leaf domain <$> payloads)).

Lemma leaf_input_inj dom x y : leaf_input dom x = leaf_input dom y -> x = y.
Proof.
  unfold leaf_input, domain_preimage. intros He. do 2 apply app_inv_head in He.
  apply app_inj_1 in He as [_ ?]; [done|by rewrite !length_be].
Qed.

(** The byte after the common prefix "zephyr/merkle/" tells the domains apart. *)
Lemma domain_byte d x : (15 <= length d)%nat -> nth 18 (domain_preimage d x) x00 = nth 14 d x00.
Proof.
  intros Hd. unfold domain_preimage. rewrite app_nth2; rewrite length_be; [|lia]. by rewrite app_nth1.
Qed.

Lemma domains_apart d x d' x' :
  (15 <= length d)%nat -> (15 <= length d')%nat -> nth 14 d x00 <> nth 14 d' x00 ->
  domain_preimage d x <> domain_preimage d' x'.
Proof. intros Hd Hd' Hne Heq. apply Hne. by rewrite <-(domain_byte d x), <-(domain_byte d' x'), Heq. Qed.

Lemma leaf_not_branch dom x y : leaf_input dom x <> branch_input y.
Proof.
  apply domains_apart; [rewrite length_app; cbn; lia|cbn; lia|].
  rewrite app_nth1 by (cbn; lia). discriminate.
Qed.
Lemma leaf_not_empty dom x : leaf_input dom x <> empty_input.
Proof.
  apply domains_apart; [rewrite length_app; cbn; lia|cbn; lia|].
  rewrite app_nth1 by (cbn; lia). discriminate.
Qed.
Lemma empty_not_branch y : empty_input <> branch_input y.
Proof. apply domains_apart; [cbn; lia|cbn; lia|]. discriminate. Qed.

(** Membership: a proof accepted for a payload against the root of a list of
    payloads, whatever its index and leaf count. *)
Lemma Verify_member dom payload dom' payloads p :
  blen payloads <= 2 ^ 62 ->
  Verify (Root (Leaf dom' <$> payloads)) (Leaf dom payload) p = true ->
  Leaf dom payload ∈ (Leaf dom' <$> payloads) \/
  inputs_collide (verify_inputs dom payload p) (root_inputs dom' payloads).
Proof.
  intros Hn (_ & _ & Hw)%Verify_inv. set (leaves := Leaf dom' <$> payloads) in *.
  assert (blen leaves = blen payloads) as Hb by (unfold blen, leaves; by rewrite length_fmap).
  rewrite Root_tree in Hw by lia.
  destruct (walk_member (tree_depth (blen leaves)) (Siblings p) (Leaf dom payload) (leaf_input dom payload)
    (Index p) (padded leaves) ((leaf_input dom' <$> payloads) ++ [empty_input])) as [Hin|Hcol].
  - reflexivity.
  - apply leaf_not_branch.
  - apply length_padded. lia.
  - apply Forall_forall. intros l Hl. unfold padded in Hl. apply elem_of_app in Hl as [Hl|Hl].
    + unfold leaves in Hl. apply list_elem_of_fmap in Hl as (q & -> & Hq).
      exists (leaf_input dom' q). split; [apply elem_of_app; left; by apply list_elem_of_fmap_2|].
      split; [reflexivity|apply leaf_not_branch].
    + apply elem_of_replicate in Hl as [-> _]. exists empty_input.
      split; [apply elem_of_app; right; left|]. split; [reflexivity|apply empty_not_branch].
  - exact Hw.
  - unfold padded in Hin. apply elem_of_app in Hin as [Hin|Hin]; [by left|].
    apply elem_of_replicate in Hin as [Heq _]. right. exists (leaf_input dom payload), empty_input.
    split_and!; [left| |apply leaf_not_empty|exact Heq].
    unfold root_inputs. rewrite !elem_of_app. left. right. left.
  - right. unfold root_inputs. rewrite <-Hb. exact Hcol.
Qed.

Lemma Verify_payload dom payload payloads p :
  blen payloads <= 2 ^ 62 ->
  Verify (Root (Leaf dom <$> payloads)) (Leaf dom payload) p = true ->
  payload ∈ payloads \/ inputs_collide (verify_inputs dom payload p) (root_inputs dom payloads).
Proof.
  intros Hn Hv. apply Verify_member in Hv as [Hin|Hc]; [|by right|done].
  apply list_elem_of_fmap in Hin as (q & Heq & Hq).
  destruct (decide (payload = q)) as [->|Hne]; [by left|right].
  exists (leaf_input dom payload), (leaf_input dom q). split_and!; [left| | |exact Heq].
  - unfold root_inputs. rewrite !elem_of_app. left. left. by apply list_elem_of_fmap_2.
  - intros He%leaf_input_inj. done.
Qed.

(** ** Binding of a root to its list *)

(** Every leaf is the hash of an input in [pres] that is not a branch. *)
Definition leaves_of (pres leaves : list bytes) : Prop :=
  Forall (fun l => exists q, q ∈ pres /\ l = sha256 q /\ forall x, q <> branch_input x) leaves.

Lemma leaves_of_arr32 pres leaves : leaves_of pres leaves -> Forall arr32 leaves.
Proof. intros Hl. eapply Forall_impl; [exact Hl|]. intros y (q & _ & -> & _). apply sha256_length. Qed.

(** A tree with one leaf and a deeper one have no common root. *)
Lemma leaf_branch_collide d pres leaves pres' leaves' :
  length leaves = 1%nat -> leaves_of pres leaves -> tree_root 0 leaves = tree_root (S d) leaves' ->
  inputs_collide (pres ++ tree_inputs 0 leaves) (pres' ++ tree_inputs (S d) leaves').
Proof.
  destruct leaves as [|x [|]]; try done. intros _ [(q & Hq & -> & Hb) _]%Forall_cons_1 E.
  exists q, (branch_input (tree_root d (take (2 ^ d) leaves') ++ tree_root d (drop (2 ^ d) leaves'))).
  split_and!; [apply elem_of_app; by left|apply elem_of_app; right; left|apply Hb|exact E].
Qed.

Lemma inputs_collide_sym xs ys : inputs_collide xs ys -> inputs_collide ys xs.
Proof. intros (x & y & ? & ? & ? & ?). exists y, x. split_and!; [done..|by apply not_eq_sym|done]. Qed.

Lemma tree_binding d d' pres pres' leaves leaves' :
  length leaves = (2 ^ d)%nat -> length leaves' = (2 ^ d')%nat -> leaves_of pres leaves -> leaves_of pres' leaves' ->
  tree_root d leaves = tree_root d' leaves' ->
  leaves = leaves' \/ inputs_collide (pres ++ tree_inputs d leaves) (pres' ++ tree_inputs d' leaves').
Proof.
  revert d' leaves leaves'. induction d as [|d IH]; intros [|d'] l l' Hl Hl' Hp Hp' E.
  - destruct l as [|x [|]], l' as [|y [|]]; try done. cbn in E. left. congruence.
  - right. by apply leaf_branch_collide.
  - right. apply inputs_collide_sym. by apply leaf_branch_collide.
  - pose proof (leaves_of_arr32 _ _ Hp) as Ha. pose proof (leaves_of_arr32 _ _ Hp') as Ha'. cbn [tree_root] in E.
    rewrite <-(take_drop (2 ^ d) l), <-(take_drop (2 ^ d') l').
    assert (length (take (2 ^ d) l) = (2 ^ d)%nat /\ length (drop (2 ^ d) l) = (2 ^ d)%nat) as [L1 L2]
      by (rewrite length_take, length_drop, Hl; cbn; lia).
    assert (length (take (2 ^ d') l') = (2 ^ d')%nat /\ length (drop (2 ^ d') l') = (2 ^ d')%nat) as [L1' L2']
      by (rewrite length_take, length_drop, Hl'; cbn; lia).
    rewrite !take_drop. cbn [tree_inputs].
    set (a := take (2 ^ d) l) in *. set (b := drop (2 ^ d) l) in *. set (a' := take (2 ^ d') l') in *. set (b' := drop (2 ^ d') l') in *.
    destruct (decide (branch_input (tree_root d a ++ tree_root d b) = branch_input (tree_root d' a' ++ tree_root d' b'))) as [Eb|Eb].
    + apply branch_input_inj, app_inj_1 in Eb as [E1 E2];
        [|rewrite !tree_root_length; [done|done|by apply Forall_take|done|by apply Forall_take]].
      destruct (IH d' a a' L1 L1') as [Hab|Hcol]; [by apply Forall_take|by apply Forall_take|done| |].
      2:{ right. eapply inputs_collide_mono; [| |exact Hcol]; clear; in_tauto. }
      destruct (IH d' b b' L2 L2') as [Hbb|Hcol]; [by apply Forall_drop|by apply Forall_drop|done| |].
      2:{ right. eapply inputs_collide_mono; [| |exact Hcol]; clear; in_tauto. }
      left. rewrite <-(take_drop (2 ^ d) l), <-(take_drop (2 ^ d') l'). fold a b a' b'. congruence.
    + right. eexists _, _. split_and!; [apply elem_of_app; right; left|apply elem_of_app; right; left|exact Eb|exact E].
Qed.

Lemma padded_leaves_of dom payloads :
  leaves_of ((leaf_input dom <$> payloads) ++ [empty_input]) (padded (Leaf dom <$> payloads)).
Proof.
  apply Forall_forall. intros l Hl. unfold padded in Hl. apply elem_of_app in Hl as [Hl|Hl].
  - apply list_elem_of_fmap in Hl as (q & -> & Hq). exists (leaf_input dom q).
    split; [apply elem_of_app; left; by apply list_elem_of_fmap_2|]. split; [reflexivity|apply leaf_not_branch].
  - apply elem_of_replicate in Hl as [-> _]. exists empty_input.
    split; [apply elem_of_app; right; left|]. split; [reflexivity|apply empty_not_branch].
Qed.

(** Padded leaves come from one list, or two inputs collide. *)
Lemma padded_binding dom ps qs m n :
  (Leaf dom <$> ps) ++ replicate m emptyLeaf = (Leaf dom <$> qs) ++ replicate n emptyLeaf ->
  ps = qs \/ inputs_collide ((leaf_input dom <$> ps) ++ [empty_input]) ((leaf_input dom <$> qs) ++ [empty_input]).
Proof.
  revert qs. induction ps as [|p ps IH]; intros [|q qs] E; [by left|..].
  - right. destruct m as [|m]; [done|]. injection E as E _. exists empty_input, (leaf_input dom q).
    split_and!; [left|left|apply not_eq_sym, leaf_not_empty|exact E].
  - right. destruct n as [|n]; [done|]. injection E as E _. exists (leaf_input dom p), empty_input.
    split_and!; [left|apply elem_of_app; right; left|apply leaf_not_empty|exact E].
  - injection E as E1 E2. destruct (decide (leaf_input dom p = leaf_input dom q)) as [->%leaf_input_inj|Hne].
    + destruct (IH qs E2) as [->|Hcol]; [by left|right]. eapply inputs_collide_mono; [| |exact Hcol]; by right.
    + right. exists (leaf_input dom p), (leaf_input dom q). split_and!; [left|left|done|exact E1].
Qed.

(** One root for two lists: they are equal, or SHA-256 collides on two inputs of
    the computations of the root. *)
Lemma Root_binding dom ps qs :
  blen ps <= 2 ^ 62 -> blen qs <= 2 ^ 62 -> Root (Leaf dom <$> ps) = Root (Leaf dom <$> qs) ->
  ps = qs \/ inputs_collide (root_inputs dom ps) (root_inputs dom qs).
Proof.
  intros Hp Hq E. assert (forall l : list bytes, blen (Leaf dom <$> l) = blen l) as Hb by (intros; unfold blen; by rewrite length_fmap).
  rewrite !Root_tree in E by (rewrite Hb; done). rewrite !Hb in E.
  apply (tree_binding _ _ ((leaf_input dom <$> ps) ++ [empty_input]) ((leaf_input dom <$> qs) ++ [empty_input])) in E as [E|Hcol];
    [|by right|by rewrite <-(Hb ps); apply length_padded; rewrite Hb|by rewrite <-(Hb qs); apply length_padded; rewrite Hb
      |apply padded_leaves_of|apply padded_leaves_of].
  apply padded_binding in E as [->|Hcol]; [by left|right].
  eapply inputs_collide_mono; [| |exact Hcol]; intros x Hx; apply elem_of_app; by left.
Qed.
End proofs.

(** ** Wire format *)

(** The proofs [ParseProof] accepts. *)
Definition Proof_ok (p : Proof) : Prop :=
  u32 (Index p) /\ u32 (LeafCount p) /\ Index p < LeafCount p /\
  blen (Siblings p) <= 32 /\ Forall arr32 (Siblings p).

Lemma MarshalBinary_eq p :
  MarshalBinary p = be 4 (Index p) ++ be 4 (LeafCount p) ++ be 4 (blen (Siblings p)) ++ concat (Siblings p).
Proof.
  unfold MarshalBinary. rewrite (writer_loop _ id) by done. rewrite list_fmap_id.
  writer_norm. by rewrite be4_mod.
Qed.

Lemma ParseProof_Ok d p : ParseProof d = Ok p -> Proof_ok p /\ MarshalBinary p = d.
Proof.
  intros H. unfold ParseProof, parseProof in H. parse_inv.
  match goal with H : prepeat _ _ _ = Ok _ |- _ => apply prepeat_fixed_Ok in H as (Hlen & ? & ?) end.
  rewrite MarshalBinary_eq. unfold Proof_ok. cbn [Index LeafCount Siblings].
  rewrite Forall_arr. unfold u32 in *.
  replace (blen v4) with v2 by (unfold blen; rewrite Hlen; lia).
  split; [split_and!; try done; lia|]. rest_rw. by rewrite app_nil_r.
Qed.

Lemma ParseProof_MarshalBinary p : Proof_ok p -> ParseProof (MarshalBinary p) = Ok p.
Proof.
  intros (Hi & Hc & Hlt & Hs & Hall). rewrite MarshalBinary_eq. apply reads_parse.
  unfold parseProof. destruct p as [i c s]; cbn in *. apply Forall_arr in Hall.
  rewrite <-(app_nil_r (concat _)). unfold u32, blen in *.
  solve_reads; try done; unfold u32; try lia.
  rewrite Nat2Z.id. by apply reads_repeat_fixed.
Qed.

(** ** Properties *)

Section properties.
Context `{Crypto}.

(** the in-place buffer loop of [Root] computes the root of the perfect
    binary tree over the leaves padded with the empty leaf to the next power
    of two, for any number of leaves an [int] can hold. *)
Theorem Root_is_perfect_tree (leaves : list bytes) :
  blen leaves <= 2 ^ 62 ->
  Root leaves = tree_root (tree_depth (blen leaves)) (padded leaves) /\
  length (padded leaves) = (2 ^ tree_depth (blen leaves))%nat.
Proof. intros Hn. split; [by apply Root_tree|by apply length_padded]. Qed.

(** [BuildProof] succeeds exactly on the indices in range, and [Verify]
    accepts its proof for the leaf at that index against [Root]. *)
Theorem BuildProof_complete (leaves : list bytes) (index : Z) :
  blen leaves < 2 ^ 32 ->
  (0 <= index < blen leaves ->
   exists p, BuildProof leaves index = Ok p /\
     Verify (Root leaves) (nth (Z.to_nat index) leaves []) p = true) /\
  (~ 0 <= index < blen leaves -> BuildProof leaves index = Err ErrIndex).
Proof.
  intros Hn. split; intros Hi.
  - eexists. split; [by apply BuildProof_eq|]. apply BuildProof_Verify; [done|]. by apply BuildProof_eq.
  - unfold BuildProof. assert ((index <? 0) || (blen leaves <=? index) = true) as -> by lia. done.
Qed.

(** [Verify] is binding.  A proof accepted against [Root leaves] for the
    right number of leaves either shows the leaf that is really at its index,
    or the two paths (the accepted one and the honest one) contain two
    different 64-byte payloads with the same SHA-256 hash. *)
Theorem Verify_sound (leaves : list bytes) (leaf : bytes) (p : Proof) :
  blen leaves < 2 ^ 32 -> Forall arr32 leaves -> arr32 leaf ->
  0 <= Index p -> LeafCount p = blen leaves ->
  Verify (Root leaves) leaf p = true ->
  leaf = nth (Z.to_nat (Index p)) leaves [] \/
  branch_collision
    (path_preimages leaf (Index p) (Siblings p))
    (path_preimages (nth (Z.to_nat (Index p)) leaves []) (Index p)
       (siblings_of (tree_depth (blen leaves)) (Z.to_nat (Index p)) (padded leaves))).
Proof.
  intros Hn Hall Hleaf Hi Hc Hv. pose proof Hv as (Hlt & _ & _)%Verify_inv. rewrite Hc in Hlt.
  pose proof (BuildProof_Verify leaves (Index p) _ Hn (BuildProof_eq _ _ (conj Hi Hlt) Hn)) as Hh.
  refine (Verify_binding _ _ _ p (mkProof _ _ _) _ _ _ Hv Hh); [|done|done].
  rewrite Forall_forall in Hall. unfold arr in Hleaf. rewrite Hleaf. symmetry. apply Hall.
  apply list_elem_of_In, nth_In. unfold blen in Hlt. lia.
Qed.
End properties.

(** The wire format of proofs is canonical: [ParseProof] accepts exactly
    the encodings of well-formed proofs (index below the leaf count, at most 32
    sibling hashes), each proof has one encoding and parses back to itself. *)
Theorem ParseProof_canonical (d : bytes) (p : Proof) :
  ParseProof d = Ok p <-> Proof_ok p /\ MarshalBinary p = d.
Proof.
  split; [apply ParseProof_Ok|]. intros [Hp <-]. by apply ParseProof_MarshalBinary.
Qed.

Definition sample_leaves : list bytes := [be 32 11; be 32 22; be 32 33].

Lemma Root_is_perfect_tree_witness :
  Root (H:=small_crypto) sample_leaves
  = tree_root (H:=small_crypto) 2 (sample_leaves ++ [emptyLeaf (H:=small_crypto)]).
Proof.
  refine (proj1 (Root_is_perfect_tree (H:=small_crypto) sample_leaves _)). vm_compute. discriminate.
Defined.

Lemma BuildProof_complete_witness :
  exists p, BuildProof (H:=small_crypto) sample_leaves 2 = Ok p /\
    Verify (H:=small_crypto) (Root (H:=small_crypto) sample_leaves) (be 32 33) p = true.
Proof.
  refine (proj1 (BuildProof_complete (H:=small_crypto) sample_leaves 2 _) _).
  - vm_compute. reflexivity.
  - split; [discriminate|reflexivity].
Defined.

Definition sample_proof : Proof :=
  mkProof 2 3 (siblings_of (H:=small_crypto) 2 2 (padded (H:=small_crypto) sample_leaves)).

Lemma Verify_sound_witness :
  be 32 33 = nth 2 sample_leaves [] \/
  branch_collision (H:=small_crypto)
    (path_preimages (H:=small_crypto) (be 32 33) 2 (Siblings sample_proof))
    (path_preimages (H:=small_crypto) (be 32 33) 2 (Siblings sample_proof)).
Proof.
  refine (Verify_sound (H:=small_crypto) sample_leaves (be 32 33) sample_proof _ _ _ _ _ _).
  - reflexivity.
  - repeat constructor.
  - reflexivity.
  - discriminate.
  - reflexivity.
  - vm_compute. reflexivity.
Defined.
