(* ===== verification/Object.v ===== *)
(** * Object

    Package [internal/v2/object]: versioned, owned objects of the world state,
    output specifications, and the coin payload. *)

From S2P Require Import Prelude GoLib Codec Crypto Types.

Open Scope Z_scope.

(** [type Kind uint16] *)
Definition KindUnknown : Z := 0.
Definition KindCoin : Z := 1.
Definition KindTokenDefinition : Z := 2.
Definition KindContract : Z := 3.
Definition KindContractState : Z := 4.
Definition KindComputeOffer : Z := 5.
Definition KindComputeJob : Z := 6.
Definition KindComputeAssignment : Z := 7.
Definition KindComputeResult : Z := 8.
Definition KindLoanOffer : Z := 9.
Definition KindLoan : Z := 10.
Definition KindSystem : Z := 11.
Definition KindDeviceCredential : Z := 12.
Definition KindCrossLoanOffer : Z := 13.
Definition KindCrossLoanAcceptance : Z := 14.
Definition KindCrossLoanActivation : Z := 15.
Definition KindCrossLoanRepayment : Z := 16.

Definition MaxObjectDataBytes : Z := Z.shiftl 1 20.

Record Object := mkObject {
  ID : bytes;
  Version : Z;
  Owner : bytes;
  Kind : Z;
  Data : bytes;
}.

Record OutputSpec := mkOutputSpec {
  o_Owner : bytes;
  o_Kind : Z;
  o_Data : bytes;
}.

Record Coin := mkCoin {
  Token : bytes;
  Amount : Z;
  CreatedHeight : Z;
}.

#[global] Instance Object_eq_dec : EqDecision Object.
Proof. solve_decision. Defined.
#[global] Instance OutputSpec_eq_dec : EqDecision OutputSpec.
Proof. solve_decision. Defined.
#[global] Instance Coin_eq_dec : EqDecision Coin.
Proof. solve_decision. Defined.

Definition validateOwnerForKind (owner : bytes) (kind : Z) : res unit :=
  if kind =? KindSystem then Ok tt
  else if IsZero32 owner then Err ErrInvalidObject else Ok tt.

Definition Object_Validate (o : Object) : res unit :=
  if IsZero32 (ID o) || (Version o =? 0) || (Kind o =? KindUnknown)
     || (MaxObjectDataBytes <? blen (Data o))
  then Err ErrInvalidObject
  else validateOwnerForKind (Owner o) (Kind o).

Definition OutputSpec_Validate (o : OutputSpec) : res unit :=
  if (o_Kind o =? KindUnknown) || (MaxObjectDataBytes <? blen (o_Data o))
  then Err ErrInvalidObject
  else validateOwnerForKind (o_Owner o) (o_Kind o).

Definition Object_CanonicalBytes (o : Object) : bytes :=
  Writer.BytesCopy (Writer.new |> Writer.Fixed (ID o) |> Writer.U64 (Version o)
    |> Writer.Fixed (Owner o) |> Writer.U16 (Kind o) |> Writer.Bytes (Data o)).

Definition OutputSpec_CanonicalBytes (o : OutputSpec) : bytes :=
  Writer.BytesCopy (Writer.new |> Writer.Fixed (o_Owner o)
    |> Writer.U16 (o_Kind o) |> Writer.Bytes (o_Data o)).

Definition ParseObject (data : bytes) : res Object :=
  parse (id ← Rd.Fixed 32 <!> ErrInvalidObject;
         version ← Rd.U64 <!> ErrInvalidObject;
         owner ← Rd.Fixed 32 <!> ErrInvalidObject;
         kind ← Rd.U16 <!> ErrInvalidObject;
         payload ← Rd.Bytes MaxObjectDataBytes <!> ErrInvalidObject;
         Rd.Done <!> ErrInvalidObject;;
         let out := mkObject id version owner kind payload in
         plift (Object_Validate out);;
         mret out) data.

Definition ParseOutputSpec (data : bytes) : res OutputSpec :=
  parse (owner ← Rd.Fixed 32 <!> ErrInvalidObject;
         kind ← Rd.U16 <!> ErrInvalidObject;
         payload ← Rd.Bytes MaxObjectDataBytes <!> ErrInvalidObject;
         Rd.Done <!> ErrInvalidObject;;
         let out := mkOutputSpec owner kind payload in
         plift (OutputSpec_Validate out);;
         mret out) data.

Definition Coin_MarshalBinary (c : Coin) : bytes :=
  Writer.BytesCopy (Writer.new |> Writer.Fixed (Token c) |> Writer.U64 (Amount c)
    |> Writer.U64 (CreatedHeight c)).

Definition ParseCoin (data : bytes) : res Coin :=
  parse (token ← Rd.Fixed 32 <!> ErrInvalidCoin;
         amount ← Rd.U64 <!> ErrInvalidCoin;
         plift (fail_if (amount =? 0) ErrInvalidCoin);;
         createdHeight ← Rd.U64 <!> ErrInvalidCoin;
         Rd.Done <!> ErrInvalidCoin;;
         plift (fail_if (IsZero32 token) ErrInvalidCoin);;
         mret (mkCoin token amount createdHeight)) data.

Definition NewCoinOutputAtHeight (owner token : bytes) (amount createdHeight : Z) : res OutputSpec :=
  fail_if (IsZero32 owner || IsZero32 token || (amount =? 0)) ErrInvalidCoin;;
  let out := mkOutputSpec owner KindCoin (Coin_MarshalBinary (mkCoin token amount createdHeight)) in
  OutputSpec_Validate out;;
  Ok out.

Definition NewCoinOutput (owner token : bytes) (amount : Z) : res OutputSpec :=
  NewCoinOutputAtHeight owner token amount 0.

Section hashes.
Context `{Crypto}.
Definition Object_Hash (o : Object) : bytes :=
  DomainHash (str "zephyr/object/v2") (Object_CanonicalBytes o).
Definition OutputSpec_Hash (o : OutputSpec) : bytes :=
  DomainHash (str "zephyr/output-spec/v2") (OutputSpec_CanonicalBytes o).
End hashes.

(** ** Well-formedness: the ranges of the Go types, and validity *)

Definition Object_typed (o : Object) : Prop :=
  arr32 (ID o) /\ u64 (Version o) /\ arr32 (Owner o) /\ u16 (Kind o).
Definition Object_ok (o : Object) : Prop := Object_typed o /\ Object_Validate o = Ok tt.

Definition OutputSpec_typed (o : OutputSpec) : Prop := arr32 (o_Owner o) /\ u16 (o_Kind o).
Definition OutputSpec_ok (o : OutputSpec) : Prop := OutputSpec_typed o /\ OutputSpec_Validate o = Ok tt.

Definition Coin_typed (c : Coin) : Prop := arr32 (Token c) /\ u64 (Amount c) /\ u64 (CreatedHeight c).
Definition Coin_ok (c : Coin) : Prop := Coin_typed c /\ Amount c <> 0 /\ IsZero32 (Token c) = false.

Lemma Object_Validate_data o : Object_Validate o = Ok tt -> blen (Data o) <= MaxObjectDataBytes.
Proof. unfold Object_Validate. destruct (_ || _) eqn:E; [done|]. lia. Qed.
Lemma OutputSpec_Validate_data o : OutputSpec_Validate o = Ok tt -> blen (o_Data o) <= MaxObjectDataBytes.
Proof. unfold OutputSpec_Validate. destruct (_ || _) eqn:E; [done|]. lia. Qed.

Lemma blen32 x : arr32 x <-> blen x = 32.
Proof. unfold arr, blen. lia. Qed.

Lemma ParseObject_Ok d o : ParseObject d = Ok o -> Object_ok o /\ Object_CanonicalBytes o = d.
Proof.
  unfold ParseObject. intros H. parse_inv. unfold Object_ok, Object_typed. rewrite !blen32.
  split; [done|]. unfold Object_CanonicalBytes. writer_norm. rest_rw. by rewrite app_nil_r.
Qed.

Lemma ParseObject_CanonicalBytes o : Object_ok o -> ParseObject (Object_CanonicalBytes o) = Ok o.
Proof.
  intros [(Hi & Hv & Ho & Hk) Hval]. pose proof (Object_Validate_data o Hval).
  unfold ParseObject, Object_CanonicalBytes. apply reads_parse. writer_norm.
  rewrite blen32 in *. destruct o. solve_reads; done.
Qed.

Lemma ParseOutputSpec_Ok d o : ParseOutputSpec d = Ok o -> OutputSpec_ok o /\ OutputSpec_CanonicalBytes o = d.
Proof.
  unfold ParseOutputSpec. intros H. parse_inv. unfold OutputSpec_ok, OutputSpec_typed. rewrite !blen32.
  split; [done|]. unfold OutputSpec_CanonicalBytes. writer_norm. rest_rw. by rewrite app_nil_r.
Qed.

Lemma ParseOutputSpec_CanonicalBytes o :
  OutputSpec_ok o -> ParseOutputSpec (OutputSpec_CanonicalBytes o) = Ok o.
Proof.
  intros [(Ho & Hk) Hval]. pose proof (OutputSpec_Validate_data o Hval).
  unfold ParseOutputSpec, OutputSpec_CanonicalBytes. apply reads_parse. writer_norm.
  rewrite blen32 in *. destruct o. solve_reads; done.
Qed.

Lemma OutputSpec_CanonicalBytes_length o :
  OutputSpec_ok o -> blen (OutputSpec_CanonicalBytes o) <= MaxObjectDataBytes + 64.
Proof.
  intros [(Ho & _) Hv%OutputSpec_Validate_data]. unfold OutputSpec_CanonicalBytes. writer_norm.
  unfold enc_bytes, blen, arr in *. rewrite !length_app, !length_be, Ho. lia.
Qed.

Lemma ParseCoin_Ok d c : ParseCoin d = Ok c -> Coin_ok c /\ Coin_MarshalBinary c = d.
Proof.
  unfold ParseCoin. intros H. parse_inv. unfold Coin_ok, Coin_typed. rewrite !blen32.
  split; [split_and!; try done; cbn in *; lia|].
  unfold Coin_MarshalBinary. writer_norm. rest_rw. by rewrite app_nil_r.
Qed.

Lemma ParseCoin_MarshalBinary c : Coin_ok c -> ParseCoin (Coin_MarshalBinary c) = Ok c.
Proof.
  intros [(Ht & Ha & Hc) [Hnz Htk]].
  unfold ParseCoin, Coin_MarshalBinary. apply reads_parse. writer_norm.
  rewrite blen32 in *. destruct c. cbn in *. solve_reads; try done. lia.
Qed.

Lemma length_Coin_MarshalBinary c : arr32 (Token c) -> blen (Coin_MarshalBinary c) = 48.
Proof.
  unfold Coin_MarshalBinary, arr. intros Ht. writer_norm. unfold blen.
  rewrite !length_app, !length_be, Ht. done.
Qed.

(** [NewCoinOutputAtHeight] succeeds exactly on a non-zero owner, token and
    amount, and its payload parses back to the coin. *)
Lemma NewCoinOutputAtHeight_Ok owner token amount h s :
  arr32 owner -> arr32 token -> u64 amount -> u64 h ->
  NewCoinOutputAtHeight owner token amount h = Ok s ->
  o_Owner s = owner /\ o_Kind s = KindCoin /\
  ParseCoin (o_Data s) = Ok (mkCoin token amount h) /\ OutputSpec_ok s.
Proof.
  unfold NewCoinOutputAtHeight. intros Ho Ht Ha Hh H. res_inv. cbn [o_Owner o_Kind o_Data].
  match goal with H : _ || _ = false |- _ => rename H into Hz end.
  apply orb_false_iff in Hz as [Hz Hnz]. apply orb_false_iff in Hz as [Hzo Hzt].
  split_and!; [done|done| |split; [done|done]].
  apply ParseCoin_MarshalBinary. split; [done|]. cbn. split; [lia|done].
Qed.

Lemma NewCoinOutputAtHeight_succeeds owner token amount h :
  arr32 token -> IsZero32 owner = false -> IsZero32 token = false -> amount <> 0 ->
  exists s, NewCoinOutputAtHeight owner token amount h = Ok s.
Proof.
  intros Ht Ho Htz Ha. unfold NewCoinOutputAtHeight. rewrite Ho, Htz.
  assert ((amount =? 0) = false) as -> by lia. cbn [fail_if orb mbind res_bind].
  unfold OutputSpec_Validate, validateOwnerForKind. cbn [o_Kind o_Data o_Owner].
  rewrite length_Coin_MarshalBinary by done. rewrite Ho. eexists. reflexivity.
Qed.

(** ** Properties *)

(** the object encoding is canonical: [ParseObject] accepts exactly the
    canonical bytes of the valid objects whose fields are in range, and returns
    that object.  In particular two objects never share an encoding. *)
Theorem ParseObject_canonical (d : bytes) (o : Object) :
  ParseObject d = Ok o <-> Object_ok o /\ Object_CanonicalBytes o = d.
Proof. split; [apply ParseObject_Ok|]. intros [? <-]. by apply ParseObject_CanonicalBytes. Qed.

(** The same for coin payloads: exactly the 48-byte encodings of coins with
    a non-zero token and a non-zero amount parse. *)
Theorem ParseCoin_canonical (d : bytes) (c : Coin) :
  ParseCoin d = Ok c <-> Coin_ok c /\ Coin_MarshalBinary c = d.
Proof. split; [apply ParseCoin_Ok|]. intros [? <-]. by apply ParseCoin_MarshalBinary. Qed.
