(* ===== verification/Smt.v ===== *)
(** * Smt

    Package [internal/v2/state]: the incremental sparse Merkle tree of depth
    256 over 32-byte keys.  The tree keeps a map of values and a map of the
    node hashes that differ from the default of their depth.  Definitions
    first; the specification [node_spec] gives the hash of every node from the
    values alone, and the lemmas of [SmtProofs] relate the two.  The
    [RWMutex] only serialises the operations, which are modelled one at a
    time. *)

From S2P Require Import Prelude GoLib Codec Crypto Types.

Open Scope Z_scope.

Definition Depth : nat := 256.

(** ** Bits of a 32-byte key *)

Definition byte_at (key : bytes) (i : nat) : Z := Z_of_byte (nth i key x00).

Definition prefixAtDepth (key : bytes) (depth : nat) : bytes :=
  if (depth <=? 0)%nat then zero32
  else if (Depth <=? depth)%nat then key
  else
    let fullBytes := (depth / 8)%nat in
    let remainingBits := (depth mod 8)%nat in
    if (remainingBits =? 0)%nat then
      (* bytes fullBytes.. are cleared *)
      firstn fullBytes key ++ replicate (length key - fullBytes) x00
    else
      let mask := byte_of_Z (Z.shiftl 255 (8 - Z.of_nat remainingBits)) in
      firstn fullBytes key
      ++ [byte_of_Z (Z.land (byte_at key fullBytes) (Z_of_byte mask))]
      ++ replicate (length key - (fullBytes + 1)) x00.

Definition bitAt (key : bytes) (bitIndex : nat) : Z :=
  let byteIndex := (bitIndex / 8)%nat in
  let shift := 7 - Z.of_nat (bitIndex mod 8) in
  Z.land (Z.shiftr (byte_at key byteIndex) shift) 1.

Definition toggleBit (key : bytes) (bitIndex : nat) : bytes :=
  let byteIndex := (bitIndex / 8)%nat in
  let shift := 7 - Z.of_nat (bitIndex mod 8) in
  <[byteIndex := byte_of_Z (Z.lxor (byte_at key byteIndex) (Z.shiftl 1 shift))]> key.

Definition setBitmapBit (bitmap : bytes) (index : nat) : bytes :=
  let byteIndex := (index / 8)%nat in
  let shift := Z.of_nat (index mod 8) in
  <[byteIndex := byte_of_Z (Z.lor (byte_at bitmap byteIndex) (Z.shiftl 1 shift))]> bitmap.

Definition bitmapBit (bitmap : bytes) (index : nat) : bool :=
  let byteIndex := (index / 8)%nat in
  let shift := Z.of_nat (index mod 8) in
  negb (Z.land (byte_at bitmap byteIndex) (Z.shiftl 1 shift) =? 0).

(** ** The tree *)

Record Proof := mkProof {
  Exists : bool;
  Bitmap : bytes;
  Siblings : list bytes;
}.

(** [nodes] is keyed by [nodeKey{Depth, Prefix}]. *)
Record Tree := mkTree {
  values : gmap bytes bytes;
  nodes : gmap (nat * bytes) bytes;
  defaults : list bytes;
}.

Section smt.
Context `{Crypto}.

Definition leafHash (key value : bytes) : bytes :=
  let w := Writer.new |> Writer.Fixed key |> Writer.Bytes value in
  DomainHash (str "zephyr/smt/leaf/v2") (Writer.BytesCopy w).

Definition branchHash (left right : bytes) : bytes :=
  DomainHash (str "zephyr/smt/branch/v2") (left ++ right).

(** [defaults[Depth]] is the empty leaf; the loop fills
    [defaults[d] = branchHash(defaults[d+1], defaults[d+1])] downwards. *)
Fixpoint defaults_loop (n : nat) (acc : list bytes) : list bytes :=
  match n with
  | O => acc
  | S n => let h := nth 0 acc [] in defaults_loop n (branchHash h h :: acc)
  end.
Definition defaultHashes : list bytes :=
  defaults_loop Depth [DomainHash (str "zephyr/smt/empty-leaf/v2") []].

Definition NewTree : Tree := mkTree ∅ ∅ defaultHashes.

Definition default_at (t : Tree) (depth : nat) : bytes := nth depth (defaults t) [].

Definition getNode (t : Tree) (depth : nat) (prefix : bytes) : bytes :=
  match nodes t !! (depth, prefixAtDepth prefix depth) with
  | Some h => h
  | None => default_at t depth
  end.

Definition Root (t : Tree) : bytes := getNode t 0 zero32.

(** [(value, ok)]; [None] is [ok = false].  The stored copy of an empty
    slice is a nil slice in Go: the option keeps the two apart, as the map
    lookups of the code do. *)
Definition Get (t : Tree) (key : bytes) : option bytes := values t !! key.

(** The loop body for one [depth], from the leaf towards the root. *)
Definition update_step (key : bytes) (t : Tree) (depth : nat) : Tree :=
  let bit := bitAt key depth in
  let childPrefix := prefixAtDepth key (depth + 1) in
  let siblingPrefix := toggleBit childPrefix depth in
  let child := getNode t (depth + 1) childPrefix in
  let sibling := getNode t (depth + 1) siblingPrefix in
  let parent := if bit =? 0 then branchHash child sibling else branchHash sibling child in
  let parentKey := (depth, prefixAtDepth key depth) in
  if bool_decide (parent = default_at t depth)
  then mkTree (values t) (delete parentKey (nodes t)) (defaults t)
  else mkTree (values t) (<[parentKey := parent]> (nodes t)) (defaults t).

Definition update_leaf (t : Tree) (key : bytes) (value : option bytes) : Tree :=
  let leafNode := (Depth, prefixAtDepth key Depth) in
  match value with
  | None => mkTree (delete key (values t)) (delete leafNode (nodes t)) (defaults t)
  | Some v => mkTree (<[key := v]> (values t)) (<[leafNode := leafHash key v]> (nodes t)) (defaults t)
  end.

Definition updateLocked (t : Tree) (key : bytes) (value : option bytes) : Tree :=
  foldl (update_step key) (update_leaf t key value) (rev (seq 0 Depth)).

Definition Update (t : Tree) (key : bytes) (value : option bytes) : Tree * bytes :=
  let t' := updateLocked t key value in (t', Root t').

(** [for key, value := range updates]: Go does not fix the iteration order;
    [order] is any enumeration of the map. *)
Definition Apply_list (t : Tree) (order : list (bytes * option bytes)) : Tree :=
  foldl (fun t kv => updateLocked t kv.1 kv.2) t order.
Definition Apply (t : Tree) (updates : gmap bytes (option bytes)) : Tree * bytes :=
  let t' := Apply_list t (map_to_list updates) in (t', Root t').

Definition Clone (t : Tree) : Tree := mkTree (values t) (nodes t) (defaults t).

Definition prove_step (t : Tree) (key : bytes) (p : Proof) (i : nat) : Proof :=
  let depth := (Depth - i)%nat in
  let siblingPrefix := toggleBit (prefixAtDepth key depth) (depth - 1) in
  let sibling := getNode t depth siblingPrefix in
  if bool_decide (sibling = default_at t depth) then p
  else mkProof (Exists p) (setBitmapBit (Bitmap p) i) (Siblings p ++ [sibling]).

Definition Prove (t : Tree) (key : bytes) : Proof :=
  let exists_ := match values t !! key with Some _ => true | None => false end in
  foldl (prove_step t key) (mkProof exists_ zero32 []) (seq 0 Depth).

(** The loop state of [Verify]; [None] is the early [return false]. *)
Definition verify_step (key : bytes) (dflt : list bytes) (proof : Proof)
    (st : option (bytes * nat)) (i : nat) : option (bytes * nat) :=
  '(current, siblingIndex) ← st;
  let depth := (Depth - i)%nat in
  '(sibling, siblingIndex) ←
    (if bitmapBit (Bitmap proof) i then
       if (length (Siblings proof) <=? siblingIndex)%nat then None
       else Some (nth siblingIndex (Siblings proof) [], (siblingIndex + 1)%nat)
     else Some (nth depth dflt [], siblingIndex));
  let bitIndex := (depth - 1)%nat in
  Some (if bitAt key bitIndex =? 0 then branchHash current sibling
        else branchHash sibling current, siblingIndex).

(** [value = None] is the nil slice, [Some []] the empty non-nil one. *)
Definition Verify (root key : bytes) (value : option bytes) (proof : Proof) : bool :=
  if negb (Bool.eqb (Exists proof) (match value with Some _ => true | None => false end)) then false
  else
    let dflt := defaultHashes in
    let current := match value with
                   | Some v => leafHash key v
                   | None => nth Depth dflt []
                   end in
    match foldl (verify_step key dflt proof) (Some (current, 0%nat)) (seq 0 Depth) with
    | None => false
    | Some (current, siblingIndex) =>
        (siblingIndex =? length (Siblings proof))%nat && bool_decide (current = root)
    end.

(** ** Preview: an overlay instead of a mutation *)

Definition overlay_lookup (t : Tree) (overlay : gmap (nat * bytes) bytes)
    (depth : nat) (prefix : bytes) : bytes :=
  let key := (depth, prefixAtDepth prefix depth) in
  match overlay !! key with
  | Some hash => hash
  | None => match nodes t !! key with
            | Some hash => hash
            | None => default_at t depth
            end
  end.

Definition preview_step (t : Tree) (key : bytes) (overlay : gmap (nat * bytes) bytes)
    (depth : nat) : gmap (nat * bytes) bytes :=
  let bit := bitAt key depth in
  let childPrefix := prefixAtDepth key (depth + 1) in
  let siblingPrefix := toggleBit childPrefix depth in
  let child := overlay_lookup t overlay (depth + 1) childPrefix in
  let sibling := overlay_lookup t overlay (depth + 1) siblingPrefix in
  let parent := if bit =? 0 then branchHash child sibling else branchHash sibling child in
  <[(depth, prefixAtDepth key depth) := parent]> overlay.

Definition preview_key (t : Tree) (overlay : gmap (nat * bytes) bytes)
    (kv : bytes * option bytes) : gmap (nat * bytes) bytes :=
  let '(key, value) := kv in
  let leaf := match value with
              | None => default_at t Depth
              | Some v => leafHash key v
              end in
  foldl (preview_step t key) (<[(Depth, key) := leaf]> overlay) (rev (seq 0 Depth)).

Definition Preview (t : Tree) (updates : gmap bytes (option bytes)) : bytes :=
  if bool_decide (updates = ∅) then getNode t 0 zero32
  else
    let sorted := sort_by fst (map_to_list updates) in
    let overlay := foldl (preview_key t) ∅ sorted in
    match overlay !! (0%nat, zero32) with
    | Some root => root
    | None => getNode t 0 zero32
    end.

(** ** Wire format of proofs *)

Definition MarshalBinary (p : Proof) : bytes :=
  let w := Writer.new |> Writer.Bool (Exists p) |> Writer.Fixed (Bitmap p)
    |> Writer.U16 (blen (Siblings p) mod 2 ^ 16) in
  Writer.BytesCopy (foldl (fun w sibling => w |> Writer.Fixed sibling) w (Siblings p)).

Definition bitmap_count (bitmap : bytes) : nat :=
  foldl (fun bits i => if bitmapBit bitmap i then S bits else bits) 0%nat (seq 0 Depth).

Definition ParseProof (data : bytes) : res Proof :=
  parse (exists_ ← Rd.Bool <!> ErrInvalidProof;
         bitmap ← Rd.Fixed 32 <!> ErrInvalidProof;
         count ← Rd.U16 <!> ErrInvalidProof;
         plift (fail_if (Z.of_nat Depth <? count) ErrInvalidProof);;
         siblings ← prepeat (Z.to_nat count) (Rd.Fixed 32 <!> ErrInvalidProof);
         Rd.Done <!> ErrInvalidProof;;
         plift (fail_if (negb (bitmap_count bitmap =? length siblings)%nat) ErrInvalidProof);;
         mret (mkProof exists_ bitmap siblings)) data.

Definition EqualProof (a b : Proof) : bool :=
  if negb (Bool.eqb (Exists a) (Exists b)) || negb (bool_decide (Bitmap a = Bitmap b))
     || negb (length (Siblings a) =? length (Siblings b))%nat
  then false
  else forallb (fun ab => bool_decide (ab.1 = ab.2)) (zip (Siblings a) (Siblings b)).

(** ** Specification: the hash of every node from the values alone *)

Fixpoint default_hash (n : nat) : bytes :=
  match n with
  | O => DomainHash (str "zephyr/smt/empty-leaf/v2") []
  | S n => branchHash (default_hash n) (default_hash n)
  end.

(** [node_spec vs n p]: the node at depth [Depth - n] with prefix [p]. *)
Fixpoint node_spec (vs : gmap bytes bytes) (n : nat) (p : bytes) : bytes :=
  match n with
  | O => match vs !! p with Some v => leafHash p v | None => default_hash 0 end
  | S n => branchHash (node_spec vs n p) (node_spec vs n (toggleBit p (Depth - S n)))
  end.

(** The commitment to a set of values. *)
Definition root_spec (vs : gmap bytes bytes) : bytes := node_spec vs Depth zero32.
End smt.
