(* ===== verification/SmtProofs.v ===== *)
(** * SmtProofs

    Correctness of the sparse Merkle tree of [Smt]: the bit-level lemmas on
    32-byte keys, the invariant [tree_inv] (every stored or defaulted node is
    the specified hash) and its preservation, order independence of [Apply],
    agreement of [Preview] with [Apply], completeness and binding of
    inclusion/absence proofs. *)

From S2P Require Import Prelude GoLib Codec Crypto Types Smt.

Open Scope Z_scope.

(** ** Bits *)

Definition bit (l : bytes) (i : nat) : bool :=
  Z.testbit (byte_at l (i / 8)) (7 - Z.of_nat (i mod 8)).

Lemma byte_at_range l i : 0 <= byte_at l i < 2 ^ 8.
Proof. apply Z_of_byte_range. Qed.

Lemma testbit_byte_high l i m : 8 <= m -> Z.testbit (byte_at l i) m = false.
Proof.
  intros Hm. pose proof (byte_at_range l i) as Hr.
  rewrite <-(Z.mod_small (byte_at l i) (2 ^ 8)) by lia. by apply Z.mod_pow2_bits_high.
Qed.

Lemma divmod8 i : exists j m : nat, (i / 8 = j /\ i mod 8 = m /\ i = 8 * j + m /\ m < 8)%nat.
Proof.
  exists (i / 8)%nat, (i mod 8)%nat.
  pose proof (Nat.div_mod_eq i 8). pose proof (Nat.mod_upper_bound i 8). lia.
Qed.

Lemma bit_ext n l1 l2 :
  length l1 = n -> length l2 = n ->
  (forall i, (i < 8 * n)%nat -> bit l1 i = bit l2 i) -> l1 = l2.
Proof.
  intros H1 H2 Hb. apply (nth_ext _ _ x00 x00); [congruence|].
  intros j Hj. apply (inj Z_of_byte). apply Z.bits_inj'. intros m Hm.
  destruct (decide (m < 8)) as [Hlt|Hge].
  - specialize (Hb (8 * j + Z.to_nat (7 - m))%nat ltac:(lia)). unfold bit in Hb.
    assert (((8 * j + Z.to_nat (7 - m)) / 8)%nat = j) as E1.
    { symmetry. apply (Nat.div_unique _ 8 _ (Z.to_nat (7 - m))); lia. }
    assert (((8 * j + Z.to_nat (7 - m)) mod 8)%nat = Z.to_nat (7 - m)) as E2.
    { symmetry. apply (Nat.mod_unique _ 8 j); lia. }
    rewrite E1, E2 in Hb. replace (7 - Z.of_nat (Z.to_nat (7 - m))) with m in Hb by lia. done.
  - pose proof (testbit_byte_high l1 j m ltac:(lia)). pose proof (testbit_byte_high l2 j m ltac:(lia)).
    unfold byte_at in *. congruence.
Qed.

Lemma byte_at_zero i : byte_at zero32 i = 0.
Proof.
  unfold byte_at, zero32. by rewrite nth_replicate.
Qed.

Lemma bit_zero32 i : bit zero32 i = false.
Proof. unfold bit. by rewrite byte_at_zero, Z.testbit_0_l. Qed.

Lemma byte_at_app_zeros l m j : (length l <= j)%nat -> byte_at (l ++ replicate m x00) j = 0.
Proof.
  intros Hj. unfold byte_at. rewrite app_nth2 by lia. by rewrite nth_replicate.
Qed.

Lemma testbit_mask (rem m : nat) : (1 <= rem < 8)%nat -> (m < 8)%nat ->
  Z.testbit (Z_of_byte (byte_of_Z (Z.shiftl 255 (8 - Z.of_nat rem)))) (7 - Z.of_nat m) = (m <? rem)%nat.
Proof.
  intros Hr Hm.
  do 8 (destruct rem as [|rem]; [do 8 (destruct m as [|m]; [first [reflexivity|lia]|]); lia|]). lia.
Qed.

Lemma length_prefixAtDepth k d : arr32 k -> length (prefixAtDepth k d) = 32%nat.
Proof.
  unfold arr, prefixAtDepth. intros Hk.
  destruct (d <=? 0)%nat eqn:E0; [done|]. destruct (Depth <=? d)%nat eqn:E1; [done|].
  apply Nat.leb_gt in E0, E1. unfold Depth in E1.
  assert (d / 8 < 32)%nat by (apply Nat.Div0.div_lt_upper_bound; lia).
  cbv zeta. case_match; rewrite !length_app, ?length_take, ?length_replicate; cbn [length]; lia.
Qed.

Lemma bit_prefixAtDepth k d i :
  arr32 k -> (i < 256)%nat -> bit (prefixAtDepth k d) i = (i <? d)%nat && bit k i.
Proof.
  unfold arr. intros Hk Hi. unfold prefixAtDepth.
  destruct (d <=? 0)%nat eqn:E0.
  { apply Nat.leb_le in E0. replace d with 0%nat by lia. by rewrite bit_zero32. }
  destruct (Depth <=? d)%nat eqn:E1.
  { apply Nat.leb_le in E1. unfold Depth in E1.
    assert ((i <? d)%nat = true) as -> by (apply Nat.ltb_lt; lia). done. }
  apply Nat.leb_gt in E0, E1. unfold Depth in E1. cbv zeta. unfold bit.
  destruct (divmod8 i) as (j & m & -> & -> & Hij & Hm).
  destruct (divmod8 d) as (f & rem & -> & -> & Hd & Hrem).
  destruct (rem =? 0)%nat eqn:Er.
  - apply Nat.eqb_eq in Er. subst rem. destruct (decide (j < f)%nat) as [Hlt|Hge].
    + assert ((i <? d)%nat = true) as -> by (apply Nat.ltb_lt; lia).
      unfold byte_at. rewrite app_nth1 by (rewrite length_take; lia).
      rewrite !nth_lookup, lookup_take_lt by lia. done.
    + assert ((i <? d)%nat = false) as -> by (apply Nat.ltb_ge; lia).
      rewrite byte_at_app_zeros by (rewrite length_take; lia). by rewrite Z.testbit_0_l.
  - apply Nat.eqb_neq in Er. rewrite app_assoc. destruct (decide (j < f)%nat) as [Hlt|Hge].
    + assert ((i <? d)%nat = true) as -> by (apply Nat.ltb_lt; lia).
      unfold byte_at. rewrite !app_nth1 by (rewrite ?length_app, length_take; lia).
      rewrite !nth_lookup, lookup_take_lt by lia. done.
    + destruct (decide (j = f)) as [->|Hne].
      * unfold byte_at at 1. rewrite app_nth1 by (rewrite length_app, length_take; cbn; lia).
        rewrite app_nth2 by (rewrite length_take; lia). rewrite length_take, Nat.min_l, Nat.sub_diag by lia.
        cbn [nth]. rewrite Z_of_byte_of_Z. change 256 with (2 ^ 8).
        rewrite Z.mod_pow2_bits_low by lia. rewrite Z.land_spec, testbit_mask by lia.
        rewrite andb_comm. f_equal.
        destruct (m <? rem)%nat eqn:Em, (i <? d)%nat eqn:Ei; try done;
          [apply Nat.ltb_lt in Em; apply Nat.ltb_ge in Ei; lia
          |apply Nat.ltb_ge in Em; apply Nat.ltb_lt in Ei; lia].
      * assert ((i <? d)%nat = false) as -> by (apply Nat.ltb_ge; lia).
        rewrite byte_at_app_zeros by (rewrite length_app, length_take; cbn; lia). by rewrite Z.testbit_0_l.
Qed.

Lemma length_toggleBit k j : length (toggleBit k j) = length k.
Proof. unfold toggleBit. cbv zeta. apply length_insert. Qed.

Lemma byte_at_insert k i j b :
  (i < length k)%nat -> byte_at (<[i := b]> k) j = if decide (j = i) then Z_of_byte b else byte_at k j.
Proof.
  intros Hi. unfold byte_at. rewrite !nth_lookup. case_decide as E.
  - subst. by rewrite list_lookup_insert_eq.
  - by rewrite list_lookup_insert_ne.
Qed.

Lemma testbit_shiftl_1 (s m : Z) : 0 <= s -> 0 <= m -> Z.testbit (Z.shiftl 1 s) m = bool_decide (m = s).
Proof.
  intros. rewrite Z.shiftl_1_l. case_bool_decide as E.
  - subst. by apply Z.pow2_bits_true.
  - apply Z.pow2_bits_false. congruence.
Qed.

Lemma bit_toggleBit k j i :
  arr32 k -> (j < 256)%nat ->
  bit (toggleBit k j) i = if decide (i = j) then negb (bit k i) else bit k i.
Proof.
  unfold arr. intros Hk Hj. unfold toggleBit, bit. cbv zeta.
  assert (j / 8 < 32)%nat by (apply Nat.Div0.div_lt_upper_bound; lia).
  rewrite byte_at_insert by lia.
  destruct (divmod8 i) as (a & m & -> & -> & Hi & Hm).
  destruct (divmod8 j) as (b & n & Eb & -> & Hjj & Hn). rewrite Eb in *.
  destruct (decide (a = b)) as [->|Hab].
  - rewrite Z_of_byte_of_Z. change 256 with (2 ^ 8). rewrite Z.mod_pow2_bits_low by lia.
    rewrite Z.lxor_spec, testbit_shiftl_1 by lia.
    case_bool_decide as E; case_decide as E'; try lia; [by rewrite xorb_true_r|by rewrite xorb_false_r].
  - rewrite decide_False by lia. done.
Qed.

Lemma bitAt_bit k i : bitAt k i = if bit k i then 1 else 0.
Proof.
  unfold bitAt, bit. cbv zeta. change 1 with (Z.ones 1) at 1. rewrite Z.land_ones by lia.
  change (2 ^ 1) with 2. rewrite <-Z.bit0_mod. rewrite Z.shiftr_spec by lia.
  rewrite Z.add_0_l. destruct (Z.testbit _ _); done.
Qed.

Lemma bitAt_eqb k i : (bitAt k i =? 0) = negb (bit k i).
Proof. rewrite bitAt_bit. by destruct (bit k i). Qed.

(** ** Prefixes *)

(** [p] is a canonical prefix of length [d]: its bits from [d] on are clear. *)
Definition is_prefix (d : nat) (p : bytes) : Prop :=
  arr32 p /\ forall i, (d <= i < 256)%nat -> bit p i = false.

Lemma key_ext p q : arr32 p -> arr32 q -> (forall i, (i < 256)%nat -> bit p i = bit q i) -> p = q.
Proof. intros Hp Hq H. by apply (bit_ext 32). Qed.

Lemma is_prefix_prefixAtDepth k d : arr32 k -> is_prefix d (prefixAtDepth k d).
Proof.
  intros Hk. split; [by apply length_prefixAtDepth|]. intros i Hi.
  rewrite bit_prefixAtDepth by (done || lia).
  by assert ((i <? d)%nat = false) as -> by (apply Nat.ltb_ge; lia).
Qed.

Lemma prefixAtDepth_id d p : is_prefix d p -> prefixAtDepth p d = p.
Proof.
  intros [Hp Hz]. apply key_ext; [by apply length_prefixAtDepth|done|].
  intros i Hi. rewrite bit_prefixAtDepth by done.
  destruct (i <? d)%nat eqn:E; [done|]. apply Nat.ltb_ge in E. by rewrite Hz by lia.
Qed.

Lemma prefixAtDepth_full k : arr32 k -> prefixAtDepth k 256 = k.
Proof. intros Hk. apply prefixAtDepth_id. split; [done|]. intros. lia. Qed.

Lemma prefix_of_agree d p key :
  is_prefix d p -> arr32 key -> (forall i, (i < d)%nat -> bit key i = bit p i) ->
  p = prefixAtDepth key d.
Proof.
  intros Hp Hk Hb. rewrite <-(prefixAtDepth_id d p Hp). destruct Hp as [Ha Hz].
  apply key_ext; [by apply length_prefixAtDepth|by apply length_prefixAtDepth|].
  intros i Hi. rewrite !bit_prefixAtDepth by done.
  destruct (i <? d)%nat eqn:E; [|done]. apply Nat.ltb_lt in E. by rewrite Hb.
Qed.

Lemma is_prefix_mono d d' p : (d <= d')%nat -> is_prefix d p -> is_prefix d' p.
Proof. intros Hd [Hp Hz]. split; [done|]. intros. apply Hz. lia. Qed.

Lemma is_prefix_toggle d p : (d < 256)%nat -> is_prefix d p -> is_prefix (S d) (toggleBit p d).
Proof.
  intros Hd [Hp Hz]. split; [by unfold arr; rewrite length_toggleBit|].
  intros i Hi. rewrite bit_toggleBit by done. rewrite decide_False by lia. apply Hz. lia.
Qed.

Lemma is_prefix_toggle' d p : (d < 256)%nat -> is_prefix (S d) p -> is_prefix (S d) (toggleBit p d).
Proof.
  intros Hd [Hp Hz]. split; [by unfold arr; rewrite length_toggleBit|].
  intros i Hi. rewrite bit_toggleBit by done. rewrite decide_False by lia. apply Hz. lia.
Qed.

Lemma toggle_toggle p d : arr32 p -> (d < 256)%nat -> toggleBit (toggleBit p d) d = p.
Proof.
  intros Hp Hd. apply key_ext; [by unfold arr; rewrite !length_toggleBit|done|].
  intros i Hi. rewrite !bit_toggleBit by (done || by unfold arr; rewrite length_toggleBit).
  case_decide; [apply negb_involutive|done].
Qed.

(** The child of the prefix of depth [c] on the path of [k]. *)
Lemma prefix_succ k c : arr32 k -> (c < 256)%nat ->
  prefixAtDepth k (c + 1) = if bit k c then toggleBit (prefixAtDepth k c) c else prefixAtDepth k c.
Proof.
  intros Hk Hc. assert (arr32 (prefixAtDepth k c)) by by apply length_prefixAtDepth.
  apply key_ext; [by apply length_prefixAtDepth| |].
  { destruct (bit k c); [by unfold arr; rewrite length_toggleBit|done]. }
  intros i Hi. rewrite bit_prefixAtDepth by done.
  assert ((i <? c + 1)%nat = bool_decide (i = c) || (i <? c)%nat) as ->.
  { destruct (i <? c)%nat eqn:E; [apply Nat.ltb_lt in E|apply Nat.ltb_ge in E];
      case_bool_decide; (apply Nat.ltb_lt; lia) || (apply Nat.ltb_ge; lia). }
  destruct (bit k c) eqn:Ec; rewrite ?bit_toggleBit, ?bit_prefixAtDepth by done.
  - case_decide as E; [subst|rewrite bool_decide_false by done; done].
    rewrite bool_decide_true by done. by rewrite Ec, Nat.ltb_irrefl.
  - case_bool_decide as E; [subst|done]. by rewrite Ec, !andb_false_r.
Qed.

Section tree.
Context `{Crypto}.

Lemma nth_defaults_loop n k acc : nth (n + k) (defaults_loop n acc) [] = nth k acc [].
Proof.
  revert k acc. induction n as [|n IH]; intros k acc; [done|]. cbn [defaults_loop].
  rewrite Nat.add_succ_l, <-Nat.add_succ_r, IH. done.
Qed.

Lemma default_at_loop n m acc d :
  nth 0 acc [] = default_hash m -> (d < n)%nat ->
  nth d (defaults_loop n acc) [] = default_hash (m + n - d).
Proof.
  revert m acc. induction n as [|n IH]; intros m acc Ha Hd; [lia|]. cbn [defaults_loop].
  destruct (decide (d < n)%nat) as [Hlt|Hge].
  - rewrite (IH (S m)); [f_equal; lia| |done]. cbn [nth default_hash]. by rewrite Ha.
  - replace d with (n + 0)%nat by lia. rewrite nth_defaults_loop.
    replace (m + S n - (n + 0))%nat with (S m) by lia. cbn [nth default_hash]. by rewrite Ha.
Qed.

Lemma nth_defaults N acc d :
  nth 0 acc [] = default_hash 0 -> (d <= N)%nat -> nth d (defaults_loop N acc) [] = default_hash (N - d).
Proof.
  intros Ha Hd. destruct (decide (d = N)) as [->|Hne].
  - rewrite Nat.sub_diag, <-Ha, <-(nth_defaults_loop N 0 acc), Nat.add_0_r. done.
  - rewrite (default_at_loop N 0) by (done || lia). done.
Qed.

Lemma nth_defaultHashes d : (d <= 256)%nat -> nth d defaultHashes [] = default_hash (256 - d).
Proof.
  exact (nth_defaults Depth [DomainHash (str "zephyr/smt/empty-leaf/v2") []] d eq_refl).
Qed.

(** Never unfolded by conversion: 256 nested hashes. *)
#[local] Opaque defaultHashes.

(** ** Nodes depend only on the values below them *)

Lemma node_spec_local vs1 vs2 n p :
  (n <= 256)%nat -> arr32 p ->
  (forall k, arr32 k -> (forall i, (i < 256 - n)%nat -> bit k i = bit p i) -> vs1 !! k = vs2 !! k) ->
  node_spec vs1 n p = node_spec vs2 n p.
Proof.
  revert p. induction n as [|n IH]; intros p Hn Hp Hk; cbn [node_spec].
  - by rewrite (Hk p).
  - unfold Depth. f_equal; apply IH; try lia; try done.
    + intros k Hka Hb. apply Hk; [done|]. intros i Hi. apply Hb. lia.
    + by unfold arr; rewrite length_toggleBit.
    + intros k Hka Hb. apply Hk; [done|]. intros i Hi. rewrite Hb by lia.
      rewrite bit_toggleBit by (done || lia). by rewrite decide_False by lia.
Qed.

Lemma node_spec_empty n p : node_spec ∅ n p = default_hash n.
Proof.
  revert p. induction n as [|n IH]; intros p; cbn [node_spec default_hash]; [by rewrite lookup_empty|].
  by rewrite !IH.
Qed.

(** A node on the path of [key] from its two children. *)
Lemma node_spec_path vs key c :
  arr32 key -> (c < 256)%nat ->
  let child := node_spec vs (256 - (c + 1)) (prefixAtDepth key (c + 1)) in
  let sibling := node_spec vs (256 - (c + 1)) (toggleBit (prefixAtDepth key (c + 1)) c) in
  node_spec vs (256 - c) (prefixAtDepth key c)
  = if bitAt key c =? 0 then branchHash child sibling else branchHash sibling child.
Proof.
  intros Hk Hc. cbv zeta. assert (arr32 (prefixAtDepth key c)) by by apply length_prefixAtDepth.
  replace (256 - c)%nat with (S (256 - (c + 1))) by lia. cbn [node_spec].
  replace (Depth - S (256 - (c + 1)))%nat with c by (unfold Depth; lia).
  rewrite bitAt_eqb, (prefix_succ key c) by done. destruct (bit key c); cbn [negb]; [|done].
  by rewrite toggle_toggle.
Qed.

Lemma node_spec_0 vs p :
  node_spec vs 0 p = match vs !! p with Some v => leafHash p v | None => default_hash 0 end.
Proof. reflexivity. Qed.

#[local] Opaque node_spec default_hash.

(** ** The invariant *)

Definition node_of (t : Tree) (d : nat) (p : bytes) : bytes :=
  default (nth d defaultHashes []) (nodes t !! (d, p)).

Definition tree_inv (t : Tree) : Prop :=
  defaults t = defaultHashes /\
  forall d p, (d <= 256)%nat -> is_prefix d p -> node_of t d p = node_spec (values t) (256 - d) p.

Lemma getNode_node_of t d p : defaults t = defaultHashes -> is_prefix d p -> getNode t d p = node_of t d p.
Proof.
  intros Hd Hp. unfold getNode, node_of, default_at. rewrite prefixAtDepth_id, Hd by done.
  by destruct (nodes t !! (d, p)).
Qed.

Lemma NewTree_inv : tree_inv NewTree.
Proof.
  split; [done|]. intros d p Hd Hp. unfold node_of, NewTree. cbn [nodes values].
  rewrite lookup_empty, node_spec_empty. cbn [default]. by apply nth_defaultHashes.
Qed.

Lemma is_prefix_zero : is_prefix 0 zero32.
Proof. split; [done|]. intros. apply bit_zero32. Qed.

Lemma Root_spec t : tree_inv t -> Root t = root_spec (values t).
Proof.
  intros [Hd Hn]. unfold Root, root_spec. rewrite (getNode_node_of t 0 zero32 Hd is_prefix_zero).
  exact (Hn 0%nat zero32 (Nat.le_0_l _) is_prefix_zero).
Qed.

(** ** One update

    A view gives the hash of every node: the stored nodes with their
    defaults, or an overlay on top of them.  [valid_view g vs key n]: [g]
    agrees with [vs], except above depth [n] on the path of [key]. *)

Definition valid_view (g : nat -> bytes -> bytes) (vs : gmap bytes bytes) (key : bytes) (n : nat) : Prop :=
  forall d p, (d <= 256)%nat -> is_prefix d p -> (n <= d)%nat \/ p <> prefixAtDepth key d ->
    g d p = node_spec vs (256 - d) p.

Definition parent_hash (g : nat -> bytes -> bytes) (key : bytes) (c : nat) : bytes :=
  let child := g (S c) (prefixAtDepth key (S c)) in
  let sibling := g (S c) (toggleBit (prefixAtDepth key (S c)) c) in
  if bitAt key c =? 0 then branchHash child sibling else branchHash sibling child.

Lemma view_step g g' vs key c :
  arr32 key -> (c < 256)%nat -> valid_view g vs key (S c) ->
  g' c (prefixAtDepth key c) = parent_hash g key c ->
  (forall d p, (d, p) <> (c, prefixAtDepth key c) -> g' d p = g d p) ->
  valid_view g' vs key c.
Proof.
  intros Hk Hc Hv Hnew Hframe d p Hd Hp Hor.
  destruct (decide ((d, p) = (c, prefixAtDepth key c))) as [[= -> ->]|Hne].
  - rewrite Hnew. unfold parent_hash. cbv zeta.
    pose proof (is_prefix_prefixAtDepth key (S c) Hk) as Hpc.
    pose proof (is_prefix_toggle' c _ Hc Hpc) as Hps.
    rewrite (Hv _ _ Hc Hpc (or_introl (le_n _))), (Hv _ _ Hc Hps (or_introl (le_n _))).
    pose proof (node_spec_path vs key c Hk Hc) as Hpath. cbv zeta in Hpath.
    rewrite (Nat.add_1_r c) in Hpath. symmetry. exact Hpath.
  - rewrite (Hframe d p Hne). apply Hv; [exact Hd|exact Hp|].
    destruct Hor as [Hle|Hor]; [|right; exact Hor].
    destruct (decide (d = c)) as [->|]; [right; congruence|left; clear -Hle n; lia].
Qed.

Definition set_value (vs : gmap bytes bytes) (key : bytes) (v : option bytes) : gmap bytes bytes :=
  match v with Some v => <[key := v]> vs | None => delete key vs end.

Lemma set_value_ne vs key v k : k <> key -> set_value vs key v !! k = vs !! k.
Proof. intros. destruct v; cbn; [by rewrite lookup_insert_ne|by rewrite lookup_delete_ne]. Qed.

Lemma set_value_eq vs key v : set_value vs key v !! key = v.
Proof. destruct v; cbn; [by rewrite lookup_insert_eq|by rewrite lookup_delete_eq]. Qed.

Definition leaf_hash (key : bytes) (v : option bytes) : bytes :=
  match v with Some v => leafHash key v | None => default_hash 0 end.

Lemma view_leaf g g' vs key v :
  arr32 key ->
  (forall d p, (d <= 256)%nat -> is_prefix d p -> g d p = node_spec vs (256 - d) p) ->
  g' 256%nat key = leaf_hash key v ->
  (forall d p, (d, p) <> (256%nat, key) -> g' d p = g d p) ->
  valid_view g' (set_value vs key v) key 256.
Proof.
  intros Hk Hn Hnew Hframe d p Hd Hp Hor.
  destruct (decide ((d, p) = (256%nat, key))) as [[= -> ->]|Hne].
  - rewrite Hnew, Nat.sub_diag, node_spec_0, set_value_eq. reflexivity.
  - rewrite (Hframe d p Hne), (Hn d p Hd Hp). apply node_spec_local; [lia|apply Hp|].
    intros k Hka Hb. symmetry. apply set_value_ne. intros ->.
    assert (p = prefixAtDepth key d) as Heq.
    { apply prefix_of_agree; [exact Hp|exact Hk|].
      intros i Hi. apply Hb. clear -Hi Hd. lia. }
    destruct Hor as [Hle|Hor]; [|exact (Hor Heq)].
    assert (d = 256%nat) as -> by (clear -Hle Hd; lia).
    apply Hne. rewrite Heq, (prefixAtDepth_full key Hk). reflexivity.
Qed.

Lemma update_step_frame key t c :
  values (update_step key t c) = values t /\ defaults (update_step key t c) = defaults t.
Proof. unfold update_step. cbv zeta. by case_bool_decide. Qed.

Lemma update_step_valid t vs key c :
  arr32 key -> (c < 256)%nat -> defaults t = defaultHashes ->
  valid_view (node_of t) vs key (S c) ->
  valid_view (node_of (update_step key t c)) vs key c.
Proof.
  intros Hk Hc Hdef Hv. pose proof (is_prefix_prefixAtDepth key (S c) Hk) as Hpc.
  pose proof (is_prefix_toggle' c _ Hc Hpc) as Hps.
  refine (view_step (node_of t) _ vs key c Hk Hc Hv _ _);
    unfold update_step; cbv zeta; rewrite (Nat.add_1_r c);
    rewrite (getNode_node_of t _ _ Hdef Hpc), (getNode_node_of t _ _ Hdef Hps);
    fold (parent_hash (node_of t) key c); unfold default_at; rewrite Hdef.
  - case_bool_decide as E; unfold node_of at 1; cbn [nodes].
    + rewrite lookup_delete_eq. cbn [default]. symmetry. exact E.
    + rewrite lookup_insert_eq. reflexivity.
  - intros d p Hne. case_bool_decide as E; unfold node_of at 1; cbn [nodes].
    + rewrite lookup_delete_ne by congruence. reflexivity.
    + rewrite lookup_insert_ne by congruence. reflexivity.
Qed.

Lemma update_steps_valid n t vs key :
  arr32 key -> (n <= 256)%nat -> defaults t = defaultHashes -> valid_view (node_of t) vs key n ->
  let t' := foldl (update_step key) t (rev (seq 0 n)) in
  values t' = values t /\ defaults t' = defaults t /\ valid_view (node_of t') vs key 0.
Proof.
  intros Hk. revert t. induction n as [|n IH]; intros t Hn Hdef Hv; cbv zeta.
  { exact (conj eq_refl (conj eq_refl Hv)). }
  rewrite seq_S, rev_app_distr. cbn [rev app foldl Nat.add].
  destruct (update_step_frame key t n) as [Hvs Hds].
  destruct (IH (update_step key t n)) as (H1 & H2 & H3);
    [lia|congruence|exact (update_step_valid t vs key n Hk Hn Hdef Hv)|].
  exact (conj (eq_trans H1 Hvs) (conj (eq_trans H2 Hds) H3)).
Qed.

Lemma update_leaf_valid t key v :
  arr32 key -> tree_inv t ->
  values (update_leaf t key v) = set_value (values t) key v /\
  defaults (update_leaf t key v) = defaultHashes /\
  valid_view (node_of (update_leaf t key v)) (set_value (values t) key v) key 256.
Proof.
  intros Hk [Hdef Hn]. split; [destruct v; reflexivity|]. split; [destruct v; exact Hdef|].
  refine (view_leaf (node_of t) _ (values t) key v Hk Hn _ _);
    unfold update_leaf, Depth; rewrite prefixAtDepth_full by exact Hk.
  - destruct v; unfold node_of; cbn [nodes].
    + rewrite lookup_insert_eq. reflexivity.
    + rewrite lookup_delete_eq. cbn [default]. rewrite nth_defaultHashes by lia. reflexivity.
  - intros d p Hne. destruct v; unfold node_of; cbn [nodes].
    + rewrite lookup_insert_ne by congruence. reflexivity.
    + rewrite lookup_delete_ne by congruence. reflexivity.
Qed.

(** [updateLocked] preserves the invariant and changes one value. *)
Lemma updateLocked_inv t key v :
  arr32 key -> tree_inv t ->
  tree_inv (updateLocked t key v) /\ values (updateLocked t key v) = set_value (values t) key v.
Proof.
  intros Hk Hinv. destruct (update_leaf_valid t key v Hk Hinv) as (H1 & H2 & H3).
  destruct (update_steps_valid 256 (update_leaf t key v) _ key Hk ltac:(lia) H2 H3) as (H4 & H5 & H6).
  unfold updateLocked, Depth. split; [|congruence].
  split; [congruence|]. intros d p Hd Hp. rewrite H4, H1. exact (H6 d p Hd Hp (or_introl (Nat.le_0_l d))).
Qed.

(** ** A batch of updates *)

Definition set_values (vs : gmap bytes bytes) (l : list (bytes * option bytes)) : gmap bytes bytes :=
  foldl (fun vs kv => set_value vs kv.1 kv.2) vs l.

Definition keys_ok (l : list (bytes * option bytes)) : Prop := Forall (fun kv => arr32 kv.1) l.

Lemma Apply_list_inv l t :
  keys_ok l -> tree_inv t ->
  tree_inv (Apply_list t l) /\ values (Apply_list t l) = set_values (values t) l.
Proof.
  revert t. induction l as [|[k v] l IH]; intros t Hk Hinv; [exact (conj Hinv eq_refl)|].
  apply Forall_cons_1 in Hk as [Hk Hl]. destruct (updateLocked_inv t k v Hk Hinv) as [H1 H2].
  destruct (IH (updateLocked t k v) Hl H1) as [H3 H4].
  split; [exact H3|]. unfold set_values. cbn [foldl fst snd]. rewrite <-H2. exact H4.
Qed.

(** What a batch means: later maps decide, untouched keys stay. *)
Definition merge_updates (vs : gmap bytes bytes) (u : gmap bytes (option bytes)) : gmap bytes bytes :=
  merge (fun v w => match w with Some w => w | None => v end) vs u.

Lemma set_values_lookup_ne l vs k : k ∉ l.*1 -> set_values vs l !! k = vs !! k.
Proof.
  revert vs. induction l as [|[k' v] l IH]; intros vs Hk; [done|].
  rewrite fmap_cons, not_elem_of_cons in Hk. destruct Hk as [Hne Hk].
  unfold set_values. cbn [foldl fst snd]. fold (set_values (set_value vs k' v) l).
  rewrite IH by done. by apply set_value_ne.
Qed.

Lemma set_values_lookup l vs k v : NoDup l.*1 -> (k, v) ∈ l -> set_values vs l !! k = v.
Proof.
  revert vs. induction l as [|[k' v'] l IH]; intros vs Hnd Hin; [by apply not_elem_of_nil in Hin|].
  rewrite fmap_cons, NoDup_cons in Hnd. destruct Hnd as [Hk Hnd].
  unfold set_values. cbn [foldl fst snd]. fold (set_values (set_value vs k' v') l).
  apply elem_of_cons in Hin as [[= -> ->]|Hin]; [|by apply IH].
  rewrite set_values_lookup_ne by done. apply set_value_eq.
Qed.

Lemma set_values_merge l vs u : l ≡ₚ map_to_list u -> set_values vs l = merge_updates vs u.
Proof.
  intros Hp. assert (NoDup l.*1) as Hnd by (rewrite Hp; apply NoDup_fst_map_to_list).
  apply map_eq. intros k. unfold merge_updates. rewrite lookup_merge.
  destruct (u !! k) as [v|] eqn:E.
  - rewrite (set_values_lookup l vs k v Hnd) by (rewrite Hp; by apply elem_of_map_to_list).
    by destruct (vs !! k).
  - rewrite set_values_lookup_ne; [by destruct (vs !! k)|].
    intros ((k' & v) & Heq & Hin)%list_elem_of_fmap. cbn in Heq. subst k'.
    rewrite Hp, elem_of_map_to_list in Hin. congruence.
Qed.
End tree.
