(* ===== verification/SmtTheorems.v ===== *)
(** * SmtTheorems

    What the sparse Merkle tree of [Smt] promises its clients, from the
    invariant of [SmtProofs]: [Apply] commits to the merged values whatever the
    map iteration order, [Preview] predicts that root without touching the
    tree, proofs are complete and binding, and their wire format is
    canonical. *)

From S2P Require Import Prelude GoLib Codec Crypto Types Smt SmtProofs.

Open Scope Z_scope.

(** ** The bitmap of a proof *)

Lemma bitmapBit_testbit bm j : bitmapBit bm j = Z.testbit (byte_at bm (j / 8)) (Z.of_nat (j mod 8)).
Proof.
  unfold bitmapBit. cbv zeta. rewrite Z.shiftl_1_l.
  destruct (Z.testbit (byte_at bm (j / 8)) (Z.of_nat (j mod 8))) eqn:E.
  - apply Bool.negb_true_iff, Z.eqb_neq. intros H0.
    apply (f_equal (fun z => Z.testbit z (Z.of_nat (j mod 8)))) in H0.
    rewrite Z.land_spec, E, Z.pow2_bits_true, Z.bits_0 in H0 by lia. discriminate H0.
  - apply Bool.negb_false_iff, Z.eqb_eq, Z.bits_inj'. intros m Hm.
    rewrite Z.land_spec, Z.bits_0.
    destruct (decide (m = Z.of_nat (j mod 8))) as [->|Hne]; [by rewrite E|].
    rewrite Z.pow2_bits_false by congruence. apply Bool.andb_false_r.
Qed.

Lemma bitmapBit_zero j : bitmapBit zero32 j = false.
Proof. rewrite bitmapBit_testbit, byte_at_zero. apply Z.testbit_0_l. Qed.

Lemma length_setBitmapBit bm i : arr32 bm -> arr32 (setBitmapBit bm i).
Proof. unfold arr, setBitmapBit. cbv zeta. rewrite length_insert. done. Qed.

Lemma bitmapBit_set bm i j :
  arr32 bm -> (i < 256)%nat ->
  bitmapBit (setBitmapBit bm i) j = if decide (j = i) then true else bitmapBit bm j.
Proof.
  unfold arr. intros Ha Hi. rewrite !bitmapBit_testbit. unfold setBitmapBit. cbv zeta.
  assert (i / 8 < 32)%nat by (apply Nat.Div0.div_lt_upper_bound; lia).
  rewrite byte_at_insert by lia.
  destruct (divmod8 j) as (a & m & -> & -> & Hj & Hm).
  destruct (divmod8 i) as (b & n & Eb & -> & Hii & Hn). rewrite Eb in *.
  destruct (decide (a = b)) as [->|Hab].
  - rewrite Z_of_byte_of_Z. change 256 with (2 ^ 8). rewrite Z.mod_pow2_bits_low by lia.
    rewrite Z.lor_spec, testbit_shiftl_1 by lia.
    case_bool_decide as E; case_decide as E'; try lia.
    rewrite orb_false_r. done.
  - rewrite decide_False by lia. done.
Qed.

Section tree.
Context `{Crypto}.
#[local] Opaque defaultHashes node_spec default_hash.

(** ** Preview *)

Definition node_ov (t : Tree) (ov : gmap (nat * bytes) bytes) (d : nat) (p : bytes) : bytes :=
  default (node_of t d p) (ov !! (d, p)).

Lemma overlay_lookup_node_ov t ov d p :
  defaults t = defaultHashes -> is_prefix d p -> overlay_lookup t ov d p = node_ov t ov d p.
Proof.
  intros Hd Hp. unfold overlay_lookup, node_ov, node_of, default_at.
  rewrite prefixAtDepth_id, Hd by exact Hp.
  destruct (ov !! (d, p)); [reflexivity|]. destruct (nodes t !! (d, p)); reflexivity.
Qed.

Lemma node_ov_insert_eq t ov d p h : node_ov t (<[(d, p) := h]> ov) d p = h.
Proof. unfold node_ov. rewrite lookup_insert_eq. reflexivity. Qed.

Lemma node_ov_insert_ne t ov d p h d' p' :
  (d', p') <> (d, p) -> node_ov t (<[(d, p) := h]> ov) d' p' = node_ov t ov d' p'.
Proof. intros Hne. unfold node_ov. rewrite lookup_insert_ne by congruence. reflexivity. Qed.

Lemma preview_step_valid t ov vs key c :
  arr32 key -> (c < 256)%nat -> defaults t = defaultHashes ->
  valid_view (node_ov t ov) vs key (S c) ->
  valid_view (node_ov t (preview_step t key ov c)) vs key c.
Proof.
  intros Hk Hc Hdef Hv. pose proof (is_prefix_prefixAtDepth key (S c) Hk) as Hpc.
  pose proof (is_prefix_toggle' c _ Hc Hpc) as Hps.
  refine (view_step (node_ov t ov) _ vs key c Hk Hc Hv _ _);
    unfold preview_step; cbv zeta; rewrite (Nat.add_1_r c).
  - rewrite node_ov_insert_eq, (overlay_lookup_node_ov t ov _ _ Hdef Hpc),
      (overlay_lookup_node_ov t ov _ _ Hdef Hps). reflexivity.
  - intros d p Hne. apply node_ov_insert_ne. exact Hne.
Qed.

Lemma preview_steps_valid n t ov vs key :
  arr32 key -> (n <= 256)%nat -> defaults t = defaultHashes -> valid_view (node_ov t ov) vs key n ->
  valid_view (node_ov t (foldl (preview_step t key) ov (rev (seq 0 n)))) vs key 0.
Proof.
  intros Hk. revert ov. induction n as [|n IH]; intros ov Hn Hdef Hv; [exact Hv|].
  rewrite seq_S, rev_app_distr. cbn [rev app foldl Nat.add].
  apply IH; [lia|exact Hdef|]. exact (preview_step_valid t ov vs key n Hk Hn Hdef Hv).
Qed.

Definition overlay_inv (t : Tree) (ov : gmap (nat * bytes) bytes) (vs : gmap bytes bytes) : Prop :=
  forall d p, (d <= 256)%nat -> is_prefix d p -> node_ov t ov d p = node_spec vs (256 - d) p.

Lemma preview_key_inv t ov vs key v :
  arr32 key -> defaults t = defaultHashes -> overlay_inv t ov vs ->
  overlay_inv t (preview_key t ov (key, v)) (set_value vs key v).
Proof.
  intros Hk Hdef Hov. unfold preview_key, Depth.
  assert (match v with Some v0 => leafHash key v0 | None => default_at t 256 end = leaf_hash key v) as ->.
  { destruct v; [reflexivity|]. unfold default_at. rewrite Hdef. apply nth_defaultHashes. lia. }
  pose proof (view_leaf (node_ov t ov) (node_ov t (<[(256%nat, key) := leaf_hash key v]> ov))
    vs key v Hk Hov (node_ov_insert_eq t ov _ _ _)) as Hleaf.
  intros d p Hd Hp.
  refine (preview_steps_valid 256 t _ _ key Hk (le_n _) Hdef (Hleaf _) d p Hd Hp (or_introl (Nat.le_0_l d))).
  intros d' p' Hne. apply node_ov_insert_ne. exact Hne.
Qed.

Lemma preview_keys_inv l t ov vs :
  keys_ok l -> defaults t = defaultHashes -> overlay_inv t ov vs ->
  overlay_inv t (foldl (preview_key t) ov l) (set_values vs l).
Proof.
  revert ov vs. induction l as [|[k v] l IH]; intros ov vs Hk Hdef Hov; [exact Hov|].
  apply Forall_cons_1 in Hk as [Hk Hl]. unfold set_values. cbn [foldl fst snd].
  apply IH; [exact Hl|exact Hdef|]. exact (preview_key_inv t ov vs k v Hk Hdef Hov).
Qed.

Lemma Preview_spec t u :
  tree_inv t -> keys_ok (map_to_list u) -> Preview t u = root_spec (merge_updates (values t) u).
Proof.
  intros [Hdef Hn] Hk. unfold Preview. case_bool_decide as E.
  - subst u. rewrite (getNode_node_of t 0 zero32 Hdef is_prefix_zero).
    rewrite (Hn 0%nat zero32 (Nat.le_0_l _) is_prefix_zero). unfold root_spec, Depth.
    rewrite <-(set_values_merge [] (values t) ∅) by (by rewrite map_to_list_empty). reflexivity.
  - assert (sort_by fst (map_to_list u) ≡ₚ map_to_list u) as Hp by apply sort_by_perm.
    rewrite (getNode_node_of t 0 zero32 Hdef is_prefix_zero).
    rewrite <-(set_values_merge _ (values t) u Hp).
    refine (preview_keys_inv _ t ∅ (values t) _ Hdef _ 0%nat zero32 (Nat.le_0_l _) is_prefix_zero).
    + unfold keys_ok. rewrite Hp. exact Hk.
    + intros d p Hd Hpp. unfold node_ov. rewrite lookup_empty. exact (Hn d p Hd Hpp).
Qed.

Lemma Apply_list_spec t l u :
  tree_inv t -> keys_ok (map_to_list u) -> l ≡ₚ map_to_list u ->
  tree_inv (Apply_list t l) /\ values (Apply_list t l) = merge_updates (values t) u /\
  Root (Apply_list t l) = root_spec (merge_updates (values t) u).
Proof.
  intros Hinv Hk Hp. assert (keys_ok l) as Hl by (unfold keys_ok; rewrite Hp; exact Hk).
  destruct (Apply_list_inv l t Hl Hinv) as [H1 H2]. rewrite (set_values_merge _ _ _ Hp) in H2.
  split; [exact H1|]. split; [exact H2|]. rewrite <-H2. exact (Root_spec _ H1).
Qed.

(** ** Proofs: completeness *)

Section prove.
Context (t : Tree) (key : bytes) (Hk : arr32 key) (Hinv : tree_inv t).

(** The sibling met at step [i], at depth [256 - i]. *)
Definition sib (i : nat) : bytes :=
  node_spec (values t) i (toggleBit (prefixAtDepth key (256 - i)) (256 - i - 1)).
Definition present (i : nat) : bool := negb (bool_decide (sib i = default_hash i)).
Definition sibs (n : nat) : list bytes := sib <$> filter (fun i => present i = true) (seq 0 n).

Lemma sibs_S n : sibs (S n) = if present n then sibs n ++ [sib n] else sibs n.
Proof.
  unfold sibs. rewrite seq_S, filter_app, fmap_app, Nat.add_0_l.
  destruct (present n) eqn:E.
  - rewrite filter_cons_True by exact E. reflexivity.
  - rewrite filter_cons_False by congruence. rewrite app_nil_r. reflexivity.
Qed.

Lemma sibs_prefix n m : (n <= m)%nat -> exists l, sibs m = sibs n ++ l.
Proof.
  induction 1 as [|m Hle [l IH]]; [exists []; by rewrite app_nil_r|].
  rewrite sibs_S, IH. destruct (present m); [|by exists l]. exists (l ++ [sib m]). by rewrite app_assoc.
Qed.

Lemma sibs_nth n m : (n < m)%nat -> present n = true ->
  (length (sibs n) < length (sibs m))%nat /\ nth (length (sibs n)) (sibs m) [] = sib n.
Proof.
  intros Hlt Hp. destruct (sibs_prefix (S n) m Hlt) as [l ->].
  rewrite sibs_S, Hp, <-app_assoc. cbn [app].
  split; [rewrite length_app; cbn; lia|]. rewrite app_nth2, Nat.sub_diag by lia. reflexivity.
Qed.

Lemma default_at_spec d : (d <= 256)%nat -> default_at t d = default_hash (256 - d).
Proof. intros Hd. unfold default_at. rewrite (proj1 Hinv). by apply nth_defaultHashes. Qed.

Lemma getNode_sib i : (i < 256)%nat ->
  getNode t (256 - i) (toggleBit (prefixAtDepth key (256 - i)) (256 - i - 1)) = sib i.
Proof.
  intros Hi. destruct Hinv as [Hdef Hn].
  pose proof (is_prefix_prefixAtDepth key (256 - i) Hk) as Hp.
  pose proof (is_prefix_toggle' (256 - i - 1) (prefixAtDepth key (256 - i)) ltac:(lia)) as Ht.
  replace (S (256 - i - 1)) with (256 - i)%nat in Ht by lia. specialize (Ht Hp).
  rewrite (getNode_node_of t _ _ Hdef Ht), (Hn _ _ (Nat.le_sub_l 256 i) Ht). unfold sib.
  f_equal. lia.
Qed.

Lemma prove_step_eq p i : (i < 256)%nat ->
  prove_step t key p i =
  if present i then mkProof (Exists p) (setBitmapBit (Bitmap p) i) (Siblings p ++ [sib i]) else p.
Proof.
  intros Hi. unfold prove_step, Depth. cbv zeta.
  rewrite (getNode_sib i Hi), (default_at_spec (256 - i)) by lia.
  replace (256 - (256 - i))%nat with i by lia. unfold present.
  destruct (bool_decide (sib i = default_hash i)); reflexivity.
Qed.

Lemma prove_loop e n : (n <= 256)%nat ->
  exists bm, foldl (prove_step t key) (mkProof e zero32 []) (seq 0 n) = mkProof e bm (sibs n) /\
    arr32 bm /\ forall j, (j < 256)%nat -> bitmapBit bm j = (j <? n)%nat && present j.
Proof.
  induction n as [|n IH]; intros Hn.
  { exists zero32. split; [reflexivity|]. split; [reflexivity|]. intros j _. apply bitmapBit_zero. }
  destruct (IH ltac:(lia)) as (bm & Heq & Ha & Hb).
  rewrite seq_S, foldl_app, Heq. cbn [foldl Nat.add]. rewrite (prove_step_eq _ n Hn), (sibs_S n).
  destruct (present n) eqn:E.
  - exists (setBitmapBit bm n). split; [reflexivity|].
    split; [by apply length_setBitmapBit|]. intros j Hj.
    rewrite bitmapBit_set, (Hb j Hj) by (exact Ha || lia). case_decide as Ej.
    + subst j. rewrite E, Bool.andb_true_r. symmetry. apply Nat.ltb_lt. lia.
    + f_equal. apply Bool.eq_iff_eq_true. rewrite !Nat.ltb_lt. lia.
  - exists bm. split; [reflexivity|]. split; [exact Ha|]. intros j Hj. rewrite (Hb j Hj).
    destruct (decide (j = n)) as [->|Ej]; [by rewrite E, !Bool.andb_false_r|].
    f_equal. apply Bool.eq_iff_eq_true. rewrite !Nat.ltb_lt. lia.
Qed.

Lemma verify_loop pf n :
  (n <= 256)%nat -> Siblings pf = sibs 256 ->
  (forall j, (j < 256)%nat -> bitmapBit (Bitmap pf) j = present j) ->
  foldl (verify_step key defaultHashes pf) (Some (node_spec (values t) 0 key, 0%nat)) (seq 0 n)
  = Some (node_spec (values t) n (prefixAtDepth key (256 - n)), length (sibs n)).
Proof.
  intros Hn Hs Hb. induction n as [|n IH].
  { cbn [seq foldl]. rewrite Nat.sub_0_r, prefixAtDepth_full by exact Hk. reflexivity. }
  rewrite seq_S, foldl_app, IH by lia. cbn [foldl Nat.add]. unfold verify_step, Depth.
  cbn [mbind option_bind]. rewrite (Hb n Hn), Hs.
  pose proof (node_spec_path (values t) key (256 - n - 1) Hk ltac:(lia)) as Hpath. cbv zeta in Hpath.
  replace (256 - (256 - n - 1))%nat with (S n) in Hpath by lia.
  replace (256 - n - 1 + 1)%nat with (256 - n)%nat in Hpath by lia.
  replace (256 - (256 - n))%nat with n in Hpath by lia. fold (sib n) in Hpath.
  replace (256 - S n)%nat with (256 - n - 1)%nat by lia. rewrite (sibs_S n).
  destruct (present n) eqn:E.
  - destruct (sibs_nth n 256 Hn E) as [Hlt Hnth].
    rewrite (proj2 (Nat.leb_gt _ _) Hlt). cbn [mbind option_bind]. rewrite Hnth, <-Hpath.
    rewrite length_app. reflexivity.
  - cbn [mbind option_bind]. rewrite nth_defaultHashes by lia.
    replace (256 - (256 - n))%nat with n by lia.
    unfold present in E. apply Bool.negb_false_iff, bool_decide_eq_true_1 in E.
    rewrite <-E, <-Hpath. reflexivity.
Qed.

Lemma Prove_Verify : Verify (Root t) key (Get t key) (Prove t key) = true.
Proof.
  unfold Prove, Get. set (e := match values t !! key with Some _ => true | None => false end).
  destruct (prove_loop e 256 (le_n _)) as (bm & Heq & Ha & Hb). unfold Depth. rewrite Heq.
  unfold Verify. cbn [Exists Siblings]. rewrite Bool.eqb_reflx. cbn [negb]. unfold Depth.
  assert (match values t !! key with Some v => leafHash key v | None => nth 256 defaultHashes [] end
          = node_spec (values t) 0 key) as ->.
  { rewrite node_spec_0. destruct (values t !! key); [reflexivity|]. apply nth_defaultHashes. lia. }
  rewrite (verify_loop (mkProof e bm (sibs 256)) 256 (le_n _) eq_refl).
  - rewrite Nat.eqb_refl, Nat.sub_diag. apply bool_decide_eq_true_2.
    rewrite (Root_spec t Hinv). reflexivity.
  - intros j Hj. cbn [Bitmap]. rewrite (Hb j Hj), (proj2 (Nat.ltb_lt _ _) Hj). reflexivity.
Qed.
End prove.

(** ** Proofs: binding *)

(** What [Verify] feeds to SHA-256: the leaf, then one payload per level. *)
Definition leaf_preimage (key : bytes) (value : option bytes) : bytes :=
  match value with
  | Some v => domain_preimage (str "zephyr/smt/leaf/v2") (key ++ enc_bytes v)
  | None => domain_preimage (str "zephyr/smt/empty-leaf/v2") []
  end.

Definition branch_preimage (key : bytes) (i : nat) (current sibling : bytes) : bytes :=
  domain_preimage (str "zephyr/smt/branch/v2")
    (if bitAt key (Depth - i - 1) =? 0 then current ++ sibling else sibling ++ current).

Definition verify_sibling (proof : Proof) (i idx : nat) : option (bytes * nat) :=
  if bitmapBit (Bitmap proof) i then
    if (length (Siblings proof) <=? idx)%nat then None
    else Some (nth idx (Siblings proof) [], (idx + 1)%nat)
  else Some (nth (Depth - i) defaultHashes [], idx).

Fixpoint branch_preimages (key : bytes) (proof : Proof) (current : bytes) (idx : nat) (l : list nat)
    : list bytes :=
  match l with
  | [] => []
  | i :: l =>
      match verify_sibling proof i idx with
      | None => []
      | Some (s, idx) =>
          let x := branch_preimage key i current s in
          x :: branch_preimages key proof (sha256 x) idx l
      end
  end.

Definition hash_inputs (key : bytes) (value : option bytes) (proof : Proof) : list bytes :=
  let x := leaf_preimage key value in
  x :: branch_preimages key proof (sha256 x) 0 (seq 0 Depth).

(** Different inputs at the same position of the two lists with one hash. *)
Definition sha256_collision (xs ys : list bytes) : Prop :=
  exists k x y, xs !! k = Some x /\ ys !! k = Some y /\ x <> y /\ sha256 x = sha256 y.

Lemma sha256_collision_here x y xs ys :
  x <> y -> sha256 x = sha256 y -> sha256_collision (x :: xs) (y :: ys).
Proof. intros. by exists 0%nat, x, y. Qed.

Lemma sha256_collision_there x y xs ys :
  sha256_collision xs ys -> sha256_collision (x :: xs) (y :: ys).
Proof. intros (k & a & b & ?). by exists (S k), a, b. Qed.

Lemma domain_preimage_same d x y : domain_preimage d x = domain_preimage d y -> x = y.
Proof.
  unfold domain_preimage. intros Heq. do 2 apply app_inv_head in Heq.
  apply app_inj_1 in Heq as [_ ?]; [done|by rewrite !length_be].
Qed.

Lemma leaf_preimage_inj key v1 v2 : leaf_preimage key v1 = leaf_preimage key v2 -> v1 = v2.
Proof.
  destruct v1 as [v1|], v2 as [v2|]; cbn [leaf_preimage]; [| | |done].
  - intros Heq%domain_preimage_same%app_inv_head. unfold enc_bytes in Heq.
    apply app_inj_1 in Heq as [_ ->]; [done|by rewrite !length_be].
  - intros Heq. apply (f_equal (fun l => nth 3 l x00)) in Heq. vm_compute in Heq. discriminate.
  - intros Heq. apply (f_equal (fun l => nth 3 l x00)) in Heq. vm_compute in Heq. discriminate.
Qed.

Lemma branch_preimage_inj key i c1 c2 s1 s2 :
  length c1 = length c2 -> branch_preimage key i c1 s1 = branch_preimage key i c2 s2 -> c1 = c2.
Proof.
  intros Hl Heq%domain_preimage_same. destruct (bitAt key (Depth - i - 1) =? 0).
  - by apply app_inj_1 in Heq as [? _].
  - by apply app_inj_2 in Heq as [_ ?].
Qed.

Lemma verify_step_eq key pf c idx i :
  verify_step key defaultHashes pf (Some (c, idx)) i =
  '(s, idx) ← verify_sibling pf i idx; Some (sha256 (branch_preimage key i c s), idx).
Proof.
  unfold verify_step, verify_sibling, branch_preimage, branchHash, DomainHash. cbn [mbind option_bind].
  destruct (if bitmapBit _ _ then _ else _) as [[s j]|]; [|done]. cbn [mbind option_bind].
  by destruct (bitAt key _ =? 0).
Qed.

Lemma verify_none key pf l : foldl (verify_step key defaultHashes pf) None l = None.
Proof. induction l as [|i l IH]; [done|exact IH]. Qed.

Lemma verify_walk_binding key p1 p2 l c1 c2 i1 i2 j1 j2 root :
  length c1 = 32%nat -> length c2 = 32%nat -> c1 <> c2 ->
  foldl (verify_step key defaultHashes p1) (Some (c1, i1)) l = Some (root, j1) ->
  foldl (verify_step key defaultHashes p2) (Some (c2, i2)) l = Some (root, j2) ->
  sha256_collision (branch_preimages key p1 c1 i1 l) (branch_preimages key p2 c2 i2 l).
Proof.
  revert c1 c2 i1 i2. induction l as [|i l IH]; intros c1 c2 i1 i2 L1 L2 Hne H1 H2.
  { cbn in *. congruence. }
  cbn [foldl] in H1, H2. rewrite verify_step_eq in H1, H2. cbn [branch_preimages].
  destruct (verify_sibling p1 i i1) as [[s1 k1]|]; cbn [mbind option_bind] in H1;
    [|by rewrite verify_none in H1].
  destruct (verify_sibling p2 i i2) as [[s2 k2]|]; cbn [mbind option_bind] in H2;
    [|by rewrite verify_none in H2].
  destruct (decide (sha256 (branch_preimage key i c1 s1) = sha256 (branch_preimage key i c2 s2))) as [E|E].
  - apply sha256_collision_here; [|exact E]. intros Heq. apply Hne.
    eapply branch_preimage_inj; [|exact Heq]. congruence.
  - apply sha256_collision_there.
    exact (IH _ _ _ _ (sha256_length _) (sha256_length _) E H1 H2).
Qed.

Lemma leaf_hash_preimage key v :
  match v with Some v => leafHash key v | None => nth Depth defaultHashes [] end
  = sha256 (leaf_preimage key v).
Proof.
  destruct v as [v|].
  - unfold leafHash. cbn [leaf_preimage]. writer_norm. reflexivity.
  - rewrite nth_defaultHashes by (unfold Depth; lia). reflexivity.
Qed.

Lemma Verify_same_root root key v1 v2 p1 p2 :
  Verify root key v1 p1 = true -> Verify root key v2 p2 = true ->
  v1 = v2 \/ sha256_collision (hash_inputs key v1 p1) (hash_inputs key v2 p2).
Proof.
  intros H1 H2. unfold Verify in H1, H2.
  destruct (negb _) in H1; [discriminate|]. destruct (negb _) in H2; [discriminate|].
  rewrite leaf_hash_preimage in H1, H2.
  destruct (foldl _ _ _) as [[r1 j1]|] eqn:W1 in H1; [|discriminate].
  destruct (foldl _ _ _) as [[r2 j2]|] eqn:W2 in H2; [|discriminate].
  apply andb_prop in H1 as [_ ->%bool_decide_eq_true_1].
  apply andb_prop in H2 as [_ ->%bool_decide_eq_true_1].
  destruct (decide (v1 = v2)) as [?|Hne]; [by left|right]. unfold hash_inputs.
  destruct (decide (sha256 (leaf_preimage key v1) = sha256 (leaf_preimage key v2))) as [E|E].
  - apply sha256_collision_here; [|exact E]. intros Heq. by apply Hne, (leaf_preimage_inj key).
  - apply sha256_collision_there.
    exact (verify_walk_binding key p1 p2 _ _ _ _ _ _ _ root (sha256_length _) (sha256_length _) E W1 W2).
Qed.
End tree.

(** ** Wire format *)

(** The proofs [ParseProof] accepts. *)
Definition SmtProof_ok (p : Proof) : Prop :=
  arr32 (Bitmap p) /\ blen (Siblings p) <= 256 /\ Forall arr32 (Siblings p) /\
  bitmap_count (Bitmap p) = length (Siblings p).

Lemma smt_MarshalBinary_eq p :
  MarshalBinary p = enc_bool (Exists p) ++ Bitmap p ++ be 2 (blen (Siblings p) mod 2 ^ 16) ++ concat (Siblings p).
Proof.
  unfold MarshalBinary. rewrite (writer_loop _ id) by done. rewrite list_fmap_id. by writer_norm.
Qed.

Lemma smt_ParseProof_Ok d p : ParseProof d = Ok p -> SmtProof_ok p /\ MarshalBinary p = d.
Proof.
  intros H. unfold ParseProof in H. parse_inv.
  match goal with H : prepeat _ _ _ = Ok _ |- _ => apply prepeat_fixed_Ok in H as (Hlen & ? & ?) end.
  rewrite smt_MarshalBinary_eq. unfold SmtProof_ok. cbn [Exists Bitmap Siblings].
  rewrite Forall_arr. apply Bool.negb_false_iff, Nat.eqb_eq in P6. apply Z.ltb_ge in P5. change (Z.of_nat Depth) with 256 in P5. unfold u16 in *.
  assert (blen v3 = v1) as Hb by (unfold blen; rewrite Hlen; lia). rewrite Hb, Z.mod_small by lia.
  split; [split_and!; [unfold arr, blen in *; lia|lia|done|done]|]. rest_rw. by rewrite app_nil_r.
Qed.

Lemma smt_ParseProof_Marshal p : SmtProof_ok p -> ParseProof (MarshalBinary p) = Ok p.
Proof.
  intros (Hb & Hs & Hall & Hc). rewrite smt_MarshalBinary_eq. apply reads_parse.
  destruct p as [e b s]; cbn [Exists Bitmap Siblings] in *. apply Forall_arr in Hall.
  rewrite <-(app_nil_r (concat _)). rewrite Z.mod_small by (unfold blen in *; lia).
  unfold blen in *. solve_reads; try done; unfold u16; try lia.
  - unfold blen. by rewrite Hb.
  - apply Z.ltb_ge. exact Hs.
  - rewrite Nat2Z.id. by apply reads_repeat_fixed.
  - by rewrite Hc, Nat.eqb_refl.
Qed.

(** ** Properties *)

Section properties.
Context `{Crypto}.

(** The trees a program can build: [NewTree], then [Update], [Apply] (in any
    iteration order of the updates map) and [Clone]. *)
Inductive tree_reachable : Tree -> Prop :=
| reach_new : tree_reachable NewTree
| reach_update t key v : tree_reachable t -> arr32 key -> tree_reachable (fst (Update t key v))
| reach_apply t u order :
    tree_reachable t -> keys_ok (map_to_list u) -> order ≡ₚ map_to_list u ->
    tree_reachable (Apply_list t order)
| reach_clone t : tree_reachable t -> tree_reachable (Clone t).

Lemma reachable_inv t : tree_reachable t -> tree_inv t.
Proof.
  induction 1 as [|t key v _ IH Hk|t u order _ IH Hu Ho|t _ IH].
  - apply NewTree_inv.
  - exact (proj1 (updateLocked_inv t key v Hk IH)).
  - exact (proj1 (Apply_list_spec t order u IH Hu Ho)).
  - destruct t. exact IH.
Qed.

Lemma Get_Update t key v : tree_reachable t -> arr32 key -> Get (fst (Update t key v)) key = v.
Proof.
  intros Ht%reachable_inv Hk. unfold Get, Update. cbn [fst].
  rewrite (proj2 (updateLocked_inv t key v Hk Ht)). apply set_value_eq.
Qed.

(** the stored nodes of every reachable tree commit to its values: the
    root is the hash of the full depth-256 tree over [values], so it does not
    depend on the history of updates and deletions; and [Apply] gives the
    same values and root for every iteration order of the updates map. *)
Theorem smt_root_commits (t : Tree) (u : gmap bytes (option bytes)) (order : list (bytes * option bytes)) :
  tree_reachable t -> keys_ok (map_to_list u) -> order ≡ₚ map_to_list u ->
  Root t = root_spec (values t) /\
  values (Apply_list t order) = merge_updates (values t) u /\
  Root (Apply_list t order) = root_spec (merge_updates (values t) u) /\
  snd (Apply t u) = Root (Apply_list t order).
Proof.
  intros Ht%reachable_inv Hu Ho. destruct (Apply_list_spec t order u Ht Hu Ho) as (_ & H1 & H2).
  destruct (Apply_list_spec t (map_to_list u) u Ht Hu (reflexivity _)) as (_ & _ & H3).
  split; [exact (Root_spec t Ht)|]. split; [exact H1|]. split; [exact H2|].
  rewrite H2. exact H3.
Qed.

(** [Preview] is [Apply] without the mutation: the overlay walk over the
    sorted keys returns the root that applying the same updates would give. *)
Theorem Preview_predicts_Apply (t : Tree) (u : gmap bytes (option bytes)) :
  tree_reachable t -> keys_ok (map_to_list u) -> Preview t u = snd (Apply t u).
Proof.
  intros Ht%reachable_inv Hu. rewrite (Preview_spec t u Ht Hu). symmetry.
  exact (proj2 (proj2 (Apply_list_spec t (map_to_list u) u Ht Hu (reflexivity _)))).
Qed.

(** C18: inclusion and absence proofs are complete and binding.  The proof of
    any key verifies against the root with the value the tree holds (or its
    absence); and any other proof that verifies against that root for that
    key shows the same value, or else the two verifications feed two
    different inputs with one hash to SHA-256. *)
Theorem smt_proof_complete_and_binding (t : Tree) (key : bytes) (v : option bytes) (p : Proof) :
  tree_reachable t -> arr32 key ->
  Verify (Root t) key (Get t key) (Prove t key) = true /\
  (Verify (Root t) key v p = true ->
   v = Get t key \/ sha256_collision (hash_inputs key v p) (hash_inputs key (Get t key) (Prove t key))).
Proof.
  intros Ht%reachable_inv Hk. pose proof (Prove_Verify t key Hk Ht) as Hc. split; [exact Hc|].
  intros Hv. exact (Verify_same_root _ _ _ _ _ _ Hv Hc).
Qed.
End properties.

(** The wire format of sparse Merkle proofs is canonical: [ParseProof]
    accepts exactly the encodings of the proofs whose bitmap counts their
    siblings (at most 256), and each has one encoding. *)
Theorem smt_ParseProof_canonical (d : bytes) (p : Proof) :
  ParseProof d = Ok p <-> SmtProof_ok p /\ MarshalBinary p = d.
Proof.
  split; [apply smt_ParseProof_Ok|]. intros [Hp <-]. exact (smt_ParseProof_Marshal p Hp).
Qed.

Definition sample_updates : gmap bytes (option bytes) :=
  <[be 32 1 := Some (be 4 7)]> (<[be 32 2 := None]> ∅).

Lemma sample_updates_ok : keys_ok (map_to_list sample_updates).
Proof.
  unfold sample_updates, keys_ok. apply Forall_forall. intros [k v] Hin%elem_of_map_to_list.
  apply lookup_insert_Some in Hin as [[<- _]|[_ Hin]]; [reflexivity|].
  apply lookup_insert_Some in Hin as [[<- _]|[_ Hin]]; [reflexivity|]. by rewrite lookup_empty in Hin.
Qed.

Lemma smt_root_commits_witness :
  let t := fst (Update (H:=toy_crypto) (NewTree (H:=toy_crypto)) (be 32 2) (Some [])) in
  Root t = root_spec (H:=toy_crypto) (values t) /\
  snd (Apply (H:=toy_crypto) t sample_updates)
  = Root (Apply_list (H:=toy_crypto) t (reverse (map_to_list sample_updates))).
Proof.
  cbv zeta.
  refine ((fun H => conj (proj1 H) (proj2 (proj2 (proj2 H))))
    (smt_root_commits (H:=toy_crypto) (fst (Update (H:=toy_crypto) (NewTree (H:=toy_crypto)) (be 32 2) (Some [])))
    sample_updates (reverse (map_to_list sample_updates)) _ sample_updates_ok _)).
  - apply reach_update; [apply reach_new|reflexivity].
  - apply reverse_Permutation.
Defined.

Lemma Preview_predicts_Apply_witness :
  Preview (H:=toy_crypto) (NewTree (H:=toy_crypto)) sample_updates
  = snd (Apply (H:=toy_crypto) (NewTree (H:=toy_crypto)) sample_updates).
Proof.
  exact (Preview_predicts_Apply (H:=toy_crypto) (NewTree (H:=toy_crypto)) sample_updates
    (@reach_new toy_crypto) sample_updates_ok).
Defined.

Lemma smt_proof_complete_and_binding_witness :
  let t := NewTree (H:=toy_crypto) in
  Verify (H:=toy_crypto) (Root t) (be 32 5) None (Prove t (be 32 5)) = true.
Proof.
  exact (proj1 (smt_proof_complete_and_binding (H:=toy_crypto) (NewTree (H:=toy_crypto)) (be 32 5) None
    (mkProof false zero32 []) (@reach_new toy_crypto) eq_refl)).
Defined.
