(* ===== verification/Assets.v ===== *)
(** * Assets

    Package [internal/v2/assets]: token definitions with their supply policy,
    minting and burning, and the payloads of the token operations. *)

From S2P Require Import Prelude GoLib Codec Crypto Types Object.

Open Scope Z_scope.

(** [type SupplyPolicy uint8] *)
Definition SupplyCapped : Z := 0.
Definition SupplyFixed : Z := 1.
Definition SupplyMintable : Z := 2.

Record TokenDefinition := mkDefinition {
  TokenID : bytes;
  Name : bytes;
  Symbol : bytes;
  Decimals : Z;
  SupplyPolicy : Z;
  MaxSupply : Z;
  CurrentSupply : Z;
  MintAuthority : bytes;
  Burnable : bool;
  Transferable : bool;
}.

Record CreateToken := mkCreateToken {
  ct_Name : bytes;
  ct_Symbol : bytes;
  ct_Decimals : Z;
  ct_SupplyPolicy : Z;
  ct_MaxSupply : Z;
  ct_InitialSupply : Z;
  ct_MintAuthority : bytes;
  ct_Burnable : bool;
  ct_Transferable : bool;
}.

Record MintToken := mkMintToken {
  mt_DefinitionObject : bytes;
  mt_Recipient : bytes;
  mt_Amount : Z;
}.

Record BurnToken := mkBurnToken {
  bt_DefinitionObject : bytes;
  bt_Amount : Z;
}.

#[global] Instance TokenDefinition_eq_dec : EqDecision TokenDefinition.
Proof. solve_decision. Defined.
#[global] Instance CreateToken_eq_dec : EqDecision CreateToken.
Proof. solve_decision. Defined.

Definition CreateToken_Validate (c : CreateToken) : res unit :=
  let name := TrimSpace (ct_Name c) in
  let symbol := TrimSpace (ct_Symbol c) in
  if bool_decide (name = []) || (64 <? blen name) || bool_decide (symbol = []) || (16 <? blen symbol)
     || (18 <? ct_Decimals c) || (ct_InitialSupply c =? 0) || IsZero32 (ct_MintAuthority c)
  then Err ErrInvalidTokenDefinition
  else if ct_SupplyPolicy c =? SupplyCapped then
    fail_if ((ct_MaxSupply c =? 0) || (ct_MaxSupply c <? ct_InitialSupply c)) ErrInvalidTokenDefinition
  else if ct_SupplyPolicy c =? SupplyFixed then
    fail_if ((ct_MaxSupply c =? 0) || negb (ct_InitialSupply c =? ct_MaxSupply c)) ErrInvalidTokenDefinition
  else if ct_SupplyPolicy c =? SupplyMintable then
    fail_if (negb (ct_MaxSupply c =? 0)) ErrInvalidTokenDefinition
  else Err ErrInvalidTokenDefinition.

Definition CreateToken_MarshalBinary (c : CreateToken) : res bytes :=
  CreateToken_Validate c;;
  Ok (Writer.BytesCopy (Writer.new |> Writer.String (TrimSpace (ct_Name c))
    |> Writer.String (TrimSpace (ct_Symbol c))
    |> Writer.U8 (ct_Decimals c) |> Writer.U8 (ct_SupplyPolicy c)
    |> Writer.U64 (ct_MaxSupply c) |> Writer.U64 (ct_InitialSupply c)
    |> Writer.Fixed (ct_MintAuthority c)
    |> Writer.Bool (ct_Burnable c) |> Writer.Bool (ct_Transferable c))).

Definition ParseCreateToken (data : bytes) : res CreateToken :=
  parse (name ← Rd.String 64 <!> ErrInvalidTokenDefinition;
         symbol ← Rd.String 16 <!> ErrInvalidTokenDefinition;
         decimals ← Rd.U8 <!> ErrInvalidTokenDefinition;
         policy ← Rd.U8 <!> ErrInvalidTokenDefinition;
         maxSupply ← Rd.U64 <!> ErrInvalidTokenDefinition;
         initialSupply ← Rd.U64 <!> ErrInvalidTokenDefinition;
         authority ← Rd.Fixed 32 <!> ErrInvalidTokenDefinition;
         burnable ← Rd.Bool <!> ErrInvalidTokenDefinition;
         transferable ← Rd.Bool <!> ErrInvalidTokenDefinition;
         Rd.Done <!> ErrInvalidTokenDefinition;;
         let out := mkCreateToken name symbol decimals policy maxSupply initialSupply authority
                      burnable transferable in
         plift (CreateToken_Validate out);;
         mret out) data.

Definition Definition_Validate (d : TokenDefinition) : res unit :=
  if IsZero32 (TokenID d) || bool_decide (TrimSpace (Name d) = []) || bool_decide (TrimSpace (Symbol d) = [])
     || (18 <? Decimals d) || IsZero32 (MintAuthority d)
  then Err ErrInvalidTokenDefinition
  else if (SupplyPolicy d =? SupplyCapped) || (SupplyPolicy d =? SupplyFixed) then
    fail_if ((MaxSupply d =? 0) || (MaxSupply d <? CurrentSupply d)) ErrInvalidTokenDefinition
  else if SupplyPolicy d =? SupplyMintable then
    fail_if (negb (MaxSupply d =? 0)) ErrInvalidTokenDefinition
  else Err ErrInvalidTokenDefinition.

Definition Definition_MarshalBinary (d : TokenDefinition) : res bytes :=
  Definition_Validate d;;
  Ok (Writer.BytesCopy (Writer.new |> Writer.Fixed (TokenID d)
    |> Writer.String (TrimSpace (Name d)) |> Writer.String (TrimSpace (Symbol d))
    |> Writer.U8 (Decimals d) |> Writer.U8 (SupplyPolicy d)
    |> Writer.U64 (MaxSupply d) |> Writer.U64 (CurrentSupply d)
    |> Writer.Fixed (MintAuthority d)
    |> Writer.Bool (Burnable d) |> Writer.Bool (Transferable d))).

Definition ParseDefinition (data : bytes) : res TokenDefinition :=
  parse (token ← Rd.Fixed 32 <!> ErrInvalidTokenDefinition;
         name ← Rd.String 64 <!> ErrInvalidTokenDefinition;
         symbol ← Rd.String 16 <!> ErrInvalidTokenDefinition;
         decimals ← Rd.U8 <!> ErrInvalidTokenDefinition;
         policy ← Rd.U8 <!> ErrInvalidTokenDefinition;
         maxSupply ← Rd.U64 <!> ErrInvalidTokenDefinition;
         currentSupply ← Rd.U64 <!> ErrInvalidTokenDefinition;
         authority ← Rd.Fixed 32 <!> ErrInvalidTokenDefinition;
         burnable ← Rd.Bool <!> ErrInvalidTokenDefinition;
         transferable ← Rd.Bool <!> ErrInvalidTokenDefinition;
         Rd.Done <!> ErrInvalidTokenDefinition;;
         let out := mkDefinition token name symbol decimals policy maxSupply currentSupply authority
                      burnable transferable in
         plift (Definition_Validate out);;
         mret out) data.

(** [next := d; next.CurrentSupply = s]: the definition is a Go value. *)
Definition with_supply (d : TokenDefinition) (s : Z) : TokenDefinition :=
  mkDefinition (TokenID d) (Name d) (Symbol d) (Decimals d) (SupplyPolicy d) (MaxSupply d) s
    (MintAuthority d) (Burnable d) (Transferable d).

(** The result carries [next, next.Validate()]: the callers drop [next] when
    the error is not nil. *)
Definition Mint (d : TokenDefinition) (amount : Z) : res TokenDefinition :=
  if negb (is_ok (Definition_Validate d)) || (amount =? 0) || (SupplyPolicy d =? SupplyFixed)
     || overflows (CurrentSupply d) amount
  then Err ErrInvalidTokenDefinition
  else
    let next := with_supply d (add64 (CurrentSupply d) amount) in
    fail_if ((SupplyPolicy d =? SupplyCapped) && (MaxSupply d <? CurrentSupply next)) ErrInvalidTokenDefinition;;
    Definition_Validate next;;
    Ok next.

Definition Burn (d : TokenDefinition) (amount : Z) : res TokenDefinition :=
  if negb (is_ok (Definition_Validate d)) || negb (Burnable d) || (amount =? 0) || (CurrentSupply d <? amount)
  then Err ErrInvalidTokenDefinition
  else
    let next := with_supply d (sub64 (CurrentSupply d) amount) in
    Definition_Validate next;;
    Ok next.

Definition MintToken_MarshalBinary (m : MintToken) : res bytes :=
  fail_if (IsZero32 (mt_DefinitionObject m) || IsZero32 (mt_Recipient m) || (mt_Amount m =? 0))
    ErrInvalidTokenDefinition;;
  Ok (Writer.BytesCopy (Writer.new |> Writer.Fixed (mt_DefinitionObject m)
    |> Writer.Fixed (mt_Recipient m) |> Writer.U64 (mt_Amount m))).

(** The fixed-offset slices [data[:32]], [data[32:64]] are read in place; the
    amount goes through a reader of the last 8 bytes. *)
Definition ParseMintToken (data : bytes) : res MintToken :=
  fail_if (negb (blen data =? 72)) ErrInvalidTokenDefinition;;
  let definitionObject := firstn 32 data in
  let recipient := firstn 32 (skipn 32 data) in
  amount ← parse (amount ← Rd.U64 <!> ErrInvalidTokenDefinition;
                  Rd.Done <!> ErrInvalidTokenDefinition;;
                  mret amount) (skipn 64 data);
  let out := mkMintToken definitionObject recipient amount in
  MintToken_MarshalBinary out;;
  Ok out.

Definition BurnToken_MarshalBinary (b : BurnToken) : res bytes :=
  fail_if (IsZero32 (bt_DefinitionObject b) || (bt_Amount b =? 0)) ErrInvalidTokenDefinition;;
  Ok (Writer.BytesCopy (Writer.new |> Writer.Fixed (bt_DefinitionObject b) |> Writer.U64 (bt_Amount b))).

Definition ParseBurnToken (data : bytes) : res BurnToken :=
  fail_if (negb (blen data =? 40)) ErrInvalidTokenDefinition;;
  let definitionObject := firstn 32 data in
  amount ← parse (amount ← Rd.U64 <!> ErrInvalidTokenDefinition;
                  Rd.Done <!> ErrInvalidTokenDefinition;;
                  mret amount) (skipn 32 data);
  let out := mkBurnToken definitionObject amount in
  BurnToken_MarshalBinary out;;
  Ok out.

(** ** Well-formedness *)

Definition TokenDefinition_typed (d : TokenDefinition) : Prop :=
  arr32 (TokenID d) /\ u8 (Decimals d) /\ u8 (SupplyPolicy d) /\ u64 (MaxSupply d) /\
  u64 (CurrentSupply d) /\ arr32 (MintAuthority d).

Definition CreateToken_typed (c : CreateToken) : Prop :=
  u8 (ct_Decimals c) /\ u8 (ct_SupplyPolicy c) /\ u64 (ct_MaxSupply c) /\
  u64 (ct_InitialSupply c) /\ arr32 (ct_MintAuthority c).

Lemma with_supply_id d : with_supply d (CurrentSupply d) = d.
Proof. by destruct d. Qed.
Lemma with_supply_with_supply d s s' : with_supply (with_supply d s) s' = with_supply d s'.
Proof. done. Qed.

(** A capped or fixed supply stays under its maximum; the other policy has
    none. *)
Lemma Definition_Validate_supply d :
  Definition_Validate d = Ok tt ->
  (SupplyPolicy d = SupplyMintable -> MaxSupply d = 0) /\
  (SupplyPolicy d <> SupplyMintable -> CurrentSupply d <= MaxSupply d).
Proof.
  unfold Definition_Validate. intros H. destruct (_ || _ || _ || _ || _) in H; [discriminate|].
  unfold SupplyCapped, SupplyFixed, SupplyMintable in *.
  destruct ((SupplyPolicy d =? 0) || (SupplyPolicy d =? 1)) eqn:E1;
    [|destruct (SupplyPolicy d =? 2) eqn:E2; [|discriminate]];
    apply fail_if_Ok in H; lia.
Qed.

(** [Mint] adds exactly the amount, without wrapping, under the policy. *)
Lemma Mint_Ok d amount d' :
  u64 (CurrentSupply d) -> u64 amount -> Mint d amount = Ok d' ->
  d' = with_supply d (CurrentSupply d + amount) /\ Definition_Validate d' = Ok tt /\
  u64 (CurrentSupply d + amount) /\ amount <> 0 /\ SupplyPolicy d <> SupplyFixed.
Proof.
  unfold Mint. intros Hc Ha H. destruct (_ || _ || _ || _) eqn:E; [discriminate|].
  repeat (apply orb_false_iff in E as [E ?]). res_inv.
  match goal with H : overflows _ _ = false |- _ => apply add64_small in H as [Hs Hu]; [|done|apply Ha] end.
  rewrite Hs in *. split_and!; [done|done|done|lia|lia].
Qed.

Lemma Burn_Ok d amount d' :
  u64 (CurrentSupply d) -> u64 amount -> Burn d amount = Ok d' ->
  d' = with_supply d (CurrentSupply d - amount) /\ Definition_Validate d' = Ok tt /\
  u64 (CurrentSupply d - amount) /\ amount <> 0 /\ Burnable d = true.
Proof.
  unfold Burn. intros Hc Ha H. destruct (_ || _ || _ || _) eqn:E; [discriminate|].
  repeat (apply orb_false_iff in E as [E ?]). res_inv. unfold u64 in *.
  assert (sub64 (CurrentSupply d) amount = CurrentSupply d - amount) as Hs.
  { unfold sub64. apply Z.mod_small. lia. }
  rewrite Hs in *.
  split_and!; [done|done|lia|lia|lia|by destruct (Burnable d)].
Qed.

(** ** A history of mints and burns *)

Inductive supply_op := SMint (amount : Z) | SBurn (amount : Z).
Definition supply_op_typed (o : supply_op) : Prop :=
  match o with SMint a | SBurn a => u64 a end.
Definition supply_step (d : TokenDefinition) (o : supply_op) : res TokenDefinition :=
  match o with SMint a => Mint d a | SBurn a => Burn d a end.
Definition minted (l : list supply_op) : Z :=
  foldr (fun o s => match o with SMint a => a + s | SBurn _ => s end) 0 l.
Definition burned (l : list supply_op) : Z :=
  foldr (fun o s => match o with SBurn a => a + s | SMint _ => s end) 0 l.

Lemma supply_step_Ok d o d' :
  u64 (CurrentSupply d) -> supply_op_typed o -> supply_step d o = Ok d' ->
  d' = with_supply d (CurrentSupply d + minted [o] - burned [o]) /\ Definition_Validate d' = Ok tt /\
  u64 (CurrentSupply d') /\
  (SupplyPolicy d = SupplyFixed -> minted [o] = 0) /\ (Burnable d = false -> burned [o] = 0).
Proof.
  intros Hc Ho H. destruct o as [a|a]; cbn in *.
  - apply Mint_Ok in H as (-> & Hv & Hu & _ & Hp); [|done|done]. cbn.
    rewrite !Z.add_0_r, Z.sub_0_r. split_and!; done.
  - apply Burn_Ok in H as (-> & Hv & Hu & _ & Hb); [|done|done]. cbn.
    rewrite !Z.add_0_r. split_and!; try done. congruence.
Qed.

Lemma minted_cons o l : minted (o :: l) = minted [o] + minted l.
Proof. unfold minted. destruct o; cbn; lia. Qed.
Lemma burned_cons o l : burned (o :: l) = burned [o] + burned l.
Proof. unfold burned. destruct o; cbn; lia. Qed.

(** The supply accounting of a token over any history of successful mints
    and burns: the recorded supply is the initial supply plus everything minted
    minus everything burned, no [uint64] ever wraps, the rest of the definition
    never changes, a fixed supply is never minted, an unburnable token is never
    burned, and a capped or fixed token stays within its maximum supply. *)
Theorem supply_history (d d' : TokenDefinition) (ops : list supply_op) :
  u64 (CurrentSupply d) -> Definition_Validate d = Ok tt -> Forall supply_op_typed ops ->
  rfold supply_step d ops = Ok d' ->
  d' = with_supply d (CurrentSupply d + minted ops - burned ops) /\
  u64 (CurrentSupply d') /\ Definition_Validate d' = Ok tt /\
  (SupplyPolicy d <> SupplyMintable -> CurrentSupply d' <= MaxSupply d) /\
  (SupplyPolicy d = SupplyFixed -> minted ops = 0) /\
  (Burnable d = false -> burned ops = 0).
Proof.
  revert d. induction ops as [|o ops IH]; intros d Hc Hv Ht H.
  - cbn in H. injection H as <-. cbn. rewrite Z.add_0_r, Z.sub_0_r, with_supply_id.
    pose proof (Definition_Validate_supply d Hv) as [_ ?]. split_and!; done.
  - apply Forall_cons_1 in Ht as [Ho Ht]. cbn [rfold] in H. apply bind_Ok in H as (d1 & H1 & H).
    apply supply_step_Ok in H1 as (E1 & Hv1 & Hu1 & Hf1 & Hb1); [|done|done].
    destruct (IH d1 Hu1 Hv1 Ht H) as (E2 & Hu2 & Hv2 & Hm2 & Hf2 & Hb2).
    rewrite minted_cons, burned_cons. rewrite E1 in E2, Hm2, Hf2, Hb2.
    cbn [SupplyPolicy Burnable MaxSupply CurrentSupply with_supply] in *.
    rewrite with_supply_with_supply in E2.
    split_and!; [rewrite E2; f_equal; lia|done|done|done| |]; intros Hx;
      [specialize (Hf1 Hx); specialize (Hf2 Hx)|specialize (Hb1 Hx); specialize (Hb2 Hx)]; lia.
Qed.

(** ** Round trips *)

(** The names are stored without surrounding white space. *)
Definition trim_definition (d : TokenDefinition) : TokenDefinition :=
  mkDefinition (TokenID d) (TrimSpace (Name d)) (TrimSpace (Symbol d)) (Decimals d) (SupplyPolicy d)
    (MaxSupply d) (CurrentSupply d) (MintAuthority d) (Burnable d) (Transferable d).

Lemma Definition_Validate_trim d : Definition_Validate (trim_definition d) = Definition_Validate d.
Proof.
  unfold Definition_Validate, trim_definition.
  cbn [TokenID Name Symbol Decimals SupplyPolicy MaxSupply CurrentSupply MintAuthority].
  by rewrite !TrimSpace_idem.
Qed.

Lemma ParseDefinition_Ok b d :
  ParseDefinition b = Ok d ->
  TokenDefinition_typed d /\ Definition_Validate d = Ok tt /\ blen (Name d) <= 64 /\ blen (Symbol d) <= 16.
Proof.
  unfold ParseDefinition. intros H. parse_inv. unfold TokenDefinition_typed. cbn. rewrite !blen32.
  split_and!; done.
Qed.

(** What marshals within the length limits of the parser reads back trimmed. *)
Lemma ParseDefinition_Marshal d b :
  TokenDefinition_typed d -> blen (Name d) <= 64 -> blen (Symbol d) <= 16 ->
  Definition_MarshalBinary d = Ok b -> ParseDefinition b = Ok (trim_definition d).
Proof.
  intros (Ht & Hd & Hp & Hm & Hc & Ha) Hn Hs E. unfold Definition_MarshalBinary in E.
  apply bind_Ok in E as ([] & Hv & E). apply Ok_inj in E as <-.
  pose proof (TrimSpace_blen (Name d)). pose proof (TrimSpace_blen (Symbol d)).
  rewrite <-Definition_Validate_trim in Hv. unfold trim_definition in *. rewrite blen32 in *.
  unfold ParseDefinition. apply reads_parse. writer_norm.
  solve_reads; first [done|lia].
Qed.

(** A stored token definition reads back: every valid definition with names
    of at most 64 and 16 bytes marshals, and parsing the bytes gives the
    definition with its names trimmed; what [ParseDefinition] returns is valid
    and in range, and marshalling is stable on it (a second round trip changes
    nothing). *)
Theorem ParseDefinition_roundtrip (d : TokenDefinition) :
  TokenDefinition_typed d -> Definition_Validate d = Ok tt ->
  blen (Name d) <= 64 -> blen (Symbol d) <= 16 ->
  exists b, Definition_MarshalBinary d = Ok b /\ ParseDefinition b = Ok (trim_definition d) /\
    Definition_MarshalBinary (trim_definition d) = Ok b.
Proof.
  intros Ht Hv Hn Hs. destruct (Definition_MarshalBinary d) as [b|] eqn:E.
  2:{ exfalso. unfold Definition_MarshalBinary in E. by rewrite Hv in E. }
  exists b. split; [done|]. split; [by apply ParseDefinition_Marshal|].
  - rewrite <-E. unfold Definition_MarshalBinary. rewrite Definition_Validate_trim, Hv. unfold trim_definition.
    cbn [TokenID Name Symbol Decimals SupplyPolicy MaxSupply CurrentSupply MintAuthority Burnable Transferable].
    by rewrite !TrimSpace_idem.
Qed.

Lemma ParseMintToken_Ok b m :
  ParseMintToken b = Ok m ->
  MintToken_MarshalBinary m = Ok b /\ arr32 (mt_DefinitionObject m) /\ arr32 (mt_Recipient m) /\
  u64 (mt_Amount m) /\ mt_Amount m <> 0.
Proof.
  unfold ParseMintToken. intros H. res_inv. parse_inv.
  rewrite H3, app_nil_r in H. rewrite H in Hr.
  assert (length b = 72%nat) as Hl by (unfold blen in *; lia).
  clear H0. unfold MintToken_MarshalBinary in *. res_inv. rewrite H0. cbn [mbind res_bind fail_if].
  cbn [mt_DefinitionObject mt_Recipient mt_Amount] in *. apply orb_false_iff in H0 as [_ Hnz].
  split; [|unfold arr; rewrite !length_take, ?length_drop; split_and!; [lia|lia|apply H2|lia]].
  f_equal. writer_norm. rewrite Hr. change 64%nat with (32 + 32)%nat. rewrite <-drop_drop.
  by rewrite !take_drop.
Qed.

Lemma ParseBurnToken_Ok b m :
  ParseBurnToken b = Ok m ->
  BurnToken_MarshalBinary m = Ok b /\ arr32 (bt_DefinitionObject m) /\ u64 (bt_Amount m) /\ bt_Amount m <> 0.
Proof.
  unfold ParseBurnToken. intros H. res_inv. parse_inv.
  rewrite H3, app_nil_r in H. rewrite H in Hr.
  assert (length b = 40%nat) as Hl by (unfold blen in *; lia).
  clear H0. unfold BurnToken_MarshalBinary in *. res_inv. rewrite H0. cbn [mbind res_bind fail_if].
  cbn [bt_DefinitionObject bt_Amount] in *. apply orb_false_iff in H0 as [_ Hnz].
  split; [|unfold arr; rewrite length_take; split_and!; [lia|apply H2|lia]].
  f_equal. writer_norm. rewrite Hr. by rewrite take_drop.
Qed.

Definition sample_definition : TokenDefinition :=
  mkDefinition (be 32 7) (str " Gold") (str "GLD") 8 SupplyCapped 1000 400 (be 32 9) true true.

Lemma supply_history_witness :
  rfold supply_step sample_definition [SMint 600; SBurn 250] = Ok (with_supply sample_definition 750) /\
  CurrentSupply (with_supply sample_definition 750) <= 1000.
Proof.
  split; [vm_compute; reflexivity|].
  refine (proj1 (proj2 (proj2 (proj2 (supply_history sample_definition (with_supply sample_definition 750)
    [SMint 600; SBurn 250] _ _ _ _)))) _).
  - split; vm_compute; [discriminate|reflexivity].
  - vm_compute. reflexivity.
  - repeat constructor; vm_compute; first [discriminate|reflexivity].
  - vm_compute. reflexivity.
  - discriminate.
Defined.

Lemma ParseDefinition_roundtrip_witness :
  exists b, Definition_MarshalBinary sample_definition = Ok b /\
    ParseDefinition b = Ok (trim_definition sample_definition) /\
    Name (trim_definition sample_definition) = str "Gold".
Proof.
  destruct (ParseDefinition_roundtrip sample_definition) as (b & H1 & H2 & _).
  - unfold TokenDefinition_typed, arr, u8, u64. vm_compute. intuition (discriminate || reflexivity).
  - vm_compute. reflexivity.
  - vm_compute. discriminate.
  - vm_compute. discriminate.
  - exists b. split; [exact H1|]. split; [exact H2|]. vm_compute. reflexivity.
Defined.
