(* ===== verification/Sharding.v ===== *)
(** * Sharding

    Package [internal/v2/sharding]: shard routing, per-shard commitments and
    their Merkle root in the global header, cross-shard receipts, the proof that
    a receipt was finalised, and the receipt tracker.  The mutex of the tracker
    serialises its operations, which are modelled one at a time. *)

From S2P Require Import Prelude GoLib Codec Crypto Types Merkle Object.

Open Scope Z_scope.

Record Router := mkRouter { ShardCount : Z }.

Record Commitment := mkCommitment {
  ShardID : Z;
  StateRoot : bytes;
  ReceiptRoot : bytes;
  DataRoot : bytes;
}.

Record GlobalHeader := mkGlobalHeader {
  h_Version : Z;
  h_Network : bytes;
  h_Height : Z;
  h_ParentHash : bytes;
  h_ShardCommitmentRoot : bytes;
  h_ValidatorRoot : bytes;
  h_NextValidatorRoot : bytes;
  h_DataRoot : bytes;
  h_CertificateHash : bytes;
}.

Record CrossShardReceipt := mkReceipt {
  SourceShard : Z;
  DestinationShard : Z;
  SourceHeight : Z;
  TransactionID : bytes;
  OutputIndex : Z;
  Output : OutputSpec;
  SourceStateRoot : bytes;
}.

#[global] Instance Commitment_eq_dec : EqDecision Commitment.
Proof. solve_decision. Defined.
#[global] Instance GlobalHeader_eq_dec : EqDecision GlobalHeader.
Proof. solve_decision. Defined.
#[global] Instance CrossShardReceipt_eq_dec : EqDecision CrossShardReceipt.
Proof. solve_decision. Defined.

(** [ReceiptBatch] is a slice of receipts, [ReceiptTracker] a map from the hash
    of a consumed receipt to the height it was consumed at. *)
Definition ReceiptBatch : Type := list CrossShardReceipt.
Abbreviation ReceiptTracker := (gmap bytes Z).

Definition ShardForAccount (r : Router) (account : bytes) : res Z :=
  fail_if ((ShardCount r =? 0) || IsZero32 account) ErrShardCount;;
  Ok (AccountShard account (ShardCount r)).

Definition ShardForObject (r : Router) (id : bytes) : res Z :=
  fail_if ((ShardCount r =? 0) || IsZero32 id) ErrShardCount;;
  let shard := ObjectShard id in
  fail_if (ShardCount r <=? shard) ErrShardCount;;
  Ok shard.

Definition Commitment_CanonicalBytes (c : Commitment) : bytes :=
  Writer.BytesCopy (Writer.new |> Writer.U32 (ShardID c) |> Writer.Fixed (StateRoot c)
    |> Writer.Fixed (ReceiptRoot c) |> Writer.Fixed (DataRoot c)).

Definition GlobalHeader_CanonicalBytes (h : GlobalHeader) : bytes :=
  Writer.BytesCopy (Writer.new |> Writer.U16 (h_Version h) |> Writer.Fixed (h_Network h)
    |> Writer.U64 (h_Height h) |> Writer.Fixed (h_ParentHash h) |> Writer.Fixed (h_ShardCommitmentRoot h)
    |> Writer.Fixed (h_ValidatorRoot h) |> Writer.Fixed (h_NextValidatorRoot h)
    |> Writer.Fixed (h_DataRoot h) |> Writer.Fixed (h_CertificateHash h)).

Definition EffectiveNextValidatorRoot (h : GlobalHeader) : bytes :=
  if IsZero32 (h_NextValidatorRoot h) then h_ValidatorRoot h else h_NextValidatorRoot h.

Definition Receipt_Validate (r : CrossShardReceipt) : res unit :=
  if (SourceShard r =? DestinationShard r) || (SourceHeight r =? 0)
     || IsZero32 (TransactionID r) || IsZero32 (SourceStateRoot r)
  then Err ErrReceipt
  else OutputSpec_Validate (Output r).

Definition receipt_payload (r : CrossShardReceipt) : bytes :=
  Writer.BytesCopy (Writer.new |> Writer.U32 (SourceShard r) |> Writer.U32 (DestinationShard r)
    |> Writer.U64 (SourceHeight r) |> Writer.Fixed (TransactionID r) |> Writer.U32 (OutputIndex r)
    |> Writer.Bytes (OutputSpec_CanonicalBytes (Output r)) |> Writer.Fixed (SourceStateRoot r)).

Definition Receipt_CanonicalBytes (r : CrossShardReceipt) : res bytes :=
  Receipt_Validate r;;
  Ok (receipt_payload r).

(** ** Sorting of commitments *)

(** [in[i-1].ShardID >= in[i].ShardID] stops the scan. *)
Fixpoint ordered (l : list Commitment) : bool :=
  match l with
  | a :: ((b :: _) as t) => if ShardID b <=? ShardID a then false else ordered t
  | _ => true
  end.

(** The second loop; [prev] is [out[i-1].ShardID]. *)
Fixpoint check_commitments (prev : option Z) (l : list Commitment) : res unit :=
  match l with
  | [] => Ok tt
  | c :: l =>
      fail_if (match prev with Some p => p =? ShardID c | None => false end) ErrShardCount;;
      fail_if (IsZero32 (StateRoot c)) ErrShardCount;;
      check_commitments (Some (ShardID c)) l
  end.

Definition sortedCommitments (l : list Commitment) : res (list Commitment) :=
  if bool_decide (l = []) then Err ErrShardCount
  else
    let out := if ordered l then l else sort_by ShardID l in
    check_commitments None out;;
    Ok out.

Section sharding.
Context `{Crypto}.

Definition GlobalHeader_Hash (h : GlobalHeader) : bytes :=
  DomainHash (str "zephyr/global-header/v2") (GlobalHeader_CanonicalBytes h).

Definition Commitment_Hash (c : Commitment) : bytes :=
  Leaf (str "shard-commitment") (Commitment_CanonicalBytes c).

Definition CommitmentRoot (commitments : list Commitment) : res bytes :=
  sorted ← sortedCommitments commitments;
  Ok (Root (Commitment_Hash <$> sorted)).

Definition CommitmentProof (commitments : list Commitment) (shardID : Z) : res (Commitment * Proof) :=
  sorted ← sortedCommitments commitments;
  match list_find (fun c => ShardID c = shardID) sorted with
  | Some (i, c) =>
      proof ← BuildProof (Commitment_Hash <$> sorted) (Z.of_nat i);
      Ok (c, proof)
  | None => Err ErrReceipt
  end.

Definition Receipt_Hash (r : CrossShardReceipt) : res bytes :=
  payload ← Receipt_CanonicalBytes r;
  Ok (Leaf (str "cross-shard-receipt") payload).

Definition DestinationObject (r : CrossShardReceipt) : res Object :=
  Receipt_Validate r;;
  Ok (mkObject (ObjectIDForShard (TransactionID r) (OutputIndex r) (DestinationShard r)) 1
        (o_Owner (Output r)) (o_Kind (Output r)) (o_Data (Output r))).

(** ** Receipt batches *)

Definition hash_all (b : ReceiptBatch) : res (list bytes) :=
  rfold (fun hashes receipt => hash ← Receipt_Hash receipt; Ok (hashes ++ [hash])) [] b.

Fixpoint adjacent_duplicate (l : list bytes) : bool :=
  match l with
  | a :: ((b :: _) as t) => if bool_decide (b = a) then true else adjacent_duplicate t
  | _ => false
  end.

Definition sortedHashes (b : ReceiptBatch) : res (list bytes) :=
  hashes ← hash_all b;
  let hashes := sort_by id hashes in
  fail_if (adjacent_duplicate hashes) ErrReceiptReplay;;
  Ok hashes.

Definition ReceiptBatch_Root (b : ReceiptBatch) : res bytes :=
  hashes ← sortedHashes b;
  Ok (Root hashes).

Definition ReceiptBatch_Proof (b : ReceiptBatch) (receipt : CrossShardReceipt) : res Proof :=
  target ← Receipt_Hash receipt;
  hashes ← sortedHashes b;
  let index := sort_Search (length hashes) (fun i => negb (bytes_ltb (nth i hashes []) target)) in
  fail_if ((index =? length hashes)%nat || negb (bool_decide (nth index hashes [] = target))) ErrReceiptProof;;
  BuildProof hashes (Z.of_nat index).

Definition VerifyFinalizedReceipt (header : GlobalHeader) (commitment : Commitment) (commitmentProof : Proof)
    (receipt : CrossShardReceipt) (receiptProof : Proof) : res unit :=
  Receipt_Validate receipt;;
  fail_if (negb (ShardID commitment =? SourceShard receipt)
           || negb (h_Height header =? SourceHeight receipt)) ErrReceiptProof;;
  fail_if (negb (Verify (h_ShardCommitmentRoot header) (Commitment_Hash commitment) commitmentProof))
    ErrReceiptProof;;
  receiptHash ← Receipt_Hash receipt;
  fail_if (negb (Verify (ReceiptRoot commitment) receiptHash receiptProof)) ErrReceiptProof.

Definition ReceiptMarker (receipt : CrossShardReceipt) : res Object :=
  hash ← Receipt_Hash receipt;
  Ok (mkObject (ObjectIDForShard hash 0xfffffffe (DestinationShard receipt)) 1 zero32 KindSystem hash).

Definition NewReceiptTracker : ReceiptTracker := ∅.

(** [hash, _ := receipt.Hash()]: the error was excluded by the check before. *)
Definition Consume (t : ReceiptTracker) (destinationShard : Z) (header : GlobalHeader)
    (commitment : Commitment) (commitmentProof : Proof)
    (receipt : CrossShardReceipt) (receiptProof : Proof) : res ReceiptTracker :=
  fail_if (negb (DestinationShard receipt =? destinationShard)) ErrReceiptProof;;
  VerifyFinalizedReceipt header commitment commitmentProof receipt receiptProof;;
  let hash := match Receipt_Hash receipt with Ok h => h | Err _ => zero32 end in
  match t !! hash with
  | Some _ => Err ErrReceiptReplay
  | None => Ok (<[hash := h_Height header]> t)
  end.

Definition Consumed (t : ReceiptTracker) (receipt : CrossShardReceipt) : bool :=
  match Receipt_Hash receipt with
  | Err _ => false
  | Ok hash => bool_decide (is_Some (t !! hash))
  end.
End sharding.

Definition SameCommitment (a b : Commitment) : bool :=
  (ShardID a =? ShardID b) && bool_decide (Commitment_CanonicalBytes a = Commitment_CanonicalBytes b).

(** ** Parsers *)

Definition readHash : parser bytes := Rd.Fixed 32.

Definition ParseCommitment (data : bytes) : res Commitment :=
  parse (shardID ← Rd.U32 <!> ErrShardCount;
         stateRoot ← readHash <!> ErrShardCount;
         receiptRoot ← readHash <!> ErrShardCount;
         dataRoot ← readHash <!> ErrShardCount;
         Rd.Done <!> ErrShardCount;;
         plift (fail_if (IsZero32 stateRoot) ErrShardCount);;
         mret (mkCommitment shardID stateRoot receiptRoot dataRoot)) data.

Definition ParseGlobalHeader (data : bytes) : res GlobalHeader :=
  parse (version ← Rd.U16 <!> ErrShardCount;
         plift (fail_if (negb (version =? 2)) ErrShardCount);;
         network ← Rd.Fixed 32 <!> ErrShardCount;
         height ← Rd.U64 <!> ErrShardCount;
         plift (fail_if (height =? 0) ErrShardCount);;
         parentHash ← readHash <!> ErrShardCount;
         shardRoot ← readHash <!> ErrShardCount;
         validatorRoot ← readHash <!> ErrShardCount;
         nextValidatorRoot ← readHash <!> ErrShardCount;
         dataRoot ← readHash <!> ErrShardCount;
         certificateHash ← readHash <!> ErrShardCount;
         Rd.Done <!> ErrShardCount;;
         plift (fail_if (IsZero32 network || IsZero32 shardRoot || IsZero32 validatorRoot) ErrShardCount);;
         mret (mkGlobalHeader version network height parentHash shardRoot validatorRoot
                 nextValidatorRoot dataRoot certificateHash)) data.

Definition ParseCrossShardReceipt (data : bytes) : res CrossShardReceipt :=
  parse (source ← Rd.U32 <!> ErrReceipt;
         destination ← Rd.U32 <!> ErrReceipt;
         height ← Rd.U64 <!> ErrReceipt;
         txHash ← readHash <!> ErrReceipt;
         index ← Rd.U32 <!> ErrReceipt;
         outputBytes ← Rd.Bytes (MaxObjectDataBytes + 64) <!> ErrReceipt;
         output ← plift (ParseOutputSpec outputBytes <?> ErrReceipt);
         stateRoot ← readHash <!> ErrReceipt;
         Rd.Done <!> ErrReceipt;;
         let receipt := mkReceipt source destination height txHash index output stateRoot in
         plift (Receipt_Validate receipt);;
         mret receipt) data.
