(* ===== verification/ShardingProofs.v ===== *)
(** * ShardingProofs

    What cross-shard messages rest on: the commitment root does not depend on
    the order of its input, commitments and receipts have Merkle proofs that
    verify, a verified receipt really is in the finalised batch unless SHA-256
    has a collision among the inputs named, and a receipt is consumed once. *)

From S2P Require Import Prelude GoLib Codec Crypto Types Merkle Object Sharding.

Open Scope Z_scope.

(** ** Sorted commitments *)

Lemma ordered_cons a l : ordered (a :: l) = true -> ordered l = true.
Proof. destruct l as [|b l]; [done|]. cbn. by destruct (ShardID b <=? ShardID a). Qed.

Lemma ordered_lt a l : ordered (a :: l) = true -> Forall (fun c => ShardID a < ShardID c) l.
Proof.
  revert a. induction l as [|b l IH]; intros a Ho; [constructor|].
  assert (ShardID a < ShardID b) as Hlt.
  { cbn in Ho. destruct (ShardID b <=? ShardID a) eqn:E; [done|]. lia. }
  constructor; [done|]. eapply Forall_impl; [apply IH; by apply ordered_cons in Ho|]. cbn. intros. lia.
Qed.

Lemma ordered_sorted l : ordered l = true -> StronglySorted (key_le ShardID) l /\ NoDup (ShardID <$> l).
Proof.
  induction l as [|a l IH]; intros Ho; [split; constructor|].
  destruct (IH (ordered_cons _ _ Ho)) as [Hs Hn]. pose proof (ordered_lt _ _ Ho) as Hlt.
  rewrite Forall_forall in Hlt. split.
  - constructor; [done|]. apply Forall_forall. intros c Hc. specialize (Hlt c Hc). cbn. lia.
  - cbn. constructor; [|done]. intros (c & Hc & Hin)%list_elem_of_fmap. specialize (Hlt c Hin). lia.
Qed.

(** The second loop accepts exactly the lists without adjacent duplicates and
    zero state roots. *)
Lemma check_commitments_Ok prev l :
  check_commitments prev l = Ok tt <->
  (match prev, l with Some p, c :: _ => p <> ShardID c | _, _ => True end) /\
  (forall i a b, l !! i = Some a -> l !! S i = Some b -> ShardID a <> ShardID b) /\
  Forall (fun c => IsZero32 (StateRoot c) = false) l.
Proof.
  revert prev. induction l as [|c l IH]; intros prev; cbn [check_commitments].
  { split; [intros _; split_and!; [by destruct prev|done|constructor]|done]. }
  split.
  - intros H. apply bind_Ok in H as (u1 & H1 & H). apply bind_Ok in H as (u2 & H2 & H).
    apply fail_if_Ok in H1, H2. apply IH in H as (Hp & Ha & Hz).
    split_and!; [destruct prev; [lia|done]| |by constructor].
    intros [|i] x y; cbn; [|by apply Ha]. intros [= <-] Hy. destruct l; [done|]. cbn in Hy.
    injection Hy as <-. done.
  - intros (Hp & Ha & Hz). apply Forall_cons_1 in Hz as [Hz Hzs]. rewrite Hz.
    assert (match prev with Some p => p =? ShardID c | None => false end = false) as ->.
    { destruct prev; [lia|done]. }
    cbn. apply IH. split_and!; [|intros i x y Hx Hy; apply (Ha (S i) x y Hx Hy)|done].
    destruct l as [|d l]; [done|]. exact (Ha 0%nat c d eq_refl eq_refl).
Qed.

Lemma NoDup_adjacent {A B} (f : A -> B) l i a b :
  NoDup (f <$> l) -> l !! i = Some a -> l !! S i = Some b -> f a <> f b.
Proof.
  intros Hn Ha Hb Heq. assert (i = S i); [|lia].
  apply (NoDup_lookup (f <$> l) i (S i) (f a)); [done|by rewrite list_lookup_fmap, Ha|].
  by rewrite list_lookup_fmap, Hb, Heq.
Qed.

Definition commitments_ok (l : list Commitment) : Prop :=
  l <> [] /\ NoDup (ShardID <$> l) /\ Forall (fun c => IsZero32 (StateRoot c) = false) l.

(** The fast path and the sorting path agree: the result is the sorted list,
    and it is returned exactly for distinct shards with non-zero state roots. *)
Lemma sortedCommitments_spec l :
  (commitments_ok l -> sortedCommitments l = Ok (sort_by ShardID l)) /\
  (~ commitments_ok l -> sortedCommitments l = Err ErrShardCount).
Proof.
  unfold sortedCommitments, commitments_ok. case_bool_decide as E; [split; [tauto|done]|].
  set (out := if ordered l then l else sort_by ShardID l). cbv zeta.
  assert (out ≡ₚ l) as Hp by (unfold out; destruct (ordered l); [done|apply sort_by_perm]).
  assert (StronglySorted (key_le ShardID) out) as Hs.
  { unfold out. destruct (ordered l) eqn:Eo; [by apply ordered_sorted|apply sort_by_sorted]. }
  split.
  - intros (_ & Hn & Hz).
    assert (out = sort_by ShardID l) as Ho.
    { apply (sorted_unique ShardID); [by rewrite Hp|done|apply sort_by_sorted|by rewrite sort_by_perm]. }
    assert (check_commitments None out = Ok tt) as ->; [|cbn; by rewrite Ho].
    apply check_commitments_Ok. split_and!; [done| |by rewrite Hp].
    intros i a b. apply NoDup_adjacent. by rewrite Hp.
  - intros Hnot. destruct (check_commitments None out) as [[]|e] eqn:Hc.
    + exfalso. apply Hnot. apply check_commitments_Ok in Hc as (_ & Ha & Hz). rewrite Hp in Hz.
      split_and!; [done| |done]. rewrite <-Hp. by apply sorted_adjacent_NoDup.
    + cbn. f_equal. clear -Hc. revert Hc. generalize (@None Z).
      induction out as [|c out IH]; intros prev Hc; [done|]. cbn in Hc.
      destruct (match prev with Some p => _ | None => _ end) in Hc; [by injection Hc|]. cbn in Hc.
      destruct (IsZero32 _) in Hc; [by injection Hc|]. cbn in Hc. by eapply IH.
Qed.

#[global] Instance commitments_ok_dec l : Decision (commitments_ok l).
Proof. unfold commitments_ok. apply _. Defined.

#[global] Instance commitments_ok_proper : Proper ((≡ₚ) ==> iff) commitments_ok.
Proof.
  intros l l' Hp. unfold commitments_ok.
  assert (l <> [] <-> l' <> []) as ->.
  { split; intros Hne ->; [by apply Permutation_nil_r in Hp|by apply Permutation_nil_l in Hp]. }
  by rewrite Hp.
Qed.

Lemma sortedCommitments_proper l l' : l ≡ₚ l' -> sortedCommitments l = sortedCommitments l'.
Proof.
  intros Hp. destruct (decide (commitments_ok l)) as [Hok|Hno].
  - pose proof Hok as Hok'. rewrite Hp in Hok'.
    rewrite (proj1 (sortedCommitments_spec l) Hok), (proj1 (sortedCommitments_spec l') Hok').
    f_equal. apply sort_by_proper; [apply Hok|done].
  - pose proof Hno as Hno'. rewrite Hp in Hno'.
    by rewrite (proj2 (sortedCommitments_spec l) Hno), (proj2 (sortedCommitments_spec l') Hno').
Qed.

Lemma sortedCommitments_Ok l s :
  sortedCommitments l = Ok s -> s ≡ₚ l /\ NoDup (ShardID <$> s) /\ s = sort_by ShardID l.
Proof.
  intros H. destruct (decide (commitments_ok l)) as [Hok|Hno].
  - rewrite (proj1 (sortedCommitments_spec l) Hok) in H. injection H as <-.
    split_and!; [apply sort_by_perm| |done]. rewrite sort_by_perm. apply Hok.
  - by rewrite (proj2 (sortedCommitments_spec l) Hno) in H.
Qed.

(** ** Wire formats *)

Definition Commitment_typed (c : Commitment) : Prop :=
  u32 (ShardID c) /\ arr32 (StateRoot c) /\ arr32 (ReceiptRoot c) /\ arr32 (DataRoot c).

Definition GlobalHeader_ok (h : GlobalHeader) : Prop :=
  h_Version h = 2 /\ arr32 (h_Network h) /\ u64 (h_Height h) /\ h_Height h <> 0 /\
  arr32 (h_ParentHash h) /\ arr32 (h_ShardCommitmentRoot h) /\ arr32 (h_ValidatorRoot h) /\
  arr32 (h_NextValidatorRoot h) /\ arr32 (h_DataRoot h) /\ arr32 (h_CertificateHash h) /\
  IsZero32 (h_Network h) || IsZero32 (h_ShardCommitmentRoot h) || IsZero32 (h_ValidatorRoot h) = false.

Definition Receipt_typed (r : CrossShardReceipt) : Prop :=
  u32 (SourceShard r) /\ u32 (DestinationShard r) /\ u64 (SourceHeight r) /\ arr32 (TransactionID r) /\
  u32 (OutputIndex r) /\ OutputSpec_typed (Output r) /\ arr32 (SourceStateRoot r).
Definition Receipt_ok (r : CrossShardReceipt) : Prop := Receipt_typed r /\ Receipt_Validate r = Ok tt.

Lemma Commitment_CanonicalBytes_inj c c' :
  Commitment_typed c -> Commitment_typed c' ->
  Commitment_CanonicalBytes c = Commitment_CanonicalBytes c' -> c = c'.
Proof.
  destruct c as [s1 a1 b1 d1], c' as [s2 a2 b2 d2]. unfold Commitment_typed, arr, u32, Commitment_CanonicalBytes.
  cbn [ShardID StateRoot ReceiptRoot DataRoot]. intros (Hs & H1 & H2 & H3) (Hs' & H1' & H2' & H3').
  writer_norm. intros Heq.
  apply app_inj_1 in Heq as [Hb Heq]; [|by rewrite !length_be].
  apply (f_equal be_val) in Hb. rewrite !be_val_small in Hb by (change (256 ^ Z.of_nat 4) with (2 ^ 32); lia).
  apply app_inj_1 in Heq as [-> Heq]; [|congruence].
  apply app_inj_1 in Heq as [-> ->]; [|congruence]. by subst.
Qed.

Lemma ParseGlobalHeader_Ok d h : ParseGlobalHeader d = Ok h -> GlobalHeader_ok h /\ GlobalHeader_CanonicalBytes h = d.
Proof.
  unfold ParseGlobalHeader, readHash. intros H. parse_inv. unfold GlobalHeader_ok. rewrite !blen32.
  cbn [h_Version h_Network h_Height h_ParentHash h_ShardCommitmentRoot h_ValidatorRoot
    h_NextValidatorRoot h_DataRoot h_CertificateHash].
  split; [split_and!; (done || lia)|].
  unfold GlobalHeader_CanonicalBytes. writer_norm. rest_rw. by rewrite app_nil_r.
Qed.

Lemma ParseGlobalHeader_CanonicalBytes h :
  GlobalHeader_ok h -> ParseGlobalHeader (GlobalHeader_CanonicalBytes h) = Ok h.
Proof.
  intros (Hv & Hn & Hh & Hnz & H1 & H2 & H3 & H4 & H5 & H6 & Hz).
  unfold ParseGlobalHeader, GlobalHeader_CanonicalBytes, readHash. apply reads_parse. writer_norm.
  rewrite blen32 in *. destruct h; cbn in *. subst. solve_reads; try done; lia.
Qed.

Lemma ParseCommitment_Ok d c :
  ParseCommitment d = Ok c ->
  (Commitment_typed c /\ IsZero32 (StateRoot c) = false) /\ Commitment_CanonicalBytes c = d.
Proof.
  unfold ParseCommitment, readHash. intros H. parse_inv. unfold Commitment_typed. rewrite !blen32.
  split; [split_and!; done|]. unfold Commitment_CanonicalBytes. writer_norm. rest_rw. by rewrite app_nil_r.
Qed.

Lemma ParseCommitment_CanonicalBytes c :
  Commitment_typed c -> IsZero32 (StateRoot c) = false ->
  ParseCommitment (Commitment_CanonicalBytes c) = Ok c.
Proof.
  intros (Hs & H1 & H2 & H3) Hz. unfold ParseCommitment, Commitment_CanonicalBytes, readHash.
  apply reads_parse. writer_norm. rewrite blen32 in *. destruct c. solve_reads; done.
Qed.

Lemma Receipt_Validate_output r : Receipt_Validate r = Ok tt -> OutputSpec_Validate (Output r) = Ok tt.
Proof. unfold Receipt_Validate. by destruct (_ || _). Qed.

Lemma ParseCrossShardReceipt_Ok d r :
  ParseCrossShardReceipt d = Ok r -> Receipt_ok r /\ Receipt_CanonicalBytes r = Ok d.
Proof.
  unfold ParseCrossShardReceipt, readHash. intros H. parse_inv.
  match goal with H : ParseOutputSpec _ = Ok _ |- _ => apply ParseOutputSpec_Ok in H as [[? ?] Hb] end.
  match goal with H : Receipt_Validate _ = Ok _ |- _ => rename H into Hv end.
  unfold Receipt_CanonicalBytes, Receipt_ok, Receipt_typed. rewrite Hv, !blen32.
  split; [done|]. cbn [mbind res_bind]. f_equal. unfold receipt_payload. writer_norm.
  cbn [SourceShard DestinationShard SourceHeight TransactionID OutputIndex Output SourceStateRoot].
  rewrite Hb. rest_rw. by rewrite app_nil_r.
Qed.

Lemma ParseCrossShardReceipt_CanonicalBytes r :
  Receipt_ok r -> ParseCrossShardReceipt (receipt_payload r) = Ok r.
Proof.
  intros [(Hs & Hd & Hh & Ht & Hi & Ho & Hr) Hv]. pose proof (Receipt_Validate_output r Hv) as Hov.
  pose proof (OutputSpec_CanonicalBytes_length _ (conj Ho Hov)) as Hl.
  unfold ParseCrossShardReceipt, receipt_payload, readHash. apply reads_parse. writer_norm.
  rewrite blen32 in *. destruct r as [s d h t i o sr]; cbn [SourceShard DestinationShard SourceHeight TransactionID OutputIndex Output SourceStateRoot] in *.
  solve_reads; try done. rewrite ParseOutputSpec_CanonicalBytes; done.
Qed.

Lemma receipt_payload_inj r r' : Receipt_ok r -> Receipt_ok r' -> receipt_payload r = receipt_payload r' -> r = r'.
Proof.
  intros Hr Hr' Heq. pose proof (ParseCrossShardReceipt_CanonicalBytes r Hr) as H1.
  rewrite Heq, ParseCrossShardReceipt_CanonicalBytes in H1 by done. congruence.
Qed.

(** ** Receipt batches *)

Lemma adjacent_duplicate_false l i a b :
  adjacent_duplicate l = false -> l !! i = Some a -> l !! S i = Some b -> a <> b.
Proof.
  revert i. induction l as [|x l IH]; intros i Hd Ha Hb; [done|].
  destruct l as [|y l]; [by destruct i|]. cbn in Hd. case_bool_decide as E; [done|].
  destruct i as [|i]; cbn in Ha, Hb; [congruence|]. by eapply (IH i).
Qed.

Section batches.
Context `{Crypto}.

Definition receipt_leaf (r : CrossShardReceipt) : bytes :=
  Leaf (str "cross-shard-receipt") (receipt_payload r).

Lemma Receipt_Hash_Ok r h :
  Receipt_Hash r = Ok h <-> Receipt_Validate r = Ok tt /\ h = receipt_leaf r.
Proof.
  unfold Receipt_Hash, Receipt_CanonicalBytes. destruct (Receipt_Validate r) as [[]|e]; cbn; [|split; [done|by intros [? _]]].
  split; [intros [= <-]; done|]. by intros [_ ->].
Qed.

Lemma hash_all_Ok b hs :
  hash_all b = Ok hs -> hs = receipt_leaf <$> b /\ Forall (fun r => Receipt_Validate r = Ok tt) b.
Proof.
  intros Hh. unfold hash_all in Hh.
  apply (rfold_inv (fun hs dn => hs = receipt_leaf <$> dn /\ Forall (fun r => Receipt_Validate r = Ok tt) dn)
    _ b [] hs []) in Hh; [done|split; [done|constructor]|].
  intros a c dn x [-> Hd] _ Hx. res_inv. apply Receipt_Hash_Ok in H0 as [Hv ->].
  rewrite fmap_app. split; [done|]. apply Forall_app. split; [done|by repeat constructor].
Qed.

Lemma sortedHashes_Ok b hs :
  sortedHashes b = Ok hs ->
  hs ≡ₚ (receipt_leaf <$> b) /\ StronglySorted (key_le id) hs /\ NoDup hs /\
  Forall (fun r => Receipt_Validate r = Ok tt) b.
Proof.
  unfold sortedHashes. intros Hh. res_inv. apply hash_all_Ok in H0 as [-> Hv].
  split_and!; [apply sort_by_perm|apply sort_by_sorted| |done].
  rewrite <-(list_fmap_id (sort_by id _)). apply sorted_adjacent_NoDup; [apply sort_by_sorted|].
  intros i a c. by apply adjacent_duplicate_false.
Qed.

(** The sorted hashes are the leaves of the receipts in sorted order. *)
Lemma sortedHashes_leaves b hs :
  sortedHashes b = Ok hs -> receipt_leaf <$> sort_by receipt_leaf b = hs.
Proof.
  intros (Hp & Hs & Hn & _)%sortedHashes_Ok. apply (sorted_unique id).
  - rewrite list_fmap_id, sort_by_perm, <-Hp. done.
  - pose proof (sort_by_sorted receipt_leaf b) as Hss. revert Hss. clear. generalize (sort_by receipt_leaf b).
    induction 1 as [|x l Hs IH Hx]; cbn; constructor; [done|]. by apply Forall_fmap.
  - done.
  - by rewrite sort_by_perm, Hp.
Qed.

Lemma ltb_mono hs t a b :
  StronglySorted (key_le id) hs -> (a <= b)%nat -> (b < length hs)%nat ->
  negb (bytes_ltb (nth a hs []) t) = true -> negb (bytes_ltb (nth b hs []) t) = true.
Proof.
  rewrite !negb_true_iff, !bytes_ltb_false. intros Hs Hab Hb Ha.
  destruct (decide (a = b)) as [->|Hne]; [done|]. etransitivity; [exact Ha|].
  destruct (lookup_lt_is_Some_2 hs a ltac:(lia)) as [x Hx].
  destruct (lookup_lt_is_Some_2 hs b Hb) as [y Hy]. rewrite !nth_lookup, Hx, Hy. cbn.
  exact (sorted_lookup id hs a b x y Hs ltac:(lia) Hx Hy).
Qed.

(** The binary search finds a leaf exactly when it is there. *)
Lemma search_found hs t :
  StronglySorted (key_le id) hs ->
  let i := sort_Search (length hs) (fun i => negb (bytes_ltb (nth i hs []) t)) in
  (i =? length hs)%nat || negb (bool_decide (nth i hs [] = t)) = false <-> t ∈ hs.
Proof.
  intros Hs. cbv zeta. set (f := fun i => negb (bytes_ltb (nth i hs []) t)).
  destruct (sort_Search_spec (length hs) f) as (Hle & Hlo & Hhi).
  { intros a b Hab Hb. by apply ltb_mono. }
  set (i := sort_Search (length hs) f) in *. split.
  - intros [Hi Ht]%orb_false_iff. apply negb_false_iff, bool_decide_eq_true_1 in Ht. rewrite <-Ht.
    apply list_elem_of_In, nth_In. apply Nat.eqb_neq in Hi. lia.
  - intros (j & Hj)%list_elem_of_lookup. pose proof (lookup_lt_Some _ _ _ Hj) as Hjl.
    assert (nth j hs [] = t) as Hn by (by rewrite nth_lookup, Hj).
    assert (i <= j)%nat as Hij.
    { destruct (decide (j < i)%nat) as [Hlt|]; [|lia]. specialize (Hlo j Hlt). unfold f in Hlo.
      apply negb_false_iff in Hlo. rewrite Hn in Hlo. unfold bytes_ltb in Hlo.
      by rewrite bytes_compare_refl in Hlo. }
    assert ((i =? length hs)%nat = false) as -> by (apply Nat.eqb_neq; lia). cbn.
    apply negb_false_iff, bool_decide_eq_true_2.
    specialize (Hhi i ltac:(lia)). unfold f in Hhi. apply negb_true_iff, bytes_ltb_false in Hhi.
    destruct (decide (i = j)) as [->|Hne]; [done|].
    destruct (lookup_lt_is_Some_2 hs i ltac:(lia)) as [x Hx].
    apply (anti_symm bytes_le); [|done]. rewrite nth_lookup, Hx. cbn. 
    exact (sorted_lookup id hs i j x t Hs ltac:(lia) Hx Hj).
Qed.

Lemma ReceiptBatch_Proof_spec b r root :
  blen b < 2 ^ 32 -> ReceiptBatch_Root b = Ok root -> Receipt_Validate r = Ok tt ->
  (receipt_leaf r ∈ receipt_leaf <$> b ->
   exists p, ReceiptBatch_Proof b r = Ok p /\ Verify root (receipt_leaf r) p = true) /\
  (receipt_leaf r ∉ receipt_leaf <$> b -> ReceiptBatch_Proof b r = Err ErrReceiptProof).
Proof.
  intros Hn Hr Hv. unfold ReceiptBatch_Root in Hr. res_inv. rename a into hs, H0 into Hs.
  unfold ReceiptBatch_Proof. rewrite (proj2 (Receipt_Hash_Ok r _) (conj Hv eq_refl)), Hs. cbn [mbind res_bind].
  apply sortedHashes_Ok in Hs as (Hp & Hss & _). rewrite <-Hp.
  pose proof (search_found hs (receipt_leaf r) Hss) as Hf. cbv zeta in Hf.
  set (i := sort_Search _ _) in *.
  assert (blen hs < 2 ^ 32) as Hbl. { unfold blen in *. rewrite Hp, length_fmap. done. }
  split; intros Hin.
  - pose proof (proj2 Hf Hin) as Hg. rewrite Hg. cbn [fail_if mbind res_bind].
    apply orb_false_iff in Hg as [Hi Ht]. apply Nat.eqb_neq in Hi.
    apply negb_false_iff, bool_decide_eq_true_1 in Ht.
    assert (i <= length hs)%nat as Hle.
    { apply sort_Search_spec. intros x y Hxy Hy. by apply ltb_mono. }
    assert (0 <= Z.of_nat i < blen hs) as Hib by (unfold blen; lia).
    eexists. split; [by apply BuildProof_eq|].
    rewrite <-Ht at 1. rewrite <-(Nat2Z.id i) at 1.
    apply BuildProof_Verify; [done|]. by apply BuildProof_eq.
  - destruct (_ || _) eqn:E; [done|]. exfalso. apply Hin, Hf, eq_refl.
Qed.

Lemma CommitmentProof_spec cs root c :
  blen cs < 2 ^ 32 -> CommitmentRoot cs = Ok root -> c ∈ cs ->
  exists p, CommitmentProof cs (ShardID c) = Ok (c, p) /\ Verify root (Commitment_Hash c) p = true.
Proof.
  intros Hn Hr Hc. unfold CommitmentRoot, CommitmentProof in *. res_inv. rename a into s, H0 into Hs.
  rewrite Hs. cbn [mbind res_bind]. apply sortedCommitments_Ok in Hs as (Hp & Hnd & _).
  rewrite <-Hp in Hc. destruct (list_find_elem_of (fun d => ShardID d = ShardID c) s c Hc eq_refl) as [[i d] Hf].
  rewrite Hf. apply list_find_Some in Hf as (Hi & Heq & _).
  assert (d = c) as ->.
  { apply list_elem_of_lookup in Hc as [j Hj].
    assert (i = j) as ->.
    { apply (NoDup_lookup (ShardID <$> s) i j (ShardID c)); [done| |];
        rewrite list_lookup_fmap; [by rewrite Hi, <-Heq|by rewrite Hj]. }
    congruence. }
  set (hs := Commitment_Hash <$> s).
  assert (hs !! i = Some (Commitment_Hash c)) as Hh by (unfold hs; by rewrite list_lookup_fmap, Hi).
  assert (blen hs < 2 ^ 32) as Hbl. { unfold blen, hs in *. rewrite length_fmap, Hp. done. }
  assert (0 <= Z.of_nat i < blen hs) as Hib. { apply lookup_lt_Some in Hh. unfold blen. lia. }
  rewrite (BuildProof_eq hs _ Hib Hbl). cbn [mbind res_bind]. eexists. split; [reflexivity|].
  assert (Commitment_Hash c = nth (Z.to_nat (Z.of_nat i)) hs []) as ->.
  { by rewrite Nat2Z.id, nth_lookup, Hh. }
  apply BuildProof_Verify; [done|]. by apply BuildProof_eq.
Qed.

(** The SHA-256 inputs of the two Merkle roots a finalised receipt rests on. *)
Definition commitment_root_inputs (cs : list Commitment) : list bytes :=
  root_inputs (str "shard-commitment") (Commitment_CanonicalBytes <$> sort_by ShardID cs).
Definition receipt_root_inputs (b : ReceiptBatch) : list bytes :=
  root_inputs (str "cross-shard-receipt") (receipt_payload <$> sort_by receipt_leaf b).

Lemma Verify_commitment cs root c p :
  blen cs <= 2 ^ 62 -> CommitmentRoot cs = Ok root -> Commitment_typed c -> Forall Commitment_typed cs ->
  Verify root (Commitment_Hash c) p = true ->
  c ∈ cs \/ inputs_collide (verify_inputs (str "shard-commitment") (Commitment_CanonicalBytes c) p)
              (commitment_root_inputs cs).
Proof.
  intros Hn Hr Ht Hts Hv. unfold CommitmentRoot in Hr. res_inv. rename a into s, H0 into Hs.
  apply sortedCommitments_Ok in Hs as (Hp & _ & Hs). unfold commitment_root_inputs. rewrite <-Hs.
  assert (Commitment_Hash <$> s = Leaf (str "shard-commitment") <$> (Commitment_CanonicalBytes <$> s)) as Hl.
  { rewrite <-list_fmap_compose. done. }
  rewrite Hl in Hv. apply Verify_payload in Hv as [Hin|Hc]; [|by right|].
  - left. apply list_elem_of_fmap in Hin as (c' & Heq & Hin). rewrite Hp in Hin.
    rewrite Forall_forall in Hts. by rewrite (Commitment_CanonicalBytes_inj c c' Ht (Hts c' Hin) Heq).
  - unfold blen in *. by rewrite length_fmap, Hp.
Qed.

Lemma Verify_receipt b root r p :
  blen b <= 2 ^ 62 -> ReceiptBatch_Root b = Ok root -> Receipt_ok r -> Forall Receipt_typed b ->
  Verify root (receipt_leaf r) p = true ->
  r ∈ b \/ inputs_collide (verify_inputs (str "cross-shard-receipt") (receipt_payload r) p)
             (receipt_root_inputs b).
Proof.
  intros Hn Hr Hok Hts Hv. unfold ReceiptBatch_Root in Hr. res_inv. rename a into hs, H0 into Hs.
  pose proof (sortedHashes_leaves b hs Hs) as Hl. apply sortedHashes_Ok in Hs as (_ & _ & _ & Hvs).
  rewrite <-Hl in Hv.
  assert (receipt_leaf <$> sort_by receipt_leaf b
    = Leaf (str "cross-shard-receipt") <$> (receipt_payload <$> sort_by receipt_leaf b)) as Hll.
  { by rewrite <-list_fmap_compose. }
  rewrite Hll in Hv. apply Verify_payload in Hv as [Hin|Hc]; [|by right|].
  - left. apply list_elem_of_fmap in Hin as (r' & Heq & Hin). rewrite elem_of_sort_by in Hin.
    rewrite Forall_forall in Hts, Hvs.
    by rewrite (receipt_payload_inj r r' Hok (conj (Hts r' Hin) (Hvs r' Hin)) Heq).
  - unfold blen in *. rewrite length_fmap, sort_by_perm. done.
Qed.

Lemma VerifyFinalizedReceipt_Ok header c cp r rp :
  VerifyFinalizedReceipt header c cp r rp = Ok tt ->
  Receipt_Validate r = Ok tt /\ ShardID c = SourceShard r /\ h_Height header = SourceHeight r /\
  Verify (h_ShardCommitmentRoot header) (Commitment_Hash c) cp = true /\
  Verify (ReceiptRoot c) (receipt_leaf r) rp = true.
Proof.
  unfold VerifyFinalizedReceipt. intros Hok. res_inv.
  match goal with Hh : Receipt_Hash _ = Ok _ |- _ => apply Receipt_Hash_Ok in Hh as [? ->] end.
  split_and!; [done|lia|lia| |].
  - by apply negb_false_iff.
  - by apply negb_false_iff.
Qed.

(** ** Properties *)

(** the global commitment to the shards does not depend on the order in
    which the shard commitments arrive: any permutation gives the same root, or
    is rejected alike. *)
Theorem CommitmentRoot_order_independent (cs cs' : list Commitment) :
  cs ≡ₚ cs' -> CommitmentRoot cs = CommitmentRoot cs'.
Proof. intros Hp. unfold CommitmentRoot. by rewrite (sortedCommitments_proper cs cs' Hp). Qed.

(** Honest cross-shard messages go through.  For a header that commits to
    [cs], and a shard whose receipt root is that of a batch, the proofs built by
    [CommitmentProof] and [ReceiptBatch.Proof] exist and
    [VerifyFinalizedReceipt] accepts every receipt of the batch. *)
Theorem finalized_receipt_complete (header : GlobalHeader) (cs : list Commitment) (c : Commitment)
    (b : ReceiptBatch) (r : CrossShardReceipt) :
  blen cs < 2 ^ 32 -> blen b < 2 ^ 32 ->
  CommitmentRoot cs = Ok (h_ShardCommitmentRoot header) -> c ∈ cs ->
  ReceiptBatch_Root b = Ok (ReceiptRoot c) -> r ∈ b ->
  SourceShard r = ShardID c -> SourceHeight r = h_Height header ->
  exists cp rp, CommitmentProof cs (SourceShard r) = Ok (c, cp) /\ ReceiptBatch_Proof b r = Ok rp /\
    VerifyFinalizedReceipt header c cp r rp = Ok tt.
Proof.
  intros Hcs Hb Hroot Hc Hbr Hr Hs Hh.
  assert (Receipt_Validate r = Ok tt) as Hv.
  { unfold ReceiptBatch_Root in Hbr. apply bind_Ok in Hbr as (hs & Hbr & _).
    apply sortedHashes_Ok in Hbr as (_ & _ & _ & Hv). rewrite Forall_forall in Hv. by apply Hv. }
  destruct (CommitmentProof_spec cs _ c Hcs Hroot Hc) as (cp & Hcp & Hcv).
  destruct (proj1 (ReceiptBatch_Proof_spec b r _ Hb Hbr Hv)) as (rp & Hrp & Hrv).
  { by apply list_elem_of_fmap_2. }
  exists cp, rp. rewrite Hs. split; [done|]. split; [done|].
  unfold VerifyFinalizedReceipt. rewrite Hv. cbn [mbind res_bind].
  rewrite Hs, Hh, !Z.eqb_refl. cbn [negb orb fail_if mbind res_bind]. rewrite Hcv. cbn [negb fail_if mbind res_bind].
  rewrite (proj2 (Receipt_Hash_Ok r _) (conj Hv eq_refl)). cbn [mbind res_bind]. by rewrite Hrv.
Qed.

(** C15: a destination shard never trusts a source shard by assertion.  If
    [VerifyFinalizedReceipt] accepts, whatever indices and leaf counts the two
    proofs claim, then the commitment is the one the header finalised for the
    source shard and the receipt is in the batch committed by it, or SHA-256
    gives one hash to two different inputs, one hashed by the verification and
    one hashed to build the finalised roots. *)
Theorem finalized_receipt_sound (header : GlobalHeader) (cs : list Commitment) (c c0 : Commitment)
    (cp : Proof) (b : ReceiptBatch) (r : CrossShardReceipt) (rp : Proof) :
  blen cs <= 2 ^ 62 -> blen b <= 2 ^ 62 ->
  Forall Commitment_typed cs -> Commitment_typed c -> Forall Receipt_typed b -> Receipt_typed r ->
  CommitmentRoot cs = Ok (h_ShardCommitmentRoot header) ->
  c0 ∈ cs -> ShardID c0 = SourceShard r -> ReceiptBatch_Root b = Ok (ReceiptRoot c0) ->
  VerifyFinalizedReceipt header c cp r rp = Ok tt ->
  (c = c0 /\ r ∈ b /\ SourceHeight r = h_Height header) \/
  inputs_collide (verify_inputs (str "shard-commitment") (Commitment_CanonicalBytes c) cp)
    (commitment_root_inputs cs) \/
  inputs_collide (verify_inputs (str "cross-shard-receipt") (receipt_payload r) rp)
    (receipt_root_inputs b).
Proof.
  intros Hcs Hb Htcs Htc Htb Htr Hroot Hc0 Hid Hbr (Hv & Hs & Hh & Hcv & Hrv)%VerifyFinalizedReceipt_Ok.
  destruct (Verify_commitment cs _ c cp Hcs Hroot Htc Htcs Hcv) as [Hc|Hcol]; [|by right; left].
  assert (c = c0) as ->.
  { unfold CommitmentRoot in Hroot. apply bind_Ok in Hroot as (s & Hsc & _).
    apply sortedCommitments_Ok in Hsc as (Hp & Hnd & _). rewrite Hp in Hnd.
    apply list_elem_of_lookup in Hc as [i Hi]. apply list_elem_of_lookup in Hc0 as [j Hj].
    assert (i = j) as ->; [|congruence].
    apply (NoDup_lookup (ShardID <$> cs) i j (ShardID c)); [done|by rewrite list_lookup_fmap, Hi|].
    rewrite list_lookup_fmap, Hj. cbn. congruence. }
  destruct (Verify_receipt b _ r rp Hb Hbr (conj Htr Hv) Htb Hrv) as [Hin|Hcol]; [|by right; right].
  left. done.
Qed.

(** Successful calls of [Consume], one after the other. *)
Inductive tracker_steps : ReceiptTracker -> ReceiptTracker -> Prop :=
| tracker_refl t : tracker_steps t t
| tracker_step t t1 t2 ds h c cp r rp :
    Consume t ds h c cp r rp = Ok t1 -> tracker_steps t1 t2 -> tracker_steps t t2.

Lemma Consume_Ok t ds h c cp r rp t' :
  Consume t ds h c cp r rp = Ok t' ->
  Receipt_Validate r = Ok tt /\ DestinationShard r = ds /\ VerifyFinalizedReceipt h c cp r rp = Ok tt /\
  t !! receipt_leaf r = None /\ t' = <[receipt_leaf r := h_Height h]> t.
Proof.
  unfold Consume. intros Hc. apply bind_Ok in Hc as (u & Hd%fail_if_Ok & Hc).
  apply bind_Ok in Hc as ([] & Hv & Hc). pose proof Hv as (Hval & _)%VerifyFinalizedReceipt_Ok.
  rewrite (proj2 (Receipt_Hash_Ok r _) (conj Hval eq_refl)) in Hc.
  destruct (t !! receipt_leaf r) eqn:E; [done|]. injection Hc as <-. split_and!; [done|lia|done|done|done].
Qed.

Lemma Consumed_eq t r :
  Receipt_Validate r = Ok tt -> Consumed t r = bool_decide (is_Some (t !! receipt_leaf r)).
Proof. intros Hv. unfold Consumed. by rewrite (proj2 (Receipt_Hash_Ok r _) (conj Hv eq_refl)). Qed.

Lemma tracker_steps_mono t t' h : tracker_steps t t' -> is_Some (t !! h) -> is_Some (t' !! h).
Proof.
  induction 1 as [|t t1 t2 ds hd c cp r rp Hc _ IH]; [done|]. intros Hs. apply IH.
  apply Consume_Ok in Hc as (_ & _ & _ & _ & ->).
  destruct (decide (h = receipt_leaf r)) as [->|Hne]; [rewrite lookup_insert_eq; eauto|].
  rewrite lookup_insert_ne by congruence. exact Hs.
Qed.

(** The tracker accepts a finalised receipt once.  A successful [Consume]
    verified the receipt for its destination shard, found it unconsumed and
    marks exactly that receipt; after any further history of the tracker it is
    still marked and every other attempt to consume it fails. *)
Theorem receipt_consumed_once (t t1 t2 : ReceiptTracker) (ds : Z) (h : GlobalHeader) (c : Commitment)
    (cp : Proof) (r : CrossShardReceipt) (rp : Proof) :
  Consume t ds h c cp r rp = Ok t1 -> tracker_steps t1 t2 ->
  DestinationShard r = ds /\ VerifyFinalizedReceipt h c cp r rp = Ok tt /\
  Consumed t r = false /\ Consumed t2 r = true /\
  (forall k, k <> receipt_leaf r -> t1 !! k = t !! k) /\
  (forall ds' h' c' cp' rp', is_ok (Consume t2 ds' h' c' cp' r rp') = false).
Proof.
  intros Hc Hs. apply Consume_Ok in Hc as (Hv & Hd & Hf & Hn & ->).
  assert (is_Some (t2 !! receipt_leaf r)) as Hin.
  { eapply tracker_steps_mono; [exact Hs|]. rewrite lookup_insert_eq. eauto. }
  rewrite (Consumed_eq t), (Consumed_eq t2), Hn by done. rewrite (bool_decide_true _ Hin).
  rewrite bool_decide_false by (by intros []).
  split_and!; try done; [intros k Hk; by rewrite lookup_insert_ne by congruence|].
  intros ds' h' c' cp' rp'. destruct (Consume t2 ds' h' c' cp' r rp') as [t3|] eqn:E; [|done].
  apply Consume_Ok in E as (_ & _ & _ & Hno & _). rewrite Hno in Hin. by destruct Hin.
Qed.
End batches.

(** The wire format of cross-shard receipts is canonical: the parser
    accepts exactly the canonical bytes of the valid receipts in range. *)
Theorem ParseCrossShardReceipt_canonical (d : bytes) (r : CrossShardReceipt) :
  ParseCrossShardReceipt d = Ok r <-> Receipt_ok r /\ Receipt_CanonicalBytes r = Ok d.
Proof.
  split; [apply ParseCrossShardReceipt_Ok|]. intros [Hok Hb].
  unfold Receipt_CanonicalBytes in Hb. rewrite (proj2 Hok) in Hb. cbn in Hb. injection Hb as <-.
  exact (ParseCrossShardReceipt_CanonicalBytes r Hok).
Qed.

(** The wire format of global headers is canonical: exactly the encodings
    of version-2 headers of positive height with a network, shard root and
    validator root parse, so a header hash determines the header. *)
Theorem ParseGlobalHeader_canonical (d : bytes) (h : GlobalHeader) :
  ParseGlobalHeader d = Ok h <-> GlobalHeader_ok h /\ GlobalHeader_CanonicalBytes h = d.
Proof.
  split; [apply ParseGlobalHeader_Ok|]. intros [Hok <-]. exact (ParseGlobalHeader_CanonicalBytes h Hok).
Qed.

(** ** A concrete message from shard 1 to shard 2 *)

Definition sample_receipt : CrossShardReceipt :=
  mkReceipt 1 2 7 (be 32 5) 0 (mkOutputSpec (be 32 9) KindCoin (Coin_MarshalBinary (mkCoin (be 32 1) 10 0))) (be 32 6).
Definition sample_batch : ReceiptBatch := [sample_receipt].
Definition sample_commitment : Commitment :=
  mkCommitment 1 (be 32 6) (ok_or [] (ReceiptBatch_Root (H:=small_crypto) sample_batch)) zero32.
Definition sample_commitments : list Commitment := [mkCommitment 2 (be 32 8) zero32 zero32; sample_commitment].
Definition sample_header : GlobalHeader :=
  mkGlobalHeader 2 (be 32 3) 7 zero32 (ok_or [] (CommitmentRoot (H:=small_crypto) sample_commitments))
    (be 32 4) zero32 zero32 zero32.
Definition sample_cp : Proof :=
  snd (ok_or (sample_commitment, mkProof 0 0 []) (CommitmentProof (H:=small_crypto) sample_commitments 1)).
Definition sample_rp : Proof :=
  ok_or (mkProof 0 0 []) (ReceiptBatch_Proof (H:=small_crypto) sample_batch sample_receipt).

Lemma CommitmentRoot_order_independent_witness :
  CommitmentRoot (H:=small_crypto) sample_commitments = CommitmentRoot (H:=small_crypto) (rev sample_commitments).
Proof. apply (CommitmentRoot_order_independent (H:=small_crypto)). apply perm_swap. Defined.

Lemma finalized_receipt_complete_witness :
  exists cp rp, CommitmentProof (H:=small_crypto) sample_commitments 1 = Ok (sample_commitment, cp) /\
    ReceiptBatch_Proof (H:=small_crypto) sample_batch sample_receipt = Ok rp /\
    VerifyFinalizedReceipt (H:=small_crypto) sample_header sample_commitment cp sample_receipt rp = Ok tt.
Proof.
  refine (finalized_receipt_complete (H:=small_crypto) sample_header sample_commitments sample_commitment
    sample_batch sample_receipt _ _ _ _ _ _ _ _).
  - vm_compute. reflexivity.
  - vm_compute. reflexivity.
  - vm_compute. reflexivity.
  - right. left.
  - vm_compute. reflexivity.
  - left.
  - reflexivity.
  - reflexivity.
Defined.

Lemma sample_typed :
  Forall Commitment_typed sample_commitments /\ Commitment_typed sample_commitment /\
  Forall Receipt_typed sample_batch /\ Receipt_typed sample_receipt.
Proof.
  unfold sample_commitments, sample_batch.
  repeat (constructor || split); vm_compute; first [reflexivity|discriminate].
Qed.

Lemma finalized_receipt_sound_witness :
  (sample_commitment = sample_commitment /\ sample_receipt ∈ sample_batch /\ 7 = h_Height sample_header) \/
  inputs_collide (H:=small_crypto)
    (verify_inputs (H:=small_crypto) (str "shard-commitment") (Commitment_CanonicalBytes sample_commitment) sample_cp)
    (commitment_root_inputs (H:=small_crypto) sample_commitments) \/
  inputs_collide (H:=small_crypto)
    (verify_inputs (H:=small_crypto) (str "cross-shard-receipt") (receipt_payload sample_receipt) sample_rp)
    (receipt_root_inputs (H:=small_crypto) sample_batch).
Proof.
  refine (finalized_receipt_sound (H:=small_crypto) sample_header sample_commitments sample_commitment
    sample_commitment sample_cp sample_batch sample_receipt sample_rp _ _ _ _ _ _ _ _ _ _ _).
  - vm_compute. discriminate.
  - vm_compute. discriminate.
  - apply sample_typed.
  - apply sample_typed.
  - apply sample_typed.
  - apply sample_typed.
  - vm_compute. reflexivity.
  - right. left.
  - reflexivity.
  - vm_compute. reflexivity.
  - vm_compute. reflexivity.
Defined.

Lemma sample_Consume_ok :
  is_ok (Consume (H:=small_crypto) NewReceiptTracker 2 sample_header sample_commitment sample_cp
    sample_receipt sample_rp) = true.
Proof. vm_compute. reflexivity. Qed.

Lemma receipt_consumed_once_witness :
  exists t1, Consume (H:=small_crypto) NewReceiptTracker 2 sample_header sample_commitment sample_cp
      sample_receipt sample_rp = Ok t1 /\ Consumed (H:=small_crypto) t1 sample_receipt = true.
Proof.
  destruct (is_ok_true _ sample_Consume_ok) as [t1 E]. exists t1. split; [exact E|].
  exact (proj1 (proj2 (proj2 (proj2 (receipt_consumed_once (H:=small_crypto) NewReceiptTracker t1 t1 2 sample_header
    sample_commitment sample_cp sample_receipt sample_rp E (@tracker_refl small_crypto t1)))))).
Defined.
