(* ===== verification/Tx.v ===== *)
(** * Tx

    Package [internal/v2/tx]: proof-carrying transactions, their canonical wire
    form, static validation with the low-S P-256 signature rule, and the state
    witnesses.  Signing itself uses randomness and a private key; its
    deterministic parts ([normalizeLowS], [pad32]) are modelled, the ECDSA
    computation belongs to the Go library. *)

From S2P Require Import Prelude GoLib Codec Crypto Types Object Smt.

Open Scope Z_scope.

Definition TxVersion : Z := 2.

Definition OpTransfer : Z := 1.
Definition OpCreateToken : Z := 2.
Definition OpDeployContract : Z := 3.
Definition OpContractCall : Z := 4.
Definition OpComputeOffer : Z := 5.
Definition OpComputeJob : Z := 6.
Definition OpComputeResult : Z := 7.
Definition OpComputeAccept : Z := 8.
Definition OpComputeIngestAssignment : Z := 9.
Definition OpComputeIngestResult : Z := 10.
Definition OpComputeFinalize : Z := 11.
Definition OpComputeResolveReplicated : Z := 12.
Definition OpComputeExpire : Z := 13.
Definition OpLoanOffer : Z := 16.
Definition OpLoanCancel : Z := 17.
Definition OpLoanAccept : Z := 18.
Definition OpLoanRepay : Z := 19.
Definition OpLoanDefault : Z := 20.
Definition OpDeviceCredentialRegister : Z := 21.
Definition OpDeviceCredentialUpdate : Z := 22.
Definition OpDeviceCredentialRevoke : Z := 23.
Definition OpCrossLoanOffer : Z := 24.
Definition OpCrossLoanAccept : Z := 25.
Definition OpCrossLoanRepay : Z := 26.
Definition OpCrossLoanSettle : Z := 27.
Definition OpCrossLoanDefault : Z := 28.
Definition OpCrossLoanExpire : Z := 29.

Definition MaxInputs : Z := 4096.
Definition MaxOutputs : Z := 4096.
Definition MaxOperations : Z := 64.
Definition MaxOpPayload : Z := Z.shiftl 4 20.
Definition MaxWireBytes : Z := Z.shiftl 32 20.
Definition MaxIntentBytes : Z := Z.shiftl 24 20.

Record InputRef := mkInputRef {
  in_ObjectID : bytes;
  in_Version : Z;
  in_ObjectHash : bytes;
}.

Record Operation := mkOperation { op_Kind : Z; op_Payload : bytes }.

Record Witness := mkWitness { w_Object : Object; w_Proof : Smt.Proof }.

Record Transaction := mkTransaction {
  t_Version : Z;
  t_Network : bytes;
  t_ShardID : Z;
  t_Sender : bytes;
  t_SenderPublicKey : bytes;
  t_StateRoot : bytes;
  t_Inputs : list InputRef;
  t_Outputs : list OutputSpec;
  t_Operations : list Operation;
  t_Fee : Z;
  t_ValidUntilHeight : Z;
  t_Salt : bytes;
  t_Signature : bytes;
  t_Witnesses : list Witness;
}.

(** The intent: everything but the signature and the witnesses. *)
Definition IntentBytes (t : Transaction) : bytes :=
  let w := Writer.new |> Writer.U16 (t_Version t) |> Writer.Fixed (t_Network t) |> Writer.U32 (t_ShardID t)
    |> Writer.Fixed (t_Sender t) |> Writer.Bytes (t_SenderPublicKey t) |> Writer.Fixed (t_StateRoot t)
    |> Writer.U32 (blen (t_Inputs t) mod 2 ^ 32) in
  let w := foldl (fun w i => w |> Writer.Fixed (in_ObjectID i) |> Writer.U64 (in_Version i)
                               |> Writer.Fixed (in_ObjectHash i)) w (t_Inputs t) in
  let w := w |> Writer.U32 (blen (t_Outputs t) mod 2 ^ 32) in
  let w := foldl (fun w out => w |> Writer.Bytes (OutputSpec_CanonicalBytes out)) w (t_Outputs t) in
  let w := w |> Writer.U32 (blen (t_Operations t) mod 2 ^ 32) in
  let w := foldl (fun w op => w |> Writer.U16 (op_Kind op) |> Writer.Bytes (op_Payload op)) w (t_Operations t) in
  Writer.BytesCopy (w |> Writer.U64 (t_Fee t) |> Writer.U64 (t_ValidUntilHeight t) |> Writer.Fixed (t_Salt t)).

Definition zeroSalt : bytes := replicate 16 x00.

(** [new(big.Int).SetBytes] is the big-endian value; the order of P-256. *)
Definition order : Z := P256.N.
Definition half : Z := Z.shiftr order 1.

Definition normalizeLowS (s : Z) : Z := if half <? s then order - s else s.

Definition pad32 (v : Z) : bytes := be 32 v.

(** The loop over the inputs with the set of identifiers seen. *)
Definition check_input (seenInputs : gset bytes) (i : InputRef) : res (gset bytes) :=
  fail_if (IsZero32 (in_ObjectID i) || (in_Version i =? 0) || IsZero32 (in_ObjectHash i)) ErrStructure;;
  fail_if (bool_decide (in_ObjectID i ∈ seenInputs)) ErrStructure;;
  Ok ({[in_ObjectID i]} ∪ seenInputs).

Definition check_output (u : unit) (out : OutputSpec) : res unit := OutputSpec_Validate out <?> ErrStructure.
Definition check_operation (u : unit) (op : Operation) : res unit :=
  fail_if ((op_Kind op =? 0) || (MaxOpPayload <? blen (op_Payload op))) ErrStructure.

Section tx.
Context `{Crypto}.

Definition SigningDigest (t : Transaction) : bytes :=
  DomainHash (str "zephyr/transaction/signing/v2") (IntentBytes t).

Definition tx_ID (t : Transaction) : bytes :=
  DomainHash (str "zephyr/transaction/id/v2") (IntentBytes t).

Definition verifySignature (publicKey : Z * Z) (digest signature : bytes) : res unit :=
  fail_if (negb (blen signature =? 64)) ErrSignature;;
  let r := be_val (firstn 32 signature) in
  let s := be_val (skipn 32 signature) in
  fail_if ((r <=? 0) || (s <=? 0) || (order <=? r) || (order <=? s)) ErrSignature;;
  fail_if (half <? s) ErrCanonicalSig;;
  fail_if (negb (ecdsa_verify publicKey digest r s)) ErrSignature.

Definition ValidateStatic (t : Transaction) : res unit :=
  fail_if (negb (t_Version t =? TxVersion)) ErrVersion;;
  fail_if (IsZero32 (t_Network t) || IsZero32 (t_StateRoot t)) ErrNetwork;;
  fail_if (negb (blen (t_SenderPublicKey t) =? 65)) ErrSender;;
  xy ← some_or (p256_unmarshal (t_SenderPublicKey t)) ErrSender;
  fail_if (negb (bool_decide (AccountIDFromPublicKey (t_SenderPublicKey t) = t_Sender t))) ErrSender;;
  fail_if (bool_decide (t_Salt t = zeroSalt) || (MaxInputs <? blen (t_Inputs t))
           || (MaxOutputs <? blen (t_Outputs t)) || (blen (t_Operations t) =? 0)
           || (MaxOperations <? blen (t_Operations t))) ErrStructure;;
  rfold check_input ∅ (t_Inputs t);;
  rfold check_output tt (t_Outputs t);;
  rfold check_operation tt (t_Operations t);;
  verifySignature xy (SigningDigest t) (t_Signature t).

Definition ValidateAtHeight (t : Transaction) (height : Z) : res unit :=
  ValidateStatic t;;
  fail_if ((0 <? t_ValidUntilHeight t) && (t_ValidUntilHeight t <? height)) ErrExpired.

Definition VerifyForNetwork (t : Transaction) (network : bytes) : res unit :=
  fail_if (negb (bool_decide (t_Network t = network))) ErrNetwork;;
  ValidateStatic t.

Definition verify_witness (t : Transaction) (i : InputRef) (witness : Witness) : res unit :=
  fail_if (negb (bool_decide (ID (w_Object witness) = in_ObjectID i))
           || negb (Version (w_Object witness) =? in_Version i)
           || negb (bool_decide (Object_Hash (w_Object witness) = in_ObjectHash i))) ErrWitness;;
  let hash := Object_Hash (w_Object witness) in
  fail_if (negb (Smt.Verify (t_StateRoot t) (in_ObjectID i) (Some hash) (w_Proof witness))) ErrWitness.

Definition VerifyWitnesses (t : Transaction) : res unit :=
  fail_if (negb (blen (t_Witnesses t) =? blen (t_Inputs t))) ErrWitness;;
  rfold (fun _ iw => verify_witness t iw.1 iw.2) tt (zip (t_Inputs t) (t_Witnesses t)).

Definition Transaction_MarshalBinary (t : Transaction) : res bytes :=
  ValidateStatic t;;
  fail_if (negb (blen (t_Witnesses t) =? blen (t_Inputs t))) ErrWitness;;
  let w := Writer.new |> Writer.Bytes (IntentBytes t) |> Writer.Bytes (t_Signature t)
    |> Writer.U32 (blen (t_Witnesses t) mod 2 ^ 32) in
  let w := foldl (fun w witness => w |> Writer.Bytes (Object_CanonicalBytes (w_Object witness))
                                     |> Writer.Bytes (Smt.MarshalBinary (w_Proof witness))) w (t_Witnesses t) in
  let payload := Writer.BytesCopy w in
  fail_if (MaxWireBytes <? blen payload) ErrWire;;
  Ok payload.
End tx.

Definition read_input : parser InputRef :=
  id ← Rd.Fixed 32 <!> ErrWire;
  version ← Rd.U64 <!> ErrWire;
  h ← Rd.Fixed 32 <!> ErrWire;
  mret (mkInputRef id version h).

Definition read_output : parser OutputSpec :=
  raw ← Rd.Bytes (MaxObjectDataBytes + 64) <!> ErrWire;
  plift (ParseOutputSpec raw <?> ErrWire).

Definition read_operation : parser Operation :=
  kind ← Rd.U16 <!> ErrWire;
  payload ← Rd.Bytes MaxOpPayload <!> ErrWire;
  mret (mkOperation kind payload).

(** The returned transaction has no signature and no witnesses yet. *)
Definition parseIntent (data : bytes) : res Transaction :=
  parse (version ← Rd.U16 <!> ErrWire;
         network ← Rd.Fixed 32 <!> ErrWire;
         shardID ← Rd.U32 <!> ErrWire;
         sender ← Rd.Fixed 32 <!> ErrWire;
         publicKey ← Rd.Bytes 65 <!> ErrWire;
         stateRoot ← Rd.Fixed 32 <!> ErrWire;
         inputCount ← Rd.U32 <!> ErrWire;
         plift (fail_if (MaxInputs <? inputCount) ErrWire);;
         inputs ← prepeat (Z.to_nat inputCount) read_input;
         outputCount ← Rd.U32 <!> ErrWire;
         plift (fail_if (MaxOutputs <? outputCount) ErrWire);;
         outputs ← prepeat (Z.to_nat outputCount) read_output;
         opCount ← Rd.U32 <!> ErrWire;
         plift (fail_if ((opCount =? 0) || (MaxOperations <? opCount)) ErrWire);;
         operations ← prepeat (Z.to_nat opCount) read_operation;
         fee ← Rd.U64 <!> ErrWire;
         validUntil ← Rd.U64 <!> ErrWire;
         salt ← Rd.Fixed 16 <!> ErrWire;
         Rd.Done <!> ErrWire;;
         mret (mkTransaction version network shardID sender publicKey stateRoot inputs outputs operations
                 fee validUntil salt [] [])) data.

Definition read_witness : parser Witness :=
  objectBytes ← Rd.Bytes (MaxObjectDataBytes + 128) <!> ErrWire;
  obj ← plift (ParseObject objectBytes <?> ErrWire);
  proofBytes ← Rd.Bytes (Z.shiftl 16 10) <!> ErrWire;
  proof ← plift (Smt.ParseProof proofBytes <?> ErrWire);
  mret (mkWitness obj proof).

(** [t.Signature = s; t.Witnesses = ws] *)
Definition with_signature (t : Transaction) (s : bytes) (ws : list Witness) : Transaction :=
  mkTransaction (t_Version t) (t_Network t) (t_ShardID t) (t_Sender t) (t_SenderPublicKey t) (t_StateRoot t)
    (t_Inputs t) (t_Outputs t) (t_Operations t) (t_Fee t) (t_ValidUntilHeight t) (t_Salt t) s ws.

Definition ParseTransaction `{Crypto} (data : bytes) : res Transaction :=
  fail_if ((blen data =? 0) || (MaxWireBytes <? blen data)) ErrWire;;
  parse (intent ← Rd.Bytes MaxIntentBytes <!> ErrWire;
         t ← plift (parseIntent intent);
         signature ← Rd.Bytes 64 <!> ErrWire;
         plift (fail_if (negb (blen signature =? 64)) ErrWire);;
         count ← Rd.U32 <!> ErrWitness;
         plift (fail_if ((MaxInputs <? count) || negb (count =? blen (t_Inputs t))) ErrWitness);;
         witnesses ← prepeat (Z.to_nat count) read_witness;
         Rd.Done <!> ErrWire;;
         let t := with_signature t signature witnesses in
         plift (ValidateStatic t);;
         mret t) data.
