(* ===== verification/TxProofs.v ===== *)
(** * TxProofs

    The transaction wire form is canonical, a signature has a single accepted
    form, and verified witnesses show the objects the state root commits to. *)

From S2P Require Import Prelude GoLib Codec Crypto Types Object Smt SmtProofs SmtTheorems Tx.

Open Scope Z_scope.

(** ** Encodings of the parts *)

Definition enc_input (i : InputRef) : bytes := in_ObjectID i ++ be 8 (in_Version i) ++ in_ObjectHash i.
Definition enc_output (o : OutputSpec) : bytes := enc_bytes (OutputSpec_CanonicalBytes o).
Definition enc_operation (op : Operation) : bytes := be 2 (op_Kind op) ++ enc_bytes (op_Payload op).
Definition enc_witness (w : Witness) : bytes :=
  enc_bytes (Object_CanonicalBytes (w_Object w)) ++ enc_bytes (Smt.MarshalBinary (w_Proof w)).

Definition InputRef_typed (i : InputRef) : Prop :=
  arr32 (in_ObjectID i) /\ u64 (in_Version i) /\ arr32 (in_ObjectHash i).
Definition Operation_ok (op : Operation) : Prop := u16 (op_Kind op) /\ blen (op_Payload op) <= MaxOpPayload.
Definition Witness_ok (w : Witness) : Prop := Object_ok (w_Object w) /\ SmtProof_ok (w_Proof w).

Lemma IntentBytes_eq t :
  IntentBytes t =
  be 2 (t_Version t) ++ t_Network t ++ be 4 (t_ShardID t) ++ t_Sender t ++ enc_bytes (t_SenderPublicKey t)
  ++ t_StateRoot t ++ be 4 (blen (t_Inputs t)) ++ concat (enc_input <$> t_Inputs t)
  ++ be 4 (blen (t_Outputs t)) ++ concat (enc_output <$> t_Outputs t)
  ++ be 4 (blen (t_Operations t)) ++ concat (enc_operation <$> t_Operations t)
  ++ be 8 (t_Fee t) ++ be 8 (t_ValidUntilHeight t) ++ t_Salt t.
Proof.
  unfold IntentBytes. cbv zeta.
  rewrite (writer_loop _ enc_operation) by (intros; by writer_norm).
  rewrite (writer_loop _ enc_output) by (intros; by writer_norm).
  rewrite (writer_loop _ enc_input) by (intros; by writer_norm).
  writer_norm. by rewrite !be4_mod.
Qed.

Lemma read_input_Ok r i r' : read_input r = Ok (i, r') -> rest r = enc_input i ++ rest r' /\ InputRef_typed i.
Proof.
  unfold read_input. intros H. parse_inv. unfold InputRef_typed, enc_input. rewrite !blen32.
  cbn [in_ObjectID in_Version in_ObjectHash]. split; [|done]. rewrite <-!app_assoc. by rest_rw.
Qed.

Lemma reads_input post i : InputRef_typed i -> reads post read_input (enc_input i) i.
Proof.
  intros (H1 & H2 & H3). unfold read_input, enc_input. rewrite blen32 in *. destruct i. solve_reads; done.
Qed.

Lemma read_output_Ok r o r' : read_output r = Ok (o, r') -> rest r = enc_output o ++ rest r' /\ OutputSpec_ok o.
Proof.
  unfold read_output. intros H. parse_inv.
  match goal with H : ParseOutputSpec _ = Ok _ |- _ => apply ParseOutputSpec_Ok in H as [? <-] end. done.
Qed.

Lemma reads_output post o : OutputSpec_ok o -> reads post read_output (enc_output o) o.
Proof.
  intros Ho. pose proof (OutputSpec_CanonicalBytes_length o Ho).
  unfold read_output, enc_output. solve_reads; try done.
  by rewrite ParseOutputSpec_CanonicalBytes.
Qed.

Lemma read_operation_Ok r o r' :
  read_operation r = Ok (o, r') -> rest r = enc_operation o ++ rest r' /\ Operation_ok o.
Proof.
  unfold read_operation. intros H. parse_inv. unfold Operation_ok, enc_operation. cbn [op_Kind op_Payload].
  split; [|done]. rewrite <-!app_assoc. by rest_rw.
Qed.

Lemma reads_operation post o : Operation_ok o -> reads post read_operation (enc_operation o) o.
Proof. intros (H1 & H2). unfold read_operation, enc_operation. destruct o. solve_reads; done. Qed.

Lemma read_witness_Ok r w r' : read_witness r = Ok (w, r') -> rest r = enc_witness w ++ rest r' /\ Witness_ok w.
Proof.
  unfold read_witness. intros H. parse_inv.
  match goal with H : ParseObject _ = Ok _ |- _ => apply ParseObject_Ok in H as [? <-] end.
  match goal with H : Smt.ParseProof _ = Ok _ |- _ => apply smt_ParseProof_Ok in H as [? <-] end.
  unfold enc_witness. cbn [w_Object w_Proof]. split; [|done]. rewrite <-!app_assoc. by rest_rw.
Qed.

Lemma Object_CanonicalBytes_length o :
  Object_ok o -> blen (Object_CanonicalBytes o) <= MaxObjectDataBytes + 128.
Proof.
  intros [(Hi & _ & Ho & _) Hv%Object_Validate_data]. unfold Object_CanonicalBytes. writer_norm.
  unfold enc_bytes, blen, arr in *. rewrite !length_app, !length_be, Ho, Hi. lia.
Qed.

Lemma SmtProof_length p : SmtProof_ok p -> blen (Smt.MarshalBinary p) <= Z.shiftl 16 10.
Proof.
  intros (Hb & Hs & Hall & _). rewrite smt_MarshalBinary_eq. unfold blen, arr in *.
  rewrite !length_app, length_be, Hb.
  assert (length (concat (Siblings p)) = (32 * length (Siblings p))%nat) as ->.
  { clear -Hall. induction Hall as [|x l Hx _ IH]; [done|]. cbn [concat length]. rewrite length_app, IH, Hx. lia. }
  change (Z.shiftl 16 10) with 16384. unfold enc_bool. destruct (Exists p); cbn [length]; lia.
Qed.

Lemma reads_witness post w : Witness_ok w -> reads post read_witness (enc_witness w) w.
Proof.
  intros (Ho & Hp). pose proof (Object_CanonicalBytes_length _ Ho). pose proof (SmtProof_length _ Hp).
  unfold read_witness, enc_witness. destruct w as [o p]; cbn [w_Object w_Proof] in *.
  solve_reads; try done.
  - by rewrite ParseObject_CanonicalBytes.
  - by rewrite smt_ParseProof_Marshal.
Qed.

(** The ranges of the Go types. *)
Definition Intent_typed (t : Transaction) : Prop :=
  u16 (t_Version t) /\ arr32 (t_Network t) /\ u32 (t_ShardID t) /\ arr32 (t_Sender t) /\
  arr32 (t_StateRoot t) /\ Forall InputRef_typed (t_Inputs t) /\ Forall OutputSpec_typed (t_Outputs t) /\
  Forall (fun op => u16 (op_Kind op)) (t_Operations t) /\
  u64 (t_Fee t) /\ u64 (t_ValidUntilHeight t) /\ arr 16 (t_Salt t).

(** The bounds the intent parser enforces. *)
Definition Intent_bounded (t : Transaction) : Prop :=
  blen (t_SenderPublicKey t) <= 65 /\ blen (t_Inputs t) <= MaxInputs /\ blen (t_Outputs t) <= MaxOutputs /\
  Forall (fun o => OutputSpec_Validate o = Ok tt) (t_Outputs t) /\
  0 < blen (t_Operations t) <= MaxOperations /\
  Forall (fun op => blen (op_Payload op) <= MaxOpPayload) (t_Operations t).

Lemma blen_arr n x : arr n x <-> blen x = Z.of_nat n.
Proof. unfold arr, blen. lia. Qed.

Lemma parseIntent_Ok b t :
  parseIntent b = Ok t ->
  Intent_typed t /\ Intent_bounded t /\ IntentBytes t = b /\ t = with_signature t [] [].
Proof.
  unfold parseIntent. intros H. parse_inv.
  repeat match goal with
  | H : prepeat _ read_input _ = Ok _ |- _ => apply (prepeat_Ok _ _ _ _ read_input_Ok) in H as (? & ? & ?)
  | H : prepeat _ read_output _ = Ok _ |- _ => apply (prepeat_Ok _ _ _ _ read_output_Ok) in H as (? & ? & ?)
  | H : prepeat _ read_operation _ = Ok _ |- _ => apply (prepeat_Ok _ _ _ _ read_operation_Ok) in H as (? & ? & ?)
  end.
  unfold u32 in *.
  repeat match goal with H : length ?l = Z.to_nat ?n |- _ => apply blen_count in H; [|lia] end.
  split; [|split; [|split; [|done]]].
  - unfold Intent_typed. rewrite !blen_arr.
    cbn [t_Version t_Network t_ShardID t_Sender t_StateRoot t_Inputs t_Outputs t_Operations t_Fee t_ValidUntilHeight t_Salt].
    split_and!; try done.
    + eapply Forall_impl; [done|]. by intros ? [? _].
    + eapply Forall_impl; [done|]. by intros ? [? _].
  - unfold Intent_bounded.
    cbn [t_SenderPublicKey t_Inputs t_Outputs t_Operations]. split_and!; try done; try lia.
    + eapply Forall_impl; [done|]. by intros ? [_ ?].
    + eapply Forall_impl; [done|]. by intros ? [_ ?].
  - rewrite IntentBytes_eq.
    cbn [t_Version t_Network t_ShardID t_Sender t_SenderPublicKey t_StateRoot t_Inputs t_Outputs t_Operations
      t_Fee t_ValidUntilHeight t_Salt].
    repeat match goal with H : blen _ = ?n |- _ => rewrite H; clear H end. rest_rw. by rewrite app_nil_r.
Qed.

Lemma parseIntent_IntentBytes t :
  Intent_typed t -> Intent_bounded t -> parseIntent (IntentBytes t) = Ok (with_signature t [] []).
Proof.
  intros (Hv & Hn & Hs & Hse & Hr & Hi & Ho & Hop & Hf & Hu & Hsa) (Hpk & Hni & Hno & Hov & Hnop & Hopb).
  assert (Forall OutputSpec_ok (t_Outputs t)) as Hoo.
  { rewrite Forall_forall in *. intros o Hin. split; auto. }
  assert (Forall Operation_ok (t_Operations t)) as Hopo.
  { rewrite Forall_forall in *. intros o Hin. split; auto. }
  rewrite IntentBytes_eq. unfold parseIntent. apply reads_parse. rewrite blen_arr in *.
  unfold MaxInputs, MaxOutputs, MaxOperations in *.
  assert (0 <= blen (t_Inputs t) /\ 0 <= blen (t_Outputs t)) by (unfold blen; lia).
  solve_reads; try done; try (unfold u32; lia).
  - by apply (reads_repeat_count read_input enc_input InputRef_typed); [apply reads_input|].
  - by apply (reads_repeat_count read_output enc_output OutputSpec_ok); [apply reads_output|].
  - by apply (reads_repeat_count read_operation enc_operation Operation_ok); [apply reads_operation|].
Qed.

Section tx.
Context `{Crypto}.

Lemma check_inputs_Ok l seen seen' :
  rfold check_input seen l = Ok seen' ->
  NoDup (in_ObjectID <$> l) /\ Forall (fun i => in_ObjectID i ∉ seen) l /\
  Forall (fun i => IsZero32 (in_ObjectID i) = false /\ in_Version i <> 0) l.
Proof.
  revert seen. induction l as [|i l IH]; intros seen Hf; [split_and!; constructor|].
  cbn [rfold] in Hf. apply bind_Ok in Hf as (s1 & Hi & Hf). unfold check_input in Hi. res_inv.
  match goal with Hb : bool_decide _ = false |- _ => apply bool_decide_eq_false_1 in Hb; rename Hb into Hni end.
  match goal with Hb : _ || _ || _ = false |- _ => apply orb_false_iff in Hb as [[Hz Hvz]%orb_false_iff _] end.
  destruct (IH _ Hf) as (Hnd & Hns & Hok). rewrite Forall_forall in Hns. split_and!.
  - cbn. constructor; [|done]. intros (j & Hj & Hin)%list_elem_of_fmap. apply (Hns j Hin), elem_of_union_l. by apply elem_of_singleton.
  - constructor; [done|]. apply Forall_forall. intros j Hj Hs. by apply (Hns j Hj), elem_of_union_r.
  - constructor; [split; [done|lia]|done].
Qed.

(** What a statically valid transaction satisfies. *)
Lemma ValidateStatic_Ok t :
  ValidateStatic t = Ok tt ->
  Intent_bounded t /\ blen (t_Signature t) = 64 /\ NoDup (in_ObjectID <$> t_Inputs t) /\
  Forall (fun i => IsZero32 (in_ObjectID i) = false /\ in_Version i <> 0) (t_Inputs t) /\
  t_Version t = TxVersion /\ IsZero32 (t_Network t) = false /\ IsZero32 (t_StateRoot t) = false /\
  AccountIDFromPublicKey (t_SenderPublicKey t) = t_Sender t /\
  exists xy, p256_unmarshal (t_SenderPublicKey t) = Some xy /\
    verifySignature xy (SigningDigest t) (t_Signature t) = Ok tt.
Proof.
  unfold ValidateStatic. intros Hv.
  do 6 (apply bind_Ok in Hv as (? & ?%fail_if_Ok & Hv) || apply bind_Ok in Hv as (xy & Hxy%some_or_Ok & Hv)).
  apply bind_Ok in Hv as (seen & Hin%check_inputs_Ok & Hv).
  apply bind_Ok in Hv as (? & Hout%rfold_unit_Forall & Hv).
  apply bind_Ok in Hv as (? & Hop%rfold_unit_Forall & Hv).
  destruct Hin as (Hnd & _ & Hok).
  match goal with Hb : negb (bool_decide _) = false |- _ => apply negb_false_iff, bool_decide_eq_true_1 in Hb end.
  match goal with Hb : IsZero32 (t_Network t) || _ = false |- _ => apply orb_false_iff in Hb as [? ?] end.
  match goal with Hb : _ || (MaxOperations <? _) = false |- _ => rename Hb into Hst end.
  repeat (apply orb_false_iff in Hst as [Hst ?]).
  split_and!; try done; try lia.
  - unfold Intent_bounded. unfold blen at 5. unfold blen in *. split_and!; try lia.
    + eapply Forall_impl; [exact Hout|]. intros o Ho. unfold check_output in Ho. by apply or_err_Ok in Ho.
    + eapply Forall_impl; [exact Hop|]. intros o Ho. apply fail_if_Ok, orb_false_iff in Ho as [_ Ho].
      unfold blen in Ho. lia.
  - unfold verifySignature in Hv. apply bind_Ok in Hv as (? & Hs%fail_if_Ok & _). lia.
  - exists xy. done.
Qed.

Definition Transaction_ok (t : Transaction) : Prop :=
  Intent_typed t /\ Forall Witness_ok (t_Witnesses t) /\ blen (IntentBytes t) <= MaxIntentBytes /\
  ValidateStatic t = Ok tt.

Definition wire_bytes (t : Transaction) : bytes :=
  enc_bytes (IntentBytes t) ++ enc_bytes (t_Signature t) ++ be 4 (blen (t_Witnesses t))
  ++ concat (enc_witness <$> t_Witnesses t).

Lemma Transaction_MarshalBinary_Ok t d :
  Transaction_MarshalBinary t = Ok d <->
  ValidateStatic t = Ok tt /\ blen (t_Witnesses t) = blen (t_Inputs t) /\ d = wire_bytes t /\
  blen (wire_bytes t) <= MaxWireBytes.
Proof.
  unfold Transaction_MarshalBinary. cbv zeta.
  rewrite (writer_loop _ enc_witness) by (intros; by writer_norm).
  assert (forall w, Writer.BytesCopy ((Writer.new |> Writer.Bytes (IntentBytes t) |> Writer.Bytes (t_Signature t)
    |> Writer.U32 (blen (t_Witnesses t) mod 2 ^ 32)) ++ w)
    = enc_bytes (IntentBytes t) ++ enc_bytes (t_Signature t) ++ be 4 (blen (t_Witnesses t)) ++ w) as Hw.
  { intros w. writer_norm. by rewrite be4_mod. }
  rewrite Hw. fold (wire_bytes t). split.
  - intros Hm. apply bind_Ok in Hm as ([] & Hv & Hm). apply bind_Ok in Hm as (? & Hl%fail_if_Ok & Hm).
    apply bind_Ok in Hm as (? & Hs%fail_if_Ok & Hm). injection Hm as <-. split_and!; [done|lia|done|lia].
  - intros (-> & Hl & -> & Hs). cbn [mbind res_bind]. rewrite Hl, Z.eqb_refl. cbn [negb fail_if mbind res_bind].
    assert ((MaxWireBytes <? blen (wire_bytes t)) = false) as -> by lia. done.
Qed.

Lemma ParseTransaction_Ok d t :
  ParseTransaction d = Ok t -> Transaction_ok t /\ Transaction_MarshalBinary t = Ok d.
Proof.
  unfold ParseTransaction. intros Hp. apply bind_Ok in Hp as (? & Hd%fail_if_Ok & Hp). parse_inv.
  match goal with Hi : parseIntent _ = Ok _ |- _ => apply parseIntent_Ok in Hi as (Ht & Hb & Hib & Hts) end.
  match goal with Hr : prepeat _ read_witness _ = Ok _ |- _ =>
    apply (prepeat_Ok _ _ _ _ read_witness_Ok) in Hr as (Hl & Hrest & Hw) end.
  match goal with Hv : ValidateStatic _ = Ok _ |- _ => rename Hv into Hval end.
  match goal with |- Transaction_ok (with_signature ?t0 ?s0 ?w0) /\ _ => set (ti := t0) in *; set (sg := s0) in *; set (ws := w0) in * end.
  unfold u32 in *. apply blen_count in Hl; [|lia].
  assert (IntentBytes (with_signature ti sg ws) = IntentBytes ti) as Hie by done.
  assert (Intent_typed (with_signature ti sg ws)) as Ht' by exact Ht.
  assert (wire_bytes (with_signature ti sg ws) = rest r) as Hwb.
  { unfold wire_bytes. rewrite Hie, Hib. cbn [t_Signature t_Witnesses with_signature]. rewrite Hl.
    rest_rw. by rewrite app_nil_r. }
  split.
  - split_and!; [exact Ht'|exact Hw|rewrite Hie, Hib; lia|exact Hval].
  - apply Transaction_MarshalBinary_Ok. rewrite Hwb. cbn [t_Witnesses t_Inputs with_signature].
    split_and!; [exact Hval|lia|done|lia].
Qed.

Lemma ParseTransaction_MarshalBinary t d :
  Transaction_ok t -> Transaction_MarshalBinary t = Ok d -> ParseTransaction d = Ok t.
Proof.
  intros (Ht & Hw & Hi & Hv) (_ & Hl & -> & Hs)%Transaction_MarshalBinary_Ok.
  pose proof (ValidateStatic_Ok t Hv) as (Hb & Hsig & _).
  unfold ParseTransaction.
  assert ((blen (wire_bytes t) =? 0) || (MaxWireBytes <? blen (wire_bytes t)) = false) as ->.
  { assert (0 < blen (wire_bytes t)); [|lia]. unfold wire_bytes, enc_bytes, blen.
    rewrite !length_app, !length_be. lia. }
  cbn [fail_if mbind res_bind]. apply reads_parse. unfold wire_bytes.
  pose proof Hb as (_ & Hni & _). unfold MaxInputs, MaxIntentBytes in *. change (Z.shiftl 24 20) with 25165824 in *.
  assert (0 <= blen (t_Inputs t)) by (unfold blen; lia).
  solve_reads; try done; try lia.
  - by apply parseIntent_IntentBytes.
  - unfold u32. lia.
  - cbn [t_Inputs with_signature]. lia.
  - by apply (reads_repeat_count read_witness enc_witness Witness_ok); [apply reads_witness|].
  - by destruct t.
  - destruct t. apply reads_ret.
Qed.

(** C39: the transaction wire format is canonical: [ParseTransaction] accepts
    exactly the marshalled forms of the transactions that pass the static
    validation, have fields in the ranges of their types, an intent of at most
    24 MiB and well-formed witnesses (the marshaller itself also emits longer
    intents, which are rejected); so a transaction has one wire form and nobody can
    re-encode it. *)
Theorem ParseTransaction_canonical (d : bytes) (t : Transaction) :
  ParseTransaction d = Ok t <-> Transaction_ok t /\ Transaction_MarshalBinary t = Ok d.
Proof.
  split; [apply ParseTransaction_Ok|]. intros [Hok Hm]. exact (ParseTransaction_MarshalBinary t d Hok Hm).
Qed.

Lemma order_half : order = 2 * half + 1 /\ order < 256 ^ 32.
Proof. split; vm_compute; reflexivity. Qed.

Lemma verifySignature_Ok pk dg sg :
  verifySignature pk dg sg = Ok tt ->
  let r := be_val (firstn 32 sg) in let s := be_val (skipn 32 sg) in
  blen sg = 64 /\ 0 < r < order /\ 0 < s <= half /\ ecdsa_verify pk dg r s = true.
Proof.
  unfold verifySignature. intros Hv. cbv zeta.
  apply bind_Ok in Hv as (? & H1%fail_if_Ok & Hv). apply bind_Ok in Hv as (? & H2%fail_if_Ok & Hv).
  apply bind_Ok in Hv as (? & H3%fail_if_Ok & Hv). apply fail_if_Ok, negb_false_iff in Hv.
  repeat (apply orb_false_iff in H2 as [H2 ?]). split_and!; try lia. done.
Qed.

(** Signatures are not malleable.  If a signature [r || s] is accepted,
    then its twin [r || N - s], which ECDSA verification itself would also
    accept, is rejected as non-canonical; and the normalisation applied when
    signing sends both [s] and [N - s] to the accepted one. *)
Theorem signature_not_malleable (pk : Z * Z) (dg sg : bytes) :
  verifySignature pk dg sg = Ok tt ->
  let s := be_val (skipn 32 sg) in
  verifySignature pk dg (firstn 32 sg ++ pad32 (order - s)) = Err ErrCanonicalSig /\
  normalizeLowS s = s /\ normalizeLowS (order - s) = s.
Proof.
  intros (Hl & Hr & Hs & _)%verifySignature_Ok. cbv zeta. set (s := be_val (skipn 32 sg)) in *.
  destruct order_half as [Ho Hob]. unfold normalizeLowS. split_and!.
  - unfold verifySignature.
    assert (length (firstn 32 sg) = 32%nat) as Hf by (rewrite length_take; unfold blen in Hl; lia).
    assert (blen (firstn 32 sg ++ pad32 (order - s)) = 64) as ->.
    { unfold blen, pad32. rewrite length_app, length_be, Hf. done. }
    cbn [Z.eqb Pos.eqb negb fail_if mbind res_bind].
    rewrite take_app_le, take_ge, drop_app_ge, Hf, Nat.sub_diag, drop_0 by lia.
    unfold pad32. rewrite be_val_small by (change (256 ^ Z.of_nat 32) with (256 ^ 32); lia).
    set (r := be_val (firstn 32 sg)) in *.
    assert ((r <=? 0) || (order - s <=? 0) || (order <=? r) || (order <=? order - s) = false) as -> by lia.
    assert ((half <? order - s) = true) as -> by lia. done.
  - assert ((half <? s) = false) as -> by lia. done.
  - assert ((half <? order - s) = true) as -> by lia. lia.
Qed.

(** An honest witness: the object of the state under the signed reference,
    with the proof the tree builds. *)
Definition honest_witness (tree : Smt.Tree) (i : InputRef) (w : Witness) : Prop :=
  arr32 (in_ObjectID i) /\ ID (w_Object w) = in_ObjectID i /\ Version (w_Object w) = in_Version i /\
  Object_Hash (w_Object w) = in_ObjectHash i /\ Smt.Get tree (in_ObjectID i) = Some (in_ObjectHash i) /\
  w_Proof w = Smt.Prove tree (in_ObjectID i).

Lemma verify_witness_complete t tree i w :
  tree_inv tree -> t_StateRoot t = Smt.Root tree -> honest_witness tree i w -> verify_witness t i w = Ok tt.
Proof.
  intros Ht Hr (Ha & H1 & H2 & H3 & H4 & H5). unfold verify_witness.
  rewrite !bool_decide_true, H2, Z.eqb_refl by done. cbn [negb orb fail_if mbind res_bind].
  rewrite H3, Hr, H5, <-H4, (Prove_Verify tree _ Ha Ht). reflexivity.
Qed.

Lemma VerifyWitnesses_complete t tree :
  tree_reachable tree -> t_StateRoot t = Smt.Root tree ->
  Forall2 (honest_witness tree) (t_Inputs t) (t_Witnesses t) -> VerifyWitnesses t = Ok tt.
Proof.
  intros Ht%reachable_inv Hr Hf. unfold VerifyWitnesses, blen.
  rewrite <-(Forall2_length _ _ _ Hf), Z.eqb_refl. cbn [negb fail_if mbind res_bind].
  induction Hf as [|i w l1 l2 Hw Hf IH]; [done|]. cbn [zip zip_with rfold fst snd].
  rewrite (verify_witness_complete t tree i w Ht Hr Hw). exact IH.
Qed.

(** C38: a transaction whose witnesses verify against the root of a reachable
    state tree consumes only objects of that state: for every input, the tree
    maps the object identifier to the hash of the witnessed object, whose
    identifier, version and hash are those the sender signed; otherwise the
    verification exhibits a SHA-256 collision. *)
Theorem VerifyWitnesses_sound (t : Transaction) (tree : Smt.Tree) (k : nat) (i : InputRef) (w : Witness) :
  tree_reachable tree -> Smt.Root tree = t_StateRoot t -> VerifyWitnesses t = Ok tt ->
  t_Inputs t !! k = Some i -> t_Witnesses t !! k = Some w -> arr32 (in_ObjectID i) ->
  ID (w_Object w) = in_ObjectID i /\ Version (w_Object w) = in_Version i /\
  Object_Hash (w_Object w) = in_ObjectHash i /\
  (Smt.Get tree (in_ObjectID i) = Some (in_ObjectHash i) \/
   sha256_collision (hash_inputs (in_ObjectID i) (Some (in_ObjectHash i)) (w_Proof w))
     (hash_inputs (in_ObjectID i) (Smt.Get tree (in_ObjectID i)) (Smt.Prove tree (in_ObjectID i)))).
Proof.
  intros Ht%reachable_inv Hroot Hv Hi Hw Ha. unfold VerifyWitnesses in Hv.
  apply bind_Ok in Hv as (? & _ & Hv%rfold_unit_Forall). rewrite Forall_lookup in Hv.
  specialize (Hv k (i, w)). rewrite lookup_zip_with, Hi, Hw in Hv. specialize (Hv eq_refl). cbn in Hv.
  unfold verify_witness in Hv. apply bind_Ok in Hv as (? & Hm%fail_if_Ok & Hv%fail_if_Ok).
  apply orb_false_iff in Hm as [[H1 H2]%orb_false_iff H3].
  apply negb_false_iff, bool_decide_eq_true_1 in H1, H3. apply negb_false_iff in H2, Hv.
  rewrite <-Hroot, H3 in Hv. pose proof (Prove_Verify tree (in_ObjectID i) Ha Ht) as Hc.
  split_and!; [done|lia|done|].
  destruct (Verify_same_root _ _ _ _ _ _ Hv Hc) as [Heq|Hcol]; [by left|by right].
Qed.

(** static validation excludes double spending inside a transaction and
    binds it to its sender: the inputs are distinct, non-zero and versioned, the
    sender is the hash of the public key, and the signature verifies over the
    signing digest of the whole intent. *)
Theorem ValidateStatic_authentic (t : Transaction) :
  ValidateStatic t = Ok tt ->
  NoDup (in_ObjectID <$> t_Inputs t) /\
  Forall (fun i => IsZero32 (in_ObjectID i) = false /\ in_Version i <> 0) (t_Inputs t) /\
  t_Sender t = AccountIDFromPublicKey (t_SenderPublicKey t) /\
  exists xy, p256_unmarshal (t_SenderPublicKey t) = Some xy /\
    ecdsa_verify xy (SigningDigest t) (be_val (firstn 32 (t_Signature t))) (be_val (skipn 32 (t_Signature t))) = true.
Proof.
  intros (_ & _ & Hnd & Hok & _ & _ & _ & Hs & xy & Hxy & Hsig)%ValidateStatic_Ok.
  apply verifySignature_Ok in Hsig as (_ & _ & _ & Hsig). split_and!; [done|done|done|].
  exists xy. done.
Qed.
End tx.

(** ** A concrete transaction *)

Definition sample_object : Object :=
  mkObject (be 32 77) 1 (be 32 9) KindCoin (Coin_MarshalBinary (mkCoin (be 32 1) 10 0)).
Definition sample_tree : Smt.Tree :=
  fst (Smt.Update (H:=small_crypto) (Smt.NewTree (H:=small_crypto)) (be 32 77)
    (Some (Object_Hash (H:=small_crypto) sample_object))).
Definition sample_input : InputRef := mkInputRef (be 32 77) 1 (Object_Hash (H:=small_crypto) sample_object).
Definition sample_witness : Witness := mkWitness sample_object (Smt.Prove sample_tree (be 32 77)).
Definition sample_pk : bytes := x04 :: replicate 64 x01.
Definition sample_tx : Transaction :=
  mkTransaction 2 (be 32 3) 0 (AccountIDFromPublicKey (H:=small_crypto) sample_pk) sample_pk
    (Smt.Root sample_tree) [sample_input] [] [mkOperation OpTransfer []] 0 0 (be 16 1)
    (be 32 1 ++ be 32 1) [sample_witness].

Lemma sample_tree_reachable : tree_reachable (H:=small_crypto) sample_tree.
Proof. apply reach_update; [apply reach_new|reflexivity]. Qed.

Lemma sample_tree_Get : Smt.Get sample_tree (be 32 77) = Some (Object_Hash (H:=small_crypto) sample_object).
Proof.
  exact (Get_Update (H:=small_crypto) (Smt.NewTree (H:=small_crypto)) (be 32 77)
    (Some (Object_Hash (H:=small_crypto) sample_object)) (@reach_new small_crypto) eq_refl).
Qed.

Lemma sample_root : Smt.Root sample_tree = t_StateRoot sample_tx.
Proof. unfold sample_tx. cbn [t_StateRoot]. reflexivity. Qed.

Lemma sample_honest : Forall2 (honest_witness (H:=small_crypto) sample_tree) (t_Inputs sample_tx) (t_Witnesses sample_tx).
Proof.
  unfold sample_tx. cbn [t_Inputs t_Witnesses]. constructor; [|constructor].
  unfold honest_witness, sample_witness, sample_input.
  cbn [in_ObjectID in_Version in_ObjectHash w_Object w_Proof].
  split; [reflexivity|]. split; [reflexivity|]. split; [reflexivity|]. split; [reflexivity|].
  split; [exact sample_tree_Get|reflexivity].
Qed.

Lemma sample_VerifyWitnesses : VerifyWitnesses (H:=small_crypto) sample_tx = Ok tt.
Proof.
  exact (VerifyWitnesses_complete (H:=small_crypto) sample_tx sample_tree sample_tree_reachable
    (eq_sym sample_root) sample_honest).
Qed.

Lemma VerifyWitnesses_sound_witness :
  ID sample_object = be 32 77 /\
  (Smt.Get sample_tree (be 32 77) = Some (in_ObjectHash sample_input) \/
   sha256_collision (H:=small_crypto)
     (hash_inputs (H:=small_crypto) (be 32 77) (Some (in_ObjectHash sample_input)) (w_Proof sample_witness))
     (hash_inputs (H:=small_crypto) (be 32 77) (Smt.Get sample_tree (be 32 77)) (Smt.Prove sample_tree (be 32 77)))).
Proof.
  refine ((fun H => conj (proj1 H) (proj2 (proj2 (proj2 H))))
    (VerifyWitnesses_sound (H:=small_crypto) sample_tx sample_tree 0 sample_input sample_witness
    sample_tree_reachable sample_root sample_VerifyWitnesses eq_refl eq_refl _)).
  reflexivity.
Defined.

Lemma signature_not_malleable_witness :
  verifySignature (H:=small_crypto) (1, 0) [] (be 32 1 ++ pad32 (order - 1)) = Err ErrCanonicalSig.
Proof.
  exact (proj1 (signature_not_malleable (H:=small_crypto) (1, 0) [] (be 32 1 ++ be 32 1) eq_refl)).
Defined.

Definition sample_transfer : Transaction :=
  mkTransaction 2 (be 32 3) 0 (AccountIDFromPublicKey (H:=small_crypto) sample_pk) sample_pk
    (be 32 4) [sample_input] [] [mkOperation OpTransfer []] 0 0 (be 16 1) (be 32 1 ++ be 32 1) [].

Lemma ValidateStatic_authentic_witness :
  NoDup (in_ObjectID <$> t_Inputs sample_transfer) /\
  t_Sender sample_transfer = AccountIDFromPublicKey (H:=small_crypto) sample_pk.
Proof.
  destruct (ValidateStatic_authentic (H:=small_crypto) sample_transfer) as (H1 & _ & H2 & _);
    [vm_compute; reflexivity|]. exact (conj H1 H2).
Defined.
