(* ===== verification/Consensus.v ===== *)
(** * Consensus

    Package [internal/v2/consensus]: weighted validator sets, proposer
    selection, proposals, votes and quorum certificates, certified validator
    transitions, and their wire formats.  Signing needs a private key and
    randomness and is not modelled; verification is. *)

From S2P Require Import Prelude GoLib Codec Crypto Types Merkle Object Sharding.

Open Scope Z_scope.

Record Validator := mkValidator {
  v_ID : bytes;
  v_PublicKey : bytes;
  v_Power : Z;
}.

Record ValidatorSet := mkValidatorSet {
  s_Network : bytes;
  s_Validators : list Validator;
}.

Record Proposal := mkProposal {
  p_Header : GlobalHeader;
  p_Round : Z;
  p_Proposer : bytes;
  p_PublicKey : bytes;
  p_Signature : bytes;
}.

Record Vote := mkVote {
  vt_Network : bytes;
  vt_Height : Z;
  vt_Round : Z;
  vt_HeaderHash : bytes;
  vt_Voter : bytes;
  vt_PublicKey : bytes;
  vt_Signature : bytes;
}.

Record Certificate := mkCertificate {
  c_Network : bytes;
  c_Height : Z;
  c_Round : Z;
  c_HeaderHash : bytes;
  c_Votes : list Vote;
}.

#[global] Instance Validator_eq_dec : EqDecision Validator.
Proof. solve_decision. Defined.
#[global] Instance Vote_eq_dec : EqDecision Vote.
Proof. solve_decision. Defined.

Definition MaxCertificateVotes : Z := 4096.

(** The [uint64] computation of the quorum. *)
Definition QuorumPower (total : Z) : Z :=
  if total =? 0 then 0
  else
    let q := total / 3 in
    let r := total mod 3 in
    add64 (add64 (mul64 q 2) (mul64 r 2 / 3)) 1.

Definition halfOrder : Z := Z.shiftr P256.N 1.

(** The linear scan [s.validator(id)]. *)
Definition validator (s : ValidatorSet) (id : bytes) : option Validator :=
  snd <$> list_find (fun v => v_ID v = id) (s_Validators s).

Section consensus.
Context `{Crypto}.

(** The loop body of [Validate]: the identifiers seen and the power so far. *)
Definition validate_validator (st : gset bytes * Z) (v : Validator) : res (gset bytes * Z) :=
  let '(seen, total) := st in
  fail_if ((v_Power v =? 0) || negb (blen (v_PublicKey v) =? 65)
           || negb (bool_decide (ValidatorIDFromPublicKey (v_PublicKey v) = v_ID v))) ErrValidatorSet;;
  some_or (p256_unmarshal (v_PublicKey v)) ErrValidatorSet;;
  fail_if (bool_decide (v_ID v ∈ seen)) ErrValidatorSet;;
  fail_if (overflows total (v_Power v)) ErrValidatorSet;;
  Ok ({[v_ID v]} ∪ seen, add64 total (v_Power v)).

Definition ValidatorSet_Validate (s : ValidatorSet) : res unit :=
  fail_if (IsZero32 (s_Network s) || bool_decide (s_Validators s = [])) ErrValidatorSet;;
  rfold validate_validator (∅, 0) (s_Validators s);;
  Ok tt.

(** [for _, validator := range validators { total += validator.Power }] *)
Definition sum_power (l : list Validator) : Z := foldl (fun total v => add64 total (v_Power v)) 0 l.

Definition TotalPower (s : ValidatorSet) : res Z :=
  ValidatorSet_Validate s;;
  Ok (sum_power (s_Validators s)).

Fixpoint pick_slot (slot cumulative : Z) (l : list Validator) : res Validator :=
  match l with
  | [] => Err ErrValidatorSet
  | v :: l =>
      let cumulative := add64 cumulative (v_Power v) in
      if slot <? cumulative then Ok v else pick_slot slot cumulative l
  end.

Definition Proposer (s : ValidatorSet) (height round : Z) : res Validator :=
  total ← TotalPower s <?> ErrValidatorSet;
  fail_if (height =? 0) ErrValidatorSet;;
  let validators := sort_by v_ID (s_Validators s) in
  let slot := add64 (sub64 height 1 mod total) (round mod total) mod total in
  pick_slot slot 0 validators.

Definition clear_certificate (h : GlobalHeader) : GlobalHeader :=
  mkGlobalHeader (h_Version h) (h_Network h) (h_Height h) (h_ParentHash h) (h_ShardCommitmentRoot h)
    (h_ValidatorRoot h) (h_NextValidatorRoot h) (h_DataRoot h) zero32.

Definition HeaderConsensusHash (header : GlobalHeader) : bytes :=
  DomainHash (str "zephyr/global-header-consensus/v2") (GlobalHeader_CanonicalBytes (clear_certificate header)).

Definition Proposal_SigningDigest (p : Proposal) : bytes :=
  DomainHash (str "zephyr/consensus/proposal/v2")
    (Writer.BytesCopy (Writer.new |> Writer.Fixed (HeaderConsensusHash (p_Header p))
      |> Writer.U64 (p_Round p) |> Writer.Fixed (p_Proposer p))).

Definition Vote_SigningDigest (v : Vote) : bytes :=
  DomainHash (str "zephyr/consensus/vote/v2")
    (Writer.BytesCopy (Writer.new |> Writer.Fixed (vt_Network v) |> Writer.U64 (vt_Height v)
      |> Writer.U64 (vt_Round v) |> Writer.Fixed (vt_HeaderHash v) |> Writer.Fixed (vt_Voter v))).

Definition verifyDigest (publicKey digest signature : bytes) : res unit :=
  fail_if (negb (blen publicKey =? 65) || negb (blen signature =? 64)) ErrVote;;
  xy ← some_or (p256_unmarshal publicKey) ErrVote;
  let r := be_val (firstn 32 signature) in
  let s := be_val (skipn 32 signature) in
  fail_if ((r <=? 0) || (s <=? 0) || (P256.N <=? r) || (P256.N <=? s) || (halfOrder <? s)) ErrVote;;
  fail_if (negb (ecdsa_verify xy digest r s)) ErrVote.

Definition SigningValidatorID (publicKey : bytes) : res bytes :=
  fail_if (negb (blen publicKey =? 65)) ErrSigningGuard;;
  some_or (p256_unmarshal publicKey) ErrSigningGuard;;
  Ok (ValidatorIDFromPublicKey publicKey).

(** ** The commitment to a validator set *)

Definition validator_payload (v : Validator) : bytes :=
  Writer.BytesCopy (Writer.new |> Writer.Fixed (v_ID v) |> Writer.Bytes (v_PublicKey v)
    |> Writer.U64 (v_Power v)).

Definition ValidatorSet_Root (s : ValidatorSet) : res bytes :=
  ValidatorSet_Validate s;;
  let validators := sort_by v_ID (s_Validators s) in
  Ok (Root ((fun v => Leaf (str "validator") (validator_payload v)) <$> validators)).

(** ** Verification *)

Definition VerifyProposal (s : ValidatorSet) (p : Proposal) : res unit :=
  fail_if (negb (is_ok (ValidatorSet_Validate s)) || negb (bool_decide (h_Network (p_Header p) = s_Network s))
           || (h_Height (p_Header p) =? 0)
           || negb (bool_decide (h_CertificateHash (p_Header p) = zero32))) ErrProposal;;
  validatorRoot ← ValidatorSet_Root s <?> ErrProposal;
  fail_if (negb (bool_decide (validatorRoot = h_ValidatorRoot (p_Header p)))) ErrProposal;;
  expected ← Proposer s (h_Height (p_Header p)) (p_Round p) <?> ErrProposal;
  fail_if (negb (bool_decide (v_ID expected = p_Proposer p))
           || negb (bool_decide (v_PublicKey expected = p_PublicKey p))) ErrProposal;;
  fail_if (negb (bool_decide (ValidatorIDFromPublicKey (p_PublicKey p) = p_Proposer p))
           || negb (is_ok (verifyDigest (p_PublicKey p) (Proposal_SigningDigest p) (p_Signature p)))) ErrProposal.

Definition VerifyVote (s : ValidatorSet) (vote : Vote) : res unit :=
  fail_if (negb (bool_decide (vt_Network vote = s_Network s)) || (vt_Height vote =? 0)
           || IsZero32 (vt_HeaderHash vote)
           || negb (bool_decide (ValidatorIDFromPublicKey (vt_PublicKey vote) = vt_Voter vote))) ErrVote;;
  v ← some_or (validator s (vt_Voter vote)) ErrVote;
  fail_if (negb (bool_decide (v_PublicKey v = vt_PublicKey vote))
           || negb (is_ok (verifyDigest (vt_PublicKey vote) (Vote_SigningDigest vote) (vt_Signature vote)))) ErrVote.

(** [members[validator.ID] = validator] over the slice: the last one wins. *)
Definition index_members (l : list Validator) : gmap bytes Validator :=
  foldl (fun members v => <[v_ID v := v]> members) ∅ l.

Definition count_vote (members : gmap bytes Validator) (c : Certificate)
    (st : gset bytes * Z) (vote : Vote) : res (gset bytes * Z) :=
  let '(seen, power) := st in
  fail_if (negb (bool_decide (vt_Network vote = c_Network c)) || negb (vt_Height vote =? c_Height c)
           || negb (vt_Round vote =? c_Round c)
           || negb (bool_decide (vt_HeaderHash vote = c_HeaderHash c))) ErrCertificate;;
  fail_if (bool_decide (vt_Voter vote ∈ seen)) ErrCertificate;;
  let seen := {[vt_Voter vote]} ∪ seen in
  v ← some_or (members !! vt_Voter vote) ErrCertificate;
  fail_if (negb (bool_decide (ValidatorIDFromPublicKey (vt_PublicKey vote) = vt_Voter vote))
           || negb (bool_decide (v_PublicKey v = vt_PublicKey vote))
           || negb (is_ok (verifyDigest (vt_PublicKey vote) (Vote_SigningDigest vote) (vt_Signature vote))))
    ErrCertificate;;
  Ok (seen, add64 power (v_Power v)).

Definition VerifyCertificate (s : ValidatorSet) (c : Certificate) : res unit :=
  fail_if (negb (is_ok (ValidatorSet_Validate s)) || negb (bool_decide (c_Network c = s_Network s))
           || (c_Height c =? 0) || IsZero32 (c_HeaderHash c)) ErrCertificate;;
  let members := index_members (s_Validators s) in
  let total := sum_power (s_Validators s) in
  let quorum := QuorumPower total in
  '(_, power) ← rfold (count_vote members c) (∅, 0) (c_Votes c);
  fail_if (power <? quorum) ErrInsufficientPower.

Definition BuildCertificate (s : ValidatorSet) (p : Proposal) (votes : list Vote) : res Certificate :=
  VerifyProposal s p;;
  let certificate := mkCertificate (s_Network s) (h_Height (p_Header p)) (p_Round p)
                       (HeaderConsensusHash (p_Header p)) votes in
  VerifyCertificate s certificate;;
  Ok certificate.

Definition Certificate_Hash (c : Certificate) : bytes :=
  let votes := sort_by vt_Voter (c_Votes c) in
  let w := Writer.new |> Writer.Fixed (c_Network c) |> Writer.U64 (c_Height c) |> Writer.U64 (c_Round c)
    |> Writer.Fixed (c_HeaderHash c) |> Writer.U32 (blen votes mod 2 ^ 32) in
  let w := foldl (fun w vote => w |> Writer.Fixed (vt_Voter vote) |> Writer.Bytes (vt_PublicKey vote)
                                  |> Writer.Bytes (vt_Signature vote)) w votes in
  DomainHash (str "zephyr/quorum-certificate/v2") (Writer.BytesCopy w).

Definition VerifyCertifiedTransition (header : GlobalHeader) (c : Certificate) (current next : ValidatorSet)
    : res unit :=
  currentRoot ← ValidatorSet_Root current <?> ErrValidatorSet;
  fail_if (negb (bool_decide (s_Network current = h_Network header))
           || negb (bool_decide (currentRoot = h_ValidatorRoot header))) ErrValidatorSet;;
  fail_if (negb (bool_decide (c_Network c = h_Network header)) || negb (c_Height c =? h_Height header)
           || negb (bool_decide (c_HeaderHash c = HeaderConsensusHash header))
           || negb (bool_decide (h_CertificateHash header = Certificate_Hash c))) ErrCertificate;;
  VerifyCertificate current c;;
  nextRoot ← ValidatorSet_Root next <?> ErrValidatorSet;
  fail_if (negb (bool_decide (s_Network next = h_Network header))
           || negb (bool_decide (nextRoot = EffectiveNextValidatorRoot header))) ErrValidatorSet.

(** ** Wire formats *)

Definition Proposal_MarshalBinary (p : Proposal) : res bytes :=
  fail_if (negb (blen (p_PublicKey p) =? 65) || negb (blen (p_Signature p) =? 64)
           || IsZero32 (p_Proposer p)) ErrProposal;;
  Ok (Writer.BytesCopy (Writer.new |> Writer.Bytes (GlobalHeader_CanonicalBytes (p_Header p))
    |> Writer.U64 (p_Round p) |> Writer.Fixed (p_Proposer p) |> Writer.Bytes (p_PublicKey p)
    |> Writer.Bytes (p_Signature p))).

Definition ParseProposal (data : bytes) : res Proposal :=
  parse (headerBytes ← Rd.Bytes 512 <!> ErrProposal;
         header ← plift (ParseGlobalHeader headerBytes <?> ErrProposal);
         round ← Rd.U64 <!> ErrProposal;
         proposer ← Rd.Fixed 32 <!> ErrProposal;
         publicKey ← Rd.Bytes 65 <!> ErrProposal;
         plift (fail_if (negb (blen publicKey =? 65)) ErrProposal);;
         signature ← Rd.Bytes 64 <!> ErrProposal;
         plift (fail_if (negb (blen signature =? 64)) ErrProposal);;
         Rd.Done <!> ErrProposal;;
         mret (mkProposal header round proposer publicKey signature)) data.

Definition Vote_valid (v : Vote) : bool :=
  negb (negb (blen (vt_PublicKey v) =? 65) || negb (blen (vt_Signature v) =? 64) || (vt_Height v =? 0)
        || IsZero32 (vt_Network v) || IsZero32 (vt_HeaderHash v) || IsZero32 (vt_Voter v)).

Definition vote_payload (v : Vote) : bytes :=
  Writer.BytesCopy (Writer.new |> Writer.Fixed (vt_Network v) |> Writer.U64 (vt_Height v)
    |> Writer.U64 (vt_Round v) |> Writer.Fixed (vt_HeaderHash v) |> Writer.Fixed (vt_Voter v)
    |> Writer.Bytes (vt_PublicKey v) |> Writer.Bytes (vt_Signature v)).

Definition Vote_MarshalBinary (v : Vote) : res bytes :=
  fail_if (negb (Vote_valid v)) ErrVote;;
  Ok (vote_payload v).

Definition ParseVote (data : bytes) : res Vote :=
  parse (network ← Rd.Fixed 32 <!> ErrVote;
         height ← Rd.U64 <!> ErrVote;
         plift (fail_if (height =? 0) ErrVote);;
         round ← Rd.U64 <!> ErrVote;
         headerHash ← Rd.Fixed 32 <!> ErrVote;
         voter ← Rd.Fixed 32 <!> ErrVote;
         publicKey ← Rd.Bytes 65 <!> ErrVote;
         plift (fail_if (negb (blen publicKey =? 65)) ErrVote);;
         signature ← Rd.Bytes 64 <!> ErrVote;
         plift (fail_if (negb (blen signature =? 64)) ErrVote);;
         Rd.Done <!> ErrVote;;
         plift (fail_if (IsZero32 network || IsZero32 headerHash || IsZero32 voter) ErrVote);;
         mret (mkVote network height round headerHash voter publicKey signature)) data.

Definition Certificate_MarshalBinary (c : Certificate) : res bytes :=
  fail_if ((blen (c_Votes c) =? 0) || (MaxCertificateVotes <? blen (c_Votes c)) || (c_Height c =? 0)
           || IsZero32 (c_Network c) || IsZero32 (c_HeaderHash c)) ErrCertificate;;
  let w := Writer.new |> Writer.Fixed (c_Network c) |> Writer.U64 (c_Height c) |> Writer.U64 (c_Round c)
    |> Writer.Fixed (c_HeaderHash c) |> Writer.U32 (blen (c_Votes c) mod 2 ^ 32) in
  w ← rfold (fun w vote => raw ← Vote_MarshalBinary vote; Ok (w |> Writer.Bytes raw)) w (c_Votes c);
  Ok (Writer.BytesCopy w).

Definition read_vote : parser Vote :=
  voteBytes ← Rd.Bytes 512 <!> ErrCertificate;
  plift (ParseVote voteBytes).

Definition ParseCertificate (data : bytes) : res Certificate :=
  parse (network ← Rd.Fixed 32 <!> ErrCertificate;
         height ← Rd.U64 <!> ErrCertificate;
         plift (fail_if (height =? 0) ErrCertificate);;
         round ← Rd.U64 <!> ErrCertificate;
         headerHash ← Rd.Fixed 32 <!> ErrCertificate;
         count ← Rd.U32 <!> ErrCertificate;
         plift (fail_if ((count =? 0) || (MaxCertificateVotes <? count)) ErrCertificate);;
         votes ← prepeat (Z.to_nat count) read_vote;
         Rd.Done <!> ErrCertificate;;
         plift (fail_if (IsZero32 network || IsZero32 headerHash) ErrCertificate);;
         mret (mkCertificate network height round headerHash votes)) data.

Definition ValidatorSet_MarshalBinary (s : ValidatorSet) : res bytes :=
  fail_if (negb (is_ok (ValidatorSet_Validate s)) || (MaxCertificateVotes <? blen (s_Validators s))) ErrValidatorWire;;
  let w := Writer.new |> Writer.Fixed (s_Network s) |> Writer.U32 (blen (s_Validators s) mod 2 ^ 32) in
  Ok (Writer.BytesCopy (foldl (fun w v => w |> Writer.Fixed (v_ID v) |> Writer.Bytes (v_PublicKey v)
                                            |> Writer.U64 (v_Power v)) w (s_Validators s))).

Definition read_validator : parser Validator :=
  id ← Rd.Fixed 32 <!> ErrValidatorWire;
  publicKey ← Rd.Bytes 65 <!> ErrValidatorWire;
  plift (fail_if (negb (blen publicKey =? 65)) ErrValidatorWire);;
  power ← Rd.U64 <!> ErrValidatorWire;
  mret (mkValidator id publicKey power).

Definition ParseValidatorSet (data : bytes) : res ValidatorSet :=
  parse (network ← Rd.Fixed 32 <!> ErrValidatorWire;
         count ← Rd.U32 <!> ErrValidatorWire;
         plift (fail_if ((count =? 0) || (MaxCertificateVotes <? count)) ErrValidatorWire);;
         validators ← prepeat (Z.to_nat count) read_validator;
         Rd.Done <!> ErrValidatorWire;;
         let set := mkValidatorSet network validators in
         plift (ValidatorSet_Validate set <?> ErrValidatorWire);;
         mret set) data.
End consensus.
