(* ===== verification/ConsensusProofs.v ===== *)
(** * ConsensusProofs

    Quorum arithmetic, what a verified certificate means, agreement by quorum
    intersection, and proposer selection: total, independent of the order of
    the set, and fair. *)

From S2P Require Import Prelude GoLib Codec Crypto Types Merkle Object Sharding ShardingProofs Consensus.

Open Scope Z_scope.

(** ** Power *)

(** The mathematical sum of the voting powers. *)
Definition powers (l : list Validator) : Z := foldr (fun v s => v_Power v + s) 0 l.

Definition Validator_typed (v : Validator) : Prop := arr32 (v_ID v) /\ u64 (v_Power v).
Definition ValidatorSet_typed (s : ValidatorSet) : Prop :=
  arr32 (s_Network s) /\ Forall Validator_typed (s_Validators s).

Lemma powers_cons v l : powers (v :: l) = v_Power v + powers l.
Proof. done. Qed.
Lemma powers_app l1 l2 : powers (l1 ++ l2) = powers l1 + powers l2.
Proof. induction l1 as [|v l1 IH]; [done|]. cbn [app]. rewrite !powers_cons, IH. lia. Qed.
Lemma powers_nonneg l : Forall Validator_typed l -> 0 <= powers l.
Proof. induction 1 as [|v l [_ Hv] _ IH]; [done|]. rewrite powers_cons. unfold u64 in Hv. lia. Qed.
#[global] Instance powers_proper : Proper ((≡ₚ) ==> (=)) powers.
Proof. induction 1; rewrite ?powers_cons; lia. Qed.

Lemma powers_submseteq l1 l2 : Forall Validator_typed l2 -> l1 ⊆+ l2 -> powers l1 <= powers l2.
Proof.
  intros Ht [k Hp]%submseteq_Permutation. rewrite Hp, powers_app.
  rewrite Hp in Ht. apply Forall_app in Ht as [_ Ht]. pose proof (powers_nonneg k Ht). lia.
Qed.

Lemma sum_power_from l acc :
  Forall Validator_typed l -> 0 <= acc -> acc + powers l <= MaxUint64 ->
  foldl (fun total v => add64 total (v_Power v)) acc l = acc + powers l.
Proof.
  revert acc. induction l as [|v l IH]; intros acc Ht Ha Hs; cbn [foldl]; [cbn; lia|].
  apply Forall_cons_1 in Ht as [[_ Hv] Ht]. rewrite powers_cons in *. pose proof (powers_nonneg l Ht).
  unfold u64, MaxUint64 in *.
  assert (add64 acc (v_Power v) = acc + v_Power v) as -> by (unfold add64; apply Z.mod_small; lia).
  rewrite IH; [lia|done|lia|unfold MaxUint64; lia].
Qed.

Lemma sum_power_eq l : Forall Validator_typed l -> powers l <= MaxUint64 -> sum_power l = powers l.
Proof. intros Ht Hs. unfold sum_power. rewrite sum_power_from; [lia|done|lia|lia]. Qed.

Section filters.
Context (P Q : Validator -> Prop) `{!forall v, Decision (P v)} `{!forall v, Decision (Q v)}.

Lemma powers_inclusion_exclusion l :
  Forall Validator_typed l ->
  powers (filter P l) + powers (filter Q l) <= powers l + powers (filter (fun v => P v /\ Q v) l).
Proof.
  induction 1 as [|v l [_ Hv] _ IH]; [done|]. rewrite !filter_cons. unfold u64 in Hv.
  repeat case_decide; rewrite ?powers_cons; (tauto || lia).
Qed.

Lemma powers_filter_mono l :
  Forall Validator_typed l -> (forall v, v ∈ l -> P v -> Q v) -> powers (filter P l) <= powers (filter Q l).
Proof.
  induction 1 as [|v l [_ Hv] _ IH]; intros Hpq; [done|]. rewrite !filter_cons. unfold u64 in Hv.
  assert (powers (filter P l) <= powers (filter Q l)) by (apply IH; intros; apply Hpq; [by right|done]).
  pose proof (Hpq v ltac:(left)). repeat case_decide; rewrite ?powers_cons; (tauto || lia).
Qed.
End filters.

Lemma filter_member (l vs : list Validator) : NoDup l -> NoDup vs -> vs ⊆+ l -> filter (.∈ vs) l ≡ₚ vs.
Proof.
  intros Hl Hvs Hsub. apply NoDup_Permutation; [by apply NoDup_filter|done|].
  intros v. rewrite list_elem_of_filter. split; [tauto|]. intros Hv. split; [done|].
  by eapply elem_of_submseteq.
Qed.

(** ** Quorum arithmetic *)

(** The [uint64] formula is [floor(2*total/3) + 1] and never wraps. *)
Lemma QuorumPower_eq total : 0 < total <= MaxUint64 -> QuorumPower total = 2 * total / 3 + 1.
Proof.
  intros Ht. unfold QuorumPower. assert ((total =? 0) = false) as -> by lia. cbv zeta.
  unfold MaxUint64 in Ht. unfold add64, mul64.
  pose proof (Z.div_mod total 3 ltac:(lia)). pose proof (Z.mod_pos_bound total 3 ltac:(lia)).
  assert (total mod 3 * 2 / 3 <= 1) by (apply Z.lt_succ_r; apply Z.div_lt_upper_bound; lia).
  pose proof (Z.div_pos (total mod 3 * 2) 3 ltac:(lia) ltac:(lia)).
  rewrite (Z.mod_small (total / 3 * 2)) by lia. rewrite (Z.mod_small (total mod 3 * 2)) by lia.
  assert (2 * total / 3 = total / 3 * 2 + total mod 3 * 2 / 3) as ->
    by (Z.to_euclidean_division_equations; lia).
  rewrite (Z.mod_small (total / 3 * 2 + _)) by lia. rewrite Z.mod_small by lia. lia.
Qed.

Lemma QuorumPower_bounds total :
  0 < total <= MaxUint64 ->
  2 * total < 3 * QuorumPower total /\ QuorumPower total <= total.
Proof.
  intros Ht. rewrite QuorumPower_eq by done.
  pose proof (Z.mul_succ_div_gt (2 * total) 3 ltac:(lia)). pose proof (Z.mul_div_le (2 * total) 3 ltac:(lia)).
  split; [lia|]. assert (2 * total / 3 < total) by (apply Z.div_lt_upper_bound; lia). lia.
Qed.

Section consensus.
Context `{Crypto}.

(** ** Valid sets *)

Definition validators_ok (l : list Validator) : Prop :=
  NoDup (v_ID <$> l) /\ powers l <= MaxUint64 /\
  Forall (fun v => 0 < v_Power v /\ blen (v_PublicKey v) = 65 /\
                   ValidatorIDFromPublicKey (v_PublicKey v) = v_ID v /\
                   is_Some (p256_unmarshal (v_PublicKey v))) l.

Lemma validate_loop l st st' done :
  Forall Validator_typed l -> validators_ok done -> st = (list_to_set (v_ID <$> done), powers done) ->
  Forall Validator_typed done ->
  rfold validate_validator st l = Ok st' -> validators_ok (done ++ l).
Proof.
  revert st done. induction l as [|v l IH]; intros st dn Ht Hok -> Htd Hr; [by rewrite app_nil_r|].
  cbn [rfold] in Hr. apply bind_Ok in Hr as (st1 & Hv & Hr). apply Forall_cons_1 in Ht as [Htv Ht].
  unfold validate_validator in Hv.
  apply bind_Ok in Hv as (? & H1%fail_if_Ok & Hv). apply bind_Ok in Hv as (xy & H2%some_or_Ok & Hv).
  apply bind_Ok in Hv as (? & H3%fail_if_Ok & Hv). apply bind_Ok in Hv as (? & H4%fail_if_Ok & Hv).
  injection Hv as <-. destruct Hok as (Hnd & Hsum & Hall).
  pose proof (powers_nonneg dn Htd) as Hpos. destruct Htv as [Hid Hpw].
  apply add64_small in H4 as [Hadd Hu]; [|unfold u64, MaxUint64 in *; lia|apply Hpw].
  apply orb_false_iff in H1 as [[Hz Hl]%orb_false_iff Hk].
  apply negb_false_iff, bool_decide_eq_true_1 in Hk. apply bool_decide_eq_false_1 in H3.
  rewrite cons_middle, app_assoc. eapply (IH _ (dn ++ [v])); [done| | | |exact Hr].
  - split_and!.
    + rewrite fmap_app. apply NoDup_app. split; [done|]. split; [|apply NoDup_singleton].
      intros y Hy Hy'. apply list_elem_of_singleton in Hy' as ->. apply H3. by apply elem_of_list_to_set.
    + rewrite powers_app. cbn. unfold u64, MaxUint64 in *. lia.
    + apply Forall_app. split; [done|]. constructor; [|constructor]. unfold u64 in Hpw.
      split_and!; [lia|lia|done|by exists xy].
  - rewrite Hadd. f_equal.
    + rewrite fmap_app, list_to_set_app_L. cbn. rewrite union_empty_r_L. by rewrite (comm_L (∪)).
    + rewrite powers_app. cbn. lia.
  - apply Forall_app. split; [done|]. constructor; [by split|constructor].
Qed.

Lemma ValidatorSet_Validate_Ok s :
  Forall Validator_typed (s_Validators s) -> ValidatorSet_Validate s = Ok tt ->
  IsZero32 (s_Network s) = false /\ s_Validators s <> [] /\ validators_ok (s_Validators s).
Proof.
  intros Ht Hv. unfold ValidatorSet_Validate in Hv.
  apply bind_Ok in Hv as (? & [Hn Hne]%fail_if_Ok%orb_false_iff & Hv).
  apply bind_Ok in Hv as (st & Hr & _). apply bool_decide_eq_false_1 in Hne. split_and!; [done|done|].
  apply (validate_loop _ _ _ [] Ht) in Hr; [done| |done|constructor].
  split_and!; [constructor|done|constructor].
Qed.

Lemma validators_ok_total l :
  Forall Validator_typed l -> l <> [] -> validators_ok l -> 0 < powers l <= MaxUint64.
Proof.
  intros Ht Hne (_ & Hs & Hall). split; [|done]. destruct l as [|v l]; [done|].
  apply Forall_cons_1 in Hall as [[Hp _] _]. apply Forall_cons_1 in Ht as [_ Ht].
  rewrite powers_cons. pose proof (powers_nonneg l Ht). lia.
Qed.

(** ** Certificates *)

Lemma index_members_Some l id v : index_members l !! id = Some v -> v ∈ l /\ v_ID v = id.
Proof.
  unfold index_members. assert (forall m : gmap bytes Validator,
    (forall k u, m !! k = Some u -> u ∈ l /\ v_ID u = k) ->
    forall l', (forall u, u ∈ l' -> u ∈ l) ->
    foldl (fun members v => <[v_ID v := v]> members) m l' !! id = Some v -> v ∈ l /\ v_ID v = id) as Hgen.
  { intros m Hm l'. revert m Hm. induction l' as [|u l' IH]; intros m Hm Hsub Hl; cbn [foldl] in Hl; [by apply Hm|].
    eapply (IH (<[v_ID u := u]> m)); [| |exact Hl].
    - intros k w. destruct (decide (k = v_ID u)) as [->|Hne].
      + rewrite lookup_insert_eq. intros [= <-]. split; [apply Hsub; left|done].
      + rewrite lookup_insert_ne by congruence. apply Hm.
    - intros w Hw. apply Hsub. by right. }
  apply Hgen; [|done]. intros k u. by rewrite lookup_empty.
Qed.

(** [v] cast [vote] in the certificate [c]: the vote carries the certificate's
    network, height, round and header hash, and [v]'s key signed it. *)
Definition cast_in (c : Certificate) (vote : Vote) (v : Validator) : Prop :=
  vote ∈ c_Votes c /\ vt_Voter vote = v_ID v /\
  vt_Network vote = c_Network c /\ vt_Height vote = c_Height c /\ vt_Round vote = c_Round c /\
  vt_HeaderHash vote = c_HeaderHash c /\
  verifyDigest (v_PublicKey v) (Vote_SigningDigest vote) (vt_Signature vote) = Ok tt.

Definition vote_of (s : ValidatorSet) (c : Certificate) (vote : Vote) (v : Validator) : Prop :=
  v ∈ s_Validators s /\ cast_in c vote v.

Lemma count_votes s c votes st st' dn vs :
  (forall vote, vote ∈ votes -> vote ∈ c_Votes c) ->
  rfold (count_vote (index_members (s_Validators s)) c) st votes = Ok st' ->
  Forall2 (vote_of s c) dn vs -> NoDup (v_ID <$> vs) ->
  st = (list_to_set (vt_Voter <$> dn), powers vs mod 2 ^ 64) ->
  exists vs', Forall2 (vote_of s c) (dn ++ votes) (vs ++ vs') /\ NoDup (v_ID <$> (vs ++ vs')) /\
    snd st' = powers (vs ++ vs') mod 2 ^ 64.
Proof.
  revert st dn vs. induction votes as [|vote votes IH]; intros st dn vs Hsub Hr Hf Hnd ->.
  { cbn in Hr. injection Hr as <-. exists []. rewrite !app_nil_r. done. }
  cbn [rfold] in Hr. apply bind_Ok in Hr as (st1 & Hv & Hr). unfold count_vote in Hv.
  apply bind_Ok in Hv as (? & H1%fail_if_Ok & Hv). apply bind_Ok in Hv as (? & H2%fail_if_Ok & Hv).
  apply bind_Ok in Hv as (v & H3%some_or_Ok%index_members_Some & Hv).
  apply bind_Ok in Hv as (? & H4%fail_if_Ok & Hv). injection Hv as <-. destruct H3 as [Hin Hid].
  repeat (apply orb_false_iff in H1 as [H1 ?]). apply orb_false_iff in H4 as [[Hk Hpk]%orb_false_iff Hd].
  repeat match goal with Hb : negb (bool_decide _) = false |- _ => apply negb_false_iff, bool_decide_eq_true_1 in Hb end.
  apply bool_decide_eq_false_1 in H2. apply negb_false_iff, is_ok_true in Hd as [[] Hd].
  assert (vt_Voter <$> dn = v_ID <$> vs) as Hids.
  { clear -Hf. induction Hf as [|a b l l' (_ & _ & Hab & _) _ IH]; [done|]. cbn. by rewrite Hab, IH. }
  destruct (IH ({[vt_Voter vote]} ∪ list_to_set (vt_Voter <$> dn), add64 (powers vs mod 2 ^ 64) (v_Power v))
    (dn ++ [vote]) (vs ++ [v])) as (vs' & Hf' & Hnd' & Hp').
  - intros w Hw. apply Hsub. by right.
  - exact Hr.
  - apply Forall2_app; [done|]. constructor; [|constructor].
    split; [done|]. rewrite <-Hpk in Hd. split_and!; try done; [apply Hsub; left|lia|lia].
  - rewrite fmap_app. apply NoDup_app. split; [done|]. split; [|apply NoDup_singleton].
    intros w Hw Hw'. apply list_elem_of_singleton in Hw' as ->. apply H2.
    apply elem_of_list_to_set. rewrite Hids. by rewrite <-Hid.
  - f_equal.
    + rewrite fmap_app, list_to_set_app_L. cbn. rewrite union_empty_r_L. by rewrite (comm_L (∪)).
    + unfold add64. rewrite powers_app. cbn. rewrite Z.add_0_r, Z.add_mod_idemp_l by lia. done.
  - exists (v :: vs'). rewrite <-(app_assoc dn), <-(app_assoc vs) in Hf'. rewrite <-(app_assoc vs) in Hnd', Hp'.
    exact (conj Hf' (conj Hnd' Hp')).
Qed.

(** What [VerifyCertificate] establishes: distinct members of the set cast the
    votes, and together they hold a quorum. *)
Lemma VerifyCertificate_Ok s c :
  ValidatorSet_typed s -> VerifyCertificate s c = Ok tt ->
  ValidatorSet_Validate s = Ok tt /\ c_Network c = s_Network s /\ c_Height c <> 0 /\
  IsZero32 (c_HeaderHash c) = false /\
  exists vs, Forall2 (vote_of s c) (c_Votes c) vs /\ NoDup (v_ID <$> vs) /\
    vs ⊆+ s_Validators s /\ QuorumPower (powers (s_Validators s)) <= powers vs.
Proof.
  intros [Hn Ht] Hv. unfold VerifyCertificate in Hv.
  apply bind_Ok in Hv as (? & H1%fail_if_Ok & Hv). apply bind_Ok in Hv as ([seen power] & H2 & Hv%fail_if_Ok).
  repeat (apply orb_false_iff in H1 as [H1 ?]). apply negb_false_iff, is_ok_true in H1 as [[] H1].
  match goal with Hb : negb (bool_decide _) = false |- _ => apply negb_false_iff, bool_decide_eq_true_1 in Hb end.
  destruct (ValidatorSet_Validate_Ok s Ht H1) as (_ & Hne & Hok).
  pose proof (validators_ok_total _ Ht Hne Hok) as Htot.
  destruct (count_votes s c (c_Votes c) _ _ [] [] (fun _ Hin => Hin) H2 (Forall2_nil_2 _ _ _) NoDup_nil_2 eq_refl)
    as (vs & Hf & Hnd & Hp).
  cbn [app snd] in *. split_and!; try done; [lia|].
  assert (vs ⊆+ s_Validators s) as Hsub.
  { apply NoDup_submseteq; [by eapply NoDup_fmap_1|]. intros v (i & Hi)%list_elem_of_lookup.
    destruct (Forall2_lookup_r _ _ _ _ _ Hf Hi) as (vote & _ & Hvo). apply Hvo. }
  exists vs. split_and!; [done|done|done|].
  pose proof (powers_submseteq _ _ Ht Hsub) as Hle.
  assert (0 <= powers vs).
  { apply powers_nonneg. apply submseteq_Permutation in Hsub as [k Hk]. rewrite Hk in Ht.
    by apply Forall_app in Ht as [? _]. }
  rewrite sum_power_eq in Hv by (done || lia). unfold MaxUint64 in Htot. rewrite Hp, Z.mod_small in Hv by lia. lia.
Qed.

(** ** Agreement *)

Definition voted (c : Certificate) (v : Validator) : Prop := v_ID v ∈ vt_Voter <$> c_Votes c.
#[global] Instance voted_dec c v : Decision (voted c v).
Proof. unfold voted. apply _. Defined.

(** The validators with a vote in both certificates. *)
Definition common_voters (s : ValidatorSet) (c1 c2 : Certificate) : list Validator :=
  filter (fun v => voted c1 v /\ voted c2 v) (s_Validators s).

(** The validators with two verified votes, one in each certificate, for one
    height and round but different headers. *)
Definition conflicting (v1 v2 : Vote) : Prop :=
  vt_Height v1 = vt_Height v2 /\ vt_Round v1 = vt_Round v2 /\ vt_HeaderHash v1 <> vt_HeaderHash v2.
#[global] Instance conflicting_dec v1 v2 : Decision (conflicting v1 v2).
Proof. unfold conflicting. apply _. Defined.
Definition signs (v : Validator) (vote : Vote) : Prop :=
  vt_Voter vote = v_ID v /\
  verifyDigest (v_PublicKey v) (Vote_SigningDigest vote) (vt_Signature vote) = Ok tt.
#[global] Instance signs_dec v vote : Decision (signs v vote).
Proof. unfold signs. apply _. Defined.
Definition equivocators (s : ValidatorSet) (c1 c2 : Certificate) : list Validator :=
  filter (fun v => Exists (fun v1 => Exists (fun v2 => signs v v1 /\ signs v v2 /\ conflicting v1 v2)
                                       (c_Votes c2)) (c_Votes c1)) (s_Validators s).

Lemma vote_of_voted s c vs v :
  Forall2 (vote_of s c) (c_Votes c) vs -> v ∈ vs -> voted c v.
Proof.
  intros Hf (i & Hi)%list_elem_of_lookup. destruct (Forall2_lookup_r _ _ _ _ _ Hf Hi) as (vote & Hvi & _ & _ & Hid & _).
  unfold voted. rewrite <-Hid. apply list_elem_of_fmap_2. by eapply list_elem_of_lookup_2.
Qed.

Lemma voted_cast s c vs v :
  NoDup (v_ID <$> s_Validators s) -> Forall2 (vote_of s c) (c_Votes c) vs ->
  v ∈ s_Validators s -> voted c v -> exists vote, cast_in c vote v.
Proof.
  intros Hnd Hf Hv (vote & Hid & Hin)%list_elem_of_fmap. apply list_elem_of_lookup in Hin as [i Hi].
  destruct (Forall2_lookup_l _ _ _ _ _ Hf Hi) as (v' & _ & Hv' & Hc).
  assert (v = v') as ->; [|by exists vote].
  apply list_elem_of_lookup in Hv as [a Ha]. apply list_elem_of_lookup in Hv' as [b Hb].
  assert (a = b) as ->; [|congruence]. destruct Hc as (_ & Hid' & _).
  apply (NoDup_lookup (v_ID <$> s_Validators s) a b (v_ID v)); [done| |];
    rewrite list_lookup_fmap; [by rewrite Ha|rewrite Hb; cbn; congruence].
Qed.

Lemma quorum_overlap s c1 c2 :
  ValidatorSet_typed s -> VerifyCertificate s c1 = Ok tt -> VerifyCertificate s c2 = Ok tt ->
  powers (s_Validators s) < 3 * powers (common_voters s c1 c2).
Proof.
  intros Ht (Hval & _ & _ & _ & vs1 & Hf1 & Hn1 & Hs1 & Hq1)%VerifyCertificate_Ok
    (_ & _ & _ & _ & vs2 & Hf2 & Hn2 & Hs2 & Hq2)%VerifyCertificate_Ok; [|done|done].
  destruct Ht as [_ Ht]. destruct (ValidatorSet_Validate_Ok s Ht Hval) as (_ & Hne & Hok).
  pose proof (QuorumPower_bounds _ (validators_ok_total _ Ht Hne Hok)) as [Hq _].
  assert (NoDup (s_Validators s)) as Hnd by (eapply NoDup_fmap_1; apply Hok).
  pose proof (powers_inclusion_exclusion (.∈ vs1) (.∈ vs2) _ Ht) as Hie.
  rewrite !filter_member in Hie by (try done; by eapply NoDup_fmap_1).
  assert (powers (filter (fun v => v ∈ vs1 /\ v ∈ vs2) (s_Validators s)) <= powers (common_voters s c1 c2)); [|lia].
  apply powers_filter_mono; [done|]. intros v _ [H1 H2].
  split; [by eapply vote_of_voted|by eapply vote_of_voted].
Qed.

Lemma equivocators_cover s c1 c2 :
  ValidatorSet_typed s -> VerifyCertificate s c1 = Ok tt -> VerifyCertificate s c2 = Ok tt ->
  (forall v, v ∈ common_voters s c1 c2 -> exists v1 v2, cast_in c1 v1 v /\ cast_in c2 v2 v).
Proof.
  intros Ht H1 H2.
  apply VerifyCertificate_Ok in H1 as (Hval & _ & _ & _ & vs1 & Hf1 & _); [|done].
  apply VerifyCertificate_Ok in H2 as (_ & _ & _ & _ & vs2 & Hf2 & _); [|done].
  destruct (ValidatorSet_Validate_Ok s (proj2 Ht) Hval) as (_ & _ & (Hnd & _)).
  intros v [[Hv1 Hv2] Hv]%list_elem_of_filter.
  destruct (voted_cast s c1 vs1 v Hnd Hf1 Hv Hv1) as [w1 Hw1].
  destruct (voted_cast s c2 vs2 v Hnd Hf2 Hv Hv2) as [w2 Hw2]. by exists w1, w2.
Qed.

Lemma same_round_same_header s c1 c2 :
  ValidatorSet_typed s -> VerifyCertificate s c1 = Ok tt -> VerifyCertificate s c2 = Ok tt ->
  c_Height c1 = c_Height c2 -> c_Round c1 = c_Round c2 ->
  3 * powers (equivocators s c1 c2) <= powers (s_Validators s) -> c_HeaderHash c1 = c_HeaderHash c2.
Proof.
  intros Ht H1 H2 Hh Hr Hfew. pose proof (quorum_overlap s c1 c2 Ht H1 H2) as Hov.
  pose proof (equivocators_cover s c1 c2 Ht H1 H2) as Hcast.
  destruct (decide (c_HeaderHash c1 = c_HeaderHash c2)) as [|Hne]; [done|exfalso].
  assert (powers (common_voters s c1 c2) <= powers (equivocators s c1 c2)); [|lia].
  apply powers_filter_mono; [apply Ht|]. intros v Hv Hvv.
  destruct (Hcast v) as (w1 & w2 & (Hi1 & Hv1 & _ & Hh1 & Hr1 & Hx1 & Hs1) & (Hi2 & Hv2 & _ & Hh2 & Hr2 & Hx2 & Hs2)).
  { by apply list_elem_of_filter. }
  apply Exists_exists. exists w1. split; [done|]. apply Exists_exists. exists w2. split; [done|].
  split; [done|]. split; [done|]. unfold conflicting. split_and!; congruence.
Qed.

(** C11: accountable agreement.  Two certificates accepted by the same validator
    set share voters holding more than a third of its power, each with a
    verified signature in both.  Hence for one height and round, if the
    validators that signed two conflicting votes hold at most a third of the
    power, the two certificates certify the same header. *)
Theorem certificate_agreement (s : ValidatorSet) (c1 c2 : Certificate) :
  ValidatorSet_typed s -> VerifyCertificate s c1 = Ok tt -> VerifyCertificate s c2 = Ok tt ->
  powers (s_Validators s) < 3 * powers (common_voters s c1 c2) /\
  (forall v, v ∈ common_voters s c1 c2 -> exists v1 v2, cast_in c1 v1 v /\ cast_in c2 v2 v) /\
  (c_Height c1 = c_Height c2 -> c_Round c1 = c_Round c2 ->
   3 * powers (equivocators s c1 c2) <= powers (s_Validators s) ->
   c_HeaderHash c1 = c_HeaderHash c2).
Proof.
  intros Ht H1 H2. split; [exact (quorum_overlap s c1 c2 Ht H1 H2)|].
  split; [exact (equivocators_cover s c1 c2 Ht H1 H2)|exact (same_round_same_header s c1 c2 Ht H1 H2)].
Qed.

(** ** Proposers *)

Lemma pick_slot_spec l slot cum :
  Forall Validator_typed l -> 0 <= cum <= slot -> slot < cum + powers l -> cum + powers l <= MaxUint64 ->
  exists l1 v l2, l = l1 ++ v :: l2 /\ pick_slot slot cum l = Ok v /\
    cum + powers l1 <= slot < cum + powers l1 + v_Power v.
Proof.
  revert cum. induction l as [|v l IH]; intros cum Ht Hc Hs Hm; [cbn in Hs; lia|].
  apply Forall_cons_1 in Ht as [[_ Hv] Ht]. rewrite powers_cons in *. pose proof (powers_nonneg l Ht).
  unfold u64, MaxUint64 in *. cbn [pick_slot].
  assert (add64 cum (v_Power v) = cum + v_Power v) as -> by (unfold add64; apply Z.mod_small; lia).
  destruct (slot <? cum + v_Power v) eqn:E.
  - exists [], v, l. cbn. split_and!; [done|done|lia|lia].
  - destruct (IH (cum + v_Power v)) as (l1 & w & l2 & -> & Hp & Hr); [done|lia|lia|lia|].
    exists (v :: l1), w, l2. rewrite powers_cons. split_and!; [done|done|lia|lia].
Qed.

Lemma validate_complete l dn :
  Forall Validator_typed (dn ++ l) -> validators_ok (dn ++ l) ->
  is_ok (rfold validate_validator (list_to_set (v_ID <$> dn), powers dn) l) = true.
Proof.
  revert dn. induction l as [|v l IH]; intros dn Ht Hok; [done|]. cbn [rfold].
  assert (validate_validator (list_to_set (v_ID <$> dn), powers dn) v
    = Ok (list_to_set (v_ID <$> (dn ++ [v])), powers (dn ++ [v]))) as ->.
  { destruct Hok as (Hnd & Hs & Hall). pose proof Ht as Ht'.
    apply Forall_app in Ht as [Htd Htl]. apply Forall_cons_1 in Htl as [[_ Hp] Htl].
    apply Forall_app in Hall as [_ Hall]. apply Forall_cons_1 in Hall as [(H1 & H2 & H3 & [xy H4]) _].
    unfold validate_validator. rewrite H2, (bool_decide_true _ H3), H4.
    assert ((v_Power v =? 0) = false) as -> by lia. cbn [Z.eqb Pos.eqb negb orb fail_if some_or mbind res_bind].
    rewrite bool_decide_false.
    2:{ rewrite elem_of_list_to_set. intros Hin. rewrite fmap_app in Hnd.
        apply NoDup_app in Hnd as (_ & Hd & _). apply (Hd _ Hin). left. }
    cbn [fail_if mbind res_bind]. rewrite powers_app, powers_cons in Hs.
    pose proof (powers_nonneg dn Htd). pose proof (powers_nonneg l Htl).
    assert (u64 (powers dn)) as Hu by (unfold u64, MaxUint64 in *; lia).
    rewrite overflows_spec by done. assert ((powers dn + v_Power v <=? MaxUint64) = true) as -> by lia.
    cbn [negb fail_if mbind res_bind]. f_equal. f_equal.
    - rewrite fmap_app, list_to_set_app_L. cbn. rewrite union_empty_r_L. by rewrite (comm_L (∪)).
    - rewrite powers_app. cbn. unfold add64. rewrite Z.mod_small by (unfold u64, MaxUint64 in *; lia). lia. }
  cbn [mbind res_bind]. apply IH; by rewrite <-app_assoc.
Qed.

(** [Validate] accepts exactly the well-formed sets. *)
Lemma ValidatorSet_Validate_iff s :
  Forall Validator_typed (s_Validators s) ->
  ValidatorSet_Validate s = Ok tt <->
  IsZero32 (s_Network s) = false /\ s_Validators s <> [] /\ validators_ok (s_Validators s).
Proof.
  intros Ht. split; [by apply ValidatorSet_Validate_Ok|]. intros (Hn & Hne & Hok).
  unfold ValidatorSet_Validate. rewrite Hn, bool_decide_false by done. cbn [orb fail_if mbind res_bind].
  destruct (is_ok_true _ (validate_complete (s_Validators s) [] Ht Hok)) as [st Hst].
  cbn in Hst. by rewrite Hst.
Qed.

Lemma validators_ok_perm l l' : l ≡ₚ l' -> validators_ok l -> validators_ok l'.
Proof.
  intros Hp (H1 & H2 & H3). unfold validators_ok. rewrite <-Hp. done.
Qed.

(** ** Sets of one root *)

Lemma index_members_elem l v : NoDup (v_ID <$> l) -> v ∈ l -> index_members l !! v_ID v = Some v.
Proof.
  induction l as [|w l IH] using rev_ind; [intros _ Hv; by apply not_elem_of_nil in Hv|].
  rewrite fmap_app. intros (Hnd & Hdis & _)%NoDup_app Hv. unfold index_members in *. rewrite foldl_app. cbn [foldl].
  apply elem_of_app in Hv as [Hv|Hv%list_elem_of_singleton].
  - rewrite lookup_insert_ne; [by apply IH|]. intros E. apply (Hdis (v_ID v)); [by apply list_elem_of_fmap_2|].
    rewrite <-E. left.
  - subst w. by rewrite lookup_insert_eq.
Qed.

Lemma index_members_perm l l' : NoDup (v_ID <$> l) -> l ≡ₚ l' -> index_members l = index_members l'.
Proof.
  intros Hnd Hp. pose proof Hnd as Hnd'. rewrite Hp in Hnd'. apply map_eq. intros id. apply option_eq. intros v. split.
  - intros [Hv <-]%index_members_Some. apply index_members_elem; [done|]. by rewrite <-Hp.
  - intros [Hv <-]%index_members_Some. apply index_members_elem; [done|]. by rewrite Hp.
Qed.

Lemma ValidatorSet_Validate_perm s s' :
  ValidatorSet_typed s -> s_Network s' = s_Network s -> s_Validators s' ≡ₚ s_Validators s ->
  ValidatorSet_Validate s = Ok tt -> ValidatorSet_Validate s' = Ok tt.
Proof.
  intros [_ Ht] Hn Hp (H1 & H2 & H3)%ValidatorSet_Validate_iff; [|done]. apply ValidatorSet_Validate_iff; [by rewrite Hp|].
  split_and!; [by rewrite Hn| |by apply (validators_ok_perm (s_Validators s))].
  intros E. rewrite E in Hp. by apply Permutation_nil_l in Hp.
Qed.

(** A certificate does not depend on the order in which a set lists its members. *)
Lemma VerifyCertificate_perm s s' c :
  ValidatorSet_typed s -> s_Network s' = s_Network s -> s_Validators s' ≡ₚ s_Validators s ->
  VerifyCertificate s c = Ok tt -> VerifyCertificate s' c = Ok tt.
Proof.
  intros Ht Hn Hp Hv. pose proof (VerifyCertificate_Ok _ _ Ht Hv) as (Hval & _).
  destruct (ValidatorSet_Validate_Ok s (proj2 Ht) Hval) as (_ & _ & Hnd & Hsum & _).
  unfold VerifyCertificate in *. rewrite (ValidatorSet_Validate_perm s s'), Hn by done. rewrite Hval in Hv.
  rewrite (index_members_perm (s_Validators s') (s_Validators s)) by (by rewrite ?Hp).
  assert (sum_power (s_Validators s') = sum_power (s_Validators s)) as ->; [|exact Hv].
  rewrite !sum_power_eq by (rewrite ?Hp; try done; by apply Ht). by rewrite Hp.
Qed.

(** What [ValidatorSet_Root] hashes. *)
Definition set_root_inputs (s : ValidatorSet) : list bytes :=
  root_inputs (str "validator") (validator_payload <$> sort_by v_ID (s_Validators s)).

Lemma validator_payload_inj v w :
  Validator_typed v -> Validator_typed w -> blen (v_PublicKey v) = 65 -> blen (v_PublicKey w) = 65 ->
  validator_payload v = validator_payload w -> v = w.
Proof.
  destruct v as [i k p], w as [j m q]. unfold Validator_typed, validator_payload. cbn [v_ID v_PublicKey v_Power].
  intros [Hi Hp] [Hj Hq] Hk Hm E. revert E. writer_norm. unfold enc_bytes. rewrite Hk, Hm. intros E.
  apply app_inj_1 in E as [-> E]; [|by rewrite Hi, Hj]. rewrite <-!app_assoc in E. apply app_inv_head in E.
  apply app_inj_1 in E as [-> E]; [|unfold blen in *; lia]. f_equal.
  rewrite <-(be_val_small 8 p), <-(be_val_small 8 q) by done. by rewrite E.
Qed.

(** Two sets of one root have the same members, or SHA-256 collides. *)
Lemma ValidatorSet_Root_binding s s' root :
  ValidatorSet_typed s -> ValidatorSet_typed s' -> blen (s_Validators s) <= 2 ^ 62 -> blen (s_Validators s') <= 2 ^ 62 ->
  ValidatorSet_Root s = Ok root -> ValidatorSet_Root s' = Ok root ->
  s_Validators s' ≡ₚ s_Validators s \/ inputs_collide (set_root_inputs s) (set_root_inputs s').
Proof.
  intros [Hn Ht] [Hn' Ht'] Hb Hb' E E'. unfold ValidatorSet_Root in E, E'.
  apply bind_Ok in E as ([] & Hv & E). apply bind_Ok in E' as ([] & Hv' & E'). apply Ok_inj in E, E'. rewrite <-E' in E. clear E'.
  apply ValidatorSet_Validate_Ok in Hv as (_ & _ & _ & _ & Hk); [|done].
  apply ValidatorSet_Validate_Ok in Hv' as (_ & _ & _ & _ & Hk'); [|done].
  assert (forall l, (fun v => Leaf (str "validator") (validator_payload v)) <$> l = Leaf (str "validator") <$> (validator_payload <$> l)) as Hl
    by (intros; by rewrite <-list_fmap_compose).
  rewrite !Hl in E. apply Root_binding in E as [E|Hcol]; [|by right|unfold blen in *; by rewrite length_fmap, sort_by_perm..].
  left. rewrite <-(sort_by_perm v_ID (s_Validators s)), <-(sort_by_perm v_ID (s_Validators s')).
  set (l := sort_by v_ID (s_Validators s)) in *. set (l' := sort_by v_ID (s_Validators s')) in *.
  assert (Forall (fun v => Validator_typed v /\ blen (v_PublicKey v) = 65) l) as Hf.
  { unfold l. rewrite sort_by_perm. apply Forall_and. split; [done|]. eapply Forall_impl; [exact Hk|]. by intros v (_ & ? & _). }
  assert (Forall (fun v => Validator_typed v /\ blen (v_PublicKey v) = 65) l') as Hf'.
  { unfold l'. rewrite sort_by_perm. apply Forall_and. split; [done|]. eapply Forall_impl; [exact Hk'|]. by intros v (_ & ? & _). }
  assert (l = l') as ->; [|done]. clearbody l l'. clear -E Hf Hf'. revert l' E Hf'. induction Hf as [|v l [Hv Hk] _ IH]; intros [|w l'] E Hf'; try done.
  apply Forall_cons_1 in Hf' as [[Hw Hk'] Hf']. cbn in E. injection E as E1 E2. f_equal; [by apply validator_payload_inj|by apply IH].
Qed.

Definition slot_of (total height round : Z) : Z :=
  add64 (sub64 height 1 mod total) (round mod total) mod total.

Lemma Proposer_eq s height round :
  ValidatorSet_typed s -> ValidatorSet_Validate s = Ok tt -> height <> 0 ->
  Proposer s height round =
  pick_slot (slot_of (powers (s_Validators s)) height round) 0 (sort_by v_ID (s_Validators s)).
Proof.
  intros [_ Ht] Hv Hh. destruct (ValidatorSet_Validate_Ok s Ht Hv) as (_ & Hne & Hok).
  unfold Proposer, TotalPower. rewrite Hv. cbn [mbind res_bind or_err].
  assert ((height =? 0) = false) as -> by lia. cbn [fail_if mbind res_bind].
  rewrite sum_power_eq by (done || apply Hok). done.
Qed.

(** The proposer is well defined.  For every valid set, height and round
    exactly one member of the set is selected, [Proposer] never fails on them,
    and every node computes the same one whatever the order of its copy of the
    set. *)
Theorem Proposer_deterministic (s s' : ValidatorSet) (height round : Z) :
  ValidatorSet_typed s -> ValidatorSet_Validate s = Ok tt -> u64 height -> height <> 0 -> u64 round ->
  s_Network s' = s_Network s -> s_Validators s' ≡ₚ s_Validators s ->
  exists v, v ∈ s_Validators s /\ Proposer s height round = Ok v /\ Proposer s' height round = Ok v.
Proof.
  intros Ht Hv Hh Hh0 Hr Hnet Hp. pose proof Ht as [Hna Htl].
  destruct (ValidatorSet_Validate_Ok s Htl Hv) as (Hn & Hne & Hok).
  pose proof (validators_ok_total _ Htl Hne Hok) as Htot. destruct Hok as (Hnd & Hsum & Hall).
  set (total := powers (s_Validators s)) in *.
  assert (0 <= slot_of total height round < total) as Hslot by (apply Z.mod_pos_bound; lia).
  assert (sort_by v_ID (s_Validators s) ≡ₚ s_Validators s) as Hsp by apply sort_by_perm.
  destruct (pick_slot_spec (sort_by v_ID (s_Validators s)) (slot_of total height round) 0) as
    (l1 & v & l2 & Hl & Hpick & _); [by rewrite Hsp|lia|rewrite Hsp; fold total; lia|rewrite Hsp; fold total; lia|].
  exists v. split_and!.
  - rewrite <-Hsp, Hl. apply elem_of_app. right. left.
  - by rewrite Proposer_eq.
  - assert (Forall Validator_typed (s_Validators s')) as Htl' by (by rewrite Hp).
    rewrite Proposer_eq; [|split; [by rewrite Hnet|done]| |done].
    + rewrite (sort_by_proper v_ID (s_Validators s') (s_Validators s)), Hp by (rewrite ?Hp; done). done.
    + apply ValidatorSet_Validate_iff; [done|]. rewrite Hnet. split_and!; [done| |].
      * intros He. rewrite He in Hp. apply Permutation_nil_l in Hp. congruence.
      * apply (validators_ok_perm (s_Validators s)); [by symmetry|done].
Qed.

(** ** Fairness *)

Lemma pick_slot_at l1 v l2 k cum :
  Forall Validator_typed (l1 ++ v :: l2) -> 0 <= cum -> cum + powers (l1 ++ v :: l2) <= MaxUint64 ->
  cum + powers l1 <= k < cum + powers l1 + v_Power v -> pick_slot k cum (l1 ++ v :: l2) = Ok v.
Proof.
  revert cum. induction l1 as [|w l1 IH]; intros cum Ht Hc Hm Hk; cbn [app] in *.
  all: apply Forall_cons_1 in Ht as [[_ Hw] Ht]; rewrite powers_cons in *;
    pose proof (powers_nonneg _ Ht); unfold u64, MaxUint64 in *; cbn [pick_slot].
  - assert (add64 cum (v_Power v) = cum + v_Power v) as -> by (unfold add64; apply Z.mod_small; lia).
    cbn in Hk. assert ((k <? cum + v_Power v) = true) as -> by lia. done.
  - assert (add64 cum (v_Power w) = cum + v_Power w) as -> by (unfold add64; apply Z.mod_small; lia).
    assert (Forall Validator_typed l1) as Ht1 by (by apply Forall_app in Ht as [? _]).
    pose proof (powers_nonneg l1 Ht1).
    assert ((k <? cum + v_Power w) = false) as -> by lia. apply IH; [done|lia|lia|lia].
Qed.

Lemma pick_slot_iff l1 v l2 k :
  Forall Validator_typed (l1 ++ v :: l2) -> NoDup (l1 ++ v :: l2) -> powers (l1 ++ v :: l2) <= MaxUint64 ->
  0 <= k < powers (l1 ++ v :: l2) ->
  pick_slot k 0 (l1 ++ v :: l2) = Ok v <-> powers l1 <= k < powers l1 + v_Power v.
Proof.
  intros Ht Hnd Hm Hk. split.
  - intros Hp. destruct (pick_slot_spec (l1 ++ v :: l2) k 0) as (l1' & v' & l2' & Hl & Hp' & Hr); [done|lia|lia|lia|].
    assert (v' = v) as -> by congruence. assert (l1' = l1) as ->; [|lia].
    assert (length l1' = length l1) as Hlen.
    { apply (NoDup_lookup (l1 ++ v :: l2) _ _ v); [done| |by rewrite list_lookup_middle].
      rewrite Hl. by rewrite list_lookup_middle. }
    by apply app_inj_1 in Hl as [? _].
  - intros Hr. apply pick_slot_at; [done|lia|lia|lia].
Qed.

Lemma length_filter_fmap {A B} (f : A -> B) (P : B -> Prop) `{!forall x, Decision (P x)} (l : list A) :
  length (filter P (f <$> l)) = length (filter (fun x => P (f x)) l).
Proof.
  induction l as [|x l IH]; [done|]. rewrite fmap_cons, !filter_cons.
  case_decide; cbn [length]; by rewrite IH.
Qed.

Lemma filter_ext_in {A} (P Q : A -> Prop) `{!forall x, Decision (P x)} `{!forall x, Decision (Q x)} (l : list A) :
  (forall x, x ∈ l -> P x <-> Q x) -> filter P l = filter Q l.
Proof.
  induction l as [|x l IH]; intros Hpq; [done|]. rewrite !filter_cons.
  rewrite IH by (intros; apply Hpq; by right). pose proof (Hpq x ltac:(left)).
  repeat case_decide; tauto.
Qed.

Lemma filter_all {A} (P : A -> Prop) `{!forall x, Decision (P x)} (l : list A) :
  Forall P l -> filter P l = l.
Proof. induction 1 as [|x l Hx _ IH]; [done|]. rewrite filter_cons_True by done. by rewrite IH. Qed.

Lemma filter_none {A} (P : A -> Prop) `{!forall x, Decision (P x)} (l : list A) :
  Forall (fun x => ~ P x) l -> filter P l = [].
Proof. induction 1 as [|x l Hx _ IH]; [done|]. by rewrite filter_cons_False. Qed.

(** The slots of an interval inside [0, T). *)
Lemma count_interval (P : Z -> Prop) `{!forall x, Decision (P x)} T a b :
  0 <= a <= b -> b <= T -> (forall k, 0 <= k < T -> P k <-> a <= k < b) ->
  length (filter P (seqZ 0 T)) = Z.to_nat (b - a).
Proof.
  intros Hab HbT HP.
  replace T with (a + ((b - a) + (T - b))) at 1 by lia.
  rewrite seqZ_app, seqZ_app, !filter_app by lia.
  rewrite (filter_none P (seqZ 0 a)), (filter_all P (seqZ (0 + a) (b - a))), (filter_none P (seqZ (0 + a + (b - a)) (T - b))).
  - cbn. rewrite app_nil_r. apply length_seqZ.
  - apply Forall_forall. intros k Hk%elem_of_seqZ. rewrite HP; lia.
  - apply Forall_forall. intros k Hk%elem_of_seqZ. rewrite HP; lia.
  - apply Forall_forall. intros k Hk%elem_of_seqZ. rewrite HP; lia.
Qed.

(** A window of [T] heights visits every slot once. *)
Lemma slots_permutation T h0 r :
  0 < T <= 2 ^ 63 -> 1 <= h0 -> h0 + T <= 2 ^ 64 -> 0 <= r ->
  (fun h => slot_of T h r) <$> seqZ h0 T ≡ₚ seqZ 0 T.
Proof.
  intros HT Hh Hw Hr.
  assert (forall h, h0 <= h < h0 + T -> slot_of T h r = (h - 1 + r) mod T) as Hslot.
  { intros h Hrange. unfold slot_of, add64, sub64. rewrite (Z.mod_small (h - 1)) by lia.
    pose proof (Z.mod_pos_bound (h - 1) T ltac:(lia)). pose proof (Z.mod_pos_bound r T ltac:(lia)).
    rewrite (Z.mod_small (_ + _)) by lia. by rewrite <-Z.add_mod by lia. }
  apply submseteq_length_Permutation; [|rewrite length_fmap, !length_seqZ; lia].
  apply NoDup_submseteq.
  - apply NoDup_fmap_2_strong; [|apply NoDup_seqZ]. intros x y Hx%elem_of_seqZ Hy%elem_of_seqZ.
    rewrite !Hslot by lia. intros Heq.
    assert ((x - y) mod T = 0) as Hd.
    { replace (x - y) with ((x - 1 + r) - (y - 1 + r)) by lia.
      rewrite Zminus_mod, Heq, Z.sub_diag. apply Z.mod_0_l. lia. }
    apply Z.mod_divide in Hd as [q Hq]; [|lia]. assert (q = 0) by nia. lia.
  - intros k (h & -> & Hh'%elem_of_seqZ)%list_elem_of_fmap. apply elem_of_seqZ. rewrite Hslot by lia.
    pose proof (Z.mod_pos_bound (h - 1 + r) T ltac:(lia)). lia.
Qed.

(** Proposer selection is fair.  Over any window of as many consecutive
    heights as the set has voting power, in any round, every validator is
    selected exactly as many times as it has power (total power at most 2^63,
    beyond which the slot addition of the code wraps). *)
Theorem Proposer_fair (s : ValidatorSet) (v : Validator) (h0 round : Z) :
  ValidatorSet_typed s -> ValidatorSet_Validate s = Ok tt -> v ∈ s_Validators s ->
  let total := powers (s_Validators s) in
  total <= 2 ^ 63 -> 1 <= h0 -> h0 + total <= 2 ^ 64 -> u64 round ->
  length (filter (fun h => Proposer s h round = Ok v) (seqZ h0 total)) = Z.to_nat (v_Power v).
Proof.
  intros Ht Hv Hin total Hmax Hh Hw Hr. pose proof Ht as [_ Htl].
  destruct (ValidatorSet_Validate_Ok s Htl Hv) as (Hn & Hne & Hok).
  pose proof (validators_ok_total _ Htl Hne Hok) as Htot. fold total in Htot.
  set (l := sort_by v_ID (s_Validators s)).
  assert (l ≡ₚ s_Validators s) as Hsp by apply sort_by_perm.
  assert (powers l = total) as Hpl by (by rewrite Hsp).
  rewrite <-Hsp in Hin. apply list_elem_of_split in Hin as (l1 & l2 & Hl).
  assert (Forall Validator_typed l) as Htt by (by rewrite Hsp).
  assert (NoDup l) as Hnd by (rewrite Hsp; eapply NoDup_fmap_1; apply Hok).
  transitivity (length (filter (fun k => pick_slot k 0 l = Ok v) ((fun h => slot_of total h round) <$> seqZ h0 total))).
  { rewrite (length_filter_fmap (fun h => slot_of total h round) (fun k => pick_slot k 0 l = Ok v)).
    f_equal. apply filter_ext_in. intros h Hin%elem_of_seqZ. by rewrite Proposer_eq by (done || lia). }
  rewrite (slots_permutation total h0 round) by (unfold u64 in Hr; lia). rewrite Hl in *.
  rewrite powers_app, powers_cons in Hpl.
  assert (0 <= powers l1 /\ 0 <= powers l2 /\ 0 <= v_Power v) as (Hp1 & Hp2 & Hp3).
  { apply Forall_app in Htt as [Ha Hb]. apply Forall_cons_1 in Hb as [[_ Hb] Hc]. unfold u64 in Hb.
    split_and!; [by apply powers_nonneg|by apply powers_nonneg|lia]. }
  rewrite (count_interval _ total (powers l1) (powers l1 + v_Power v)) by
    (try lia; intros k Hk; apply pick_slot_iff; try done; rewrite powers_app, powers_cons; lia).
  f_equal. lia.
Qed.
End consensus.

(** ** Wire formats *)

Definition Vote_typed (v : Vote) : Prop :=
  arr32 (vt_Network v) /\ u64 (vt_Height v) /\ u64 (vt_Round v) /\ arr32 (vt_HeaderHash v) /\ arr32 (vt_Voter v).
Definition Certificate_typed (c : Certificate) : Prop :=
  arr32 (c_Network c) /\ u64 (c_Height c) /\ u64 (c_Round c) /\ arr32 (c_HeaderHash c) /\
  Forall Vote_typed (c_Votes c).

Lemma ParseVote_Ok d v : ParseVote d = Ok v -> Vote_typed v /\ Vote_valid v = true /\ vote_payload v = d.
Proof.
  unfold ParseVote. intros H. parse_inv. unfold Vote_typed. rewrite !blen32.
  cbn [vt_Network vt_Height vt_Round vt_HeaderHash vt_Voter]. split; [done|]. split.
  - unfold Vote_valid. cbn [vt_Network vt_Height vt_HeaderHash vt_Voter vt_PublicKey vt_Signature].
    match goal with H : IsZero32 _ || _ || _ = false |- _ => apply orb_false_iff in H as [[-> ->]%orb_false_iff ->] end.
    rewrite !orb_false_r. apply negb_true_iff. repeat (apply orb_false_iff; split); done.
  - unfold vote_payload. writer_norm. rest_rw. by rewrite app_nil_r.
Qed.

Lemma ParseVote_payload v : Vote_typed v -> Vote_valid v = true -> ParseVote (vote_payload v) = Ok v.
Proof.
  intros (H1 & H2 & H3 & H4 & H5) Hv. unfold Vote_valid in Hv. apply negb_true_iff in Hv.
  repeat (apply orb_false_iff in Hv as [Hv ?]). rewrite blen32 in *.
  unfold ParseVote, vote_payload. apply reads_parse. writer_norm. destruct v as [n h rd hh vo pk sg].
  cbn [vt_Network vt_Height vt_Round vt_HeaderHash vt_Voter vt_PublicKey vt_Signature] in *.
  solve_reads; try done; try lia. repeat (apply orb_false_iff; split); done.
Qed.

Lemma vote_payload_length v : Vote_typed v -> Vote_valid v = true -> blen (vote_payload v) <= 512.
Proof.
  intros (H1 & _ & _ & H4 & H5) Hv. unfold Vote_valid in Hv. apply negb_true_iff in Hv.
  repeat (apply orb_false_iff in Hv as [Hv ?]). unfold vote_payload. writer_norm. unfold enc_bytes, blen, arr in *.
  rewrite !length_app, !length_be, H1, H4, H5. lia.
Qed.

Definition enc_vote (v : Vote) : bytes := enc_bytes (vote_payload v).
Definition Vote_ok (v : Vote) : Prop := Vote_typed v /\ Vote_valid v = true.

Lemma read_vote_Ok r v r' : read_vote r = Ok (v, r') -> rest r = enc_vote v ++ rest r' /\ Vote_ok v.
Proof.
  unfold read_vote. intros H. parse_inv.
  match goal with H : ParseVote _ = Ok _ |- _ => apply ParseVote_Ok in H as (? & ? & <-) end. done.
Qed.

Lemma reads_vote post v : Vote_ok v -> reads post read_vote (enc_vote v) v.
Proof.
  intros [Ht Hv]. pose proof (vote_payload_length v Ht Hv). unfold read_vote, enc_vote. solve_reads; try done.
  by apply ParseVote_payload.
Qed.

Lemma marshal_votes votes w w' :
  rfold (fun w vote => raw ← Vote_MarshalBinary vote; Ok (Writer.Bytes raw w)) w votes = Ok w' <->
  Forall (fun v => Vote_valid v = true) votes /\ w' = w ++ concat (enc_vote <$> votes).
Proof.
  revert w. induction votes as [|v votes IH]; intros w; cbn [rfold].
  - rewrite app_nil_r. split; [intros [= <-]; done|by intros [_ ->]].
  - assert (Vote_MarshalBinary v = if Vote_valid v then Ok (vote_payload v) else Err ErrVote) as ->
      by (unfold Vote_MarshalBinary; by destruct (Vote_valid v)).
    destruct (Vote_valid v) eqn:E; cbn [mbind res_bind].
    + rewrite IH, Forall_cons, writer_bytes, <-app_assoc. cbn [fmap list_fmap concat]. tauto.
    + rewrite Forall_cons. split; [done|]. intros [[? _] _]. congruence.
Qed.

Definition cert_header_ok (c : Certificate) : Prop :=
  0 < blen (c_Votes c) <= MaxCertificateVotes /\ c_Height c <> 0 /\ IsZero32 (c_Network c) = false /\
  IsZero32 (c_HeaderHash c) = false /\ Forall (fun v => Vote_valid v = true) (c_Votes c).

Definition cert_payload (c : Certificate) : bytes :=
  c_Network c ++ be 8 (c_Height c) ++ be 8 (c_Round c) ++ c_HeaderHash c ++ be 4 (blen (c_Votes c))
  ++ concat (enc_vote <$> c_Votes c).

Lemma Certificate_MarshalBinary_Ok c d :
  Certificate_MarshalBinary c = Ok d <-> cert_header_ok c /\ d = cert_payload c.
Proof.
  unfold Certificate_MarshalBinary, cert_header_ok, cert_payload.
  assert (0 <= blen (c_Votes c)) by (unfold blen; lia). split.
  - intros Hm. apply bind_Ok in Hm as (? & Hg%fail_if_Ok & Hm).
    apply bind_Ok in Hm as (w & Hw%marshal_votes & Hm). injection Hm as <-.
    repeat (apply orb_false_iff in Hg as [Hg ?]). destruct Hw as [Hf ->].
    split; [split_and!; try done; lia|]. writer_norm. by rewrite be4_mod.
  - intros [(Hn & Hh & Hz1 & Hz2 & Hf) ->].
    assert ((blen (c_Votes c) =? 0) || (MaxCertificateVotes <? blen (c_Votes c)) || (c_Height c =? 0)
      || IsZero32 (c_Network c) || IsZero32 (c_HeaderHash c) = false) as -> by (rewrite Hz1, Hz2; lia).
    cbn [fail_if mbind res_bind].
    rewrite (proj2 (marshal_votes _ _ _) (conj Hf eq_refl)). cbn [mbind res_bind]. f_equal.
    writer_norm. by rewrite be4_mod.
Qed.

(** The certificate wire format is canonical: [ParseCertificate] accepts
    exactly the marshalled forms of certificates with between one and 4096
    well-formed votes, a height, a network and a header hash. *)
Theorem ParseCertificate_canonical (d : bytes) (c : Certificate) :
  ParseCertificate d = Ok c <-> Certificate_typed c /\ Certificate_MarshalBinary c = Ok d.
Proof.
  rewrite Certificate_MarshalBinary_Ok. unfold Certificate_typed, cert_header_ok, cert_payload. split.
  - unfold ParseCertificate. intros H. parse_inv.
    match goal with H : prepeat _ _ _ = Ok _ |- _ => apply (prepeat_Ok _ _ _ _ read_vote_Ok) in H as (Hlen & ? & Hok) end.
    match goal with H : IsZero32 _ || _ = false |- _ => apply orb_false_iff in H as [Hz1 Hz2] end.
    cbn [c_Network c_Height c_Round c_HeaderHash c_Votes]. unfold u32 in *.
    apply blen_count in Hlen as Hb; [|lia]. rewrite Hb, !blen32.
    unfold MaxCertificateVotes in *. split; [split_and!; try done|split; [split_and!; try done; try lia|]].
    + eapply Forall_impl; [exact Hok|]. by intros ? [? _].
    + eapply Forall_impl; [exact Hok|]. by intros ? [_ ?].
    + rest_rw. by rewrite app_nil_r.
  - intros [(H1 & H2 & H3 & H4 & H5) [(Hn & Hh & Hz1 & Hz2 & Hf) ->]].
    assert (Forall Vote_ok (c_Votes c)) as Hok.
    { rewrite Forall_forall in *. intros v Hv. split; auto. }
    unfold ParseCertificate. apply reads_parse. rewrite blen32 in *. destruct c as [n h rd hh vs].
    cbn [c_Network c_Height c_Round c_HeaderHash c_Votes] in *. unfold MaxCertificateVotes in *.
    rewrite <-(app_nil_r (concat _)). solve_reads; try done; try (unfold u32; lia).
    + unfold blen. rewrite Nat2Z.id. apply reads_repeat. intros x post' Hx. apply reads_vote.
      rewrite Forall_forall in Hok. by apply Hok.
    + by rewrite Hz1, Hz2.
Qed.

(** ** Certified transitions *)

Section transitions.
Context `{Crypto}.

Lemma VerifyCertifiedTransition_Ok h c cur nxt :
  VerifyCertifiedTransition h c cur nxt = Ok tt ->
  ValidatorSet_Root cur = Ok (h_ValidatorRoot h) /\ c_Height c = h_Height h /\
  c_HeaderHash c = HeaderConsensusHash h /\ VerifyCertificate cur c = Ok tt /\
  ValidatorSet_Root nxt = Ok (EffectiveNextValidatorRoot h) /\ s_Network nxt = h_Network h.
Proof.
  unfold VerifyCertifiedTransition. intros Hv.
  apply bind_Ok in Hv as (root & H1%or_err_Ok & Hv). apply bind_Ok in Hv as (? & H2%fail_if_Ok & Hv).
  apply bind_Ok in Hv as (? & H3%fail_if_Ok & Hv). apply bind_Ok in Hv as ([] & H4 & Hv).
  apply bind_Ok in Hv as (nroot & H5%or_err_Ok & Hv%fail_if_Ok).
  apply orb_false_iff in H2 as [_ H2]. repeat (apply orb_false_iff in H3 as [H3 ?]). apply orb_false_iff in Hv as [Hn Hr].
  repeat match goal with Hb : negb (bool_decide _) = false |- _ => apply negb_false_iff, bool_decide_eq_true_1 in Hb end.
  subst. split_and!; try done. lia.
Qed.

(** The bytes hashed for the consensus hash of a header. *)
Definition header_input (h : GlobalHeader) : bytes :=
  domain_preimage (str "zephyr/global-header-consensus/v2") (GlobalHeader_CanonicalBytes (clear_certificate h)).

Lemma clear_certificate_ok h : GlobalHeader_ok h -> GlobalHeader_ok (clear_certificate h).
Proof. unfold GlobalHeader_ok. cbn. intros (?&?&?&?&?&?&?&?&?&?&?). split_and!; done. Qed.

Lemma HeaderConsensusHash_binding h1 h2 :
  GlobalHeader_ok h1 -> GlobalHeader_ok h2 -> HeaderConsensusHash h1 = HeaderConsensusHash h2 ->
  clear_certificate h1 = clear_certificate h2 \/
  (header_input h1 <> header_input h2 /\ sha256 (header_input h1) = sha256 (header_input h2)).
Proof.
  intros H1%clear_certificate_ok H2%clear_certificate_ok Heq.
  destruct (decide (header_input h1 = header_input h2)) as [E|E]; [left|by right].
  unfold header_input, domain_preimage in E. do 2 apply app_inv_head in E.
  apply app_inj_1 in E as [_ E]; [|by rewrite !length_be].
  pose proof (ParseGlobalHeader_CanonicalBytes _ H1) as P1. rewrite E, ParseGlobalHeader_CanonicalBytes in P1 by done.
  congruence.
Qed.

(** The trust chain does not fork within a round.  If the current set
    certifies two transitions at one height and round, and at most a third of
    its power signed conflicting votes, then both headers agree on everything
    but the stored certificate hash and authorise the same next validator
    root; otherwise the two headers are a SHA-256 collision. *)
Theorem certified_transition_agreement (h1 h2 : GlobalHeader) (c1 c2 : Certificate) (cur n1 n2 : ValidatorSet) :
  ValidatorSet_typed cur -> GlobalHeader_ok h1 -> GlobalHeader_ok h2 ->
  VerifyCertifiedTransition h1 c1 cur n1 = Ok tt -> VerifyCertifiedTransition h2 c2 cur n2 = Ok tt ->
  h_Height h1 = h_Height h2 -> c_Round c1 = c_Round c2 ->
  3 * powers (equivocators cur c1 c2) <= powers (s_Validators cur) ->
  (clear_certificate h1 = clear_certificate h2 /\ ValidatorSet_Root n1 = ValidatorSet_Root n2) \/
  (header_input h1 <> header_input h2 /\ sha256 (header_input h1) = sha256 (header_input h2)).
Proof.
  intros Ht Hok1 Hok2 (_ & Hh1 & Hx1 & Hc1 & Hn1 & _)%VerifyCertifiedTransition_Ok
    (_ & Hh2 & Hx2 & Hc2 & Hn2 & _)%VerifyCertifiedTransition_Ok Hh Hr Hfew.
  pose proof (quorum_overlap cur c1 c2 Ht Hc1 Hc2) as Hov.
  assert (c_HeaderHash c1 = c_HeaderHash c2) as Heq.
  { apply (same_round_same_header cur); try done. congruence. }
  rewrite Hx1, Hx2 in Heq. destruct (HeaderConsensusHash_binding h1 h2 Hok1 Hok2 Heq) as [Hc|Hcol]; [left|by right].
  split; [done|]. rewrite Hn1, Hn2. f_equal. unfold EffectiveNextValidatorRoot.
  apply (f_equal (fun h => (h_ValidatorRoot h, h_NextValidatorRoot h))) in Hc. cbn in Hc.
  injection Hc as Hv Hnx. by rewrite Hv, Hnx.
Qed.

(** One certificate never accuses anybody. *)
Lemma equivocators_self s c :
  ValidatorSet_typed s -> VerifyCertificate s c = Ok tt -> equivocators s c c = [].
Proof.
  intros Ht (_ & _ & _ & _ & vs & Hf & _)%VerifyCertificate_Ok; [|done].
  assert (forall w, w ∈ c_Votes c -> vt_HeaderHash w = c_HeaderHash c) as Hall.
  { intros w (i & Hi)%list_elem_of_lookup.
    destruct (Forall2_lookup_l _ _ _ _ _ Hf Hi) as (v & _ & _ & Hc). apply Hc. }
  apply filter_none, Forall_forall. intros v _ (w1 & H1 & (w2 & H2 & _ & _ & _ & _ & Hne)%Exists_exists)%Exists_exists.
  apply Hne. by rewrite !Hall.
Qed.
End transitions.

(** ** Four validators of power 1, 2, 3 and 4 *)

Definition sample_key (i : Z) : bytes := x04 :: be 64 i.
Definition sample_validator (i : Z) : Validator :=
  mkValidator (ValidatorIDFromPublicKey (H:=small_crypto) (sample_key i)) (sample_key i) i.
Definition sample_set : ValidatorSet := mkValidatorSet (be 32 3) (sample_validator <$> [1; 2; 3; 4]).
Definition sample_vote (i : Z) : Vote :=
  mkVote (be 32 3) 7 0 (be 32 55) (v_ID (sample_validator i)) (sample_key i) (be 32 1 ++ be 32 1).
Definition sample_certificate (l : list Z) : Certificate :=
  mkCertificate (be 32 3) 7 0 (be 32 55) (sample_vote <$> l).

Lemma sample_set_typed : ValidatorSet_typed sample_set.
Proof.
  split; [reflexivity|].
  repeat constructor; vm_compute; first [reflexivity|discriminate].
Qed.

Lemma certificate_agreement_witness :
  powers (s_Validators sample_set)
  < 3 * powers (common_voters sample_set (sample_certificate [1; 2; 4]) (sample_certificate [4; 3])) /\
  (3 * powers (equivocators (H:=small_crypto) sample_set (sample_certificate [1; 2; 4]) (sample_certificate [4; 3]))
     <= powers (s_Validators sample_set) ->
   c_HeaderHash (sample_certificate [1; 2; 4]) = c_HeaderHash (sample_certificate [4; 3])).
Proof.
  destruct (certificate_agreement (H:=small_crypto) sample_set (sample_certificate [1; 2; 4]) (sample_certificate [4; 3]))
    as (H1 & _ & H3).
  - exact sample_set_typed.
  - vm_compute. reflexivity.
  - vm_compute. reflexivity.
  - split; [exact H1|exact (H3 eq_refl eq_refl)].
Defined.

Lemma Proposer_deterministic_witness :
  exists v, v ∈ s_Validators sample_set /\ Proposer (H:=small_crypto) sample_set 5 2 = Ok v /\
    Proposer (H:=small_crypto) (mkValidatorSet (be 32 3) (reverse (s_Validators sample_set))) 5 2 = Ok v.
Proof.
  refine (Proposer_deterministic (H:=small_crypto) sample_set
    (mkValidatorSet (be 32 3) (reverse (s_Validators sample_set))) 5 2 sample_set_typed _ _ _ _ _ _).
  - vm_compute. reflexivity.
  - split; [discriminate|reflexivity].
  - discriminate.
  - split; [discriminate|reflexivity].
  - reflexivity.
  - apply reverse_Permutation.
Defined.

Lemma Proposer_fair_witness :
  length (filter (fun h => Proposer (H:=small_crypto) sample_set h 3 = Ok (sample_validator 4)) (seqZ 100 10)) = 4%nat.
Proof.
  refine (Proposer_fair (H:=small_crypto) sample_set (sample_validator 4) 100 3 sample_set_typed _ _ _ _ _ _).
  - vm_compute. reflexivity.
  - right. right. right. left.
  - vm_compute. discriminate.
  - discriminate.
  - vm_compute. discriminate.
  - split; [discriminate|reflexivity].
Defined.

Definition sample_validator_root : bytes := ok_or [] (ValidatorSet_Root (H:=small_crypto) sample_set).
Definition header_with (cert : bytes) : GlobalHeader :=
  mkGlobalHeader 2 (be 32 3) 7 zero32 (be 32 12) sample_validator_root zero32 zero32 cert.
Definition header_votes (l : list Z) : list Vote :=
  (fun i => mkVote (be 32 3) 7 0 (HeaderConsensusHash (H:=small_crypto) (header_with zero32)) (v_ID (sample_validator i))
     (sample_key i) (be 32 1 ++ be 32 1)) <$> l.
Definition header_certificate : Certificate :=
  mkCertificate (be 32 3) 7 0 (HeaderConsensusHash (H:=small_crypto) (header_with zero32)) (header_votes [1; 3; 4]).
Definition certified_header : GlobalHeader := header_with (Certificate_Hash (H:=small_crypto) header_certificate).

Lemma certified_transition_agreement_witness :
  (clear_certificate certified_header = clear_certificate certified_header /\
   ValidatorSet_Root (H:=small_crypto) sample_set = ValidatorSet_Root (H:=small_crypto) sample_set) \/
  (header_input certified_header <> header_input certified_header /\
   sha256 (Crypto:=small_crypto) (header_input certified_header) = sha256 (Crypto:=small_crypto) (header_input certified_header)).
Proof.
  assert (VerifyCertifiedTransition (H:=small_crypto) certified_header header_certificate sample_set sample_set = Ok tt)
    as Hv by (vm_compute; reflexivity).
  assert (GlobalHeader_ok certified_header) as Hok.
  { unfold GlobalHeader_ok, arr, u64. vm_compute. intuition (discriminate || reflexivity). }
  refine (certified_transition_agreement (H:=small_crypto) certified_header certified_header header_certificate
    header_certificate sample_set sample_set sample_set sample_set_typed Hok Hok Hv Hv eq_refl eq_refl _).
  rewrite (equivocators_self (H:=small_crypto) sample_set header_certificate sample_set_typed).
  - vm_compute. discriminate.
  - vm_compute. reflexivity.
Defined.
