(* ===== verification/SigningGuard.v ===== *)
(** * SigningGuard

    The durable signing guard of [internal/v2/consensus/signing_guard.go]: a
    hash-chained journal of signing intents, written before a validator signs,
    and replayed when the guard is opened.

    The journal file is its byte contents.  A write or sync that fails may have
    put any number of bytes of the record on disk; the outcome of the two
    system calls is an argument of [Authorize].  The file lock, permissions and
    directory handling of the operating system are not modelled: one guard owns
    the file, as the lock ensures. *)

From S2P Require Import Prelude GoLib Codec Crypto Types.

Open Scope Z_scope.

Definition signingJournalMagic : bytes := str "ZSG2".
Definition signingJournalVersion : Z := 1.
Definition signingJournalHeaderBytes : Z := 69.
Definition signingJournalRecordBytes : Z := 112.

Record Guard := mkGuard {
  g_file : bytes;
  g_network : bytes;
  g_validator : bytes;
  g_height : Z;
  g_round : Z;
  g_target : bytes;
  g_lastRecordHash : bytes;
  g_hasRecord : bool;
  g_closed : bool;
  g_poisoned : bool;
}.

(** [g.height, g.round, g.target, g.lastRecordHash, g.hasRecord = ...] *)
Definition set_record (g : Guard) (file : bytes) (height round : Z) (target hash : bytes) : Guard :=
  mkGuard file (g_network g) (g_validator g) height round target hash true (g_closed g) (g_poisoned g).

Definition poison (g : Guard) (file : bytes) : Guard :=
  mkGuard file (g_network g) (g_validator g) (g_height g) (g_round g) (g_target g) (g_lastRecordHash g)
    (g_hasRecord g) (g_closed g) true.

Definition journal_header (network validator : bytes) : bytes :=
  Writer.BytesCopy (Writer.new |> Writer.Fixed signingJournalMagic |> Writer.U8 signingJournalVersion
    |> Writer.Fixed network |> Writer.Fixed validator).

Section guard.
Context `{Crypto}.

Definition record_body (height round : Z) (target previous : bytes) : bytes :=
  Writer.BytesCopy (Writer.new |> Writer.U64 height |> Writer.U64 round |> Writer.Fixed target
    |> Writer.Fixed previous).
Definition intent_hash (body : bytes) : bytes := DomainHash (str "zephyr/consensus/signing-intent/v1") body.

(** The fields of a record: height, round, target, previous hash, hash. *)
Definition read_record : parser (Z * Z * bytes * bytes * bytes) :=
  height ← Rd.U64;
  round ← Rd.U64;
  target ← Rd.Fixed 32;
  prev ← Rd.Fixed 32;
  hash ← Rd.Fixed 32;
  Rd.Done;;
  mret (height, round, target, prev, hash).

(** One record of the journal, read from its 112 bytes. *)
Definition replay_record (g : Guard) (raw : bytes) : res Guard :=
  '(height, round, target, prev, hash) ← parse read_record raw <?> ErrSigningJournal;
  fail_if (height =? 0) ErrSigningJournal;;
  fail_if (IsZero32 target || negb (bool_decide (prev = g_lastRecordHash g))
           || negb (bool_decide (hash = intent_hash (firstn 80 raw)))) ErrSigningJournal;;
  fail_if (g_hasRecord g && ((height <? g_height g) || ((height =? g_height g) && (round <=? g_round g))))
    ErrSigningJournal;;
  Ok (set_record g (g_file g) height round target hash).

(** The read loop: [io.ReadFull] returns [io.EOF] at the end of the file and an
    error on a partial record.  The local [previous] is always
    [g.lastRecordHash] (both start as the zero hash).  Every turn reads 112
    bytes, so the length of the file bounds the number of turns. *)
Fixpoint replay_records (fuel : nat) (g : Guard) (data : bytes) : res Guard :=
  match fuel with
  | O => Ok g
  | S fuel =>
      if bool_decide (data = []) then Ok g
      else
        fail_if (blen data <? signingJournalRecordBytes) ErrSigningJournal;;
        g ← replay_record g (firstn 112 data);
        replay_records fuel g (skipn 112 data)
  end.

Definition replay (g : Guard) : res Guard :=
  let data := g_file g in
  fail_if (blen data <? signingJournalHeaderBytes) ErrSigningJournal;;
  let header := firstn 69 data in
  fail_if (negb (bool_decide (slice header 0 4 = signingJournalMagic))
           || negb (bool_decide (slice header 4 5 = [byte_of_Z signingJournalVersion]))) ErrSigningJournal;;
  fail_if (negb (bool_decide (slice header 5 37 = g_network g))
           || negb (bool_decide (slice header 37 69 = g_validator g))) ErrSigningGuard;;
  replay_records (length data) g (skipn 69 data).

(** [file = None]: the journal did not exist and is created with its header. *)
Definition OpenDurableSigningGuard (file : option bytes) (network validator : bytes) : res Guard :=
  fail_if (IsZero32 network || IsZero32 validator) ErrSigningGuard;;
  let contents := match file with Some f => f | None => journal_header network validator end in
  replay (mkGuard contents network validator 0 0 zero32 zero32 false false false).

Definition Matches (g : Guard) (network validator : bytes) : bool :=
  negb (g_closed g) && negb (g_poisoned g) && bool_decide (g_network g = network)
  && bool_decide (g_validator g = validator).

Definition Authorize (g : Guard) (io : io_outcome) (network validator : bytes) (height round : Z)
    (target : bytes) : Guard * res unit :=
  if g_closed g || g_poisoned g || negb (bool_decide (g_network g = network))
     || negb (bool_decide (g_validator g = validator)) || (height =? 0) || IsZero32 target
  then (g, Err ErrSigningGuard)
  else if g_hasRecord g && ((height <? g_height g) || ((height =? g_height g) && (round <? g_round g)))
  then (g, Err ErrSigningConflict)
  else if g_hasRecord g && ((height =? g_height g) && (round =? g_round g))
  then (g, if bool_decide (target = g_target g) then Ok tt else Err ErrSigningConflict)
  else
    let body := record_body height round target (g_lastRecordHash g) in
    let digest := intent_hash body in
    let encoded := body ++ digest in
    if negb (blen encoded =? signingJournalRecordBytes)
    then (poison g (g_file g), Err ErrSigningJournal)
    else match io with
         | IoFail n => (poison g (g_file g ++ firstn n encoded), Err ErrSigningJournal)
         | IoOk => (set_record g (g_file g ++ encoded) height round target digest, Ok tt)
         end.

Definition Close (g : Guard) : Guard :=
  mkGuard (g_file g) (g_network g) (g_validator g) (g_height g) (g_round g) (g_target g)
    (g_lastRecordHash g) (g_hasRecord g) true (g_poisoned g).
End guard.
