(* ===== verification/SigningGuardProofs.v ===== *)
(** * SigningGuardProofs

    A validator that asks the guard before signing never signs two headers for
    one height and round, through any interleaving of requests, failed writes,
    crashes and restarts; and the journal restores the guard exactly. *)

From S2P Require Import Prelude GoLib Codec Crypto Types SigningGuard.

Open Scope Z_scope.

(** ** Intents and their order *)

Record intent := mkIntent { i_height : Z; i_round : Z; i_target : bytes }.

Definition intent_typed (i : intent) : Prop := u64 (i_height i) /\ u64 (i_round i) /\ arr32 (i_target i).
Definition intent_ok (i : intent) : Prop :=
  intent_typed i /\ i_height i <> 0 /\ IsZero32 (i_target i) = false.

(** (height, round) in lexicographic order. *)
Definition before (i j : intent) : Prop :=
  i_height i < i_height j \/ (i_height i = i_height j /\ i_round i < i_round j).
Definition not_after (i j : intent) : Prop :=
  i_height i < i_height j \/ (i_height i = i_height j /\ i_round i <= i_round j).

Lemma before_trans i j k : before i j -> before j k -> before i k.
Proof. unfold before. lia. Qed.

Definition increasing (l : list intent) : Prop := StronglySorted before l.

Lemma increasing_same l i j :
  increasing l -> i ∈ l -> j ∈ l -> i_height i = i_height j -> i_round i = i_round j -> i = j.
Proof.
  induction 1 as [|x l _ IH Hx]; intros Hi Hj Hh Hr; [by apply not_elem_of_nil in Hi|].
  rewrite Forall_forall in Hx.
  apply elem_of_cons in Hi as [->|Hi], Hj as [->|Hj]; [done| | |by apply IH].
  - specialize (Hx j Hj). unfold before in Hx. lia.
  - specialize (Hx i Hi). unfold before in Hx. lia.
Qed.

Lemma increasing_snoc l i :
  increasing l -> (forall j, last l = Some j -> before j i) -> increasing (l ++ [i]).
Proof.
  induction 1 as [|x l Hs IH Hx]; intros Hl; cbn; [by repeat constructor|].
  constructor.
  - apply IH. intros j Hj. apply Hl. destruct l; [done|exact Hj].
  - apply Forall_app. split; [done|]. constructor; [|constructor].
    destruct (last l) as [j|] eqn:E.
    + apply before_trans with j; [|apply Hl; destruct l; [done|exact E]].
      rewrite Forall_forall in Hx. apply Hx. by apply last_Some_elem_of.
    + apply last_None in E as ->. by apply Hl.
Qed.

Lemma increasing_last l i j : increasing l -> i ∈ l -> last l = Some j -> not_after i j.
Proof.
  induction 1 as [|x l Hs IH Hx]; intros Hi Hj; [by apply not_elem_of_nil in Hi|].
  destruct l as [|y l].
  - cbn in Hj. injection Hj as <-. apply list_elem_of_singleton in Hi as ->. right. lia.
  - change (last (y :: l) = Some j) in Hj. apply elem_of_cons in Hi as [->|Hi]; [|by apply IH].
    rewrite Forall_forall in Hx. assert (before x j) as Hb by (apply Hx; by apply last_Some_elem_of).
    unfold before, not_after in *. lia.
Qed.

Section guard.
Context `{Crypto}.

(** ** The journal as a list of intents *)

Definition enc_intent (prev : bytes) (i : intent) : bytes :=
  let body := record_body (i_height i) (i_round i) (i_target i) prev in body ++ intent_hash body.
Definition intent_digest (prev : bytes) (i : intent) : bytes :=
  intent_hash (record_body (i_height i) (i_round i) (i_target i) prev).

Fixpoint enc_intents (prev : bytes) (l : list intent) : bytes :=
  match l with
  | [] => []
  | i :: l => enc_intent prev i ++ enc_intents (intent_digest prev i) l
  end.
Definition last_digest (prev : bytes) (l : list intent) : bytes := foldl intent_digest prev l.

(** Replaying one intent on the in-memory guard. *)
Definition apply_intent (g : Guard) (i : intent) : Guard :=
  set_record g (g_file g) (i_height i) (i_round i) (i_target i) (intent_digest (g_lastRecordHash g) i).

Lemma record_body_eq h r t p : record_body h r t p = be 8 h ++ be 8 r ++ t ++ p.
Proof. unfold record_body. by writer_norm. Qed.

Lemma record_body_length h r t p : arr32 t -> arr32 p -> length (record_body h r t p) = 80%nat.
Proof. unfold arr. intros Ht Hp. rewrite record_body_eq, !length_app, !length_be, Ht, Hp. done. Qed.

Lemma enc_intent_length p i : arr32 (i_target i) -> arr32 p -> length (enc_intent p i) = 112%nat.
Proof.
  intros Ht Hp. unfold enc_intent. rewrite length_app, record_body_length by done.
  unfold intent_hash. by rewrite length_DomainHash.
Qed.

Lemma intent_digest_length p i : arr32 (intent_digest p i).
Proof. apply length_DomainHash. Qed.

Lemma enc_intents_app p l1 l2 : enc_intents p (l1 ++ l2) = enc_intents p l1 ++ enc_intents (last_digest p l1) l2.
Proof.
  revert p. induction l1 as [|i l1 IH]; intros p; [done|]. cbn [app enc_intents last_digest foldl].
  rewrite IH, <-app_assoc. done.
Qed.

Definition admissible (g : Guard) (i : intent) : Prop :=
  intent_ok i /\
  (g_hasRecord g = true -> before (mkIntent (g_height g) (g_round g) (g_target g)) i).

Lemma read_record_Ok raw h r t p d :
  parse read_record raw = Ok (h, r, t, p, d) ->
  raw = be 8 h ++ be 8 r ++ t ++ p ++ d /\ u64 h /\ u64 r /\ arr32 t /\ arr32 p /\ arr32 d.
Proof.
  unfold read_record. intros Hp. parse_inv. unfold arr, blen in *. split; [|split_and!; (done || lia)].
  rest_rw. by rewrite app_nil_r.
Qed.

Lemma read_record_enc h r t p d :
  u64 h -> u64 r -> arr32 t -> arr32 p -> arr32 d ->
  parse read_record (be 8 h ++ be 8 r ++ t ++ p ++ d) = Ok (h, r, t, p, d).
Proof.
  intros Hh Hr Ht Hp Hd. unfold read_record. apply reads_parse. unfold arr in *.
  solve_reads; try done; unfold blen; lia.
Qed.

Lemma enc_intent_eq p i :
  enc_intent p i = be 8 (i_height i) ++ be 8 (i_round i) ++ i_target i ++ p ++ intent_digest p i.
Proof. unfold enc_intent, intent_digest. rewrite record_body_eq, <-!app_assoc. done. Qed.

Lemma take_body h r t p d :
  arr32 t -> arr32 p -> take 80 (be 8 h ++ be 8 r ++ t ++ p ++ d) = record_body h r t p.
Proof.
  intros Ht Hp. rewrite record_body_eq.
  replace (be 8 h ++ be 8 r ++ t ++ p ++ d) with ((be 8 h ++ be 8 r ++ t ++ p) ++ d) by (by rewrite <-!app_assoc).
  rewrite <-record_body_eq. rewrite take_app_le by (rewrite record_body_length by done; lia).
  apply take_ge. rewrite record_body_length by done. lia.
Qed.

Lemma replay_record_Ok g raw g' :
  replay_record g raw = Ok g' ->
  exists i, raw = enc_intent (g_lastRecordHash g) i /\ admissible g i /\ g' = apply_intent g i.
Proof.
  intros Hr. unfold replay_record in Hr.
  apply bind_Ok in Hr as ([[[[h r] t] p] d] & (Hraw & Hh & Hro & Ht & Hp & Hd)%or_err_Ok%read_record_Ok & Hr).
  apply bind_Ok in Hr as (? & Hh0%fail_if_Ok & Hr). apply bind_Ok in Hr as (? & Hz%fail_if_Ok & Hr).
  apply bind_Ok in Hr as (? & Hord%fail_if_Ok & Hr). injection Hr as <-.
  apply orb_false_iff in Hz as [[Hz Hprev]%orb_false_iff Hdg].
  apply negb_false_iff, bool_decide_eq_true_1 in Hprev, Hdg.
  rewrite Hraw, take_body in Hdg by done. subst p.
  exists (mkIntent h r t). split; [rewrite enc_intent_eq, Hraw; unfold intent_digest; cbn; by rewrite Hdg|].
  split; [split; [unfold intent_ok, intent_typed; cbn [i_height i_round i_target]; split_and!; try done; lia|]
    |by rewrite Hdg].
  intros Hrec. rewrite Hrec in Hord. unfold before. cbn in *. lia.
Qed.

Lemma replay_record_enc g i :
  arr32 (g_lastRecordHash g) -> admissible g i ->
  replay_record g (enc_intent (g_lastRecordHash g) i) = Ok (apply_intent g i).
Proof.
  intros Hl ((Ht & Hh0 & Hz) & Hord). destruct Ht as (Hh & Hr & Ht). unfold replay_record.
  rewrite enc_intent_eq, read_record_enc by (done || apply intent_digest_length).
  cbn [or_err mbind res_bind]. rewrite take_body by done.
  assert ((i_height i =? 0) = false) as -> by lia. cbn [fail_if mbind res_bind].
  rewrite Hz, !bool_decide_true by done. cbn [negb orb fail_if mbind res_bind].
  assert (g_hasRecord g && ((i_height i <? g_height g) || (i_height i =? g_height g) && (i_round i <=? g_round g)) = false) as ->.
  { destruct (g_hasRecord g); [|done]. specialize (Hord eq_refl). unfold before in Hord. cbn in *. lia. }
  done.
Qed.

(** A list of intents the guard accepts one after the other. *)
Fixpoint chain (g : Guard) (l : list intent) : Prop :=
  match l with
  | [] => True
  | i :: l => admissible g i /\ chain (apply_intent g i) l
  end.

Lemma replay_records_Ok fuel g data g' :
  arr32 (g_lastRecordHash g) -> (length data <= fuel)%nat -> replay_records fuel g data = Ok g' ->
  exists l, data = enc_intents (g_lastRecordHash g) l /\ chain g l /\ g' = foldl apply_intent g l.
Proof.
  revert g data. induction fuel as [|fuel IH]; intros g data Hl Hf Hr; cbn [replay_records] in Hr.
  { injection Hr as <-. exists []. destruct data; [done|cbn in Hf; lia]. }
  case_bool_decide as E; [injection Hr as <-; by exists []|].
  apply bind_Ok in Hr as (? & Hlen%fail_if_Ok & Hr). apply bind_Ok in Hr as (g1 & H1 & Hr).
  apply replay_record_Ok in H1 as (i & Hraw & Hadm & ->).
  destruct (IH (apply_intent g i) (drop 112 data)) as (l & Hd & Hc & ->); [apply intent_digest_length| |done|].
  { rewrite length_drop. unfold blen, signingJournalRecordBytes in Hlen. lia. }
  exists (i :: l). split_and!; [|done|done]. cbn [enc_intents].
  rewrite <-Hraw. cbn [g_lastRecordHash apply_intent set_record] in Hd. rewrite <-Hd. by rewrite take_drop.
Qed.

Lemma replay_records_enc fuel g l :
  arr32 (g_lastRecordHash g) -> chain g l -> (length (enc_intents (g_lastRecordHash g) l) <= fuel)%nat ->
  replay_records fuel g (enc_intents (g_lastRecordHash g) l) = Ok (foldl apply_intent g l).
Proof.
  revert fuel g. induction l as [|i l IH]; intros fuel g Hl Hc Hf; [by destruct fuel|].
  destruct Hc as [Hadm Hc]. cbn [enc_intents foldl] in *.
  pose proof (enc_intent_length (g_lastRecordHash g) i ltac:(apply Hadm) Hl) as Hlen.
  rewrite length_app, Hlen in Hf. destruct fuel as [|fuel]; [lia|]. cbn [replay_records].
  rewrite bool_decide_false by (intros E; apply (f_equal length) in E; rewrite length_app, Hlen in E; cbn in E; lia).
  assert ((blen (enc_intent (g_lastRecordHash g) i ++ enc_intents (intent_digest (g_lastRecordHash g) i) l)
    <? signingJournalRecordBytes) = false) as ->.
  { apply Z.ltb_ge. unfold blen, signingJournalRecordBytes. rewrite length_app, Hlen. lia. }
  cbn [fail_if mbind res_bind]. rewrite take_app_le, take_ge, drop_app_ge, Hlen, Nat.sub_diag, drop_0 by lia.
  rewrite replay_record_enc by done. cbn [mbind res_bind]. apply (IH fuel (apply_intent g i)); [apply intent_digest_length|done|].
  cbn [g_lastRecordHash apply_intent set_record]. lia.
Qed.

(** ** Memory and journal *)

(** The fields [replay] restores. *)
Definition mem (g : Guard) : Z * Z * bytes * bytes * bool :=
  (g_height g, g_round g, g_target g, g_lastRecordHash g, g_hasRecord g).

Definition fresh (file network validator : bytes) : Guard :=
  mkGuard file network validator 0 0 zero32 zero32 false false false.

Lemma mem_fields g m : mem g = mem m ->
  g_height g = g_height m /\ g_round g = g_round m /\ g_target g = g_target m /\
  g_lastRecordHash g = g_lastRecordHash m /\ g_hasRecord g = g_hasRecord m.
Proof. unfold mem. intros [= -> -> -> -> ->]. done. Qed.

Lemma mem_apply_intent g m i : mem g = mem m -> mem (apply_intent g i) = mem (apply_intent m i).
Proof. intros (_ & _ & _ & Hl & _)%mem_fields. unfold mem, apply_intent, set_record. cbn. by rewrite Hl. Qed.

Lemma mem_foldl g m l : mem g = mem m -> mem (foldl apply_intent g l) = mem (foldl apply_intent m l).
Proof. revert g m. induction l as [|i l IH]; intros g m Hm; [done|]. cbn. by apply IH, mem_apply_intent. Qed.

Lemma admissible_mem g m i : mem g = mem m -> admissible g i -> admissible m i.
Proof. intros (H1 & H2 & H3 & _ & H5)%mem_fields. unfold admissible. by rewrite H1, H2, H3, H5. Qed.

Lemma chain_mem g m l : mem g = mem m -> chain g l -> chain m l.
Proof.
  revert g m. induction l as [|i l IH]; intros g m Hm; [done|]. intros [Ha Hc]. split; [by eapply admissible_mem|].
  eapply IH; [|exact Hc]. by apply mem_apply_intent.
Qed.

Lemma chain_app g l1 l2 : chain g (l1 ++ l2) <-> chain g l1 /\ chain (foldl apply_intent g l1) l2.
Proof. revert g. induction l1 as [|i l1 IH]; intros g; cbn; [tauto|]. rewrite IH. tauto. Qed.

Lemma frame_foldl g l :
  let g' := foldl apply_intent g l in
  g_file g' = g_file g /\ g_network g' = g_network g /\ g_validator g' = g_validator g /\
  g_closed g' = g_closed g /\ g_poisoned g' = g_poisoned g /\ g_lastRecordHash g' = last_digest (g_lastRecordHash g) l.
Proof. revert g. induction l as [|i l IH]; intros g; [done|]. cbn. apply (IH (apply_intent g i)). Qed.

Lemma last_snoc_state g l i :
  let g' := foldl apply_intent g (l ++ [i]) in
  g_height g' = i_height i /\ g_round g' = i_round i /\ g_target g' = i_target i /\ g_hasRecord g' = true.
Proof. cbv zeta. rewrite foldl_app. done. Qed.

Lemma chain_facts file n v l :
  chain (fresh file n v) l -> Forall intent_ok l /\ increasing l.
Proof.
  induction l as [|i l IH] using rev_ind; intros Hc; [split; constructor|].
  apply chain_app in Hc as [Hc [[Hok Hord] _]]. destruct (IH Hc) as [Hf Hi].
  split; [apply Forall_app; split; [done|by constructor; [|constructor]]|].
  apply increasing_snoc; [done|]. intros j Hj. destruct l as [|k l _] using rev_ind; [done|].
  rewrite last_snoc in Hj. injection Hj as ->.
  destruct (last_snoc_state (fresh file n v) l j) as (H1 & H2 & _ & H4).
  specialize (Hord H4). unfold before in *. cbn in *. rewrite H1, H2 in Hord. done.
Qed.

Lemma journal_header_length n v : arr32 n -> arr32 v -> length (journal_header n v) = 69%nat.
Proof.
  unfold arr, journal_header. intros Hn Hv. writer_norm. rewrite !length_app, Hn, Hv. done.
Qed.

Lemma header_slices n v rest :
  arr32 n -> arr32 v ->
  let d := firstn 69 (journal_header n v ++ rest) in
  slice d 0 4 = signingJournalMagic /\ slice d 4 5 = [byte_of_Z signingJournalVersion] /\
  slice d 5 37 = n /\ slice d 37 69 = v.
Proof.
  intros Hn Hv. cbv zeta. rewrite take_app_le, take_ge by (rewrite journal_header_length by done; lia).
  unfold journal_header, slice, arr in *. writer_norm. cbn [Nat.sub].
  split; [done|]. split; [done|]. change (signingJournalMagic ++ _ ++ n ++ v)
    with (signingJournalMagic ++ [byte_of_Z signingJournalVersion] ++ n ++ v). cbn [drop app signingJournalMagic].
  change (drop 5 (signingJournalMagic ++ byte_of_Z signingJournalVersion :: n ++ v)) with (n ++ v).
  change (drop 37 (signingJournalMagic ++ byte_of_Z signingJournalVersion :: n ++ v)) with (drop 32 (n ++ v)).
  rewrite take_app_le, take_ge, drop_app_ge, Hn, Nat.sub_diag, drop_0, take_ge by lia. done.
Qed.

Lemma slices_header d n v :
  (69 <= length d)%nat ->
  slice (firstn 69 d) 0 4 = signingJournalMagic ->
  slice (firstn 69 d) 4 5 = [byte_of_Z signingJournalVersion] ->
  slice (firstn 69 d) 5 37 = n -> slice (firstn 69 d) 37 69 = v ->
  firstn 69 d = journal_header n v.
Proof.
  intros Hl H1 H2 H3 H4. unfold journal_header. writer_norm. rewrite <-H3, <-H4.
  change (be 1 signingJournalVersion) with [byte_of_Z signingJournalVersion]. rewrite <-H1, <-H2.
  assert (length (firstn 69 d) = 69%nat) as Hlen by (rewrite length_take; lia).
  revert Hlen. generalize (firstn 69 d). clear. intros x Hlen. unfold slice. cbn [Nat.sub]. rewrite drop_0.
  assert (forall a b c, (a + b = c)%nat -> take b (drop a x) ++ drop c x = drop a x) as Hcut.
  { intros a b c <-. rewrite <-drop_drop. apply take_drop. }
  rewrite (take_ge (drop 37 x)) by (rewrite length_drop; lia).
  rewrite (Hcut 5%nat 32%nat 37%nat), (Hcut 4%nat 1%nat 5%nat), take_drop by lia. done.
Qed.

Lemma Open_Ok file n v g :
  OpenDurableSigningGuard (Some file) n v = Ok g ->
  IsZero32 n = false /\ IsZero32 v = false /\
  exists l, file = journal_header n v ++ enc_intents zero32 l /\ chain (fresh file n v) l /\
    g = foldl apply_intent (fresh file n v) l.
Proof.
  unfold OpenDurableSigningGuard, replay. intros Ho.
  apply bind_Ok in Ho as (? & [Hn Hv]%fail_if_Ok%orb_false_iff & Ho). cbn [g_file g_network g_validator] in Ho.
  apply bind_Ok in Ho as (? & Hlen%fail_if_Ok & Ho).
  apply bind_Ok in Ho as (? & [H1 H2]%fail_if_Ok%orb_false_iff & Ho).
  apply bind_Ok in Ho as (? & [H3 H4]%fail_if_Ok%orb_false_iff & Ho).
  apply negb_false_iff, bool_decide_eq_true_1 in H1, H2, H3, H4.
  apply Z.ltb_ge in Hlen. unfold blen, signingJournalHeaderBytes in Hlen.
  apply replay_records_Ok in Ho as (l & Hd & Hc & ->); [|reflexivity|rewrite length_drop; lia].
  split_and!; [done|done|]. exists l. split_and!; [|done|done].
  rewrite <-(slices_header file n v) by (done || lia). cbn [g_lastRecordHash] in Hd. rewrite <-Hd. by rewrite take_drop.
Qed.

Lemma Open_journal n v l :
  arr32 n -> arr32 v -> IsZero32 n = false -> IsZero32 v = false ->
  let file := journal_header n v ++ enc_intents zero32 l in
  chain (fresh file n v) l ->
  OpenDurableSigningGuard (Some file) n v = Ok (foldl apply_intent (fresh file n v) l).
Proof.
  intros Hn Hv Hzn Hzv file Hc. unfold OpenDurableSigningGuard, replay. rewrite Hzn, Hzv.
  cbn [orb fail_if mbind res_bind g_file g_network g_validator].
  assert ((blen file <? signingJournalHeaderBytes) = false) as ->.
  { apply Z.ltb_ge. unfold file, blen, signingJournalHeaderBytes.
    rewrite length_app, journal_header_length by done. lia. }
  cbn [fail_if mbind res_bind].
  destruct (header_slices n v (enc_intents zero32 l) Hn Hv) as (H1 & H2 & H3 & H4). fold file in H1, H2, H3, H4.
  rewrite H1, H2, H3, H4, !bool_decide_true by done. cbn [negb orb fail_if mbind res_bind].
  assert (drop 69 file = enc_intents zero32 l) as ->.
  { unfold file. rewrite drop_app_ge, journal_header_length, Nat.sub_diag by (rewrite ?journal_header_length; done || lia). done. }
  apply (replay_records_enc (length file) (fresh file n v) l); [reflexivity|done|].
  unfold file. rewrite length_app. cbn [fresh g_lastRecordHash]. lia.
Qed.

(** The journal determines its intents, even with a partial record behind. *)
Lemma enc_intents_prefix p l l' tail :
  Forall intent_typed l -> Forall intent_typed l' -> arr32 p ->
  enc_intents p l ++ tail = enc_intents p l' -> l `prefix_of` l'.
Proof.
  intros Ht. revert p l'. induction Ht as [|i l Hi Ht IH]; intros p l' Ht' Hp Heq; [apply prefix_nil|].
  pose proof (enc_intent_length p i ltac:(apply Hi) Hp) as Hlen.
  destruct l' as [|i' l'].
  { apply (f_equal length) in Heq. cbn [enc_intents] in Heq. rewrite !length_app, Hlen in Heq. cbn in Heq. lia. }
  apply Forall_cons_1 in Ht' as [Hi' Ht']. cbn [enc_intents] in Heq. rewrite <-app_assoc in Heq.
  pose proof (enc_intent_length p i' ltac:(apply Hi') Hp) as Hlen'.
  apply app_inj_1 in Heq as [He Heq]; [|congruence].
  assert (i = i') as ->.
  { rewrite !enc_intent_eq in He. destruct Hi as (Hh & Hr & Ht1), Hi' as (Hh' & Hr' & Ht1').
    pose proof (read_record_enc _ _ _ p (intent_digest p i) Hh Hr Ht1 Hp (intent_digest_length p i)) as P1.
    rewrite He, read_record_enc in P1 by (done || apply intent_digest_length).
    destruct i, i'. cbn in P1. congruence. }
  apply prefix_cons. by apply (IH (intent_digest p i')); [|apply intent_digest_length|].
Qed.

(** ** Histories *)

(** Guard and the intents it has authorised so far.  A restart (or a crash at
    any point) opens whatever the file contains; a failed open has no
    successor: the validator stays down. *)
Inductive guard_step : Guard * list intent -> Guard * list intent -> Prop :=
| step_authorized g tr io n v i g' :
    intent_typed i ->
    Authorize g io n v (i_height i) (i_round i) (i_target i) = (g', Ok tt) ->
    guard_step (g, tr) (g', tr ++ [i])
| step_refused g tr io n v i g' e :
    intent_typed i ->
    Authorize g io n v (i_height i) (i_round i) (i_target i) = (g', Err e) ->
    guard_step (g, tr) (g', tr)
| step_close g tr : guard_step (g, tr) (Close g, tr)
| step_restart g tr g' :
    OpenDurableSigningGuard (Some (g_file g)) (g_network g) (g_validator g) = Ok g' ->
    guard_step (g, tr) (g', tr).

Inductive guard_reachable (n v : bytes) : Guard * list intent -> Prop :=
| reach_open g : OpenDurableSigningGuard None n v = Ok g -> guard_reachable n v (g, [])
| reach_step s s' : guard_reachable n v s -> guard_step s s' -> guard_reachable n v s'.

(** The journal holds increasing intents, all authorised ones among them; a
    guard that is not poisoned has nothing else in its file and its memory is
    that of the last record. *)
Record guard_inv (n v : bytes) (g : Guard) (tr l : list intent) (tail : bytes) : Prop := {
  inv_network : g_network g = n /\ g_validator g = v;
  inv_names : arr32 n /\ arr32 v /\ IsZero32 n = false /\ IsZero32 v = false;
  inv_file : g_file g = journal_header n v ++ enc_intents zero32 l ++ tail;
  inv_chain : chain (fresh [] n v) l;
  inv_trace : forall i, i ∈ tr -> i ∈ l;
  inv_sorted : StronglySorted not_after tr;
  inv_live : g_poisoned g = false -> tail = [] /\ mem g = mem (foldl apply_intent (fresh [] n v) l);
}.

Lemma fresh_mem file file' n v : mem (fresh file n v) = mem (fresh file' n v).
Proof. done. Qed.

Lemma inv_typed n v g tr l tail : guard_inv n v g tr l tail -> Forall intent_typed l /\ increasing l.
Proof.
  intros Hi. destruct (chain_facts [] n v l (inv_chain _ _ _ _ _ _ Hi)) as [Hf Hs]. split; [|done].
  eapply Forall_impl; [exact Hf|]. by intros i [? _].
Qed.

(** What the memory of a live guard says about the last intent. *)
Lemma inv_last n v g tr l tail i :
  guard_inv n v g tr l tail -> g_poisoned g = false -> i ∈ l ->
  g_hasRecord g = true /\ not_after i (mkIntent (g_height g) (g_round g) (g_target g)) /\
  mkIntent (g_height g) (g_round g) (g_target g) ∈ l.
Proof.
  intros Hi Hp Hin. destruct (inv_live _ _ _ _ _ _ Hi Hp) as [_ (H1 & H2 & H3 & _ & H5)%mem_fields].
  destruct (inv_typed _ _ _ _ _ _ Hi) as [_ Hs].
  destruct l as [|j l _] using rev_ind; [by apply not_elem_of_nil in Hin|].
  destruct (last_snoc_state (fresh [] n v) l j) as (E1 & E2 & E3 & E4).
  rewrite H1, H2, H3, H5, E1, E2, E3, E4. destruct j as [jh jr jt]; cbn [i_height i_round i_target].
  split; [done|]. split.
  - eapply increasing_last; [exact Hs|done|apply last_snoc].
  - apply elem_of_app. right. left.
Qed.

Lemma sorted_snoc tr i : StronglySorted not_after tr -> (forall j, j ∈ tr -> not_after j i) -> StronglySorted not_after (tr ++ [i]).
Proof.
  induction 1 as [|x l Hs IH Hx]; intros Hl; cbn; [by repeat constructor|]. constructor.
  - apply IH. intros j Hj. apply Hl. by right.
  - apply Forall_app. split; [done|]. constructor; [|constructor]. apply Hl. left.
Qed.

(** The three ways [Authorize] answers. *)
Lemma Authorize_cases n v g tr l tail io n' v' i :
  guard_inv n v g tr l tail -> intent_typed i ->
  (exists e, Authorize g io n' v' (i_height i) (i_round i) (i_target i) = (g, Err e)) \/
  (Authorize g io n' v' (i_height i) (i_round i) (i_target i) = (g, Ok tt) /\ g_poisoned g = false /\
   g_hasRecord g = true /\ i = mkIntent (g_height g) (g_round g) (g_target g)) \/
  (g_poisoned g = false /\ admissible g i /\
   let encoded := enc_intent (g_lastRecordHash g) i in
   Authorize g io n' v' (i_height i) (i_round i) (i_target i) =
   match io with
   | IoFail k => (poison g (g_file g ++ firstn k encoded), Err ErrSigningJournal)
   | IoOk => (set_record g (g_file g ++ encoded) (i_height i) (i_round i) (i_target i)
                (intent_digest (g_lastRecordHash g) i), Ok tt)
   end).
Proof.
  intros Hinv Ht. unfold Authorize.
  destruct (g_closed g || g_poisoned g || _ || _ || _ || _) eqn:E1; [left; by eexists|].
  repeat (apply orb_false_iff in E1 as [E1 ?]).
  match goal with Hp : g_poisoned g = false |- _ => pose proof (inv_live _ _ _ _ _ _ Hinv Hp) as [_ Hm]; rename Hp into Hpo end.
  destruct (g_hasRecord g && ((i_height i <? g_height g) || _)) eqn:E2; [left; by eexists|].
  destruct (g_hasRecord g && ((i_height i =? g_height g) && _)) eqn:E3.
  { destruct (bool_decide (i_target i = g_target g)) eqn:Et; [right; left|left; by eexists].
    apply bool_decide_eq_true_1 in Et. apply andb_prop in E3 as [Er Eq].
    split_and!; try done. apply andb_prop in Eq as [Eh Ero]. apply Z.eqb_eq in Eh, Ero.
    destruct i as [ih ir it]; cbn [i_height i_round i_target] in *. by subst. }
  right. right. split; [done|].
  assert (arr32 (g_lastRecordHash g)) as Hl.
  { apply mem_fields in Hm as (_ & _ & _ & -> & _). destruct (frame_foldl (fresh [] n v) l) as (_ & _ & _ & _ & _ & ->).
    clear. destruct l as [|j l _] using rev_ind; [reflexivity|]. unfold last_digest. rewrite foldl_app. apply intent_digest_length. }
  split.
  - split; [unfold intent_ok; split_and!; (done || lia)|]. intros Hr. rewrite Hr in E2, E3. unfold before. cbn in *. lia.
  - assert ((blen (enc_intent (g_lastRecordHash g) i) =? signingJournalRecordBytes) = true) as Hb.
    { apply Z.eqb_eq. unfold blen. rewrite enc_intent_length by (done || apply Ht). done. }
    unfold enc_intent in Hb |- *. cbv zeta in Hb |- *. rewrite Hb. done.
Qed.

Lemma Authorize_inv n v g tr l tail io n' v' i g' r :
  guard_inv n v g tr l tail -> intent_typed i ->
  Authorize g io n' v' (i_height i) (i_round i) (i_target i) = (g', r) ->
  exists l' tail', guard_inv n v g' (match r with Ok _ => tr ++ [i] | Err _ => tr end) l' tail'.
Proof.
  intros Hinv Ht Ha. destruct (Authorize_cases n v g tr l tail io n' v' i Hinv Ht)
    as [[e He]|[(He & Hp & Hr & Hi)|(Hp & Hadm & He)]].
  - rewrite He in Ha. injection Ha as <- <-. by exists l, tail.
  - rewrite He in Ha. injection Ha as <- <-. exists l, tail. destruct Hinv as [H1 H2 H3 H4 H5 H6 H7].
    assert (guard_inv n v g tr l tail) as Hinv by (by constructor).
    assert (l <> []) as Hne.
    { intros ->. destruct (H7 Hp) as [_ (_ & _ & _ & _ & Hx)%mem_fields]. cbn in Hx. congruence. }
    assert (exists j, j ∈ l) as [j Hj] by (destruct l as [|j l]; [done|exists j; left]).
    destruct (inv_last _ _ _ _ _ _ j Hinv Hp Hj) as (_ & _ & Hin). rewrite <-Hi in Hin.
    constructor; try done.
    + intros k [Hk|Hk]%elem_of_app; [by apply H5|]. by apply list_elem_of_singleton in Hk as ->.
    + apply sorted_snoc; [done|]. intros k Hk. apply H5 in Hk.
      destruct (inv_last _ _ _ _ _ _ k Hinv Hp Hk) as (_ & Hna & _). by rewrite <-Hi in Hna.
  - pose proof Hinv as [[Hn Hv] H2 H3 H4 H5 H6 H7]. destruct (H7 Hp) as [-> Hm]. rewrite app_nil_r in H3.
    cbv zeta in He. rewrite He in Ha. destruct io as [|k]; injection Ha as <- <-.
    + exists (l ++ [i]), []. constructor; try done.
      * cbn [g_file set_record]. rewrite H3, enc_intents_app, app_nil_r, <-!app_assoc. cbn [enc_intents]. rewrite app_nil_r.
        assert (g_lastRecordHash g = last_digest zero32 l) as ->; [|done].
        apply mem_fields in Hm as (_ & _ & _ & -> & _). apply (frame_foldl (fresh [] n v) l).
      * apply chain_app. split; [done|]. split; [|done]. by eapply admissible_mem.
      * intros j [Hj|Hj]%elem_of_app; apply elem_of_app; [left; by apply H5|right; done].
      * apply sorted_snoc; [done|]. intros j Hj. apply H5 in Hj.
        destruct (inv_last _ _ _ _ _ _ j Hinv Hp Hj) as (Hr & Hna & _). destruct Hadm as [_ Hb].
        specialize (Hb Hr). unfold before, not_after in *. cbn in *. lia.
      * intros _. split; [done|]. rewrite foldl_app. cbn [foldl].
        transitivity (mem (apply_intent g i)); [done|]. by apply mem_apply_intent.
    + exists l, (firstn k (enc_intent (g_lastRecordHash g) i)). constructor; try done.
      cbn [g_file poison]. by rewrite H3, <-app_assoc.
Qed.

Lemma restart_inv n v g tr l tail g' :
  guard_inv n v g tr l tail -> OpenDurableSigningGuard (Some (g_file g)) n v = Ok g' ->
  exists l', guard_inv n v g' tr l' [] /\ l `prefix_of` l'.
Proof.
  intros Hinv (_ & _ & l' & Hf & Hc & ->)%Open_Ok. pose proof Hinv as [Hn H2 H3 H4 H5 H6 H7].
  destruct (inv_typed _ _ _ _ _ _ Hinv) as [Ht _].
  destruct (chain_facts _ _ _ _ Hc) as [Hok' _].
  assert (Forall intent_typed l') as Ht' by (eapply Forall_impl; [exact Hok'|]; by intros ? [? _]).
  rewrite H3 in Hf. apply app_inv_head in Hf. apply enc_intents_prefix in Hf as Hpre; [|done|done|reflexivity].
  exists l'. split; [|done]. destruct (frame_foldl (fresh (g_file g) n v) l') as (F1 & F2 & F3 & F4 & F5 & _).
  constructor; try done.
  - rewrite F1. cbn [g_file fresh]. by rewrite H3, app_nil_r, Hf.
  - by eapply chain_mem; [|exact Hc].
  - intros i Hi. apply H5 in Hi. destruct Hpre as [k ->]. apply elem_of_app. by left.
  - intros _. split; [done|]. by apply mem_foldl.
Qed.

Lemma guard_reachable_inv n v g tr :
  arr32 n -> arr32 v -> guard_reachable n v (g, tr) -> exists l tail, guard_inv n v g tr l tail.
Proof.
  intros Hn Hv Hr. remember (g, tr) as st eqn:Est. revert g tr Est.
  induction Hr as [g0 Ho|st st' Hr IH Hs]; intros g tr Est.
  - injection Est as <- <-. unfold OpenDurableSigningGuard in Ho.
    apply bind_Ok in Ho as (? & Hz%fail_if_Ok & Ho). pose proof Hz as [Hzn Hzv]%orb_false_iff.
    pose proof (Open_journal n v [] Hn Hv Hzn Hzv I) as Hj. cbn [enc_intents foldl] in Hj. rewrite app_nil_r in Hj.
    unfold OpenDurableSigningGuard in Hj. rewrite Hz in Hj. cbn [fail_if mbind res_bind] in Hj.
    rewrite Hj in Ho. injection Ho as <-. exists [], [].
    constructor; try done; [cbn; by rewrite app_nil_r|constructor].
  - destruct st as [g0 tr0]. destruct (IH g0 tr0 eq_refl) as (l & tail & Hinv).
    inversion Hs as [g1 tr1 io n' v' i g1' Ht Ha|g1 tr1 io n' v' i g1' e Ht Ha|g1 tr1|g1 tr1 g1' Ho]; subst;
      match goal with E : (_, _) = (_, _) |- _ => injection E as <- <- | _ => idtac end.
    + exact (Authorize_inv _ _ _ _ _ _ _ _ _ _ _ _ Hinv Ht Ha).
    + exact (Authorize_inv _ _ _ _ _ _ _ _ _ _ _ _ Hinv Ht Ha).
    + exists l, tail. destruct Hinv. by constructor.
    + destruct (inv_network _ _ _ _ _ _ Hinv) as [En Ev]. rewrite En, Ev in Ho.
      destruct (restart_inv _ _ _ _ _ _ _ Hinv Ho) as (l' & Hi & _). by exists l', [].
Qed.

Lemma enc_intents_length p l :
  Forall intent_typed l -> arr32 p -> length (enc_intents p l) = (112 * length l)%nat.
Proof.
  intros Ht. revert p. induction Ht as [|i l Hi Ht IH]; intros p Hp; [done|]. cbn [enc_intents length].
  rewrite length_app, enc_intent_length, IH by (done || apply Hi || apply intent_digest_length). lia.
Qed.

(** ** Properties *)

(** C12: the guard prevents double signing.  Over every history of requests,
    failed or partial writes, closes, crashes and restarts of the journal, the
    intents authorised so far never go back in (height, round) order, and two
    of them with the same height and round have the same target header. *)
Theorem no_double_sign (n v : bytes) (g : Guard) (tr : list intent) :
  arr32 n -> arr32 v -> guard_reachable n v (g, tr) ->
  StronglySorted not_after tr /\
  (forall i j, i ∈ tr -> j ∈ tr -> i_height i = i_height j -> i_round i = i_round j -> i = j).
Proof.
  intros Hn Hv (l & tail & Hinv)%guard_reachable_inv; [|done|done].
  destruct (inv_typed _ _ _ _ _ _ Hinv) as [_ Hs]. destruct Hinv as [_ _ _ _ Htr Hso _].
  split; [done|]. intros i j Hi Hj. apply (increasing_same l); [done|by apply Htr|by apply Htr].
Qed.

(** Restarting is safe.  Opening the journal of a guard whose last write
    did not fail succeeds and restores exactly the height, round, target and
    hash chain it had in memory. *)
Theorem restart_restores (n v : bytes) (g : Guard) (tr : list intent) :
  arr32 n -> arr32 v -> guard_reachable n v (g, tr) -> g_poisoned g = false ->
  exists g', OpenDurableSigningGuard (Some (g_file g)) n v = Ok g' /\ mem g' = mem g /\ g_file g' = g_file g /\
    g_closed g' = false /\ g_poisoned g' = false.
Proof.
  intros Hn Hv (l & tail & [_ (_ & _ & Hzn & Hzv) Hf Hc _ _ Hl])%guard_reachable_inv Hp; [|done|done].
  destruct (Hl Hp) as [-> Hm]. rewrite app_nil_r in Hf.
  assert (chain (fresh (g_file g) n v) l) as Hc' by (by eapply chain_mem; [|exact Hc]).
  rewrite Hf in Hc'. eexists. rewrite Hf. split; [by apply Open_journal|].
  destruct (frame_foldl (fresh (journal_header n v ++ enc_intents zero32 l) n v) l) as (F1 & _ & _ & F4 & F5 & _).
  split_and!; [|by rewrite F1|by rewrite F4|by rewrite F5]. rewrite Hm. by apply mem_foldl.
Qed.

(** A damaged journal fails closed: a file whose length is not the header
    plus whole records, for example after a write cut short by a crash, is never
    opened. *)
Theorem journal_fails_closed (file n v : bytes) :
  arr32 n -> arr32 v -> (blen file - 69) mod 112 <> 0 ->
  is_ok (OpenDurableSigningGuard (Some file) n v) = false.
Proof.
  intros Hn Hv Hlen. destruct (OpenDurableSigningGuard (Some file) n v) as [g|e] eqn:E; [exfalso|done].
  apply Open_Ok in E as (_ & _ & l & -> & Hc & _). destruct (chain_facts _ _ _ _ Hc) as [Hok _].
  apply Hlen. unfold blen. rewrite length_app, journal_header_length, enc_intents_length;
    [|eapply Forall_impl; [exact Hok|]; by intros ? [? _]|reflexivity|done|done].
  replace (Z.of_nat (69 + 112 * length l) - 69) with (Z.of_nat (length l) * 112) by lia. apply Z.mod_mul. lia.
Qed.
End guard.

(** ** A short history: two intents, a failed write, a restart *)

Definition sample_intent (h r t : Z) : intent := mkIntent h r (be 32 t).
Definition sample_guard0 : Guard := fresh (journal_header (be 32 3) (be 32 4)) (be 32 3) (be 32 4).
Definition sample_auth (g : Guard) (io : io_outcome) (i : intent) : Guard * res unit :=
  Authorize (H:=small_crypto) g io (be 32 3) (be 32 4) (i_height i) (i_round i) (i_target i).
Definition sample_guard1 : Guard := fst (sample_auth sample_guard0 IoOk (sample_intent 5 0 1)).
Definition sample_guard2 : Guard := fst (sample_auth sample_guard1 IoOk (sample_intent 5 1 2)).

Lemma sample_typed_intent h r t : u64 h -> u64 r -> intent_typed (sample_intent h r t).
Proof. intros. split_and!; [done|done|apply length_be]. Qed.

Lemma sample_history :
  guard_reachable (H:=small_crypto) (be 32 3) (be 32 4) (sample_guard2, [sample_intent 5 0 1; sample_intent 5 1 2]).
Proof.
  apply (reach_step (H:=small_crypto) _ _ (sample_guard1, [sample_intent 5 0 1])).
  - apply (reach_step (H:=small_crypto) _ _ (sample_guard0, [])).
    + apply reach_open. vm_compute. reflexivity.
    + apply (step_authorized (H:=small_crypto) sample_guard0 [] IoOk (be 32 3) (be 32 4) (sample_intent 5 0 1));
        [by apply sample_typed_intent|vm_compute; reflexivity].
  - apply (step_authorized (H:=small_crypto) sample_guard1 [sample_intent 5 0 1] IoOk (be 32 3) (be 32 4)
      (sample_intent 5 1 2)); [by apply sample_typed_intent|vm_compute; reflexivity].
Qed.

Lemma no_double_sign_witness :
  StronglySorted not_after [sample_intent 5 0 1; sample_intent 5 1 2].
Proof.
  exact (proj1 (no_double_sign (H:=small_crypto) (be 32 3) (be 32 4) sample_guard2
    [sample_intent 5 0 1; sample_intent 5 1 2] eq_refl eq_refl sample_history)).
Defined.

Lemma restart_restores_witness :
  exists g', OpenDurableSigningGuard (H:=small_crypto) (Some (g_file sample_guard2)) (be 32 3) (be 32 4) = Ok g' /\
    mem g' = mem sample_guard2.
Proof.
  destruct (restart_restores (H:=small_crypto) (be 32 3) (be 32 4) sample_guard2
    [sample_intent 5 0 1; sample_intent 5 1 2] eq_refl eq_refl sample_history) as (g' & H1 & H2 & _).
  - vm_compute. reflexivity.
  - exists g'. exact (conj H1 H2).
Defined.

Lemma journal_fails_closed_witness :
  is_ok (OpenDurableSigningGuard (H:=small_crypto) (Some (firstn 100 (g_file sample_guard1))) (be 32 3) (be 32 4)) = false.
Proof.
  refine (journal_fails_closed (H:=small_crypto) (firstn 100 (g_file sample_guard1)) (be 32 3) (be 32 4) eq_refl eq_refl _).
  vm_compute. discriminate.
Defined.
