(* ===== verification/Lending.v ===== *)
(** * Lending

    Package [internal/v2/lending]: the terms of a bilateral fixed-term loan
    ([lending.go]) and the messages of the cross-shard protocol
    ([cross_shard.go]).  A [math/big] integer is a [Z]; [int32] fields are [Z]
    values in [-2^31, 2^31). *)

From S2P Require Import Prelude GoLib Codec Crypto Types Object.

Open Scope Z_scope.

Definition LendingVersion : Z := 1.
Definition MaxPositiveRateBps : Z := 100000.
Definition MinNegativeRateBps : Z := -9999.

Definition OfferObjectIndex : Z := 0xD0000000.
Definition LoanObjectIndex : Z := 0xD0000001.
Definition PayoutObjectIndex : Z := 0xD0000010.

Definition CrossShardVersion : Z := 1.
Definition CrossOfferMessageIndex : Z := 0xD0000100.
Definition CrossAcceptanceMessageIndex : Z := 0xD0000101.
Definition CrossPrincipalObjectIndex : Z := 0xD0000110.
Definition CrossActivationObjectIndex : Z := 0xD0000111.
Definition CrossRepaymentMessageIndex : Z := 0xD0000120.
Definition CrossCollateralReturnIndex : Z := 0xD0000130.
Definition CrossPrincipalReturnIndex : Z := 0xD0000131.
Definition CrossShardSettlementGraceBlocks : Z := 16.

Record Terms := mkTerms {
  Lender : bytes;
  Borrower : bytes;
  Principal : Z;
  Collateral : Z;
  TermRateBps : Z;
  MaturityHeight : Z;
}.

Record Loan := mkLoan {
  l_OfferObject : bytes;
  l_Terms : Terms;
  l_AcceptedHeight : Z;
}.

Record Ref := mkRef { r_ObjectID : bytes }.

Record CrossOffer := mkCrossOffer {
  co_OfferObject : bytes;
  co_LenderShard : Z;
  co_BorrowerShard : Z;
  co_OfferedHeight : Z;
  co_Terms : Terms;
}.

Record CrossAcceptance := mkCrossAcceptance {
  ca_OfferObject : bytes;
  ca_ActivationObject : bytes;
  ca_LenderShard : Z;
  ca_BorrowerShard : Z;
  ca_AcceptedHeight : Z;
  ca_Terms : Terms;
}.

Record CrossActivation := mkCrossActivation {
  cv_AcceptanceObject : bytes;
  cv_LenderShard : Z;
  cv_BorrowerShard : Z;
  cv_AcceptedHeight : Z;
  cv_Terms : Terms;
}.

Record CrossRepayment := mkCrossRepayment {
  cr_AcceptanceObject : bytes;
  cr_ActivationObject : bytes;
  cr_LenderShard : Z;
  cr_BorrowerShard : Z;
  cr_Amount : Z;
  cr_PaidHeight : Z;
  cr_TermsHash : bytes;
}.

#[global] Instance Terms_eq_dec : EqDecision Terms.
Proof. solve_decision. Defined.

(** [big.Int.BitLen] *)
Definition BitLen (z : Z) : Z := if z =? 0 then 0 else Z.log2 (Z.abs z) + 1.

(** Conversions between [int32] and [uint32]. *)
Definition uint32_of_int32 (z : Z) : Z := z mod 2 ^ 32.
Definition int32_of_uint32 (z : Z) : Z := if z <? 2 ^ 31 then z else z - 2 ^ 32.

(** ** Terms *)

Definition RepaymentDue (t : Terms) : res Z :=
  fail_if ((Principal t =? 0) || (TermRateBps t <? MinNegativeRateBps) || (MaxPositiveRateBps <? TermRateBps t))
    ErrLending;;
  let interest := Z.quot (Principal t * TermRateBps t) 10000 in
  let due := Principal t + interest in
  fail_if ((due <=? 0) || (64 <? BitLen due)) ErrLending;;
  Ok (due mod 2 ^ 64).

Definition Terms_Validate (t : Terms) : res unit :=
  fail_if (IsZero32 (Lender t) || IsZero32 (Borrower t) || bool_decide (Lender t = Borrower t)) ErrLending;;
  fail_if ((Principal t =? 0) || (MaturityHeight t =? 0)) ErrLending;;
  fail_if ((TermRateBps t <? MinNegativeRateBps) || (MaxPositiveRateBps <? TermRateBps t)) ErrLending;;
  RepaymentDue t;;
  Ok tt.

Definition Terms_MarshalBinary (t : Terms) : res bytes :=
  Terms_Validate t;;
  Ok (Writer.BytesCopy (Writer.new |> Writer.U16 LendingVersion |> Writer.Fixed (Lender t)
    |> Writer.Fixed (Borrower t) |> Writer.U64 (Principal t) |> Writer.U64 (Collateral t)
    |> Writer.U32 (uint32_of_int32 (TermRateBps t)) |> Writer.U64 (MaturityHeight t))).

Definition ParseTerms (data : bytes) : res Terms :=
  parse (version ← Rd.U16 <!> ErrLending;
         plift (fail_if (negb (version =? LendingVersion)) ErrLending);;
         lender ← Rd.Fixed 32 <!> ErrLending;
         borrower ← Rd.Fixed 32 <!> ErrLending;
         principal ← Rd.U64 <!> ErrLending;
         collateral ← Rd.U64 <!> ErrLending;
         rateRaw ← Rd.U32 <!> ErrLending;
         maturity ← Rd.U64 <!> ErrLending;
         Rd.Done <!> ErrLending;;
         let out := mkTerms lender borrower principal collateral (int32_of_uint32 rateRaw) maturity in
         plift (Terms_Validate out);;
         mret out) data.

(** [SameTerms]: equality of the encodings of valid terms. *)
Definition SameTerms (a b : Terms) : bool :=
  match Terms_MarshalBinary a with
  | Err _ => false
  | Ok l =>
      match Terms_MarshalBinary b with
      | Err _ => false
      | Ok r => bool_decide (l = r)
      end
  end.

(** ** Loans and references *)

Definition Loan_Validate (l : Loan) : res unit :=
  fail_if (IsZero32 (l_OfferObject l) || (l_AcceptedHeight l =? 0)) ErrLending;;
  Terms_Validate (l_Terms l);;
  fail_if (MaturityHeight (l_Terms l) <=? l_AcceptedHeight l) ErrLending.

Definition Loan_MarshalBinary (l : Loan) : res bytes :=
  Loan_Validate l;;
  terms ← Terms_MarshalBinary (l_Terms l);
  Ok (Writer.BytesCopy (Writer.new |> Writer.U16 LendingVersion |> Writer.Fixed (l_OfferObject l)
    |> Writer.Bytes terms |> Writer.U64 (l_AcceptedHeight l))).

Definition ParseLoan (data : bytes) : res Loan :=
  parse (version ← Rd.U16 <!> ErrLending;
         plift (fail_if (negb (version =? LendingVersion)) ErrLending);;
         offer ← Rd.Fixed 32 <!> ErrLending;
         termsRaw ← Rd.Bytes 256 <!> ErrLending;
         accepted ← Rd.U64 <!> ErrLending;
         Rd.Done <!> ErrLending;;
         terms ← plift (ParseTerms termsRaw);
         let out := mkLoan offer terms accepted in
         plift (Loan_Validate out);;
         mret out) data.

Definition Ref_MarshalBinary (r : Ref) : res bytes :=
  fail_if (IsZero32 (r_ObjectID r)) ErrLending;;
  Ok (Writer.BytesCopy (Writer.new |> Writer.U16 LendingVersion |> Writer.Fixed (r_ObjectID r))).

Definition ParseRef (data : bytes) : res Ref :=
  parse (version ← Rd.U16 <!> ErrLending;
         plift (fail_if (negb (version =? LendingVersion)) ErrLending);;
         id ← Rd.Fixed 32 <!> ErrLending;
         Rd.Done <!> ErrLending;;
         plift (fail_if (IsZero32 id) ErrLending);;
         mret (mkRef id)) data.

(** ** Cross-shard messages

    The encoders discard the error of [Terms.MarshalBinary] ([terms, _ :=]):
    their own validation has just validated the terms, and a nil slice is
    written otherwise. *)

Definition terms_or_nil (t : Terms) : bytes := ok_or [] (Terms_MarshalBinary t).

Definition CrossOffer_Validate (m : CrossOffer) : res unit :=
  fail_if (IsZero32 (co_OfferObject m) || (co_LenderShard m =? co_BorrowerShard m)
    || (co_OfferedHeight m =? 0) || (MaturityHeight (co_Terms m) <=? co_OfferedHeight m)
    || negb (is_ok (Terms_Validate (co_Terms m)))) ErrLending.

Definition CrossOffer_MarshalBinary (m : CrossOffer) : res bytes :=
  CrossOffer_Validate m;;
  Ok (Writer.BytesCopy (Writer.new |> Writer.U16 CrossShardVersion |> Writer.Fixed (co_OfferObject m)
    |> Writer.U32 (co_LenderShard m) |> Writer.U32 (co_BorrowerShard m)
    |> Writer.U64 (co_OfferedHeight m) |> Writer.Bytes (terms_or_nil (co_Terms m)))).

Definition ParseCrossOffer (data : bytes) : res CrossOffer :=
  parse (version ← Rd.U16 <!> ErrLending;
         plift (fail_if (negb (version =? CrossShardVersion)) ErrLending);;
         id ← Rd.Fixed 32 <!> ErrLending;
         lenderShard ← Rd.U32 <!> ErrLending;
         borrowerShard ← Rd.U32 <!> ErrLending;
         offered ← Rd.U64 <!> ErrLending;
         termsRaw ← Rd.Bytes 256 <!> ErrLending;
         Rd.Done <!> ErrLending;;
         terms ← plift (ParseTerms termsRaw);
         let out := mkCrossOffer id lenderShard borrowerShard offered terms in
         plift (CrossOffer_Validate out);;
         mret out) data.

Definition CrossAcceptance_Validate (m : CrossAcceptance) : res unit :=
  fail_if (IsZero32 (ca_OfferObject m) || IsZero32 (ca_ActivationObject m)
    || (ca_LenderShard m =? ca_BorrowerShard m) || (ca_AcceptedHeight m =? 0)
    || (MaturityHeight (ca_Terms m) <=? ca_AcceptedHeight m)
    || negb (is_ok (Terms_Validate (ca_Terms m)))) ErrLending.

Definition CrossAcceptance_MarshalBinary (m : CrossAcceptance) : res bytes :=
  CrossAcceptance_Validate m;;
  Ok (Writer.BytesCopy (Writer.new |> Writer.U16 CrossShardVersion |> Writer.Fixed (ca_OfferObject m)
    |> Writer.Fixed (ca_ActivationObject m)
    |> Writer.U32 (ca_LenderShard m) |> Writer.U32 (ca_BorrowerShard m)
    |> Writer.U64 (ca_AcceptedHeight m) |> Writer.Bytes (terms_or_nil (ca_Terms m)))).

Definition ParseCrossAcceptance (data : bytes) : res CrossAcceptance :=
  parse (version ← Rd.U16 <!> ErrLending;
         plift (fail_if (negb (version =? CrossShardVersion)) ErrLending);;
         offer ← Rd.Fixed 32 <!> ErrLending;
         activation ← Rd.Fixed 32 <!> ErrLending;
         lenderShard ← Rd.U32 <!> ErrLending;
         borrowerShard ← Rd.U32 <!> ErrLending;
         accepted ← Rd.U64 <!> ErrLending;
         termsRaw ← Rd.Bytes 256 <!> ErrLending;
         Rd.Done <!> ErrLending;;
         terms ← plift (ParseTerms termsRaw);
         let out := mkCrossAcceptance offer activation lenderShard borrowerShard accepted terms in
         plift (CrossAcceptance_Validate out);;
         mret out) data.

Definition CrossActivation_Validate (m : CrossActivation) : res unit :=
  fail_if (IsZero32 (cv_AcceptanceObject m) || (cv_LenderShard m =? cv_BorrowerShard m)
    || (cv_AcceptedHeight m =? 0) || (MaturityHeight (cv_Terms m) <=? cv_AcceptedHeight m)
    || negb (is_ok (Terms_Validate (cv_Terms m)))) ErrLending.

Definition CrossActivation_MarshalBinary (m : CrossActivation) : res bytes :=
  CrossActivation_Validate m;;
  Ok (Writer.BytesCopy (Writer.new |> Writer.U16 CrossShardVersion |> Writer.Fixed (cv_AcceptanceObject m)
    |> Writer.U32 (cv_LenderShard m) |> Writer.U32 (cv_BorrowerShard m)
    |> Writer.U64 (cv_AcceptedHeight m) |> Writer.Bytes (terms_or_nil (cv_Terms m)))).

Definition ParseCrossActivation (data : bytes) : res CrossActivation :=
  parse (version ← Rd.U16 <!> ErrLending;
         plift (fail_if (negb (version =? CrossShardVersion)) ErrLending);;
         acceptance ← Rd.Fixed 32 <!> ErrLending;
         lenderShard ← Rd.U32 <!> ErrLending;
         borrowerShard ← Rd.U32 <!> ErrLending;
         accepted ← Rd.U64 <!> ErrLending;
         termsRaw ← Rd.Bytes 256 <!> ErrLending;
         Rd.Done <!> ErrLending;;
         terms ← plift (ParseTerms termsRaw);
         let out := mkCrossActivation acceptance lenderShard borrowerShard accepted terms in
         plift (CrossActivation_Validate out);;
         mret out) data.

Definition CrossRepayment_Validate (m : CrossRepayment) : res unit :=
  fail_if (IsZero32 (cr_AcceptanceObject m) || IsZero32 (cr_ActivationObject m)
    || (cr_LenderShard m =? cr_BorrowerShard m) || (cr_Amount m =? 0) || (cr_PaidHeight m =? 0)
    || IsZero32 (cr_TermsHash m)) ErrLending.

Definition CrossRepayment_MarshalBinary (m : CrossRepayment) : res bytes :=
  CrossRepayment_Validate m;;
  Ok (Writer.BytesCopy (Writer.new |> Writer.U16 CrossShardVersion |> Writer.Fixed (cr_AcceptanceObject m)
    |> Writer.Fixed (cr_ActivationObject m)
    |> Writer.U32 (cr_LenderShard m) |> Writer.U32 (cr_BorrowerShard m)
    |> Writer.U64 (cr_Amount m) |> Writer.U64 (cr_PaidHeight m) |> Writer.Fixed (cr_TermsHash m))).

Definition ParseCrossRepayment (data : bytes) : res CrossRepayment :=
  parse (version ← Rd.U16 <!> ErrLending;
         plift (fail_if (negb (version =? CrossShardVersion)) ErrLending);;
         acceptance ← Rd.Fixed 32 <!> ErrLending;
         activation ← Rd.Fixed 32 <!> ErrLending;
         lenderShard ← Rd.U32 <!> ErrLending;
         borrowerShard ← Rd.U32 <!> ErrLending;
         amount ← Rd.U64 <!> ErrLending;
         paidHeight ← Rd.U64 <!> ErrLending;
         termsHash ← Rd.Fixed 32 <!> ErrLending;
         Rd.Done <!> ErrLending;;
         let out := mkCrossRepayment acceptance activation lenderShard borrowerShard amount paidHeight termsHash in
         plift (CrossRepayment_Validate out);;
         mret out) data.

Section terms_hash.
Context `{Crypto}.
Definition Terms_Hash (t : Terms) : res bytes :=
  raw ← Terms_MarshalBinary t;
  Ok (DomainHash (str "zephyr/lending-terms/v1") raw).
End terms_hash.

(** ** Well-formedness *)

Definition Terms_typed (t : Terms) : Prop :=
  arr32 (Lender t) /\ arr32 (Borrower t) /\ u64 (Principal t) /\ u64 (Collateral t) /\
  (- 2 ^ 31 <= TermRateBps t < 2 ^ 31) /\ u64 (MaturityHeight t).
Definition Loan_typed (l : Loan) : Prop :=
  arr32 (l_OfferObject l) /\ Terms_typed (l_Terms l) /\ u64 (l_AcceptedHeight l).
Definition Ref_typed (r : Ref) : Prop := arr32 (r_ObjectID r).
Definition CrossOffer_typed (m : CrossOffer) : Prop :=
  arr32 (co_OfferObject m) /\ u32 (co_LenderShard m) /\ u32 (co_BorrowerShard m) /\
  u64 (co_OfferedHeight m) /\ Terms_typed (co_Terms m).
Definition CrossAcceptance_typed (m : CrossAcceptance) : Prop :=
  arr32 (ca_OfferObject m) /\ arr32 (ca_ActivationObject m) /\ u32 (ca_LenderShard m) /\
  u32 (ca_BorrowerShard m) /\ u64 (ca_AcceptedHeight m) /\ Terms_typed (ca_Terms m).
Definition CrossActivation_typed (m : CrossActivation) : Prop :=
  arr32 (cv_AcceptanceObject m) /\ u32 (cv_LenderShard m) /\ u32 (cv_BorrowerShard m) /\
  u64 (cv_AcceptedHeight m) /\ Terms_typed (cv_Terms m).
Definition CrossRepayment_typed (m : CrossRepayment) : Prop :=
  arr32 (cr_AcceptanceObject m) /\ arr32 (cr_ActivationObject m) /\ u32 (cr_LenderShard m) /\
  u32 (cr_BorrowerShard m) /\ u64 (cr_Amount m) /\ u64 (cr_PaidHeight m) /\ arr32 (cr_TermsHash m).

#[global] Instance Terms_wire : Wire Terms := {|
  wire_typed := Terms_typed; wire_marshal := Terms_MarshalBinary; wire_parse := ParseTerms |}.
#[global] Instance Loan_wire : Wire Loan := {|
  wire_typed := Loan_typed; wire_marshal := Loan_MarshalBinary; wire_parse := ParseLoan |}.
#[global] Instance Ref_wire : Wire Ref := {|
  wire_typed := Ref_typed; wire_marshal := Ref_MarshalBinary; wire_parse := ParseRef |}.
#[global] Instance CrossOffer_wire : Wire CrossOffer := {|
  wire_typed := CrossOffer_typed; wire_marshal := CrossOffer_MarshalBinary; wire_parse := ParseCrossOffer |}.
#[global] Instance CrossAcceptance_wire : Wire CrossAcceptance := {|
  wire_typed := CrossAcceptance_typed; wire_marshal := CrossAcceptance_MarshalBinary;
  wire_parse := ParseCrossAcceptance |}.
#[global] Instance CrossActivation_wire : Wire CrossActivation := {|
  wire_typed := CrossActivation_typed; wire_marshal := CrossActivation_MarshalBinary;
  wire_parse := ParseCrossActivation |}.
#[global] Instance CrossRepayment_wire : Wire CrossRepayment := {|
  wire_typed := CrossRepayment_typed; wire_marshal := CrossRepayment_MarshalBinary;
  wire_parse := ParseCrossRepayment |}.

(** ** The amount due *)

Lemma BitLen_le_64 z : 0 < z -> (64 <? BitLen z) = negb (z <? 2 ^ 64).
Proof.
  intros Hz. unfold BitLen. destruct (Z.eqb_spec z 0); [lia|]. rewrite Z.abs_eq by lia.
  pose proof (Z.log2_lt_pow2 z 64 Hz) as Hl.
  destruct (Z.ltb_spec z (2 ^ 64)) as [Hlt|Hge]; [apply Hl in Hlt|]; cbn [negb].
  - apply Z.ltb_ge. lia.
  - apply Z.ltb_lt. assert (~ Z.log2 z < 64) by (intros Hc; apply Hl in Hc; lia). lia.
Qed.

(** The interest of the code, exactly. *)
Definition interest (t : Terms) : Z := Z.quot (Principal t * TermRateBps t) 10000.

Definition rate_ok (t : Terms) : Prop := MinNegativeRateBps <= TermRateBps t <= MaxPositiveRateBps.

Lemma interest_bounds t :
  0 < Principal t -> rate_ok t ->
  - Principal t < interest t /\ Z.abs (10000 * interest t - Principal t * TermRateBps t) < 10000.
Proof.
  unfold interest, rate_ok, MinNegativeRateBps, MaxPositiveRateBps. intros Hp Hr.
  pose proof (Z.quot_rem (Principal t * TermRateBps t) 10000 ltac:(lia)) as Hq.
  pose proof (Z.rem_bound_abs (Principal t * TermRateBps t) 10000 ltac:(lia)) as Hb.
  split; [|lia].
  destruct (Z_le_gt_dec 0 (TermRateBps t)) as [Hs|Hs].
  - assert (0 <= Z.quot (Principal t * TermRateBps t) 10000) by (apply Z.quot_pos; nia). lia.
  - assert (-9999 * Principal t <= Principal t * TermRateBps t < 0) as Hm by (clear Hq Hb; nia).
    pose proof (Z.rem_nonpos (Principal t * TermRateBps t) 10000 ltac:(lia) ltac:(lia)). lia.
Qed.

(** Truncation towards zero. *)
Lemma interest_rounding t :
  0 < Principal t ->
  (0 <= TermRateBps t -> Principal t * (10000 + TermRateBps t) - 10000 < 10000 * (Principal t + interest t)
                         <= Principal t * (10000 + TermRateBps t)) /\
  (TermRateBps t <= 0 -> Principal t * (10000 + TermRateBps t) <= 10000 * (Principal t + interest t)
                         < Principal t * (10000 + TermRateBps t) + 10000).
Proof.
  intros Hp. unfold interest. set (x := Principal t * TermRateBps t).
  pose proof (Z.quot_rem x 10000 ltac:(lia)) as Hq.
  pose proof (Z.rem_bound_abs x 10000 ltac:(lia)) as Hb.
  rewrite Z.mul_add_distr_l. fold x.
  split; intros Hs.
  - pose proof (Z.rem_nonneg x 10000 ltac:(lia) ltac:(nia)). lia.
  - pose proof (Z.rem_nonpos x 10000 ltac:(lia) ltac:(nia)). lia.
Qed.

(** [RepaymentDue] fails only for a zero principal, a rate out of range or an
    amount beyond [uint64]; the guard on the sign of the result never fires. *)
Lemma RepaymentDue_Ok t d :
  u64 (Principal t) ->
  RepaymentDue t = Ok d <->
  0 < Principal t /\ rate_ok t /\ Principal t + interest t < 2 ^ 64 /\ d = Principal t + interest t.
Proof.
  intros Hp. unfold RepaymentDue, u64 in *. fold (interest t). cbv zeta. split.
  - intros E. res_inv. repeat match goal with H : _ || _ = false |- _ => apply orb_false_iff in H as [? ?] end.
    assert (rate_ok t) as Hr by (unfold rate_ok; lia).
    destruct (interest_bounds t) as [Hi _]; [lia|done|].
    match goal with H : (64 <? _) = false |- _ => rewrite BitLen_le_64 in H by lia end.
    split_and!; [lia|done|lia|]. rewrite Z.mod_small; lia.
  - intros (Hp0 & Hr & Hlt & ->). destruct (interest_bounds t Hp0 Hr) as [Hi _]. unfold rate_ok in Hr.
    assert ((Principal t =? 0) || (TermRateBps t <? MinNegativeRateBps) || (MaxPositiveRateBps <? TermRateBps t) = false)
      as -> by lia.
    cbn [fail_if mbind res_bind].
    rewrite BitLen_le_64 by lia.
    assert ((Principal t + interest t <=? 0) || negb (Principal t + interest t <? 2 ^ 64) = false) as -> by lia.
    cbn. rewrite Z.mod_small; [done|lia].
Qed.

Lemma RepaymentDue_pos t d : u64 (Principal t) -> RepaymentDue t = Ok d -> 0 < d < 2 ^ 64.
Proof.
  intros Hp E. apply RepaymentDue_Ok in E as (H0 & Hr & Hlt & ->); [|done].
  destruct (interest_bounds t H0 Hr) as [? _]. lia.
Qed.

Lemma Terms_Validate_Ok t :
  Terms_Validate t = Ok tt ->
  IsZero32 (Lender t) = false /\ IsZero32 (Borrower t) = false /\ Lender t <> Borrower t /\
  Principal t <> 0 /\ MaturityHeight t <> 0 /\ rate_ok t /\ exists d, RepaymentDue t = Ok d.
Proof.
  unfold Terms_Validate. intros E. res_inv.
  repeat match goal with H : _ || _ = false |- _ => apply orb_false_iff in H as [? ?] end.
  split_and!; try done; try lia; [|unfold rate_ok; lia|eauto]. eapply bool_decide_eq_false; eassumption.
Qed.

Lemma int32_uint32 z : - 2 ^ 31 <= z < 2 ^ 31 -> int32_of_uint32 (uint32_of_int32 z) = z.
Proof.
  unfold int32_of_uint32, uint32_of_int32. intros Hz.
  destruct (Z_le_gt_dec 0 z).
  - rewrite Z.mod_small by lia. destruct (Z.ltb_spec z (2 ^ 31)); lia.
  - rewrite <-(Z.mod_add z 1) by lia. rewrite Z.mod_small by lia.
    destruct (Z.ltb_spec (z + 1 * 2 ^ 32) (2 ^ 31)); lia.
Qed.
Lemma uint32_int32 z : u32 z -> uint32_of_int32 (int32_of_uint32 z) = z /\ - 2 ^ 31 <= int32_of_uint32 z < 2 ^ 31.
Proof.
  unfold int32_of_uint32, uint32_of_int32, u32. intros Hz. destruct (Z.ltb_spec z (2 ^ 31)).
  - rewrite Z.mod_small; lia.
  - split; [|lia]. rewrite <-(Z.mod_add _ 1) by lia. rewrite Z.mod_small; lia.
Qed.

(** ** The wire formats are canonical *)

Lemma Terms_MarshalBinary_length t d : Terms_typed t -> Terms_MarshalBinary t = Ok d -> blen d = 94.
Proof.
  intros (Hl & Hb & _). unfold Terms_MarshalBinary. intros E. res_inv. writer_norm. unfold blen, arr in *.
  generalize (length_be 2 LendingVersion). generalize (be 2 LendingVersion). intros w Hw.
  rewrite !length_app, !length_be, Hw, Hl, Hb. done.
Qed.

#[global] Instance Terms_canonical : Canonical Terms.
Proof.
  intros d t. cbn. split.
  - unfold ParseTerms. intros E. parse_inv.
    match goal with H : u32 _ |- _ => destruct (uint32_int32 _ H) as [Hi ?] end.
    split; [unfold Terms_typed; cbn; rewrite !blen32; done|].
    unfold Terms_MarshalBinary. match goal with H : Terms_Validate _ = _ |- _ => rewrite H end.
    cbn [mbind res_bind]. f_equal. cbn.
    writer_norm. rewrite Hi. rest_rw. rewrite app_nil_r. repeat f_equal. lia.
  - intros [(Hl & Hb & Hp & Hc & Hr & Hm) E]. unfold Terms_MarshalBinary in E. res_inv.
    unfold ParseTerms. apply reads_parse. writer_norm. rewrite blen32 in *.
    solve_reads; try done; [by apply Z.mod_pos_bound| |]; rewrite int32_uint32 by done; destruct t; [done|].
    apply reads_ret.
Qed.

#[global] Instance Ref_canonical : Canonical Ref.
Proof.
  intros d r. cbn. split.
  - unfold ParseRef. intros E. parse_inv. split; [by apply blen32|].
    unfold Ref_MarshalBinary. cbn [r_ObjectID]. match goal with H : IsZero32 _ = _ |- _ => rewrite H end.
    cbn [mbind res_bind fail_if]. f_equal. writer_norm. rest_rw. rewrite app_nil_r. repeat f_equal. lia.
  - intros [Ht E]. unfold Ref_MarshalBinary in E. unfold Ref_typed in Ht. res_inv.
    unfold ParseRef. apply reads_parse. writer_norm. rewrite blen32 in *.
    solve_reads; try done. destruct r. apply reads_ret.
Qed.

(** Embedded terms: 94 bytes, within the limit of the readers. *)
Lemma Terms_embedded t d : Terms_typed t -> Terms_MarshalBinary t = Ok d -> blen d <= 256.
Proof. intros Ht E. rewrite (Terms_MarshalBinary_length t d Ht E). lia. Qed.

Lemma terms_or_nil_Ok t d : Terms_MarshalBinary t = Ok d -> terms_or_nil t = d.
Proof. unfold terms_or_nil. by intros ->. Qed.

Lemma Terms_Validate_Marshal t : is_ok (Terms_Validate t) = true -> exists d, Terms_MarshalBinary t = Ok d.
Proof. intros [u E]%is_ok_true. unfold Terms_MarshalBinary. rewrite E. cbn. eauto. Qed.

Lemma ParseTerms_Ok d t : ParseTerms d = Ok t -> Terms_typed t /\ Terms_MarshalBinary t = Ok d.
Proof. exact (proj1 (Terms_canonical d t)). Qed.
Lemma ParseTerms_Marshal d t : Terms_typed t -> Terms_MarshalBinary t = Ok d -> ParseTerms d = Ok t.
Proof. exact (wire_roundtrip t d). Qed.

(** The common part of the formats that embed terms. *)
Ltac embedded_terms_inv :=
  match goal with
  | H : ParseTerms _ = Ok ?t |- _ =>
      let Ht := fresh "Ht" in let Hm := fresh "Hm" in
      destruct (ParseTerms_Ok _ _ H) as [Ht Hm]
  end.

(** Evaluate the sequencing and the projections only. *)
Ltac marshal_cbn :=
  cbn -[Writer.BytesCopy Writer.new Writer.U16 Writer.U32 Writer.U64 Writer.Fixed Writer.Bytes terms_or_nil
        Terms_MarshalBinary].

#[global] Instance Loan_canonical : Canonical Loan.
Proof.
  intros d l. cbn. split.
  - unfold ParseLoan. intros E. parse_inv. embedded_terms_inv.
    split; [unfold Loan_typed; cbn; by rewrite !blen32|].
    unfold Loan_MarshalBinary. match goal with H : Loan_Validate _ = _ |- _ => rewrite H end. marshal_cbn.
    rewrite Hm. cbn [mbind res_bind]. f_equal. writer_norm. rest_rw. rewrite app_nil_r. repeat f_equal. lia.
  - intros [(Ho & Ht & Ha) E]. unfold Loan_MarshalBinary in E. res_inv.
    pose proof (Terms_embedded _ _ Ht ltac:(eassumption)).
    unfold ParseLoan. apply reads_parse. writer_norm. rewrite blen32 in *.
    solve_reads; try done.
    + by apply ParseTerms_Marshal.
    + destruct l. apply reads_ret.
Qed.

#[global] Instance CrossOffer_canonical : Canonical CrossOffer.
Proof.
  intros d m. cbn. split.
  - unfold ParseCrossOffer. intros E. parse_inv. embedded_terms_inv.
    split; [unfold CrossOffer_typed; cbn; by rewrite !blen32|].
    unfold CrossOffer_MarshalBinary. match goal with H : CrossOffer_Validate _ = _ |- _ => rewrite H end. marshal_cbn.
    rewrite (terms_or_nil_Ok _ _ Hm). f_equal. writer_norm. rest_rw. rewrite app_nil_r. repeat f_equal. lia.
  - intros [(Ho & Hl & Hb & Hh & Ht) E]. unfold CrossOffer_MarshalBinary in E. res_inv.
    match goal with H : CrossOffer_Validate _ = _ |- _ => pose proof H as Hv end.
    unfold CrossOffer_Validate in Hv. apply fail_if_Ok, orb_false_iff in Hv as [_ Hv%negb_false_iff].
    destruct (Terms_Validate_Marshal _ Hv) as [raw Hm]. rewrite (terms_or_nil_Ok _ _ Hm).
    pose proof (Terms_embedded _ _ Ht Hm). unfold ParseCrossOffer. apply reads_parse. writer_norm.
    rewrite blen32 in *. solve_reads; try done.
    + by apply ParseTerms_Marshal.
    + destruct m. apply reads_ret.
Qed.

#[global] Instance CrossAcceptance_canonical : Canonical CrossAcceptance.
Proof.
  intros d m. cbn. split.
  - unfold ParseCrossAcceptance. intros E. parse_inv. embedded_terms_inv.
    split; [unfold CrossAcceptance_typed; cbn; by rewrite !blen32|].
    unfold CrossAcceptance_MarshalBinary. match goal with H : CrossAcceptance_Validate _ = _ |- _ => rewrite H end. marshal_cbn.
    rewrite (terms_or_nil_Ok _ _ Hm). f_equal. writer_norm. rest_rw. rewrite app_nil_r. repeat f_equal. lia.
  - intros [(Ho & Hac & Hl & Hb & Hh & Ht) E]. unfold CrossAcceptance_MarshalBinary in E. res_inv.
    match goal with H : CrossAcceptance_Validate _ = _ |- _ => pose proof H as Hv end.
    unfold CrossAcceptance_Validate in Hv. apply fail_if_Ok, orb_false_iff in Hv as [_ Hv%negb_false_iff].
    destruct (Terms_Validate_Marshal _ Hv) as [raw Hm]. rewrite (terms_or_nil_Ok _ _ Hm).
    pose proof (Terms_embedded _ _ Ht Hm). unfold ParseCrossAcceptance. apply reads_parse. writer_norm.
    rewrite blen32 in *. solve_reads; try done.
    + by apply ParseTerms_Marshal.
    + destruct m. apply reads_ret.
Qed.

#[global] Instance CrossActivation_canonical : Canonical CrossActivation.
Proof.
  intros d m. cbn. split.
  - unfold ParseCrossActivation. intros E. parse_inv. embedded_terms_inv.
    split; [unfold CrossActivation_typed; cbn; by rewrite !blen32|].
    unfold CrossActivation_MarshalBinary. match goal with H : CrossActivation_Validate _ = _ |- _ => rewrite H end. marshal_cbn.
    rewrite (terms_or_nil_Ok _ _ Hm). f_equal. writer_norm. rest_rw. rewrite app_nil_r. repeat f_equal. lia.
  - intros [(Ho & Hl & Hb & Hh & Ht) E]. unfold CrossActivation_MarshalBinary in E. res_inv.
    match goal with H : CrossActivation_Validate _ = _ |- _ => pose proof H as Hv end.
    unfold CrossActivation_Validate in Hv. apply fail_if_Ok, orb_false_iff in Hv as [_ Hv%negb_false_iff].
    destruct (Terms_Validate_Marshal _ Hv) as [raw Hm]. rewrite (terms_or_nil_Ok _ _ Hm).
    pose proof (Terms_embedded _ _ Ht Hm). unfold ParseCrossActivation. apply reads_parse. writer_norm.
    rewrite blen32 in *. solve_reads; try done.
    + by apply ParseTerms_Marshal.
    + destruct m. apply reads_ret.
Qed.

#[global] Instance CrossRepayment_canonical : Canonical CrossRepayment.
Proof.
  intros d m. cbn. split.
  - unfold ParseCrossRepayment. intros E. parse_inv.
    split; [unfold CrossRepayment_typed; cbn; by rewrite !blen32|].
    unfold CrossRepayment_MarshalBinary. match goal with H : CrossRepayment_Validate _ = _ |- _ => rewrite H end. marshal_cbn.
    f_equal. writer_norm. rest_rw. rewrite app_nil_r. repeat f_equal. lia.
  - intros [(Ha & Hac & Hl & Hb & Hm & Hp & Hh) E]. unfold CrossRepayment_MarshalBinary in E. res_inv.
    unfold ParseCrossRepayment. apply reads_parse. writer_norm.
    rewrite blen32 in *. solve_reads; try done. destruct m. apply reads_ret.
Qed.

(** ** Properties *)

(** The amount due.  For every principal in range [RepaymentDue] succeeds
    exactly when the principal is positive, the rate is within the protocol's
    limits and the exact amount fits in a [uint64]; the result is the principal
    plus the interest truncated towards zero: within one unit of the exact
    rational amount, never in favour of the interest payer's counterparty
    (rounded down for positive rates, up for negative ones), always positive,
    and non-decreasing in the rate. *)
Theorem RepaymentDue_exact (t : Terms) :
  u64 (Principal t) ->
  (is_ok (RepaymentDue t) = true <-> 0 < Principal t /\ rate_ok t /\ Principal t + interest t < 2 ^ 64) /\
  (forall due, RepaymentDue t = Ok due ->
     0 < due < 2 ^ 64 /\
     (0 <= TermRateBps t -> Principal t * (10000 + TermRateBps t) - 10000 < 10000 * due
                            <= Principal t * (10000 + TermRateBps t)) /\
     (TermRateBps t <= 0 -> Principal t * (10000 + TermRateBps t) <= 10000 * due
                            < Principal t * (10000 + TermRateBps t) + 10000)) /\
  (forall t' due due', Principal t' = Principal t -> TermRateBps t <= TermRateBps t' ->
     RepaymentDue t = Ok due -> RepaymentDue t' = Ok due' -> due <= due').
Proof.
  intros Hp. split_and!.
  - split.
    + intros [d E]%is_ok_true. apply RepaymentDue_Ok in E as (? & ? & ? & _); done.
    + intros (H0 & Hr & Hlt). rewrite (proj2 (RepaymentDue_Ok t (Principal t + interest t) Hp)); [done|]. by split_and!.
  - intros due E. split; [by eapply RepaymentDue_pos|].
    apply RepaymentDue_Ok in E as (H0 & Hr & Hlt & ->); [|done]. by apply interest_rounding.
  - intros t' due due' Ep Er E E'. apply RepaymentDue_Ok in E as (H0 & Hr & Hlt & ->); [|done].
    apply RepaymentDue_Ok in E' as (_ & _ & _ & ->); [|by rewrite Ep]. unfold interest. rewrite Ep.
    apply Z.add_le_mono_l, Z.quot_le_mono; [lia|]. nia.
Qed.

Definition sample_terms : Terms := mkTerms (replicate 32 x01) (replicate 32 x02) 1000003 500 (-250) 90.

Lemma RepaymentDue_exact_witness :
  RepaymentDue sample_terms = Ok 975003 /\ 0 < 975003 < 2 ^ 64.
Proof.
  split; [reflexivity|].
  apply (proj1 (proj2 (RepaymentDue_exact sample_terms ltac:(unfold u64, sample_terms; cbn; lia))) 975003). reflexivity.
Defined.

(** Every lending wire format is canonical: for terms, loans, references
    and the four cross-shard messages, the parser accepts exactly the bytes
    that [MarshalBinary] gives for a value in range, and returns that value. *)
Theorem lending_formats_canonical (d : bytes) :
  (forall v, ParseTerms d = Ok v <-> Terms_typed v /\ Terms_MarshalBinary v = Ok d) /\
  (forall v, ParseLoan d = Ok v <-> Loan_typed v /\ Loan_MarshalBinary v = Ok d) /\
  (forall v, ParseRef d = Ok v <-> Ref_typed v /\ Ref_MarshalBinary v = Ok d) /\
  (forall v, ParseCrossOffer d = Ok v <-> CrossOffer_typed v /\ CrossOffer_MarshalBinary v = Ok d) /\
  (forall v, ParseCrossAcceptance d = Ok v <-> CrossAcceptance_typed v /\ CrossAcceptance_MarshalBinary v = Ok d) /\
  (forall v, ParseCrossActivation d = Ok v <-> CrossActivation_typed v /\ CrossActivation_MarshalBinary v = Ok d) /\
  (forall v, ParseCrossRepayment d = Ok v <-> CrossRepayment_typed v /\ CrossRepayment_MarshalBinary v = Ok d).
Proof.
  split_and!; intros v; [exact (Terms_canonical d v)|exact (Loan_canonical d v)|exact (Ref_canonical d v)
    |exact (CrossOffer_canonical d v)|exact (CrossAcceptance_canonical d v)|exact (CrossActivation_canonical d v)
    |exact (CrossRepayment_canonical d v)].
Qed.

(** [SameTerms] is equality of valid terms. *)
Lemma SameTerms_iff a b :
  Terms_typed a -> Terms_typed b ->
  SameTerms a b = true <-> a = b /\ Terms_Validate a = Ok tt.
Proof.
  intros Ha Hb. unfold SameTerms. destruct (Terms_MarshalBinary a) as [x|] eqn:Ea.
  - pose proof Ea as Hv. unfold Terms_MarshalBinary in Hv. apply bind_Ok in Hv as ([] & Hv & _).
    destruct (Terms_MarshalBinary b) as [y|] eqn:Eb.
    + rewrite bool_decide_eq_true. split.
      * intros ->. split; [|done]. exact (wire_inj a b y Ha Hb Ea Eb).
      * intros [-> _]. congruence.
    + split; [done|]. intros [-> _]. congruence.
  - split; [done|]. intros [_ Hv]. unfold Terms_MarshalBinary in Ea. rewrite Hv in Ea. done.
Qed.
