(* ===== verification/ComputeModel.v ===== *)
(** * ComputeModel

    Package [internal/v2/compute], data and wire formats: [model.go] (offers,
    jobs, results), [state.go] (on-chain job records) and [messages.go]
    (cross-shard messages, references and the settlement receipt). *)

From S2P Require Import Prelude GoLib Codec Crypto Types Object.

Open Scope Z_scope.

(** [type VerificationMode uint8] *)
Definition VerificationUnknown : Z := 0.
Definition VerificationDeterministic : Z := 1.
Definition VerificationReplicated : Z := 2.
Definition VerificationChallenge : Z := 3.
Definition VerificationZeroKnowledge : Z := 4.
Definition VerificationTEE : Z := 5.
Definition VerificationClientApproved : Z := 6.
Definition VerificationHybrid : Z := 7.

(** [type JobStatus uint8] *)
Definition JobPending : Z := 1.
Definition JobAssigned : Z := 2.
Definition JobAwaitingVerification : Z := 3.
Definition JobSettled : Z := 4.
Definition JobExpired : Z := 5.

Definition computeOfferObjectIndex : Z := 0x90000000.
Definition computeJobObjectIndex : Z := 0x90000001.

Record Resources := mkResources {
  CPUCores : Z;
  MemoryMiB : Z;
  GPUCount : Z;
  GPUMemoryMiB : Z;
  StorageMiB : Z;
  BandwidthMbps : Z;
  Capabilities : list bytes;
}.

Record Offer := mkOffer {
  of_Provider : bytes;
  of_Resources : Resources;
  of_PricePerUnit : Z;
  of_Collateral : Z;
  of_Verification : list Z;
  of_ValidUntilHeight : Z;
}.

Record Job := mkJob {
  jb_Owner : bytes;
  jb_WorkloadHash : bytes;
  jb_InputRoot : bytes;
  jb_Resources : Resources;
  jb_MaxPrice : Z;
  jb_CollateralRequired : Z;
  jb_Verification : Z;
  jb_DeadlineHeight : Z;
  jb_Replicas : Z;
  jb_Private : bool;
}.

(** [type Result struct] *)
Record ComputeResult := mkComputeResult {
  rt_JobID : bytes;
  rt_Provider : bytes;
  rt_ResultRoot : bytes;
  rt_ProofHash : bytes;
  rt_AttestationHash : bytes;
  rt_CompletedHeight : Z;
}.

Record Assignment := mkAssignment {
  as_OfferID : bytes;
  as_Provider : bytes;
  as_Price : Z;
}.

Record OnChainJob := mkOnChainJob {
  oj_ID : bytes;
  oj_Job : Job;
  oj_Escrow : Z;
  oj_Status : Z;
  oj_Assignments : list Assignment;
  oj_Results : list ComputeResult;
}.

#[global] Instance Resources_eq_dec : EqDecision Resources.
Proof. solve_decision. Defined.
#[global] Instance Offer_eq_dec : EqDecision Offer.
Proof. solve_decision. Defined.
#[global] Instance Job_eq_dec : EqDecision Job.
Proof. solve_decision. Defined.
#[global] Instance ComputeResult_eq_dec : EqDecision ComputeResult.
Proof. solve_decision. Defined.
#[global] Instance Assignment_eq_dec : EqDecision Assignment.
Proof. solve_decision. Defined.
#[global] Instance OnChainJob_eq_dec : EqDecision OnChainJob.
Proof. solve_decision. Defined.

(** ** Validation *)

Definition capability_ok (c : bytes) : bool :=
  negb (bool_decide (TrimSpace c = []) || (64 <? blen c)).

Definition Resources_Validate (r : Resources) : res unit :=
  fail_if ((CPUCores r =? 0) && (GPUCount r =? 0)) ErrInvalidOffer;;
  fail_if ((MemoryMiB r =? 0) || (32 <? blen (Capabilities r))) ErrInvalidOffer;;
  rfold (fun _ c => fail_if (negb (capability_ok c)) ErrInvalidOffer) tt (Capabilities r).

Definition Offer_Validate (o : Offer) : res unit :=
  fail_if (IsZero32 (of_Provider o) || (of_PricePerUnit o =? 0) || (of_ValidUntilHeight o =? 0)
    || (blen (of_Verification o) =? 0) || (7 <? blen (of_Verification o))) ErrInvalidOffer;;
  Resources_Validate (of_Resources o).

Definition Job_Validate (j : Job) : res unit :=
  fail_if (IsZero32 (jb_Owner j) || IsZero32 (jb_WorkloadHash j) || IsZero32 (jb_InputRoot j)
    || (jb_MaxPrice j =? 0) || (jb_DeadlineHeight j =? 0)
    || (jb_Verification j <=? VerificationUnknown) || (VerificationHybrid <? jb_Verification j)) ErrInvalidJob;;
  fail_if ((jb_Verification j =? VerificationReplicated) && (jb_Replicas j <? 2)) ErrInvalidJob;;
  Resources_Validate (jb_Resources j).

Definition Result_Validate (r : ComputeResult) : res unit :=
  fail_if (IsZero32 (rt_JobID r) || IsZero32 (rt_Provider r) || IsZero32 (rt_ResultRoot r)
    || (rt_CompletedHeight r =? 0)) Compute_ErrInvalidResult.

(** ** Encoders *)

Definition writeResources (r : Resources) (w : Writer.t) : Writer.t :=
  let w := w |> Writer.U16 (CPUCores r) |> Writer.U32 (MemoryMiB r) |> Writer.U16 (GPUCount r)
    |> Writer.U32 (GPUMemoryMiB r) |> Writer.U64 (StorageMiB r) |> Writer.U32 (BandwidthMbps r)
    |> Writer.U32 (blen (Capabilities r) mod 2 ^ 32) in
  foldl (fun w c => Writer.String (TrimSpace c) w) w (Capabilities r).

Definition Offer_MarshalBinary (o : Offer) : res bytes :=
  Offer_Validate o;;
  let w := Writer.new |> Writer.Fixed (of_Provider o) |> writeResources (of_Resources o)
    |> Writer.U64 (of_PricePerUnit o) |> Writer.U64 (of_Collateral o)
    |> Writer.U32 (blen (of_Verification o) mod 2 ^ 32) in
  let w := foldl (fun w m => Writer.U8 m w) w (of_Verification o) in
  Ok (Writer.BytesCopy (w |> Writer.U64 (of_ValidUntilHeight o))).

Definition Job_MarshalBinary (j : Job) : res bytes :=
  Job_Validate j;;
  Ok (Writer.BytesCopy (Writer.new |> Writer.Fixed (jb_Owner j) |> Writer.Fixed (jb_WorkloadHash j)
    |> Writer.Fixed (jb_InputRoot j) |> writeResources (jb_Resources j)
    |> Writer.U64 (jb_MaxPrice j) |> Writer.U64 (jb_CollateralRequired j)
    |> Writer.U8 (jb_Verification j) |> Writer.U64 (jb_DeadlineHeight j)
    |> Writer.U16 (jb_Replicas j) |> Writer.Bool (jb_Private j))).

Definition Result_MarshalBinary (r : ComputeResult) : res bytes :=
  Result_Validate r;;
  Ok (Writer.BytesCopy (Writer.new |> Writer.Fixed (rt_JobID r) |> Writer.Fixed (rt_Provider r)
    |> Writer.Fixed (rt_ResultRoot r) |> Writer.Fixed (rt_ProofHash r)
    |> Writer.Fixed (rt_AttestationHash r) |> Writer.U64 (rt_CompletedHeight r))).

Definition Assignment_MarshalBinary (a : Assignment) : res bytes :=
  fail_if (IsZero32 (as_OfferID a) || IsZero32 (as_Provider a) || (as_Price a =? 0)) ErrMarketState;;
  Ok (Writer.BytesCopy (Writer.new |> Writer.Fixed (as_OfferID a) |> Writer.Fixed (as_Provider a)
    |> Writer.U64 (as_Price a))).

(** A loop that encodes each item and writes it with its length; the first
    encoding error is returned. *)
Definition write_items {A} (enc : A -> res bytes) (l : list A) (w : Writer.t) : res Writer.t :=
  rfold (fun w x => raw ← enc x; Ok (w |> Writer.Bytes raw)) w l.

Definition OnChainJob_MarshalBinary (j : OnChainJob) : res bytes :=
  fail_if (IsZero32 (oj_ID j) || (oj_Escrow j <? jb_MaxPrice (oj_Job j)) || (oj_Status j <? JobPending)
    || (JobExpired <? oj_Status j)) ErrMarketState;;
  jobBytes ← Job_MarshalBinary (oj_Job j);
  let assignments := sort_by (fun a => hex (as_Provider a)) (oj_Assignments j) in
  let results := sort_by (fun r => hex (rt_Provider r)) (oj_Results j) in
  let w := Writer.new |> Writer.Fixed (oj_ID j) |> Writer.Bytes jobBytes |> Writer.U64 (oj_Escrow j)
    |> Writer.U8 (oj_Status j) |> Writer.U32 (blen assignments mod 2 ^ 32) in
  w ← write_items Assignment_MarshalBinary assignments w;
  let w := w |> Writer.U32 (blen results mod 2 ^ 32) in
  w ← write_items Result_MarshalBinary results w;
  Ok (Writer.BytesCopy w).

(** ** Parsers *)

Definition readAccount : parser bytes := Rd.Fixed 32.
Definition compute_readHash : parser bytes := Rd.Fixed 32.

Definition readResources : parser Resources :=
  cpu ← Rd.U16;
  memory ← Rd.U32;
  gpu ← Rd.U16;
  gpuMemory ← Rd.U32;
  storage ← Rd.U64;
  bandwidth ← Rd.U32;
  count ← Rd.U32 <!> ErrInvalidOffer;
  plift (fail_if (32 <? count) ErrInvalidOffer);;
  capabilities ← prepeat (Z.to_nat count) (Rd.String 64);
  mret (mkResources cpu memory gpu gpuMemory storage bandwidth capabilities).

Definition ParseOffer (data : bytes) : res Offer :=
  parse (provider ← readAccount <!> ErrInvalidOffer;
         resources ← readResources <!> ErrInvalidOffer;
         price ← Rd.U64 <!> ErrInvalidOffer;
         collateral ← Rd.U64 <!> ErrInvalidOffer;
         count ← Rd.U32 <!> ErrInvalidOffer;
         plift (fail_if ((count =? 0) || (7 <? count)) ErrInvalidOffer);;
         modes ← prepeat (Z.to_nat count) Rd.U8 <!> ErrInvalidOffer;
         validUntil ← Rd.U64 <!> ErrInvalidOffer;
         Rd.Done <!> ErrInvalidOffer;;
         let offer := mkOffer provider resources price collateral modes validUntil in
         plift (Offer_Validate offer);;
         mret offer) data.

Definition ParseJob (data : bytes) : res Job :=
  parse (owner ← readAccount <!> ErrInvalidJob;
         workload ← compute_readHash <!> ErrInvalidJob;
         inputRoot ← compute_readHash <!> ErrInvalidJob;
         resources ← readResources <!> ErrInvalidJob;
         maxPrice ← Rd.U64 <!> ErrInvalidJob;
         collateral ← Rd.U64 <!> ErrInvalidJob;
         mode ← Rd.U8 <!> ErrInvalidJob;
         deadline ← Rd.U64 <!> ErrInvalidJob;
         replicas ← Rd.U16 <!> ErrInvalidJob;
         private ← Rd.Bool <!> ErrInvalidJob;
         Rd.Done <!> ErrInvalidJob;;
         let job := mkJob owner workload inputRoot resources maxPrice collateral mode deadline replicas private in
         plift (Job_Validate job);;
         mret job) data.

Definition ParseResult (data : bytes) : res ComputeResult :=
  parse (jobID ← Rd.Fixed 32 <!> Compute_ErrInvalidResult;
         provider ← readAccount <!> Compute_ErrInvalidResult;
         resultRoot ← compute_readHash <!> Compute_ErrInvalidResult;
         proofHash ← compute_readHash <!> Compute_ErrInvalidResult;
         attestationHash ← compute_readHash <!> Compute_ErrInvalidResult;
         completedHeight ← Rd.U64 <!> Compute_ErrInvalidResult;
         Rd.Done <!> Compute_ErrInvalidResult;;
         let result := mkComputeResult jobID provider resultRoot proofHash attestationHash completedHeight in
         plift (Result_Validate result);;
         mret result) data.

Definition ParseAssignment (data : bytes) : res Assignment :=
  parse (offerID ← compute_readHash <!> ErrMarketState;
         provider ← readAccount <!> ErrMarketState;
         price ← Rd.U64 <!> ErrMarketState;
         Rd.Done <!> ErrMarketState;;
         plift (fail_if (price =? 0) ErrMarketState);;
         let assignment := mkAssignment offerID provider price in
         plift (Assignment_MarshalBinary assignment);;
         mret assignment) data.

(** [raw, err := r.Bytes(1024)] then the item's parser. *)
Definition read_item {A} (p : bytes -> res A) : parser A :=
  raw ← Rd.Bytes 1024 <!> ErrMarketState;
  plift (p raw).

Definition ParseOnChainJob (data : bytes) : res OnChainJob :=
  parse (jobID ← Rd.Fixed 32 <!> ErrMarketState;
         jobBytes ← Rd.Bytes (Z.shiftl 1 20) <!> ErrMarketState;
         job ← plift (ParseJob jobBytes);
         escrow ← Rd.U64 <!> ErrMarketState;
         status ← Rd.U8 <!> ErrMarketState;
         assignmentCount ← Rd.U32 <!> ErrMarketState;
         plift (fail_if (1024 <? assignmentCount) ErrMarketState);;
         assignments ← prepeat (Z.to_nat assignmentCount) (read_item ParseAssignment);
         resultCount ← Rd.U32 <!> ErrMarketState;
         plift (fail_if (1024 <? resultCount) ErrMarketState);;
         results ← prepeat (Z.to_nat resultCount) (read_item ParseResult);
         Rd.Done <!> ErrMarketState;;
         let record := mkOnChainJob jobID job escrow status assignments results in
         plift (OnChainJob_MarshalBinary record);;
         mret record) data.

(** ** Matching an offer with a job (market.go) *)

Definition requiredAssignments (job : Job) : Z :=
  if jb_Verification job =? VerificationReplicated then jb_Replicas job else 1.

Definition supportsMode (modes : list Z) (target : Z) : bool :=
  existsb (fun mode => (mode =? target) || (mode =? VerificationHybrid)) modes.

Definition offerMatchesJob (offer : Offer) (job : Job) : bool :=
  let a := of_Resources offer in
  let b := jb_Resources job in
  if (CPUCores a <? CPUCores b) || (MemoryMiB a <? MemoryMiB b) || (GPUCount a <? GPUCount b)
     || (GPUMemoryMiB a <? GPUMemoryMiB b) || (StorageMiB a <? StorageMiB b) || (BandwidthMbps a <? BandwidthMbps b)
     || (of_Collateral offer <? jb_CollateralRequired job)
     || negb (supportsMode (of_Verification offer) (jb_Verification job))
  then false
  else
    let available : gset bytes := list_to_set (Capabilities a) in
    forallb (fun capability => bool_decide (capability ∈ available)) (Capabilities b).

(** ** Cross-shard messages and references (messages.go) *)

Record AssignmentMessage := mkAssignmentMessage {
  am_JobID : bytes;
  am_JobOwner : bytes;
  am_JobShard : Z;
  am_OfferID : bytes;
  am_Offer : Offer;
  am_Job : Job;
}.

Record ResultMessage := mkResultMessage {
  rm_JobID : bytes;
  rm_JobOwner : bytes;
  rm_JobShard : Z;
  rm_Result : ComputeResult;
}.

Record IngestRef := mkIngestRef { ir_JobObject : bytes; ir_MessageObject : bytes }.
Record JobRef := mkJobRef { jr_JobObject : bytes }.

Record SettlementReceipt := mkSettlementReceipt {
  sr_JobID : bytes;
  sr_ResultRoot : bytes;
  sr_Payments : gmap bytes Z;
  sr_Refund : Z;
  sr_Slashed : gmap bytes Z;
  sr_SlashReward : Z;
  sr_Expired : bool;
}.

Definition AssignmentMessage_Validate (m : AssignmentMessage) : res unit :=
  fail_if (IsZero32 (am_JobID m) || IsZero32 (am_JobOwner m) || IsZero32 (am_OfferID m)
    || negb (bool_decide (jb_Owner (am_Job m) = am_JobOwner m))) ErrComputeMessage;;
  fail_if (negb (is_ok (Offer_Validate (am_Offer m)))) ErrComputeMessage;;
  fail_if (negb (is_ok (Job_Validate (am_Job m))) || negb (offerMatchesJob (am_Offer m) (am_Job m))
    || (of_Collateral (am_Offer m) <? jb_CollateralRequired (am_Job m))) ErrComputeMessage.

(** [offer, _ := m.Offer.MarshalBinary()]: nil on an error. *)
Definition AssignmentMessage_MarshalBinary (m : AssignmentMessage) : res bytes :=
  AssignmentMessage_Validate m;;
  Ok (Writer.BytesCopy (Writer.new |> Writer.Fixed (am_JobID m) |> Writer.Fixed (am_JobOwner m)
    |> Writer.U32 (am_JobShard m) |> Writer.Fixed (am_OfferID m)
    |> Writer.Bytes (ok_or [] (Offer_MarshalBinary (am_Offer m)))
    |> Writer.Bytes (ok_or [] (Job_MarshalBinary (am_Job m))))).

Definition ParseAssignmentMessage (data : bytes) : res AssignmentMessage :=
  parse (jobID ← Rd.Fixed 32 <!> ErrComputeMessage;
         owner ← readAccount <!> ErrComputeMessage;
         shard ← Rd.U32 <!> ErrComputeMessage;
         offerID ← compute_readHash <!> ErrComputeMessage;
         offerRaw ← Rd.Bytes (Z.shiftl 1 20) <!> ErrComputeMessage;
         offer ← plift (ParseOffer offerRaw) <!> ErrComputeMessage;
         jobRaw ← Rd.Bytes (Z.shiftl 1 20) <!> ErrComputeMessage;
         job ← plift (ParseJob jobRaw) <!> ErrComputeMessage;
         Rd.Done <!> ErrComputeMessage;;
         let message := mkAssignmentMessage jobID owner shard offerID offer job in
         plift (AssignmentMessage_Validate message);;
         mret message) data.

Definition AssignmentMessage_Output (m : AssignmentMessage) : res OutputSpec :=
  raw ← AssignmentMessage_MarshalBinary m;
  Ok (mkOutputSpec (am_JobOwner m) KindComputeAssignment raw).

Definition ValidateForRecord (m : AssignmentMessage) (record : OnChainJob) : res unit :=
  fail_if (negb (bool_decide (oj_ID record = am_JobID m))
    || negb (bool_decide (jb_Owner (oj_Job record) = am_JobOwner m))) ErrComputeMessage;;
  a ← Job_MarshalBinary (oj_Job record);
  b ← Job_MarshalBinary (am_Job m) <?> ErrComputeMessage;
  fail_if (negb (bool_decide (a = b))) ErrComputeMessage;;
  AssignmentMessage_Validate m.

Definition ResultMessage_Validate (m : ResultMessage) : res unit :=
  fail_if (IsZero32 (rm_JobID m) || IsZero32 (rm_JobOwner m)
    || negb (bool_decide (rt_JobID (rm_Result m) = rm_JobID m))) ErrComputeMessage;;
  Result_Validate (rm_Result m).

Definition ResultMessage_MarshalBinary (m : ResultMessage) : res bytes :=
  ResultMessage_Validate m;;
  Ok (Writer.BytesCopy (Writer.new |> Writer.Fixed (rm_JobID m) |> Writer.Fixed (rm_JobOwner m)
    |> Writer.U32 (rm_JobShard m) |> Writer.Bytes (ok_or [] (Result_MarshalBinary (rm_Result m))))).

Definition ParseResultMessage (data : bytes) : res ResultMessage :=
  parse (jobID ← Rd.Fixed 32 <!> ErrComputeMessage;
         owner ← readAccount <!> ErrComputeMessage;
         shard ← Rd.U32 <!> ErrComputeMessage;
         resultRaw ← Rd.Bytes 2048 <!> ErrComputeMessage;
         result ← plift (ParseResult resultRaw) <!> ErrComputeMessage;
         Rd.Done <!> ErrComputeMessage;;
         let message := mkResultMessage jobID owner shard result in
         plift (ResultMessage_Validate message);;
         mret message) data.

Definition ResultMessage_Output (m : ResultMessage) : res OutputSpec :=
  raw ← ResultMessage_MarshalBinary m;
  Ok (mkOutputSpec (rm_JobOwner m) KindComputeResult raw).

Definition IngestRef_MarshalBinary (r : IngestRef) : res bytes :=
  fail_if (IsZero32 (ir_JobObject r) || IsZero32 (ir_MessageObject r)
    || bool_decide (ir_JobObject r = ir_MessageObject r)) ErrComputeMessage;;
  Ok (Writer.BytesCopy (Writer.new |> Writer.Fixed (ir_JobObject r) |> Writer.Fixed (ir_MessageObject r))).

Definition ParseIngestRef (data : bytes) : res IngestRef :=
  fail_if (negb (blen data =? 64)) ErrComputeMessage;;
  let out := mkIngestRef (firstn 32 data) (skipn 32 data) in
  IngestRef_MarshalBinary out;;
  Ok out.

Definition JobRef_MarshalBinary (r : JobRef) : res bytes :=
  fail_if (IsZero32 (jr_JobObject r)) ErrComputeMessage;;
  Ok (jr_JobObject r).

Definition ParseJobRef (data : bytes) : res JobRef :=
  fail_if (negb (blen data =? 32)) ErrComputeMessage;;
  let out := mkJobRef data in
  JobRef_MarshalBinary out;;
  Ok out.

Section receipts.
Context `{MapOrder}.

Definition writeAccountAmounts (values : gmap bytes Z) (w : Writer.t) : Writer.t :=
  let ids := sort_by hex (range_map values).*1 in
  foldl (fun w id => w |> Writer.Fixed id |> Writer.U64 (mget values id)) (w |> Writer.U32 (blen ids mod 2 ^ 32)) ids.

Definition SettlementReceipt_MarshalBinary (r : SettlementReceipt) : bytes :=
  Writer.BytesCopy (Writer.new |> Writer.Fixed (sr_JobID r) |> Writer.Fixed (sr_ResultRoot r)
    |> writeAccountAmounts (sr_Payments r) |> Writer.U64 (sr_Refund r)
    |> writeAccountAmounts (sr_Slashed r) |> Writer.U64 (sr_SlashReward r) |> Writer.Bool (sr_Expired r)).
End receipts.

(** ** Objects of the market (state.go) *)

Section objects.
Context `{Crypto}.

Definition NewOfferObject (txID : bytes) (shard : Z) (offer : Offer) : res Object :=
  raw ← Offer_MarshalBinary offer;
  Ok (mkObject (ObjectIDForShard txID computeOfferObjectIndex shard) 1 (of_Provider offer) KindComputeOffer raw).

Definition NewJobObject (txID : bytes) (shard : Z) (job : Job) (escrow : Z) : res (Object * OnChainJob) :=
  let jobID := JobIDFromTransaction txID 0 in
  let record := mkOnChainJob jobID job escrow JobPending [] [] in
  raw ← OnChainJob_MarshalBinary record;
  Ok (mkObject (ObjectIDForShard txID computeJobObjectIndex shard) 1 (jb_Owner job) KindComputeJob raw, record).
End objects.
