(* ===== verification/ComputeWire.v ===== *)
(** * ComputeWire

    Reading back the wire formats of the compute market.  Capabilities are
    stored without surrounding white space and the lists of a job record in
    provider order, so a value reads back in that normal form; amounts,
    counts and identities are unchanged. *)

From S2P Require Import Prelude GoLib Codec Crypto Types Object ComputeModel.

Open Scope Z_scope.

Definition Resources_typed (r : Resources) : Prop :=
  u16 (CPUCores r) /\ u32 (MemoryMiB r) /\ u16 (GPUCount r) /\ u32 (GPUMemoryMiB r) /\ u64 (StorageMiB r) /\
  u32 (BandwidthMbps r).
Definition Offer_typed (o : Offer) : Prop :=
  arr32 (of_Provider o) /\ Resources_typed (of_Resources o) /\ u64 (of_PricePerUnit o) /\ u64 (of_Collateral o) /\
  Forall u8 (of_Verification o) /\ u64 (of_ValidUntilHeight o).
Definition Job_typed (j : Job) : Prop :=
  arr32 (jb_Owner j) /\ arr32 (jb_WorkloadHash j) /\ arr32 (jb_InputRoot j) /\ Resources_typed (jb_Resources j) /\
  u64 (jb_MaxPrice j) /\ u64 (jb_CollateralRequired j) /\ u8 (jb_Verification j) /\ u64 (jb_DeadlineHeight j) /\
  u16 (jb_Replicas j).
Definition ComputeResult_typed (r : ComputeResult) : Prop :=
  arr32 (rt_JobID r) /\ arr32 (rt_Provider r) /\ arr32 (rt_ResultRoot r) /\ arr32 (rt_ProofHash r) /\
  arr32 (rt_AttestationHash r) /\ u64 (rt_CompletedHeight r).
Definition Assignment_typed (a : Assignment) : Prop :=
  arr32 (as_OfferID a) /\ arr32 (as_Provider a) /\ u64 (as_Price a).
Definition OnChainJob_typed (j : OnChainJob) : Prop :=
  arr32 (oj_ID j) /\ Job_typed (oj_Job j) /\ u64 (oj_Escrow j) /\ u8 (oj_Status j) /\
  Forall Assignment_typed (oj_Assignments j) /\ Forall ComputeResult_typed (oj_Results j).

(** ** Normal forms *)

Definition trim_resources (r : Resources) : Resources :=
  mkResources (CPUCores r) (MemoryMiB r) (GPUCount r) (GPUMemoryMiB r) (StorageMiB r) (BandwidthMbps r)
    (TrimSpace <$> Capabilities r).
Definition trim_offer (o : Offer) : Offer :=
  mkOffer (of_Provider o) (trim_resources (of_Resources o)) (of_PricePerUnit o) (of_Collateral o) (of_Verification o)
    (of_ValidUntilHeight o).
Definition trim_job (j : Job) : Job :=
  mkJob (jb_Owner j) (jb_WorkloadHash j) (jb_InputRoot j) (trim_resources (jb_Resources j)) (jb_MaxPrice j)
    (jb_CollateralRequired j) (jb_Verification j) (jb_DeadlineHeight j) (jb_Replicas j) (jb_Private j).
Definition sort_record (j : OnChainJob) : OnChainJob :=
  mkOnChainJob (oj_ID j) (trim_job (oj_Job j)) (oj_Escrow j) (oj_Status j)
    (sort_by (fun a => hex (as_Provider a)) (oj_Assignments j)) (sort_by (fun r => hex (rt_Provider r)) (oj_Results j)).

(** ** Resources *)

Definition enc_resources (r : Resources) : bytes :=
  be 2 (CPUCores r) ++ be 4 (MemoryMiB r) ++ be 2 (GPUCount r) ++ be 4 (GPUMemoryMiB r) ++ be 8 (StorageMiB r)
  ++ be 4 (BandwidthMbps r) ++ be 4 (blen (Capabilities r)) ++ concat ((fun c => enc_bytes (TrimSpace c)) <$> Capabilities r).

Lemma writeResources_eq r w : writeResources r w = w ++ enc_resources r.
Proof.
  unfold writeResources, enc_resources. cbv zeta.
  rewrite (writer_loop _ (fun c => enc_bytes (TrimSpace c))) by (intros; apply writer_string).
  unfold Writer.U16, Writer.U32, Writer.U64. rewrite be4_mod. by rewrite <-!app_assoc.
Qed.

Lemma Resources_Validate_Ok r :
  Resources_Validate r = Ok tt -> blen (Capabilities r) <= 32 /\ Forall (fun c => capability_ok c = true) (Capabilities r).
Proof.
  unfold Resources_Validate. intros E. apply bind_Ok in E as (? & ? & E). apply bind_Ok in E as (? & Hb%fail_if_Ok & E).
  apply rfold_unit_Forall in E. split; [lia|]. eapply Forall_impl; [exact E|]. cbn. intros c Hc%fail_if_Ok.
  by apply negb_false_iff.
Qed.

Lemma capability_trim c : capability_ok c = true -> capability_ok (TrimSpace c) = true.
Proof.
  unfold capability_ok. rewrite TrimSpace_idem. pose proof (TrimSpace_blen c). intros E.
  apply negb_true_iff, orb_false_iff in E as [-> E]. cbn. apply negb_true_iff, Z.ltb_ge. lia.
Qed.

Lemma Resources_Validate_trim r : Resources_Validate r = Ok tt -> Resources_Validate (trim_resources r) = Ok tt.
Proof.
  intros E. pose proof (Resources_Validate_Ok r E) as [Hn Hc]. unfold Resources_Validate in *. cbn in *.
  apply bind_Ok in E as (? & E1 & E). apply bind_Ok in E as (? & E2 & E).
  rewrite E1. cbn. unfold blen in *. rewrite length_fmap, E2. cbn. apply rfold_unit_intro, Forall_fmap.
  eapply Forall_impl; [exact Hc|]. cbn. intros c Hk. by rewrite (capability_trim c Hk).
Qed.

Lemma reads_resources post r :
  Resources_typed r -> Resources_Validate r = Ok tt ->
  reads post readResources (enc_resources r) (trim_resources r).
Proof.
  intros (Hc & Hm & Hg & Hgm & Hs & Hb) Hv. destruct (Resources_Validate_Ok r Hv) as [Hn Hcap].
  assert (0 <= blen (Capabilities r)) by (unfold blen; lia).
  unfold readResources, enc_resources. solve_reads; try done.
  - unfold u32. lia.
  - apply Z.ltb_ge. lia.
  - apply (reads_repeat_map (Rd.String 64) _ TrimSpace (fun c => capability_ok c = true)); [|done].
    intros post' c Hk. apply reads_string; [|lia]. pose proof (TrimSpace_blen c).
    unfold capability_ok in Hk. apply negb_true_iff, orb_false_iff in Hk as [_ Hk]. lia.
Qed.

Lemma readResources_Ok rd r rd' : readResources rd = Ok (r, rd') -> Resources_typed r.
Proof. unfold readResources. intros E. parse_inv. by split_and!. Qed.

(** ** Offers and jobs *)

Lemma Offer_Validate_trim o : Offer_Validate o = Ok tt -> Offer_Validate (trim_offer o) = Ok tt.
Proof.
  unfold Offer_Validate. intros E. apply bind_Ok in E as (? & E1 & E). cbn [trim_offer of_Provider of_PricePerUnit
    of_ValidUntilHeight of_Verification of_Resources]. rewrite E1. by apply Resources_Validate_trim.
Qed.
Lemma Job_Validate_trim j : Job_Validate j = Ok tt -> Job_Validate (trim_job j) = Ok tt.
Proof.
  unfold Job_Validate. intros E. apply bind_Ok in E as (? & E1 & E). apply bind_Ok in E as (? & E2 & E).
  cbn [trim_job jb_Owner jb_WorkloadHash jb_InputRoot jb_MaxPrice jb_DeadlineHeight jb_Verification jb_Replicas jb_Resources].
  rewrite E1. cbn [mbind res_bind]. rewrite E2. by apply Resources_Validate_trim.
Qed.

Lemma Offer_Validate_inv o :
  Offer_Validate o = Ok tt -> 1 <= blen (of_Verification o) <= 7 /\ Resources_Validate (of_Resources o) = Ok tt.
Proof.
  unfold Offer_Validate. intros E. apply bind_Ok in E as (? & Hb%fail_if_Ok & E). split; [|done].
  unfold blen in *. lia.
Qed.

Lemma ParseOffer_Marshal o d :
  Offer_typed o -> Offer_MarshalBinary o = Ok d -> ParseOffer d = Ok (trim_offer o).
Proof.
  intros (Hp & Hr & Hu & Hc & Hm & Hv) E. unfold Offer_MarshalBinary in E. apply bind_Ok in E as ([] & Hval & E).
  apply Ok_inj in E as <-. destruct (Offer_Validate_inv o Hval) as [Hn Hres].
  unfold ParseOffer, Writer.BytesCopy. apply reads_parse. cbv zeta.
  rewrite (writer_loop _ (fun m => [byte_of_Z m])) by done. rewrite writeResources_eq.
  unfold Writer.U32, Writer.U64, Writer.Fixed, Writer.new. rewrite be4_mod. app_norm. unfold readAccount.
  rewrite blen32 in Hp. solve_reads; try done.
  - by apply reads_resources.
  - unfold u32. lia.
  - lia.
  - by apply (reads_repeat_count _ (fun m => [byte_of_Z m]) u8); [intros; apply reads_u8|].
  - by apply Offer_Validate_trim.
Qed.

Lemma ParseOffer_Ok d o : ParseOffer d = Ok o -> Offer_typed o /\ Offer_Validate o = Ok tt.
Proof.
  unfold ParseOffer, readAccount. intros E. parse_inv.
  match goal with H : readResources _ = _ |- _ => apply readResources_Ok in H end.
  match goal with H : prepeat _ _ _ = _ |- _ =>
    apply (prepeat_Ok _ (fun m => [byte_of_Z m]) u8) in H as (_ & _ & ?) end; [|intros; by apply u8_Ok].
  split; [|done]. unfold Offer_typed. cbn. by rewrite blen32.
Qed.

Lemma ParseJob_Marshal j d : Job_typed j -> Job_MarshalBinary j = Ok d -> ParseJob d = Ok (trim_job j).
Proof.
  intros (Ho & Hw & Hi & Hr & Hp & Hc & Hv & Hd & Hn) E. unfold Job_MarshalBinary in E.
  apply bind_Ok in E as ([] & Hval & E). apply Ok_inj in E as <-.
  assert (Resources_Validate (jb_Resources j) = Ok tt) as Hres.
  { unfold Job_Validate in Hval. by do 2 apply bind_Ok in Hval as (? & _ & Hval). }
  unfold ParseJob. apply reads_parse. rewrite writer_bool, writeResources_eq.
  unfold Writer.BytesCopy, Writer.U8, Writer.U16, Writer.U64, Writer.Fixed, Writer.new. app_norm.
  unfold readAccount, compute_readHash. rewrite blen32 in *. solve_reads; try done.
  - by apply reads_resources.
  - by apply Job_Validate_trim.
Qed.

Lemma ParseJob_Ok d j : ParseJob d = Ok j -> Job_typed j /\ Job_Validate j = Ok tt.
Proof.
  unfold ParseJob, readAccount, compute_readHash. intros E. parse_inv.
  match goal with H : readResources _ = _ |- _ => apply readResources_Ok in H end.
  split; [|done]. unfold Job_typed. cbn. by rewrite !blen32.
Qed.

(** Results and assignments have canonical formats. *)

#[global] Instance ComputeResult_wire : Wire ComputeResult := {|
  wire_typed := ComputeResult_typed; wire_marshal := Result_MarshalBinary; wire_parse := ParseResult |}.
#[global] Instance Assignment_wire : Wire Assignment := {|
  wire_typed := Assignment_typed; wire_marshal := Assignment_MarshalBinary; wire_parse := ParseAssignment |}.

#[global] Instance ComputeResult_canonical : Canonical ComputeResult.
Proof.
  intros d r. cbn. split.
  - unfold ParseResult, readAccount, compute_readHash. intros E. parse_inv.
    split; [unfold ComputeResult_typed; cbn; by rewrite !blen32|].
    unfold Result_MarshalBinary. match goal with H : Result_Validate _ = _ |- _ => rewrite H end.
    cbn [mbind res_bind]. f_equal. cbn -[Writer.BytesCopy Writer.new Writer.U64 Writer.Fixed].
    writer_norm. rest_rw. by rewrite app_nil_r.
  - intros [(H1 & H2 & H3 & H4 & H5 & H6) E]. unfold Result_MarshalBinary in E. res_inv.
    unfold ParseResult, readAccount, compute_readHash. apply reads_parse. writer_norm.
    rewrite blen32 in *. solve_reads; try done. destruct r. apply reads_ret.
Qed.

#[global] Instance Assignment_canonical : Canonical Assignment.
Proof.
  intros d a. cbn. split.
  - unfold ParseAssignment, readAccount, compute_readHash. intros E. parse_inv.
    split; [unfold Assignment_typed; cbn; by rewrite !blen32|].
    match goal with H : Assignment_MarshalBinary _ = _ |- _ => rewrite H; rename H into Hm end.
    unfold Assignment_MarshalBinary in Hm. apply bind_Ok in Hm as (? & _ & Hm). apply Ok_inj in Hm as <-.
    f_equal. cbn -[Writer.BytesCopy Writer.new Writer.U64 Writer.Fixed]. writer_norm. rest_rw. by rewrite app_nil_r.
  - intros [(H1 & H2 & H3) E]. pose proof E as Em. unfold Assignment_MarshalBinary in E. res_inv.
    unfold ParseAssignment, readAccount, compute_readHash. apply reads_parse. writer_norm.
    rewrite blen32 in *. destruct a. cbn in *. solve_reads; try done; first [lia|exact Em].
Qed.

Lemma length_Assignment_Marshal a d : Assignment_typed a -> Assignment_MarshalBinary a = Ok d -> blen d = 72.
Proof.
  intros (Ho & Hp & _) E. unfold Assignment_MarshalBinary in E. res_inv. writer_norm. unfold blen, arr in *.
  by rewrite !length_app, !length_be, Ho, Hp.
Qed.
Lemma length_Result_Marshal r d : ComputeResult_typed r -> Result_MarshalBinary r = Ok d -> blen d = 168.
Proof.
  intros (H1 & H2 & H3 & H4 & H5 & _) E. unfold Result_MarshalBinary in E. res_inv. writer_norm. unfold blen, arr in *.
  by rewrite !length_app, !length_be, H1, H2, H3, H4, H5.
Qed.

(** ** Job records *)

Definition enc_item {A} (enc : A -> res bytes) (x : A) : bytes := enc_bytes (ok_or [] (enc x)).

Lemma write_items_Ok {A} (enc : A -> res bytes) l w w' :
  write_items enc l w = Ok w' ->
  w' = w ++ concat (enc_item enc <$> l) /\ Forall (fun x => exists d, enc x = Ok d) l.
Proof.
  unfold write_items. revert w. induction l as [|x l IH]; intros w E; cbn in E.
  { apply Ok_inj in E as <-. cbn. by rewrite app_nil_r. }
  destruct (enc x) as [d|] eqn:Ex; [|done]. cbn in E. destruct (IH _ E) as [-> Hl].
  split; [|by constructor; eauto]. cbn [fmap list_fmap concat].
  assert (enc_item enc x = enc_bytes d) as -> by (unfold enc_item; by rewrite Ex).
  by rewrite writer_bytes, <-app_assoc.
Qed.
Lemma write_items_succeeds {A} (enc : A -> res bytes) l w :
  Forall (fun x => exists d, enc x = Ok d) l -> exists w', write_items enc l w = Ok w'.
Proof.
  unfold write_items. intros Hl. revert w. induction Hl as [|x l [d Hx] _ IH]; intros w; cbn; [eauto|].
  rewrite Hx. cbn. apply IH.
Qed.

Lemma reads_item {A} `{Canonical A} post (x : A) :
  wire_typed x -> (exists d, wire_marshal x = Ok d /\ blen d <= 1024) ->
  reads post (read_item wire_parse) (enc_item wire_marshal x) x.
Proof.
  intros Hx (d & Hd & Hl). unfold read_item, enc_item. rewrite Hd. cbn [ok_or].
  eapply reads_bind1; [apply reads_or_err, reads_bytes; [done|lia]|].
  apply reads_lift. by apply wire_roundtrip.
Qed.

Definition Assignment_small (a : Assignment) : Prop :=
  Assignment_typed a /\ exists d, Assignment_MarshalBinary a = Ok d /\ blen d <= 1024.
Definition Result_small (r : ComputeResult) : Prop :=
  ComputeResult_typed r /\ exists d, Result_MarshalBinary r = Ok d /\ blen d <= 1024.
Lemma reads_assignment post a :
  Assignment_small a -> reads post (read_item ParseAssignment) (enc_item Assignment_MarshalBinary a) a.
Proof. intros [Ht Hd]. exact (reads_item post a Ht Hd). Qed.
Lemma reads_result post r :
  Result_small r -> reads post (read_item ParseResult) (enc_item Result_MarshalBinary r) r.
Proof. intros [Ht Hd]. exact (reads_item post r Ht Hd). Qed.

Lemma concat_blen_le {A} (f : A -> bytes) (k : Z) (l : list A) :
  Forall (fun x => blen (f x) <= k) l -> blen (concat (f <$> l)) <= k * blen l.
Proof.
  intros Hl. induction Hl as [|x l Hx _ IH]; [unfold blen; cbn; lia|]. cbn [fmap list_fmap concat]. unfold blen in *. rewrite length_app. cbn [length]. lia.
Qed.

Lemma enc_resources_blen r : Resources_Validate r = Ok tt -> blen (enc_resources r) <= 2500.
Proof.
  intros Hv. destruct (Resources_Validate_Ok r Hv) as [Hn Hc]. unfold enc_resources.
  pose proof (concat_blen_le (fun c => enc_bytes (TrimSpace c)) 68 (Capabilities r)) as Hb.
  assert (Forall (fun c => blen (enc_bytes (TrimSpace c)) <= 68) (Capabilities r)) as Hf.
  { eapply Forall_impl; [exact Hc|]. cbn. intros c Hk. pose proof (TrimSpace_blen c).
    unfold capability_ok in Hk. apply negb_true_iff, orb_false_iff in Hk as [_ Hk].
    unfold enc_bytes. unfold blen in *. rewrite length_app, length_be. lia. }
  specialize (Hb Hf). unfold blen in *. rewrite !length_app, !length_be. lia.
Qed.

Lemma Job_Marshal_blen j d : Job_typed j -> Job_MarshalBinary j = Ok d -> blen d <= Z.shiftl 1 20.
Proof.
  intros (Ho & Hw & Hi & _) E. unfold Job_MarshalBinary in E. apply bind_Ok in E as ([] & Hval & E). apply Ok_inj in E as <-.
  assert (Resources_Validate (jb_Resources j) = Ok tt) as Hres.
  { unfold Job_Validate in Hval. by do 2 apply bind_Ok in Hval as (? & _ & Hval). }
  pose proof (enc_resources_blen _ Hres). rewrite writer_bool, writeResources_eq.
  unfold Writer.BytesCopy, Writer.U8, Writer.U16, Writer.U64, Writer.Fixed, Writer.new, enc_bool.
  unfold blen, arr in *. rewrite !length_app, !length_be, Ho, Hw, Hi. cbn [length]. change (Z.shiftl 1 20) with 1048576. lia.
Qed.
Lemma Offer_Marshal_blen o d : Offer_typed o -> Offer_MarshalBinary o = Ok d -> blen d <= Z.shiftl 1 20.
Proof.
  intros (Hp & _) E. unfold Offer_MarshalBinary in E. apply bind_Ok in E as ([] & Hval & E). apply Ok_inj in E as <-.
  destruct (Offer_Validate_inv o Hval) as [Hn Hres]. pose proof (enc_resources_blen _ Hres). cbv zeta.
  rewrite (writer_loop _ (fun m => [byte_of_Z m])) by done. rewrite writeResources_eq.
  unfold Writer.BytesCopy, Writer.U32, Writer.U64, Writer.Fixed, Writer.new.
  pose proof (concat_blen_le (fun m => [byte_of_Z m]) 1 (of_Verification o) ltac:(by apply Forall_true)) as Hc.
  unfold blen, arr in *. rewrite !length_app, !length_be, Hp. cbn [length]. change (Z.shiftl 1 20) with 1048576. lia.
Qed.

Lemma Job_MarshalBinary_trim j d : Job_MarshalBinary j = Ok d -> Job_MarshalBinary (trim_job j) = Ok d.
Proof.
  unfold Job_MarshalBinary. intros E. apply bind_Ok in E as ([] & Hv & E). rewrite (Job_Validate_trim _ Hv).
  cbn [mbind res_bind]. rewrite <-E. f_equal. unfold Writer.BytesCopy. rewrite !writer_bool, !writeResources_eq.
  cbn [trim_job jb_Owner jb_WorkloadHash jb_InputRoot jb_Resources jb_MaxPrice jb_CollateralRequired jb_Verification
    jb_DeadlineHeight jb_Replicas jb_Private].
  assert (enc_resources (trim_resources (jb_Resources j)) = enc_resources (jb_Resources j)) as ->; [|done].
  unfold enc_resources, trim_resources. cbn [CPUCores MemoryMiB GPUCount GPUMemoryMiB StorageMiB BandwidthMbps Capabilities].
  rewrite <-list_fmap_compose. unfold blen. rewrite length_fmap. do 7 f_equal.
  f_equal. apply list_fmap_ext. intros ? c _. cbn. by rewrite TrimSpace_idem.
Qed.

Lemma sort_by_idem {A K} `{KeyOrder K} (key : A -> K) l : NoDup (key <$> l) -> sort_by key (sort_by key l) = sort_by key l.
Proof. intros Hnd. apply sort_by_proper; [by rewrite sort_by_perm|apply sort_by_perm]. Qed.

Lemma OnChainJob_Marshal_inv j d :
  OnChainJob_MarshalBinary j = Ok d ->
  (IsZero32 (oj_ID j) || (oj_Escrow j <? jb_MaxPrice (oj_Job j)) || (oj_Status j <? JobPending)
    || (JobExpired <? oj_Status j)) = false /\
  Forall (fun a => exists d, Assignment_MarshalBinary a = Ok d) (oj_Assignments j) /\
  Forall (fun r => exists d, Result_MarshalBinary r = Ok d) (oj_Results j) /\
  exists jobBytes, Job_MarshalBinary (oj_Job j) = Ok jobBytes /\
  d = oj_ID j ++ enc_bytes jobBytes ++ be 8 (oj_Escrow j) ++ [byte_of_Z (oj_Status j)]
      ++ be 4 (blen (oj_Assignments j))
      ++ concat (enc_item Assignment_MarshalBinary <$> sort_by (fun a => hex (as_Provider a)) (oj_Assignments j))
      ++ be 4 (blen (oj_Results j))
      ++ concat (enc_item Result_MarshalBinary <$> sort_by (fun r => hex (rt_Provider r)) (oj_Results j)).
Proof.
  unfold OnChainJob_MarshalBinary. intros E. apply bind_Ok in E as ([] & Hb%fail_if_Ok & E).
  apply bind_Ok in E as (jb & Hj & E). cbv zeta in E. apply bind_Ok in E as (w1 & [-> Ha]%write_items_Ok & E).
  apply bind_Ok in E as (w2 & [-> Hr]%write_items_Ok & E). apply Ok_inj in E as <-.
  rewrite (sort_by_perm (fun a => hex (as_Provider a))) in Ha. rewrite (sort_by_perm (fun r => hex (rt_Provider r))) in Hr.
  split_and!; [done|done|done|]. exists jb. split; [done|].
  unfold Writer.BytesCopy. rewrite writer_bytes.
  unfold Writer.U32, Writer.U8, Writer.U64, Writer.Fixed, Writer.new. rewrite !be4_mod. unfold blen.
  rewrite !length_sort_by. app_norm. done.
Qed.

Lemma OnChainJob_Marshal_succeeds j jb :
  (IsZero32 (oj_ID j) || (oj_Escrow j <? jb_MaxPrice (oj_Job j)) || (oj_Status j <? JobPending)
    || (JobExpired <? oj_Status j)) = false ->
  Job_MarshalBinary (oj_Job j) = Ok jb ->
  Forall (fun a => exists d, Assignment_MarshalBinary a = Ok d) (oj_Assignments j) ->
  Forall (fun r => exists d, Result_MarshalBinary r = Ok d) (oj_Results j) ->
  exists d, OnChainJob_MarshalBinary j = Ok d.
Proof.
  intros Hb Hj Ha Hr. unfold OnChainJob_MarshalBinary. rewrite Hb. cbn [fail_if mbind res_bind]. rewrite Hj.
  cbn [mbind res_bind]. cbv zeta.
  rewrite <-(sort_by_perm (fun a => hex (as_Provider a))) in Ha.
  rewrite <-(sort_by_perm (fun r => hex (rt_Provider r))) in Hr.
  match goal with |- exists d, (write_items _ ?l ?w ≫= _) = _ =>
    destruct (write_items_succeeds Assignment_MarshalBinary l w Ha) as [w1 ->] end. cbn [mbind res_bind].
  match goal with |- exists d, (write_items _ ?l ?w ≫= _) = _ =>
    destruct (write_items_succeeds Result_MarshalBinary l w Hr) as [w2 ->] end. cbn. eauto.
Qed.

Lemma ParseOnChainJob_Marshal j d :
  OnChainJob_typed j -> blen (oj_Assignments j) <= 1024 -> blen (oj_Results j) <= 1024 ->
  OnChainJob_MarshalBinary j = Ok d -> ParseOnChainJob d = Ok (sort_record j).
Proof.
  intros (Hid & Hj & He & Hs & Ha & Hr) Hna Hnr E.
  destruct (OnChainJob_Marshal_inv j d E) as (Hb & Ma & Mr & jb & Mj & ->).
  assert (0 <= blen (oj_Assignments j) /\ 0 <= blen (oj_Results j)) as [? ?] by (unfold blen; lia).
  unfold ParseOnChainJob. apply reads_parse. rewrite blen32 in Hid. pose proof (Job_Marshal_blen _ _ Hj Mj).
  set (sa := sort_by (fun a => hex (as_Provider a)) (oj_Assignments j)).
  set (sr := sort_by (fun r => hex (rt_Provider r)) (oj_Results j)).
  assert (blen (oj_Assignments j) = blen sa) as Ea by (unfold sa, blen; by rewrite length_sort_by).
  assert (blen (oj_Results j) = blen sr) as Er by (unfold sr, blen; by rewrite length_sort_by).
  assert (Forall Assignment_small sa) as Ha'.
  { unfold sa. rewrite (sort_by_perm (fun a => hex (as_Provider a))). apply Forall_forall. intros a Hin.
    rewrite Forall_forall in Ha, Ma. destruct (Ma a Hin) as [d Hd]. split; [by apply Ha|]. exists d. split; [done|].
    rewrite (length_Assignment_Marshal a d) by auto. lia. }
  assert (Forall Result_small sr) as Hr'.
  { unfold sr. rewrite (sort_by_perm (fun r => hex (rt_Provider r))). apply Forall_forall. intros r Hin.
    rewrite Forall_forall in Hr, Mr. destruct (Mr r Hin) as [d Hd]. split; [by apply Hr|]. exists d. split; [done|].
    rewrite (length_Result_Marshal r d) by auto. lia. }
  destruct (OnChainJob_Marshal_succeeds (sort_record j) jb) as [d' Hd'].
  { exact Hb. }
  { by apply Job_MarshalBinary_trim. }
  { cbn. eapply Forall_impl; [exact Ha'|]. cbn. intros a (_ & x & ? & _). eauto. }
  { cbn. eapply Forall_impl; [exact Hr'|]. cbn. intros a (_ & x & ? & _). eauto. }
  rewrite Ea, Er in *.
  solve_reads; try done; try (unfold u32; lia); try (apply Z.ltb_ge; lia).
  - by apply ParseJob_Marshal.
  - exact (reads_repeat_count _ _ _ sa _ reads_assignment Ha').
  - exact (reads_repeat_count _ _ _ sr _ reads_result Hr').
Qed.

Lemma read_item_Ok {A} `{Canonical A} r (x : A) r' :
  read_item wire_parse r = Ok (x, r') -> rest r = enc_item wire_marshal x ++ rest r' /\ wire_typed x.
Proof.
  unfold read_item. intros E. parse_inv.
  match goal with Hp : wire_parse _ = _ |- _ => pose proof (wire_parse_marshal _ _ Hp) as Hm; pose proof (wire_parse_typed _ _ Hp) end.
  unfold enc_item. rewrite Hm. done.
Qed.

Lemma read_assignment_Ok r a r' :
  read_item ParseAssignment r = Ok (a, r') -> rest r = enc_item Assignment_MarshalBinary a ++ rest r' /\ Assignment_typed a.
Proof. exact (read_item_Ok r a r'). Qed.
Lemma read_result_Ok r x r' :
  read_item ParseResult r = Ok (x, r') -> rest r = enc_item Result_MarshalBinary x ++ rest r' /\ ComputeResult_typed x.
Proof. exact (read_item_Ok r x r'). Qed.

Lemma ParseOnChainJob_Ok d j :
  ParseOnChainJob d = Ok j ->
  OnChainJob_typed j /\ Job_Validate (oj_Job j) = Ok tt /\ blen (oj_Assignments j) <= 1024 /\ blen (oj_Results j) <= 1024 /\
  exists d', OnChainJob_MarshalBinary j = Ok d'.
Proof.
  unfold ParseOnChainJob. intros E. parse_inv.
  match goal with H : ParseJob _ = _ |- _ => apply ParseJob_Ok in H as [Hj Hv] end.
  match goal with H : prepeat _ (read_item ParseAssignment) _ = _ |- _ =>
    apply (prepeat_Ok _ (enc_item Assignment_MarshalBinary) Assignment_typed) in H as (La & _ & Ha);
      [|exact read_assignment_Ok] end.
  match goal with H : prepeat _ (read_item ParseResult) _ = _ |- _ =>
    apply (prepeat_Ok _ (enc_item Result_MarshalBinary) ComputeResult_typed) in H as (Lr & _ & Hr);
      [|exact read_result_Ok] end.
  split; [unfold OnChainJob_typed; cbn; by rewrite blen32|]. cbn.
  split_and!; [done|unfold blen, u32 in *; lia|unfold blen, u32 in *; lia|eauto].
Qed.

(** ** Messages *)

Definition AssignmentMessage_typed (m : AssignmentMessage) : Prop :=
  arr32 (am_JobID m) /\ arr32 (am_JobOwner m) /\ u32 (am_JobShard m) /\ arr32 (am_OfferID m) /\
  Offer_typed (am_Offer m) /\ Job_typed (am_Job m).

Lemma ParseAssignmentMessage_Ok d m :
  ParseAssignmentMessage d = Ok m -> AssignmentMessage_typed m /\ AssignmentMessage_Validate m = Ok tt.
Proof.
  unfold ParseAssignmentMessage, readAccount, compute_readHash. intros E. parse_inv.
  match goal with H : ParseJob _ = _ |- _ => apply ParseJob_Ok in H as [Hj _] end.
  match goal with H : ParseOffer _ = _ |- _ => apply ParseOffer_Ok in H as [Ho _] end.
  split; [|done]. unfold AssignmentMessage_typed. cbn. by rewrite !blen32.
Qed.

Lemma offerMatchesJob_trim o j : offerMatchesJob o j = true -> offerMatchesJob (trim_offer o) (trim_job j) = true.
Proof.
  unfold offerMatchesJob. cbn [trim_offer trim_job of_Resources jb_Resources trim_resources CPUCores MemoryMiB GPUCount
    GPUMemoryMiB StorageMiB BandwidthMbps of_Collateral jb_CollateralRequired of_Verification jb_Verification Capabilities].
  destruct (_ || _); [done|]. rewrite !forallb_forall. intros Hs c Hc.
  apply list_elem_of_In, list_elem_of_fmap in Hc as (c' & -> & Hc').
  specialize (Hs c' ltac:(by apply list_elem_of_In)). apply bool_decide_eq_true, elem_of_list_to_set in Hs.
  apply bool_decide_eq_true, elem_of_list_to_set. by apply list_elem_of_fmap_2.
Qed.

Definition trim_message (m : AssignmentMessage) : AssignmentMessage :=
  mkAssignmentMessage (am_JobID m) (am_JobOwner m) (am_JobShard m) (am_OfferID m) (trim_offer (am_Offer m)) (trim_job (am_Job m)).

Lemma AssignmentMessage_Validate_inv m :
  AssignmentMessage_Validate m = Ok tt ->
  Offer_Validate (am_Offer m) = Ok tt /\ Job_Validate (am_Job m) = Ok tt.
Proof.
  unfold AssignmentMessage_Validate. intros E. apply bind_Ok in E as (? & _ & E).
  apply bind_Ok in E as (? & Ho%fail_if_Ok & E). apply fail_if_Ok in E.
  apply orb_false_iff in E as [[E _]%orb_false_iff _].
  apply negb_false_iff, is_ok_true in Ho as [[] ?]. apply negb_false_iff, is_ok_true in E as [[] ?]. done.
Qed.

Lemma AssignmentMessage_Validate_trim m :
  AssignmentMessage_Validate m = Ok tt -> AssignmentMessage_Validate (trim_message m) = Ok tt.
Proof.
  intros Hv. destruct (AssignmentMessage_Validate_inv m Hv) as [Ho Hj]. unfold AssignmentMessage_Validate in *.
  apply bind_Ok in Hv as (? & E1 & E). apply bind_Ok in E as (? & _ & E). apply fail_if_Ok in E.
  apply orb_false_iff in E as [[_ Em]%orb_false_iff Ec]. apply negb_false_iff in Em.
  cbn [trim_message am_JobID am_JobOwner am_OfferID am_Job am_Offer]. cbn [trim_job jb_Owner]. rewrite E1.
  cbn [mbind res_bind]. fold (trim_job (am_Job m)).
  rewrite (Offer_Validate_trim _ Ho), (Job_Validate_trim _ Hj), (offerMatchesJob_trim _ _ Em).
  cbn. cbn in Ec. by rewrite Ec.
Qed.

Lemma ParseAssignmentMessage_Marshal m d :
  AssignmentMessage_typed m -> AssignmentMessage_MarshalBinary m = Ok d -> ParseAssignmentMessage d = Ok (trim_message m).
Proof.
  intros (Hi & Ho & Hs & Hf & Hot & Hjt) E. unfold AssignmentMessage_MarshalBinary in E.
  apply bind_Ok in E as ([] & Hv & E). apply Ok_inj in E as <-.
  destruct (AssignmentMessage_Validate_inv m Hv) as [Hov Hjv].
  assert (exists o, Offer_MarshalBinary (am_Offer m) = Ok o) as [o Eo]
    by (unfold Offer_MarshalBinary; rewrite Hov; cbn; eauto).
  assert (exists j, Job_MarshalBinary (am_Job m) = Ok j) as [j Ej]
    by (unfold Job_MarshalBinary; rewrite Hjv; cbn; eauto).
  rewrite Eo, Ej. cbn [ok_or]. pose proof (Offer_Marshal_blen _ _ Hot Eo). pose proof (Job_Marshal_blen _ _ Hjt Ej).
  unfold ParseAssignmentMessage, readAccount, compute_readHash. apply reads_parse. writer_norm. rewrite blen32 in *.
  solve_reads; try done.
  - by apply ParseOffer_Marshal.
  - by apply ParseJob_Marshal.
  - by apply AssignmentMessage_Validate_trim.
Qed.
