(* ===== verification/ComputeMarket.v ===== *)
(** * ComputeMarket

    Package [internal/v2/compute], behaviour: the on-chain job record and its
    transitions ([onchain.go]) and the in-memory [Market] of [market.go].  Go
    maps are [gmap]s; an iteration over one takes its order from [MapOrder].
    The market's mutex makes each method one atomic step, so a method is a
    function from the market to its result and the new market. *)

From S2P Require Import Prelude GoLib Codec Crypto Types Object ComputeModel.

Open Scope Z_scope.

Record VerificationEvidence := mkEvidence {
  DeterministicReplay : bool;
  ProofVerified : bool;
  AttestationVerified : bool;
  ChallengePassed : bool;
  ClientApproved : bool;
}.

Definition no_evidence : VerificationEvidence := mkEvidence false false false false false.

Record Settlement := mkSettlement {
  st_JobID : bytes;
  st_ResultRoot : bytes;
  st_Payments : gmap bytes Z;
  st_Refund : Z;
}.

Record OnChainSettlement := mkOnChainSettlement {
  os_Settlement : Settlement;
  CollateralReturns : gmap bytes Z;
  SlashedCollateral : gmap bytes Z;
  SlashReward : Z;
}.

Record OfferRecord := mkOfferRecord { or_ID : bytes; or_Offer : Offer }.

Record JobRecord := mkJobRecord {
  jr_ID : bytes;
  jr_Job : Job;
  jr_Escrow : Z;
  jr_Status : Z;
  jr_Assignments : list Assignment;
  jr_Results : gmap bytes ComputeResult;
}.

Record Market := mkMarket {
  offers : gmap bytes OfferRecord;
  jobs : gmap bytes JobRecord;
}.

Definition NewMarket : Market := mkMarket ∅ ∅.

Section market.
Context `{MapOrder}.

(** ** Verification *)

Definition bool_score (b : bool) : Z := if b then 1 else 0.

Definition verificationSatisfied (mode : Z) (replicatedMatch : bool) (results : gmap bytes ComputeResult)
    (evidence : VerificationEvidence) : bool :=
  let hasProof := forallb (fun '(_, r) => negb (IsZero32 (rt_ProofHash r))) (range_map results) in
  let hasAttestation := forallb (fun '(_, r) => negb (IsZero32 (rt_AttestationHash r))) (range_map results) in
  if mode =? VerificationDeterministic then DeterministicReplay evidence
  else if mode =? VerificationReplicated then replicatedMatch
  else if mode =? VerificationChallenge then ChallengePassed evidence
  else if mode =? VerificationZeroKnowledge then hasProof && ProofVerified evidence
  else if mode =? VerificationTEE then hasAttestation && AttestationVerified evidence
  else if mode =? VerificationClientApproved then ClientApproved evidence
  else if mode =? VerificationHybrid then
    2 <=? bool_score (DeterministicReplay evidence)
          + bool_score (replicatedMatch && (1 <? Z.of_nat (size results)))
          + bool_score (hasProof && ProofVerified evidence)
          + bool_score (hasAttestation && AttestationVerified evidence)
          + bool_score (ChallengePassed evidence) + bool_score (ClientApproved evidence)
  else false.

Definition commonResultRootRecord (results : list ComputeResult) : bytes * bool :=
  match sort_by (fun r => hex (rt_Provider r)) results with
  | [] => (zero32, false)
  | first :: rest =>
      (rt_ResultRoot first, forallb (fun r => bool_decide (rt_ResultRoot r = rt_ResultRoot first)) rest)
  end.

(** ** On-chain transitions (onchain.go) *)

Definition set_assignments (record : OnChainJob) (l : list Assignment) (status : Z) : OnChainJob :=
  mkOnChainJob (oj_ID record) (oj_Job record) (oj_Escrow record) status l (oj_Results record).
Definition set_results (record : OnChainJob) (l : list ComputeResult) (status : Z) : OnChainJob :=
  mkOnChainJob (oj_ID record) (oj_Job record) (oj_Escrow record) status (oj_Assignments record) l.
Definition set_status (record : OnChainJob) (status : Z) : OnChainJob :=
  mkOnChainJob (oj_ID record) (oj_Job record) (oj_Escrow record) status (oj_Assignments record) (oj_Results record).

(** The prices already promised, with the overflow guard of the loop. *)
Definition committed_price (l : list Assignment) : res Z :=
  rfold (fun committed a => fail_if (overflows committed (as_Price a)) ErrMarketEscrow;;
                            Ok (add64 committed (as_Price a))) 0 l.

Definition AssignOnChain (record : OnChainJob) (offerID : bytes) (offer : Offer) (height : Z)
    : res (OnChainJob * Assignment * Z) :=
  let job := oj_Job record in
  fail_if ((oj_Status record =? JobSettled) || (oj_Status record =? JobExpired) || (height =? 0)
    || (jb_DeadlineHeight job <? height) || (of_ValidUntilHeight offer <? height)) ErrMarketState;;
  fail_if (negb (offerMatchesJob offer job) || (of_Collateral offer <? jb_CollateralRequired job)) ErrMarketMatch;;
  fail_if (existsb (fun a => bool_decide (as_Provider a = of_Provider offer)) (oj_Assignments record)) ErrMarketDuplicate;;
  let target := requiredAssignments job in
  fail_if (target <=? blen (oj_Assignments record)) ErrMarketState;;
  committed ← committed_price (oj_Assignments record);
  fail_if ((jb_MaxPrice job <? of_PricePerUnit offer) || overflows committed (of_PricePerUnit offer)
    || (jb_MaxPrice job <? add64 committed (of_PricePerUnit offer))
    || (oj_Escrow record <? add64 committed (of_PricePerUnit offer))) ErrMarketEscrow;;
  let assignment := mkAssignment offerID (of_Provider offer) (of_PricePerUnit offer) in
  let assignments := oj_Assignments record ++ [assignment] in
  let status := if blen assignments =? target then JobAssigned else oj_Status record in
  Ok (set_assignments record assignments status, assignment,
      sub64 (of_Collateral offer) (jb_CollateralRequired job)).

Definition SubmitOnChainResult (record : OnChainJob) (result : ComputeResult) : res OnChainJob :=
  fail_if (negb (is_ok (Result_Validate result)) || negb (bool_decide (rt_JobID result = oj_ID record)))
    Compute_ErrInvalidResult;;
  fail_if (negb (oj_Status record =? JobAssigned) && negb (oj_Status record =? JobAwaitingVerification)) ErrMarketState;;
  fail_if (jb_DeadlineHeight (oj_Job record) <? rt_CompletedHeight result) ErrMarketState;;
  fail_if (negb (existsb (fun a => bool_decide (as_Provider a = rt_Provider result)) (oj_Assignments record)))
    ErrMarketMatch;;
  fail_if (existsb (fun r => bool_decide (rt_Provider r = rt_Provider result)) (oj_Results record)) ErrMarketDuplicate;;
  let results := oj_Results record ++ [result] in
  let status := if blen results =? requiredAssignments (oj_Job record) then JobAwaitingVerification
                else oj_Status record in
  Ok (set_results record results status).

Definition results_map (l : list ComputeResult) : gmap bytes ComputeResult :=
  foldl (fun m r => <[rt_Provider r := r]> m) ∅ l.

(** One payment of the settlement loop. *)
Definition pay (collateral : Z) (st : Z * gmap bytes Z * gmap bytes Z) (a : Assignment)
    : res (Z * gmap bytes Z * gmap bytes Z) :=
  let '(paid, payments, returns) := st in
  fail_if (overflows paid (as_Price a)) ErrMarketEscrow;;
  Ok (add64 paid (as_Price a), madd64 payments (as_Provider a) (as_Price a), madd64 returns (as_Provider a) collateral).

Definition FinalizeOnChain (record : OnChainJob) (evidence : VerificationEvidence)
    : res (OnChainJob * OnChainSettlement) :=
  fail_if (negb (oj_Status record =? JobAwaitingVerification)
    || negb (blen (oj_Results record) =? requiredAssignments (oj_Job record))) ErrMarketState;;
  let results := results_map (oj_Results record) in
  let '(root, replicatedMatch) := commonResultRootRecord (oj_Results record) in
  fail_if (IsZero32 root
    || negb (verificationSatisfied (jb_Verification (oj_Job record)) replicatedMatch results evidence))
    ErrMarketVerification;;
  st ← rfold (pay (jb_CollateralRequired (oj_Job record))) (0, ∅, ∅) (oj_Assignments record);
  let '(paid, payments, collateral) := st in
  fail_if (oj_Escrow record <? paid) ErrMarketEscrow;;
  Ok (set_status record JobSettled,
      mkOnChainSettlement (mkSettlement (oj_ID record) root payments (sub64 (oj_Escrow record) paid))
        collateral ∅ 0).

(** [counts[result.ResultRoot]++] and the scan for the most frequent root. *)
Definition count_roots (l : list ComputeResult) : gmap bytes Z :=
  foldl (fun m r => <[rt_ResultRoot r := mget m (rt_ResultRoot r) + 1]> m) ∅ l.
Definition frequent_step (st : bytes * Z) (entry : bytes * Z) : bytes * Z :=
  let '(majority, majorityCount) := st in
  let '(root, count) := entry in
  if majorityCount <? count then (root, count) else (majority, majorityCount).
Definition most_frequent (entries : list (bytes * Z)) : bytes * Z := foldl frequent_step (zero32, 0) entries.

Definition resolve_step (record : OnChainJob) (resultByProvider : gmap bytes bytes) (majority : bytes)
    (st : Z * Z * gmap bytes Z * gmap bytes Z * gmap bytes Z) (a : Assignment)
    : res (Z * Z * gmap bytes Z * gmap bytes Z * gmap bytes Z) :=
  let collateral := jb_CollateralRequired (oj_Job record) in
  let '(paid, slashReward, payments, returns, slashed) := st in
  if bool_decide (default zero32 (resultByProvider !! as_Provider a) = majority) then
    fail_if (overflows paid (as_Price a)) ErrMarketEscrow;;
    Ok (add64 paid (as_Price a), slashReward, madd64 payments (as_Provider a) (as_Price a),
        madd64 returns (as_Provider a) collateral, slashed)
  else
    let slashed := madd64 slashed (as_Provider a) collateral in
    fail_if (overflows slashReward collateral) ErrMarketEscrow;;
    Ok (paid, add64 slashReward collateral, payments, returns, slashed).

Definition ResolveReplicatedMajority (record : OnChainJob) : res (OnChainJob * OnChainSettlement) :=
  fail_if (negb (jb_Verification (oj_Job record) =? VerificationReplicated) || (blen (oj_Results record) <? 3)
    || negb (blen (oj_Results record) =? blen (oj_Assignments record))) ErrMarketVerification;;
  let '(majority, majorityCount) := most_frequent (range_map (count_roots (oj_Results record))) in
  fail_if (majorityCount * 2 <=? blen (oj_Results record)) ErrMarketVerification;;
  let resultByProvider := foldl (fun m r => <[rt_Provider r := rt_ResultRoot r]> m) ∅ (oj_Results record) in
  st ← rfold (resolve_step record resultByProvider majority) (0, 0, ∅, ∅, ∅) (oj_Assignments record);
  let '(paid, slashReward, payments, collateralReturns, slashed) := st in
  fail_if (oj_Escrow record <? paid) ErrMarketEscrow;;
  Ok (set_status record JobSettled,
      mkOnChainSettlement (mkSettlement (oj_ID record) majority payments (sub64 (oj_Escrow record) paid))
        collateralReturns slashed slashReward).

Definition ExpireOnChain (record : OnChainJob) (height : Z) : res (OnChainJob * Z * gmap bytes Z) :=
  fail_if ((oj_Status record =? JobSettled) || (oj_Status record =? JobExpired)
    || (height <=? jb_DeadlineHeight (oj_Job record))) ErrMarketState;;
  let collateral := foldl (fun m a => madd64 m (as_Provider a) (jb_CollateralRequired (oj_Job record))) ∅
                      (oj_Assignments record) in
  Ok (set_status record JobExpired, oj_Escrow record, collateral).
End market.

(** ** The in-memory market (market.go) *)

Section memory.
Context `{Crypto} `{MapOrder}.

Definition OfferID (offer : Offer) : res bytes :=
  raw ← Offer_MarshalBinary offer;
  Ok (DomainHash (str "zephyr/compute-offer/v2") raw).

Definition ComputeJobID (job : Job) : res bytes :=
  raw ← Job_MarshalBinary job;
  Ok (DomainHash (str "zephyr/compute-job/v2") raw).

Definition set_offer (m : Market) (id : bytes) (o : OfferRecord) : Market := mkMarket (<[id := o]> (offers m)) (jobs m).
Definition set_job (m : Market) (id : bytes) (j : JobRecord) : Market := mkMarket (offers m) (<[id := j]> (jobs m)).

Definition PublishOffer (m : Market) (offer : Offer) (height : Z) : res (bytes * Market) :=
  fail_if (negb (is_ok (Offer_Validate offer)) || (height =? 0) || (of_ValidUntilHeight offer <? height)) ErrInvalidOffer;;
  let id := ok_or zero32 (OfferID offer) in
  fail_if (bool_decide (is_Some (offers m !! id))) ErrMarketDuplicate;;
  Ok (id, set_offer m id (mkOfferRecord id offer)).

Definition PostJob (m : Market) (job : Job) (escrow height : Z) : res (bytes * Market) :=
  fail_if (negb (is_ok (Job_Validate job)) || (height =? 0) || (jb_DeadlineHeight job <? height)) ErrInvalidJob;;
  fail_if (escrow <? jb_MaxPrice job) ErrMarketEscrow;;
  let id := ok_or zero32 (ComputeJobID job) in
  fail_if (bool_decide (is_Some (jobs m !! id))) ErrMarketDuplicate;;
  Ok (id, set_job m id (mkJobRecord id job escrow JobPending [] ∅)).

Definition Assign (m : Market) (jobID offerID : bytes) (height : Z) : res (Assignment * Market) :=
  job ← some_or (jobs m !! jobID) ErrMarketNotFound;
  offerRecord ← some_or (offers m !! offerID) ErrMarketNotFound;
  let offer := or_Offer offerRecord in
  fail_if ((jr_Status job =? JobSettled) || (jr_Status job =? JobExpired) || (height =? 0)
    || (jb_DeadlineHeight (jr_Job job) <? height) || (of_ValidUntilHeight offer <? height)) ErrMarketState;;
  fail_if (negb (offerMatchesJob offer (jr_Job job))) ErrMarketMatch;;
  fail_if (existsb (fun a => bool_decide (as_Provider a = of_Provider offer)) (jr_Assignments job)) ErrMarketDuplicate;;
  let target := requiredAssignments (jr_Job job) in
  fail_if (target <=? blen (jr_Assignments job)) ErrMarketState;;
  committed ← committed_price (jr_Assignments job);
  let price := of_PricePerUnit offer in
  fail_if ((jb_MaxPrice (jr_Job job) <? price) || overflows committed price
    || (jb_MaxPrice (jr_Job job) <? add64 committed price) || (jr_Escrow job <? add64 committed price)) ErrMarketEscrow;;
  let assignment := mkAssignment offerID (of_Provider offer) price in
  let assignments := jr_Assignments job ++ [assignment] in
  let status := if blen assignments =? target then JobAssigned else jr_Status job in
  Ok (assignment, set_job m jobID (mkJobRecord (jr_ID job) (jr_Job job) (jr_Escrow job) status assignments (jr_Results job))).

Definition SubmitResult (m : Market) (result : ComputeResult) : res Market :=
  Result_Validate result;;
  job ← some_or (jobs m !! rt_JobID result) ErrMarketNotFound;
  fail_if (negb (jr_Status job =? JobAssigned) && negb (jr_Status job =? JobAwaitingVerification)) ErrMarketState;;
  fail_if (jb_DeadlineHeight (jr_Job job) <? rt_CompletedHeight result) ErrMarketState;;
  fail_if (negb (existsb (fun a => bool_decide (as_Provider a = rt_Provider result)) (jr_Assignments job))) ErrMarketMatch;;
  fail_if (bool_decide (is_Some (jr_Results job !! rt_Provider result))) ErrMarketDuplicate;;
  let results := <[rt_Provider result := result]> (jr_Results job) in
  let status := if Z.of_nat (size results) =? requiredAssignments (jr_Job job) then JobAwaitingVerification
                else jr_Status job in
  Ok (set_job m (rt_JobID result)
        (mkJobRecord (jr_ID job) (jr_Job job) (jr_Escrow job) status (jr_Assignments job) results)).

(** [commonResultRoot] keeps the root of the first entry visited. *)
Definition commonResultRoot (results : gmap bytes ComputeResult) : bytes * bool :=
  match range_map results with
  | [] => (zero32, false)
  | (_, first) :: rest =>
      (rt_ResultRoot first, forallb (fun '(_, r) => bool_decide (rt_ResultRoot r = rt_ResultRoot first)) rest)
  end.

Definition pay_memory (st : Z * gmap bytes Z) (a : Assignment) : res (Z * gmap bytes Z) :=
  let '(paid, payments) := st in
  fail_if (overflows paid (as_Price a)) ErrMarketEscrow;;
  Ok (add64 paid (as_Price a), madd64 payments (as_Provider a) (as_Price a)).

Definition Finalize (m : Market) (jobID : bytes) (evidence : VerificationEvidence) : res (Settlement * Market) :=
  job ← some_or (jobs m !! jobID) ErrMarketNotFound;
  fail_if (negb (jr_Status job =? JobAwaitingVerification)
    || negb (Z.of_nat (size (jr_Results job)) =? requiredAssignments (jr_Job job))) ErrMarketState;;
  let '(root, replicatedMatch) := commonResultRoot (jr_Results job) in
  fail_if (IsZero32 root
    || negb (verificationSatisfied (jb_Verification (jr_Job job)) replicatedMatch (jr_Results job) evidence))
    ErrMarketVerification;;
  st ← rfold pay_memory (0, ∅) (jr_Assignments job);
  let '(paid, payments) := st in
  fail_if (jr_Escrow job <? paid) ErrMarketEscrow;;
  Ok (mkSettlement jobID root payments (sub64 (jr_Escrow job) paid),
      set_job m jobID (mkJobRecord (jr_ID job) (jr_Job job) (jr_Escrow job) JobSettled (jr_Assignments job) (jr_Results job))).

Definition expires (height : Z) (job : JobRecord) : bool :=
  negb (jr_Status job =? JobSettled) && negb (jr_Status job =? JobExpired) && (jb_DeadlineHeight (jr_Job job) <? height).

Definition Expire (m : Market) (height : Z) : list bytes * Market :=
  let expired := filter (fun '(_, job) => expires height job = true) (range_map (jobs m)) in
  (sort_by hex expired.*1,
   mkMarket (offers m)
     ((fun job => if expires height job
                  then mkJobRecord (jr_ID job) (jr_Job job) (jr_Escrow job) JobExpired (jr_Assignments job) (jr_Results job)
                  else job) <$> jobs m)).
End memory.
