(* ===== verification/ComputeProofs.v ===== *)
(** * ComputeProofs

    The on-chain job as a state machine: the invariant of its reachable
    records, conservation of escrow and collateral by the two settlement
    rules and by expiry, and the majority rule. *)

From S2P Require Import Prelude GoLib Codec Crypto Types Object ComputeModel ComputeMarket.

Open Scope Z_scope.

Definition prices (l : list Assignment) : Z := zsum (as_Price <$> l).

Lemma prices_app l k : prices (l ++ k) = prices l + prices k.
Proof. unfold prices. by rewrite fmap_app, zsum_app. Qed.
Lemma prices_cons a l : prices (a :: l) = as_Price a + prices l.
Proof. done. Qed.
Lemma prices_nonneg l : Forall (fun a => u64 (as_Price a)) l -> 0 <= prices l.
Proof. intros Hl. apply zsum_nonneg, Forall_fmap. eapply Forall_impl; [exact Hl|]. unfold u64. cbn. lia. Qed.

(** The summing loop either gives the exact sum or reports the overflow. *)
Lemma committed_price_from l p p' :
  u64 p -> Forall (fun a => u64 (as_Price a)) l ->
  rfold (fun committed a => fail_if (overflows committed (as_Price a)) ErrMarketEscrow;;
                            Ok (add64 committed (as_Price a))) p l = Ok p' ->
  p' = p + prices l /\ u64 p'.
Proof.
  revert p. induction l as [|a l IH]; intros p Hp Hl E; cbn in E.
  { injection E as <-. unfold prices. cbn. split; [lia|done]. }
  apply Forall_cons_1 in Hl as [Ha Hl]. destruct (overflows p (as_Price a)) eqn:Eo; [done|]. cbn in E.
  destruct (add64_small p (as_Price a) Hp (proj1 Ha) Eo) as [Es Hu]. rewrite Es in E.
  destruct (IH _ Hu Hl E) as [-> ?]. rewrite prices_cons. split; [lia|done].
Qed.

Lemma committed_price_Ok l p :
  Forall (fun a => u64 (as_Price a)) l -> committed_price l = Ok p -> p = prices l /\ u64 p.
Proof. intros Hl E. apply committed_price_from in E as [-> ?]; [done|unfold u64; lia|done]. Qed.

(** ** The invariant of a job record *)

Record job_inv (r : OnChainJob) : Prop := {
  inv_escrow : u64 (oj_Escrow r);
  inv_max : jb_MaxPrice (oj_Job r) <= oj_Escrow r;
  inv_collateral : u64 (jb_CollateralRequired (oj_Job r));
  inv_required : 1 <= requiredAssignments (oj_Job r);
  inv_providers : NoDup (as_Provider <$> oj_Assignments r);
  inv_prices : Forall (fun a => u64 (as_Price a) /\ as_Price a <> 0) (oj_Assignments r);
  inv_committed : prices (oj_Assignments r) <= jb_MaxPrice (oj_Job r);
  inv_assigned : blen (oj_Assignments r) <= requiredAssignments (oj_Job r);
  inv_reporters : NoDup (rt_Provider <$> oj_Results r);
  inv_results : (rt_Provider <$> oj_Results r) ⊆ (as_Provider <$> oj_Assignments r);
  inv_roots : Forall (fun x => rt_JobID x = oj_ID r /\ Result_Validate x = Ok tt
                               /\ rt_CompletedHeight x <= jb_DeadlineHeight (oj_Job r)) (oj_Results r);
  inv_status :
    (oj_Status r = JobPending /\ oj_Results r = [] /\ blen (oj_Assignments r) < requiredAssignments (oj_Job r)) \/
    (oj_Status r = JobAssigned /\ blen (oj_Assignments r) = requiredAssignments (oj_Job r)
       /\ blen (oj_Results r) < requiredAssignments (oj_Job r)) \/
    (oj_Status r = JobAwaitingVerification /\ blen (oj_Assignments r) = requiredAssignments (oj_Job r)
       /\ blen (oj_Results r) = requiredAssignments (oj_Job r)) \/
    oj_Status r = JobSettled \/ oj_Status r = JobExpired;
}.

(** The transitions of a record, as the execution engine calls them: an offer
    has been parsed, so it is valid and its fields are in range. *)
Inductive job_step `{MapOrder} : OnChainJob -> OnChainJob -> Prop :=
  | step_assign r offerID offer height r' a change :
      u64 (of_PricePerUnit offer) -> Offer_Validate offer = Ok tt ->
      AssignOnChain r offerID offer height = Ok (r', a, change) -> job_step r r'
  | step_result r result r' : SubmitOnChainResult r result = Ok r' -> job_step r r'
  | step_finalize r evidence r' s : FinalizeOnChain r evidence = Ok (r', s) -> job_step r r'
  | step_majority r r' s : ResolveReplicatedMajority r = Ok (r', s) -> job_step r r'
  | step_expire r height r' refund collateral : ExpireOnChain r height = Ok (r', refund, collateral) -> job_step r r'.

Inductive job_reachable `{MapOrder} : OnChainJob -> Prop :=
  | job_new id job escrow :
      Job_Validate job = Ok tt -> u64 escrow -> jb_MaxPrice job <= escrow -> 0 <= jb_MaxPrice job ->
      u64 (jb_CollateralRequired job) ->
      job_reachable (mkOnChainJob id job escrow JobPending [] [])
  | job_next r r' : job_reachable r -> job_step r r' -> job_reachable r'.

Lemma existsb_provider_false {A} (f : A -> bytes) l p :
  existsb (fun a => bool_decide (f a = p)) l = false -> p ∉ f <$> l.
Proof.
  intros E (a & -> & Ha)%list_elem_of_fmap.
  assert (existsb (fun b => bool_decide (f b = f a)) l = true) as E'; [|congruence].
  apply existsb_exists. exists a. split; [by apply list_elem_of_In|by apply bool_decide_eq_true].
Qed.
Lemma existsb_provider_true {A} (f : A -> bytes) l p :
  existsb (fun a => bool_decide (f a = p)) l = true -> p ∈ f <$> l.
Proof.
  intros (a & Ha & E%bool_decide_eq_true)%existsb_exists. subst p.
  apply list_elem_of_fmap_2. by apply list_elem_of_In.
Qed.

Lemma blen_app {A} (l k : list A) : blen (l ++ k) = blen l + blen k.
Proof. unfold blen. rewrite length_app. lia. Qed.
Lemma blen_fmap {A B} (f : A -> B) (l : list A) : blen (f <$> l) = blen l.
Proof. unfold blen. by rewrite length_fmap. Qed.

Lemma results_le_assignments r : job_inv r -> blen (oj_Results r) <= blen (oj_Assignments r).
Proof.
  intros Hi. rewrite <-(blen_fmap rt_Provider), <-(blen_fmap as_Provider). unfold blen. apply inj_le.
  apply submseteq_length, NoDup_submseteq; [apply Hi|]. intros x. apply Hi.
Qed.

Lemma assign_inv r offerID offer height r' a change :
  job_inv r -> u64 (of_PricePerUnit offer) -> Offer_Validate offer = Ok tt ->
  AssignOnChain r offerID offer height = Ok (r', a, change) -> job_inv r'.
Proof.
  intros Hi Hp Hv E. unfold AssignOnChain in E. res_inv.
  match goal with H : committed_price _ = _ |- _ => apply committed_price_Ok in H as [-> Hc] end;
    [|eapply Forall_impl; [apply Hi|]; by intros ? [? _]].
  match goal with H : existsb _ _ = false |- _ => apply existsb_provider_false in H as Hfresh end.
  repeat match goal with H : _ || _ = false |- _ => apply orb_false_iff in H as [? ?] end.
  match goal with H : overflows _ _ = false |- _ => destruct (add64_small _ _ Hc (proj1 Hp) H) as [Es Hu] end.
  rewrite Es in *.
  assert (of_PricePerUnit offer <> 0) as Hp0.
  { unfold Offer_Validate in Hv. res_inv.
    repeat match goal with H : _ || _ = false |- _ => apply orb_false_iff in H as [? ?] end. lia. }
  unfold set_assignments. constructor; cbn -[requiredAssignments prices blen]; try apply Hi.
  - rewrite fmap_app. cbn. apply NoDup_app. split_and!; [apply Hi| |apply NoDup_singleton].
    intros x Hx ->%list_elem_of_singleton. done.
  - apply Forall_app. split; [apply Hi|]. by apply Forall_singleton.
  - rewrite prices_app. unfold prices at 2. cbn. lia.
  - rewrite blen_app. unfold blen at 2. cbn. lia.
  - rewrite fmap_app. intros x Hx. apply elem_of_app. left. by apply Hi.
  - rewrite blen_app. change (blen [_]) with 1.
    pose proof (results_le_assignments r Hi) as Hle.
    destruct (Z.eqb_spec (blen (oj_Assignments r) + 1) (requiredAssignments (oj_Job r))) as [Ht|Ht].
    + right. left. lia.
    + destruct (inv_status r Hi) as [(? & ? & ?)|[(? & ? & ?)|[(? & ? & ?)|?]]]; [left; split_and!; [done|done|lia]|lia..|by auto].
Qed.

Lemma result_inv r result r' : job_inv r -> SubmitOnChainResult r result = Ok r' -> job_inv r'.
Proof.
  intros Hi E. unfold SubmitOnChainResult in E. res_inv.
  repeat match goal with H : _ || _ = false |- _ => apply orb_false_iff in H as [? ?] end.
  repeat match goal with H : negb _ = false |- _ => apply negb_false_iff in H end.
  match goal with H : is_ok _ = true |- _ => apply is_ok_true in H as [[] Hv] end.
  match goal with H : existsb _ (oj_Assignments _) = true |- _ => apply existsb_provider_true in H as Hin end.
  match goal with H : existsb _ (oj_Results _) = false |- _ => apply existsb_provider_false in H as Hfresh end.
  match goal with H : bool_decide _ = true |- _ => apply bool_decide_eq_true in H as Hid end.
  assert (NoDup (rt_Provider <$> oj_Results r ++ [result])) as Hnd.
  { rewrite fmap_app. cbn. apply NoDup_app. split_and!; [apply Hi| |apply NoDup_singleton].
    intros x Hx ->%list_elem_of_singleton. done. }
  assert ((rt_Provider <$> oj_Results r ++ [result]) ⊆ (as_Provider <$> oj_Assignments r)) as Hsub.
  { rewrite fmap_app. intros x [Hx|Hx%list_elem_of_singleton]%elem_of_app; [by apply Hi|by rewrite Hx]. }
  assert (blen (oj_Results r) + 1 <= blen (oj_Assignments r)) as Hle.
  { apply NoDup_submseteq in Hsub; [|done]. apply submseteq_length in Hsub.
    rewrite !length_fmap, length_app in Hsub. cbn in Hsub. unfold blen. lia. }
  unfold set_results. constructor; cbn -[requiredAssignments prices blen]; try apply Hi; [done|done| |].
  - apply Forall_app. split; [apply Hi|]. apply Forall_singleton. split_and!; [done|done|lia].
  - rewrite blen_app. change (blen [result]) with 1.
    match goal with H : negb _ && negb _ = false |- _ => rename H into Hst end.
    destruct (inv_status r Hi) as [(Hs & ? & ?)|[(Hs & ? & ?)|[(Hs & ? & ?)|[Hs|Hs]]]];
      rewrite Hs in Hst |- *; try (cbn in Hst; done).
    + destruct (Z.eqb_spec (blen (oj_Results r) + 1) (requiredAssignments (oj_Job r))); [right; right; left|right; left];
        split_and!; try done; lia.
    + lia.
Qed.

Lemma set_status_inv r s : job_inv r -> s = JobSettled \/ s = JobExpired -> job_inv (set_status r s).
Proof. intros Hi Hs. constructor; cbn -[requiredAssignments prices blen]; try apply Hi. by right; right; right. Qed.

Section settlement.
Context `{MapOrder}.

Lemma finalize_status r e r' s : FinalizeOnChain r e = Ok (r', s) -> r' = set_status r JobSettled.
Proof.
  unfold FinalizeOnChain. intros E. res_inv. destruct (commonResultRootRecord _) as [root m]. res_inv.
  destruct a0 as [[paid payments] returns]. by res_inv.
Qed.
Lemma majority_status r r' s : ResolveReplicatedMajority r = Ok (r', s) -> r' = set_status r JobSettled.
Proof.
  unfold ResolveReplicatedMajority. intros E. res_inv. destruct (most_frequent _) as [root m]. res_inv.
  destruct a0 as [[[[paid sl] payments] returns] slashed]. by res_inv.
Qed.

Lemma job_step_inv r r' : job_inv r -> job_step r r' -> job_inv r'.
Proof.
  intros Hi Hs. revert Hi. destruct Hs; intros Hi.
  - by eapply assign_inv.
  - by eapply result_inv.
  - erewrite finalize_status by done. apply set_status_inv; auto.
  - erewrite majority_status by done. apply set_status_inv; auto.
  - unfold ExpireOnChain in *. res_inv. apply set_status_inv; auto.
Qed.

Lemma requiredAssignments_pos j : Job_Validate j = Ok tt -> 1 <= requiredAssignments j.
Proof.
  unfold Job_Validate, requiredAssignments. intros E. res_inv.
  destruct (jb_Verification j =? VerificationReplicated); cbn in *; lia.
Qed.

Lemma job_reachable_inv r : job_reachable r -> job_inv r.
Proof.
  induction 1 as [id job escrow Hv He Hm Hp Hc|]; [|by eapply job_step_inv].
  pose proof (requiredAssignments_pos job Hv) as Hr.
  constructor; cbn -[requiredAssignments prices blen]; try done; try (by constructor).
  - change (blen []) with 0. lia.
  - left. change (blen []) with 0. split_and!; [done|done|lia].
Qed.

(** ** Settlement *)

Definition price_entries (l : list Assignment) : list (bytes * Z) := (fun a => (as_Provider a, as_Price a)) <$> l.
Definition collateral_entries (c : Z) (l : list Assignment) : list (bytes * Z) := (fun a => (as_Provider a, c)) <$> l.

Lemma price_entries_keys l : (price_entries l).*1 = as_Provider <$> l.
Proof. unfold price_entries. by rewrite <-list_fmap_compose. Qed.
Lemma collateral_entries_keys c l : (collateral_entries c l).*1 = as_Provider <$> l.
Proof. unfold collateral_entries. by rewrite <-list_fmap_compose. Qed.
Lemma price_entries_sum l : zsum (price_entries l).*2 = prices l.
Proof. unfold price_entries, prices. by rewrite <-list_fmap_compose. Qed.
Lemma collateral_entries_sum c l : zsum (collateral_entries c l).*2 = blen l * c.
Proof.
  unfold collateral_entries. rewrite <-list_fmap_compose. induction l as [|a l IH]; [done|].
  cbn [fmap list_fmap zsum foldr compose]. unfold zsum in IH. rewrite IH. unfold blen. cbn [length snd]. lia.
Qed.

(** The maps built by the payment loops, for distinct providers. *)
Lemma payments_map l :
  NoDup (as_Provider <$> l) -> Forall (fun a => u64 (as_Price a)) l ->
  madd_all ∅ (price_entries l) = list_to_map (price_entries l) /\ msum (madd_all ∅ (price_entries l)) = prices l.
Proof.
  intros Hnd Hl. rewrite <-price_entries_keys in Hnd.
  assert (madd_all ∅ (price_entries l) = list_to_map (price_entries l)) as E.
  { apply madd_all_empty; [done|]. unfold price_entries. apply Forall_fmap. exact Hl. }
  split; [done|]. by rewrite E, msum_list_to_map, price_entries_sum.
Qed.
Lemma returns_map c l :
  NoDup (as_Provider <$> l) -> u64 c ->
  madd_all ∅ (collateral_entries c l) = list_to_map (collateral_entries c l) /\
  msum (madd_all ∅ (collateral_entries c l)) = blen l * c.
Proof.
  intros Hnd Hc. rewrite <-(collateral_entries_keys c) in Hnd.
  assert (madd_all ∅ (collateral_entries c l) = list_to_map (collateral_entries c l)) as E.
  { apply madd_all_empty; [done|]. unfold collateral_entries. apply Forall_fmap. by apply Forall_true. }
  split; [done|]. by rewrite E, msum_list_to_map, collateral_entries_sum.
Qed.

Lemma pay_eq c p m1 m2 a :
  pay c (p, m1, m2) a =
  (fail_if (overflows p (as_Price a)) ErrMarketEscrow;;
   Ok (add64 p (as_Price a), madd64 m1 (as_Provider a) (as_Price a), madd64 m2 (as_Provider a) c)).
Proof. done. Qed.

Lemma pay_fold c l p m1 m2 :
  u64 p -> Forall (fun a => u64 (as_Price a)) l ->
  rfold (pay c) (p, m1, m2) l =
    if p + prices l <? 2 ^ 64
    then Ok (p + prices l, madd_all m1 (price_entries l), madd_all m2 (collateral_entries c l))
    else Err ErrMarketEscrow.
Proof.
  revert p m1 m2. induction l as [|a l IH]; intros p m1 m2 Hp Hl.
  { cbn. unfold prices, u64 in *. cbn. rewrite Z.add_0_r. by rewrite (proj2 (Z.ltb_lt p (2 ^ 64))) by lia. }
  apply Forall_cons_1 in Hl as [Ha Hl]. cbn [rfold]. rewrite prices_cons.
  pose proof (prices_nonneg l Hl) as Hn. rewrite pay_eq.
  destruct (overflows p (as_Price a)) eqn:Eo.
  - rewrite overflows_spec in Eo by done. unfold MaxUint64, u64 in *. cbn [fail_if mbind res_bind].
    by rewrite (proj2 (Z.ltb_ge (p + (as_Price a + prices l)) (2 ^ 64))) by lia.
  - destruct (add64_small p (as_Price a) Hp (proj1 Ha) Eo) as [Es Hu]. cbn [fail_if mbind res_bind]. rewrite Es.
    rewrite IH by done. replace (p + as_Price a + prices l) with (p + (as_Price a + prices l)) by lia. done.
Qed.

(** [winners]: the assignments whose provider reported the majority root. *)
Definition reported (results : list ComputeResult) : gmap bytes bytes :=
  foldl (fun m r => <[rt_Provider r := rt_ResultRoot r]> m) ∅ results.
Definition wins (results : list ComputeResult) (majority : bytes) (a : Assignment) : bool :=
  bool_decide (default zero32 (reported results !! as_Provider a) = majority).
Definition winners (results : list ComputeResult) (majority : bytes) (l : list Assignment) : list Assignment :=
  List.filter (wins results majority) l.
Definition losers (results : list ComputeResult) (majority : bytes) (l : list Assignment) : list Assignment :=
  List.filter (fun a => negb (wins results majority a)) l.

Lemma resolve_step_eq r majority p sl m1 m2 m3 a :
  resolve_step r (reported (oj_Results r)) majority (p, sl, m1, m2, m3) a =
  let c := jb_CollateralRequired (oj_Job r) in
  if wins (oj_Results r) majority a then
    fail_if (overflows p (as_Price a)) ErrMarketEscrow;;
    Ok (add64 p (as_Price a), sl, madd64 m1 (as_Provider a) (as_Price a), madd64 m2 (as_Provider a) c, m3)
  else
    fail_if (overflows sl c) ErrMarketEscrow;; Ok (p, add64 sl c, m1, m2, madd64 m3 (as_Provider a) c).
Proof. done. Qed.

Lemma filter_true_id {A} (l : list A) : List.filter (fun _ => true) l = l.
Proof. induction l; cbn; congruence. Qed.

Lemma Forall_List_filter {A} (P : A -> Prop) f (l : list A) : Forall P l -> Forall P (List.filter f l).
Proof. intros Hl. induction Hl; cbn; [constructor|]. destruct (f x); [by constructor|done]. Qed.

Lemma resolve_fold r majority l p sl m1 m2 m3 :
  u64 p -> u64 sl -> Forall (fun a => u64 (as_Price a)) l -> u64 (jb_CollateralRequired (oj_Job r)) ->
  let w := winners (oj_Results r) majority l in
  let lo := losers (oj_Results r) majority l in
  let c := jb_CollateralRequired (oj_Job r) in
  rfold (resolve_step r (reported (oj_Results r)) majority) (p, sl, m1, m2, m3) l =
    if (p + prices w <? 2 ^ 64) && (sl + blen lo * c <? 2 ^ 64)
    then Ok (p + prices w, sl + blen lo * c, madd_all m1 (price_entries w), madd_all m2 (collateral_entries c w),
             madd_all m3 (collateral_entries c lo))
    else Err ErrMarketEscrow.
Proof.
  revert p sl m1 m2 m3. induction l as [|a l IH]; intros p sl m1 m2 m3 Hp Hsl Hl Hc w lo c.
  { subst w lo. cbn [winners losers List.filter rfold]. change (prices []) with 0. change (blen []) with 0.
    unfold u64 in *. rewrite Z.mul_0_l, !Z.add_0_r.
    by rewrite (proj2 (Z.ltb_lt p (2 ^ 64))), (proj2 (Z.ltb_lt sl (2 ^ 64))) by lia. }
  apply Forall_cons_1 in Hl as [Ha Hl]. cbn [rfold]. rewrite resolve_step_eq. cbv zeta. fold c.
  specialize (IH (if wins (oj_Results r) majority a then p + as_Price a else p)
    (if wins (oj_Results r) majority a then sl else sl + c)).
  pose proof (prices_nonneg (winners (oj_Results r) majority l) (Forall_List_filter _ _ _ Hl)) as Hn.
  assert (0 <= blen (losers (oj_Results r) majority l)) as Hn' by (unfold blen; lia).
  subst w lo. unfold winners, losers in *. cbn [List.filter].
  destruct (wins (oj_Results r) majority a) eqn:Ew; cbn [negb] in *.
  - rewrite prices_cons. destruct (overflows p (as_Price a)) eqn:Eo.
    + rewrite overflows_spec in Eo by done. unfold MaxUint64, u64 in *. cbn [fail_if mbind res_bind].
      by rewrite (proj2 (Z.ltb_ge (p + (as_Price a + _)) (2 ^ 64))) by lia.
    + destruct (add64_small p (as_Price a) Hp (proj1 Ha) Eo) as [Es Hu]. cbn [fail_if mbind res_bind]. rewrite Es.
      rewrite IH by done. rewrite <-Z.add_assoc. done.
  - unfold blen at 1 2. cbn [length]. rewrite Nat2Z.inj_succ, Z.mul_succ_l.
    fold (blen (List.filter (fun a => negb (wins (oj_Results r) majority a)) l)).
    destruct (overflows sl c) eqn:Eo.
    + rewrite overflows_spec in Eo by done. unfold MaxUint64, u64 in *. cbn [fail_if mbind res_bind].
      assert (0 <= blen (List.filter (fun a => negb (wins (oj_Results r) majority a)) l) * c) by (subst c; nia).
      rewrite (proj2 (Z.ltb_ge (sl + (_ + c)) (2 ^ 64))) by (subst c; lia). by rewrite andb_false_r.
    + destruct (add64_small sl c Hsl (proj1 Hc) Eo) as [Es Hu]. cbn [fail_if mbind res_bind]. rewrite Es.
      rewrite IH by done. fold c.
      replace (sl + c + blen (List.filter (fun a => negb (wins (oj_Results r) majority a)) l) * c)
        with (sl + (blen (List.filter (fun a => negb (wins (oj_Results r) majority a)) l) * c + c)) by lia. done.
Qed.
End settlement.

(** ** Majorities *)

Definition votes_for (root : bytes) (l : list ComputeResult) : Z :=
  blen (List.filter (fun r => bool_decide (rt_ResultRoot r = root)) l).

Lemma votes_for_app root l k : votes_for root (l ++ k) = votes_for root l + votes_for root k.
Proof. unfold votes_for. rewrite List.filter_app, blen_app. done. Qed.

Lemma two_roots_le m r l : m <> r -> votes_for m l + votes_for r l <= blen l.
Proof.
  intros Hn. induction l as [|x l IH]; [done|]. change (x :: l) with ([x] ++ l).
  rewrite !votes_for_app, blen_app. unfold votes_for at 1 3. cbn [List.filter].
  repeat case_bool_decide; try congruence; change (blen [x]) with 1; change (@blen ComputeResult []) with 0; lia.
Qed.

Lemma count_roots_spec l root :
  count_roots l !! root = if votes_for root l =? 0 then None else Some (votes_for root l).
Proof.
  induction l as [|x l IH] using rev_ind; [done|].
  assert (count_roots (l ++ [x]) = <[rt_ResultRoot x := mget (count_roots l) (rt_ResultRoot x) + 1]> (count_roots l))
    as -> by (unfold count_roots; by rewrite foldl_app).
  assert (votes_for root (l ++ [x]) = votes_for root l + if bool_decide (rt_ResultRoot x = root) then 1 else 0) as Hv.
  { rewrite votes_for_app. f_equal. unfold votes_for. cbn [List.filter]. by case_bool_decide. }
  assert (0 <= votes_for root l) as Hp by (unfold votes_for, blen; lia). rewrite Hv.
  case_bool_decide as Er.
  - subst root. rewrite lookup_insert_eq. unfold mget. rewrite IH.
    destruct (Z.eqb_spec (votes_for (rt_ResultRoot x) l) 0) as [E|E];
      [rewrite E; done|]. cbn [default]. by rewrite (proj2 (Z.eqb_neq _ 0)) by lia.
  - rewrite lookup_insert_ne by done. by rewrite IH, Z.add_0_r.
Qed.

Lemma most_frequent_from entries m0 c0 :
  let st := foldl frequent_step (m0, c0) entries in
  (st = (m0, c0) \/ st ∈ entries) /\ c0 <= st.2 /\ (forall root count, (root, count) ∈ entries -> count <= st.2).
Proof.
  revert m0 c0. induction entries as [|[r c] l IH]; intros m0 c0; cbn zeta.
  { cbn. split_and!; [by left|done|]. intros ? ? H0%not_elem_of_nil. done. }
  cbn [foldl frequent_step]. destruct (Z.ltb_spec c0 c) as [Hlt|Hge].
  - destruct (IH r c) as (Hin & Hc & Hmax). split_and!.
    + right. destruct Hin as [E|Hin]; [rewrite E; left|by right].
    + lia.
    + intros root count [[= -> ->]|Hin']%elem_of_cons; [done|by apply (Hmax root)].
  - destruct (IH m0 c0) as (Hin & Hc & Hmax). split_and!.
    + destruct Hin as [?|?]; [by left|right; by right].
    + done.
    + intros root count [[= -> ->]|Hin']%elem_of_cons; [lia|by apply (Hmax root)].
Qed.

Section majority.
Context `{MapOrder}.

(** The scan finds the strict majority if there is one, whatever the order of
    the map. *)
Lemma most_frequent_majority l m c :
  most_frequent (range_map (count_roots l)) = (m, c) ->
  blen l < c * 2 -> c = votes_for m l.
Proof.
  intros E Hm. destruct (most_frequent_from (range_map (count_roots l)) zero32 0) as (Hin & _ & _).
  unfold most_frequent in E. rewrite E in Hin.
  destruct Hin as [[= -> ->]|Hin]; [unfold blen in Hm; lia|].
  rewrite range_map_perm, elem_of_map_to_list, count_roots_spec in Hin.
  destruct (_ =? 0); [done|]. by injection Hin.
Qed.

Lemma most_frequent_max l m c root :
  most_frequent (range_map (count_roots l)) = (m, c) -> votes_for root l <= c.
Proof.
  intros E. destruct (most_frequent_from (range_map (count_roots l)) zero32 0) as (_ & Hc & Hmax).
  unfold most_frequent in E. rewrite E in Hc, Hmax. cbn in Hc, Hmax.
  destruct (Z.eqb_spec (votes_for root l) 0) as [E0|E0]; [lia|].
  apply (Hmax root). rewrite range_map_perm, elem_of_map_to_list, count_roots_spec.
  by rewrite (proj2 (Z.eqb_neq _ 0)).
Qed.
End majority.

Lemma most_frequent_order (o1 o2 : MapOrder) l :
  let a := most_frequent (range_map (MapOrder := o1) (count_roots l)) in
  let b := most_frequent (range_map (MapOrder := o2) (count_roots l)) in
  blen l < a.2 * 2 -> a = b.
Proof.
  destruct (most_frequent (range_map (MapOrder := o1) (count_roots l))) as [m1 c1] eqn:E1.
  destruct (most_frequent (range_map (MapOrder := o2) (count_roots l))) as [m2 c2] eqn:E2. cbn.
  intros Hm. pose proof (most_frequent_majority (H := o1) l m1 c1 E1 Hm) as H1.
  pose proof (most_frequent_max (H := o2) l m2 c2 m1 E2) as Hle.
  pose proof (most_frequent_majority (H := o2) l m2 c2 E2 ltac:(lia)) as H2.
  destruct (decide (m1 = m2)) as [->|Hn]; [congruence|].
  pose proof (two_roots_le m1 m2 l Hn). lia.
Qed.

(** Who reported what, for reports of distinct providers. *)
Lemma reported_spec l p root :
  NoDup (rt_Provider <$> l) ->
  reported l !! p = Some root <-> exists x, x ∈ l /\ rt_Provider x = p /\ rt_ResultRoot x = root.
Proof.
  induction l as [|y l IH] using rev_ind; intros Hnd.
  { split; [done|]. intros (x & H0%not_elem_of_nil & _). done. }
  rewrite fmap_app in Hnd. apply NoDup_app in Hnd as (Hnd & Hdis & _). cbn in Hdis.
  assert (reported (l ++ [y]) = <[rt_Provider y := rt_ResultRoot y]> (reported l)) as ->
    by (unfold reported; by rewrite foldl_app).
  setoid_rewrite elem_of_app. setoid_rewrite list_elem_of_singleton.
  destruct (decide (rt_Provider y = p)) as [Hy|Hy].
  - rewrite Hy, lookup_insert_eq. split; [intros [= <-]; eauto|].
    intros (x & [Hx| ->] & Hp & <-); [|done]. exfalso. apply (Hdis (rt_Provider x)); [by apply list_elem_of_fmap_2|].
    rewrite Hy, Hp. left.
  - rewrite lookup_insert_ne by done. rewrite IH by done. split.
    + intros (x & ? & ? & ?). eauto.
    + intros (x & [Hx| ->] & Hp & Hr); [eauto|done].
Qed.

Section theorems.
Context `{MapOrder}.

Lemma inv_u64_prices r : job_inv r -> Forall (fun a => u64 (as_Price a)) (oj_Assignments r).
Proof. intros Hi. eapply Forall_impl; [apply Hi|]. by intros ? [? _]. Qed.

Lemma NoDup_filter_fmap {A B} (f : A -> B) g (l : list A) : NoDup (f <$> l) -> NoDup (f <$> List.filter g l).
Proof.
  induction l as [|a l IH]; [done|]. cbn. intros [Hn Hnd]%NoDup_cons. destruct (g a); [|by apply IH].
  cbn. apply NoDup_cons. split; [|by apply IH]. intros (b & E & Hb)%list_elem_of_fmap. apply Hn. rewrite E.
  apply list_elem_of_fmap_2. apply list_elem_of_In in Hb. apply List.filter_In in Hb as [Hb _]. by apply list_elem_of_In.
Qed.

Lemma prices_split f l : prices (List.filter f l) + prices (List.filter (fun a => negb (f a)) l) = prices l.
Proof. induction l as [|a l IH]; [done|]. cbn [List.filter]. destruct (f a); cbn [negb]; rewrite !prices_cons; lia. Qed.
Lemma blen_split {A} (f : A -> bool) l : blen (List.filter f l) + blen (List.filter (fun a => negb (f a)) l) = blen l.
Proof. unfold blen. induction l as [|a l IH]; [done|]. cbn [List.filter]. destruct (f a); cbn [negb length]; lia. Qed.

Lemma prices_filter_le f l : Forall (fun a => u64 (as_Price a)) l -> prices (List.filter f l) <= prices l.
Proof.
  intros Hl. rewrite <-(prices_split f l).
  pose proof (prices_nonneg _ (Forall_List_filter _ (fun a => negb (f a)) l Hl)). lia.
Qed.

(** The settlement of an accepted job. *)
Lemma finalize_Ok r e r' s :
  job_inv r -> FinalizeOnChain r e = Ok (r', s) ->
  let A := oj_Assignments r in let c := jb_CollateralRequired (oj_Job r) in
  st_Payments (os_Settlement s) = list_to_map (price_entries A) /\
  CollateralReturns s = list_to_map (collateral_entries c A) /\ SlashedCollateral s = ∅ /\ SlashReward s = 0 /\
  st_Refund (os_Settlement s) = oj_Escrow r - prices A /\ prices A <= oj_Escrow r.
Proof.
  intros Hi E. cbv zeta. unfold FinalizeOnChain in E. res_inv.
  destruct (commonResultRootRecord _) as [root m]. res_inv.
  rewrite pay_fold in * by (try (apply inv_u64_prices; done); unfold u64; lia).
  destruct (_ <? 2 ^ 64); [|done]. res_inv.
  pose proof (inv_escrow r Hi). pose proof (inv_u64_prices r Hi) as Hp. pose proof (prices_nonneg _ Hp).
  match goal with H : (oj_Escrow r <? _) = false |- _ => apply Z.ltb_ge in H end.
  cbn [os_Settlement st_Payments CollateralReturns SlashedCollateral SlashReward st_Refund].
  rewrite (proj1 (payments_map _ (inv_providers r Hi) Hp)).
  rewrite (proj1 (returns_map _ _ (inv_providers r Hi) (inv_collateral r Hi))).
  split_and!; try done. unfold sub64, u64 in *. rewrite Z.mod_small; lia.
Qed.

(** The settlement of a disputed replicated job. *)
Lemma majority_Ok r r' s :
  job_inv r -> ResolveReplicatedMajority r = Ok (r', s) ->
  let m := st_ResultRoot (os_Settlement s) in let c := jb_CollateralRequired (oj_Job r) in
  let W := winners (oj_Results r) m (oj_Assignments r) in let L := losers (oj_Results r) m (oj_Assignments r) in
  blen (oj_Results r) < votes_for m (oj_Results r) * 2 /\
  st_Payments (os_Settlement s) = list_to_map (price_entries W) /\
  CollateralReturns s = list_to_map (collateral_entries c W) /\
  SlashedCollateral s = list_to_map (collateral_entries c L) /\ SlashReward s = blen L * c /\
  st_Refund (os_Settlement s) = oj_Escrow r - prices W /\ prices W <= oj_Escrow r.
Proof.
  intros Hi E. cbv zeta. unfold ResolveReplicatedMajority in E. res_inv.
  destruct (most_frequent _) as [m0 count] eqn:Em. res_inv.
  match goal with H : (count * 2 <=? _) = false |- _ => apply Z.leb_gt in H as Hmaj end.
  rewrite (most_frequent_majority _ _ _ Em Hmaj) in Hmaj.
  fold (reported (oj_Results r)) in *.
  rewrite resolve_fold in * by (try (apply inv_u64_prices; done); try apply Hi; unfold u64; lia).
  destruct (_ && _); [|done]. res_inv. cbn [os_Settlement st_ResultRoot st_Payments CollateralReturns
    SlashedCollateral SlashReward st_Refund]. cbv zeta.
  set (W := winners (oj_Results r) m0 (oj_Assignments r)) in *.
  set (L := losers (oj_Results r) m0 (oj_Assignments r)) in *.
  match goal with H : (oj_Escrow r <? _) = false |- _ => apply Z.ltb_ge in H end.
  assert (NoDup (as_Provider <$> W)) as HW by apply NoDup_filter_fmap, Hi.
  assert (NoDup (as_Provider <$> L)) as HL by apply NoDup_filter_fmap, Hi.
  assert (Forall (fun a => u64 (as_Price a)) W) as HpW by (apply Forall_List_filter; by apply inv_u64_prices).
  rewrite (proj1 (payments_map W HW HpW)), (proj1 (returns_map _ W HW (inv_collateral r Hi))).
  rewrite (proj1 (returns_map _ L HL (inv_collateral r Hi))).
  pose proof (prices_nonneg W HpW). pose proof (inv_escrow r Hi).
  split_and!; try done. unfold sub64, u64 in *. rewrite Z.mod_small; lia.
Qed.

Lemma lookup_entries (f : Assignment -> Z) l a :
  NoDup (as_Provider <$> l) -> a ∈ l ->
  (list_to_map ((fun a => (as_Provider a, f a)) <$> l) : gmap bytes Z) !! as_Provider a = Some (f a).
Proof.
  intros Hnd Ha. apply elem_of_list_to_map_1; [by rewrite <-list_fmap_compose|].
  apply list_elem_of_fmap. by exists a.
Qed.
Lemma lookup_entries_None (f : Assignment -> Z) l p :
  p ∉ as_Provider <$> l -> (list_to_map ((fun a => (as_Provider a, f a)) <$> l) : gmap bytes Z) !! p = None.
Proof. intros Hp. apply not_elem_of_list_to_map_1. by rewrite <-list_fmap_compose. Qed.

Lemma provider_in_filter f l a :
  NoDup (as_Provider <$> l) -> a ∈ l -> f a = false -> as_Provider a ∉ as_Provider <$> List.filter f l.
Proof.
  intros Hnd Ha Hf (b & E & Hb)%list_elem_of_fmap. apply list_elem_of_In, List.filter_In in Hb as [Hb Hfb].
  apply list_elem_of_In in Hb. assert (a = b) as ->; [|congruence].
  apply list_elem_of_lookup in Ha as [i Hi]. apply list_elem_of_lookup in Hb as [j Hj].
  assert (i = j) as ->; [|congruence].
  eapply NoDup_lookup; [exact Hnd| |]; rewrite list_lookup_fmap; [by rewrite Hi|by rewrite Hj; cbn; rewrite E].
Qed.

Lemma wins_report r m a x :
  job_inv r -> x ∈ oj_Results r -> rt_Provider x = as_Provider a ->
  wins (oj_Results r) m a = bool_decide (rt_ResultRoot x = m).
Proof.
  intros Hi Hx Hp. unfold wins.
  assert (reported (oj_Results r) !! as_Provider a = Some (rt_ResultRoot x)) as ->.
  { apply reported_spec; [apply Hi|]. eauto. }
  done.
Qed.

Lemma elem_of_List_filter {A} (f : A -> bool) l a : a ∈ List.filter f l <-> a ∈ l /\ f a = true.
Proof. rewrite !list_elem_of_In. apply List.filter_In. Qed.

(** C36: the state machine of a job.  Whatever sequence of assignments, results,
    settlements and expiries is applied to a fresh job, the record keeps its
    invariant: providers are distinct and never more than required, the prices
    promised to them stay within the maximum price and so within the escrow,
    every result comes from an assigned provider, at most one each, on time and
    for this job, and the status says exactly which counts are complete. *)
Theorem job_record_invariant (r : OnChainJob) : job_reachable r -> job_inv r.
Proof. apply job_reachable_inv. Qed.

(** The map [m] holds exactly the amounts [f] of the assignments that satisfy [P],
    under their providers, and nothing else. *)
Definition holds_exactly (r : OnChainJob) (P : Assignment -> Prop) (f : Assignment -> Z) (m : gmap bytes Z) : Prop :=
  forall p v, m !! p = Some v <-> exists a, a ∈ oj_Assignments r /\ P a /\ as_Provider a = p /\ f a = v.

Definition reported_root (r : OnChainJob) (root : bytes) (a : Assignment) : Prop :=
  exists x, x ∈ oj_Results r /\ rt_Provider x = as_Provider a /\ rt_ResultRoot x = root.

Lemma filter_holds_exactly (r : OnChainJob) (b : Assignment -> bool) (P : Assignment -> Prop) (f : Assignment -> Z) (m : gmap bytes Z) :
  job_inv r -> (forall a, a ∈ oj_Assignments r -> b a = true <-> P a) ->
  m = list_to_map ((fun a => (as_Provider a, f a)) <$> List.filter b (oj_Assignments r)) -> holds_exactly r P f m.
Proof.
  intros Hi Hb -> p v. rewrite <-elem_of_list_to_map.
  - rewrite list_elem_of_fmap. split.
    + intros (a & [= -> ->] & [Ha Hf]%elem_of_List_filter). exists a. split_and!; try done. by apply Hb.
    + intros (a & Ha & HP & <- & <-). exists a. split; [done|]. apply elem_of_List_filter. split; [done|]. by apply Hb.
  - rewrite <-list_fmap_compose. by apply NoDup_filter_fmap, Hi.
Qed.

Lemma all_holds_exactly (r : OnChainJob) (f : Assignment -> Z) (m : gmap bytes Z) :
  job_inv r -> m = list_to_map ((fun a => (as_Provider a, f a)) <$> oj_Assignments r) -> holds_exactly r (fun _ => True) f m.
Proof. intros Hi ->. apply (filter_holds_exactly r (fun _ => true)); [done..|]. by rewrite filter_true_id. Qed.

Lemma votes_for_elem m l : 0 < votes_for m l -> exists x, x ∈ l /\ rt_ResultRoot x = m.
Proof.
  unfold votes_for. intros Hv. destruct (List.filter _ l) as [|x k] eqn:E; [by change (blen []) with 0 in Hv|].
  exists x. assert (x ∈ List.filter (fun y => bool_decide (rt_ResultRoot y = m)) l) as [Hx Hm]%elem_of_List_filter by (rewrite E; left).
  by apply bool_decide_eq_true_1 in Hm.
Qed.

(** A provider wins a vote exactly if it reported the root. *)
Lemma wins_reported r m a :
  job_inv r -> 0 < votes_for m (oj_Results r) -> wins (oj_Results r) m a = true <-> reported_root r m a.
Proof.
  intros Hi Hv. unfold wins, reported_root. rewrite bool_decide_eq_true.
  rewrite <-(reported_spec (oj_Results r) (as_Provider a) m) by apply Hi.
  split; [|by intros ->]. destruct (reported _ !! _) as [root|]; [by intros <-|]. cbn. intros <-. exfalso.
  apply votes_for_elem in Hv as (x & Hx & Hz). destruct (proj1 (Forall_forall _ _) (inv_roots r Hi) x Hx) as (_ & Hval & _).
  unfold Result_Validate in Hval. apply fail_if_Ok in Hval. rewrite Hz in Hval.
  repeat match goal with H : _ || _ = false |- _ => apply orb_false_iff in H as [? ?] end. done.
Qed.

(** C17: settlement pays out exactly what is locked, to exactly the right
    providers.  For every reachable record: an accepted job pays every assigned
    provider its price, returns every collateral, slashes none and refunds the
    rest of the escrow; a majority decision is taken by a strict majority of the
    reports, pays and returns collateral to exactly the providers that reported
    the majority root, slashes exactly the others, and payments, refund, returns
    and slashed collateral again add up to the escrow plus all collaterals;
    expiry refunds the escrow and returns its collateral to every assigned
    provider.  Nobody else gets anything, and no [uint64] sum wraps. *)
Theorem settlement_conserves (r : OnChainJob) :
  job_reachable r ->
  let A := oj_Assignments r in let c := jb_CollateralRequired (oj_Job r) in
  (forall e r' s, FinalizeOnChain r e = Ok (r', s) ->
     msum (st_Payments (os_Settlement s)) + st_Refund (os_Settlement s) = oj_Escrow r /\
     0 <= st_Refund (os_Settlement s) /\ msum (CollateralReturns s) = blen A * c /\ SlashReward s = 0 /\
     holds_exactly r (fun _ => True) as_Price (st_Payments (os_Settlement s)) /\
     holds_exactly r (fun _ => True) (fun _ => c) (CollateralReturns s) /\ SlashedCollateral s = ∅) /\
  (forall r' s, ResolveReplicatedMajority r = Ok (r', s) ->
     let m := st_ResultRoot (os_Settlement s) in
     msum (st_Payments (os_Settlement s)) + st_Refund (os_Settlement s) = oj_Escrow r /\
     0 <= st_Refund (os_Settlement s) /\
     msum (CollateralReturns s) + SlashReward s = blen A * c /\ msum (SlashedCollateral s) = SlashReward s /\
     blen (oj_Results r) < votes_for m (oj_Results r) * 2 /\
     holds_exactly r (reported_root r m) as_Price (st_Payments (os_Settlement s)) /\
     holds_exactly r (reported_root r m) (fun _ => c) (CollateralReturns s) /\
     holds_exactly r (fun a => ~ reported_root r m a) (fun _ => c) (SlashedCollateral s)) /\
  (forall h r' refund collateral, ExpireOnChain r h = Ok (r', refund, collateral) ->
     refund = oj_Escrow r /\ msum collateral = blen A * c /\ holds_exactly r (fun _ => True) (fun _ => c) collateral).
Proof.
  intros Hi%job_reachable_inv A c. pose proof (inv_u64_prices r Hi) as Hp. pose proof (inv_providers r Hi) as Hnd.
  pose proof (inv_collateral r Hi) as Hc. fold A in Hp, Hnd. fold c in Hc. split_and!.
  - intros e r' s (E1 & E2 & E3 & E4 & E5 & E6)%finalize_Ok; [|done].
    fold A c in E1, E2, E5, E6. split_and!; try done; [| | |by apply all_holds_exactly..].
    + rewrite E1, E5, <-(proj1 (payments_map _ Hnd Hp)), (proj2 (payments_map _ Hnd Hp)). lia.
    + lia.
    + by rewrite E2, <-(proj1 (returns_map c _ Hnd Hc)), (proj2 (returns_map c _ Hnd Hc)).
  - intros r' s (Hm & E1 & E2 & E3 & E4 & E5 & E6)%majority_Ok; [|done]. cbv zeta. fold A c in E1, E2, E3, E4, E5, E6.
    set (m := st_ResultRoot (os_Settlement s)) in *.
    assert (0 < votes_for m (oj_Results r)) as Hpos by (unfold blen in Hm; lia).
    assert (forall a, wins (oj_Results r) m a = true <-> reported_root r m a) as Hw by (intros; by apply wins_reported).
    assert (NoDup (as_Provider <$> winners (oj_Results r) m A)) as HW by by apply NoDup_filter_fmap.
    assert (NoDup (as_Provider <$> losers (oj_Results r) m A)) as HL by by apply NoDup_filter_fmap.
    pose proof (blen_split (wins (oj_Results r) m) A) as Hs. fold (winners (oj_Results r) m A) in Hs.
    fold (losers (oj_Results r) m A) in Hs. split_and!; try done.
    + rewrite E1, E5, msum_list_to_map, price_entries_sum by (by rewrite price_entries_keys). lia.
    + lia.
    + rewrite E2, E4, msum_list_to_map, collateral_entries_sum by (by rewrite collateral_entries_keys). lia.
    + by rewrite E3, E4, msum_list_to_map, collateral_entries_sum by (by rewrite collateral_entries_keys).
    + by apply (filter_holds_exactly r (wins (oj_Results r) m)).
    + by apply (filter_holds_exactly r (wins (oj_Results r) m)).
    + apply (filter_holds_exactly r (fun a => negb (wins (oj_Results r) m a))); [done| |done].
      intros a _. rewrite <-Hw. by destruct (wins _ _ _).
  - intros h r' refund collateral E. unfold ExpireOnChain in E. res_inv.
    match goal with |- _ /\ msum ?m = _ /\ _ => assert (m = madd_all ∅ (collateral_entries c A)) as -> end.
    { unfold madd_all, collateral_entries. by rewrite foldl_fmap. }
    split_and!; [done|by apply returns_map|]. apply all_holds_exactly; [done|]. by apply returns_map.
Qed.

Lemma commonResultRootRecord_root r root m :
  job_inv r -> oj_Results r <> [] -> commonResultRootRecord (oj_Results r) = (root, m) -> IsZero32 root = false.
Proof.
  intros Hi Hne E. unfold commonResultRootRecord in E.
  destruct (sort_by _ (oj_Results r)) as [|x l] eqn:Es.
  - destruct (oj_Results r) as [|y k]; [done|]. exfalso.
    assert (y ∈ sort_by (fun r => hex (rt_Provider r)) (y :: k)) as Hy by (apply elem_of_sort_by; left).
    rewrite Es in Hy. by apply not_elem_of_nil in Hy.
  - injection E as <- _. assert (x ∈ oj_Results r) as Hx.
    { apply (elem_of_sort_by (fun r => hex (rt_Provider r))). rewrite Es. left. }
    destruct (proj1 (Forall_forall _ _) (inv_roots r Hi) x Hx) as (_ & Hv & _).
    unfold Result_Validate in Hv. apply fail_if_Ok in Hv.
    repeat match goal with H : _ || _ = false |- _ => apply orb_false_iff in H as [? ?] end. done.
Qed.

Lemma inv_prices_fit r f : job_inv r -> prices (List.filter f (oj_Assignments r)) <= oj_Escrow r < 2 ^ 64.
Proof.
  intros Hi. pose proof (prices_filter_le f _ (inv_u64_prices r Hi)). pose proof (inv_committed r Hi).
  pose proof (inv_max r Hi). pose proof (inv_escrow r Hi). unfold u64 in *. lia.
Qed.

Lemma finalize_available r e :
  job_inv r ->
  is_ok (FinalizeOnChain r e) = true <->
  oj_Status r = JobAwaitingVerification /\
  verificationSatisfied (jb_Verification (oj_Job r)) (commonResultRootRecord (oj_Results r)).2
    (results_map (oj_Results r)) e = true.
Proof.
  intros Hi. pose proof (inv_u64_prices r Hi) as Hp.
  split.
  + intros [[r' s] E]%is_ok_true. unfold FinalizeOnChain in E. res_inv.
    destruct (commonResultRootRecord _) as [root mt]. res_inv. cbn.
    repeat match goal with H : _ || _ = false |- _ => apply orb_false_iff in H as [? ?] end. split; [lia|].
    by apply negb_false_iff.
  + intros [Hs Hv]. unfold FinalizeOnChain. rewrite Hs. cbn [Z.eqb JobAwaitingVerification Pos.eqb negb orb].
    destruct (inv_status r Hi) as [(E & _)|[(E & _)|[(_ & Ha & Hr)|[E|E]]]]; try (rewrite E in Hs; done).
    rewrite Hr, Z.eqb_refl. cbn [negb fail_if mbind res_bind].
    pose proof (inv_required r Hi) as Hreq.
    destruct (commonResultRootRecord (oj_Results r)) as [root mt] eqn:Ec. cbn [snd] in Hv.
    rewrite (commonResultRootRecord_root r root mt) by (try done; intros E; rewrite E in Hr; change (blen []) with 0 in Hr; lia).
    rewrite Hv. cbn [negb orb fail_if mbind res_bind].
    rewrite pay_fold by (try done; unfold u64; lia).
    pose proof (inv_prices_fit r (fun _ => true) Hi) as Hf.
    rewrite (filter_true_id (oj_Assignments r)) in Hf.
    rewrite (proj2 (Z.ltb_lt _ _)) by lia. cbn [mbind res_bind].
    by rewrite (proj2 (Z.ltb_ge _ _)) by lia.
Qed.

Lemma majority_available r :
  job_inv r ->
  is_ok (ResolveReplicatedMajority r) = true <->
  jb_Verification (oj_Job r) = VerificationReplicated /\ 3 <= blen (oj_Results r) /\
  blen (oj_Results r) = blen (oj_Assignments r) /\
  exists m, blen (oj_Results r) < votes_for m (oj_Results r) * 2 /\
    blen (losers (oj_Results r) m (oj_Assignments r)) * jb_CollateralRequired (oj_Job r) < 2 ^ 64.
Proof.
  intros Hi. pose proof (inv_u64_prices r Hi) as Hp.
  split.
  + intros [[r' s] E]%is_ok_true. pose proof (majority_Ok r r' s Hi E) as (Hm & _).
    unfold ResolveReplicatedMajority in E. res_inv. destruct (most_frequent _) as [m0 count] eqn:Em. res_inv.
    repeat match goal with H : _ || _ = false |- _ => apply orb_false_iff in H as [? ?] end.
    fold (reported (oj_Results r)) in *.
    rewrite resolve_fold in * by (try done; try apply Hi; unfold u64; lia).
    destruct (_ && _) eqn:Eb; [|done]. res_inv. cbn in Hm. apply andb_true_iff in Eb as [_ Eb].
    split_and!; [lia|lia|lia|]. exists m0. split; [done|]. lia.
  + intros (Hrep & H3 & Hfull & m & Hm & Hfit). unfold ResolveReplicatedMajority.
    rewrite Hrep, <-Hfull, !Z.eqb_refl. rewrite (proj2 (Z.ltb_ge _ _)) by lia.
    cbn [negb orb fail_if mbind res_bind].
    destruct (most_frequent (range_map (count_roots (oj_Results r)))) as [m0 count] eqn:Em.
    pose proof (most_frequent_max _ _ _ m Em) as Hle.
    pose proof (most_frequent_majority _ _ _ Em ltac:(lia)) as Hc.
    assert (m0 = m) as ->.
    { destruct (decide (m0 = m)); [done|]. pose proof (two_roots_le m0 m (oj_Results r) ltac:(done)). lia. }
    rewrite (proj2 (Z.leb_gt _ _)) by lia. cbn [fail_if mbind res_bind].
    fold (reported (oj_Results r)). rewrite resolve_fold by (try done; try apply Hi; unfold u64; lia).
    pose proof (inv_prices_fit r (wins (oj_Results r) m) Hi) as Hf. fold (winners (oj_Results r) m (oj_Assignments r)) in Hf.
    rewrite !(proj2 (Z.ltb_lt _ _)) by lia. cbn [andb mbind res_bind].
    by rewrite (proj2 (Z.ltb_ge _ _)) by lia.
Qed.

(** C37: the escrow always suffices for the payments.  On a reachable record
    acceptance succeeds exactly when all results are in and the verification mode is
    satisfied: no escrow guard refuses it.  A majority decision succeeds exactly
    when the job is replicated, at least three providers were assigned and all
    reported, some root has a strict majority, and the collateral of the providers
    that did not report it adds up to less than 2^64: the guard on that sum is the
    only escrow guard that can refuse it, the guards on the payments never do. *)
Theorem settlement_available (r : OnChainJob) :
  job_reachable r ->
  (forall e, is_ok (FinalizeOnChain r e) = true <->
     oj_Status r = JobAwaitingVerification /\
     verificationSatisfied (jb_Verification (oj_Job r)) (commonResultRootRecord (oj_Results r)).2
       (results_map (oj_Results r)) e = true) /\
  (is_ok (ResolveReplicatedMajority r) = true <->
     jb_Verification (oj_Job r) = VerificationReplicated /\ 3 <= blen (oj_Results r) /\
     blen (oj_Results r) = blen (oj_Assignments r) /\
     exists m, blen (oj_Results r) < votes_for m (oj_Results r) * 2 /\
       blen (losers (oj_Results r) m (oj_Assignments r)) * jb_CollateralRequired (oj_Job r) < 2 ^ 64).
Proof.
  intros Hi%job_reachable_inv. split; [intros e; by apply finalize_available|by apply majority_available].
Qed.
End theorems.

(** The majority decision is deterministic.  The scan for the most frequent
    root iterates over a Go map; every iteration order gives the same decision,
    for every record. *)
Theorem majority_deterministic (o1 o2 : MapOrder) (r : OnChainJob) :
  ResolveReplicatedMajority (H := o1) r = ResolveReplicatedMajority (H := o2) r.
Proof.
  unfold ResolveReplicatedMajority. f_equal.
  pose proof (most_frequent_order o1 o2 (oj_Results r)) as H12.
  pose proof (most_frequent_order o2 o1 (oj_Results r)) as H21.
  destruct (most_frequent (range_map (MapOrder := o1) _)) as [m1 c1].
  destruct (most_frequent (range_map (MapOrder := o2) _)) as [m2 c2]. cbn in H12, H21.
  destruct (Z.leb_spec (c1 * 2) (blen (oj_Results r))), (Z.leb_spec (c2 * 2) (blen (oj_Results r))); try done.
  - specialize (H21 ltac:(lia)). injection H21 as -> ->. lia.
  - specialize (H12 ltac:(lia)). injection H12 as -> ->. lia.
  - specialize (H12 ltac:(lia)). by injection H12 as -> ->.
Qed.

(** ** A run with three replicas *)

Module Example.
Definition acc (b : byte) : bytes := replicate 32 b.
Definition resources : Resources := mkResources 1 512 0 0 0 0 [].
Definition job : Job := mkJob (acc x01) (acc x02) (acc x03) resources 100 7 VerificationReplicated 50 3 false.
Definition offer (p : byte) (price : Z) : Offer := mkOffer (acc p) resources price 10 [VerificationReplicated] 60.
Definition result (p root : byte) : ComputeResult := mkComputeResult (acc x09) (acc p) (acc root) zero32 zero32 20.
Definition fresh : OnChainJob := mkOnChainJob (acc x09) job 120 JobPending [] [].

Definition assign (r : OnChainJob) (p : byte) (price : Z) : OnChainJob :=
  (ok_or (r, mkAssignment [] [] 0, 0) (AssignOnChain r (acc x08) (offer p price) 10)).1.1.
Definition report (r : OnChainJob) (p root : byte) : OnChainJob := ok_or r (SubmitOnChainResult r (result p root)).
Definition assigned : OnChainJob := assign (assign (assign fresh x11 30) x12 20) x13 40.
(** The third provider reports another root. *)
Definition disputed : OnChainJob := report (report (report assigned x11 xaa) x12 xaa) x13 xbb.

Lemma assign_step `{MapOrder} r p price :
  is_ok (AssignOnChain r (acc x08) (offer p price) 10) = true -> u64 price -> price <> 0 -> IsZero32 (acc p) = false ->
  job_step r (assign r p price).
Proof.
  intros [[[r' a] ch] E]%is_ok_true Hu Hn Hz. unfold assign. rewrite E. cbn. eapply step_assign; [| |exact E]; [done|].
  unfold Offer_Validate. cbn -[IsZero32 acc]. rewrite Hz. cbn. by rewrite (proj2 (Z.eqb_neq price 0)).
Qed.
Lemma report_step `{MapOrder} r p root :
  is_ok (SubmitOnChainResult r (result p root)) = true -> job_step r (report r p root).
Proof. intros [r' E]%is_ok_true. unfold report. rewrite E. cbn. by eapply step_result. Qed.

Lemma disputed_reachable `{MapOrder} : job_reachable disputed.
Proof.
  unfold disputed, assigned.
  do 3 (eapply job_next; [|apply report_step; vm_compute; reflexivity]).
  do 3 (eapply job_next; [|apply assign_step; [vm_compute; reflexivity|unfold u64; lia|lia|reflexivity]]).
  apply job_new; [reflexivity|unfold u64; lia|cbn; lia|cbn; lia|unfold u64; cbn; lia].
Qed.
End Example.

Lemma job_record_invariant_witness :
  job_inv Example.disputed /\ oj_Status Example.disputed = JobAwaitingVerification.
Proof. split; [apply (job_record_invariant (H := some_order)), Example.disputed_reachable|reflexivity]. Defined.

Lemma settlement_conserves_witness :
  exists r' s, ResolveReplicatedMajority (H := some_order) Example.disputed = Ok (r', s) /\
    msum (st_Payments (os_Settlement s)) + st_Refund (os_Settlement s) = 120 /\
    msum (CollateralReturns s) + SlashReward s = 21.
Proof.
  destruct (is_ok_true (ResolveReplicatedMajority (H := some_order) Example.disputed)) as [[r' s] E];
    [vm_compute; reflexivity|].
  exists r', s. split; [exact E|].
  pose proof (proj1 (proj2 (settlement_conserves (H := some_order) _ Example.disputed_reachable)) r' s E)
    as (H1 & _ & H2 & _).
  split; [exact H1|exact H2].
Defined.

Lemma settlement_available_witness :
  is_ok (ResolveReplicatedMajority (H := some_order) Example.disputed) = true /\
  is_ok (FinalizeOnChain (H := some_order) Example.disputed no_evidence) = false.
Proof.
  pose proof (settlement_available (H := some_order) _ Example.disputed_reachable) as [Hf Hm]. split.
  - apply Hm. split_and!; [reflexivity|vm_compute; discriminate|reflexivity|].
    exists (Example.acc xaa). split; vm_compute; reflexivity.
  - apply not_true_iff_false. intros E%Hf. destruct E as [_ E]. vm_compute in E. discriminate.
Defined.
