(* ===== verification/Contracts.v ===== *)
(** * Contracts

    Package [internal/v2/contracts]: deployments and calls with their wire
    formats ([contracts.go], [ops.go]) and the metering guard around a contract
    engine ([metered.go]).  The engines themselves are parameters: a [Runtime]
    is the interface of [contracts.go], and [ScriptRuntime], which runs the
    Starlark interpreter, is given by the class [ScriptHost]. *)

From S2P Require Import Prelude GoLib Codec Crypto Types Object.

Open Scope Z_scope.

Definition RuntimeWASMv1 : bytes := str "wasm-v1".
Definition RuntimeZephyrScriptV1 : bytes := str "zephyr-script-v1".
Definition MaxModuleBytes : Z := Z.shiftl 4 20.
Definition MaxInitialStateBytes : Z := Z.shiftl 1 20.
Definition MaxArgumentsBytes : Z := Z.shiftl 1 20.
Definition MaxReturnBytes : Z := Z.shiftl 1 20.
Definition MaxEventBytes : Z := Z.shiftl 64 10.
Definition MaxEvents : Z := 1024.
Definition MaxAccesses : Z := 4096.

Record Deployment := mkDeployment {
  d_Runtime : bytes;
  d_Code : bytes;
  d_ABI : Z;
  d_UpgradeAuthority : bytes;
  d_InitialState : bytes;
  d_MaxMemoryPages : Z;
}.

Record Access := mkAccess { ac_ObjectID : bytes; ac_Write : bool }.

Record Request := mkRequest {
  rq_ContractID : bytes;
  rq_Runtime : bytes;
  rq_Code : bytes;
  rq_Entrypoint : bytes;
  rq_Arguments : bytes;
  rq_Accesses : list Access;
  rq_ReadValues : gmap bytes bytes;
  rq_FuelLimit : Z;
}.

Record ContractResult := mkContractResult {
  cx_ReturnData : bytes;
  cx_FuelUsed : Z;
  cx_Writes : gmap bytes bytes;
  cx_Events : list bytes;
}.

(** [type Runtime interface] *)
Record Runtime := mkRuntime {
  ValidateModule : bytes -> res unit;
  RuntimeExecute : Request -> res ContractResult;
}.

(** [type MeteredRuntime struct { Inner Runtime }]; [None] is a nil [Inner]. *)
Abbreviation MeteredRuntime := (option Runtime).

Class ScriptHost := { ScriptRuntime : Runtime }.

Record StoredContract := mkStoredContract { sc_ID : bytes; sc_Deployment : Deployment }.

Record Call := mkCall {
  cl_ContractObject : bytes;
  cl_Entrypoint : bytes;
  cl_Arguments : bytes;
  cl_FuelLimit : Z;
  cl_Accesses : list Access;
}.

Record ContractReceipt := mkContractReceipt {
  rc_ContractID : bytes;
  rc_FuelUsed : Z;
  rc_ReturnHash : bytes;
  rc_EventRoot : bytes;
}.

(** ** Module checks *)

(** [utf8.Valid]: the accepted byte ranges of RFC 3629. *)
Definition in_range (lo hi : Z) (b : byte) : bool := (lo <=? Z_of_byte b) && (Z_of_byte b <=? hi).
Definition tail (b : byte) : bool := in_range 0x80 0xBF b.

Fixpoint utf8_Valid (s : bytes) : bool :=
  match s with
  | [] => true
  | a :: s1 =>
      if in_range 0 0x7F a then utf8_Valid s1 else
      match s1 with
      | [] => false
      | b :: s2 =>
          if in_range 0xC2 0xDF a then tail b && utf8_Valid s2 else
          match s2 with
          | [] => false
          | c :: s3 =>
              if in_range 0xE0 0xE0 a then in_range 0xA0 0xBF b && tail c && utf8_Valid s3
              else if in_range 0xE1 0xEC a || in_range 0xEE 0xEF a then tail b && tail c && utf8_Valid s3
              else if in_range 0xED 0xED a then in_range 0x80 0x9F b && tail c && utf8_Valid s3 else
              match s3 with
              | [] => false
              | d :: s4 =>
                  if in_range 0xF0 0xF0 a then in_range 0x90 0xBF b && tail c && tail d && utf8_Valid s4
                  else if in_range 0xF1 0xF3 a then tail b && tail c && tail d && utf8_Valid s4
                  else if in_range 0xF4 0xF4 a then in_range 0x80 0x8F b && tail c && tail d && utf8_Valid s4
                  else false
              end
          end
      end
  end.

Definition ValidateWASMModule (code : bytes) : bool :=
  if (blen code <? 8) || (MaxModuleBytes <? blen code) then false
  else bool_decide (firstn 4 code = [x00; x61; x73; x6d]) && bool_decide (firstn 4 (skipn 4 code) = [x01; x00; x00; x00]).

Definition ValidateScriptModule (code : bytes) : bool :=
  (0 <? blen code) && (blen code <=? MaxModuleBytes) && utf8_Valid code
  && negb (existsb (fun b => Z_of_byte b =? 0) code).

Definition Deployment_Validate (d : Deployment) : res unit :=
  fail_if ((d_ABI d =? 0) || (blen (d_Code d) =? 0) || (MaxModuleBytes <? blen (d_Code d))
    || (MaxInitialStateBytes <? blen (d_InitialState d)) || (d_MaxMemoryPages d =? 0)
    || IsZero32 (d_UpgradeAuthority d)) ErrInvalidDeployment;;
  if bool_decide (d_Runtime d = RuntimeWASMv1) then fail_if (negb (ValidateWASMModule (d_Code d))) ErrInvalidModule
  else if bool_decide (d_Runtime d = RuntimeZephyrScriptV1) then
    fail_if (negb (ValidateScriptModule (d_Code d))) ErrInvalidModule
  else Err ErrInvalidDeployment.

(** ** Wire formats *)

Definition Deployment_MarshalBinary (d : Deployment) : res bytes :=
  Deployment_Validate d;;
  Ok (Writer.BytesCopy (Writer.new |> Writer.String (d_Runtime d) |> Writer.Bytes (d_Code d)
    |> Writer.U16 (d_ABI d) |> Writer.Fixed (d_UpgradeAuthority d) |> Writer.Bytes (d_InitialState d)
    |> Writer.U32 (d_MaxMemoryPages d))).

Definition ParseDeployment (data : bytes) : res Deployment :=
  parse (runtimeName ← Rd.String 64 <!> ErrContractWire;
         code ← Rd.Bytes MaxModuleBytes <!> ErrContractWire;
         abi ← Rd.U16 <!> ErrContractWire;
         authority ← Rd.Fixed 32 <!> ErrContractWire;
         initial ← Rd.Bytes MaxInitialStateBytes <!> ErrContractWire;
         pages ← Rd.U32 <!> ErrContractWire;
         Rd.Done <!> ErrContractWire;;
         let deployment := mkDeployment runtimeName code abi authority initial pages in
         plift (Deployment_Validate deployment);;
         mret deployment) data.

Definition StoredContract_MarshalBinary (s : StoredContract) : res bytes :=
  fail_if (IsZero32 (sc_ID s)) ErrContractWire;;
  deployment ← Deployment_MarshalBinary (sc_Deployment s);
  Ok (Writer.BytesCopy (Writer.new |> Writer.Fixed (sc_ID s) |> Writer.Bytes deployment)).

Definition ParseStoredContract (data : bytes) : res StoredContract :=
  parse (id ← Rd.Fixed 32 <!> ErrContractWire;
         deploymentRaw ← Rd.Bytes (MaxModuleBytes + MaxInitialStateBytes + 256) <!> ErrContractWire;
         Rd.Done <!> ErrContractWire;;
         deployment ← plift (ParseDeployment deploymentRaw) <!> ErrContractWire;
         plift (fail_if (IsZero32 id) ErrContractWire);;
         mret (mkStoredContract id deployment)) data.

(** One access of the loop: non-zero and not seen before. *)
Definition write_access (st : gset bytes * Writer.t) (a : Access) : res (gset bytes * Writer.t) :=
  let '(seen, w) := st in
  fail_if (IsZero32 (ac_ObjectID a)) ErrContractWire;;
  fail_if (bool_decide (ac_ObjectID a ∈ seen)) ErrContractWire;;
  Ok ({[ac_ObjectID a]} ∪ seen, w |> Writer.Fixed (ac_ObjectID a) |> Writer.Bool (ac_Write a)).

Definition Call_MarshalBinary (c : Call) : res bytes :=
  fail_if (IsZero32 (cl_ContractObject c) || bool_decide (cl_Entrypoint c = []) || (128 <? blen (cl_Entrypoint c))
    || (MaxArgumentsBytes <? blen (cl_Arguments c)) || (cl_FuelLimit c =? 0)
    || (MaxAccesses <? blen (cl_Accesses c))) ErrContractWire;;
  let w := Writer.new |> Writer.Fixed (cl_ContractObject c) |> Writer.String (cl_Entrypoint c)
    |> Writer.Bytes (cl_Arguments c) |> Writer.U64 (cl_FuelLimit c)
    |> Writer.U32 (blen (cl_Accesses c) mod 2 ^ 32) in
  st ← rfold write_access (∅, w) (cl_Accesses c);
  Ok (Writer.BytesCopy st.2).

Definition read_access : parser Access :=
  id ← Rd.Fixed 32 <!> ErrContractWire;
  write ← Rd.Bool <!> ErrContractWire;
  mret (mkAccess id write).

Definition ParseCall (data : bytes) : res Call :=
  parse (contractObject ← Rd.Fixed 32 <!> ErrContractWire;
         entry ← Rd.String 128 <!> ErrContractWire;
         args ← Rd.Bytes MaxArgumentsBytes <!> ErrContractWire;
         fuel ← Rd.U64 <!> ErrContractWire;
         count ← Rd.U32 <!> ErrContractWire;
         plift (fail_if (MaxAccesses <? count) ErrContractWire);;
         accesses ← prepeat (Z.to_nat count) read_access;
         Rd.Done <!> ErrContractWire;;
         let call := mkCall contractObject entry args fuel accesses in
         plift (Call_MarshalBinary call);;
         mret call) data.

Definition ContractReceipt_MarshalBinary (r : ContractReceipt) : bytes :=
  Writer.BytesCopy (Writer.new |> Writer.Fixed (rc_ContractID r) |> Writer.U64 (rc_FuelUsed r)
    |> Writer.Fixed (rc_ReturnHash r) |> Writer.Fixed (rc_EventRoot r)).

(** ** The metering guard (metered.go) *)

Definition allow (allowed : gmap bytes bool) (a : Access) : res (gmap bytes bool) :=
  fail_if (IsZero32 (ac_ObjectID a)) ErrInvalidRequest;;
  fail_if (bool_decide (is_Some (allowed !! ac_ObjectID a))) ErrInvalidRequest;;
  Ok (<[ac_ObjectID a := ac_Write a]> allowed).

Section metered.
Context `{MapOrder}.

Definition validateRequest (request : Request) : res (gmap bytes bool) :=
  fail_if (IsZero32 (rq_ContractID request) || bool_decide (TrimSpace (rq_Entrypoint request) = [])
    || (128 <? blen (rq_Entrypoint request)) || (MaxModuleBytes <? blen (rq_Code request))
    || (MaxArgumentsBytes <? blen (rq_Arguments request)) || (rq_FuelLimit request =? 0)
    || (MaxAccesses <? blen (rq_Accesses request))) ErrInvalidRequest;;
  allowed ← rfold allow ∅ (rq_Accesses request);
  fail_if (existsb (fun '(id, _) => negb (bool_decide (is_Some (allowed !! id)))) (range_map (rq_ReadValues request)))
    ErrUndeclaredAccess;;
  Ok allowed.

Definition Metered_ValidateModule (m : MeteredRuntime) (code : bytes) : res unit :=
  match m with
  | None => Err ErrInvalidModule
  | Some inner => ValidateModule inner code
  end.

Definition Metered_Execute (m : MeteredRuntime) (request : Request) : res ContractResult :=
  match m with
  | None => Err ErrInvalidRequest
  | Some inner =>
      allowed ← validateRequest request;
      (if 0 <? blen (rq_Code request) then ValidateModule inner (rq_Code request) else Ok tt);;
      result ← RuntimeExecute inner request;
      fail_if (rq_FuelLimit request <? cx_FuelUsed result) ErrFuelExhausted;;
      fail_if ((MaxReturnBytes <? blen (cx_ReturnData result)) || (MaxEvents <? blen (cx_Events result)))
        Contracts_ErrInvalidResult;;
      fail_if (existsb (fun event => MaxEventBytes <? blen event) (cx_Events result)) Contracts_ErrInvalidResult;;
      fail_if (existsb (fun '(id, _) => negb (default false (allowed !! id))) (range_map (cx_Writes result)))
        ErrUndeclaredAccess;;
      Ok result
  end.
End metered.
