(* ===== verification/DeviceCredential.v ===== *)
(** * DeviceCredential

    Package [internal/v2/devicecredential]: the credential an account issues to
    a device, its registration, update and revocation payloads, and the
    challenge a device answers with its key. *)

From S2P Require Import Prelude GoLib Codec Crypto Types Object.

Open Scope Z_scope.

Module Device.

Definition Version : Z := 1.

(** [1 << iota] with [iota] starting at 1. *)
Definition CapabilityVerifyHeaders : Z := 2.
Definition CapabilityRelay : Z := 4.
Definition CapabilitySampleDA : Z := 8.
Definition CapabilityExecuteRecent : Z := 16.
Definition CapabilityServeCache : Z := 32.
Definition SupportedCapabilities : Z :=
  Z.lor (Z.lor (Z.lor (Z.lor CapabilityVerifyHeaders CapabilityRelay) CapabilitySampleDA) CapabilityExecuteRecent)
    CapabilityServeCache.
Definition ObjectIndex : Z := 0xD1000000.

Record Spec := mkSpec { s_DevicePublicKey : bytes; s_Capabilities : Z; s_ExpiresHeight : Z }.

Record Credential := mkCredential {
  c_Owner : bytes;
  c_DevicePublicKey : bytes;
  c_Capabilities : Z;
  c_IssuedHeight : Z;
  c_ExpiresHeight : Z;
  c_Sequence : Z;
}.

Record Update := mkUpdate { u_ObjectID : bytes; u_Spec : Spec }.
Record Ref := mkRef { r_ObjectID : bytes }.

(** [x &^ y] of Go. *)
Definition unsupported (capabilities : Z) : bool := negb (Z.ldiff capabilities SupportedCapabilities =? 0).

Section device.
Context `{Crypto}.

Definition validPublicKey (publicKey : bytes) : bool :=
  if negb (blen publicKey =? 65) then false
  else match p256_unmarshal publicKey with Some _ => true | None => false end.

Definition Spec_Validate (s : Spec) : res unit :=
  fail_if (negb (validPublicKey (s_DevicePublicKey s)) || (s_Capabilities s =? 0) || unsupported (s_Capabilities s))
    ErrCredential.

Definition Spec_MarshalBinary (s : Spec) : res bytes :=
  Spec_Validate s;;
  Ok (Writer.BytesCopy (Writer.new |> Writer.U16 Version |> Writer.Bytes (s_DevicePublicKey s)
    |> Writer.U32 (s_Capabilities s) |> Writer.U64 (s_ExpiresHeight s))).

Definition ParseSpec (data : bytes) : res Spec :=
  parse (version ← Rd.U16 <!> ErrCredential;
         plift (fail_if (negb (version =? Version)) ErrCredential);;
         key ← Rd.Bytes 65 <!> ErrCredential;
         capabilities ← Rd.U32 <!> ErrCredential;
         expires ← Rd.U64 <!> ErrCredential;
         Rd.Done <!> ErrCredential;;
         let out := mkSpec key capabilities expires in
         plift (Spec_Validate out);;
         mret out) data.

Definition Credential_Validate (c : Credential) : res unit :=
  fail_if (IsZero32 (c_Owner c) || (c_IssuedHeight c =? 0) || (c_Sequence c =? 0)
    || negb (validPublicKey (c_DevicePublicKey c)) || (c_Capabilities c =? 0) || unsupported (c_Capabilities c)
    || (negb (c_ExpiresHeight c =? 0) && (c_ExpiresHeight c <=? c_IssuedHeight c))) ErrCredential.

Definition ActiveAt (c : Credential) (height : Z) : bool :=
  if negb (is_ok (Credential_Validate c)) || (height <? c_IssuedHeight c) then false
  else (c_ExpiresHeight c =? 0) || (height <? c_ExpiresHeight c).

Definition HasCapability (c : Credential) (capability : Z) : bool :=
  negb (capability =? 0) && (Z.ldiff capability SupportedCapabilities =? 0)
  && (Z.land (c_Capabilities c) capability =? capability).

Definition Credential_MarshalBinary (c : Credential) : res bytes :=
  Credential_Validate c;;
  Ok (Writer.BytesCopy (Writer.new |> Writer.U16 Version |> Writer.Fixed (c_Owner c)
    |> Writer.Bytes (c_DevicePublicKey c) |> Writer.U32 (c_Capabilities c) |> Writer.U64 (c_IssuedHeight c)
    |> Writer.U64 (c_ExpiresHeight c) |> Writer.U64 (c_Sequence c))).

Definition ParseCredential (data : bytes) : res Credential :=
  parse (version ← Rd.U16 <!> ErrCredential;
         plift (fail_if (negb (version =? Version)) ErrCredential);;
         owner ← Rd.Fixed 32 <!> ErrCredential;
         key ← Rd.Bytes 65 <!> ErrCredential;
         capabilities ← Rd.U32 <!> ErrCredential;
         issued ← Rd.U64 <!> ErrCredential;
         expires ← Rd.U64 <!> ErrCredential;
         sequence ← Rd.U64 <!> ErrCredential;
         Rd.Done <!> ErrCredential;;
         let out := mkCredential owner key capabilities issued expires sequence in
         plift (Credential_Validate out);;
         mret out) data.

Definition Update_MarshalBinary (u : Update) : res bytes :=
  fail_if (IsZero32 (u_ObjectID u)) ErrCredential;;
  spec ← Spec_MarshalBinary (u_Spec u);
  Ok (Writer.BytesCopy (Writer.new |> Writer.U16 Version |> Writer.Fixed (u_ObjectID u) |> Writer.Bytes spec)).

Definition ParseUpdate (data : bytes) : res Update :=
  parse (version ← Rd.U16 <!> ErrCredential;
         plift (fail_if (negb (version =? Version)) ErrCredential);;
         id ← Rd.Fixed 32 <!> ErrCredential;
         specRaw ← Rd.Bytes 256 <!> ErrCredential;
         Rd.Done <!> ErrCredential;;
         spec ← plift (ParseSpec specRaw) <!> ErrCredential;
         plift (fail_if (IsZero32 id) ErrCredential);;
         mret (mkUpdate id spec)) data.

Definition Ref_MarshalBinary (r : Ref) : res bytes :=
  fail_if (IsZero32 (r_ObjectID r)) ErrCredential;;
  Ok (Writer.BytesCopy (Writer.new |> Writer.U16 Version |> Writer.Fixed (r_ObjectID r))).

Definition ParseRef (data : bytes) : res Ref :=
  parse (version ← Rd.U16 <!> ErrCredential;
         plift (fail_if (negb (version =? Version)) ErrCredential);;
         id ← Rd.Fixed 32 <!> ErrCredential;
         Rd.Done <!> ErrCredential;;
         plift (fail_if (IsZero32 id) ErrCredential);;
         mret (mkRef id)) data.

Definition ChallengeDigest (credentialObject : bytes) (sequence : Z) (challenge : bytes) : bytes :=
  DomainHash (str "zephyr/device-credential/challenge/v1")
    (Writer.BytesCopy (Writer.new |> Writer.Fixed credentialObject |> Writer.U64 sequence |> Writer.Bytes challenge)).

Definition VerifyChallenge (c : Credential) (credentialObject : bytes) (height : Z) (challenge signature : bytes) : res unit :=
  fail_if (negb (ActiveAt c height) || IsZero32 credentialObject || negb (blen signature =? 64)
    || (blen challenge =? 0)) ErrDeviceProof;;
  point ← some_or (p256_unmarshal (c_DevicePublicKey c)) ErrDeviceProof;
  let r := be_val (firstn 32 signature) in
  let s := be_val (skipn 32 signature) in
  fail_if ((r <=? 0) || (s <=? 0) || (P256.N <=? r) || (P256.N <=? s)) ErrDeviceProof;;
  fail_if (Z.shiftr P256.N 1 <? s) ErrDeviceProof;;
  let digest := ChallengeDigest credentialObject (c_Sequence c) challenge in
  fail_if (negb (ecdsa_verify point digest r s)) ErrDeviceProof.
End device.
End Device.
