(* ===== verification/Execution.v ===== *)
(** * Execution

    Package [internal/v2/execution], the core of the engine: results and their
    outputs, native-coin accounting shared by the operations, transfers and
    the token operations ([engine.go], [token_mutation.go],
    [coin_metadata.go]; [accountNativeValue], [witnessByID], [witnessByKind]
    of [extended_compute.go]; [feeOnlyOutputs] of [extended_contract.go]).

    A handler returns the result or the error of the Go code.  The order in
    which a handler visits a Go map is the parameter [MapOrder]. *)

From S2P Require Import Prelude GoLib Codec Crypto Types Object Assets Sharding Smt Tx Contracts.

Open Scope Z_scope.

Definition OpMintToken : Z := 14.
Definition OpBurnToken : Z := 15.
Definition tokenMintOutputIndex : Z := 0x81000000.

Record OutboundOutput := mkOutbound {
  ob_DestinationShard : Z;
  ob_OutputIndex : Z;
  ob_Output : OutputSpec;
}.

Record Result := mkResult {
  Consumed : list bytes;
  Created : list Object;
  Outbound : list OutboundOutput;
  TxID : bytes;
}.

Record Engine := mkEngine {
  Network : bytes;
  NativeToken : bytes;
  e_ShardCount : Z;
  Height : Z;
  ContractRuntimes : gmap bytes MeteredRuntime;
}.

#[global] Instance OutboundOutput_eq_dec : EqDecision OutboundOutput.
Proof. solve_decision. Defined.
#[global] Instance Result_eq_dec : EqDecision Result.
Proof. solve_decision. Defined.

Definition router (e : Engine) : Router := mkRouter (e_ShardCount e).

(** [witness.Object.Owner != t.Sender] and the like. *)
Definition not_eq (a b : bytes) : bool := negb (bool_decide (a = b)).

(** [next.Version++] *)
Definition bump (o : Object) (data : bytes) : Object :=
  mkObject (ID o) (add64 (Version o) 1) (Owner o) (Kind o) data.

(** [totals[token] += amount] with the overflow check of [add]. *)
Definition add (totals : gmap bytes Z) (token : bytes) (amount : Z) : res (gmap bytes Z) :=
  let current := mget totals token in
  fail_if (overflows current amount) ErrOverflow;;
  Ok (<[token := add64 current amount]> totals).

(** [if math.MaxUint64-total < amount { return err }; total += amount] *)
Definition add_or (err : error) (total amount : Z) : res Z :=
  fail_if (overflows total amount) err;;
  Ok (add64 total amount).

Definition stampCoinOutput (spec : OutputSpec) (height : Z) : res OutputSpec :=
  if negb (o_Kind spec =? KindCoin) then Ok spec
  else
    coin ← ParseCoin (o_Data spec);
    Ok (mkOutputSpec (o_Owner spec) (o_Kind spec) (Coin_MarshalBinary (mkCoin (Token coin) (Amount coin) height))).

Definition witnessByID (t : Transaction) (id : bytes) : option Witness :=
  snd <$> list_find (fun w => ID (w_Object w) = id) (t_Witnesses t).

(** [witnessByKind]: the witness of that kind, if there is exactly one. *)
Definition witnessByKind (t : Transaction) (kind : Z) : option Witness :=
  match List.filter (fun w => Kind (w_Object w) =? kind) (t_Witnesses t) with
  | [w] => Some w
  | _ => None
  end.

Section execution.
Context `{Crypto} `{MapOrder}.

(** An object created for output [index] of the transaction. *)
Definition output_object (t : Transaction) (index : Z) (spec : OutputSpec) : Object :=
  mkObject (ObjectIDForShard (tx_ID t) index (t_ShardID t)) 1 (o_Owner spec) (o_Kind spec) (o_Data spec).

(** Where an output goes: created on this shard, or sent to another. *)
Definition route (t : Transaction) (st : list Object * list OutboundOutput) (destination index : Z) (spec : OutputSpec)
    : list Object * list OutboundOutput :=
  if destination =? t_ShardID t then (st.1 ++ [output_object t index spec], st.2)
  else (st.1, st.2 ++ [mkOutbound destination index spec]).

(** ** Native value accounting *)

Definition account_input (e : Engine) (t : Transaction) (excluded : gset bytes) (st : Z * list bytes) (w : Witness)
    : res (Z * list bytes) :=
  let '(available, consumed) := st in
  if bool_decide (ID (w_Object w) ∈ excluded) then Ok st
  else
    fail_if (negb (Kind (w_Object w) =? KindCoin) || not_eq (Owner (w_Object w)) (t_Sender t)) ErrOwnership;;
    coin ← ParseCoin (Data (w_Object w)) <?> ErrConservation;
    fail_if (not_eq (Token coin) (NativeToken e) || overflows available (Amount coin)) ErrConservation;;
    Ok (add64 available (Amount coin), consumed ++ [ID (w_Object w)]).

Definition account_output (e : Engine) (t : Transaction) (i : Z) (st : Z * (list Object * list OutboundOutput))
    (spec : OutputSpec) : res (Z * (list Object * list OutboundOutput)) :=
  let '(required, outs) := st in
  fail_if (negb (o_Kind spec =? KindCoin)) ErrConservation;;
  coin ← ParseCoin (o_Data spec) <?> ErrConservation;
  fail_if (not_eq (Token coin) (NativeToken e) || overflows required (Amount coin)) ErrConservation;;
  destination ← ShardForAccount (router e) (o_Owner spec) <?> ErrShard;
  Ok (add64 required (Amount coin), route t outs destination (i mod 2 ^ 32) spec).

(** Native coins of the sender plus [internalIn] pay for the outputs, the fee
    and [internalOut].  Returns the created objects, the outbound outputs and
    the consumed coins. *)
Definition accountNativeValue (e : Engine) (t : Transaction) (excluded : gset bytes) (internalIn internalOut : Z)
    : res (list Object * list OutboundOutput * list bytes) :=
  inp ← rfold (account_input e t excluded) (internalIn, []) (t_Witnesses t);
  let '(available, consumed) := inp in
  out ← rfoldi 0 (account_output e t) (internalOut, ([], [])) (t_Outputs t);
  let '(required, (created, outbound)) := out in
  required ← add_or ErrOverflow required (t_Fee t);
  fail_if (negb (available =? required)) ErrConservation;;
  Ok (created, outbound, consumed).

Definition fee_input (e : Engine) (t : Transaction) (nonCoin : gset bytes) (st : Z * list bytes) (w : Witness)
    : res (Z * list bytes) :=
  let '(nativeIn, consumed) := st in
  if bool_decide (ID (w_Object w) ∈ nonCoin) then Ok st
  else
    fail_if (negb (Kind (w_Object w) =? KindCoin) || not_eq (Owner (w_Object w)) (t_Sender t)) ErrOwnership;;
    coin ← ParseCoin (Data (w_Object w)) <?> ErrConservation;
    fail_if (not_eq (Token coin) (NativeToken e)) ErrConservation;;
    nativeIn ← add_or ErrOverflow nativeIn (Amount coin);
    Ok (nativeIn, consumed ++ [ID (w_Object w)]).

Definition fee_output (e : Engine) (t : Transaction) (i : Z) (st : Z * list Object) (spec : OutputSpec)
    : res (Z * list Object) :=
  let '(nativeOut, created) := st in
  fail_if (negb (o_Kind spec =? KindCoin)) ErrConservation;;
  destination ← ShardForAccount (router e) (o_Owner spec) <?> ErrShard;
  fail_if (negb (destination =? t_ShardID t)) ErrShard;;
  coin ← ParseCoin (o_Data spec) <?> ErrConservation;
  fail_if (not_eq (Token coin) (NativeToken e)) ErrConservation;;
  nativeOut ← add_or ErrOverflow nativeOut (Amount coin);
  stamped ← stampCoinOutput spec (Height e);
  Ok (nativeOut, created ++ [output_object t (i mod 2 ^ 32) stamped]).

Definition feeOnlyOutputsExcluding (e : Engine) (t : Transaction) (contractObject : bytes) (accesses : list Access)
    : res (list Object * list bytes) :=
  let nonCoin : gset bytes :=
    (if IsZero32 contractObject then ∅ else {[contractObject]}) ∪ list_to_set (ac_ObjectID <$> accesses) in
  inp ← rfold (fee_input e t nonCoin) (0, []) (t_Witnesses t);
  let '(nativeIn, consumed) := inp in
  out ← rfoldi 0 (fee_output e t) (0, []) (t_Outputs t);
  let '(nativeOut, created) := out in
  fail_if (overflows nativeOut (t_Fee t) || negb (nativeIn =? add64 nativeOut (t_Fee t))) ErrConservation;;
  Ok (created, consumed).

Definition feeOnlyOutputs (e : Engine) (t : Transaction) : res (list Object * list bytes) :=
  feeOnlyOutputsExcluding e t zero32 [].

(** ** Transfers *)

Record TransferIn := mkTransferIn {
  ti_Totals : gmap bytes Z;
  ti_Definitions : gmap bytes TokenDefinition;
  ti_Consumed : list bytes;
}.

Definition transfer_input (e : Engine) (t : Transaction) (st : TransferIn) (w : Witness) : res TransferIn :=
  let obj := w_Object w in
  if Kind obj =? KindCoin then
    fail_if (not_eq (Owner obj) (t_Sender t)) ErrOwnership;;
    coin ← ParseCoin (Data obj);
    totals ← add (ti_Totals st) (Token coin) (Amount coin);
    Ok (mkTransferIn totals (ti_Definitions st) (ti_Consumed st ++ [ID obj]))
  else if Kind obj =? KindTokenDefinition then
    definition ← ParseDefinition (Data obj) <?> ErrTokenPolicy;
    fail_if (bool_decide (TokenID definition = NativeToken e)) ErrTokenPolicy;;
    fail_if (bool_decide (is_Some (ti_Definitions st !! TokenID definition))) ErrTokenPolicy;;
    Ok (mkTransferIn (ti_Totals st) (<[TokenID definition := definition]> (ti_Definitions st)) (ti_Consumed st))
  else Err ErrOwnership.

(** [definition, ok := definitions[token]; !ok || !definition.Transferable] *)
Definition not_transferable (definitions : gmap bytes TokenDefinition) (token : bytes) : bool :=
  match definitions !! token with
  | Some definition => negb (Transferable definition)
  | None => true
  end.

Definition transfer_output (e : Engine) (t : Transaction) (definitions : gmap bytes TokenDefinition) (i : Z)
    (st : gmap bytes Z * (list Object * list OutboundOutput)) (spec : OutputSpec)
    : res (gmap bytes Z * (list Object * list OutboundOutput)) :=
  let '(outputTotals, outs) := st in
  fail_if (negb (o_Kind spec =? KindCoin)) ErrConservation;;
  coin ← ParseCoin (o_Data spec);
  let foreign := not_eq (Token coin) (NativeToken e) in
  fail_if (foreign && not_transferable definitions (Token coin)) ErrTokenPolicy;;
  outputTotals ← add outputTotals (Token coin) (Amount coin);
  destination ← ShardForAccount (router e) (o_Owner spec) <?> ErrShard;
  fail_if (foreign && negb (destination =? t_ShardID t)) ErrTokenPolicy;;
  stamped ← stampCoinOutput spec (Height e);
  Ok (outputTotals, route t outs destination (i mod 2 ^ 32) stamped).

(** The final loop over the input totals; [delete(outputTotals, token)]. *)
Definition transfer_balance (e : Engine) (t : Transaction) (definitions : gmap bytes TokenDefinition)
    (outputTotals : gmap bytes Z) (entry : bytes * Z) : res (gmap bytes Z) :=
  let '(token, inAmount) := entry in
  let required := mget outputTotals token in
  required ← (if bool_decide (token = NativeToken e) then add_or ErrOverflow required (t_Fee t)
              else fail_if (not_transferable definitions token) ErrTokenPolicy;; Ok required);
  fail_if (negb (inAmount =? required)) ErrConservation;;
  Ok (delete token outputTotals).

Definition executeTransfer (e : Engine) (t : Transaction) : res Result :=
  inp ← rfold (transfer_input e t) (mkTransferIn ∅ ∅ []) (t_Witnesses t);
  out ← rfoldi 0 (transfer_output e t (ti_Definitions inp)) (∅, ([], [])) (t_Outputs t);
  let '(outputTotals, (created, outbound)) := out in
  left ← rfold (transfer_balance e t (ti_Definitions inp)) outputTotals (range_map (ti_Totals inp));
  fail_if (negb (bool_decide (left = ∅))) ErrConservation;;
  Ok (mkResult (ti_Consumed inp) created outbound (tx_ID t)).

(** ** Token operations *)

Definition create_input (e : Engine) (t : Transaction) (nativeIn : Z) (w : Witness) : res Z :=
  fail_if (not_eq (Owner (w_Object w)) (t_Sender t) || negb (Kind (w_Object w) =? KindCoin)) ErrOwnership;;
  coin ← ParseCoin (Data (w_Object w));
  fail_if (not_eq (Token coin) (NativeToken e)) ErrConservation;;
  add_or ErrOverflow nativeIn (Amount coin).

Definition create_output (e : Engine) (t : Transaction) (i : Z) (st : Z * (list Object * list OutboundOutput))
    (spec : OutputSpec) : res (Z * (list Object * list OutboundOutput)) :=
  let '(nativeOut, outs) := st in
  coin ← ParseCoin (o_Data spec) <?> ErrConservation;
  fail_if (negb (o_Kind spec =? KindCoin) || not_eq (Token coin) (NativeToken e)) ErrConservation;;
  nativeOut ← add_or ErrOverflow nativeOut (Amount coin);
  destination ← ShardForAccount (router e) (o_Owner spec) <?> ErrShard;
  stamped ← stampCoinOutput spec (Height e);
  Ok (nativeOut, route t outs destination (i mod 2 ^ 32) stamped).

Definition executeCreateToken (e : Engine) (t : Transaction) (payload : bytes) : res Result :=
  create ← ParseCreateToken payload;
  fail_if (not_eq (ct_MintAuthority create) (t_Sender t)) ErrOwnership;;
  nativeIn ← rfold (create_input e t) 0 (t_Witnesses t);
  out ← rfoldi 0 (create_output e t) (0, ([], [])) (t_Outputs t);
  let '(nativeOut, (created, outbound)) := out in
  fail_if (overflows nativeOut (t_Fee t) || negb (nativeIn =? add64 nativeOut (t_Fee t))) ErrConservation;;
  let txID := tx_ID t in
  let tokenID := TokenIDFromTransaction txID 0 in
  let definition := mkDefinition tokenID (ct_Name create) (ct_Symbol create) (ct_Decimals create)
    (ct_SupplyPolicy create) (ct_MaxSupply create) (ct_InitialSupply create) (ct_MintAuthority create)
    (ct_Burnable create) (ct_Transferable create) in
  defData ← Definition_MarshalBinary definition;
  let defObject := mkObject (ObjectIDForShard txID 0x80000000 (t_ShardID t)) 1 (t_Sender t) KindTokenDefinition defData in
  initialCoin ← NewCoinOutputAtHeight (t_Sender t) tokenID (ct_InitialSupply create) (Height e);
  let coinObject := output_object t 0x80000001 initialCoin in
  Ok (mkResult (in_ObjectID <$> t_Inputs t) (created ++ [defObject; coinObject]) outbound txID).

Definition tokenDefinitionWitness (t : Transaction) (id : bytes) : res (Object * TokenDefinition) :=
  match witnessByID t id with
  | None => Err ErrTokenPolicy
  | Some w =>
      fail_if (negb (Kind (w_Object w) =? KindTokenDefinition)) ErrTokenPolicy;;
      definition ← ParseDefinition (Data (w_Object w));
      Ok (w_Object w, definition)
  end.

Definition executeMintToken (e : Engine) (t : Transaction) (payload : bytes) : res Result :=
  request ← ParseMintToken payload;
  od ← tokenDefinitionWitness t (mt_DefinitionObject request) <?> ErrTokenPolicy;
  let '(definitionObject, definition) := od in
  fail_if (bool_decide (TokenID definition = NativeToken e) || not_eq (MintAuthority definition) (t_Sender t))
    ErrTokenPolicy;;
  next ← Mint definition (mt_Amount request) <?> ErrTokenPolicy;
  cc ← feeOnlyOutputsExcluding e t (mt_DefinitionObject request) [];
  let '(created, consumed) := cc in
  nextRaw ← Definition_MarshalBinary next;
  minted ← NewCoinOutputAtHeight (mt_Recipient request) (TokenID definition) (mt_Amount request) (Height e);
  destination ← ShardForAccount (router e) (mt_Recipient request) <?> ErrTokenPolicy;
  fail_if (negb (destination =? t_ShardID t)) ErrTokenPolicy;;
  Ok (mkResult (consumed ++ [ID definitionObject])
        (created ++ [bump definitionObject nextRaw; output_object t tokenMintOutputIndex minted]) [] (tx_ID t)).

Definition burn_input (e : Engine) (t : Transaction) (definitionObject token : bytes) (st : Z * Z * list bytes)
    (w : Witness) : res (Z * Z * list bytes) :=
  let '(nativeIn, tokenIn, consumed) := st in
  if bool_decide (ID (w_Object w) = definitionObject) then Ok st
  else
    fail_if (negb (Kind (w_Object w) =? KindCoin) || not_eq (Owner (w_Object w)) (t_Sender t)) ErrOwnership;;
    coin ← ParseCoin (Data (w_Object w));
    if bool_decide (Token coin = NativeToken e) then
      nativeIn ← add_or ErrOverflow nativeIn (Amount coin);
      Ok (nativeIn, tokenIn, consumed ++ [ID (w_Object w)])
    else if bool_decide (Token coin = token) then
      tokenIn ← add_or ErrOverflow tokenIn (Amount coin);
      Ok (nativeIn, tokenIn, consumed ++ [ID (w_Object w)])
    else Err ErrConservation.

Definition burn_output (e : Engine) (t : Transaction) (token : bytes) (i : Z) (st : Z * Z * list Object)
    (spec : OutputSpec) : res (Z * Z * list Object) :=
  let '(nativeOut, tokenOut, created) := st in
  fail_if (negb (o_Kind spec =? KindCoin)) ErrConservation;;
  destination ← ShardForAccount (router e) (o_Owner spec) <?> ErrShard;
  fail_if (negb (destination =? t_ShardID t)) ErrShard;;
  coin ← ParseCoin (o_Data spec);
  totals ← (if bool_decide (Token coin = NativeToken e) then
              nativeOut ← add_or ErrOverflow nativeOut (Amount coin);
              Ok (nativeOut, tokenOut)
            else if bool_decide (Token coin = token) then
              fail_if (not_eq (o_Owner spec) (t_Sender t) || overflows tokenOut (Amount coin)) ErrTokenPolicy;;
              Ok (nativeOut, add64 tokenOut (Amount coin))
            else Err ErrConservation);
  let '(nativeOut, tokenOut) := totals in
  stamped ← stampCoinOutput spec (Height e);
  Ok (nativeOut, tokenOut, created ++ [output_object t (i mod 2 ^ 32) stamped]).

Definition executeBurnToken (e : Engine) (t : Transaction) (payload : bytes) : res Result :=
  request ← ParseBurnToken payload;
  od ← tokenDefinitionWitness t (bt_DefinitionObject request) <?> ErrTokenPolicy;
  let '(definitionObject, definition) := od in
  fail_if (bool_decide (TokenID definition = NativeToken e) || negb (Burnable definition)) ErrTokenPolicy;;
  next ← Burn definition (bt_Amount request) <?> ErrTokenPolicy;
  inp ← rfold (burn_input e t (bt_DefinitionObject request) (TokenID definition)) (0, 0, []) (t_Witnesses t);
  let '(nativeIn, tokenIn, consumed) := inp in
  out ← rfoldi 0 (burn_output e t (TokenID definition)) (0, 0, []) (t_Outputs t);
  let '(nativeOut, tokenOut, created) := out in
  fail_if (overflows nativeOut (t_Fee t) || negb (nativeIn =? add64 nativeOut (t_Fee t))) ErrConservation;;
  fail_if (overflows tokenOut (bt_Amount request) || negb (tokenIn =? add64 tokenOut (bt_Amount request))) ErrConservation;;
  nextRaw ← Definition_MarshalBinary next;
  Ok (mkResult (consumed ++ [ID definitionObject]) (created ++ [bump definitionObject nextRaw]) [] (tx_ID t)).
End execution.
