(* ===== verification/ExecutionExtended.v ===== *)
(** * ExecutionExtended

    Package [internal/v2/execution], the operations beyond transfers and
    tokens: contracts ([extended_contract.go]), device credentials
    ([extended_devicecredential.go]), the compute market
    ([extended_compute.go]), loans within a shard ([extended_lending.go]) and
    across shards ([extended_cross_lending.go]), and the entry point
    [Engine.Execute] of [engine.go]. *)

From S2P Require Import Prelude GoLib Codec Crypto Types Merkle Object Assets Sharding Smt Tx Lending ComputeModel.
From S2P Require Import ComputeMarket Contracts DeviceCredential Execution.

Open Scope Z_scope.

Definition contractObjectIndex : Z := 0xA0000000.
Definition contractStateIndex : Z := 0xA0000001.
Definition contractReceiptIndex : Z := 0xA0000010.
Definition computeReceiptIndex : Z := 0xC0000000.

(** [count := e.ShardCount; if count == 0 { count = 1 }] *)
Definition shard_count (e : Engine) : Z := if e_ShardCount e =? 0 then 1 else e_ShardCount e.

Section contract_ops.
Context `{Crypto} `{MapOrder} `{ScriptHost}.

Definition contractRuntime (e : Engine) (name : bytes) : option MeteredRuntime :=
  match ContractRuntimes e !! name with
  | Some (Some inner) => Some (Some inner)
  | _ => if bool_decide (name = RuntimeZephyrScriptV1) then Some (Some ScriptRuntime) else None
  end.

Definition executeDeployContract (e : Engine) (t : Transaction) (payload : bytes) : res Result :=
  deployment ← ParseDeployment payload <?> ErrOwnership;
  fail_if (not_eq (d_UpgradeAuthority deployment) (t_Sender t)) ErrOwnership;;
  runtime ← some_or (contractRuntime e (d_Runtime deployment)) ErrUnsupportedOperation;
  Metered_ValidateModule runtime (d_Code deployment);;
  cc ← feeOnlyOutputs e t;
  let '(created, consumed) := cc in
  let txID := tx_ID t in
  let contractID := ContractIDFromTransaction txID 0 in
  storedRaw ← StoredContract_MarshalBinary (mkStoredContract contractID deployment);
  let contract := mkObject (ObjectIDForShard txID contractObjectIndex (t_ShardID t)) 1 (t_Sender t) KindContract storedRaw in
  let state := if 0 <? blen (d_InitialState deployment)
    then [mkObject (ObjectIDForShard txID contractStateIndex (t_ShardID t)) 1 (t_Sender t) KindContractState
            (d_InitialState deployment)]
    else [] in
  Ok (mkResult consumed (created ++ [contract] ++ state) [] txID).

Definition witness_map (t : Transaction) : gmap bytes Witness :=
  foldl (fun m w => <[ID (w_Object w) := w]> m) ∅ (t_Witnesses t).

Definition read_state (witnesses : gmap bytes Witness) (values : gmap bytes bytes) (access : Access)
    : res (gmap bytes bytes) :=
  witness ← some_or (witnesses !! ac_ObjectID access) ErrOwnership;
  fail_if (negb (Kind (w_Object witness) =? KindContractState)) ErrOwnership;;
  Ok (<[ac_ObjectID access := Data (w_Object witness)]> values).

(** [witness := witnesses[id]] is the zero witness when [id] is absent. *)
Definition zero_object : Object := mkObject zero32 0 zero32 0 [].

Definition update_state (witnesses : gmap bytes Witness) (write : bytes * bytes) : Object :=
  bump (default zero_object (w_Object <$> witnesses !! write.1)) write.2.

Definition executeContractCall (e : Engine) (t : Transaction) (payload : bytes) : res Result :=
  call ← ParseCall payload;
  let witnesses := witness_map t in
  contractWitness ← some_or (witnesses !! cl_ContractObject call) ErrOwnership;
  fail_if (negb (Kind (w_Object contractWitness) =? KindContract)) ErrOwnership;;
  stored ← ParseStoredContract (Data (w_Object contractWitness));
  runtime ← some_or (contractRuntime e (d_Runtime (sc_Deployment stored))) ErrUnsupportedOperation;
  readValues ← rfold (read_state witnesses) ∅ (cl_Accesses call);
  result ← Metered_Execute runtime (mkRequest (sc_ID stored) (d_Runtime (sc_Deployment stored))
    (d_Code (sc_Deployment stored)) (cl_Entrypoint call) (cl_Arguments call) (cl_Accesses call) readValues
    (cl_FuelLimit call));
  cc ← feeOnlyOutputsExcluding e t (cl_ContractObject call) (cl_Accesses call);
  let '(created, consumed) := cc in
  let writes := range_map (cx_Writes result) in
  let updated := update_state witnesses <$> writes in
  let eventRoot := Merkle.Root (Leaf (str "contract-event") <$> cx_Events result) in
  let receipt := mkContractReceipt (sc_ID stored) (cx_FuelUsed result)
    (DomainHash (str "zephyr/contract-return/v2") (cx_ReturnData result)) eventRoot in
  let receiptObject := mkObject (ObjectIDForShard (tx_ID t) contractReceiptIndex (t_ShardID t)) 1 (t_Sender t)
    KindSystem (ContractReceipt_MarshalBinary receipt) in
  Ok (mkResult (consumed ++ writes.*1) (created ++ updated ++ [receiptObject]) [] (tx_ID t)).

(** ** Device credentials *)

Definition deviceOwnerOnShard (e : Engine) (owner : bytes) (shard : Z) : bool :=
  AccountShard owner (shard_count e) =? shard.

Definition executeDeviceCredentialRegister (e : Engine) (t : Transaction) (payload : bytes) : res Result :=
  fail_if ((Height e =? 0) || negb (deviceOwnerOnShard e (t_Sender t) (t_ShardID t))) ErrCredential;;
  spec ← Device.ParseSpec payload <?> ErrCredential;
  fail_if (negb (Device.s_ExpiresHeight spec =? 0) && (Device.s_ExpiresHeight spec <=? Height e)) ErrCredential;;
  cc ← feeOnlyOutputs e t;
  let '(created, consumed) := cc in
  raw ← Device.Credential_MarshalBinary (Device.mkCredential (t_Sender t) (Device.s_DevicePublicKey spec)
    (Device.s_Capabilities spec) (Height e) (Device.s_ExpiresHeight spec) 1);
  let obj := mkObject (ObjectIDForShard (tx_ID t) Device.ObjectIndex (t_ShardID t)) 1 (t_Sender t)
    KindDeviceCredential raw in
  Ok (mkResult consumed (created ++ [obj]) [] (tx_ID t)).

(** The credential a payload refers to: a witness of the right kind, owned by
    the sender, that parses and names the sender. *)
Definition credential_witness (t : Transaction) (id : bytes) : res (Object * Device.Credential) :=
  witness ← some_or (witnessByID t id) ErrCredential;
  fail_if (negb (Kind (w_Object witness) =? KindDeviceCredential) || not_eq (Owner (w_Object witness)) (t_Sender t))
    ErrCredential;;
  current ← Device.ParseCredential (Data (w_Object witness)) <?> ErrCredential;
  fail_if (not_eq (Device.c_Owner current) (t_Sender t)) ErrCredential;;
  Ok (w_Object witness, current).

Definition executeDeviceCredentialUpdate (e : Engine) (t : Transaction) (payload : bytes) : res Result :=
  fail_if ((Height e =? 0) || negb (deviceOwnerOnShard e (t_Sender t) (t_ShardID t))) ErrCredential;;
  update ← Device.ParseUpdate payload <?> ErrCredential;
  let spec := Device.u_Spec update in
  fail_if (negb (Device.s_ExpiresHeight spec =? 0) && (Device.s_ExpiresHeight spec <=? Height e)) ErrCredential;;
  wc ← credential_witness t (Device.u_ObjectID update);
  let '(obj, current) := wc in
  fail_if (Device.c_Sequence current =? MaxUint64) ErrCredential;;
  cc ← feeOnlyOutputsExcluding e t (ID obj) [];
  let '(created, consumed) := cc in
  raw ← Device.Credential_MarshalBinary (Device.mkCredential (t_Sender t) (Device.s_DevicePublicKey spec)
    (Device.s_Capabilities spec) (Height e) (Device.s_ExpiresHeight spec) (add64 (Device.c_Sequence current) 1));
  Ok (mkResult (consumed ++ [ID obj]) (created ++ [bump obj raw]) [] (tx_ID t)).

Definition executeDeviceCredentialRevoke (e : Engine) (t : Transaction) (payload : bytes) : res Result :=
  ref ← Device.ParseRef payload <?> ErrCredential;
  fail_if (negb (deviceOwnerOnShard e (t_Sender t) (t_ShardID t))) ErrCredential;;
  wc ← credential_witness t (Device.r_ObjectID ref);
  let '(obj, _) := wc in
  cc ← feeOnlyOutputsExcluding e t (ID obj) [];
  let '(created, consumed) := cc in
  Ok (mkResult (consumed ++ [ID obj]) created [] (tx_ID t)).

Definition executeDeviceCredential (e : Engine) (t : Transaction) (op : Operation) : res Result :=
  if op_Kind op =? OpDeviceCredentialRegister then executeDeviceCredentialRegister e t (op_Payload op)
  else if op_Kind op =? OpDeviceCredentialUpdate then executeDeviceCredentialUpdate e t (op_Payload op)
  else if op_Kind op =? OpDeviceCredentialRevoke then executeDeviceCredentialRevoke e t (op_Payload op)
  else Err ErrUnsupportedOperation.
End contract_ops.

(** ** Loans within a shard *)

Definition requireLendingChangeOnly (t : Transaction) : res unit :=
  fail_if (existsb (fun o => not_eq (o_Owner o) (t_Sender t) || negb (o_Kind o =? KindCoin)) (t_Outputs t)) ErrLendingState.

Definition requireLendingSameShard (e : Engine) (terms : Terms) : res unit :=
  let r := mkRouter (shard_count e) in
  lenderShard ← ShardForAccount r (Lender terms) <?> ErrShard;
  borrowerShard ← ShardForAccount r (Borrower terms) <?> ErrShard;
  fail_if (negb (lenderShard =? borrowerShard)) ErrShard.

Definition addLendingValue (a b : Z) : res Z := add_or ErrOverflow a b.

Section lending_ops.
Context `{Crypto} `{MapOrder}.

Definition lendingPayout (e : Engine) (t : Transaction) (owner : bytes) (amount index : Z) : res Object :=
  fail_if (amount =? 0) ErrLendingState;;
  fail_if (negb (AccountShard owner (shard_count e) =? t_ShardID t)) ErrShard;;
  spec ← NewCoinOutputAtHeight owner (NativeToken e) amount (Height e);
  Ok (mkObject (ObjectIDForShard (tx_ID t) index (t_ShardID t)) 1 owner KindCoin (o_Data spec)).

(** [if amount > 0 { ... append(created, payout) }] *)
Definition optional_payout (e : Engine) (t : Transaction) (owner : bytes) (amount index : Z) : res (list Object) :=
  if 0 <? amount then (fun o => [o]) <$> lendingPayout e t owner amount index else Ok [].

Definition executeLoanOffer (e : Engine) (t : Transaction) (payload : bytes) : res Result :=
  terms ← ParseTerms payload <?> ErrLendingState;
  fail_if (not_eq (Lender terms) (t_Sender t)) ErrLendingState;;
  fail_if ((0 <? Height e) && (MaturityHeight terms <=? Height e)) ErrLendingState;;
  requireLendingSameShard e terms;;
  requireLendingChangeOnly t;;
  acc ← accountNativeValue e t ∅ 0 (Principal terms);
  let '(created, outbound, consumed) := acc in
  raw ← Terms_MarshalBinary terms;
  let offer := mkObject (ObjectIDForShard (tx_ID t) OfferObjectIndex (t_ShardID t)) 1 (Lender terms) KindLoanOffer raw in
  Ok (mkResult consumed (created ++ [offer]) outbound (tx_ID t)).

Definition executeLoanCancel (e : Engine) (t : Transaction) (payload : bytes) : res Result :=
  ref ← ParseRef payload;
  w ← some_or (witnessByID t (r_ObjectID ref)) ErrLendingState;
  let offer := w_Object w in
  fail_if (negb (Kind offer =? KindLoanOffer) || not_eq (Owner offer) (t_Sender t)) ErrLendingState;;
  terms ← ParseTerms (Data offer) <?> ErrLendingState;
  fail_if (not_eq (Lender terms) (t_Sender t)) ErrLendingState;;
  requireLendingChangeOnly t;;
  acc ← accountNativeValue e t {[ID offer]} (Principal terms) (Principal terms);
  let '(created, outbound, consumed) := acc in
  payout ← lendingPayout e t (Lender terms) (Principal terms) PayoutObjectIndex;
  Ok (mkResult (consumed ++ [ID offer]) (created ++ [payout]) outbound (tx_ID t)).

Definition executeLoanAccept (e : Engine) (t : Transaction) (payload : bytes) : res Result :=
  fail_if (Height e =? 0) ErrLendingState;;
  ref ← ParseRef payload;
  w ← some_or (witnessByID t (r_ObjectID ref)) ErrLendingState;
  let offer := w_Object w in
  fail_if (negb (Kind offer =? KindLoanOffer)) ErrLendingState;;
  terms ← ParseTerms (Data offer) <?> ErrLendingState;
  fail_if (not_eq (Borrower terms) (t_Sender t) || not_eq (Owner offer) (Lender terms)
    || (MaturityHeight terms <=? Height e)) ErrLendingState;;
  requireLendingSameShard e terms;;
  requireLendingChangeOnly t;;
  locked ← addLendingValue (Principal terms) (Collateral terms);
  acc ← accountNativeValue e t {[ID offer]} (Principal terms) locked;
  let '(created, outbound, consumed) := acc in
  principal ← lendingPayout e t (Borrower terms) (Principal terms) PayoutObjectIndex;
  raw ← Loan_MarshalBinary (mkLoan (ID offer) terms (Height e));
  let loan := mkObject (ObjectIDForShard (tx_ID t) LoanObjectIndex (t_ShardID t)) 1 (Borrower terms) KindLoan raw in
  Ok (mkResult (consumed ++ [ID offer]) (created ++ [principal; loan]) outbound (tx_ID t)).

Definition executeLoanRepay (e : Engine) (t : Transaction) (payload : bytes) : res Result :=
  ref ← ParseRef payload;
  w ← some_or (witnessByID t (r_ObjectID ref)) ErrLendingState;
  let obj := w_Object w in
  fail_if (negb (Kind obj =? KindLoan) || not_eq (Owner obj) (t_Sender t)) ErrLendingState;;
  loan ← ParseLoan (Data obj) <?> ErrLendingState;
  let terms := l_Terms loan in
  fail_if (not_eq (Borrower terms) (t_Sender t)) ErrLendingState;;
  requireLendingChangeOnly t;;
  due ← RepaymentDue terms;
  settlement ← addLendingValue due (Collateral terms);
  acc ← accountNativeValue e t {[ID obj]} (Collateral terms) settlement;
  let '(created, outbound, consumed) := acc in
  lenderPayout ← lendingPayout e t (Lender terms) due PayoutObjectIndex;
  collateral ← optional_payout e t (Borrower terms) (Collateral terms) (PayoutObjectIndex + 1);
  Ok (mkResult (consumed ++ [ID obj]) (created ++ [lenderPayout] ++ collateral) outbound (tx_ID t)).

Definition executeLoanDefault (e : Engine) (t : Transaction) (payload : bytes) : res Result :=
  fail_if (Height e =? 0) ErrLendingState;;
  ref ← ParseRef payload;
  w ← some_or (witnessByID t (r_ObjectID ref)) ErrLendingState;
  let obj := w_Object w in
  fail_if (negb (Kind obj =? KindLoan)) ErrLendingState;;
  loan ← ParseLoan (Data obj) <?> ErrLendingState;
  let terms := l_Terms loan in
  fail_if (not_eq (Lender terms) (t_Sender t) || (Height e <=? MaturityHeight terms)) ErrLendingState;;
  requireLendingChangeOnly t;;
  acc ← accountNativeValue e t {[ID obj]} (Collateral terms) (Collateral terms);
  let '(created, outbound, consumed) := acc in
  collateral ← optional_payout e t (Lender terms) (Collateral terms) PayoutObjectIndex;
  Ok (mkResult (consumed ++ [ID obj]) (created ++ collateral) outbound (tx_ID t)).

Definition executeLending (e : Engine) (t : Transaction) (op : Operation) : res Result :=
  if op_Kind op =? OpLoanOffer then executeLoanOffer e t (op_Payload op)
  else if op_Kind op =? OpLoanCancel then executeLoanCancel e t (op_Payload op)
  else if op_Kind op =? OpLoanAccept then executeLoanAccept e t (op_Payload op)
  else if op_Kind op =? OpLoanRepay then executeLoanRepay e t (op_Payload op)
  else if op_Kind op =? OpLoanDefault then executeLoanDefault e t (op_Payload op)
  else Err ErrUnsupportedOperation.

(** ** Loans across shards *)

Definition crossLendingShards (e : Engine) (terms : Terms) : res (Z * Z) :=
  fail_if (e_ShardCount e <? 2) ErrShard;;
  let lenderShard := AccountShard (Lender terms) (e_ShardCount e) in
  let borrowerShard := AccountShard (Borrower terms) (e_ShardCount e) in
  fail_if (lenderShard =? borrowerShard) ErrShard;;
  Ok (lenderShard, borrowerShard).

(** [MaturityHeight > math.MaxUint64-CrossShardSettlementGraceBlocks] *)
Definition no_grace (terms : Terms) : bool := MaxUint64 - CrossShardSettlementGraceBlocks <? MaturityHeight terms.
(** [e.Height <= MaturityHeight+CrossShardSettlementGraceBlocks] *)
Definition within_grace (e : Engine) (terms : Terms) : bool :=
  Height e <=? add64 (MaturityHeight terms) CrossShardSettlementGraceBlocks.

Definition executeCrossLoanOffer (e : Engine) (t : Transaction) (payload : bytes) : res Result :=
  fail_if (Height e =? 0) ErrLendingState;;
  terms ← ParseTerms payload <?> ErrLendingState;
  fail_if (not_eq (Lender terms) (t_Sender t) || (MaturityHeight terms <=? Height e) || no_grace terms) ErrLendingState;;
  shards ← crossLendingShards e terms <?> ErrShard;
  let '(lenderShard, borrowerShard) := shards in
  fail_if (negb (lenderShard =? t_ShardID t) || (lenderShard =? borrowerShard)) ErrShard;;
  requireLendingChangeOnly t;;
  acc ← accountNativeValue e t ∅ 0 (Principal terms);
  let '(created, outbound, consumed) := acc in
  let offerID := ObjectIDForShard (tx_ID t) CrossOfferMessageIndex borrowerShard in
  raw ← CrossOffer_MarshalBinary (mkCrossOffer offerID lenderShard borrowerShard (Height e) terms);
  let message := mkOutbound borrowerShard CrossOfferMessageIndex (mkOutputSpec (Borrower terms) KindCrossLoanOffer raw) in
  Ok (mkResult consumed created (outbound ++ [message]) (tx_ID t)).

Definition executeCrossLoanAccept (e : Engine) (t : Transaction) (payload : bytes) : res Result :=
  fail_if (Height e =? 0) ErrLendingState;;
  ref ← ParseRef payload;
  w ← some_or (witnessByID t (r_ObjectID ref)) ErrLendingState;
  let obj := w_Object w in
  fail_if (negb (Kind obj =? KindCrossLoanOffer) || not_eq (Owner obj) (t_Sender t)) ErrLendingState;;
  offer ← ParseCrossOffer (Data obj) <?> ErrLendingState;
  let terms := co_Terms offer in
  fail_if (not_eq (co_OfferObject offer) (ID obj) || not_eq (Borrower terms) (t_Sender t)
    || (MaturityHeight terms <=? Height e)) ErrLendingState;;
  shards ← crossLendingShards e terms <?> ErrShard;
  let '(lenderShard, borrowerShard) := shards in
  fail_if (negb (lenderShard =? co_LenderShard offer) || negb (borrowerShard =? co_BorrowerShard offer)
    || negb (borrowerShard =? t_ShardID t) || (lenderShard =? borrowerShard)) ErrShard;;
  requireLendingChangeOnly t;;
  internalOut ← addLendingValue (Principal terms) (Collateral terms);
  acc ← accountNativeValue e t {[ID obj]} (Principal terms) internalOut;
  let '(created, outbound, consumed) := acc in
  let txID := tx_ID t in
  let activationID := ObjectIDForShard txID CrossActivationObjectIndex borrowerShard in
  let acceptanceID := ObjectIDForShard txID CrossAcceptanceMessageIndex lenderShard in
  acceptanceRaw ← CrossAcceptance_MarshalBinary
    (mkCrossAcceptance (co_OfferObject offer) activationID lenderShard borrowerShard (Height e) terms);
  activationRaw ← CrossActivation_MarshalBinary
    (mkCrossActivation acceptanceID lenderShard borrowerShard (Height e) terms);
  principal ← lendingPayout e t (Borrower terms) (Principal terms) CrossPrincipalObjectIndex;
  let activation := mkObject activationID 1 (Borrower terms) KindCrossLoanActivation activationRaw in
  let message := mkOutbound lenderShard CrossAcceptanceMessageIndex
    (mkOutputSpec (Lender terms) KindCrossLoanAcceptance acceptanceRaw) in
  Ok (mkResult (consumed ++ [ID obj]) (created ++ [principal; activation]) (outbound ++ [message]) txID).

Definition executeCrossLoanRepay (e : Engine) (t : Transaction) (payload : bytes) : res Result :=
  fail_if (Height e =? 0) ErrLendingState;;
  ref ← ParseRef payload;
  w ← some_or (witnessByID t (r_ObjectID ref)) ErrLendingState;
  let obj := w_Object w in
  fail_if (negb (Kind obj =? KindCrossLoanActivation) || not_eq (Owner obj) (t_Sender t)) ErrLendingState;;
  activation ← ParseCrossActivation (Data obj) <?> ErrLendingState;
  let terms := cv_Terms activation in
  fail_if (not_eq (Borrower terms) (t_Sender t) || (MaturityHeight terms <? Height e)) ErrLendingState;;
  shards ← crossLendingShards e terms <?> ErrShard;
  let '(lenderShard, borrowerShard) := shards in
  fail_if (negb (lenderShard =? cv_LenderShard activation) || negb (borrowerShard =? cv_BorrowerShard activation)
    || negb (borrowerShard =? t_ShardID t) || (lenderShard =? borrowerShard)) ErrShard;;
  due ← RepaymentDue terms;
  requireLendingChangeOnly t;;
  acc ← accountNativeValue e t {[ID obj]} 0 due;
  let '(created, outbound, consumed) := acc in
  termsHash ← Terms_Hash terms;
  raw ← CrossRepayment_MarshalBinary (mkCrossRepayment (cv_AcceptanceObject activation) (ID obj) lenderShard
    borrowerShard due (Height e) termsHash);
  let message := mkOutbound lenderShard CrossRepaymentMessageIndex
    (mkOutputSpec (Lender terms) KindCrossLoanRepayment raw) in
  Ok (mkResult (consumed ++ [ID obj]) created (outbound ++ [message]) (tx_ID t)).

Definition executeCrossLoanSettle (e : Engine) (t : Transaction) : res Result :=
  acceptanceWitness ← some_or (witnessByKind t KindCrossLoanAcceptance) ErrLendingState;
  repaymentWitness ← some_or (witnessByKind t KindCrossLoanRepayment) ErrLendingState;
  let aobj := w_Object acceptanceWitness in
  let robj := w_Object repaymentWitness in
  acceptance ← ParseCrossAcceptance (Data aobj) <?> ErrLendingState;
  let terms := ca_Terms acceptance in
  fail_if (not_eq (Owner aobj) (Lender terms)) ErrLendingState;;
  repayment ← ParseCrossRepayment (Data robj) <?> ErrLendingState;
  fail_if (not_eq (Owner robj) (Lender terms)) ErrLendingState;;
  shards ← crossLendingShards e terms <?> ErrShard;
  let '(lenderShard, borrowerShard) := shards in
  fail_if (negb (lenderShard =? t_ShardID t) || negb (lenderShard =? ca_LenderShard acceptance)
    || negb (borrowerShard =? ca_BorrowerShard acceptance) || (lenderShard =? borrowerShard)) ErrShard;;
  due ← RepaymentDue terms;
  termsHash ← Terms_Hash terms;
  fail_if (not_eq (cr_AcceptanceObject repayment) (ID aobj)
    || not_eq (cr_ActivationObject repayment) (ca_ActivationObject acceptance)
    || negb (cr_LenderShard repayment =? lenderShard) || negb (cr_BorrowerShard repayment =? borrowerShard)
    || negb (cr_Amount repayment =? due) || (MaturityHeight terms <? cr_PaidHeight repayment)
    || not_eq (cr_TermsHash repayment) termsHash) ErrLendingState;;
  requireLendingChangeOnly t;;
  internal ← addLendingValue (Collateral terms) due;
  acc ← accountNativeValue e t {[ID aobj; ID robj]} internal internal;
  let '(created, outbound, consumed) := acc in
  lenderPayout ← lendingPayout e t (Lender terms) due PayoutObjectIndex;
  returned ← (if 0 <? Collateral terms then
                spec ← NewCoinOutputAtHeight (Borrower terms) (NativeToken e) (Collateral terms) (Height e);
                Ok [mkOutbound borrowerShard CrossCollateralReturnIndex spec]
              else Ok []);
  Ok (mkResult (consumed ++ [ID aobj; ID robj]) (created ++ [lenderPayout]) (outbound ++ returned) (tx_ID t)).

Definition executeCrossLoanDefault (e : Engine) (t : Transaction) (payload : bytes) : res Result :=
  ref ← ParseRef payload;
  w ← some_or (witnessByID t (r_ObjectID ref)) ErrLendingState;
  let obj := w_Object w in
  fail_if (negb (Kind obj =? KindCrossLoanAcceptance) || not_eq (Owner obj) (t_Sender t)) ErrLendingState;;
  acceptance ← ParseCrossAcceptance (Data obj) <?> ErrLendingState;
  let terms := ca_Terms acceptance in
  fail_if (not_eq (Lender terms) (t_Sender t) || no_grace terms || within_grace e terms) ErrLendingState;;
  shards ← crossLendingShards e terms <?> ErrShard;
  let '(lenderShard, borrowerShard) := shards in
  fail_if (negb (lenderShard =? t_ShardID t) || negb (lenderShard =? ca_LenderShard acceptance)
    || negb (borrowerShard =? ca_BorrowerShard acceptance)) ErrShard;;
  requireLendingChangeOnly t;;
  acc ← accountNativeValue e t {[ID obj]} (Collateral terms) (Collateral terms);
  let '(created, outbound, consumed) := acc in
  collateral ← optional_payout e t (Lender terms) (Collateral terms) PayoutObjectIndex;
  Ok (mkResult (consumed ++ [ID obj]) (created ++ collateral) outbound (tx_ID t)).

Definition executeCrossLoanExpire (e : Engine) (t : Transaction) (payload : bytes) : res Result :=
  ref ← ParseRef payload;
  w ← some_or (witnessByID t (r_ObjectID ref)) ErrLendingState;
  let obj := w_Object w in
  fail_if (negb (Kind obj =? KindCrossLoanOffer)) ErrLendingState;;
  offer ← ParseCrossOffer (Data obj) <?> ErrLendingState;
  let terms := co_Terms offer in
  fail_if (no_grace terms || within_grace e terms) ErrLendingState;;
  shards ← crossLendingShards e terms <?> ErrShard;
  let '(lenderShard, borrowerShard) := shards in
  fail_if (negb (borrowerShard =? t_ShardID t) || negb (lenderShard =? co_LenderShard offer)
    || negb (borrowerShard =? co_BorrowerShard offer)) ErrShard;;
  requireLendingChangeOnly t;;
  acc ← accountNativeValue e t {[ID obj]} (Principal terms) (Principal terms);
  let '(created, outbound, consumed) := acc in
  spec ← NewCoinOutputAtHeight (Lender terms) (NativeToken e) (Principal terms) (Height e);
  Ok (mkResult (consumed ++ [ID obj]) created
        (outbound ++ [mkOutbound lenderShard CrossPrincipalReturnIndex spec]) (tx_ID t)).

Definition executeCrossShardLending (e : Engine) (t : Transaction) (op : Operation) : res Result :=
  if op_Kind op =? OpCrossLoanOffer then executeCrossLoanOffer e t (op_Payload op)
  else if op_Kind op =? OpCrossLoanAccept then executeCrossLoanAccept e t (op_Payload op)
  else if op_Kind op =? OpCrossLoanRepay then executeCrossLoanRepay e t (op_Payload op)
  else if op_Kind op =? OpCrossLoanSettle then executeCrossLoanSettle e t
  else if op_Kind op =? OpCrossLoanDefault then executeCrossLoanDefault e t (op_Payload op)
  else if op_Kind op =? OpCrossLoanExpire then executeCrossLoanExpire e t (op_Payload op)
  else Err ErrUnsupportedOperation.
End lending_ops.

(** ** The compute market *)

(** [locked += CollateralRequired] once per assignment. *)
Definition jobLockedValue (record : OnChainJob) : res Z :=
  rfold (fun locked _ => add_or ErrOverflow locked (jb_CollateralRequired (oj_Job record)))
    (oj_Escrow record) (oj_Assignments record).

Definition mustOfferBytes (offer : Offer) : bytes := ok_or [] (Offer_MarshalBinary offer).

Section compute_ops.
Context `{Crypto} `{MapOrder}.

Definition executeComputeOffer (e : Engine) (t : Transaction) (payload : bytes) : res Result :=
  offer ← ParseOffer payload <?> ErrOwnership;
  fail_if (not_eq (of_Provider offer) (t_Sender t) || ((0 <? Height e) && (of_ValidUntilHeight offer <? Height e)))
    ErrOwnership;;
  acc ← accountNativeValue e t ∅ 0 (of_Collateral offer);
  let '(created, outbound, consumed) := acc in
  offerObject ← NewOfferObject (tx_ID t) (t_ShardID t) offer;
  Ok (mkResult consumed (created ++ [offerObject]) outbound (tx_ID t)).

Definition executeComputeJob (e : Engine) (t : Transaction) (payload : bytes) : res Result :=
  job ← ParseJob payload <?> ErrOwnership;
  fail_if (not_eq (jb_Owner job) (t_Sender t) || ((0 <? Height e) && (jb_DeadlineHeight job <=? Height e))) ErrOwnership;;
  acc ← accountNativeValue e t ∅ 0 (jb_MaxPrice job);
  let '(created, outbound, consumed) := acc in
  jo ← NewJobObject (tx_ID t) (t_ShardID t) job (jb_MaxPrice job);
  Ok (mkResult consumed (created ++ [jo.1]) outbound (tx_ID t)).

Definition executeComputeAccept (e : Engine) (t : Transaction) (payload : bytes) : res Result :=
  message ← ParseAssignmentMessage payload <?> ErrOwnership;
  fail_if (not_eq (of_Provider (am_Offer message)) (t_Sender t) || (e_ShardCount e <=? am_JobShard message)) ErrOwnership;;
  w ← some_or (witnessByKind t KindComputeOffer) ErrOwnership;
  let obj := w_Object w in
  fail_if (not_eq (Owner obj) (t_Sender t) || not_eq (ID obj) (am_OfferID message)
    || not_eq (Data obj) (mustOfferBytes (am_Offer message))) ErrOwnership;;
  acc ← accountNativeValue e t {[ID obj]} (of_Collateral (am_Offer message)) (jb_CollateralRequired (am_Job message));
  let '(created, outbound, consumed) := acc in
  spec ← AssignmentMessage_Output message;
  let '(created, outbound) := route t (created, outbound) (am_JobShard message) computeReceiptIndex spec in
  Ok (mkResult (consumed ++ [ID obj]) created outbound (tx_ID t)).

(** [spec, _ := message.Output()]: the zero specification on an error. *)
Definition executeComputeResult (e : Engine) (t : Transaction) (payload : bytes) : res Result :=
  message ← ParseResultMessage payload <?> ErrOwnership;
  fail_if (not_eq (rt_Provider (rm_Result message)) (t_Sender t) || (e_ShardCount e <=? rm_JobShard message)) ErrOwnership;;
  acc ← accountNativeValue e t ∅ 0 0;
  let '(created, outbound, consumed) := acc in
  let spec := ok_or (mkOutputSpec zero32 0 []) (ResultMessage_Output message) in
  let '(created, outbound) := route t (created, outbound) (rm_JobShard message) computeReceiptIndex spec in
  Ok (mkResult consumed created outbound (tx_ID t)).

(** The two witnesses an ingest refers to: a job and a message of kind [kind],
    both owned by the sender. *)
Definition ingest_witnesses (t : Transaction) (ref : IngestRef) (kind : Z) : res (Object * Object) :=
  jw ← some_or (witnessByID t (ir_JobObject ref)) ErrOwnership;
  fail_if (negb (Kind (w_Object jw) =? KindComputeJob) || not_eq (Owner (w_Object jw)) (t_Sender t)) ErrOwnership;;
  mw ← some_or (witnessByID t (ir_MessageObject ref)) ErrOwnership;
  fail_if (negb (Kind (w_Object mw) =? kind) || not_eq (Owner (w_Object mw)) (t_Sender t)) ErrOwnership;;
  Ok (w_Object jw, w_Object mw).

Definition executeComputeIngestAssignment (e : Engine) (t : Transaction) (payload : bytes) : res Result :=
  ref ← ParseIngestRef payload;
  ws ← ingest_witnesses t ref KindComputeAssignment;
  let '(jobObject, messageObject) := ws in
  record ← ParseOnChainJob (Data jobObject);
  message ← ParseAssignmentMessage (Data messageObject) <?> ErrComputeMessage;
  fail_if (negb (am_JobShard message =? t_ShardID t) || negb (is_ok (ValidateForRecord message record))) ErrComputeMessage;;
  assigned ← AssignOnChain record (am_OfferID message) (am_Offer message) (Height e);
  updatedRaw ← OnChainJob_MarshalBinary assigned.1.1;
  let collateral := jb_CollateralRequired (oj_Job record) in
  acc ← accountNativeValue e t {[ID jobObject; ID messageObject]} collateral collateral;
  let '(created, outbound, consumed) := acc in
  Ok (mkResult (consumed ++ [ID jobObject; ID messageObject]) (created ++ [bump jobObject updatedRaw]) outbound (tx_ID t)).

(** [updatedRaw, _ := updated.MarshalBinary()] *)
Definition executeComputeIngestResult (e : Engine) (t : Transaction) (payload : bytes) : res Result :=
  ref ← ParseIngestRef payload;
  ws ← ingest_witnesses t ref KindComputeResult;
  let '(jobObject, messageObject) := ws in
  record ← ParseOnChainJob (Data jobObject);
  message ← ParseResultMessage (Data messageObject) <?> ErrComputeMessage;
  fail_if (not_eq (rm_JobID message) (oj_ID record) || not_eq (rm_JobOwner message) (jb_Owner (oj_Job record))
    || negb (rm_JobShard message =? t_ShardID t)) ErrComputeMessage;;
  updated ← SubmitOnChainResult record (rm_Result message);
  let updatedRaw := ok_or [] (OnChainJob_MarshalBinary updated) in
  acc ← accountNativeValue e t {[ID jobObject; ID messageObject]} 0 0;
  let '(created, outbound, consumed) := acc in
  Ok (mkResult (consumed ++ [ID jobObject; ID messageObject]) (created ++ [bump jobObject updatedRaw]) outbound (tx_ID t)).

(** Payments, returned collateral and the owner's share, per account. *)
Definition settlement_amounts (record : OnChainJob) (settlement : OnChainSettlement) : res (gmap bytes Z) :=
  let amounts := madd_all ∅ (range_map (st_Payments (os_Settlement settlement))) in
  amounts ← rfold (fun amounts '(provider, value) =>
      fail_if (overflows (mget amounts provider) value) ErrOverflow;;
      Ok (madd64 amounts provider value)) amounts (range_map (CollateralReturns settlement));
  ownerAmount ← add_or ErrOverflow (st_Refund (os_Settlement settlement)) (SlashReward settlement);
  Ok (if 0 <? ownerAmount then madd64 amounts (jb_Owner (oj_Job record)) ownerAmount else amounts).

Definition settlement_output (e : Engine) (t : Transaction) (amounts : gmap bytes Z) (i : Z)
    (st : Z * (list Object * list OutboundOutput)) (id : bytes) : res (Z * (list Object * list OutboundOutput)) :=
  let '(total, outs) := st in
  let amount := mget amounts id in
  total ← add_or ErrOverflow total amount;
  spec ← NewCoinOutput id (NativeToken e) amount;
  destination ← ShardForAccount (router e) id <?> ErrShard;
  let index := add32 (add32 computeReceiptIndex 1) (i mod 2 ^ 32) in
  Ok (total, route t outs destination index spec).

Definition settlementOutputs (e : Engine) (t : Transaction) (record : OnChainJob) (settlement : OnChainSettlement)
    : res (list Object * list OutboundOutput * Z) :=
  amounts ← settlement_amounts record settlement;
  let ids := sort_by hex (range_map amounts).*1 in
  out ← rfoldi 0 (settlement_output e t amounts) (0, ([], [])) ids;
  let '(total, (created, outbound)) := out in
  Ok (created, outbound, total).

(** The job an operation refers to, with the checks both settlements share. *)
Definition job_witness (t : Transaction) (payload : bytes) : res Object :=
  ref ← ParseJobRef payload;
  w ← some_or (witnessByID t (jr_JobObject ref)) ErrOwnership;
  fail_if (negb (Kind (w_Object w) =? KindComputeJob) || not_eq (Owner (w_Object w)) (t_Sender t)) ErrOwnership;;
  Ok (w_Object w).

(** The tail both settlements share: outputs, conservation, receipt. *)
Definition settle (e : Engine) (t : Transaction) (jobObject : Object) (record : OnChainJob)
    (settlement : OnChainSettlement) (receipt : SettlementReceipt) : res Result :=
  locked ← jobLockedValue record;
  gen ← settlementOutputs e t record settlement <?> ErrMarketEscrow;
  let '(generated, generatedOutbound, generatedAmount) := gen in
  fail_if (negb (generatedAmount =? locked)) ErrMarketEscrow;;
  acc ← accountNativeValue e t {[ID jobObject]} locked generatedAmount;
  let '(created, outbound, consumed) := acc in
  let receiptObject := mkObject (ObjectIDForShard (tx_ID t) computeReceiptIndex (t_ShardID t)) 1 zero32 KindSystem
    (SettlementReceipt_MarshalBinary receipt) in
  Ok (mkResult (consumed ++ [ID jobObject]) (created ++ generated ++ [receiptObject])
        (outbound ++ generatedOutbound) (tx_ID t)).

Definition executeComputeFinalize (e : Engine) (t : Transaction) (payload : bytes) (majority : bool) : res Result :=
  jobObject ← job_witness t payload;
  record ← ParseOnChainJob (Data jobObject) <?> ErrOwnership;
  fail_if (not_eq (jb_Owner (oj_Job record)) (t_Sender t)) ErrOwnership;;
  settled ← (if majority then ResolveReplicatedMajority record
             else
               fail_if (negb (jb_Verification (oj_Job record) =? VerificationReplicated)) ErrMarketVerification;;
               FinalizeOnChain record no_evidence);
  let settlement := settled.2 in
  settle e t jobObject record settlement
    (mkSettlementReceipt (oj_ID record) (st_ResultRoot (os_Settlement settlement))
       (st_Payments (os_Settlement settlement)) (st_Refund (os_Settlement settlement))
       (SlashedCollateral settlement) (SlashReward settlement) false).

Definition executeComputeExpire (e : Engine) (t : Transaction) (payload : bytes) : res Result :=
  jobObject ← job_witness t payload;
  record ← ParseOnChainJob (Data jobObject);
  expired ← ExpireOnChain record (Height e);
  let '(_, refund, collateral) := expired in
  let settlement := mkOnChainSettlement (mkSettlement (oj_ID record) zero32 ∅ refund) collateral ∅ 0 in
  settle e t jobObject record settlement (mkSettlementReceipt (oj_ID record) zero32 ∅ refund ∅ 0 true).

Definition executeCompute (e : Engine) (t : Transaction) (op : Operation) : res Result :=
  if op_Kind op =? OpComputeOffer then executeComputeOffer e t (op_Payload op)
  else if op_Kind op =? OpComputeJob then executeComputeJob e t (op_Payload op)
  else if op_Kind op =? OpComputeAccept then executeComputeAccept e t (op_Payload op)
  else if op_Kind op =? OpComputeResult then executeComputeResult e t (op_Payload op)
  else if op_Kind op =? OpComputeIngestAssignment then executeComputeIngestAssignment e t (op_Payload op)
  else if op_Kind op =? OpComputeIngestResult then executeComputeIngestResult e t (op_Payload op)
  else if op_Kind op =? OpComputeFinalize then executeComputeFinalize e t (op_Payload op) false
  else if op_Kind op =? OpComputeResolveReplicated then executeComputeFinalize e t (op_Payload op) true
  else if op_Kind op =? OpComputeExpire then executeComputeExpire e t (op_Payload op)
  else Err ErrUnsupportedOperation.
End compute_ops.

(** ** The entry point (engine.go) *)

Section entry.
Context `{Crypto} `{MapOrder} `{ScriptHost}.

Definition is_one_of (kind : Z) (kinds : list Z) : bool := existsb (Z.eqb kind) kinds.

Definition executeExtended (e : Engine) (t : Transaction) (op : Operation) : res Result :=
  let kind := op_Kind op in
  if kind =? OpDeployContract then executeDeployContract e t (op_Payload op)
  else if kind =? OpContractCall then executeContractCall e t (op_Payload op)
  else if kind =? OpMintToken then executeMintToken e t (op_Payload op)
  else if kind =? OpBurnToken then executeBurnToken e t (op_Payload op)
  else if is_one_of kind [OpComputeOffer; OpComputeJob; OpComputeResult; OpComputeAccept; OpComputeIngestAssignment;
                          OpComputeIngestResult; OpComputeFinalize; OpComputeResolveReplicated; OpComputeExpire]
  then executeCompute e t op
  else if is_one_of kind [OpLoanOffer; OpLoanCancel; OpLoanAccept; OpLoanRepay; OpLoanDefault] then executeLending e t op
  else if is_one_of kind [OpDeviceCredentialRegister; OpDeviceCredentialUpdate; OpDeviceCredentialRevoke]
  then executeDeviceCredential e t op
  else if is_one_of kind [OpCrossLoanOffer; OpCrossLoanAccept; OpCrossLoanRepay; OpCrossLoanSettle; OpCrossLoanDefault;
                          OpCrossLoanExpire]
  then executeCrossShardLending e t op
  else Err ErrUnsupportedOperation.

(** [if e.ShardCount == 0 { e.ShardCount = 1 }] on the value receiver. *)
Definition with_shards (e : Engine) : Engine :=
  mkEngine (Network e) (NativeToken e) (shard_count e) (Height e) (ContractRuntimes e).

Definition on_shard (e : Engine) (t : Transaction) (_ : unit) (i : InputRef) : res unit :=
  inputShard ← ShardForObject (router e) (in_ObjectID i) <?> ErrShard;
  fail_if (negb (inputShard =? t_ShardID t)) ErrShard.

Definition Execute (e0 : Engine) (t : Transaction) : res Result :=
  VerifyForNetwork t (Network e0);;
  VerifyWitnesses t;;
  let e := with_shards e0 in
  senderShard ← ShardForAccount (router e) (t_Sender t) <?> ErrShard;
  fail_if (negb (t_ShardID t =? senderShard)) ErrShard;;
  rfold (on_shard e t) tt (t_Inputs t);;
  match t_Operations t with
  | [op] =>
      if op_Kind op =? OpTransfer then executeTransfer e t
      else if op_Kind op =? OpCreateToken then executeCreateToken e t (op_Payload op)
      else executeExtended e t op
  | _ => Err ErrUnsupportedOperation
  end.
End entry.
