(* ===== verification/ExecutionValue.v ===== *)
(** * ExecutionValue

    What the objects of the ledger are worth, and how the shared accounting
    routines of the engine move it.

    [weights] assign a weight to every token.  The measure of a coin is its
    amount times the weight of its token; a token definition counts its
    recorded supply negatively, so that for a token the measure of the whole
    state is "coins in circulation minus recorded supply"; every object that
    locks native coins (loans, offers, jobs, messages in flight) is worth the
    native weight of what it locks.  Weight 1 on the native token and 0
    elsewhere gives the native value, weight 1 on another token its
    circulation against its supply. *)

From S2P Require Import Prelude GoLib Codec Crypto Types Merkle Object Assets Sharding Smt Tx TxProofs Lending.
From S2P Require Import ComputeModel ComputeWire ComputeMarket ComputeProofs Contracts DeviceCredential Execution.
From S2P Require Import ExecutionExtended.

Open Scope Z_scope.

(** ** The measure *)

(** The native coins an object of a given kind locks. *)
Definition escrow (kind : Z) (data : bytes) : res Z :=
  if kind =? KindLoanOffer then Principal <$> ParseTerms data
  else if kind =? KindLoan then (fun l => Collateral (l_Terms l)) <$> ParseLoan data
  else if kind =? KindComputeOffer then of_Collateral <$> ParseOffer data
  else if kind =? KindComputeJob then
    (fun r => oj_Escrow r + blen (oj_Assignments r) * jb_CollateralRequired (oj_Job r)) <$> ParseOnChainJob data
  else if kind =? KindComputeAssignment then (fun m => jb_CollateralRequired (am_Job m)) <$> ParseAssignmentMessage data
  else if kind =? KindCrossLoanOffer then (fun m => Principal (co_Terms m)) <$> ParseCrossOffer data
  else if kind =? KindCrossLoanAcceptance then (fun m => Collateral (ca_Terms m)) <$> ParseCrossAcceptance data
  else if kind =? KindCrossLoanRepayment then cr_Amount <$> ParseCrossRepayment data
  else Ok 0.

Definition measure (native : bytes) (ω : bytes -> Z) (kind : Z) (data : bytes) : Z :=
  if kind =? KindCoin then ok_or 0 ((fun c => ω (Token c) * Amount c) <$> ParseCoin data)
  else if kind =? KindTokenDefinition then
    ok_or 0 ((fun d => if bool_decide (TokenID d = native) then 0 else - (ω (TokenID d) * CurrentSupply d))
               <$> ParseDefinition data)
  else ω native * ok_or 0 (escrow kind data).

Section value.
Context (native : bytes) (ω : bytes -> Z).
Abbreviation μ := (measure native ω).

Definition total (l : list Object) : Z := zsum ((fun o => μ (Kind o) (Data o)) <$> l).
Definition total_specs (l : list OutputSpec) : Z := zsum ((fun s => μ (o_Kind s) (o_Data s)) <$> l).
Definition total_out (l : list OutboundOutput) : Z := total_specs (ob_Output <$> l).

Lemma total_app l k : total (l ++ k) = total l + total k.
Proof. unfold total. by rewrite fmap_app, zsum_app. Qed.
Lemma total_cons o l : total (o :: l) = μ (Kind o) (Data o) + total l.
Proof. done. Qed.
Lemma total_nil : total [] = 0.
Proof. done. Qed.
Lemma total_specs_app l k : total_specs (l ++ k) = total_specs l + total_specs k.
Proof. unfold total_specs. by rewrite fmap_app, zsum_app. Qed.
Lemma total_out_app l k : total_out (l ++ k) = total_out l + total_out k.
Proof. unfold total_out. by rewrite fmap_app, total_specs_app. Qed.
#[global] Instance total_proper : Proper ((≡ₚ) ==> eq) total.
Proof. intros l k Hp. unfold total. by rewrite Hp. Qed.

Lemma measure_coin d c : ParseCoin d = Ok c -> μ KindCoin d = ω (Token c) * Amount c.
Proof. intros E. unfold measure. cbn. by rewrite E. Qed.
Lemma measure_definition d def :
  ParseDefinition d = Ok def -> TokenID def <> native -> μ KindTokenDefinition d = - (ω (TokenID def) * CurrentSupply def).
Proof.
  intros E Hn. unfold measure. cbn -[ParseDefinition]. rewrite E. cbn. by rewrite bool_decide_eq_false_2.
Qed.
Lemma measure_escrow kind d v :
  kind <> KindCoin -> kind <> KindTokenDefinition -> escrow kind d = Ok v -> μ kind d = ω native * v.
Proof.
  intros H1 H2 E. unfold measure. rewrite (proj2 (Z.eqb_neq _ _) H1), (proj2 (Z.eqb_neq _ _) H2), E. done.
Qed.

(** Stamping a coin with the height does not change its measure. *)
Lemma stamp_measure spec h s :
  u64 h -> stampCoinOutput spec h = Ok s ->
  o_Owner s = o_Owner spec /\ o_Kind s = o_Kind spec /\ μ (o_Kind s) (o_Data s) = μ (o_Kind spec) (o_Data spec).
Proof.
  unfold stampCoinOutput. intros Hh E. destruct (Z.eqb_spec (o_Kind spec) KindCoin) as [Ek|Ek]; cbn [negb] in E.
  - apply bind_Ok in E as (c & Hc & E). apply Ok_inj in E as <-. cbn [o_Owner o_Kind o_Data]. split_and!; [done|done|].
    rewrite Ek, (measure_coin _ _ Hc). apply ParseCoin_Ok in Hc as [[(Ht & Ha & _) [Hn Hz]] _].
    erewrite measure_coin; [|apply ParseCoin_MarshalBinary; by split_and!]. done.
  - by apply Ok_inj in E as <-.
Qed.

Section engine.
Context `{Crypto}.

Definition outs_total (st : list Object * list OutboundOutput) : Z := total st.1 + total_out st.2.

Lemma route_total t st d i spec : outs_total (route t st d i spec) = outs_total st + μ (o_Kind spec) (o_Data spec).
Proof.
  unfold route, outs_total. destruct (d =? t_ShardID t); cbn [fst snd].
  - rewrite total_app, total_cons, total_nil. cbn. lia.
  - rewrite total_out_app. unfold total_out at 2, total_specs. cbn. lia.
Qed.

(** ** Inputs of the accounting routines *)

Definition objs (t : Transaction) : list Object := w_Object <$> t_Witnesses t.

Definition native_coin (kind : Z) (data : bytes) : Prop :=
  kind = KindCoin /\ exists c, ParseCoin data = Ok c /\ Token c = native.

(** What the input loops leave of the witnesses outside [excluded]. *)
Definition coins_outside (excluded : gset bytes) (l : list Object) : list Object :=
  List.filter (fun o => negb (bool_decide (ID o ∈ excluded))) l.

Record spent_coins (e : Engine) (t : Transaction) (excluded : gset bytes) (l : list Object) (a0 a : Z) (c0 c : list bytes)
    : Prop := {
  sp_value : ω native * a0 + total (coins_outside excluded l) = ω native * a;
  sp_range : u64 a;
  sp_ids : c = c0 ++ (ID <$> coins_outside excluded l);
  sp_coins : Forall (fun o => native_coin (Kind o) (Data o) /\ Owner o = t_Sender t) (coins_outside excluded l);
}.

Lemma coins_outside_app X l k : coins_outside X (l ++ k) = coins_outside X l ++ coins_outside X k.
Proof. apply List.filter_app. Qed.

(** One coin more. *)
Lemma spent_coins_step e t X l a0 a c0 c o coin :
  NativeToken e = native ->
  spent_coins e t X l a0 a c0 c -> ID o ∉ X -> Kind o = KindCoin -> Owner o = t_Sender t ->
  ParseCoin (Data o) = Ok coin -> Token coin = native -> overflows a (Amount coin) = false ->
  spent_coins e t X (l ++ [o]) a0 (add64 a (Amount coin)) c0 (c ++ [ID o]).
Proof.
  intros He [Hv Hr Hi Hc] Hx Hk Ho Hp Ht Hov. pose proof (ParseCoin_Ok _ _ Hp) as [[(_ & Ha & _) _] _].
  destruct (add64_small a (Amount coin) Hr (proj1 Ha) Hov) as [Es Hu]. rewrite Es.
  assert (coins_outside X [o] = [o]) as E1.
  { unfold coins_outside. cbn. by rewrite bool_decide_eq_false_2. }
  constructor; rewrite ?coins_outside_app, ?E1.
  - rewrite total_app, total_cons, total_nil, Hk, (measure_coin _ _ Hp), Ht. lia.
  - done.
  - by rewrite Hi, fmap_app, app_assoc.
  - apply Forall_app. split; [done|]. apply Forall_singleton. split; [|done]. split; [done|eauto].
Qed.

Lemma spent_coins_skip e t X l a0 a c0 c o :
  spent_coins e t X l a0 a c0 c -> ID o ∈ X -> spent_coins e t X (l ++ [o]) a0 a c0 c.
Proof.
  intros [Hv Hr Hi Hc] Hx. assert (coins_outside X (l ++ [o]) = coins_outside X l) as E1.
  { rewrite coins_outside_app. unfold coins_outside at 2. cbn. rewrite bool_decide_eq_true_2 by done. apply app_nil_r. }
  by constructor; rewrite ?E1.
Qed.

Lemma spent_coins_nil e t X a0 c0 : u64 a0 -> spent_coins e t X [] a0 a0 c0 c0.
Proof. intros Ha. constructor; [unfold total; cbn; lia|done|by rewrite app_nil_r|constructor]. Qed.

Lemma account_inputs e t X i a c :
  NativeToken e = native -> u64 i ->
  rfold (account_input e t X) (i, []) (t_Witnesses t) = Ok (a, c) -> spent_coins e t X (objs t) i a [] c.
Proof.
  intros He Hi E.
  apply (rfold_inv (fun st l => spent_coins e t X (w_Object <$> l) i st.1 [] st.2) _ _ _ _ []) in E; [done| |].
  - by apply spent_coins_nil.
  - intros [a1 c1] [a2 c2] l w IH _ Hs. rewrite fmap_app. unfold account_input in Hs. cbn [fst snd] in *.
    case_bool_decide as Hx; [res_inv; by apply spent_coins_skip|]. res_inv.
    repeat match goal with H : _ || _ = false |- _ => apply orb_false_iff in H as [? ?] end.
    unfold not_eq in *. bool_inv. eapply spent_coins_step; eauto; first [congruence | by apply Z.eqb_eq].
Qed.

Lemma fee_inputs e t X a c :
  NativeToken e = native ->
  rfold (fee_input e t X) (0, []) (t_Witnesses t) = Ok (a, c) -> spent_coins e t X (objs t) 0 a [] c.
Proof.
  intros He E.
  apply (rfold_inv (fun st l => spent_coins e t X (w_Object <$> l) 0 st.1 [] st.2) _ _ _ _ []) in E; [done| |].
  - apply spent_coins_nil. by split.
  - intros [a1 c1] [a2 c2] l w IH _ Hs. rewrite fmap_app. unfold fee_input, add_or in Hs. cbn [fst snd] in *.
    case_bool_decide as Hx; [res_inv; by apply spent_coins_skip|]. res_inv.
    repeat match goal with H : _ || _ = false |- _ => apply orb_false_iff in H as [? ?] end.
    unfold not_eq in *. bool_inv. eapply spent_coins_step; eauto; first [congruence | by apply Z.eqb_eq].
Qed.

(** ** Outputs of the accounting routines *)

(** A native amount [a] was accumulated from [a0] for the objects worth [v]. *)
Definition accrued (a0 a v : Z) : Prop := ω native * a = ω native * a0 + v /\ u64 a.

Lemma accrued_step a0 a v d coin :
  accrued a0 a v -> ParseCoin d = Ok coin -> Token coin = native -> overflows a (Amount coin) = false ->
  accrued a0 (add64 a (Amount coin)) (v + μ KindCoin d).
Proof.
  intros [Hv Hr] Hp Ht Ho. pose proof (ParseCoin_Ok _ _ Hp) as [[(_ & Ha & _) _] _].
  destruct (add64_small a (Amount coin) Hr (proj1 Ha) Ho) as [Es Hu].
  unfold accrued. rewrite Es, (measure_coin _ _ Hp), Ht. split; [lia|done].
Qed.

Lemma account_outputs e t o r outs :
  NativeToken e = native -> u64 o ->
  rfoldi 0 (account_output e t) (o, ([], [])) (t_Outputs t) = Ok (r, outs) -> accrued o r (outs_total outs).
Proof.
  intros He Ho E.
  apply (rfoldi_inv (fun st _ => accrued o st.1 (outs_total st.2)) _ _ _ _ _ []) in E; [done|done| |].
  - split; [unfold outs_total, total, total_out, total_specs; cbn; lia|done].
  - intros [a1 o1] [a2 o2] l spec IH _ Hs. unfold account_output in Hs. cbn [fst snd] in *. res_inv. cbn [fst snd].
    unfold not_eq in *. bool_inv. rewrite route_total. assert (o_Kind spec = KindCoin) as -> by lia.
    eapply accrued_step; eauto. congruence.
Qed.

Lemma create_outputs e t r outs :
  NativeToken e = native -> u64 (Height e) ->
  rfoldi 0 (create_output e t) (0, ([], [])) (t_Outputs t) = Ok (r, outs) -> accrued 0 r (outs_total outs).
Proof.
  intros He Hh E.
  apply (rfoldi_inv (fun st _ => accrued 0 st.1 (outs_total st.2)) _ _ _ _ _ []) in E; [done|done| |].
  - split; [unfold outs_total, total, total_out, total_specs; cbn; lia|by split].
  - intros [a1 o1] [a2 o2] l spec IH _ Hs. unfold create_output, add_or in Hs. cbn [fst snd] in *. res_inv. cbn [fst snd].
    match goal with H : stampCoinOutput _ _ = _ |- _ => apply stamp_measure in H as (_ & _ & Hm); [|done] end.
    unfold not_eq in *. bool_inv. rewrite route_total, Hm. assert (o_Kind spec = KindCoin) as -> by lia.
    eapply accrued_step; eauto. congruence.
Qed.

Lemma fee_outputs e t r created :
  NativeToken e = native -> u64 (Height e) ->
  rfoldi 0 (fee_output e t) (0, []) (t_Outputs t) = Ok (r, created) -> accrued 0 r (total created).
Proof.
  intros He Hh E.
  apply (rfoldi_inv (fun st _ => accrued 0 st.1 (total st.2)) _ _ _ _ _ []) in E; [done|done| |].
  - split; [unfold total; cbn; lia|by split].
  - intros [a1 o1] [a2 o2] l spec IH _ Hs. unfold fee_output, add_or in Hs. cbn [fst snd] in *. res_inv. cbn [fst snd].
    match goal with H : stampCoinOutput _ _ = _ |- _ => apply stamp_measure in H as (_ & _ & Hm); [|done] end.
    unfold not_eq in *. bool_inv. rewrite total_app, total_cons, total_nil. cbn [output_object Kind Data].
    rewrite Hm. assert (o_Kind spec = KindCoin) as -> by lia. rewrite Z.add_0_r.
    eapply accrued_step; eauto. congruence.
Qed.

(** ** The accounting routines *)

Lemma accountNativeValue_conserves e t X i o created outbound consumed :
  NativeToken e = native -> u64 i -> u64 o -> u64 (t_Fee t) ->
  accountNativeValue e t X i o = Ok (created, outbound, consumed) ->
  consumed = ID <$> coins_outside X (objs t) /\
  Forall (fun o => Owner o = t_Sender t) (coins_outside X (objs t)) /\
  ω native * i + total (coins_outside X (objs t))
    = ω native * o + total created + total_out outbound + ω native * t_Fee t.
Proof.
  intros He Hi Ho Hf E. unfold accountNativeValue in E.
  apply bind_Ok in E as ([a c] & Ein & E). apply bind_Ok in E as ([r [cr ob]] & Eout & E).
  apply account_inputs in Ein as [Hv _ Hc Hown]; [|done..].
  apply account_outputs in Eout as [Hw Hr]; [|done..]. unfold add_or in E. res_inv.
  destruct (add64_small r (t_Fee t) Hr (proj1 Hf)) as [Es _]; [done|]. bool_inv.
  split; [done|]. split; [by eapply Forall_impl; [exact Hown|intros ? [_ ?]]|]. unfold outs_total in Hw. cbn [fst snd] in Hw.
  assert (a = r + t_Fee t) as -> by lia. lia.
Qed.

Definition fee_excluded (contractObject : bytes) (accesses : list Access) : gset bytes :=
  (if IsZero32 contractObject then ∅ else {[contractObject]}) ∪ list_to_set (ac_ObjectID <$> accesses).

Lemma feeOnly_conserves e t id acc created consumed :
  NativeToken e = native -> u64 (Height e) -> u64 (t_Fee t) ->
  feeOnlyOutputsExcluding e t id acc = Ok (created, consumed) ->
  consumed = ID <$> coins_outside (fee_excluded id acc) (objs t) /\
  Forall (fun o => Owner o = t_Sender t) (coins_outside (fee_excluded id acc) (objs t)) /\
  total (coins_outside (fee_excluded id acc) (objs t)) = total created + ω native * t_Fee t.
Proof.
  intros He Hh Hf E. unfold feeOnlyOutputsExcluding in E. cbv zeta in E. fold (fee_excluded id acc) in E.
  apply bind_Ok in E as ([a c] & Ein & E). apply bind_Ok in E as ([r cr] & Eout & E).
  apply fee_inputs in Ein as [Hv _ Hc Hown]; [|done..].
  apply fee_outputs in Eout as [Hw Hr]; [|done..]. res_inv. bool_inv.
  destruct (add64_small r (t_Fee t) Hr (proj1 Hf)) as [Es _]; [done|].
  split; [done|]. split; [by eapply Forall_impl; [exact Hown|intros ? [_ ?]]|].
  assert (a = r + t_Fee t) as -> by lia. lia.
Qed.
End engine.
End value.
