(* ===== verification/ExecutionLoans.v ===== *)
(** * ExecutionLoans

    Conservation of value for the operations that go through
    [accountNativeValue]: the shape all of them share, and its instances for
    loans within a shard and across shards. *)

From S2P Require Import Prelude GoLib Codec Crypto Types Merkle Object Assets Sharding Smt Tx TxProofs Lending.
From S2P Require Import ComputeModel ComputeWire ComputeMarket ComputeProofs Contracts DeviceCredential Execution.
From S2P Require Import ExecutionExtended ExecutionValue.

Open Scope Z_scope.

(** The ranges of the Go types an execution depends on. *)
Definition run_typed (e : Engine) (t : Transaction) : Prop :=
  arr32 (NativeToken e) /\ u64 (Height e) /\ u64 (t_Fee t) /\ u32 (e_ShardCount e).

(** A result is balanced when what it consumes is a selection of the witnesses
    worth what it creates and sends, plus the fee that is charged, and the
    coins among them belong to the sender. *)
Definition balanced (native : bytes) (ω : bytes -> Z) (t : Transaction) (r : Result) (charged : Z) : Prop :=
  exists spent, Consumed r = ID <$> spent /\ spent ⊆+ objs t /\
    Forall (fun o => Kind o = KindCoin -> Owner o = t_Sender t) spent /\
    total native ω spent = total native ω (Created r) + total_out native ω (Outbound r) + ω native * charged.

(** [special] are witnesses, none of them a coin, that the coin loops leave out. *)
Definition set_aside (t : Transaction) (X : gset bytes) (special : list Object) : Prop :=
  NoDup special /\ Forall (fun o => o ∈ objs t /\ ID o ∈ X /\ Kind o <> KindCoin) special.

Lemma filter_complement_perm {A} (f : A -> bool) l : List.filter f l ++ List.filter (fun a => negb (f a)) l ≡ₚ l.
Proof.
  induction l as [|a l IH]; [done|]. cbn [List.filter]. destruct (f a); cbn [negb]; [by rewrite <-app_comm_cons, IH|].
  by rewrite <-Permutation_middle, IH.
Qed.

Lemma set_aside_submseteq t X special : set_aside t X special -> coins_outside X (objs t) ++ special ⊆+ objs t.
Proof.
  intros [Hnd Hs]. rewrite Forall_forall in Hs. unfold coins_outside.
  rewrite <-(filter_complement_perm (fun o => negb (bool_decide (ID o ∈ X))) (objs t)) at 2.
  apply submseteq_app; [done|]. apply NoDup_submseteq; [done|]. intros o Ho. apply elem_of_List_filter.
  destruct (Hs o Ho) as (? & ? & _). split; [done|]. by rewrite bool_decide_eq_true_2.
Qed.

Lemma set_aside_owned t X special l :
  set_aside t X special -> Forall (fun o => Owner o = t_Sender t) l ->
  Forall (fun o => Kind o = KindCoin -> Owner o = t_Sender t) (l ++ special).
Proof.
  intros [_ Hs] Hl. apply Forall_app. split; (eapply Forall_impl; [eassumption|]); [by intros o ? _|].
  by intros o (_ & _ & ?) ?.
Qed.

Lemma set_aside_nil t : set_aside t ∅ [].
Proof. split; constructor. Qed.
Lemma set_aside_one t o k : o ∈ objs t -> Kind o = k -> k <> KindCoin -> set_aside t {[ID o]} [o].
Proof. intros Ho <- Hk. split; [apply NoDup_singleton|]. apply Forall_singleton. split_and!; [done|set_solver|done]. Qed.
Lemma set_aside_two t o1 o2 k1 k2 :
  o1 ∈ objs t -> o2 ∈ objs t -> Kind o1 = k1 -> Kind o2 = k2 -> k1 <> k2 ->
  k1 <> KindCoin -> k2 <> KindCoin -> set_aside t {[ID o1; ID o2]} [o1; o2].
Proof.
  intros H1 H2 K1 K2 Hk N1 N2. split; [apply NoDup_cons; split; [|apply NoDup_singleton]|].
  - intros E%list_elem_of_singleton. apply Hk. by rewrite <-K1, <-K2, E.
  - apply Forall_cons; split; [|apply Forall_singleton]; (split_and!; [done|set_solver|congruence]).
Qed.

Lemma witnessByID_Some t id w : witnessByID t id = Some w -> w_Object w ∈ objs t /\ ID (w_Object w) = id.
Proof.
  unfold witnessByID, objs. intros E. apply fmap_Some in E as ([i x] & E & ->). apply list_find_Some in E as (Hl & Hid & _).
  split; [|done]. cbn. apply list_elem_of_fmap_2. by eapply list_elem_of_lookup_2.
Qed.

Lemma witnessByKind_Some t k w : witnessByKind t k = Some w -> w_Object w ∈ objs t /\ Kind (w_Object w) = k.
Proof.
  unfold witnessByKind, objs. intros E.
  assert (w ∈ List.filter (fun w => Kind (w_Object w) =? k) (t_Witnesses t)) as Hw.
  { destruct (List.filter _ _) as [|x [|]]; try done. injection E as ->. left. }
  apply elem_of_List_filter in Hw as [Hw Hk%Z.eqb_eq]. split; [by apply list_elem_of_fmap_2|done].
Qed.

Lemma add_or_Ok err a b c : u64 a -> 0 <= b -> add_or err a b = Ok c -> c = a + b /\ u64 c.
Proof.
  unfold add_or. intros Ha Hb E. res_inv. destruct (add64_small a b Ha Hb) as [-> ?]; done.
Qed.

(** [res_inv], through the tuples and the [let]s of the handlers. *)
Ltac op_inv :=
  repeat (cbv beta zeta in *; first [
    res_inv_step
  | match goal with
    | E : (let '(_, _) := ?a in _) = Ok _ |- _ => first [is_var a; destruct a as [? ?] | destruct a as [? ?] eqn:?]
    end ]).

(** The facts behind the checks and the witness lookups. *)
Ltac op_facts :=
  repeat match goal with
  | E : _ || _ = false |- _ => apply orb_false_iff in E as [? ?]
  | E : negb (_ =? _) = false |- _ => apply negb_false_iff, Z.eqb_eq in E
  | E : not_eq _ _ = false |- _ => unfold not_eq in E; apply negb_false_iff, bool_decide_eq_true in E
  | E : witnessByID _ _ = Some _ |- _ => apply witnessByID_Some in E as [? ?]
  | E : witnessByKind _ _ = Some _ |- _ => apply witnessByKind_Some in E as [? ?]
  | E : addLendingValue _ _ = Ok _ |- _ => unfold addLendingValue in E
  end.

(** Round trips of the objects the handlers write. *)
Lemma Loan_back l d : Loan_typed l -> Loan_MarshalBinary l = Ok d -> ParseLoan d = Ok l.
Proof. intros Ht Hm. exact (proj2 (Loan_canonical d l) (conj Ht Hm)). Qed.
Lemma CrossOffer_back m d : CrossOffer_typed m -> CrossOffer_MarshalBinary m = Ok d -> ParseCrossOffer d = Ok m.
Proof. intros Ht Hm. exact (proj2 (CrossOffer_canonical d m) (conj Ht Hm)). Qed.
Lemma CrossAcceptance_back m d :
  CrossAcceptance_typed m -> CrossAcceptance_MarshalBinary m = Ok d -> ParseCrossAcceptance d = Ok m.
Proof. intros Ht Hm. exact (proj2 (CrossAcceptance_canonical d m) (conj Ht Hm)). Qed.
Lemma CrossRepayment_back m d :
  CrossRepayment_typed m -> CrossRepayment_MarshalBinary m = Ok d -> ParseCrossRepayment d = Ok m.
Proof. intros Ht Hm. exact (proj2 (CrossRepayment_canonical d m) (conj Ht Hm)). Qed.

Lemma ParseLoan_typed d l : ParseLoan d = Ok l -> Terms_typed (l_Terms l).
Proof. intros E. by apply (proj1 (Loan_canonical d l)) in E as [(_ & ? & _) _]. Qed.

Lemma ParseCrossOffer_typed d m : ParseCrossOffer d = Ok m -> CrossOffer_typed m.
Proof. intros E. by apply (proj1 (CrossOffer_canonical d m)) in E as [? _]. Qed.
Lemma ParseCrossAcceptance_typed d m : ParseCrossAcceptance d = Ok m -> CrossAcceptance_typed m.
Proof. intros E. by apply (proj1 (CrossAcceptance_canonical d m)) in E as [? _]. Qed.
Lemma ParseCrossActivation_typed d m : ParseCrossActivation d = Ok m -> CrossActivation_typed m.
Proof. intros E. by apply (proj1 (CrossActivation_canonical d m)) in E as [? _]. Qed.
Lemma Terms_Hash_arr `{Crypto} terms h : Terms_Hash terms = Ok h -> arr32 h.
Proof. unfold Terms_Hash. intros E. res_inv. apply length_DomainHash. Qed.
Lemma due_u64 terms d : u64 (Principal terms) -> RepaymentDue terms = Ok d -> u64 d.
Proof. intros Hp E. pose proof (RepaymentDue_pos _ _ Hp E). unfold u64. lia. Qed.

(** The identifier a payload refers to is an array. *)
Lemma witness_id p ref o : ParseRef p = Ok ref -> ID o = r_ObjectID ref -> arr32 (ID o).
Proof. intros E ->. by apply (proj1 (Ref_canonical p ref)) in E as [? _]. Qed.

Section balance.
Context `{Crypto} `{MapOrder} (e : Engine) (t : Transaction) (ω : bytes -> Z).
Hypothesis (Hrun : run_typed e t).
Abbreviation native := (NativeToken e).
Abbreviation value := (total native ω).
Abbreviation value_out := (total_out native ω).
Abbreviation μ := (measure native ω).

(** ** The common shape *)

Lemma balanced_account X i o created outbound consumed special newc newo r :
  accountNativeValue e t X i o = Ok (created, outbound, consumed) -> set_aside t X special ->
  u64 i -> u64 o ->
  value special + ω native * o = value newc + value_out newo + ω native * i ->
  Consumed r = consumed ++ (ID <$> special) -> Created r = created ++ newc -> Outbound r = outbound ++ newo ->
  balanced native ω t r (t_Fee t).
Proof.
  intros E Hs Hi Ho Hb Ec Er Eo. destruct Hrun as (_ & _ & Hf & _).
  apply (accountNativeValue_conserves native ω) in E as (-> & Hown & Hv); [|done..].
  exists (coins_outside X (objs t) ++ special). rewrite Ec, Er, Eo. split; [by rewrite fmap_app|].
  split; [by apply set_aside_submseteq|]. split; [by eapply set_aside_owned|]. rewrite !total_app, total_out_app. lia.
Qed.

(** What a coin made by the engine is worth. *)
Lemma coin_output_value owner token amount h s :
  arr32 token -> u64 amount -> u64 h -> NewCoinOutputAtHeight owner token amount h = Ok s ->
  o_Kind s = KindCoin /\ o_Owner s = owner /\ μ KindCoin (o_Data s) = ω token * amount.
Proof.
  unfold NewCoinOutputAtHeight. intros Ht Ha Hh E. res_inv. cbn [o_Owner o_Kind o_Data]. split_and!; [done|done|].
  match goal with H : _ || _ = false |- _ => apply orb_false_iff in H as [[Hz Ht0]%orb_false_iff Ha0%Z.eqb_neq] end.
  erewrite measure_coin; [|apply ParseCoin_MarshalBinary; by split_and!]. done.
Qed.

Lemma lendingPayout_value owner amount index o :
  u64 amount -> lendingPayout e t owner amount index = Ok o -> value [o] = ω native * amount.
Proof.
  destruct Hrun as (Hn & Hh & _). unfold lendingPayout. intros Ha E. res_inv.
  match goal with H : NewCoinOutputAtHeight _ _ _ _ = _ |- _ => apply coin_output_value in H as (_ & _ & Hm); [|done..] end.
  unfold total. cbn [fmap list_fmap Kind Data]. rewrite Hm. unfold zsum. cbn [foldr]. lia.
Qed.

Lemma optional_payout_value owner amount index l :
  u64 amount -> optional_payout e t owner amount index = Ok l -> value l = ω native * amount.
Proof.
  unfold optional_payout. intros Ha E. destruct (Z.ltb_spec 0 amount).
  - apply fmap_Ok in E as (o & E & ->). by eapply lendingPayout_value.
  - apply Ok_inj in E as <-. unfold u64 in Ha. assert (amount = 0) as -> by lia. rewrite total_nil. lia.
Qed.

(** An object or an output that locks [v]. *)
Lemma locks_value o v :
  Kind o <> KindCoin -> Kind o <> KindTokenDefinition -> escrow (Kind o) (Data o) = Ok v -> value [o] = ω native * v.
Proof.
  intros H1 H2 E. rewrite total_cons, total_nil, (measure_escrow _ _ _ _ v) by done. lia.
Qed.
Lemma locks_value_out d i s v :
  o_Kind s <> KindCoin -> o_Kind s <> KindTokenDefinition -> escrow (o_Kind s) (o_Data s) = Ok v ->
  value_out [mkOutbound d i s] = ω native * v.
Proof.
  intros H1 H2 E. unfold total_out, total_specs, zsum. cbn [fmap list_fmap ob_Output foldr].
  rewrite (measure_escrow _ _ _ _ v) by done. lia.
Qed.
Lemma coin_out_value d i s owner amount :
  u64 amount -> NewCoinOutputAtHeight owner native amount (Height e) = Ok s ->
  value_out [mkOutbound d i s] = ω native * amount.
Proof.
  destruct Hrun as (Hn & Hh & _). intros Ha E. apply coin_output_value in E as (Hk & _ & Hm); [|done..].
  unfold total_out, total_specs, zsum. cbn [fmap list_fmap ob_Output foldr]. rewrite Hk, Hm. lia.
Qed.
Lemma value_pair a b : value [a; b] = value [a] + value [b].
Proof. rewrite !total_cons, total_nil. lia. Qed.
Lemma value_out_nil : value_out [] = 0.
Proof. done. Qed.

(** ** Loans within a shard *)

Lemma u64_0 : u64 0.
Proof. by split. Qed.
Lemma loan_offer_value o terms :
  Kind o = KindLoanOffer -> ParseTerms (Data o) = Ok terms -> value [o] = ω native * Principal terms.
Proof. intros Hk E. apply locks_value; rewrite Hk; try done. unfold escrow. cbn -[ParseTerms]. by rewrite E. Qed.
Lemma loan_value o l :
  Kind o = KindLoan -> ParseLoan (Data o) = Ok l -> value [o] = ω native * Collateral (l_Terms l).
Proof. intros Hk E. apply locks_value; rewrite Hk; try done. unfold escrow. cbn -[ParseLoan]. by rewrite E. Qed.

Lemma executeLoanOffer_balanced p r : executeLoanOffer e t p = Ok r -> balanced native ω t r (t_Fee t).
Proof.
  unfold executeLoanOffer. intros E. op_inv. op_facts.
  pose proof (ParseTerms_Ok _ _ ltac:(eassumption)) as [Hty _]. pose proof Hty as (_ & _ & Hp & _).
  eapply balanced_account; [eassumption|apply set_aside_nil|apply u64_0|done| |by rewrite app_nil_r|done|by rewrite app_nil_r].
  rewrite value_out_nil, total_nil.
  erewrite loan_offer_value; [|done|eapply ParseTerms_Marshal; eassumption]. lia.
Qed.

Lemma executeLoanCancel_balanced p r : executeLoanCancel e t p = Ok r -> balanced native ω t r (t_Fee t).
Proof.
  unfold executeLoanCancel. intros E. op_inv. op_facts.
  pose proof (ParseTerms_Ok _ _ ltac:(eassumption)) as [(_ & _ & Hp & _) _].
  eapply balanced_account; [eassumption|by eapply set_aside_one|done|done| |done|done|by rewrite app_nil_r].
  rewrite value_out_nil. erewrite loan_offer_value, lendingPayout_value by eauto. lia.
Qed.

Lemma executeLoanAccept_balanced p r : executeLoanAccept e t p = Ok r -> balanced native ω t r (t_Fee t).
Proof.
  unfold executeLoanAccept. intros E. op_inv. op_facts.
  pose proof (ParseTerms_Ok _ _ ltac:(eassumption)) as [Hty _]. pose proof Hty as (_ & _ & Hp & Hc & _).
  match goal with E : add_or _ _ _ = _ |- _ => apply add_or_Ok in E as [-> Hlock]; [|done|by apply Hc] end.
  eapply balanced_account; [eassumption|by eapply set_aside_one|done|done| |done|done|by rewrite app_nil_r].
  rewrite value_out_nil. erewrite loan_offer_value by eauto.
  match goal with Hm : Loan_MarshalBinary ?l = Ok ?raw |- _ => assert (ParseLoan raw = Ok l) as Hloan end.
  { apply Loan_back; [|done]. split_and!; cbn; [by eapply witness_id|done|apply Hrun]. }
  pose proof (lendingPayout_value _ _ _ _ Hp ltac:(eassumption)) as Hpay.
  rewrite value_pair, Hpay. erewrite loan_value by eauto. cbn [l_Terms]. lia.
Qed.

Lemma executeLoanRepay_balanced p r : executeLoanRepay e t p = Ok r -> balanced native ω t r (t_Fee t).
Proof.
  unfold executeLoanRepay. intros E. op_inv. op_facts.
  pose proof (ParseLoan_typed _ _ ltac:(eassumption)) as (_ & _ & Hp & Hc & _).
  pose proof (due_u64 _ _ Hp ltac:(eassumption)) as Hdue.
  match goal with E : add_or _ _ _ = _ |- _ => apply add_or_Ok in E as [-> Hlock]; [|done|by apply Hc] end.
  eapply balanced_account; [eassumption|by eapply set_aside_one|done|done| |done|done|by rewrite app_nil_r].
  rewrite value_out_nil, total_app. erewrite loan_value by eauto.
  pose proof (lendingPayout_value _ _ _ _ Hdue ltac:(eassumption)) as Hpay.
  pose proof (optional_payout_value _ _ _ _ Hc ltac:(eassumption)) as Hback. lia.
Qed.

Lemma executeLoanDefault_balanced p r : executeLoanDefault e t p = Ok r -> balanced native ω t r (t_Fee t).
Proof.
  unfold executeLoanDefault. intros E. op_inv. op_facts.
  pose proof (ParseLoan_typed _ _ ltac:(eassumption)) as (_ & _ & Hp & Hc & _).
  eapply balanced_account; [eassumption|by eapply set_aside_one|done|done| |done|done|by rewrite app_nil_r].
  rewrite value_out_nil. erewrite loan_value by eauto. pose proof (optional_payout_value _ _ _ _ Hc ltac:(eassumption)) as Hback. lia.
Qed.

Lemma executeLending_balanced op r : executeLending e t op = Ok r -> balanced native ω t r (t_Fee t).
Proof.
  unfold executeLending. repeat case_match; intros E; [..|done];
    eauto using executeLoanOffer_balanced, executeLoanCancel_balanced, executeLoanAccept_balanced,
      executeLoanRepay_balanced, executeLoanDefault_balanced.
Qed.

(** ** Loans across shards *)

Lemma cross_offer_value o m :
  Kind o = KindCrossLoanOffer -> ParseCrossOffer (Data o) = Ok m -> value [o] = ω native * Principal (co_Terms m).
Proof. intros Hk E. apply locks_value; rewrite Hk; try done. unfold escrow. cbn -[ParseCrossOffer]. by rewrite E. Qed.
Lemma cross_acceptance_value o m :
  Kind o = KindCrossLoanAcceptance -> ParseCrossAcceptance (Data o) = Ok m ->
  value [o] = ω native * Collateral (ca_Terms m).
Proof. intros Hk E. apply locks_value; rewrite Hk; try done. unfold escrow. cbn -[ParseCrossAcceptance]. by rewrite E. Qed.
Lemma cross_repayment_value o m :
  Kind o = KindCrossLoanRepayment -> ParseCrossRepayment (Data o) = Ok m -> value [o] = ω native * cr_Amount m.
Proof. intros Hk E. apply locks_value; rewrite Hk; try done. unfold escrow. cbn -[ParseCrossRepayment]. by rewrite E. Qed.
(** An activation locks nothing: its collateral travels in the acceptance. *)
Lemma cross_activation_value o : Kind o = KindCrossLoanActivation -> value [o] = 0.
Proof. intros Hk. rewrite (locks_value o 0); rewrite ?Hk; try done. lia. Qed.

Lemma crossLendingShards_Ok terms a b :
  crossLendingShards e terms = Ok (a, b) -> u32 a /\ u32 b.
Proof.
  destruct Hrun as (_ & _ & _ & Hs). unfold crossLendingShards. intros E. op_inv.
  split; by apply AccountShard_u32.
Qed.

Lemma executeCrossLoanOffer_balanced p r : executeCrossLoanOffer e t p = Ok r -> balanced native ω t r (t_Fee t).
Proof.
  unfold executeCrossLoanOffer. intros E. op_inv. op_facts.
  pose proof (ParseTerms_Ok _ _ ltac:(eassumption)) as [Hty _]. pose proof Hty as (_ & _ & Hp & _).
  pose proof (crossLendingShards_Ok _ _ _ ltac:(eassumption)) as [Hs1 Hs2].
  match goal with Hm : CrossOffer_MarshalBinary ?l = Ok ?raw |- _ => assert (ParseCrossOffer raw = Ok l) as Hback end.
  { apply CrossOffer_back; [|done]. split_and!; cbn; try done; [apply length_ObjectIDForShard|apply Hrun]. }
  eapply balanced_account; [eassumption|apply set_aside_nil|apply u64_0|done| |by rewrite app_nil_r|by rewrite app_nil_r|done].
  erewrite locks_value_out; [|done|done|unfold escrow; cbn -[ParseCrossOffer]; by rewrite Hback].
  rewrite !total_nil. cbn [co_Terms]. lia.
Qed.

Lemma executeCrossLoanAccept_balanced p r : executeCrossLoanAccept e t p = Ok r -> balanced native ω t r (t_Fee t).
Proof.
  unfold executeCrossLoanAccept. intros E. op_inv. op_facts.
  pose proof (ParseCrossOffer_typed _ _ ltac:(eassumption)) as (Ho & _ & _ & _ & Hty). pose proof Hty as (_ & _ & Hp & Hc & _).
  pose proof (crossLendingShards_Ok _ _ _ ltac:(eassumption)) as [Hs1 Hs2].
  match goal with E : add_or _ _ _ = _ |- _ => apply add_or_Ok in E as [-> Hlock]; [|done|by apply Hc] end.
  match goal with Hm : CrossAcceptance_MarshalBinary ?l = Ok ?raw |- _ => assert (ParseCrossAcceptance raw = Ok l) as Hback end.
  { apply CrossAcceptance_back; [|done]. split_and!; cbn; try done; [apply length_ObjectIDForShard|apply Hrun]. }
  pose proof (lendingPayout_value _ _ _ _ Hp ltac:(eassumption)) as Hpay.
  eapply balanced_account; [eassumption|by eapply set_aside_one|done|done| |done|done|done].
  erewrite locks_value_out; [|done|done|unfold escrow; cbn -[ParseCrossAcceptance]; by rewrite Hback].
  rewrite value_pair, Hpay. erewrite cross_offer_value by eauto. rewrite cross_activation_value by done.
  cbn [ca_Terms]. lia.
Qed.

Lemma executeCrossLoanRepay_balanced p r : executeCrossLoanRepay e t p = Ok r -> balanced native ω t r (t_Fee t).
Proof.
  unfold executeCrossLoanRepay. intros E. op_inv. op_facts.
  pose proof (ParseCrossActivation_typed _ _ ltac:(eassumption)) as (Ha & _ & _ & _ & Hty). pose proof Hty as (_ & _ & Hp & _).
  pose proof (crossLendingShards_Ok _ _ _ ltac:(eassumption)) as [Hs1 Hs2].
  pose proof (due_u64 _ _ Hp ltac:(eassumption)) as Hdue.
  match goal with Hm : CrossRepayment_MarshalBinary ?l = Ok ?raw |- _ => assert (ParseCrossRepayment raw = Ok l) as Hback end.
  { apply CrossRepayment_back; [|done]. split_and!; cbn; try done;
      [by eapply witness_id|apply Hrun|by eapply Terms_Hash_arr]. }
  eapply balanced_account; [eassumption|by eapply set_aside_one|apply u64_0|done| |done|by rewrite app_nil_r|done].
  erewrite locks_value_out; [|done|done|unfold escrow; cbn -[ParseCrossRepayment]; by rewrite Hback].
  rewrite cross_activation_value, total_nil by done. cbn [cr_Amount]. lia.
Qed.

Lemma returned_value owner c d i l :
  u64 c ->
  (if 0 <? c then spec ← NewCoinOutputAtHeight owner native c (Height e); Ok [mkOutbound d i spec] else Ok []) = Ok l ->
  value_out l = ω native * c.
Proof.
  intros Hc E. destruct (Z.ltb_spec 0 c); op_inv; [by eapply coin_out_value|].
  rewrite value_out_nil. unfold u64 in Hc. assert (c = 0) as -> by lia. lia.
Qed.

Lemma executeCrossLoanSettle_balanced r : executeCrossLoanSettle e t = Ok r -> balanced native ω t r (t_Fee t).
Proof.
  unfold executeCrossLoanSettle. intros E. op_inv. op_facts.
  pose proof (ParseCrossAcceptance_typed _ _ ltac:(eassumption)) as (_ & _ & _ & _ & _ & Hty). pose proof Hty as (_ & _ & Hp & Hc & _).
  pose proof (due_u64 _ _ Hp ltac:(eassumption)) as Hdue.
  match goal with E : add_or _ _ _ = _ |- _ => apply add_or_Ok in E as [-> Hlock]; [|done|by apply Hdue] end.
  match goal with E : (if 0 <? ?c then _ else _) = Ok ?l |- _ =>
    assert (value_out l = ω native * c) as Hret by (eapply returned_value; [|exact E]; done); clear E end.
  pose proof (lendingPayout_value _ _ _ _ Hdue ltac:(eassumption)) as Hpay.
  eapply balanced_account; [eassumption|by eapply set_aside_two|done|done| |done|done|done].
  rewrite value_pair, Hpay, Hret. erewrite cross_acceptance_value, cross_repayment_value by eauto. lia.
Qed.

Lemma executeCrossLoanDefault_balanced p r : executeCrossLoanDefault e t p = Ok r -> balanced native ω t r (t_Fee t).
Proof.
  unfold executeCrossLoanDefault. intros E. op_inv. op_facts.
  pose proof (ParseCrossAcceptance_typed _ _ ltac:(eassumption)) as (_ & _ & _ & _ & _ & Hty). pose proof Hty as (_ & _ & Hp & Hc & _).
  eapply balanced_account; [eassumption|by eapply set_aside_one|done|done| |done|done|by rewrite app_nil_r].
  rewrite value_out_nil. erewrite cross_acceptance_value by eauto. pose proof (optional_payout_value _ _ _ _ Hc ltac:(eassumption)) as Hback. lia.
Qed.

Lemma executeCrossLoanExpire_balanced p r : executeCrossLoanExpire e t p = Ok r -> balanced native ω t r (t_Fee t).
Proof.
  unfold executeCrossLoanExpire. intros E. op_inv. op_facts.
  pose proof (ParseCrossOffer_typed _ _ ltac:(eassumption)) as (_ & _ & _ & _ & Hty). pose proof Hty as (_ & _ & Hp & _).
  eapply balanced_account; [eassumption|by eapply set_aside_one|done|done| |done|by rewrite app_nil_r|done].
  erewrite coin_out_value by eauto. erewrite cross_offer_value by eauto. rewrite total_nil. lia.
Qed.

Lemma executeCrossShardLending_balanced op r : executeCrossShardLending e t op = Ok r -> balanced native ω t r (t_Fee t).
Proof.
  unfold executeCrossShardLending. repeat case_match; intros E; [..|done];
    eauto using executeCrossLoanOffer_balanced, executeCrossLoanAccept_balanced, executeCrossLoanRepay_balanced,
      executeCrossLoanSettle_balanced, executeCrossLoanDefault_balanced, executeCrossLoanExpire_balanced.
Qed.
End balance.
