(* ===== verification/ExecutionCompute.v ===== *)
(** * ExecutionCompute

    Conservation of value for the operations of the compute market: an offer
    locks its collateral, a job its price, an accepted offer moves the required
    collateral into a message, an ingest moves it into the job, a settlement
    pays out everything the job locks. *)

From S2P Require Import Prelude GoLib Codec Crypto Types Merkle Object Assets Sharding Smt Tx TxProofs Lending.
From S2P Require Import ComputeModel ComputeWire ComputeMarket ComputeProofs Contracts DeviceCredential Execution.
From S2P Require Import ExecutionExtended ExecutionValue ExecutionLoans.

Open Scope Z_scope.

(** A job record the decoder can still read after one more entry: the decoder
    accepts at most 1024 assignments and 1024 results. *)
Definition job_room (o : Object) : Prop :=
  Kind o = KindComputeJob ->
  forall r, ParseOnChainJob (Data o) = Ok r -> blen (oj_Assignments r) < 1024 /\ blen (oj_Results r) < 1024.

(** What a job locks. *)
Definition locked_in (r : OnChainJob) : Z :=
  oj_Escrow r + blen (oj_Assignments r) * jb_CollateralRequired (oj_Job r).

Lemma escrow_job d r : ParseOnChainJob d = Ok r -> escrow KindComputeJob d = Ok (locked_in r).
Proof. intros E. unfold escrow. cbn -[ParseOnChainJob]. by rewrite E. Qed.

Lemma locked_in_sort r : locked_in (sort_record r) = locked_in r.
Proof. unfold locked_in, sort_record, blen. cbn. by rewrite length_sort_by. Qed.

Lemma jobLockedValue_Ok r v :
  OnChainJob_typed r -> jobLockedValue r = Ok v -> v = locked_in r /\ u64 v.
Proof.
  intros (_ & (_ & _ & _ & _ & _ & Hc & _) & He & _) E. unfold jobLockedValue, locked_in in *.
  eapply (rfold_inv (fun st l => st = oj_Escrow r + blen l * jb_CollateralRequired (oj_Job r) /\ u64 st) _ _ _ _ []) in E;
    [done| |].
  - unfold blen. cbn. split; [lia|done].
  - intros a b l x [-> Ha] _ Hs. apply add_or_Ok in Hs as [-> ?]; [|done|by apply Hc]. split; [|done].
    rewrite blen_app. change (blen [x]) with 1. lia.
Qed.

Lemma Result_Validate_Marshal r : is_ok (Result_Validate r) = true -> exists d, Result_MarshalBinary r = Ok d.
Proof. intros [[] E]%is_ok_true. unfold Result_MarshalBinary. rewrite E. cbn. eauto. Qed.

(** Same encoding, same collateral. *)
Lemma same_job_collateral j k d :
  Job_typed j -> Job_typed k -> Job_MarshalBinary j = Ok d -> Job_MarshalBinary k = Ok d ->
  jb_CollateralRequired j = jb_CollateralRequired k.
Proof.
  intros Hj Hk Ej Ek. pose proof (ParseJob_Marshal _ _ Hj Ej) as E1. pose proof (ParseJob_Marshal _ _ Hk Ek) as E2.
  rewrite E1 in E2. apply Ok_inj, (f_equal jb_CollateralRequired) in E2. done.
Qed.

(** An ingested assignment keeps the record readable and adds one collateral. *)
Lemma assign_value r offerID o height r' a change raw :
  OnChainJob_typed r -> Offer_typed o -> arr32 offerID ->
  blen (oj_Assignments r) < 1024 -> blen (oj_Results r) <= 1024 ->
  AssignOnChain r offerID o height = Ok (r', a, change) -> OnChainJob_MarshalBinary r' = Ok raw ->
  escrow KindComputeJob raw = Ok (locked_in r + jb_CollateralRequired (oj_Job r)).
Proof.
  intros (Hid & Hj & He & Hs & Ha & Hr) Ho Hof Hna Hnr E Em. unfold AssignOnChain in E. op_inv.
  apply ParseOnChainJob_Marshal in Em.
  - rewrite (escrow_job _ _ Em), locked_in_sort. unfold locked_in. cbn. rewrite blen_app. unfold blen. cbn. f_equal. lia.
  - split_and!; cbn; try done; [by case_match|]. apply Forall_app. split; [done|]. apply Forall_singleton.
    split_and!; cbn; [done|apply Ho|apply Ho].
  - cbn. rewrite blen_app. unfold blen in *. cbn. lia.
  - done.
Qed.

(** An ingested result leaves what is locked. *)
Lemma submit_value r x r' :
  OnChainJob_typed r -> ComputeResult_typed x -> (exists d, OnChainJob_MarshalBinary r = Ok d) ->
  blen (oj_Assignments r) <= 1024 -> blen (oj_Results r) < 1024 ->
  SubmitOnChainResult r x = Ok r' ->
  escrow KindComputeJob (ok_or [] (OnChainJob_MarshalBinary r')) = Ok (locked_in r).
Proof.
  intros (Hid & Hj & He & Hs & Ha & Hr) Hx [d Hd] Hna Hnr E. unfold SubmitOnChainResult in E. op_inv.
  match goal with E : negb (is_ok _) || _ = false |- _ => apply orb_false_iff in E as [Hv%negb_false_iff _] end.
  apply OnChainJob_Marshal_inv in Hd as (Hb & Hma & Hmr & jb & Hjb & _).
  match goal with |- escrow _ (ok_or _ (OnChainJob_MarshalBinary ?r')) = _ =>
    destruct (OnChainJob_Marshal_succeeds r' jb) as [raw Em]; [cbn|done|done|cbn|] end.
  - repeat apply orb_false_iff in Hb as [Hb ?]. case_match; [|by repeat (apply orb_false_iff; split)].
    repeat (apply orb_false_iff; split); done.
  - apply Forall_app. split; [done|]. apply Forall_singleton. by apply Result_Validate_Marshal.
  - rewrite Em. cbn [ok_or]. apply ParseOnChainJob_Marshal in Em.
    + rewrite (escrow_job _ _ Em), locked_in_sort. done.
    + split_and!; cbn; try done; [by case_match|]. apply Forall_app. split; [done|]. by apply Forall_singleton.
    + done.
    + cbn. rewrite blen_app. unfold blen in *. cbn. lia.
Qed.

Lemma ValidateForRecord_collateral m r u :
  Job_typed (oj_Job r) -> Job_typed (am_Job m) -> ValidateForRecord m r = Ok u ->
  jb_CollateralRequired (am_Job m) = jb_CollateralRequired (oj_Job r).
Proof.
  intros Hr Hm. unfold ValidateForRecord. intros E. op_inv. bool_inv. subst.
  by eapply same_job_collateral.
Qed.

Lemma ParseResultMessage_typed d m : ParseResultMessage d = Ok m -> ComputeResult_typed (rm_Result m).
Proof.
  unfold ParseResultMessage. intros E. parse_inv. cbn.
  match goal with E : ParseResult ?d = Ok ?r |- _ => exact (proj1 (proj1 (ComputeResult_canonical d r) E)) end.
Qed.

(** Every value of a [map[K]uint64] is a [uint64]. *)
Definition map_u64 (m : gmap bytes Z) : Prop := forall k, u64 (mget m k).

Lemma map_u64_empty : map_u64 ∅.
Proof. intros k. unfold mget. rewrite lookup_empty. by split. Qed.
Lemma madd64_u64 m k v : map_u64 m -> map_u64 (madd64 m k v).
Proof.
  intros Hm k'. rewrite mget_madd64. case_decide; [|apply Hm]. unfold u64, add64. apply Z.mod_pos_bound. lia.
Qed.
Lemma madd_all_u64 m l : map_u64 m -> map_u64 (madd_all m l).
Proof. revert m. induction l as [|[k v] l IH]; intros m Hm; [done|]. apply IH. by apply madd64_u64. Qed.

Section balance.
Context `{Crypto} `{MapOrder} (e : Engine) (t : Transaction) (ω : bytes -> Z).
Hypothesis (Hrun : run_typed e t).
Abbreviation native := (NativeToken e).
Abbreviation value := (total native ω).
Abbreviation value_out := (total_out native ω).

(** As [balanced_account], with one more output routed to its shard. *)
Lemma balanced_account_route X i o created outbound consumed special d index spec r :
  accountNativeValue e t X i o = Ok (created, outbound, consumed) -> set_aside t X special ->
  u64 i -> u64 o ->
  value special + ω native * o = measure native ω (o_Kind spec) (o_Data spec) + ω native * i ->
  Consumed r = consumed ++ (ID <$> special) ->
  (Created r, Outbound r) = route t (created, outbound) d index spec ->
  balanced native ω t r (t_Fee t).
Proof.
  unfold route. intros E Hs Hi Ho Hb Ec Er. destruct (d =? t_ShardID t); injection Er as E1 E2.
  - eapply (balanced_account _ _ _ Hrun _ _ _ _ _ _ _ [_] []); try done; [|by rewrite app_nil_r].
    rewrite total_cons, total_nil, value_out_nil. cbn [output_object Kind Data]. lia.
  - eapply (balanced_account _ _ _ Hrun _ _ _ _ _ _ _ [] [_]); try done; [|by rewrite app_nil_r].
    rewrite total_nil. unfold total_out, total_specs, zsum. cbn [fmap list_fmap ob_Output foldr]. lia.
Qed.

Lemma offer_value o x :
  Kind o = KindComputeOffer -> ParseOffer (Data o) = Ok x -> value [o] = ω native * of_Collateral x.
Proof. intros Hk E. apply locks_value; rewrite Hk; try done. unfold escrow. cbn -[ParseOffer]. by rewrite E. Qed.
Lemma job_value o v :
  Kind o = KindComputeJob -> escrow KindComputeJob (Data o) = Ok v -> value [o] = ω native * v.
Proof. intros Hk E. apply locks_value; by rewrite Hk. Qed.
Lemma assignment_message_value o m :
  Kind o = KindComputeAssignment -> ParseAssignmentMessage (Data o) = Ok m ->
  value [o] = ω native * jb_CollateralRequired (am_Job m).
Proof.
  intros Hk E. apply locks_value; rewrite Hk; try done. unfold escrow. cbn -[ParseAssignmentMessage]. by rewrite E.
Qed.
(** Objects of the kinds that lock nothing. *)
Lemma free_value o :
  Kind o = KindComputeResult \/ Kind o = KindSystem -> value [o] = 0.
Proof. intros [Hk|Hk]; rewrite (locks_value e ω o 0); rewrite ?Hk; try done; lia. Qed.

Lemma executeComputeOffer_balanced p r : executeComputeOffer e t p = Ok r -> balanced native ω t r (t_Fee t).
Proof.
  unfold executeComputeOffer, NewOfferObject. intros E. op_inv. op_facts.
  pose proof (ParseOffer_Ok _ _ ltac:(eassumption)) as [Hty _]. pose proof Hty as (_ & _ & _ & Hc & _).
  eapply (balanced_account _ _ _ Hrun); [eassumption|apply set_aside_nil|apply u64_0|done| |by rewrite app_nil_r|done|by rewrite app_nil_r].
  rewrite value_out_nil, total_nil. erewrite offer_value; [|done|by eapply ParseOffer_Marshal]. cbn [trim_offer of_Collateral]. lia.
Qed.

Lemma executeComputeJob_balanced p r : executeComputeJob e t p = Ok r -> balanced native ω t r (t_Fee t).
Proof.
  unfold executeComputeJob, NewJobObject. intros E. op_inv. op_facts.
  pose proof (ParseJob_Ok _ _ ltac:(eassumption)) as [Hty _]. pose proof Hty as (_ & _ & _ & _ & Hp & _).
  eapply (balanced_account _ _ _ Hrun); [eassumption|apply set_aside_nil|apply u64_0|done| |by rewrite app_nil_r|done|by rewrite app_nil_r].
  rewrite value_out_nil, total_nil. cbn [fst].
  match goal with Em : OnChainJob_MarshalBinary ?x = _ |- _ => apply ParseOnChainJob_Marshal in Em;
    [rename Em into Hback| |done|done] end.
  2:{ split_and!; cbn; try done. unfold JobIDFromTransaction. apply length_DomainHash. }
  erewrite job_value; [|done|by apply escrow_job]. rewrite locked_in_sort. unfold locked_in, blen. cbn [oj_Escrow oj_Assignments length]. lia.
Qed.

Lemma executeComputeAccept_balanced p r : executeComputeAccept e t p = Ok r -> balanced native ω t r (t_Fee t).
Proof.
  unfold executeComputeAccept, AssignmentMessage_Output. intros E. op_inv. op_facts.
  pose proof (ParseAssignmentMessage_Ok _ _ ltac:(eassumption)) as [Hty [Hov _]%AssignmentMessage_Validate_inv].
  pose proof Hty as (_ & _ & _ & _ & Ho & Hj). pose proof Ho as (_ & _ & _ & Hc & _). pose proof Hj as (_ & _ & _ & _ & _ & Hr & _).
  assert (exists raw, Offer_MarshalBinary (am_Offer a) = Ok raw) as [raw Hraw] by (unfold Offer_MarshalBinary; rewrite Hov; cbn; eauto).
  eapply balanced_account_route; [eassumption|by eapply set_aside_one|done|done| |done|done]. cbn [o_Kind o_Data].
  erewrite (offer_value _ (trim_offer (am_Offer a))); [|done|].
  - erewrite measure_escrow; [|done|done|unfold escrow; cbn -[ParseAssignmentMessage];
      by erewrite ParseAssignmentMessage_Marshal by eassumption]. cbn [trim_offer trim_message trim_job of_Collateral am_Job jb_CollateralRequired]. lia.
  - match goal with Hd : Data _ = _ |- _ => rewrite Hd end. unfold mustOfferBytes. rewrite Hraw. by apply ParseOffer_Marshal.
Qed.

Lemma executeComputeResult_balanced p r : executeComputeResult e t p = Ok r -> balanced native ω t r (t_Fee t).
Proof.
  unfold executeComputeResult. intros E. op_inv. op_facts.
  eapply balanced_account_route; [eassumption|apply set_aside_nil|apply u64_0|apply u64_0| |by rewrite app_nil_r|done].
  rewrite total_nil. erewrite (measure_escrow _ _ _ _ 0); [lia|..]; unfold ResultMessage_Output;
    destruct (ResultMessage_MarshalBinary a); done.
Qed.

Lemma ingest_witnesses_Ok ref kind jo mo :
  ingest_witnesses t ref kind = Ok (jo, mo) ->
  jo ∈ objs t /\ mo ∈ objs t /\ Kind jo = KindComputeJob /\ Kind mo = kind.
Proof. unfold ingest_witnesses. intros E. op_inv. op_facts. done. Qed.

Lemma executeComputeIngestAssignment_balanced p r :
  Forall job_room (objs t) -> executeComputeIngestAssignment e t p = Ok r -> balanced native ω t r (t_Fee t).
Proof.
  intros Hroom. unfold executeComputeIngestAssignment. intros E. op_inv. op_facts.
  match goal with Hw : ingest_witnesses _ _ _ = _ |- _ => apply ingest_witnesses_Ok in Hw as (Hin1 & Hin2 & Hk1 & Hk2) end.
  rewrite Forall_forall in Hroom. destruct (Hroom _ Hin1 Hk1 _ ltac:(eassumption)) as [Hna Hnr].
  pose proof (ParseOnChainJob_Ok _ _ ltac:(eassumption)) as (Hjt & _).
  pose proof (ParseAssignmentMessage_Ok _ _ ltac:(eassumption)) as [(_ & _ & _ & Hof & Hot & Hmj) _].
  match goal with Hv : negb (is_ok (ValidateForRecord _ _)) = false |- _ =>
    apply negb_false_iff, is_ok_true in Hv as [[] Hv]; apply ValidateForRecord_collateral in Hv; [|apply Hjt|done] end.
  match goal with Ha : AssignOnChain _ _ _ _ = Ok ?x, Hm : OnChainJob_MarshalBinary _ = _ |- _ => destruct x as [[r' asg] ch];
    pose proof (assign_value _ _ _ _ _ _ _ _ Hjt Hot Hof Hna ltac:(lia) Ha Hm) as Hnew end.
  assert (u64 (jb_CollateralRequired (oj_Job a0))) as Hcu by apply Hjt.
  eapply (balanced_account _ _ _ Hrun); [eassumption|by eapply set_aside_two|done|done| |done|done|by rewrite app_nil_r].
  rewrite value_pair, value_out_nil. rewrite (job_value (bump _ _) _ Hk1 Hnew).
  erewrite job_value; [|done|by apply escrow_job]. erewrite assignment_message_value by eauto. lia.
Qed.

Lemma executeComputeIngestResult_balanced p r :
  Forall job_room (objs t) -> executeComputeIngestResult e t p = Ok r -> balanced native ω t r (t_Fee t).
Proof.
  intros Hroom. unfold executeComputeIngestResult. intros E. op_inv. op_facts.
  match goal with Hw : ingest_witnesses _ _ _ = _ |- _ => apply ingest_witnesses_Ok in Hw as (Hin1 & Hin2 & Hk1 & Hk2) end.
  rewrite Forall_forall in Hroom. destruct (Hroom _ Hin1 Hk1 _ ltac:(eassumption)) as [Hna Hnr].
  pose proof (ParseOnChainJob_Ok _ _ ltac:(eassumption)) as (Hjt & _ & _ & _ & Hback).
  pose proof (ParseResultMessage_typed _ _ ltac:(eassumption)) as Hrt.
  pose proof (submit_value _ _ _ Hjt Hrt Hback ltac:(lia) Hnr ltac:(eassumption)) as Hnew.
  eapply (balanced_account _ _ _ Hrun); [eassumption|by eapply set_aside_two|apply u64_0|apply u64_0| |done|done|by rewrite app_nil_r].
  rewrite value_pair, value_out_nil. rewrite (job_value (bump _ _) _ Hk1 Hnew).
  erewrite job_value; [|done|by apply escrow_job]. rewrite free_value by auto. lia.
Qed.

(** ** Settlements *)

Lemma settlement_amounts_u64 record s m : settlement_amounts record s = Ok m -> map_u64 m.
Proof.
  unfold settlement_amounts. intros E. op_inv.
  match goal with E : rfold _ _ _ = Ok ?m |- _ => assert (map_u64 m) as Hm;
    [apply (rfold_inv (fun m _ => map_u64 m) _ _ _ _ []) in E; [done|apply madd_all_u64, map_u64_empty|] |] end.
  - intros x y l [k v] Hx _ Hs. op_inv. by apply madd64_u64.
  - destruct (_ <? _); [by apply madd64_u64|done].
Qed.

Lemma settlementOutputs_value record s created outbound amount :
  settlementOutputs e t record s = Ok (created, outbound, amount) ->
  value created + value_out outbound = ω native * amount /\ u64 amount.
Proof.
  unfold settlementOutputs. intros E. apply bind_Ok in E as (m & Hm%settlement_amounts_u64 & E). cbv zeta in E.
  apply bind_Ok in E as ([tot [cr ob]] & E & E'). apply Ok_inj in E' as [= -> -> ->].
  apply (rfoldi_inv (fun st _ => outs_total native ω st.2 = ω native * st.1 /\ u64 st.1) _ _ _ _ _ []) in E; [done|done| |].
  - split; [unfold outs_total, total, total_out, total_specs; cbn; lia|apply u64_0].
  - intros [a1 o1] [a2 o2] l id [Hv Hu] _ Hs. unfold settlement_output, NewCoinOutput in Hs. cbn [fst snd] in *. op_inv.
    match goal with E : add_or _ _ _ = _ |- _ => apply add_or_Ok in E as [-> ?]; [|done|apply Hm] end.
    match goal with E : NewCoinOutputAtHeight _ _ _ _ = _ |- _ =>
      apply (coin_output_value e ω) in E as (Hk & _ & Hc); [|apply Hrun|apply Hm|apply u64_0] end.
    cbn [fst snd]. rewrite route_total, Hk, Hc. split; [lia|done].
Qed.

Lemma settle_balanced o record s receipt r :
  o ∈ objs t -> Kind o = KindComputeJob -> ParseOnChainJob (Data o) = Ok record ->
  settle e t o record s receipt = Ok r -> balanced native ω t r (t_Fee t).
Proof.
  intros Hin Hk Hp. unfold settle. intros E. op_inv. op_facts. subst.
  pose proof (ParseOnChainJob_Ok _ _ Hp) as (Hjt & _).
  match goal with E : jobLockedValue _ = _ |- _ => apply jobLockedValue_Ok in E as [-> Hu]; [|done] end.
  match goal with E : settlementOutputs _ _ _ _ = _ |- _ => apply settlementOutputs_value in E as [Hv _] end.
  eapply (balanced_account _ _ _ Hrun); [eassumption|by eapply set_aside_one|done|done| |done|done|done].
  rewrite total_app, (free_value (mkObject _ _ _ KindSystem _)) by auto.
  erewrite job_value; [|done|by apply escrow_job]. lia.
Qed.

Lemma job_witness_Ok p o : job_witness t p = Ok o -> o ∈ objs t /\ Kind o = KindComputeJob.
Proof. unfold job_witness. intros E. op_inv. op_facts. done. Qed.

Lemma executeComputeFinalize_balanced p b r : executeComputeFinalize e t p b = Ok r -> balanced native ω t r (t_Fee t).
Proof.
  unfold executeComputeFinalize. intros E. op_inv.
  match goal with E : job_witness _ _ = _ |- _ => apply job_witness_Ok in E as [? ?] end. by eapply settle_balanced.
Qed.

Lemma executeComputeExpire_balanced p r : executeComputeExpire e t p = Ok r -> balanced native ω t r (t_Fee t).
Proof.
  unfold executeComputeExpire. intros E. op_inv.
  match goal with E : job_witness _ _ = _ |- _ => apply job_witness_Ok in E as [? ?] end. by eapply settle_balanced.
Qed.

Lemma executeCompute_balanced op r :
  Forall job_room (objs t) -> executeCompute e t op = Ok r -> balanced native ω t r (t_Fee t).
Proof.
  unfold executeCompute. intros Hroom. repeat case_match; intros E; [..|done];
    eauto using executeComputeOffer_balanced, executeComputeJob_balanced, executeComputeAccept_balanced,
      executeComputeResult_balanced, executeComputeIngestAssignment_balanced, executeComputeIngestResult_balanced,
      executeComputeFinalize_balanced, executeComputeExpire_balanced.
Qed.
End balance.
