(* ===== verification/ExecutionTokens.v ===== *)
(** * ExecutionTokens

    Conservation of value for the operations that pay only the fee (contracts,
    device credentials, minting), for the creation and the burning of tokens,
    and for transfers.  Minting raises the recorded supply by exactly what it
    puts into circulation, burning lowers it by exactly what it takes out, so
    both are balanced under every weight. *)

From S2P Require Import Prelude GoLib Codec Crypto Types Merkle Object Assets Sharding Smt Tx TxProofs Lending.
From S2P Require Import ComputeModel ComputeWire ComputeMarket ComputeProofs Contracts DeviceCredential Execution.
From S2P Require Import ExecutionExtended ExecutionValue ExecutionLoans ExecutionCompute.

Open Scope Z_scope.

(** ** Witnesses of a contract call *)

Lemma witness_map_Some t id w : witness_map t !! id = Some w -> w_Object w ∈ objs t /\ ID (w_Object w) = id.
Proof.
  unfold witness_map, objs. induction (t_Witnesses t) as [|x l IH] using rev_ind; [done|].
  rewrite foldl_app, fmap_app. cbn. rewrite lookup_insert. case_decide as Hd.
  - intros [= ->]. split; [|done]. apply elem_of_app. right. left.
  - intros E. destruct (IH E) as [? ?]. split; [|done]. apply elem_of_app. by left.
Qed.

Lemma read_states_Ok witnesses accesses v0 v :
  rfold (read_state witnesses) v0 accesses = Ok v ->
  Forall (fun a => exists w, witnesses !! ac_ObjectID a = Some w /\ Kind (w_Object w) = KindContractState) accesses.
Proof.
  intros E. apply (rfold_inv (fun _ l => Forall (fun a => exists w, witnesses !! ac_ObjectID a = Some w /\
    Kind (w_Object w) = KindContractState) l) _ _ _ _ []) in E; [done|constructor|].
  intros a b l x IH _ Hs. unfold read_state in Hs. op_inv. op_facts. apply Forall_app. split; [done|].
  apply Forall_singleton. eauto.
Qed.

Lemma allowed_accesses accesses m :
  rfold allow ∅ accesses = Ok m -> forall id, is_Some (m !! id) -> id ∈ ac_ObjectID <$> accesses.
Proof.
  intros E. refine (rfold_inv (fun m l => forall id, is_Some (m !! id) -> id ∈ ac_ObjectID <$> l) _ _ _ _ [] _ _ E).
  - intros id [v Hv]. by rewrite lookup_empty in Hv.
  - intros a b l x IH _ Hs id Hid. unfold allow in Hs. op_inv. rewrite fmap_app. apply elem_of_app.
    destruct (decide (ac_ObjectID x = id)) as [<-|Hn]; [right; left|left]. apply IH. by rewrite lookup_insert_ne in Hid.
Qed.

(** A metered execution writes only to declared objects. *)
Lemma Metered_writes `{MapOrder} m request result :
  Metered_Execute m request = Ok result ->
  Forall (fun w => w.1 ∈ ac_ObjectID <$> rq_Accesses request) (range_map (cx_Writes result)).
Proof.
  unfold Metered_Execute. destruct m as [inner|]; [|done]. intros E. op_inv.
  match goal with E : validateRequest _ = _ |- _ => unfold validateRequest in E; op_inv end.
  match goal with E : rfold allow _ _ = Ok ?m |- _ => pose proof (allowed_accesses _ _ E) as Hacc; rename m into allowed end.
  match goal with E : existsb _ (range_map (cx_Writes _)) = false |- _ => rename E into Hex end.
  apply Forall_forall. intros [id v] Hin. apply Hacc. cbn.
  assert (default false (allowed !! id) = true) as Hd.
  { destruct (default false (allowed !! id)) eqn:Ed; [done|]. exfalso.
    apply not_true_iff_false in Hex. apply Hex, existsb_exists. exists (id, v). split; [by apply list_elem_of_In|].
    by rewrite Ed. }
  destruct (allowed !! id); [eauto|done].
Qed.

Lemma ParseCreateToken_Ok b c :
  ParseCreateToken b = Ok c -> CreateToken_typed c /\ blen (ct_Name c) <= 64 /\ blen (ct_Symbol c) <= 16.
Proof.
  unfold ParseCreateToken. intros E. parse_inv. unfold CreateToken_typed. cbn. rewrite !blen32. split_and!; done.
Qed.

Lemma range_map_keys `{MapOrder} {V} (m : gmap bytes V) k : k ∈ (range_map m).*1 <-> is_Some (m !! k).
Proof.
  rewrite range_map_perm, list_elem_of_fmap. split.
  - intros ([k' v] & -> & Hin%elem_of_map_to_list). eauto.
  - intros [v Hl]. exists (k, v). split; [done|]. by apply elem_of_map_to_list.
Qed.

(** The object a write of a contract replaces. *)
Definition old_state (witnesses : gmap bytes Witness) (write : bytes * bytes) : Object :=
  default zero_object (w_Object <$> witnesses !! write.1).

Lemma call_states `{MapOrder} t v m request result :
  Metered_Execute m request = Ok result -> rfold (read_state (witness_map t)) ∅ (rq_Accesses request) = Ok v ->
  Forall (fun w => old_state (witness_map t) w ∈ objs t /\ ID (old_state (witness_map t) w) = w.1 /\
    Kind (old_state (witness_map t) w) = KindContractState) (range_map (cx_Writes result)).
Proof.
  intros Hwr%Metered_writes Hread%read_states_Ok. eapply Forall_impl; [exact Hwr|].
  intros w (acc & Ea & Hin)%list_elem_of_fmap. rewrite Forall_forall in Hread. destruct (Hread _ Hin) as (x & Hx & Hk).
  unfold old_state. rewrite Ea, Hx. cbn. by destruct (witness_map_Some _ _ _ Hx) as [? ?].
Qed.

(** The weighted sum of a [map[TokenID]uint64]. *)
Definition wsum (ω : bytes -> Z) (m : gmap bytes Z) : Z := zsum ((fun kv => ω kv.1 * kv.2) <$> map_to_list m).

Lemma wsum_empty ω : wsum ω ∅ = 0.
Proof. unfold wsum. by rewrite map_to_list_empty. Qed.
Lemma wsum_fresh ω m k v : m !! k = None -> wsum ω (<[k := v]> m) = ω k * v + wsum ω m.
Proof. intros E. unfold wsum. by rewrite map_to_list_insert. Qed.
Lemma wsum_delete ω m k : wsum ω (delete k m) = wsum ω m - ω k * mget m k.
Proof.
  unfold mget. destruct (m !! k) as [v|] eqn:E; cbn.
  - rewrite <-(insert_delete_id m k v E) at 2. rewrite wsum_fresh by apply lookup_delete_eq. lia.
  - rewrite delete_id by done. lia.
Qed.
Lemma wsum_insert ω m k v : wsum ω (<[k := v]> m) = wsum ω m - ω k * mget m k + ω k * v.
Proof. rewrite <-insert_delete_eq, wsum_fresh by apply lookup_delete_eq. rewrite wsum_delete. lia. Qed.

Section balance.
Context `{Crypto} `{MapOrder} `{ScriptHost} (e : Engine) (t : Transaction) (ω : bytes -> Z).
Hypothesis (Hrun : run_typed e t).
(** Identifiers of the inputs are not zero ([ValidateStatic]). *)
Hypothesis (Hids : Forall (fun o => IsZero32 (ID o) = false) (objs t)).
Abbreviation native := (NativeToken e).
Abbreviation value := (total native ω).
Abbreviation value_out := (total_out native ω).

(** ** Operations that pay only the fee *)

Lemma balanced_fee id acc created consumed special newc r :
  feeOnlyOutputsExcluding e t id acc = Ok (created, consumed) -> set_aside t (fee_excluded id acc) special ->
  value special = value newc ->
  Consumed r = consumed ++ (ID <$> special) -> Created r = created ++ newc -> Outbound r = [] ->
  balanced native ω t r (t_Fee t).
Proof.
  intros E Hs Hb Ec Er Eo. destruct Hrun as (_ & Hh & Hf & _).
  apply (feeOnly_conserves native ω) in E as (-> & Hown & Hv); [|done..].
  exists (coins_outside (fee_excluded id acc) (objs t) ++ special). rewrite Ec, Er, Eo. split; [by rewrite fmap_app|].
  split; [by apply set_aside_submseteq|]. split; [by eapply set_aside_owned|]. rewrite !total_app, value_out_nil. lia.
Qed.

Lemma set_aside_fee o k acc : o ∈ objs t -> Kind o = k -> k <> KindCoin -> set_aside t (fee_excluded (ID o) acc) [o].
Proof.
  intros Ho <- Hk. split; [apply NoDup_singleton|]. apply Forall_singleton. split_and!; [done| |done].
  rewrite Forall_forall in Hids. unfold fee_excluded. rewrite (Hids o Ho). set_solver.
Qed.

(** Kinds that hold no value. *)
Definition inert (kind : Z) : Prop :=
  kind = KindContract \/ kind = KindContractState \/ kind = KindSystem \/ kind = KindDeviceCredential.

Lemma inert_value l : Forall (fun o => inert (Kind o)) l -> value l = 0.
Proof.
  induction 1 as [|o l Ho _ IH]; [done|]. rewrite total_cons, IH, (measure_escrow _ _ _ _ 0); [lia|..];
    by destruct Ho as [-> | [-> | [-> | ->]]].
Qed.

Lemma executeDeployContract_balanced p r : executeDeployContract e t p = Ok r -> balanced native ω t r (t_Fee t).
Proof.
  unfold executeDeployContract, feeOnlyOutputs. intros E. op_inv.
  eapply balanced_fee; [eassumption|apply set_aside_nil| |by rewrite app_nil_r|done|done].
  rewrite total_nil, inert_value; [done|]. constructor; [by left|]. case_match; [|constructor].
  apply Forall_singleton. by right; left.
Qed.

Lemma executeContractCall_balanced p r : executeContractCall e t p = Ok r -> balanced native ω t r (t_Fee t).
Proof.
  unfold executeContractCall. intros E. op_inv. op_facts.
  match goal with Er : rfold (read_state _) _ _ = _, Em : Metered_Execute _ _ = Ok ?x |- _ =>
    pose proof (call_states t _ _ _ _ Em Er) as Hold; apply Metered_writes in Em as Hwr; cbn [rq_Accesses] in Hwr; rename x into result end.
  set (old := old_state (witness_map t)) in *.
  assert (ID <$> (old <$> range_map (cx_Writes result)) = (range_map (cx_Writes result)).*1) as Hid.
  { rewrite <-list_fmap_compose. apply list_fmap_ext. intros i w Hw. cbn. rewrite Forall_lookup in Hold. by apply (Hold i w Hw). }
  eapply (balanced_fee _ _ _ _ (old <$> range_map (cx_Writes result))); [eassumption| | |by rewrite Hid|done|done].
  - split.
    + apply (NoDup_fmap_1 ID). rewrite Hid, range_map_perm. apply NoDup_fst_map_to_list.
    + apply Forall_fmap. rewrite !Forall_forall in *. intros w Hw. cbn. destruct (Hold w Hw) as (? & -> & ->). split; [done|]. split; [|done].
      unfold fee_excluded. apply elem_of_union_r, elem_of_list_to_set. by apply Hwr.
  - rewrite !inert_value; [done| |].
    + apply Forall_app. split; [|apply Forall_singleton; by right; right; left]. apply Forall_fmap.
      eapply Forall_impl; [exact Hold|]. intros w (_ & _ & Hk). right; left. exact Hk.
    + apply Forall_fmap. eapply Forall_impl; [exact Hold|]. intros w (_ & _ & Hk). right; left. exact Hk.
Qed.

Lemma credential_witness_Ok id o c : credential_witness t id = Ok (o, c) -> o ∈ objs t /\ Kind o = KindDeviceCredential.
Proof. unfold credential_witness. intros E. op_inv. op_facts. done. Qed.

Lemma executeDeviceCredential_balanced op r : executeDeviceCredential e t op = Ok r -> balanced native ω t r (t_Fee t).
Proof.
  unfold executeDeviceCredential. repeat case_match; intros E; [..|done].
  - unfold executeDeviceCredentialRegister, feeOnlyOutputs in E. op_inv.
    eapply balanced_fee; [eassumption|apply set_aside_nil| |by rewrite app_nil_r|done|done].
    rewrite total_nil, inert_value; [done|]. apply Forall_singleton. by do 3 right.
  - unfold executeDeviceCredentialUpdate in E. op_inv.
    match goal with E : credential_witness _ _ = _ |- _ => apply credential_witness_Ok in E as [Hin Hk] end.
    eapply balanced_fee; [eassumption|by eapply set_aside_fee| |done|done|done].
    rewrite !inert_value; [done|..]; apply Forall_singleton; by do 3 right.
  - unfold executeDeviceCredentialRevoke in E. op_inv.
    match goal with E : credential_witness _ _ = _ |- _ => apply credential_witness_Ok in E as [Hin Hk] end.
    eapply balanced_fee; [eassumption|by eapply set_aside_fee| |done|by rewrite app_nil_r|done].
    rewrite total_nil, inert_value; [done|]. apply Forall_singleton. by do 3 right.
Qed.

(** ** Token definitions *)

Lemma definition_value o d :
  Kind o = KindTokenDefinition -> ParseDefinition (Data o) = Ok d -> TokenID d <> native ->
  value [o] = - (ω (TokenID d) * CurrentSupply d).
Proof. intros Hk E Hn. rewrite total_cons, total_nil, Hk, (measure_definition _ _ _ _ E Hn). lia. Qed.

Lemma tokenDefinitionWitness_Ok id o d :
  tokenDefinitionWitness t id = Ok (o, d) ->
  o ∈ objs t /\ ID o = id /\ Kind o = KindTokenDefinition /\ ParseDefinition (Data o) = Ok d.
Proof.
  unfold tokenDefinitionWitness. destruct (witnessByID t id) eqn:Ew; [|done]. intros E. op_inv. op_facts. done.
Qed.

(** A definition rewritten with another supply. *)
Lemma resupplied_value o d s raw :
  Kind o = KindTokenDefinition -> ParseDefinition (Data o) = Ok d -> TokenID d <> native -> u64 s ->
  Definition_MarshalBinary (with_supply d s) = Ok raw -> value [bump o raw] = - (ω (TokenID d) * s).
Proof.
  intros Hk Hp Hn Hs Em. apply ParseDefinition_Ok in Hp as ((Ht & Hd & Hpol & Hm & _ & Ha) & _ & Hnm & Hsy).
  apply ParseDefinition_Marshal in Em; [|by split_and!|done|done].
  erewrite definition_value; [|exact Hk|exact Em|done]. done.
Qed.

Lemma coin_object_value owner token amount index s :
  arr32 token -> u64 amount -> NewCoinOutputAtHeight owner token amount (Height e) = Ok s ->
  value [output_object t index s] = ω token * amount.
Proof.
  intros Ht Ha E. apply (coin_output_value e ω) in E as (Hk & _ & Hm); [|done|done|apply Hrun].
  rewrite total_cons, total_nil. cbn [output_object Kind Data]. rewrite Hk, Hm. lia.
Qed.

Lemma executeMintToken_balanced p r : executeMintToken e t p = Ok r -> balanced native ω t r (t_Fee t).
Proof.
  unfold executeMintToken. intros E. op_inv.
  match goal with E : tokenDefinitionWitness _ _ = _ |- _ => apply tokenDefinitionWitness_Ok in E as (Hin & Hid & Hk & Hp) end.
  match goal with E : bool_decide _ || _ = false |- _ => apply orb_false_iff in E as [Hn%bool_decide_eq_false _] end.
  match goal with E : ParseMintToken _ = _ |- _ => apply ParseMintToken_Ok in E as (_ & _ & _ & Hamt & _) end.
  pose proof (ParseDefinition_Ok _ _ Hp) as ((Htok & _ & _ & _ & Hcur & _) & _).
  match goal with E : Mint _ _ = _ |- _ => apply Mint_Ok in E as (-> & _ & Hu & _); [|done|done] end.
  rewrite <-Hid in *.
  eapply balanced_fee; [eassumption|by eapply set_aside_fee| |done|done|done].
  rewrite value_pair, (definition_value _ _ Hk Hp Hn), (resupplied_value _ _ _ _ Hk Hp Hn Hu ltac:(eassumption)),
    (coin_object_value _ _ _ tokenMintOutputIndex _ Htok Hamt ltac:(eassumption)). lia.
Qed.

(** ** Creation *)

Lemma create_inputs a :
  rfold (create_input e t) 0 (t_Witnesses t) = Ok a ->
  value (objs t) = ω native * a /\ u64 a /\ Forall (fun o => Owner o = t_Sender t) (objs t).
Proof.
  intros E. apply (rfold_inv (fun a l => value (w_Object <$> l) = ω native * a /\ u64 a /\
    Forall (fun o => Owner o = t_Sender t) (w_Object <$> l)) _ _ _ _ []) in E; [done| |].
  - split; [rewrite total_nil; lia|]. split; [apply u64_0|constructor].
  - intros x y l w (Hv & Hu & Hown) _ Hs. unfold create_input in Hs. op_inv. op_facts.
    match goal with E : ParseCoin _ = Ok ?c |- _ => pose proof (ParseCoin_Ok _ _ E) as [[(_ & Ha & _) _] _]; rename E into Hp end.
    match goal with E : add_or _ _ _ = _ |- _ => apply add_or_Ok in E as [-> ?]; [|done|by apply Ha] end.
    split; [|split; [done|rewrite fmap_app; apply Forall_app; split; [done|by apply Forall_singleton]]].
    rewrite fmap_app, total_app, Hv. cbn [fmap list_fmap]. rewrite total_cons, total_nil.
    match goal with K : Kind _ = _ |- _ => rewrite K end. rewrite (measure_coin _ _ _ _ Hp).
    match goal with K : Token _ = _ |- _ => rewrite K end. lia.
Qed.

Lemma executeCreateToken_balanced p r :
  in_ObjectID <$> t_Inputs t = ID <$> objs t ->
  TokenIDFromTransaction (tx_ID t) 0 <> native ->
  executeCreateToken e t p = Ok r -> balanced native ω t r (t_Fee t).
Proof.
  intros Hin Hfresh. unfold executeCreateToken. intros E. op_inv. destruct Hrun as (_ & Hh & Hf & _).
  match goal with E : rfold (create_input _ _) _ _ = _ |- _ => apply create_inputs in E as (Hv & Hu & Hown) end.
  match goal with E : rfoldi _ (create_output _ _) _ _ = _ |- _ => apply (create_outputs native ω) in E as [Hw Hu2]; [|done..] end.
  match goal with E : overflows _ _ || _ = false |- _ => apply orb_false_iff in E as [Hov Heq%negb_false_iff%Z.eqb_eq] end.
  destruct (add64_small _ _ Hu2 (proj1 Hf) Hov) as [Es _].
  match goal with E : ParseCreateToken _ = _ |- _ => apply ParseCreateToken_Ok in E as ((Hd & Hp & Hm & Hs & Ha) & Hnm & Hsy) end.
  assert (arr32 (TokenIDFromTransaction (tx_ID t) 0)) as Htok by apply length_DomainHash.
  match goal with E : Definition_MarshalBinary _ = _ |- _ => apply ParseDefinition_Marshal in E; [rename E into Hback|by split_and!|done|done] end.
  exists (objs t). cbn [Consumed Created Outbound]. split; [done|]. split; [done|].
  split; [by eapply Forall_impl; [exact Hown|intros ? ? _]|].
  rewrite total_app, value_pair. erewrite definition_value; [|done|exact Hback|done].
  rewrite (coin_object_value _ _ _ 0x80000001 _ Htok Hs ltac:(eassumption)). cbn [trim_definition TokenID CurrentSupply].
  unfold outs_total in Hw. cbn [fst snd] in Hw. rewrite Hv, Heq, Es. lia.
Qed.

(** ** Burning *)

Lemma coin_value o c : Kind o = KindCoin -> ParseCoin (Data o) = Ok c -> value [o] = ω (Token c) * Amount c.
Proof. intros Hk E. rewrite total_cons, total_nil, Hk, (measure_coin _ _ _ _ E). lia. Qed.

Lemma coin_amount d c : ParseCoin d = Ok c -> 0 <= Amount c.
Proof. intros E. by apply ParseCoin_Ok in E as [[(_ & [? _] & _) _] _]. Qed.

Definition burn_sums (token : bytes) (l : list Object) (a b : Z) : Prop :=
  value l = ω native * a + ω token * b /\ u64 a /\ u64 b.


Lemma burn_inputs id token a b c :
  rfold (burn_input e t id token) (0, 0, []) (t_Witnesses t) = Ok (a, b, c) ->
  burn_sums token (coins_outside {[id]} (objs t)) a b /\ c = ID <$> coins_outside {[id]} (objs t) /\
  Forall (fun o => Owner o = t_Sender t) (coins_outside {[id]} (objs t)).
Proof.
  intros E. refine (rfold_inv (fun st l => burn_sums token (coins_outside {[id]} (w_Object <$> l)) st.1.1 st.1.2 /\
    st.2 = ID <$> coins_outside {[id]} (w_Object <$> l) /\
    Forall (fun o => Owner o = t_Sender t) (coins_outside {[id]} (w_Object <$> l))) _ _ _ _ [] _ _ E);
    [split; [|split; [done|constructor]]; split; [unfold total; cbn; lia|split; apply u64_0]|].
  clear E. intros [[a1 b1] c1] [[a2 b2] c2] l w [(Hv & Ha & Hb) [Hc Hown]] _ Hs. rewrite fmap_app, coins_outside_app. cbn [fst snd] in *.
  change (w_Object <$> [w]) with [w_Object w].
  assert (coins_outside {[id]} [w_Object w] = if bool_decide (ID (w_Object w) = id) then [] else [w_Object w]) as ->.
  { unfold coins_outside. cbn. repeat case_bool_decide; set_solver. }
  unfold burn_input in Hs. case_bool_decide; op_inv; [by rewrite app_nil_r|]. op_facts.
  match goal with E : ParseCoin _ = Ok ?x |- _ => rename E into Hp, x into coin end. pose proof (coin_amount _ _ Hp) as Hnn.
  rewrite fmap_app. unfold burn_sums. rewrite total_app, Hv, (coin_value _ _ ltac:(eassumption) Hp).
  repeat case_bool_decide; op_inv; match goal with E : add_or _ _ _ = _ |- _ => apply add_or_Ok in E as [-> ?]; [|done|done] end;
    (split; [split_and!; [try match goal with K : Token coin = _ |- _ => rewrite K end; lia|done|done]
    |split; [done|apply Forall_app; split; [done|by apply Forall_singleton]]]).
Qed.

Lemma burn_outputs token a b created :
  rfoldi 0 (burn_output e t token) (0, 0, []) (t_Outputs t) = Ok (a, b, created) -> burn_sums token created a b.
Proof.
  intros E. refine (rfoldi_inv (fun st _ => burn_sums token st.2 st.1.1 st.1.2) _ _ _ _ _ [] _ _ _ E); [done|split; [unfold total; cbn; lia|split; apply u64_0]|].
  clear E. intros [[a1 b1] c1] [[a2 b2] c2] l spec (Hv & Ha & Hb) _ Hs. cbn [fst snd] in *.
  unfold burn_output in Hs. op_inv. op_facts.
  match goal with E : ParseCoin _ = Ok ?x |- _ => rename E into Hp, x into coin end. pose proof (coin_amount _ _ Hp) as Hnn.
  match goal with E : stampCoinOutput _ _ = _ |- _ => apply (stamp_measure native ω) in E as (_ & _ & Hm); [|apply Hrun] end.
  assert (value [output_object t (Z.of_nat (length l) mod 2 ^ 32) a0] = ω (Token coin) * Amount coin) as Hval.
  { rewrite total_cons, total_nil. cbn [output_object Kind Data]. rewrite Hm.
    match goal with K : o_Kind _ = _ |- _ => rewrite K end. rewrite (measure_coin _ _ _ _ Hp). lia. }
  unfold burn_sums. rewrite total_app, Hv, Hval.
  repeat case_bool_decide; op_inv; op_facts.
  - match goal with E : add_or _ _ _ = _ |- _ => apply add_or_Ok in E as [-> ?]; [|done|done] end.
    split_and!; [try match goal with K : Token coin = _ |- _ => rewrite K end; lia|done|done].
  - match goal with E : overflows _ _ = false |- _ => destruct (add64_small _ _ Hb Hnn E) as [-> ?] end.
    split_and!; [try match goal with K : Token coin = _ |- _ => rewrite K end; lia|done|done].
Qed.

Lemma executeBurnToken_balanced p r : executeBurnToken e t p = Ok r -> balanced native ω t r (t_Fee t).
Proof.
  unfold executeBurnToken. intros E. op_inv. destruct Hrun as (_ & _ & Hf & _).
  match goal with E : tokenDefinitionWitness _ _ = _ |- _ => apply tokenDefinitionWitness_Ok in E as (Hin & Hid & Hk & Hp) end.
  match goal with E : bool_decide _ || _ = false |- _ => apply orb_false_iff in E as [Hn%bool_decide_eq_false _] end.
  match goal with E : ParseBurnToken _ = _ |- _ => apply ParseBurnToken_Ok in E as (_ & _ & Hamt & _) end.
  pose proof (ParseDefinition_Ok _ _ Hp) as ((Htok & _ & _ & _ & Hcur & _) & _).
  match goal with E : Burn _ _ = _ |- _ => apply Burn_Ok in E as (-> & _ & Hu & _); [|done|done] end.
  match goal with E : rfold (burn_input _ _ _ _) _ _ = _ |- _ => apply burn_inputs in E as ((Hv & _ & _) & -> & Hown) end.
  match goal with E : rfoldi _ (burn_output _ _ _) _ _ = _ |- _ => apply burn_outputs in E as (Hw & Hu1 & Hu2) end.
  op_facts. repeat match goal with E : overflows _ _ = false |- _ =>
    apply add64_small in E as [E _]; [|done|first [by apply Hf|by apply Hamt]] end.
  exists (coins_outside {[bt_DefinitionObject a]} (objs t) ++ [o]). cbn [Consumed Created Outbound].
  split; [by rewrite fmap_app|]. split; [rewrite <-Hid; by eapply set_aside_submseteq, set_aside_one|].
  split; [eapply set_aside_owned; [by eapply set_aside_one|done]|].
  rewrite !total_app, (definition_value _ _ Hk Hp Hn), (resupplied_value _ _ _ _ Hk Hp Hn Hu ltac:(eassumption)), value_out_nil.
  nia.
Qed.

(** ** Transfers *)

Lemma add_Ok m token amount m' :
  map_u64 m -> 0 <= amount -> add m token amount = Ok m' ->
  m' = <[token := mget m token + amount]> m /\ map_u64 m'.
Proof.
  unfold add. intros Hm Ha E. op_inv.
  match goal with E : overflows _ _ = false |- _ => destruct (add64_small _ _ (Hm token) Ha E) as [-> Hu] end.
  split; [done|]. intros k. unfold mget. rewrite lookup_insert. case_decide; [done|]. apply Hm.
Qed.

(** Does a list of witnesses hold a coin of the native token? *)
Definition native_input (o : Object) : bool :=
  (Kind o =? KindCoin) && match ParseCoin (Data o) with Ok c => bool_decide (Token c = native) | Err _ => false end.

Definition coins (l : list Object) : list Object := List.filter (fun o => Kind o =? KindCoin) l.

Record transferred (l : list Object) (st : TransferIn) : Prop := {
  tr_value : wsum ω (ti_Totals st) = value (coins l);
  tr_range : map_u64 (ti_Totals st);
  tr_native : bool_decide (is_Some (ti_Totals st !! native)) = existsb native_input l;
  tr_consumed : ti_Consumed st = ID <$> coins l;
  tr_owned : Forall (fun o => Owner o = t_Sender t) (coins l);
}.

Lemma transfer_inputs st :
  rfold (transfer_input e t) (mkTransferIn ∅ ∅ []) (t_Witnesses t) = Ok st -> transferred (objs t) st.
Proof.
  intros E. refine (rfold_inv (fun st l => transferred (w_Object <$> l) st) _ _ _ _ [] _ _ E); clear E.
  { constructor; cbn; [by rewrite wsum_empty|apply map_u64_empty| |done|constructor]. by rewrite lookup_empty. }
  intros s1 s2 l w [Hv Hm Hn Hc Hown] _ Hs. rewrite fmap_app. change (w_Object <$> [w]) with [w_Object w].
  unfold transfer_input in Hs. destruct (Kind (w_Object w) =? KindCoin) eqn:Ek; op_inv.
  - match goal with E : ParseCoin _ = Ok ?x |- _ => rename E into Hp, x into coin end. pose proof (coin_amount _ _ Hp) as Hnn.
    match goal with E : add _ _ _ = _ |- _ => apply add_Ok in E as [-> Hu]; [|done|done] end.
    assert (coins ((w_Object <$> l) ++ [w_Object w]) = coins (w_Object <$> l) ++ [w_Object w]) as Hco.
    { unfold coins. rewrite List.filter_app. cbn. by rewrite Ek. }
    constructor; cbn [ti_Totals ti_Consumed]; rewrite ?Hco.
    + apply Z.eqb_eq in Ek. rewrite wsum_insert, total_app, Hv, (coin_value _ _ Ek Hp). lia.
    + done.
    + rewrite existsb_app, <-Hn. cbn [existsb]. unfold native_input. rewrite Ek, Hp. cbn.
      rewrite lookup_insert, orb_false_r. case_decide as Ht.
      * rewrite (bool_decide_eq_true_2 (is_Some (Some _))) by eauto. symmetry. apply orb_true_iff. right.
        by apply bool_decide_eq_true_2.
      * by rewrite (bool_decide_eq_false_2 (Token coin = native)), orb_false_r.
    + by rewrite Hc, fmap_app.
    + op_facts. apply Forall_app. split; [done|by apply Forall_singleton].
  - destruct (Kind (w_Object w) =? KindTokenDefinition); op_inv.
    assert (coins ((w_Object <$> l) ++ [w_Object w]) = coins (w_Object <$> l)) as Hco.
    { unfold coins. rewrite List.filter_app. cbn. by rewrite Ek, app_nil_r. }
    constructor; cbn [ti_Totals ti_Consumed]; rewrite ?Hco; try done.
    rewrite existsb_app, <-Hn. cbn [existsb]. unfold native_input. by rewrite Ek, !orb_false_r.
Qed.

Lemma transfer_outputs defs totals outs :
  rfoldi 0 (transfer_output e t defs) (∅, ([], [])) (t_Outputs t) = Ok (totals, outs) ->
  wsum ω totals = outs_total native ω outs /\ map_u64 totals.
Proof.
  intros E. refine (rfoldi_inv (fun st _ => wsum ω st.1 = outs_total native ω st.2 /\ map_u64 st.1) _ _ _ _ _ [] _ _ _ E);
    [done|split; [by rewrite wsum_empty|apply map_u64_empty]|].
  clear E. intros [m1 o1] [m2 o2] l spec [Hv Hm] _ Hs. cbn [fst snd] in *. unfold transfer_output in Hs. op_inv. op_facts.
  match goal with E : ParseCoin _ = Ok ?x |- _ => rename E into Hp, x into coin end. pose proof (coin_amount _ _ Hp) as Hnn.
  match goal with E : stampCoinOutput _ _ = _ |- _ => apply (stamp_measure native ω) in E as (_ & _ & Hms); [|apply Hrun] end.
  match goal with E : add _ _ _ = _ |- _ => apply add_Ok in E as [-> Hu]; [|done|done] end.
  split; [|done]. rewrite route_total, wsum_insert, Hv, Hms.
  match goal with K : o_Kind _ = _ |- _ => rewrite K end. rewrite (measure_coin _ _ _ _ Hp). lia.
Qed.

(** The last loop: what was summed up equals the outputs, plus the fee if the
    native token was among the inputs. *)
Lemma transfer_balanced defs out0 left entries :
  map_u64 out0 -> NoDup entries.*1 -> rfold (transfer_balance e t defs) out0 entries = Ok left ->
  wsum ω left + zsum ((fun kv => ω kv.1 * kv.2) <$> entries)
    = wsum ω out0 + (if bool_decide (native ∈ entries.*1) then ω native * t_Fee t else 0).
Proof.
  intros Hm Hnd E. destruct Hrun as (_ & _ & Hf & _).
  cut (map_u64 left /\ (NoDup entries.*1 -> wsum ω left + zsum ((fun kv => ω kv.1 * kv.2) <$> entries)
    = wsum ω out0 + (if bool_decide (native ∈ entries.*1) then ω native * t_Fee t else 0))); [tauto|]. clear Hnd.
  refine (rfold_inv (fun m l => map_u64 m /\ (NoDup l.*1 -> wsum ω m + zsum ((fun kv => ω kv.1 * kv.2) <$> l)
    = wsum ω out0 + (if bool_decide (native ∈ l.*1) then ω native * t_Fee t else 0))) _ _ _ _ [] _ _ E); clear E.
  { split; [done|]. intros _. cbn. rewrite bool_decide_eq_false_2 by apply not_elem_of_nil. lia. }
  intros m1 m2 l [token amount] [Hr IH] _ Hs. unfold transfer_balance in Hs. op_inv. op_facts.
  split. { intros k. unfold mget. rewrite lookup_delete. destruct (decide (token = k)); [apply u64_0|apply Hr]. }
  rewrite !fmap_app, zsum_app. intros (Hnd & Hdis & _)%NoDup_app. specialize (IH Hnd). rewrite wsum_delete.
  cbn [fmap list_fmap fst snd]. change (zsum [ω token * amount]) with (ω token * amount + 0).
  assert (token ∉ l.*1) as Hni by (intros Hin; apply (Hdis _ Hin); left).
  destruct (bool_decide (token = native)) eqn:Et; op_inv.
  - apply bool_decide_eq_true in Et as ->.
    match goal with E : add_or _ _ _ = _ |- _ => apply add_or_Ok in E as [-> _]; [|apply Hr|apply Hf] end.
    rewrite (bool_decide_eq_false_2 _ Hni) in IH. rewrite bool_decide_eq_true_2 by (apply elem_of_app; right; left). lia.
  - apply bool_decide_eq_false in Et.
    rewrite (bool_decide_ext (native ∈ l.*1 ++ [token]) (native ∈ l.*1)); [lia|].
    rewrite elem_of_app, list_elem_of_singleton. split; [intros [?|?]; [done|congruence]|by left].
Qed.

Lemma executeTransfer_balanced r :
  executeTransfer e t = Ok r ->
  balanced native ω t r (if existsb native_input (objs t) then t_Fee t else 0).
Proof.
  unfold executeTransfer. intros E. op_inv.
  match goal with E : rfold (transfer_input _ _) _ _ = Ok ?st |- _ => apply transfer_inputs in E as [Hv Hm Hn Hc Hown]; rename st into inp end.
  match goal with E : rfoldi _ (transfer_output _ _ _) _ _ = _ |- _ => apply transfer_outputs in E as [Hw Hm2] end.
  match goal with E : rfold (transfer_balance _ _ _) _ _ = _ |- _ => apply transfer_balanced in E as Hb; [|done|] end.
  2:{ rewrite range_map_perm. apply NoDup_fst_map_to_list. }
  match goal with E : negb (bool_decide (_ = ∅)) = false |- _ => apply negb_false_iff, bool_decide_eq_true in E as -> end.
  exists (coins (objs t)). cbn [Consumed Created Outbound]. split; [done|]. split.
  { rewrite <-(filter_complement_perm (fun o => Kind o =? KindCoin) (objs t)) at 2. apply submseteq_inserts_r. done. }
  split; [by eapply Forall_impl; [exact Hown|intros ? ? _]|].
  rewrite (bool_decide_ext _ _ (range_map_keys _ _)), Hn, wsum_empty in Hb.
  unfold outs_total in Hw. cbn [fst snd] in Hw. rewrite <-Hv. unfold wsum at 1. rewrite range_map_perm in Hb.
  destruct (existsb _ _); lia.
Qed.
End balance.
