(* ===== verification/ExecutionProofs.v ===== *)
(** * ExecutionProofs

    The engine as a whole: every transaction [Engine.Execute] accepts conserves
    value and spends only the sender's coins. *)

From S2P Require Import Prelude GoLib Codec Crypto Types Merkle Object Assets Sharding Smt Tx TxProofs Lending.
From S2P Require Import ComputeModel ComputeWire ComputeMarket ComputeProofs Contracts DeviceCredential Execution.
From S2P Require Import ExecutionExtended ExecutionValue ExecutionLoans ExecutionCompute ExecutionTokens.

Open Scope Z_scope.

(** The fee an accepted transaction pays: a transfer without a native coin
    among its inputs pays none. *)
Definition charged (e : Engine) (t : Transaction) : Z :=
  if existsb (fun op => op_Kind op =? OpTransfer) (t_Operations t) && negb (existsb (native_input e) (objs t))
  then 0 else t_Fee t.

(** The operation does not create a token whose identifier is the native one. *)
Definition fresh_token `{Crypto} (e : Engine) (t : Transaction) : Prop :=
  Forall (fun op => op_Kind op = OpCreateToken) (t_Operations t) ->
  TokenIDFromTransaction (tx_ID t) 0 <> NativeToken e.

Section proofs.
Context `{Crypto} `{MapOrder} `{ScriptHost}.

(** The witnesses are the objects the inputs name, in order. *)
Lemma VerifyWitnesses_ids t : VerifyWitnesses t = Ok tt -> in_ObjectID <$> t_Inputs t = ID <$> objs t.
Proof.
  unfold VerifyWitnesses, objs. intros E. apply bind_Ok in E as ([] & Hl%fail_if_Ok & E).
  apply rfold_unit_Forall in E. assert (length (t_Witnesses t) = length (t_Inputs t)) as Hlen by (unfold blen in Hl; lia).
  clear Hl. revert E Hlen. generalize (t_Witnesses t). induction (t_Inputs t) as [|i l IH]; intros [|w ws] E Hlen; try done.
  cbn in E. apply Forall_cons_1 in E as [Hi E]. cbn in Hlen. cbn [fmap list_fmap]. f_equal; [|apply IH; [done|lia]].
  cbn [fst snd] in Hi. unfold verify_witness in Hi. op_inv. op_facts. bool_inv. done.
Qed.

Lemma Execute_inputs e t r :
  Execute e t = Ok r ->
  in_ObjectID <$> t_Inputs t = ID <$> objs t /\ NoDup (ID <$> objs t) /\
  Forall (fun o => IsZero32 (ID o) = false) (objs t).
Proof.
  unfold Execute. intros E. apply bind_Ok in E as ([] & Hv & E). apply bind_Ok in E as ([] & Hw%VerifyWitnesses_ids & _).
  unfold VerifyForNetwork in Hv. apply bind_Ok in Hv as (? & _ & Hv).
  apply ValidateStatic_Ok in Hv as (_ & _ & Hnd & Hz & _). rewrite Hw in Hnd. split_and!; [done|done|].
  assert (Forall (fun x => IsZero32 x = false) (ID <$> objs t)) as Hi; [|by apply Forall_fmap in Hi]. rewrite <-Hw. apply Forall_fmap.
  eapply Forall_impl; [exact Hz|]. by intros i [? _].
Qed.

Lemma with_shards_typed e t : run_typed e t -> run_typed (with_shards e) t.
Proof.
  intros (? & ? & ? & Hs). split_and!; try done. cbn. unfold shard_count. case_match; [by split|done].
Qed.

Lemma executeExtended_balanced e t op ω r :
  run_typed e t -> Forall (fun o => IsZero32 (ID o) = false) (objs t) -> Forall job_room (objs t) ->
  executeExtended e t op = Ok r -> balanced (NativeToken e) ω t r (t_Fee t).
Proof.
  intros Hrun Hids Hroom E. unfold executeExtended in E. cbv zeta in E.
  repeat (destruct (_ =? _); [eauto using executeDeployContract_balanced, executeContractCall_balanced,
    executeMintToken_balanced, executeBurnToken_balanced|]).
  repeat (destruct (is_one_of _ _); [eauto using executeCompute_balanced, executeLending_balanced,
    executeDeviceCredential_balanced, executeCrossShardLending_balanced|]). done.
Qed.

Lemma Execute_balanced e t r ω :
  run_typed e t -> Forall job_room (objs t) -> fresh_token e t ->
  Execute e t = Ok r -> balanced (NativeToken e) ω t r (charged e t).
Proof.
  intros Hrun Hroom Hfresh E. destruct (Execute_inputs _ _ _ E) as (Hids & _ & Hz).
  apply with_shards_typed in Hrun. change (NativeToken e) with (NativeToken (with_shards e)).
  unfold Execute in E. cbv zeta in E. do 5 apply bind_Ok in E as (? & _ & E). destruct (t_Operations t) as [|op [|]] eqn:Eo; try done.
  unfold charged. rewrite Eo. cbn [existsb]. rewrite orb_false_r.
  destruct (op_Kind op =? OpTransfer) eqn:E1.
  - cbn [andb]. eapply (executeTransfer_balanced (with_shards e)) in E; [|done]. by destruct (existsb _ _).
  - cbn [andb]. destruct (op_Kind op =? OpCreateToken) eqn:E2.
    + eapply (executeCreateToken_balanced (with_shards e)); [done|done| |done].
      apply Hfresh. rewrite Eo. apply Forall_singleton. by apply Z.eqb_eq.
    + by eapply executeExtended_balanced.
Qed.

(** The witnesses a result consumes. *)
Definition spent (t : Transaction) (r : Result) : list Object :=
  List.filter (fun o => bool_decide (ID o ∈ Consumed r)) (objs t).

Lemma NoDup_fmap_inj {A B} (f : A -> B) l x y : NoDup (f <$> l) -> x ∈ l -> y ∈ l -> f x = f y -> x = y.
Proof.
  intros Hnd Hx Hy E. apply list_elem_of_lookup in Hx as [i Hi]. apply list_elem_of_lookup in Hy as [j Hj].
  assert (i = j) as ->; [|congruence]. eapply (NoDup_lookup (f <$> l)); [done|..]; rewrite list_lookup_fmap, ?Hi, ?Hj; [done|].
  cbn. by rewrite E.
Qed.

Lemma spent_perm t r l : NoDup (ID <$> objs t) -> l ⊆+ objs t -> Consumed r = ID <$> l -> spent t r ≡ₚ l.
Proof.
  intros Hnd Hl Hc. pose proof (NoDup_fmap_1 _ _ Hnd) as Hnd'. apply NoDup_Permutation.
  - by apply NoDup_ListNoDup, List.NoDup_filter, NoDup_ListNoDup.
  - apply submseteq_Permutation in Hl as [k Hp]. rewrite Hp in Hnd'. by apply NoDup_app in Hnd' as [? _].
  - intros o. unfold spent. rewrite elem_of_List_filter, bool_decide_eq_true, Hc. split.
    + intros [Ho (x & Ex & Hx)%list_elem_of_fmap]. assert (x ∈ objs t) by by eapply elem_of_submseteq.
      by rewrite (NoDup_fmap_inj _ _ _ _ Hnd Ho ltac:(eassumption) Ex).
    + intros Ho. split; [by eapply elem_of_submseteq|]. by apply list_elem_of_fmap_2.
Qed.

(** C10: conservation of value, as long as no job among the inputs holds 1024
    assignments or 1024 results, the most its decoder reads, and the identifier of
    a token the transaction creates is not that of the native token.  For every
    weight of the tokens, whatever a transaction the engine accepts consumes is worth exactly what it creates,
    what it sends to other shards and the fee it pays; the consumed objects are
    distinct inputs of the transaction.  With weight 1 on the native token and
    0 elsewhere: native coins, including those locked in loans, offers, jobs
    and messages between shards, are neither created nor destroyed.  With
    weight 1 on another token: its coins in circulation change exactly by the
    change of the supply its definition records.  (A job that grows beyond 1024
    entries is written and cannot be read again: its escrow is lost.) *)
Theorem execute_conserves_value (e : Engine) (t : Transaction) (r : Result) :
  run_typed e t -> Forall job_room (objs t) -> fresh_token e t -> Execute e t = Ok r ->
  NoDup (Consumed r) /\ Consumed r ≡ₚ ID <$> spent t r /\
  forall ω, total (NativeToken e) ω (spent t r)
    = total (NativeToken e) ω (Created r) + total_out (NativeToken e) ω (Outbound r) + ω (NativeToken e) * charged e t.
Proof.
  intros Hrun Hroom Hfresh E. destruct (Execute_inputs _ _ _ E) as (_ & Hnd & _).
  pose proof (fun ω => Execute_balanced e t r ω Hrun Hroom Hfresh E) as Hbal. split_and!.
  - destruct (Hbal (fun _ => 0)) as (l & Hc & Hl & _). rewrite Hc.
    apply (fmap_submseteq ID) in Hl. apply submseteq_Permutation in Hl as [k Hp]. rewrite Hp in Hnd. by apply NoDup_app in Hnd as [? _].
  - destruct (Hbal (fun _ => 0)) as (l & Hc & Hl & _). by rewrite (spent_perm t r l), Hc.
  - intros ω. destruct (Hbal ω) as (l & Hc & Hl & _ & Hv). by rewrite (spent_perm t r l).
Qed.

End proofs.

(** ** A transfer of ten native coins: seven to another account, three of fee *)

Module Example.
#[local] Existing Instance small_crypto.
#[local] Existing Instance some_order.

Definition sender : bytes := AccountIDFromPublicKey sample_pk.
Definition token : bytes := be 32 1.
Definition coin : Object := mkObject (be 32 77) 1 sender KindCoin (Coin_MarshalBinary (mkCoin token 10 0)).
Definition tree : Smt.Tree := fst (Smt.Update Smt.NewTree (be 32 77) (Some (Object_Hash coin))).
Definition payment : OutputSpec := mkOutputSpec (be 32 5) KindCoin (Coin_MarshalBinary (mkCoin token 7 0)).
Definition transfer : Transaction :=
  mkTransaction 2 (be 32 3) 0 sender sample_pk (Smt.Root tree)
    [mkInputRef (be 32 77) 1 (Object_Hash coin)] [payment] [mkOperation OpTransfer []] 3 0 (be 16 1)
    (be 32 1 ++ be 32 1) [mkWitness coin (Smt.Prove tree (be 32 77))].
Definition engine : Engine := mkEngine (be 32 3) token 1 9 ∅.
(** A host without a script runtime of its own. *)
Definition host : ScriptHost :=
  {| ScriptRuntime := mkRuntime (fun _ => Err ErrInvalidModule) (fun _ => Err ErrInvalidRequest) |}.
#[local] Existing Instance host.

Lemma run_ok : run_typed engine transfer.
Proof. repeat split; cbn; discriminate. Qed.
Lemma room : Forall job_room (objs transfer).
Proof. apply Forall_singleton. intros Hk. change (KindCoin = KindComputeJob) in Hk. vm_compute in Hk. discriminate Hk. Qed.
Lemma fresh : fresh_token engine transfer.
Proof.
  intros Hop. apply (Forall_inv (a := mkOperation OpTransfer [])) in Hop. change (OpTransfer = OpCreateToken) in Hop.
  vm_compute in Hop. discriminate Hop.
Qed.
Lemma accepted : is_ok (Execute engine transfer) = true.
Proof. vm_compute. reflexivity. Qed.
End Example.

Lemma execute_conserves_value_witness :
  exists r, Execute (H := small_crypto) (H0 := some_order) (H1 := Example.host) Example.engine Example.transfer = Ok r /\
    NoDup (Consumed r) /\ charged Example.engine Example.transfer = 3.
Proof.
  destruct (is_ok_true _ Example.accepted) as [r E]. exists r. split; [exact E|]. split; [|reflexivity].
  exact (proj1 (execute_conserves_value _ _ _ Example.run_ok Example.room Example.fresh E)).
Defined.

