(* ===== verification/ExecutionIds.v ===== *)
(** * ExecutionIds

    The origin of the objects a transaction creates: each is either the next
    version of an input it consumes, or a first version whose identifier is
    derived from the transaction's hash and an output index, on the
    transaction's shard. *)

From S2P Require Import Prelude GoLib Codec Crypto Types Merkle Object Assets Sharding Smt Tx TxProofs Lending.
From S2P Require Import ComputeModel ComputeWire ComputeMarket ComputeProofs Contracts DeviceCredential Execution.
From S2P Require Import ExecutionExtended ExecutionValue ExecutionLoans ExecutionCompute ExecutionTokens.

Open Scope Z_scope.

Section ids.
Context `{Crypto} `{MapOrder} `{ScriptHost} (e : Engine) (t : Transaction).

(** Made by output [i] of the transaction. *)
Definition tx_made (o : Object) : Prop := Version o = 1 /\ exists i, ID o = ObjectIDForShard (tx_ID t) i (t_ShardID t).
(** The next version of a consumed input. *)
Definition next_version (r : Result) (o : Object) : Prop :=
  exists x d, x ∈ objs t /\ ID x ∈ Consumed r /\ o = bump x d.

Definition identified (r : Result) : Prop := Forall (fun o => next_version r o \/ tx_made o) (Created r).

Lemma identified_ids r : identified r -> Forall (fun o => ID o ∈ Consumed r \/ exists i, ID o = ObjectIDForShard (tx_ID t) i (t_ShardID t)) (Created r).
Proof. intros Hi. eapply Forall_impl; [exact Hi|]. intros o [(x & d & _ & Hx & ->)|[_ ?]]; [by left|by right]. Qed.

Lemma credential_in id o c : credential_witness t id = Ok (o, c) -> o ∈ objs t.
Proof. unfold credential_witness. intros E. op_inv. op_facts. done. Qed.

Lemma identified_intro r made rest :
  Created r ≡ₚ made ++ rest -> Forall tx_made made -> Forall (fun o => next_version r o \/ tx_made o) rest -> identified r.
Proof.
  intros Hp Hm Hr. unfold identified. rewrite Hp. apply Forall_app. split; [|done].
  eapply Forall_impl; [exact Hm|]. by right.
Qed.

Lemma tx_made_output i spec : tx_made (output_object t i spec).
Proof. split; [done|by exists i]. Qed.
Lemma tx_made_object i o k d : tx_made (mkObject (ObjectIDForShard (tx_ID t) i (t_ShardID t)) 1 o k d).
Proof. split; [done|by exists i]. Qed.

Lemma route_made st d i spec : Forall tx_made st.1 -> Forall tx_made (route t st d i spec).1.
Proof.
  unfold route. intros Hs. destruct (_ =? _); [|done]. apply Forall_app. split; [done|].
  apply Forall_singleton, tx_made_output.
Qed.

Lemma routed_made created outbound d i spec c' o' :
  route t (created, outbound) d i spec = (c', o') -> Forall tx_made created -> Forall tx_made c'.
Proof. intros E Hc. pose proof (route_made (created, outbound) d i spec Hc) as Hr. by rewrite E in Hr. Qed.

(** Every output loop appends objects made by the transaction. *)
Lemma account_made X i o created outbound consumed :
  accountNativeValue e t X i o = Ok (created, outbound, consumed) -> Forall tx_made created.
Proof.
  unfold accountNativeValue. intros E. op_inv.
  match goal with E : rfoldi _ _ _ _ = _ |- _ =>
    refine (rfoldi_inv (fun st _ => Forall tx_made st.2.1) _ _ _ _ _ [] _ _ _ E); [done|constructor|] end.
  intros [a1 o1] [a2 o2] l spec Hs _ E. unfold account_output in E. op_inv. by apply route_made.
Qed.

Lemma fee_made id acc created consumed :
  feeOnlyOutputsExcluding e t id acc = Ok (created, consumed) -> Forall tx_made created.
Proof.
  unfold feeOnlyOutputsExcluding. intros E. op_inv.
  match goal with E : rfoldi _ _ _ _ = _ |- _ =>
    refine (rfoldi_inv (fun st _ => Forall tx_made st.2) _ _ _ _ _ [] _ _ _ E); [done|constructor|] end.
  intros [a1 o1] [a2 o2] l spec Hs _ E. unfold fee_output in E. op_inv. apply Forall_app. split; [done|].
  apply Forall_singleton, tx_made_output.
Qed.

Lemma create_made a created outbound :
  rfoldi 0 (create_output e t) (0, ([], [])) (t_Outputs t) = Ok (a, (created, outbound)) -> Forall tx_made created.
Proof.
  intros E. refine (rfoldi_inv (fun st _ => Forall tx_made st.2.1) _ _ _ _ _ [] _ _ _ E); [done|constructor|]. clear E.
  intros [a1 o1] [a2 o2] l spec Hs _ E. unfold create_output in E. op_inv. by apply route_made.
Qed.

Lemma burn_made token a b created :
  rfoldi 0 (burn_output e t token) (0, 0, []) (t_Outputs t) = Ok (a, b, created) -> Forall tx_made created.
Proof.
  intros E. refine (rfoldi_inv (fun st _ => Forall tx_made st.2) _ _ _ _ _ [] _ _ _ E); [done|constructor|]. clear E.
  intros [[a1 b1] o1] [[a2 b2] o2] l spec Hs _ E. unfold burn_output in E. op_inv. apply Forall_app. split; [done|].
  apply Forall_singleton, tx_made_output.
Qed.

Lemma transfer_made defs m created outbound :
  rfoldi 0 (transfer_output e t defs) (∅, ([], [])) (t_Outputs t) = Ok (m, (created, outbound)) -> Forall tx_made created.
Proof.
  intros E. refine (rfoldi_inv (fun st _ => Forall tx_made st.2.1) _ _ _ _ _ [] _ _ _ E); [done|constructor|]. clear E.
  intros [a1 o1] [a2 o2] l spec Hs _ E. unfold transfer_output in E. op_inv. by apply route_made.
Qed.

Lemma settlement_made record s created outbound amount :
  settlementOutputs e t record s = Ok (created, outbound, amount) -> Forall tx_made created.
Proof.
  unfold settlementOutputs. intros E. op_inv.
  match goal with E : rfoldi _ _ _ _ = _ |- _ =>
    refine (rfoldi_inv (fun st _ => Forall tx_made st.2.1) _ _ _ _ _ [] _ _ _ E); [done|constructor|] end.
  intros [a1 o1] [a2 o2] l spec Hs _ E. unfold settlement_output in E. op_inv. by apply route_made.
Qed.

Lemma payout_made owner amount i o : lendingPayout e t owner amount i = Ok o -> tx_made o.
Proof. unfold lendingPayout. intros E. op_inv. apply tx_made_object. Qed.
Lemma optional_payout_made owner amount i l : optional_payout e t owner amount i = Ok l -> Forall tx_made l.
Proof.
  unfold optional_payout. destruct (_ <? _); intros E; op_inv; [|constructor].
  apply Forall_singleton. by eapply payout_made.
Qed.

Create HintDb made.
#[local] Hint Resolve account_made fee_made create_made burn_made transfer_made settlement_made payout_made
  optional_payout_made routed_made tx_made_output tx_made_object : made.

(** Split the created list and close every part. *)
Ltac ids_tac :=
  op_facts;
  repeat match goal with
  | E : credential_witness _ _ = Ok _ |- _ => apply credential_in in E
  | E : tokenDefinitionWitness _ _ = Ok _ |- _ => apply tokenDefinitionWitness_Ok in E as (? & _)
  | E : ingest_witnesses _ _ _ = Ok _ |- _ => apply ingest_witnesses_Ok in E as (? & ? & _)
  end;
  unfold identified; cbn [Created Consumed];
  repeat (apply Forall_app; split); repeat (apply Forall_cons; split); try apply Forall_nil_2;
  first [ left; refine (ex_intro _ _ (ex_intro _ _ (conj _ (conj _ eq_refl)))); [done|cbn [Consumed ID]; set_solver]
        | right; solve [eauto with made]
        | eapply Forall_impl; [solve [eauto with made]|by right] ].

Lemma executeLending_ids op r : executeLending e t op = Ok r -> identified r.
Proof.
  unfold executeLending. repeat case_match; intros E; [..|done];
  unfold executeLoanOffer, executeLoanCancel, executeLoanAccept, executeLoanRepay, executeLoanDefault in E; op_inv; ids_tac.
Qed.

Lemma executeCrossShardLending_ids op r : executeCrossShardLending e t op = Ok r -> identified r.
Proof.
  unfold executeCrossShardLending. repeat case_match; intros E; [..|done].
  2:{ unfold executeCrossLoanAccept in E. op_inv. op_facts. match goal with E : _ = t_ShardID t |- _ => rewrite E end. ids_tac. }
  all: unfold executeCrossLoanOffer, executeCrossLoanRepay, executeCrossLoanSettle, executeCrossLoanDefault,
    executeCrossLoanExpire in E; op_inv; ids_tac.
Qed.

Lemma executeCompute_ids op r : executeCompute e t op = Ok r -> identified r.
Proof.
  unfold executeCompute. repeat case_match; intros E; [..|done];
  unfold executeComputeOffer, executeComputeJob, executeComputeAccept, executeComputeResult, executeComputeIngestAssignment,
    executeComputeIngestResult, executeComputeFinalize, executeComputeExpire, settle, NewOfferObject, NewJobObject in E; op_inv; ids_tac.
Qed.

Lemma executeContracts_ids p r :
  executeDeployContract e t p = Ok r \/ executeContractCall e t p = Ok r -> identified r.
Proof.
  intros [E|E]; unfold executeDeployContract, executeContractCall, feeOnlyOutputs in E; op_inv.
  - destruct (0 <? _); ids_tac.
  - match goal with Er : rfold (read_state _) _ _ = _, Em : Metered_Execute _ _ = Ok _ |- _ =>
      pose proof (call_states t _ _ _ _ Em Er) as Hold end.
    unfold identified. cbn [Created Consumed]. apply Forall_app. split; [eapply Forall_impl; [eauto with made|by right]|].
    apply Forall_app. split; [|apply Forall_singleton; right; apply tx_made_object].
    apply Forall_fmap, Forall_forall. intros w Hw. left. rewrite Forall_forall in Hold. destruct (Hold w Hw) as (Hin & Hid & _).
    exists (old_state (witness_map t) w), w.2. split; [done|]. split; [|done]. cbn [Consumed]. rewrite Hid.
    apply elem_of_app. right. by apply list_elem_of_fmap_2.
Qed.

Lemma executeDeviceCredential_ids op r : executeDeviceCredential e t op = Ok r -> identified r.
Proof.
  unfold executeDeviceCredential. repeat case_match; intros E; [..|done];
  unfold executeDeviceCredentialRegister, executeDeviceCredentialUpdate, executeDeviceCredentialRevoke, feeOnlyOutputs in E;
  op_inv; ids_tac.
Qed.

Lemma executeTokens_ids p r :
  executeCreateToken e t p = Ok r \/ executeMintToken e t p = Ok r \/ executeBurnToken e t p = Ok r -> identified r.
Proof.
  intros [E|[E|E]]; unfold executeCreateToken, executeMintToken, executeBurnToken in E; op_inv; ids_tac.
Qed.

Lemma executeTransfer_ids r : executeTransfer e t = Ok r -> identified r.
Proof. intros E. unfold executeTransfer in E. op_inv. ids_tac. Qed.
End ids.

(** What [Execute] runs once the transaction is verified. *)
Lemma Execute_dispatch `{Crypto} `{MapOrder} `{ScriptHost} e t r :
  Execute e t = Ok r ->
  exists op, t_Operations t = [op] /\
    ((op_Kind op = OpTransfer /\ executeTransfer (with_shards e) t = Ok r) \/
     (op_Kind op = OpCreateToken /\ executeCreateToken (with_shards e) t (op_Payload op) = Ok r) \/
     (op_Kind op <> OpTransfer /\ executeExtended (with_shards e) t op = Ok r)).
Proof.
  unfold Execute. intros E. cbv zeta in E. do 5 apply bind_Ok in E as (? & _ & E).
  destruct (t_Operations t) as [|op [|]]; try done. exists op. split; [done|].
  destruct (Z.eqb_spec (op_Kind op) OpTransfer) as [E1|E1]; [by left|].
  destruct (Z.eqb_spec (op_Kind op) OpCreateToken) as [E2|E2]; [by right; left|by right; right].
Qed.

Lemma Execute_ids `{Crypto} `{MapOrder} `{ScriptHost} e t r : Execute e t = Ok r -> identified t r.
Proof.
  intros (op & _ & [[_ E]|[[_ E]|[_ E]]])%Execute_dispatch; [by eapply executeTransfer_ids|eapply executeTokens_ids; eauto|].
  unfold executeExtended in E. cbv zeta in E.
  destruct (_ =? _); [eapply executeContracts_ids; eauto|]. destruct (_ =? _); [eapply executeContracts_ids; eauto|].
  destruct (_ =? _); [eapply executeTokens_ids; eauto|]. destruct (_ =? _); [eapply executeTokens_ids; eauto|].
  destruct (is_one_of _ _); [by eapply executeCompute_ids|]. destruct (is_one_of _ _); [by eapply executeLending_ids|].
  destruct (is_one_of _ _); [by eapply executeDeviceCredential_ids|].
  destruct (is_one_of _ _); [by eapply executeCrossShardLending_ids|]. done.
Qed.
