(* ===== verification/ExecutionTyping.v ===== *)
(** * ExecutionTyping

    Type preservation of the engine: a transaction over well-formed objects
    creates first versions under derived identifiers and next versions of what it
    consumes, and sends well-formed outputs, so that the store rejects them only
    for their size, or at the end of the versions, or for an identifier that
    hashes to zero. *)

From S2P Require Import Prelude GoLib Codec Crypto Types Merkle Object Assets Sharding Smt SmtTheorems Tx TxProofs.
From S2P Require Import Lending ComputeModel ComputeWire ComputeMarket ComputeProofs Contracts DeviceCredential.
From S2P Require Import Execution ExecutionExtended ExecutionValue ExecutionLoans ExecutionCompute ExecutionTokens.
From S2P Require Import ExecutionIds ExecutionProofs.

Open Scope Z_scope.

(** A known kind with an owner, which only system objects may lack. *)
Definition addressed (owner : bytes) (kind : Z) : Prop :=
  arr32 owner /\ u16 kind /\ kind <> KindUnknown /\ (kind = KindSystem \/ IsZero32 owner = false).
Definition well_made (o : Object) : Prop := arr32 (ID o) /\ u64 (Version o) /\ addressed (Owner o) (Kind o).
Definition spec_made (s : OutputSpec) : Prop := addressed (o_Owner s) (o_Kind s).
Definition sent_made (x : OutboundOutput) : Prop := spec_made (ob_Output x).
Definition outs_made (st : list Object * list OutboundOutput) : Prop := Forall well_made st.1 /\ Forall sent_made st.2.
Definition result_made (r : Result) : Prop := Forall well_made (Created r) /\ Forall sent_made (Outbound r).

Lemma validateOwnerForKind_Ok owner kind :
  validateOwnerForKind owner kind = Ok tt <-> kind = KindSystem \/ IsZero32 owner = false.
Proof.
  unfold validateOwnerForKind. destruct (Z.eqb_spec kind KindSystem); [tauto|].
  destruct (IsZero32 owner); split; [done|intros [?|?]; done|auto|done].
Qed.

Lemma Object_ok_made o : Object_ok o -> well_made o.
Proof.
  intros [(? & ? & ? & ?) Hv]. unfold Object_Validate in Hv. destruct (_ || _ || _ || _) eqn:E; [done|].
  apply validateOwnerForKind_Ok in Hv. bool_inv. unfold well_made, addressed, KindUnknown in *. split_and!; try done; lia.
Qed.
Lemma OutputSpec_ok_made s : OutputSpec_ok s -> spec_made s.
Proof.
  intros [[? ?] Hv]. unfold OutputSpec_Validate in Hv. destruct (_ || _) eqn:E; [done|].
  apply validateOwnerForKind_Ok in Hv. bool_inv. unfold spec_made, addressed, KindUnknown in *. split_and!; try done; lia.
Qed.

(** What is left for the store to check. *)
Lemma well_made_ok o :
  well_made o -> IsZero32 (ID o) = false -> Version o <> 0 -> blen (Data o) <= MaxObjectDataBytes -> Object_ok o.
Proof.
  intros (? & ? & ? & ? & ? & Ho) Hz Hv Hd. split; [done|]. unfold Object_Validate. rewrite Hz.
  rewrite (proj2 (Z.eqb_neq (Version o) 0)), (proj2 (Z.eqb_neq (Kind o) KindUnknown)), (proj2 (Z.ltb_ge _ _) Hd) by done.
  by apply validateOwnerForKind_Ok.
Qed.

Lemma Object_Validate_ID o : Object_Validate o = Ok tt -> IsZero32 (ID o) = false.
Proof. unfold Object_Validate. by destruct (IsZero32 (ID o)). Qed.
Lemma next_version_pos v : u64 v -> v <> MaxUint64 -> add64 v 1 <> 0.
Proof. unfold u64, MaxUint64, add64. intros. rewrite Z.mod_small; lia. Qed.

Section typing.
Context `{Crypto} `{MapOrder} `{ScriptHost} (e : Engine) (t : Transaction).
Context (Hsender : arr32 (t_Sender t)) (Hzero : IsZero32 (t_Sender t) = false).
Context (Hspecs : Forall spec_made (t_Outputs t)) (Hobjs : Forall well_made (objs t)).

Lemma made_object i s owner kind d :
  addressed owner kind -> well_made (mkObject (ObjectIDForShard (tx_ID t) i s) 1 owner kind d).
Proof. intros Ha. split_and!; [apply length_ObjectIDForShard|done|exact Ha]. Qed.

Lemma made_bump o d : well_made o -> well_made (bump o d).
Proof. intros (? & ? & ?). split_and!; [done|apply Z.mod_pos_bound; lia|done]. Qed.

Lemma route_outs st d i spec : outs_made st -> spec_made spec -> outs_made (route t st d i spec).
Proof.
  intros [? ?] Hs. unfold route. destruct (_ =? _); split; cbn; try done; apply Forall_app; (split; [done|]);
    apply Forall_singleton; [by apply made_object|done].
Qed.

Lemma routed_outs created outbound d i spec c' o' :
  route t (created, outbound) d i spec = (c', o') -> outs_made (created, outbound) -> spec_made spec -> outs_made (c', o').
Proof. intros <-. apply route_outs. Qed.

(** ** Every output loop keeps the lists well formed *)

Lemma spec_in spec : spec ∈ t_Outputs t -> spec_made spec.
Proof. intros Hs. rewrite Forall_forall in Hspecs. by apply Hspecs. Qed.
Lemma obj_in o : o ∈ objs t -> well_made o.
Proof. intros Hs. rewrite Forall_forall in Hobjs. by apply Hobjs. Qed.

Lemma stamp_made spec h s : stampCoinOutput spec h = Ok s -> spec_made spec -> spec_made s.
Proof. unfold stampCoinOutput. destruct (negb _); intros E; op_inv; done. Qed.

Lemma coin_addressed owner token amount h s :
  NewCoinOutputAtHeight owner token amount h = Ok s -> arr32 owner -> addressed owner KindCoin.
Proof.
  unfold NewCoinOutputAtHeight. intros E Ho. op_inv. op_facts. unfold addressed. split_and!; try done. by right.
Qed.
Lemma coin_made owner token amount h s : NewCoinOutputAtHeight owner token amount h = Ok s -> arr32 owner -> spec_made s.
Proof.
  intros E Ho. pose proof (coin_addressed _ _ _ _ _ E Ho) as Ha. unfold NewCoinOutputAtHeight in E. by op_inv.
Qed.

Lemma account_outs X i o created outbound consumed :
  accountNativeValue e t X i o = Ok (created, outbound, consumed) -> outs_made (created, outbound).
Proof.
  unfold accountNativeValue. intros E. op_inv.
  match goal with E : rfoldi _ _ _ _ = _ |- _ =>
    refine (rfoldi_inv (fun st _ => outs_made st.2) _ _ _ _ _ [] _ _ _ E); [done|by split|] end.
  intros [a1 o1] [a2 o2] l spec Hs Hin E. unfold account_output in E. op_inv. by apply route_outs, spec_in.
Qed.

Lemma fee_outs id acc created consumed :
  feeOnlyOutputsExcluding e t id acc = Ok (created, consumed) -> outs_made (created, []).
Proof.
  unfold feeOnlyOutputsExcluding. intros E. op_inv.
  match goal with E : rfoldi _ _ _ _ = _ |- _ =>
    refine (rfoldi_inv (fun st _ => outs_made (st.2, [])) _ _ _ _ _ [] _ _ _ E); [done|by split|] end.
  intros [a1 o1] [a2 o2] l spec [Hs _] Hin E. unfold fee_output in E. op_inv. split; [|done]. apply Forall_app. split; [done|].
  apply Forall_singleton, made_object. eapply stamp_made; [eassumption|by apply spec_in].
Qed.

Lemma create_outs a created outbound :
  rfoldi 0 (create_output e t) (0, ([], [])) (t_Outputs t) = Ok (a, (created, outbound)) -> outs_made (created, outbound).
Proof.
  intros E. refine (rfoldi_inv (fun st _ => outs_made st.2) _ _ _ _ _ [] _ _ _ E); [done|by split|]. clear E.
  intros [a1 o1] [a2 o2] l spec Hs Hin E. unfold create_output in E. op_inv. apply route_outs; [done|].
  eapply stamp_made; [eassumption|by apply spec_in].
Qed.

Lemma burn_outs token a b created :
  rfoldi 0 (burn_output e t token) (0, 0, []) (t_Outputs t) = Ok (a, b, created) -> outs_made (created, []).
Proof.
  intros E. refine (rfoldi_inv (fun st _ => outs_made (st.2, [])) _ _ _ _ _ [] _ _ _ E); [done|by split|]. clear E.
  intros [[a1 b1] o1] [[a2 b2] o2] l spec [Hs _] Hin E. unfold burn_output in E. op_inv. split; [|done]. apply Forall_app. split; [done|].
  apply Forall_singleton, made_object. eapply stamp_made; [eassumption|by apply spec_in].
Qed.

Lemma transfer_outs defs m created outbound :
  rfoldi 0 (transfer_output e t defs) (∅, ([], [])) (t_Outputs t) = Ok (m, (created, outbound)) -> outs_made (created, outbound).
Proof.
  intros E. refine (rfoldi_inv (fun st _ => outs_made st.2) _ _ _ _ _ [] _ _ _ E); [done|by split|]. clear E.
  intros [a1 o1] [a2 o2] l spec Hs Hin E. unfold transfer_output in E. op_inv. apply route_outs; [done|].
  eapply stamp_made; [eassumption|by apply spec_in].
Qed.

(** ** Settlements pay accounts *)

Definition keys32 (m : gmap bytes Z) : Prop := forall k, is_Some (m !! k) -> arr32 k.
Lemma keys32_empty : keys32 ∅.
Proof. intros k Hk. by rewrite lookup_empty in Hk; destruct Hk. Qed.
Lemma keys32_add m k v : keys32 m -> arr32 k -> keys32 (madd64 m k v).
Proof. intros Hm Hk k' Hk'. unfold madd64 in Hk'. apply lookup_insert_is_Some in Hk' as [<-|[_ ?]]; [done|by apply Hm]. Qed.
Lemma keys32_add_all l m : keys32 m -> Forall (fun kv => arr32 kv.1) l -> keys32 (madd_all m l).
Proof.
  intros Hm Hl. revert m Hm. induction Hl as [|[k v] l Hk _ IH]; intros m Hm; [done|]. apply IH. by apply keys32_add.
Qed.
Lemma keys32_range m : keys32 m -> Forall (fun kv => arr32 kv.1) (range_map m).
Proof.
  intros Hm. apply Forall_forall. intros [k v] Hkv. apply (list_elem_of_fmap_2 fst) in Hkv as Hk. apply range_map_keys in Hk. by apply Hm.
Qed.

Definition settlement_keys (s : OnChainSettlement) : Prop :=
  keys32 (st_Payments (os_Settlement s)) /\ keys32 (CollateralReturns s).

Lemma finalize_keys record ev x : OnChainJob_typed record -> FinalizeOnChain record ev = Ok x -> settlement_keys x.2.
Proof.
  intros (_ & _ & _ & _ & Ha & _) E. unfold FinalizeOnChain in E. op_inv.
  match goal with E : rfold _ _ _ = _ |- _ =>
    refine (rfold_inv (fun (s : Z * gmap bytes Z * gmap bytes Z) _ => keys32 s.1.2 /\ keys32 s.2) _ _ _ _ [] _ _ E);
    [split; apply keys32_empty|] end.
  intros [[p1 m1] m2] [[p1' m1'] m2'] dn a [Hk1 Hk2] Hin E. unfold pay in E. op_inv. rewrite Forall_forall in Ha.
  destruct (Ha a Hin) as (_ & ? & _). split; by apply keys32_add.
Qed.

Lemma majority_keys record x : OnChainJob_typed record -> ResolveReplicatedMajority record = Ok x -> settlement_keys x.2.
Proof.
  intros (_ & _ & _ & _ & Ha & _) E. unfold ResolveReplicatedMajority in E. op_inv.
  match goal with E : rfold _ _ _ = _ |- _ =>
    refine (rfold_inv (fun (s : Z * Z * gmap bytes Z * gmap bytes Z * gmap bytes Z) _ => keys32 s.1.1.2 /\ keys32 s.1.2)
      _ _ _ _ [] _ _ E); [split; apply keys32_empty|] end.
  intros [[[[p1 q1] m1] m2] m3] [[[[p1' q1'] m1'] m2'] m3'] dn a [Hk1 Hk2] Hin E. unfold resolve_step in E.
  rewrite Forall_forall in Ha. destruct (Ha a Hin) as (_ & ? & _). case_match; op_inv; [|done]. split; by apply keys32_add.
Qed.

Lemma expire_keys record h r refund c : OnChainJob_typed record -> ExpireOnChain record h = Ok (r, refund, c) -> keys32 c.
Proof.
  intros (_ & _ & _ & _ & Ha & _) E. unfold ExpireOnChain in E. op_inv. generalize (keys32_empty). generalize (∅ : gmap bytes Z).
  induction Ha as [|a l (_ & ? & _) _ IH]; intros m Hm; [done|]. apply IH. by apply keys32_add.
Qed.

Lemma settlement_amounts_keys record s m :
  arr32 (jb_Owner (oj_Job record)) -> settlement_keys s -> settlement_amounts record s = Ok m -> keys32 m.
Proof.
  intros Ho [Hp Hr] E. unfold settlement_amounts in E. op_inv.
  match goal with E : rfold _ _ _ = Ok ?x |- _ => assert (keys32 x) as Hm; [apply (rfold_inv (fun m _ => keys32 m) _ _ _ _ []) in E; [done|..]|] end.
  - apply keys32_add_all; [apply keys32_empty|by apply keys32_range].
  - intros x y l [k v] Hx Hin Hs. op_inv. apply keys32_add; [done|]. apply keys32_range in Hr. rewrite Forall_forall in Hr.
    exact (Hr _ Hin).
  - destruct (_ <? _); [by apply keys32_add|done].
Qed.

Lemma settlement_outs record s created outbound amount :
  arr32 (jb_Owner (oj_Job record)) -> settlement_keys s ->
  settlementOutputs e t record s = Ok (created, outbound, amount) -> outs_made (created, outbound).
Proof.
  intros Ho Hs. unfold settlementOutputs. intros E. op_inv.
  match goal with E : settlement_amounts _ _ = _ |- _ => apply settlement_amounts_keys in E; [|done..] end.
  match goal with E : rfoldi _ _ _ _ = _ |- _ =>
    refine (rfoldi_inv (fun st _ => outs_made st.2) _ _ _ _ _ [] _ _ _ E); [done|by split|] end.
  intros [a1 o1] [a2 o2] l id Hl Hin E. unfold settlement_output, NewCoinOutput in E. op_inv. apply route_outs; [done|].
  eapply coin_made; [eassumption|]. rewrite sort_by_perm in Hin. apply range_map_keys in Hin. eauto.
Qed.

Lemma payout_made_ok owner amount i o : lendingPayout e t owner amount i = Ok o -> arr32 owner -> well_made o.
Proof. unfold lendingPayout. intros E Ho. op_inv. by eapply made_object, coin_addressed. Qed.
Lemma optional_payout_ok owner amount i l :
  optional_payout e t owner amount i = Ok l -> arr32 owner -> Forall well_made l.
Proof.
  unfold optional_payout. destruct (_ <? _); intros E Ho; op_inv; [|constructor].
  apply Forall_singleton. by eapply payout_made_ok.
Qed.

(** ** The owners the operations write *)

Definition terms_made (terms : Terms) : Prop :=
  (arr32 (Lender terms) /\ IsZero32 (Lender terms) = false) /\ (arr32 (Borrower terms) /\ IsZero32 (Borrower terms) = false).

Lemma Terms_valid_made terms : Terms_typed terms -> Terms_Validate terms = Ok tt -> terms_made terms.
Proof. intros (? & ? & _) E. unfold Terms_Validate in E. op_inv. op_facts. done. Qed.

Lemma is_ok_unit (r : res unit) : negb (is_ok r) = false -> r = Ok tt.
Proof. by destruct r as [[]|]. Qed.

Lemma ParseTerms_made d terms : ParseTerms d = Ok terms -> terms_made terms.
Proof.
  intros [Ht E]%ParseTerms_Ok. apply Terms_valid_made; [done|]. unfold Terms_MarshalBinary in E. by op_inv.
Qed.
Lemma ParseLoan_made d l : ParseLoan d = Ok l -> terms_made (l_Terms l).
Proof.
  intros [(_ & Ht & _) E]%(proj1 (Loan_canonical d l)). apply Terms_valid_made; [done|].
  change (Loan_MarshalBinary l = Ok d) in E. unfold Loan_MarshalBinary, Loan_Validate in E. by op_inv.
Qed.
Lemma ParseCrossOffer_made d m : ParseCrossOffer d = Ok m -> terms_made (co_Terms m).
Proof.
  intros [(_ & _ & _ & _ & Ht) E]%(proj1 (CrossOffer_canonical d m)). apply Terms_valid_made; [done|].
  change (CrossOffer_MarshalBinary m = Ok d) in E. unfold CrossOffer_MarshalBinary, CrossOffer_Validate in E. op_inv. op_facts. by apply is_ok_unit.
Qed.
Lemma ParseCrossAcceptance_made d m : ParseCrossAcceptance d = Ok m -> terms_made (ca_Terms m).
Proof.
  intros [(_ & _ & _ & _ & _ & Ht) E]%(proj1 (CrossAcceptance_canonical d m)). apply Terms_valid_made; [done|].
  change (CrossAcceptance_MarshalBinary m = Ok d) in E. unfold CrossAcceptance_MarshalBinary, CrossAcceptance_Validate in E. op_inv. op_facts. by apply is_ok_unit.
Qed.
Lemma ParseCrossActivation_made d m : ParseCrossActivation d = Ok m -> terms_made (cv_Terms m).
Proof.
  intros [(_ & _ & _ & _ & Ht) E]%(proj1 (CrossActivation_canonical d m)). apply Terms_valid_made; [done|].
  change (CrossActivation_MarshalBinary m = Ok d) in E. unfold CrossActivation_MarshalBinary, CrossActivation_Validate in E. op_inv. op_facts. by apply is_ok_unit.
Qed.
Lemma ParseAssignmentMessage_made d m :
  ParseAssignmentMessage d = Ok m -> arr32 (am_JobOwner m) /\ IsZero32 (am_JobOwner m) = false.
Proof.
  intros [(_ & ? & _) E]%ParseAssignmentMessage_Ok. unfold AssignmentMessage_Validate in E. op_inv. op_facts. done.
Qed.
Lemma ParseResultMessage_made d m :
  ParseResultMessage d = Ok m ->
  (arr32 (rm_JobOwner m) /\ IsZero32 (rm_JobOwner m) = false) /\ ResultMessage_Validate m = Ok tt.
Proof.
  unfold ParseResultMessage, readAccount. intros E. parse_inv. cbn. split; [|done]. split; [by rewrite blen32|].
  match goal with E : ResultMessage_Validate _ = _ |- _ => unfold ResultMessage_Validate in E; op_inv; op_facts; done end.
Qed.
Lemma ParseMintToken_made d m : ParseMintToken d = Ok m -> arr32 (mt_Recipient m).
Proof.
  unfold ParseMintToken. intros E. op_inv. op_facts. cbn. unfold arr, blen in *. rewrite length_firstn, length_skipn. lia.
Qed.

(** ** The operations *)

Lemma addressed_intro owner kind :
  arr32 owner -> IsZero32 owner = false -> u16 kind -> kind <> KindUnknown -> addressed owner kind.
Proof. intros. split_and!; try done. by right. Qed.

(** Facts about the owners, from what was parsed and accounted for. *)
Ltac owner_facts :=
  repeat match goal with
  | E : ParseTerms _ = Ok _ |- _ => apply ParseTerms_made in E as [[? ?] [? ?]]
  | E : ParseLoan _ = Ok _ |- _ => apply ParseLoan_made in E as [[? ?] [? ?]]
  | E : ParseCrossOffer _ = Ok _ |- _ => apply ParseCrossOffer_made in E as [[? ?] [? ?]]
  | E : ParseCrossAcceptance _ = Ok _ |- _ => apply ParseCrossAcceptance_made in E as [[? ?] [? ?]]
  | E : ParseCrossActivation _ = Ok _ |- _ => apply ParseCrossActivation_made in E as [[? ?] [? ?]]
  | E : ParseMintToken _ = Ok _ |- _ => apply ParseMintToken_made in E
  | E : accountNativeValue _ _ _ _ _ = Ok _ |- _ => apply account_outs in E as [? ?]
  | E : feeOnlyOutputsExcluding _ _ _ _ = Ok _ |- _ => apply fee_outs in E as [? _]
  end; cbn [fst snd] in *.

Create HintDb typed.
#[local] Hint Resolve made_object made_bump obj_in coin_made coin_addressed payout_made_ok optional_payout_ok addressed_intro : typed.

(** Split the lists of a result and close every part. *)
Ltac made_tac :=
  split; cbn [Created Outbound];
  repeat (apply Forall_app; split); repeat (apply Forall_cons; split); try apply Forall_nil_2; try done;
  try solve [eauto 4 with typed];
  try solve [unfold sent_made, spec_made; cbn [ob_Output o_Owner o_Kind]; first [by apply addressed_intro|eauto 4 with typed]];
  try solve [apply made_object; by apply addressed_intro];
  try solve [eapply coin_made; eassumption];
  try solve [apply made_object; eapply coin_made; eassumption].

Lemma executeLending_made op r : executeLending e t op = Ok r -> result_made r.
Proof.
  unfold executeLending. repeat case_match; intros E; [..|done];
  unfold executeLoanOffer, executeLoanCancel, executeLoanAccept, executeLoanRepay, executeLoanDefault in E; op_inv; owner_facts; made_tac.
Qed.

Lemma executeCrossShardLending_made op r : executeCrossShardLending e t op = Ok r -> result_made r.
Proof.
  unfold executeCrossShardLending. repeat case_match; intros E; [..|done];
  unfold executeCrossLoanOffer, executeCrossLoanAccept, executeCrossLoanRepay, executeCrossLoanSettle, executeCrossLoanDefault,
    executeCrossLoanExpire in E; op_inv; try (destruct (0 <? _); op_inv); owner_facts; made_tac.
Qed.

Lemma settle_made o record s receipt r :
  OnChainJob_typed record -> settlement_keys s -> settle e t o record s receipt = Ok r -> result_made r.
Proof.
  intros (_ & (? & _) & _) Hk E. unfold settle in E. op_inv.
  match goal with E : settlementOutputs _ _ _ _ = _ |- _ => apply settlement_outs in E as [? ?]; [|done..] end. owner_facts. made_tac.
  apply made_object. split_and!; try done. by left.
Qed.

Lemma executeComputeSettle_made op r :
  executeComputeFinalize e t (op_Payload op) false = Ok r \/ executeComputeFinalize e t (op_Payload op) true = Ok r \/
  executeComputeExpire e t (op_Payload op) = Ok r -> result_made r.
Proof.
  intros [E|[E|E]]; unfold executeComputeFinalize, executeComputeExpire in E; op_inv;
    (match goal with E : ParseOnChainJob _ = _ |- _ => apply ParseOnChainJob_Ok in E as (? & _) end);
    (eapply settle_made; [eassumption| |eassumption]);
    first [by eapply finalize_keys|by eapply majority_keys|split; [apply keys32_empty|by eapply expire_keys]].
Qed.

Lemma executeComputeMessages_made op r :
  executeComputeAccept e t (op_Payload op) = Ok r \/ executeComputeResult e t (op_Payload op) = Ok r -> result_made r.
Proof.
  intros [E|E]; [unfold executeComputeAccept, AssignmentMessage_Output in E|unfold executeComputeResult in E]; op_inv; owner_facts;
    match goal with E : route _ _ _ _ _ = _ |- _ => apply routed_outs in E; [exact E|done|] end.
  - match goal with E : ParseAssignmentMessage _ = _ |- _ => apply ParseAssignmentMessage_made in E as [? ?] end.
    by apply addressed_intro.
  - match goal with E : ParseResultMessage _ = _ |- _ => apply ParseResultMessage_made in E as [[? ?] Hv] end.
    unfold ResultMessage_Output, ResultMessage_MarshalBinary. rewrite Hv. cbn [mbind res_bind ok_or]. by apply addressed_intro.
Qed.

Lemma executeCompute_made op r : executeCompute e t op = Ok r -> result_made r.
Proof.
  unfold executeCompute. repeat case_match; intros E; [..|done]; eauto using executeComputeSettle_made, executeComputeMessages_made.
  1,2: unfold executeComputeOffer, executeComputeJob, NewOfferObject, NewJobObject in E; op_inv; op_facts; owner_facts; made_tac.
  1,2: match goal with E : ?x = t_Sender t |- _ => cbn; rewrite E end; apply made_object; by apply addressed_intro.
  all: unfold executeComputeIngestAssignment, executeComputeIngestResult in E; op_inv; owner_facts;
    match goal with Hw : ingest_witnesses _ _ _ = _ |- _ => apply ingest_witnesses_Ok in Hw as (? & ? & _) end; made_tac.
Qed.

Lemma executeContracts_made p r :
  executeDeployContract e t p = Ok r \/ executeContractCall e t p = Ok r -> result_made r.
Proof.
  intros [E|E]; unfold executeDeployContract, executeContractCall, feeOnlyOutputs in E; op_inv; owner_facts.
  - destruct (0 <? _); made_tac.
  - match goal with Er : rfold (read_state _) _ _ = _, Em : Metered_Execute _ _ = Ok _ |- _ =>
      pose proof (call_states t _ _ _ _ Em Er) as Hold end. made_tac.
    apply Forall_fmap. eapply Forall_impl; [exact Hold|]. intros w (Hin & _). cbn. by apply made_bump, obj_in.
Qed.

Lemma executeDeviceCredential_made op r : executeDeviceCredential e t op = Ok r -> result_made r.
Proof.
  unfold executeDeviceCredential. repeat case_match; intros E; [..|done];
  unfold executeDeviceCredentialRegister, executeDeviceCredentialUpdate, executeDeviceCredentialRevoke, feeOnlyOutputs in E;
  op_inv; try (match goal with E : credential_witness _ _ = _ |- _ => apply credential_in in E end); owner_facts; made_tac.
Qed.

Lemma executeTokens_made p r :
  executeCreateToken e t p = Ok r \/ executeMintToken e t p = Ok r \/ executeBurnToken e t p = Ok r -> result_made r.
Proof.
  intros [E|[E|E]]; unfold executeCreateToken, executeMintToken, executeBurnToken in E; op_inv;
    try (match goal with E : tokenDefinitionWitness _ _ = _ |- _ => apply tokenDefinitionWitness_Ok in E as (? & _) end); owner_facts.
  - match goal with E : rfoldi _ _ _ _ = _ |- _ => apply create_outs in E as [? ?] end. made_tac.
  - made_tac.
  - match goal with E : rfoldi _ _ _ _ = _ |- _ => apply burn_outs in E as [? _] end. made_tac.
Qed.

Lemma executeTransfer_made r : executeTransfer e t = Ok r -> result_made r.
Proof.
  intros E. unfold executeTransfer in E. op_inv.
  match goal with E : rfoldi _ _ _ _ = _ |- _ => apply transfer_outs in E as [? ?] end. done.
Qed.
End typing.

Section execute.
Context `{Crypto} `{MapOrder} `{ScriptHost}.

Lemma Execute_made e t r :
  arr32 (t_Sender t) -> IsZero32 (t_Sender t) = false -> Forall spec_made (t_Outputs t) -> Forall well_made (objs t) ->
  Execute e t = Ok r -> result_made r.
Proof.
  intros Hs Hz Ho Hw (op & _ & [[_ E]|[[_ E]|[_ E]]])%Execute_dispatch;
    [by eapply executeTransfer_made|eapply executeTokens_made; eauto|].
  unfold executeExtended in E. cbv zeta in E.
  destruct (_ =? _); [eapply executeContracts_made; eauto|]. destruct (_ =? _); [eapply executeContracts_made; eauto|].
  destruct (_ =? _); [eapply executeTokens_made; eauto|]. destruct (_ =? _); [eapply executeTokens_made; eauto|].
  destruct (is_one_of _ _); [by eapply executeCompute_made|]. destruct (is_one_of _ _); [by eapply executeLending_made|].
  destruct (is_one_of _ _); [by eapply executeDeviceCredential_made|].
  destruct (is_one_of _ _); [by eapply executeCrossShardLending_made|]. done.
Qed.

Lemma Transaction_ok_specs t : Transaction_ok t -> Forall spec_made (t_Outputs t).
Proof.
  intros ((_ & _ & _ & _ & _ & _ & Ho & _) & _ & _ & ((_ & _ & _ & Hv & _) & _)%ValidateStatic_Ok).
  rewrite Forall_forall in *. intros s Hs. apply OutputSpec_ok_made. split; auto.
Qed.
Lemma Transaction_ok_stored t : Transaction_ok t -> Forall Object_ok (objs t).
Proof. intros (_ & Hw & _). apply Forall_fmap. eapply Forall_impl; [exact Hw|]. by intros w [Ho _]. Qed.
Lemma Transaction_ok_objs t : Transaction_ok t -> Forall well_made (objs t).
Proof.
  intros (_ & Hw & _). apply Forall_fmap. eapply Forall_impl; [exact Hw|]. intros w [Ho _]. by apply Object_ok_made.
Qed.

Lemma Execute_typed e t r :
  Transaction_ok t -> IsZero32 (t_Sender t) = false -> Execute e t = Ok r -> result_made r.
Proof.
  intros Hok Hz E. eapply Execute_made; [|done|by apply Transaction_ok_specs|by apply Transaction_ok_objs|done].
  by destruct Hok as ((_ & _ & _ & ? & _) & _).
Qed.

(** C35: type preservation.  Executing a transaction as [ParseTransaction] returns
    it, whose sender is not the zero account, produces values of the Go types: 32-byte identifiers and owners, kinds and versions
    in range.  Every created object is either a first version, under an
    identifier derived from the transaction and an output index, or the next
    version of an input the result consumes, with its identifier, owner and
    kind.  The store rejects it only for its size, or when the version of the
    consumed input was the last [uint64], or when SHA-256 gives the zero
    identifier; every output sent to another shard is a valid output of that
    shard but for its size. *)
Theorem execution_well_typed (e : Engine) (t : Transaction) (r : Result) :
  Transaction_ok t -> IsZero32 (t_Sender t) = false -> Execute e t = Ok r ->
  Forall (fun o => Object_typed o /\
    ((Version o = 1 /\ exists i, ID o = ObjectIDForShard (tx_ID t) i (t_ShardID t)) \/
     (exists x d, x ∈ objs t /\ ID x ∈ Consumed r /\ o = bump x d)) /\
    (blen (Data o) <= MaxObjectDataBytes ->
       Object_Validate o = Ok tt \/
       (exists i, ID o = ObjectIDForShard (tx_ID t) i (t_ShardID t) /\ IsZero32 (ID o) = true) \/
       (exists x, x ∈ objs t /\ ID x = ID o /\ Version x = MaxUint64)))
    (Created r) /\
  Forall (fun x => OutputSpec_typed (ob_Output x) /\
    (blen (o_Data (ob_Output x)) <= MaxObjectDataBytes -> OutputSpec_Validate (ob_Output x) = Ok tt))
    (Outbound r).
Proof.
  intros Hok Hz E. destruct (Execute_typed e t r Hok Hz E) as [Hc Hs]. pose proof (Execute_ids _ _ _ E) as Hi. split.
  - apply Forall_forall. intros o Ho. rewrite Forall_forall in Hc. pose proof (Hc o Ho) as Hm.
    pose proof (proj1 (Forall_forall _ _) Hi o Ho) as Hor. split; [by destruct Hm as (? & ? & ? & ? & _)|].
    split; [by destruct Hor; [right|left]|]. intros Hd. destruct Hor as [(x & d & Hx & _ & ->)|[Hv [i Hid]]].
    + destruct (decide (Version x = MaxUint64)) as [Hl|Hl]; [by right; right; exists x|left].
      pose proof (proj1 (Forall_forall _ _) (Transaction_ok_stored t Hok) x Hx) as [(_ & Hu & _) Hxv].
      apply well_made_ok; [done|exact (Object_Validate_ID x Hxv)|by apply next_version_pos|done].
    + destruct (IsZero32 (ID o)) eqn:Hzero; [by right; left; exists i|left]. apply well_made_ok; [done..|lia|done].
  - eapply Forall_impl; [exact Hs|]. intros x (? & ? & Hk & Ho). split; [done|]. intros Hd. unfold OutputSpec_Validate.
    rewrite (proj2 (Z.eqb_neq _ KindUnknown) Hk), (proj2 (Z.ltb_ge _ _) Hd). by apply validateOwnerForKind_Ok.
Qed.
End execute.

(** The transfer of [Example] is well formed. *)
Lemma execution_well_typed_witness :
  exists r, Execute (H := small_crypto) (H0 := some_order) (H1 := Example.host) Example.engine Example.transfer = Ok r /\
    Forall Object_typed (Created r).
Proof.
  destruct (is_ok_true _ Example.accepted) as [r E]. exists r. split; [exact E|].
  assert (Transaction_ok (H := small_crypto) Example.transfer) as Hok.
  { split_and!.
    - repeat (split || apply Forall_cons); try apply Forall_nil_2; vm_compute; try reflexivity; try discriminate.
    - apply Forall_singleton. split; [split|]; [repeat split; vm_compute; try reflexivity; discriminate|vm_compute; reflexivity|].
      apply (smt_ParseProof_Ok (Smt.MarshalBinary (Smt.Prove Example.tree (be 32 77)))). vm_compute. reflexivity.
    - vm_compute. discriminate.
    - vm_compute. reflexivity. }
  refine (Forall_impl _ _ _ (proj1 (execution_well_typed _ _ r Hok eq_refl E)) _). by intros o [? _].
Defined.
