(* ===== verification/Worldstate.v ===== *)
(** * Worldstate

    Package [internal/v2/worldstate]: the object store.  [Memory] ([store.go],
    [simulate.go]) keeps the objects and the sparse Merkle tree over their
    hashes; [Disk] ([durable.go]) adds a write-ahead log and checkpoints.

    A store is a value; an operation returns the new store.  The mutexes make
    every method one atomic step.  Files are byte strings; the operating
    system's calls succeed, and what a crash may leave behind is described by
    the theorems of [WorldstateProofs].  The interface [Backend] that the
    executor uses is a class. *)

From S2P Require Import Prelude GoLib Codec Crypto Types Object Smt SmtProofs SmtTheorems.

Open Scope Z_scope.

(** [type Backend interface] *)
Class Backend (S : Type) := {
  backend_Root : S -> bytes;
  backend_GetObject : S -> bytes -> option Object;
  backend_Proof : S -> bytes -> option Object * Smt.Proof;
  backend_Apply : S -> list bytes -> list Object -> res (S * bytes);
}.

(** ** The checks of a delta

    [Memory.Apply], [Memory.Simulate] and [Disk.prevalidate] repeat the same
    two loops over their own map of objects. *)

Definition check_consumed (objects : gmap bytes Object) (seenConsumed : gset bytes) (id : bytes) : res (gset bytes) :=
  fail_if (bool_decide (id ∈ seenConsumed)) ErrObjectNotFound;;
  fail_if (negb (bool_decide (is_Some (objects !! id)))) ErrObjectNotFound;;
  Ok ({[id]} ∪ seenConsumed).

Definition check_created (objects : gmap bytes Object) (seenConsumed seenCreated : gset bytes) (o : Object)
    : res (gset bytes) :=
  Object_Validate o;;
  fail_if (bool_decide (ID o ∈ seenCreated)) ErrObjectExists;;
  fail_if (bool_decide (is_Some (objects !! ID o)) && negb (bool_decide (ID o ∈ seenConsumed))) ErrObjectExists;;
  Ok ({[ID o]} ∪ seenCreated).

Definition check_delta (objects : gmap bytes Object) (consumed : list bytes) (created : list Object) : res unit :=
  seenConsumed ← rfold (check_consumed objects) ∅ consumed;
  rfold (check_created objects seenConsumed) ∅ created;;
  Ok tt.

(** The loops that delete the consumed and store the created objects. *)
Definition delta_objects (objects : gmap bytes Object) (consumed : list bytes) (created : list Object) : gmap bytes Object :=
  foldl (fun m o => <[ID o := o]> m) (foldl (fun m id => delete id m) objects consumed) created.

Record Memory := mkMemory {
  m_tree : Smt.Tree;
  m_objects : gmap bytes Object;
}.

Section memory.
Context `{Crypto}.

(** [updates[id] = nil], then [updates[o.ID] = hash]. *)
Definition delta_updates (consumed : list bytes) (created : list Object) : gmap bytes (option bytes) :=
  foldl (fun m o => <[ID o := Some (Object_Hash o)]> m) (foldl (fun m id => <[id := None]> m) ∅ consumed) created.

Definition NewMemory : Memory := mkMemory Smt.NewTree ∅.

Definition Memory_Root (m : Memory) : bytes := Smt.Root (m_tree m).

Definition Memory_GetObject (m : Memory) (id : bytes) : option Object := m_objects m !! id.

Definition Memory_Proof (m : Memory) (id : bytes) : option Object * Smt.Proof :=
  (m_objects m !! id, Smt.Prove (m_tree m) id).

Definition Memory_Apply (m : Memory) (consumed : list bytes) (created : list Object) : res (Memory * bytes) :=
  check_delta (m_objects m) consumed created;;
  let '(tree, root) := Smt.Apply (m_tree m) (delta_updates consumed created) in
  Ok (mkMemory tree (delta_objects (m_objects m) consumed created), root).

Definition Memory_Simulate (m : Memory) (consumed : list bytes) (created : list Object) : res bytes :=
  check_delta (m_objects m) consumed created;;
  Ok (Smt.Preview (m_tree m) (delta_updates consumed created)).

#[global] Instance Memory_backend : Backend Memory := {|
  backend_Root := Memory_Root; backend_GetObject := Memory_GetObject; backend_Proof := Memory_Proof;
  backend_Apply := Memory_Apply |}.
End memory.

(** ** The durable store *)

Definition walMagic : bytes := str "ZWL2".
Definition checkpointMagic : bytes := str "ZCP2".
Definition persistenceVersion : Z := 1.
Definition maxWALRecordBytes : Z := Z.shiftl 64 20.
Definition maxCheckpointBytes : Z := Z.shiftl 1 30.
Definition maxCheckpointObjects : Z := 10000000.
Definition maxWALEntries : Z := 1000000.

(** [hash/crc32] with the Castagnoli polynomial, bit by bit. *)
Definition crc_bit (crc : Z) : Z :=
  if Z.testbit crc 0 then Z.lxor (Z.shiftr crc 1) 0x82f63b78 else Z.shiftr crc 1.
Definition crc_byte (crc : Z) (b : byte) : Z := Nat.iter 8 crc_bit (Z.lxor crc (Z_of_byte b)).
Definition crc32c (payload : bytes) : Z := Z.lxor (foldl crc_byte 0xffffffff payload) 0xffffffff.

Example crc32c_check : crc32c (str "123456789") = 0xe3069283.
Proof. reflexivity. Qed.

Record WALEntry := mkEntry {
  we_Seq : Z;
  we_Consumed : list bytes;
  we_Created : list Object;
}.

Record Disk := mkDisk {
  d_network : bytes;
  d_mem : Memory;
  d_objects : gmap bytes Object;
  d_seq : Z;
  d_wal : bytes;
  d_checkpoint : option bytes;
  d_closed : bool;
}.

Definition encodeWALPayload (network : bytes) (seq : Z) (consumed : list bytes) (created : list Object) : bytes :=
  let w := Writer.new |> Writer.U16 persistenceVersion |> Writer.Fixed network |> Writer.U64 seq
    |> Writer.U32 (blen consumed mod 2 ^ 32) in
  let w := foldl (fun w id => w |> Writer.Fixed id) w consumed in
  let w := w |> Writer.U32 (blen created mod 2 ^ 32) in
  Writer.BytesCopy (foldl (fun w item => w |> Writer.Bytes (Object_CanonicalBytes item)) w created).

Definition read_object : parser Object :=
  raw ← Rd.Bytes (MaxObjectDataBytes + 128) <!> ErrPersistenceCorrupt;
  plift (ParseObject raw <?> ErrPersistenceCorrupt).

Definition parseWALPayload (payload : bytes) : res (bytes * WALEntry) :=
  parse (version ← Rd.U16 <!> ErrPersistenceCorrupt;
         plift (fail_if (negb (version =? persistenceVersion)) ErrPersistenceCorrupt);;
         network ← Rd.Fixed 32 <!> ErrPersistenceCorrupt;
         seq ← Rd.U64 <!> ErrPersistenceCorrupt;
         plift (fail_if (seq =? 0) ErrPersistenceCorrupt);;
         consumedCount ← Rd.U32 <!> ErrPersistenceCorrupt;
         plift (fail_if (maxWALEntries <? consumedCount) ErrPersistenceCorrupt);;
         consumed ← prepeat (Z.to_nat consumedCount) (Rd.Fixed 32 <!> ErrPersistenceCorrupt);
         createdCount ← Rd.U32 <!> ErrPersistenceCorrupt;
         plift (fail_if (maxWALEntries <? createdCount) ErrPersistenceCorrupt);;
         created ← prepeat (Z.to_nat createdCount) read_object;
         Rd.Done <!> ErrPersistenceCorrupt;;
         mret (network, mkEntry seq consumed created)) payload.

(** A record of the log: magic, length, payload, checksum. *)
Definition wal_record (payload : bytes) : bytes :=
  walMagic ++ be 4 (blen payload mod 2 ^ 32) ++ payload ++ be 4 (crc32c payload).

Definition appendWAL (wal payload : bytes) : res bytes :=
  fail_if ((blen payload =? 0) || (maxWALRecordBytes <? blen payload)) ErrPersistenceCorrupt;;
  Ok (wal ++ wal_record payload).

Definition prevalidate (d : Disk) (consumed : list bytes) (created : list Object) : res unit :=
  check_delta (d_objects d) consumed created.

Section disk.
Context `{Crypto}.

Definition Disk_Root (d : Disk) : bytes := Memory_Root (d_mem d).

(** The mirror, the memory and the sequence number after an entry. *)
Definition advance (d : Disk) (mem : Memory) (entry : WALEntry) : Disk :=
  mkDisk (d_network d) mem (delta_objects (d_objects d) (we_Consumed entry) (we_Created entry)) (we_Seq entry)
    (d_wal d) (d_checkpoint d) (d_closed d).
Definition with_wal (d : Disk) (wal : bytes) : Disk :=
  mkDisk (d_network d) (d_mem d) (d_objects d) (d_seq d) wal (d_checkpoint d) (d_closed d).

Definition Disk_Apply (d : Disk) (consumed : list bytes) (created : list Object) : res (Disk * bytes) :=
  fail_if (d_closed d) ErrPersistenceClosed;;
  prevalidate d consumed created;;
  let next := add64 (d_seq d) 1 in
  let payload := encodeWALPayload (d_network d) next consumed created in
  wal ← appendWAL (d_wal d) payload;
  applied ← Memory_Apply (d_mem d) consumed created <?> ErrPersistenceCorrupt;
  let '(mem, root) := applied in
  Ok (advance (with_wal d wal) mem (mkEntry next consumed created), root).

Definition Disk_Simulate (d : Disk) (consumed : list bytes) (created : list Object) : res bytes :=
  Memory_Simulate (d_mem d) consumed created.

(** One record of [replayWAL], already read and checked. *)
Definition replay_entry (d : Disk) (entry : WALEntry) : res Disk :=
  if we_Seq entry <=? d_seq d then Ok d
  else
    fail_if (negb (we_Seq entry =? add64 (d_seq d) 1)) ErrPersistenceCorrupt;;
    prevalidate d (we_Consumed entry) (we_Created entry) <?> ErrPersistenceCorrupt;;
    applied ← Memory_Apply (d_mem d) (we_Consumed entry) (we_Created entry) <?> ErrPersistenceCorrupt;
    Ok (advance d applied.1 entry).

(** One iteration of the loop of [replayWAL] from [offset]: the loop ends, with
    the file truncated at [offset] when the rest is an incomplete record, or
    goes on behind the record. *)
Definition replay_body (d : Disk) (offset : nat) : res Disk + Disk * nat :=
  let unread := skipn offset (d_wal d) in
  let truncated := with_wal d (firstn offset (d_wal d)) in
  if blen unread =? 0 then inl (Ok d)
  else if blen unread <? 8 then inl (Ok truncated)
  else if negb (bool_decide (firstn 4 unread = walMagic)) then inl (Err ErrPersistenceCorrupt)
  else
    let length := be_val (firstn 4 (skipn 4 unread)) in
    if (length =? 0) || (maxWALRecordBytes <? length) then inl (Err ErrPersistenceCorrupt)
    else if blen unread <? 8 + length then inl (Ok truncated)
    else if blen unread <? 8 + length + 4 then inl (Ok truncated)
    else
      let payload := firstn (Z.to_nat length) (skipn 8 unread) in
      let expected := be_val (firstn 4 (skipn (8 + Z.to_nat length) unread)) in
      if negb (expected =? crc32c payload) then inl (Err ErrPersistenceCorrupt)
      else
        match (parsed ← parseWALPayload payload;
               let '(network, entry) := parsed in
               fail_if (negb (bool_decide (network = d_network d))) ErrPersistenceNetwork;;
               replay_entry d entry) with
        | Ok d' => inr (d', (offset + 8 + Z.to_nat length + 4)%nat)
        | Err err => inl (Err err)
        end.

(** The loop; [fuel] bounds the records read, and a file holds fewer records
    than bytes. *)
Fixpoint replay_loop (fuel : nat) (d : Disk) (offset : nat) : res Disk :=
  match fuel with
  | O => Ok d
  | S fuel =>
      match replay_body d offset with
      | inl out => out
      | inr (d', offset') => replay_loop fuel d' offset'
      end
  end.

Definition replayWAL (d : Disk) : res Disk := replay_loop (S (length (d_wal d))) d 0.

(** The payload of a checkpoint, objects in the order of their identifiers. *)
Definition checkpoint_payload (d : Disk) : bytes :=
  let objects := sort_by ID (snd <$> map_to_list (d_objects d)) in
  let w := Writer.new |> Writer.U16 persistenceVersion |> Writer.Fixed (d_network d) |> Writer.U64 (d_seq d)
    |> Writer.U32 (blen objects mod 2 ^ 32) in
  let w := foldl (fun w item => w |> Writer.Bytes (Object_CanonicalBytes item)) w objects in
  Writer.BytesCopy (w |> Writer.Fixed (Disk_Root d)).

Definition checkpoint_digest (payload : bytes) : bytes := DomainHash (str "zephyr/state-checkpoint/v2") payload.

Definition checkpoint_file (d : Disk) : bytes :=
  let rawPayload := checkpoint_payload d in
  checkpointMagic ++ be 4 (blen rawPayload mod 2 ^ 32) ++ rawPayload ++ checkpoint_digest rawPayload.

(** The new file replaces the old one, then the log is emptied. *)
Definition Checkpoint (d : Disk) : res Disk :=
  fail_if (d_closed d) ErrPersistenceClosed;;
  Ok (mkDisk (d_network d) (d_mem d) (d_objects d) (d_seq d) [] (Some (checkpoint_file d)) (d_closed d)).

Definition Close (d : Disk) : Disk :=
  mkDisk (d_network d) (d_mem d) (d_objects d) (d_seq d) (d_wal d) (d_checkpoint d) true.

Definition read_checkpoint (network : bytes) : parser (Z * list Object * bytes) :=
  version ← Rd.U16 <!> ErrPersistenceCorrupt;
  plift (fail_if (negb (version =? persistenceVersion)) ErrPersistenceCorrupt);;
  stored ← Rd.Fixed 32 <!> ErrPersistenceCorrupt;
  plift (fail_if (negb (bool_decide (stored = network))) ErrPersistenceNetwork);;
  seq ← Rd.U64 <!> ErrPersistenceCorrupt;
  count ← Rd.U32 <!> ErrPersistenceCorrupt;
  plift (fail_if (maxCheckpointObjects <? count) ErrPersistenceCorrupt);;
  objects ← prepeat (Z.to_nat count) read_object;
  root ← Rd.Fixed 32 <!> ErrPersistenceCorrupt;
  Rd.Done <!> ErrPersistenceCorrupt;;
  mret (seq, objects, root).

Definition loadCheckpoint (d : Disk) : res Disk :=
  match d_checkpoint d with
  | None => Ok d
  | Some raw =>
      fail_if ((blen raw <? 4 + 4 + 32) || negb (bool_decide (firstn 4 raw = checkpointMagic))) ErrPersistenceCorrupt;;
      let length := be_val (firstn 4 (skipn 4 raw)) in
      fail_if ((length =? 0) || (maxCheckpointBytes <? length) || negb (blen raw =? 8 + length + 32)) ErrPersistenceCorrupt;;
      let payload := firstn (Z.to_nat length) (skipn 8 raw) in
      fail_if (negb (bool_decide (checkpoint_digest payload = skipn (8 + Z.to_nat length) raw))) ErrPersistenceCorrupt;;
      parsed ← parse (read_checkpoint (d_network d)) payload;
      let '(seq, objects, expectedRoot) := parsed in
      mem ← (if 0 <? blen objects then fst <$> (Memory_Apply (d_mem d) [] objects <?> ErrPersistenceCorrupt)
             else Ok (d_mem d));
      fail_if (negb (bool_decide (Memory_Root mem = expectedRoot))) ErrPersistenceCorrupt;;
      Ok (mkDisk (d_network d) mem (foldl (fun m item => <[ID item := item]> m) (d_objects d) objects) seq
            (d_wal d) (d_checkpoint d) (d_closed d))
  end.

(** [OpenDisk] on a directory whose files are [checkpoint] (absent if [None])
    and [wal] (created empty if absent). *)
Definition OpenDisk (checkpoint : option bytes) (wal network : bytes) : res Disk :=
  fail_if (IsZero32 network) ErrPersistenceNetwork;;
  d ← loadCheckpoint (mkDisk network NewMemory ∅ 0 wal checkpoint false);
  replayWAL d.

#[global] Instance Disk_backend : Backend Disk := {|
  backend_Root := Disk_Root; backend_GetObject d := Memory_GetObject (d_mem d);
  backend_Proof d := Memory_Proof (d_mem d); backend_Apply := Disk_Apply |}.
End disk.
