(* ===== verification/WorldstateProofs.v ===== *)
(** * WorldstateProofs

    The object store: what a delta does, the Merkle root as a commitment to
    the objects, and the contract [BackendSpec] of the interface [Backend] that
    both stores meet. *)

From S2P Require Import Prelude GoLib Codec Crypto Types Object Smt SmtProofs SmtTheorems Worldstate.

Open Scope Z_scope.

(** ** Deltas *)

Record delta_ok (objects : gmap bytes Object) (consumed : list bytes) (created : list Object) : Prop := {
  dl_distinct : NoDup consumed;
  dl_present : Forall (fun id => is_Some (objects !! id)) consumed;
  dl_valid : Forall (fun o => Object_Validate o = Ok tt) created;
  dl_fresh : NoDup (ID <$> created);
  dl_replaced : Forall (fun o => is_Some (objects !! ID o) -> ID o ∈ consumed) created;
}.

Lemma check_consumed_eq objects seen id :
  check_consumed objects seen id =
    if decide ((id ∉ seen) /\ is_Some (objects !! id)) then Ok ({[id]} ∪ seen) else Err ErrObjectNotFound.
Proof.
  unfold check_consumed. repeat case_bool_decide; cbn; case_decide; naive_solver.
Qed.

Lemma check_created_Ok objects consumed seen o s :
  check_created objects consumed seen o = Ok s <->
  ((ID o ∉ seen) /\ Object_Validate o = Ok tt /\ (is_Some (objects !! ID o) -> ID o ∈ consumed)) /\ s = {[ID o]} ∪ seen.
Proof.
  unfold check_created. destruct (Object_Validate o) as [[]|]; cbn [mbind res_bind]; [|by split; [|intros [(_ & ? & _) _]]].
  repeat case_bool_decide; cbn; naive_solver.
Qed.

Lemma check_consumed_fold objects l seen seen' :
  rfold (check_consumed objects) seen l = Ok seen' <->
  NoDup l /\ Forall (fun id => (id ∉ seen) /\ is_Some (objects !! id)) l /\ seen' = list_to_set l ∪ seen.
Proof.
  revert seen. induction l as [|id l IH]; intros seen; cbn [rfold].
  { split; [intros [= ->]|intros (_ & _ & ->)]; [split_and!; [constructor|constructor|set_solver]|].
    f_equal. set_solver. }
  rewrite check_consumed_eq. case_decide as Hd.
  2:{ split; [done|]. by intros (_ & [? _]%Forall_cons & _). }
  destruct Hd as [H1 H2]. cbn [mbind res_bind]. rewrite IH, NoDup_cons, Forall_cons, !Forall_forall. split.
  - intros (Hnd & Hf & ->). split_and!; try done; [|intros x Hx; split; [set_solver|by apply Hf]|set_solver].
    intros Hin. destruct (Hf id Hin) as [Hx _]. set_solver.
  - intros ([Hni Hnd] & (_ & Hf) & ->). split_and!; [done| |set_solver].
    intros x Hx. destruct (Hf x Hx) as [? ?]. split; [|done]. apply not_elem_of_union. split; [|done].
    intros ->%elem_of_singleton. done.
Qed.

Lemma check_created_fold objects consumed l seen seen' :
  rfold (check_created objects consumed) seen l = Ok seen' <->
  NoDup (ID <$> l) /\ Forall (fun o => (ID o ∉ seen) /\ Object_Validate o = Ok tt /\
    (is_Some (objects !! ID o) -> ID o ∈ consumed)) l /\ seen' = list_to_set (ID <$> l) ∪ seen.
Proof.
  revert seen. induction l as [|o l IH]; intros seen; cbn [rfold fmap list_fmap].
  { split; [intros [= ->]|intros (_ & _ & ->)]; [split_and!; [constructor|constructor|set_solver]|].
    f_equal. set_solver. }
  destruct (check_created objects consumed seen o) as [s1|] eqn:Es; cbn [mbind res_bind].
  2:{ split; [done|]. intros (_ & [Ho _]%Forall_cons & _). exfalso.
    pose proof (proj2 (check_created_Ok objects consumed seen o _) (conj Ho eq_refl)). congruence. }
  apply check_created_Ok in Es as [(H1 & Hv & H3) ->].
  rewrite IH, NoDup_cons, Forall_cons, !Forall_forall. split.
  - intros (Hnd & Hf & ->). split_and!; try done; [|intros x Hx; split; [set_solver|by apply Hf]|set_solver].
    intros (x & Ex & Hx)%list_elem_of_fmap. destruct (Hf x Hx) as [Hn _]. rewrite <-Ex in Hn. set_solver.
  - intros ([Hni Hnd] & (_ & Hf) & ->). split_and!; [done| |set_solver].
    intros x Hx. destruct (Hf x Hx) as (? & ? & ?). split_and!; [|done|done]. apply not_elem_of_union. split; [|done].
    intros E%elem_of_singleton. apply Hni. rewrite <-E. by apply list_elem_of_fmap_2.
Qed.

Lemma check_delta_Ok objects consumed created :
  check_delta objects consumed created = Ok tt <-> delta_ok objects consumed created.
Proof.
  unfold check_delta. split.
  - intros E. apply bind_Ok in E as (s1 & E1 & E). apply bind_Ok in E as (s2 & E2 & _).
    apply check_consumed_fold in E1 as (Hnd & Hf & ->). apply check_created_fold in E2 as (Hnd2 & Hf2 & _).
    rewrite !Forall_forall in *. constructor; try done; rewrite ?Forall_forall; intros x Hx.
    + by apply Hf. + by apply Hf2.
    + intros Hs. destruct (Hf2 x Hx) as (_ & _ & Hc). apply Hc in Hs. set_solver.
  - intros [H1 H2 H3 H4 H5]. rewrite !Forall_forall in *.
    destruct (rfold (check_consumed objects) ∅ consumed) as [s1|] eqn:E1.
    2:{ exfalso. assert (rfold (check_consumed objects) ∅ consumed = Ok (list_to_set consumed ∪ ∅)) as E2; [|congruence].
      apply check_consumed_fold. split_and!; [done| |done]. apply Forall_forall. intros x Hx. split; [set_solver|by apply H2]. }
    apply check_consumed_fold in E1 as (_ & _ & ->). cbn [mbind res_bind].
    rewrite (proj2 (check_created_fold objects (list_to_set consumed ∪ ∅) created ∅ (list_to_set (ID <$> created) ∪ ∅))); [done|].
    split_and!; [done| |done]. apply Forall_forall. intros x Hx. split_and!; [set_solver|by apply H3|].
    intros Hs. specialize (H5 x Hx Hs). set_solver.
Qed.

(** What is stored under an identifier after a delta. *)
Lemma delta_objects_lookup objects consumed created id :
  NoDup (ID <$> created) ->
  delta_objects objects consumed created !! id =
    match list_find (fun o => ID o = id) created with
    | Some (_, o) => Some o
    | None => if bool_decide (id ∈ consumed) then None else objects !! id
    end.
Proof.
  unfold delta_objects. intros Hnd.
  assert (foldl (fun m id => delete id m) objects consumed !! id = if bool_decide (id ∈ consumed) then None else objects !! id) as Hd.
  { clear. induction consumed as [|x l IH] using rev_ind; cbn.
    - by rewrite bool_decide_eq_false_2 by apply not_elem_of_nil.
    - rewrite foldl_app. cbn. rewrite lookup_delete. destruct (decide (x = id)) as [->|Hn].
      + rewrite bool_decide_eq_true_2; [done|]. apply elem_of_app. right. left.
      + rewrite IH. rewrite (bool_decide_ext (id ∈ l ++ [x]) (id ∈ l)); [done|].
        rewrite elem_of_app, list_elem_of_singleton. naive_solver. }
  revert Hd. generalize (foldl (fun m id => delete id m) objects consumed) as base. intros base Hd.
  induction created as [|o l IH] using rev_ind; [done|].
  rewrite foldl_app. cbn [foldl]. rewrite fmap_app in Hnd. apply NoDup_app in Hnd as (Hnd & Hdis & _).
  rewrite lookup_insert. destruct (decide (ID o = id)) as [<-|Hn].
  - rewrite list_find_app_r; [cbn; by rewrite decide_True|].
    apply list_find_None, Forall_forall. intros x Hx E. apply (Hdis (ID x)); [by apply list_elem_of_fmap_2|]. rewrite E. left.
  - rewrite IH by done. destruct (list_find (fun o => ID o = id) l) as [[i x]|] eqn:E.
    + by erewrite list_find_app_l by done.
    + rewrite list_find_app_r by done. cbn. by rewrite decide_False.
Qed.

Section memory.
Context `{Crypto}.

Definition commit (objects : gmap bytes Object) : gmap bytes bytes := Object_Hash <$> objects.

Lemma merge_updates_empty vs : merge_updates vs ∅ = vs.
Proof.
  apply map_eq. intros k. unfold merge_updates. rewrite lookup_merge, lookup_empty. by destruct (vs !! k).
Qed.
Lemma merge_updates_insert vs u k w :
  merge_updates vs (<[k := w]> u) = match w with Some h => <[k := h]> (merge_updates vs u) | None => delete k (merge_updates vs u) end.
Proof.
  apply map_eq. intros k'. unfold merge_updates. destruct (decide (k = k')) as [<-|Hn].
  - rewrite lookup_merge, lookup_insert_eq. destruct w; [rewrite lookup_insert_eq|rewrite lookup_delete_eq]; by destruct (vs !! k).
  - rewrite lookup_merge, lookup_insert_ne by done.
    destruct w; [rewrite lookup_insert_ne by done|rewrite lookup_delete_ne by done]; by rewrite lookup_merge.
Qed.

(** The tree is updated as the objects are. *)
Lemma delta_commit objects consumed created :
  merge_updates (commit objects) (delta_updates consumed created) = commit (delta_objects objects consumed created).
Proof.
  unfold delta_updates, delta_objects, commit. induction created as [|o l IH] using rev_ind; cbn.
  - induction consumed as [|id l IH] using rev_ind; cbn; [apply merge_updates_empty|].
    rewrite !foldl_app. cbn [foldl]. by rewrite merge_updates_insert, IH, fmap_delete.
  - rewrite !foldl_app. cbn [foldl]. rewrite merge_updates_insert, IH, fmap_insert. done.
Qed.

Definition stored_ok (objects : gmap bytes Object) : Prop :=
  map_Forall (fun id o => ID o = id /\ Object_ok o) objects.

Record mem_inv (m : Memory) : Prop := {
  mi_tree : tree_inv (m_tree m);
  mi_values : Smt.values (m_tree m) = commit (m_objects m);
  mi_objects : stored_ok (m_objects m);
}.

Lemma NewMemory_inv : mem_inv NewMemory.
Proof. constructor; [apply NewTree_inv|symmetry; apply fmap_empty|apply map_Forall_empty]. Qed.

Lemma Memory_Root_spec m : mem_inv m -> Memory_Root m = root_spec (commit (m_objects m)).
Proof. intros [Ht Hv _]. unfold Memory_Root. by rewrite (Root_spec _ Ht), Hv. Qed.

Lemma stored_key objects id : stored_ok objects -> is_Some (objects !! id) -> arr32 id.
Proof. intros Hs [o Ho]. by destruct (Hs id o Ho) as [<- [(? & _) _]]. Qed.

Lemma delta_updates_keys objects consumed created :
  stored_ok objects -> Forall Object_typed created -> delta_ok objects consumed created ->
  keys_ok (map_to_list (delta_updates consumed created)).
Proof.
  intros Hs Ht [_ Hp _ _ _]. unfold keys_ok. apply Forall_forall. intros [k v] Hk%elem_of_map_to_list. cbn.
  assert (Forall arr32 consumed) as Hc.
  { eapply Forall_impl; [exact Hp|]. intros id. by apply stored_key. }
  revert Hk. unfold delta_updates. clear Hp. revert Ht. induction created as [|o l IH] using rev_ind; intros Ht.
  - cbn [foldl]. clear Hs. induction consumed as [|x l IH] using rev_ind; [cbn [foldl]; by intros Hk%lookup_empty_Some|].
    rewrite foldl_app. cbn [foldl]. apply Forall_app in Hc as [Hl [Hx _]%Forall_cons_1]. rewrite lookup_insert.
    destruct (decide (x = k)) as [<-|]; [done|by apply IH].
  - rewrite foldl_app. cbn [foldl]. apply Forall_app in Ht as [Hl [[Hx _] _]%Forall_cons_1]. rewrite lookup_insert.
    destruct (decide (ID o = k)) as [<-|]; [done|by apply IH].
Qed.

Lemma delta_stored objects consumed created :
  stored_ok objects -> Forall Object_typed created -> delta_ok objects consumed created ->
  stored_ok (delta_objects objects consumed created).
Proof.
  intros Hs Ht [_ _ Hv Hnd _] id o. rewrite delta_objects_lookup by done.
  destruct (list_find _ created) as [[i x]|] eqn:E.
  - intros [= <-]. apply list_find_Some in E as (Hl & Hid & _). split; [done|].
    rewrite Forall_lookup in Ht, Hv. split; [by eapply Ht|by eapply Hv].
  - case_bool_decide; [done|]. apply Hs.
Qed.

(** [Memory.Apply] *)
Lemma Memory_Apply_Ok m consumed created :
  mem_inv m -> Forall Object_typed created -> delta_ok (m_objects m) consumed created ->
  exists m', Memory_Apply m consumed created = Ok (m', Memory_Root m') /\ mem_inv m' /\
    m_objects m' = delta_objects (m_objects m) consumed created.
Proof.
  intros [Hi Hv Hs] Ht Hd. unfold Memory_Apply. rewrite (proj2 (check_delta_Ok _ _ _) Hd). cbn [mbind res_bind].
  unfold Smt.Apply. cbv zeta.
  exists (mkMemory (Smt.Apply_list (m_tree m) (map_to_list (delta_updates consumed created)))
    (delta_objects (m_objects m) consumed created)). split; [reflexivity|]. split; [|done].
  destruct (Apply_list_spec (m_tree m) _ (delta_updates consumed created) Hi
    (delta_updates_keys _ _ _ Hs Ht Hd) (reflexivity _)) as (H1 & H2 & _).
  constructor; cbn [m_tree m_objects]; [done|by rewrite H2, Hv, delta_commit|by apply delta_stored].
Qed.

Lemma Memory_Apply_inv m consumed created m' root :
  mem_inv m -> Forall Object_typed created -> Memory_Apply m consumed created = Ok (m', root) ->
  delta_ok (m_objects m) consumed created /\ mem_inv m' /\ m_objects m' = delta_objects (m_objects m) consumed created /\
  root = Memory_Root m'.
Proof.
  intros Hi Ht E. assert (delta_ok (m_objects m) consumed created) as Hd.
  { apply check_delta_Ok. unfold Memory_Apply in E. by apply bind_Ok in E as ([] & ? & _). }
  destruct (Memory_Apply_Ok m consumed created Hi Ht Hd) as (m1 & E1 & H1 & H2). rewrite E in E1. injection E1 as -> ->.
  done.
Qed.

(** [Memory.Proof] *)
Lemma Memory_Proof_verifies m id :
  mem_inv m -> arr32 id ->
  Smt.Verify (Memory_Root m) id (Object_Hash <$> m_objects m !! id) (Memory_Proof m id).2 = true.
Proof.
  intros [Hi Hv _] Hid. unfold Memory_Proof, Memory_Root. cbn [snd].
  assert (Object_Hash <$> m_objects m !! id = Smt.Get (m_tree m) id) as ->; [|by apply Prove_Verify].
  unfold Smt.Get. rewrite Hv. unfold commit. by rewrite lookup_fmap.
Qed.

(** ** The contract of the interface *)

Class BackendSpec (S : Type) `{Backend S} := {
  bs_inv : S -> Prop;
  bs_objects : S -> gmap bytes Object;
  bs_stored s : bs_inv s -> stored_ok (bs_objects s);
  bs_root s : bs_inv s -> backend_Root s = root_spec (commit (bs_objects s));
  bs_get s id : bs_inv s -> backend_GetObject s id = bs_objects s !! id;
  bs_proof s id : bs_inv s -> arr32 id ->
    (backend_Proof s id).1 = bs_objects s !! id /\
    Smt.Verify (backend_Root s) id (Object_Hash <$> bs_objects s !! id) (backend_Proof s id).2 = true;
  bs_apply s consumed created s' root :
    bs_inv s -> Forall Object_typed created -> backend_Apply s consumed created = Ok (s', root) ->
    delta_ok (bs_objects s) consumed created /\ bs_inv s' /\
    bs_objects s' = delta_objects (bs_objects s) consumed created /\ root = backend_Root s';
}.

#[global] Program Instance Memory_spec : BackendSpec Memory := {|
  bs_inv := mem_inv; bs_objects := m_objects |}.
Next Obligation. intros m Hm. apply Hm. Qed.
Next Obligation. intros m Hm. by apply Memory_Root_spec. Qed.
Next Obligation. done. Qed.
Next Obligation. intros m id Hm Hid. split; [done|by apply Memory_Proof_verifies]. Qed.
Next Obligation. intros m c n m' root Hm Ht E. by apply Memory_Apply_inv. Qed.

(** [Disk] keeps the objects twice: in the tree's store and in a mirror. *)
Definition disk_inv (d : Disk) : Prop := mem_inv (d_mem d) /\ d_objects d = m_objects (d_mem d).

#[global] Program Instance Disk_spec : BackendSpec Disk := {|
  bs_inv := disk_inv; bs_objects := d_objects |}.
Next Obligation. intros d [Hm ->]. apply Hm. Qed.
Next Obligation. intros d [Hm ->]. by apply Memory_Root_spec. Qed.
Next Obligation. by intros d id [Hm ->]. Qed.
Next Obligation. intros d id [Hm ->] Hid. split; [done|by apply Memory_Proof_verifies]. Qed.
Next Obligation.
  intros d c n d' root [Hm Ho] Ht E. cbn in E. unfold Disk_Apply in E. cbv zeta in E.
  apply bind_Ok in E as (? & _ & E). apply bind_Ok in E as (? & _ & E). apply bind_Ok in E as (wal & _ & E).
  apply bind_Ok in E as ([mem r] & E1%or_err_Ok & E). injection E as <- <-.
  apply Memory_Apply_inv in E1 as (Hd & Hi & Hobj & ->); [|done|done].
  cbn. rewrite Ho. split_and!; [done|split; [done|]|done|done]. cbn. by rewrite Ho, Hobj.
Qed.

(** ** The memory store *)

Inductive mem_reachable : Memory -> Prop :=
  | mr_new : mem_reachable NewMemory
  | mr_apply m consumed created m' root :
      mem_reachable m -> Forall Object_typed created -> Memory_Apply m consumed created = Ok (m', root) -> mem_reachable m'.

Lemma mem_reachable_inv m : mem_reachable m -> mem_inv m.
Proof. induction 1 as [|m c n m' root _ IH Ht E]; [apply NewMemory_inv|]. by apply Memory_Apply_inv in E as (_ & ? & _). Qed.

(** C30: the root is a commitment to the stored objects.  In every state the
    store can reach, the root is the Merkle root of the hashes of exactly the
    objects it holds, every object is valid and held under its own identifier,
    and the proof [Proof] returns, of presence or of absence, verifies against
    the root.  So two stores with the same objects have the same root, whatever
    their histories. *)
Theorem store_commits (m : Memory) :
  mem_reachable m ->
  Memory_Root m = root_spec (Object_Hash <$> m_objects m) /\
  (forall id o, Memory_GetObject m id = Some o -> ID o = id /\ Object_Validate o = Ok tt) /\
  (forall id, arr32 id -> (Memory_Proof m id).1 = Memory_GetObject m id /\
     Smt.Verify (Memory_Root m) id (Object_Hash <$> Memory_GetObject m id) (Memory_Proof m id).2 = true).
Proof.
  intros Hm%mem_reachable_inv. split_and!; [by apply Memory_Root_spec| |].
  - intros id o Ho. destruct (mi_objects m Hm id o Ho) as [? [_ ?]]. done.
  - intros id Hid. split; [done|by apply Memory_Proof_verifies].
Qed.

Lemma Memory_Simulate_Apply (m : Memory) consumed created :
  mem_inv m -> Forall Object_typed created ->
  Memory_Simulate m consumed created = snd <$> Memory_Apply m consumed created.
Proof.
  intros Hm Ht. destruct (check_delta (m_objects m) consumed created) as [[]|] eqn:E.
  - apply check_delta_Ok in E as Hd. unfold Memory_Simulate, Memory_Apply. rewrite E. cbn [mbind res_bind].
    unfold Smt.Apply. cbv zeta. cbn [fmap res_fmap snd]. f_equal.
    pose proof (delta_updates_keys _ _ _ (mi_objects m Hm) Ht Hd) as Hk.
    rewrite (Preview_spec _ _ (mi_tree m Hm) Hk).
    by destruct (Apply_list_spec (m_tree m) _ _ (mi_tree m Hm) Hk (reflexivity _)) as (_ & _ & ->).
  - unfold Memory_Simulate, Memory_Apply. rewrite E. done.
Qed.

(** a simulation predicts the root.  [Simulate] fails exactly when [Apply]
    does, with the same error, and otherwise returns the root that [Apply]
    reaches; [Apply] stores exactly the delta. *)
Theorem simulate_predicts_apply (m : Memory) (consumed : list bytes) (created : list Object) :
  mem_reachable m -> Forall Object_typed created ->
  Memory_Simulate m consumed created = snd <$> Memory_Apply m consumed created /\
  (forall m' root, Memory_Apply m consumed created = Ok (m', root) ->
     root = Memory_Root m' /\
     forall id, Memory_GetObject m' id =
       match list_find (fun o => ID o = id) created with
       | Some (_, o) => Some o
       | None => if bool_decide (id ∈ consumed) then None else Memory_GetObject m id
       end).
Proof.
  intros Hm%mem_reachable_inv Ht. split; [by apply Memory_Simulate_Apply|].
  intros m' root E. apply Memory_Apply_inv in E as (Hd & _ & Hobj & ->); [|done|done]. split; [done|].
    intros id. unfold Memory_GetObject. rewrite Hobj. apply delta_objects_lookup, Hd.
Qed.
End memory.

(** ** A store with one coin *)

Module StoreExample.
#[local] Existing Instance small_crypto.
Definition coin : Object :=
  mkObject (be 32 77) 1 (be 32 9) KindCoin (Coin_MarshalBinary (mkCoin (be 32 1) 10 0)).
Lemma typed : Forall Object_typed [coin].
Proof. repeat constructor; cbn; discriminate. Qed.
Lemma stored : is_ok (Memory_Apply NewMemory [] [coin]) = true.
Proof. vm_compute. reflexivity. Qed.
Definition store : Memory := (ok_or (NewMemory, []) (Memory_Apply NewMemory [] [coin])).1.
Lemma reachable : mem_reachable store.
Proof.
  destruct (is_ok_true _ stored) as [[m root] E]. unfold store. rewrite E. cbn [ok_or fst].
  exact (mr_apply _ [] [coin] m root mr_new typed E).
Qed.
End StoreExample.

Lemma store_commits_witness :
  Smt.Verify (H := small_crypto) (Memory_Root StoreExample.store) (be 32 77)
    (Some (Object_Hash (H := small_crypto) StoreExample.coin)) (Memory_Proof StoreExample.store (be 32 77)).2 = true.
Proof.
  pose proof (proj2 (proj2 (proj2 (store_commits (H := small_crypto) _ StoreExample.reachable)) (be 32 77) eq_refl)) as Hv.
  assert (Memory_GetObject StoreExample.store (be 32 77) = Some StoreExample.coin) as Hg by (vm_compute; reflexivity).
  rewrite Hg in Hv. exact Hv.
Defined.

Lemma simulate_predicts_apply_witness :
  Memory_Simulate (H := small_crypto) StoreExample.store [be 32 77] [] =
  snd <$> Memory_Apply (H := small_crypto) StoreExample.store [be 32 77] [].
Proof. exact (proj1 (simulate_predicts_apply _ [be 32 77] [] StoreExample.reachable (Forall_nil_2 _))). Defined.
