(* ===== verification/WorldstateDurable.v ===== *)
(** * WorldstateDurable

    Crash recovery of the durable store: reading back the log and the
    checkpoint restores the state, whatever a crash has cut off the last
    record, and whether or not the log was emptied after a checkpoint. *)

From S2P Require Import Prelude GoLib Codec Crypto Types Object Smt SmtProofs SmtTheorems Tx TxProofs Worldstate WorldstateProofs.

Open Scope Z_scope.

(** ** Records of the log *)

(** An entry the decoder accepts. *)
Definition entry_ok (e : WALEntry) : Prop :=
  u64 (we_Seq e) /\ we_Seq e <> 0 /\ Forall arr32 (we_Consumed e) /\ blen (we_Consumed e) <= maxWALEntries /\
  Forall Object_ok (we_Created e) /\ blen (we_Created e) <= maxWALEntries.

Definition entry_payload (network : bytes) (e : WALEntry) : bytes :=
  encodeWALPayload network (we_Seq e) (we_Consumed e) (we_Created e).
Definition entry_record (network : bytes) (e : WALEntry) : bytes := wal_record (entry_payload network e).
Definition entry_fits (network : bytes) (e : WALEntry) : Prop :=
  entry_ok e /\ 0 < blen (entry_payload network e) <= maxWALRecordBytes.

Definition enc_object (o : Object) : bytes := enc_bytes (Object_CanonicalBytes o).

Lemma encodeWALPayload_eq network seq consumed created :
  encodeWALPayload network seq consumed created =
  be 2 persistenceVersion ++ network ++ be 8 seq ++ be 4 (blen consumed) ++ concat consumed
  ++ be 4 (blen created) ++ concat (enc_object <$> created).
Proof.
  unfold encodeWALPayload. cbv zeta. rewrite (writer_loop (fun w id => w |> Writer.Fixed id) id) by done.
  rewrite (writer_loop _ enc_object) by (intros; apply writer_bytes). rewrite list_fmap_id.
  unfold Writer.BytesCopy, Writer.U16, Writer.U32, Writer.U64, Writer.Fixed, Writer.new. rewrite !be4_mod. app_norm. done.
Qed.

Lemma reads_object post o : Object_ok o -> reads post read_object (enc_object o) o.
Proof.
  intros Ho. unfold read_object, enc_object. pose proof (Object_CanonicalBytes_length o Ho).
  pose proof (ParseObject_CanonicalBytes o Ho) as Hp.
  assert (MaxObjectDataBytes + 128 < 2 ^ 32) by done.
  solve_reads; try done. by rewrite Hp.
Qed.

Lemma parse_entry network e :
  arr32 network -> entry_ok e -> parseWALPayload (entry_payload network e) = Ok (network, e).
Proof.
  intros Hn (Hs & Hz & Hc & Hcl & Ho & Hol). unfold entry_payload, parseWALPayload. rewrite encodeWALPayload_eq.
  destruct e as [seq consumed created]. cbn [we_Seq we_Consumed we_Created] in *.
  rewrite blen32 in Hn. unfold maxWALEntries in *. apply reads_parse.
  assert (0 <= blen consumed) by (unfold blen; lia). assert (0 <= blen created) by (unfold blen; lia).
  solve_reads; try done; try (unfold u32; lia); try (apply Z.ltb_ge; lia); try lia.
  - rewrite <-(list_fmap_id consumed) at 2. apply (reads_repeat_count _ id arr32); [|done].
    intros post' x Hx. rewrite blen32 in Hx. solve_reads; done.
  - apply (reads_repeat_count _ _ Object_ok); [|done]. intros post' o. apply reads_object.
Qed.

(** ** Reading the log *)

Definition wal_header (payload : bytes) : bytes := walMagic ++ be 4 (blen payload mod 2 ^ 32).
Lemma wal_record_eq payload : wal_record payload = wal_header payload ++ payload ++ be 4 (crc32c payload).
Proof. unfold wal_record, wal_header. by rewrite <-app_assoc. Qed.
Lemma length_wal_header payload : length (wal_header payload) = 8%nat.
Proof. unfold wal_header. rewrite length_app, length_be. done. Qed.
Lemma length_wal_record payload : length (wal_record payload) = (12 + length payload)%nat.
Proof. rewrite wal_record_eq, !length_app, length_wal_header, length_be. lia. Qed.

Definition payload_fits (payload : bytes) : Prop := 0 < blen payload <= maxWALRecordBytes.

(** The fields of a header that is complete. *)
Lemma header_magic payload rest : firstn 4 (wal_header payload ++ rest) = walMagic.
Proof. unfold wal_header. rewrite <-app_assoc. reflexivity. Qed.
Lemma header_length payload rest :
  payload_fits payload -> be_val (firstn 4 (skipn 4 (wal_header payload ++ rest))) = blen payload.
Proof.
  intros Hf. unfold wal_header. rewrite <-app_assoc. change (skipn 4 (walMagic ++ ?x)) with x.
  rewrite take_app_length' by (by rewrite length_be). unfold payload_fits, maxWALRecordBytes in Hf.
  change (Z.shiftl 64 20) with 67108864 in Hf. rewrite Z.mod_small by lia. apply be_val_small. cbn. lia.
Qed.

Lemma lxor_u32 a b : u32 a -> u32 b -> u32 (Z.lxor a b).
Proof.
  unfold u32. intros Ha Hb. assert (0 <= Z.lxor a b) as H0 by (apply Z.lxor_nonneg; lia). split; [done|].
  destruct (Z.eqb_spec (Z.lxor a b) 0) as [->|Hn]; [lia|]. apply Z.log2_lt_pow2; [lia|].
  pose proof (Z.log2_lxor a b ltac:(lia) ltac:(lia)).
  assert (forall x, 0 <= x < 2 ^ 32 -> Z.log2 x < 32) as Hl.
  { intros x Hx. destruct (Z.eqb_spec x 0) as [->|]; [done|]. apply Z.log2_lt_pow2; lia. }
  pose proof (Hl a Ha). pose proof (Hl b Hb). lia.
Qed.
Lemma crc_bit_u32 c : u32 c -> u32 (crc_bit c).
Proof.
  intros Hc. assert (u32 (Z.shiftr c 1)) as Hs.
  { unfold u32 in *. rewrite Z.shiftr_div_pow2 by lia. change (2 ^ 1) with 2. split; [apply Z.div_pos; lia|].
    apply Z.div_lt_upper_bound; lia. }
  unfold crc_bit. destruct (Z.testbit c 0); [|done]. apply lxor_u32; [done|by split].
Qed.
Lemma crc32c_u32 payload : u32 (crc32c payload).
Proof.
  unfold crc32c. apply lxor_u32; [|by split]. assert (u32 0xffffffff) as H0 by (by split).
  revert H0. generalize 0xffffffff. induction payload as [|b l IH]; intros c Hc; [done|]. cbn [foldl]. apply IH.
  unfold crc_byte. assert (u32 (Z.lxor c (Z_of_byte b))) as Hx.
  { apply lxor_u32; [done|]. pose proof (Z_of_byte_range b). unfold u32. lia. }
  revert Hx. generalize (Z.lxor c (Z_of_byte b)). generalize 8%nat. intros n z Hz.
  induction n as [|n IHn]; [done|]. cbn. by apply crc_bit_u32.
Qed.

Section replay.
Context `{Crypto}.

(** One complete record. *)
Lemma replay_record fuel d pre payload post network entry :
  d_wal d = pre ++ wal_record payload ++ post -> payload_fits payload ->
  parseWALPayload payload = Ok (network, entry) -> network = d_network d ->
  replay_loop (S fuel) d (length pre) =
    (d' ← replay_entry d entry; replay_loop fuel d' (length (pre ++ wal_record payload))).
Proof.
  intros Hw Hf Hp Hn. cbn [replay_loop]. unfold replay_body. rewrite Hw, drop_app_length. rewrite wal_record_eq, <-!app_assoc.
  rewrite header_magic, header_length by done. rewrite bool_decide_eq_true_2 by done. cbn [negb].
  set (tail := payload ++ be 4 (crc32c payload) ++ post).
  assert (blen (wal_header payload ++ tail) = 12 + blen payload + blen post) as Hl.
  { unfold tail, blen. rewrite !length_app, length_wal_header, length_be. lia. }
  rewrite Hl. unfold payload_fits in Hf. assert (0 <= blen post) by (unfold blen; lia).
  repeat match goal with |- context [if ?a <? ?b then _ else _] => rewrite (proj2 (Z.ltb_ge a b)) by lia end.
  rewrite (proj2 (Z.eqb_neq _ 0)) by lia. rewrite (proj2 (Z.eqb_neq (blen payload) 0)) by lia.
  rewrite (proj2 (Z.ltb_ge maxWALRecordBytes _)) by lia. cbn [orb].
  rewrite (drop_app_length' (wal_header payload) tail 8) by (by rewrite length_wal_header).
  assert (firstn (Z.to_nat (blen payload)) tail = payload) as ->.
  { unfold tail. apply take_app_length'. unfold blen. lia. }
  assert (skipn (8 + Z.to_nat (blen payload)) (wal_header payload ++ tail) = be 4 (crc32c payload) ++ post) as ->.
  { unfold tail. rewrite app_assoc. apply drop_app_length'. rewrite length_app, length_wal_header. unfold blen. lia. }
  rewrite take_app_length' by (by rewrite length_be).
  rewrite be_val_small by apply crc32c_u32. rewrite Z.eqb_refl. cbn [negb]. rewrite Hp. cbn [mbind res_bind].
  rewrite bool_decide_eq_true_2 by done. cbn [negb fail_if mbind res_bind]. destruct (replay_entry d entry); [|done]. cbn [mbind res_bind].
  assert (length pre + 8 + Z.to_nat (blen payload) + 4 = length (pre ++ wal_header payload ++ payload ++ be 4 (crc32c payload)))%nat as ->; [|done].
  rewrite !length_app, length_wal_header, length_be. unfold blen. lia.
Qed.

(** What a crash may leave of a record that was being written: a proper prefix
    (possibly nothing). *)
Definition torn_record (torn : bytes) : Prop :=
  exists payload rest, payload_fits payload /\ torn ++ rest = wal_record payload /\ rest <> [].

Lemma torn_nil : torn_record [].
Proof. exists [x00], (wal_record [x00]). split; [done|]. done. Qed.

Lemma with_wal_id d : with_wal d (d_wal d) = d.
Proof. by destruct d. Qed.

(** The incomplete record is cut off. *)
Lemma replay_torn fuel d pre torn :
  d_wal d = pre ++ torn -> torn_record torn -> replay_loop (S fuel) d (length pre) = Ok (with_wal d pre).
Proof.
  intros Hw (payload & rest & Hf & Ht & Hr). cbn [replay_loop]. unfold replay_body. rewrite Hw, drop_app_length, take_app_length.
  destruct (Z.eqb_spec (blen torn) 0) as [E|E].
  { assert (torn = []) as -> by (destruct torn; [done|unfold blen in E; cbn in E; lia]).
    rewrite app_nil_r in Hw. by rewrite <-Hw, with_wal_id. }
  destruct (Z.ltb_spec (blen torn) 8) as [E8|E8]; [done|].
  assert (torn = wal_header payload ++ drop 8 torn) as Et.
  { rewrite <-(take_drop 8 torn) at 1. f_equal. rewrite wal_record_eq in Ht.
    apply (f_equal (take 8)) in Ht. rewrite take_app_le in Ht by (unfold blen in E8; lia).
    by rewrite take_app_length' in Ht by (by rewrite length_wal_header). }
  assert (blen torn < 12 + blen payload) as Hl.
  { apply (f_equal length) in Ht. rewrite length_app, length_wal_record in Ht.
    destruct rest; [done|]. cbn in Ht. unfold blen. lia. }
  assert (firstn 4 torn = walMagic) as Hmagic by (rewrite Et; apply header_magic).
  assert (be_val (firstn 4 (skipn 4 torn)) = blen payload) as Hlen by (rewrite Et; by apply header_length).
  rewrite Hmagic, Hlen. rewrite bool_decide_eq_true_2 by done. cbn [negb].
  unfold payload_fits in Hf. rewrite (proj2 (Z.eqb_neq (blen payload) 0)) by lia.
  rewrite (proj2 (Z.ltb_ge maxWALRecordBytes _)) by lia. cbn [orb].
  destruct (Z.ltb_spec (blen torn) (8 + blen payload)); [done|].
  by rewrite (proj2 (Z.ltb_lt (blen torn) (8 + blen payload + 4))) by lia.
Qed.

Lemma replay_entry_files d e d' :
  replay_entry d e = Ok d' ->
  d_wal d' = d_wal d /\ d_network d' = d_network d /\ d_checkpoint d' = d_checkpoint d /\ d_closed d' = d_closed d.
Proof.
  unfold replay_entry. destruct (_ <=? _); [by intros [= <-]|]. intros E.
  do 3 apply bind_Ok in E as (? & _ & E). apply Ok_inj in E as <-. by split_and!.
Qed.

(** ** Termination *)

(** The loop of [replayWAL] without a bound on its iterations. *)
Inductive replays : Disk -> nat -> res Disk -> Prop :=
  | replays_stop d offset out : replay_body d offset = inl out -> replays d offset out
  | replays_next d offset d' offset' out :
      replay_body d offset = inr (d', offset') -> replays d' offset' out -> replays d offset out.

Lemma replays_det d offset out1 out2 : replays d offset out1 -> replays d offset out2 -> out1 = out2.
Proof. intros H1. revert out2. induction H1; intros out2 H2; inversion H2; naive_solver congruence. Qed.

(** An iteration that goes on has read a record of at least 13 bytes. *)
Lemma replay_body_next d offset d' offset' :
  replay_body d offset = inr (d', offset') -> (offset + 13 <= offset' <= length (d_wal d))%nat /\ d_wal d' = d_wal d.
Proof.
  unfold replay_body. intros E. cbv zeta in E. set (n := be_val _) in E.
  repeat match type of E with (if ?b then _ else _) = _ => destruct b eqn:?; [done|] end.
  destruct (_ ≫= _) as [d1|] eqn:Eb; [|done]. injection E as <- <-.
  apply bind_Ok in Eb as ([network entry] & _ & Eb). apply bind_Ok in Eb as (? & _ & Eb).
  apply replay_entry_files in Eb as (Hw & _). split; [|done].
  assert (0 <= n) by apply be_val_range. unfold blen in *. rewrite length_skipn in *.
  repeat match goal with
  | E : _ || _ = false |- _ => apply orb_false_iff in E as [? _]
  | E : (_ <? _) = false |- _ => apply Z.ltb_ge in E
  | E : (n =? 0) = false |- _ => apply Z.eqb_neq in E
  end. clearbody n. lia.
Qed.

Lemma replay_loop_replays fuel d offset :
  (length (d_wal d) < offset + fuel)%nat -> replays d offset (replay_loop fuel d offset).
Proof.
  revert d offset. induction fuel as [|fuel IH]; intros d offset Hf; cbn [replay_loop].
  - constructor. unfold replay_body. rewrite skipn_all2 by lia. done.
  - destruct (replay_body d offset) as [out|[d' offset']] eqn:E; [by constructor|].
    destruct (replay_body_next _ _ _ _ E) as [Ho Hw]. econstructor; [exact E|]. apply IH. rewrite Hw. lia.
Qed.

(** C40: recovery terminates.  Whatever bytes the log file holds, the loop of
    [replayWAL] stops, with one result, and that result is the one of the
    model, whose bound on the iterations is never what ends it; each iteration
    that goes on has advanced the offset by at least 13 bytes within the file. *)
Theorem replay_terminates (d : Disk) :
  (exists! out, replays d 0 out) /\ replays d 0 (replayWAL d) /\
  (forall d1 offset d2 offset', replay_body d1 offset = inr (d2, offset') ->
     (offset + 13 <= offset' <= length (d_wal d1))%nat /\ d_wal d2 = d_wal d1).
Proof.
  assert (replays d 0 (replayWAL d)) as Hr by (apply replay_loop_replays; lia). split_and!; [|done|exact replay_body_next].
  exists (replayWAL d). split; [done|]. intros out. by apply replays_det.
Qed.

Lemma replay_entry_with_wal d e w : replay_entry (with_wal d w) e = (fun d' => with_wal d' w) <$> replay_entry d e.
Proof.
  unfold replay_entry. cbn [with_wal d_seq d_mem d_objects]. destruct (_ <=? _); [done|].
  unfold prevalidate. cbn [with_wal d_objects].
  destruct (fail_if _ _); [|done]. cbn [mbind res_bind]. destruct (check_delta _ _ _); [|done].
  cbn [or_err mbind res_bind]. by destruct (Memory_Apply _ _ _).
Qed.

Lemma replay_log_with_wal log d w :
  rfold replay_entry (with_wal d w) log = (fun d' => with_wal d' w) <$> rfold replay_entry d log.
Proof.
  revert d. induction log as [|e log IH]; intros d; [done|]. cbn [rfold]. rewrite replay_entry_with_wal.
  destruct (replay_entry d e); [|done]. cbn [fmap res_fmap mbind res_bind]. apply IH.
Qed.

(** A log of complete records with a torn one at its end. *)
Lemma replay_log fuel log : forall d pre torn d',
  d_wal d = pre ++ concat (entry_record (d_network d) <$> log) ++ torn -> arr32 (d_network d) ->
  Forall (entry_fits (d_network d)) log -> torn_record torn -> (length log < fuel)%nat ->
  rfold replay_entry d log = Ok d' ->
  replay_loop fuel d (length pre) = Ok (with_wal d' (pre ++ concat (entry_record (d_network d) <$> log))).
Proof.
  revert fuel. induction log as [|e log IH]; intros fuel d pre torn d' Hw Hn Hf Ht Hfuel E.
  - cbn in *. injection E as <-. rewrite app_nil_r. destruct fuel as [|fuel]; [lia|]. by eapply replay_torn.
  - destruct fuel as [|fuel]; [lia|]. cbn [fmap list_fmap concat] in Hw. apply Forall_cons_1 in Hf as [[He Hp] Hf].
    rewrite <-app_assoc in Hw. cbn [rfold] in E. apply bind_Ok in E as (d1 & E1 & E).
    pose proof (replay_entry_files _ _ _ E1) as (Hw1 & Hn1 & _).
    rewrite (replay_record fuel d pre _ _ _ _ Hw Hp (parse_entry _ _ Hn He) eq_refl), E1. cbn [mbind res_bind].
    rewrite (IH fuel d1 (pre ++ wal_record (entry_payload (d_network d) e)) torn d').
    + rewrite Hn1. cbn [fmap list_fmap concat]. by rewrite <-app_assoc.
    + by rewrite Hw1, Hn1, Hw, <-app_assoc.
    + by rewrite Hn1.
    + by rewrite Hn1.
    + done.
    + cbn in Hfuel. lia.
    + done.
Qed.

(** ** What the files hold *)

(** The store before the log is read. *)
Definition opening (network wal : bytes) (checkpoint : option bytes) : Disk :=
  mkDisk network NewMemory ∅ 0 wal checkpoint false.

(** The checkpoint loads to [base], and replaying the entries [log] of the log
    from there reaches [last]. *)
Record files_hold (network : bytes) (checkpoint : option bytes) (wal : bytes) (base : Disk) (log : list WALEntry)
    (last : Disk) : Prop := {
  fh_load : forall w, loadCheckpoint (opening network w checkpoint) = Ok (with_wal base w);
  fh_network : d_network base = network;
  fh_wal : wal = concat (entry_record network <$> log);
  fh_fits : Forall (entry_fits network) log;
  fh_seqs : Forall (fun e => we_Seq e <= d_seq last) log;
  fh_replay : rfold replay_entry base log = Ok last;
  fh_inv : disk_inv last;
  fh_open : d_closed last = false;
}.

(** Two stores with the same contents. *)
Definition same_state (d1 d2 : Disk) : Prop :=
  disk_inv d1 /\ disk_inv d2 /\ d_network d1 = d_network d2 /\ d_objects d1 = d_objects d2 /\ d_seq d1 = d_seq d2.

(** The contract of [Backend] at [Disk]. *)
Lemma disk_root d : disk_inv d -> Disk_Root d = root_spec (commit (d_objects d)).
Proof. exact (bs_root (S := Disk) d). Qed.
Lemma disk_stored d : disk_inv d -> stored_ok (d_objects d).
Proof. exact (bs_stored (S := Disk) d). Qed.
Lemma disk_apply d consumed created d' root :
  disk_inv d -> Forall Object_typed created -> Disk_Apply d consumed created = Ok (d', root) ->
  delta_ok (d_objects d) consumed created /\ disk_inv d' /\
  d_objects d' = delta_objects (d_objects d) consumed created /\ root = Disk_Root d'.
Proof. exact (bs_apply (S := Disk) d consumed created d' root). Qed.

Lemma same_state_root d1 d2 : same_state d1 d2 -> Disk_Root d1 = Disk_Root d2.
Proof.
  intros (H1 & H2 & _ & Ho & _). by rewrite (disk_root d1 H1), (disk_root d2 H2), Ho.
Qed.

Lemma concat_records_length network log : (length log <= length (concat (entry_record network <$> log)))%nat.
Proof.
  induction log as [|e log IH]; [done|]. cbn [fmap list_fmap concat]. rewrite length_app. cbn [length].
  unfold entry_record at 1. rewrite length_wal_record. lia.
Qed.

Lemma OpenDisk_holds network checkpoint wal base log last torn :
  arr32 network -> IsZero32 network = false -> files_hold network checkpoint wal base log last -> torn_record torn ->
  OpenDisk checkpoint (wal ++ torn) network = Ok (with_wal last wal).
Proof.
  intros Hn Hz [Hl Hnet Hw Hf _ Hr _ _] Ht. unfold OpenDisk. rewrite Hz. cbn [fail_if mbind res_bind].
  fold (opening network (wal ++ torn) checkpoint). rewrite Hl. cbn [mbind res_bind]. unfold replayWAL.
  rewrite <-Hnet in Hf, Hw, Hn.
  rewrite (replay_log _ log (with_wal base (wal ++ torn)) [] torn (with_wal last (wal ++ torn))); cbn [with_wal d_wal d_network app].
  - by rewrite <-Hw.
  - by rewrite <-Hw.
  - done.
  - done.
  - done.
  - pose proof (concat_records_length (d_network base) log) as Hcl. rewrite <-Hw in Hcl. rewrite length_app. lia.
  - by rewrite replay_log_with_wal, Hr.
Qed.

(** ** Applying a delta *)

Lemma entry_of_delta d consumed created :
  disk_inv d -> Forall Object_typed created -> delta_ok (d_objects d) consumed created ->
  u64 (d_seq d) -> d_seq d < MaxUint64 -> blen consumed <= maxWALEntries -> blen created <= maxWALEntries ->
  entry_ok (mkEntry (add64 (d_seq d) 1) consumed created).
Proof.
  intros Hi Ht [_ Hp Hv _ _] Hs Hm Hc Hn. unfold entry_ok. cbn [we_Seq we_Consumed we_Created].
  assert (add64 (d_seq d) 1 = d_seq d + 1) as ->.
  { unfold add64, u64, MaxUint64 in *. apply Z.mod_small. lia. }
  unfold u64, MaxUint64 in *. split_and!; [lia|lia|lia| |done| |done].
  - eapply Forall_impl; [exact Hp|]. intros id. apply stored_key. by apply disk_stored.
  - rewrite Forall_forall in *. intros o Ho. split; auto.
Qed.

Lemma files_hold_apply d base log last consumed created d' root :
  files_hold (d_network d) (d_checkpoint d) (d_wal d) base log last -> same_state last d ->
  Forall Object_typed created -> u64 (d_seq d) -> d_seq d < MaxUint64 ->
  blen consumed <= maxWALEntries -> blen created <= maxWALEntries ->
  Disk_Apply d consumed created = Ok (d', root) ->
  exists last', files_hold (d_network d') (d_checkpoint d') (d_wal d') base
      (log ++ [mkEntry (add64 (d_seq d) 1) consumed created]) last' /\ same_state last' d' /\
    d_wal d' = d_wal d ++ entry_record (d_network d) (mkEntry (add64 (d_seq d) 1) consumed created) /\
    d_network d' = d_network d /\ d_checkpoint d' = d_checkpoint d /\ d_seq d' = d_seq d + 1 /\
    payload_fits (entry_payload (d_network d) (mkEntry (add64 (d_seq d) 1) consumed created)).
Proof.
  intros [Hl Hnet Hw Hf Hsq Hr Hi Hop] (Hi1 & Hi2 & Hn & Ho & Hs) Ht Hu Hm Hc Hcr E.
  pose proof (disk_apply d consumed created d' root Hi2 Ht E) as (Hd & Hi' & Hobj & _).
  pose proof (entry_of_delta d consumed created Hi2 Ht Hd Hu Hm Hc Hcr) as Hent.
  set (entry := mkEntry (add64 (d_seq d) 1) consumed created) in *.
  assert (add64 (d_seq d) 1 = d_seq d + 1) as Eseq.
  { unfold add64, u64, MaxUint64 in *. apply Z.mod_small. lia. }
  unfold Disk_Apply in E. cbv zeta in E. apply bind_Ok in E as (? & _ & E). apply bind_Ok in E as (? & _ & E).
  apply bind_Ok in E as (wal & Ea & E). apply bind_Ok in E as ([mem r] & Em & E). injection E as <- <-.
  unfold appendWAL in Ea. apply bind_Ok in Ea as (? & Hb%fail_if_Ok & Ea). apply Ok_inj in Ea as <-.
  change (encodeWALPayload (d_network d) (add64 (d_seq d) 1) consumed created) with (entry_payload (d_network d) entry) in *. apply orb_false_iff in Hb as [Hb1%Z.eqb_neq Hb2%Z.ltb_ge].
  assert (payload_fits (entry_payload (d_network d) entry)) as Hfit by (unfold payload_fits, blen in *; lia).
  destruct Hi1 as [Hm1 Ho1]. destruct (Memory_Apply_Ok (d_mem last) consumed created Hm1 Ht) as (mem2 & Em2 & Him & Hom).
  { by rewrite <-Ho1, Ho. }
  assert (replay_entry last entry = Ok (advance last mem2 entry)) as Hre.
  { unfold replay_entry, prevalidate. unfold entry. cbn [we_Seq we_Consumed we_Created]. rewrite Hs, Eseq.
    rewrite (proj2 (Z.leb_gt _ _)) by lia. rewrite Z.eqb_refl. cbn [negb fail_if mbind res_bind].
    rewrite Ho, (proj2 (check_delta_Ok _ _ _) Hd). cbn [or_err mbind res_bind]. by rewrite Em2. }
  exists (advance last mem2 entry). split.
  - constructor; cbn [advance with_wal d_network d_checkpoint d_wal d_seq d_closed entry we_Seq]; try done.
    + rewrite fmap_app, concat_app. cbn. by rewrite app_nil_r, <-Hw.
    + apply Forall_app. split; [done|]. apply Forall_singleton. by split.
    + apply Forall_app. split; [|apply Forall_singleton; cbn; lia]. eapply Forall_impl; [exact Hsq|]. cbn. intros e0 ?. lia.
    + rewrite rfold_app, Hr. cbn [mbind res_bind rfold]. by rewrite Hre.
    + split; [done|]. cbn. by rewrite Ho1, Hom.
  - split_and!; try done. split_and!; try done; [split; [done|]; cbn; by rewrite Ho1, Hom|].
    cbn. by rewrite Ho.
Qed.

(** ** Checkpoints *)

(** A checkpoint within the limits of the reader. *)
Definition checkpoint_fits (d : Disk) : Prop :=
  blen (checkpoint_payload d) <= maxCheckpointBytes /\ Z.of_nat (size (d_objects d)) <= maxCheckpointObjects.

Definition sorted_objects (d : Disk) : list Object := sort_by ID (snd <$> map_to_list (d_objects d)).

Lemma sorted_objects_perm d : sorted_objects d ≡ₚ snd <$> map_to_list (d_objects d).
Proof. apply sort_by_perm. Qed.
Lemma blen_sorted_objects d : blen (sorted_objects d) = Z.of_nat (size (d_objects d)).
Proof. unfold blen. by rewrite sorted_objects_perm, length_fmap, length_map_to_list. Qed.

Lemma stored_ids objects : stored_ok objects -> ID <$> (snd <$> map_to_list objects) = (map_to_list objects).*1.
Proof.
  intros Hs. rewrite <-list_fmap_compose. apply list_fmap_ext. intros i [id o] Hi. cbn.
  apply list_elem_of_lookup_2, elem_of_map_to_list in Hi. by destruct (Hs id o Hi).
Qed.
Lemma sorted_objects_ok d :
  disk_inv d -> NoDup (ID <$> sorted_objects d) /\ Forall Object_ok (sorted_objects d).
Proof.
  intros Hs%disk_stored. rewrite sorted_objects_perm. split.
  - rewrite stored_ids by done. apply NoDup_fst_map_to_list.
  - apply Forall_fmap, Forall_forall. intros [id o] Hi%elem_of_map_to_list. cbn. by destruct (Hs id o Hi).
Qed.

(** Storing the objects of a map one by one gives the map. *)
Lemma stored_rebuild d : disk_inv d -> delta_objects ∅ [] (sorted_objects d) = d_objects d.
Proof.
  intros Hi. destruct (sorted_objects_ok d Hi) as [Hnd _]. pose proof (disk_stored d Hi) as Hs.
  apply map_eq. intros id. rewrite delta_objects_lookup by done.
  destruct (list_find (fun o => ID o = id) (sorted_objects d)) as [[i o]|] eqn:E.
  - apply list_find_Some in E as (Hl & <- & _). apply list_elem_of_lookup_2 in Hl. rewrite sorted_objects_perm in Hl.
    apply list_elem_of_fmap in Hl as ([k x] & -> & Hx%elem_of_map_to_list). cbn. by destruct (Hs k x Hx) as [-> _].
  - rewrite bool_decide_eq_false_2 by apply not_elem_of_nil. rewrite lookup_empty. symmetry.
    destruct (d_objects d !! id) as [o|] eqn:Eo; [|done]. exfalso. destruct (Hs id o Eo) as [<- _].
    apply list_find_None in E. rewrite Forall_forall in E. eapply E; [|done]. rewrite sorted_objects_perm.
    apply list_elem_of_fmap. exists (ID o, o). split; [done|]. by apply elem_of_map_to_list.
Qed.

Lemma length_node_spec vs n p : length (node_spec vs n p) = 32%nat.
Proof.
  destruct n as [|n]; cbn [node_spec]; [|apply length_DomainHash]. destruct (vs !! p); apply length_DomainHash.
Qed.

Lemma checkpoint_payload_eq d :
  checkpoint_payload d =
  be 2 persistenceVersion ++ d_network d ++ be 8 (d_seq d) ++ be 4 (blen (sorted_objects d))
  ++ concat (enc_object <$> sorted_objects d) ++ Disk_Root d.
Proof.
  unfold checkpoint_payload. cbv zeta. rewrite (writer_loop _ enc_object) by (intros; apply writer_bytes).
  unfold Writer.BytesCopy, Writer.U16, Writer.U32, Writer.U64, Writer.Fixed, Writer.new. rewrite !be4_mod. app_norm. done.
Qed.

Lemma read_checkpoint_back d :
  disk_inv d -> arr32 (d_network d) -> u64 (d_seq d) -> Z.of_nat (size (d_objects d)) <= maxCheckpointObjects ->
  parse (read_checkpoint (d_network d)) (checkpoint_payload d) = Ok (d_seq d, sorted_objects d, Disk_Root d).
Proof.
  intros Hi Hn Hs Hc. rewrite checkpoint_payload_eq. destruct (sorted_objects_ok d Hi) as [_ Hok].
  assert (blen (Disk_Root d) = 32) as Hr.
  { rewrite disk_root by done. apply blen32, length_node_spec. }
  rewrite <-blen_sorted_objects in Hc. assert (0 <= blen (sorted_objects d)) by (unfold blen; lia).
  unfold maxCheckpointObjects in Hc. rewrite blen32 in Hn. unfold read_checkpoint. apply reads_parse.
  solve_reads; try done; try (unfold u32; lia); try (apply Z.ltb_ge; lia); try lia.
  - by rewrite bool_decide_eq_true_2.
  - apply Z.ltb_ge. unfold maxCheckpointObjects. lia.
  - apply (reads_repeat_count _ _ Object_ok); [|done]. intros post' o. apply reads_object.
Qed.

(** The memory that [loadCheckpoint] builds. *)
Lemma load_memory d :
  disk_inv d ->
  exists mem, (if 0 <? blen (sorted_objects d)
               then fst <$> (Memory_Apply NewMemory [] (sorted_objects d) <?> ErrPersistenceCorrupt)
               else Ok NewMemory) = Ok mem /\ mem_inv mem /\ m_objects mem = d_objects d.
Proof.
  intros Hi. destruct (sorted_objects_ok d Hi) as [Hnd Hok]. pose proof (stored_rebuild d Hi) as Hre.
  destruct (Z.ltb_spec 0 (blen (sorted_objects d))) as [Hl|Hl].
  - destruct (Memory_Apply_Ok NewMemory [] (sorted_objects d) NewMemory_inv) as (mem & Em & Him & Ho).
    + eapply Forall_impl; [exact Hok|]. by intros o [? _].
    + constructor; [constructor|constructor| |done|].
      * eapply Forall_impl; [exact Hok|]. by intros o [_ ?].
      * apply Forall_forall. intros o _ [x Hx]. cbn [NewMemory m_objects] in Hx. by rewrite lookup_empty in Hx.
    + exists mem. rewrite Em. split; [done|]. split; [done|]. by rewrite Ho, <-Hre.
  - exists NewMemory. split; [done|]. split; [apply NewMemory_inv|]. rewrite <-Hre.
    destruct (sorted_objects d); [done|]. unfold blen in Hl. cbn in Hl. lia.
Qed.

Lemma loadCheckpoint_back d :
  disk_inv d -> arr32 (d_network d) -> u64 (d_seq d) -> checkpoint_fits d ->
  exists base, (forall w, loadCheckpoint (opening (d_network d) w (Some (checkpoint_file d))) = Ok (with_wal base w)) /\
    same_state base d /\ d_closed base = false.
Proof.
  intros Hi Hn Hs [Hf Hc]. destruct (load_memory d Hi) as (mem & Em & Him & Ho).
  exists (mkDisk (d_network d) mem (d_objects d) (d_seq d) [] (Some (checkpoint_file d)) false).
  assert (disk_inv (mkDisk (d_network d) mem (d_objects d) (d_seq d) [] (Some (checkpoint_file d)) false)) as Hi'.
  { split; cbn; [done|]. by rewrite Ho. }
  split; [|by split_and!]. intros w. unfold loadCheckpoint. cbn [opening d_checkpoint d_network d_mem].
  assert (0 < blen (checkpoint_payload d)) as Hp.
  { rewrite checkpoint_payload_eq. unfold blen. rewrite length_app, length_be. lia. }
  unfold maxCheckpointBytes in *. change (Z.shiftl 1 30) with 1073741824 in *.
  set (payload := checkpoint_payload d) in *. unfold checkpoint_file. fold payload. cbv zeta.
  set (file := checkpointMagic ++ be 4 (blen payload mod 2 ^ 32) ++ payload ++ checkpoint_digest payload).
  assert (blen file = 8 + blen payload + 32) as Hl.
  { unfold file, blen, checkpoint_digest. rewrite !length_app, length_be, length_DomainHash. cbn. lia. }
  assert (firstn 4 file = checkpointMagic) as Hmagic by reflexivity.
  assert (be_val (firstn 4 (skipn 4 file)) = blen payload) as Hlen.
  { unfold file. change (skipn 4 (checkpointMagic ++ ?x)) with x. rewrite take_app_length' by (by rewrite length_be).
    rewrite Z.mod_small by lia. apply be_val_small. cbn. lia. }
  assert (skipn 8 file = payload ++ checkpoint_digest payload) as Hdrop.
  { unfold file. rewrite app_assoc. apply drop_app_length'. rewrite length_app, length_be. done. }
  rewrite Hl, Hmagic, Hlen, Hdrop. rewrite (proj2 (Z.ltb_ge (8 + blen payload + 32) _)) by lia.
  rewrite (bool_decide_eq_true_2 (checkpointMagic = checkpointMagic)) by done. cbn [negb orb fail_if mbind res_bind].
  rewrite (proj2 (Z.eqb_neq (blen payload) 0)), (proj2 (Z.ltb_ge 1073741824 _)), Z.eqb_refl by lia.
  cbn [negb orb fail_if mbind res_bind].
  assert (firstn (Z.to_nat (blen payload)) (payload ++ checkpoint_digest payload) = payload) as ->.
  { apply take_app_length'. unfold blen. lia. }
  assert (skipn (8 + Z.to_nat (blen payload)) file = checkpoint_digest payload) as ->.
  { rewrite <-drop_drop, Hdrop. apply drop_app_length'. unfold blen. lia. }
  rewrite (bool_decide_eq_true_2 (checkpoint_digest payload = checkpoint_digest payload)) by done.
  cbn [negb fail_if mbind res_bind]. unfold payload at 1. rewrite read_checkpoint_back by done. cbn [mbind res_bind]. rewrite Em. cbn [mbind res_bind].
  rewrite bool_decide_eq_true_2. 2:{ rewrite (Memory_Root_spec mem Him), (disk_root d Hi), Ho. done. }
  cbn [negb fail_if mbind res_bind opening d_objects d_network d_wal d_checkpoint d_closed].
  f_equal. unfold with_wal. f_equal. exact (stored_rebuild d Hi).
Qed.

(** Entries that the checkpoint already contains are skipped. *)
Lemma replay_skips d log : Forall (fun e => we_Seq e <= d_seq d) log -> rfold replay_entry d log = Ok d.
Proof.
  induction 1 as [|e log He _ IH]; [done|]. cbn [rfold].
  assert (replay_entry d e = Ok d) as -> by (unfold replay_entry; by rewrite (proj2 (Z.leb_le _ _) He)). exact IH.
Qed.

(** A new checkpoint, with the old log still in place or already emptied. *)
Lemma files_hold_checkpoint d base log last :
  files_hold (d_network d) (d_checkpoint d) (d_wal d) base log last -> same_state last d ->
  arr32 (d_network d) -> u64 (d_seq d) -> checkpoint_fits d ->
  exists base', same_state base' d /\
    files_hold (d_network d) (Some (checkpoint_file d)) (d_wal d) base' log base' /\
    files_hold (d_network d) (Some (checkpoint_file d)) [] base' [] base'.
Proof.
  intros [Hl Hnet Hw Hf Hsq Hr Hi Hop] (Hi1 & Hi2 & Hn & Ho & Hs) Harr Hu Hfit.
  destruct (loadCheckpoint_back d Hi2 Harr Hu Hfit) as (base' & Hload & Hsame & Hcl). exists base'. split; [done|].
  destruct Hsame as (Hib & _ & Hnb & Hob & Hsb). rewrite Hs, <-Hsb in Hsq.
  split; constructor; try done. by apply replay_skips.
Qed.

(** ** Reachable stores *)

(** The stores a process can hold, over any number of restarts: each restart
    finds the files of a reachable store, with a torn record at the end of the
    log.  The limits are those of the reader of the files. *)
Inductive disk_reachable (network : bytes) : Disk -> Prop :=
  | dr_create d : OpenDisk None [] network = Ok d -> disk_reachable network d
  | dr_apply d consumed created d' root :
      disk_reachable network d -> Forall Object_typed created -> d_seq d < MaxUint64 ->
      blen consumed <= maxWALEntries -> blen created <= maxWALEntries ->
      Disk_Apply d consumed created = Ok (d', root) -> disk_reachable network d'
  | dr_checkpoint d d' :
      disk_reachable network d -> checkpoint_fits d -> Checkpoint d = Ok d' -> disk_reachable network d'
  | dr_close d : disk_reachable network d -> disk_reachable network (Close d)
  | dr_restart d torn d' :
      disk_reachable network d -> torn_record torn ->
      OpenDisk (d_checkpoint d) (d_wal d ++ torn) network = Ok d' -> disk_reachable network d'
  | dr_interrupted d d' :
      disk_reachable network d -> checkpoint_fits d ->
      OpenDisk (Some (checkpoint_file d)) (d_wal d) network = Ok d' -> disk_reachable network d'.

Record disk_ok (network : bytes) (d : Disk) (base : Disk) (log : list WALEntry) (last : Disk) : Prop := {
  ok_network : d_network d = network;
  ok_seq : u64 (d_seq d);
  ok_files : files_hold network (d_checkpoint d) (d_wal d) base log last;
  ok_same : same_state last d;
}.

Lemma same_state_wal d w : disk_inv d -> same_state d (with_wal d w).
Proof. intros Hi. by split_and!. Qed.

(** Opening the files of a good store. *)
Lemma reopened network checkpoint wal base log last :
  files_hold network checkpoint wal base log last -> u64 (d_seq last) -> d_network last = network ->
  d_checkpoint last = checkpoint -> disk_ok network (with_wal last wal) base log last.
Proof.
  intros Hf Hu Hn Hc. constructor; cbn [with_wal d_network d_seq d_checkpoint d_wal]; try done; [by rewrite Hc|].
  apply same_state_wal. apply Hf.
Qed.

Lemma files_hold_files network checkpoint wal base log last :
  files_hold network checkpoint wal base log last -> d_checkpoint last = checkpoint /\ d_network last = network.
Proof.
  intros [Hl Hnet _ _ _ Hr _ _]. specialize (Hl wal).
  assert (d_checkpoint base = checkpoint) as Hc.
  { unfold loadCheckpoint in Hl. destruct checkpoint as [raw|]; cbn [opening d_checkpoint] in Hl.
    - do 4 apply bind_Ok in Hl as (? & _ & Hl). destruct x2 as [[? ?] ?].
      do 2 apply bind_Ok in Hl as (? & _ & Hl). apply Ok_inj in Hl. apply (f_equal d_checkpoint) in Hl. done.
    - apply Ok_inj in Hl. apply (f_equal d_checkpoint) in Hl. done. }
  clear Hl. revert base Hnet Hr Hc. induction log as [|e log IH]; intros base Hnet Hr Hc; cbn [rfold] in Hr.
  - apply Ok_inj in Hr as <-. done.
  - apply bind_Ok in Hr as (d1 & E & Hr). apply replay_entry_files in E as (_ & H1 & H2 & _).
    apply (IH d1); congruence.
Qed.

Section network.
Context (network : bytes).
Hypothesis (Harr : arr32 network) (Hz : IsZero32 network = false).

Lemma open_ok checkpoint wal base log last torn d :
  files_hold network checkpoint wal base log last -> u64 (d_seq last) -> torn_record torn ->
  OpenDisk checkpoint (wal ++ torn) network = Ok d -> disk_ok network d base log last.
Proof.
  intros Hf Hu Ht E. destruct (files_hold_files _ _ _ _ _ _ Hf) as [Hc Hn].
  rewrite (OpenDisk_holds _ _ _ _ _ _ _ Harr Hz Hf Ht) in E. apply Ok_inj in E as <-. by eapply reopened.
Qed.

Lemma fresh_holds : files_hold network None [] (opening network [] None) [] (opening network [] None).
Proof. constructor; try done. split; [apply NewMemory_inv|done]. Qed.

Lemma disk_reachable_ok d : disk_reachable network d -> exists base log last, disk_ok network d base log last.
Proof.
  induction 1 as [d E|d c n d' root _ (base & log & last & [Hn Hu Hf Hs]) Ht Hm Hc Hcr E
    |d d' _ (base & log & last & [Hn Hu Hf Hs]) Hfit E|d _ (base & log & last & [Hn Hu Hf Hs])
    |d torn d' _ (base & log & last & [Hn Hu Hf Hs]) Ht E|d d' _ (base & log & last & [Hn Hu Hf Hs]) Hfit E].
  - eexists _, _, _. apply (open_ok None [] _ _ _ [] d fresh_holds); [by split|apply torn_nil|exact E].
  - rewrite <-Hn in Hf. destruct (files_hold_apply d base log last c n d' root Hf Hs Ht Hu Hm Hc Hcr E)
      as (last' & Hf' & Hs' & _ & Hn' & _ & Hq & _). eexists _, _, _. constructor; [congruence| | |exact Hs'].
    + unfold u64, MaxUint64 in *. lia.
    + rewrite Hn', Hn in Hf'. exact Hf'.
  - pose proof Harr as Harr'. rewrite <-Hn in Hf, Harr'. destruct (files_hold_checkpoint d base log last Hf Hs Harr' Hu Hfit) as (b & Hsame & _ & Hf').
    unfold Checkpoint in E. apply bind_Ok in E as (? & _ & E). apply Ok_inj in E as <-.
    eexists _, _, _. constructor; [done|done|by rewrite <-Hn|]. cbn.
    destruct Hsame as (H1 & H2 & H3). exact (conj H1 (conj H2 H3)).
  - exists base, log, last. by constructor.
  - eexists _, _, _. eapply open_ok; [exact Hf| |exact Ht|exact E]. destruct Hs as (_ & _ & _ & _ & ->). done.
  - pose proof Harr as Harr'. rewrite <-Hn in Hf, Harr'. destruct (files_hold_checkpoint d base log last Hf Hs Harr' Hu Hfit) as (b & Hsame & Hf' & _).
    rewrite Hn in Hf'. eexists _, _, _. eapply open_ok; [exact Hf'| |apply torn_nil|rewrite app_nil_r; exact E].
    destruct Hsame as (_ & _ & _ & _ & ->). done.
Qed.

(** What reopening must give: the same objects, sequence number and root. *)
Definition recovers (checkpoint : option bytes) (wal : bytes) (d : Disk) : Prop :=
  exists d', OpenDisk checkpoint wal network = Ok d' /\ d_objects d' = d_objects d /\ d_seq d' = d_seq d /\
    Disk_Root d' = Disk_Root d /\ disk_reachable network d'.

Lemma recovers_intro d0 checkpoint wal base log last torn d :
  files_hold network checkpoint wal base log last -> torn_record torn -> same_state last d ->
  (forall d', OpenDisk checkpoint (wal ++ torn) network = Ok d' -> disk_reachable network d') ->
  d0 = wal ++ torn -> recovers checkpoint d0 d.
Proof.
  intros Hf Ht Hs Hr ->. pose proof (OpenDisk_holds _ _ _ _ _ _ _ Harr Hz Hf Ht) as E.
  exists (with_wal last wal). split; [done|]. pose proof Hs as (H1 & H2 & _ & Ho & Hq). split_and!; [done|done| |by apply Hr].
  transitivity (Disk_Root last); [|by apply same_state_root]. symmetry. by apply same_state_root, same_state_wal.
Qed.
End network.
End replay.

Section theorems.
Context `{Crypto}.

(** C14: crash recovery of an [Apply] of at most 1,000,000 consumed and 1,000,000
    created objects (what the reader of the log accepts), while the sequence number
    has not reached the last [uint64].  Whatever prefix of the new log a crash
    leaves behind while a delta is being applied, reopening the store succeeds
    and yields the state before the delta, or, once the record is complete, the
    state after it: same objects, same sequence number, same root.  The store
    is one reachable through any history of such deltas, of checkpoints of at most
    1 GiB and 10,000,000 objects, of crashes and of restarts. *)
Theorem crash_during_apply (network : bytes) (d d' : Disk) (consumed : list bytes) (created : list Object) (root : bytes)
    (k : nat) :
  arr32 network -> IsZero32 network = false -> disk_reachable network d ->
  Forall Object_typed created -> d_seq d < MaxUint64 -> blen consumed <= maxWALEntries -> blen created <= maxWALEntries ->
  Disk_Apply d consumed created = Ok (d', root) -> (length (d_wal d) <= k <= length (d_wal d'))%nat ->
  root = Disk_Root d' /\ d_checkpoint d' = d_checkpoint d /\
  recovers network (d_checkpoint d) (firstn k (d_wal d')) (if (k <? length (d_wal d'))%nat then d else d').
Proof.
  intros Harr Hz Hd Ht Hm Hc Hcr E Hk. pose proof Hd as Hr. apply disk_reachable_ok in Hr as (base & log & last & [Hn Hu Hf Hs]); [|done..].
  pose proof Hs as (_ & Hinv & _). pose proof (disk_apply d _ _ _ _ Hinv Ht E) as (_ & _ & _ & Hroot).
  rewrite <-Hn in Hf. destruct (files_hold_apply d base log last _ _ d' root Hf Hs Ht Hu Hm Hc Hcr E)
    as (last' & Hf' & Hs' & Hw & Hn' & Hck & _ & Hfit). rewrite Hn in Hf. rewrite Hn', Hn, Hck in Hf'.
  split; [done|]. split; [done|]. destruct (Nat.ltb_spec k (length (d_wal d'))) as [Hlt|Hge].
  - eapply (recovers_intro _ Harr Hz _ _ _ _ _ _ (firstn (k - length (d_wal d)) (entry_record (d_network d) _)));
      [exact Hf| |exact Hs|intros d2 E2; eapply dr_restart; [exact Hd| |exact E2]|].
    3:{ rewrite Hw, take_app. f_equal. apply take_ge. lia. }
    all: rewrite Hw, length_app in Hlt; exists (entry_payload (d_network d) (mkEntry (add64 (d_seq d) 1) consumed created)).
    all: exists (drop (k - length (d_wal d)) (entry_record (d_network d) (mkEntry (add64 (d_seq d) 1) consumed created))).
    all: split; [done|]; split; [apply take_drop|]; intros E0; apply (f_equal length) in E0; rewrite length_drop in E0;
      change (length (@nil byte)) with 0%nat in E0; lia.
  - eapply (recovers_intro _ Harr Hz _ _ _ _ _ _ []); [exact Hf'|apply torn_nil|exact Hs'| |].
    + intros d2 E2. rewrite <-Hck in E2. eapply dr_restart; [|apply torn_nil|exact E2]. by eapply dr_apply.
    + rewrite app_nil_r. apply take_ge. lia.
Qed.

(** C29: crash recovery of a [Checkpoint] of at most 1 GiB and 10,000,000 objects,
    the limits that the reader enforces and the writer does not, of a store reached
    through deltas and checkpoints within the limits of the reader.  After the new
    file has replaced the old one, reopening yields the same state whether or not
    the log has been emptied; before that, reopening from the old files does. *)
Theorem crash_during_checkpoint (network : bytes) (d d' : Disk) :
  arr32 network -> IsZero32 network = false -> disk_reachable network d -> checkpoint_fits d ->
  Checkpoint d = Ok d' ->
  recovers network (d_checkpoint d) (d_wal d) d /\
  recovers network (d_checkpoint d') (d_wal d) d /\
  recovers network (d_checkpoint d') (d_wal d') d.
Proof.
  intros Harr Hz Hd Hfit E. pose proof Hd as Hr. apply disk_reachable_ok in Hr as (base & log & last & [Hn Hu Hf Hs]); [|done..].
  pose proof Harr as Harr'. rewrite <-Hn in Harr'. pose proof Hf as Hf0. rewrite <-Hn in Hf.
  destruct (files_hold_checkpoint d base log last Hf Hs Harr' Hu Hfit) as (b & Hsame & Hold & Hnew). rewrite Hn in Hold, Hnew.
  assert (d_checkpoint d' = Some (checkpoint_file d) /\ d_wal d' = []) as [Hck Hw].
  { unfold Checkpoint in E. apply bind_Ok in E as (? & _ & E). by apply Ok_inj in E as <-. }
  pose proof (dr_checkpoint _ _ _ Hd Hfit E) as Hd'. rewrite Hck. split_and!.
  - eapply (recovers_intro _ Harr Hz _ _ _ _ _ _ []); [exact Hf0|apply torn_nil|exact Hs| |by rewrite app_nil_r].
    intros d2 E2. eapply dr_restart; [exact Hd|apply torn_nil|exact E2].
  - eapply (recovers_intro _ Harr Hz _ _ _ _ _ _ []); [exact Hold|apply torn_nil|exact Hsame| |by rewrite app_nil_r].
    intros d2 E2. rewrite app_nil_r in E2. eapply dr_interrupted; [exact Hd|exact Hfit|exact E2].
  - rewrite Hw. eapply (recovers_intro _ Harr Hz _ _ _ _ _ _ []); [exact Hnew|apply torn_nil|exact Hsame| |done].
    intros d2 E2. eapply (dr_restart _ d' []); [exact Hd'|apply torn_nil|]. rewrite Hck, Hw. exact E2.
Qed.
End theorems.

(** ** A durable store with one coin *)

Module DiskExample.
#[local] Existing Instance small_crypto.
Definition network : bytes := be 32 3.
Lemma created : is_ok (OpenDisk None [] network) = true.
Proof. vm_compute. reflexivity. Qed.
Definition disk : Disk := ok_or (opening network [] None) (OpenDisk None [] network).
Lemma disk_example_reachable : disk_reachable network disk.
Proof.
  destruct (is_ok_true _ created) as [d E]. unfold disk. rewrite E. exact (dr_create network d E).
Qed.
Lemma disk_applied : is_ok (Disk_Apply disk [] [StoreExample.coin]) = true.
Proof. vm_compute. reflexivity. Qed.
End DiskExample.

(** The crash comes after twenty bytes of the record. *)
Lemma crash_during_apply_witness :
  exists d' root, Disk_Apply (H := small_crypto) DiskExample.disk [] [StoreExample.coin] = Ok (d', root) /\
    recovers (H := small_crypto) DiskExample.network None (firstn 20 (d_wal d')) DiskExample.disk.
Proof.
  destruct (is_ok_true _ DiskExample.disk_applied) as [[d' root] E]. exists d', root. split; [exact E|].
  assert (length (d_wal (ok_or (DiskExample.disk, []) (Disk_Apply (H := small_crypto) DiskExample.disk [] [StoreExample.coin])).1)
    = 192%nat) as Hl by (vm_compute; reflexivity).
  rewrite E in Hl. cbn [ok_or fst] in Hl.
  pose proof (crash_during_apply (H := small_crypto) DiskExample.network DiskExample.disk d' [] [StoreExample.coin] root 20
    eq_refl eq_refl DiskExample.disk_example_reachable StoreExample.typed eq_refl ltac:(discriminate) ltac:(discriminate) E) as Hr.
  rewrite Hl in Hr. destruct Hr as (_ & _ & Hr).
  - change (length (d_wal DiskExample.disk)) with 0%nat. lia.
  - exact Hr.
Defined.

Lemma crash_during_checkpoint_witness :
  exists d', Checkpoint (H := small_crypto) DiskExample.disk = Ok d' /\
    recovers (H := small_crypto) DiskExample.network (d_checkpoint d') (d_wal d') DiskExample.disk.
Proof.
  eexists. split; [reflexivity|].
  refine (proj2 (proj2 (crash_during_checkpoint (H := small_crypto) DiskExample.network DiskExample.disk _
    eq_refl eq_refl DiskExample.disk_example_reachable _ eq_refl))).
  split; vm_compute; discriminate.
Defined.
