(* ===== verification/Batch.v ===== *)
(** * Batch

    [internal/v2/execution/parallel.go]: batches of transactions whose access
    sets are independent, executed by a pool of workers and applied to a store
    as one delta.

    The workers take indices from a channel and write their result to the slot
    of the index; the order in which the executions finish is the parameter
    [schedule], any enumeration of the indices. *)

From S2P Require Import Prelude GoLib Codec Crypto Types Object Tx Contracts Execution ExecutionExtended Worldstate.

Open Scope Z_scope.

Inductive accessMode := accessRead | accessWrite.
#[global] Instance accessMode_eq_dec : EqDecision accessMode.
Proof. solve_decision. Defined.

Record BatchExecutor := mkBatchExecutor {
  bx_Engine : Engine;
  bx_Workers : Z;
}.

(** [if _, present := accesses[id]; !present { return ErrBatchConflict }; accesses[id] = mode] *)
Definition set_access (accesses : gmap bytes accessMode) (id : bytes) (mode : accessMode) : res (gmap bytes accessMode) :=
  fail_if (negb (bool_decide (is_Some (accesses !! id)))) ErrBatchConflict;;
  Ok (<[id := mode]> accesses).

Definition input_accesses (t : Transaction) : gmap bytes accessMode :=
  foldl (fun m i => <[in_ObjectID i := accessWrite]> m) ∅ (t_Inputs t).

Definition read_definition (accesses : gmap bytes accessMode) (w : Witness) : res (gmap bytes accessMode) :=
  if negb (Kind (w_Object w) =? KindTokenDefinition) then Ok accesses
  else set_access accesses (ID (w_Object w)) accessRead.

Definition declared_access (accesses : gmap bytes accessMode) (a : Access) : res (gmap bytes accessMode) :=
  set_access accesses (ac_ObjectID a) (if ac_Write a then accessWrite else accessRead).

Definition transactionAccesses (t : Transaction) : res (gmap bytes accessMode) :=
  let accesses := input_accesses t in
  match t_Operations t with
  | [op] =>
      if op_Kind op =? OpTransfer then rfold read_definition accesses (t_Witnesses t)
      else if op_Kind op =? OpContractCall then
        call ← ParseCall (op_Payload op);
        accesses ← set_access accesses (cl_ContractObject call) accessRead;
        rfold declared_access accesses (cl_Accesses call)
      else Ok accesses
  | _ => Ok accesses
  end.

Section batch.
Context `{Crypto} `{MapOrder} `{ScriptHost}.

(** One object of the inner loop over the accesses of a transaction. *)
Definition claim_access (global : gmap bytes accessMode) (access : bytes * accessMode) : res (gmap bytes accessMode) :=
  let '(objectID, mode) := access in
  match global !! objectID with
  | Some prior =>
      fail_if (bool_decide (prior = accessWrite) || bool_decide (mode = accessWrite)) ErrBatchConflict;;
      Ok global
  | None => Ok (<[objectID := mode]> global)
  end.

Definition check_transaction (root : bytes) (st : gset bytes * gmap bytes accessMode) (t : Transaction)
    : res (gset bytes * gmap bytes accessMode) :=
  let '(seenTransactions, global) := st in
  fail_if (negb (bool_decide (t_StateRoot t = root))) ErrBatchStateRoot;;
  fail_if (bool_decide (tx_ID t ∈ seenTransactions)) ErrBatchConflict;;
  accesses ← transactionAccesses t;
  global ← rfold claim_access global (range_map accesses);
  Ok ({[tx_ID t]} ∪ seenTransactions, global).

(** Called with at least one transaction. *)
Definition validateIndependentBatch (transactions : list Transaction) : res unit :=
  match transactions with
  | [] => Ok tt
  | first :: _ => rfold (check_transaction (t_StateRoot first)) (∅, ∅) transactions;; Ok tt
  end.

(** [for i := range transactions { result, err := Execute(...); if err != nil { return nil, err } ... }] *)
Definition execute_all (e : Engine) (transactions : list Transaction) : res (list Result) :=
  rfold (fun results t => result ← Execute e t; Ok (results ++ [result])) [] transactions.

(** [results[index], errs[index] = Execute(transactions[index])], in the order of the schedule. *)
Definition run_workers (e : Engine) (transactions : list Transaction) (schedule : list nat) : list (option (res Result)) :=
  foldl (fun slots index => match transactions !! index with
                            | Some t => <[index := Some (Execute e t)]> slots
                            | None => slots
                            end) (replicate (length transactions) None) schedule.

(** The scan of [errs]; a slot that was never written holds no error and the
    zero result. *)
Definition collect_slot (results : list Result) (slot : option (res Result)) : res (list Result) :=
  match slot with
  | Some (Ok result) => Ok (results ++ [result])
  | Some (Err err) => Err err
  | None => Ok (results ++ [mkResult [] [] [] zero32])
  end.

Definition worker_count (b : BatchExecutor) (gomaxprocs : Z) (transactions : list Transaction) : Z :=
  let workers := if bx_Workers b <=? 0 then gomaxprocs else bx_Workers b in
  let workers := if blen transactions <? workers then blen transactions else workers in
  if workers <? 1 then 1 else workers.

Definition ExecuteBatch (b : BatchExecutor) (gomaxprocs : Z) (schedule : list nat) (transactions : list Transaction)
    : res (list Result) :=
  match transactions with
  | [] => Ok []
  | _ =>
      validateIndependentBatch transactions;;
      if worker_count b gomaxprocs transactions =? 1 then execute_all (bx_Engine b) transactions
      else rfold collect_slot [] (run_workers (bx_Engine b) transactions schedule)
  end.

Section apply.
Context {S : Type} `{Backend S}.

(** The store, the root and the results; on an error the store is unchanged. *)
Definition ApplyBatch (b : BatchExecutor) (gomaxprocs : Z) (schedule : list nat) (store : S)
    (transactions : list Transaction) : res (S * bytes * list Result) :=
  match transactions with
  | [] => Ok (store, backend_Root store, [])
  | first :: _ =>
      fail_if (negb (bool_decide (backend_Root store = t_StateRoot first))) ErrBatchStateRoot;;
      results ← ExecuteBatch b gomaxprocs schedule transactions;
      let consumed := concat (Consumed <$> results) in
      let created := concat (Created <$> results) in
      applied ← backend_Apply store consumed created;
      Ok (applied.1, applied.2, results)
  end.
End apply.
End batch.
