(* ===== verification/BatchAccess.v ===== *)
(** * BatchAccess

    The access sets a batch is checked with cover what the transactions do:
    an executed transaction consumes only inputs it declares as written, and
    the transactions of an independent batch write nothing that another one
    reads or writes. *)

From S2P Require Import Prelude GoLib Codec Crypto Types Merkle Object Assets Sharding Smt Tx TxProofs Lending.
From S2P Require Import ComputeModel ComputeWire ComputeMarket ComputeProofs Contracts DeviceCredential Execution.
From S2P Require Import ExecutionExtended ExecutionValue ExecutionLoans ExecutionCompute ExecutionTokens.
From S2P Require Import ExecutionProofs ExecutionIds Batch.

Open Scope Z_scope.

(** ** What an execution consumes *)

Section consumed.
Context `{Crypto} `{MapOrder} `{ScriptHost} (e : Engine) (t : Transaction).

Definition spends (r : Result) : Prop := Forall (fun id => id ∈ ID <$> objs t) (Consumed r).

Lemma witness_in w : w ∈ t_Witnesses t -> ID (w_Object w) ∈ ID <$> objs t.
Proof. intros Hw. unfold objs. rewrite <-list_fmap_compose. by apply (list_elem_of_fmap_2 (ID ∘ w_Object)). Qed.
Lemma obj_id o : o ∈ objs t -> ID o ∈ ID <$> objs t.
Proof. apply list_elem_of_fmap_2. Qed.

Lemma account_spends X i o created outbound consumed :
  accountNativeValue e t X i o = Ok (created, outbound, consumed) -> Forall (fun id => id ∈ ID <$> objs t) consumed.
Proof.
  unfold accountNativeValue. intros E. op_inv.
  match goal with E : rfold _ _ _ = _ |- _ =>
    refine (rfold_inv (fun (st : Z * list bytes) _ => Forall (fun id => id ∈ ID <$> objs t) st.2) _ _ _ _ [] _ _ E); [constructor|] end.
  intros [a1 l1] [a2 l2] dn w Hl Hw E. unfold account_input in E. case_match; op_inv; [done|].
  apply Forall_app. split; [done|]. by apply Forall_singleton, witness_in.
Qed.

Lemma fee_spends id acc created consumed :
  feeOnlyOutputsExcluding e t id acc = Ok (created, consumed) ->
  Forall (fun x => x ∈ ID <$> objs t /\ x ∉ fee_excluded id acc) consumed.
Proof.
  unfold feeOnlyOutputsExcluding. fold (fee_excluded id acc). intros E. op_inv.
  match goal with E : rfold _ _ _ = _ |- _ =>
    refine (rfold_inv (fun (st : Z * list bytes) _ => Forall (fun x => x ∈ ID <$> objs t /\ x ∉ fee_excluded id acc) st.2)
      _ _ _ _ [] _ _ E); [constructor|] end.
  intros [a1 l1] [a2 l2] dn w Hl Hw E. unfold fee_input in E. case_bool_decide; op_inv; [done|].
  apply Forall_app. split; [done|]. apply Forall_singleton. split; [by apply witness_in|done].
Qed.

Lemma burn_spends d token st :
  rfold (burn_input e t d token) (0, 0, []) (t_Witnesses t) = Ok st -> Forall (fun id => id ∈ ID <$> objs t) st.2.
Proof.
  intros E. refine (rfold_inv (fun (st : Z * Z * list bytes) _ => Forall (fun id => id ∈ ID <$> objs t) st.2) _ _ _ _ [] _ _ E);
    [constructor|]. clear E.
  intros [[a1 b1] l1] [[a2 b2] l2] dn w Hl Hw E. unfold burn_input in E. repeat (case_bool_decide; op_inv; try done);
    (apply Forall_app; split; [done|]; by apply Forall_singleton, witness_in).
Qed.

Lemma transfer_spends st :
  rfold (transfer_input e t) (mkTransferIn ∅ ∅ []) (t_Witnesses t) = Ok st ->
  Forall (fun id => exists o, o ∈ objs t /\ ID o = id /\ Kind o = KindCoin) (ti_Consumed st).
Proof.
  intros E. refine (rfold_inv (fun st _ => Forall (fun id => exists o, o ∈ objs t /\ ID o = id /\ Kind o = KindCoin) (ti_Consumed st))
    _ _ _ _ [] _ _ E); [constructor|]. clear E.
  intros a b dn w Hl Hw E. unfold transfer_input in E. destruct (Z.eqb_spec (Kind (w_Object w)) KindCoin); [|case_match; [|done]];
    op_inv; [|done]. cbn [ti_Consumed]. apply Forall_app. split; [done|]. apply Forall_singleton. exists (w_Object w).
  split_and!; [|done..]. by apply list_elem_of_fmap_2.
Qed.

Ltac spend_facts :=
  repeat match goal with
  | E : accountNativeValue _ _ _ _ _ = Ok _ |- _ => apply account_spends in E
  | E : feeOnlyOutputsExcluding _ _ _ _ = Ok _ |- _ => apply fee_spends in E; apply (Forall_impl _ (fun x => x ∈ ID <$> objs t)) in E; [|by intros ? []]
  | E : ingest_witnesses _ _ _ = _ |- _ => apply ingest_witnesses_Ok in E as (? & ? & _)
  | E : job_witness _ _ = _ |- _ => apply job_witness_Ok in E as [? _]
  | E : tokenDefinitionWitness _ _ = _ |- _ => apply tokenDefinitionWitness_Ok in E as (? & _)
  end; op_facts.

Ltac spends_tac :=
  unfold spends; cbn [Consumed]; repeat (apply Forall_app; split); repeat (apply Forall_cons; split); try apply Forall_nil_2; try done;
  try (apply obj_id; done).

Lemma executeLending_spends op r : executeLending e t op = Ok r -> spends r.
Proof.
  unfold executeLending. repeat case_match; intros E; [..|done];
  unfold executeLoanOffer, executeLoanCancel, executeLoanAccept, executeLoanRepay, executeLoanDefault in E; op_inv; spend_facts; spends_tac.
Qed.
Lemma executeCrossShardLending_spends op r : executeCrossShardLending e t op = Ok r -> spends r.
Proof.
  unfold executeCrossShardLending. repeat case_match; intros E; [..|done];
  unfold executeCrossLoanOffer, executeCrossLoanAccept, executeCrossLoanRepay, executeCrossLoanSettle, executeCrossLoanDefault,
    executeCrossLoanExpire in E; op_inv; spend_facts; spends_tac.
Qed.
Lemma executeCompute_spends op r : executeCompute e t op = Ok r -> spends r.
Proof.
  unfold executeCompute. repeat case_match; intros E; [..|done];
  unfold executeComputeOffer, executeComputeJob, executeComputeAccept, executeComputeResult, executeComputeIngestAssignment,
    executeComputeIngestResult, executeComputeFinalize, executeComputeExpire, settle in E; op_inv; spend_facts; spends_tac.
Qed.
Lemma executeDeviceCredential_spends op r : executeDeviceCredential e t op = Ok r -> spends r.
Proof.
  unfold executeDeviceCredential. repeat case_match; intros E; [..|done];
  unfold executeDeviceCredentialRegister, executeDeviceCredentialUpdate, executeDeviceCredentialRevoke, feeOnlyOutputs,
    credential_witness in E; op_inv; spend_facts; spends_tac.
Qed.

(** [OpCreateToken] consumes every input. *)
Lemma executeTokens_spends p r :
  in_ObjectID <$> t_Inputs t = ID <$> objs t ->
  executeCreateToken e t p = Ok r \/ executeMintToken e t p = Ok r \/ executeBurnToken e t p = Ok r -> spends r.
Proof.
  intros Hi [E|[E|E]]; unfold executeCreateToken, executeMintToken, executeBurnToken in E; op_inv.
  - unfold spends. cbn [Consumed]. rewrite Hi. by apply Forall_forall.
  - spend_facts. spends_tac.
  - match goal with E : rfold _ _ _ = _ |- _ => apply burn_spends in E; cbn [snd] in E end. spend_facts. spends_tac.
Qed.

Lemma executeDeployContract_spends p r : executeDeployContract e t p = Ok r -> spends r.
Proof. unfold executeDeployContract, feeOnlyOutputs. intros E. op_inv. spend_facts. spends_tac. Qed.
End consumed.

(** ** What a transaction declares *)

Section accesses.
Context `{Crypto} `{MapOrder} `{ScriptHost}.

Lemma set_access_Ok acc id mode acc' :
  set_access acc id mode = Ok acc' <-> is_Some (acc !! id) /\ acc' = <[id := mode]> acc.
Proof.
  unfold set_access. case_bool_decide; cbn; [|naive_solver]. split; [intros [= <-]|intros [_ ->]]; done.
Qed.

Lemma input_accesses_lookup t id :
  input_accesses t !! id = if bool_decide (id ∈ in_ObjectID <$> t_Inputs t) then Some accessWrite else None.
Proof.
  unfold input_accesses. induction (t_Inputs t) as [|i l IH] using rev_ind; [done|].
  rewrite foldl_app, fmap_app. cbn [foldl fmap list_fmap]. destruct (decide (in_ObjectID i = id)) as [<-|Hn].
  - rewrite lookup_insert_eq, bool_decide_eq_true_2; [done|]. apply elem_of_app. right. left.
  - rewrite lookup_insert_ne, IH by done. erewrite bool_decide_ext; [done|].
    rewrite elem_of_app, list_elem_of_singleton. naive_solver.
Qed.

(** A loop of [set_access] keeps the identifiers and changes only those it names. *)
Lemma set_access_loop {A} (f : gmap bytes accessMode -> A -> res (gmap bytes accessMode)) (touched : A -> bytes -> Prop) l acc acc' :
  (forall a x b, x ∈ l -> f a x = Ok b -> (forall id, is_Some (a !! id) -> is_Some (b !! id)) /\
    (forall id, ~ touched x id -> b !! id = a !! id)) ->
  rfold f acc l = Ok acc' ->
  (forall id, is_Some (acc !! id) -> is_Some (acc' !! id)) /\
  (forall id, Forall (fun x => ~ touched x id) l -> acc' !! id = acc !! id).
Proof.
  revert acc. induction l as [|x l IH]; intros acc Hf E; cbn [rfold] in E; [by apply Ok_inj in E as ->|].
  apply bind_Ok in E as (b & E1 & E2). destruct (Hf _ _ _ ltac:(left) E1) as [Hk Hc].
  destruct (IH b ltac:(intros; eapply Hf; [by right|done]) E2) as [Hk' Hc']. split; [auto|].
  intros id [Hx Hl]%Forall_cons_1. rewrite Hc' by done. auto.
Qed.

Lemma set_access_step acc id mode acc' :
  set_access acc id mode = Ok acc' ->
  (forall k, is_Some (acc !! k) -> is_Some (acc' !! k)) /\ (forall k, ~ id = k -> acc' !! k = acc !! k).
Proof.
  intros [_ ->]%set_access_Ok. split; [|intros; by rewrite lookup_insert_ne].
  intros k Hk. destruct (decide (id = k)) as [->|]; [by rewrite lookup_insert_eq|by rewrite lookup_insert_ne].
Qed.

Lemma read_definitions_loop t acc acc' :
  rfold read_definition acc (t_Witnesses t) = Ok acc' ->
  (forall id, is_Some (acc !! id) -> is_Some (acc' !! id)) /\
  (forall id, Forall (fun w => ~ (Kind (w_Object w) = KindTokenDefinition /\ ID (w_Object w) = id)) (t_Witnesses t) ->
     acc' !! id = acc !! id).
Proof.
  apply (set_access_loop _ (fun w id => Kind (w_Object w) = KindTokenDefinition /\ ID (w_Object w) = id)).
  intros a w b _ E. unfold read_definition in E. destruct (Z.eqb_spec (Kind (w_Object w)) KindTokenDefinition) as [Hk|Hk]; cbn [negb] in E.
  - apply set_access_step in E as [H2 H3]. split; [done|]. intros id Hn. apply H3. naive_solver.
  - apply Ok_inj in E as ->. done.
Qed.

Lemma declared_loop l acc acc' :
  rfold declared_access acc l = Ok acc' ->
  (forall id, is_Some (acc !! id) -> is_Some (acc' !! id)) /\
  (forall id, id ∉ ac_ObjectID <$> l -> acc' !! id = acc !! id).
Proof.
  intros E. destruct (set_access_loop declared_access (fun a id => ac_ObjectID a = id) l acc acc') as [H2 H3]; [|done|].
  { intros a x b _ Ex. by apply set_access_step in Ex. }
  split; [done|]. intros id Hn. apply H3, Forall_forall. intros x Hx <-. by apply Hn, list_elem_of_fmap_2.
Qed.

Lemma declared_mode l acc acc' a :
  NoDup (ac_ObjectID <$> l) -> rfold declared_access acc l = Ok acc' -> a ∈ l ->
  acc' !! ac_ObjectID a = Some (if ac_Write a then accessWrite else accessRead).
Proof.
  revert acc. induction l as [|x l IH]; intros acc Hnd E Ha; [by apply not_elem_of_nil in Ha|]. cbn [rfold] in E. cbn in Hnd.
  apply bind_Ok in E as (b & E1 & E2). apply NoDup_cons in Hnd as [Hni Hnd]. apply elem_of_cons in Ha as [->|Ha]; [|by eapply IH].
  destruct (declared_loop _ _ _ E2) as [_ ->]; [|done]. unfold declared_access in E1. apply set_access_Ok in E1 as [_ ->].
  by rewrite lookup_insert_eq.
Qed.

(** Every input is declared. *)
Lemma inputs_declared t acc i :
  transactionAccesses t = Ok acc -> i ∈ t_Inputs t -> is_Some (acc !! in_ObjectID i).
Proof.
  intros E Hi. assert (is_Some (input_accesses t !! in_ObjectID i)) as H2.
  { rewrite input_accesses_lookup, bool_decide_eq_true_2; [done|]. by apply list_elem_of_fmap_2. }
  unfold transactionAccesses in E. cbv zeta in E. destruct (t_Operations t) as [|op [|]]; try (by apply Ok_inj in E as <-).
  destruct (_ =? _); [by apply (read_definitions_loop _ _ _ E)|]. destruct (_ =? _); [|by apply Ok_inj in E as <-].
  apply bind_Ok in E as (call & _ & E). apply bind_Ok in E as (a1 & E1 & E2). apply set_access_step in E1 as [H3 _].
  apply (declared_loop _ _ _ E2). auto.
Qed.

(** ** An execution writes only what is declared as written *)

Lemma allowed_modes accesses m :
  rfold allow ∅ accesses = Ok m ->
  NoDup (ac_ObjectID <$> accesses) /\
  forall id, m !! id = Some true -> exists a, a ∈ accesses /\ ac_ObjectID a = id /\ ac_Write a = true.
Proof.
  intros E. apply (rfold_inv (fun m l => NoDup (ac_ObjectID <$> l) /\ (forall a, a ∈ l -> is_Some (m !! ac_ObjectID a)) /\
    forall id, m !! id = Some true -> exists a, a ∈ l /\ ac_ObjectID a = id /\ ac_Write a = true) _ _ _ _ []) in E.
  - by destruct E as (? & _ & ?).
  - split_and!; [constructor|by intros a Ha%not_elem_of_nil|done].
  - intros a b l x (Hnd & Hs & Hm) _ Hx. unfold allow in Hx. op_inv.
    match goal with E : bool_decide _ = false |- _ => apply bool_decide_eq_false_1 in E as Hn end. split_and!.
    + rewrite fmap_app. apply NoDup_app. split_and!; [done| |apply NoDup_singleton].
      intros id (y & -> & Hy)%list_elem_of_fmap Hin. apply list_elem_of_singleton in Hin. apply Hn. rewrite <-Hin. by apply Hs.
    + intros y [Hy| ->%list_elem_of_singleton]%elem_of_app; [|by rewrite lookup_insert_eq].
      destruct (decide (ac_ObjectID x = ac_ObjectID y)) as [->|]; [by rewrite lookup_insert_eq|]. rewrite lookup_insert_ne by done. auto.
    + intros id Hid. destruct (decide (ac_ObjectID x = id)) as [<-|Hne].
      * rewrite lookup_insert_eq in Hid. injection Hid as Hid. exists x. split_and!; [apply elem_of_app; right; left|done|done].
      * rewrite lookup_insert_ne in Hid by done. destruct (Hm id Hid) as (y & ? & ? & ?). exists y. split_and!; try done.
        apply elem_of_app. by left.
Qed.

Lemma Metered_declares m request result :
  Metered_Execute m request = Ok result ->
  NoDup (ac_ObjectID <$> rq_Accesses request) /\
  Forall (fun w => exists a, a ∈ rq_Accesses request /\ ac_ObjectID a = w.1 /\ ac_Write a = true) (range_map (cx_Writes result)).
Proof.
  unfold Metered_Execute. destruct m as [inner|]; [|done]. intros E. op_inv.
  match goal with E : validateRequest _ = _ |- _ => unfold validateRequest in E; op_inv end.
  match goal with E : rfold allow _ _ = Ok ?m |- _ => apply allowed_modes in E as [Hnd Hm]; rename m into allowed end.
  split; [done|]. match goal with E : existsb _ (range_map (cx_Writes _)) = false |- _ => rename E into Hex end.
  apply Forall_forall. intros [id v] Hin. apply Hm. cbn. destruct (allowed !! id) as [[]|] eqn:Ea; [done|exfalso..];
    apply not_true_iff_false in Hex; apply Hex, existsb_exists; exists (id, v); (split; [by apply list_elem_of_In|by rewrite Ea]).
Qed.

Lemma call_written e t op acc r :
  t_Operations t = [op] -> op_Kind op = OpContractCall -> in_ObjectID <$> t_Inputs t = ID <$> objs t ->
  executeContractCall e t (op_Payload op) = Ok r -> transactionAccesses t = Ok acc ->
  Forall (fun id => acc !! id = Some accessWrite) (Consumed r).
Proof.
  intros Eo Ek Hi E Ea. unfold transactionAccesses in Ea. rewrite Eo, Ek in Ea. cbv zeta in Ea.
  change (OpContractCall =? OpTransfer) with false in Ea. change (OpContractCall =? OpContractCall) with true in Ea. cbv iota in Ea.
  unfold executeContractCall in E. apply bind_Ok in E as (call & Ec & E). rewrite Ec in Ea. cbn [mbind res_bind] in Ea. op_inv.
  match goal with E : set_access _ _ _ = _ |- _ => apply set_access_step in E as [_ Hset] end.
  match goal with E : rfold declared_access _ _ = _ |- _ => pose proof (declared_loop _ _ _ E) as [_ Hkeep]; rename E into Hdecl end.
  match goal with E : Metered_Execute _ _ = _ |- _ => apply Metered_declares in E as [Hnd Hw]; cbn [rq_Accesses] in Hnd, Hw end.
  match goal with E : feeOnlyOutputsExcluding _ _ _ _ = _ |- _ => apply fee_spends in E as Hfee end. cbn [Consumed]. apply Forall_app. split.
  - eapply Forall_impl; [exact Hfee|]. intros id [Hin Hex]. unfold fee_excluded in Hex.
    apply not_elem_of_union in Hex as [Hc Hl]. rewrite Hkeep by set_solver. rewrite Hset.
    + by rewrite input_accesses_lookup, bool_decide_eq_true_2 by (by rewrite Hi).
    + intros <-. apply Hc. assert (IsZero32 (cl_ContractObject call) = false) as ->; [|by apply elem_of_singleton].
      unfold ParseCall in Ec. clear -Ec. parse_inv. match goal with E : Call_MarshalBinary _ = _ |- _ => unfold Call_MarshalBinary in E; op_inv end.
      op_facts. done.
  - apply Forall_fmap. eapply Forall_impl; [exact Hw|]. intros w (ac & Ha & Eid & Hwr). cbn. rewrite <-Eid.
    rewrite (declared_mode _ _ _ _ Hnd Hdecl Ha), Hwr. done.
Qed.

Lemma transfer_written e t op acc r :
  t_Operations t = [op] -> op_Kind op = OpTransfer -> in_ObjectID <$> t_Inputs t = ID <$> objs t -> NoDup (ID <$> objs t) ->
  executeTransfer e t = Ok r -> transactionAccesses t = Ok acc ->
  Forall (fun id => acc !! id = Some accessWrite) (Consumed r).
Proof.
  intros Eo Ek Hi Hnd E Ea. unfold transactionAccesses in Ea. rewrite Eo, Ek in Ea. cbv zeta in Ea.
  change (OpTransfer =? OpTransfer) with true in Ea. cbv iota in Ea.
  unfold executeTransfer in E. op_inv. match goal with E : rfold (transfer_input _ _) _ _ = _ |- _ => apply transfer_spends in E as Hs end.
  cbn [Consumed]. eapply Forall_impl; [exact Hs|]. intros id (o & Ho & <- & Hk). apply read_definitions_loop in Ea as [_ ->].
  - rewrite input_accesses_lookup, bool_decide_eq_true_2; [done|]. rewrite Hi. by apply list_elem_of_fmap_2.
  - apply Forall_forall. intros w Hw [Hd Hid]. assert (w_Object w = o) as Ewo; [|rewrite Ewo, Hk in Hd; by vm_compute in Hd].
    eapply (NoDup_fmap_inj ID (objs t)); [done| |done|done]. by apply list_elem_of_fmap_2.
Qed.

(** Everything an executed transaction consumes is declared as written. *)
Lemma consumed_written e t acc r :
  Execute e t = Ok r -> transactionAccesses t = Ok acc -> Forall (fun id => acc !! id = Some accessWrite) (Consumed r).
Proof.
  intros E Ea. destruct (Execute_inputs _ _ _ E) as (Hi & Hnd & _). apply Execute_dispatch in E as (op & Eo & E).
  assert (op_Kind op <> OpTransfer -> op_Kind op <> OpContractCall -> spends t r ->
    Forall (fun id => acc !! id = Some accessWrite) (Consumed r)) as Hplain.
  { intros H2 H3 Hs. unfold transactionAccesses in Ea. rewrite Eo in Ea. cbv zeta in Ea.
    rewrite (proj2 (Z.eqb_neq _ _) H2), (proj2 (Z.eqb_neq _ _) H3) in Ea. apply Ok_inj in Ea as <-.
    eapply Forall_impl; [exact Hs|]. intros id Hid. by rewrite input_accesses_lookup, bool_decide_eq_true_2 by (by rewrite Hi). }
  destruct E as [[Ek E]|[[Ek E]|[Ek E]]]; [by eapply transfer_written|apply Hplain; [by rewrite Ek..|eapply executeTokens_spends; eauto]|].
  destruct (decide (op_Kind op = OpContractCall)) as [Ec|Ec].
  - eapply call_written; try done. unfold executeExtended in E. rewrite Ec in E. exact E.
  - apply Hplain; [done|done|]. unfold executeExtended in E. cbv zeta in E. rewrite (proj2 (Z.eqb_neq _ OpContractCall) Ec) in E.
    destruct (_ =? _); [by eapply executeDeployContract_spends|]. do 2 (destruct (_ =? _); [eapply executeTokens_spends; eauto|]).
    destruct (is_one_of _ _); [by eapply executeCompute_spends|]. destruct (is_one_of _ _); [by eapply executeLending_spends|].
    destruct (is_one_of _ _); [by eapply executeDeviceCredential_spends|].
    destruct (is_one_of _ _); [by eapply executeCrossShardLending_spends|]. done.
Qed.
End accesses.

(** ** Independent batches *)

Definition compatible (a b : gmap bytes accessMode) : Prop :=
  forall id m n, a !! id = Some m -> b !! id = Some n -> m = accessRead /\ n = accessRead.

Lemma claims_Ok g0 g1 l :
  rfold claim_access g0 l = Ok g1 ->
  (forall id p, g0 !! id = Some p -> g1 !! id = Some p) /\
  Forall (fun x => (exists g, g1 !! x.1 = Some g /\ (x.2 = accessWrite -> g = accessWrite)) /\
    (forall p, g0 !! x.1 = Some p -> p = accessRead /\ x.2 = accessRead)) l.
Proof.
  revert g0. induction l as [|[id m] l IH]; intros g0 E; cbn [rfold] in E; [apply Ok_inj in E as ->; by split|].
  apply bind_Ok in E as (g & E1 & E2). destruct (IH g E2) as [Hk Hl]. clear IH.
  assert ((forall i p, g0 !! i = Some p -> g !! i = Some p) /\ (exists q, g !! id = Some q /\ (m = accessWrite -> q = accessWrite)) /\
    (forall p, g0 !! id = Some p -> p = accessRead /\ m = accessRead)) as (Hk' & (q & Hq & Hqw) & Hp).
  { unfold claim_access in E1. destruct (g0 !! id) as [prior|] eqn:Ei.
    - apply bind_Ok in E1 as ([] & Hf%fail_if_Ok & E1). apply Ok_inj in E1 as <-. split; [done|].
      destruct prior, m; cbn in Hf; try done. split; [eauto|]. naive_solver.
    - apply Ok_inj in E1 as <-. split_and!; [|exists m; by rewrite lookup_insert_eq|naive_solver].
      intros i p Hi. rewrite lookup_insert_ne; [done|]. congruence. }
  split; [auto|]. apply Forall_cons. split; [split; [|done]; exists q; split; [by apply Hk|done]|].
  eapply Forall_impl; [exact Hl|]. intros x [? Hx]. split; [done|]. eauto.
Qed.

Section independent.
Context `{Crypto} `{MapOrder} `{ScriptHost}.

Lemma range_map_elem {V} (m : gmap bytes V) k v : (k, v) ∈ range_map m <-> m !! k = Some v.
Proof. rewrite range_map_perm. apply elem_of_map_to_list. Qed.

Record claimed (ts : list Transaction) (accs : list (gmap bytes accessMode)) (seen : gset bytes) (global : gmap bytes accessMode)
    : Prop := {
  cl_accesses : Forall2 (fun t a => transactionAccesses t = Ok a) ts accs;
  cl_distinct : NoDup (tx_ID <$> ts);
  cl_seen : forall t, t ∈ ts -> tx_ID t ∈ seen;
  cl_global : Forall (fun a : gmap bytes accessMode => forall id m, a !! id = Some m ->
    exists g, global !! id = Some g /\ (m = accessWrite -> g = accessWrite)) accs;
  cl_compatible : forall i j a b, (i < j)%nat -> accs !! i = Some a -> accs !! j = Some b -> compatible a b;
}.

Lemma claimed_step root ts accs seen global t seen' global' :
  claimed ts accs seen global -> check_transaction root (seen, global) t = Ok (seen', global') ->
  exists a, claimed (ts ++ [t]) (accs ++ [a]) seen' global'.
Proof.
  intros [H2 H3 H4 H5 H6] E. unfold check_transaction in E. op_inv.
  match goal with E : transactionAccesses t = Ok ?x |- _ => exists x; rename x into acc end.
  match goal with E : rfold claim_access _ _ = _ |- _ => apply claims_Ok in E as [Hk Hl] end. rewrite Forall_forall in Hl.
  match goal with E : bool_decide (tx_ID t ∈ seen) = false |- _ => apply bool_decide_eq_false_1 in E as Hnew end. split.
  - apply Forall2_app; [done|]. by constructor.
  - rewrite fmap_app. apply NoDup_app. split_and!; [done| |apply NoDup_singleton].
    intros id (y & -> & Hy)%list_elem_of_fmap Hin. apply list_elem_of_singleton in Hin. apply Hnew. rewrite <-Hin. auto.
  - intros y [Hy| ->%list_elem_of_singleton]%elem_of_app; apply elem_of_union; [right; auto|left; by apply elem_of_singleton].
  - apply Forall_app. split.
    + eapply Forall_impl; [exact H5|]. intros a Ha id m Hm. destruct (Ha id m Hm) as (g & Hg & Hw). exists g. auto.
    + apply Forall_singleton. intros id m Hm. apply range_map_elem in Hm. by destruct (Hl _ Hm) as [? _].
  - intros i j a b Hij Hi Hj. destruct (decide (j < length accs)%nat) as [Hjl|Hjl].
    + rewrite lookup_app_l in Hi, Hj by lia. by eapply (H6 i j).
    + assert (j = length accs) as -> by (apply lookup_lt_Some in Hj; rewrite length_app in Hj; cbn in Hj; lia).
      rewrite lookup_app_l in Hi by lia. rewrite lookup_app_r, Nat.sub_diag in Hj by lia. injection Hj as <-.
      intros id m n Hm Hn. rewrite Forall_lookup in H5. destruct (H5 i a Hi id m Hm) as (g & Hg & Hw).
      apply range_map_elem in Hn. destruct (Hl _ Hn) as [_ Hp]. destruct (Hp g Hg) as [-> Hr]. cbn in Hr.
      split; [|done]. destruct m; [done|]. by specialize (Hw eq_refl).
Qed.

Lemma independent_claimed ts :
  validateIndependentBatch ts = Ok tt -> exists accs seen global, claimed ts accs seen global.
Proof.
  unfold validateIndependentBatch. destruct ts as [|first ts0] eqn:Et.
  { intros _. exists [], ∅, ∅. split; [constructor|constructor|by intros t ?%not_elem_of_nil|constructor|done]. }
  intros E. apply bind_Ok in E as ([seen global] & E & _). rewrite <-Et in E |- *.
  apply (rfold_inv (fun st done => exists accs, claimed done accs st.1 st.2) _ _ _ _ []) in E; cbn in E; [|exists []|].
  - destruct E as [accs Hc]. eauto.
  - split; [constructor|constructor|by intros t ?%not_elem_of_nil|constructor|done].
  - intros [s1 g1] [s2 g2] done t [accs Hc] _ Hs. destruct (claimed_step _ _ _ _ _ _ _ _ Hc Hs) as [a Ha]. eauto.
Qed.

(** No transaction of an independent batch writes an input of another one. *)
Lemma independent_disjoint e ts rs :
  validateIndependentBatch ts = Ok tt -> Forall2 (fun t r => Execute e t = Ok r) ts rs ->
  NoDup (tx_ID <$> ts) /\
  forall t r t' r', (t, r) ∈ zip ts rs -> (t', r') ∈ zip ts rs -> tx_ID t <> tx_ID t' ->
    Forall (fun i => in_ObjectID i ∉ Consumed r) (t_Inputs t').
Proof.
  intros (accs & seen & global & [H2 H3 _ _ H6])%independent_claimed Hx. split; [done|].
  intros t r t' r' (i & Hi)%list_elem_of_lookup (j & Hj)%list_elem_of_lookup Hne.
  apply lookup_zip_Some in Hi as [Hti Hri], Hj as [Htj Hrj].
  destruct (Forall2_lookup_l _ _ _ _ _ H2 Hti) as (a & Hai & Ea). destruct (Forall2_lookup_l _ _ _ _ _ H2 Htj) as (b & Hbj & Eb).
  assert (compatible a b) as Hc.
  { destruct (lt_eq_lt_dec i j) as [[Hlt|Heq]|Hgt]; [by eapply H6|congruence|].
    intros id m n Hm Hn. destruct (H6 j i b a Hgt Hbj Hai id n m Hn Hm). done. }
  apply Forall_forall. intros k Hk Hin. assert (Execute e t = Ok r) as He by exact (Forall2_lookup_lr _ _ _ _ _ _ Hx Hti Hri).
  pose proof (consumed_written _ _ _ _ He Ea) as Hw. rewrite Forall_forall in Hw.
  destruct (inputs_declared _ _ _ Eb Hk) as [n Hn]. by destruct (Hc _ _ _ (Hw _ Hin) Hn).
Qed.
End independent.
