(* ===== verification/BatchProofs.v ===== *)
(** * BatchProofs

    Batches: the outcome does not depend on the number of workers nor on their
    scheduling, and applying a batch as one delta is serializable. *)

From S2P Require Import Prelude GoLib Codec Crypto Types Merkle Object Assets Sharding Smt SmtProofs SmtTheorems Tx.
From S2P Require Import TxProofs Lending ComputeModel ComputeWire ComputeMarket ComputeProofs Contracts.
From S2P Require Import DeviceCredential Execution ExecutionExtended ExecutionValue ExecutionLoans ExecutionCompute.
From S2P Require Import ExecutionTokens ExecutionProofs ExecutionIds ExecutionTyping Worldstate WorldstateProofs Batch.
From S2P Require Import BatchAccess.

Open Scope Z_scope.

Section workers.
Context `{Crypto} `{MapOrder} `{ScriptHost}.

(** ** Scheduling *)

Lemma run_workers_lookup e ts schedule i :
  run_workers e ts schedule !! i =
    t ← ts !! i; Some (if bool_decide (i ∈ schedule) then Some (Execute e t) else None).
Proof.
  unfold run_workers. induction schedule as [|k l IH] using rev_ind; cbn.
  - destruct (ts !! i) as [t|] eqn:E; cbn.
    + rewrite bool_decide_eq_false_2 by apply not_elem_of_nil. apply lookup_replicate. split; [done|].
      by apply lookup_lt_Some in E.
    + apply lookup_ge_None in E. apply lookup_ge_None. by rewrite length_replicate.
  - rewrite foldl_app. cbn [foldl]. destruct (decide (k = i)) as [->|Hn].
    + rewrite (bool_decide_eq_true_2 (i ∈ l ++ [i])) by (apply elem_of_app; right; left).
      destruct (ts !! i) as [t|] eqn:E; cbn; [|exact IH]. cbn in IH.
      rewrite list_lookup_insert_eq; [done|]. by apply lookup_lt_Some in IH.
    + rewrite (bool_decide_ext (i ∈ l ++ [k]) (i ∈ l)).
      2:{ rewrite elem_of_app, list_elem_of_singleton. split; [intros [?|?]; [done|congruence]|by left]. }
      rewrite <-IH. destruct (ts !! k); [|done]. by rewrite list_lookup_insert_ne.
Qed.

Lemma run_workers_all e ts schedule :
  schedule ≡ₚ seq 0 (length ts) -> run_workers e ts schedule = (fun t => Some (Execute e t)) <$> ts.
Proof.
  intros Hp. apply list_eq. intros i. rewrite run_workers_lookup, list_lookup_fmap.
  destruct (ts !! i) as [t|] eqn:E; [|done]. cbn. rewrite bool_decide_eq_true_2; [done|]. rewrite Hp.
  apply elem_of_seq. apply lookup_lt_Some in E. lia.
Qed.

Lemma collect_all e ts acc :
  rfold collect_slot acc ((fun t => Some (Execute e t)) <$> ts) =
  rfold (fun results t => result ← Execute e t; Ok (results ++ [result])) acc ts.
Proof.
  revert acc. induction ts as [|t ts IH]; intros acc; [done|]. cbn [fmap list_fmap rfold collect_slot].
  destruct (Execute e t); cbn [mbind res_bind]; [apply IH|done].
Qed.

Lemma execute_all_Forall2 e ts rs : execute_all e ts = Ok rs -> Forall2 (fun t r => Execute e t = Ok r) ts rs.
Proof.
  intros E. unfold execute_all in E.
  assert (forall acc, rfold (fun results t => result ← Execute e t; Ok (results ++ [result])) acc ts = Ok rs ->
    exists l, rs = acc ++ l /\ Forall2 (fun t r => Execute e t = Ok r) ts l) as Hg.
  { clear E. induction ts as [|t ts IH]; intros acc E; cbn [rfold] in E.
    - apply Ok_inj in E as <-. exists []. split; [by rewrite app_nil_r|constructor].
    - apply bind_Ok in E as (a & E1 & E). apply bind_Ok in E1 as (r & Er & E1). apply Ok_inj in E1 as <-.
      destruct (IH _ E) as (l & -> & Hl). exists (r :: l). split; [by rewrite <-app_assoc|by constructor]. }
  destruct (Hg [] E) as (l & -> & Hl). done.
Qed.

Lemma ExecuteBatch_eq (b : BatchExecutor) (gomaxprocs : Z) (schedule : list nat) (ts : list Transaction) :
  schedule ≡ₚ seq 0 (length ts) ->
  ExecuteBatch b gomaxprocs schedule ts = (validateIndependentBatch ts;; execute_all (bx_Engine b) ts).
Proof.
  intros Hp. unfold ExecuteBatch. destruct ts as [|t ts]; [done|].
  destruct (validateIndependentBatch (t :: ts)); [|done]. cbn [mbind res_bind].
  destruct (_ =? 1); [done|]. rewrite run_workers_all by done. apply collect_all.
Qed.

(** a batch has one outcome.  Whatever the number of workers, the number
    of processors and the order in which the workers finish, [ExecuteBatch]
    returns what executing the transactions one after the other returns: the
    same results in the order of the transactions, or the error of the first
    transaction that fails. *)
Theorem batch_schedule_independent (b : BatchExecutor) (gomaxprocs : Z) (schedule : list nat) (ts : list Transaction) :
  schedule ≡ₚ seq 0 (length ts) ->
  ExecuteBatch b gomaxprocs schedule ts = (validateIndependentBatch ts;; execute_all (bx_Engine b) ts).
Proof. apply ExecuteBatch_eq. Qed.
End workers.

(** ** Serializability *)

Lemma concat_perm {A} (l1 l2 : list (list A)) : l1 ≡ₚ l2 -> concat l1 ≡ₚ concat l2.
Proof.
  induction 1 as [|x l1 l2 _ IH|x y l|l1 l2 l3 _ IH1 _ IH2]; cbn; [done|by rewrite IH| |by rewrite IH1].
  by rewrite !app_assoc, (Permutation_app_comm y x).
Qed.

Lemma elem_of_concat {A} (x : A) (ls : list (list A)) : x ∈ concat ls <-> exists l, x ∈ l /\ l ∈ ls.
Proof. rewrite !list_elem_of_In, in_concat. setoid_rewrite list_elem_of_In. naive_solver. Qed.

Lemma delta_objects_Some objects consumed created id o :
  NoDup (ID <$> created) ->
  delta_objects objects consumed created !! id = Some o <->
  (o ∈ created /\ ID o = id) \/ ((id ∉ ID <$> created) /\ (id ∉ consumed) /\ objects !! id = Some o).
Proof.
  intros Hnd. rewrite delta_objects_lookup by done. destruct (list_find _ created) as [[k x]|] eqn:E.
  - apply list_find_Some in E as (Hk & Hid & _). apply list_elem_of_lookup_2 in Hk. split.
    + intros [= ->]. by left.
    + intros [[Ho Eo]|[Hn _]]; [|by destruct Hn; rewrite <-Hid; apply list_elem_of_fmap_2].
      f_equal. eapply (NoDup_fmap_inj ID created); [done..|]. congruence.
  - apply list_find_None in E. rewrite Forall_forall in E.
    assert (id ∉ ID <$> created) as Hn by (intros (x & -> & Hx)%list_elem_of_fmap; by apply (E x)).
    case_bool_decide; split; try done;
      [intros [[Ho Eo]|(_ & ? & _)]; [destruct (E o Ho Eo)|done]|intros ?; by right|intros [[Ho Eo]|(_ & _ & ?)]; [destruct (E o Ho Eo)|done]].
Qed.

Lemma delta_objects_perm objects c1 c2 n1 n2 :
  NoDup (ID <$> n1) -> c1 ≡ₚ c2 -> n1 ≡ₚ n2 -> delta_objects objects c1 n1 = delta_objects objects c2 n2.
Proof.
  intros Hnd Hc Hn. apply map_eq. intros id. apply option_eq. intros o.
  rewrite !delta_objects_Some by (by rewrite <-?Hn). by rewrite Hc, Hn.
Qed.

Lemma delta_ok_perm objects c1 c2 n1 n2 : c1 ≡ₚ c2 -> n1 ≡ₚ n2 -> delta_ok objects c1 n1 -> delta_ok objects c2 n2.
Proof.
  intros Hc Hn [H1 H2 H3 H4 H5]. split; [by rewrite <-Hc|by rewrite <-Hc|by rewrite <-Hn|by rewrite <-Hn|].
  rewrite <-Hn. eapply Forall_impl; [exact H5|]. intros o Ho Hs. rewrite <-Hc. auto.
Qed.

(** Two deltas at once, or one after the other. *)
Lemma delta_ok_split now c1 c2 n1 n2 :
  delta_ok now (c1 ++ c2) (n1 ++ n2) ->
  Forall (fun o => ID o ∈ c1 \/ now !! ID o = None) n1 -> Forall (fun o => ID o ∈ c2 \/ now !! ID o = None) n2 ->
  delta_ok now c1 n1 /\ delta_ok (delta_objects now c1 n1) c2 n2 /\
  delta_objects now (c1 ++ c2) (n1 ++ n2) = delta_objects (delta_objects now c1 n1) c2 n2.
Proof.
  intros [H1 H2 H3 H4 H5] Hn1 Hn2. rewrite fmap_app in H4. pose proof H4 as (Hd1 & Hdis & Hd2)%NoDup_app.
  pose proof H1 as (Hc1 & Hcd & Hc2)%NoDup_app. destruct (proj1 (Forall_app _ _ _) H2) as [Hp1 Hp2]. destruct (proj1 (Forall_app _ _ _) H3) as [Hv1 Hv2].
  rewrite Forall_forall in Hn1, Hn2. rewrite Forall_forall in Hp1, Hp2.
  assert (delta_ok now c1 n1) as Hfirst.
  { split; rewrite ?Forall_forall; [done|done|by apply Forall_forall|done|]. intros o Ho [x Hx].
    destruct (Hn1 o Ho) as [?|Hnone]; [done|congruence]. }
  assert (forall id, id ∈ ID <$> n1 -> id ∉ c2) as Hout.
  { intros id (o & -> & Ho)%list_elem_of_fmap Hin. destruct (Hn1 o Ho) as [Hc|Hnone]; [by apply (Hcd (ID o))|].
    destruct (Hp2 _ Hin) as [x Hx]. congruence. }
  split; [done|]. split.
  - split; [done| |done|done|]; rewrite Forall_forall.
    + intros id Hin. destruct (Hp2 id Hin) as [x Hx]. exists x. apply delta_objects_Some; [done|]. right.
      split_and!; [intros Hc; by apply (Hout id)|intros Hc; by apply (Hcd id)|done].
    + intros o Ho [x [[Hx Ex]|(_ & _ & Hx)]%(delta_objects_Some _ _ _ _ _ Hd1)].
      * exfalso. apply (Hdis (ID o)); [rewrite <-Ex|]; by apply list_elem_of_fmap_2.
      * destruct (Hn2 o Ho) as [?|Hnone]; [done|congruence].
  - apply map_eq. intros id. apply option_eq. intros o.
    rewrite !delta_objects_Some by (by rewrite ?fmap_app). rewrite fmap_app, !elem_of_app. split.
    + intros [[[Ho|Ho] <-]|(Hn & Hc & Ho)].
      * right. split_and!; [intros Hin; apply (Hdis (ID o)); [by apply list_elem_of_fmap_2|done]|by apply Hout, list_elem_of_fmap_2|by left].
      * by left.
      * right. split_and!; [tauto|tauto|]. right. tauto.
    + intros [[Ho <-]|(Hn & Hc & [[Ho <-]|(Hn' & Hc' & Ho)])]; [left; tauto|left; tauto|right; tauto].
Qed.

Section serializability.
Context `{Crypto}.

(** Running the transactions one after the other on the object map: when its
    turn comes, every stored object a transaction refers to is the one of the
    initial state, its delta passes the checks of the store, and the next
    transaction runs on the updated map. *)
Inductive serial (before : gmap bytes Object) : gmap bytes Object -> list (Transaction * Result) -> gmap bytes Object -> Prop :=
  | serial_nil now : serial before now [] now
  | serial_cons now t r l final :
      Forall (fun i => forall o, before !! in_ObjectID i = Some o -> now !! in_ObjectID i = Some o) (t_Inputs t) ->
      check_delta now (Consumed r) (Created r) = Ok tt ->
      serial before (delta_objects now (Consumed r) (Created r)) l final ->
      serial before now ((t, r) :: l) final.

Definition all_consumed (l : list (Transaction * Result)) : list bytes := concat ((fun p => Consumed p.2) <$> l).
Definition all_created (l : list (Transaction * Result)) : list Object := concat ((fun p => Created p.2) <$> l).

(** Every created object replaces one its own transaction consumes, or is new. *)
Definition owned_or_new (now : gmap bytes Object) (r : Result) : Prop :=
  Forall (fun o => ID o ∈ Consumed r \/ now !! ID o = None) (Created r).

Definition undisturbed (l : list (Transaction * Result)) : Prop :=
  forall p q, p ∈ l -> q ∈ l -> tx_ID p.1 <> tx_ID q.1 -> Forall (fun i => in_ObjectID i ∉ Consumed p.2) (t_Inputs q.1).

Lemma serial_run before l now :
  NoDup (tx_ID <$> l.*1) -> undisturbed l -> delta_ok now (all_consumed l) (all_created l) ->
  Forall (fun p => owned_or_new now p.2) l ->
  Forall (fun p => Forall (fun i => forall o, before !! in_ObjectID i = Some o -> now !! in_ObjectID i = Some o) (t_Inputs p.1)) l ->
  serial before now l (delta_objects now (all_consumed l) (all_created l)).
Proof.
  revert now. induction l as [|[t r] l IH]; intros now Hnd Hun Hd Hown Hin; [constructor|].
  cbn in Hnd. apply NoDup_cons in Hnd as [Hfresh Hnd].
  apply Forall_cons_1 in Hown as [Hr Hown], Hin as [Ht Hin]. cbn [fst snd] in Hr, Ht.
  change (all_consumed ((t, r) :: l)) with (Consumed r ++ all_consumed l) in *.
  change (all_created ((t, r) :: l)) with (Created r ++ all_created l) in *.
  assert (Forall (fun o => ID o ∈ all_consumed l \/ now !! ID o = None) (all_created l)) as Hrest.
  { apply Forall_forall. intros o (created & Ho & (p & -> & Hp)%list_elem_of_fmap)%elem_of_concat.
    rewrite Forall_forall in Hown. specialize (Hown p Hp). unfold owned_or_new in Hown. rewrite Forall_forall in Hown.
    destruct (Hown o Ho) as [Hc|Hc]; [left|by right]. apply elem_of_concat. exists (Consumed p.2). split; [done|].
    by apply (list_elem_of_fmap_2 (fun p : Transaction * Result => Consumed p.2)). }
  pose proof (dl_fresh _ _ _ Hd) as Hids. rewrite fmap_app in Hids. apply NoDup_app in Hids as (Hid1 & Hdis & _).
  destruct (delta_ok_split _ _ _ _ _ Hd Hr Hrest) as (Hd1 & Hd2 & ->).
  constructor; [done|by apply check_delta_Ok|]. apply IH; [done| |done| |].
  - intros p q Hp Hq. apply Hun; by right.
  - rewrite Forall_forall in Hown |- *. intros p Hp. specialize (Hown p Hp). unfold owned_or_new in *. rewrite Forall_forall in Hown |- *.
    intros o Ho. destruct (Hown o Ho) as [Hc|Hc]; [by left|right]. apply eq_None_not_Some.
    intros [x [[Hx Ex]|(_ & _ & Hx)]%delta_objects_Some]; [|congruence|done]. apply (Hdis (ID o)).
    + rewrite <-Ex. by apply list_elem_of_fmap_2.
    + apply list_elem_of_fmap_2, elem_of_concat. exists (Created p.2). split; [done|].
      by apply (list_elem_of_fmap_2 (fun p : Transaction * Result => Created p.2)).
  - rewrite Forall_forall in Hin |- *. intros p Hp. specialize (Hin p Hp). rewrite Forall_forall in Hin |- *. intros i Hi o Ho.
    specialize (Hin i Hi o Ho). assert (in_ObjectID i ∉ Consumed r) as Hni.
    { assert (tx_ID t <> tx_ID p.1) as Hne.
      { intros Heq. apply Hfresh. rewrite Heq. by apply list_elem_of_fmap_2, list_elem_of_fmap_2. }
      pose proof (Hun (t, r) p ltac:(left) ltac:(by right) Hne) as Hu. rewrite Forall_forall in Hu. by apply Hu. }
    apply delta_objects_Some; [done|]. right. split_and!; [|done|done]. intros (x & Ex & Hx)%list_elem_of_fmap.
    unfold owned_or_new in Hr. rewrite Forall_forall in Hr. destruct (Hr x Hx) as [Hc|Hc]; congruence.
Qed.

Lemma undisturbed_perm l1 l2 : l1 ≡ₚ l2 -> undisturbed l1 -> undisturbed l2.
Proof. intros Hp Hu p q Hp' Hq. rewrite <-Hp in Hp', Hq. by apply Hu. Qed.

Lemma serial_any_order before l order :
  NoDup (tx_ID <$> l.*1) -> undisturbed l -> delta_ok before (all_consumed l) (all_created l) ->
  Forall (fun p => owned_or_new before p.2) l -> order ≡ₚ l ->
  serial before before order (delta_objects before (all_consumed l) (all_created l)).
Proof.
  intros Hnd Hun Hd Hown Hp. symmetry in Hp.
  assert (all_consumed l ≡ₚ all_consumed order) as Hc by (apply concat_perm; by rewrite Hp).
  assert (all_created l ≡ₚ all_created order) as Hn by (apply concat_perm; by rewrite Hp).
  rewrite (delta_objects_perm _ _ _ _ _ (dl_fresh _ _ _ Hd) Hc Hn). apply serial_run.
  - by rewrite <-Hp.
  - by eapply undisturbed_perm.
  - by eapply delta_ok_perm.
  - by rewrite <-Hp.
  - apply Forall_forall. intros p _. apply Forall_forall. auto.
Qed.

Context `{MapOrder} `{ScriptHost} {St : Type} `{HB : Backend St} `{!BackendSpec St}.

(** The results of a batch, against the store it is applied to. *)
Lemma batch_results e s ts rs :
  validateIndependentBatch ts = Ok tt -> Forall2 (fun t r => Execute e t = Ok r) ts rs ->
  (forall t i, t ∈ ts -> bs_objects s !! ObjectIDForShard (tx_ID t) i (t_ShardID t) = None) ->
  NoDup (tx_ID <$> (zip ts rs).*1) /\ undisturbed (zip ts rs) /\ Forall (fun p => owned_or_new (bs_objects s) p.2) (zip ts rs).
Proof.
  intros Hv Hx Hfresh. destruct (independent_disjoint e ts rs Hv Hx) as [Hnd Hdis].
  rewrite fst_zip by (by apply Forall2_length in Hx; lia). split_and!; [done| |].
  - intros [t r] [t' r'] Hp Hq Hne. by eapply Hdis.
  - apply Forall_forall. intros [t r] Hp. cbn. apply list_elem_of_lookup in Hp as [i Hi]. apply lookup_zip_Some in Hi as [Ht Hr].
    pose proof (Forall2_lookup_lr _ _ _ _ _ _ Hx Ht Hr) as E. cbn in E. apply Execute_ids, identified_ids in E.
    eapply Forall_impl; [exact E|]. intros o [Ho|[k Hk]]; [by left|right]. rewrite Hk. apply Hfresh. by eapply list_elem_of_lookup_2.
Qed.

(** C13: applying a batch is serializable.  Whenever [ApplyBatch] succeeds on a
    store, every result is what executing its transaction alone returns, and
    for every order of the transactions, running them one at a time from the
    objects of the store succeeds at each step, with every stored object a
    transaction refers to still unchanged when its turn comes, and ends with
    exactly the objects the batch leaves.  The hypothesis on the store is that
    no identifier of an object the transactions create anew is already taken. *)
Theorem batch_serializable (b : BatchExecutor) (gomaxprocs : Z) (schedule : list nat) (s s' : St) (ts : list Transaction)
    (root : bytes) (results : list Result) :
  schedule ≡ₚ seq 0 (length ts) -> bs_inv s ->
  Forall (fun t => Transaction_ok t /\ IsZero32 (t_Sender t) = false) ts ->
  (forall t i, t ∈ ts -> bs_objects s !! ObjectIDForShard (tx_ID t) i (t_ShardID t) = None) ->
  ApplyBatch b gomaxprocs schedule s ts = Ok (s', root, results) ->
  bs_inv s' /\ root = backend_Root s' /\ Forall2 (fun t r => Execute (bx_Engine b) t = Ok r) ts results /\
  forall order, order ≡ₚ zip ts results -> serial (bs_objects s) (bs_objects s) order (bs_objects s').
Proof.
  intros Hsch Hs Hok Hfresh E. unfold ApplyBatch in E. destruct ts as [|first rest] eqn:Ets.
  { apply Ok_inj in E as [= <- <- <-]. split_and!; [done|done|constructor|]. intros order ->%Permutation_nil_r. constructor. }
  rewrite <-Ets in *. clear Ets. apply bind_Ok in E as (? & _ & E). apply bind_Ok in E as (rs & Eb & E).
  apply bind_Ok in E as ([s1 r1] & Ea & E). apply Ok_inj in E as [= <- <- <-].
  rewrite ExecuteBatch_eq in Eb by done. apply bind_Ok in Eb as ([] & Hv & Hx%execute_all_Forall2).
  destruct (batch_results _ s _ _ Hv Hx Hfresh) as (Hnd & Hun & Hown).
  assert (concat (Consumed <$> rs) = all_consumed (zip ts rs) /\ concat (Created <$> rs) = all_created (zip ts rs)) as [Ec En].
  { unfold all_consumed, all_created. pose proof (Forall2_length _ _ _ Hx) as Hlen.
    rewrite <-(snd_zip ts rs) at 1 3 by lia. by rewrite <-!list_fmap_compose. }
  rewrite Ec, En in Ea. assert (Forall Object_typed (all_created (zip ts rs))) as Htyped.
  { apply Forall_forall. intros o (l & Ho & ([t r] & -> & Hp)%list_elem_of_fmap)%elem_of_concat. cbn in Ho.
    apply list_elem_of_lookup in Hp as [i [Ht Hr]%lookup_zip_Some].
    pose proof (Forall2_lookup_lr _ _ _ _ _ _ Hx Ht Hr) as Et. rewrite Forall_lookup in Hok. destruct (Hok i t Ht) as [H3 H4].
    destruct (Execute_typed _ _ _ H3 H4 Et) as [Hm _]. rewrite Forall_forall in Hm. by destruct (Hm o Ho) as (? & ? & ? & ? & _). }
  destruct (bs_apply _ _ _ _ _ Hs Htyped Ea) as (Hd & Hinv & -> & ->). split_and!; [done|done|done|].
  intros order Hp. by apply serial_any_order.
Qed.
End serializability.

(** ** Two independent transfers of one account *)

Module BatchExample.
#[local] Existing Instance small_crypto.
#[local] Existing Instance some_order.
#[local] Existing Instance Example.host.

Definition coin (n : Z) : Object :=
  mkObject (be 32 n) 1 Example.sender KindCoin (Coin_MarshalBinary (mkCoin Example.token 10 0)).
Definition store : Memory := (ok_or (NewMemory, []) (Memory_Apply NewMemory [] [coin 77; coin 78])).1.
Definition transfer (n : Z) : Transaction :=
  mkTransaction 2 (be 32 3) 0 Example.sender sample_pk (Memory_Root store)
    [mkInputRef (be 32 n) 1 (Object_Hash (coin n))] [Example.payment] [mkOperation OpTransfer []] 3 0 (be 16 n)
    (be 32 1 ++ be 32 1) [mkWitness (coin n) (Memory_Proof store (be 32 n)).2].
Definition batch : list Transaction := [transfer 77; transfer 78].
Definition executor : BatchExecutor := mkBatchExecutor Example.engine 2.

Lemma stored_typed : Forall Object_typed [coin 77; coin 78].
Proof. repeat (apply Forall_cons; split); try apply Forall_nil_2; repeat split; vm_compute; (reflexivity || discriminate). Qed.
Lemma batch_stored : is_ok (Memory_Apply NewMemory [] [coin 77; coin 78]) = true.
Proof. vm_compute. reflexivity. Qed.
Lemma store_inv : bs_inv store.
Proof.
  destruct (is_ok_true _ batch_stored) as [[m root] E]. unfold store. rewrite E.
  exact (mem_reachable_inv _ (mr_apply _ _ _ _ _ mr_new stored_typed E)).
Qed.
Lemma stored_id id o : m_objects store !! id = Some o -> id = be 32 77 \/ id = be 32 78.
Proof.
  destruct (is_ok_true _ batch_stored) as [[m root] E]. unfold store. rewrite E. cbn [fst ok_or].
  apply Memory_Apply_inv in E as (Hd & _ & -> & _); [|exact NewMemory_inv|exact stored_typed].
  rewrite delta_objects_Some by apply Hd. intros [[Ho <-]|(_ & _ & Ho)]; [|change ((∅ : gmap bytes Object) !! id = Some o) in Ho; by rewrite lookup_empty in Ho].
  apply elem_of_cons in Ho as [-> | ->%list_elem_of_singleton]; auto.
Qed.
Lemma root_typed : arr32 (Memory_Root store).
Proof. vm_compute. reflexivity. Qed.

Lemma transfer_ok n : n = 77 \/ n = 78 -> Transaction_ok (transfer n).
Proof.
  intros Hn. split_and!.
  - unfold Intent_typed. cbn [t_StateRoot transfer].
    split; [done|]. split; [vm_compute; reflexivity|]. split; [done|]. split; [vm_compute; reflexivity|]. split; [exact root_typed|].
    do 2 (split; [apply Forall_singleton; destruct Hn as [-> | ->]; vm_compute; repeat split; discriminate|]).
    split; [apply Forall_singleton; by vm_compute|]. split; [done|]. split; [done|]. destruct Hn as [-> | ->]; vm_compute; reflexivity.
  - apply Forall_singleton. split; [split|].
    + destruct Hn as [-> | ->]; repeat split; vm_compute; (reflexivity || discriminate).
    + destruct Hn as [-> | ->]; vm_compute; reflexivity.
    + apply (smt_ParseProof_Ok (Smt.MarshalBinary (Memory_Proof store (be 32 n)).2)). destruct Hn as [-> | ->]; vm_compute; reflexivity.
  - destruct Hn as [-> | ->]; vm_compute; discriminate.
  - destruct Hn as [-> | ->]; vm_compute; reflexivity.
Qed.

(** The checksum repeats one byte: no derived identifier is 77 or 78. *)
Lemma derived txID i s : exists b, ObjectIDForShard txID i s !! 30%nat = Some b /\ ObjectIDForShard txID i s !! 31%nat = Some b.
Proof. eexists. split; reflexivity. Qed.
Lemma batch_fresh t i : t ∈ batch -> bs_objects store !! ObjectIDForShard (tx_ID t) i (t_ShardID t) = None.
Proof.
  intros _. apply eq_None_not_Some. intros [o Ho]. destruct (derived (tx_ID t) i (t_ShardID t)) as (b & H30 & H31).
  destruct (stored_id _ _ Ho) as [Eid|Eid]; rewrite Eid in H30, H31; vm_compute in H30, H31; congruence.
Qed.
Definition outcome : res (Memory * bytes * list Result) := ApplyBatch executor 4 [1%nat; 0%nat] store batch.
Lemma batch_applied : is_ok outcome = true.
Proof. vm_compute. reflexivity. Qed.
End BatchExample.

Lemma batch_schedule_independent_witness :
  ExecuteBatch (H := small_crypto) (H0 := some_order) (H1 := Example.host) BatchExample.executor 4 [1%nat; 0%nat] BatchExample.batch =
  (validateIndependentBatch (H := small_crypto) (H0 := some_order) BatchExample.batch;;
   execute_all (H := small_crypto) (H0 := some_order) (H1 := Example.host) Example.engine BatchExample.batch).
Proof. apply (batch_schedule_independent BatchExample.executor 4 [1%nat; 0%nat]). apply (Permutation_swap 0%nat 1%nat []). Defined.

Lemma batch_serializable_witness :
  exists s' root rs,
    BatchExample.outcome = Ok (s', root, rs) /\
    serial (m_objects BatchExample.store) (m_objects BatchExample.store) (reverse (zip BatchExample.batch rs)) (m_objects s').
Proof.
  destruct (is_ok_true _ BatchExample.batch_applied) as [[[s' root] rs] E]. exists s', root, rs. split; [exact E|].
  assert ([1%nat; 0%nat] ≡ₚ seq 0 (length BatchExample.batch)) as Hp by apply (Permutation_swap 0%nat 1%nat []).
  assert (Forall (fun t => Transaction_ok (H := small_crypto) t /\ IsZero32 (t_Sender t) = false) BatchExample.batch) as Hok.
  { repeat (apply Forall_cons; split); [| |apply Forall_nil_2]; (split; [apply BatchExample.transfer_ok; auto|vm_compute; reflexivity]). }
  unfold BatchExample.outcome in E. pose proof (batch_serializable (H := small_crypto) (H0 := some_order) (H1 := Example.host) (St := Memory) BatchExample.executor 4 [1%nat; 0%nat] BatchExample.store s'
    BatchExample.batch root rs Hp BatchExample.store_inv Hok BatchExample.batch_fresh E) as Hs.
  exact (proj2 (proj2 (proj2 Hs)) _ (reverse_Permutation _)).
Defined.
