(* ===== verification/ComputeWork.v ===== *)
(** * ComputeWork

    Package [internal/v2/compute], work accounting: the registry of normalised
    workloads ([work.go]) and the observation of settled jobs, from the
    settlement ([work.go]), from the settled record alone
    ([settled_work.go]) and from the receipt of a finalised settlement
    ([settlement_receipt.go]). *)

From S2P Require Import Prelude GoLib Codec Crypto Types Object ComputeModel ComputeMarket.

Open Scope Z_scope.

(** ** Normalised compute work *)

Definition WorkSpecVersion : Z := 1.
Definition WorkUnknown : Z := 0.
Definition WorkClassCount : Z := 12.

Record WorkVector := mkWorkVector {
  wv_CPUUnits : Z; wv_GPUFP32Units : Z; wv_GPUFP64Units : Z; wv_TensorUnits : Z;
  wv_MemoryByteSeconds : Z; wv_VRAMByteSeconds : Z; wv_StorageBytes : Z; wv_NetworkBytes : Z;
}.

Definition WorkVector_IsZero (v : WorkVector) : bool :=
  (wv_CPUUnits v =? 0) && (wv_GPUFP32Units v =? 0) && (wv_GPUFP64Units v =? 0) && (wv_TensorUnits v =? 0)
  && (wv_MemoryByteSeconds v =? 0) && (wv_VRAMByteSeconds v =? 0) && (wv_StorageBytes v =? 0)
  && (wv_NetworkBytes v =? 0).

Record WorkSpec := mkWorkSpec {
  ws_Version : Z;
  ws_Class : Z;
  ws_Units : Z;
  ws_WorkloadHash : bytes;
  ws_BenchmarkHash : bytes;
  ws_Vector : WorkVector;
}.

Record VerifiedWork := mkVerifiedWork {
  vw_JobID : bytes;
  vw_Class : Z;
  vw_Units : Z;
  vw_Vector : WorkVector;
  vw_PaidZPH : Z;
  vw_Verification : Z;
  vw_ResultRoot : bytes;
}.

#[global] Instance WorkVector_eq_dec : EqDecision WorkVector.
Proof. solve_decision. Defined.
#[global] Instance WorkSpec_eq_dec : EqDecision WorkSpec.
Proof. solve_decision. Defined.
#[global] Instance VerifiedWork_eq_dec : EqDecision VerifiedWork.
Proof. solve_decision. Defined.

Definition WorkSpec_Validate (s : WorkSpec) : res unit :=
  fail_if (negb (ws_Version s =? WorkSpecVersion) || (ws_Class s <=? WorkUnknown) || (WorkClassCount <=? ws_Class s)
           || (ws_Units s =? 0) || IsZero32 (ws_WorkloadHash s) || IsZero32 (ws_BenchmarkHash s)
           || WorkVector_IsZero (ws_Vector s)) ErrInvalidWorkSpec.

Definition WorkSpec_MarshalBinary (s : WorkSpec) : res bytes :=
  WorkSpec_Validate s;;
  let v := ws_Vector s in
  Ok (Writer.BytesCopy (Writer.new |> Writer.U16 (ws_Version s) |> Writer.U8 (ws_Class s) |> Writer.U64 (ws_Units s)
    |> Writer.Fixed (ws_WorkloadHash s) |> Writer.Fixed (ws_BenchmarkHash s)
    |> Writer.U64 (wv_CPUUnits v) |> Writer.U64 (wv_GPUFP32Units v) |> Writer.U64 (wv_GPUFP64Units v)
    |> Writer.U64 (wv_TensorUnits v) |> Writer.U64 (wv_MemoryByteSeconds v) |> Writer.U64 (wv_VRAMByteSeconds v)
    |> Writer.U64 (wv_StorageBytes v) |> Writer.U64 (wv_NetworkBytes v))).

Definition ParseWorkSpec (data : bytes) : res WorkSpec :=
  parse (version ← Rd.U16 <!> ErrInvalidWorkSpec;
         class ← Rd.U8 <!> ErrInvalidWorkSpec;
         units ← Rd.U64 <!> ErrInvalidWorkSpec;
         workload ← Rd.Fixed 32 <!> ErrInvalidWorkSpec;
         benchmark ← Rd.Fixed 32 <!> ErrInvalidWorkSpec;
         v0 ← Rd.U64 <!> ErrInvalidWorkSpec;
         v1 ← Rd.U64 <!> ErrInvalidWorkSpec;
         v2 ← Rd.U64 <!> ErrInvalidWorkSpec;
         v3 ← Rd.U64 <!> ErrInvalidWorkSpec;
         v4 ← Rd.U64 <!> ErrInvalidWorkSpec;
         v5 ← Rd.U64 <!> ErrInvalidWorkSpec;
         v6 ← Rd.U64 <!> ErrInvalidWorkSpec;
         v7 ← Rd.U64 <!> ErrInvalidWorkSpec;
         Rd.Done <!> ErrInvalidWorkSpec;;
         let out := mkWorkSpec version class units workload benchmark (mkWorkVector v0 v1 v2 v3 v4 v5 v6 v7) in
         plift (WorkSpec_Validate out);;
         mret out) data.

(** [type WorkRegistry struct]: the specifications by workload. *)
Definition WorkRegistry : Type := gmap bytes WorkSpec.

(** The encodings of the two specifications are compared; a failed encoding is
    the empty slice. *)
Definition Register (r : WorkRegistry) (spec : WorkSpec) : res WorkRegistry :=
  WorkSpec_Validate spec <?> ErrInvalidWorkRegistry;;
  match r !! ws_WorkloadHash spec with
  | Some existing =>
      let a := ok_or [] (WorkSpec_MarshalBinary existing) in
      let b := ok_or [] (WorkSpec_MarshalBinary spec) in
      fail_if (negb (bool_decide (a = b))) ErrInvalidWorkRegistry;;
      Ok r
  | None => Ok (<[ws_WorkloadHash spec := spec]> r)
  end.

Definition NewWorkRegistry (specs : list WorkSpec) : res WorkRegistry := rfold Register ∅ specs.

Definition Resolve (r : WorkRegistry) (workload : bytes) : option WorkSpec := r !! workload.

Definition CanonicalSpecs (r : WorkRegistry) : res (list WorkSpec) :=
  let out := snd <$> map_to_list r in
  rfold (fun _ spec => WorkSpec_Validate spec <?> ErrInvalidWorkRegistry) tt out;;
  Ok (sort_by ws_WorkloadHash out).

Definition WorkRegistry_Clone (r : WorkRegistry) : res WorkRegistry :=
  specs ← CanonicalSpecs r;
  NewWorkRegistry specs.

Section registry_hash.
Context `{Crypto}.

Definition WorkRegistry_Hash (r : WorkRegistry) : res bytes :=
  specs ← CanonicalSpecs r;
  w ← rfold (fun w spec => raw ← WorkSpec_MarshalBinary spec <?> ErrInvalidWorkRegistry; Ok (w |> Writer.Bytes raw))
        (Writer.new |> Writer.U32 (blen specs mod 2 ^ 32)) specs;
  Ok (DomainHash (str "zephyr/work-registry/v2") (Writer.BytesCopy w)).
End registry_hash.

(** ** Observing a settled job *)

Section observe.
Context `{MapOrder}.

(** The sum of the payments, in the order of the map. *)
Definition ObserveVerifiedWork (record : OnChainJob) (settlement : OnChainSettlement) (registry : WorkRegistry)
    : res VerifiedWork :=
  let st := os_Settlement settlement in
  fail_if (negb (oj_Status record =? JobSettled) || negb (bool_decide (st_JobID st = oj_ID record))
           || IsZero32 (st_ResultRoot st)) ErrInvalidWorkSettlement;;
  spec ← some_or (Resolve registry (jb_WorkloadHash (oj_Job record))) ErrInvalidWorkSettlement;
  WorkSpec_Validate spec <?> ErrInvalidWorkSettlement;;
  paid ← rfold (fun paid entry => fail_if (overflows paid entry.2) ErrInvalidWorkSettlement;; Ok (add64 paid entry.2))
           0 (range_map (st_Payments st));
  fail_if (paid =? 0) ErrInvalidWorkSettlement;;
  Ok (mkVerifiedWork (oj_ID record) (ws_Class spec) (ws_Units spec) (ws_Vector spec) paid
        (jb_Verification (oj_Job record)) (st_ResultRoot st)).

(** The first loop: results by provider and the count of every root. *)
Definition index_result (id : bytes) (st : gmap bytes bytes * gmap bytes Z) (result : ComputeResult)
    : res (gmap bytes bytes * gmap bytes Z) :=
  let '(resultByProvider, rootCounts) := st in
  Result_Validate result <?> ErrInvalidWorkSettlement;;
  fail_if (negb (bool_decide (rt_JobID result = id))) ErrInvalidWorkSettlement;;
  fail_if (bool_decide (is_Some (resultByProvider !! rt_Provider result))) ErrInvalidWorkSettlement;;
  Ok (<[rt_Provider result := rt_ResultRoot result]> resultByProvider,
      <[rt_ResultRoot result := mget rootCounts (rt_ResultRoot result) + 1]> rootCounts).

(** The loop over the assignments: what the accepted providers were paid. *)
Definition observe_assignment (verification : Z) (resultByProvider : gmap bytes bytes) (acceptedRoot : bytes)
    (st : gset bytes * Z) (a : Assignment) : res (gset bytes * Z) :=
  let '(seen, paid) := st in
  fail_if (bool_decide (as_Provider a ∈ seen) || (as_Price a =? 0)) ErrInvalidWorkSettlement;;
  let seen := {[as_Provider a]} ∪ seen in
  root ← some_or (resultByProvider !! as_Provider a) ErrInvalidWorkSettlement;
  if (verification =? VerificationReplicated) && negb (bool_decide (root = acceptedRoot)) then Ok (seen, paid)
  else
    fail_if (overflows paid (as_Price a)) ErrInvalidWorkSettlement;;
    Ok (seen, add64 paid (as_Price a)).

Definition ObserveSettledRecord (record : OnChainJob) (registry : WorkRegistry) : res VerifiedWork :=
  fail_if (negb (oj_Status record =? JobSettled) || (blen (oj_Assignments record) =? 0)
           || (blen (oj_Results record) =? 0)) ErrInvalidWorkSettlement;;
  spec ← some_or (Resolve registry (jb_WorkloadHash (oj_Job record))) ErrInvalidWorkSettlement;
  WorkSpec_Validate spec <?> ErrInvalidWorkSettlement;;
  '(resultByProvider, rootCounts) ← rfold (index_result (oj_ID record)) (∅, ∅) (oj_Results record);
  let '(acceptedRoot, acceptedCount) := most_frequent (range_map rootCounts) in
  fail_if (IsZero32 acceptedRoot) ErrInvalidWorkSettlement;;
  fail_if (if jb_Verification (oj_Job record) =? VerificationReplicated
           then acceptedCount * 2 <=? blen (oj_Results record)
           else negb (acceptedCount =? blen (oj_Results record))) ErrInvalidWorkSettlement;;
  '(_, paid) ← rfold (observe_assignment (jb_Verification (oj_Job record)) resultByProvider acceptedRoot) (∅, 0)
                 (oj_Assignments record);
  fail_if ((paid =? 0) || (oj_Escrow record <? paid)) ErrInvalidWorkSettlement;;
  Ok (mkVerifiedWork (oj_ID record) (ws_Class spec) (ws_Units spec) (ws_Vector spec) paid
        (jb_Verification (oj_Job record)) acceptedRoot).

(** ** Settlement receipts *)

Definition read_amount (amounts : gmap bytes Z) : parser (gmap bytes Z) :=
  account ← Rd.Fixed 32 <!> ErrMarketState;
  amount ← Rd.U64 <!> ErrMarketState;
  plift (fail_if (amount =? 0) ErrMarketState);;
  plift (fail_if (IsZero32 account) ErrMarketState);;
  plift (fail_if (bool_decide (is_Some (amounts !! account))) ErrMarketState);;
  mret (<[account := amount]> amounts).

Fixpoint read_amounts (n : nat) (amounts : gmap bytes Z) : parser (gmap bytes Z) :=
  match n with
  | O => mret amounts
  | S n => amounts ← read_amount amounts; read_amounts n amounts
  end.

Definition readAccountAmounts : parser (gmap bytes Z) :=
  count ← Rd.U32 <!> ErrMarketState;
  plift (fail_if (1024 <? count) ErrMarketState);;
  read_amounts (Z.to_nat count) ∅.

Definition ParseSettlementReceipt (data : bytes) : res SettlementReceipt :=
  parse (jobID ← Rd.Fixed 32 <!> ErrMarketState;
         resultRoot ← Rd.Fixed 32 <!> ErrMarketState;
         payments ← readAccountAmounts;
         refund ← Rd.U64 <!> ErrMarketState;
         slashed ← readAccountAmounts;
         slashReward ← Rd.U64 <!> ErrMarketState;
         expired ← Rd.Bool <!> ErrMarketState;
         Rd.Done <!> ErrMarketState;;
         plift (fail_if (IsZero32 jobID) ErrMarketState);;
         plift (fail_if (if expired : bool
                         then negb (IsZero32 resultRoot) || negb (Z.of_nat (size payments) =? 0)
                              || negb (Z.of_nat (size slashed) =? 0) || negb (slashReward =? 0)
                         else IsZero32 resultRoot || (Z.of_nat (size payments) =? 0)) ErrMarketState);;
         mret (mkSettlementReceipt jobID resultRoot payments refund slashed slashReward expired)) data.

Definition ObserveFinalizedSettlement (record : OnChainJob) (receipt : SettlementReceipt) (registry : WorkRegistry)
    : res VerifiedWork :=
  fail_if (sr_Expired receipt || negb (bool_decide (sr_JobID receipt = oj_ID record))
           || negb (oj_Status record =? JobAwaitingVerification)) ErrInvalidWorkSettlement;;
  '(updated, settlement) ←
    match FinalizeOnChain record no_evidence with
    | Ok out => Ok out
    | Err _ => ResolveReplicatedMajority record <?> ErrInvalidWorkSettlement
    end;
  let st := os_Settlement settlement in
  let expected := mkSettlementReceipt (oj_ID record) (st_ResultRoot st) (st_Payments st) (st_Refund st)
                    (SlashedCollateral settlement) (SlashReward settlement) false in
  fail_if (negb (bool_decide (SettlementReceipt_MarshalBinary receipt = SettlementReceipt_MarshalBinary expected)))
    ErrInvalidWorkSettlement;;
  ObserveVerifiedWork updated settlement registry.

Definition SettlementPaid (receipt : SettlementReceipt) : res Z :=
  rfold (fun paid entry => fail_if (overflows paid entry.2) ErrMarketEscrow;; Ok (add64 paid entry.2))
    0 (range_map (sr_Payments receipt)).
End observe.
