(* ===== verification/EconomicsPolicy.v ===== *)
(** * EconomicsPolicy

    Package [internal/v2/economics], the integer controllers: fee split, fee
    quote and base fee ([fees.go]), the adaptive monetary policy
    ([monetary.go]), the compute price index arithmetic ([compute_index.go]),
    scarcity ([compute_scarcity.go]), feedback ([compute_feedback.go]) and
    age-weighted velocity ([velocity.go]).

    [big.Int] values are integers of [Z], [Quo] is [Z.quot]; machine integers
    wrap at their width. *)

From S2P Require Import Prelude GoLib Types Object.

Open Scope Z_scope.

Definition BasisPoints : Z := 10000.
Definition PriceScaleQ9 : Z := 1000000000.

(** [if !value.IsUint64() { return 0, err }; return value.Uint64(), nil] *)
Definition to_uint64 (value : Z) (err : error) : res Z :=
  fail_if (negb (IsUint64 value)) err;; Ok value.

(** ** Fees *)

Record FeePolicy := mkFeePolicy {
  fp_BurnBps : Z;
  fp_ValidatorBps : Z;
  fp_ReserveBps : Z;
}.

Record FeeAllocation := mkFeeAllocation {
  fa_Total : Z;
  fa_Burn : Z;
  fa_Validators : Z;
  fa_Reserve : Z;
}.

Definition CompatibilityFeePolicy : FeePolicy := mkFeePolicy BasisPoints 0 0.

Definition FeePolicy_Validate (p : FeePolicy) : res unit :=
  let total := add64 (add64 (fp_BurnBps p) (fp_ValidatorBps p)) (fp_ReserveBps p) in
  fail_if ((BasisPoints <? fp_BurnBps p) || (BasisPoints <? fp_ValidatorBps p) || (BasisPoints <? fp_ReserveBps p)
           || negb (total =? BasisPoints)) ErrFeePolicy.

Definition shareBps (value bps : Z) : res Z := to_uint64 (Z.quot (value * bps) BasisPoints) ErrFeePolicy.

Definition SplitFee (fee : Z) (policy : FeePolicy) : res FeeAllocation :=
  FeePolicy_Validate policy;;
  validators ← shareBps fee (fp_ValidatorBps policy);
  reserve ← shareBps fee (fp_ReserveBps policy) <?> ErrFeePolicy;
  fail_if ((fee <? validators) || (sub64 fee validators <? reserve)) ErrFeePolicy;;
  let burn := sub64 (sub64 fee validators) reserve in
  Ok (mkFeeAllocation fee burn validators reserve).

Record ResourceUsage := mkResourceUsage {
  ru_BaseTransactions : Z; ru_SignatureOps : Z; ru_WitnessBytes : Z; ru_StateReads : Z;
  ru_StateWrites : Z; ru_ContractFuel : Z; ru_DataAvailabilityBytes : Z; ru_CrossShardReceipts : Z;
}.

Record ResourcePrices := mkResourcePrices {
  rp_BaseTransaction : Z; rp_SignatureOp : Z; rp_WitnessByte : Z; rp_StateRead : Z;
  rp_StateWrite : Z; rp_ContractFuel : Z; rp_DataAvailabilityByte : Z; rp_CrossShardReceipt : Z;
}.

Definition fee_pairs (usage : ResourceUsage) (prices : ResourcePrices) : list (Z * Z) :=
  [(ru_BaseTransactions usage, rp_BaseTransaction prices);
   (ru_SignatureOps usage, rp_SignatureOp prices);
   (ru_WitnessBytes usage, rp_WitnessByte prices);
   (ru_StateReads usage, rp_StateRead prices);
   (ru_StateWrites usage, rp_StateWrite prices);
   (ru_ContractFuel usage, rp_ContractFuel prices);
   (ru_DataAvailabilityBytes usage, rp_DataAvailabilityByte prices);
   (ru_CrossShardReceipts usage, rp_CrossShardReceipt prices)].

Definition QuoteResourceFee (usage : ResourceUsage) (prices : ResourcePrices) : res Z :=
  let total := foldl (fun total pair => total + pair.1 * pair.2) 0 (fee_pairs usage prices) in
  to_uint64 total ErrResourceFee.

Record BaseFeePolicy := mkBaseFeePolicy {
  bf_TargetUsage : Z;
  bf_AdjustmentDenominator : Z;
  bf_MinBaseFee : Z;
  bf_MaxBaseFee : Z;
}.

Definition BaseFeePolicy_Validate (p : BaseFeePolicy) : res unit :=
  fail_if ((bf_TargetUsage p =? 0) || (bf_AdjustmentDenominator p =? 0) || (bf_MinBaseFee p =? 0)
           || (bf_MaxBaseFee p <? bf_MinBaseFee p)) ErrFeePolicy.

Definition NextBaseFee (current used : Z) (policy : BaseFeePolicy) : res Z :=
  BaseFeePolicy_Validate policy <?> ErrFeePolicy;;
  fail_if ((current <? bf_MinBaseFee policy) || (bf_MaxBaseFee policy <? current)) ErrFeePolicy;;
  if used =? bf_TargetUsage policy then Ok current
  else
    let increase := bf_TargetUsage policy <? used in
    let distance := if increase then sub64 used (bf_TargetUsage policy) else sub64 (bf_TargetUsage policy) used in
    let change := Z.quot (Z.quot (current * distance) (bf_TargetUsage policy)) (bf_AdjustmentDenominator policy) in
    let change := if change =? 0 then 1 else change in
    delta ← to_uint64 change ErrResourceFee;
    if increase then
      let next := current + delta in
      if bf_MaxBaseFee policy <? next then Ok (bf_MaxBaseFee policy) else Ok next
    else if (current <=? delta) || (sub64 current delta <? bf_MinBaseFee policy) then Ok (bf_MinBaseFee policy)
    else Ok (sub64 current delta).

(** ** The adaptive monetary policy *)

Record MonetaryPolicy := mkMonetaryPolicy {
  mp_TargetInflationBps : Z;
  mp_MinInflationBps : Z;
  mp_MaxInflationBps : Z;
  mp_MaxEpochStepBps : Z;
  mp_EpochsPerYear : Z;
  mp_ReserveTargetBps : Z;
  mp_StakeTargetBps : Z;
  mp_UtilizationTargetBps : Z;
  mp_VelocityTargetBps : Z;
  mp_OperationsTarget : Z;
  mp_ReserveWeightBps : Z;
  mp_StakeWeightBps : Z;
  mp_UtilizationWeightBps : Z;
  mp_VelocityWeightBps : Z;
  mp_OperationsWeightBps : Z;
}.

Record MonetaryMetrics := mkMonetaryMetrics {
  mm_Supply : Z;
  mm_CirculatingSupply : Z;
  mm_StakedSupply : Z;
  mm_ProtocolReserve : Z;
  mm_BurnedThisEpoch : Z;
  mm_FinalizedOperations : Z;
  mm_ResourceUtilizationBps : Z;
  mm_AgeWeightedVelocityBps : Z;
  mm_ComputeIndexQ9 : Z;
  mm_ComputePriceTrendBps : Z;
  mm_ComputeIndexReliable : bool;
}.

Record MonetaryDecision := mkMonetaryDecision {
  md_Shadow : bool;
  md_TargetInflationBps : Z;
  md_NetIssuanceTarget : Z;
  md_BurnOffset : Z;
  md_GrossMintTarget : Z;
  md_ProjectedNetChange : Z;
  md_ReserveRatioBps : Z;
  md_StakeRatioBps : Z;
  md_OperationsActivityBps : Z;
  md_ComputeIndexQ9 : Z;
  md_ComputePriceTrendBps : Z;
  md_ComputeIndexReliable : bool;
}.

Definition DefaultShadowPolicy : MonetaryPolicy :=
  mkMonetaryPolicy 200 150 250 1 365 1000 5000 5000 5000 1000000 500 500 250 250 100.

Definition ratioBps (value total : Z) : Z :=
  if total =? 0 then 0
  else
    let ratio := Z.quot (value * BasisPoints) total in
    if BasisPoints <? ratio then BasisPoints else uint32 ratio.

Definition activityBps (value target : Z) : Z :=
  if target =? 0 then 0
  else
    let ratio := Z.quot (value * BasisPoints) target in
    if 2 * BasisPoints <? ratio then 2 * BasisPoints else uint32 ratio.

(** [int64] arithmetic; the division truncates towards zero. *)
Definition weightedGap (target actual weight : Z) : Z :=
  let gap := int64 (target - actual) in
  int64 (Z.quot (int64 (gap * weight)) BasisPoints).

Definition clampTarget (target minimum maximum : Z) : Z :=
  if target <? minimum then minimum else if maximum <? target then maximum else uint32 target.

Definition rateLimitTarget (prior next maximumStep : Z) : Z :=
  if (maximumStep =? 0) || (prior =? next) then prior
  else if prior <? next then
    if maximumStep <? sub32 next prior then add32 prior maximumStep else next
  else if maximumStep <? sub32 prior next then sub32 prior maximumStep
  else next.

Definition epochIssuance (supply targetBps epochsPerYear : Z) : res Z :=
  let value := Z.quot (Z.quot (supply * targetBps) BasisPoints) epochsPerYear in
  to_uint64 value ErrMonetaryPolicy.

Definition addUint64 (a b : Z) : res Z := to_uint64 (a + b) ErrMonetaryPolicy.

Definition policy_weights (policy : MonetaryPolicy) : list Z :=
  [mp_ReserveWeightBps policy; mp_StakeWeightBps policy; mp_UtilizationWeightBps policy;
   mp_VelocityWeightBps policy; mp_OperationsWeightBps policy].

Definition validateMonetary (metrics : MonetaryMetrics) (policy : MonetaryPolicy) : res unit :=
  fail_if ((mm_Supply metrics =? 0) || (mm_CirculatingSupply metrics =? 0)
           || (mm_Supply metrics <? mm_CirculatingSupply metrics)
           || (mm_CirculatingSupply metrics <? mm_StakedSupply metrics)
           || (mm_Supply metrics <? mm_ProtocolReserve metrics)
           || (mp_EpochsPerYear policy =? 0) || (mp_OperationsTarget policy =? 0)
           || (mp_TargetInflationBps policy <? mp_MinInflationBps policy)
           || (mp_MaxInflationBps policy <? mp_TargetInflationBps policy)
           || (BasisPoints <? mp_MaxInflationBps policy)
           || (BasisPoints <? mp_ReserveTargetBps policy) || (BasisPoints <? mp_StakeTargetBps policy)
           || (BasisPoints <? mp_UtilizationTargetBps policy) || (BasisPoints <? mp_VelocityTargetBps policy)
           || (2 * BasisPoints <? mm_ResourceUtilizationBps metrics)
           || (2 * BasisPoints <? mm_AgeWeightedVelocityBps metrics)) ErrMonetaryPolicy;;
  rfold (fun _ weight => fail_if (BasisPoints <? weight) ErrMonetaryPolicy) tt (policy_weights policy).

(** The five weighted gaps, added up in [int64]. *)
Definition correction (metrics : MonetaryMetrics) (policy : MonetaryPolicy) : Z :=
  let reserveRatio := ratioBps (mm_ProtocolReserve metrics) (mm_Supply metrics) in
  let stakeRatio := ratioBps (mm_StakedSupply metrics) (mm_CirculatingSupply metrics) in
  let operationsActivity := activityBps (mm_FinalizedOperations metrics) (mp_OperationsTarget policy) in
  let c := 0 in
  let c := int64 (c + weightedGap (mp_ReserveTargetBps policy) reserveRatio (mp_ReserveWeightBps policy)) in
  let c := int64 (c + weightedGap (mp_StakeTargetBps policy) stakeRatio (mp_StakeWeightBps policy)) in
  let c := int64 (c + weightedGap (mp_UtilizationTargetBps policy) (mm_ResourceUtilizationBps metrics)
                        (mp_UtilizationWeightBps policy)) in
  let c := int64 (c + weightedGap (mp_VelocityTargetBps policy) (mm_AgeWeightedVelocityBps metrics)
                        (mp_VelocityWeightBps policy)) in
  int64 (c + weightedGap BasisPoints operationsActivity (mp_OperationsWeightBps policy)).

Definition EvaluateShadow (priorTargetBps : Z) (metrics : MonetaryMetrics) (policy : MonetaryPolicy)
    : res MonetaryDecision :=
  validateMonetary metrics policy;;
  let reserveRatio := ratioBps (mm_ProtocolReserve metrics) (mm_Supply metrics) in
  let stakeRatio := ratioBps (mm_StakedSupply metrics) (mm_CirculatingSupply metrics) in
  let operationsActivity := activityBps (mm_FinalizedOperations metrics) (mp_OperationsTarget policy) in
  let target := clampTarget (int64 (mp_TargetInflationBps policy + correction metrics policy))
                  (mp_MinInflationBps policy) (mp_MaxInflationBps policy) in
  let target := if negb (priorTargetBps =? 0) then rateLimitTarget priorTargetBps target (mp_MaxEpochStepBps policy)
                else target in
  netTarget ← epochIssuance (mm_Supply metrics) target (mp_EpochsPerYear policy);
  gross ← addUint64 netTarget (mm_BurnedThisEpoch metrics);
  Ok (mkMonetaryDecision true target netTarget (mm_BurnedThisEpoch metrics) gross netTarget reserveRatio stakeRatio
        operationsActivity (mm_ComputeIndexQ9 metrics) (mm_ComputePriceTrendBps metrics)
        (mm_ComputeIndexReliable metrics)).

(** ** Compute price index: the arithmetic *)

Definition scaledRatio (value scale divisor : Z) : res Z :=
  fail_if (divisor =? 0) ErrComputeIndex;;
  to_uint64 (Z.quot (value * scale) divisor) ErrComputeIndex.

(** Called with at least one value. *)
Definition medianUint64 (values : list Z) : Z :=
  let middle := (length values / 2)%nat in
  if (length values mod 2 =? 1)%nat then nth middle values 0
  else
    let low := nth (middle - 1) values 0 in
    let high := nth middle values 0 in
    add64 low (sub64 high low / 2).

Definition ewma (prior current alphaBps : Z) : res Z :=
  if (prior =? 0) || (alphaBps =? BasisPoints) then Ok current
  else if alphaBps =? 0 then Ok prior
  else
    let left := prior * sub32 BasisPoints alphaBps in
    let right := current * alphaBps in
    to_uint64 (Z.quot (left + right) BasisPoints) ErrComputeIndex.

Definition ComputePriceTrendBps (current prior : Z) : Z :=
  if (current =? 0) || (prior =? 0) || (current =? prior) then 0
  else
    let delta := Z.quot ((current - prior) * BasisPoints) prior in
    if BasisPoints <? delta then int32 BasisPoints
    else if delta <? - BasisPoints then - int32 BasisPoints
    else int32 delta.

(** ** Compute scarcity *)

Record ComputeScarcityConfig := mkComputeScarcityConfig {
  sc_DemandSupplyWeightBps : Z;
  sc_PriceTrendWeightBps : Z;
  sc_BacklogWeightBps : Z;
  sc_UtilizationWeightBps : Z;
  sc_FulfillmentWeightBps : Z;
  sc_UtilizationTargetBps : Z;
  sc_MinDemandUnits : Z;
  sc_MinSupplyUnits : Z;
  sc_MaxAbsScoreBps : Z;
}.

Record ComputeMarketMetrics := mkComputeMarketMetrics {
  km_EscrowBackedDemandUnits : Z;
  km_VerifiedSupplyUnits : Z;
  km_VerifiedSupplyReliable : bool;
  km_BacklogUnits : Z;
  km_FulfilledUnits : Z;
  km_UtilizationBps : Z;
  km_ComputePriceTrendBps : Z;
  km_ComputeIndexReliable : bool;
}.

Record ComputeScarcitySnapshot := mkComputeScarcitySnapshot {
  ss_Epoch : Z;
  ss_DemandSupplyPressureBps : Z;
  ss_PriceTrendPressureBps : Z;
  ss_BacklogPressureBps : Z;
  ss_UtilizationPressureBps : Z;
  ss_FulfillmentPressureBps : Z;
  ss_ScoreBps : Z;
  ss_Reliable : bool;
}.

Definition DefaultComputeScarcityConfig : ComputeScarcityConfig :=
  mkComputeScarcityConfig 3000 2000 2000 1500 1500 7000 1000 1000 10000.

Definition clampSigned (value maximum : Z) : Z :=
  if maximum <? value then maximum else if value <? - maximum then int32 (- maximum) else int32 value.

Definition clampSignedBps (value : Z) : Z := clampSigned value (int32 BasisPoints).

Definition signedRatioPressure (demand supply : Z) : Z :=
  if (demand =? 0) && (supply =? 0) then 0
  else if supply =? 0 then int32 BasisPoints
  else
    let delta := Z.quot ((demand - supply) * BasisPoints) supply in
    if BasisPoints <? delta then int32 BasisPoints
    else if delta <? - BasisPoints then - int32 BasisPoints
    else int32 delta.

Definition unsignedRatioPressure (value total : Z) : Z :=
  if total =? 0 then 0
  else
    let ratio := Z.quot (value * BasisPoints) total in
    if BasisPoints <? ratio then int32 BasisPoints else int32 ratio.

Definition scarcity_weights (cfg : ComputeScarcityConfig) : list Z :=
  [sc_DemandSupplyWeightBps cfg; sc_PriceTrendWeightBps cfg; sc_BacklogWeightBps cfg;
   sc_UtilizationWeightBps cfg; sc_FulfillmentWeightBps cfg].

Definition BuildComputeScarcity (epoch : Z) (metrics : ComputeMarketMetrics) (cfg : ComputeScarcityConfig)
    : res ComputeScarcitySnapshot :=
  fail_if ((epoch =? 0) || (BasisPoints <? sc_UtilizationTargetBps cfg) || (sc_MaxAbsScoreBps cfg =? 0)
           || (BasisPoints <? sc_MaxAbsScoreBps cfg) || (BasisPoints <? km_UtilizationBps metrics)
           || (km_EscrowBackedDemandUnits metrics <? km_BacklogUnits metrics)
           || (km_EscrowBackedDemandUnits metrics <? km_FulfilledUnits metrics)) ErrComputeScarcity;;
  totalWeight ← rfold (fun total weight => fail_if (BasisPoints <? weight) ErrComputeScarcity;; Ok (add64 total weight))
                  0 (scarcity_weights cfg);
  fail_if (totalWeight =? 0) ErrComputeScarcity;;
  let demandSupply := signedRatioPressure (km_EscrowBackedDemandUnits metrics) (km_VerifiedSupplyUnits metrics) in
  let backlog := unsignedRatioPressure (km_BacklogUnits metrics) (km_EscrowBackedDemandUnits metrics) in
  let utilization := clampSignedBps (int64 (km_UtilizationBps metrics - sc_UtilizationTargetBps cfg)) in
  let fulfilledBps := unsignedRatioPressure (km_FulfilledUnits metrics) (km_EscrowBackedDemandUnits metrics) in
  let fulfillment := if km_EscrowBackedDemandUnits metrics =? 0 then 0 else int32 (int32 BasisPoints - fulfilledBps) in
  let priceTrend := if km_ComputeIndexReliable metrics then clampSignedBps (km_ComputePriceTrendBps metrics) else 0 in
  let weighted := int64 (int64 (int64 (int64 (demandSupply * sc_DemandSupplyWeightBps cfg)
      + int64 (backlog * sc_BacklogWeightBps cfg)) + int64 (utilization * sc_UtilizationWeightBps cfg))
      + int64 (fulfillment * sc_FulfillmentWeightBps cfg)) in
  let weighted := if km_ComputeIndexReliable metrics
                  then int64 (weighted + int64 (priceTrend * sc_PriceTrendWeightBps cfg)) else weighted in
  let effectiveWeight := if km_ComputeIndexReliable metrics then totalWeight
                         else sub64 totalWeight (sc_PriceTrendWeightBps cfg) in
  fail_if (effectiveWeight =? 0) ErrComputeScarcity;;
  let score := clampSigned (int64 (Z.quot weighted (int64 effectiveWeight))) (int32 (sc_MaxAbsScoreBps cfg)) in
  let reliable := km_VerifiedSupplyReliable metrics
    && (sc_MinDemandUnits cfg <=? km_EscrowBackedDemandUnits metrics)
    && (sc_MinSupplyUnits cfg <=? km_VerifiedSupplyUnits metrics) in
  Ok (mkComputeScarcitySnapshot epoch demandSupply priceTrend backlog utilization fulfillment score reliable).

(** ** Compute feedback *)

Definition ComputeFeedbackObserveOnly : Z := 0.
Definition ComputeFeedbackRewardRouting : Z := 1.
Definition ComputeFeedbackMonetaryBand : Z := 2.

Record ComputeFeedbackPolicy := mkComputeFeedbackPolicy {
  cf_Mode : Z;
  cf_BaseComputeRewardShareBps : Z;
  cf_MinComputeRewardShareBps : Z;
  cf_MaxComputeRewardShareBps : Z;
  cf_RewardSensitivityBps : Z;
  cf_MonetarySensitivityBps : Z;
  cf_MaxInflationCorrectionBps : Z;
}.

Record ComputeFeedbackDecision := mkComputeFeedbackDecision {
  cd_Shadow : bool;
  cd_Mode : Z;
  cd_ScarcityScoreBps : Z;
  cd_ScarcityReliable : bool;
  cd_ComputeRewardShareBps : Z;
  cd_SuggestedComputeIncentiveMint : Z;
  cd_InflationCorrectionBps : Z;
  cd_BaseTargetInflationBps : Z;
  cd_SuggestedTargetInflationBps : Z;
  cd_SuggestedNetIssuance : Z;
  cd_SuggestedGrossMint : Z;
}.

Definition DefaultComputeFeedbackPolicy (mode : Z) : ComputeFeedbackPolicy :=
  mkComputeFeedbackPolicy mode 1000 0 3000 2000 25 25.

(** [decisionWithComputeBudget]: the budget stays zero when the share overflows. *)
Definition decisionWithComputeBudget (d : ComputeFeedbackDecision) : ComputeFeedbackDecision :=
  match shareBps (cd_SuggestedNetIssuance d) (cd_ComputeRewardShareBps d) with
  | Ok budget =>
      mkComputeFeedbackDecision (cd_Shadow d) (cd_Mode d) (cd_ScarcityScoreBps d) (cd_ScarcityReliable d)
        (cd_ComputeRewardShareBps d) budget (cd_InflationCorrectionBps d) (cd_BaseTargetInflationBps d)
        (cd_SuggestedTargetInflationBps d) (cd_SuggestedNetIssuance d) (cd_SuggestedGrossMint d)
  | Err _ => d
  end.

(** The clamped reward share of the modes beyond observation. *)
Definition reward_share (scarcity : ComputeScarcitySnapshot) (policy : ComputeFeedbackPolicy) : Z :=
  let rewardDelta := int64 (Z.quot (int64 (ss_ScoreBps scarcity * cf_RewardSensitivityBps policy)) BasisPoints) in
  let rewardShare := int64 (cf_BaseComputeRewardShareBps policy + rewardDelta) in
  let rewardShare := if rewardShare <? cf_MinComputeRewardShareBps policy then cf_MinComputeRewardShareBps policy
                     else rewardShare in
  let rewardShare := if cf_MaxComputeRewardShareBps policy <? rewardShare then cf_MaxComputeRewardShareBps policy
                     else rewardShare in
  uint32 rewardShare.

(** The clamped correction of mode C, before its conversion to [int32]. *)
Definition band_correction (scarcity : ComputeScarcitySnapshot) (policy : ComputeFeedbackPolicy) : Z :=
  let correction := int64 (Z.quot (int64 (ss_ScoreBps scarcity * cf_MonetarySensitivityBps policy)) BasisPoints) in
  let maxCorrection := cf_MaxInflationCorrectionBps policy in
  let correction := if maxCorrection <? correction then maxCorrection else correction in
  if correction <? - maxCorrection then - maxCorrection else correction.

Definition EvaluateComputeFeedback (base : MonetaryDecision) (metrics : MonetaryMetrics) (monetary : MonetaryPolicy)
    (scarcity : ComputeScarcitySnapshot) (policy : ComputeFeedbackPolicy) : res ComputeFeedbackDecision :=
  fail_if (negb (md_Shadow base) || (ComputeFeedbackMonetaryBand <? cf_Mode policy)
           || (BasisPoints <? cf_BaseComputeRewardShareBps policy)
           || (cf_BaseComputeRewardShareBps policy <? cf_MinComputeRewardShareBps policy)
           || (cf_MaxComputeRewardShareBps policy <? cf_BaseComputeRewardShareBps policy)
           || (BasisPoints <? cf_MaxComputeRewardShareBps policy) || (BasisPoints <? cf_RewardSensitivityBps policy)
           || (BasisPoints <? cf_MonetarySensitivityBps policy)
           || (BasisPoints <? cf_MaxInflationCorrectionBps policy)) ErrComputeFeedback;;
  let decision share correction target net gross :=
    decisionWithComputeBudget
      (mkComputeFeedbackDecision true (cf_Mode policy) (ss_ScoreBps scarcity) (ss_Reliable scarcity) share 0 correction
         (md_TargetInflationBps base) target net gross) in
  if negb (ss_Reliable scarcity) || (cf_Mode policy =? ComputeFeedbackObserveOnly) then
    Ok (decision (cf_BaseComputeRewardShareBps policy) 0 (md_TargetInflationBps base) (md_NetIssuanceTarget base)
          (md_GrossMintTarget base))
  else
    let share := reward_share scarcity policy in
    if negb (cf_Mode policy =? ComputeFeedbackMonetaryBand) then
      Ok (decision share 0 (md_TargetInflationBps base) (md_NetIssuanceTarget base) (md_GrossMintTarget base))
    else
      let correction := band_correction scarcity policy in
      let target := clampTarget (int64 (md_TargetInflationBps base + correction))
                      (mp_MinInflationBps monetary) (mp_MaxInflationBps monetary) in
      net ← epochIssuance (mm_Supply metrics) target (mp_EpochsPerYear monetary);
      gross ← addUint64 net (mm_BurnedThisEpoch metrics);
      Ok (decision share (int32 correction) target net gross).

(** ** Age-weighted velocity *)

Record VelocityPolicy := mkVelocityPolicy {
  vp_MinAgeBlocks : Z;
  vp_FullWeightAgeBlocks : Z;
  vp_MaxVelocityBps : Z;
}.

Record VelocitySnapshot := mkVelocitySnapshot {
  vs_AgeWeightedVelocityBps : Z;
  vs_ObservedSpends : Z;
  vs_EligibleSpends : Z;
  vs_UnknownAgeSpends : Z;
  vs_FreshSpends : Z;
}.

Record VelocityAccumulator := mkVelocityAccumulator {
  va_policy : VelocityPolicy;
  va_weightedValueBps : Z;
  va_observedSpends : Z;
  va_eligibleSpends : Z;
  va_unknownAgeSpends : Z;
  va_freshSpends : Z;
}.

Definition NewVelocityAccumulator (policy : VelocityPolicy) : res VelocityAccumulator :=
  fail_if ((vp_FullWeightAgeBlocks policy =? 0) || (vp_FullWeightAgeBlocks policy <? vp_MinAgeBlocks policy)
           || (vp_MaxVelocityBps policy =? 0) || (10 * BasisPoints <? vp_MaxVelocityBps policy)) ErrVelocity;;
  Ok (mkVelocityAccumulator policy 0 0 0 0 0).

(** The accumulator after the call and the error: the spend is counted before
    its height is checked. *)
Definition ObserveCoin (a : VelocityAccumulator) (coin : Coin) (spendHeight : Z) : VelocityAccumulator * res unit :=
  let policy := va_policy a in
  if Amount coin =? 0 then (a, Err ErrVelocity)
  else
    let observed := add64 (va_observedSpends a) 1 in
    let counted weighted eligible unknown fresh :=
      mkVelocityAccumulator policy weighted observed eligible unknown fresh in
    let w := va_weightedValueBps a in
    let e := va_eligibleSpends a in
    let u := va_unknownAgeSpends a in
    let f := va_freshSpends a in
    if CreatedHeight coin =? 0 then (counted w e (add64 u 1) f, Ok tt)
    else if spendHeight <=? CreatedHeight coin then (counted w e u f, Err ErrVelocity)
    else
      let age := sub64 spendHeight (CreatedHeight coin) in
      if age <? vp_MinAgeBlocks policy then (counted w e u (add64 f 1), Ok tt)
      else
        let age := if vp_FullWeightAgeBlocks policy <? age then vp_FullWeightAgeBlocks policy else age in
        let weight := Z.quot (age * BasisPoints) (vp_FullWeightAgeBlocks policy) in
        (counted (w + Amount coin * weight) (add64 e 1) u f, Ok tt).

Definition Velocity_Finalize (a : VelocityAccumulator) (circulatingSupply : Z) : res VelocitySnapshot :=
  fail_if (circulatingSupply =? 0) ErrVelocity;;
  let value := Z.quot (va_weightedValueBps a) circulatingSupply in
  let value := if vp_MaxVelocityBps (va_policy a) <? value then vp_MaxVelocityBps (va_policy a) else value in
  Ok (mkVelocitySnapshot (uint32 value) (va_observedSpends a) (va_eligibleSpends a) (va_unknownAgeSpends a)
        (va_freshSpends a)).
