(* ===== verification/EconomicsEpoch.v ===== *)
(** * EconomicsEpoch

    Package [internal/v2/economics], one epoch: the metrics of a shard and
    their aggregate ([epoch.go], [epoch_wire.go], [epoch_parse.go]) and the
    compute price index over the verified work ([compute_index.go]). *)

From S2P Require Import Prelude GoLib Codec Crypto Types Object ComputeModel ComputeWork EconomicsPolicy.

Open Scope Z_scope.

(** ** The metrics of a shard *)

Definition EpochMetricsVersion : Z := 2.

Record ShardEpochMetrics := mkShardEpochMetrics {
  em_Version : Z;
  em_Epoch : Z;
  em_ShardID : Z;
  em_ChargedFees : Z;
  em_BurnedFees : Z;
  em_ValidatorFees : Z;
  em_ReserveFees : Z;
  em_FinalizedOperations : Z;
  em_ResourceUsed : Z;
  em_ResourceCapacity : Z;
  em_CirculatingNativeSupply : Z;
  em_AgeWeightedVelocityBps : Z;
  em_EscrowBackedComputeDemand : Z;
  em_VerifiedComputeSupply : Z;
  em_ComputeSupplyReliable : bool;
  em_OpeningComputeBacklog : Z;
  em_ComputeFulfilled : Z;
  em_ComputeExpired : Z;
  em_ComputeBacklog : Z;
}.

Definition validComputeFlow (opening demand fulfilled expired closing : Z) : bool :=
  let available := opening + demand in
  let resolved := fulfilled + expired + closing in
  IsUint64 available && IsUint64 resolved && (available =? resolved).

Definition ShardEpochMetrics_Validate (m : ShardEpochMetrics) : res unit :=
  fail_if (negb (em_Version m =? EpochMetricsVersion) || (em_Epoch m =? 0) || (em_ResourceCapacity m =? 0)
           || (em_ResourceCapacity m <? em_ResourceUsed m) || (10 * BasisPoints <? em_AgeWeightedVelocityBps m)
           || (em_ComputeSupplyReliable m && (em_VerifiedComputeSupply m <? em_ComputeFulfilled m))
           || negb (validComputeFlow (em_OpeningComputeBacklog m) (em_EscrowBackedComputeDemand m)
                      (em_ComputeFulfilled m) (em_ComputeExpired m) (em_ComputeBacklog m))) ErrEpochMetrics;;
  let feeTotal := em_BurnedFees m + em_ValidatorFees m + em_ReserveFees m in
  fail_if (negb (IsUint64 feeTotal) || negb (feeTotal =? em_ChargedFees m)) ErrEpochMetrics.

Definition ShardEpochMetrics_CanonicalBytes (m : ShardEpochMetrics) : res bytes :=
  ShardEpochMetrics_Validate m;;
  Ok (Writer.BytesCopy (Writer.new |> Writer.U16 (em_Version m) |> Writer.U64 (em_Epoch m) |> Writer.U32 (em_ShardID m)
    |> Writer.U64 (em_ChargedFees m) |> Writer.U64 (em_BurnedFees m) |> Writer.U64 (em_ValidatorFees m)
    |> Writer.U64 (em_ReserveFees m) |> Writer.U64 (em_FinalizedOperations m) |> Writer.U64 (em_ResourceUsed m)
    |> Writer.U64 (em_ResourceCapacity m) |> Writer.U64 (em_CirculatingNativeSupply m)
    |> Writer.U32 (em_AgeWeightedVelocityBps m) |> Writer.U64 (em_EscrowBackedComputeDemand m)
    |> Writer.U64 (em_VerifiedComputeSupply m) |> Writer.Bool (em_ComputeSupplyReliable m)
    |> Writer.U64 (em_OpeningComputeBacklog m) |> Writer.U64 (em_ComputeFulfilled m)
    |> Writer.U64 (em_ComputeExpired m) |> Writer.U64 (em_ComputeBacklog m))).

(** ** The aggregate over the shards *)

Record EpochAggregate := mkEpochAggregate {
  ea_Epoch : Z;
  ea_ShardCount : Z;
  ea_ChargedFees : Z;
  ea_BurnedFees : Z;
  ea_ValidatorFees : Z;
  ea_ReserveFees : Z;
  ea_FinalizedOperations : Z;
  ea_ResourceUsed : Z;
  ea_ResourceCapacity : Z;
  ea_ResourceUtilizationBps : Z;
  ea_CirculatingNativeSupply : Z;
  ea_AgeWeightedVelocityBps : Z;
  ea_EscrowBackedComputeDemand : Z;
  ea_VerifiedComputeSupply : Z;
  ea_ComputeSupplyReliable : bool;
  ea_OpeningComputeBacklog : Z;
  ea_ComputeFulfilled : Z;
  ea_ComputeExpired : Z;
  ea_ComputeBacklog : Z;
  ea_ComputeUtilizationBps : Z;
}.

#[global] Instance EpochAggregate_eq_dec : EqDecision EpochAggregate.
Proof. solve_decision. Defined.

(** The checks of the loop; [prev] is [ordered[i-1].ShardID]. *)
Fixpoint check_metrics (epoch : Z) (prev : option Z) (ordered : list ShardEpochMetrics) : res unit :=
  match ordered with
  | [] => Ok tt
  | metric :: ordered =>
      ShardEpochMetrics_Validate metric <?> ErrEpochMetrics;;
      fail_if (negb (em_Epoch metric =? epoch)
               || match prev with Some p => p =? em_ShardID metric | None => false end) ErrEpochMetrics;;
      check_metrics epoch (Some (em_ShardID metric)) ordered
  end.

(** One of the fourteen sums of the loop. *)
Definition sum_of (field : ShardEpochMetrics -> Z) (ordered : list ShardEpochMetrics) : Z :=
  foldl (fun total metric => total + field metric) 0 ordered.

Definition summed_fields : list (ShardEpochMetrics -> Z) :=
  [em_ChargedFees; em_BurnedFees; em_ValidatorFees; em_ReserveFees; em_FinalizedOperations; em_ResourceUsed;
   em_ResourceCapacity; em_CirculatingNativeSupply; em_EscrowBackedComputeDemand; em_VerifiedComputeSupply;
   em_OpeningComputeBacklog; em_ComputeFulfilled; em_ComputeExpired; em_ComputeBacklog].

Definition AggregateEpochMetrics (metrics : list ShardEpochMetrics) : res EpochAggregate :=
  let ordered := sort_by em_ShardID metrics in
  match ordered with
  | [] => Err ErrEpochMetrics
  | first :: _ =>
      let epoch := em_Epoch first in
      check_metrics epoch None ordered;;
      let sum field := sum_of field ordered in
      let supplyReliable := foldl (fun acc metric => acc && em_ComputeSupplyReliable metric) true ordered in
      let weightedVelocity := sum (fun metric => em_CirculatingNativeSupply metric * em_AgeWeightedVelocityBps metric) in
      fail_if (existsb (fun field => negb (IsUint64 (sum field))) summed_fields) ErrEpochMetrics;;
      fail_if ((sum em_ResourceCapacity =? 0)
               || negb (validComputeFlow (sum em_OpeningComputeBacklog) (sum em_EscrowBackedComputeDemand)
                          (sum em_ComputeFulfilled) (sum em_ComputeExpired) (sum em_ComputeBacklog))) ErrEpochMetrics;;
      fail_if (supplyReliable && (sum em_VerifiedComputeSupply <? sum em_ComputeFulfilled)) ErrEpochMetrics;;
      let utilization := ratioBps (sum em_ResourceUsed) (sum em_ResourceCapacity) in
      let computeUtilization := if negb (sum em_VerifiedComputeSupply =? 0)
                                then ratioBps (sum em_ComputeFulfilled) (sum em_VerifiedComputeSupply) else 0 in
      velocity ← (if negb (sum em_CirculatingNativeSupply =? 0) then
                    let v := Z.quot weightedVelocity (sum em_CirculatingNativeSupply) in
                    fail_if (negb (IsUint64 v) || (10 * BasisPoints <? v)) ErrEpochMetrics;;
                    Ok (uint32 v)
                  else Ok 0);
      Ok (mkEpochAggregate epoch (uint32 (blen ordered)) (sum em_ChargedFees) (sum em_BurnedFees)
            (sum em_ValidatorFees) (sum em_ReserveFees) (sum em_FinalizedOperations) (sum em_ResourceUsed)
            (sum em_ResourceCapacity) utilization (sum em_CirculatingNativeSupply) velocity
            (sum em_EscrowBackedComputeDemand) (sum em_VerifiedComputeSupply) supplyReliable
            (sum em_OpeningComputeBacklog) (sum em_ComputeFulfilled) (sum em_ComputeExpired) (sum em_ComputeBacklog)
            computeUtilization)
  end.

Definition Aggregate_MonetaryMetrics (a : EpochAggregate)
    (totalSupply stakedSupply protocolReserve computeIndexQ9 computePriceTrendBps : Z) (computeIndexReliable : bool)
    : res MonetaryMetrics :=
  fail_if ((totalSupply =? 0) || (ea_CirculatingNativeSupply a =? 0) || (totalSupply <? ea_CirculatingNativeSupply a)
           || (ea_CirculatingNativeSupply a <? stakedSupply) || (totalSupply <? protocolReserve)) ErrEpochMetrics;;
  Ok (mkMonetaryMetrics totalSupply (ea_CirculatingNativeSupply a) stakedSupply protocolReserve (ea_BurnedFees a)
        (ea_FinalizedOperations a) (ea_ResourceUtilizationBps a) (ea_AgeWeightedVelocityBps a) computeIndexQ9
        computePriceTrendBps computeIndexReliable).

Definition Aggregate_ComputeMarketMetrics (a : EpochAggregate) (computePriceTrendBps : Z) (computeIndexReliable : bool)
    : ComputeMarketMetrics :=
  mkComputeMarketMetrics (add64 (ea_OpeningComputeBacklog a) (ea_EscrowBackedComputeDemand a))
    (ea_VerifiedComputeSupply a) (ea_ComputeSupplyReliable a) (ea_ComputeBacklog a) (ea_ComputeFulfilled a)
    (ea_ComputeUtilizationBps a) computePriceTrendBps computeIndexReliable.

Definition EpochAggregate_CanonicalBytes (a : EpochAggregate) : res bytes :=
  fail_if ((ea_Epoch a =? 0) || (ea_ShardCount a =? 0) || (ea_ResourceCapacity a =? 0)
           || (ea_ResourceCapacity a <? ea_ResourceUsed a) || (BasisPoints <? ea_ResourceUtilizationBps a)
           || (BasisPoints <? ea_ComputeUtilizationBps a) || (10 * BasisPoints <? ea_AgeWeightedVelocityBps a)
           || (ea_ComputeSupplyReliable a && (ea_VerifiedComputeSupply a <? ea_ComputeFulfilled a))
           || negb (validComputeFlow (ea_OpeningComputeBacklog a) (ea_EscrowBackedComputeDemand a)
                      (ea_ComputeFulfilled a) (ea_ComputeExpired a) (ea_ComputeBacklog a))) ErrEpochMetrics;;
  fail_if ((ea_ChargedFees a <? ea_BurnedFees a)
           || (sub64 (ea_ChargedFees a) (ea_BurnedFees a) <? ea_ValidatorFees a)
           || negb (ea_ReserveFees a =? sub64 (sub64 (ea_ChargedFees a) (ea_BurnedFees a)) (ea_ValidatorFees a)))
    ErrEpochMetrics;;
  Ok (Writer.BytesCopy (Writer.new |> Writer.U64 (ea_Epoch a) |> Writer.U32 (ea_ShardCount a)
    |> Writer.U64 (ea_ChargedFees a) |> Writer.U64 (ea_BurnedFees a) |> Writer.U64 (ea_ValidatorFees a)
    |> Writer.U64 (ea_ReserveFees a) |> Writer.U64 (ea_FinalizedOperations a) |> Writer.U64 (ea_ResourceUsed a)
    |> Writer.U64 (ea_ResourceCapacity a) |> Writer.U32 (ea_ResourceUtilizationBps a)
    |> Writer.U64 (ea_CirculatingNativeSupply a) |> Writer.U32 (ea_AgeWeightedVelocityBps a)
    |> Writer.U64 (ea_EscrowBackedComputeDemand a) |> Writer.U64 (ea_VerifiedComputeSupply a)
    |> Writer.Bool (ea_ComputeSupplyReliable a) |> Writer.U64 (ea_OpeningComputeBacklog a)
    |> Writer.U64 (ea_ComputeFulfilled a) |> Writer.U64 (ea_ComputeExpired a) |> Writer.U64 (ea_ComputeBacklog a)
    |> Writer.U32 (ea_ComputeUtilizationBps a))).

Definition ParseEpochAggregate (data : bytes) : res EpochAggregate :=
  parse (epoch ← Rd.U64 <!> ErrEpochMetrics;
         shardCount ← Rd.U32 <!> ErrEpochMetrics;
         charged ← Rd.U64 <!> ErrEpochMetrics;
         burned ← Rd.U64 <!> ErrEpochMetrics;
         validators ← Rd.U64 <!> ErrEpochMetrics;
         reserve ← Rd.U64 <!> ErrEpochMetrics;
         operations ← Rd.U64 <!> ErrEpochMetrics;
         used ← Rd.U64 <!> ErrEpochMetrics;
         capacity ← Rd.U64 <!> ErrEpochMetrics;
         utilization ← Rd.U32 <!> ErrEpochMetrics;
         circulating ← Rd.U64 <!> ErrEpochMetrics;
         velocity ← Rd.U32 <!> ErrEpochMetrics;
         demand ← Rd.U64 <!> ErrEpochMetrics;
         supply ← Rd.U64 <!> ErrEpochMetrics;
         reliable ← Rd.Bool <!> ErrEpochMetrics;
         opening ← Rd.U64 <!> ErrEpochMetrics;
         fulfilled ← Rd.U64 <!> ErrEpochMetrics;
         expired ← Rd.U64 <!> ErrEpochMetrics;
         backlog ← Rd.U64 <!> ErrEpochMetrics;
         computeUtilization ← Rd.U32 <!> ErrEpochMetrics;
         Rd.Done <!> ErrEpochMetrics;;
         let out := mkEpochAggregate epoch shardCount charged burned validators reserve operations used capacity
           utilization circulating velocity demand supply reliable opening fulfilled expired backlog
           computeUtilization in
         plift (EpochAggregate_CanonicalBytes out;; Ok tt);;
         plift (fail_if (negb (utilization =? ratioBps used capacity)) ErrEpochMetrics);;
         let expectedComputeUtilization := if negb (supply =? 0) then ratioBps fulfilled supply else 0 in
         plift (fail_if (negb (computeUtilization =? expectedComputeUtilization)) ErrEpochMetrics);;
         mret out) data.

Section epoch_hash.
Context `{Crypto}.

Definition ShardEpochMetrics_Hash (m : ShardEpochMetrics) : res bytes :=
  raw ← ShardEpochMetrics_CanonicalBytes m;
  Ok (DomainHash (str "zephyr/shard-economics/v2") raw).

Definition EpochAggregate_Hash (a : EpochAggregate) : res bytes :=
  raw ← EpochAggregate_CanonicalBytes a;
  Ok (DomainHash (str "zephyr/epoch-economics/v2") raw).
End epoch_hash.

(** ** The compute price index *)

(** Arrays [[WorkClassCount]T] are lists of twelve entries. *)
Record ComputeIndexConfig := mkComputeIndexConfig {
  ci_WeightsBps : list Z;
  ci_MinSamplesPerClass : Z;
  ci_MinCoverageBps : Z;
  ci_EWMABps : Z;
}.

Record ComputeIndexSnapshot := mkComputeIndexSnapshot {
  cs_Epoch : Z;
  cs_ClassPriceQ9 : list Z;
  cs_ClassSamples : list Z;
  cs_BasketPriceQ9 : Z;
  cs_CoverageBps : Z;
  cs_Reliable : bool;
  cs_TotalSamples : Z;
}.

Definition noClasses : list Z := replicate (Z.to_nat WorkClassCount) 0.
Definition emptyIndex (epoch : Z) : ComputeIndexSnapshot := mkComputeIndexSnapshot epoch noClasses noClasses 0 0 false 0.

(** [for class := WorkClass(1); class < WorkClassCount; class++] *)
Definition work_classes : list nat := seq 1 (Z.to_nat WorkClassCount - 1).

(** One observation: its price is appended to the slice of its class. *)
Definition collect_price (prices : list (list Z)) (observation : VerifiedWork) : res (list (list Z)) :=
  fail_if ((vw_Class observation <=? WorkUnknown) || (WorkClassCount <=? vw_Class observation)
           || (vw_Units observation =? 0) || (vw_PaidZPH observation =? 0)) ErrComputeIndex;;
  price ← scaledRatio (vw_PaidZPH observation) PriceScaleQ9 (vw_Units observation);
  Ok (alter (fun l => l ++ [price]) (Z.to_nat (vw_Class observation)) prices).

(** The running state of the loop over the classes: the snapshot, the basket
    and the weight of the classes with enough samples. *)
Definition index_class (cfg : ComputeIndexConfig) (prior : ComputeIndexSnapshot) (prices : list (list Z))
    (st : ComputeIndexSnapshot * Z * Z) (class : nat) : res (ComputeIndexSnapshot * Z * Z) :=
  let '(out, basket, activeWeight) := st in
  let classPrices := nth class prices [] in
  let samples := <[class := blen classPrices]> (cs_ClassSamples out) in
  let total := add64 (cs_TotalSamples out) (blen classPrices) in
  let counted price := mkComputeIndexSnapshot (cs_Epoch out) price samples (cs_BasketPriceQ9 out) (cs_CoverageBps out)
                         (cs_Reliable out) total in
  if (uint32 (blen classPrices) <? ci_MinSamplesPerClass cfg) || (nth class (ci_WeightsBps cfg) 0 =? 0)
  then Ok (counted (cs_ClassPriceQ9 out), basket, activeWeight)
  else
    let median := medianUint64 (sort_by (fun price : Z => price) classPrices) in
    current ← ewma (nth class (cs_ClassPriceQ9 prior) 0) median (ci_EWMABps cfg);
    let weight := nth class (ci_WeightsBps cfg) 0 in
    Ok (counted (<[class := current]> (cs_ClassPriceQ9 out)), basket + current * weight, add64 activeWeight weight).

Definition BuildComputeIndex (epoch : Z) (observations : list VerifiedWork) (prior : ComputeIndexSnapshot)
    (cfg : ComputeIndexConfig) : res ComputeIndexSnapshot :=
  fail_if ((epoch =? 0) || (ci_MinSamplesPerClass cfg =? 0) || (BasisPoints <? ci_MinCoverageBps cfg)
           || (BasisPoints <? ci_EWMABps cfg)) ErrComputeIndex;;
  let totalWeight := foldl (fun total class => add64 total (nth class (ci_WeightsBps cfg) 0)) 0 work_classes in
  fail_if (totalWeight =? 0) ErrComputeIndex;;
  prices ← rfold collect_price (replicate (Z.to_nat WorkClassCount) []) observations;
  '(out, basket, activeWeight) ← rfold (index_class cfg prior prices) (emptyIndex epoch, 0, 0) work_classes;
  if activeWeight =? 0 then Ok out
  else
    let basket := basket / activeWeight in
    fail_if (negb (IsUint64 basket)) ErrComputeIndex;;
    let coverage := mul64 activeWeight BasisPoints / totalWeight in
    let coverage := if BasisPoints <? coverage then BasisPoints else coverage in
    Ok (mkComputeIndexSnapshot epoch (cs_ClassPriceQ9 out) (cs_ClassSamples out) basket (uint32 coverage)
          (ci_MinCoverageBps cfg <=? uint32 coverage) (cs_TotalSamples out)).
