(* ===== verification/EconomicsCollector.v ===== *)
(** * EconomicsCollector

    Package [internal/v2/economics], [finalized_collector.go] with its clone
    and preview: the telemetry of an epoch, gathered from finalised blocks
    only.  The collector keeps, per shard, an accumulator and the circulating
    native supply, and the verified compute work of the epoch.

    The optional tracker of idle capital is another component: the collector
    calls it through the class [IdleCapital].

    Values are immutable here, so a clone is an independent copy, as the
    comment of [Clone] says it is. *)

From S2P Require Import Prelude GoLib Codec Crypto Types Object Sharding Tx Lending ComputeModel ComputeMarket ComputeWork.
From S2P Require Import Contracts Execution ExecutionExtended.
From S2P Require Import EconomicsPolicy EconomicsEpoch.

Open Scope Z_scope.

(** What the collector needs of [*IdleCapitalTracker]: the three lineages of a
    transaction, the import of a receipt, and the reset at an epoch. *)
Class IdleCapital := {
  Tracker : Type;
  ApplyFinalizedIdleCapitalTransfer :
    Tracker -> Z -> bytes -> Transaction -> Result -> list CrossShardReceipt -> res Tracker;
  ApplyFinalizedComputeCapitalLineage :
    Tracker -> Z -> bytes -> Transaction -> Result -> list CrossShardReceipt -> res Tracker;
  ApplyFinalizedCrossLendingCapitalLineage :
    Tracker -> Z -> bytes -> Transaction -> Result -> list CrossShardReceipt -> res Tracker;
  ApplyFinalizedIdleCapitalImport : Tracker -> bytes -> CrossShardReceipt -> res Tracker;
  ResetProductiveCoverage : Tracker -> res Tracker;
  tracker_empty : Tracker -> bool;
}.

(** Maps [map[uint32]T] read with their zero value. *)
Definition zget (m : gmap Z Z) (k : Z) : Z := default 0 (m !! k).

Record EpochCollectorConfig := mkCollectorConfig {
  cc_Epoch : Z;
  cc_ShardCount : Z;
  cc_NativeToken : bytes;
  cc_InitialCirculatingSupply : gmap Z Z;
  cc_OpeningComputeBacklog : gmap Z Z;
  cc_ResourceCapacityPerBlock : gmap Z Z;
  cc_VelocityPolicy : VelocityPolicy;
  cc_FeePolicy : FeePolicy;
  cc_WorkRegistry : option WorkRegistry;
}.

Record FinalizedShardObservation := mkObservation {
  ob_Transactions : list Transaction;
  ob_Results : list Result;
  ob_Imports : list CrossShardReceipt;
  ob_Exports : list CrossShardReceipt;
  ob_DataBytes : Z;
  ob_ComputeCapacityUnits : Z;
  ob_ComputeCapacityReliable : bool;
}.

Definition no_observation : FinalizedShardObservation := mkObservation [] [] [] [] 0 0 false.

Record shardEpochAccumulator := mkAccumulator {
  ac_fees : FeeAllocation;
  ac_operations : Z;
  ac_resourceUsed : Z;
  ac_resourceCapacity : Z;
  ac_openingBacklog : Z;
  ac_newDemand : Z;
  ac_fulfilled : Z;
  ac_expired : Z;
  ac_closingBacklog : Z;
  ac_computeSupply : Z;
  ac_computeSupplyReliable : bool;
  ac_velocity : VelocityAccumulator;
}.

Definition addTo (target value : Z) : res Z :=
  fail_if (overflows target value) ErrFinalizedEconomics;;
  Ok (add64 target value).

(** A fresh accumulator that starts from a backlog. *)
Definition opening_accumulator (backlog : Z) (velocity : VelocityAccumulator) : shardEpochAccumulator :=
  mkAccumulator (mkFeeAllocation 0 0 0 0) 0 0 0 backlog 0 0 0 backlog 0 true velocity.

(** [for shard := uint32(0); shard < count; shard++] *)
Definition shard_range (count : Z) : list Z := seqZ 0 count.

Section collector.
Context `{Crypto} `{MapOrder} `{ScriptHost} `{IdleCapital}.

Record EpochCollector := mkCollector {
  cl_config : EpochCollectorConfig;
  cl_shards : gmap Z shardEpochAccumulator;
  cl_supply : gmap Z Z;
  cl_verifiedWork : list VerifiedWork;
  cl_idleCapital : option Tracker;
  cl_lastHeight : Z;
}.

Definition set_shard (c : EpochCollector) (shard : Z) (acc : shardEpochAccumulator) : EpochCollector :=
  mkCollector (cl_config c) (<[shard := acc]> (cl_shards c)) (cl_supply c) (cl_verifiedWork c) (cl_idleCapital c)
    (cl_lastHeight c).
Definition set_supply (c : EpochCollector) (supply : gmap Z Z) : EpochCollector :=
  mkCollector (cl_config c) (cl_shards c) supply (cl_verifiedWork c) (cl_idleCapital c) (cl_lastHeight c).
Definition add_work (c : EpochCollector) (work : VerifiedWork) : EpochCollector :=
  mkCollector (cl_config c) (cl_shards c) (cl_supply c) (cl_verifiedWork c ++ [work]) (cl_idleCapital c)
    (cl_lastHeight c).
Definition set_tracker (c : EpochCollector) (tracker : option Tracker) : EpochCollector :=
  mkCollector (cl_config c) (cl_shards c) (cl_supply c) (cl_verifiedWork c) tracker (cl_lastHeight c).
Definition set_height (c : EpochCollector) (height : Z) : EpochCollector :=
  mkCollector (cl_config c) (cl_shards c) (cl_supply c) (cl_verifiedWork c) (cl_idleCapital c) height.

Definition FeePolicy_eqb (a b : FeePolicy) : bool :=
  (fp_BurnBps a =? fp_BurnBps b) && (fp_ValidatorBps a =? fp_ValidatorBps b) && (fp_ReserveBps a =? fp_ReserveBps b).

Definition open_shard (config : EpochCollectorConfig) (c : EpochCollector) (shard : Z) : res EpochCollector :=
  fail_if (zget (cc_ResourceCapacityPerBlock config) shard =? 0) ErrFinalizedEconomics;;
  velocity ← NewVelocityAccumulator (cc_VelocityPolicy config);
  let opening := zget (cc_OpeningComputeBacklog config) shard in
  let c := set_shard c shard (opening_accumulator opening velocity) in
  Ok (set_supply c (<[shard := zget (cc_InitialCirculatingSupply config) shard]> (cl_supply c))).

Definition NewEpochCollector (config : EpochCollectorConfig) : res EpochCollector :=
  fail_if ((cc_Epoch config =? 0) || (cc_ShardCount config =? 0) || IsZero32 (cc_NativeToken config)
           || negb (FeePolicy_eqb (cc_FeePolicy config) CompatibilityFeePolicy)) ErrFinalizedEconomics;;
  NewVelocityAccumulator (cc_VelocityPolicy config);;
  rfold (open_shard config) (mkCollector config ∅ ∅ [] None 0) (shard_range (cc_ShardCount config)).

Definition EnableIdleCapitalTracking (c : EpochCollector) (tracker : Tracker) : res EpochCollector :=
  fail_if (negb (cl_lastHeight c =? 0) || match cl_idleCapital c with Some _ => true | None => false end
           || negb (tracker_empty tracker)) ErrFinalizedEconomics;;
  Ok (set_tracker c (Some tracker)).

(** ** One transaction *)

Definition finalizedTransactionResourceUnits (t : Transaction) (result : Result) : res Z :=
  let units := add64 1 (add64 (blen (IntentBytes t)) 1023 / 1024) in
  rfold addTo units [blen (t_Inputs t); blen (Consumed result); blen (Created result); blen (Outbound result)].

Definition finalizedReceiptNativeValue (receipt : CrossShardReceipt) (nativeToken : bytes) : res (Z * bool) :=
  let kind := o_Kind (Output receipt) in
  let data := o_Data (Output receipt) in
  if kind =? KindCoin then
    coin ← ParseCoin data;
    if negb (bool_decide (Token coin = nativeToken)) then Ok (0, false) else Ok (Amount coin, true)
  else if kind =? KindCrossLoanOffer then
    message ← ParseCrossOffer data <?> ErrFinalizedEconomics;
    Ok (Principal (co_Terms message), true)
  else if kind =? KindCrossLoanAcceptance then
    message ← ParseCrossAcceptance data <?> ErrFinalizedEconomics;
    if Collateral (ca_Terms message) =? 0 then Ok (0, false) else Ok (Collateral (ca_Terms message), true)
  else if kind =? KindCrossLoanRepayment then
    message ← ParseCrossRepayment data <?> ErrFinalizedEconomics;
    Ok (cr_Amount message, true)
  else Ok (0, false).

Definition observeImportedReceipt (c : EpochCollector) (receipt : CrossShardReceipt) : res EpochCollector :=
  '(amount, carriesNative) ← finalizedReceiptNativeValue receipt (cc_NativeToken (cl_config c));
  if negb carriesNative then Ok c
  else
    let source := zget (cl_supply c) (SourceShard receipt) in
    let destination := zget (cl_supply c) (DestinationShard receipt) in
    fail_if ((source <? amount) || overflows destination amount) ErrFinalizedEconomics;;
    let supply := <[SourceShard receipt := sub64 source amount]> (cl_supply c) in
    Ok (set_supply c (<[DestinationShard receipt := add64 (zget supply (DestinationShard receipt)) amount]> supply)).

(** The record of the only job witness, if there is one. *)
Definition job_witness_step (found : option OnChainJob) (w : Witness) : res (option OnChainJob) :=
  if negb (Kind (w_Object w) =? KindComputeJob) then Ok found
  else
    fail_if (match found with Some _ => true | None => false end) ErrFinalizedEconomics;;
    parsed ← ParseOnChainJob (Data (w_Object w));
    Ok (Some parsed).

Definition computeJobWitness (t : Transaction) : res (option OnChainJob) := rfold job_witness_step None (t_Witnesses t).

Fixpoint settlementReceiptForJob (created : list Object) (jobID : bytes) : option SettlementReceipt :=
  match created with
  | [] => None
  | o :: created =>
      if negb (Kind o =? KindSystem) then settlementReceiptForJob created jobID
      else match ParseSettlementReceipt (Data o) with
           | Err _ => settlementReceiptForJob created jobID
           | Ok receipt =>
               if bool_decide (sr_JobID receipt = jobID) then Some receipt else settlementReceiptForJob created jobID
           end
  end.

(** [acc] is the accumulator the caller mutates. *)
Definition observeComputeLifecycle (c : EpochCollector) (t : Transaction) (result : Result)
    (acc : shardEpochAccumulator) : res (EpochCollector * shardEpochAccumulator) :=
  let flow demand fulfilled expired closing :=
    mkAccumulator (ac_fees acc) (ac_operations acc) (ac_resourceUsed acc) (ac_resourceCapacity acc)
      (ac_openingBacklog acc) demand fulfilled expired closing (ac_computeSupply acc) (ac_computeSupplyReliable acc)
      (ac_velocity acc) in
  match cc_WorkRegistry (cl_config c), t_Operations t with
  | Some registry, [op] =>
      if op_Kind op =? OpComputeJob then
        job ← ParseJob (op_Payload op);
        match Resolve registry (jb_WorkloadHash job) with
        | None => Ok (c, acc)
        | Some spec =>
            demand ← addTo (ac_newDemand acc) (ws_Units spec);
            closing ← addTo (ac_closingBacklog acc) (ws_Units spec);
            Ok (c, flow demand (ac_fulfilled acc) (ac_expired acc) closing)
        end
      else if (op_Kind op =? OpComputeFinalize) || (op_Kind op =? OpComputeResolveReplicated) then
        found ← computeJobWitness t <?> ErrFinalizedEconomics;
        record ← some_or found ErrFinalizedEconomics;
        match Resolve registry (jb_WorkloadHash (oj_Job record)) with
        | None => Ok (c, acc)
        | Some spec =>
            receipt ← some_or (settlementReceiptForJob (Created result) (oj_ID record)) ErrFinalizedEconomics;
            verified ← ObserveFinalizedSettlement record receipt registry <?> ErrFinalizedEconomics;
            fail_if (negb (vw_Units verified =? ws_Units spec)) ErrFinalizedEconomics;;
            fail_if (ac_closingBacklog acc <? ws_Units spec) ErrFinalizedEconomics;;
            fulfilled ← addTo (ac_fulfilled acc) (ws_Units spec);
            Ok (add_work c verified,
                flow (ac_newDemand acc) fulfilled (ac_expired acc) (sub64 (ac_closingBacklog acc) (ws_Units spec)))
        end
      else if op_Kind op =? OpComputeExpire then
        found ← computeJobWitness t <?> ErrFinalizedEconomics;
        record ← some_or found ErrFinalizedEconomics;
        match Resolve registry (jb_WorkloadHash (oj_Job record)) with
        | None => Ok (c, acc)
        | Some spec =>
            fail_if (ac_closingBacklog acc <? ws_Units spec) ErrFinalizedEconomics;;
            expired ← addTo (ac_expired acc) (ws_Units spec);
            Ok (c, flow (ac_newDemand acc) (ac_fulfilled acc) expired (sub64 (ac_closingBacklog acc) (ws_Units spec)))
        end
      else Ok (c, acc)
  | _, _ => Ok (c, acc)
  end.

(** The native coins the transaction spent, as seen by the velocity. *)
Definition observe_spend (nativeToken : bytes) (height : Z) (consumed : gset bytes) (v : VelocityAccumulator) (w : Witness)
    : res VelocityAccumulator :=
  if negb (bool_decide (ID (w_Object w) ∈ consumed)) || negb (Kind (w_Object w) =? KindCoin) then Ok v
  else
    coin ← ParseCoin (Data (w_Object w));
    if bool_decide (Token coin = nativeToken)
    then let '(v', err) := ObserveCoin v coin height in err;; Ok v'
    else Ok v.

Definition observeFinalizedTransaction (height shard : Z) (c : EpochCollector) (acc : shardEpochAccumulator)
    (t : Transaction) (result : Result) : res (EpochCollector * shardEpochAccumulator) :=
  allocation ← SplitFee (t_Fee t) (cc_FeePolicy (cl_config c)) <?> ErrFinalizedEconomics;
  fail_if (negb (fa_Validators allocation =? 0) || negb (fa_Reserve allocation =? 0)) ErrFinalizedEconomics;;
  total ← addTo (fa_Total (ac_fees acc)) (fa_Total allocation);
  burn ← addTo (fa_Burn (ac_fees acc)) (fa_Burn allocation);
  fail_if (zget (cl_supply c) shard <? fa_Burn allocation) ErrFinalizedEconomics;;
  let c := set_supply c (<[shard := sub64 (zget (cl_supply c) shard) (fa_Burn allocation)]> (cl_supply c)) in
  operations ← addTo (ac_operations acc) (blen (t_Operations t));
  units ← finalizedTransactionResourceUnits t result;
  used ← addTo (ac_resourceUsed acc) units;
  let consumed : gset bytes := list_to_set (Consumed result) in
  velocity ← rfold (observe_spend (cc_NativeToken (cl_config c)) height consumed) (ac_velocity acc) (t_Witnesses t);
  observeComputeLifecycle c t result
    (mkAccumulator (mkFeeAllocation total burn (fa_Validators (ac_fees acc)) (fa_Reserve (ac_fees acc))) operations used
       (ac_resourceCapacity acc) (ac_openingBacklog acc) (ac_newDemand acc) (ac_fulfilled acc) (ac_expired acc)
       (ac_closingBacklog acc) (ac_computeSupply acc) (ac_computeSupplyReliable acc) velocity).

(** ** One block *)

Definition finalizedReceiptsForTransaction (receipts : list CrossShardReceipt) (transactionID : bytes)
    : list CrossShardReceipt :=
  List.filter (fun receipt => bool_decide (TransactionID receipt = transactionID)) receipts.

(** The extra checks when idle capital is tracked. *)
Definition check_result_id (seen : gset bytes) (result : Result) : res (gset bytes) :=
  fail_if (IsZero32 (TxID result)) ErrFinalizedEconomics;;
  fail_if (bool_decide (TxID result ∈ seen)) ErrFinalizedEconomics;;
  Ok ({[TxID result]} ∪ seen).

Definition check_export (height shard count : Z) (resultIDs : gset bytes) (receipt : CrossShardReceipt) : res unit :=
  Receipt_Validate receipt <?> ErrFinalizedEconomics;;
  fail_if (negb (SourceShard receipt =? shard) || negb (SourceHeight receipt =? height)
           || (count <=? DestinationShard receipt) || (DestinationShard receipt =? shard)) ErrFinalizedEconomics;;
  fail_if (negb (bool_decide (TransactionID receipt ∈ resultIDs))) ErrFinalizedEconomics.

Definition check_tracked (c : EpochCollector) (height shard : Z) (ob : FinalizedShardObservation) : res unit :=
  match cl_idleCapital c with
  | None => Ok tt
  | Some _ =>
      resultIDs ← rfold check_result_id ∅ (ob_Results ob);
      rfold (fun _ => check_export height shard (cc_ShardCount (cl_config c)) resultIDs) tt (ob_Exports ob)
  end.

Definition track_transaction (height : Z) (exports : list CrossShardReceipt) (t : Transaction) (result : Result)
    (c : EpochCollector) : res EpochCollector :=
  match cl_idleCapital c with
  | None => Ok c
  | Some tracker =>
      let native := cc_NativeToken (cl_config c) in
      let exports := finalizedReceiptsForTransaction exports (TxID result) in
      tracker ← ApplyFinalizedIdleCapitalTransfer tracker height native t result exports;
      tracker ← ApplyFinalizedComputeCapitalLineage tracker height native t result exports;
      tracker ← ApplyFinalizedCrossLendingCapitalLineage tracker height native t result exports;
      Ok (set_tracker c (Some tracker))
  end.

Definition observe_transaction (height shard : Z) (exports : list CrossShardReceipt)
    (st : EpochCollector * shardEpochAccumulator) (pair : Transaction * Result)
    : res (EpochCollector * shardEpochAccumulator) :=
  let '(c, acc) := st in
  let '(t, result) := pair in
  fail_if (negb (t_ShardID t =? shard) || negb (bool_decide (TxID result = tx_ID t))) ErrFinalizedEconomics;;
  '(c, acc) ← observeFinalizedTransaction height shard c acc t result;
  c ← track_transaction height exports t result c;
  Ok (c, acc).

(** An imported receipt counts as one operation of two resource units. *)
Definition observe_import (shard : Z) (st : EpochCollector * shardEpochAccumulator) (receipt : CrossShardReceipt)
    : res (EpochCollector * shardEpochAccumulator) :=
  let '(c, acc) := st in
  fail_if (negb (DestinationShard receipt =? shard) || (cc_ShardCount (cl_config c) <=? SourceShard receipt)
           || (SourceShard receipt =? DestinationShard receipt)) ErrFinalizedEconomics;;
  c ← observeImportedReceipt c receipt;
  c ← match cl_idleCapital c with
      | None => Ok c
      | Some tracker =>
          tracker ← ApplyFinalizedIdleCapitalImport tracker (cc_NativeToken (cl_config c)) receipt;
          Ok (set_tracker c (Some tracker))
      end;
  operations ← addTo (ac_operations acc) 1;
  used ← addTo (ac_resourceUsed acc) 2;
  Ok (c, mkAccumulator (ac_fees acc) operations used (ac_resourceCapacity acc) (ac_openingBacklog acc) (ac_newDemand acc)
           (ac_fulfilled acc) (ac_expired acc) (ac_closingBacklog acc) (ac_computeSupply acc)
           (ac_computeSupplyReliable acc) (ac_velocity acc)).

Definition data_units (bytes : Z) : res Z :=
  if 0 <? bytes then
    fail_if (sub64 MaxUint64 1023 <? bytes) ErrFinalizedEconomics;;
    Ok (add64 bytes 1023 / 1024)
  else Ok 0.

(** The accumulator of a shard; [NewEpochCollector] made one for every shard. *)
Definition shard_accumulator (c : EpochCollector) (shard : Z) : shardEpochAccumulator :=
  default (opening_accumulator 0 (mkVelocityAccumulator (cc_VelocityPolicy (cl_config c)) 0 0 0 0 0)) (cl_shards c !! shard).

Definition observe_shard (height : Z) (observations : gmap Z FinalizedShardObservation) (c : EpochCollector) (shard : Z)
    : res EpochCollector :=
  let ob := default no_observation (observations !! shard) in
  fail_if (negb (blen (ob_Transactions ob) =? blen (ob_Results ob))) ErrFinalizedEconomics;;
  check_tracked c height shard ob;;
  let acc := shard_accumulator c shard in
  capacity ← addTo (ac_resourceCapacity acc) (zget (cc_ResourceCapacityPerBlock (cl_config c)) shard);
  supply ← addTo (ac_computeSupply acc) (ob_ComputeCapacityUnits ob);
  let acc := mkAccumulator (ac_fees acc) (ac_operations acc) (ac_resourceUsed acc) capacity (ac_openingBacklog acc)
    (ac_newDemand acc) (ac_fulfilled acc) (ac_expired acc) (ac_closingBacklog acc) supply
    (ac_computeSupplyReliable acc && ob_ComputeCapacityReliable ob) (ac_velocity acc) in
  st ← rfold (observe_transaction height shard (ob_Exports ob)) (c, acc) (zip (ob_Transactions ob) (ob_Results ob));
  '(c, acc) ← rfold (observe_import shard) st (ob_Imports ob);
  dataUnits ← data_units (ob_DataBytes ob);
  used ← addTo (ac_resourceUsed acc) dataUnits;
  fail_if (ac_resourceCapacity acc <? used) ErrFinalizedEconomics;;
  Ok (set_shard c shard (mkAccumulator (ac_fees acc) (ac_operations acc) used (ac_resourceCapacity acc)
        (ac_openingBacklog acc) (ac_newDemand acc) (ac_fulfilled acc) (ac_expired acc) (ac_closingBacklog acc)
        (ac_computeSupply acc) (ac_computeSupplyReliable acc) (ac_velocity acc))).

Definition observeFinalizedBlock (c : EpochCollector) (height : Z) (observations : gmap Z FinalizedShardObservation)
    : res EpochCollector :=
  fail_if ((height =? 0) || (height <=? cl_lastHeight c)) ErrFinalizedEconomics;;
  c ← rfold (observe_shard height observations) c (shard_range (cc_ShardCount (cl_config c)));
  Ok (set_height c height).

(** [ObserveFinalizedBlock] and [PreviewFinalizedBlock] work on a clone: the
    receiver is replaced by the result, respectively left alone. *)
Definition PreviewFinalizedBlock (c : EpochCollector) (height : Z) (observations : gmap Z FinalizedShardObservation)
    : res EpochCollector := observeFinalizedBlock c height observations.

(** ** The end of an epoch *)

Definition shard_metrics (c : EpochCollector) (shard : Z) : res ShardEpochMetrics :=
  let acc := shard_accumulator c shard in
  let supply := zget (cl_supply c) shard in
  velocity ← (if 0 <? supply then vs_AgeWeightedVelocityBps <$> Velocity_Finalize (ac_velocity acc) supply else Ok 0);
  let metric := mkShardEpochMetrics EpochMetricsVersion (cc_Epoch (cl_config c)) shard (fa_Total (ac_fees acc))
    (fa_Burn (ac_fees acc)) (fa_Validators (ac_fees acc)) (fa_Reserve (ac_fees acc)) (ac_operations acc)
    (ac_resourceUsed acc) (ac_resourceCapacity acc) supply velocity (ac_newDemand acc) (ac_computeSupply acc)
    (ac_computeSupplyReliable acc) (ac_openingBacklog acc) (ac_fulfilled acc) (ac_expired acc)
    (ac_closingBacklog acc) in
  ShardEpochMetrics_Validate metric;;
  Ok metric.

Definition FinalizeEpoch (c : EpochCollector) : res (list ShardEpochMetrics * list VerifiedWork) :=
  metrics ← rfold (fun metrics shard => metric ← shard_metrics c shard; Ok (metrics ++ [metric])) []
              (shard_range (cc_ShardCount (cl_config c)));
  Ok (metrics, cl_verifiedWork c).

Definition set_epoch (config : EpochCollectorConfig) (epoch : Z) : EpochCollectorConfig :=
  mkCollectorConfig epoch (cc_ShardCount config) (cc_NativeToken config) (cc_InitialCirculatingSupply config)
    (cc_OpeningComputeBacklog config) (cc_ResourceCapacityPerBlock config) (cc_VelocityPolicy config)
    (cc_FeePolicy config) (cc_WorkRegistry config).

Definition advance_shard (c : EpochCollector) (shard : Z) : res EpochCollector :=
  velocity ← NewVelocityAccumulator (cc_VelocityPolicy (cl_config c));
  Ok (set_shard c shard (opening_accumulator (ac_closingBacklog (shard_accumulator c shard)) velocity)).

Definition AdvanceEpoch (c : EpochCollector) (next : Z) : res EpochCollector :=
  fail_if (negb (next =? add64 (cc_Epoch (cl_config c)) 1)) ErrFinalizedEconomics;;
  tracker ← match cl_idleCapital c with
            | None => Ok None
            | Some tracker => tracker ← ResetProductiveCoverage tracker; Ok (Some tracker)
            end;
  let c := mkCollector (set_epoch (cl_config c) next) (cl_shards c) (cl_supply c) [] tracker (cl_lastHeight c) in
  rfold advance_shard c (shard_range (cc_ShardCount (cl_config c))).

Definition CirculatingSupply (c : EpochCollector) (shard : Z) : option Z :=
  if cc_ShardCount (cl_config c) <=? shard then None else Some (zget (cl_supply c) shard).
End collector.
