(* ===== verification/EconomicsEngine.v ===== *)
(** * EconomicsEngine

    Package [internal/v2/economics], the monetary controller over epochs: the
    authenticated epoch state ([monetary_state.go]), its object transition
    ([monetary_transition.go]) and the engine that previews the close of an
    epoch and accepts a finalised preview ([shadow_epoch_engine.go],
    [shadow_epoch_engine_clone.go]). *)

From S2P Require Import Prelude GoLib Codec Crypto Types Object ComputeWork EconomicsPolicy EconomicsEpoch.

Open Scope Z_scope.

Definition MonetaryEpochStateVersion : Z := 1.

Record MonetaryEpochState := mkMonetaryEpochState {
  ms_Version : Z;
  ms_Network : bytes;
  ms_Epoch : Z;
  ms_Shadow : bool;
  ms_TotalSupply : Z;
  ms_CirculatingSupply : Z;
  ms_StakedSupply : Z;
  ms_ProtocolReserve : Z;
  ms_ZAMPBaseTargetBps : Z;
  ms_SuggestedTargetBps : Z;
  ms_BaseFee : Z;
  ms_AggregateHash : bytes;
  ms_ComputeIndexQ9 : Z;
  ms_ComputeIndexReliable : bool;
  ms_ComputeScarcityMagnitudeBps : Z;
  ms_ComputeScarcityNegative : bool;
  ms_ComputeScarcityReliable : bool;
  ms_FeedbackMode : Z;
  ms_ShadowGrossMintTarget : Z;
  ms_ShadowComputeIncentiveMint : Z;
  ms_InflationCorrectionMagnitudeBps : Z;
  ms_InflationCorrectionNegative : bool;
  ms_PreviousStateHash : bytes;
}.

#[global] Instance MonetaryEpochState_eq_dec : EqDecision MonetaryEpochState.
Proof. solve_decision. Defined.

Definition MonetaryEpochState_Validate (s : MonetaryEpochState) : res unit :=
  fail_if (negb (ms_Version s =? MonetaryEpochStateVersion) || IsZero32 (ms_Network s) || (ms_Epoch s =? 0)
           || negb (ms_Shadow s) || (ms_TotalSupply s =? 0) || (ms_CirculatingSupply s =? 0)
           || (ms_TotalSupply s <? ms_CirculatingSupply s) || (ms_CirculatingSupply s <? ms_StakedSupply s)
           || (ms_TotalSupply s <? ms_ProtocolReserve s) || (BasisPoints <? ms_ZAMPBaseTargetBps s)
           || (BasisPoints <? ms_SuggestedTargetBps s) || IsZero32 (ms_AggregateHash s)
           || (BasisPoints <? ms_ComputeScarcityMagnitudeBps s) || (ComputeFeedbackMonetaryBand <? ms_FeedbackMode s)
           || (BasisPoints <? ms_InflationCorrectionMagnitudeBps s)) ErrMonetaryState.

Definition MonetaryEpochState_CanonicalBytes (s : MonetaryEpochState) : res bytes :=
  MonetaryEpochState_Validate s;;
  Ok (Writer.BytesCopy (Writer.new |> Writer.U16 (ms_Version s) |> Writer.Fixed (ms_Network s)
    |> Writer.U64 (ms_Epoch s) |> Writer.Bool (ms_Shadow s) |> Writer.U64 (ms_TotalSupply s)
    |> Writer.U64 (ms_CirculatingSupply s) |> Writer.U64 (ms_StakedSupply s) |> Writer.U64 (ms_ProtocolReserve s)
    |> Writer.U32 (ms_ZAMPBaseTargetBps s) |> Writer.U32 (ms_SuggestedTargetBps s) |> Writer.U64 (ms_BaseFee s)
    |> Writer.Fixed (ms_AggregateHash s) |> Writer.U64 (ms_ComputeIndexQ9 s) |> Writer.Bool (ms_ComputeIndexReliable s)
    |> Writer.U32 (ms_ComputeScarcityMagnitudeBps s) |> Writer.Bool (ms_ComputeScarcityNegative s)
    |> Writer.Bool (ms_ComputeScarcityReliable s) |> Writer.U8 (ms_FeedbackMode s)
    |> Writer.U64 (ms_ShadowGrossMintTarget s) |> Writer.U64 (ms_ShadowComputeIncentiveMint s)
    |> Writer.U32 (ms_InflationCorrectionMagnitudeBps s) |> Writer.Bool (ms_InflationCorrectionNegative s)
    |> Writer.Fixed (ms_PreviousStateHash s))).

Definition ParseMonetaryEpochState (data : bytes) : res MonetaryEpochState :=
  parse (version ← Rd.U16 <!> ErrMonetaryState;
         network ← Rd.Fixed 32 <!> ErrMonetaryState;
         epoch ← Rd.U64 <!> ErrMonetaryState;
         shadow ← Rd.Bool <!> ErrMonetaryState;
         totalSupply ← Rd.U64 <!> ErrMonetaryState;
         circulating ← Rd.U64 <!> ErrMonetaryState;
         staked ← Rd.U64 <!> ErrMonetaryState;
         reserve ← Rd.U64 <!> ErrMonetaryState;
         baseTarget ← Rd.U32 <!> ErrMonetaryState;
         suggestedTarget ← Rd.U32 <!> ErrMonetaryState;
         baseFee ← Rd.U64 <!> ErrMonetaryState;
         aggregate ← Rd.Fixed 32 <!> ErrMonetaryState;
         computeIndex ← Rd.U64 <!> ErrMonetaryState;
         computeIndexReliable ← Rd.Bool <!> ErrMonetaryState;
         scarcityMagnitude ← Rd.U32 <!> ErrMonetaryState;
         scarcityNegative ← Rd.Bool <!> ErrMonetaryState;
         scarcityReliable ← Rd.Bool <!> ErrMonetaryState;
         mode ← Rd.U8 <!> ErrMonetaryState;
         grossMint ← Rd.U64 <!> ErrMonetaryState;
         computeMint ← Rd.U64 <!> ErrMonetaryState;
         correctionMagnitude ← Rd.U32 <!> ErrMonetaryState;
         correctionNegative ← Rd.Bool <!> ErrMonetaryState;
         previous ← Rd.Fixed 32 <!> ErrMonetaryState;
         Rd.Done <!> ErrMonetaryState;;
         let out := mkMonetaryEpochState MonetaryEpochStateVersion network epoch shadow totalSupply circulating staked
           reserve baseTarget suggestedTarget baseFee aggregate computeIndex computeIndexReliable scarcityMagnitude
           scarcityNegative scarcityReliable mode grossMint computeMint correctionMagnitude correctionNegative
           previous in
         plift (fail_if (negb (version =? MonetaryEpochStateVersion)) ErrMonetaryState);;
         plift (MonetaryEpochState_Validate out <?> ErrMonetaryState);;
         mret out) data.

Definition signedMagnitude (value : Z) : Z * bool :=
  if value <? 0 then (uint32 (- value), true) else (uint32 value, false).

Section engine.
Context `{Crypto}.

Definition MonetaryEpochState_Hash (s : MonetaryEpochState) : res bytes :=
  raw ← MonetaryEpochState_CanonicalBytes s;
  Ok (DomainHash (str "zephyr/monetary-epoch-state/v2") raw).

(** The identifier of the object on shard 0: the first four bytes are zero. *)
Definition MonetaryStateObjectID (network : bytes) : bytes :=
  let w := Writer.new |> Writer.Fixed network |> Writer.String (str "monetary-epoch") in
  let hash := DomainHash (str "zephyr/system-object-id/v2") (Writer.BytesCopy w) in
  be 4 0 ++ skipn 4 hash.

Definition MonetaryEpochState_Object (s : MonetaryEpochState) : res Object :=
  raw ← MonetaryEpochState_CanonicalBytes s;
  Ok (mkObject (MonetaryStateObjectID (ms_Network s)) (ms_Epoch s) zero32 KindSystem raw).

Definition BuildShadowMonetaryEpochState (network : bytes) (previous : option MonetaryEpochState)
    (aggregate : EpochAggregate) (totalSupply stakedSupply protocolReserve computeIndexQ9 computePriceTrendBps : Z)
    (computeIndexReliable : bool) (scarcity : ComputeScarcitySnapshot) (monetaryPolicy : MonetaryPolicy)
    (feedbackPolicy : ComputeFeedbackPolicy) (baseFee : Z)
    : res (MonetaryEpochState * MonetaryDecision * ComputeFeedbackDecision) :=
  fail_if (IsZero32 network || negb (ss_Epoch scarcity =? ea_Epoch aggregate)) ErrMonetaryState;;
  aggregateHash ← EpochAggregate_Hash aggregate;
  metrics ← Aggregate_MonetaryMetrics aggregate totalSupply stakedSupply protocolReserve computeIndexQ9
              computePriceTrendBps computeIndexReliable;
  '(priorTarget, previousHash) ←
    match previous with
    | None => Ok (mp_TargetInflationBps monetaryPolicy, zero32)
    | Some previous =>
        fail_if (negb (bool_decide (ms_Network previous = network))
                 || negb (add64 (ms_Epoch previous) 1 =? ea_Epoch aggregate)
                 || negb (is_ok (MonetaryEpochState_Validate previous))) ErrMonetaryState;;
        previousHash ← MonetaryEpochState_Hash previous;
        Ok (ms_ZAMPBaseTargetBps previous, previousHash)
    end;
  monetaryDecision ← EvaluateShadow priorTarget metrics monetaryPolicy;
  feedback ← EvaluateComputeFeedback monetaryDecision metrics monetaryPolicy scarcity feedbackPolicy;
  let '(scarcityMagnitude, scarcityNegative) := signedMagnitude (ss_ScoreBps scarcity) in
  let '(correctionMagnitude, correctionNegative) := signedMagnitude (cd_InflationCorrectionBps feedback) in
  let state := mkMonetaryEpochState MonetaryEpochStateVersion network (ea_Epoch aggregate) true totalSupply
    (ea_CirculatingNativeSupply aggregate) stakedSupply protocolReserve (md_TargetInflationBps monetaryDecision)
    (cd_SuggestedTargetInflationBps feedback) baseFee aggregateHash computeIndexQ9 computeIndexReliable
    scarcityMagnitude scarcityNegative (ss_Reliable scarcity) (cf_Mode feedbackPolicy) (cd_SuggestedGrossMint feedback)
    (cd_SuggestedComputeIncentiveMint feedback) correctionMagnitude correctionNegative previousHash in
  MonetaryEpochState_Validate state;;
  Ok (state, monetaryDecision, feedback).

(** The consumed identifiers and the created objects of a transition. *)
Definition ShadowMonetaryTransition (previous : option Object) (next : MonetaryEpochState)
    : res (list bytes * list Object) :=
  MonetaryEpochState_Validate next;;
  nextObject ← MonetaryEpochState_Object next;
  match previous with
  | None =>
      fail_if (negb (ms_Epoch next =? 1) || negb (IsZero32 (ms_PreviousStateHash next))) ErrMonetaryState;;
      Ok ([], [nextObject])
  | Some previous =>
      fail_if (negb (bool_decide (ID previous = ID nextObject)) || negb (Kind previous =? KindSystem)) ErrMonetaryState;;
      priorState ← ParseMonetaryEpochState (Data previous) <?> ErrMonetaryState;
      fail_if (negb (bool_decide (ms_Network priorState = ms_Network next))
               || negb (add64 (ms_Epoch priorState) 1 =? ms_Epoch next)
               || negb (Version previous =? ms_Epoch priorState)) ErrMonetaryState;;
      priorHash ← MonetaryEpochState_Hash priorState <?> ErrMonetaryState;
      fail_if (negb (bool_decide (ms_PreviousStateHash next = priorHash))) ErrMonetaryState;;
      Ok ([ID previous], [nextObject])
  end.

(** ** The engine *)

Record ShadowEpochEngineConfig := mkEngineConfig {
  ec_ComputeIndex : ComputeIndexConfig;
  ec_ComputeScarcity : ComputeScarcityConfig;
  ec_Monetary : MonetaryPolicy;
  ec_ComputeFeedback : ComputeFeedbackPolicy;
}.

Record MonetaryBalanceSnapshot := mkBalances {
  mb_TotalSupply : Z;
  mb_StakedSupply : Z;
  mb_ProtocolReserve : Z;
  mb_BaseFee : Z;
}.

Record ShadowEpochPreview := mkPreview {
  pv_Aggregate : EpochAggregate;
  pv_ComputeIndex : ComputeIndexSnapshot;
  pv_ComputePriceTrendBps : Z;
  pv_ComputeScarcity : ComputeScarcitySnapshot;
  pv_MonetaryDecision : MonetaryDecision;
  pv_ComputeFeedback : ComputeFeedbackDecision;
  pv_State : MonetaryEpochState;
  pv_Consumed : list bytes;
  pv_Created : list Object;
}.

Record ShadowEpochEngine := mkEngine {
  en_Network : bytes;
  en_config : ShadowEpochEngineConfig;
  en_priorIndex : ComputeIndexSnapshot;
  en_previous : option MonetaryEpochState;
}.

Definition NewShadowEpochEngine (network : bytes) (config : ShadowEpochEngineConfig) : res ShadowEpochEngine :=
  fail_if (IsZero32 network || (mp_EpochsPerYear (ec_Monetary config) =? 0)
           || (mp_OperationsTarget (ec_Monetary config) =? 0) || (sc_MaxAbsScoreBps (ec_ComputeScarcity config) =? 0)
           || (ComputeFeedbackMonetaryBand <? cf_Mode (ec_ComputeFeedback config))) ErrShadowEpochEngine;;
  Ok (mkEngine network config (emptyIndex 0) None).

Definition PreviewCloseEpoch (e : ShadowEpochEngine) (metrics : list ShardEpochMetrics)
    (verifiedWork : list VerifiedWork) (balances : MonetaryBalanceSnapshot) : res ShadowEpochPreview :=
  aggregate ← AggregateEpochMetrics metrics;
  fail_if (match en_previous e with
           | None => negb (ea_Epoch aggregate =? 1)
           | Some previous => negb (ea_Epoch aggregate =? add64 (ms_Epoch previous) 1)
           end) ErrShadowEpochEngine;;
  index ← BuildComputeIndex (ea_Epoch aggregate) verifiedWork (en_priorIndex e) (ec_ComputeIndex (en_config e));
  let trend := ComputePriceTrendBps (cs_BasketPriceQ9 index) (cs_BasketPriceQ9 (en_priorIndex e)) in
  scarcity ← BuildComputeScarcity (ea_Epoch aggregate)
               (Aggregate_ComputeMarketMetrics aggregate trend (cs_Reliable index)) (ec_ComputeScarcity (en_config e));
  '(state, monetary, feedback) ←
    BuildShadowMonetaryEpochState (en_Network e) (en_previous e) aggregate (mb_TotalSupply balances)
      (mb_StakedSupply balances) (mb_ProtocolReserve balances) (cs_BasketPriceQ9 index) trend (cs_Reliable index)
      scarcity (ec_Monetary (en_config e)) (ec_ComputeFeedback (en_config e)) (mb_BaseFee balances);
  previousObject ← match en_previous e with
                   | None => Ok None
                   | Some previous => prior ← MonetaryEpochState_Object previous; Ok (Some prior)
                   end;
  '(consumed, created) ← ShadowMonetaryTransition previousObject state;
  Ok (mkPreview aggregate index trend scarcity monetary feedback state consumed created).

Definition Accept (e : ShadowEpochEngine) (preview : ShadowEpochPreview) : res ShadowEpochEngine :=
  let state := pv_State preview in
  fail_if (negb (bool_decide (ms_Network state = en_Network e))
           || negb (ms_Epoch state =? ea_Epoch (pv_Aggregate preview))
           || negb (cs_Epoch (pv_ComputeIndex preview) =? ms_Epoch state)
           || negb (ss_Epoch (pv_ComputeScarcity preview) =? ms_Epoch state)
           || negb (is_ok (MonetaryEpochState_Validate state))) ErrShadowEpochEngine;;
  match en_previous e with
  | None => fail_if (negb (ms_Epoch state =? 1) || negb (IsZero32 (ms_PreviousStateHash state))) ErrShadowEpochEngine
  | Some previous =>
      fail_if (negb (ms_Epoch state =? add64 (ms_Epoch previous) 1)) ErrShadowEpochEngine;;
      priorHash ← MonetaryEpochState_Hash previous <?> ErrShadowEpochEngine;
      fail_if (negb (bool_decide (ms_PreviousStateHash state = priorHash))) ErrShadowEpochEngine
  end;;
  aggregateHash ← EpochAggregate_Hash (pv_Aggregate preview) <?> ErrShadowEpochEngine;
  fail_if (negb (bool_decide (aggregateHash = ms_AggregateHash state))) ErrShadowEpochEngine;;
  fail_if (negb (ms_ComputeIndexQ9 state =? cs_BasketPriceQ9 (pv_ComputeIndex preview))
           || negb (Bool.eqb (ms_ComputeIndexReliable state) (cs_Reliable (pv_ComputeIndex preview)))) ErrShadowEpochEngine;;
  Ok (mkEngine (en_Network e) (en_config e) (pv_ComputeIndex preview) (Some state)).

Definition PreviousState (e : ShadowEpochEngine) : option MonetaryEpochState := en_previous e.
Definition PriorComputeIndex (e : ShadowEpochEngine) : ComputeIndexSnapshot := en_priorIndex e.
End engine.
