(* ===== verification/EconomicsProofs.v ===== *)
(** * EconomicsProofs

    The controllers of the economics package: fees are split without loss, the
    base fee stays in its band, the aggregate does not depend on the order of
    the shards, and over any history of accepted epochs the inflation target
    stays in the band of the policy and moves by bounded steps. *)

From S2P Require Import Prelude GoLib Codec Crypto Types Object ComputeWork EconomicsPolicy EconomicsEpoch EconomicsEngine.

Open Scope Z_scope.

(** ** Arithmetic *)

Lemma to_uint64_Ok v e w : to_uint64 v e = Ok w <-> w = v /\ u64 v.
Proof.
  unfold to_uint64, fail_if. destruct (IsUint64 v) eqn:E; cbn.
  - apply IsUint64_spec in E. split; [by intros [= ->]|by intros [-> _]].
  - split; [done|]. intros [_ Hu%IsUint64_spec]. congruence.
Qed.

(** A share in basis points of a [uint64]: the division is the floor and the
    result is at most the value. *)
Lemma quot_floor a b : 0 <= a -> 0 < b -> Z.quot a b = a / b.
Proof. intros. by apply Z.quot_div_nonneg. Qed.

Lemma shareBps_eq value bps : u64 value -> 0 <= bps <= BasisPoints ->
  shareBps value bps = Ok (value * bps / BasisPoints) /\ 0 <= value * bps / BasisPoints <= value.
Proof.
  unfold u64, BasisPoints. intros Hv Hb.
  assert (0 <= value * bps / 10000 <= value) as Hr.
  { split; [apply Z.div_pos; nia|]. apply Z.div_le_upper_bound; nia. }
  split; [|done]. apply to_uint64_Ok. unfold BasisPoints. rewrite quot_floor by nia. split; [done|]. unfold u64. lia.
Qed.

Lemma ratioBps_range value total : 0 <= value -> 0 <= total -> 0 <= ratioBps value total <= BasisPoints.
Proof.
  intros Hv Ht. unfold ratioBps, BasisPoints. destruct (Z.eqb_spec total 0) as [|Hn]; [lia|].
  rewrite quot_floor by nia. destruct (Z.ltb_spec 10000 (value * 10000 / total)); [lia|].
  assert (0 <= value * 10000 / total) by (apply Z.div_pos; nia). rewrite uint32_small; lia.
Qed.

Lemma activityBps_range value target : 0 <= value -> 0 <= target -> 0 <= activityBps value target <= 2 * BasisPoints.
Proof.
  intros Hv Ht. unfold activityBps, BasisPoints. destruct (Z.eqb_spec target 0) as [|Hn]; [lia|].
  rewrite quot_floor by nia. destruct (Z.ltb_spec (2 * 10000) (value * 10000 / target)); [lia|].
  assert (0 <= value * 10000 / target) by (apply Z.div_pos; nia). rewrite uint32_small; lia.
Qed.

Lemma quot_abs_le a b m : 0 < b -> Z.abs a <= m * b -> Z.abs (Z.quot a b) <= m.
Proof.
  intros Hb Ha. rewrite <-Z.quot_abs by lia. rewrite (Z.abs_eq b) by lia. rewrite quot_floor by lia.
  apply Z.div_le_upper_bound; lia.
Qed.

Lemma weightedGap_range target actual weight :
  0 <= target <= 2 * BasisPoints -> 0 <= actual <= 2 * BasisPoints -> 0 <= weight <= BasisPoints ->
  Z.abs (weightedGap target actual weight) <= 2 * BasisPoints.
Proof.
  unfold BasisPoints. intros Ht Ha Hw. unfold weightedGap, BasisPoints.
  rewrite (int64_small (target - actual)) by lia. rewrite (int64_small ((target - actual) * weight)) by nia.
  assert (Z.abs (Z.quot ((target - actual) * weight) 10000) <= 20000) as Hq.
  { apply quot_abs_le; [lia|]. rewrite Z.abs_mul, (Z.abs_eq weight) by lia. nia. }
  rewrite int64_small by lia. lia.
Qed.

Lemma clampTarget_range target minimum maximum :
  0 <= minimum -> minimum <= maximum < 2 ^ 32 -> minimum <= clampTarget target minimum maximum <= maximum.
Proof.
  intros. unfold clampTarget. destruct (Z.ltb_spec target minimum); [lia|].
  destruct (Z.ltb_spec maximum target); [lia|]. rewrite uint32_small; lia.
Qed.

Lemma rateLimitTarget_range prior next step minimum maximum :
  0 <= minimum -> maximum < 2 ^ 32 -> 0 <= step < 2 ^ 32 -> minimum <= prior <= maximum -> minimum <= next <= maximum ->
  minimum <= rateLimitTarget prior next step <= maximum /\ Z.abs (rateLimitTarget prior next step - prior) <= step.
Proof.
  intros. unfold rateLimitTarget. destruct (Z.eqb_spec step 0); cbn [orb]; [lia|].
  destruct (Z.eqb_spec prior next); [lia|]. unfold sub32, add32.
  destruct (Z.ltb_spec prior next).
  - rewrite (Z.mod_small (next - prior)) by lia. destruct (Z.ltb_spec step (next - prior)); [|lia].
    rewrite Z.mod_small; lia.
  - rewrite (Z.mod_small (prior - next)) by lia. destruct (Z.ltb_spec step (prior - next)); [|lia].
    rewrite Z.mod_small; lia.
Qed.

Lemma epochIssuance_Ok supply target epochs net :
  u64 supply -> 0 <= target <= BasisPoints -> 0 < epochs -> epochIssuance supply target epochs = Ok net ->
  net = supply * target / BasisPoints / epochs /\ 0 <= net <= supply * target / BasisPoints.
Proof.
  unfold u64, BasisPoints. intros Hs Ht He E. apply to_uint64_Ok in E as [-> Hu]. unfold BasisPoints.
  assert (0 <= supply * target / 10000) by (apply Z.div_pos; nia).
  rewrite !quot_floor by (rewrite ?quot_floor; nia). split; [done|].
  split; [apply Z.div_pos; lia|]. apply Z.div_le_upper_bound; nia.
Qed.

(** Remove the truncations of [int64] arithmetic, innermost first, where the
    context bounds the value. *)
Ltac int64_norm :=
  repeat match goal with
  | |- context [int64 ?x] =>
      lazymatch x with context [int64 _] => fail | _ => rewrite (int64_small x) by lia end
  end.

(** ** Fees *)

(** A fee is split without loss: for every [uint64] fee and every valid
    policy the three shares are computed without error, each is at most its
    basis points and they add up to the fee exactly; the remainder of the
    divisions goes to the burn. *)
Theorem SplitFee_conserves (fee : Z) (policy : FeePolicy) :
  u64 fee -> u32 (fp_BurnBps policy) -> u32 (fp_ValidatorBps policy) -> u32 (fp_ReserveBps policy) ->
  FeePolicy_Validate policy = Ok tt ->
  exists a, SplitFee fee policy = Ok a /\ fa_Total a = fee /\
    fa_Burn a + fa_Validators a + fa_Reserve a = fee /\
    fa_Validators a = fee * fp_ValidatorBps policy / BasisPoints /\
    fa_Reserve a = fee * fp_ReserveBps policy / BasisPoints /\
    fee * fp_BurnBps policy / BasisPoints <= fa_Burn a <= fee * fp_BurnBps policy / BasisPoints + 2.
Proof.
  intros Hf Hb Hv Hr Hp. pose proof Hp as Hp'. unfold FeePolicy_Validate in Hp'. res_inv. bool_inv.
  unfold u32, u64, add64 in *. rewrite !Z.mod_small in * by (rewrite ?Z.mod_small; lia).
  destruct (shareBps_eq fee (fp_ValidatorBps policy)) as [Ev Rv]; [done|unfold BasisPoints in *; lia|].
  destruct (shareBps_eq fee (fp_ReserveBps policy)) as [Er Rr]; [done|unfold BasisPoints in *; lia|].
  set (v := fee * fp_ValidatorBps policy / BasisPoints) in *. set (r := fee * fp_ReserveBps policy / BasisPoints) in *.
  assert (0 < BasisPoints) as HB by done.
  assert (v * BasisPoints <= fee * fp_ValidatorBps policy < v * BasisPoints + BasisPoints) as Dv.
  { subst v. pose proof (Z.div_mod (fee * fp_ValidatorBps policy) BasisPoints ltac:(lia)).
    pose proof (Z.mod_pos_bound (fee * fp_ValidatorBps policy) BasisPoints HB). lia. }
  assert (r * BasisPoints <= fee * fp_ReserveBps policy < r * BasisPoints + BasisPoints) as Dr.
  { subst r. pose proof (Z.div_mod (fee * fp_ReserveBps policy) BasisPoints ltac:(lia)).
    pose proof (Z.mod_pos_bound (fee * fp_ReserveBps policy) BasisPoints HB). lia. }
  assert (v + r <= fee) as Hvr by (unfold BasisPoints in *; nia).
  unfold SplitFee. rewrite Hp, Ev, Er. cbn [mbind res_bind or_err]. unfold sub64.
  rewrite (Z.mod_small (fee - v)) by lia. rewrite (Z.mod_small (fee - v - r)) by lia.
  replace (fee <? v) with false by lia. replace (fee - v <? r) with false by lia. cbn.
  eexists. split; [done|]. cbn. split_and!; try lia.
  - apply Z.div_le_upper_bound; [done|]. unfold BasisPoints in *. nia.
  - cut (fee - v - r - 2 <= fee * fp_BurnBps policy / BasisPoints); [lia|].
    apply Z.div_le_lower_bound; [done|]. unfold BasisPoints in *. nia.
Qed.

(** The base fee controller: for a valid policy and a base fee inside its
    band, whenever the step is computed the next base fee is in the band
    again; it does not move when the usage is on target, and otherwise moves
    strictly in the direction of the load unless it sits at the limit of the
    band. *)
Theorem NextBaseFee_controls (current used : Z) (policy : BaseFeePolicy) (next : Z) :
  u64 current -> u64 used -> u64 (bf_TargetUsage policy) -> u64 (bf_AdjustmentDenominator policy) ->
  u64 (bf_MinBaseFee policy) -> u64 (bf_MaxBaseFee policy) ->
  NextBaseFee current used policy = Ok next ->
  bf_MinBaseFee policy <= next <= bf_MaxBaseFee policy /\
  (used = bf_TargetUsage policy -> next = current) /\
  (bf_TargetUsage policy < used -> current < next \/ current = bf_MaxBaseFee policy /\ next = current) /\
  (used < bf_TargetUsage policy -> next < current \/ current = bf_MinBaseFee policy /\ next = current).
Proof.
  intros Hc Hu Ht Ha Hmin Hmax E. unfold NextBaseFee in E. apply bind_Ok in E as ([] & Ev & E).
  apply or_err_Ok, fail_if_Ok in Ev. apply bind_Ok in E as ([] & Ef%fail_if_Ok & E). bool_inv. unfold u64 in *.
  destruct (Z.eqb_spec used (bf_TargetUsage policy)) as [Eu|Eu]; [res_inv; split_and!; lia|].
  apply bind_Ok in E as (delta & Ed & E). apply to_uint64_Ok in Ed as [-> Hd].
  set (change := if _ =? 0 then 1 else _) in *.
  assert (0 < change) as Hpos.
  { subst change. match goal with |- 0 < (if ?q =? 0 then 1 else ?q) => assert (0 <= q) as Hq end.
    - apply Z.quot_pos; [|lia]. apply Z.quot_pos; [|lia].
      destruct (Z.ltb_spec (bf_TargetUsage policy) used); unfold sub64; rewrite Z.mod_small by lia; nia.
    - match goal with |- 0 < (if ?q =? 0 then 1 else ?q) => destruct (Z.eqb_spec q 0); lia end. }
  unfold u64 in Hd. destruct (Z.ltb_spec (bf_TargetUsage policy) used) as [Hl|Hl].
  - destruct (Z.ltb_spec (bf_MaxBaseFee policy) (current + change)); res_inv; split_and!; lia.
  - destruct (Z.leb_spec current change); cbn [orb] in E; [res_inv; split_and!; lia|].
    unfold sub64 in E. rewrite (Z.mod_small (current - change)) in E by lia.
    destruct (Z.ltb_spec (current - change) (bf_MinBaseFee policy)); res_inv; split_and!; lia.
Qed.

(** ** The inflation target of one epoch *)

Record policy_typed (p : MonetaryPolicy) : Prop := {
  pt_target : u32 (mp_TargetInflationBps p);
  pt_min : u32 (mp_MinInflationBps p);
  pt_max : u32 (mp_MaxInflationBps p);
  pt_step : u32 (mp_MaxEpochStepBps p);
  pt_epochs : u64 (mp_EpochsPerYear p);
  pt_targets : Forall u32 [mp_ReserveTargetBps p; mp_StakeTargetBps p; mp_UtilizationTargetBps p; mp_VelocityTargetBps p];
  pt_operations : u64 (mp_OperationsTarget p);
  pt_weights : Forall u32 (policy_weights p);
}.

Record metrics_typed (m : MonetaryMetrics) : Prop := {
  mt_supply : u64 (mm_Supply m);
  mt_circulating : u64 (mm_CirculatingSupply m);
  mt_staked : u64 (mm_StakedSupply m);
  mt_reserve : u64 (mm_ProtocolReserve m);
  mt_burned : u64 (mm_BurnedThisEpoch m);
  mt_operations : u64 (mm_FinalizedOperations m);
  mt_utilization : u32 (mm_ResourceUtilizationBps m);
  mt_velocity : u32 (mm_AgeWeightedVelocityBps m);
}.

Lemma validateMonetary_Ok m p : validateMonetary m p = Ok tt ->
  (mm_Supply m <> 0 /\ mp_EpochsPerYear p <> 0 /\
   mp_MinInflationBps p <= mp_TargetInflationBps p <= mp_MaxInflationBps p /\ mp_MaxInflationBps p <= BasisPoints /\
   mm_ResourceUtilizationBps m <= 2 * BasisPoints /\ mm_AgeWeightedVelocityBps m <= 2 * BasisPoints) /\
  Forall (fun t => t <= BasisPoints)
    [mp_ReserveTargetBps p; mp_StakeTargetBps p; mp_UtilizationTargetBps p; mp_VelocityTargetBps p] /\
  Forall (fun w => w <= BasisPoints) (policy_weights p).
Proof.
  intros E. apply bind_Ok in E as ([] & Ef%fail_if_Ok & E). apply rfold_unit_Forall in E. bool_inv.
  split_and!; try lia.
  - repeat constructor; lia.
  - eapply Forall_impl; [exact E|]. cbn. intros w Hw%fail_if_Ok. lia.
Qed.

Lemma correction_range m p : policy_typed p -> metrics_typed m -> validateMonetary m p = Ok tt ->
  Z.abs (correction m p) <= 10 * BasisPoints.
Proof.
  intros Hp Hm Hv. apply validateMonetary_Ok in Hv as ((_ & _ & _ & _ & Hu & Hvel) & Ht & Hw).
  destruct Hp as [_ _ _ _ _ Ht' Ho Hw'], Hm. unfold policy_weights in *.
  repeat match goal with H : Forall _ (_ :: _) |- _ => apply Forall_cons in H as [? H] end. unfold u32, u64 in *.
  pose proof (ratioBps_range (mm_ProtocolReserve m) (mm_Supply m) ltac:(lia) ltac:(lia)).
  pose proof (ratioBps_range (mm_StakedSupply m) (mm_CirculatingSupply m) ltac:(lia) ltac:(lia)).
  pose proof (activityBps_range (mm_FinalizedOperations m) (mp_OperationsTarget p) ltac:(lia) ltac:(lia)).
  unfold correction.
  pose proof (weightedGap_range (mp_ReserveTargetBps p) (ratioBps (mm_ProtocolReserve m) (mm_Supply m))
    (mp_ReserveWeightBps p) ltac:(lia) ltac:(lia) ltac:(lia)).
  pose proof (weightedGap_range (mp_StakeTargetBps p) (ratioBps (mm_StakedSupply m) (mm_CirculatingSupply m))
    (mp_StakeWeightBps p) ltac:(lia) ltac:(lia) ltac:(lia)).
  pose proof (weightedGap_range (mp_UtilizationTargetBps p) (mm_ResourceUtilizationBps m)
    (mp_UtilizationWeightBps p) ltac:(lia) ltac:(lia) ltac:(lia)).
  pose proof (weightedGap_range (mp_VelocityTargetBps p) (mm_AgeWeightedVelocityBps m)
    (mp_VelocityWeightBps p) ltac:(lia) ltac:(lia) ltac:(lia)).
  pose proof (weightedGap_range BasisPoints (activityBps (mm_FinalizedOperations m) (mp_OperationsTarget p))
    (mp_OperationsWeightBps p) ltac:(unfold BasisPoints; lia) ltac:(lia) ltac:(lia)).
  unfold BasisPoints in *. int64_norm. lia.
Qed.

Lemma EvaluateShadow_Ok prior m p d :
  policy_typed p -> metrics_typed m -> EvaluateShadow prior m p = Ok d ->
  (prior = 0 \/ mp_MinInflationBps p <= prior <= mp_MaxInflationBps p) ->
  md_Shadow d = true /\
  mp_MinInflationBps p <= md_TargetInflationBps d <= mp_MaxInflationBps p /\
  mp_MaxInflationBps p <= BasisPoints /\
  (prior <> 0 -> Z.abs (md_TargetInflationBps d - prior) <= mp_MaxEpochStepBps p) /\
  md_NetIssuanceTarget d = mm_Supply m * md_TargetInflationBps d / BasisPoints / mp_EpochsPerYear p /\
  md_GrossMintTarget d = md_NetIssuanceTarget d + mm_BurnedThisEpoch m /\ u64 (md_GrossMintTarget d).
Proof.
  intros Hp Hm E Hprior. unfold EvaluateShadow in E. apply bind_Ok in E as ([] & Hv & E).
  pose proof (correction_range m p Hp Hm Hv) as Hc.
  apply validateMonetary_Ok in Hv as ((Hs & He & Hb & Hmax & _) & _).
  apply bind_Ok in E as (net & En & E). apply bind_Ok in E as (gross & Eg & E). apply Ok_inj in E. subst d. cbn.
  destruct Hp, Hm. unfold u32 in *.
  set (clamped := clampTarget _ _ _) in *.
  assert (mp_MinInflationBps p <= clamped <= mp_MaxInflationBps p) as Hcl by (apply clampTarget_range; lia).
  set (target := if negb (prior =? 0) then _ else clamped) in *.
  assert (mp_MinInflationBps p <= target <= mp_MaxInflationBps p /\
          (prior <> 0 -> Z.abs (target - prior) <= mp_MaxEpochStepBps p)) as [Ht Hstep].
  { subst target. destruct (Z.eqb_spec prior 0) as [Z0|Z0]; cbn [negb]; [done|].
    destruct (rateLimitTarget_range prior clamped (mp_MaxEpochStepBps p) (mp_MinInflationBps p) (mp_MaxInflationBps p));
      lia. }
  unfold u64 in *. apply epochIssuance_Ok in En as [-> _]; [|unfold u64; lia..].
  apply to_uint64_Ok in Eg as [-> Hg]. done.
Qed.

Lemma EvaluateComputeFeedback_Ok base m p s policy d :
  0 <= mp_MinInflationBps p -> mp_MaxInflationBps p < 2 ^ 32 ->
  mp_MinInflationBps p <= md_TargetInflationBps base <= mp_MaxInflationBps p ->
  EvaluateComputeFeedback base m p s policy = Ok d ->
  mp_MinInflationBps p <= cd_SuggestedTargetInflationBps d <= mp_MaxInflationBps p.
Proof.
  intros Hmin Hmax Hb E. unfold EvaluateComputeFeedback in E. apply bind_Ok in E as ([] & _ & E).
  assert (forall d', cd_SuggestedTargetInflationBps (decisionWithComputeBudget d') = cd_SuggestedTargetInflationBps d')
    as Hd by (intros d'; unfold decisionWithComputeBudget; by destruct shareBps).
  destruct (_ || _); [apply Ok_inj in E; subst d; by rewrite Hd|].
  destruct (negb (_ =? _)); [apply Ok_inj in E; subst d; by rewrite Hd|].
  apply bind_Ok in E as (net & _ & E). apply bind_Ok in E as (gross & _ & E). apply Ok_inj in E. subst d.
  rewrite Hd. cbn. apply clampTarget_range; lia.
Qed.

(** ** The aggregate of an epoch *)

Definition zsum_of (field : ShardEpochMetrics -> Z) (l : list ShardEpochMetrics) : Z := zsum (field <$> l).

Lemma sum_of_zsum field l : sum_of field l = zsum_of field l.
Proof.
  unfold sum_of, zsum_of.
  assert (forall acc, foldl (fun total m => total + field m) acc l = acc + zsum (field <$> l)) as Hg.
  { induction l as [|m l IH]; intros acc; cbn [foldl fmap list_fmap]; [cbn; lia|].
    rewrite IH, zsum_cons. lia. }
  by rewrite Hg.
Qed.

Lemma zsum_of_perm field l k : l ≡ₚ k -> zsum_of field l = zsum_of field k.
Proof. intros Hp. unfold zsum_of. by rewrite Hp. Qed.

Lemma check_metrics_Ok epoch prev l : check_metrics epoch prev l = Ok tt ->
  Forall (fun m => ShardEpochMetrics_Validate m = Ok tt /\ em_Epoch m = epoch) l /\
  (forall i a b, l !! i = Some a -> l !! S i = Some b -> em_ShardID a <> em_ShardID b).
Proof.
  revert prev. induction l as [|m l IH]; intros prev E; cbn in E; [split; [constructor|done]|].
  apply bind_Ok in E as ([] & Hv%or_err_Ok & E). apply bind_Ok in E as ([] & Hf%fail_if_Ok & E).
  destruct (IH _ E) as [H1 H2]. bool_inv. split; [constructor; [split; [done|lia]|done]|].
  intros [|i] a b Ha Hb; cbn in Ha, Hb; [|by eapply H2].
  injection Ha as <-. destruct l as [|m' l]; [done|]. cbn in Hb. injection Hb as <-.
  cbn in E. apply bind_Ok in E as ([] & _ & E). apply bind_Ok in E as ([] & Hf%fail_if_Ok & _). bool_inv. lia.
Qed.

Lemma check_metrics_proper epoch prev l k :
  l ≡ₚ k -> check_metrics epoch prev l = Ok tt -> StronglySorted (key_le em_ShardID) l ->
  StronglySorted (key_le em_ShardID) k -> l = k.
Proof.
  intros Hp E Hl Hk. apply (sorted_unique em_ShardID); [|done..].
  apply sorted_adjacent_NoDup; [done|]. by apply check_metrics_Ok in E as [_ ?].
Qed.

(** The error of the aggregation is always the same. *)
Lemma check_metrics_Err epoch prev l e : check_metrics epoch prev l = Err e -> e = ErrEpochMetrics.
Proof.
  revert prev. induction l as [|m l IH]; intros prev E; cbn in E; [done|].
  destruct (ShardEpochMetrics_Validate m); cbn in E; [|congruence].
  destruct (fail_if _ _) as [[]|] eqn:Ef; cbn in E; [by eapply IH|].
  unfold fail_if in Ef. destruct (_ || _); congruence.
Qed.

Lemma aggregate_checked l a : AggregateEpochMetrics l = Ok a ->
  exists epoch, check_metrics epoch None (sort_by em_ShardID l) = Ok tt.
Proof.
  unfold AggregateEpochMetrics. destruct (sort_by em_ShardID l) as [|m s] eqn:Es; [done|].
  intros E. apply bind_Ok in E as ([] & E & _). by exists (em_Epoch m).
Qed.

Lemma aggregate_Err l e : AggregateEpochMetrics l = Err e -> e = ErrEpochMetrics.
Proof.
  unfold AggregateEpochMetrics. destruct (sort_by em_ShardID l) as [|m s] eqn:Es; [congruence|]. cbv zeta.
  destruct (check_metrics _ _ _) as [[]|] eqn:Ec; cbn [mbind res_bind]; [|intros [= <-]; by eapply check_metrics_Err].
  repeat match goal with |- context [fail_if ?b _] => destruct b; cbn [fail_if mbind res_bind]; [congruence|] end.
  destruct (negb (sum_of em_CirculatingNativeSupply _ =? 0)); cbn [mbind res_bind]; [|done].
  destruct (_ || _); cbn; congruence.
Qed.

Lemma aggregate_perm l k : l ≡ₚ k -> AggregateEpochMetrics l = AggregateEpochMetrics k.
Proof.
  assert (forall l k a, l ≡ₚ k -> AggregateEpochMetrics l = Ok a -> AggregateEpochMetrics k = Ok a) as Hok.
  { clear. intros l k a Hp E. destruct (aggregate_checked l a E) as (epoch & Hc).
    assert (sort_by em_ShardID l = sort_by em_ShardID k) as Hs.
    { eapply check_metrics_proper; [|exact Hc|apply sort_by_sorted..]. by rewrite !sort_by_perm. }
    unfold AggregateEpochMetrics in *. by rewrite <-Hs. }
  intros Hp. destruct (AggregateEpochMetrics l) as [a|e] eqn:El; [symmetry; by eapply Hok|].
  destruct (AggregateEpochMetrics k) as [b|e'] eqn:Ek.
  - symmetry in Hp. pose proof (Hok _ _ _ Hp Ek). congruence.
  - by rewrite (aggregate_Err _ _ El), (aggregate_Err _ _ Ek).
Qed.

(** What an aggregate says about its shards. *)
Record aggregate_of (l : list ShardEpochMetrics) (a : EpochAggregate) : Prop := {
  ag_epoch : Forall (fun m => em_Epoch m = ea_Epoch a) l;
  ag_shards : NoDup (em_ShardID <$> l);
  ag_charged : ea_ChargedFees a = zsum_of em_ChargedFees l;
  ag_burned : ea_BurnedFees a = zsum_of em_BurnedFees l;
  ag_split : ea_BurnedFees a + ea_ValidatorFees a + ea_ReserveFees a = ea_ChargedFees a;
  ag_circulating : ea_CirculatingNativeSupply a = zsum_of em_CirculatingNativeSupply l;
  ag_flow : ea_OpeningComputeBacklog a + ea_EscrowBackedComputeDemand a
            = ea_ComputeFulfilled a + ea_ComputeExpired a + ea_ComputeBacklog a;
  ag_u64 : Forall u64 [ea_BurnedFees a; ea_FinalizedOperations a; ea_CirculatingNativeSupply a];
  ag_utilization : 0 <= ea_ResourceUtilizationBps a <= BasisPoints;
  ag_velocity : 0 <= ea_AgeWeightedVelocityBps a <= 10 * BasisPoints;
}.

Lemma zsum_of_split l : Forall (fun m => ShardEpochMetrics_Validate m = Ok tt) l ->
  zsum_of em_BurnedFees l + zsum_of em_ValidatorFees l + zsum_of em_ReserveFees l = zsum_of em_ChargedFees l.
Proof.
  unfold zsum_of. induction 1 as [|m l Hv _ IH]; [done|]. cbn [fmap list_fmap]. rewrite !zsum_cons.
  apply bind_Ok in Hv as ([] & _ & Hv%fail_if_Ok). bool_inv. lia.
Qed.

Lemma aggregate_spec l a : AggregateEpochMetrics l = Ok a -> aggregate_of l a.
Proof.
  intros E. pose proof (sort_by_perm em_ShardID l) as Hperm.
  assert (forall f, sum_of f (sort_by em_ShardID l) = zsum_of f l) as Hsum.
  { intros f. rewrite sum_of_zsum. by apply zsum_of_perm. }
  pose proof (sort_by_sorted em_ShardID l) as Hsorted.
  unfold AggregateEpochMetrics in E. destruct (sort_by em_ShardID l) as [|first s] eqn:Es; [done|]. cbv zeta in E.
  apply bind_Ok in E as ([] & Hc & E). apply check_metrics_Ok in Hc as [Hv Hadj].
  apply bind_Ok in E as ([] & Hu%fail_if_Ok & E). apply bind_Ok in E as ([] & Hf%fail_if_Ok & E).
  apply bind_Ok in E as ([] & _ & E). apply bind_Ok in E as (velocity & Evel & E).
  apply Ok_inj in E. subst a. rewrite !Hsum in *.
  assert (forall f, f ∈ summed_fields -> u64 (zsum_of f l)) as Hu64.
  { intros f Hin. apply IsUint64_spec. destruct (IsUint64 (zsum_of f l)) eqn:E; [done|exfalso].
    enough (existsb (fun f => negb (IsUint64 (sum_of f (first :: s)))) summed_fields = true) by congruence.
    apply existsb_exists. exists f. split; [by apply list_elem_of_In|]. by rewrite Hsum, E. }
  apply orb_false_iff in Hf as [_ Hf]. apply negb_false_iff in Hf. unfold validComputeFlow in Hf.
  apply andb_true_iff in Hf as [_ Hf]. apply Z.eqb_eq in Hf.
  constructor; cbn; rewrite ?Hsum; try done.
  - rewrite <-Hperm. eapply Forall_impl; [exact Hv|]. by intros m [_ ?].
  - rewrite <-Hperm. by apply sorted_adjacent_NoDup.
  - apply zsum_of_split. rewrite <-Hperm. eapply Forall_impl; [exact Hv|]. by intros m [? _].
  - unfold summed_fields in Hu64. repeat constructor; apply Hu64; set_solver.
  - apply ratioBps_range; apply Hu64; unfold summed_fields; set_solver.
  - unfold BasisPoints. destruct (negb (_ =? 0)); [|apply Ok_inj in Evel; lia].
    apply bind_Ok in Evel as ([] & Hg%fail_if_Ok & Evel). apply Ok_inj in Evel. subst velocity.
    apply orb_false_iff in Hg as [H1 H2]. apply negb_false_iff, IsUint64_spec in H1. unfold u64, BasisPoints in *.
    rewrite uint32_small; lia.
Qed.

(** The aggregate of an epoch does not depend on the order in which the
    shards report; when it is computed, every shard reported the same epoch
    once, the fees, supplies and compute flows are the exact sums over the
    shards, charged fees are burned, paid or reserved without loss, and the
    compute backlog balances. *)
Theorem aggregate_exact (l k : list ShardEpochMetrics) :
  l ≡ₚ k ->
  AggregateEpochMetrics l = AggregateEpochMetrics k /\
  forall a, AggregateEpochMetrics k = Ok a -> aggregate_of l a.
Proof.
  intros Hp. split; [by apply aggregate_perm|]. intros a E. apply aggregate_spec. by rewrite (aggregate_perm l k Hp).
Qed.

(** ** The engine over epochs *)

Section engine.
Context `{Crypto}.

Definition balances_typed (b : MonetaryBalanceSnapshot) : Prop :=
  u64 (mb_TotalSupply b) /\ u64 (mb_StakedSupply b) /\ u64 (mb_ProtocolReserve b) /\ u64 (mb_BaseFee b).

(** The target the policy starts from. *)
Definition prior_target (p : MonetaryPolicy) (previous : option MonetaryEpochState) : Z :=
  match previous with None => mp_TargetInflationBps p | Some s => ms_ZAMPBaseTargetBps s end.

Definition previous_hash (previous : option MonetaryEpochState) : res bytes :=
  match previous with None => Ok zero32 | Some s => MonetaryEpochState_Hash s end.

Lemma BuildComputeIndex_epoch epoch work prior cfg index :
  BuildComputeIndex epoch work prior cfg = Ok index -> cs_Epoch index = epoch.
Proof.
  intros E. unfold BuildComputeIndex in E. apply bind_Ok in E as ([] & _ & E). apply bind_Ok in E as ([] & _ & E).
  apply bind_Ok in E as (prices & _ & E). apply bind_Ok in E as ([[out basket] active] & Ef & E).
  assert (cs_Epoch out = epoch) as Ho.
  { refine (rfold_inv (fun (st : ComputeIndexSnapshot * Z * Z) _ => cs_Epoch st.1.1 = epoch) _ _ _ _ [] _ _ Ef); [done|].
    clear. intros [[o b] w] [[o' b'] w'] dn class Ho _ E. cbn in Ho |- *. unfold index_class in E.
    destruct (_ || _); [injection E as <- _ _; done|]. apply bind_Ok in E as (current & _ & E). injection E as <- _ _. done. }
  destruct (active =? 0); [apply Ok_inj in E; by subst|].
  apply bind_Ok in E as ([] & _ & E). apply Ok_inj in E. by subst.
Qed.

Lemma BuildComputeScarcity_epoch epoch m cfg s : BuildComputeScarcity epoch m cfg = Ok s -> ss_Epoch s = epoch.
Proof.
  intros E. unfold BuildComputeScarcity in E. apply bind_Ok in E as ([] & _ & E). apply bind_Ok in E as (w & _ & E).
  apply bind_Ok in E as ([] & _ & E). cbv zeta in E. apply bind_Ok in E as ([] & _ & E). apply Ok_inj in E. by subst.
Qed.

Lemma DomainHash_Hash_Ok s h : MonetaryEpochState_Hash s = Ok h -> MonetaryEpochState_Validate s = Ok tt.
Proof.
  intros E. apply bind_Ok in E as (raw & E & _). apply bind_Ok in E as ([] & E & _). done.
Qed.

(** What a built state says. *)
Record state_built (network : bytes) (previous : option MonetaryEpochState) (a : EpochAggregate)
    (p : MonetaryPolicy) (s : MonetaryEpochState) : Prop := {
  sb_network : ms_Network s = network;
  sb_epoch : ms_Epoch s = ea_Epoch a;
  sb_valid : MonetaryEpochState_Validate s = Ok tt;
  sb_aggregate : EpochAggregate_Hash a = Ok (ms_AggregateHash s);
  sb_previous : previous_hash previous = Ok (ms_PreviousStateHash s);
  sb_base : mp_MinInflationBps p <= ms_ZAMPBaseTargetBps s <= mp_MaxInflationBps p;
  sb_suggested : mp_MinInflationBps p <= ms_SuggestedTargetBps s <= mp_MaxInflationBps p;
  sb_step : prior_target p previous <> 0 ->
    Z.abs (ms_ZAMPBaseTargetBps s - prior_target p previous) <= mp_MaxEpochStepBps p;
}.

Lemma metrics_of_aggregate l a supply staked reserve index trend reliable m :
  aggregate_of l a -> u64 supply -> u64 staked -> u64 reserve ->
  Aggregate_MonetaryMetrics a supply staked reserve index trend reliable = Ok m -> metrics_typed m.
Proof.
  intros Ha Hs Hk Hr E. apply bind_Ok in E as ([] & _ & E). apply Ok_inj in E. subst m.
  destruct Ha as [_ _ _ _ _ _ _ Hu Hut Hv].
  repeat match goal with H : Forall _ (_ :: _) |- _ => apply Forall_cons in H as [? H] end.
  constructor; cbn; try done; unfold u32, BasisPoints in *; lia.
Qed.

Lemma BuildShadow_Ok network previous l a supply staked reserve index trend reliable scarcity p fp fee s d f :
  aggregate_of l a -> policy_typed p -> u64 supply -> u64 staked -> u64 reserve ->
  (prior_target p previous = 0 \/ mp_MinInflationBps p <= prior_target p previous <= mp_MaxInflationBps p) ->
  BuildShadowMonetaryEpochState network previous a supply staked reserve index trend reliable scarcity p fp fee
  = Ok (s, d, f) ->
  state_built network previous a p s /\ ms_ComputeIndexQ9 s = index /\ ms_ComputeIndexReliable s = reliable.
Proof.
  intros Ha Hp Hs Hk Hr Hprior E. unfold BuildShadowMonetaryEpochState in E.
  apply bind_Ok in E as ([] & _ & E). apply bind_Ok in E as (ah & Eah & E). apply bind_Ok in E as (m & Em & E).
  apply (metrics_of_aggregate l) in Em; [|done..].
  apply bind_Ok in E as ([prior ph] & Eprev & E). apply bind_Ok in E as (d' & Ed & E).
  apply bind_Ok in E as (f' & Ef & E). destruct (signedMagnitude _) as [sm sn]. destruct (signedMagnitude _) as [cm cn].
  apply bind_Ok in E as ([] & Hv & E). apply Ok_inj in E. injection E as <- <- <-.
  assert (prior = prior_target p previous /\ previous_hash previous = Ok ph) as [-> Hph].
  { destruct previous as [prev|]; [|injection Eprev as <- <-; done].
    apply bind_Ok in Eprev as ([] & _ & Eprev). apply bind_Ok in Eprev as (h & Eh & Eprev). injection Eprev as <- <-. done. }
  destruct (EvaluateShadow_Ok _ _ _ _ Hp Em Ed Hprior) as (_ & Ht & _ & Hstep & _).
  pose proof (EvaluateComputeFeedback_Ok _ _ _ _ _ _ ltac:(apply Hp) ltac:(apply Hp) Ht Ef).
  split; [|done]. by constructor.
Qed.

Definition previous_epoch (previous : option MonetaryEpochState) : Z :=
  match previous with None => 0 | Some s => ms_Epoch s end.

Lemma PreviewCloseEpoch_Ok e metrics work balances p :
  let policy := ec_Monetary (en_config e) in
  policy_typed policy -> balances_typed balances ->
  (prior_target policy (en_previous e) = 0 \/
   mp_MinInflationBps policy <= prior_target policy (en_previous e) <= mp_MaxInflationBps policy) ->
  PreviewCloseEpoch e metrics work balances = Ok p ->
  state_built (en_Network e) (en_previous e) (pv_Aggregate p) policy (pv_State p) /\
  ms_Epoch (pv_State p) = add64 (previous_epoch (en_previous e)) 1 /\
  cs_Epoch (pv_ComputeIndex p) = ms_Epoch (pv_State p) /\ ss_Epoch (pv_ComputeScarcity p) = ms_Epoch (pv_State p) /\
  ms_ComputeIndexQ9 (pv_State p) = cs_BasketPriceQ9 (pv_ComputeIndex p) /\
  ms_ComputeIndexReliable (pv_State p) = cs_Reliable (pv_ComputeIndex p).
Proof.
  intros policy Hp (Hs & Hk & Hr & _) Hprior E. unfold PreviewCloseEpoch in E.
  apply bind_Ok in E as (a & Ea & E). apply bind_Ok in E as ([] & Hepoch%fail_if_Ok & E).
  apply bind_Ok in E as (index & Ei & E). apply bind_Ok in E as (sc & Es & E).
  apply bind_Ok in E as ([[state d] f] & Eb & E). apply bind_Ok in E as (po & _ & E).
  apply bind_Ok in E as ([consumed created] & _ & E). apply Ok_inj in E. subst p. cbn.
  destruct (BuildShadow_Ok _ _ _ _ _ _ _ _ _ _ _ _ _ _ _ _ _ (aggregate_spec _ _ Ea) Hp Hs Hk Hr Hprior Eb)
    as (Hst & Hq & Hrel).
  rewrite (sb_epoch _ _ _ _ _ Hst), (BuildComputeIndex_epoch _ _ _ _ _ Ei), (BuildComputeScarcity_epoch _ _ _ _ Es).
  split_and!; try done.
  destruct (en_previous e); cbn; apply negb_false_iff, Z.eqb_eq in Hepoch; done.
Qed.

Lemma Accept_preview e metrics work balances p :
  let policy := ec_Monetary (en_config e) in
  policy_typed policy -> balances_typed balances ->
  (prior_target policy (en_previous e) = 0 \/
   mp_MinInflationBps policy <= prior_target policy (en_previous e) <= mp_MaxInflationBps policy) ->
  PreviewCloseEpoch e metrics work balances = Ok p ->
  Accept e p = Ok (mkEngine (en_Network e) (en_config e) (pv_ComputeIndex p) (Some (pv_State p))).
Proof.
  intros policy Hp Hb Hprior E.
  destruct (PreviewCloseEpoch_Ok _ _ _ _ _ Hp Hb Hprior E) as ([Hn He Hv Hag Hprev _ _ _] & Hnext & Hci & Hsc & Hq & Hrel).
  unfold Accept. rewrite Hn, <-He, Hci, Hsc, Hv, Hag, Hq, Hrel, bool_decide_eq_true_2, !Z.eqb_refl, Bool.eqb_reflx by done.
  cbn [negb orb is_ok fail_if mbind res_bind or_err].
  assert ((match en_previous e with
           | None => fail_if (negb (ms_Epoch (pv_State p) =? 1) || negb (IsZero32 (ms_PreviousStateHash (pv_State p))))
                       ErrShadowEpochEngine
           | Some previous =>
               fail_if (negb (ms_Epoch (pv_State p) =? add64 (ms_Epoch previous) 1)) ErrShadowEpochEngine;;
               priorHash ← MonetaryEpochState_Hash previous <?> ErrShadowEpochEngine;
               fail_if (negb (bool_decide (ms_PreviousStateHash (pv_State p) = priorHash))) ErrShadowEpochEngine
           end) = Ok tt) as ->; [|by rewrite bool_decide_eq_true_2].
  destruct (en_previous e) as [prev|]; cbn in Hnext, Hprev.
  - rewrite Hprev, Hnext, Z.eqb_refl. cbn. by rewrite bool_decide_eq_true_2.
  - rewrite Hnext. injection Hprev as Hprev. unfold IsZero32. rewrite <-Hprev. done.
Qed.

(** The states an engine has accepted, oldest first: every preview is made by
    the engine that accepts it, as [Runtime.Commit] does. *)
Inductive engine_history (network : bytes) (config : ShadowEpochEngineConfig)
    : ShadowEpochEngine -> list MonetaryEpochState -> Prop :=
  | history_new e : NewShadowEpochEngine network config = Ok e -> engine_history network config e []
  | history_accept e l metrics work balances p e' :
      engine_history network config e l -> balances_typed balances ->
      PreviewCloseEpoch e metrics work balances = Ok p -> Accept e p = Ok e' ->
      engine_history network config e' (l ++ [pv_State p]).

(** One epoch follows another. *)
Definition follows (policy : MonetaryPolicy) (s s' : MonetaryEpochState) : Prop :=
  ms_Epoch s' = ms_Epoch s + 1 /\ MonetaryEpochState_Hash s = Ok (ms_PreviousStateHash s') /\
  (ms_ZAMPBaseTargetBps s <> 0 ->
   Z.abs (ms_ZAMPBaseTargetBps s' - ms_ZAMPBaseTargetBps s) <= mp_MaxEpochStepBps policy).

Definition in_band (policy : MonetaryPolicy) (s : MonetaryEpochState) : Prop :=
  mp_MinInflationBps policy <= ms_ZAMPBaseTargetBps s <= mp_MaxInflationBps policy /\
  mp_MinInflationBps policy <= ms_SuggestedTargetBps s <= mp_MaxInflationBps policy.

Record history_inv (network : bytes) (config : ShadowEpochEngineConfig) (e : ShadowEpochEngine)
    (l : list MonetaryEpochState) : Prop := {
  hi_network : en_Network e = network;
  hi_config : en_config e = config;
  hi_previous : en_previous e = last l;
  hi_band : Forall (in_band (ec_Monetary config)) l;
  hi_first : forall s, l !! 0%nat = Some s -> ms_Epoch s = 1 /\ ms_PreviousStateHash s = zero32;
  hi_follows : forall i s s', l !! i = Some s -> l !! S i = Some s' -> follows (ec_Monetary config) s s';
  hi_epochs : Forall (fun s => u64 (ms_Epoch s)) l;
}.

Definition policy_ok (p : MonetaryPolicy) : Prop :=
  policy_typed p /\ mp_MinInflationBps p <= mp_TargetInflationBps p <= mp_MaxInflationBps p.

Lemma history_prior network config e l :
  policy_ok (ec_Monetary config) -> history_inv network config e l ->
  mp_MinInflationBps (ec_Monetary config) <= prior_target (ec_Monetary config) (en_previous e)
  <= mp_MaxInflationBps (ec_Monetary config).
Proof.
  intros [_ Hb] Hi. rewrite (hi_previous _ _ _ _ Hi). destruct (last l) as [s|] eqn:El; cbn; [|done].
  apply last_Some_elem_of in El. pose proof (hi_band _ _ _ _ Hi) as Hband. rewrite Forall_forall in Hband.
  by apply (Hband s).
Qed.

Lemma Validate_epoch s : MonetaryEpochState_Validate s = Ok tt -> ms_Epoch s <> 0.
Proof. intros E%fail_if_Ok. bool_inv. lia. Qed.

Lemma history_step network config e l metrics work balances p :
  policy_ok (ec_Monetary config) -> history_inv network config e l -> balances_typed balances ->
  PreviewCloseEpoch e metrics work balances = Ok p ->
  history_inv network config (mkEngine (en_Network e) (en_config e) (pv_ComputeIndex p) (Some (pv_State p)))
    (l ++ [pv_State p]).
Proof.
  intros Hp Hi Hb E. pose proof (history_prior _ _ _ _ Hp Hi) as Hprior. destruct Hp as [Hp Hband].
  destruct Hi as [Hn Hc Hprev Hin Hfirst Hfol Hu]. rewrite <-Hc in *.
  destruct (PreviewCloseEpoch_Ok e metrics work balances p Hp Hb (or_intror Hprior) E)
    as ([Hsn He Hv Hag Hph Hbase Hsug Hstep] & Hnext & _).
  assert (u64 (ms_Epoch (pv_State p))) as Hue.
  { rewrite Hnext. apply Z.mod_pos_bound. lia. }
  constructor; cbn; try done.
  - by rewrite last_snoc.
  - apply Forall_app. split; [done|]. apply Forall_singleton. done.
  - intros s. destruct l as [|s0 l]; [|by apply Hfirst]. cbn. intros [= <-]. rewrite Hprev in *. cbn in *.
    injection Hph as Hph. done.
  - intros i s s' Hs Hs'. destruct (decide (S i < length l)%nat) as [Hlt|Hge].
    { rewrite lookup_app_l in Hs, Hs' by lia. by eapply Hfol. }
    assert (S i = length l) as Hlen.
    { apply lookup_lt_Some in Hs'. rewrite length_app in Hs'. cbn in Hs'. lia. }
    rewrite lookup_app_l in Hs by lia. rewrite lookup_app_r in Hs' by lia. rewrite Hlen, Nat.sub_diag in Hs'.
    injection Hs' as <-.
    assert (last l = Some s) as Hlast by (rewrite last_lookup, <-Hlen; done).
    rewrite Hprev, Hlast in *. cbn in *. unfold follows. split_and!; [|done|done].
    rewrite Forall_forall in Hu. pose proof (Hu s (last_Some_elem_of _ _ Hlast)) as Hus.
    pose proof (Validate_epoch _ Hv). unfold add64, u64 in *.
    destruct (decide (ms_Epoch s + 1 < 2 ^ 64)); [rewrite Hnext, Z.mod_small; lia|].
    assert (ms_Epoch s + 1 = 2 ^ 64) as Hw by lia. rewrite Hw, Z.mod_same in Hnext by lia. lia.
  - apply Forall_app. split; [done|]. by apply Forall_singleton.
Qed.

Lemma engine_history_inv network config e l :
  policy_ok (ec_Monetary config) -> engine_history network config e l -> history_inv network config e l.
Proof.
  intros Hp. induction 1 as [e E|e l metrics work balances p e' Hh IH Hb Epre Eacc].
  - apply bind_Ok in E as ([] & _ & E). apply Ok_inj in E. subst e.
    constructor; cbn; try done; by constructor.
  - pose proof (history_prior _ _ _ _ Hp IH) as Hprior.
    rewrite (Accept_preview e metrics work balances p) in Eacc.
    + apply Ok_inj in Eacc. subst e'. by eapply history_step.
    + rewrite (hi_config _ _ _ _ IH). apply Hp.
    + done.
    + right. by rewrite (hi_config _ _ _ _ IH).
    + done.
Qed.

(** C28: over every history of closed epochs the controller stays inside its
    policy: the base and the suggested inflation target of each accepted state
    lie between the minimum and the maximum of the policy, epochs are
    consecutive from 1, each state carries the hash of the one before it (the
    first the zero hash), and the base target moves by at most the step of the
    policy whenever the previous target is not zero. *)
Theorem inflation_stays_in_band network config e l :
  policy_ok (ec_Monetary config) -> engine_history network config e l -> history_inv network config e l.
Proof. exact (engine_history_inv network config e l). Qed.

(** No preview is stuck: an epoch that the engine of a history can close is
    accepted by that engine, and its state becomes the head of the history. *)
Theorem preview_accepted network config e l metrics work balances p :
  policy_ok (ec_Monetary config) -> engine_history network config e l -> balances_typed balances ->
  PreviewCloseEpoch e metrics work balances = Ok p ->
  exists e', Accept e p = Ok e' /\ PreviousState e' = Some (pv_State p) /\
    engine_history network config e' (l ++ [pv_State p]).
Proof.
  intros Hp Hh Hb E. pose proof (engine_history_inv _ _ _ _ Hp Hh) as Hi.
  pose proof (history_prior _ _ _ _ Hp Hi) as Hprior.
  assert (Accept e p = Ok (mkEngine (en_Network e) (en_config e) (pv_ComputeIndex p) (Some (pv_State p)))) as Ha.
  { apply (Accept_preview e metrics work balances p); rewrite ?(hi_config _ _ _ _ Hi); [apply Hp|done|by right|done]. }
  eexists. split; [exact Ha|]. split; [done|]. by eapply history_accept.
Qed.
End engine.

(** ** Two shards over an epoch *)

Module EconomyExample.
Definition network : bytes := be 32 3.
Definition index_config : ComputeIndexConfig := mkComputeIndexConfig (<[1%nat := 10000]> noClasses) 1 5000 5000.
Definition config : ShadowEpochEngineConfig :=
  mkEngineConfig index_config DefaultComputeScarcityConfig DefaultShadowPolicy (DefaultComputeFeedbackPolicy 2).
Definition shard (id fees supply : Z) : ShardEpochMetrics :=
  mkShardEpochMetrics 2 1 id fees fees 0 0 40 10 100 supply 3000 2000 5000 true 0 500 0 1500.
Definition metrics : list ShardEpochMetrics := [shard 1 7 400000; shard 0 5 500000].
Definition work : list VerifiedWork :=
  [mkVerifiedWork (be 32 9) 1 500 (mkWorkVector 500 0 0 0 0 0 0 0) 1500 1 (be 32 10)].
Definition balances : MonetaryBalanceSnapshot := mkBalances 1000000 300000 100000 10.
Definition engine : ShadowEpochEngine := mkEngine network config (emptyIndex 0) None.
End EconomyExample.

Lemma example_policy_ok : policy_ok (ec_Monetary EconomyExample.config).
Proof. split; [|done]. constructor; repeat constructor; done. Qed.

Lemma example_balances_typed : balances_typed EconomyExample.balances.
Proof. repeat split; discriminate. Qed.

Lemma example_new :
  engine_history (H := small_crypto) EconomyExample.network EconomyExample.config EconomyExample.engine [].
Proof. by apply history_new. Qed.

Lemma example_outcome : is_ok (PreviewCloseEpoch (H := small_crypto) EconomyExample.engine EconomyExample.metrics EconomyExample.work
    EconomyExample.balances) = true.
Proof. vm_compute. reflexivity. Qed.

Lemma SplitFee_conserves_witness :
  exists a, SplitFee 1001 (mkFeePolicy 3000 6000 1000) = Ok a /\ fa_Burn a = 301.
Proof.
  destruct (SplitFee_conserves 1001 (mkFeePolicy 3000 6000 1000)) as (a & E & _ & Hs & Hv & Hr & _);
    [by split|by split|by split|by split|reflexivity|].
  exists a. split; [exact E|].
  change (fa_Validators a = 600) in Hv. change (fa_Reserve a = 100) in Hr. lia.
Defined.

Lemma NextBaseFee_controls_witness : NextBaseFee 1000 150 (mkBaseFeePolicy 100 8 10 5000) = Ok 1062 /\ 1000 < 1062.
Proof.
  assert (NextBaseFee 1000 150 (mkBaseFeePolicy 100 8 10 5000) = Ok 1062) as E by (vm_compute; reflexivity).
  split; [exact E|].
  destruct (NextBaseFee_controls 1000 150 (mkBaseFeePolicy 100 8 10 5000) 1062) as (_ & _ & Hup & _);
    [by split|by split|by split|by split|by split|by split|exact E|].
  destruct Hup as [Hup|[Hup _]]; [reflexivity|exact Hup|discriminate Hup].
Defined.

Lemma aggregate_exact_witness :
  AggregateEpochMetrics EconomyExample.metrics = AggregateEpochMetrics (rev EconomyExample.metrics) /\
  is_ok (AggregateEpochMetrics (rev EconomyExample.metrics)) = true.
Proof.
  split; [|vm_compute; reflexivity].
  exact (proj1 (aggregate_exact EconomyExample.metrics (rev EconomyExample.metrics) (Permutation_rev _))).
Defined.

Lemma preview_accepted_witness :
  exists p e', PreviewCloseEpoch (H := small_crypto) EconomyExample.engine EconomyExample.metrics EconomyExample.work
    EconomyExample.balances = Ok p /\ Accept (H := small_crypto) EconomyExample.engine p = Ok e' /\
    engine_history (H := small_crypto) EconomyExample.network EconomyExample.config e' [pv_State p].
Proof.
  destruct (is_ok_true _ example_outcome) as [p E].
  destruct (preview_accepted (H := small_crypto) EconomyExample.network EconomyExample.config EconomyExample.engine []
    EconomyExample.metrics EconomyExample.work EconomyExample.balances p example_policy_ok example_new
    example_balances_typed E) as (e' & Ha & _ & Hh).
  exists p, e'. split; [exact E|]. split; [exact Ha|exact Hh].
Defined.

Lemma example_history :
  exists s e', engine_history (H := small_crypto) EconomyExample.network EconomyExample.config e' [s].
Proof.
  destruct (is_ok_true _ example_outcome) as [p E].
  pose proof (Accept_preview (H := small_crypto) EconomyExample.engine EconomyExample.metrics EconomyExample.work
    EconomyExample.balances p (proj1 example_policy_ok) example_balances_typed
    (or_intror (proj2 example_policy_ok)) E) as Ha.
  exists (pv_State p). eexists.
  exact (history_accept (H := small_crypto) _ _ _ [] _ _ _ _ _ example_new example_balances_typed E Ha).
Qed.

Lemma inflation_stays_in_band_witness :
  exists s e', engine_history (H := small_crypto) EconomyExample.network EconomyExample.config e' [s] /\
    ms_Epoch s = 1 /\ 150 <= ms_ZAMPBaseTargetBps s <= 250.
Proof.
  destruct example_history as (s & e' & Hh). exists s, e'. split; [exact Hh|].
  pose proof (inflation_stays_in_band (H := small_crypto) EconomyExample.network EconomyExample.config e' [s]
    example_policy_ok Hh) as [_ _ _ Hb Hf _ _].
  split; [exact (proj1 (Hf s eq_refl))|]. apply Forall_cons in Hb as [[Hb _] _]. exact Hb.
Defined.

(** A previous target of zero counts as none: the step of the policy does not
    apply. *)
Example zero_target_not_limited :
  md_TargetInflationBps <$> EvaluateShadow 0
    (mkMonetaryMetrics 1000000 900000 0 0 0 0 0 0 0 0 false)
    (mkMonetaryPolicy 100 0 250 1 365 1000 5000 5000 5000 1000000 500 500 250 250 100) = Ok 250.
Proof. vm_compute. reflexivity. Qed.

(** An aggregate may carry a velocity up to ten times the basis points, the
    policy takes at most twice: the epoch cannot be closed. *)
Lemma fast_epoch_not_closed `{Crypto} e metrics work balances a :
  AggregateEpochMetrics metrics = Ok a -> 2 * BasisPoints < ea_AgeWeightedVelocityBps a ->
  is_ok (PreviewCloseEpoch e metrics work balances) = false.
Proof.
  intros Ea Hv. destruct (PreviewCloseEpoch e metrics work balances) as [p|] eqn:E; [exfalso|done].
  unfold PreviewCloseEpoch in E. rewrite Ea in E. cbn [mbind res_bind] in E.
  apply bind_Ok in E as ([] & _ & E). apply bind_Ok in E as (index & _ & E). apply bind_Ok in E as (sc & _ & E).
  apply bind_Ok in E as ([[state d] f] & Eb & _). unfold BuildShadowMonetaryEpochState in Eb.
  apply bind_Ok in Eb as ([] & _ & Eb). apply bind_Ok in Eb as (ah & _ & Eb). apply bind_Ok in Eb as (m & Em & Eb).
  apply bind_Ok in Eb as ([prior ph] & _ & Eb). apply bind_Ok in Eb as (d' & Ed & _).
  apply bind_Ok in Ed as ([] & Hm & _). apply validateMonetary_Ok in Hm as ((_ & _ & _ & _ & _ & Hm) & _).
  apply bind_Ok in Em as ([] & _ & Em). apply Ok_inj in Em. subst m. cbn in Hm. lia.
Qed.
