(* ===== verification/CollectorProofs.v ===== *)
(** * CollectorProofs

    The epoch collector keeps the books: over the finalized blocks of an epoch
    the native supply it tracks and the fees it counts as burned always add up
    to the opening supply, the compute backlog is the balance of its flow, and
    the epoch can be closed. *)

From S2P Require Import Prelude GoLib Codec Crypto Types Object Sharding ShardingProofs Lending Tx ComputeModel ComputeMarket.
From S2P Require Import ComputeWork Contracts Execution ExecutionExtended EconomicsPolicy EconomicsEpoch EconomicsCollector EconomicsProofs.

Open Scope Z_scope.

(** ** Sums over the shards *)

Lemma range_sum_update (f g : Z -> Z) (l : list Z) k :
  NoDup l -> k ∈ l -> (forall x, x <> k -> g x = f x) -> zsum (g <$> l) = zsum (f <$> l) - f k + g k.
Proof.
  intros Hnd Hk Hfg. induction l as [|x l IH]; [by apply elem_of_nil in Hk|]. apply NoDup_cons in Hnd as [Hx Hnd].
  cbn [fmap list_fmap]. rewrite !zsum_cons. destruct (decide (x = k)) as [->|Hne].
  - assert (g <$> l = f <$> l) as ->; [|lia]. apply list_fmap_ext. intros i y Hy. apply Hfg. intros ->.
    by apply list_elem_of_lookup_2 in Hy.
  - rewrite (Hfg x Hne), IH; [lia|done|]. by apply elem_of_cons in Hk as [?|].
Qed.

Definition over_shards (count : Z) (f : Z -> Z) : Z := zsum (f <$> shard_range count).

Lemma zget_insert m k v x : zget (<[k := v]> m) x = if decide (x = k) then v else zget m x.
Proof. unfold zget. destruct (decide (x = k)) as [->|Hne]; [by rewrite lookup_insert_eq|by rewrite lookup_insert_ne]. Qed.

Lemma over_shards_insert count m k v :
  0 <= k < count -> over_shards count (zget (<[k := v]> m)) = over_shards count (zget m) - zget m k + v.
Proof.
  intros Hk. unfold over_shards. rewrite (range_sum_update (zget m) _ _ k).
  - rewrite zget_insert, decide_True by done. done.
  - apply NoDup_seqZ.
  - unfold shard_range. apply elem_of_seqZ. lia.
  - intros x Hx. by rewrite zget_insert, decide_False.
Qed.

Lemma addTo_Ok target value w : u64 target -> 0 <= value -> addTo target value = Ok w -> w = target + value /\ u64 w.
Proof.
  intros Ht Hv E. apply bind_Ok in E as ([] & Ho%fail_if_Ok & E). apply Ok_inj in E. subst w.
  destruct (add64_small target value Ht Hv Ho) as [-> ?]. done.
Qed.

Lemma u64_mod z : u64 (z mod 2 ^ 64).
Proof. unfold u64. apply Z.mod_pos_bound. done. Qed.

Lemma addTo_u64 target value w : addTo target value = Ok w -> u64 w.
Proof. intros E. apply bind_Ok in E as ([] & _ & E). apply Ok_inj in E. subst w. apply u64_mod. Qed.

(** ** The accumulator of a shard *)

Record acc_ok (policy : VelocityPolicy) (acc : shardEpochAccumulator) : Prop := {
  ao_fees : fa_Burn (ac_fees acc) = fa_Total (ac_fees acc) /\ fa_Validators (ac_fees acc) = 0 /\
    fa_Reserve (ac_fees acc) = 0 /\ u64 (fa_Total (ac_fees acc));
  ao_resources : u64 (ac_resourceUsed acc) /\ u64 (ac_resourceCapacity acc);
  ao_flow : u64 (ac_openingBacklog acc) /\ u64 (ac_newDemand acc) /\ u64 (ac_fulfilled acc) /\ u64 (ac_expired acc) /\
    u64 (ac_closingBacklog acc) /\
    ac_openingBacklog acc + ac_newDemand acc = ac_fulfilled acc + ac_expired acc + ac_closingBacklog acc;
  ao_velocity : va_policy (ac_velocity acc) = policy /\ 0 <= va_weightedValueBps (ac_velocity acc);
}.

Definition policy_valid (p : VelocityPolicy) : Prop :=
  0 < vp_FullWeightAgeBlocks p /\ 0 < vp_MaxVelocityBps p <= 10 * BasisPoints.

Record config_typed (config : EpochCollectorConfig) : Prop := {
  ct_policy : policy_valid (cc_VelocityPolicy config);
  ct_count : 0 < cc_ShardCount config;
  ct_supply : forall shard, 0 <= shard < cc_ShardCount config -> u64 (zget (cc_InitialCirculatingSupply config) shard);
  ct_backlog : forall shard, 0 <= shard < cc_ShardCount config -> u64 (zget (cc_OpeningComputeBacklog config) shard);
  ct_capacity : forall shard, 0 <= shard < cc_ShardCount config -> 0 < zget (cc_ResourceCapacityPerBlock config) shard;
  ct_registry : forall registry workload spec, cc_WorkRegistry config = Some registry ->
    Resolve registry workload = Some spec -> 0 <= ws_Units spec;
}.

(** The transactions and receipts of a block are values of their Go types. *)
Definition observation_typed (ob : FinalizedShardObservation) : Prop :=
  Forall (fun t => u64 (t_Fee t)) (ob_Transactions ob) /\
  Forall (fun r => 0 <= SourceShard r /\ 0 <= DestinationShard r) (ob_Imports ob).

Section books.
Context `{HC : Crypto} `{HM : MapOrder} `{HH : ScriptHost} `{HI : IdleCapital}.

Definition supply_total (c : EpochCollector) : Z := over_shards (cc_ShardCount (cl_config c)) (zget (cl_supply c)).
Definition supply_typed (c : EpochCollector) : Prop :=
  forall shard, 0 <= shard < cc_ShardCount (cl_config c) -> u64 (zget (cl_supply c) shard).

(** What a step inside a block leaves alone. *)
Definition same_frame (c c' : EpochCollector) : Prop :=
  cl_config c' = cl_config c /\ cl_shards c' = cl_shards c /\ cl_lastHeight c' = cl_lastHeight c.

Lemma same_frame_trans c1 c2 c3 : same_frame c1 c2 -> same_frame c2 c3 -> same_frame c1 c3.
Proof. intros (?&?&?) (?&?&?). split_and!; congruence. Qed.

Lemma native_value_u64 receipt token amount carries :
  finalizedReceiptNativeValue receipt token = Ok (amount, carries) -> u64 amount.
Proof.
  unfold finalizedReceiptNativeValue. intros E. assert (u64 0) as H0 by done.
  destruct (_ =? KindCoin).
  { apply bind_Ok in E as (coin & Hc & E). apply ParseCoin_Ok in Hc as (((_ & Ha & _) & _) & _).
    destruct (negb _); apply Ok_inj in E; by injection E as <- _. }
  destruct (_ =? KindCrossLoanOffer).
  { apply bind_Ok in E as (m & Hm%or_err_Ok & E). pose proof (wire_parse_typed (A := CrossOffer) _ m Hm) as (_ & _ & _ & _ & _ & _ & Hp & _).
    apply Ok_inj in E. by injection E as <- _. }
  destruct (_ =? KindCrossLoanAcceptance).
  { apply bind_Ok in E as (m & Hm%or_err_Ok & E). pose proof (wire_parse_typed (A := CrossAcceptance) _ m Hm) as (_ & _ & _ & _ & _ & _ & _ & _ & Hp & _).
    destruct (_ =? 0); apply Ok_inj in E; by injection E as <- _. }
  destruct (_ =? KindCrossLoanRepayment).
  { apply bind_Ok in E as (m & Hm%or_err_Ok & E). pose proof (wire_parse_typed (A := CrossRepayment) _ m Hm) as (_ & _ & _ & _ & Hp & _).
    apply Ok_inj in E. by injection E as <- _. }
  apply Ok_inj in E. by injection E as <- _.
Qed.

(** A receipt moves supply between two shards. *)
Lemma import_conserves c receipt c' :
  supply_typed c -> 0 <= SourceShard receipt < cc_ShardCount (cl_config c) ->
  0 <= DestinationShard receipt < cc_ShardCount (cl_config c) -> SourceShard receipt <> DestinationShard receipt ->
  observeImportedReceipt c receipt = Ok c' ->
  same_frame c c' /\ supply_typed c' /\ supply_total c' = supply_total c.
Proof.
  intros Ht Hs Hd Hne E. apply bind_Ok in E as ([amount carries] & Hv%native_value_u64 & E).
  destruct carries; cbn [negb] in E; [|by apply Ok_inj in E as <-].
  apply bind_Ok in E as ([] & Hg%fail_if_Ok & E). apply Ok_inj in E. apply orb_false_iff in Hg as [Hg1 Hg2].
  apply Z.ltb_ge in Hg1. pose proof (Ht _ Hs) as Hus. pose proof (Ht _ Hd) as Hud.
  rewrite zget_insert, decide_False in E by done. destruct (add64_small _ amount Hud ltac:(apply Hv) Hg2) as [Ha Hau].
  assert (sub64 (zget (cl_supply c) (SourceShard receipt)) amount = zget (cl_supply c) (SourceShard receipt) - amount) as Hsub.
  { unfold sub64, u64 in *. apply Z.mod_small. lia. }
  rewrite Ha, Hsub in E. subst c'. split; [done|]. split.
  - intros k Hk. cbn [cl_supply set_supply cl_config] in *. rewrite !zget_insert. destruct (decide _); [done|].
    destruct (decide _); [unfold u64 in *; lia|by apply Ht].
  - unfold supply_total. cbn [cl_supply set_supply cl_config]. rewrite !over_shards_insert by done.
    rewrite zget_insert, decide_False by done. lia.
Qed.

Lemma observe_spend_ok policy token height consumed v w v' :
  policy_valid policy -> va_policy v = policy /\ 0 <= va_weightedValueBps v ->
  observe_spend token height consumed v w = Ok v' -> va_policy v' = policy /\ 0 <= va_weightedValueBps v'.
Proof.
  intros Hp [Hv Hw] E. unfold observe_spend in E. destruct (_ || _); [by apply Ok_inj in E as <-|].
  apply bind_Ok in E as (coin & Hc & E). destruct (bool_decide _); [|by apply Ok_inj in E as <-].
  apply ParseCoin_Ok in Hc as (((_ & Ha & _) & _) & _). unfold ObserveCoin in E. cbv zeta in E.
  destruct (_ =? 0); [done|]. destruct (CreatedHeight coin =? 0); [by apply Ok_inj in E as <-|].
  destruct (height <=? _); [done|]. destruct (_ <? vp_MinAgeBlocks _); apply Ok_inj in E as <-; cbn; [done|].
  split; [done|]. rewrite Hv. destruct Hp as [Hf _]. unfold BasisPoints.
  set (age := if vp_FullWeightAgeBlocks policy <? _ then _ else _). assert (0 <= age) as Hage.
  { subst age. destruct (_ <? _); [lia|]. apply u64_mod. }
  rewrite Z.quot_div_nonneg by lia. assert (0 <= age * 10000 / vp_FullWeightAgeBlocks policy) by (apply Z.div_pos; lia).
  unfold u64 in Ha. nia.
Qed.

(** What the transactions and the receipts do to the books of one shard. *)
Record step_ok (policy : VelocityPolicy) (st st' : EpochCollector * shardEpochAccumulator) : Prop := {
  st_frame : same_frame st.1 st'.1;
  st_supply : supply_typed st'.1;
  st_acc : acc_ok policy st'.2;
  st_total : supply_total st'.1 + fa_Burn (ac_fees st'.2) = supply_total st.1 + fa_Burn (ac_fees st.2);
  st_capacity : ac_resourceCapacity st'.2 = ac_resourceCapacity st.2 /\ ac_openingBacklog st'.2 = ac_openingBacklog st.2;
}.

Lemma lifecycle_ok policy c t result acc c' acc' :
  config_typed (cl_config c) -> supply_typed c -> acc_ok policy acc ->
  observeComputeLifecycle c t result acc = Ok (c', acc') -> step_ok policy (c, acc) (c', acc').
Proof.
  intros Hcfg Hs Ha E. unfold observeComputeLifecycle in E. cbv zeta in E.
  assert (step_ok policy (c, acc) (c, acc)) as Hid by (by constructor).
  destruct (cc_WorkRegistry (cl_config c)) as [registry|] eqn:Er; [|apply Ok_inj in E; by injection E as <- <-].
  destruct (t_Operations t) as [|op [|]]; [apply Ok_inj in E; by injection E as <- <-| |apply Ok_inj in E; by injection E as <- <-].
  pose proof Ha as [Hf Hr (F1 & F2 & F3 & F4 & F5 & F6) Hv].
  assert (forall units, ac_closingBacklog acc <? units = false -> 0 <= units ->
    sub64 (ac_closingBacklog acc) units = ac_closingBacklog acc - units /\ u64 (ac_closingBacklog acc - units)) as Hsub.
  { intros units Hlt Hge. unfold sub64, u64 in *. split; [apply Z.mod_small|]; lia. }
  destruct (op_Kind op =? OpComputeJob).
  { apply bind_Ok in E as (job & _ & E). destruct (Resolve _ _) as [spec|] eqn:Es; [|apply Ok_inj in E; by injection E as <- <-].
    pose proof (ct_registry _ Hcfg _ _ _ Er Es) as Hu. apply bind_Ok in E as (demand & Hd & E).
    apply bind_Ok in E as (closing & Hcl & E). apply Ok_inj in E. injection E as <- <-.
    apply addTo_Ok in Hd as [-> ?], Hcl as [-> ?]; try done. constructor; try done. constructor; cbn; try done.
    split_and!; try done. lia. }
  destruct (_ || _).
  { apply bind_Ok in E as (found & _ & E). apply bind_Ok in E as (record & _ & E).
    destruct (Resolve _ _) as [spec|] eqn:Es; [|apply Ok_inj in E; by injection E as <- <-].
    pose proof (ct_registry _ Hcfg _ _ _ Er Es) as Hu. apply bind_Ok in E as (receipt & _ & E).
    apply bind_Ok in E as (verified & _ & E). apply bind_Ok in E as ([] & _ & E).
    apply bind_Ok in E as ([] & Hlt%fail_if_Ok & E). apply bind_Ok in E as (fulfilled & Hfu & E).
    apply Ok_inj in E. injection E as <- <-. apply addTo_Ok in Hfu as [-> ?]; [|done|done].
    destruct (Hsub _ Hlt Hu) as [-> ?]. constructor; try done. constructor; cbn; try done. split_and!; try done. lia. }
  destruct (_ =? OpComputeExpire); [|apply Ok_inj in E; by injection E as <- <-].
  apply bind_Ok in E as (found & _ & E). apply bind_Ok in E as (record & _ & E).
  destruct (Resolve _ _) as [spec|] eqn:Es; [|apply Ok_inj in E; by injection E as <- <-].
  pose proof (ct_registry _ Hcfg _ _ _ Er Es) as Hu. apply bind_Ok in E as ([] & Hlt%fail_if_Ok & E).
  apply bind_Ok in E as (expired & Hex & E). apply Ok_inj in E. injection E as <- <-.
  apply addTo_Ok in Hex as [-> ?]; [|done|done]. destruct (Hsub _ Hlt Hu) as [-> ?].
  constructor; try done. constructor; cbn; try done. split_and!; try done. lia.
Qed.

Lemma step_ok_trans policy a b c : step_ok policy a b -> step_ok policy b c -> step_ok policy a c.
Proof.
  intros [A1 A2 A3 A4 [A5 A6]] [B1 B2 B3 B4 [B5 B6]]. constructor; try done; [by eapply same_frame_trans|lia|split; congruence].
Qed.

(** A fee leaves the supply of its shard and is counted as burned. *)
Lemma transaction_ok height shard c acc t result c' acc' :
  config_typed (cl_config c) -> supply_typed c -> acc_ok (cc_VelocityPolicy (cl_config c)) acc ->
  0 <= shard < cc_ShardCount (cl_config c) -> u64 (t_Fee t) ->
  observeFinalizedTransaction height shard c acc t result = Ok (c', acc') ->
  step_ok (cc_VelocityPolicy (cl_config c)) (c, acc) (c', acc').
Proof.
  intros Hcfg Hs Ha Hsh Hfee E. apply bind_Ok in E as (allocation & Hal%or_err_Ok & E).
  apply bind_Ok in E as ([] & Hz%fail_if_Ok & E). apply bind_Ok in E as (total & Htot & E).
  apply bind_Ok in E as (burn & Hburn & E). apply bind_Ok in E as ([] & Hlt%fail_if_Ok & E). cbv zeta in E.
  apply bind_Ok in E as (operations & _ & E). apply bind_Ok in E as (units & Hun & E).
  apply bind_Ok in E as (used & Hus%addTo_u64 & E). apply bind_Ok in E as (velocity & Hvel & E).
  assert (fa_Total allocation = t_Fee t /\ fa_Burn allocation = t_Fee t) as [Ht1 Ht2].
  { unfold SplitFee in Hal. apply bind_Ok in Hal as (? & _ & Hal). apply bind_Ok in Hal as (v & _ & Hal).
    apply bind_Ok in Hal as (rs & _ & Hal). apply bind_Ok in Hal as ([] & _ & Hal). apply Ok_inj in Hal. subst allocation.
    cbn [fa_Validators fa_Reserve fa_Total fa_Burn] in *. apply orb_false_iff in Hz as [Hz1 Hz2].
    apply negb_false_iff, Z.eqb_eq in Hz1, Hz2. subst v rs. split; [done|]. unfold sub64. rewrite !Z.sub_0_r.
    unfold u64 in Hfee. by rewrite !(Z.mod_small (t_Fee t)). }
  pose proof Ha as [(F1 & F2 & F3 & F4) [R1 R2] Hfl Hv]. rewrite Ht1 in Htot. rewrite Ht2 in Hburn, Hlt. rewrite F1 in Hburn.
  apply addTo_Ok in Htot as [-> Hut]; [|done|apply Hfee]. apply addTo_Ok in Hburn as [-> _]; [|done|apply Hfee].
  apply Z.ltb_ge in Hlt. pose proof (Hs shard Hsh) as Hsu.
  assert (sub64 (zget (cl_supply c) shard) (t_Fee t) = zget (cl_supply c) shard - t_Fee t) as Hsub.
  { unfold sub64, u64 in *. apply Z.mod_small. lia. }
  set (c1 := set_supply c _) in E. set (acc1 := mkAccumulator _ _ _ _ _ _ _ _ _ _ _ _) in E.
  assert (step_ok (cc_VelocityPolicy (cl_config c)) (c, acc) (c1, acc1)) as H1.
  { constructor; cbn [fst snd]; try done.
    - intros k Hk. subst c1. cbn [cl_supply set_supply]. rewrite zget_insert. destruct (decide _); [|by apply Hs].
      rewrite Ht2, Hsub. unfold u64 in *. lia.
    - subst acc1. constructor; cbn; try done.
      refine (rfold_inv (fun (v : VelocityAccumulator) _ => va_policy v = cc_VelocityPolicy (cl_config c) /\
        0 <= va_weightedValueBps v) _ _ _ _ [] Hv _ Hvel). intros v v' _ w Hv' _ Ho.
      eapply observe_spend_ok; [apply Hcfg|exact Hv'|exact Ho].
    - unfold supply_total. subst c1 acc1. cbn [cl_supply set_supply cl_config ac_fees fa_Burn].
      rewrite over_shards_insert by done. rewrite Ht2, Hsub, F1. lia. }
  eapply step_ok_trans; [exact H1|]. eapply lifecycle_ok; [exact Hcfg|apply (st_supply _ _ _ H1)|apply (st_acc _ _ _ H1)|exact E].
Qed.

(** ** Blocks *)

Definition burn_total (c : EpochCollector) : Z :=
  over_shards (cc_ShardCount (cl_config c)) (fun shard => fa_Burn (ac_fees (shard_accumulator c shard))).

Record books_ok (c : EpochCollector) : Prop := {
  bo_config : config_typed (cl_config c);
  bo_supply : supply_typed c;
  bo_shard : forall shard, 0 <= shard < cc_ShardCount (cl_config c) ->
    acc_ok (cc_VelocityPolicy (cl_config c)) (shard_accumulator c shard) /\
    ac_resourceUsed (shard_accumulator c shard) <= ac_resourceCapacity (shard_accumulator c shard);
}.

Lemma shard_accumulator_set c shard acc k :
  shard_accumulator (set_shard c shard acc) k = if decide (k = shard) then acc else shard_accumulator c k.
Proof.
  unfold shard_accumulator. cbn [cl_shards set_shard cl_config]. destruct (decide (k = shard)) as [->|Hne].
  - by rewrite lookup_insert_eq.
  - by rewrite lookup_insert_ne.
Qed.

(** What one block does to one shard, seen from the outside. *)
Record shard_step (c c' : EpochCollector) : Prop := {
  ss_books : books_ok c';
  ss_config : cl_config c' = cl_config c;
  ss_total : supply_total c' + burn_total c' = supply_total c + burn_total c;
  ss_opening : forall k, ac_openingBacklog (shard_accumulator c' k) = ac_openingBacklog (shard_accumulator c k);
}.

Lemma transactions_ok policy height shard exports st l st' :
  config_typed (cl_config st.1) -> cc_VelocityPolicy (cl_config st.1) = policy -> supply_typed st.1 -> acc_ok policy st.2 ->
  0 <= shard < cc_ShardCount (cl_config st.1) -> Forall (fun p => u64 (t_Fee p.1)) l ->
  rfold (observe_transaction height shard exports) st l = Ok st' -> step_ok policy st st'.
Proof.
  intros Hcfg Hp Hs Ha Hsh Hl E. rewrite Forall_forall in Hl.
  refine (rfold_inv (fun (st1 : EpochCollector * shardEpochAccumulator) _ => step_ok policy st st1) _ _ _ _ [] _ _ E).
  { by destruct st. }
  intros [c acc] [c' acc'] _ [t result] Hst Hin Ho. eapply step_ok_trans; [exact Hst|].
  destruct (st_frame _ _ _ Hst) as (Hc & _). cbn [fst] in Hc. unfold observe_transaction in Ho.
  apply bind_Ok in Ho as ([] & _ & Ho). apply bind_Ok in Ho as ([c1 acc1] & H1 & Ho). apply bind_Ok in Ho as (c2 & H2 & Ho).
  apply Ok_inj in Ho. injection Ho as <- <-. specialize (Hl _ Hin). cbn [fst] in Hl.
  apply transaction_ok in H1; [|by rewrite Hc|apply (st_supply _ _ _ Hst)|rewrite Hc, Hp; apply (st_acc _ _ _ Hst)|by rewrite Hc|done].
  rewrite Hc, Hp in H1. eapply step_ok_trans; [exact H1|]. unfold track_transaction in H2.
  assert (c2 = c1 \/ exists tr, c2 = set_tracker c1 tr) as Hc2.
  { destruct (cl_idleCapital c1); [|left; by apply Ok_inj in H2]. right. res_inv. by eexists. }
  destruct H1 as [(?&?&?) ? ? ? ?]. destruct Hc2 as [->|[tr ->]]; by constructor.
Qed.

Lemma imports_ok policy shard st l st' :
  cc_VelocityPolicy (cl_config st.1) = policy -> supply_typed st.1 -> acc_ok policy st.2 ->
  0 <= shard < cc_ShardCount (cl_config st.1) -> Forall (fun r => 0 <= SourceShard r /\ 0 <= DestinationShard r) l ->
  rfold (observe_import shard) st l = Ok st' -> step_ok policy st st'.
Proof.
  intros Hp Hs Ha Hsh Hl E. rewrite Forall_forall in Hl.
  refine (rfold_inv (fun (st1 : EpochCollector * shardEpochAccumulator) _ => step_ok policy st st1) _ _ _ _ [] _ _ E).
  { by destruct st. }
  intros [c acc] [c' acc'] _ r Hst Hin Ho. eapply step_ok_trans; [exact Hst|].
  destruct (st_frame _ _ _ Hst) as (Hc & _). cbn [fst] in Hc. unfold observe_import in Ho.
  apply bind_Ok in Ho as ([] & Hg%fail_if_Ok & Ho). apply bind_Ok in Ho as (c1 & H1 & Ho). apply bind_Ok in Ho as (c2 & H2 & Ho).
  apply bind_Ok in Ho as (ops & _ & Ho). apply bind_Ok in Ho as (used & Hu%addTo_u64 & Ho). apply Ok_inj in Ho.
  injection Ho as <- <-. repeat (apply orb_false_iff in Hg as [Hg ?]). apply negb_false_iff, Z.eqb_eq in Hg.
  destruct (Hl r Hin) as [Hr1 Hr2].
  apply import_conserves in H1 as (F1 & F2 & F3); [|apply (st_supply _ _ _ Hst)|lia|rewrite Hc; lia|lia].
  assert (c2 = c1 \/ exists tr, c2 = set_tracker c1 tr) as Hc2.
  { destruct (cl_idleCapital c1); [|left; by apply Ok_inj in H2]. right. res_inv. by eexists. }
  destruct (st_acc _ _ _ Hst) as [A1 [A2 A3] A4 A5]. cbn [snd] in *.
  destruct F1 as (?&?&?). destruct Hc2 as [->|[tr ->]]; constructor; cbn [fst snd ac_fees]; try done.
  - rewrite F3. done.
  - change (supply_total (set_tracker c1 tr)) with (supply_total c1). by rewrite F3.
Qed.

Lemma observe_shard_step height observations c shard c' :
  books_ok c -> 0 <= shard < cc_ShardCount (cl_config c) -> (forall k ob, observations !! k = Some ob -> observation_typed ob) ->
  observe_shard height observations c shard = Ok c' -> shard_step c c'.
Proof.
  intros [Hcfg Hsup Hacc] Hsh Hob E. apply bind_Ok in E as ([] & _ & E). apply bind_Ok in E as ([] & _ & E).
  apply bind_Ok in E as (capacity & Hcap%addTo_u64 & E). apply bind_Ok in E as (supply & _ & E). cbv zeta in E.
  apply bind_Ok in E as (st & Htx & E). apply bind_Ok in E as ([c2 acc2] & Him & E). apply bind_Ok in E as (du & _ & E).
  apply bind_Ok in E as (used & Hu%addTo_u64 & E). apply bind_Ok in E as ([] & Hle%fail_if_Ok & E). apply Ok_inj in E.
  apply Z.ltb_ge in Hle. set (ob := default no_observation (observations !! shard)) in *.
  assert (observation_typed ob) as [Ho1 Ho2].
  { subst ob. destruct (observations !! shard) eqn:Eo; [by eapply Hob|by split]. }
  destruct (Hacc shard Hsh) as [Ha _]. set (acc1 := mkAccumulator _ _ _ _ _ _ _ _ _ _ _ _) in Htx.
  assert (acc_ok (cc_VelocityPolicy (cl_config c)) acc1) as Ha1.
  { destruct Ha as [A1 [A2 A3] A4 A5]. constructor; try done. }
  apply (transactions_ok (cc_VelocityPolicy (cl_config c))) in Htx; [|done..|].
  2:{ apply Forall_forall. intros [t res] Hin. apply elem_of_zip_l in Hin. rewrite Forall_forall in Ho1. by apply Ho1. }
  destruct (st_frame _ _ _ Htx) as (Hc1 & _). cbn [fst] in Hc1.
  apply (imports_ok (cc_VelocityPolicy (cl_config c))) in Him;
    [|by rewrite Hc1|apply (st_supply _ _ _ Htx)|apply (st_acc _ _ _ Htx)|by rewrite Hc1|done].
  pose proof (step_ok_trans _ _ _ _ Htx Him) as [(F1 & F2 & _) Fs Fa Ft [Fc Fo]]. cbn [fst snd] in *.
  set (acc3 := mkAccumulator _ _ _ _ _ _ _ _ _ _ _ _) in E.
  assert (acc_ok (cc_VelocityPolicy (cl_config c)) acc3) as Ha3.
  { destruct Fa as [A1 [A2 A3] A4 A5]. constructor; try done. }
  assert (forall k, shard_accumulator c2 k = shard_accumulator c k) as Hsame.
  { intros k. unfold shard_accumulator. by rewrite F1, F2. }
  subst c'. constructor.
  - constructor.
    + cbn [cl_config set_shard]. by rewrite F1.
    + intros k Hk. cbn [cl_config set_shard cl_supply] in *. by apply Fs.
    + intros k Hk. cbn [cl_config set_shard] in Hk |- *. rewrite F1 in Hk |- *. rewrite shard_accumulator_set.
      destruct (decide (k = shard)); [done|]. rewrite Hsame. by apply Hacc.
  - done.
  - change (supply_total (set_shard c2 shard acc3)) with (supply_total c2). unfold burn_total. cbn [cl_config set_shard].
    rewrite F1. unfold over_shards at 1.
    rewrite (range_sum_update (fun k => fa_Burn (ac_fees (shard_accumulator c k))) _ _ shard).
    + rewrite shard_accumulator_set, decide_True by done. unfold over_shards. subst acc3. cbn [ac_fees].
      subst acc1. cbn [ac_fees] in Ft. lia.
    + apply NoDup_seqZ.
    + apply elem_of_seqZ. lia.
    + intros k Hk. rewrite shard_accumulator_set, decide_False by done. by rewrite Hsame.
  - intros k. rewrite shard_accumulator_set. destruct (decide (k = shard)) as [->|Hk]; [|by rewrite Hsame].
    subst acc3. cbn [ac_openingBacklog]. rewrite Fo. done.
Qed.

Lemma shard_step_trans a b c : shard_step a b -> shard_step b c -> shard_step a c.
Proof. intros [A1 A2 A3 A4] [B1 B2 B3 B4]. constructor; [done|congruence|lia|]. intros k. by rewrite B4. Qed.

Lemma block_step c height observations c' :
  books_ok c -> (forall k ob, observations !! k = Some ob -> observation_typed ob) ->
  PreviewFinalizedBlock c height observations = Ok c' -> shard_step c c'.
Proof.
  intros Hb Hob E. apply bind_Ok in E as ([] & _ & E). apply bind_Ok in E as (c1 & H1 & E). apply Ok_inj in E. subst c'.
  assert (shard_step c c1) as [H2 H3 H4 H5].
  { refine (rfold_inv (fun (x : EpochCollector) _ => shard_step c x) _ _ _ _ [] _ _ H1); [by constructor|].
    intros x y _ k Hx Hin Ho. eapply shard_step_trans; [exact Hx|]. eapply observe_shard_step; [apply Hx| |exact Hob|exact Ho].
    rewrite (ss_config _ _ Hx). unfold shard_range in Hin. apply elem_of_seqZ in Hin. lia. }
  destruct H2. by constructor.
Qed.

(** ** Epochs *)

(** [reach c0 c]: [c0] opened the current epoch of [c]. *)
Inductive reach : EpochCollector -> EpochCollector -> Prop :=
  | rc_new config c : config_typed config -> NewEpochCollector config = Ok c -> reach c c
  | rc_track c0 c tracker c' : reach c0 c -> EnableIdleCapitalTracking c tracker = Ok c' -> reach c0 c'
  | rc_block c0 c height observations c' :
      reach c0 c -> (forall k ob, observations !! k = Some ob -> observation_typed ob) ->
      PreviewFinalizedBlock c height observations = Ok c' -> reach c0 c'
  | rc_advance c0 c next c' : reach c0 c -> AdvanceEpoch c next = Ok c' -> reach c' c'.

(** A collector at the start of an epoch. *)
Definition fresh (c : EpochCollector) : Prop :=
  books_ok c /\ forall shard, 0 <= shard < cc_ShardCount (cl_config c) ->
    fa_Burn (ac_fees (shard_accumulator c shard)) = 0 /\
    ac_openingBacklog (shard_accumulator c shard) = ac_closingBacklog (shard_accumulator c shard).

Lemma opening_acc_ok policy backlog : u64 backlog -> acc_ok policy (opening_accumulator backlog (mkVelocityAccumulator policy 0 0 0 0 0)).
Proof. intros Hb. constructor; cbn; try done. split_and!; try done. lia. Qed.

Lemma NewVelocity_Ok policy v : NewVelocityAccumulator policy = Ok v -> v = mkVelocityAccumulator policy 0 0 0 0 0.
Proof. intros E. apply bind_Ok in E as ([] & _ & E). by apply Ok_inj in E. Qed.

Lemma fresh_burn c : fresh c -> burn_total c = 0.
Proof.
  intros [_ Hf]. unfold burn_total, over_shards.
  assert (forall l, (forall k, k ∈ l -> 0 <= k < cc_ShardCount (cl_config c)) ->
    zsum ((fun shard => fa_Burn (ac_fees (shard_accumulator c shard))) <$> l) = 0) as Hg.
  { induction l as [|x l IH]; intros Hl; [done|]. cbn [fmap list_fmap]. rewrite zsum_cons, (proj1 (Hf x (Hl x ltac:(left)))).
    rewrite IH; [lia|]. intros k Hk. apply Hl. by right. }
  apply Hg. intros k Hk%elem_of_seqZ. lia.
Qed.

Lemma fresh_of c (backlog : Z -> Z) :
  config_typed (cl_config c) -> supply_typed c ->
  (forall k, 0 <= k < cc_ShardCount (cl_config c) -> u64 (backlog k) /\
     shard_accumulator c k = opening_accumulator (backlog k) (mkVelocityAccumulator (cc_VelocityPolicy (cl_config c)) 0 0 0 0 0)) ->
  fresh c.
Proof.
  intros Hcfg Hs Hk. split; [constructor; [done|done|]|]; intros k Hin; destruct (Hk k Hin) as [Hb ->]; [|done].
  split; [by apply opening_acc_ok|done].
Qed.

Lemma new_fresh config c : config_typed config -> NewEpochCollector config = Ok c -> fresh c.
Proof.
  intros Hcfg E. apply bind_Ok in E as ([] & _ & E). apply bind_Ok in E as (v & _ & E).
  assert (cl_config c = config /\ forall k, k ∈ shard_range (cc_ShardCount config) ->
    shard_accumulator c k = opening_accumulator (zget (cc_OpeningComputeBacklog config) k)
      (mkVelocityAccumulator (cc_VelocityPolicy config) 0 0 0 0 0) /\
    zget (cl_supply c) k = zget (cc_InitialCirculatingSupply config) k) as [Hc Hk].
  { refine (rfold_inv (fun (x : EpochCollector) (l : list Z) => cl_config x = config /\ forall k, k ∈ l ->
      shard_accumulator x k = opening_accumulator (zget (cc_OpeningComputeBacklog config) k)
        (mkVelocityAccumulator (cc_VelocityPolicy config) 0 0 0 0 0) /\
      zget (cl_supply x) k = zget (cc_InitialCirculatingSupply config) k) _ _ _ _ [] _ _ E).
    { split; [done|]. by intros k ?%elem_of_nil. }
    intros x y l k [Hx Hl] _ Ho. apply bind_Ok in Ho as ([] & _ & Ho). apply bind_Ok in Ho as (w & ->%NewVelocity_Ok & Ho).
    apply Ok_inj in Ho. subst y. split; [done|]. intros j Hj. change (shard_accumulator (set_supply ?z ?m) j) with (shard_accumulator z j).
    cbn [cl_supply set_supply]. rewrite shard_accumulator_set, zget_insert. destruct (decide (j = k)) as [->|Hne]; [done|].
    apply Hl. by apply elem_of_app in Hj as [?|?%list_elem_of_singleton]. }
  assert (forall k, 0 <= k < cc_ShardCount config -> k ∈ shard_range (cc_ShardCount config)) as Hin.
  { intros k Hr. apply elem_of_seqZ. lia. }
  apply (fresh_of c (zget (cc_OpeningComputeBacklog config))); rewrite ?Hc; [done| |].
  - intros k Hr. rewrite Hc in Hr. destruct (Hk k (Hin k Hr)) as [_ ->]. by apply Hcfg.
  - intros k Hr. split; [by apply Hcfg|]. by apply Hk, Hin.
Qed.

Lemma advance_fresh c next c' : books_ok c -> AdvanceEpoch c next = Ok c' ->
  fresh c' /\ supply_total c' = supply_total c /\ cc_ShardCount (cl_config c') = cc_ShardCount (cl_config c) /\
  forall k, 0 <= k < cc_ShardCount (cl_config c) ->
    ac_openingBacklog (shard_accumulator c' k) = ac_closingBacklog (shard_accumulator c k).
Proof.
  intros [Hcfg Hsup Hacc] E. apply bind_Ok in E as ([] & _ & E). apply bind_Ok in E as (tracker & _ & E). cbv zeta in E.
  set (c1 := mkCollector _ _ _ _ _ _) in E.
  assert (cl_config c' = set_epoch (cl_config c) next /\ cl_supply c' = cl_supply c /\
    (forall k, ac_closingBacklog (shard_accumulator c' k) = ac_closingBacklog (shard_accumulator c k)) /\
    forall k, k ∈ shard_range (cc_ShardCount (cl_config c)) ->
      shard_accumulator c' k = opening_accumulator (ac_closingBacklog (shard_accumulator c k))
        (mkVelocityAccumulator (cc_VelocityPolicy (cl_config c)) 0 0 0 0 0)) as (H1 & H2 & H3 & H4).
  { refine (rfold_inv (fun (x : EpochCollector) (l : list Z) => cl_config x = set_epoch (cl_config c) next /\
      cl_supply x = cl_supply c /\
      (forall k, ac_closingBacklog (shard_accumulator x k) = ac_closingBacklog (shard_accumulator c k)) /\
      forall k, k ∈ l -> shard_accumulator x k = opening_accumulator (ac_closingBacklog (shard_accumulator c k))
        (mkVelocityAccumulator (cc_VelocityPolicy (cl_config c)) 0 0 0 0 0)) _ _ _ _ [] _ _ E).
    { split_and!; try done. by intros k ?%elem_of_nil. }
    intros x y l k (Hx & Hs & Hcl & Hl) _ Ho. apply bind_Ok in Ho as (w & ->%NewVelocity_Ok & Ho). apply Ok_inj in Ho. subst y.
    rewrite Hx. split_and!; try done.
    - intros j. rewrite shard_accumulator_set. destruct (decide (j = k)) as [->|Hne]; [cbn|]; apply Hcl.
    - intros j Hj. rewrite shard_accumulator_set. destruct (decide (j = k)) as [->|Hne]; [by rewrite Hcl|].
      apply Hl. by apply elem_of_app in Hj as [?|?%list_elem_of_singleton]. }
  assert (forall k, 0 <= k < cc_ShardCount (cl_config c) -> k ∈ shard_range (cc_ShardCount (cl_config c))) as Hin.
  { intros k Hr. apply elem_of_seqZ. lia. }
  split; [|split; [|split]].
  - apply (fresh_of c' (fun k => ac_closingBacklog (shard_accumulator c k))).
    + rewrite H1. destruct Hcfg. by constructor.
    + intros k Hr. rewrite H1 in Hr. rewrite H2. by apply Hsup.
    + intros k Hr. rewrite H1 in Hr |- *. split; [|by apply H4, Hin]. apply Hacc. done.
  - unfold supply_total. by rewrite H1, H2.
  - by rewrite H1.
  - intros k Hr. rewrite H4 by (by apply Hin). done.
Qed.

Lemma reach_books c0 c : reach c0 c ->
  fresh c0 /\ books_ok c /\ cl_config c = cl_config c0 /\ supply_total c + burn_total c = supply_total c0 /\
  forall k, ac_openingBacklog (shard_accumulator c k) = ac_openingBacklog (shard_accumulator c0 k).
Proof.
  induction 1 as [config c Hc E|c0 c tracker c' _ IH E|c0 c height obs c' _ IH Hob E|c0 c next c' _ IH E].
  - pose proof (new_fresh _ _ Hc E) as Hf. split_and!; try done; [apply Hf|]. rewrite fresh_burn by done. lia.
  - destruct IH as (I1 & [] & I3 & I4 & I5). apply bind_Ok in E as ([] & _ & E). apply Ok_inj in E. subst c'. by split_and!.
  - destruct IH as (I1 & I2 & I3 & I4 & I5). apply block_step in E as [S1 S2 S3 S4]; [|done|done].
    split_and!; try done; [congruence|lia|]. intros k. by rewrite S4.
  - destruct IH as (I1 & I2 & I3 & I4 & I5). destruct (advance_fresh _ _ _ I2 E) as (Hf & _). split_and!; try done; [apply Hf|].
    rewrite fresh_burn by done. lia.
Qed.

(** ** Closing an epoch *)

(** What the code cannot rule out block by block: the epoch number wrapped, no
    block was seen, reported supply below the fulfilled work, or a flow beyond
    64 bits. *)
Definition closable (c : EpochCollector) : Prop :=
  cc_Epoch (cl_config c) <> 0 /\ forall shard, 0 <= shard < cc_ShardCount (cl_config c) ->
    0 < ac_resourceCapacity (shard_accumulator c shard) /\
    (ac_computeSupplyReliable (shard_accumulator c shard) = true ->
       ac_fulfilled (shard_accumulator c shard) <= ac_computeSupply (shard_accumulator c shard)) /\
    ac_openingBacklog (shard_accumulator c shard) + ac_newDemand (shard_accumulator c shard) <= MaxUint64.

Lemma velocity_bound policy v supply snap :
  policy_valid policy -> va_policy v = policy -> 0 <= va_weightedValueBps v -> 0 < supply ->
  Velocity_Finalize v supply = Ok snap -> vs_AgeWeightedVelocityBps snap <= 10 * BasisPoints.
Proof.
  intros [_ Hp] Hv Hw Hs E. apply bind_Ok in E as ([] & _ & E). apply Ok_inj in E. subst snap. cbn. rewrite Hv.
  unfold BasisPoints in *. rewrite Z.quot_div_nonneg by lia. assert (0 <= va_weightedValueBps v / supply) by (apply Z.div_pos; lia).
  destruct (Z.ltb_spec (vp_MaxVelocityBps policy) (va_weightedValueBps v / supply)); rewrite uint32_small; unfold u32; lia.
Qed.

Lemma shard_metrics_Ok c shard : books_ok c -> closable c -> 0 <= shard < cc_ShardCount (cl_config c) ->
  exists m, shard_metrics c shard = Ok m /\ em_BurnedFees m = fa_Burn (ac_fees (shard_accumulator c shard)) /\
    em_CirculatingNativeSupply m = zget (cl_supply c) shard.
Proof.
  intros [Hcfg Hsup Hacc] [Hep Hcl] Hsh. destruct (Hacc shard Hsh) as [[(F1 & F2 & F3 & F4) _ (G1 & G2 & G3 & G4 & G5 & G6) [V1 V2]] Hle].
  destruct (Hcl shard Hsh) as (C1 & C2 & C3). unfold shard_metrics. cbv zeta.
  set (acc := shard_accumulator c shard) in *.
  assert (exists v, (if 0 <? zget (cl_supply c) shard
            then vs_AgeWeightedVelocityBps <$> Velocity_Finalize (ac_velocity acc) (zget (cl_supply c) shard) else Ok 0) = Ok v /\
            v <= 10 * BasisPoints) as (v & -> & Hv).
  { destruct (Z.ltb_spec 0 (zget (cl_supply c) shard)); [|exists 0; split; [done|unfold BasisPoints; lia]].
    destruct (Velocity_Finalize (ac_velocity acc) _) as [snap|] eqn:Ef.
    - exists (vs_AgeWeightedVelocityBps snap). split; [done|]. eapply velocity_bound; [apply Hcfg|exact V1|exact V2| |exact Ef]. done.
    - unfold Velocity_Finalize in Ef. destruct (Z.eqb_spec (zget (cl_supply c) shard) 0); [lia|done]. }
  cbn [mbind res_bind]. set (m := mkShardEpochMetrics _ _ _ _ _ _ _ _ _ _ _ _ _ _ _ _ _ _ _).
  assert (ShardEpochMetrics_Validate m = Ok tt) as ->; [|by exists m].
  unfold ShardEpochMetrics_Validate, validComputeFlow. subst m.
  cbn [em_Version em_Epoch em_ResourceCapacity em_ResourceUsed em_AgeWeightedVelocityBps em_ComputeSupplyReliable
    em_VerifiedComputeSupply em_ComputeFulfilled em_OpeningComputeBacklog em_EscrowBackedComputeDemand em_ComputeExpired
    em_ComputeBacklog em_BurnedFees em_ValidatorFees em_ReserveFees em_ChargedFees].
  rewrite <-G6, Z.eqb_refl. assert (IsUint64 (ac_openingBacklog acc + ac_newDemand acc) = true) as ->.
  { apply IsUint64_spec. unfold u64, MaxUint64 in *. lia. }
  rewrite (proj2 (Z.ltb_ge _ _) Hle), (proj2 (Z.ltb_ge _ _) Hv). rewrite (proj2 (Z.eqb_neq _ _) Hep).
  assert ((ac_resourceCapacity acc =? 0) = false) as -> by lia.
  assert (ac_computeSupplyReliable acc && (ac_computeSupply acc <? ac_fulfilled acc) = false) as ->.
  { destruct (ac_computeSupplyReliable acc); [|done]. apply Z.ltb_ge. by apply C2. }
  rewrite F1, F2, F3, !Z.add_0_r, !Z.eqb_refl, (proj2 (IsUint64_spec _) F4). done.
Qed.

Lemma FinalizeEpoch_closable c : books_ok c -> closable c ->
  exists metrics, FinalizeEpoch c = Ok (metrics, cl_verifiedWork c) /\
    zsum (em_BurnedFees <$> metrics) = burn_total c /\ zsum (em_CirculatingNativeSupply <$> metrics) = supply_total c.
Proof.
  intros Hb Hcl. unfold FinalizeEpoch, burn_total, supply_total, over_shards.
  assert (forall l acc, (forall k, k ∈ l -> 0 <= k < cc_ShardCount (cl_config c)) ->
    exists ms, rfold (fun metrics shard => metric ← shard_metrics c shard; Ok (metrics ++ [metric])) acc l = Ok (acc ++ ms) /\
      em_BurnedFees <$> ms = (fun shard => fa_Burn (ac_fees (shard_accumulator c shard))) <$> l /\
      em_CirculatingNativeSupply <$> ms = zget (cl_supply c) <$> l) as Hg.
  { induction l as [|k l IH]; intros acc Hl; [exists []; by rewrite app_nil_r|].
    destruct (shard_metrics_Ok c k Hb Hcl (Hl k ltac:(left))) as (m & Hm & Hm1 & Hm2). cbn [rfold]. rewrite Hm. cbn [mbind res_bind].
    destruct (IH (acc ++ [m])) as (ms & Hms & H1 & H2); [intros j Hj; apply Hl; by right|]. exists (m :: ms).
    rewrite Hms, <-app_assoc. split; [done|]. cbn. by rewrite H1, H2, Hm1, Hm2. }
  destruct (Hg (shard_range (cc_ShardCount (cl_config c))) []) as (ms & -> & H1 & H2).
  { intros k Hk%elem_of_seqZ. lia. }
  exists ms. cbn [mbind res_bind app]. by rewrite H1, H2.
Qed.

(** The metrics of a shard pass their validation only in a closable epoch. *)
Lemma shard_metrics_closable c shard m : books_ok c -> 0 <= shard < cc_ShardCount (cl_config c) -> shard_metrics c shard = Ok m ->
  let acc := shard_accumulator c shard in
  cc_Epoch (cl_config c) <> 0 /\ 0 < ac_resourceCapacity acc /\
  (ac_computeSupplyReliable acc = true -> ac_fulfilled acc <= ac_computeSupply acc) /\
  ac_openingBacklog acc + ac_newDemand acc <= MaxUint64.
Proof.
  intros Hb Hsh E acc. destruct (bo_shard _ Hb shard Hsh) as [[_ [_ Hcap] _ _] _]. fold acc in Hcap.
  unfold shard_metrics in E. apply bind_Ok in E as (v & _ & E). apply bind_Ok in E as ([] & E & _).
  unfold ShardEpochMetrics_Validate, validComputeFlow in E. apply bind_Ok in E as ([] & E%fail_if_Ok & _).
  cbn [em_Version em_Epoch em_ResourceCapacity em_ResourceUsed em_AgeWeightedVelocityBps em_ComputeSupplyReliable
    em_VerifiedComputeSupply em_ComputeFulfilled em_OpeningComputeBacklog em_EscrowBackedComputeDemand em_ComputeExpired
    em_ComputeBacklog] in E. fold acc in E.
  apply orb_false_iff in E as [[[[[[_ E1]%orb_false_iff E2]%orb_false_iff _]%orb_false_iff _]%orb_false_iff E3]%orb_false_iff E4].
  apply negb_false_iff, andb_true_iff in E4 as [[E4%IsUint64_spec _]%andb_true_iff _].
  unfold u64, MaxUint64 in *. split_and!; [lia|lia| |lia]. intros Hr. rewrite Hr in E3. cbn [andb] in E3. lia.
Qed.

Lemma FinalizeEpoch_only_closable c : books_ok c -> is_ok (FinalizeEpoch c) = true -> closable c.
Proof.
  intros Hb ([metrics work] & E)%is_ok_true. unfold FinalizeEpoch in E. apply bind_Ok in E as (ms & E & _).
  assert (forall l acc ms, rfold (fun metrics shard => metric ← shard_metrics c shard; Ok (metrics ++ [metric])) acc l = Ok ms ->
    forall k, k ∈ l -> exists m, shard_metrics c k = Ok m) as Hg.
  { induction l as [|x l IH]; intros acc out Hf k Hk; [by apply elem_of_nil in Hk|]. cbn [rfold] in Hf.
    apply bind_Ok in Hf as (acc' & Hm & Hf). apply bind_Ok in Hm as (m & Hm & _).
    apply elem_of_cons in Hk as [->|Hk]; [by exists m|by eapply IH]. }
  assert (forall k, 0 <= k < cc_ShardCount (cl_config c) -> exists m, shard_metrics c k = Ok m) as Hall.
  { intros k Hk. eapply Hg; [exact E|]. apply elem_of_seqZ. lia. }
  pose proof (ct_count _ (bo_config _ Hb)) as Hn. split.
  - destruct (Hall 0 ltac:(lia)) as [m Hm]. by apply shard_metrics_closable in Hm as (? & _); [|done|lia].
  - intros k Hk. destruct (Hall k Hk) as [m Hm]. by apply shard_metrics_closable in Hm as (_ & ?).
Qed.

(** C22: the epoch collector keeps exact books.  In every state it reaches from a
    new collector by finalized blocks and epoch changes: the circulating supply
    of all shards plus the fees burned in the epoch is the supply at the start of
    the epoch, every fee is burned, the compute backlog is the opening backlog
    plus the demand minus what was fulfilled or expired, and no shard used more
    than its capacity.  [FinalizeEpoch] succeeds exactly if the epoch is not 0,
    every shard has capacity (which only blocks give it), no shard fulfilled more
    compute than a supply it reported as reliable, and the opening backlog plus the
    new demand of each shard fit in 64 bits; its metrics then report the supply and
    the burned fees of the books. *)
Theorem collector_keeps_books (c0 c : EpochCollector) :
  reach c0 c ->
  supply_total c + burn_total c = supply_total c0 /\
  (forall shard, 0 <= shard < cc_ShardCount (cl_config c) ->
     let acc := shard_accumulator c shard in
     fa_Burn (ac_fees acc) = fa_Total (ac_fees acc) /\
     ac_closingBacklog acc = ac_closingBacklog (shard_accumulator c0 shard) + ac_newDemand acc
       - ac_fulfilled acc - ac_expired acc /\
     ac_resourceUsed acc <= ac_resourceCapacity acc) /\
  (is_ok (FinalizeEpoch c) = true <-> closable c) /\
  (closable c -> exists metrics, FinalizeEpoch c = Ok (metrics, cl_verifiedWork c) /\
     zsum (em_BurnedFees <$> metrics) = burn_total c /\ zsum (em_CirculatingNativeSupply <$> metrics) = supply_total c).
Proof.
  intros Hr. destruct (reach_books _ _ Hr) as ([Hb0 Hf] & Hb & Hc & Ht & Ho). split; [done|]. split; [|split].
  - intros shard Hsh. cbv zeta. destruct (bo_shard _ Hb shard Hsh) as [[(F1 & _) _ (_ & _ & _ & _ & _ & F6) _] Hle].
    rewrite Ho in F6. rewrite Hc in Hsh. destruct (Hf shard Hsh) as [_ He]. split_and!; try done. lia.
  - split; [by apply FinalizeEpoch_only_closable|]. intros (ms & -> & _)%FinalizeEpoch_closable; done.
  - by apply FinalizeEpoch_closable.
Qed.
End books.

(** ** Two shards and a receipt of five coins *)

Module CollectorExample.
#[local] Existing Instance small_crypto.
#[local] Existing Instance some_order.
Definition host : ScriptHost := {| ScriptRuntime := mkRuntime (fun _ => Err ErrInvalidModule) (fun _ => Err ErrInvalidRequest) |}.
Definition no_tracking : IdleCapital := {|
  Tracker := unit;
  ApplyFinalizedIdleCapitalTransfer := fun _ _ _ _ _ _ => Ok tt;
  ApplyFinalizedComputeCapitalLineage := fun _ _ _ _ _ _ => Ok tt;
  ApplyFinalizedCrossLendingCapitalLineage := fun _ _ _ _ _ _ => Ok tt;
  ApplyFinalizedIdleCapitalImport := fun _ _ _ => Ok tt;
  ResetProductiveCoverage := fun _ => Ok tt;
  tracker_empty := fun _ => true |}.
#[local] Existing Instance host.
#[local] Existing Instance no_tracking.

Definition config : EpochCollectorConfig :=
  mkCollectorConfig 1 2 (be 32 1) (<[1 := 70]> {[0 := 100]}) ∅ (<[1 := 8]> {[0 := 8]}) (mkVelocityPolicy 1 10 20000)
    CompatibilityFeePolicy None.
Definition receipt : CrossShardReceipt :=
  mkReceipt 0 1 4 (be 32 2) 0 (mkOutputSpec (be 32 5) KindCoin (Coin_MarshalBinary (mkCoin (be 32 1) 5 0))) (be 32 6).
Definition observations : gmap Z FinalizedShardObservation := {[1 := mkObservation [] [] [receipt] [] 0 0 false]}.
Definition collector : EpochCollector := ok_or (mkCollector config ∅ ∅ [] None 0) (NewEpochCollector config).
Definition block : res EpochCollector := PreviewFinalizedBlock collector 5 observations.

Lemma shards01 k : 0 <= k < 2 -> k = 0 \/ k = 1.
Proof. lia. Qed.
Lemma example_typed : config_typed config.
Proof.
  constructor; try done.
  all: intros k [-> | ->]%shards01; vm_compute; try split; (reflexivity || discriminate).
Qed.
Lemma opened : NewEpochCollector config = Ok collector.
Proof. vm_compute. reflexivity. Qed.
Lemma observed k ob : observations !! k = Some ob -> observation_typed ob.
Proof.
  unfold observations. intros [_ <-]%lookup_singleton_Some. split; [constructor|]. apply Forall_singleton.
  cbn [SourceShard DestinationShard receipt]. lia.
Qed.
Definition closable_b (c : EpochCollector) : bool :=
  negb (cc_Epoch (cl_config c) =? 0) && (cc_ShardCount (cl_config c) =? 2) &&
  forallb (fun k => (0 <? ac_resourceCapacity (shard_accumulator c k)) && negb (ac_computeSupplyReliable (shard_accumulator c k))
                    && (ac_openingBacklog (shard_accumulator c k) + ac_newDemand (shard_accumulator c k) <=? MaxUint64)) [0; 1].
Lemma block_closable : match block with Ok c => closable_b c | Err _ => false end = true.
Proof. vm_compute. reflexivity. Qed.
Lemma closable_ok c : closable_b c = true -> closable c.
Proof.
  unfold closable_b. intros [[He Hn]%andb_true_iff Hk]%andb_true_iff. split; [lia|]. apply Z.eqb_eq in Hn. rewrite Hn.
  cbn [forallb] in Hk. apply andb_true_iff in Hk as [H0 [H1 _]%andb_true_iff].
  intros k [-> | ->]%shards01; [apply andb_true_iff in H0 as [[? Hr]%andb_true_iff ?]|apply andb_true_iff in H1 as [[? Hr]%andb_true_iff ?]];
    apply negb_true_iff in Hr; rewrite Hr; (split; [lia|]); (split; [done|lia]).
Qed.

Lemma collector_keeps_books_witness :
  exists c metrics, block = Ok c /\ FinalizeEpoch c = Ok (metrics, cl_verifiedWork c) /\
    supply_total c + burn_total c = supply_total collector.
Proof.
  pose proof block_closable as Hb. destruct block as [c|] eqn:E; [|discriminate Hb]. apply closable_ok in Hb.
  destruct (collector_keeps_books collector c (rc_block _ _ _ _ _ (rc_new _ _ example_typed opened) observed E)) as (Ht & _ & _ & Hf).
  destruct (Hf Hb) as (metrics & Hm & _). exists c, metrics. exact (conj eq_refl (conj Hm Ht)).
Defined.
End CollectorExample.
