(* ===== verification/Node.v ===== *)
(** * Node

    Package [internal/v2/node], the runtime of a node: building a candidate
    block over all shards ([runtime.go]), the preflight of a commit
    ([commit_preflight.go]), the vote gate ([proposal.go]), validator
    transitions ([validator_transition.go]), the economics hooks
    ([economics_runtime.go]) and the commit itself.

    The mutex of the runtime makes every method one atomic step.  The builds of
    the shards only read the runtime and write their own slot, so a concurrent
    run is an order in which the slots are filled; the order and the schedule
    of each batch are parameters.  Effects outside the process (the journal
    file, the certified history, the finality anchor, the shard stores) happen
    in the order of the code; a parameter says where one fails. *)

From S2P Require Import Prelude GoLib Codec Crypto Types Merkle Object Sharding Tx Consensus.
From S2P Require Import ComputeWork Contracts Execution ExecutionExtended Worldstate Batch.
From S2P Require Import EconomicsPolicy EconomicsEpoch EconomicsCollector EconomicsEngine.

Open Scope Z_scope.

(** [store.(worldstate.Simulator)]: [None] if the type assertion fails. *)
Class Simulator (S : Type) := {
  simulator : S -> option (list bytes -> list Object -> res bytes);
}.

#[global] Instance Memory_simulator `{Crypto} : Simulator Memory := {| simulator m := Some (Memory_Simulate m) |}.
#[global] Instance Disk_simulator `{Crypto} : Simulator Disk := {| simulator d := Some (Disk_Simulate d) |}.

Record ReceiptImport := mkImport {
  ri_Header : GlobalHeader;
  ri_Certificate : Certificate;
  ri_Validators : ValidatorSet;
  ri_Commitment : Commitment;
  ri_CommitmentProof : Proof;
  ri_Receipt : CrossShardReceipt;
  ri_ReceiptProof : Proof;
}.

Record ShardBatch := mkShardBatch {
  sb_Transactions : list Transaction;
  sb_Imports : list ReceiptImport;
  sb_DataRoot : bytes;
}.

Definition no_batch : ShardBatch := mkShardBatch [] [] zero32.
Definition batch_active (b : ShardBatch) : bool := (0 <? blen (sb_Transactions b)) || (0 <? blen (sb_Imports b)).

Record shardDelta := mkDelta {
  dl_Consumed : list bytes;
  dl_Created : list Object;
}.

Record Candidate := mkCandidate {
  cn_Header : GlobalHeader;
  cn_Commitments : list Commitment;
  cn_Results : gmap Z (list Result);
  cn_Receipts : gmap Z (list CrossShardReceipt);
  cn_deltas : gmap Z shardDelta;
  cn_economicObservations : gmap Z FinalizedShardObservation;
  cn_economicPendingStateHash : bytes;
}.

Record shardBuildOutput := mkOutput {
  so_results : list Result;
  so_receipts : list CrossShardReceipt;
  so_delta : option shardDelta;
  so_commitment : Commitment;
  so_dataLeaf : bytes;
  so_observation : FinalizedShardObservation;
  so_economicPendingStateHash : bytes;
  so_hasTransactions : bool;
}.

(** A journal entry: what a commit will do. *)
Record journalShardDelta := mkJournalDelta {
  jd_ShardID : Z;
  jd_PreRoot : bytes;
  jd_PostRoot : bytes;
  jd_Consumed : list bytes;
  jd_Created : list Object;
}.

Definition globalCommitPreparing : Z := 1.
Definition globalCommitCommitted : Z := 2.

Record globalCommitIntent := mkIntent {
  gi_Status : Z;
  gi_Network : bytes;
  gi_NativeToken : bytes;
  gi_ValidatorRoot : bytes;
  gi_ShardCount : Z;
  gi_PreHeight : Z;
  gi_PreParentHash : bytes;
  gi_Header : GlobalHeader;
  gi_Certificate : Certificate;
  gi_Commitments : list Commitment;
  gi_Deltas : list journalShardDelta;
  gi_EconomicCheckpoint : bytes;
}.

Record FinalityCheckpoint := mkFinalityCheckpoint {
  fc_Network : bytes;
  fc_ValidatorRoot : bytes;
  fc_Height : Z;
  fc_HeaderHash : bytes;
}.

Definition FinalityCheckpoint_Validate (c : FinalityCheckpoint) (network validatorRoot : bytes) : res unit :=
  fail_if ((fc_Height c =? 0) || IsZero32 (fc_HeaderHash c) || IsZero32 (fc_Network c) || IsZero32 (fc_ValidatorRoot c)
           || negb (bool_decide (fc_Network c = network)) || negb (bool_decide (fc_ValidatorRoot c = validatorRoot)))
    ErrFinalityCheckpoint.

(** What the runtime needs of the certified history ([certified_history.go])
    and of the anchor store ([finality_anchor_store.go]): the state after the
    call, and its error. *)
Class FinalityStores := {
  CertifiedHistory : Type;
  history_Append : CertifiedHistory -> io_outcome -> globalCommitIntent -> ValidatorSet -> CertifiedHistory * res unit;
  FinalityAnchorStore : Type;
  anchor_advance : FinalityAnchorStore -> io_outcome -> FinalityCheckpoint -> FinalityAnchorStore * res unit;
}.

(** ** Slots filled by workers *)

Section slots.
Context {A : Type}.

(** [outputs[shard] = build(shard)], in the order the builds finish. *)
Definition fill_slots (build : Z -> res A) (order : list Z) : gmap Z (res A) :=
  foldl (fun slots shard => <[shard := build shard]> slots) ∅ order.

(** The scan by shard index after the join; an empty slot holds [zero]. *)
Definition scan_slots (zero : A) (slots : gmap Z (res A)) (shards : list Z) : res (list A) :=
  rfold (fun outs shard => out ← default (Ok zero) (slots !! shard); Ok (outs ++ [out])) [] shards.

(** One worker: the loop stops at the first error. *)
Definition build_in_turn (build : Z -> res A) (shards : list Z) : res (list A) :=
  rfold (fun outs shard => out ← build shard; Ok (outs ++ [out])) [] shards.
End slots.

(** ** Worker allocation *)

Definition candidateWorkerAllocation (configured gomaxprocs shardCount : Z) : Z * Z :=
  let budget := if configured <=? 0 then gomaxprocs else configured in
  let budget := if budget <? 1 then 1 else budget in
  let shardWorkers := if shardCount <? budget then shardCount else budget in
  let shardWorkers := if shardWorkers <? 1 then 1 else shardWorkers in
  let transactionWorkers := Z.quot budget shardWorkers in
  (shardWorkers, if transactionWorkers <? 1 then 1 else transactionWorkers).

Definition candidateWorkerAllocationForBatches (configured gomaxprocs shardCount : Z) (batches : gmap Z ShardBatch) : Z * Z :=
  let active := uint32 (blen (List.filter batch_active (map_to_list batches).*2)) in
  candidateWorkerAllocation configured gomaxprocs (if active =? 0 then shardCount else active).

Definition candidateShardSchedule (shardCount : Z) (batches : gmap Z ShardBatch) : list Z :=
  let active shard := batch_active (default no_batch (batches !! shard)) in
  List.filter active (shard_range shardCount) ++ List.filter (fun shard => negb (active shard)) (shard_range shardCount).

Definition preflightShardSchedule (shardCount : Z) (deltas : gmap Z shardDelta) : list Z :=
  let changed shard := bool_decide (is_Some (deltas !! shard)) in
  List.filter changed (shard_range shardCount) ++ List.filter (fun shard => negb (changed shard)) (shard_range shardCount).

(** [for shard := range m { if shard >= count { return ErrCandidateState } }] *)
Definition check_topology {V} (count : Z) (m : gmap Z V) : res unit :=
  fail_if (existsb (fun shard => count <=? shard) (map_to_list m).*1) ErrCandidateState.

(** The workers of a run: [GOMAXPROCS], the order in which the shard builds
    finish, and the schedule of the batch of each shard. *)
Record Scheduling := mkScheduling {
  sg_gomaxprocs : Z;
  sg_order : list Z;
  sg_batch : Z -> list nat;
}.

(** Where an effect of a commit fails.  A failed write leaves the old or the
    new value behind. *)
Inductive write_outcome := WriteOk | WriteLost | WriteKept.
Record CommitIO := mkCommitIO {
  io_prepare : write_outcome;
  io_apply : Z -> write_outcome;
  io_commit : write_outcome;
  io_history : io_outcome;
  io_anchor : io_outcome;
}.
Definition io_ok : CommitIO := mkCommitIO WriteOk (fun _ => WriteOk) WriteOk IoOk IoOk.

Section runtime.
Context `{Crypto} `{MapOrder} `{ScriptHost} `{IdleCapital} `{FinalityStores}.
Context {St : Type} `{Backend St} `{Simulator St}.

Record Runtime := mkRuntime {
  rt_Network : bytes;
  rt_NativeToken : bytes;
  rt_ValidatorRoot : bytes;
  rt_ShardCount : Z;
  rt_States : gmap Z St;
  rt_Workers : Z;
  rt_Height : Z;
  rt_ParentHash : bytes;
  rt_economicCollector : option EpochCollector;
  rt_economicEngine : option ShadowEpochEngine;
  rt_economicEpochLength : Z;
  rt_economicBalances : MonetaryBalanceSnapshot;
  rt_pendingEconomic : option ShadowEpochPreview;
  rt_journalConfigured : bool;
  rt_journal : option bytes;
  rt_history : option CertifiedHistory;
  rt_anchorStore : option FinalityAnchorStore;
  rt_recoveryRequired : bool;
}.

Definition no_balances : MonetaryBalanceSnapshot := mkBalances 0 0 0 0.

Definition NewRuntime (network nativeToken validatorRoot : bytes) (states : gmap Z St) (workers : Z) : res Runtime :=
  fail_if (IsZero32 network || IsZero32 nativeToken || IsZero32 validatorRoot || (Z.of_nat (size states) =? 0))
    ErrRuntimeConfig;;
  let count := uint32 (Z.of_nat (size states)) in
  rfold (fun _ shard => fail_if (negb (bool_decide (is_Some (states !! shard)))) ErrRuntimeConfig) tt (shard_range count);;
  Ok (mkRuntime network nativeToken validatorRoot count states workers 0 zero32 None None 0 no_balances None false None
        None None false).

(** [r.States[shard]]; [NewRuntime] made sure that it is there. *)
Definition state_of (r : Runtime) (shard : Z) : res St := some_or (rt_States r !! shard) ErrRuntimeConfig.

Definition RecoveryRequired (r : Runtime) : bool := rt_recoveryRequired r.

(** ** Candidates *)

Definition validateReceiptImport (r : Runtime) (destinationShard : Z) (i : ReceiptImport) : res unit :=
  let header := ri_Header i in
  fail_if (negb (bool_decide (h_Network header = rt_Network r))
           || negb (bool_decide (s_Network (ri_Validators i) = rt_Network r))
           || negb (bool_decide (c_Network (ri_Certificate i) = rt_Network r))
           || negb (DestinationShard (ri_Receipt i) =? destinationShard) || (rt_Height r <? h_Height header)
           || negb (h_Height header =? SourceHeight (ri_Receipt i))) ErrReceiptImport;;
  validatorRoot ← ValidatorSet_Root (ri_Validators i) <?> ErrReceiptImport;
  fail_if (negb (bool_decide (validatorRoot = h_ValidatorRoot header))) ErrReceiptImport;;
  fail_if (negb (bool_decide (h_CertificateHash header = Certificate_Hash (ri_Certificate i)))
           || negb (bool_decide (c_HeaderHash (ri_Certificate i) = HeaderConsensusHash header))
           || negb (c_Height (ri_Certificate i) =? h_Height header)) ErrReceiptImport;;
  VerifyCertificate (ri_Validators i) (ri_Certificate i) <?> ErrReceiptImport;;
  VerifyFinalizedReceipt header (ri_Commitment i) (ri_CommitmentProof i) (ri_Receipt i) (ri_ReceiptProof i)
    <?> ErrReceiptImport.

Definition appendEconomicStateDelta (delta : shardDelta) (preview : ShadowEpochPreview) : res shardDelta :=
  match pv_Created preview with
  | [monetary] =>
      fail_if (negb (bool_decide (ID monetary = MonetaryStateObjectID (ms_Network (pv_State preview))))) ErrCandidateState;;
      fail_if (existsb (fun id => bool_decide (id = ID monetary)) (dl_Consumed delta)) ErrCandidateState;;
      fail_if (existsb (fun o => bool_decide (ID o = ID monetary)) (dl_Created delta)) ErrCandidateState;;
      Ok (mkDelta (dl_Consumed delta ++ pv_Consumed preview) (dl_Created delta ++ pv_Created preview))
  | _ => Err ErrCandidateState
  end.

(** The transactions of a shard: their results and the delta so far. *)
Definition build_transactions (r : Runtime) (sg : Scheduling) (height shard : Z) (batch : ShardBatch)
    (currentRoot : bytes) (transactionWorkers : Z) : res (list Result * shardDelta) :=
  if 0 <? blen (sb_Transactions batch) then
    rfold (fun _ t => fail_if (negb (t_ShardID t =? shard) || negb (bool_decide (t_StateRoot t = currentRoot)))
                        ErrCandidateState) tt (sb_Transactions batch);;
    let executor := mkBatchExecutor (Execution.mkEngine (rt_Network r) (rt_NativeToken r) (rt_ShardCount r) height ∅)
                      transactionWorkers in
    results ← ExecuteBatch executor (sg_gomaxprocs sg) (sg_batch sg shard) (sb_Transactions batch);
    Ok (results, mkDelta (concat (Consumed <$> results)) (concat (Created <$> results)))
  else Ok ([], mkDelta [] []).

Definition import_receipt (r : Runtime) (store : St) (shard : Z) (delta : shardDelta) (i : ReceiptImport)
    : res shardDelta :=
  validateReceiptImport r shard i;;
  destinationObject ← DestinationObject (ri_Receipt i) <?> ErrReceiptImport;
  marker ← ReceiptMarker (ri_Receipt i) <?> ErrReceiptImport;
  fail_if (bool_decide (is_Some (backend_GetObject store (ID destinationObject)))) ErrReceiptReplay;;
  fail_if (bool_decide (is_Some (backend_GetObject store (ID marker)))) ErrReceiptReplay;;
  Ok (mkDelta (dl_Consumed delta) (dl_Created delta ++ [destinationObject; marker])).

Definition pending_delta (r : Runtime) (shard : Z) (delta : shardDelta) : res (shardDelta * bytes) :=
  match rt_pendingEconomic r with
  | Some pending =>
      if shard =? 0 then
        stateHash ← MonetaryEpochState_Hash (pv_State pending);
        delta ← appendEconomicStateDelta delta pending;
        Ok (delta, stateHash)
      else Ok (delta, zero32)
  | None => Ok (delta, zero32)
  end.

Definition delta_empty (delta : shardDelta) : bool :=
  (blen (dl_Consumed delta) =? 0) && (blen (dl_Created delta) =? 0).

Definition simulate_delta (store : St) (currentRoot : bytes) (delta : shardDelta) : res bytes :=
  if delta_empty delta then Ok currentRoot
  else
    simulate ← some_or (simulator store) ErrStateSimulation;
    simulate (dl_Consumed delta) (dl_Created delta).

(** The receipts of the outbound outputs, in the order of the results. *)
Definition outbound_receipts (height shard : Z) (newRoot : bytes) (results : list Result) : list CrossShardReceipt :=
  concat ((fun result =>
    (fun o => mkReceipt shard (ob_DestinationShard o) height (TxID result) (ob_OutputIndex o) (ob_Output o) newRoot)
      <$> Outbound result) <$> results).

Definition buildShardCandidate (r : Runtime) (sg : Scheduling) (height shard : Z) (batch : ShardBatch)
    (transactionWorkers : Z) : res shardBuildOutput :=
  store ← state_of r shard;
  let currentRoot := backend_Root store in
  '(results, delta) ← build_transactions r sg height shard batch currentRoot transactionWorkers;
  delta ← rfold (import_receipt r store shard) delta (sb_Imports batch);
  '(delta, pendingHash) ← pending_delta r shard delta;
  newRoot ← simulate_delta store currentRoot delta;
  let receipts := outbound_receipts height shard newRoot results in
  receiptRoot ← ReceiptBatch_Root receipts;
  let dataRoot := if IsZero32 (sb_DataRoot batch) then Root [] else sb_DataRoot batch in
  let observation :=
    match rt_economicCollector r with
    | None => no_observation
    | Some _ => mkObservation (sb_Transactions batch) results (ri_Receipt <$> sb_Imports batch) receipts 0 0 false
    end in
  Ok (mkOutput results receipts (if delta_empty delta then None else Some delta)
        (mkCommitment shard newRoot receiptRoot dataRoot) (Leaf (str "shard-data-root") dataRoot) observation pendingHash
        (0 <? blen (sb_Transactions batch))).

(** A slot that was never written. *)
Definition no_output : shardBuildOutput :=
  mkOutput [] [] None (mkCommitment 0 zero32 zero32 zero32) zero32 no_observation zero32 false.

Definition build_outputs (r : Runtime) (sg : Scheduling) (height : Z) (batches : gmap Z ShardBatch)
    : res (list shardBuildOutput) :=
  let '(workers, transactionWorkers) :=
    candidateWorkerAllocationForBatches (rt_Workers r) (sg_gomaxprocs sg) (rt_ShardCount r) batches in
  let buildShard shard := buildShardCandidate r sg height shard (default no_batch (batches !! shard)) transactionWorkers in
  if workers <=? 1 then build_in_turn buildShard (shard_range (rt_ShardCount r))
  else scan_slots no_output (fill_slots buildShard (sg_order sg)) (shard_range (rt_ShardCount r)).

(** A map with an entry for every shard the function gives one for. *)
Definition shard_map {V} (f : shardBuildOutput -> option V) (outputs : list shardBuildOutput) : gmap Z V :=
  foldl (fun m out => match f out with Some v => <[ShardID (so_commitment out) := v]> m | None => m end) ∅ outputs.

Definition BuildCandidate (r : Runtime) (sg : Scheduling) (height : Z) (batches : gmap Z ShardBatch) : res Candidate :=
  fail_if (rt_recoveryRequired r) ErrRuntimeRecoveryRequired;;
  fail_if (negb (height =? add64 (rt_Height r) 1) || (height =? 0)) ErrCandidateHeight;;
  check_topology (rt_ShardCount r) batches;;
  outputs ← build_outputs r sg height batches;
  let commitments := so_commitment <$> outputs in
  commitmentRoot ← CommitmentRoot commitments;
  Ok (mkCandidate
        (mkGlobalHeader 2 (rt_Network r) height (rt_ParentHash r) commitmentRoot (rt_ValidatorRoot r) (rt_ValidatorRoot r)
           (Root (so_dataLeaf <$> outputs)) zero32)
        commitments
        (shard_map (fun out => if so_hasTransactions out then Some (so_results out) else None) outputs)
        (shard_map (fun out => Some (so_receipts out)) outputs)
        (shard_map so_delta outputs)
        (shard_map (fun out => match rt_economicCollector r with Some _ => Some (so_observation out) | None => None end) outputs)
        (match outputs with first :: _ => so_economicPendingStateHash first | [] => zero32 end)).

(** ** The preflight of a commit *)

Definition index_commitment (count : Z) (commitments : gmap Z Commitment) (c : Commitment) : res (gmap Z Commitment) :=
  fail_if (count <=? ShardID c) ErrCandidateState;;
  fail_if (bool_decide (is_Some (commitments !! ShardID c))) ErrCandidateState;;
  Ok (<[ShardID c := c]> commitments).

(** The data leaf of a shard whose commitment was reconstructed. *)
Definition verifyShard (r : Runtime) (candidate : Candidate) (commitments : gmap Z Commitment) (shard : Z) : res bytes :=
  commitment ← some_or (commitments !! shard) ErrCandidateState;
  store ← state_of r shard;
  stateRoot ← match cn_deltas candidate !! shard with
              | None => Ok (backend_Root store)
              | Some delta =>
                  simulate ← some_or (simulator store) ErrStateSimulation;
                  simulate (dl_Consumed delta) (dl_Created delta)
              end;
  fail_if (negb (bool_decide (stateRoot = StateRoot commitment))) ErrCandidateState;;
  receiptRoot ← ReceiptBatch_Root (default [] (cn_Receipts candidate !! shard)) <?> ErrCandidateState;
  fail_if (negb (bool_decide (receiptRoot = ReceiptRoot commitment))) ErrCandidateState;;
  Ok (Leaf (str "shard-data-root") (DataRoot commitment)).

Definition preflight_workers (r : Runtime) (gomaxprocs : Z) : Z :=
  let workers := if rt_Workers r <=? 0 then gomaxprocs else rt_Workers r in
  let workers := if rt_ShardCount r <? workers then rt_ShardCount r else workers in
  if workers <? 1 then 1 else workers.

(** The commitments by shard and the shards to change, in ascending order. *)
Definition preflightCandidateState (r : Runtime) (sg : Scheduling) (candidate : Candidate)
    : res (gmap Z Commitment * list Z) :=
  fail_if (negb (blen (cn_Commitments candidate) =? rt_ShardCount r)) ErrCandidateState;;
  check_topology (rt_ShardCount r) (cn_Receipts candidate);;
  check_topology (rt_ShardCount r) (cn_Results candidate);;
  check_topology (rt_ShardCount r) (cn_economicObservations candidate);;
  check_topology (rt_ShardCount r) (cn_deltas candidate);;
  commitmentRoot ← CommitmentRoot (cn_Commitments candidate) <?> ErrCandidateState;
  fail_if (negb (bool_decide (commitmentRoot = h_ShardCommitmentRoot (cn_Header candidate)))) ErrCandidateState;;
  commitments ← rfold (index_commitment (rt_ShardCount r)) ∅ (cn_Commitments candidate);
  dataLeaves ←
    (if preflight_workers r (sg_gomaxprocs sg) =? 1
     then build_in_turn (verifyShard r candidate commitments) (shard_range (rt_ShardCount r))
     else scan_slots zero32 (fill_slots (verifyShard r candidate commitments) (sg_order sg))
            (shard_range (rt_ShardCount r)));
  fail_if (negb (bool_decide (Root dataLeaves = h_DataRoot (cn_Header candidate)))) ErrCandidateState;;
  Ok (commitments, sort_by (fun shard : Z => shard) (map_to_list (cn_deltas candidate)).*1).

(** ** Votes and validator transitions *)

Definition VerifyProposalAgainstCandidate (candidate : Candidate) (proposal : Proposal) (validators : ValidatorSet)
    : res unit :=
  VerifyProposal validators proposal;;
  fail_if (negb (bool_decide (HeaderConsensusHash (cn_Header candidate) = HeaderConsensusHash (p_Header proposal))))
    ErrCandidateState.

Definition with_next_root (h : GlobalHeader) (root : bytes) : GlobalHeader :=
  mkGlobalHeader (h_Version h) (h_Network h) (h_Height h) (h_ParentHash h) (h_ShardCommitmentRoot h) (h_ValidatorRoot h)
    root (h_DataRoot h) (h_CertificateHash h).
Definition with_certificate (h : GlobalHeader) (hash : bytes) : GlobalHeader :=
  mkGlobalHeader (h_Version h) (h_Network h) (h_Height h) (h_ParentHash h) (h_ShardCommitmentRoot h) (h_ValidatorRoot h)
    (h_NextValidatorRoot h) (h_DataRoot h) hash.
Definition with_header (c : Candidate) (h : GlobalHeader) : Candidate :=
  mkCandidate h (cn_Commitments c) (cn_Results c) (cn_Receipts c) (cn_deltas c) (cn_economicObservations c)
    (cn_economicPendingStateHash c).

Definition ScheduleValidatorTransition (candidate : Candidate) (current next : ValidatorSet) : res Candidate :=
  fail_if (negb (bool_decide (s_Network current = h_Network (cn_Header candidate)))
           || negb (bool_decide (s_Network next = h_Network (cn_Header candidate)))) ErrCandidateCert;;
  currentRoot ← ValidatorSet_Root current <?> ErrCandidateCert;
  fail_if (negb (bool_decide (currentRoot = h_ValidatorRoot (cn_Header candidate)))) ErrCandidateCert;;
  nextRoot ← ValidatorSet_Root next <?> ErrCandidateCert;
  fail_if (IsZero32 nextRoot) ErrCandidateCert;;
  Ok (with_header candidate (with_next_root (cn_Header candidate) nextRoot)).

(** ** Economics *)

Definition set_economics (r : Runtime) (collector : option EpochCollector) (engine : option ShadowEpochEngine)
    (epochLength : Z) (balances : MonetaryBalanceSnapshot) (pending : option ShadowEpochPreview) : Runtime :=
  mkRuntime (rt_Network r) (rt_NativeToken r) (rt_ValidatorRoot r) (rt_ShardCount r) (rt_States r) (rt_Workers r)
    (rt_Height r) (rt_ParentHash r) collector engine epochLength balances pending (rt_journalConfigured r) (rt_journal r)
    (rt_history r) (rt_anchorStore r) (rt_recoveryRequired r).

(** [collector.Clone()] rebuilds the registry, which fails on an invalid one. *)
Definition Collector_Clone (c : EpochCollector) : option EpochCollector :=
  match cc_WorkRegistry (cl_config c) with
  | None => Some c
  | Some registry => match WorkRegistry_Clone registry with Ok _ => Some c | Err _ => None end
  end.

Definition EnableShadowEconomics (r : Runtime) (collector : EpochCollector) : res Runtime :=
  fail_if (negb (rt_Height r =? 0) || match rt_economicCollector r with Some _ => true | None => false end
           || negb (cc_ShardCount (cl_config collector) =? rt_ShardCount r)
           || negb (bool_decide (cc_NativeToken (cl_config collector) = rt_NativeToken r))) ErrRuntimeConfig;;
  owned ← some_or (Collector_Clone collector) ErrRuntimeConfig;
  Ok (set_economics r (Some owned) (rt_economicEngine r) (rt_economicEpochLength r) (rt_economicBalances r)
        (rt_pendingEconomic r)).

Definition EnableShadowEconomicEpochs (r : Runtime) (engine : ShadowEpochEngine) (epochLength : Z)
    (balances : MonetaryBalanceSnapshot) : res Runtime :=
  collector ← some_or (rt_economicCollector r) ErrRuntimeConfig;
  fail_if (negb (rt_Height r =? 0) || match rt_economicEngine r with Some _ => true | None => false end
           || match rt_pendingEconomic r with Some _ => true | None => false end
           || negb (cc_Epoch (cl_config collector) =? 1) || negb (bool_decide (en_Network engine = rt_Network r))
           || (epochLength <? 2) || (mb_TotalSupply balances =? 0)
           || (mb_TotalSupply balances <? mb_StakedSupply balances)
           || (mb_TotalSupply balances <? mb_ProtocolReserve balances) || (mb_BaseFee balances =? 0)) ErrRuntimeConfig;;
  Ok (set_economics r (rt_economicCollector r) (Some engine) epochLength balances (rt_pendingEconomic r)).

Definition EconomicEpochSnapshot (r : Runtime) : res (list ShardEpochMetrics * list VerifiedWork) :=
  collector ← some_or (rt_economicCollector r) ErrRuntimeConfig;
  FinalizeEpoch collector.

Definition PendingEconomicState (r : Runtime) : option MonetaryEpochState := pv_State <$> rt_pendingEconomic r.

Definition FinalizedEconomicState (r : Runtime) : option MonetaryEpochState := rt_economicEngine r ≫= PreviousState.

(** The economics after a block: collector, engine, pending preview, balances. *)
Record EconomicOutcome := mkOutcome {
  eo_collector : option EpochCollector;
  eo_engine : option ShadowEpochEngine;
  eo_pending : option ShadowEpochPreview;
  eo_balances : MonetaryBalanceSnapshot;
}.

Definition preview_collector (r : Runtime) (candidate : Candidate) : res (option EpochCollector) :=
  match rt_economicCollector r with
  | None => Ok None
  | Some collector =>
      fail_if (negb (Z.of_nat (size (cn_economicObservations candidate)) =? rt_ShardCount r)) ErrCandidateState;;
      preview ← PreviewFinalizedBlock collector (h_Height (cn_Header candidate)) (cn_economicObservations candidate);
      Ok (Some preview)
  end.

Definition preview_engine (r : Runtime) : res (option ShadowEpochEngine) :=
  match rt_economicEngine r, rt_pendingEconomic r with
  | Some engine, Some pending => engine ← Accept engine pending; Ok (Some engine)
  | Some engine, None => Ok (Some engine)
  | None, Some _ => Err ErrRuntimeConfig
  | None, None => Ok None
  end.

(** The close of an epoch at its boundary height. *)
Definition close_epoch (collector : option EpochCollector) (engine : ShadowEpochEngine) (balances : MonetaryBalanceSnapshot)
    : res (EpochCollector * ShadowEpochPreview * MonetaryBalanceSnapshot) :=
  collector ← some_or collector ErrRuntimeConfig;
  '(metrics, verifiedWork) ← FinalizeEpoch collector;
  aggregate ← AggregateEpochMetrics metrics <?> ErrRuntimeConfig;
  fail_if (mb_TotalSupply balances <? ea_BurnedFees aggregate) ErrRuntimeConfig;;
  let balances := mkBalances (sub64 (mb_TotalSupply balances) (ea_BurnedFees aggregate)) (mb_StakedSupply balances)
                    (mb_ProtocolReserve balances) (mb_BaseFee balances) in
  preview ← PreviewCloseEpoch engine metrics verifiedWork balances;
  collector ← AdvanceEpoch collector (add64 (ms_Epoch (pv_State preview)) 1);
  Ok (collector, preview, balances).

Definition preview_economics (r : Runtime) (candidate : Candidate) : res EconomicOutcome :=
  collector ← preview_collector r candidate;
  engine ← preview_engine r;
  match engine with
  | Some e =>
      if (0 <? rt_economicEpochLength r) && (h_Height (cn_Header candidate) mod rt_economicEpochLength r =? 0) then
        '(collector, preview, balances) ← close_epoch collector e (rt_economicBalances r);
        Ok (mkOutcome (Some collector) engine (Some preview) balances)
      else Ok (mkOutcome collector engine None (rt_economicBalances r))
  | None => Ok (mkOutcome collector engine None (rt_economicBalances r))
  end.
End runtime.
