(* ===== verification/NodeJournal.v ===== *)
(** * NodeJournal

    Package [internal/v2/node], the durable commit: the journal entry and its
    file format ([global_commit_journal.go]), the commit of a certified
    candidate ([Runtime.Commit] of [runtime.go]) and recovery from the journal
    after a crash ([global_commit_recovery.go]).

    A commit first prepares (all its checks, nothing written) and then runs
    its effects in order: journal, history, one store after the other, journal
    again, anchor. *)

From S2P Require Import Prelude GoLib Codec Crypto Types Merkle Object Sharding Tx Consensus.
From S2P Require Import ComputeWork Contracts Execution ExecutionExtended Worldstate Batch.
From S2P Require Import EconomicsPolicy EconomicsEpoch EconomicsCollector EconomicsEngine Node.

Open Scope Z_scope.

Definition globalCommitJournalVersion : Z := 1.
Definition globalCommitJournalMagic : bytes := str "ZGC2".
Definition maxGlobalCommitJournalBytes : Z := Z.shiftl 256 20.
Definition maxJournalObjects : Z := 1000000.
Definition maxEconomicCheckpointBytes : Z := Z.shiftl 64 20.

(** [GlobalHeader.MarshalBinary]: the canonical bytes, if they parse. *)
Definition GlobalHeader_MarshalBinary (h : GlobalHeader) : res bytes :=
  let raw := GlobalHeader_CanonicalBytes h in
  ParseGlobalHeader raw;;
  Ok raw.

Section intent.
Context `{Crypto}.

Definition journal_commitment (count : Z) (commitments : gmap Z Commitment) (c : Commitment) : res (gmap Z Commitment) :=
  fail_if (count <=? ShardID c) ErrGlobalCommitJournal;;
  fail_if (bool_decide (is_Some (commitments !! ShardID c))) ErrGlobalCommitJournal;;
  Ok (<[ShardID c := c]> commitments).

Definition check_journal_delta (count : Z) (commitments : gmap Z Commitment) (seenDelta : gset Z) (d : journalShardDelta)
    : res (gset Z) :=
  fail_if ((count <=? jd_ShardID d) || (maxJournalObjects <? blen (jd_Consumed d))
           || (maxJournalObjects <? blen (jd_Created d)) || IsZero32 (jd_PreRoot d) || IsZero32 (jd_PostRoot d))
    ErrGlobalCommitJournal;;
  fail_if (bool_decide (jd_ShardID d ∈ seenDelta)) ErrGlobalCommitJournal;;
  commitment ← some_or (commitments !! jd_ShardID d) ErrGlobalCommitJournal;
  fail_if (negb (bool_decide (StateRoot commitment = jd_PostRoot d))) ErrGlobalCommitJournal;;
  fail_if (existsb IsZero32 (jd_Consumed d)) ErrGlobalCommitJournal;;
  fail_if (existsb (fun o => negb (is_ok (Object_Validate o))) (jd_Created d)) ErrGlobalCommitJournal;;
  Ok ({[jd_ShardID d]} ∪ seenDelta).

Definition Intent_Validate (i : globalCommitIntent) : res unit :=
  let header := gi_Header i in
  let certificate := gi_Certificate i in
  fail_if ((negb (gi_Status i =? globalCommitPreparing) && negb (gi_Status i =? globalCommitCommitted))
           || IsZero32 (gi_Network i) || IsZero32 (gi_NativeToken i) || IsZero32 (gi_ValidatorRoot i)
           || (gi_ShardCount i =? 0) || negb (bool_decide (h_Network header = gi_Network i))
           || negb (h_Height header =? add64 (gi_PreHeight i) 1)
           || negb (bool_decide (h_ParentHash header = gi_PreParentHash i))
           || negb (bool_decide (h_ValidatorRoot header = gi_ValidatorRoot i))
           || negb (bool_decide (c_Network certificate = gi_Network i))
           || negb (c_Height certificate =? h_Height header)
           || negb (bool_decide (c_HeaderHash certificate = HeaderConsensusHash header))
           || negb (blen (gi_Commitments i) =? gi_ShardCount i) || (gi_ShardCount i <? blen (gi_Deltas i))
           || (maxEconomicCheckpointBytes + 8 + 32 <? blen (gi_EconomicCheckpoint i))) ErrGlobalCommitJournal;;
  root ← CommitmentRoot (gi_Commitments i) <?> ErrGlobalCommitJournal;
  fail_if (negb (bool_decide (root = h_ShardCommitmentRoot header))) ErrGlobalCommitJournal;;
  commitments ← rfold (journal_commitment (gi_ShardCount i)) ∅ (gi_Commitments i);
  rfold (check_journal_delta (gi_ShardCount i) commitments) ∅ (gi_Deltas i);;
  Ok tt.

(** ** The file format *)

Definition write_commitment (w : Writer.t) (c : Commitment) : Writer.t :=
  w |> Writer.U32 (ShardID c) |> Writer.Fixed (StateRoot c) |> Writer.Fixed (ReceiptRoot c) |> Writer.Fixed (DataRoot c).

Definition write_delta (w : Writer.t) (d : journalShardDelta) : Writer.t :=
  let w := w |> Writer.U32 (jd_ShardID d) |> Writer.Fixed (jd_PreRoot d) |> Writer.Fixed (jd_PostRoot d)
    |> Writer.U32 (blen (jd_Consumed d) mod 2 ^ 32) in
  let w := foldl (fun w id => w |> Writer.Fixed id) w (jd_Consumed d) in
  let w := w |> Writer.U32 (blen (jd_Created d) mod 2 ^ 32) in
  foldl (fun w created => w |> Writer.Bytes (Object_CanonicalBytes created)) w (jd_Created d).

Definition Intent_MarshalBinary (i : globalCommitIntent) : res bytes :=
  Intent_Validate i;;
  headerRaw ← GlobalHeader_MarshalBinary (gi_Header i);
  certificateRaw ← Certificate_MarshalBinary (gi_Certificate i);
  let orderedCommitments := sort_by ShardID (gi_Commitments i) in
  let orderedDeltas := sort_by jd_ShardID (gi_Deltas i) in
  let w := Writer.new |> Writer.U16 globalCommitJournalVersion |> Writer.U8 (gi_Status i) |> Writer.Fixed (gi_Network i)
    |> Writer.Fixed (gi_NativeToken i) |> Writer.Fixed (gi_ValidatorRoot i) |> Writer.U32 (gi_ShardCount i)
    |> Writer.U64 (gi_PreHeight i) |> Writer.Fixed (gi_PreParentHash i) |> Writer.Bytes headerRaw
    |> Writer.Bytes certificateRaw |> Writer.U32 (blen orderedCommitments mod 2 ^ 32) in
  let w := foldl write_commitment w orderedCommitments in
  let w := w |> Writer.U32 (blen orderedDeltas mod 2 ^ 32) in
  let w := foldl write_delta w orderedDeltas in
  Ok (Writer.BytesCopy (w |> Writer.Bytes (gi_EconomicCheckpoint i))).

Definition read_commitment : parser Commitment :=
  shardID ← Rd.U32 <!> ErrGlobalCommitJournal;
  stateRoot ← Rd.Fixed 32 <!> ErrGlobalCommitJournal;
  receiptRoot ← Rd.Fixed 32 <!> ErrGlobalCommitJournal;
  dataRoot ← Rd.Fixed 32 <!> ErrGlobalCommitJournal;
  mret (mkCommitment shardID stateRoot receiptRoot dataRoot).

Definition read_created : parser Object :=
  raw ← Rd.Bytes (MaxObjectDataBytes + 128) <!> ErrGlobalCommitJournal;
  plift (ParseObject raw).

Definition read_delta : parser journalShardDelta :=
  shardID ← Rd.U32 <!> ErrGlobalCommitJournal;
  preRoot ← Rd.Fixed 32 <!> ErrGlobalCommitJournal;
  postRoot ← Rd.Fixed 32 <!> ErrGlobalCommitJournal;
  consumedCount ← Rd.U32 <!> ErrGlobalCommitJournal;
  plift (fail_if (maxJournalObjects <? consumedCount) ErrGlobalCommitJournal);;
  consumed ← prepeat (Z.to_nat consumedCount) (Rd.Fixed 32 <!> ErrGlobalCommitJournal);
  createdCount ← Rd.U32 <!> ErrGlobalCommitJournal;
  plift (fail_if (maxJournalObjects <? createdCount) ErrGlobalCommitJournal);;
  created ← prepeat (Z.to_nat createdCount) read_created;
  mret (mkJournalDelta shardID preRoot postRoot consumed created).

Definition parseGlobalCommitIntent (data : bytes) : res globalCommitIntent :=
  parse (version ← Rd.U16 <!> ErrGlobalCommitJournal;
         plift (fail_if (negb (version =? globalCommitJournalVersion)) ErrGlobalCommitJournal);;
         status ← Rd.U8 <!> ErrGlobalCommitJournal;
         network ← Rd.Fixed 32 <!> ErrGlobalCommitJournal;
         native ← Rd.Fixed 32 <!> ErrGlobalCommitJournal;
         validatorRoot ← Rd.Fixed 32 <!> ErrGlobalCommitJournal;
         shardCount ← Rd.U32 <!> ErrGlobalCommitJournal;
         plift (fail_if ((shardCount =? 0) || (1000000 <? shardCount)) ErrGlobalCommitJournal);;
         preHeight ← Rd.U64 <!> ErrGlobalCommitJournal;
         parent ← Rd.Fixed 32 <!> ErrGlobalCommitJournal;
         headerRaw ← Rd.Bytes (Z.shiftl 1 20) <!> ErrGlobalCommitJournal;
         header ← plift (ParseGlobalHeader headerRaw);
         certificateRaw ← Rd.Bytes (Z.shiftl 64 20) <!> ErrGlobalCommitJournal;
         certificate ← plift (ParseCertificate certificateRaw);
         commitmentCount ← Rd.U32 <!> ErrGlobalCommitJournal;
         plift (fail_if (negb (commitmentCount =? shardCount)) ErrGlobalCommitJournal);;
         commitments ← prepeat (Z.to_nat commitmentCount) read_commitment;
         deltaCount ← Rd.U32 <!> ErrGlobalCommitJournal;
         plift (fail_if (shardCount <? deltaCount) ErrGlobalCommitJournal);;
         deltas ← prepeat (Z.to_nat deltaCount) read_delta;
         checkpoint ← Rd.Bytes (maxEconomicCheckpointBytes + 8 + 32) <!> ErrGlobalCommitJournal;
         Rd.Done <!> ErrGlobalCommitJournal;;
         let intent := mkIntent status network native validatorRoot shardCount preHeight parent header certificate
           commitments deltas checkpoint in
         plift (Intent_Validate intent);;
         mret intent) data.

Definition journal_digest (payload : bytes) : bytes := DomainHash (str "zephyr/global-commit-journal/v2") payload.

Definition encodeGlobalCommitJournal (i : globalCommitIntent) : res bytes :=
  payload ← Intent_MarshalBinary i <?> ErrGlobalCommitJournal;
  fail_if ((blen payload =? 0) || (maxGlobalCommitJournalBytes <? blen payload)) ErrGlobalCommitJournal;;
  Ok (globalCommitJournalMagic ++ be 4 (blen payload) ++ payload ++ journal_digest payload).

Definition decodeGlobalCommitJournal (data : bytes) : res globalCommitIntent :=
  fail_if ((blen data <? 8 + 32) || (maxGlobalCommitJournalBytes + 8 + 32 <? blen data)
           || negb (bool_decide (firstn 4 data = globalCommitJournalMagic))) ErrGlobalCommitJournal;;
  let length := be_val (firstn 4 (skipn 4 data)) in
  fail_if ((length =? 0) || (maxGlobalCommitJournalBytes <? length) || negb (blen data =? 8 + length + 32))
    ErrGlobalCommitJournal;;
  let payload := firstn (Z.to_nat length) (skipn 8 data) in
  fail_if (negb (bool_decide (journal_digest payload = skipn (8 + Z.to_nat length) data))) ErrGlobalCommitJournal;;
  parseGlobalCommitIntent payload.
End intent.

Definition with_status (i : globalCommitIntent) (status : Z) : globalCommitIntent :=
  mkIntent status (gi_Network i) (gi_NativeToken i) (gi_ValidatorRoot i) (gi_ShardCount i) (gi_PreHeight i)
    (gi_PreParentHash i) (gi_Header i) (gi_Certificate i) (gi_Commitments i) (gi_Deltas i) (gi_EconomicCheckpoint i).

(** ** Commit *)

Section commit.
Context `{Crypto} `{MapOrder} `{ScriptHost} `{IdleCapital} `{FinalityStores}.
Context {St : Type} `{Backend St} `{Simulator St}.

Abbreviation Runtime := (Node.Runtime (St := St)).

(** What a decoded economic checkpoint holds ([economic_checkpoint.go]). *)
Record decodedEconomicCheckpoint := mkDecoded {
  de_network : bytes;
  de_nativeToken : bytes;
  de_validatorRoot : bytes;
  de_shardCount : Z;
  de_height : Z;
  de_parentHash : bytes;
  de_collector : EpochCollector;
  de_engine : option ShadowEpochEngine;
  de_pending : option ShadowEpochPreview;
  de_epochLength : Z;
  de_balances : MonetaryBalanceSnapshot;
}.

(** The codec of the economic checkpoint, as the journal uses it. *)
Class EconomicCheckpoint := {
  economicCheckpointBytes : decodedEconomicCheckpoint -> res bytes;
  decodeEconomicCheckpoint : bytes -> option WorkRegistry -> ShadowEpochEngineConfig -> res decodedEconomicCheckpoint;
}.
Context `{EconomicCheckpoint}.

Definition set_journal (r : Runtime) (journal : option bytes) : Runtime :=
  mkRuntime (rt_Network r) (rt_NativeToken r) (rt_ValidatorRoot r) (rt_ShardCount r) (rt_States r) (rt_Workers r)
    (rt_Height r) (rt_ParentHash r) (rt_economicCollector r) (rt_economicEngine r) (rt_economicEpochLength r)
    (rt_economicBalances r) (rt_pendingEconomic r) (rt_journalConfigured r) journal (rt_history r) (rt_anchorStore r)
    (rt_recoveryRequired r).
Definition set_recovery (r : Runtime) (required : bool) : Runtime :=
  mkRuntime (rt_Network r) (rt_NativeToken r) (rt_ValidatorRoot r) (rt_ShardCount r) (rt_States r) (rt_Workers r)
    (rt_Height r) (rt_ParentHash r) (rt_economicCollector r) (rt_economicEngine r) (rt_economicEpochLength r)
    (rt_economicBalances r) (rt_pendingEconomic r) (rt_journalConfigured r) (rt_journal r) (rt_history r)
    (rt_anchorStore r) required.
Definition set_states (r : Runtime) (states : gmap Z St) : Runtime :=
  mkRuntime (rt_Network r) (rt_NativeToken r) (rt_ValidatorRoot r) (rt_ShardCount r) states (rt_Workers r)
    (rt_Height r) (rt_ParentHash r) (rt_economicCollector r) (rt_economicEngine r) (rt_economicEpochLength r)
    (rt_economicBalances r) (rt_pendingEconomic r) (rt_journalConfigured r) (rt_journal r) (rt_history r)
    (rt_anchorStore r) (rt_recoveryRequired r).
Definition set_stores (r : Runtime) (history : option CertifiedHistory) (anchor : option FinalityAnchorStore) : Runtime :=
  mkRuntime (rt_Network r) (rt_NativeToken r) (rt_ValidatorRoot r) (rt_ShardCount r) (rt_States r) (rt_Workers r)
    (rt_Height r) (rt_ParentHash r) (rt_economicCollector r) (rt_economicEngine r) (rt_economicEpochLength r)
    (rt_economicBalances r) (rt_pendingEconomic r) (rt_journalConfigured r) (rt_journal r) history anchor
    (rt_recoveryRequired r).
Definition set_tip (r : Runtime) (height : Z) (parent : bytes) : Runtime :=
  mkRuntime (rt_Network r) (rt_NativeToken r) (rt_ValidatorRoot r) (rt_ShardCount r) (rt_States r) (rt_Workers r)
    height parent (rt_economicCollector r) (rt_economicEngine r) (rt_economicEpochLength r)
    (rt_economicBalances r) (rt_pendingEconomic r) (rt_journalConfigured r) (rt_journal r) (rt_history r)
    (rt_anchorStore r) (rt_recoveryRequired r).
Definition set_validator_root (r : Runtime) (root : bytes) : Runtime :=
  mkRuntime (rt_Network r) (rt_NativeToken r) root (rt_ShardCount r) (rt_States r) (rt_Workers r)
    (rt_Height r) (rt_ParentHash r) (rt_economicCollector r) (rt_economicEngine r) (rt_economicEpochLength r)
    (rt_economicBalances r) (rt_pendingEconomic r) (rt_journalConfigured r) (rt_journal r) (rt_history r)
    (rt_anchorStore r) (rt_recoveryRequired r).

Definition postCommitEconomicCheckpoint (r : Runtime) (out : EconomicOutcome) (height : Z) (parent : bytes) : res bytes :=
  match eo_collector out with
  | None => Ok []
  | Some collector =>
      economicCheckpointBytes
        (mkDecoded (rt_Network r) (rt_NativeToken r) (rt_ValidatorRoot r) (rt_ShardCount r) height parent collector
           (eo_engine out) (eo_pending out) (rt_economicEpochLength r) (eo_balances out))
  end.

Definition journal_delta (r : Runtime) (candidate : Candidate) (commitments : gmap Z Commitment)
    (deltas : list journalShardDelta) (shard : Z) : res (list journalShardDelta) :=
  commitment ← some_or (commitments !! shard) ErrGlobalCommitJournal;
  store ← state_of r shard;
  let delta := default (mkDelta [] []) (cn_deltas candidate !! shard) in
  Ok (deltas ++ [mkJournalDelta shard (backend_Root store) (StateRoot commitment) (dl_Consumed delta) (dl_Created delta)]).

Definition buildGlobalCommitIntent (r : Runtime) (candidate : Candidate) (certificate : Certificate)
    (commitments : gmap Z Commitment) (economicCheckpoint : bytes) : res globalCommitIntent :=
  let header := cn_Header candidate in
  fail_if (negb (h_Height header =? add64 (rt_Height r) 1) || negb (bool_decide (h_ParentHash header = rt_ParentHash r))
           || negb (Z.of_nat (size commitments) =? rt_ShardCount r)) ErrGlobalCommitJournal;;
  deltas ← rfold (journal_delta r candidate commitments) []
             (sort_by (fun shard : Z => shard) (map_to_list (cn_deltas candidate)).*1);
  let intent := mkIntent globalCommitPreparing (rt_Network r) (rt_NativeToken r) (rt_ValidatorRoot r) (rt_ShardCount r)
    (rt_Height r) (rt_ParentHash r) header certificate (cn_Commitments candidate) deltas economicCheckpoint in
  Intent_Validate intent;;
  Ok intent.

(** [writeGlobalCommitJournal]: the temporary file is renamed over the journal. *)
Definition writeGlobalCommitJournal (r : Runtime) (outcome : write_outcome) (i : globalCommitIntent) : Runtime * res unit :=
  match encodeGlobalCommitJournal i with
  | Err e => (r, Err e)
  | Ok raw =>
      match outcome with
      | WriteOk => (set_journal r (Some raw), Ok tt)
      | WriteLost => (r, Err ErrIO)
      | WriteKept => (set_journal r (Some raw), Err ErrIO)
      end
  end.

(** Everything a commit decides before its first effect. *)
Record CommitPlan := mkPlan {
  pl_commitments : gmap Z Commitment;
  pl_shards : list Z;
  pl_economics : EconomicOutcome;
  pl_finalized : GlobalHeader;
  pl_postParent : bytes;
  pl_intent : option globalCommitIntent;
}.

Definition check_pending (r : Runtime) (candidate : Candidate) : res unit :=
  match rt_pendingEconomic r with
  | Some pending =>
      expected ← MonetaryEpochState_Hash (pv_State pending) <?> ErrCandidateState;
      fail_if (negb (bool_decide (cn_economicPendingStateHash candidate = expected))) ErrCandidateState
  | None => fail_if (negb (IsZero32 (cn_economicPendingStateHash candidate))) ErrCandidateState
  end.

Definition prepare_commit (r : Runtime) (sg : Scheduling) (candidate : Candidate) (certificate : Certificate)
    (validators : ValidatorSet) : res CommitPlan :=
  let header := cn_Header candidate in
  fail_if (rt_recoveryRequired r) ErrRuntimeRecoveryRequired;;
  fail_if (negb (h_Height header =? add64 (rt_Height r) 1) || negb (bool_decide (h_ParentHash header = rt_ParentHash r))
           || negb (bool_decide (h_Network header = rt_Network r))) ErrCandidateState;;
  validatorRoot ← ValidatorSet_Root validators <?> ErrCandidateCert;
  fail_if (negb (bool_decide (validatorRoot = h_ValidatorRoot header))
           || negb (bool_decide (validatorRoot = rt_ValidatorRoot r))) ErrCandidateCert;;
  fail_if (negb (bool_decide (c_HeaderHash certificate = HeaderConsensusHash header))
           || negb (c_Height certificate =? h_Height header)
           || negb (bool_decide (c_Network certificate = rt_Network r))) ErrCandidateCert;;
  VerifyCertificate validators certificate;;
  check_pending r candidate;;
  '(commitments, shards) ← preflightCandidateState r sg candidate;
  economics ← preview_economics r candidate;
  let finalized := with_certificate header (Certificate_Hash certificate) in
  let postParent := HeaderConsensusHash finalized in
  intent ← (if rt_journalConfigured r then
              checkpoint ← postCommitEconomicCheckpoint r economics (h_Height finalized) postParent;
              intent ← buildGlobalCommitIntent r candidate certificate commitments checkpoint;
              Ok (Some intent)
            else Ok None);
  Ok (mkPlan commitments shards economics finalized postParent intent).

(** [r.recoveryRequired = true; return errors.Join(ErrRuntimeRecoveryRequired, err)] *)
Definition fail_closed {A} (r : Runtime) : Runtime * res A := (set_recovery r true, Err ErrRuntimeRecoveryRequired).

Definition commit_history (r : Runtime) (io : CommitIO) (intent : option globalCommitIntent) (validators : ValidatorSet)
    : Runtime * res unit :=
  match rt_history r with
  | None => (r, Ok tt)
  | Some history =>
      match intent with
      | None => fail_closed r
      | Some intent =>
          let '(history, appended) := history_Append history (io_history io) intent validators in
          let r := set_stores r (Some history) (rt_anchorStore r) in
          match appended with Err _ => fail_closed r | Ok _ => (r, Ok tt) end
      end
  end.

Fixpoint apply_shards (r : Runtime) (io : CommitIO) (deltas : gmap Z shardDelta) (commitments : gmap Z Commitment)
    (shards : list Z) : Runtime * res unit :=
  match shards with
  | [] => (r, Ok tt)
  | shard :: shards =>
      let delta := default (mkDelta [] []) (deltas !! shard) in
      match (store ← state_of r shard; backend_Apply store (dl_Consumed delta) (dl_Created delta)) with
      | Err _ => fail_closed r
      | Ok (store, root) =>
          let applied := set_states r (<[shard := store]> (rt_States r)) in
          match io_apply io shard with
          | WriteLost => fail_closed r
          | WriteKept => fail_closed applied
          | WriteOk =>
              if bool_decide (Some root = (StateRoot <$> commitments !! shard))
              then apply_shards applied io deltas commitments shards
              else fail_closed applied
          end
      end
  end.

Definition commit_anchor (r : Runtime) (io : CommitIO) (finalized : GlobalHeader) (postParent : bytes) : Runtime * res unit :=
  match rt_anchorStore r with
  | None => (r, Ok tt)
  | Some anchor =>
      let '(anchor, advanced) := anchor_advance anchor (io_anchor io)
        (mkFinalityCheckpoint (rt_Network r) (rt_ValidatorRoot r) (h_Height finalized) postParent) in
      let r := set_stores r (rt_history r) (Some anchor) in
      match advanced with Err _ => fail_closed r | Ok _ => (r, Ok tt) end
  end.

Definition write_intent (r : Runtime) (outcome : write_outcome) (intent : option globalCommitIntent) : Runtime * res unit :=
  match intent with
  | None => (r, Ok tt)
  | Some intent =>
      match writeGlobalCommitJournal r outcome intent with
      | (r, Err _) => fail_closed r
      | (r, Ok _) => (r, Ok tt)
      end
  end.

(** Sequencing of effects that may fail closed. *)
Definition then_do {A} (m : Runtime * res unit) (k : Runtime -> Runtime * res A) : Runtime * res A :=
  match m with (r, Ok _) => k r | (r, Err e) => (r, Err e) end.

Definition keep_if_none {A} (new old : option A) : option A := match new with Some _ => new | None => old end.

Definition run_commit (r : Runtime) (io : CommitIO) (candidate : Candidate) (validators : ValidatorSet) (plan : CommitPlan)
    : Runtime * res GlobalHeader :=
  then_do (write_intent r (io_prepare io) (pl_intent plan)) (fun r =>
  then_do (commit_history r io (pl_intent plan) validators) (fun r =>
  then_do (apply_shards r io (cn_deltas candidate) (pl_commitments plan) (pl_shards plan)) (fun r =>
  then_do (write_intent r (io_commit io) ((fun i => with_status i globalCommitCommitted) <$> pl_intent plan)) (fun r =>
  then_do (commit_anchor r io (pl_finalized plan) (pl_postParent plan)) (fun r =>
  let out := pl_economics plan in
  let r := set_economics r (keep_if_none (eo_collector out) (rt_economicCollector r))
             (keep_if_none (eo_engine out) (rt_economicEngine r)) (rt_economicEpochLength r) (eo_balances out)
             (eo_pending out) in
  (set_tip r (h_Height (pl_finalized plan)) (pl_postParent plan), Ok (pl_finalized plan))))))).

Definition Commit (r : Runtime) (io : CommitIO) (sg : Scheduling) (candidate : Candidate) (certificate : Certificate)
    (validators : ValidatorSet) : Runtime * res GlobalHeader :=
  match prepare_commit r sg candidate certificate validators with
  | Err e => (r, Err e)
  | Ok plan => run_commit r io candidate validators plan
  end.

Definition CommitWithValidatorTransition (r : Runtime) (io : CommitIO) (sg : Scheduling) (candidate : Candidate)
    (certificate : Certificate) (current : ValidatorSet) : Runtime * res GlobalHeader :=
  match Commit r io sg candidate certificate current with
  | (r, Err e) => (r, Err e)
  | (r, Ok finalized) => (set_validator_root r (EffectiveNextValidatorRoot finalized), Ok finalized)
  end.

(** ** Recovery *)

(** [existing] is the content of the file, [None] if there is none. *)
Definition EnableGlobalCommitJournal (r : Runtime) (existing : option bytes) : res Runtime :=
  fail_if (rt_journalConfigured r) ErrRuntimeConfig;;
  let required := match existing with Some raw => (0 <? blen raw) || rt_recoveryRequired r | None => rt_recoveryRequired r end in
  Ok (mkRuntime (rt_Network r) (rt_NativeToken r) (rt_ValidatorRoot r) (rt_ShardCount r) (rt_States r) (rt_Workers r)
        (rt_Height r) (rt_ParentHash r) (rt_economicCollector r) (rt_economicEngine r) (rt_economicEpochLength r)
        (rt_economicBalances r) (rt_pendingEconomic r) true existing (rt_history r) (rt_anchorStore r) required).

Definition restoreJournalEconomics (r : Runtime) (raw : bytes) (registry : option WorkRegistry)
    (engineConfig : ShadowEpochEngineConfig) (height : Z) (parent : bytes) : res Runtime :=
  if blen raw =? 0 then
    fail_if (match rt_economicCollector r with Some _ => true | None => false end
             || match rt_economicEngine r with Some _ => true | None => false end
             || match rt_pendingEconomic r with Some _ => true | None => false end) ErrGlobalCommitJournal;;
    Ok r
  else
    decoded ← decodeEconomicCheckpoint raw registry engineConfig;
    fail_if (negb (bool_decide (de_network decoded = rt_Network r))
             || negb (bool_decide (de_nativeToken decoded = rt_NativeToken r))
             || negb (bool_decide (de_validatorRoot decoded = rt_ValidatorRoot r))
             || negb (de_shardCount decoded =? rt_ShardCount r) || negb (de_height decoded =? height)
             || negb (bool_decide (de_parentHash decoded = parent))
             || negb (cl_lastHeight (de_collector decoded) =? height)) ErrGlobalCommitJournal;;
    Ok (set_economics r (Some (de_collector decoded)) (de_engine decoded) (de_epochLength decoded) (de_balances decoded)
          (de_pending decoded)).

(** The map of the deltas; a later entry for the same shard wins. *)
Definition index_deltas (l : list journalShardDelta) : gmap Z journalShardDelta :=
  foldl (fun m d => <[jd_ShardID d := d]> m) ∅ l.
Definition index_roots (l : list Commitment) : gmap Z bytes := foldl (fun m c => <[ShardID c := StateRoot c]> m) ∅ l.

(** One shard of the recovery loop. *)
Definition recover_shard (intent : globalCommitIntent) (commitments : gmap Z bytes) (deltas : gmap Z journalShardDelta)
    (io : Z -> write_outcome) (r : Runtime) (shard : Z) : Runtime * res unit :=
  match commitments !! shard, rt_States r !! shard with
  | Some postRoot, Some store =>
      let current := backend_Root store in
      match deltas !! shard with
      | None => (r, fail_if (negb (bool_decide (current = postRoot))) ErrGlobalCommitJournal)
      | Some delta =>
          if bool_decide (current = jd_PostRoot delta) then (r, Ok tt)
          else if (gi_Status intent =? globalCommitCommitted) || negb (bool_decide (current = jd_PreRoot delta))
                  || negb (bool_decide (postRoot = jd_PostRoot delta)) then (r, Err ErrGlobalCommitJournal)
          else
            match simulator store with
            | None => (r, Err ErrStateSimulation)
            | Some simulate =>
                match simulate (jd_Consumed delta) (jd_Created delta) with
                | Err _ => (r, Err ErrGlobalCommitJournal)
                | Ok previewRoot =>
                    if negb (bool_decide (previewRoot = jd_PostRoot delta)) then (r, Err ErrGlobalCommitJournal)
                    else
                      match backend_Apply store (jd_Consumed delta) (jd_Created delta) with
                      | Err _ => fail_closed r
                      | Ok (store', appliedRoot) =>
                          let applied := set_states r (<[shard := store']> (rt_States r)) in
                          match io shard with
                          | WriteLost => fail_closed r
                          | WriteKept => fail_closed applied
                          | WriteOk => if bool_decide (appliedRoot = jd_PostRoot delta) then (applied, Ok tt)
                                       else fail_closed applied
                          end
                      end
                end
            end
      end
  | _, _ => (r, Err ErrGlobalCommitJournal)
  end.

Fixpoint recover_shards (intent : globalCommitIntent) (commitments : gmap Z bytes) (deltas : gmap Z journalShardDelta)
    (io : Z -> write_outcome) (shards : list Z) (r : Runtime) : Runtime * res unit :=
  match shards with
  | [] => (r, Ok tt)
  | shard :: shards =>
      then_do (recover_shard intent commitments deltas io r shard) (recover_shards intent commitments deltas io shards)
  end.

(** The checks of the recovery before it touches a store. *)
Definition recover_checks (r : Runtime) (validators : ValidatorSet) : res globalCommitIntent :=
  fail_if (negb (rt_journalConfigured r)) ErrGlobalCommitJournal;;
  raw ← some_or (rt_journal r) ErrIO;
  intent ← decodeGlobalCommitJournal raw;
  fail_if (negb (bool_decide (gi_Network intent = rt_Network r))
           || negb (bool_decide (gi_NativeToken intent = rt_NativeToken r))
           || negb (bool_decide (gi_ValidatorRoot intent = rt_ValidatorRoot r))
           || negb (gi_ShardCount intent =? rt_ShardCount r)) ErrGlobalCommitJournal;;
  validatorRoot ← ValidatorSet_Root validators <?> ErrGlobalCommitJournal;
  fail_if (negb (bool_decide (validatorRoot = rt_ValidatorRoot r))
           || negb (bool_decide (s_Network validators = rt_Network r))) ErrGlobalCommitJournal;;
  VerifyCertificate validators (gi_Certificate intent);;
  fail_if (negb (bool_decide (c_HeaderHash (gi_Certificate intent) = HeaderConsensusHash (gi_Header intent)))
           || negb (c_Height (gi_Certificate intent) =? h_Height (gi_Header intent))) ErrGlobalCommitJournal;;
  let postParent := HeaderConsensusHash (gi_Header intent) in
  let atPreAnchor := (rt_Height r =? gi_PreHeight intent) && bool_decide (rt_ParentHash r = gi_PreParentHash intent) in
  let atPostAnchor := (rt_Height r =? h_Height (gi_Header intent)) && bool_decide (rt_ParentHash r = postParent) in
  let unanchoredRestart := (rt_Height r =? 0) && IsZero32 (rt_ParentHash r) in
  fail_if (negb atPreAnchor && negb atPostAnchor && negb unanchoredRestart) ErrGlobalCommitJournal;;
  Ok intent.

Definition RecoverGlobalCommitJournal (r : Runtime) (io : CommitIO) (validators : ValidatorSet)
    (registry : option WorkRegistry) (engineConfig : ShadowEpochEngineConfig) : Runtime * res unit :=
  match recover_checks r validators with
  | Err e => (r, Err e)
  | Ok intent =>
      let postParent := HeaderConsensusHash (gi_Header intent) in
      then_do (recover_shards intent (index_roots (gi_Commitments intent)) (index_deltas (gi_Deltas intent))
                 (io_apply io) (shard_range (rt_ShardCount r)) r) (fun r =>
      match restoreJournalEconomics r (gi_EconomicCheckpoint intent) registry engineConfig (h_Height (gi_Header intent))
              postParent with
      | Err e => (r, Err e)
      | Ok r =>
          then_do (if gi_Status intent =? globalCommitCommitted then (r, Ok tt)
                   else write_intent r (io_commit io) (Some (with_status intent globalCommitCommitted))) (fun r =>
          (set_recovery (set_tip r (h_Height (gi_Header intent)) postParent) false, Ok tt))
      end)
  end.
End commit.
