(* ===== verification/NodeProofs.v ===== *)
(** * NodeProofs

    The runtime of a node: a candidate does not depend on how its builds are
    scheduled, the preflight accepts what the runtime built, and a commit
    either reaches exactly the certified state or leaves the runtime refusing
    to go on. *)

From S2P Require Import Prelude GoLib Codec Crypto Types Merkle Object Smt SmtProofs SmtTheorems Sharding ShardingProofs.
From S2P Require Import Tx TxProofs Consensus ConsensusProofs ComputeWork Contracts Execution ExecutionExtended ExecutionProofs.
From S2P Require Import Worldstate WorldstateProofs.
From S2P Require Import Batch BatchAccess BatchProofs EconomicsPolicy EconomicsEpoch EconomicsCollector EconomicsEngine.
From S2P Require Import Node NodeJournal.

Open Scope Z_scope.

(** ** Slots *)

Section slots.
Context {A : Type} (build : Z -> res A).

Lemma fill_slots_lookup order shard :
  fill_slots build order !! shard = if bool_decide (shard ∈ order) then Some (build shard) else None.
Proof.
  unfold fill_slots. induction order as [|x order IH] using rev_ind; [done|].
  rewrite foldl_app. cbn [foldl]. rewrite lookup_insert. destruct (decide (x = shard)) as [->|E].
  - rewrite bool_decide_eq_true_2; [done|]. set_solver.
  - rewrite IH. repeat case_bool_decide; set_solver.
Qed.

(** Every slot is filled: the scan is the run of one worker. *)
Lemma scan_filled zero order shards :
  (forall shard, shard ∈ shards -> shard ∈ order) ->
  scan_slots zero (fill_slots build order) shards = build_in_turn build shards.
Proof.
  intros Hin. unfold scan_slots, build_in_turn.
  assert (forall acc, rfold (fun outs shard => out ← default (Ok zero) (fill_slots build order !! shard); Ok (outs ++ [out]))
            acc shards = rfold (fun outs shard => out ← build shard; Ok (outs ++ [out])) acc shards) as Hg; [|apply Hg].
  induction shards as [|s shards IH]; intros acc; cbn [rfold]; [done|].
  rewrite fill_slots_lookup, bool_decide_eq_true_2 by (apply Hin; left). cbn [default].
  destruct (build s); cbn [mbind res_bind]; [|done]. apply IH. intros x Hx. apply Hin. by right.
Qed.

Lemma build_in_turn_Ok shards outs : build_in_turn build shards = Ok outs <-> Forall2 (fun s o => build s = Ok o) shards outs.
Proof.
  unfold build_in_turn.
  assert (forall acc outs, rfold (fun outs shard => out ← build shard; Ok (outs ++ [out])) acc shards = Ok outs <->
            exists l, outs = acc ++ l /\ Forall2 (fun s o => build s = Ok o) shards l) as Hg.
  { clear outs. induction shards as [|s shards IH]; intros acc outs; cbn [rfold].
    - split; [intros [= <-]; exists []; by rewrite app_nil_r|]. intros (l & -> & Hl%Forall2_nil_inv_l). subst.
      by rewrite app_nil_r.
    - split.
      + intros E. apply bind_Ok in E as (acc' & E1 & E). apply bind_Ok in E1 as (o & Eo & E1). apply Ok_inj in E1. subst acc'.
        apply IH in E as (l & -> & Hl). exists (o :: l). split; [by rewrite <-app_assoc|by constructor].
      + intros (l & -> & Hl). apply Forall2_cons_inv_l in Hl as (o & l' & Ho & Hl & ->). rewrite Ho. cbn [mbind res_bind].
        apply IH. exists l'. split; [by rewrite <-app_assoc|done]. }
  rewrite Hg. split; [by intros (l & -> & ?)|]. intros Hl. by exists outs.
Qed.
End slots.

Lemma build_in_turn_ext {A} (f g : Z -> res A) l :
  (forall s, s ∈ l -> f s = g s) -> build_in_turn f l = build_in_turn g l.
Proof.
  intros Hfg. unfold build_in_turn.
  assert (forall acc, rfold (fun outs shard => out ← f shard; Ok (outs ++ [out])) acc l =
            rfold (fun outs shard => out ← g shard; Ok (outs ++ [out])) acc l) as Hg; [|apply Hg].
  induction l as [|s l IH]; intros acc; cbn [rfold]; [done|]. rewrite Hfg by left.
  destruct (g s); cbn [mbind res_bind]; [|done]. apply IH. intros x Hx. apply Hfg. by right.
Qed.

Lemma elem_of_shard_range count shard : shard ∈ shard_range count <-> 0 <= shard < count.
Proof. unfold shard_range. rewrite elem_of_seqZ. lia. Qed.

(** ** Scheduling *)

(** Every shard is built and every transaction of a batch is executed. *)
Record scheduling_ok (count : Z) (batches : gmap Z ShardBatch) (sg : Scheduling) : Prop := {
  so_order : forall shard, 0 <= shard < count -> shard ∈ sg_order sg;
  so_batch : forall shard,
    sg_batch sg shard ≡ₚ seq 0 (length (sb_Transactions (default no_batch (batches !! shard))));
}.

(** The dispatch order of the code names every shard once. *)
Lemma candidateShardSchedule_all count batches : candidateShardSchedule count batches ≡ₚ shard_range count.
Proof.
  unfold candidateShardSchedule. cbv zeta. generalize (shard_range count) as l. intros l.
  induction l as [|s l IH]; [done|]. cbn [List.filter].
  destruct (batch_active _); cbn [negb]; [by rewrite <-app_comm_cons, IH|].
  rewrite <-Permutation_middle. by rewrite IH.
Qed.

Lemma preflightShardSchedule_all count deltas : preflightShardSchedule count deltas ≡ₚ shard_range count.
Proof.
  unfold preflightShardSchedule. cbv zeta. generalize (shard_range count) as l. intros l.
  induction l as [|s l IH]; [done|]. cbn [List.filter].
  destruct (bool_decide _); cbn [negb]; [by rewrite <-app_comm_cons, IH|].
  rewrite <-Permutation_middle. by rewrite IH.
Qed.

Lemma candidateWorkerAllocation_spec configured gomaxprocs count :
  let '(s, t) := candidateWorkerAllocation configured gomaxprocs count in
  let budget := Z.max 1 (if configured <=? 0 then gomaxprocs else configured) in
  1 <= s <= Z.max 1 count /\ 1 <= t /\ s * t <= budget.
Proof.
  unfold candidateWorkerAllocation. cbv zeta.
  set (b0 := if configured <=? 0 then gomaxprocs else configured).
  assert ((if b0 <? 1 then 1 else b0) = Z.max 1 b0) as -> by (destruct (Z.ltb_spec b0 1); lia).
  set (b := Z.max 1 b0). assert (1 <= b) by lia. set (s := if (if count <? b then count else b) <? 1 then _ else _).
  assert (1 <= s <= Z.max 1 count /\ s <= b) as [Hs Hsb].
  { subst s. destruct (Z.ltb_spec count b); [destruct (Z.ltb_spec count 1)|destruct (Z.ltb_spec b 1)]; lia. }
  assert (1 <= Z.quot b s) as Hq by (rewrite Z.quot_div_nonneg by lia; apply Z.div_le_lower_bound; lia).
  destruct (Z.ltb_spec (Z.quot b s) 1); [lia|]. split; [lia|]. split; [lia|].
  rewrite Z.quot_div_nonneg by lia. apply Z.mul_div_le. lia.
Qed.

Section candidate.
Context `{HC : Crypto} `{HM : MapOrder} `{HH : ScriptHost} `{HI : IdleCapital} `{HF : FinalityStores}.
Context {St : Type} `{HB : Backend St} `{HS : Simulator St}.

Abbreviation Runtime := (Node.Runtime (St := St)).

Definition with_workers (r : Runtime) (workers : Z) : Runtime :=
  mkRuntime (rt_Network r) (rt_NativeToken r) (rt_ValidatorRoot r) (rt_ShardCount r) (rt_States r) workers
    (rt_Height r) (rt_ParentHash r) (rt_economicCollector r) (rt_economicEngine r) (rt_economicEpochLength r)
    (rt_economicBalances r) (rt_pendingEconomic r) (rt_journalConfigured r) (rt_journal r) (rt_history r)
    (rt_anchorStore r) (rt_recoveryRequired r).

(** The same runtime up to its worker count builds the same output. *)
Lemma buildShardCandidate_independent (r : Runtime) w1 w2 sg1 sg2 height batches shard t1 t2 :
  scheduling_ok (rt_ShardCount r) batches sg1 -> scheduling_ok (rt_ShardCount r) batches sg2 ->
  buildShardCandidate (with_workers r w1) sg1 height shard (default no_batch (batches !! shard)) t1 =
  buildShardCandidate (with_workers r w2) sg2 height shard (default no_batch (batches !! shard)) t2.
Proof.
  intros Hs1 Hs2. unfold buildShardCandidate.
  assert (forall currentRoot, build_transactions (with_workers r w1) sg1 height shard (default no_batch (batches !! shard))
            currentRoot t1 =
          build_transactions (with_workers r w2) sg2 height shard (default no_batch (batches !! shard)) currentRoot t2) as Ht.
  { intros currentRoot. unfold build_transactions. destruct (0 <? _); [|done]. cbv zeta.
    rewrite !ExecuteBatch_eq by (by apply so_batch with (rt_ShardCount r)). done. }
  unfold state_of. cbn [rt_States with_workers]. destruct (rt_States r !! shard) as [store|]; cbn [some_or mbind res_bind]; [|done].
  rewrite Ht. done.
Qed.

Lemma build_outputs_independent (r : Runtime) w1 w2 sg1 sg2 height batches :
  scheduling_ok (rt_ShardCount r) batches sg1 -> scheduling_ok (rt_ShardCount r) batches sg2 ->
  build_outputs (with_workers r w1) sg1 height batches = build_outputs (with_workers r w2) sg2 height batches.
Proof.
  assert (forall w sg, scheduling_ok (rt_ShardCount r) batches sg ->
            exists t, build_outputs (with_workers r w) sg height batches =
              build_in_turn (fun shard => buildShardCandidate (with_workers r w) sg height shard
                                            (default no_batch (batches !! shard)) t) (shard_range (rt_ShardCount r))) as Hg.
  { intros w sg Hs. unfold build_outputs. destruct (candidateWorkerAllocationForBatches _ _ _ _) as [workers t].
    exists t. destruct (workers <=? 1); [done|]. apply scan_filled. intros shard Hin%elem_of_shard_range.
    by eapply so_order. }
  intros Hs1 Hs2. destruct (Hg w1 sg1 Hs1) as [t1 ->]. destruct (Hg w2 sg2 Hs2) as [t2 ->].
  apply build_in_turn_ext. intros shard _. by apply buildShardCandidate_independent.
Qed.

(** C21: a candidate block does not depend on its scheduling.  Whatever the
    number of workers, the number of processors, the order in which the shards
    are built and the order in which the transactions of each batch execute,
    [BuildCandidate] returns the same candidate or the same error; and the
    workers that the runtime allocates never exceed the configured budget. *)
Theorem candidate_deterministic (r : Runtime) (w1 w2 : Z) (sg1 sg2 : Scheduling) (height : Z) (batches : gmap Z ShardBatch) :
  scheduling_ok (rt_ShardCount r) batches sg1 -> scheduling_ok (rt_ShardCount r) batches sg2 ->
  BuildCandidate (with_workers r w1) sg1 height batches = BuildCandidate (with_workers r w2) sg2 height batches /\
  let '(s, t) := candidateWorkerAllocationForBatches w1 (sg_gomaxprocs sg1) (rt_ShardCount r) batches in
  1 <= s /\ 1 <= t /\ s * t <= Z.max 1 (if w1 <=? 0 then sg_gomaxprocs sg1 else w1).
Proof.
  intros Hs1 Hs2. split.
  - unfold BuildCandidate. by rewrite (build_outputs_independent r w1 w2 sg1 sg2 height batches).
  - unfold candidateWorkerAllocationForBatches. cbv zeta.
    pose proof (candidateWorkerAllocation_spec w1 (sg_gomaxprocs sg1)
      (if uint32 (blen (List.filter batch_active (map_to_list batches).*2)) =? 0 then rt_ShardCount r
       else uint32 (blen (List.filter batch_active (map_to_list batches).*2)))) as Hw.
    destruct (candidateWorkerAllocation _ _ _) as [s t]. cbv zeta in Hw. lia.
Qed.
End candidate.

(** ** Effects of a commit *)

Section commit.
Context `{HC : Crypto} `{HM : MapOrder} `{HH : ScriptHost} `{HI : IdleCapital} `{HF : FinalityStores}.
Context {St : Type} `{HB : Backend St} `{HS : Simulator St} `{HE : !EconomicCheckpoint}.

Abbreviation Runtime := (Node.Runtime (St := St)).

(** An effect that fails has left the runtime refusing to go on, and no effect
    moves the tip. *)
Definition effect_ok {A} (r : Runtime) (m : Runtime * res A) : Prop :=
  (rt_Height m.1 = rt_Height r /\ rt_ParentHash m.1 = rt_ParentHash r /\ rt_ShardCount m.1 = rt_ShardCount r) /\
  match m.2 with
  | Ok _ => rt_recoveryRequired m.1 = rt_recoveryRequired r
  | Err e => e = ErrRuntimeRecoveryRequired /\ rt_recoveryRequired m.1 = true
  end.

Lemma fail_closed_ok {A} (r r0 : Runtime) :
  rt_Height r = rt_Height r0 -> rt_ParentHash r = rt_ParentHash r0 -> rt_ShardCount r = rt_ShardCount r0 ->
  effect_ok r0 (fail_closed (A := A) r).
Proof. done. Qed.

Lemma then_do_effect {A} (r : Runtime) m (k : Runtime -> Runtime * res A) :
  effect_ok r m -> (forall r', m = (r', Ok tt) -> effect_ok r' (k r')) -> effect_ok r (then_do m k).
Proof.
  intros Hm Hk. destruct m as [r' [[]|e]]; cbn; [|done].
  destruct Hm as [(H1 & H2 & H3) H4]. destruct (Hk r' eq_refl) as [(E1 & E2 & E3) E4]. cbn in *.
  split; [split_and!; congruence|]. destruct (k r').2; [congruence|done].
Qed.

Lemma write_intent_ok (r : Runtime) outcome intent : effect_ok r (write_intent r outcome intent).
Proof.
  unfold write_intent, writeGlobalCommitJournal. destruct intent as [i|]; [|done].
  destruct (encodeGlobalCommitJournal i); [|done]. by destruct outcome.
Qed.

Lemma commit_history_ok (r : Runtime) io intent validators : effect_ok r (commit_history r io intent validators).
Proof.
  unfold commit_history. destruct (rt_history r); [|done]. destruct intent; [|done]. by destruct (history_Append _ _ _ _) as [? []].
Qed.

Lemma commit_anchor_ok (r : Runtime) io header parent : effect_ok r (commit_anchor r io header parent).
Proof. unfold commit_anchor. destruct (rt_anchorStore r); [|done]. by destruct (anchor_advance _ _ _) as [? []]. Qed.

Lemma apply_shards_ok (r : Runtime) io deltas commitments shards :
  effect_ok r (apply_shards r io deltas commitments shards).
Proof.
  revert r. induction shards as [|shard shards IH]; intros r; cbn [apply_shards]; [done|].
  destruct (state_of r shard ≫= _) as [[store root]|]; [|done].
  destruct (io_apply io shard); [|done|done]. destruct (bool_decide _); [|done].
  specialize (IH (set_states r (<[shard := store]> (rt_States r)))). exact IH.
Qed.

(** The stores after a list of shards has been applied. *)
Definition apply_one (deltas : gmap Z shardDelta) (states : gmap Z St) (shard : Z) : gmap Z St :=
  let delta := default (mkDelta [] []) (deltas !! shard) in
  match states !! shard with
  | Some store =>
      match backend_Apply store (dl_Consumed delta) (dl_Created delta) with
      | Ok (store', _) => <[shard := store']> states
      | Err _ => states
      end
  | None => states
  end.
Definition states_after (deltas : gmap Z shardDelta) (states : gmap Z St) (shards : list Z) : gmap Z St :=
  foldl (apply_one deltas) states shards.

Lemma states_after_other deltas states shards shard :
  shard ∉ shards -> states_after deltas states shards !! shard = states !! shard.
Proof.
  revert states. induction shards as [|x shards IH]; intros states Hn; cbn [states_after foldl]; [done|].
  apply not_elem_of_cons in Hn as [Hx Hn]. unfold states_after in IH. rewrite IH by done. unfold apply_one.
  destruct (states !! x); [|done]. destruct (backend_Apply _ _ _) as [[]|]; [|done]. by rewrite lookup_insert_ne.
Qed.

(** What an application of the stores leaves behind: a prefix of the shards. *)
Lemma apply_shards_prefix (r r' : Runtime) io deltas commitments shards out :
  apply_shards r io deltas commitments shards = (r', out) ->
  exists before, (exists rest, shards = before ++ rest) /\ (out = Ok tt -> before = shards) /\
    rt_States r' = states_after deltas (rt_States r) before /\ rt_journal r' = rt_journal r /\
    rt_history r' = rt_history r /\ rt_anchorStore r' = rt_anchorStore r.
Proof.
  revert r. induction shards as [|shard shards IH]; intros r E; cbn [apply_shards] in E.
  { injection E as <- <-. exists []. split; [by exists []|done]. }
  destruct (state_of r shard ≫= _) as [[store root]|] eqn:Ea.
  2:{ injection E as <- <-. exists []. split; [by eexists|]. split; [done|done]. }
  assert (apply_one deltas (rt_States r) shard = <[shard := store]> (rt_States r)) as Hone.
  { unfold apply_one, state_of in *. destruct (rt_States r !! shard) as [s|]; [|done]. cbn in Ea |- *. by rewrite Ea. }
  destruct (io_apply io shard).
  - destruct (bool_decide _).
    + apply IH in E as (before & (rest & ->) & Hok & Hst & Hj & Hh & Ha). exists (shard :: before).
      split; [by exists rest|]. split; [intros Ho; f_equal; by apply Hok|].
      cbn in Hst, Hj, Hh, Ha. cbn [states_after foldl]. by rewrite Hone.
    + injection E as <- <-. exists [shard]. split; [by exists shards|]. cbn. by rewrite Hone.
  - injection E as <- <-. exists []. split; [by eexists|done].
  - injection E as <- <-. exists [shard]. split; [by exists shards|]. cbn. by rewrite Hone.
Qed.

(** ** What a preflight establishes *)

Lemma check_topology_Ok {V} count (m : gmap Z V) shard :
  check_topology count m = Ok tt -> is_Some (m !! shard) -> shard < count.
Proof.
  intros E%fail_if_Ok [v Hv]. destruct (Z.ltb_spec shard count) as [|Hge]; [done|exfalso].
  assert (existsb (fun s => count <=? s) (map_to_list m).*1 = true) as E'; [|congruence].
  apply existsb_exists. exists shard. split; [|lia]. apply list_elem_of_In, list_elem_of_fmap.
  exists (shard, v). split; [done|]. by apply elem_of_map_to_list.
Qed.

Lemma index_commitments_Ok count l m m' :
  rfold (index_commitment count) m l = Ok m' ->
  (forall shard c, m' !! shard = Some c -> m !! shard = Some c \/ (c ∈ l /\ ShardID c = shard)) /\
  (forall c, c ∈ l -> ShardID c < count /\ m' !! ShardID c = Some c) /\
  (forall shard c, m !! shard = Some c -> m' !! shard = Some c) /\
  size m' = (size m + length l)%nat.
Proof.
  revert m. induction l as [|c l IH]; intros m E; cbn [rfold] in E.
  { apply Ok_inj in E. subst m'. split_and!; [by left|by intros c ?%elem_of_nil|done|cbn; lia]. }
  apply bind_Ok in E as (m1 & E1 & E). apply bind_Ok in E1 as ([] & Hc%fail_if_Ok & E1).
  apply bind_Ok in E1 as ([] & Hd%fail_if_Ok & E1). apply Ok_inj in E1. subst m1. apply bool_decide_eq_false in Hd.
  apply eq_None_not_Some in Hd. destruct (IH _ E) as (H1 & H2 & H3 & H4). split_and!.
  - intros shard c' Hm'. apply H1 in Hm' as [Hm'|[Hin Hs]]; [|right; split; [by right|done]].
    rewrite lookup_insert in Hm'. destruct (decide (ShardID c = shard)) as [Hs|]; [|by left].
    injection Hm' as <-. right. split; [left|done].
  - intros c' [->|Hin]%elem_of_cons; [|by apply H2]. split; [lia|]. apply H3. apply lookup_insert_eq.
  - intros shard c' Hm. apply H3. rewrite lookup_insert_ne; [done|]. congruence.
  - rewrite H4, map_size_insert_None by done. cbn. lia.
Qed.

(** The root of a shard after the candidate. *)
Definition shard_reaches (r : Runtime) (candidate : Candidate) (shard : Z) (root : bytes) : Prop :=
  exists store, rt_States r !! shard = Some store /\
    match cn_deltas candidate !! shard with
    | None => backend_Root store = root
    | Some delta => exists simulate, simulator store = Some simulate /\
        simulate (dl_Consumed delta) (dl_Created delta) = Ok root
    end.

Record preflighted (r : Runtime) (candidate : Candidate) (commitments : gmap Z Commitment) (shards : list Z) : Prop := {
  pf_root : CommitmentRoot (cn_Commitments candidate) = Ok (h_ShardCommitmentRoot (cn_Header candidate));
  pf_count : blen (cn_Commitments candidate) = rt_ShardCount r;
  pf_commitments : forall shard c, commitments !! shard = Some c <-> c ∈ cn_Commitments candidate /\ ShardID c = shard;
  pf_size : Z.of_nat (size commitments) = rt_ShardCount r;
  pf_shard : forall shard, 0 <= shard < rt_ShardCount r ->
    exists c, commitments !! shard = Some c /\ shard_reaches r candidate shard (StateRoot c);
  pf_deltas : forall shard, is_Some (cn_deltas candidate !! shard) -> shard < rt_ShardCount r;
  pf_shards : shards = sort_by (fun shard : Z => shard) (map_to_list (cn_deltas candidate)).*1;
}.

Lemma verifyShard_Ok (r : Runtime) candidate commitments shard leaf :
  verifyShard r candidate commitments shard = Ok leaf ->
  exists c, commitments !! shard = Some c /\ shard_reaches r candidate shard (StateRoot c).
Proof.
  intros E. apply bind_Ok in E as (c & Hc%some_or_Ok & E). apply bind_Ok in E as (store & Hs%some_or_Ok & E).
  apply bind_Ok in E as (root & Er & E). apply bind_Ok in E as ([] & Hr%fail_if_Ok & _).
  apply negb_false_iff, bool_decide_eq_true in Hr. subst root. exists c. split; [done|]. exists store. split; [done|].
  destruct (cn_deltas candidate !! shard) as [delta|]; [|by apply Ok_inj in Er].
  apply bind_Ok in Er as (simulate & Hsim%some_or_Ok & Er). by exists simulate.
Qed.

Lemma preflight_spec (r : Runtime) sg candidate commitments shards :
  (forall shard, 0 <= shard < rt_ShardCount r -> shard ∈ sg_order sg) ->
  preflightCandidateState r sg candidate = Ok (commitments, shards) -> preflighted r candidate commitments shards.
Proof.
  intros Hord E. unfold preflightCandidateState in E. apply bind_Ok in E as ([] & Hlen%fail_if_Ok & E).
  apply bind_Ok in E as ([] & _ & E). apply bind_Ok in E as ([] & _ & E). apply bind_Ok in E as ([] & _ & E).
  apply bind_Ok in E as ([] & Htop & E). apply bind_Ok in E as (root & Hroot%or_err_Ok & E).
  apply bind_Ok in E as ([] & Hr%fail_if_Ok & E). apply bind_Ok in E as (m & Hm & E).
  apply bind_Ok in E as (leaves & Hl & E). apply bind_Ok in E as ([] & _ & E). apply Ok_inj in E. injection E as <- <-.
  apply negb_false_iff, bool_decide_eq_true in Hr. subst root. apply negb_false_iff, Z.eqb_eq in Hlen.
  destruct (index_commitments_Ok _ _ _ _ Hm) as (H1 & H2 & _ & H4).
  assert (build_in_turn (verifyShard r candidate m) (shard_range (rt_ShardCount r)) = Ok leaves) as Hb.
  { destruct (_ =? 1); [done|]. rewrite scan_filled in Hl; [done|]. intros shard Hs%elem_of_shard_range. by apply Hord. }
  apply build_in_turn_Ok in Hb. constructor; try done.
  - intros shard c. split; [intros Hc; apply H1 in Hc as [Hc|Hc]; [done|done]|intros [Hin <-]; by apply H2].
  - rewrite H4, map_size_empty. unfold blen in Hlen. lia.
  - intros shard Hs%elem_of_shard_range. apply list_elem_of_lookup in Hs as [i Hi].
    destruct (Forall2_lookup_l _ _ _ _ _ Hb Hi) as (leaf & _ & Hv). by eapply verifyShard_Ok.
  - intros shard. by eapply check_topology_Ok.
Qed.

(** ** What a commit decides before its first effect *)

Record prepared (r : Runtime) (candidate : Candidate) (certificate : Certificate) (validators : ValidatorSet)
    (plan : CommitPlan) : Prop := {
  pp_running : rt_recoveryRequired r = false;
  pp_height : h_Height (cn_Header candidate) = add64 (rt_Height r) 1;
  pp_parent : h_ParentHash (cn_Header candidate) = rt_ParentHash r;
  pp_network : h_Network (cn_Header candidate) = rt_Network r;
  pp_validators : ValidatorSet_Root validators = Ok (h_ValidatorRoot (cn_Header candidate)) /\
    h_ValidatorRoot (cn_Header candidate) = rt_ValidatorRoot r;
  pp_certificate : VerifyCertificate validators certificate = Ok tt /\
    c_HeaderHash certificate = HeaderConsensusHash (cn_Header candidate) /\
    c_Height certificate = h_Height (cn_Header candidate) /\ c_Network certificate = rt_Network r;
  pp_preflight : preflighted r candidate (pl_commitments plan) (pl_shards plan);
  pp_economics : preview_economics r candidate = Ok (pl_economics plan);
  pp_finalized : pl_finalized plan = with_certificate (cn_Header candidate) (Certificate_Hash certificate);
  pp_postParent : pl_postParent plan = HeaderConsensusHash (cn_Header candidate);
  pp_intent : if rt_journalConfigured r then
      exists checkpoint intent,
        postCommitEconomicCheckpoint r (pl_economics plan) (h_Height (cn_Header candidate)) (pl_postParent plan) = Ok checkpoint /\
        buildGlobalCommitIntent r candidate certificate (pl_commitments plan) checkpoint = Ok intent /\
        pl_intent plan = Some intent
    else pl_intent plan = None;
}.

Lemma HeaderConsensusHash_certificate h hash : HeaderConsensusHash (with_certificate h hash) = HeaderConsensusHash h.
Proof. done. Qed.

Lemma prepare_commit_Ok (r : Runtime) sg candidate certificate validators plan :
  (forall shard, 0 <= shard < rt_ShardCount r -> shard ∈ sg_order sg) ->
  prepare_commit r sg candidate certificate validators = Ok plan ->
  prepared r candidate certificate validators plan.
Proof.
  intros Hord E. unfold prepare_commit in E. apply bind_Ok in E as ([] & Hrun%fail_if_Ok & E).
  apply bind_Ok in E as ([] & H1%fail_if_Ok & E). apply bind_Ok in E as (vr & Hvr%or_err_Ok & E).
  apply bind_Ok in E as ([] & H2%fail_if_Ok & E). apply bind_Ok in E as ([] & H3%fail_if_Ok & E).
  apply bind_Ok in E as ([] & Hcert & E). apply bind_Ok in E as ([] & _ & E).
  apply bind_Ok in E as ([commitments shards] & Hpf & E). apply bind_Ok in E as (economics & Hec & E).
  apply bind_Ok in E as (intent & Hint & E). apply Ok_inj in E. subst plan.
  bool_inv. repeat match goal with Hz : (_ =? _) = true |- _ => apply Z.eqb_eq in Hz end. subst vr. constructor; cbn [pl_commitments pl_shards pl_economics pl_finalized pl_postParent pl_intent]; try done.
  - by apply preflight_spec with sg.
  - destruct (rt_journalConfigured r); [|by apply Ok_inj in Hint].
    apply bind_Ok in Hint as (checkpoint & Hck & Hint). apply bind_Ok in Hint as (i & Hi & Hint). apply Ok_inj in Hint.
    exists checkpoint, i. done.
Qed.

(** ** Commits fail closed *)

Lemma refuses_build (r : Runtime) sg height batches :
  rt_recoveryRequired r = true -> BuildCandidate r sg height batches = Err ErrRuntimeRecoveryRequired.
Proof. intros E. unfold BuildCandidate. by rewrite E. Qed.

Lemma refuses_commit (r : Runtime) io sg candidate certificate validators :
  rt_recoveryRequired r = true -> Commit r io sg candidate certificate validators = (r, Err ErrRuntimeRecoveryRequired).
Proof. intros E. unfold Commit, prepare_commit. by rewrite E. Qed.

(** The effects of a commit, up to the move of the tip. *)
Definition commit_effects (r : Runtime) (io : CommitIO) (candidate : Candidate) (validators : ValidatorSet)
    (plan : CommitPlan) : Runtime * res unit :=
  then_do (write_intent r (io_prepare io) (pl_intent plan)) (fun r =>
  then_do (commit_history r io (pl_intent plan) validators) (fun r =>
  then_do (apply_shards r io (cn_deltas candidate) (pl_commitments plan) (pl_shards plan)) (fun r =>
  then_do (write_intent r (io_commit io) ((fun i => with_status i globalCommitCommitted) <$> pl_intent plan)) (fun r =>
  commit_anchor r io (pl_finalized plan) (pl_postParent plan))))).

Lemma run_commit_eq (r : Runtime) io candidate validators plan :
  run_commit r io candidate validators plan =
  then_do (commit_effects r io candidate validators plan) (fun r =>
    (set_tip (set_economics r (keep_if_none (eo_collector (pl_economics plan)) (rt_economicCollector r))
               (keep_if_none (eo_engine (pl_economics plan)) (rt_economicEngine r)) (rt_economicEpochLength r)
               (eo_balances (pl_economics plan)) (eo_pending (pl_economics plan)))
       (h_Height (pl_finalized plan)) (pl_postParent plan), Ok (pl_finalized plan))).
Proof.
  unfold run_commit, commit_effects. unfold then_do.
  destruct (write_intent r _ _) as [r1 [[]|]]; [|done]. destruct (commit_history r1 _ _ _) as [r2 [[]|]]; [|done].
  destruct (apply_shards r2 _ _ _ _) as [r3 [[]|]]; [|done]. destruct (write_intent r3 _ _) as [r4 [[]|]]; [|done].
  by destruct (commit_anchor r4 _ _ _) as [r5 [[]|]].
Qed.

Lemma commit_effects_ok (r : Runtime) io candidate validators plan :
  effect_ok r (commit_effects r io candidate validators plan).
Proof.
  unfold commit_effects. apply then_do_effect; [apply write_intent_ok|intros r1 _].
  apply then_do_effect; [apply commit_history_ok|intros r2 _]. apply then_do_effect; [apply apply_shards_ok|intros r3 _].
  apply then_do_effect; [apply write_intent_ok|intros r4 _]. apply commit_anchor_ok.
Qed.

(** C19: commits fail closed.  Whatever effect of [Commit] fails, and whether the
    failed write reached the disk or not, a commit that reports an error either
    has changed nothing at all, or has left the tip where it was and the
    runtime in the recovery state: it then refuses to build another candidate
    and to commit one until it has been recovered from its journal. *)
Theorem commit_fails_closed (r r' : Runtime) (io : CommitIO) (sg : Scheduling) (candidate : Candidate)
    (certificate : Certificate) (validators : ValidatorSet) (e : error) :
  Commit r io sg candidate certificate validators = (r', Err e) ->
  r' = r \/
  (e = ErrRuntimeRecoveryRequired /\ RecoveryRequired r' = true /\
   rt_Height r' = rt_Height r /\ rt_ParentHash r' = rt_ParentHash r /\
   (forall sg' height batches, BuildCandidate r' sg' height batches = Err ErrRuntimeRecoveryRequired) /\
   (forall io' sg' candidate' certificate' validators',
      Commit r' io' sg' candidate' certificate' validators' = (r', Err ErrRuntimeRecoveryRequired))).
Proof.
  unfold Commit at 1. destruct (prepare_commit _ _ _ _ _) as [plan|e0]; [|intros [= <- _]; by left].
  rewrite run_commit_eq. intros E. right.
  pose proof (commit_effects_ok r io candidate validators plan) as [(Hh & Hp & _) He].
  destruct (commit_effects _ _ _ _ _) as [r1 [[]|e1]]; [done|]. cbn in E, Hh, Hp, He. injection E as <- <-.
  destruct He as [-> He]. split_and!; try done; intros; [by apply refuses_build|by apply refuses_commit].
Qed.

(** ** What the effects leave alone *)

(** All of the runtime but its stores, files and recovery flag. *)
Definition core (r : Runtime) :=
  (rt_Network r, rt_NativeToken r, rt_ValidatorRoot r, rt_ShardCount r, rt_Workers r, rt_Height r, rt_ParentHash r,
   rt_economicCollector r, rt_economicEngine r, rt_economicEpochLength r, rt_economicBalances r, rt_pendingEconomic r,
   rt_journalConfigured r).

Lemma write_intent_frame (r r' : Runtime) outcome intent out :
  write_intent r outcome intent = (r', out) -> core r' = core r /\ rt_States r' = rt_States r.
Proof.
  unfold write_intent, writeGlobalCommitJournal. destruct intent as [i|]; [|by intros [= <- _]].
  destruct (encodeGlobalCommitJournal i); [|by intros [= <- _]]. by destruct outcome; intros [= <- _].
Qed.

Lemma commit_history_frame (r r' : Runtime) io intent validators out :
  commit_history r io intent validators = (r', out) ->
  core r' = core r /\ rt_States r' = rt_States r /\ rt_journal r' = rt_journal r.
Proof.
  unfold commit_history. destruct (rt_history r); [|by intros [= <- _]]. destruct intent; [|by intros [= <- _]].
  by destruct (history_Append _ _ _ _) as [? []]; intros [= <- _].
Qed.

Lemma commit_anchor_frame (r r' : Runtime) io header parent out :
  commit_anchor r io header parent = (r', out) ->
  core r' = core r /\ rt_States r' = rt_States r /\ rt_journal r' = rt_journal r.
Proof.
  unfold commit_anchor. destruct (rt_anchorStore r); [|by intros [= <- _]]. by destruct (anchor_advance _ _ _) as [? []]; intros [= <- _].
Qed.

Lemma apply_shards_core (r r' : Runtime) io deltas commitments shards out :
  apply_shards r io deltas commitments shards = (r', out) -> core r' = core r.
Proof.
  revert r. induction shards as [|shard shards IH]; intros r E; cbn [apply_shards] in E; [by injection E as <- _|].
  destruct (state_of r shard ≫= _) as [[store root]|]; [|by injection E as <- _].
  destruct (io_apply io shard); [|by injection E as <- _..]. destruct (bool_decide _); [|by injection E as <- _].
  by apply IH in E.
Qed.

Lemma then_do_Ok {A} (m : Runtime * res unit) (k : Runtime -> Runtime * res A) r' v :
  then_do m k = (r', Ok v) -> exists r1, m = (r1, Ok tt) /\ k r1 = (r', Ok v).
Proof. destruct m as [r1 [[]|]]; [|done]. by exists r1. Qed.

(** A completed application: each shard was applied from the store it had. *)
Lemma apply_shards_Ok (r r' : Runtime) io deltas commitments shards :
  NoDup shards -> apply_shards r io deltas commitments shards = (r', Ok tt) ->
  forall shard, if bool_decide (shard ∈ shards) then
    exists store store' c, rt_States r !! shard = Some store /\ rt_States r' !! shard = Some store' /\
      commitments !! shard = Some c /\
      backend_Apply store (dl_Consumed (default (mkDelta [] []) (deltas !! shard)))
        (dl_Created (default (mkDelta [] []) (deltas !! shard))) = Ok (store', StateRoot c)
  else rt_States r' !! shard = rt_States r !! shard.
Proof.
  revert r. induction shards as [|x shards IH]; intros r Hnd E shard; cbn [apply_shards] in E.
  { injection E as <-. by rewrite bool_decide_eq_false_2 by apply not_elem_of_nil. }
  apply NoDup_cons in Hnd as [Hx Hnd].
  destruct (state_of r x ≫= _) as [[store root]|] eqn:Ea; [|done]. destruct (io_apply io x); [|done..].
  destruct (bool_decide (Some root = _)) eqn:Er; [|done]. apply bool_decide_eq_true in Er.
  apply bind_Ok in Ea as (store0 & Hs%some_or_Ok & Ea). specialize (IH _ Hnd E shard). cbn [rt_States set_states] in IH.
  destruct (decide (shard = x)) as [->|Hne].
  - rewrite bool_decide_eq_false_2 in IH by done. rewrite lookup_insert_eq in IH. rewrite bool_decide_eq_true_2 by left.
    destruct (commitments !! x) as [c|] eqn:Ec; [|done]. injection Er as ->. exists store0, store, c. done.
  - rewrite lookup_insert_ne in IH by done. case_bool_decide as Hin.
    + rewrite bool_decide_eq_true_2 by (by right). done.
    + rewrite bool_decide_eq_false_2; [done|]. by intros [?|?]%elem_of_cons.
Qed.

Lemma changed_shards_spec (deltas : gmap Z shardDelta) :
  NoDup (sort_by (fun shard : Z => shard) (map_to_list deltas).*1) /\
  (forall shard, shard ∈ sort_by (fun shard : Z => shard) (map_to_list deltas).*1 <-> is_Some (deltas !! shard)).
Proof.
  split.
  - rewrite sort_by_perm. apply NoDup_fst_map_to_list.
  - intros shard. rewrite sort_by_perm. rewrite list_elem_of_fmap. split.
    + intros ([s d] & -> & Hd%elem_of_map_to_list). by exists d.
    + intros [d Hd]. exists (shard, d). by rewrite elem_of_map_to_list.
Qed.

(** ** A completed commit *)

(** The runtime and the candidate are values of their Go types, and every shard
    has a store of the interface. *)
Record commit_inputs `{!BackendSpec St} (r : Runtime) (sg : Scheduling) (candidate : Candidate) : Prop := {
  ci_order : forall shard, 0 <= shard < rt_ShardCount r -> shard ∈ sg_order sg;
  ci_stores : forall shard store, rt_States r !! shard = Some store -> bs_inv store;
  ci_deltas : forall shard delta, cn_deltas candidate !! shard = Some delta ->
    0 <= shard /\ Forall Object_typed (dl_Created delta);
}.

(** The objects of a shard after its part of the candidate. *)
Definition shard_objects (objects : gmap bytes Object) (delta : option shardDelta) : gmap bytes Object :=
  match delta with
  | None => objects
  | Some delta => delta_objects objects (dl_Consumed delta) (dl_Created delta)
  end.

(** Shard by shard, the stores of [r'] are those of [r] moved by the candidate. *)
Definition shards_committed `{!BackendSpec St} (r r' : Runtime) (candidate : Candidate) : Prop :=
  forall shard, 0 <= shard < rt_ShardCount r ->
  exists store store' c,
    rt_States r !! shard = Some store /\ rt_States r' !! shard = Some store' /\ bs_inv store' /\
    bs_objects store' = shard_objects (bs_objects store) (cn_deltas candidate !! shard) /\
    c ∈ cn_Commitments candidate /\ ShardID c = shard /\ backend_Root store' = StateRoot c.

Lemma shards_applied `{!BackendSpec St} (r r' : Runtime) sg io candidate commitments shards :
  commit_inputs r sg candidate -> preflighted r candidate commitments shards ->
  apply_shards r io (cn_deltas candidate) commitments shards = (r', Ok tt) -> shards_committed r r' candidate.
Proof.
  intros Hci Hpf E shard Hs. destruct (pf_shard _ _ _ _ Hpf shard Hs) as (c & Hc & store & Hst & Hr).
  apply (pf_commitments _ _ _ _ Hpf) in Hc as Hc'. destruct Hc' as [Hin Hid].
  destruct (changed_shards_spec (cn_deltas candidate)) as [Hnd Hel]. rewrite <-(pf_shards _ _ _ _ Hpf) in Hnd, Hel.
  pose proof (apply_shards_Ok _ _ _ _ _ _ Hnd E shard) as Ha.
  destruct (cn_deltas candidate !! shard) as [delta|] eqn:Ed.
  - rewrite bool_decide_eq_true_2 in Ha by (by apply Hel). destruct Ha as (store0 & store' & c0 & Hs0 & Hs' & Hc0 & Ha).
    rewrite Hst in Hs0. injection Hs0 as <-. rewrite Hc in Hc0. injection Hc0 as <-. cbn [default] in Ha.
    apply bs_apply in Ha as (_ & Hi & Ho & Hroot); [|by eapply ci_stores|by eapply ci_deltas]. by exists store, store', c.
  - rewrite bool_decide_eq_false_2 in Ha by (intros [d Hd]%Hel; congruence). rewrite Hst in Ha.
    exists store, store, c. split_and!; try done. by eapply ci_stores.
Qed.

Lemma commit_effects_Ok (r r' : Runtime) io candidate validators plan :
  commit_effects r io candidate validators plan = (r', Ok tt) ->
  exists r1 r2, core r1 = core r /\ rt_States r1 = rt_States r /\ core r' = core r /\ rt_States r2 = rt_States r' /\
    apply_shards r1 io (cn_deltas candidate) (pl_commitments plan) (pl_shards plan) = (r2, Ok tt).
Proof.
  unfold commit_effects. intros E. apply then_do_Ok in E as (a & Ea & E). apply then_do_Ok in E as (b & Eb & E).
  apply then_do_Ok in E as (c & Ec & E). apply then_do_Ok in E as (d & Ed & E).
  apply write_intent_frame in Ea as [Ha1 Ha2]. apply commit_history_frame in Eb as (Hb1 & Hb2 & _).
  pose proof (apply_shards_core _ _ _ _ _ _ _ Ec) as Hc1. apply write_intent_frame in Ed as [Hd1 Hd2].
  apply commit_anchor_frame in E as (He1 & He2 & _). exists b, c. split_and!; congruence.
Qed.

Lemma commit_inputs_core `{!BackendSpec St} (r r1 : Runtime) sg candidate :
  core r1 = core r -> rt_States r1 = rt_States r -> commit_inputs r sg candidate -> commit_inputs r1 sg candidate.
Proof.
  intros Hc Hs [H1 H2 H3]. assert (rt_ShardCount r1 = rt_ShardCount r) as E by (by injection Hc).
  constructor; [by rewrite E|by rewrite Hs|done].
Qed.

Lemma preflighted_core (r r1 : Runtime) candidate commitments shards :
  core r1 = core r -> rt_States r1 = rt_States r -> preflighted r candidate commitments shards ->
  preflighted r1 candidate commitments shards.
Proof.
  intros Hc Hs [H1 H2 H3 H4 H5 H6 H7]. assert (rt_ShardCount r1 = rt_ShardCount r) as E by (by injection Hc).
  constructor; rewrite ?E; try done. unfold shard_reaches in *. by rewrite Hs.
Qed.

(** A commit that succeeds: its plan, the tip and the stores. *)
Lemma Commit_Ok `{!BackendSpec St} (r r' : Runtime) io sg candidate certificate validators finalized :
  commit_inputs r sg candidate -> Commit r io sg candidate certificate validators = (r', Ok finalized) ->
  exists plan, prepared r candidate certificate validators plan /\
    finalized = with_certificate (cn_Header candidate) (Certificate_Hash certificate) /\
    rt_Height r' = h_Height finalized /\ rt_ParentHash r' = HeaderConsensusHash finalized /\
    rt_recoveryRequired r' = false /\ shards_committed r r' candidate.
Proof.
  intros Hci. unfold Commit. destruct (prepare_commit _ _ _ _ _) as [plan|] eqn:Ep; [|done].
  apply prepare_commit_Ok in Ep as Hp; [|by apply Hci]. rewrite run_commit_eq. intros E.
  apply then_do_Ok in E as (r1 & E1 & E). injection E as <- <-. rewrite (pp_finalized _ _ _ _ _ Hp), (pp_postParent _ _ _ _ _ Hp).
  pose proof (commit_effects_ok r io candidate validators plan) as [_ Hrec]. rewrite E1 in Hrec. cbn in Hrec.
  apply commit_effects_Ok in E1 as (ra & rb & Ha1 & Ha2 & Hb1 & Hb2 & Eapp).
  exists plan. split_and!; try done; [cbn; rewrite Hrec; apply Hp|].
  pose proof (shards_applied ra rb sg io candidate _ _ (commit_inputs_core _ _ _ _ Ha1 Ha2 Hci)
    (preflighted_core _ _ _ _ _ Ha1 Ha2 (pp_preflight _ _ _ _ _ Hp)) Eapp) as Hsh.
  unfold shards_committed in *. rewrite Ha2, Hb2 in Hsh.
  replace (rt_ShardCount ra) with (rt_ShardCount r) in Hsh by (by injection Ha1). done.
Qed.

(** C2: a completed commit reaches exactly the certified state.  If [Commit]
    returns the finalized header, the header extends the tip of the runtime by
    one and carries a valid certificate of the current validators over its
    hash; the tip has moved onto it; and in every shard the store now holds the
    objects it held, moved by the candidate's delta, with the very state root
    that the certified commitment of the shard names; the commitments are the
    ones the header commits to. *)
Theorem commit_reaches_certified `{!BackendSpec St} (r r' : Runtime) (io : CommitIO) (sg : Scheduling)
    (candidate : Candidate) (certificate : Certificate) (validators : ValidatorSet) (finalized : GlobalHeader) :
  commit_inputs r sg candidate ->
  Commit r io sg candidate certificate validators = (r', Ok finalized) ->
  (h_Height finalized = add64 (rt_Height r) 1 /\ h_ParentHash finalized = rt_ParentHash r /\
   h_Network finalized = rt_Network r /\ ValidatorSet_Root validators = Ok (rt_ValidatorRoot r)) /\
  (VerifyCertificate validators certificate = Ok tt /\ c_HeaderHash certificate = HeaderConsensusHash finalized /\
   h_CertificateHash finalized = Certificate_Hash certificate) /\
  (rt_Height r' = h_Height finalized /\ rt_ParentHash r' = HeaderConsensusHash finalized /\
   RecoveryRequired r' = false) /\
  CommitmentRoot (cn_Commitments candidate) = Ok (h_ShardCommitmentRoot finalized) /\
  shards_committed r r' candidate.
Proof.
  intros Hci E. destruct (Commit_Ok _ _ _ _ _ _ _ _ Hci E) as (plan & Hp & -> & Hh & Hpa & Hrec & Hsh).
  destruct (pp_validators _ _ _ _ _ Hp) as [Hv1 Hv2]. destruct (pp_certificate _ _ _ _ _ Hp) as (Hc1 & Hc2 & _).
  split; [|split; [done|split; [done|split; [apply (pp_preflight _ _ _ _ _ Hp)|done]]]].
  split_and!; [apply Hp..|]. by rewrite Hv1, Hv2.
Qed.

(** ** The preflight accepts what was built *)

(** What the build of one shard puts into the candidate. *)
Record built (r : Runtime) (shard : Z) (out : shardBuildOutput) : Prop := {
  bt_shard : ShardID (so_commitment out) = shard;
  bt_leaf : so_dataLeaf out = Leaf (str "shard-data-root") (DataRoot (so_commitment out));
  bt_receipts : ReceiptBatch_Root (so_receipts out) = Ok (ReceiptRoot (so_commitment out));
  bt_root : exists store, rt_States r !! shard = Some store /\
    match so_delta out with
    | None => backend_Root store = StateRoot (so_commitment out)
    | Some delta => exists simulate, simulator store = Some simulate /\
        simulate (dl_Consumed delta) (dl_Created delta) = Ok (StateRoot (so_commitment out))
    end;
  bt_pending : match rt_pendingEconomic r with
    | None => so_economicPendingStateHash out = zero32
    | Some pending => shard = 0 -> MonetaryEpochState_Hash (pv_State pending) = Ok (so_economicPendingStateHash out)
    end;
}.

Lemma buildShardCandidate_built (r : Runtime) sg height shard batch workers out :
  buildShardCandidate r sg height shard batch workers = Ok out -> built r shard out.
Proof.
  intros E. apply bind_Ok in E as (store & Hs%some_or_Ok & E). apply bind_Ok in E as ([results d0] & _ & E).
  apply bind_Ok in E as (d1 & _ & E). apply bind_Ok in E as ([delta hash] & Hpd & E).
  apply bind_Ok in E as (newRoot & Hn & E). apply bind_Ok in E as (rr & Hrr & E). apply Ok_inj in E. subst out.
  constructor; cbn [so_commitment so_dataLeaf so_receipts so_delta so_economicPendingStateHash ShardID StateRoot ReceiptRoot
    DataRoot]; try done.
  2:{ unfold pending_delta in Hpd. destruct (rt_pendingEconomic r) as [pending|]; [|by injection Hpd]. intros ->. cbn [Z.eqb] in Hpd.
      apply bind_Ok in Hpd as (h & Hh & Hpd). apply bind_Ok in Hpd as (d & _ & Hpd). apply Ok_inj in Hpd. injection Hpd as _ <-. done. }
  exists store. split; [done|]. unfold simulate_delta in Hn. destruct (delta_empty delta); [by apply Ok_inj in Hn|].
  apply bind_Ok in Hn as (simulate & Hsim%some_or_Ok & Hn). by exists simulate.
Qed.

Lemma shard_map_lookup {V} (f : shardBuildOutput -> option V) outputs out :
  NoDup ((fun o => ShardID (so_commitment o)) <$> outputs) -> out ∈ outputs ->
  shard_map f outputs !! ShardID (so_commitment out) = f out.
Proof.
  unfold shard_map. induction outputs as [|x outputs IH] using rev_ind; [by intros _ ?%elem_of_nil|].
  intros Hnd Hin. rewrite foldl_app. cbn [foldl]. rewrite fmap_app in Hnd. apply NoDup_app in Hnd as (Hnd & Hdis & _).
  apply elem_of_app in Hin as [Hin|Hx%list_elem_of_singleton].
  - assert (ShardID (so_commitment x) <> ShardID (so_commitment out)) as Hne.
    { intros Heq. apply (Hdis (ShardID (so_commitment out))); [by apply list_elem_of_fmap_2 with (f := fun o => ShardID (so_commitment o))|].
      apply list_elem_of_singleton. done. }
    destruct (f x); [rewrite lookup_insert_ne by done|]; by apply IH.
  - subst x. destruct (f out) as [v|]; [apply lookup_insert_eq|].
    assert (forall l (m : gmap Z V) k, k ∉ ((fun o => ShardID (so_commitment o)) <$> l) -> m !! k = None ->
      foldl (fun m o => match f o with Some v => <[ShardID (so_commitment o) := v]> m | None => m end) m l !! k = None) as Hg.
    { clear. induction l as [|y l IH]; intros m k Hk Hm; cbn; [done|]. cbn in Hk. apply not_elem_of_cons in Hk as [Hy Hk].
      apply IH; [done|]. destruct (f y); [by rewrite lookup_insert_ne|done]. }
    apply Hg; [|done]. intros Hk. apply (Hdis _ Hk). apply list_elem_of_singleton. done.
Qed.

Lemma shard_map_keys {V} (f : shardBuildOutput -> option V) outputs shard :
  is_Some (shard_map f outputs !! shard) -> exists out, out ∈ outputs /\ ShardID (so_commitment out) = shard.
Proof.
  unfold shard_map. induction outputs as [|x outputs IH] using rev_ind; [by intros []|].
  rewrite foldl_app. cbn [foldl]. intros Hs.
  destruct (decide (ShardID (so_commitment x) = shard)) as [E|E]; [exists x; set_solver|].
  destruct IH as (out & Hin & Ho); [|exists out; set_solver].
  destruct (f x); [by rewrite lookup_insert_ne in Hs|done].
Qed.

Lemma check_topology_complete {V} count (m : gmap Z V) :
  (forall shard, is_Some (m !! shard) -> shard < count) -> check_topology count m = Ok tt.
Proof.
  intros Hm. unfold check_topology. destruct (existsb _ _) eqn:E; [|done]. apply existsb_exists in E as (s & Hin & Hs).
  apply list_elem_of_In, list_elem_of_fmap in Hin as ([s' v] & -> & Hv%elem_of_map_to_list). cbn in Hs.
  specialize (Hm s' ltac:(by exists v)). lia.
Qed.

Lemma index_commitments_complete count l m :
  NoDup (ShardID <$> l) -> (forall c, c ∈ l -> ShardID c < count /\ m !! ShardID c = None) ->
  exists m', rfold (index_commitment count) m l = Ok m'.
Proof.
  revert m. induction l as [|c l IH]; intros m Hnd Hl; [by exists m|]. cbn [fmap list_fmap] in Hnd.
  apply NoDup_cons in Hnd as [Hc Hnd]. destruct (Hl c ltac:(left)) as [Hlt Hnone]. cbn [rfold].
  assert (index_commitment count m c = Ok (<[ShardID c := c]> m)) as ->.
  { unfold index_commitment. rewrite Hnone, (proj2 (Z.leb_gt _ _)) by lia. cbn [fail_if mbind res_bind].
    by rewrite bool_decide_eq_false_2 by (by intros []). }
  apply (IH (<[ShardID c := c]> m)); [done|].
  intros c' Hin. destruct (Hl c' ltac:(by right)) as [? ?]. split; [done|]. rewrite lookup_insert_ne; [done|].
  intros Heq. apply Hc. rewrite Heq. by apply list_elem_of_fmap_2.
Qed.

Lemma build_outputs_built (r : Runtime) sg height batches outputs :
  (forall shard, 0 <= shard < rt_ShardCount r -> shard ∈ sg_order sg) ->
  build_outputs r sg height batches = Ok outputs -> Forall2 (built r) (shard_range (rt_ShardCount r)) outputs.
Proof.
  intros Hord E. unfold build_outputs in E. destruct (candidateWorkerAllocationForBatches _ _ _ _) as [w t].
  assert (build_in_turn (fun shard => buildShardCandidate r sg height shard (default no_batch (batches !! shard)) t)
            (shard_range (rt_ShardCount r)) = Ok outputs) as Hb.
  { destruct (w <=? 1); [done|]. rewrite scan_filled in E; [done|]. intros s Hs%elem_of_shard_range. by apply Hord. }
  apply build_in_turn_Ok in Hb. eapply Forall2_impl; [exact Hb|]. intros s o. apply buildShardCandidate_built.
Qed.

Lemma built_ids (r : Runtime) shards outputs :
  Forall2 (built r) shards outputs -> (fun o => ShardID (so_commitment o)) <$> outputs = shards.
Proof. induction 1 as [|s o ss os Hb _ IH]; [done|]. cbn. by rewrite IH, (bt_shard _ _ _ Hb). Qed.

(** The check of a shard succeeds on the output that was built for it. *)
Lemma verifyShard_built (r : Runtime) candidate commitments shard out :
  built r shard out -> commitments !! shard = Some (so_commitment out) -> cn_deltas candidate !! shard = so_delta out ->
  cn_Receipts candidate !! shard = Some (so_receipts out) ->
  verifyShard r candidate commitments shard = Ok (so_dataLeaf out).
Proof.
  intros Hb Hc Hd Hr. unfold verifyShard. rewrite Hc. cbn [some_or mbind res_bind].
  destruct (bt_root _ _ _ Hb) as (store & Hs & Hroot). unfold state_of. rewrite Hs. cbn [some_or mbind res_bind].
  rewrite Hd, Hr. change (default [] (Some (so_receipts out))) with (so_receipts out). rewrite (bt_receipts _ _ _ Hb).
  assert (match so_delta out with
          | Some delta => simulate ← some_or (simulator store) ErrStateSimulation;
                          simulate (dl_Consumed delta) (dl_Created delta)
          | None => Ok (backend_Root store)
          end = Ok (StateRoot (so_commitment out))) as ->.
  { destruct (so_delta out); [|by rewrite Hroot]. destruct Hroot as (f & -> & Hf). done. }
  cbn [mbind res_bind or_err]. rewrite !bool_decide_eq_true_2 by done. cbn. by rewrite (bt_leaf _ _ _ Hb).
Qed.

Lemma build_in_turn_all {A} (f : Z -> res A) l outs : Forall2 (fun s o => f s = Ok o) l outs -> build_in_turn f l = Ok outs.
Proof. apply build_in_turn_Ok. Qed.

(** A built candidate, whatever schedules the preflight uses. *)
Lemma preflight_built (r : Runtime) sg sg' height batches candidate :
  0 <= rt_ShardCount r ->
  (forall shard, 0 <= shard < rt_ShardCount r -> shard ∈ sg_order sg /\ shard ∈ sg_order sg') ->
  BuildCandidate r sg height batches = Ok candidate ->
  exists commitments shards, preflightCandidateState r sg' candidate = Ok (commitments, shards).
Proof.
  intros Hn Hord E. unfold BuildCandidate in E. apply bind_Ok in E as ([] & _ & E). apply bind_Ok in E as ([] & _ & E).
  apply bind_Ok in E as ([] & _ & E). apply bind_Ok in E as (outputs & Ho & E). apply bind_Ok in E as (root & Hroot & E).
  apply Ok_inj in E. subst candidate. apply build_outputs_built in Ho as Hb; [|intros; by apply Hord].
  pose proof (built_ids _ _ _ Hb) as Hids.
  assert (NoDup ((fun o => ShardID (so_commitment o)) <$> outputs)) as Hnd by (rewrite Hids; apply NoDup_seqZ).
  assert (forall o, o ∈ outputs -> 0 <= ShardID (so_commitment o) < rt_ShardCount r) as Hrange.
  { intros o Hin. apply elem_of_shard_range. rewrite <-Hids. by apply list_elem_of_fmap_2 with (f := fun o => ShardID (so_commitment o)). }
  assert (forall V (f : shardBuildOutput -> option V), check_topology (rt_ShardCount r) (shard_map f outputs) = Ok tt) as Htop.
  { intros V f. apply check_topology_complete. intros s (o & Hin & <-)%shard_map_keys. by apply Hrange. }
  unfold preflightCandidateState. cbn [cn_Commitments cn_Receipts cn_Results cn_economicObservations cn_deltas cn_Header
    h_ShardCommitmentRoot h_DataRoot].
  assert (blen (so_commitment <$> outputs) = rt_ShardCount r) as ->.
  { unfold blen. rewrite length_fmap, <-(Forall2_length _ _ _ Hb). unfold shard_range. rewrite length_seqZ. lia. }
  rewrite Z.eqb_refl, !Htop, Hroot. cbn [negb fail_if mbind res_bind or_err]. rewrite bool_decide_eq_true_2 by done.
  cbn [negb fail_if mbind res_bind].
  destruct (index_commitments_complete (rt_ShardCount r) (so_commitment <$> outputs) ∅) as [m Hm].
  { by rewrite <-list_fmap_compose. }
  { intros c (o & -> & Hin)%list_elem_of_fmap. split; [by apply Hrange|done]. }
  rewrite Hm. cbn [mbind res_bind]. destruct (index_commitments_Ok _ _ _ _ Hm) as (_ & Hin & _ & _).
  set (cand := mkCandidate _ _ _ _ _ _ _).
  assert (build_in_turn (verifyShard r cand m) (shard_range (rt_ShardCount r)) = Ok (so_dataLeaf <$> outputs)) as Hv.
  { apply build_in_turn_all. apply Forall2_fmap_r. rewrite Forall2_lookup. intros i.
    pose proof (proj1 (Forall2_lookup _ _ _) Hb i) as Hi. destruct (shard_range _ !! i) as [s|] eqn:Es, (outputs !! i) as [o|] eqn:Eo;
      inversion Hi as [? ? Hbo|]; subst; constructor. apply list_elem_of_lookup_2 in Eo.
    rewrite <-(bt_shard _ _ _ Hbo). apply verifyShard_built.
    - by rewrite (bt_shard _ _ _ Hbo).
    - apply Hin. by apply list_elem_of_fmap_2.
    - subst cand. cbn [cn_deltas]. by rewrite shard_map_lookup.
    - subst cand. cbn [cn_Receipts]. by rewrite shard_map_lookup. }
  assert ((if preflight_workers r (sg_gomaxprocs sg') =? 1
           then build_in_turn (verifyShard r cand m) (shard_range (rt_ShardCount r))
           else scan_slots zero32 (fill_slots (verifyShard r cand m) (sg_order sg')) (shard_range (rt_ShardCount r)))
          = Ok (so_dataLeaf <$> outputs)) as ->.
  { destruct (_ =? 1); [done|]. rewrite scan_filled; [done|]. intros s Hs%elem_of_shard_range. by apply Hord. }
  cbn [mbind res_bind]. rewrite bool_decide_eq_true_2 by done. by do 2 eexists.
Qed.

Lemma BuildCandidate_header (r : Runtime) sg height batches candidate :
  (forall shard, 0 <= shard < rt_ShardCount r -> shard ∈ sg_order sg) ->
  BuildCandidate r sg height batches = Ok candidate ->
  rt_recoveryRequired r = false /\ height = add64 (rt_Height r) 1 /\ h_Height (cn_Header candidate) = height /\
  h_ParentHash (cn_Header candidate) = rt_ParentHash r /\ h_Network (cn_Header candidate) = rt_Network r /\
  h_ValidatorRoot (cn_Header candidate) = rt_ValidatorRoot r /\
  (0 < rt_ShardCount r -> check_pending r candidate = Ok tt).
Proof.
  intros Hord E. unfold BuildCandidate in E. apply bind_Ok in E as ([] & Hrun%fail_if_Ok & E).
  apply bind_Ok in E as ([] & Hh%fail_if_Ok & E). apply bind_Ok in E as ([] & _ & E).
  apply bind_Ok in E as (outputs & Ho & E). apply bind_Ok in E as (root & _ & E). apply Ok_inj in E. subst candidate.
  apply build_outputs_built in Ho; [|done]. cbn. apply orb_false_iff in Hh as [Hh _]. apply negb_false_iff, Z.eqb_eq in Hh.
  split_and!; try done. intros Hpos. unfold shard_range in Ho. rewrite seqZ_cons in Ho by done.
  apply Forall2_cons_inv_l in Ho as (o & os & Hb & _ & ->). unfold check_pending. cbn [cn_economicPendingStateHash].
  pose proof (bt_pending _ _ _ Hb) as Hpend. destruct (rt_pendingEconomic r) as [pending|]; [|by rewrite Hpend].
  rewrite Hpend by done. cbn [or_err mbind res_bind]. by rewrite bool_decide_eq_true_2.
Qed.

(** With no write failing and every store accepting its delta, all are applied. *)
Lemma apply_shards_complete (r : Runtime) deltas commitments shards :
  NoDup shards ->
  (forall shard, shard ∈ shards -> exists store store' c, rt_States r !! shard = Some store /\
     commitments !! shard = Some c /\
     backend_Apply store (dl_Consumed (default (mkDelta [] []) (deltas !! shard)))
       (dl_Created (default (mkDelta [] []) (deltas !! shard))) = Ok (store', StateRoot c)) ->
  exists r', apply_shards r io_ok deltas commitments shards = (r', Ok tt).
Proof.
  revert r. induction shards as [|x shards IH]; intros r Hnd Hall; [by exists r|]. apply NoDup_cons in Hnd as [Hx Hnd].
  destruct (Hall x ltac:(left)) as (store & store' & c & Hs & Hc & Ha). cbn [apply_shards]. unfold state_of.
  rewrite Hs. cbn [some_or mbind res_bind]. rewrite Ha, Hc. cbn [io_apply io_ok fmap option_fmap option_map].
  rewrite bool_decide_eq_true_2 by done. apply IH; [done|]. intros shard Hin.
  destruct (Hall shard ltac:(by right)) as (s1 & s2 & c1 & Hs1 & Hrest). exists s1, s2, c1. split; [|done].
  cbn [rt_States set_states]. rewrite lookup_insert_ne; [done|]. intros ->. done.
Qed.

(** What a simulation promises of the application that follows it. *)
Class SimulatorSpec `{!BackendSpec St} := {
  sim_apply s consumed created : bs_inv s -> Forall Object_typed created ->
    exists simulate, simulator s = Some simulate /\ simulate consumed created = snd <$> backend_Apply s consumed created;
}.

Lemma preflighted_applies `{!BackendSpec St} `{!SimulatorSpec} (r : Runtime) sg candidate commitments shards :
  commit_inputs r sg candidate -> preflighted r candidate commitments shards ->
  exists r', apply_shards r io_ok (cn_deltas candidate) commitments shards = (r', Ok tt).
Proof.
  intros Hci Hpf. destruct (changed_shards_spec (cn_deltas candidate)) as [Hnd Hel].
  rewrite <-(pf_shards _ _ _ _ Hpf) in Hnd, Hel. apply apply_shards_complete; [done|]. intros shard [delta Hd]%Hel.
  destruct (ci_deltas _ _ _ Hci _ _ Hd) as [Hge Ht].
  assert (0 <= shard < rt_ShardCount r) as Hs by (split; [done|by eapply pf_deltas]).
  destruct (pf_shard _ _ _ _ Hpf shard Hs) as (c & Hc & store & Hst & Hr). rewrite Hd in Hr |- *.
  destruct Hr as (f & Hf & Hsim). pose proof (ci_stores _ _ _ Hci _ _ Hst) as Hi.
  destruct (sim_apply store (dl_Consumed delta) (dl_Created delta) Hi Ht) as (f' & Hf' & Heq).
  rewrite Hf in Hf'. injection Hf' as <-. rewrite Hsim in Heq. change (default _ (Some delta)) with delta.
  destruct (backend_Apply store _ _) as [[store' root]|] eqn:Ea; [|done]. cbn in Heq. injection Heq as Heq.
  exists store, store', c. split_and!; [done..|]. by rewrite Heq.
Qed.

Lemma commit_built `{!BackendSpec St} `{!SimulatorSpec} (r : Runtime) (sg sg' : Scheduling) (height : Z)
    (batches : gmap Z ShardBatch) (candidate : Candidate) (certificate : Certificate) (validators : ValidatorSet)
    (outcome : EconomicOutcome) :
  0 < rt_ShardCount r -> (forall shard, 0 <= shard < rt_ShardCount r -> shard ∈ sg_order sg) ->
  rt_journalConfigured r = false -> rt_history r = None -> rt_anchorStore r = None ->
  preview_economics r candidate = Ok outcome ->
  BuildCandidate r sg height batches = Ok candidate -> commit_inputs r sg' candidate ->
  ValidatorSet_Root validators = Ok (rt_ValidatorRoot r) -> VerifyCertificate validators certificate = Ok tt ->
  c_HeaderHash certificate = HeaderConsensusHash (cn_Header candidate) -> c_Height certificate = height ->
  c_Network certificate = rt_Network r ->
  exists r', Commit r io_ok sg' candidate certificate validators =
    (r', Ok (with_certificate (cn_Header candidate) (Certificate_Hash certificate))) /\
    rt_pendingEconomic r' = eo_pending outcome /\ rt_economicBalances r' = eo_balances outcome.
Proof.
  intros Hn Hord Hj Hhi Han Hout E Hci Hvr Hcert Hhash Hch Hcn.
  destruct (preflight_built r sg sg' height batches candidate) as (commitments & shards & Hpf); [lia| |done|].
  { intros s Hs. split; [by apply Hord|by apply Hci]. }
  destruct (BuildCandidate_header r sg height batches candidate Hord E) as (Hrun & Hh & Hch' & Hp & Hnet & Hvals & Hpend).
  assert (prepare_commit r sg' candidate certificate validators =
    Ok (mkPlan commitments shards outcome
          (with_certificate (cn_Header candidate) (Certificate_Hash certificate)) (HeaderConsensusHash (cn_Header candidate)) None))
    as Hprep.
  { unfold prepare_commit. rewrite Hrun, Hch', <-Hh, Z.eqb_refl, Hp, Hnet, Hvr, Hvals, Hhash, Hch, Z.eqb_refl, Hcn, Hcert.
    rewrite !bool_decide_eq_true_2 by done. cbn [negb orb fail_if mbind res_bind or_err].
    rewrite !bool_decide_eq_true_2 by done. cbn [negb orb fail_if mbind res_bind].
    rewrite (Hpend Hn). cbn [mbind res_bind]. rewrite Hpf. cbn [mbind res_bind]. rewrite Hout. cbn [mbind res_bind]. by rewrite Hj. }
  apply preflight_spec in Hpf; [|by apply Hci]. destruct (preflighted_applies r sg' candidate _ _ Hci Hpf) as [r' Happ].
  unfold Commit. rewrite Hprep. unfold run_commit. cbn [pl_intent pl_commitments pl_shards pl_economics pl_finalized
    pl_postParent write_intent then_do]. unfold commit_history. rewrite Hhi. cbn [then_do]. rewrite Happ. cbn [then_do fmap
    option_fmap option_map write_intent]. unfold commit_anchor.
  apply apply_shards_prefix in Happ as (_ & _ & _ & _ & _ & _ & Ha). rewrite Ha, Han. cbn [then_do].
  by eexists.
Qed.

(** Without a collector, an engine and a pending epoch there is nothing to preview. *)
Lemma preview_no_economics (r : Runtime) (candidate : Candidate) :
  rt_economicCollector r = None -> rt_economicEngine r = None -> rt_pendingEconomic r = None ->
  preview_economics r candidate = Ok (mkOutcome None None None (rt_economicBalances r)).
Proof. intros Hec Hen Hpe. unfold preview_economics, preview_collector, preview_engine. by rewrite Hec, Hen, Hpe. Qed.

End commit.

#[global] Program Instance Memory_simulation `{Crypto} : SimulatorSpec (St := Memory).
Next Obligation.
  intros HC m consumed created Hm Ht. exists (Memory_Simulate m). split; [done|]. exact (Memory_Simulate_Apply m consumed created Hm Ht).
Qed.

(** ** Two shards and a transfer from one to the other *)

Module NodeExample.
#[local] Existing Instance small_crypto.
#[local] Existing Instance some_order.
#[local] Existing Instance Example.host.

(** A node that tracks no idle capital and keeps no history. *)
Definition no_capital : IdleCapital := {|
  Tracker := unit;
  ApplyFinalizedIdleCapitalTransfer := fun _ _ _ _ _ _ => Ok tt;
  ApplyFinalizedComputeCapitalLineage := fun _ _ _ _ _ _ => Ok tt;
  ApplyFinalizedCrossLendingCapitalLineage := fun _ _ _ _ _ _ => Ok tt;
  ApplyFinalizedIdleCapitalImport := fun _ _ _ => Ok tt;
  ResetProductiveCoverage := fun _ => Ok tt;
  tracker_empty := fun _ => true |}.
Definition no_stores : FinalityStores := {|
  CertifiedHistory := unit; history_Append := fun h _ _ _ => (h, Ok tt);
  FinalityAnchorStore := unit; anchor_advance := fun s _ _ => (s, Ok tt) |}.
#[local] Existing Instance no_capital.
#[local] Existing Instance no_stores.
Definition no_checkpoint : EconomicCheckpoint := {|
  economicCheckpointBytes := fun _ => Err ErrIO; decodeEconomicCheckpoint := fun _ _ _ => Err ErrIO |}.
#[local] Existing Instance no_checkpoint.

Definition coin_id : bytes := be 4 1 ++ be 28 77.
Definition coin : Object :=
  mkObject coin_id 1 Example.sender KindCoin (Coin_MarshalBinary (mkCoin Example.token 10 0)).
Definition store : Memory := (ok_or (NewMemory, []) (Memory_Apply NewMemory [] [coin])).1.
Definition transfer : Transaction :=
  mkTransaction 2 (be 32 3) 1 Example.sender sample_pk (Memory_Root store)
    [mkInputRef coin_id 1 (Object_Hash coin)] [Example.payment] [mkOperation OpTransfer []] 3 0 (be 16 1)
    (be 32 1 ++ be 32 1) [mkWitness coin (Memory_Proof store coin_id).2].
Definition runtime (journal : bool) : Node.Runtime (St := Memory) :=
  mkRuntime (be 32 3) Example.token sample_validator_root 2 (<[1 := store]> {[0 := NewMemory]}) 2 8 (be 32 8)
    None None 0 no_balances None journal None None None false.
Definition batches : gmap Z ShardBatch := {[1 := mkShardBatch [transfer] [] zero32]}.
Definition schedule (order : list Z) : Scheduling := mkScheduling 4 order (fun s => if s =? 1 then [0%nat] else []).
Definition certificate (h : GlobalHeader) : Certificate :=
  mkCertificate (be 32 3) 9 0 (HeaderConsensusHash h)
    ((fun i => mkVote (be 32 3) 9 0 (HeaderConsensusHash h) (v_ID (sample_validator i)) (sample_key i) (be 32 1 ++ be 32 1))
       <$> [2; 3; 4]).

Definition object_typed (o : Object) : bool :=
  (blen (ID o) =? 32) && (0 <=? Version o) && (Version o <? 2 ^ 64) && (blen (Owner o) =? 32) && (0 <=? Kind o) && (Kind o <? 2 ^ 16).
Definition usable (c : Candidate) : bool :=
  forallb (fun e => (0 <=? e.1) && forallb object_typed (dl_Created e.2)) (map_to_list (cn_deltas c))
  && is_ok (VerifyCertificate sample_set (certificate (cn_Header c))).
Lemma built_ok : match BuildCandidate (runtime false) (schedule [1; 0]) 9 batches with Ok c => usable c | Err _ => false end = true.
Proof. vm_compute. reflexivity. Qed.

Lemma coin_typed : Forall Object_typed [coin].
Proof. apply Forall_singleton. repeat split; vm_compute; (reflexivity || discriminate). Qed.
Lemma coin_stored : is_ok (Memory_Apply NewMemory [] [coin]) = true.
Proof. vm_compute. reflexivity. Qed.
Lemma shard_store_inv : bs_inv store.
Proof.
  destruct (is_ok_true _ coin_stored) as [[m root] E]. unfold store. rewrite E.
  exact (mem_reachable_inv _ (mr_apply _ _ _ _ _ mr_new coin_typed E)).
Qed.
Lemma object_typed_ok o : object_typed o = true -> Object_typed o.
Proof.
  unfold object_typed, Object_typed, u64, u16. rewrite !blen32. intros Ht. repeat (apply andb_true_iff in Ht as [Ht ?]).
  split_and!; lia.
Qed.
Lemma shards_in (order : list Z) : 0 ∈ order -> 1 ∈ order -> forall shard, 0 <= shard < 2 -> shard ∈ order.
Proof. intros H0 H1 shard Hs. assert (shard = 0 \/ shard = 1) as [-> | ->] by lia; done. Qed.
Lemma states_ok journal shard s : rt_States (runtime journal) !! shard = Some s -> bs_inv s.
Proof.
  cbn [rt_States runtime]. intros [[_ <-]|[_ [_ <-]%lookup_singleton_Some]]%lookup_insert_Some; [exact shard_store_inv|].
  exact NewMemory_inv.
Qed.
Lemma scheduled order : 0 ∈ order -> 1 ∈ order -> scheduling_ok 2 batches (schedule order).
Proof.
  intros H0 H1. constructor; [by apply shards_in|]. intros shard. unfold batches. destruct (decide (shard = 1)) as [->|Hne].
  - rewrite lookup_singleton_eq. done.
  - rewrite lookup_singleton_ne by done. unfold schedule. cbn [sg_batch]. by rewrite (proj2 (Z.eqb_neq _ _) Hne).
Qed.

Lemma usable_ok c : usable c = true ->
  commit_inputs (runtime false) (schedule [0; 1]) c /\ VerifyCertificate sample_set (certificate (cn_Header c)) = Ok tt.
Proof.
  unfold usable. intros [Hd Hv]%andb_true_iff. split.
  - constructor; [apply shards_in; repeat constructor|apply states_ok|]. intros shard delta Hs.
    rewrite forallb_forall in Hd.
    specialize (Hd (shard, delta)). cbn [fst snd] in Hd.
    assert ((0 <=? shard) && forallb object_typed (dl_Created delta) = true) as [H1 H2]%andb_true_iff.
    { apply Hd. by apply list_elem_of_In, elem_of_map_to_list. }
    split; [lia|]. rewrite forallb_forall in H2. apply Forall_forall. intros o Ho%list_elem_of_In. by apply object_typed_ok, H2.
  - by apply is_ok_true in Hv as [[] ?].
Qed.
Lemma built_usable : exists c, BuildCandidate (runtime false) (schedule [1; 0]) 9 batches = Ok c /\ usable c = true.
Proof.
  pose proof built_ok as Hb. destruct (BuildCandidate _ _ _ _) as [c|]; [|done]. by exists c.
Qed.
Lemma count_pos : 0 < 2.
Proof. reflexivity. Qed.
Lemma all_scheduled shard : 0 <= shard < 2 -> shard ∈ [1; 0].
Proof. apply shards_in; repeat constructor. Qed.
Lemma validator_root_ok : ValidatorSet_Root sample_set = Ok sample_validator_root.
Proof. vm_compute. reflexivity. Qed.

(** A candidate that creates one object in shard 1, certified as it is. *)
Definition created : Object := mkObject (be 4 1 ++ be 28 5) 1 Example.sender KindCoin (Coin_MarshalBinary (mkCoin Example.token 4 0)).
Definition fresh_runtime (journal : bool) : Node.Runtime (St := Memory) :=
  mkRuntime (be 32 3) Example.token sample_validator_root 2 (<[1 := NewMemory]> {[0 := NewMemory]}) 2 8 (be 32 8)
    None None 0 no_balances None journal None None None false.
Definition commitments : list Commitment :=
  [mkCommitment 0 (Memory_Root NewMemory) (ok_or [] (ReceiptBatch_Root [])) (Merkle.Root []);
   mkCommitment 1 (ok_or [] (Memory_Simulate NewMemory [] [created])) (ok_or [] (ReceiptBatch_Root [])) (Merkle.Root [])].
Definition creation : Candidate :=
  mkCandidate (mkGlobalHeader 2 (be 32 3) 9 (be 32 8) (ok_or [] (CommitmentRoot commitments)) sample_validator_root
      sample_validator_root (Merkle.Root ((fun c => Leaf (str "shard-data-root") (DataRoot c)) <$> commitments)) zero32)
    commitments ∅ ∅ {[1 := mkDelta [] [created]]} ∅ zero32.
(** The write to the store of shard 1 fails. *)
Definition failing : CommitIO := mkCommitIO WriteOk (fun shard => if shard =? 1 then WriteLost else WriteOk) WriteOk IoOk IoOk.
Lemma creation_fails :
  (Commit (fresh_runtime false) failing (schedule [0; 1]) creation (certificate (cn_Header creation)) sample_set).2 =
  Err ErrRuntimeRecoveryRequired.
Proof. vm_compute. reflexivity. Qed.
End NodeExample.

Section node_witnesses.
#[local] Existing Instance small_crypto.
#[local] Existing Instance some_order.
#[local] Existing Instance Example.host.
#[local] Existing Instance NodeExample.no_capital.
#[local] Existing Instance NodeExample.no_stores.
#[local] Existing Instance NodeExample.no_checkpoint.

Lemma candidate_deterministic_witness :
  BuildCandidate (with_workers (NodeExample.runtime false) 1) (NodeExample.schedule [0; 1]) 9 NodeExample.batches =
  BuildCandidate (with_workers (NodeExample.runtime false) 4) (NodeExample.schedule [1; 0]) 9 NodeExample.batches.
Proof.
  apply (candidate_deterministic (NodeExample.runtime false) 1 4); apply NodeExample.scheduled; repeat constructor.
Defined.


Lemma commit_reaches_certified_witness :
  exists c r' finalized,
    Commit (NodeExample.runtime false) io_ok (NodeExample.schedule [0; 1]) c
      (NodeExample.certificate (cn_Header c)) sample_set = (r', Ok finalized) /\
    rt_Height r' = 9 /\ shards_committed (NodeExample.runtime false) r' c.
Proof.
  destruct NodeExample.built_usable as (c & Hb & [Hci Hv]%NodeExample.usable_ok).
  destruct (commit_built (NodeExample.runtime false) (NodeExample.schedule [1; 0])
    (NodeExample.schedule [0; 1]) 9 NodeExample.batches c (NodeExample.certificate (cn_Header c)) sample_set
    _ NodeExample.count_pos NodeExample.all_scheduled eq_refl eq_refl eq_refl
    (preview_no_economics (NodeExample.runtime false) c eq_refl eq_refl eq_refl) Hb Hci NodeExample.validator_root_ok Hv eq_refl eq_refl eq_refl) as (r' & E & _).
  exists c, r'. eexists. split; [exact E|].
  destruct (commit_reaches_certified (NodeExample.runtime false) r' io_ok (NodeExample.schedule [0; 1])
    c _ _ _ Hci E) as ((Hh & _) & _ & (Ht & _) & _ & Hs).
  split; [|exact Hs]. rewrite Ht, Hh. reflexivity.
Defined.

Lemma commit_fails_closed_witness :
  exists r',
    Commit (NodeExample.fresh_runtime false) NodeExample.failing (NodeExample.schedule [0; 1]) NodeExample.creation
      (NodeExample.certificate (cn_Header NodeExample.creation)) sample_set = (r', Err ErrRuntimeRecoveryRequired) /\
    (r' = NodeExample.fresh_runtime false \/ RecoveryRequired r' = true).
Proof.
  pose proof NodeExample.creation_fails as Hf. destruct (Commit _ _ _ _ _ _) as [r' out] eqn:E. cbn [snd] in Hf. subst out.
  exists r'. split; [reflexivity|]. destruct (commit_fails_closed _ _ _ _ _ _ _ _ E) as [?|(_ & ? & _)]; [left|right]; assumption.
Defined.
End node_witnesses.
