(* ===== verification/NodeRecovery.v ===== *)
(** * NodeRecovery

    The durable commit of a node: the journal file reads back as the entry that
    was written, and whatever a crash interrupts, recovery from the journal
    completes the commit. *)

From S2P Require Import Prelude GoLib Codec Crypto Types Merkle Object Smt SmtProofs SmtTheorems Sharding ShardingProofs.
From S2P Require Import Tx TxProofs Consensus ConsensusProofs ComputeWork Contracts Execution ExecutionExtended ExecutionProofs.
From S2P Require Import Worldstate WorldstateProofs Batch BatchProofs EconomicsPolicy EconomicsEpoch EconomicsCollector EconomicsEngine.
From S2P Require Import EconomicsProofs Node NodeJournal NodeProofs.

Open Scope Z_scope.

Lemma rfold_unit_all {A} (f : unit -> A -> res unit) l : Forall (fun x => f tt x = Ok tt) l -> rfold f tt l = Ok tt.
Proof. induction 1 as [|x l Hx _ IH]; cbn [rfold]; [done|]. by rewrite Hx. Qed.

(** Comparisons of a term with itself. *)
Ltac decide_refl :=
  rewrite ?Z.eqb_refl;
  repeat match goal with |- context [bool_decide (?a = ?a)] => rewrite (bool_decide_eq_true_2 (a = a)) by done end.

(** ** The journal file *)

(** The error of a loop that replaces the error of its body. *)
Lemma rfold_replaced {A B} (f g : A -> B -> res A) e a l :
  (forall x y, g x y = (f x y <?> e)) -> rfold g a l = (rfold f a l <?> e).
Proof.
  intros Hfg. revert a. induction l as [|b l IH]; intros a; cbn [rfold]; [done|]. rewrite Hfg.
  destruct (f a b); [|done]. cbn [or_err mbind res_bind]. apply IH.
Qed.

Section journal.
Context `{HC : Crypto}.

Lemma journal_commitments_eq count m l :
  rfold (journal_commitment count) m l = (rfold (index_commitment count) m l <?> ErrGlobalCommitJournal).
Proof.
  apply rfold_replaced. intros x c. unfold journal_commitment, index_commitment.
  destruct (count <=? ShardID c); [done|]. cbn [fail_if mbind res_bind]. by destruct (bool_decide _).
Qed.

(** Indexing succeeds on the commitments in any order, with the same map. *)
Lemma index_commitments_perm count l l' m :
  l ≡ₚ l' -> rfold (index_commitment count) ∅ l = Ok m -> rfold (index_commitment count) ∅ l' = Ok m.
Proof.
  intros Hp E. destruct (index_commitments_Ok _ _ _ _ E) as (H1 & H2 & _ & H4).
  assert (NoDup (ShardID <$> l)) as Hnd.
  { clear H1 H2 H4 Hp. revert E. generalize (∅ : gmap Z Commitment) as m0.
    assert (forall l m0 m', rfold (index_commitment count) m0 l = Ok m' ->
      NoDup (ShardID <$> l) /\ forall c, c ∈ l -> m0 !! ShardID c = None) as Hg; [|intros m0 E; by eapply Hg].
    clear. induction l as [|c l IH]; intros m0 m' E; [split; [constructor|by intros c ?%elem_of_nil]|]. cbn [rfold] in E.
    apply bind_Ok in E as (m1 & E1 & E). apply bind_Ok in E1 as ([] & _ & E1). apply bind_Ok in E1 as ([] & Hd%fail_if_Ok & E1).
    apply Ok_inj in E1. subst m1. apply bool_decide_eq_false, eq_None_not_Some in Hd. apply IH in E as [Hnd Hn]. split.
    - cbn. apply NoDup_cons. split; [|done]. intros (c' & Hc' & Hin)%list_elem_of_fmap. apply Hn in Hin.
      rewrite Hc', lookup_insert_eq in Hin. done.
    - intros c' [->|Hin]%elem_of_cons; [done|]. specialize (Hn c' Hin). by apply lookup_insert_None in Hn as [? _]. }
  destruct (index_commitments_complete count l' ∅) as [m' E'].
  { by rewrite <-Hp. }
  { intros c Hin. rewrite <-Hp in Hin. split; [by apply H2|done]. }
  rewrite E'. f_equal. destruct (index_commitments_Ok _ _ _ _ E') as (H1' & H2' & _). apply map_eq. intros k.
  apply option_eq. intros c. split; intros Hk.
  - apply H1' in Hk as [Hk|[Hin <-]]; [done|]. apply H2. by rewrite Hp.
  - apply H1 in Hk as [Hk|[Hin <-]]; [done|]. apply H2'. by rewrite <-Hp.
Qed.

(** One entry of the journal, apart from the entries before it. *)
Definition journal_delta_ok (count : Z) (commitments : gmap Z Commitment) (d : journalShardDelta) : Prop :=
  (count <=? jd_ShardID d) || (maxJournalObjects <? blen (jd_Consumed d)) || (maxJournalObjects <? blen (jd_Created d))
    || IsZero32 (jd_PreRoot d) || IsZero32 (jd_PostRoot d) = false /\
  StateRoot <$> commitments !! jd_ShardID d = Some (jd_PostRoot d) /\
  existsb IsZero32 (jd_Consumed d) = false /\ Forall (fun o => Object_Validate o = Ok tt) (jd_Created d).

Lemma check_journal_delta_Ok count commitments seen d seen' :
  check_journal_delta count commitments seen d = Ok seen' <->
  journal_delta_ok count commitments d /\ jd_ShardID d ∉ seen /\ seen' = {[jd_ShardID d]} ∪ seen.
Proof.
  unfold check_journal_delta, journal_delta_ok.
  assert (existsb (fun o => negb (is_ok (Object_Validate o))) (jd_Created d) = false <->
          Forall (fun o => Object_Validate o = Ok tt) (jd_Created d)) as Hv.
  { rewrite <-not_true_iff_false, existsb_exists, Forall_forall. split.
    - intros Hn o Ho. destruct (Object_Validate o) as [[]|] eqn:E; [done|]. exfalso. apply Hn. exists o.
      split; [by apply list_elem_of_In|]. by rewrite E.
    - intros Hf (o & Ho%list_elem_of_In & E). by rewrite Hf in E. }
  destruct (_ || IsZero32 (jd_PostRoot d)); cbn [fail_if mbind res_bind]; [split; [done|by intros ((? & _) & _)]|].
  case_bool_decide as Hs; cbn [fail_if mbind res_bind]; [split; [done|by intros (_ & ? & _)]|].
  destruct (commitments !! jd_ShardID d) as [c|]; cbn [some_or mbind res_bind fmap option_fmap option_map];
    [|split; [done|by intros ((_ & ? & _) & _)]].
  case_bool_decide as Hr; cbn [negb fail_if mbind res_bind]; [|split; [done|intros ((_ & ? & _) & _); congruence]].
  destruct (existsb IsZero32 _); cbn [fail_if mbind res_bind]; [split; [done|by intros ((_ & _ & ? & _) & _)]|].
  destruct (existsb _ (jd_Created d)); cbn [fail_if mbind res_bind]; rewrite <-Hv.
  - split; [done|by intros ((_ & _ & _ & ?) & _)].
  - split; [intros E%Ok_inj|intros (_ & _ & ->)]; [|done]. split_and!; try done. by rewrite Hr.
Qed.

Lemma check_journal_deltas_Ok count commitments l seen :
  is_ok (rfold (check_journal_delta count commitments) seen l) = true <->
  Forall (journal_delta_ok count commitments) l /\ NoDup (jd_ShardID <$> l) /\ forall d, d ∈ l -> jd_ShardID d ∉ seen.
Proof.
  revert seen. induction l as [|d l IH]; intros seen; cbn [rfold].
  { split; [|done]. intros _. split_and!; [constructor|constructor|by intros d ?%elem_of_nil]. }
  rewrite Forall_cons. cbn [fmap list_fmap]. rewrite NoDup_cons.
  destruct (check_journal_delta count commitments seen d) as [seen'|] eqn:E; cbn [mbind res_bind].
  - apply check_journal_delta_Ok in E as (Hok & Hs & ->). rewrite IH. split.
    + intros (Hf & Hnd & Hn). split_and!; try done.
      * intros (d' & Hd & Hin)%list_elem_of_fmap. apply (Hn d' Hin). set_solver.
      * intros d' [->|Hin]%elem_of_cons; [done|]. specialize (Hn d' Hin). set_solver.
    + intros ([_ Hf] & [Hd Hnd] & Hn). split_and!; try done. intros d' Hin. apply not_elem_of_union. split; [|apply Hn; by right].
      intros Heq%elem_of_singleton. apply Hd. rewrite <-Heq. by apply list_elem_of_fmap_2.
  - split; [done|]. intros ([Hok _] & _ & Hn). exfalso.
    assert (check_journal_delta count commitments seen d = Ok ({[jd_ShardID d]} ∪ seen)) as E'; [|congruence].
    apply check_journal_delta_Ok. split_and!; [done|apply Hn; left|done].
Qed.

(** The entry with its lists reordered. *)
Definition with_lists (i : globalCommitIntent) (cs : list Commitment) (ds : list journalShardDelta) : globalCommitIntent :=
  mkIntent (gi_Status i) (gi_Network i) (gi_NativeToken i) (gi_ValidatorRoot i) (gi_ShardCount i) (gi_PreHeight i)
    (gi_PreParentHash i) (gi_Header i) (gi_Certificate i) cs ds (gi_EconomicCheckpoint i).
Definition sorted_intent (i : globalCommitIntent) : globalCommitIntent :=
  with_lists i (sort_by ShardID (gi_Commitments i)) (sort_by jd_ShardID (gi_Deltas i)).

Record intent_valid (i : globalCommitIntent) : Prop := {
  iv_status : gi_Status i = globalCommitPreparing \/ gi_Status i = globalCommitCommitted;
  iv_ids : IsZero32 (gi_Network i) = false /\ IsZero32 (gi_NativeToken i) = false /\ IsZero32 (gi_ValidatorRoot i) = false;
  iv_count : gi_ShardCount i <> 0 /\ blen (gi_Commitments i) = gi_ShardCount i /\ blen (gi_Deltas i) <= gi_ShardCount i;
  iv_header : h_Network (gi_Header i) = gi_Network i /\ h_Height (gi_Header i) = add64 (gi_PreHeight i) 1 /\
    h_ParentHash (gi_Header i) = gi_PreParentHash i /\ h_ValidatorRoot (gi_Header i) = gi_ValidatorRoot i;
  iv_certificate : c_Network (gi_Certificate i) = gi_Network i /\ c_Height (gi_Certificate i) = h_Height (gi_Header i) /\
    c_HeaderHash (gi_Certificate i) = HeaderConsensusHash (gi_Header i);
  iv_checkpoint : blen (gi_EconomicCheckpoint i) <= maxEconomicCheckpointBytes + 8 + 32;
  iv_root : CommitmentRoot (gi_Commitments i) = Ok (h_ShardCommitmentRoot (gi_Header i));
  iv_lists : exists m, rfold (index_commitment (gi_ShardCount i)) ∅ (gi_Commitments i) = Ok m /\
    Forall (journal_delta_ok (gi_ShardCount i) m) (gi_Deltas i) /\ NoDup (jd_ShardID <$> gi_Deltas i);
}.

Lemma Intent_Validate_spec i : Intent_Validate i = Ok tt <-> intent_valid i.
Proof.
  unfold Intent_Validate. cbv zeta. split.
  - intros E. apply bind_Ok in E as ([] & Hg%fail_if_Ok & E). apply bind_Ok in E as (root & Hr%or_err_Ok & E).
    apply bind_Ok in E as ([] & Heq%fail_if_Ok & E). apply bind_Ok in E as (m & Hm & E). apply bind_Ok in E as (u & Hd & _).
    rewrite journal_commitments_eq in Hm. apply or_err_Ok in Hm.
    apply negb_false_iff, bool_decide_eq_true in Heq. subst root.
    apply (f_equal is_ok) in Hd. apply check_journal_deltas_Ok in Hd as (Hf & Hnd & _).
    repeat (apply orb_false_iff in Hg as [Hg ?]).
    repeat match goal with Hb : negb (bool_decide _) = false |- _ => apply negb_false_iff, bool_decide_eq_true_1 in Hb end.
    constructor; try (by exists m); try (split_and!; (done || lia)); try done; try lia.
  - intros [Hst (Hz1 & Hz2 & Hz3) (Hc1 & Hc2 & Hc3) (Hh1 & Hh2 & Hh3 & Hh4) (Hx1 & Hx2 & Hx3) Hck Hr (m & Hm & Hf & Hnd)].
    rewrite Hr, journal_commitments_eq, Hm, Hz1, Hz2, Hz3, Hh1, Hh3, Hh4, Hx1, Hx3.
    rewrite !bool_decide_eq_true_2 by done.
    assert (negb (gi_Status i =? globalCommitPreparing) && negb (gi_Status i =? globalCommitCommitted) = false) as ->
      by (destruct Hst as [-> | ->]; done).
    assert ((gi_ShardCount i =? 0) = false) as -> by lia. rewrite Hh2, Hx2, Hh2, Hc2, !Z.eqb_refl.
    rewrite (proj2 (Z.ltb_ge _ _) Hc3), (proj2 (Z.ltb_ge _ _) Hck). cbn [orb negb fail_if mbind res_bind or_err].
    rewrite bool_decide_eq_true_2 by done. cbn [negb fail_if mbind res_bind].
    assert (is_ok (rfold (check_journal_delta (gi_ShardCount i) m) ∅ (gi_Deltas i)) = true) as Hok.
    { apply check_journal_deltas_Ok. split_and!; done. }
    apply is_ok_true in Hok as [u ->]. done.
Qed.

Lemma intent_valid_lists i cs ds :
  intent_valid i -> gi_Commitments i ≡ₚ cs -> gi_Deltas i ≡ₚ ds -> intent_valid (with_lists i cs ds).
Proof.
  intros [Hst Hz (Hc1 & Hc2 & Hc3) Hh Hx Hck Hr (m & Hm & Hf & Hnd)] Hcs Hds.
  constructor; cbn [with_lists gi_Status gi_Network gi_NativeToken gi_ValidatorRoot gi_ShardCount gi_PreHeight
    gi_PreParentHash gi_Header gi_Certificate gi_Commitments gi_Deltas gi_EconomicCheckpoint]; try done.
  - split_and!; [done| |]; unfold blen in *; by rewrite <-?Hcs, <-?Hds.
  - unfold CommitmentRoot in *. by rewrite <-(sortedCommitments_proper _ _ Hcs).
  - exists m. split; [by apply index_commitments_perm with (gi_Commitments i)|]. by rewrite <-Hds.
Qed.

Lemma sorted_intent_valid i : intent_valid i -> intent_valid (sorted_intent i).
Proof. intros Hv. by apply intent_valid_lists; [|rewrite sort_by_perm..]. Qed.

Lemma with_status_valid i status :
  intent_valid i -> status = globalCommitPreparing \/ status = globalCommitCommitted -> intent_valid (with_status i status).
Proof. intros [] Hs. by constructor. Qed.

(** The entry is a value of its Go type. *)
Definition journalDelta_typed (d : journalShardDelta) : Prop :=
  u32 (jd_ShardID d) /\ arr32 (jd_PreRoot d) /\ arr32 (jd_PostRoot d) /\ Forall arr32 (jd_Consumed d) /\
  Forall Object_typed (jd_Created d).
Record intent_typed (i : globalCommitIntent) : Prop := {
  it_ids : arr32 (gi_Network i) /\ arr32 (gi_NativeToken i) /\ arr32 (gi_ValidatorRoot i) /\ arr32 (gi_PreParentHash i);
  it_numbers : u32 (gi_ShardCount i) /\ u64 (gi_PreHeight i);
  it_header : GlobalHeader_ok (gi_Header i);
  it_certificate : Certificate_typed (gi_Certificate i);
  it_commitments : Forall Commitment_typed (gi_Commitments i);
  it_deltas : Forall journalDelta_typed (gi_Deltas i);
}.

Definition enc_commitment (c : Commitment) : bytes :=
  be 4 (ShardID c) ++ StateRoot c ++ ReceiptRoot c ++ DataRoot c.
Definition enc_delta (d : journalShardDelta) : bytes :=
  be 4 (jd_ShardID d) ++ jd_PreRoot d ++ jd_PostRoot d ++ be 4 (blen (jd_Consumed d)) ++ concat (jd_Consumed d)
  ++ be 4 (blen (jd_Created d)) ++ concat ((fun o => enc_bytes (Object_CanonicalBytes o)) <$> jd_Created d).

Lemma write_commitment_eq w c : write_commitment w c = w ++ enc_commitment c.
Proof. unfold write_commitment, enc_commitment. writer_norm. done. Qed.

Lemma write_delta_eq w d : write_delta w d = w ++ enc_delta d.
Proof.
  unfold write_delta, enc_delta. cbv zeta.
  rewrite (writer_loop _ (fun o => enc_bytes (Object_CanonicalBytes o))) by (intros; apply writer_bytes).
  rewrite (writer_loop _ (fun id => id)) by done. rewrite list_fmap_id. writer_norm. by rewrite !be4_mod.
Qed.

Lemma reads_commitment post c : Commitment_typed c -> reads post read_commitment (enc_commitment c) c.
Proof.
  intros (H1 & H2 & H3 & H4). rewrite blen32 in *. unfold read_commitment, enc_commitment.
  destruct c. cbn in *. solve_reads; done.
Qed.

Lemma reads_created post o : Object_ok o -> reads post read_created (enc_bytes (Object_CanonicalBytes o)) o.
Proof.
  intros Ho. unfold read_created. solve_reads.
  - by apply Object_CanonicalBytes_length.
  - done.
  - by apply ParseObject_CanonicalBytes.
Qed.

Lemma reads_delta post count m d :
  journalDelta_typed d -> journal_delta_ok count m d -> reads post read_delta (enc_delta d) d.
Proof.
  intros (H1 & H2 & H3 & H4 & H5) (Hg & _ & _ & Hv). repeat (apply orb_false_iff in Hg as [Hg ?]).
  assert (0 <= blen (jd_Consumed d)) by (unfold blen; lia). assert (0 <= blen (jd_Created d)) by (unfold blen; lia).
  assert (Forall Object_ok (jd_Created d)) as Hok.
  { rewrite Forall_forall in H5, Hv |- *. intros o Ho. split; auto. }
  rewrite blen32 in *. unfold read_delta, enc_delta. destruct d as [sh pre pst con cre].
  cbn [jd_ShardID jd_PreRoot jd_PostRoot jd_Consumed jd_Created] in *. unfold maxJournalObjects in *.
  rewrite <-(app_nil_r (concat (_ <$> cre))). solve_reads; try done; try (unfold u32; lia).
  - unfold blen. rewrite Nat2Z.id. apply reads_repeat_fixed. by apply (Forall_arr 32).
  - apply (reads_repeat_count _ _ Object_ok); [|done]. intros post' o Ho. by apply reads_created.
Qed.

(** The bytes of an entry. *)
Definition intent_payload (i : globalCommitIntent) (certificateRaw : bytes) : bytes :=
  be 2 globalCommitJournalVersion ++ [byte_of_Z (gi_Status i)] ++ gi_Network i ++ gi_NativeToken i ++ gi_ValidatorRoot i
  ++ be 4 (gi_ShardCount i) ++ be 8 (gi_PreHeight i) ++ gi_PreParentHash i
  ++ enc_bytes (GlobalHeader_CanonicalBytes (gi_Header i)) ++ enc_bytes certificateRaw ++ be 4 (blen (gi_Commitments i))
  ++ concat (enc_commitment <$> gi_Commitments i) ++ be 4 (blen (gi_Deltas i)) ++ concat (enc_delta <$> gi_Deltas i)
  ++ enc_bytes (gi_EconomicCheckpoint i).

Lemma Intent_MarshalBinary_Ok i d :
  Intent_MarshalBinary i = Ok d ->
  intent_valid i /\ exists raw, Certificate_MarshalBinary (gi_Certificate i) = Ok raw /\ d = intent_payload (sorted_intent i) raw.
Proof.
  intros E. apply bind_Ok in E as ([] & Hv%Intent_Validate_spec & E). apply bind_Ok in E as (h & Hh & E).
  apply bind_Ok in E as (raw & Hraw & E). apply Ok_inj in E. split; [done|]. exists raw. split; [done|].
  apply bind_Ok in Hh as (? & _ & Hh). apply Ok_inj in Hh. subst h d. unfold Writer.BytesCopy, intent_payload.
  rewrite (writer_loop _ enc_delta) by (intros; apply write_delta_eq).
  rewrite (writer_loop _ enc_commitment) by (intros; apply write_commitment_eq). writer_norm. rewrite !be4_mod. done.
Qed.

Lemma cert_payload_length c : Certificate_typed c -> cert_header_ok c -> blen (cert_payload c) <= Z.shiftl 64 20.
Proof.
  intros (H1 & _ & _ & H4 & H5) (Hn & _ & _ & _ & Hv). change (Z.shiftl 64 20) with 67108864. unfold MaxCertificateVotes in Hn.
  assert (blen (concat (enc_vote <$> c_Votes c)) <= 516 * blen (c_Votes c)) as Hl.
  { clear Hn. induction (c_Votes c) as [|v l IH]; [done|]. apply Forall_cons in H5 as [Ht H5], Hv as [Hv1 Hv].
    specialize (IH H5 Hv). pose proof (vote_payload_length v Ht Hv1). unfold blen in *. cbn [fmap list_fmap concat].
    unfold enc_vote at 1, enc_bytes. rewrite !length_app, length_be. cbn [length]. lia. }
  unfold cert_payload, blen, arr in *. rewrite !length_app, !length_be, H1, H4. lia.
Qed.

Lemma global_header_length h : GlobalHeader_ok h -> blen (GlobalHeader_CanonicalBytes h) <= Z.shiftl 1 20.
Proof.
  intros (_ & H1 & _ & _ & H2 & H3 & H4 & H5 & H6 & H7 & _). change (Z.shiftl 1 20) with 1048576.
  unfold GlobalHeader_CanonicalBytes. writer_norm. unfold blen, arr in *.
  rewrite !length_app, !length_be, H1, H2, H3, H4, H5, H6, H7. lia.
Qed.

Lemma parse_intent i raw :
  intent_typed i -> intent_valid i -> gi_ShardCount i <= 1000000 -> Certificate_MarshalBinary (gi_Certificate i) = Ok raw ->
  parseGlobalCommitIntent (intent_payload i raw) = Ok i.
Proof.
  intros [(Ht1 & Ht2 & Ht3 & Ht4) (Hu1 & Hu2) Hh Hc Hcs Hds] Hv Hmax Hraw.
  pose proof Hv as [Hst _ (Hn0 & Hn1 & Hn2) _ _ Hck _ (m & _ & Hf & _)].
  assert (ParseCertificate raw = Ok (gi_Certificate i)) as Hp by (by apply ParseCertificate_canonical).
  apply Certificate_MarshalBinary_Ok in Hraw as [Hco ->]. pose proof (cert_payload_length _ Hc Hco) as Hcl.
  pose proof (global_header_length _ Hh) as Hhl. apply ParseGlobalHeader_CanonicalBytes in Hh.
  apply Intent_Validate_spec in Hv. unfold u32 in Hu1.
  assert (0 <= blen (gi_Deltas i)) by (unfold blen; lia).
  assert (Forall (fun d => journalDelta_typed d /\ journal_delta_ok (gi_ShardCount i) m d) (gi_Deltas i)) as Hd.
  { by apply Forall_and. }
  rewrite blen32 in *. unfold parseGlobalCommitIntent, intent_payload. apply reads_parse.
  destruct i as [status net nat vr cnt ph pp hd ct cs ds ck].
  cbn [gi_Status gi_Network gi_NativeToken gi_ValidatorRoot gi_ShardCount gi_PreHeight gi_PreParentHash gi_Header
    gi_Certificate gi_Commitments gi_Deltas gi_EconomicCheckpoint] in *.
  rewrite <-(app_nil_r (enc_bytes ck)). solve_reads; try done; try (unfold u32; lia).
  - unfold u8. destruct Hst as [-> | ->]; done.
  - apply (reads_repeat_count _ _ Commitment_typed); [|done]. intros post' c Hct. by apply reads_commitment.
  - apply (reads_repeat_count _ _ _ _ _ (fun post' d Hdt => reads_delta post' cnt m d (proj1 Hdt) (proj2 Hdt)) Hd).
Qed.

Lemma sorted_intent_typed i : intent_typed i -> intent_typed (sorted_intent i).
Proof.
  intros []. constructor; cbn [sorted_intent with_lists gi_Network gi_NativeToken gi_ValidatorRoot gi_PreParentHash
    gi_ShardCount gi_PreHeight gi_Header gi_Certificate gi_Commitments gi_Deltas]; rewrite ?sort_by_perm; done.
Qed.

Lemma with_status_typed i status : intent_typed i -> intent_typed (with_status i status).
Proof. intros []. by constructor. Qed.

(** The frame of the file: magic, length, payload, digest. *)
Lemma decode_frame payload :
  0 < blen payload <= maxGlobalCommitJournalBytes ->
  decodeGlobalCommitJournal (globalCommitJournalMagic ++ be 4 (blen payload) ++ payload ++ journal_digest payload) =
  parseGlobalCommitIntent payload.
Proof.
  change maxGlobalCommitJournalBytes with 268435456. intros Hl. unfold decodeGlobalCommitJournal.
  change maxGlobalCommitJournalBytes with 268435456.
  set (data := _ ++ _). assert (blen data = 8 + blen payload + 32) as Hb.
  { subst data. unfold blen. rewrite !length_app, length_be. unfold journal_digest. rewrite length_DomainHash.
    change (length globalCommitJournalMagic) with 4%nat. lia. }
  assert (firstn 4 data = globalCommitJournalMagic) as -> by done.
  assert (skipn 4 data = be 4 (blen payload) ++ payload ++ journal_digest payload) as -> by done.
  assert (skipn 8 data = payload ++ journal_digest payload) as Hs8.
  { change (skipn 8 data) with (skipn 4 (skipn 4 data)). subst data.
    change (skipn 4 (globalCommitJournalMagic ++ ?x)) with x.
    rewrite <-(length_be 4 (blen payload)) at 1. apply drop_app_length. }
  rewrite Hb. assert ((8 + blen payload + 32 <? 8 + 32) = false) as -> by lia.
  assert ((268435456 + 8 + 32 <? 8 + blen payload + 32) = false) as -> by lia.
  rewrite (bool_decide_eq_true_2 (globalCommitJournalMagic = globalCommitJournalMagic)) by done.
  cbn [orb negb fail_if mbind res_bind].
  assert (be_val (take 4 (be 4 (blen payload) ++ payload ++ journal_digest payload)) = blen payload) as ->.
  { rewrite <-(length_be 4 (blen payload)) at 1. rewrite take_app_length. apply be_val_small. cbn. lia. }
  assert ((blen payload =? 0) = false) as -> by lia.
  assert ((268435456 <? blen payload) = false) as -> by lia. rewrite Z.eqb_refl. cbn [orb negb fail_if mbind res_bind].
  rewrite <-drop_drop, Hs8. unfold blen. rewrite Nat2Z.id, take_app_length, drop_app_length.
  by rewrite bool_decide_eq_true_2.
Qed.

Lemma decode_encode i raw :
  intent_typed i -> gi_ShardCount i <= 1000000 -> encodeGlobalCommitJournal i = Ok raw ->
  decodeGlobalCommitJournal raw = Ok (sorted_intent i).
Proof.
  intros Ht Hmax E. apply bind_Ok in E as (payload & Hp%or_err_Ok & E). apply bind_Ok in E as ([] & Hl%fail_if_Ok & E).
  apply Ok_inj in E. subst raw. apply orb_false_iff in Hl as [Hl1 Hl2].
  apply Intent_MarshalBinary_Ok in Hp as (Hv & craw & Hc & ->).
  rewrite decode_frame by (unfold blen in *; lia).
  apply parse_intent; [by apply sorted_intent_typed|by apply sorted_intent_valid|done|done].
Qed.

(** An entry and its sorted form have the same file. *)
Lemma sorted_intent_idem i : intent_valid i -> sorted_intent (sorted_intent i) = sorted_intent i.
Proof.
  intros Hv. destruct (iv_lists i Hv) as (m & Hm & _ & Hnd). unfold sorted_intent at 1. unfold with_lists.
  cbn [sorted_intent with_lists gi_Status gi_Network gi_NativeToken gi_ValidatorRoot gi_ShardCount gi_PreHeight
    gi_PreParentHash gi_Header gi_Certificate gi_Commitments gi_Deltas gi_EconomicCheckpoint].
  unfold sorted_intent, with_lists. f_equal.
  - pose proof (iv_root i Hv) as Hr. apply bind_Ok in Hr as (s & (Hp & Hs & ->)%sortedCommitments_Ok & _).
    by apply sort_by_proper.
  - apply sort_by_proper; [|apply sort_by_perm]. by rewrite sort_by_perm.
Qed.

Lemma marshal_sorted i : intent_valid i -> Intent_MarshalBinary (sorted_intent i) = Intent_MarshalBinary i.
Proof.
  intros Hv. unfold Intent_MarshalBinary.
  rewrite (proj2 (Intent_Validate_spec i) Hv), (proj2 (Intent_Validate_spec _) (sorted_intent_valid i Hv)).
  pose proof (sorted_intent_idem i Hv) as Hs. unfold sorted_intent, with_lists in Hs. injection Hs as Hc Hd.
  cbn [sorted_intent with_lists gi_Status gi_Network gi_NativeToken gi_ValidatorRoot gi_ShardCount gi_PreHeight
    gi_PreParentHash gi_Header gi_Certificate gi_Commitments gi_Deltas gi_EconomicCheckpoint].
  rewrite Hc, Hd. done.
Qed.

Lemma encode_sorted i : intent_valid i -> encodeGlobalCommitJournal (sorted_intent i) = encodeGlobalCommitJournal i.
Proof. intros Hv. unfold encodeGlobalCommitJournal. by rewrite marshal_sorted. Qed.
End journal.

(** ** Recovery *)

Lemma index_lookup {A B} (key : A -> Z) (val : A -> B) l :
  NoDup (key <$> l) ->
  (forall a, a ∈ l -> foldl (fun m a => <[key a := val a]> m) (∅ : gmap Z B) l !! key a = Some (val a)) /\
  (forall k, k ∉ key <$> l -> foldl (fun m a => <[key a := val a]> m) (∅ : gmap Z B) l !! k = None).
Proof.
  induction l as [|x l IH] using rev_ind; intros Hnd; [split; [by intros a ?%elem_of_nil|done]|].
  rewrite fmap_app in Hnd |- *. apply NoDup_app in Hnd as (Hnd & Hd & _). destruct (IH Hnd) as [H1 H2].
  rewrite foldl_app. cbn [foldl]. split.
  - intros a [Ha| ->%list_elem_of_singleton]%elem_of_app; [|apply lookup_insert_eq].
    rewrite lookup_insert_ne; [by apply H1|]. intros Heq. apply (Hd (key a)); [by apply list_elem_of_fmap_2|].
    rewrite <-Heq. cbn. left.
  - intros k [Hk Hx]%not_elem_of_app. rewrite lookup_insert_ne; [by apply H2|]. intros <-. apply Hx. cbn. left.
Qed.

Section recovery.
Context `{HC : Crypto} `{HM : MapOrder} `{HH : ScriptHost} `{HI : IdleCapital} `{HF : FinalityStores}.
Context {St : Type} `{HB : Backend St} `{HS : Simulator St} `{HE : !EconomicCheckpoint} `{!BackendSpec St}.

Abbreviation Runtime := (Node.Runtime (St := St)).

(** What a completed commit did to one shard. *)
Record shard_moved (r r1 : Runtime) (candidate : Candidate) (commitments : gmap Z Commitment) (shard : Z)
    (pre post : St) (c : Commitment) : Prop := {
  sm_pre : rt_States r !! shard = Some pre;
  sm_post : rt_States r1 !! shard = Some post;
  sm_commitment : commitments !! shard = Some c;
  sm_root : backend_Root post = StateRoot c;
  sm_delta : match cn_deltas candidate !! shard with
             | None => post = pre
             | Some delta => backend_Apply pre (dl_Consumed delta) (dl_Created delta) = Ok (post, StateRoot c) /\
                 exists simulate, simulator pre = Some simulate /\
                   simulate (dl_Consumed delta) (dl_Created delta) = Ok (StateRoot c)
             end;
}.

Lemma shards_moved (r r1 : Runtime) sg io candidate commitments shards :
  commit_inputs r sg candidate -> preflighted r candidate commitments shards ->
  apply_shards r io (cn_deltas candidate) commitments shards = (r1, Ok tt) ->
  forall shard, 0 <= shard < rt_ShardCount r -> exists pre post c, shard_moved r r1 candidate commitments shard pre post c.
Proof.
  intros Hci Hpf E shard Hs. destruct (pf_shard _ _ _ _ Hpf shard Hs) as (c & Hc & store & Hst & Hr).
  destruct (changed_shards_spec (cn_deltas candidate)) as [Hnd Hel]. rewrite <-(pf_shards _ _ _ _ Hpf) in Hnd, Hel.
  pose proof (apply_shards_Ok _ _ _ _ _ _ Hnd E shard) as Ha.
  destruct (cn_deltas candidate !! shard) as [delta|] eqn:Ed.
  - rewrite bool_decide_eq_true_2 in Ha by (by apply Hel). destruct Ha as (store0 & store' & c0 & Hs0 & Hs' & Hc0 & Ha).
    rewrite Hst in Hs0. injection Hs0 as <-. rewrite Hc in Hc0. injection Hc0 as <-.
    change (default (mkDelta [] []) (Some delta)) with delta in Ha.
    exists store, store', c. constructor; try done; [|by rewrite Ed]. symmetry.
    eapply bs_apply in Ha as (_ & _ & _ & ?); [done|by eapply ci_stores|by eapply ci_deltas].
  - rewrite bool_decide_eq_false_2 in Ha by (intros [d Hd]%Hel; congruence). rewrite Hst in Ha.
    exists store, store, c. constructor; try done. by rewrite Ed.
Qed.

(** The entries of the journal are the deltas of the candidate. *)
Lemma journal_deltas_Ok (r : Runtime) candidate commitments shards acc ds :
  rfold (journal_delta r candidate commitments) acc shards = Ok ds ->
  exists l, ds = acc ++ l /\ Forall2 (fun shard d => exists c store, commitments !! shard = Some c /\
    rt_States r !! shard = Some store /\
    d = mkJournalDelta shard (backend_Root store) (StateRoot c) (dl_Consumed (default (mkDelta [] []) (cn_deltas candidate !! shard)))
          (dl_Created (default (mkDelta [] []) (cn_deltas candidate !! shard)))) shards l.
Proof.
  revert acc. induction shards as [|shard shards IH]; intros acc E; cbn [rfold] in E.
  { apply Ok_inj in E. subst ds. exists []. by rewrite app_nil_r. }
  apply bind_Ok in E as (acc' & E1 & E). apply bind_Ok in E1 as (c & Hc%some_or_Ok & E1).
  apply bind_Ok in E1 as (store & Hs%some_or_Ok & E1). apply Ok_inj in E1. subst acc'.
  apply IH in E as (l & -> & Hl). eexists (_ :: l). split; [by rewrite <-app_assoc|]. constructor; [|done]. by exists c, store.
Qed.

(** The journal of a commit, as recovery indexes it. *)
Lemma intent_index (r : Runtime) candidate certificate commitments shards checkpoint intent :
  preflighted r candidate commitments shards ->
  buildGlobalCommitIntent r candidate certificate commitments checkpoint = Ok intent ->
  intent_valid intent /\ gi_Status intent = globalCommitPreparing /\
  (forall shard, index_roots (gi_Commitments (sorted_intent intent)) !! shard = StateRoot <$> commitments !! shard) /\
  (forall shard, match cn_deltas candidate !! shard with
     | None => index_deltas (gi_Deltas (sorted_intent intent)) !! shard = None
     | Some delta => exists store c, rt_States r !! shard = Some store /\ commitments !! shard = Some c /\
         index_deltas (gi_Deltas (sorted_intent intent)) !! shard =
           Some (mkJournalDelta shard (backend_Root store) (StateRoot c) (dl_Consumed delta) (dl_Created delta))
     end).
Proof.
  intros Hpf E. apply bind_Ok in E as ([] & _ & E). apply bind_Ok in E as (ds & Hds & E).
  apply bind_Ok in E as ([] & Hv%Intent_Validate_spec & E). apply Ok_inj in E. subst intent. split; [done|]. split; [done|].
  apply journal_deltas_Ok in Hds as (l & -> & Hl). cbn [app] in *.
  destruct (iv_lists _ Hv) as (m & Hm & _ & Hnd). cbn [gi_Deltas gi_Commitments gi_ShardCount sorted_intent with_lists] in *.
  pose proof (iv_root _ Hv) as Hr. apply bind_Ok in Hr as (s & (Hsp & Hsn & ->)%sortedCommitments_Ok & _).
  cbn [gi_Commitments] in Hsp, Hsn. split.
  - intros shard. destruct (index_lookup ShardID StateRoot _ Hsn) as [H1 H2].
    destruct (commitments !! shard) as [c|] eqn:Ec.
    + apply (pf_commitments _ _ _ _ Hpf) in Ec as [Hin <-]. apply H1. by apply elem_of_sort_by.
    + apply H2. rewrite sort_by_perm. intros (c & -> & Hin)%list_elem_of_fmap.
      assert (commitments !! ShardID c = Some c) by (by apply (pf_commitments _ _ _ _ Hpf)). congruence.
  - intros shard. assert (NoDup (jd_ShardID <$> sort_by jd_ShardID l)) as Hnd' by (by rewrite sort_by_perm).
    destruct (index_lookup jd_ShardID (fun d => d) _ Hnd') as [H1 H2].
    assert (jd_ShardID <$> l = sort_by (fun shard : Z => shard) (map_to_list (cn_deltas candidate)).*1) as Hids.
    { clear -Hl. induction Hl as [|x y xs ys (c & st & _ & _ & ->) _ IH]; [done|]. cbn. by rewrite IH. }
    destruct (changed_shards_spec (cn_deltas candidate)) as [_ Hel].
    destruct (cn_deltas candidate !! shard) as [delta|] eqn:Ed.
    + assert (shard ∈ sort_by (fun shard : Z => shard) (map_to_list (cn_deltas candidate)).*1) as Hin by (apply Hel; by rewrite Ed).
      apply list_elem_of_lookup in Hin as [k Hk].
      destruct (Forall2_lookup_l _ _ _ _ _ Hl Hk) as (d & Hd & c & store & Hc & Hs & ->). rewrite Ed in Hd.
      exists store, c. split; [done|]. split; [done|]. apply list_elem_of_lookup_2 in Hd.
      exact (H1 _ (proj2 (elem_of_sort_by jd_ShardID _ l) Hd)).
    + apply H2. rewrite sort_by_perm, Hids. intros [d Hd]%Hel. congruence.
Qed.

(** *** A commit that was cut short *)

Section interrupted.
Context (r r1 : Runtime) (candidate : Candidate) (certificate : Certificate) (validators : ValidatorSet).
Context (commitments : gmap Z Commitment) (shards : list Z) (intent : globalCommitIntent).
Context (Hpf : preflighted r candidate commitments shards).
Context (Hbuild : buildGlobalCommitIntent r candidate certificate commitments [] = Ok intent).
Context (Hmoved : forall shard, 0 <= shard < rt_ShardCount r ->
  exists pre post c, shard_moved r r1 candidate commitments shard pre post c).

(** The store of a shard is the one before the commit or the one after it. *)
Definition between (x : Runtime) (shard : Z) : Prop :=
  exists s, rt_States x !! shard = Some s /\ (rt_States r !! shard = Some s \/ rt_States r1 !! shard = Some s).

(** The store of a shard has the root that was certified. *)
Definition at_post (x : Runtime) (shard : Z) : Prop :=
  exists s c, rt_States x !! shard = Some s /\ commitments !! shard = Some c /\ backend_Root s = StateRoot c.

Definition stores_between (x : Runtime) : Prop :=
  (forall shard, 0 <= shard < rt_ShardCount r -> between x shard) /\
  (forall shard, is_Some (rt_States x !! shard) <-> 0 <= shard < rt_ShardCount r).

Lemma between_insert x shard s :
  stores_between x -> 0 <= shard < rt_ShardCount r -> rt_States r1 !! shard = Some s ->
  stores_between (set_states x (<[shard := s]> (rt_States x))).
Proof.
  intros [Hb Hd] Hs Hp. split.
  - intros k Hk. unfold between. cbn [rt_States set_states]. destruct (decide (k = shard)) as [->|Hne].
    + exists s. rewrite lookup_insert_eq. auto.
    + rewrite lookup_insert_ne by done. by apply Hb.
  - intros k. cbn [rt_States set_states]. destruct (decide (k = shard)) as [->|Hne].
    + rewrite lookup_insert_eq. split; [done|by eexists].
    + rewrite lookup_insert_ne by done. apply Hd.
Qed.

(** One shard of the recovery loop. *)
Lemma recover_shard_step x io status shard y out :
  stores_between x -> 0 <= shard < rt_ShardCount r -> (status = globalCommitCommitted -> at_post x shard) ->
  recover_shard (with_status (sorted_intent intent) status) (index_roots (gi_Commitments (sorted_intent intent)))
    (index_deltas (gi_Deltas (sorted_intent intent))) io x shard = (y, out) ->
  stores_between y /\ core y = core x /\ rt_journal y = rt_journal x /\
  (forall k, at_post x k -> at_post y k) /\ (out = Ok tt -> at_post y shard) /\
  (status = globalCommitCommitted -> out = Ok tt -> y = x) /\
  (io shard = WriteOk -> out = Ok tt /\ rt_recoveryRequired y = rt_recoveryRequired x).
Proof.
  intros Hst Hs Hcom. destruct (intent_index _ _ _ _ _ _ _ Hpf Hbuild) as (_ & _ & Hroots & Hdeltas).
  specialize (Hdeltas shard). destruct (Hmoved shard Hs) as (pre & post & c & [Hpre Hpost Hc Hroot Hdelta]).
  unfold recover_shard. rewrite Hroots, Hc. cbn [fmap option_fmap option_map].
  destruct (proj1 Hst shard Hs) as (s & Hxs & Hwhich). rewrite Hxs.
  assert (backend_Root s = StateRoot c -> at_post x shard) as Hat by (intros Heq; by exists s, c).
  destruct (cn_deltas candidate !! shard) as [delta|].
  - destruct Hdeltas as (store & c' & Hstore & Hc' & ->). rewrite Hpre in Hstore. injection Hstore as <-.
    rewrite Hc in Hc'. injection Hc' as <-. cbn [jd_PostRoot jd_PreRoot jd_Consumed jd_Created].
    case_bool_decide as Hcur; [intros [= <- <-]; split_and!; auto|].
    destruct Hwhich as [Hw|Hw]; [|congruence]. rewrite Hpre in Hw. injection Hw as ->.
    assert (status <> globalCommitCommitted) as Hst'.
    { intros Heq. destruct (Hcom Heq) as (s' & c' & Hs' & Hc' & Hr'). congruence. }
    cbn [gi_Status with_status]. rewrite (proj2 (Z.eqb_neq _ _) Hst'), !bool_decide_eq_true_2 by done. cbn [negb orb].
    destruct Hdelta as (Happ & simulate & -> & ->). rewrite bool_decide_eq_true_2 by done. cbn [negb]. rewrite Happ.
    assert (stores_between (set_states x (<[shard := post]> (rt_States x)))) as Hins by (by apply between_insert).
    assert (at_post (set_states x (<[shard := post]> (rt_States x))) shard) as Hps.
    { exists post, c. cbn [rt_States set_states]. by rewrite lookup_insert_eq. }
    assert (forall k, at_post x k -> at_post (set_states x (<[shard := post]> (rt_States x))) k) as Hmono.
    { intros k (s' & c' & Hk & Hck & Hrk). destruct (decide (k = shard)) as [->|Hne]; [done|].
      exists s', c'. cbn [rt_States set_states]. by rewrite lookup_insert_ne. }
    destruct (io shard); [|intros [= <- <-]; by split_and!..]. rewrite bool_decide_eq_true_2 by done. intros [= <- <-].
    by split_and!.
  - rewrite Hdeltas. subst post. assert (s = pre) as -> by (destruct Hwhich; congruence).
    rewrite bool_decide_eq_true_2 by done. intros [= <- <-]. split_and!; auto.
Qed.

Lemma recover_shards_run x io status l y out :
  stores_between x -> (forall shard, shard ∈ l -> 0 <= shard < rt_ShardCount r) ->
  (status = globalCommitCommitted -> forall shard, 0 <= shard < rt_ShardCount r -> at_post x shard) ->
  recover_shards (with_status (sorted_intent intent) status) (index_roots (gi_Commitments (sorted_intent intent)))
    (index_deltas (gi_Deltas (sorted_intent intent))) io l x = (y, out) ->
  stores_between y /\ core y = core x /\ rt_journal y = rt_journal x /\
  (forall k, at_post x k -> at_post y k) /\ (out = Ok tt -> forall shard, shard ∈ l -> at_post y shard) /\
  ((forall shard, io shard = WriteOk) -> out = Ok tt /\ rt_recoveryRequired y = rt_recoveryRequired x).
Proof.
  revert x. induction l as [|shard l IH]; intros x Hst Hl Hcom E; cbn [recover_shards] in E.
  { injection E as <- <-. split_and!; try done. by intros _ ? ?%elem_of_nil. }
  destruct (recover_shard _ _ _ _ x shard) as [z out1] eqn:Ez.
  apply recover_shard_step in Ez as (Hz1 & Hz2 & Hz3 & Hz4 & Hz4' & Hz5 & Hz6);
    [|done|by apply Hl; left|intros Hc; apply (Hcom Hc); apply Hl; left].
  destruct out1 as [[]|e]; cbn [then_do] in E.
  - apply IH in E as (Hy1 & Hy2 & Hy3 & Hy4 & Hy4' & Hy5); [|done|intros k Hk; apply Hl; by right|].
    2:{ intros Hc k Hk. rewrite (Hz5 Hc eq_refl). by apply Hcom. }
    split_and!; [done|congruence|congruence|auto| |].
    + intros Ho k [->|Hk]%elem_of_cons; auto.
    + intros Hio. destruct (Hy5 Hio) as [? ->]. split; [done|]. by apply Hz6.
  - injection E as <- <-. split_and!; try done. intros Hio. destruct (Hz6 (Hio shard)) as [? _]. done.
Qed.

(** What a crash leaves behind once the entry is in the journal. *)
Record interrupted (x : Runtime) : Prop := {
  in_config : rt_Network x = rt_Network r /\ rt_NativeToken x = rt_NativeToken r /\ rt_ValidatorRoot x = rt_ValidatorRoot r /\
    rt_ShardCount x = rt_ShardCount r /\ rt_journalConfigured x = true;
  in_economics : rt_economicCollector x = None /\ rt_economicEngine x = None /\ rt_pendingEconomic x = None;
  in_tip : (rt_Height x = rt_Height r /\ rt_ParentHash x = rt_ParentHash r) \/
    (rt_Height x = h_Height (cn_Header candidate) /\ rt_ParentHash x = HeaderConsensusHash (cn_Header candidate)) \/
    (rt_Height x = 0 /\ rt_ParentHash x = zero32);
  in_stores : stores_between x;
  in_journal : exists status raw, (status = globalCommitPreparing \/ status = globalCommitCommitted) /\
    encodeGlobalCommitJournal (with_status intent status) = Ok raw /\ rt_journal x = Some raw /\
    (status = globalCommitCommitted -> forall shard, 0 <= shard < rt_ShardCount r -> at_post x shard);
}.

Lemma interrupted_frame x y :
  interrupted x -> core y = core x -> rt_States y = rt_States x -> rt_journal y = rt_journal x -> interrupted y.
Proof.
  intros [Hcfg Hec Htip Hst Hj] Hc Hs Hjy. unfold core in Hc. injection Hc as E1 E2 E3 E4 _ E5 E6 E7 E8 _ _ E9 E10.
  constructor; rewrite ?E1, ?E2, ?E3, ?E4, ?E5, ?E6, ?E7, ?E8, ?E9, ?E10; try done.
  - unfold stores_between, between in *. by rewrite Hs.
  - unfold at_post in *. by rewrite Hs, Hjy.
Qed.

(** The application of the stores stops anywhere between the two states. *)
Lemma apply_between x io l y out :
  NoDup l -> (forall shard, shard ∈ l -> 0 <= shard < rt_ShardCount r /\ is_Some (cn_deltas candidate !! shard) /\
    rt_States x !! shard = rt_States r !! shard) -> stores_between x ->
  apply_shards x io (cn_deltas candidate) commitments l = (y, out) ->
  stores_between y /\ core y = core x /\ rt_journal y = rt_journal x /\
  (forall k, k ∉ l -> rt_States y !! k = rt_States x !! k) /\
  (out = Ok tt -> forall shard, shard ∈ l -> rt_States y !! shard = rt_States r1 !! shard).
Proof.
  revert x. induction l as [|shard l IH]; intros x Hnd Hl Hst E; cbn [apply_shards] in E.
  { injection E as <- <-. split_and!; try done. by intros _ ? ?%elem_of_nil. }
  apply NoDup_cons in Hnd as [Hni Hnd]. destruct (Hl shard ltac:(left)) as (Hs & [delta Hd] & Heq).
  destruct (Hmoved shard Hs) as (pre & post & c & [Hpre Hpost Hc Hroot Hdelta]). rewrite Hd in Hdelta, E.
  change (default (mkDelta [] []) (Some delta)) with delta in E. destruct Hdelta as (Happ & _).
  unfold state_of in E. rewrite Heq, Hpre in E. cbn [some_or mbind res_bind] in E. rewrite Happ, Hc in E.
  cbn [fmap option_fmap option_map] in E. rewrite bool_decide_eq_true_2 in E by done.
  set (z := set_states x (<[shard := post]> (rt_States x))) in E.
  assert (stores_between z) as Hz by (by apply between_insert).
  assert (forall k, k ∉ shard :: l -> rt_States z !! k = rt_States x !! k) as Hother.
  { intros k [Hk _]%not_elem_of_cons. subst z. cbn [rt_States set_states]. by rewrite lookup_insert_ne. }
  destruct (io_apply io shard).
  - apply IH in E as (Hy1 & Hy2 & Hy3 & Hy4 & Hy5); [|done| |done].
    2:{ intros k Hk. destruct (Hl k ltac:(by right)) as (Hk1 & Hk2 & Hk3). split_and!; try apply Hk1; try done.
        subst z. cbn [rt_States set_states]. rewrite lookup_insert_ne; [done|]. intros ->. done. }
    split_and!; [done|done|done| |].
    + intros k Hk. rewrite Hy4 by (by apply not_elem_of_cons in Hk as [_ ?]). by apply Hother.
    + intros Ho k [->|Hk]%elem_of_cons; [|by apply Hy5]. rewrite Hy4 by done. subst z. cbn [rt_States set_states].
      by rewrite lookup_insert_eq.
  - injection E as <- <-. by split_and!.
  - injection E as <- <-. by split_and!.
Qed.

(** *** Recovery of an interrupted commit *)

Context (Hcount : 0 < rt_ShardCount r <= 1000000) (Htyped : intent_typed intent).
Context (Hroot : ValidatorSet_Root validators = Ok (rt_ValidatorRoot r)) (Hnet : s_Network validators = rt_Network r).
Context (Hcert : VerifyCertificate validators certificate = Ok tt).

(** The entry names the runtime and the candidate. *)
Lemma intent_names :
  gi_Network intent = rt_Network r /\ gi_NativeToken intent = rt_NativeToken r /\ gi_ValidatorRoot intent = rt_ValidatorRoot r /\
  gi_ShardCount intent = rt_ShardCount r /\ gi_PreHeight intent = rt_Height r /\ gi_PreParentHash intent = rt_ParentHash r /\
  gi_Header intent = cn_Header candidate /\ gi_Certificate intent = certificate /\ gi_EconomicCheckpoint intent = [] /\
  intent_valid intent.
Proof.
  unfold buildGlobalCommitIntent in Hbuild. apply bind_Ok in Hbuild as ([] & _ & E). apply bind_Ok in E as (ds & _ & E).
  apply bind_Ok in E as ([] & Hv%Intent_Validate_spec & E). apply Ok_inj in E. rewrite <-E. done.
Qed.

Lemma recover_checks_pass x :
  interrupted x -> exists status, (status = globalCommitPreparing \/ status = globalCommitCommitted) /\
    recover_checks x validators = Ok (with_status (sorted_intent intent) status) /\
    is_ok (encodeGlobalCommitJournal (with_status intent status)) = true /\
    (status = globalCommitCommitted -> rt_journal x = Some (ok_or [] (encodeGlobalCommitJournal (with_status intent status))) /\
       forall shard, 0 <= shard < rt_ShardCount r -> at_post x shard).
Proof.
  intros [(H1 & H2 & H3 & H4 & H5) _ Htip _ (status & raw & Hs & Henc & Hj & Hat)]. exists status. split; [done|].
  rewrite Henc. split; [|split; [done|intros Hc; split; [done|by apply Hat]]].
  destruct intent_names as (N1 & N2 & N3 & N4 & N5 & N6 & N7 & N8 & _ & Hv).
  unfold recover_checks. rewrite H5, Hj. cbn [negb fail_if mbind res_bind some_or].
  rewrite (decode_encode (with_status intent status) raw); [|by apply with_status_typed|cbn; rewrite N4; lia|done].
  change (sorted_intent (with_status intent status)) with (with_status (sorted_intent intent) status).
  cbn [mbind res_bind with_status sorted_intent with_lists gi_Network gi_NativeToken gi_ValidatorRoot gi_ShardCount
    gi_PreHeight gi_PreParentHash gi_Header gi_Certificate].
  destruct (iv_certificate _ Hv) as (_ & C2 & C3). rewrite N7, N8 in C2, C3.
  rewrite N1, N2, N3, N4, N5, N6, N7, N8, H1, H2, H3, H4, Hroot, Z.eqb_refl, Hnet, C2, C3, Hcert.
  decide_refl. cbn [negb orb fail_if mbind res_bind or_err]. decide_refl. cbn [negb orb fail_if mbind res_bind].
  destruct Htip as [[-> ->]|[[-> ->]|[-> ->]]]; decide_refl; cbn [negb andb fail_if mbind res_bind].
  - done.
  - by rewrite andb_false_r.
  - change (IsZero32 zero32) with true. cbn [negb andb]. by rewrite andb_false_r.
Qed.

(** Recovery never leaves the states between the two, and completes the commit
    if no write fails. *)
Lemma recover_step x io registry config y out :
  interrupted x -> is_ok (encodeGlobalCommitJournal (with_status intent globalCommitCommitted)) = true ->
  RecoverGlobalCommitJournal x io validators registry config = (y, out) ->
  interrupted y /\
  (io = io_ok -> out = Ok tt /\ rt_recoveryRequired y = false /\ rt_Height y = h_Height (cn_Header candidate) /\
     rt_ParentHash y = HeaderConsensusHash (cn_Header candidate) /\
     rt_journal y = Some (ok_or [] (encodeGlobalCommitJournal (with_status intent globalCommitCommitted))) /\
     forall shard, 0 <= shard < rt_ShardCount r -> at_post y shard).
Proof.
  intros Hx [raw2 Henc2]%is_ok_true E. destruct (recover_checks_pass x Hx) as (status & Hs & Hchk & _ & Hcom).
  unfold RecoverGlobalCommitJournal in E. rewrite Hchk in E. cbv zeta in E.
  change (gi_Commitments (with_status (sorted_intent intent) status)) with (gi_Commitments (sorted_intent intent)) in E.
  change (gi_Deltas (with_status (sorted_intent intent) status)) with (gi_Deltas (sorted_intent intent)) in E.
  destruct (recover_shards _ _ _ _ _ x) as [z out1] eqn:Ez.
  pose proof Hx as [(X1 & X2 & X3 & X4 & X5) (Y1 & Y2 & Y3) Htip Hst Hj].
  apply recover_shards_run in Ez as (Z1 & Z2 & Z3 & Z4 & Z4' & Z5); [|done| |by intros Hc; apply (Hcom Hc)].
  2:{ intros shard Hin%elem_of_shard_range. by rewrite <-X4. }
  destruct intent_names as (_ & _ & _ & _ & _ & _ & N7 & _ & N9 & Hv).
  assert (out1 = Ok tt -> forall shard, 0 <= shard < rt_ShardCount r -> at_post z shard) as Hpost.
  { intros Ho shard Hsh. apply (Z4' Ho). apply elem_of_shard_range. by rewrite X4. }
  pose proof Z2 as Hc. unfold core in Hc. injection Hc as E1 E2 E3 E4 _ E5 E6 E7 E8 _ _ E9 E10.
  assert (interrupted z) as Hz.
  { constructor; rewrite ?E1, ?E2, ?E3, ?E4, ?E5, ?E6, ?E7, ?E8, ?E9, ?E10; try done.
    destruct Hj as (st & raw & J1 & J2 & J3 & J4). rewrite Z3. exists st, raw. split_and!; auto. }
  destruct out1 as [[]|e]; cbn [then_do] in E.
  2:{ injection E as <- <-. split; [done|]. intros ->. by destruct (Z5 (fun _ => eq_refl)) as [? _]. }
  specialize (Hpost eq_refl). unfold restoreJournalEconomics in E.
  change (gi_EconomicCheckpoint (with_status (sorted_intent intent) status)) with (gi_EconomicCheckpoint intent) in E.
  change (gi_Header (with_status (sorted_intent intent) status)) with (gi_Header intent) in E.
  change (gi_Status (with_status (sorted_intent intent) status)) with status in E.
  rewrite N9, N7, E7, E8, E9, Y1, Y2, Y3 in E. change (blen [] =? 0) with true in E.
  cbn [orb fail_if mbind res_bind] in E.
  set (w := if status =? globalCommitCommitted then _ else _) in E.
  assert (core w.1 = core z /\ rt_States w.1 = rt_States z /\ interrupted w.1 /\
    (w.2 = Ok tt -> rt_journal w.1 = Some raw2) /\ (io = io_ok -> w.2 = Ok tt)) as (W1 & W2 & W3 & W4 & W5).
  { subst w. destruct (Z.eqb_spec status globalCommitCommitted) as [Hc|Hc].
    - split_and!; try done. intros _. destruct (Hcom Hc) as [Hjx _]. cbn [fst]. rewrite Z3, Hjx, Hc, Henc2. done.
    - unfold write_intent, writeGlobalCommitJournal.
      change (with_status (with_status (sorted_intent intent) status) globalCommitCommitted)
        with (sorted_intent (with_status intent globalCommitCommitted)).
      rewrite encode_sorted by (apply with_status_valid; auto). rewrite Henc2.
      assert (interrupted (set_journal z (Some raw2))) as Hw.
      { destruct Hz as [Hz1 Hz2 Hz3 Hz4 _]. constructor; try done. exists globalCommitCommitted, raw2. by split_and!; auto. }
      destruct (io_commit io) eqn:Eio; cbn [fst snd fail_closed]; (split; [done|split; [done|split]]).
      + done.
      + split; [done|done].
      + by apply (interrupted_frame z).
      + split; [done|]. intros ->. done.
      + by apply (interrupted_frame (set_journal z (Some raw2))).
      + split; [done|]. intros ->. done. }
  destruct w as [v [[]|e]]; cbn [fst snd then_do] in *; injection E as <- <-.
  - destruct W3 as [V1 V2 _ V4 V5]. split.
    + constructor; try done. auto.
    + intros _. rewrite Henc2. cbn [ok_or]. split_and!; try done; [by apply W4|]. intros shard Hsh.
      destruct (Hpost shard Hsh) as (s0 & c0 & P1 & P2 & P3). exists s0, c0. cbn [rt_States set_recovery set_tip]. by rewrite W2.
  - split; [done|]. intros Hio. by specialize (W5 Hio).
Qed.

(** *** A commit under any failure *)

Context (Hjournal : rt_journalConfigured r = true).
Context (Heconomics : rt_economicCollector r = None /\ rt_economicEngine r = None /\ rt_pendingEconomic r = None).
Context (Hdom : forall shard, is_Some (rt_States r !! shard) <-> 0 <= shard < rt_ShardCount r).
Context (Hnonneg : forall shard, is_Some (cn_deltas candidate !! shard) -> 0 <= shard).

Lemma with_own_status : with_status intent globalCommitPreparing = intent.
Proof. destruct (intent_index _ _ _ _ _ _ _ Hpf Hbuild) as (_ & <- & _). by destruct intent. Qed.

(** Once the entry is written, the runtime is in an interrupted state. *)
Lemma prepared_interrupted raw x :
  encodeGlobalCommitJournal intent = Ok raw -> core x = core r -> rt_States x = rt_States r -> rt_journal x = Some raw ->
  interrupted x.
Proof.
  intros Henc Hc Hs Hj. unfold core in Hc. injection Hc as E1 E2 E3 E4 _ E5 E6 E7 E8 _ _ E9 E10.
  constructor; rewrite ?E1, ?E2, ?E3, ?E4, ?E5, ?E6, ?E7, ?E8, ?E9, ?E10; try done.
  - by left.
  - unfold stores_between, between. rewrite Hs. split; [|done]. intros shard Hsh. apply Hdom in Hsh as [s0 Hs0]. eauto.
  - exists globalCommitPreparing, raw. rewrite with_own_status. split_and!; auto. done.
Qed.

(** After all stores have been applied every shard has its certified root. *)
Lemma applied_at_post x y io :
  rt_States x = rt_States r -> apply_shards x io (cn_deltas candidate) commitments shards = (y, Ok tt) -> stores_between x ->
  stores_between y /\ forall shard, 0 <= shard < rt_ShardCount r -> at_post y shard.
Proof.
  intros Hs E Hst. destruct (changed_shards_spec (cn_deltas candidate)) as [Hnd Hel].
  rewrite <-(pf_shards _ _ _ _ Hpf) in Hnd, Hel.
  apply apply_between in E as (Hy & _ & _ & Hother & Hin); [|done| |done].
  2:{ intros shard Hin. apply Hel in Hin as Hd. split; [split; [by apply Hnonneg|by eapply pf_deltas]|]. by rewrite Hs. }
  split; [done|]. intros shard Hsh. destruct (Hmoved shard Hsh) as (pre & post & c & [M1 M2 M3 M4 M5]). exists post, c.
  split; [|done]. destruct (decide (shard ∈ shards)) as [Hi|Hi]; [by rewrite Hin|].
  rewrite Hother, Hs by done. destruct (cn_deltas candidate !! shard) as [delta|] eqn:Ed; [|by subst post].
  exfalso. apply Hi, Hel. by rewrite Ed.
Qed.

Lemma effects_cut io plan x out raw1 raw2 :
  pl_intent plan = Some intent -> pl_commitments plan = commitments -> pl_shards plan = shards ->
  encodeGlobalCommitJournal intent = Ok raw1 ->
  encodeGlobalCommitJournal (with_status intent globalCommitCommitted) = Ok raw2 ->
  commit_effects r io candidate validators plan = (x, out) ->
  match io_prepare io with
  | WriteLost => rt_States x = rt_States r /\ rt_journal x = rt_journal r /\ is_ok out = false
  | _ => interrupted x
  end.
Proof.
  intros Hpi Hpc Hps H1 H2 E. unfold commit_effects in E. rewrite Hpi, Hpc, Hps in E. unfold write_intent at 1 in E.
  unfold writeGlobalCommitJournal in E. rewrite H1 in E.
  assert (interrupted (set_journal r (Some raw1))) as Hi0 by (by apply (prepared_interrupted raw1)).
  destruct (io_prepare io); cbn [fail_closed then_do] in E.
  2:{ by injection E as <- <-. }
  2:{ injection E as <- <-. by apply (interrupted_frame (set_journal r (Some raw1))). }
  destruct (commit_history _ _ _ _) as [a oa] eqn:Ea. apply commit_history_frame in Ea as (A1 & A2 & A3).
  assert (interrupted a) as Ha by (by apply (interrupted_frame (set_journal r (Some raw1)))).
  destruct oa as [[]|]; cbn [then_do] in E; [|by injection E as <- _].
  destruct (apply_shards a _ _ _ _) as [b ob] eqn:Eb. pose proof (apply_shards_core _ _ _ _ _ _ _ Eb) as B1.
  assert (interrupted b) as Hb.
  { destruct (changed_shards_spec (cn_deltas candidate)) as [Hnd Hel]. rewrite <-(pf_shards _ _ _ _ Hpf) in Hnd, Hel.
    apply apply_between in Eb as (Y1 & _ & Y3 & _); [|done| |by apply in_stores].
    2:{ intros shard Hin. apply Hel in Hin as Hd. split; [split; [by apply Hnonneg|by eapply pf_deltas]|]. by rewrite A2. }
    pose proof B1 as Hc. rewrite A1 in Hc. unfold core in Hc. injection Hc as E1 E2 E3 E4 _ E5 E6 E7 E8 _ _ E9 E10.
    destruct Heconomics as (? & ? & ?).
    constructor; rewrite ?E1, ?E2, ?E3, ?E4, ?E5, ?E6, ?E7, ?E8, ?E9, ?E10; try done; [by left|].
    exists globalCommitPreparing, raw1. rewrite with_own_status, Y3, A3. split_and!; auto. done. }
  destruct ob as [[]|]; cbn [then_do] in E; [|by injection E as <- _].
  apply applied_at_post in Eb as [_ Hpost]; [|by rewrite A2|by apply in_stores].
  cbn [fmap option_fmap option_map] in E. unfold write_intent, writeGlobalCommitJournal in E. rewrite H2 in E.
  assert (interrupted (set_journal b (Some raw2))) as Hb2.
  { destruct Hb as [? ? ? ? _]. constructor; try done. exists globalCommitCommitted, raw2. split_and!; auto. }
  destruct (io_commit io); cbn [fail_closed then_do] in E.
  2:{ injection E as <- <-. by apply (interrupted_frame b). }
  2:{ injection E as <- <-. by apply (interrupted_frame (set_journal b (Some raw2))). }
  apply commit_anchor_frame in E as (C1 & C2 & C3). by apply (interrupted_frame (set_journal b (Some raw2))).
Qed.

Lemma commit_cut io plan x out raw1 raw2 :
  pl_intent plan = Some intent -> pl_commitments plan = commitments -> pl_shards plan = shards ->
  h_Height (pl_finalized plan) = h_Height (cn_Header candidate) ->
  pl_postParent plan = HeaderConsensusHash (cn_Header candidate) -> eo_collector (pl_economics plan) = None ->
  eo_engine (pl_economics plan) = None -> eo_pending (pl_economics plan) = None ->
  encodeGlobalCommitJournal intent = Ok raw1 ->
  encodeGlobalCommitJournal (with_status intent globalCommitCommitted) = Ok raw2 ->
  run_commit r io candidate validators plan = (x, out) ->
  match io_prepare io with
  | WriteLost => rt_States x = rt_States r /\ rt_journal x = rt_journal r
  | _ => interrupted x
  end.
Proof.
  intros Hpi Hpc Hps Hph Hpp He1 He2 He3 H1 H2 E. rewrite run_commit_eq in E.
  destruct (commit_effects _ _ _ _ _) as [y oy] eqn:Ey. pose proof Ey as Hcut. eapply effects_cut in Hcut; try done.
  destruct oy as [[]|]; cbn [then_do] in E; injection E as <- _; [|by destruct (io_prepare io) in Hcut |- *; [|destruct Hcut as (? & ? & ?)|]].
  rewrite Hph, Hpp, He1, He2, He3. cbn [keep_if_none].
  destruct (io_prepare io); [|by destruct Hcut as (_ & _ & ?)|]; destruct Hcut as [C1 (C2 & C3 & C4) C5 C6 C7];
    (constructor; try done; by right; left).
Qed.
End interrupted.

(** ** Crashes and restarts *)

(** A node that restarts opens its stores and its journal again. *)
Definition restart (x : Runtime) : res Runtime :=
  r ← NewRuntime (rt_Network x) (rt_NativeToken x) (rt_ValidatorRoot x) (rt_States x) (rt_Workers x);
  EnableGlobalCommitJournal r (rt_journal x).

(** The runtimes a commit can end in once its entry is in the journal: the
    commit stops anywhere, the node restarts, a recovery stops anywhere. *)
Inductive crashed (r : Runtime) (sg : Scheduling) (candidate : Candidate) (certificate : Certificate)
    (validators : ValidatorSet) : Runtime -> Prop :=
  | cr_commit io x out :
      Commit r io sg candidate certificate validators = (x, out) -> io_prepare io <> WriteLost ->
      crashed r sg candidate certificate validators x
  | cr_restart x y :
      crashed r sg candidate certificate validators x -> restart x = Ok y -> crashed r sg candidate certificate validators y
  | cr_recover x io registry config y out :
      crashed r sg candidate certificate validators x ->
      RecoverGlobalCommitJournal x io validators registry config = (y, out) ->
      crashed r sg candidate certificate validators y.

(** A runtime with a journal and without shadow economics, all of whose fields
    are values of their Go types; the journal format has room for a million
    shards. *)
Record durable (r : Runtime) : Prop := {
  du_journal : rt_journalConfigured r = true;
  du_economics : rt_economicCollector r = None /\ rt_economicEngine r = None /\ rt_pendingEconomic r = None;
  du_stores : forall shard, is_Some (rt_States r !! shard) <-> 0 <= shard < rt_ShardCount r;
  du_count : 0 < rt_ShardCount r <= 1000000;
  du_ids : arr32 (rt_Network r) /\ arr32 (rt_NativeToken r) /\ arr32 (rt_ValidatorRoot r) /\ arr32 (rt_ParentHash r);
  du_height : u64 (rt_Height r);
}.
Record certified_typed (candidate : Candidate) (certificate : Certificate) (validators : ValidatorSet) : Prop := {
  ct_header : GlobalHeader_ok (cn_Header candidate);
  ct_commitments : Forall Commitment_typed (cn_Commitments candidate);
  ct_consumed : forall shard delta, cn_deltas candidate !! shard = Some delta -> Forall arr32 (dl_Consumed delta);
  ct_certificate : Certificate_typed certificate;
  ct_validators : ValidatorSet_typed validators;
}.

Lemma arr32_root_spec vs : arr32 (root_spec vs).
Proof.
  unfold root_spec. generalize Depth as n, zero32 as p. intros [|n] p; cbn [node_spec]; [|apply arr32_DomainHash].
  destruct (vs !! p); apply arr32_DomainHash.
Qed.

Lemma built_intent_typed (r : Runtime) sg candidate certificate validators commitments shards checkpoint intent :
  durable r -> certified_typed candidate certificate validators -> commit_inputs r sg candidate ->
  preflighted r candidate commitments shards ->
  buildGlobalCommitIntent r candidate certificate commitments checkpoint = Ok intent -> intent_typed intent.
Proof.
  intros Hd Hct Hci Hpf E. apply bind_Ok in E as ([] & _ & E). apply bind_Ok in E as (ds & Hds & E).
  apply bind_Ok in E as ([] & _ & E). apply Ok_inj in E. subst intent. destruct (du_ids r Hd) as (I1 & I2 & I3 & I4).
  pose proof (du_count r Hd) as Hn.
  constructor; cbn; try apply Hct; try done.
  - split; [unfold u32; lia|apply Hd].
  - apply journal_deltas_Ok in Hds as (l & -> & Hl). cbn [app]. rewrite Forall_lookup. intros k d Hk.
    destruct (Forall2_lookup_r _ _ _ _ _ Hl Hk) as (shard & Hsh & c & store & Hc & Hs & ->).
    apply list_elem_of_lookup_2, (proj2 (changed_shards_spec _)) in Hsh as [delta Hdl]. rewrite Hdl.
    change (default (mkDelta [] []) (Some delta)) with delta. destruct (ci_deltas _ _ _ Hci _ _ Hdl) as [Hge Hty].
    assert (shard < rt_ShardCount r) by (eapply pf_deltas; [done|by eexists]).
    apply (pf_commitments _ _ _ _ Hpf) in Hc as [Hc _].
    pose proof (proj1 (Forall_forall _ _) (ct_commitments _ _ _ Hct) c Hc) as (_ & Hroot & _).
    split_and!; cbn; [unfold u32; lia|rewrite bs_root by (by eapply ci_stores); apply arr32_root_spec|done|by eapply ct_consumed|done].
Qed.

(** The plan of a commit that succeeds, and the stores it reaches. *)
Lemma completed_commit (r r1 : Runtime) sg candidate certificate validators finalized :
  commit_inputs r sg candidate -> durable r ->
  Commit r io_ok sg candidate certificate validators = (r1, Ok finalized) ->
  exists plan intent raw1 raw2,
    prepare_commit r sg candidate certificate validators = Ok plan /\
    prepared r candidate certificate validators plan /\ pl_intent plan = Some intent /\
    buildGlobalCommitIntent r candidate certificate (pl_commitments plan) [] = Ok intent /\
    pl_economics plan = mkOutcome None None None (rt_economicBalances r) /\
    encodeGlobalCommitJournal intent = Ok raw1 /\
    encodeGlobalCommitJournal (with_status intent globalCommitCommitted) = Ok raw2 /\ rt_journal r1 = Some raw2 /\
    rt_Height r1 = h_Height (cn_Header candidate) /\ rt_ParentHash r1 = HeaderConsensusHash (cn_Header candidate) /\
    forall shard, 0 <= shard < rt_ShardCount r ->
      exists pre post c, shard_moved r r1 candidate (pl_commitments plan) shard pre post c.
Proof.
  intros Hci Hd. unfold Commit. destruct (prepare_commit _ _ _ _ _) as [plan|] eqn:Ep; [|done].
  apply prepare_commit_Ok in Ep as Hp; [|by apply Hci]. rewrite run_commit_eq. intros E.
  apply then_do_Ok in E as (x & Ex & E). injection E as <- _. pose proof (pp_intent _ _ _ _ _ Hp) as Hint.
  rewrite (du_journal r Hd) in Hint. destruct Hint as (ck & intent & Hck & Hbuild & Hpi).
  destruct (du_economics r Hd) as (Hec & Hen & Hpe).
  assert (pl_economics plan = mkOutcome None None None (rt_economicBalances r)) as Heco.
  { pose proof (pp_economics _ _ _ _ _ Hp) as He. unfold preview_economics, preview_collector, preview_engine in He.
    rewrite Hec, Hen, Hpe in He. by injection He. }
  rewrite Heco in Hck. apply Ok_inj in Hck. subst ck.
  unfold commit_effects in Ex. rewrite Hpi in Ex. apply then_do_Ok in Ex as (a & Ea & Ex).
  apply then_do_Ok in Ex as (b & Eb & Ex). apply then_do_Ok in Ex as (c & Ec & Ex). apply then_do_Ok in Ex as (d & Ed & Ex).
  pose proof Ea as [A1 A2]%write_intent_frame. apply commit_history_frame in Eb as (B1 & B2 & B3).
  pose proof (apply_shards_core _ _ _ _ _ _ _ Ec) as C1. pose proof Ed as [D1 D2]%write_intent_frame.
  apply commit_anchor_frame in Ex as (X1 & X2 & X3).
  unfold write_intent, writeGlobalCommitJournal in Ea. destruct (encodeGlobalCommitJournal intent) as [raw1|] eqn:H1; [|done].
  unfold write_intent, writeGlobalCommitJournal in Ed. cbn [fmap option_fmap option_map] in Ed.
  destruct (encodeGlobalCommitJournal (with_status intent globalCommitCommitted)) as [raw2|] eqn:H2; [|done].
  injection Ed as <-. exists plan, intent, raw1, raw2. split_and!; try done.
  - cbn [rt_Height set_tip]. by rewrite (pp_finalized _ _ _ _ _ Hp).
  - cbn [rt_ParentHash set_tip]. apply Hp.
  - intros shard Hsh.
    assert (core b = core r) as Hb1 by congruence. assert (rt_States b = rt_States r) as Hb2 by congruence.
    destruct (shards_moved b c sg io_ok candidate _ _ (commit_inputs_core _ _ _ _ Hb1 Hb2 Hci)
      (preflighted_core _ _ _ _ _ Hb1 Hb2 (pp_preflight _ _ _ _ _ Hp)) Ec shard) as (pre & post & cm & [M1 M2 M3 M4 M5]).
    { replace (rt_ShardCount b) with (rt_ShardCount r) by (by injection Hb1). done. }
    exists pre, post, cm. constructor; try done; [by rewrite <-Hb2|]. cbn [rt_States set_tip set_economics].
    by rewrite X2, D2.
Qed.

Lemma size_range {V} (m : gmap Z V) n : 0 <= n -> (forall k, is_Some (m !! k) <-> 0 <= k < n) -> Z.of_nat (size m) = n.
Proof.
  intros Hn Hm. rewrite <-(size_dom (D := gset Z)). assert (dom m = list_to_set (C := gset Z) (seqZ 0 n)) as ->.
  { apply set_eq. intros k. rewrite elem_of_dom, Hm, elem_of_list_to_set, elem_of_seqZ. lia. }
  rewrite size_list_to_set by apply NoDup_seqZ. rewrite length_seqZ. lia.
Qed.

Lemma restart_interrupted (r r1 : Runtime) candidate certificate commitments shards intent x :
  preflighted r candidate commitments shards ->
  buildGlobalCommitIntent r candidate certificate commitments [] = Ok intent -> 0 < rt_ShardCount r <= 1000000 ->
  interrupted r r1 candidate commitments intent x ->
  exists y, restart x = Ok y /\ interrupted r r1 candidate commitments intent y.
Proof.
  intros Hpf Hb Hn [(C1 & C2 & C3 & C4 & C5) _ _ Hst Hj].
  destruct (intent_names r candidate certificate commitments intent Hb) as (N1 & N2 & N3 & _ & _ & _ & _ & _ & _ & Hv).
  destruct (iv_ids _ Hv) as (Z1 & Z2 & Z3). unfold restart, NewRuntime. rewrite C1, C2, C3, <-N1, <-N2, <-N3, Z1, Z2, Z3.
  pose proof (size_range (rt_States x) (rt_ShardCount r) ltac:(lia) (proj2 Hst)) as Hsize. rewrite Hsize.
  assert ((rt_ShardCount r =? 0) = false) as -> by lia. cbn [orb fail_if mbind res_bind].
  rewrite uint32_small by (unfold u32; lia).
  assert (rfold (fun _ shard => fail_if (negb (bool_decide (is_Some (rt_States x !! shard)))) ErrRuntimeConfig) tt
            (shard_range (rt_ShardCount r)) = Ok tt) as ->.
  { apply rfold_unit_all, Forall_forall. intros shard Hin%elem_of_shard_range.
    rewrite bool_decide_eq_true_2; [done|]. by apply Hst. }
  cbn [mbind res_bind]. eexists. split; [reflexivity|]. constructor; cbn; try done. by right; right.
Qed.

(** Every runtime that a crash can leave behind is in an interrupted state of the
    commit. *)
Lemma crash_interrupted (r r1 : Runtime) sg candidate certificate validators finalized :
  commit_inputs r sg candidate -> durable r -> certified_typed candidate certificate validators ->
  Commit r io_ok sg candidate certificate validators = (r1, Ok finalized) ->
  exists plan intent raw2,
    prepare_commit r sg candidate certificate validators = Ok plan /\ pl_intent plan = Some intent /\
    preflighted r candidate (pl_commitments plan) (pl_shards plan) /\
    buildGlobalCommitIntent r candidate certificate (pl_commitments plan) [] = Ok intent /\ intent_typed intent /\
    s_Network validators = rt_Network r /\ ValidatorSet_Root validators = Ok (rt_ValidatorRoot r) /\
    VerifyCertificate validators certificate = Ok tt /\
    encodeGlobalCommitJournal (with_status intent globalCommitCommitted) = Ok raw2 /\ rt_journal r1 = Some raw2 /\
    rt_Height r1 = h_Height (cn_Header candidate) /\ rt_ParentHash r1 = HeaderConsensusHash (cn_Header candidate) /\
    (forall shard, 0 <= shard < rt_ShardCount r ->
      exists pre post c, shard_moved r r1 candidate (pl_commitments plan) shard pre post c) /\
    (forall io x out, Commit r io sg candidate certificate validators = (x, out) ->
      match io_prepare io with
      | WriteLost => rt_States x = rt_States r /\ rt_journal x = rt_journal r
      | _ => interrupted r r1 candidate (pl_commitments plan) intent x
      end) /\
    (forall x, crashed r sg candidate certificate validators x -> interrupted r r1 candidate (pl_commitments plan) intent x).
Proof.
  intros Hci Hd Hct E. pose proof (du_count r Hd) as Hn.
  destruct (completed_commit _ _ _ _ _ _ _ Hci Hd E)
    as (plan & intent & raw1 & raw2 & Ep & Hp & Hpi & Hb & Heco & He1 & He2 & Hj1 & Hh1 & Hp1 & Hmoved).
  pose proof (pp_preflight _ _ _ _ _ Hp) as Hpf.
  pose proof (built_intent_typed _ _ _ _ _ _ _ _ _ Hd Hct Hci Hpf Hb) as Hty.
  destruct (pp_certificate _ _ _ _ _ Hp) as (Hcert & _ & _ & Hcnet). destruct (pp_validators _ _ _ _ _ Hp) as [Hvr Hvr'].
  rewrite Hvr' in Hvr. assert (s_Network validators = rt_Network r) as Hnet.
  { destruct (VerifyCertificate_Ok validators certificate (ct_validators _ _ _ Hct) Hcert) as (_ & Heq & _). congruence. }
  assert (forall io x out, Commit r io sg candidate certificate validators = (x, out) ->
    match io_prepare io with
    | WriteLost => rt_States x = rt_States r /\ rt_journal x = rt_journal r
    | _ => interrupted r r1 candidate (pl_commitments plan) intent x
    end) as Hcut.
  { intros io x out Hc. unfold Commit in Hc. rewrite Ep in Hc.
    apply (commit_cut r r1 candidate certificate validators (pl_commitments plan) (pl_shards plan) intent Hpf Hb Hmoved)
      with (plan := plan) (raw1 := raw1) (raw2 := raw2) (out := out); try done; try apply Hd; try apply Hp; try (by rewrite Heco).
    - intros shard [delta Hdl]. by eapply ci_deltas.
    - by rewrite (pp_finalized _ _ _ _ _ Hp). }
  assert (is_ok (encodeGlobalCommitJournal (with_status intent globalCommitCommitted)) = true) as Hok by (by rewrite He2).
  pose proof (recover_step r r1 candidate certificate validators (pl_commitments plan) (pl_shards plan) intent Hpf Hb Hmoved
    Hn Hty Hvr Hnet Hcert) as Hstep.
  assert (forall x, crashed r sg candidate certificate validators x ->
            interrupted r r1 candidate (pl_commitments plan) intent x) as Hinv.
  { induction 1 as [io x out Hc Hlost|x y _ IH Hr|x io registry config y out _ IH Hr].
    - apply Hcut in Hc. by destruct (io_prepare io).
    - destruct (restart_interrupted _ _ _ _ _ _ _ _ Hpf Hb Hn IH) as (y' & Hy' & Hi). rewrite Hr in Hy'. by injection Hy' as ->.
    - by eapply Hstep. }
  exists plan, intent, raw2. split_and!; done.
Qed.

(** C1: a crash never loses or duplicates a commit of a node without shadow
    economics.  Take a node that keeps a journal, that has no economic collector,
    engine or pending epoch (the checkpoint of these is not modelled) and at most
    1,000,000 shards (what the reader of the journal accepts), and a commit of well
    typed values that would succeed if no write failed.  If it is cut short before its journal entry is
    on disk, no store has changed.  Once the entry is on disk, then wherever the
    commit stops, however often the node restarts, and wherever attempts to
    recover stop in turn, one more recovery without a failing write completes the
    commit: the runtime ends on the finalized tip, with the journal marked
    committed, ready to go on, and in every shard the root is that of the commit
    that was never interrupted; a store that is not the very store of that
    commit is the untouched store, of the same root.  The node can always be
    restarted. *)
Theorem crash_recovery (r r1 : Runtime) (sg : Scheduling) (candidate : Candidate) (certificate : Certificate)
    (validators : ValidatorSet) (finalized : GlobalHeader) :
  commit_inputs r sg candidate -> durable r -> certified_typed candidate certificate validators ->
  Commit r io_ok sg candidate certificate validators = (r1, Ok finalized) ->
  (forall io x out, Commit r io sg candidate certificate validators = (x, out) -> io_prepare io = WriteLost ->
     rt_States x = rt_States r /\ rt_journal x = rt_journal r) /\
  (forall x, crashed r sg candidate certificate validators x ->
     is_ok (restart x) = true /\
     forall registry config, exists y,
       RecoverGlobalCommitJournal x io_ok validators registry config = (y, Ok tt) /\
       rt_Height y = rt_Height r1 /\ rt_ParentHash y = rt_ParentHash r1 /\ rt_journal y = rt_journal r1 /\
       RecoveryRequired y = false /\
       forall shard, 0 <= shard < rt_ShardCount r ->
         exists s s1, rt_States y !! shard = Some s /\ rt_States r1 !! shard = Some s1 /\ backend_Root s = backend_Root s1 /\
           (s = s1 \/ rt_States r !! shard = Some s)).
Proof.
  intros Hci Hd Hct E. pose proof (du_count r Hd) as Hn.
  destruct (crash_interrupted _ _ _ _ _ _ _ Hci Hd Hct E) as (plan & intent & raw2 & _ & _ & Hpf & Hb & Hty & Hnet & Hvr & Hcert &
    He2 & Hj1 & Hh1 & Hp1 & Hmoved & Hcut & Hinv).
  split.
  { intros io x out Hc Hlost. apply Hcut in Hc. by rewrite Hlost in Hc. }
  assert (is_ok (encodeGlobalCommitJournal (with_status intent globalCommitCommitted)) = true) as Hok by (by rewrite He2).
  pose proof (recover_step r r1 candidate certificate validators (pl_commitments plan) (pl_shards plan) intent Hpf Hb Hmoved
    Hn Hty Hvr Hnet Hcert) as Hstep.
  intros x Hx%Hinv. split.
  { destruct (restart_interrupted _ _ _ _ _ _ _ _ Hpf Hb Hn Hx) as (y & -> & _). done. }
  intros registry config. destruct (RecoverGlobalCommitJournal x io_ok validators registry config) as [y out] eqn:Hr.
  destruct (Hstep _ _ _ _ _ _ Hx Hok Hr) as [Hy Hfin]. destruct (Hfin eq_refl) as (-> & Hrec & Hh & Hpar & Hjy & Hat).
  exists y. rewrite Hj1, Hh1, Hp1, Hjy, He2. split_and!; try done. intros shard Hsh.
  destruct (Hat shard Hsh) as (s & c & S1 & S2 & S3). destruct (proj1 (in_stores _ _ _ _ _ _ Hy) shard Hsh) as (s' & S1' & Hw).
  rewrite S1 in S1'. injection S1' as <-. destruct (Hmoved shard Hsh) as (pre & post & c' & [M1 M2 M3 M4 M5]).
  rewrite S2 in M3. injection M3 as <-. exists s, post. split_and!; try done; [congruence|].
  destruct Hw as [Hw|Hw]; [by right|left; congruence].
Qed.
End recovery.

(** ** Two nodes *)

Section agreement.
Context `{HC : Crypto} `{HM : MapOrder} `{HH : ScriptHost} `{HI : IdleCapital} `{HF : FinalityStores}.
Context {St : Type} `{HB : Backend St} `{HS : Simulator St} `{HE : !EconomicCheckpoint} `{!BackendSpec St}.

(** Two lists of commitments under one root agree on every shard, or their
    Merkle inputs collide. *)
Lemma commitments_agree cs ds root c d :
  blen cs < 2 ^ 32 -> blen ds < 2 ^ 32 -> Forall Commitment_typed cs -> Forall Commitment_typed ds ->
  CommitmentRoot cs = Ok root -> CommitmentRoot ds = Ok root -> c ∈ cs -> d ∈ ds -> ShardID c = ShardID d ->
  c = d \/ exists p, CommitmentProof cs (ShardID c) = Ok (c, p) /\
    inputs_collide (verify_inputs (str "shard-commitment") (Commitment_CanonicalBytes c) p) (commitment_root_inputs ds).
Proof.
  intros Hn Hm Ht Ht' Hc Hd Hin Hin' Hid. destruct (CommitmentProof_spec cs root c Hn Hc Hin) as (p & Hp & Hv).
  pose proof (proj1 (Forall_forall _ _) Ht c Hin) as Htc.
  destruct (Verify_commitment ds root c p) as [Hcd|Hcol]; [lia|done|done|done|done| |right; by exists p].
  left. apply bind_Ok in Hd as (l & (Hperm & Hnd & _)%sortedCommitments_Ok & _). rewrite Hperm in Hnd.
  apply list_elem_of_lookup in Hcd as [i Hi], Hin' as [j Hj].
  assert (i = j) as ->; [|congruence]. apply (NoDup_lookup (ShardID <$> ds) i j (ShardID c)); [done|..].
  - by rewrite list_lookup_fmap, Hi.
  - by rewrite list_lookup_fmap, Hj, Hid.
Qed.

(** C3: certified nodes agree on the state.  Two nodes that commit at the same
    height candidates with certificates of the same round by the same
    validators, of which validators with at most a third of the power voted
    twice, end on the same tip and with the same state root in every shard,
    whatever candidates they were given and whatever their schedules; otherwise
    the two headers, or the commitments under their common root, exhibit a
    SHA-256 collision. *)
Theorem nodes_agree (a a' b b' : Node.Runtime (St := St)) (io1 io2 : CommitIO) (sg1 sg2 : Scheduling) (x y : Candidate)
    (c1 c2 : Certificate) (validators : ValidatorSet) (f1 f2 : GlobalHeader) :
  commit_inputs a sg1 x -> commit_inputs b sg2 y -> certified_typed x c1 validators -> certified_typed y c2 validators ->
  rt_ShardCount a = rt_ShardCount b -> rt_ShardCount a < 2 ^ 32 -> rt_Height a = rt_Height b ->
  Commit a io1 sg1 x c1 validators = (a', Ok f1) -> Commit b io2 sg2 y c2 validators = (b', Ok f2) ->
  c_Round c1 = c_Round c2 -> 3 * powers (equivocators validators c1 c2) <= powers (s_Validators validators) ->
  (rt_Height a' = rt_Height b' /\ rt_ParentHash a' = rt_ParentHash b' /\
   forall shard, 0 <= shard < rt_ShardCount a ->
     exists s t, rt_States a' !! shard = Some s /\ rt_States b' !! shard = Some t /\
       (backend_Root s = backend_Root t \/
        exists c p, CommitmentProof (cn_Commitments x) shard = Ok (c, p) /\
          inputs_collide (verify_inputs (str "shard-commitment") (Commitment_CanonicalBytes c) p)
            (commitment_root_inputs (cn_Commitments y)))) \/
  (header_input (cn_Header x) <> header_input (cn_Header y) /\
   sha256 (header_input (cn_Header x)) = sha256 (header_input (cn_Header y))).
Proof.
  intros Hi1 Hi2 Ht1 Ht2 Hcnt Hlt Hh E1 E2 Hround Hfew.
  destruct (Commit_Ok _ _ _ _ _ _ _ _ Hi1 E1) as (p1 & P1 & -> & A1 & A2 & _ & A4).
  destruct (Commit_Ok _ _ _ _ _ _ _ _ Hi2 E2) as (p2 & P2 & -> & B1 & B2 & _ & B4).
  destruct (pp_certificate _ _ _ _ _ P1) as (V1 & H1 & G1 & _), (pp_certificate _ _ _ _ _ P2) as (V2 & H2 & G2 & _).
  pose proof (pp_height _ _ _ _ _ P1) as L1. pose proof (pp_height _ _ _ _ _ P2) as L2.
  assert (c_HeaderHash c1 = c_HeaderHash c2) as Heq.
  { apply (same_round_same_header validators); try done; [apply Ht1|congruence]. }
  rewrite H1, H2 in Heq.
  destruct (HeaderConsensusHash_binding _ _ (ct_header _ _ _ Ht1) (ct_header _ _ _ Ht2) Heq) as [Hsame|Hcol]; [left|by right].
  rewrite A1, B1, A2, B2, !HeaderConsensusHash_certificate. cbn [with_certificate h_Height].
  split; [congruence|]. split; [done|]. intros shard Hs.
  destruct (A4 shard Hs) as (_ & s & c & _ & S1 & _ & _ & S2 & S3 & S4).
  destruct (B4 shard) as (_ & t & d & _ & T1 & _ & _ & T2 & T3 & T4); [by rewrite <-Hcnt|].
  exists s, t. split; [done|]. split; [done|].
  pose proof (pf_root _ _ _ _ (pp_preflight _ _ _ _ _ P1)) as R1. pose proof (pf_root _ _ _ _ (pp_preflight _ _ _ _ _ P2)) as R2.
  apply (f_equal h_ShardCommitmentRoot) in Hsame. cbn in Hsame. rewrite <-Hsame in R2.
  destruct (commitments_agree (cn_Commitments x) (cn_Commitments y) (h_ShardCommitmentRoot (cn_Header x)) c d)
    as [->|(p & Hp & Hcol)]; try done; [..|congruence| |].
  - by rewrite (pf_count _ _ _ _ (pp_preflight _ _ _ _ _ P1)).
  - rewrite (pf_count _ _ _ _ (pp_preflight _ _ _ _ _ P2)). by rewrite <-Hcnt.
  - apply Ht1.
  - apply Ht2.
  - left. congruence.
  - right. exists c, p. rewrite S3 in Hp. done.
Qed.
End agreement.

(** ** A commit whose store write fails, and its recovery *)

Module RecoveryExample.
#[local] Existing Instance small_crypto.
#[local] Existing Instance some_order.
#[local] Existing Instance Example.host.
#[local] Existing Instance NodeExample.no_capital.
#[local] Existing Instance NodeExample.no_stores.
#[local] Existing Instance NodeExample.no_checkpoint.

Definition is32 (b : bytes) : bool := blen b =? 32.
Definition typed (c : Candidate) : bool :=
  let h := cn_Header c in
  forallb is32 [h_Network h; h_ParentHash h; h_ShardCommitmentRoot h; h_ValidatorRoot h; h_NextValidatorRoot h; h_DataRoot h;
    h_CertificateHash h]
  && negb (IsZero32 (h_Network h) || IsZero32 (h_ShardCommitmentRoot h) || IsZero32 (h_ValidatorRoot h))
  && forallb (fun c => forallb is32 [StateRoot c; ReceiptRoot c; DataRoot c]) (cn_Commitments c).
Definition completed : bool :=
  typed NodeExample.creation
  && is_ok (Commit (NodeExample.fresh_runtime true) io_ok (NodeExample.schedule [0; 1]) NodeExample.creation
              (NodeExample.certificate (cn_Header NodeExample.creation)) sample_set).2.
Lemma completed_ok : completed = true.
Proof. vm_compute. reflexivity. Qed.

Lemma is32_ok b : is32 b = true -> arr32 b.
Proof. unfold is32. rewrite blen32. lia. Qed.
Lemma typed_ok c : typed c = true -> h_Version (cn_Header c) = 2 -> 0 < h_Height (cn_Header c) < 2 ^ 64 ->
  Forall (fun c => u32 (ShardID c)) (cn_Commitments c) ->
  GlobalHeader_ok (cn_Header c) /\ Forall Commitment_typed (cn_Commitments c).
Proof.
  unfold typed. cbv zeta. intros [[Hh Hz]%andb_true_iff Hc]%andb_true_iff Hv H9 Hs. cbn [forallb] in Hh.
  repeat (apply andb_true_iff in Hh as [?%is32_ok Hh]). apply negb_true_iff in Hz. split.
  - unfold GlobalHeader_ok. rewrite Hv. unfold u64. split_and!; try done; lia.
  - rewrite forallb_forall in Hc. rewrite Forall_forall in Hs |- *. intros x Hx. specialize (Hs x Hx).
    apply list_elem_of_In, Hc in Hx. cbn [forallb] in Hx. repeat (apply andb_true_iff in Hx as [?%is32_ok Hx]). by split_and!.
Qed.

Lemma created_typed : Forall Object_typed [NodeExample.created].
Proof. apply Forall_singleton. repeat split; vm_compute; (reflexivity || discriminate). Qed.
Lemma creation_delta shard delta :
  cn_deltas NodeExample.creation !! shard = Some delta -> shard = 1 /\ delta = mkDelta [] [NodeExample.created].
Proof. cbn [cn_deltas NodeExample.creation]. by intros [<- <-]%lookup_singleton_Some. Qed.
Lemma fresh_states journal shard s :
  rt_States (NodeExample.fresh_runtime journal) !! shard = Some s <-> (shard = 0 \/ shard = 1) /\ s = NewMemory.
Proof.
  cbn [rt_States NodeExample.fresh_runtime]. rewrite lookup_insert_Some, lookup_singleton_Some. naive_solver.
Qed.
Lemma inputs : commit_inputs (NodeExample.fresh_runtime true) (NodeExample.schedule [0; 1]) NodeExample.creation.
Proof.
  constructor.
  - apply NodeExample.shards_in; repeat constructor.
  - intros shard s [_ ->]%fresh_states. exact NewMemory_inv.
  - intros shard delta [-> ->]%creation_delta. split; [discriminate|exact created_typed].
Qed.
Lemma validator_root_typed : arr32 sample_validator_root.
Proof. vm_compute. reflexivity. Qed.
Lemma runtime_durable : durable (NodeExample.fresh_runtime true).
Proof.
  constructor; cbn [rt_journalConfigured NodeExample.fresh_runtime rt_economicCollector rt_economicEngine rt_pendingEconomic
    rt_ShardCount rt_Network rt_NativeToken rt_ValidatorRoot rt_ParentHash rt_Height]; try done.
  - intros shard. split.
    + intros [s [[-> | ->] _]%fresh_states]; lia.
    + intros Hs. exists NewMemory. apply (fresh_states true). split; [lia|done].
Qed.
Lemma shard_ids : Forall (fun c => u32 (ShardID c)) NodeExample.commitments.
Proof.
  unfold NodeExample.commitments. apply Forall_cons. split; [cbn [ShardID]; unfold u32; lia|].
  apply Forall_singleton. cbn [ShardID]. unfold u32. lia.
Qed.
Lemma certificate_typed h : Certificate_typed (NodeExample.certificate h).
Proof.
  unfold Certificate_typed, NodeExample.certificate. cbn [c_Network c_Height c_Round c_HeaderHash c_Votes].
  split; [done|]. split; [done|]. split; [done|]. split; [apply arr32_DomainHash|]. apply Forall_fmap, Forall_forall.
  intros i _. split; [done|]. split; [done|]. split; [done|]. split; [apply arr32_DomainHash|].
  cbn [vt_Voter]. unfold sample_validator. cbn [v_ID]. apply arr32_DomainHash.
Qed.
End RecoveryExample.

Section recovery_witness.
#[local] Existing Instance small_crypto.
#[local] Existing Instance some_order.
#[local] Existing Instance Example.host.
#[local] Existing Instance NodeExample.no_capital.
#[local] Existing Instance NodeExample.no_stores.
#[local] Existing Instance NodeExample.no_checkpoint.

Lemma creation_completed :
  certified_typed NodeExample.creation (NodeExample.certificate (cn_Header NodeExample.creation)) sample_set /\
  exists r1 finalized,
    Commit (NodeExample.fresh_runtime true) io_ok (NodeExample.schedule [0; 1]) NodeExample.creation
      (NodeExample.certificate (cn_Header NodeExample.creation)) sample_set = (r1, Ok finalized).
Proof.
  pose proof RecoveryExample.completed_ok as Hok. unfold RecoveryExample.completed in Hok. apply andb_true_iff in Hok as [Ht Hok].
  destruct (RecoveryExample.typed_ok _ Ht) as [Hh Hc]; [reflexivity|cbn [cn_Header NodeExample.creation h_Height]; lia|exact RecoveryExample.shard_ids|].
  split.
  - constructor; [exact Hh|exact Hc| |apply RecoveryExample.certificate_typed|exact sample_set_typed].
    intros shard delta [_ ->]%RecoveryExample.creation_delta. constructor.
  - destruct (Commit (NodeExample.fresh_runtime true) io_ok _ _ _ _) as [r1 [finalized|]]; [eauto|discriminate Hok].
Qed.

Lemma crash_recovery_witness :
  exists x y config,
    (Commit (NodeExample.fresh_runtime true) NodeExample.failing (NodeExample.schedule [0; 1]) NodeExample.creation
      (NodeExample.certificate (cn_Header NodeExample.creation)) sample_set).1 = x /\
    RecoverGlobalCommitJournal x io_ok sample_set None config = (y, Ok tt) /\ RecoveryRequired y = false.
Proof.
  destruct creation_completed as (Hct & r1 & finalized & E).
  destruct (Commit (NodeExample.fresh_runtime true) NodeExample.failing (NodeExample.schedule [0; 1]) NodeExample.creation
      (NodeExample.certificate (cn_Header NodeExample.creation)) sample_set) as [x out] eqn:Ex.
  destruct (crash_recovery _ _ _ _ _ _ _ RecoveryExample.inputs RecoveryExample.runtime_durable Hct E) as [_ Hrec].
  assert (io_prepare NodeExample.failing <> WriteLost) as Hp by discriminate.
  destruct (Hrec x (cr_commit _ _ _ _ _ _ _ _ Ex Hp)) as [_ Hr].
  destruct (Hr None EconomyExample.config) as (y & Hy & _ & _ & _ & Hd & _).
  exists x, y, EconomyExample.config. exact (conj eq_refl (conj Hy Hd)).
Defined.

Lemma nodes_agree_witness :
  exists r1 finalized s t,
    Commit (NodeExample.fresh_runtime true) io_ok (NodeExample.schedule [0; 1]) NodeExample.creation
      (NodeExample.certificate (cn_Header NodeExample.creation)) sample_set = (r1, Ok finalized) /\
    (rt_States r1 !! 1 = Some s /\ rt_States r1 !! 1 = Some t \/
     sha256 (header_input (cn_Header NodeExample.creation)) = sha256 (header_input (cn_Header NodeExample.creation))).
Proof.
  destruct creation_completed as (Hct & r1 & finalized & E). exists r1, finalized.
  assert (VerifyCertificate sample_set (NodeExample.certificate (cn_Header NodeExample.creation)) = Ok tt) as Hv.
  { destruct (Commit_Ok _ _ _ _ _ _ _ _ RecoveryExample.inputs E) as (p & P & _). apply (pp_certificate _ _ _ _ _ P). }
  assert (3 * powers (equivocators sample_set (NodeExample.certificate (cn_Header NodeExample.creation))
                        (NodeExample.certificate (cn_Header NodeExample.creation))) <= powers (s_Validators sample_set)) as Hfew.
  { rewrite (equivocators_self _ _ sample_set_typed Hv). discriminate. }
  destruct (nodes_agree _ _ _ _ _ _ _ _ _ _ _ _ _ _ _ RecoveryExample.inputs RecoveryExample.inputs Hct Hct eq_refl eq_refl eq_refl
    E E eq_refl Hfew) as [(_ & _ & Hs)|(_ & Hc)].
  - destruct (Hs 1) as (s & t & Hs1 & Ht1 & _); [split; [discriminate|reflexivity]|]. exists s, t.
    exact (conj E (or_introl (conj Hs1 Ht1))).
  - exists NewMemory, NewMemory. exact (conj E (or_intror Hc)).
Defined.
End recovery_witness.
