(* ===== verification/NodeHistory.v ===== *)
(** * NodeHistory

    Package [internal/v2/node], the two append-only files beside the commit
    journal: the certified history ([certified_history.go]), which holds every
    certified commit since the genesis, and the finality anchor
    ([finality_anchor_store.go]), the high-water mark of the finalised headers
    in another failure domain.  They implement the interface [FinalityStores]
    of the runtime.  Last, the recovery of a runtime from them
    ([certified_history.go], [genesis_successor_recovery.go]).

    A file is its bytes, [None] if it does not exist; it is opened to append.
    A write or sync that fails may have put any number of bytes of the record
    on disk ([io_outcome]).  Locks, permissions and directories belong to the
    operating system: one process owns a file, as the lock ensures. *)

From S2P Require Import Prelude GoLib Codec Crypto Types Merkle Object Sharding Tx Consensus.
From S2P Require Import ComputeWork Contracts Execution ExecutionExtended Worldstate Batch.
From S2P Require Import EconomicsPolicy EconomicsEpoch EconomicsCollector EconomicsEngine Node NodeJournal.

Open Scope Z_scope.

Definition certifiedHistoryMagic : bytes := str "ZFH2".
Definition maxCertifiedHistoryBytes : Z := Z.shiftl 512 20.
Definition maxCertifiedHistoryRecords : Z := 4096.

Definition finalityAnchorMagic : bytes := str "ZFA2".
Definition finalityAnchorHeaderSize : Z := 68.
Definition finalityAnchorRecordSize : Z := 104.
Definition maxFinalityAnchorRecords : Z := 4096.

(** [file.Write(raw)] and [file.Sync()] *)
Definition append_file (file : bytes) (io : io_outcome) (raw : bytes) : bytes :=
  match io with IoOk => file ++ raw | IoFail n => file ++ firstn n raw end.

(** ** The finality anchor *)

Record AnchorStore := mkAnchor {
  fa_file : bytes;
  fa_network : bytes;
  fa_validatorRoot : bytes;
  fa_height : Z;
  fa_hash : bytes;
  fa_lastDigest : bytes;
  fa_count : Z;
  fa_closed : bool;
  fa_poisoned : bool;
}.

Definition anchor_header (network validatorRoot : bytes) : bytes := finalityAnchorMagic ++ network ++ validatorRoot.

Section anchor.
Context `{Crypto}.

Definition anchorRecordDigest (network validatorRoot : bytes) (height : Z) (hash prev : bytes) : bytes :=
  DomainHash (str "zephyr/monotonic-finalized-anchor/v2")
    (Writer.BytesCopy (Writer.new |> Writer.Fixed network |> Writer.Fixed validatorRoot |> Writer.U64 height
       |> Writer.Fixed hash |> Writer.Fixed prev)).

(** [s.height, s.hash, s.lastDigest, s.count = height, hash, digest, s.count+1] *)
Definition set_mark (s : AnchorStore) (file : bytes) (height : Z) (hash digest : bytes) : AnchorStore :=
  mkAnchor file (fa_network s) (fa_validatorRoot s) height hash digest (add32 (fa_count s) 1) (fa_closed s) (fa_poisoned s).
Definition poison_anchor (s : AnchorStore) (file : bytes) : AnchorStore :=
  mkAnchor file (fa_network s) (fa_validatorRoot s) (fa_height s) (fa_hash s) (fa_lastDigest s) (fa_count s) (fa_closed s) true.

(** One record of the loop of [OpenFinalityAnchorStore]; [previous] is the
    digest of the record before. *)
Definition anchor_record (s : AnchorStore) (previous raw : bytes) : res (AnchorStore * bytes) :=
  let height := be_val (slice raw 0 8) in
  let hash := slice raw 8 40 in
  let oldDigest := slice raw 40 72 in
  let digest := slice raw 72 104 in
  fail_if ((height =? 0) || (height <=? fa_height s) || IsZero32 hash || negb (bool_decide (oldDigest = previous))
           || negb (bool_decide (digest = anchorRecordDigest (fa_network s) (fa_validatorRoot s) height hash oldDigest)))
    ErrFinalityAnchor;;
  Ok (set_mark s (fa_file s) height hash digest, digest).

(** [n] records, as the size of the file says. *)
Fixpoint anchor_records (n : nat) (s : AnchorStore) (previous unread : bytes) : res AnchorStore :=
  match n with
  | O => Ok s
  | S n =>
      fail_if (blen unread <? finalityAnchorRecordSize) ErrFinalityAnchor;;
      '(s, previous) ← anchor_record s previous (firstn 104 unread);
      anchor_records n s previous (skipn 104 unread)
  end.

(** The file afterwards, and the store. *)
Definition OpenFinalityAnchorStore (file : option bytes) (io : io_outcome) (network validatorRoot : bytes) (create : bool)
    : option bytes * res AnchorStore :=
  if IsZero32 network || IsZero32 validatorRoot then (file, Err ErrFinalityAnchor)
  else
    let header := anchor_header network validatorRoot in
    let opened data := mkAnchor data network validatorRoot 0 zero32 zero32 0 false false in
    match create, file with
    | true, Some _ | false, None => (file, Err ErrFinalityAnchor)
    | true, None =>
        let data := append_file [] io header in
        (Some data, match io with IoOk => Ok (opened data) | IoFail _ => Err ErrFinalityAnchor end)
    | false, Some data =>
        (file,
         fail_if ((blen data <? finalityAnchorHeaderSize) || negb (bool_decide (firstn 68 data = header))) ErrFinalityAnchor;;
         fail_if (negb ((blen data - finalityAnchorHeaderSize) mod finalityAnchorRecordSize =? 0)
                  || (maxFinalityAnchorRecords <? (blen data - finalityAnchorHeaderSize) / finalityAnchorRecordSize))
           ErrFinalityAnchor;;
         anchor_records (Z.to_nat ((blen data - finalityAnchorHeaderSize) / finalityAnchorRecordSize)) (opened data) zero32
           (skipn 68 data))
    end.

Definition anchor_Current (s : AnchorStore) : res FinalityCheckpoint :=
  fail_if (fa_closed s || fa_poisoned s) ErrFinalityAnchor;;
  Ok (mkFinalityCheckpoint (fa_network s) (fa_validatorRoot s) (fa_height s) (fa_hash s)).

Definition advance (s : AnchorStore) (io : io_outcome) (checkpoint : FinalityCheckpoint) : AnchorStore * res unit :=
  let height := fc_Height checkpoint in
  let hash := fc_HeaderHash checkpoint in
  if fa_closed s || fa_poisoned s || negb (is_ok (FinalityCheckpoint_Validate checkpoint (fa_network s) (fa_validatorRoot s)))
  then (s, Err ErrFinalityAnchor)
  else if (height <? fa_height s) || ((height =? fa_height s) && negb (bool_decide (hash = fa_hash s)))
  then (s, Err ErrFinalityAnchor)
  else if height =? fa_height s then (s, Ok tt)
  else if maxFinalityAnchorRecords <=? fa_count s then (s, Err ErrFinalityAnchor)
  else
    let digest := anchorRecordDigest (fa_network s) (fa_validatorRoot s) height hash (fa_lastDigest s) in
    let raw := be 8 height ++ hash ++ fa_lastDigest s ++ digest in
    let file := append_file (fa_file s) io raw in
    match io with
    | IoFail _ => (poison_anchor s file, Err ErrFinalityAnchor)
    | IoOk => (set_mark s file height hash digest, Ok tt)
    end.

Definition anchor_Close (s : AnchorStore) : AnchorStore :=
  mkAnchor (fa_file s) (fa_network s) (fa_validatorRoot s) (fa_height s) (fa_hash s) (fa_lastDigest s) (fa_count s) true
    (fa_poisoned s).
End anchor.

(** ** The certified history *)

Record History := mkHistory {
  ch_file : bytes;
  ch_network : bytes;
  ch_native : bytes;
  ch_validatorRoot : bytes;
  ch_shards : Z;
  ch_roots : gmap Z bytes;
  ch_height : Z;
  ch_parent : bytes;
  ch_lastDigest : bytes;
  ch_count : Z;
  ch_closed : bool;
  ch_poisoned : bool;
}.

(** [m[k]] on a map of hashes *)
Definition root_at (m : gmap Z bytes) (k : Z) : bytes := default zero32 (m !! k).

Section history.
Context `{Crypto}.

Definition history_header (network native validatorRoot : bytes) (genesisRoots : gmap Z bytes) : bytes :=
  let shards := uint32 (Z.of_nat (size genesisRoots)) in
  let w := Writer.new |> Writer.Fixed certifiedHistoryMagic |> Writer.Fixed network |> Writer.Fixed native
    |> Writer.Fixed validatorRoot |> Writer.U32 shards in
  Writer.BytesCopy (foldl (fun w shard => w |> Writer.Fixed (root_at genesisRoots shard)) w (shard_range shards)).

Definition openCertifiedHistory (file : option bytes) (io : io_outcome) (network native validatorRoot : bytes)
    (genesisRoots : gmap Z bytes) (create : bool) : option bytes * res History :=
  let count := Z.of_nat (size genesisRoots) in
  if IsZero32 network || IsZero32 native || IsZero32 validatorRoot || (count =? 0) || (16 <? count)
     || existsb (fun shard => IsZero32 (root_at genesisRoots shard)) (shard_range count)
  then (file, Err ErrCertifiedHistory)
  else
    let header := history_header network native validatorRoot genesisRoots in
    let opened data := mkHistory data network native validatorRoot (uint32 count) genesisRoots 0 zero32 zero32 0 false false in
    match create, file with
    | true, Some _ | false, None => (file, Err ErrCertifiedHistory)
    | true, None =>
        let data := append_file [] io header in
        (Some data, match io with IoOk => Ok (opened data) | IoFail _ => Err ErrCertifiedHistory end)
    | false, Some data =>
        (file, fail_if (negb (bool_decide (firstn (length header) data = header))) ErrCertifiedHistory;; Ok (opened data))
    end.

Definition history_Close (h : History) : History :=
  mkHistory (ch_file h) (ch_network h) (ch_native h) (ch_validatorRoot h) (ch_shards h) (ch_roots h) (ch_height h)
    (ch_parent h) (ch_lastDigest h) (ch_count h) true (ch_poisoned h).

Definition check_root (h : History) (post : gmap Z bytes) (deltas : gmap Z journalShardDelta) (shard : Z) : res unit :=
  old ← some_or (ch_roots h !! shard) ErrCertifiedHistory;
  match deltas !! shard with
  | Some d => fail_if (negb (bool_decide (jd_PreRoot d = old)) || negb (bool_decide (jd_PostRoot d = root_at post shard)))
                ErrCertifiedHistory
  | None => fail_if (negb (bool_decide (root_at post shard = old))) ErrCertifiedHistory
  end.

Definition checkIntent (h : History) (intent : globalCommitIntent) (validators : ValidatorSet) : res unit :=
  let header := gi_Header intent in
  fail_if (negb (is_ok (Intent_Validate intent)) || negb (bool_decide (gi_Network intent = ch_network h))
           || negb (bool_decide (gi_NativeToken intent = ch_native h))
           || negb (bool_decide (gi_ValidatorRoot intent = ch_validatorRoot h)) || negb (gi_ShardCount intent =? ch_shards h)
           || negb (h_Height header =? add64 (ch_height h) 1) || negb (gi_PreHeight intent =? ch_height h)
           || negb (bool_decide (gi_PreParentHash intent = ch_parent h)) || negb (bool_decide (h_ParentHash header = ch_parent h))
           || negb (bool_decide (EffectiveNextValidatorRoot header = ch_validatorRoot h))
           || negb (bool_decide (h_CertificateHash header = zero32))) ErrCertifiedHistory;;
  root ← ValidatorSet_Root validators <?> ErrCertifiedHistory;
  fail_if (negb (bool_decide (root = ch_validatorRoot h)) || negb (bool_decide (s_Network validators = ch_network h))
           || negb (is_ok (VerifyCertificate validators (gi_Certificate intent)))) ErrCertifiedHistory;;
  rfold (fun _ => check_root h (index_roots (gi_Commitments intent)) (index_deltas (gi_Deltas intent))) tt
    (shard_range (ch_shards h)).

Definition record_digest (previous payload : bytes) : bytes :=
  DomainHash (str "zephyr/finality-history-record/v2")
    (Writer.BytesCopy (Writer.new |> Writer.Fixed previous |> Writer.Fixed payload)).

Definition history_record (payload digest : bytes) : bytes :=
  Writer.BytesCopy (Writer.new |> Writer.U32 (blen payload mod 2 ^ 32) |> Writer.Fixed payload |> Writer.Fixed digest).

(** [for _, c := range intent.Commitments { h.roots[c.ShardID] = c.StateRoot }]
    and the assignment of height, parent, digest and count. *)
Definition record_intent (h : History) (file : bytes) (intent : globalCommitIntent) (digest : bytes) : History :=
  mkHistory file (ch_network h) (ch_native h) (ch_validatorRoot h) (ch_shards h)
    (foldl (fun m c => <[ShardID c := StateRoot c]> m) (ch_roots h) (gi_Commitments intent))
    (h_Height (gi_Header intent)) (HeaderConsensusHash (gi_Header intent)) digest (add32 (ch_count h) 1) (ch_closed h)
    (ch_poisoned h).

Definition poison_history (h : History) (file : bytes) : History :=
  mkHistory file (ch_network h) (ch_native h) (ch_validatorRoot h) (ch_shards h) (ch_roots h) (ch_height h) (ch_parent h)
    (ch_lastDigest h) (ch_count h) (ch_closed h) true.

Definition Append (h : History) (io : io_outcome) (intent : globalCommitIntent) (validators : ValidatorSet)
    : History * res unit :=
  if ch_closed h || ch_poisoned h || (maxCertifiedHistoryRecords <=? ch_count h)
     || negb (is_ok (checkIntent h intent validators)) then (h, Err ErrCertifiedHistory)
  else
    let intent := with_status intent globalCommitPreparing in
    match Intent_MarshalBinary intent with
    | Err _ => (h, Err ErrCertifiedHistory)
    | Ok payload =>
        if (blen payload =? 0) || (maxGlobalCommitJournalBytes <? blen payload) then (h, Err ErrCertifiedHistory)
        else
          let digest := record_digest (ch_lastDigest h) payload in
          let raw := history_record payload digest in
          if maxCertifiedHistoryBytes <? blen (ch_file h) + blen raw
          then (poison_history h (ch_file h), Err ErrCertifiedHistory)
          else
            let file := append_file (ch_file h) io raw in
            match io with
            | IoFail _ => (poison_history h file, Err ErrCertifiedHistory)
            | IoOk => (record_intent h file intent digest, Ok tt)
            end
    end.
End history.

#[global] Instance durable_stores `{Crypto} : FinalityStores := {|
  CertifiedHistory := History; history_Append := Append;
  FinalityAnchorStore := AnchorStore; anchor_advance := advance |}.

(** ** Replay *)

Section replay.
Context `{Crypto} {St : Type} `{Backend St}.

(** The state of the loop: the history as read so far, the genesis stores with
    the deltas applied, the last digest and intent, which checkpoints were met,
    and the bytes still to read. *)
Record replay_state := mkReplay {
  rp_history : History;
  rp_stores : gmap Z St;
  rp_previous : bytes;
  rp_last : option globalCommitIntent;
  rp_matched : list bool;
  rp_unread : bytes;
}.

(** One checkpoint against one certified ancestor. *)
Definition match_checkpoint (header : GlobalHeader) (matched : bool) (checkpoint : FinalityCheckpoint) : res bool :=
  if h_Height header =? fc_Height checkpoint then
    fail_if (negb (bool_decide (HeaderConsensusHash header = fc_HeaderHash checkpoint))) ErrFinalityCheckpoint;;
    Ok true
  else Ok matched.

Fixpoint match_checkpoints (header : GlobalHeader) (matched : list bool) (checkpoints : list FinalityCheckpoint)
    : res (list bool) :=
  match matched, checkpoints with
  | m :: matched, c :: checkpoints =>
      m ← match_checkpoint header m c;
      matched ← match_checkpoints header matched checkpoints;
      Ok (m :: matched)
  | _, _ => Ok []
  end.

(** One shard of a record: the store must be at the root of the history and the
    delta must bring it to its post root. *)
Definition replay_shard (roots : gmap Z bytes) (deltas : gmap Z journalShardDelta) (stores : gmap Z St) (shard : Z)
    : gmap Z St * res unit :=
  match stores !! shard with
  | None => (stores, Err ErrCertifiedHistory)
  | Some store =>
      if negb (bool_decide (backend_Root store = root_at roots shard)) then (stores, Err ErrCertifiedHistory)
      else
        match deltas !! shard with
        | None => (stores, Ok tt)
        | Some d =>
            match backend_Apply store (jd_Consumed d) (jd_Created d) with
            | Err _ => (stores, Err ErrCertifiedHistory)
            | Ok (store, root) =>
                (<[shard := store]> stores, fail_if (negb (bool_decide (root = jd_PostRoot d))) ErrCertifiedHistory)
            end
        end
  end.

Fixpoint replay_shards (roots : gmap Z bytes) (deltas : gmap Z journalShardDelta) (shards : list Z) (stores : gmap Z St)
    : gmap Z St * res unit :=
  match shards with
  | [] => (stores, Ok tt)
  | shard :: shards =>
      match replay_shard roots deltas stores shard with
      | (stores, Err e) => (stores, Err e)
      | (stores, Ok _) => replay_shards roots deltas shards stores
      end
  end.

(** The record at the front of the unread bytes: its payload and digest. *)
Definition read_record (count : Z) (unread : bytes) : res (bytes * bytes * bytes) :=
  fail_if (blen unread <? 4) ErrCertifiedHistory;;
  let size := be_val (firstn 4 unread) in
  fail_if ((size =? 0) || (maxGlobalCommitJournalBytes <? size) || (maxCertifiedHistoryRecords <=? count)) ErrCertifiedHistory;;
  let n := Z.to_nat size in
  let rest := skipn 4 unread in
  fail_if (blen rest <? size) ErrCertifiedHistory;;
  fail_if (blen (skipn n rest) <? 32) ErrCertifiedHistory;;
  Ok (firstn n rest, firstn 32 (skipn n rest), skipn (n + 32) rest).

(** One iteration of the loop of [ReplayWithCheckpoints] that found a record:
    everything it checks before it touches a store. *)
Definition check_record (validators : ValidatorSet) (checkpoints : list FinalityCheckpoint) (s : replay_state)
    : res (globalCommitIntent * bytes * list bool * bytes) :=
  '(raw, digest, unread) ← read_record (ch_count (rp_history s)) (rp_unread s);
  fail_if (negb (bool_decide (digest = record_digest (rp_previous s) raw))) ErrCertifiedHistory;;
  intent ← parseGlobalCommitIntent raw <?> ErrCertifiedHistory;
  fail_if (negb (gi_Status intent =? globalCommitPreparing)) ErrCertifiedHistory;;
  checkIntent (rp_history s) intent validators <?> ErrCertifiedHistory;;
  matched ← match_checkpoints (gi_Header intent) (rp_matched s) checkpoints;
  Ok (intent, digest, matched, unread).

Definition replay_record (validators : ValidatorSet) (checkpoints : list FinalityCheckpoint) (s : replay_state)
    : replay_state * res unit :=
  match check_record validators checkpoints s with
  | Err e => (s, Err e)
  | Ok (intent, digest, matched, unread) =>
      let h := rp_history s in
      match replay_shards (ch_roots h) (index_deltas (gi_Deltas intent)) (shard_range (ch_shards h)) (rp_stores s) with
      | (stores, Err e) => (mkReplay h stores (rp_previous s) (rp_last s) matched unread, Err e)
      | (stores, Ok _) =>
          (mkReplay (record_intent h (ch_file h) intent digest) stores digest (Some intent) matched unread, Ok tt)
      end
  end.

(** The loop; [fuel] bounds the records, and a file holds fewer records than
    bytes. *)
Fixpoint replay_history (fuel : nat) (validators : ValidatorSet) (checkpoints : list FinalityCheckpoint) (s : replay_state)
    : replay_state * res unit :=
  match fuel with
  | O => (s, Ok tt)
  | S fuel =>
      if blen (rp_unread s) =? 0 then (s, Ok tt)
      else
        match replay_record validators checkpoints s with
        | (s, Err e) => (s, Err e)
        | (s, Ok _) => replay_history fuel validators checkpoints s
        end
  end.

(** After the loop: every checkpoint was met and the journal holds the last
    record. *)
Definition check_tip (s : replay_state) (journal : option bytes) : res globalCommitIntent :=
  fail_if (ch_count (rp_history s) =? 0) ErrCertifiedHistory;;
  fail_if (existsb negb (rp_matched s)) ErrFinalityCheckpoint;;
  raw ← some_or journal ErrCertifiedHistory;
  current ← decodeGlobalCommitJournal raw <?> ErrCertifiedHistory;
  latestRaw ← Intent_MarshalBinary (with_status current globalCommitPreparing) <?> ErrCertifiedHistory;
  last ← some_or (rp_last s) ErrCertifiedHistory;
  historyRaw ← Intent_MarshalBinary last <?> ErrCertifiedHistory;
  fail_if (negb (bool_decide (latestRaw = historyRaw))) ErrCertifiedHistory;;
  Ok last.

(** [4 + 32 + 32 + 32 + 4 + 32*h.shards], in [uint32] *)
Definition history_offset (h : History) : Z := add32 104 ((32 * ch_shards h) mod 2 ^ 32).

Definition ReplayWithCheckpoints (h : History) (validators : ValidatorSet) (genesis : gmap Z St) (journal : option bytes)
    (checkpoints : list FinalityCheckpoint) : History * gmap Z St * res globalCommitIntent :=
  match fail_if (negb (Z.of_nat (size genesis) =? ch_shards h)) ErrCertifiedHistory;;
        fail_if (2 <? blen checkpoints) ErrFinalityCheckpoint;;
        fail_if (existsb (fun c => negb (is_ok (FinalityCheckpoint_Validate c (ch_network h) (ch_validatorRoot h)))) checkpoints)
          ErrFinalityCheckpoint;;
        fail_if (ch_closed h || ch_poisoned h || negb (ch_count h =? 0) || negb (ch_height h =? 0)) ErrCertifiedHistory;;
        fail_if (maxCertifiedHistoryBytes <? blen (ch_file h)) ErrCertifiedHistory with
  | Err e => (h, genesis, Err e)
  | Ok _ =>
      let unread := skipn (Z.to_nat (history_offset h)) (ch_file h) in
      let '(s, out) := replay_history (S (length unread)) validators checkpoints
        (mkReplay h genesis zero32 None (replicate (length checkpoints) false) unread) in
      (rp_history s, rp_stores s, match out with Err e => Err e | Ok _ => check_tip s journal end)
  end.
End replay.

(** ** Recovery of a runtime *)

(** [economics.ShadowEpochEngineConfig{}] *)
Definition zero_engine_config : ShadowEpochEngineConfig :=
  mkEngineConfig (mkComputeIndexConfig noClasses 0 0 0) (mkComputeScarcityConfig 0 0 0 0 0 0 0 0 0)
    (mkMonetaryPolicy 0 0 0 0 0 0 0 0 0 0 0 0 0 0 0) (mkComputeFeedbackPolicy 0 0 0 0 0 0 0).

Section recovery.
Context `{Crypto} `{MapOrder} `{ScriptHost} `{IdleCapital}.
Context {St : Type} `{Backend St} `{Simulator St} `{!EconomicCheckpoint}.

(** [file] is what the path of the history holds; it is returned as it is
    afterwards. *)
Definition EnableCertifiedHistory (r : Runtime (St := St)) (file : option bytes) (io : io_outcome)
    (genesisRoots : gmap Z bytes) (create : bool) : option bytes * res Runtime :=
  if match rt_history r with Some _ => true | None => false end || negb (rt_journalConfigured r)
     || negb (rt_Height r =? 0) || negb (bool_decide (rt_ParentHash r = zero32))
     || negb (Z.of_nat (size genesisRoots) =? rt_ShardCount r)
  then (file, Err ErrCertifiedHistory)
  else
    let '(file, opened) := openCertifiedHistory file io (rt_Network r) (rt_NativeToken r) (rt_ValidatorRoot r) genesisRoots create in
    (file, h ← opened;
           let r := set_stores r (Some h) (rt_anchorStore r) in
           Ok (if create then r else set_recovery r true)).

Definition CloseCertifiedHistory (r : Runtime (St := St)) : Runtime :=
  match rt_history r with
  | None => r
  | Some h => set_stores r (Some (history_Close h)) (rt_anchorStore r)
  end.

Definition EnableFinalityAnchorStore (r : Runtime (St := St)) (store : AnchorStore) : res Runtime :=
  fail_if (match rt_anchorStore r with Some _ => true | None => false end
           || match rt_history r with Some _ => false | None => true end || negb (rt_journalConfigured r)
           || negb (rt_Height r =? 0) || negb (bool_decide (rt_ParentHash r = zero32))) ErrFinalityAnchor;;
  cp ← anchor_Current store <?> ErrFinalityAnchor;
  fail_if (negb (bool_decide (fc_Network cp = rt_Network r)) || negb (bool_decide (fc_ValidatorRoot cp = rt_ValidatorRoot r)))
    ErrFinalityAnchor;;
  Ok (set_stores r (rt_history r) (Some store)).

(** The checkpoint of the operator and the high-water mark of the anchor. *)
Definition recovery_checkpoints (anchor : option AnchorStore) (checkpoint : option FinalityCheckpoint)
    : res (list FinalityCheckpoint) :=
  let given := match checkpoint with Some c => [c] | None => [] end in
  match anchor with
  | None => Ok given
  | Some anchor =>
      highWater ← anchor_Current anchor <?> ErrCertifiedHistory;
      Ok (if 0 <? fc_Height highWater then given ++ [highWater] else given)
  end.

Definition tip_is (r : Runtime (St := St)) (header : GlobalHeader) : bool :=
  (rt_Height r =? h_Height header) && bool_decide (rt_ParentHash r = HeaderConsensusHash header) && negb (RecoveryRequired r).

Definition RecoverCertifiedHistoryWithCheckpoint (r : Runtime) (io : CommitIO) (validators : ValidatorSet)
    (genesis : gmap Z St) (checkpoint : option FinalityCheckpoint) : Runtime * res unit :=
  match rt_history r, recovery_checkpoints (rt_anchorStore r) checkpoint with
  | None, _ | _, Err _ => (r, Err ErrCertifiedHistory)
  | Some h, Ok checkpoints =>
      let '(h, _, replayed) := ReplayWithCheckpoints h validators genesis (rt_journal r) checkpoints in
      let r := set_stores r (Some h) (rt_anchorStore r) in
      match replayed with
      | Err _ => (r, Err ErrCertifiedHistory)
      | Ok last =>
          then_do (RecoverGlobalCommitJournal r io validators None zero_engine_config) (fun r =>
          if negb (tip_is r (gi_Header last)) then (r, Err ErrCertifiedHistory)
          else commit_anchor r io (gi_Header last) (rt_ParentHash r))
      end
  end.

Definition RecoverCertifiedHistory (r : Runtime) (io : CommitIO) (validators : ValidatorSet) (genesis : gmap Z St)
    : Runtime * res unit :=
  RecoverCertifiedHistoryWithCheckpoint r io validators genesis None.

(** One shard of [RecoverCertifiedGenesisSuccessor]. *)
Definition check_successor_shard (genesisRoots commitments : gmap Z bytes) (deltas : gmap Z journalShardDelta) (shard : Z)
    : res unit :=
  let root := root_at genesisRoots shard in
  fail_if (IsZero32 root) ErrGlobalCommitJournal;;
  match deltas !! shard with
  | Some delta =>
      fail_if (negb (bool_decide (jd_PreRoot delta = root))
               || negb (bool_decide (jd_PostRoot delta = root_at commitments shard))) ErrGlobalCommitJournal
  | None => fail_if (negb (bool_decide (root_at commitments shard = root))) ErrGlobalCommitJournal
  end.

Definition check_successor (r : Runtime (St := St)) (validators : ValidatorSet) (genesisRoots : gmap Z bytes)
    : res globalCommitIntent :=
  fail_if (negb (rt_journalConfigured r) || negb (rt_Height r =? 0) || negb (bool_decide (rt_ParentHash r = zero32))
           || negb (Z.of_nat (size genesisRoots) =? rt_ShardCount r)) ErrGlobalCommitJournal;;
  raw ← some_or (rt_journal r) ErrIO;
  intent ← decodeGlobalCommitJournal raw;
  fail_if (negb (gi_PreHeight intent =? 0) || negb (bool_decide (gi_PreParentHash intent = zero32))
           || negb (h_Height (gi_Header intent) =? 1) || negb (bool_decide (h_ParentHash (gi_Header intent) = zero32))
           || negb (bool_decide (gi_Network intent = rt_Network r))
           || negb (bool_decide (gi_NativeToken intent = rt_NativeToken r))
           || negb (bool_decide (gi_ValidatorRoot intent = rt_ValidatorRoot r))
           || negb (gi_ShardCount intent =? rt_ShardCount r)
           || negb (bool_decide (EffectiveNextValidatorRoot (gi_Header intent) = rt_ValidatorRoot r))) ErrGlobalCommitJournal;;
  currentRoot ← ValidatorSet_Root validators <?> ErrGlobalCommitJournal;
  fail_if (negb (bool_decide (s_Network validators = rt_Network r))
           || negb (bool_decide (currentRoot = rt_ValidatorRoot r))
           || negb (is_ok (VerifyCertificate validators (gi_Certificate intent)))) ErrGlobalCommitJournal;;
  rfold (fun _ => check_successor_shard genesisRoots (index_roots (gi_Commitments intent)) (index_deltas (gi_Deltas intent)))
    tt (shard_range (rt_ShardCount r));;
  Ok intent.

Definition RecoverCertifiedGenesisSuccessor (r : Runtime) (io : CommitIO) (validators : ValidatorSet)
    (genesisRoots : gmap Z bytes) : Runtime * res unit :=
  match check_successor r validators genesisRoots with
  | Err e => (r, Err e)
  | Ok intent =>
      then_do (RecoverGlobalCommitJournal r io validators None zero_engine_config) (fun r =>
      if tip_is r (gi_Header intent) then (r, Ok tt) else (r, Err ErrGlobalCommitJournal))
  end.
End recovery.
