(* ===== verification/AnchorProofs.v ===== *)
(** * AnchorProofs

    The finality anchor is a high-water mark: through any sequence of advances,
    failed writes, closes and restarts it never moves down, never names two
    headers of one height, and a mark it reported as stored is still there when
    the file is opened again. *)

From S2P Require Import Prelude GoLib Codec Crypto Types Sharding Consensus Node NodeHistory.

Open Scope Z_scope.

Section anchor.
Context `{HC : Crypto}.
Context (network validatorRoot : bytes).

(** ** The file as a list of marks *)

Definition mark : Type := Z * bytes.

Definition mark_digest (prev : bytes) (m : mark) : bytes := anchorRecordDigest network validatorRoot m.1 m.2 prev.
Definition enc_mark (prev : bytes) (m : mark) : bytes := be 8 m.1 ++ m.2 ++ prev ++ mark_digest prev m.

Fixpoint enc_marks (prev : bytes) (l : list mark) : bytes :=
  match l with
  | [] => []
  | m :: l => enc_mark prev m ++ enc_marks (mark_digest prev m) l
  end.

Definition mark_after (height : Z) (m : mark) : Prop := 0 <= height < m.1 /\ u64 m.1 /\ arr32 m.2 /\ IsZero32 m.2 = false.

Fixpoint marks_after (height : Z) (l : list mark) : Prop :=
  match l with
  | [] => True
  | m :: l => mark_after height m /\ marks_after m.1 l
  end.

Definition apply_mark (s : AnchorStore) (m : mark) : AnchorStore :=
  set_mark s (fa_file s) m.1 m.2 (mark_digest (fa_lastDigest s) m).

Lemma length_mark_digest prev m : arr32 (mark_digest prev m).
Proof. apply length_DomainHash. Qed.

Lemma length_enc_mark prev height m : arr32 prev -> mark_after height m -> length (enc_mark prev m) = 104%nat.
Proof.
  intros Hp (_ & _ & Hm & _). unfold enc_mark. rewrite !length_app, length_be, Hp, Hm. by rewrite length_mark_digest.
Qed.

Lemma length_enc_marks prev height l : arr32 prev -> marks_after height l -> length (enc_marks prev l) = (104 * length l)%nat.
Proof.
  revert prev height. induction l as [|m l IH]; intros prev height Hp Hl; [done|]. destruct Hl as [Hm Hl].
  cbn [enc_marks length]. rewrite length_app, (length_enc_mark _ height) by done.
  rewrite (IH _ m.1) by (done || apply length_mark_digest). lia.
Qed.

Lemma anchor_record_enc (s : AnchorStore) m :
  fa_network s = network -> fa_validatorRoot s = validatorRoot -> arr32 (fa_lastDigest s) -> mark_after (fa_height s) m ->
  anchor_record s (fa_lastDigest s) (enc_mark (fa_lastDigest s) m) =
  Ok (apply_mark s m, mark_digest (fa_lastDigest s) m).
Proof.
  intros Hn Hv Hd ((H1 & H2) & Hu & Ha & Hz). unfold anchor_record, enc_mark, slice.
  assert (length (be 8 m.1) = 8%nat) as L8 by apply length_be.
  pose proof (length_mark_digest (fa_lastDigest s) m) as Lg. unfold arr in *.
  change (skipn 0 ?l) with l. cbn [Nat.sub].
  rewrite (take_app_length' (be 8 m.1)), (drop_app_length' (be 8 m.1)) by done.
  rewrite (take_app_length' m.2) by done.
  replace (skipn 40 _) with (fa_lastDigest s ++ mark_digest (fa_lastDigest s) m)
    by (symmetry; rewrite app_assoc; apply drop_app_length'; rewrite length_app; lia).
  replace (skipn 72 _) with (mark_digest (fa_lastDigest s) m)
    by (symmetry; rewrite !app_assoc; apply drop_app_length'; rewrite !length_app; lia).
  rewrite (take_app_length' (fa_lastDigest s)), firstn_all2 by lia.
  rewrite be_val_be, Z.mod_small by exact Hu.
  rewrite Hn, Hv, Hz. unfold mark_digest at 1 2. rewrite !bool_decide_eq_true_2 by done.
  destruct (Z.eqb_spec m.1 0); [lia|]. destruct (Z.leb_spec m.1 (fa_height s)); [lia|]. done.
Qed.

Lemma anchor_records_enc l (s : AnchorStore) rest :
  fa_network s = network -> fa_validatorRoot s = validatorRoot -> arr32 (fa_lastDigest s) -> marks_after (fa_height s) l ->
  anchor_records (length l) s (fa_lastDigest s) (enc_marks (fa_lastDigest s) l ++ rest) = Ok (foldl apply_mark s l).
Proof.
  revert s. induction l as [|m l IH]; intros s Hn Hv Hd Hl; [done|]. destruct Hl as [Hm Hl].
  pose proof (length_enc_mark _ _ _ Hd Hm) as Len. cbn [length anchor_records enc_marks foldl].
  rewrite <-app_assoc. unfold blen. rewrite length_app, Len.
  rewrite (proj2 (Z.ltb_ge _ _)) by (unfold finalityAnchorRecordSize; lia). cbn [fail_if mbind res_bind].
  rewrite take_app_length', drop_app_length' by done. rewrite anchor_record_enc by done. cbn [mbind res_bind].
  apply (IH (apply_mark s m)); [done|done|apply length_mark_digest|done].
Qed.

(** The memory of a store and its file. *)
Definition blank : AnchorStore := mkAnchor [] network validatorRoot 0 zero32 zero32 0 false false.

Definition same_mark (s t : AnchorStore) : Prop :=
  fa_height s = fa_height t /\ fa_hash s = fa_hash t /\ fa_lastDigest s = fa_lastDigest t /\ fa_count s = fa_count t.

Record anchor_holds (s : AnchorStore) (l : list mark) (tail : bytes) : Prop := {
  ah_network : fa_network s = network;
  ah_validatorRoot : fa_validatorRoot s = validatorRoot;
  ah_file : fa_file s = anchor_header network validatorRoot ++ enc_marks zero32 l ++ tail;
  ah_marks : marks_after 0 l;
  ah_same : same_mark s (foldl apply_mark blank l);
  ah_count : Z.of_nat (length l) <= maxFinalityAnchorRecords;
  ah_clean : fa_poisoned s = false -> tail = [];
  ah_tail : tail = [] \/ exists m n, Z.of_nat (length l) < maxFinalityAnchorRecords /\ mark_after (fa_height s) m /\
    tail = firstn n (enc_mark (fa_lastDigest s) m);
}.

Lemma apply_marks_frame l s :
  let t := foldl apply_mark s l in
  fa_network t = fa_network s /\ fa_validatorRoot t = fa_validatorRoot s /\ fa_file t = fa_file s /\
  fa_closed t = fa_closed s /\ fa_poisoned t = fa_poisoned s.
Proof. revert s. induction l as [|m l IH]; intros s; [done|]. exact (IH (apply_mark s m)). Qed.

Lemma same_mark_apply s t m : same_mark s t -> same_mark (apply_mark s m) (apply_mark t m).
Proof. intros (H1 & H2 & H3 & H4). unfold same_mark, apply_mark, set_mark. cbn. by rewrite H3, H4. Qed.

Lemma same_mark_foldl l s t : same_mark s t -> same_mark (foldl apply_mark s l) (foldl apply_mark t l).
Proof. revert s t. induction l as [|m l IH]; intros s t Hs; [done|]. cbn [foldl]. by apply IH, same_mark_apply. Qed.

Lemma last_digest_length l s : arr32 (fa_lastDigest s) -> arr32 (fa_lastDigest (foldl apply_mark s l)).
Proof. revert s. induction l as [|m l IH]; intros s Hs; [done|]. cbn [foldl]. apply IH, length_mark_digest. Qed.

Lemma enc_marks_snoc l m s :
  enc_marks (fa_lastDigest s) (l ++ [m]) =
  enc_marks (fa_lastDigest s) l ++ enc_mark (fa_lastDigest (foldl apply_mark s l)) m.
Proof.
  revert s. induction l as [|x l IH]; intros s; [by cbn; rewrite app_nil_r|].
  cbn [app enc_marks foldl]. rewrite <-app_assoc. f_equal. exact (IH (apply_mark s x)).
Qed.

Lemma marks_after_snoc l m s :
  marks_after (fa_height s) l -> mark_after (fa_height (foldl apply_mark s l)) m -> marks_after (fa_height s) (l ++ [m]).
Proof.
  revert s. induction l as [|x l IH]; intros s Hl Hm; [done|]. destruct Hl as [Hx Hl]. split; [done|].
  by apply (IH (apply_mark s x)).
Qed.

Lemma marks_height l s : 0 <= fa_height s -> marks_after (fa_height s) l -> 0 <= fa_height (foldl apply_mark s l).
Proof.
  revert s. induction l as [|m l IH]; intros s H0 Hl; [done|]. destruct Hl as [(? & _) Hl].
  apply (IH (apply_mark s m)); [cbn; lia|done].
Qed.

Lemma count_marks l s :
  0 <= fa_count s -> fa_count s + Z.of_nat (length l) < 2 ^ 32 ->
  fa_count (foldl apply_mark s l) = fa_count s + Z.of_nat (length l).
Proof.
  revert s. induction l as [|m l IH]; intros s H0 Hlt; [cbn; lia|]. cbn [foldl length] in *.
  rewrite (IH (apply_mark s m)); cbn [apply_mark set_mark fa_count]; unfold add32; rewrite Z.mod_small; lia.
Qed.

(** ** Opening a file *)

Context (Hnet : arr32 network) (Hroot : arr32 validatorRoot).
Context (Hnz : IsZero32 network = false) (Hrz : IsZero32 validatorRoot = false).

Definition opened (data : bytes) : AnchorStore := mkAnchor data network validatorRoot 0 zero32 zero32 0 false false.

Lemma length_anchor_header : length (anchor_header network validatorRoot) = 68%nat.
Proof. unfold anchor_header. rewrite !length_app, Hnet, Hroot. done. Qed.

Lemma open_marks l io :
  marks_after 0 l -> Z.of_nat (length l) <= maxFinalityAnchorRecords ->
  let data := anchor_header network validatorRoot ++ enc_marks zero32 l in
  OpenFinalityAnchorStore (Some data) io network validatorRoot false = (Some data, Ok (foldl apply_mark (opened data) l)).
Proof.
  intros Hl Hc data. unfold OpenFinalityAnchorStore. rewrite Hnz, Hrz. cbn [orb].
  assert (blen data = 68 + 104 * Z.of_nat (length l)) as Hlen.
  { unfold blen, data. rewrite length_app, length_anchor_header, (length_enc_marks _ 0) by done. lia. }
  rewrite Hlen. unfold finalityAnchorHeaderSize, finalityAnchorRecordSize. rewrite (proj2 (Z.ltb_ge _ 68)) by lia.
  replace (68 + 104 * Z.of_nat (length l) - 68) with (Z.of_nat (length l) * 104) by lia.
  rewrite Z.mod_mul, Z.div_mul by lia. rewrite (proj2 (Z.ltb_ge maxFinalityAnchorRecords _)) by lia.
  replace (firstn 68 data) with (anchor_header network validatorRoot)
    by (symmetry; apply take_app_length'; by rewrite length_anchor_header).
  replace (skipn 68 data) with (enc_marks zero32 l)
    by (symmetry; apply drop_app_length'; by rewrite length_anchor_header).
  rewrite bool_decide_eq_true_2 by done. cbn [negb orb fail_if mbind res_bind Z.eqb]. rewrite Nat2Z.id.
  do 2 f_equal. rewrite <-(app_nil_r (enc_marks zero32 l)).
  exact (anchor_records_enc l (opened data) [] eq_refl eq_refl arr_zero32 Hl).
Qed.

Lemma open_torn data io : (blen data - 68) mod 104 <> 0 ->
  exists e, OpenFinalityAnchorStore (Some data) io network validatorRoot false = (Some data, Err e).
Proof.
  intros Hm. unfold OpenFinalityAnchorStore. rewrite Hnz, Hrz. cbn [orb].
  destruct ((blen data <? finalityAnchorHeaderSize) || _); [by eexists|]. cbn [fail_if mbind res_bind]. unfold finalityAnchorHeaderSize, finalityAnchorRecordSize.
  rewrite (proj2 (Z.eqb_neq _ 0) Hm). by eexists.
Qed.

Lemma holds_opened l :
  marks_after 0 l -> Z.of_nat (length l) <= maxFinalityAnchorRecords ->
  anchor_holds (foldl apply_mark (opened (anchor_header network validatorRoot ++ enc_marks zero32 l)) l) l [].
Proof.
  intros Hl Hc. set (data := _ ++ _). destruct (apply_marks_frame l (opened data)) as (F1 & F2 & F3 & F4 & F5).
  split; [done|done| |done| |done|done|by left].
  - rewrite F3. cbn. unfold data. by rewrite app_nil_r.
  - by apply same_mark_foldl.
Qed.

(** What opening a file that holds marks can give. *)
Lemma open_holds s l tail io file s' :
  anchor_holds s l tail ->
  OpenFinalityAnchorStore (Some (fa_file s)) io network validatorRoot false = (file, Ok s') ->
  exists l', anchor_holds s' l' [] /\ (l' = l \/ exists m, mark_after (fa_height s) m /\ l' = l ++ [m]).
Proof.
  intros [Hn Hv Hf Hl Hs Hc Hcl Ht] E.
  assert (tail = [] -> exists l', anchor_holds s' l' [] /\ (l' = l \/ exists m, mark_after (fa_height s) m /\ l' = l ++ [m])) as Hnil.
  { intros ->. rewrite app_nil_r in Hf. rewrite Hf, (open_marks l) in E by done. injection E as <- <-.
    exists l. split; [by apply holds_opened|by left]. }
  destruct Ht as [->|(m & n & Hlt & Hm & ->)]; [by apply Hnil|].
  destruct Hs as (S1 & S2 & S3 & S4).
  assert (arr32 (fa_lastDigest s)) as Hd by (rewrite S3; apply last_digest_length, arr_zero32).
  pose proof (length_enc_mark _ _ _ Hd Hm) as Len.
  destruct (decide (n = 0%nat)) as [->|Hn0]; [by apply Hnil|].
  destruct (decide (104 <= n)%nat) as [Hn1|Hn1].
  - rewrite firstn_all2 in Hf by lia.
    assert (enc_marks zero32 (l ++ [m]) = enc_marks zero32 l ++ enc_mark (fa_lastDigest s) m) as Henc
      by (rewrite S3; exact (enc_marks_snoc l m blank)).
    assert (marks_after 0 (l ++ [m])) as Hl' by (rewrite S1 in Hm; by apply (marks_after_snoc l m blank)).
    rewrite <-Henc in Hf. exists (l ++ [m]).
    assert (Z.of_nat (length (l ++ [m])) <= maxFinalityAnchorRecords) as Hc' by (rewrite length_app; cbn [length]; lia).
    rewrite Hf, (open_marks (l ++ [m])) in E by done. injection E as <- <-. split; [by apply holds_opened|by right; exists m].
  - assert (blen (fa_file s) = 68 + 104 * Z.of_nat (length l) + Z.of_nat n) as Hlen.
    { unfold blen. rewrite Hf, !length_app, length_anchor_header, (length_enc_marks _ 0), length_firstn by (done || apply arr_zero32). lia. }
    destruct (open_torn (fa_file s) io) as [e Ee]; [|congruence].
    rewrite Hlen. replace (68 + 104 * Z.of_nat (length l) + Z.of_nat n - 68) with (Z.of_nat n + Z.of_nat (length l) * 104) by lia.
    rewrite Z.mod_add, Z.mod_small; lia.
Qed.

(** ** Steps of a store *)

Definition checkpoint_typed (c : FinalityCheckpoint) : Prop := u64 (fc_Height c) /\ arr32 (fc_HeaderHash c).

(** An advance with any outcome of its write, a close, and a restart, which
    opens whatever the file holds. *)
Inductive anchor_step : AnchorStore -> AnchorStore -> Prop :=
| as_advance s io c s' out : checkpoint_typed c -> advance s io c = (s', out) -> anchor_step s s'
| as_close s : anchor_step s (anchor_Close s)
| as_restart s io file s' :
    OpenFinalityAnchorStore (Some (fa_file s)) io network validatorRoot false = (file, Ok s') -> anchor_step s s'.

Definition higher (s t : AnchorStore) : Prop :=
  fa_height s <= fa_height t /\ (fa_height s = fa_height t -> fa_hash s = fa_hash t).

#[local] Instance higher_preorder : PreOrder higher.
Proof.
  split; [done|]. intros s t u [H1 H2] [H3 H4]. split; [lia|]. intros E. rewrite H2, H4; [done|lia|lia].
Qed.

Lemma advance_Ok s io c s' :
  advance s io c = (s', Ok tt) -> fa_height s' = fc_Height c /\ fa_hash s' = fc_HeaderHash c.
Proof.
  unfold advance. destruct (_ || negb (is_ok _)); [done|].
  destruct (_ || (_ && _)) eqn:Eo; [done|]. destruct (fc_Height c =? fa_height s) eqn:Eh.
  - intros [= <-]. apply Z.eqb_eq in Eh. apply orb_false_iff in Eo as [_ Eo]. cbn in Eo.
    apply negb_false_iff, bool_decide_eq_true in Eo. by rewrite Eh, Eo.
  - destruct (_ <=? _); [done|]. by destruct io; intros [= <-].
Qed.

Lemma advance_holds s l tail io c s' out :
  anchor_holds s l tail -> checkpoint_typed c -> advance s io c = (s', out) ->
  (exists l' tail', anchor_holds s' l' tail') /\ higher s s'.
Proof.
  intros Ho [Hc1 Hc2]. pose proof Ho as [Hn Hv Hf Hl Hs Hc Hcl Ht]. unfold advance.
  assert (forall o, (s, o) = (s', out) -> (exists l' tail', anchor_holds s' l' tail') /\ higher s s') as Hsame
    by (intros o [= <- _]; split; [eauto|done]).
  destruct (_ || negb (is_ok _)) eqn:Eg; [apply Hsame|].
  apply orb_false_iff in Eg as [[_ Hp]%orb_false_iff [[] Hval]%negb_false_iff%is_ok_true].
  apply fail_if_Ok in Hval. apply orb_false_iff in Hval as [[[[[H0 Hz]%orb_false_iff _]%orb_false_iff _]%orb_false_iff _]%orb_false_iff _].
  destruct (_ || (_ && _)) eqn:Eo; [apply Hsame|]. destruct (fc_Height c =? fa_height s) eqn:Eh; [apply Hsame|].
  destruct (_ <=? fa_count s) eqn:Ec; [apply Hsame|].
  apply orb_false_iff in Eo as [Hlt%Z.ltb_ge _]. apply Z.eqb_neq in Eh. apply Z.leb_gt in Ec.
  specialize (Hcl Hp) as ->. pose proof Hs as (S1 & S2 & S3 & S4).
  set (m := (fc_Height c, fc_HeaderHash c)).
  pose proof (marks_height l blank ltac:(done) Hl) as Hpos. rewrite <-S1 in Hpos.
  assert (mark_after (fa_height s) m) as Hm by (split; [cbn; lia|done]).
  rewrite S4, (count_marks l blank) in Ec by (cbn; unfold maxFinalityAnchorRecords in *; lia).
  rewrite Hn, Hv. change (anchorRecordDigest _ _ _ _ _) with (mark_digest (fa_lastDigest s) m).
  change (be 8 _ ++ _) with (enc_mark (fa_lastDigest s) m).
  assert (higher s (set_mark s (append_file (fa_file s) IoOk (enc_mark (fa_lastDigest s) m)) (fc_Height c) (fc_HeaderHash c)
    (mark_digest (fa_lastDigest s) m))) as Hhi by (split; cbn; lia).
  destruct io as [|n]; intros [= <- _]; (split; [|done]).
  - exists (l ++ [m]), []. split; [done|done| | | | |done|by left].
    + cbn [set_mark fa_file append_file]. rewrite Hf, !app_nil_r, <-app_assoc. do 2 f_equal.
      rewrite S3. symmetry. exact (enc_marks_snoc l m blank).
    + rewrite S1 in Hm. by apply (marks_after_snoc l m blank).
    + rewrite foldl_snoc. exact (same_mark_apply s _ m Hs).
    + rewrite length_app. cbn [length] in *. unfold blank in Ec. cbn in Ec. lia.
  - exists l, (firstn n (enc_mark (fa_lastDigest s) m)). split; [done|done| |done|done|done|done|].
    + cbn [poison_anchor fa_file append_file]. rewrite Hf, app_nil_r, <-app_assoc. done.
    + right. exists m, n. cbn in Ec. split; [lia|done].
Qed.

Lemma anchor_step_holds s s' l tail :
  anchor_holds s l tail -> anchor_step s s' -> (exists l' tail', anchor_holds s' l' tail') /\ higher s s'.
Proof.
  intros Ho Hstep. destruct Hstep as [s io c s' out Hc E|s|s io file s' E].
  - by apply (advance_holds s l tail io c s' out).
  - split; [|done]. exists l, tail. by destruct Ho.
  - destruct (open_holds _ _ _ _ _ _ Ho E) as (l' & Ho' & Hl').
    split; [by eauto|]. destruct (ah_same _ _ _ Ho) as (S1 & S2 & _ & _), (ah_same _ _ _ Ho') as (T1 & T2 & _ & _).
    destruct Hl' as [->|(m & Hm & ->)].
    + split; [lia|congruence].
    + rewrite foldl_snoc in T1, T2. cbn in T1. destruct Hm as (? & _). split; lia.
Qed.

Lemma anchor_steps_holds s s' l tail :
  anchor_holds s l tail -> rtc anchor_step s s' -> (exists l' tail', anchor_holds s' l' tail') /\ higher s s'.
Proof.
  intros Ho Hs. revert l tail Ho. induction Hs as [s|s t u Hst _ IH]; intros l tail Ho; [by split; [exists l, tail|]|].
  destruct (anchor_step_holds _ _ _ _ Ho Hst) as ((l' & tail' & Ho') & H1). destruct (IH _ _ Ho') as [H2 H3].
  split; [done|by transitivity t].
Qed.

Lemma created_holds file s :
  OpenFinalityAnchorStore None IoOk network validatorRoot true = (file, Ok s) -> anchor_holds s [] [].
Proof.
  unfold OpenFinalityAnchorStore. rewrite Hnz, Hrz. cbn [orb]. intros [= <- <-].
  split; [done|done| |done|done|done|done|by left]. cbn. by rewrite app_nil_r.
Qed.

(** C6: the anchor never rolls back.  Once [advance] has reported a checkpoint as
    stored, then whatever advances, failed and torn writes, closes and restarts
    follow, the high-water mark is at least as high, and a mark of the same
    height names the same header; and as long as no write has failed since the
    last restart, opening the file again succeeds and gives exactly that mark.  A
    file with a torn record is refused. *)
Theorem anchor_never_rolls_back s0 s io c s1 s2 file :
  OpenFinalityAnchorStore None IoOk network validatorRoot true = (file, Ok s0) ->
  rtc anchor_step s0 s -> advance s io c = (s1, Ok tt) -> checkpoint_typed c -> rtc anchor_step s1 s2 ->
  (fc_Height c <= fa_height s2 /\ (fa_height s2 = fc_Height c -> fa_hash s2 = fc_HeaderHash c)) /\
  (fa_poisoned s2 = false -> forall io',
    exists s3, OpenFinalityAnchorStore (Some (fa_file s2)) io' network validatorRoot false = (Some (fa_file s2), Ok s3) /\
      anchor_Current s3 = Ok (mkFinalityCheckpoint network validatorRoot (fa_height s2) (fa_hash s2))) /\
  (forall io', (blen (fa_file s2) - finalityAnchorHeaderSize) mod finalityAnchorRecordSize <> 0 ->
    exists e, OpenFinalityAnchorStore (Some (fa_file s2)) io' network validatorRoot false = (Some (fa_file s2), Err e)).
Proof.
  intros Hopen%created_holds Hs Ha Hc Hs2. destruct (anchor_steps_holds _ _ _ _ Hopen Hs) as [(l & tail & Ho) _].
  destruct (advance_holds _ _ _ _ _ _ _ Ho Hc Ha) as [(l1 & tail1 & Ho1) _]. apply advance_Ok in Ha as [H1 H2].
  destruct (anchor_steps_holds _ _ _ _ Ho1 Hs2) as [(l2 & tail2 & Ho2) [H3 H4]].
  split_and!; [lia|intros E; rewrite <-H2; symmetry; apply H4; lia| |intros io'; apply open_torn].
  intros Hp io'. destruct Ho2 as [_ _ Hf Hl (S1 & S2 & _ & _) Hcn Hcl _]. rewrite Hcl, app_nil_r in Hf by done.
  eexists. rewrite Hf. split; [by apply open_marks|].
  unfold anchor_Current. destruct (apply_marks_frame l2 (opened (anchor_header network validatorRoot ++ enc_marks zero32 l2)))
    as (-> & -> & _ & -> & ->). cbn [opened fa_closed fa_poisoned fa_network fa_validatorRoot orb fail_if mbind res_bind].
  destruct (same_mark_foldl l2 (opened (anchor_header network validatorRoot ++ enc_marks zero32 l2)) blank) as (-> & -> & _ & _);
    [done|]. by rewrite S1, S2.
Qed.
End anchor.

(** ** A store, a torn write and a restart *)

Module AnchorExample.
#[local] Existing Instance small_crypto.
Definition net : bytes := replicate 32 x07.
Definition root : bytes := replicate 32 x09.
Definition checkpoint (height : Z) : FinalityCheckpoint := mkFinalityCheckpoint net root height (replicate 32 x05).
Definition fresh : AnchorStore := opened net root (anchor_header net root).
Definition marked : AnchorStore := (advance fresh IoOk (checkpoint 3)).1.
Definition torn : AnchorStore := (advance marked (IoFail 104) (checkpoint 8)).1.
Definition restarted : AnchorStore :=
  match (OpenFinalityAnchorStore (Some (fa_file torn)) IoOk net root false).2 with Ok s => s | Err _ => torn end.

Lemma torn_steps : rtc (anchor_step net root) marked restarted.
Proof.
  apply (rtc_l _ _ torn); [apply (as_advance _ _ _ (IoFail 104) (checkpoint 8) _ (Err ErrFinalityAnchor)); [by vm_compute|]|].
  - vm_compute. reflexivity.
  - apply rtc_once, (as_restart _ _ _ IoOk (Some (fa_file torn))). vm_compute. reflexivity.
Qed.

Lemma anchor_never_rolls_back_witness :
  3 <= fa_height restarted /\ fa_height restarted = 8 /\
  exists s3, (OpenFinalityAnchorStore (Some (fa_file restarted)) IoOk net root false).2 = Ok s3.
Proof.
  destruct (anchor_never_rolls_back net root eq_refl eq_refl eq_refl eq_refl fresh fresh IoOk (checkpoint 3) marked restarted
    (Some (anchor_header net root)) ltac:(vm_compute; reflexivity) (rtc_refl _ _) ltac:(vm_compute; reflexivity)
    ltac:(by vm_compute) torn_steps) as ([H1 _] & H2 & _).
  split; [exact H1|]. split; [vm_compute; reflexivity|].
  destruct (H2 ltac:(vm_compute; reflexivity) IoOk) as (s3 & -> & _). by exists s3.
Defined.
End AnchorExample.
