(* ===== verification/HistoryProofs.v ===== *)
(** * HistoryProofs

    What the replay of a certified history proves, that every history written
    by [Append] replays, and what recovery from it guarantees. *)

From S2P Require Import Prelude GoLib Codec Crypto Types Merkle Object Smt SmtProofs SmtTheorems Sharding ShardingProofs.
From S2P Require Import Tx TxProofs Consensus ConsensusProofs ComputeWork Contracts Execution ExecutionExtended ExecutionProofs.
From S2P Require Import Worldstate WorldstateProofs Batch BatchProofs EconomicsPolicy EconomicsEpoch EconomicsCollector EconomicsEngine.
From S2P Require Import EconomicsProofs Node NodeJournal NodeProofs NodeRecovery NodeHistory AnchorProofs.

Open Scope Z_scope.

Section history.
Context `{HC : Crypto}.

(** ** Checked intents *)

Record checked (h : History) (validators : ValidatorSet) (i : globalCommitIntent) : Prop := {
  ck_valid : intent_valid i;
  ck_names : gi_Network i = ch_network h /\ gi_NativeToken i = ch_native h /\ gi_ValidatorRoot i = ch_validatorRoot h /\
    gi_ShardCount i = ch_shards h;
  ck_pre : gi_PreHeight i = ch_height h /\ gi_PreParentHash i = ch_parent h;
  ck_header : h_Height (gi_Header i) = add64 (ch_height h) 1 /\ h_ParentHash (gi_Header i) = ch_parent h /\
    EffectiveNextValidatorRoot (gi_Header i) = ch_validatorRoot h /\ h_CertificateHash (gi_Header i) = zero32;
  ck_validators : ValidatorSet_Root validators = Ok (ch_validatorRoot h) /\ s_Network validators = ch_network h;
  ck_certificate : VerifyCertificate validators (gi_Certificate i) = Ok tt;
  ck_roots : Forall (fun shard => check_root h (index_roots (gi_Commitments i)) (index_deltas (gi_Deltas i)) shard = Ok tt)
    (shard_range (ch_shards h));
}.

Lemma checkIntent_spec h i validators : checkIntent h i validators = Ok tt <-> checked h validators i.
Proof.
  unfold checkIntent. split.
  - intros E. apply bind_Ok in E as ([] & H1%fail_if_Ok & E). apply bind_Ok in E as (root & Hr%or_err_Ok & E).
    apply bind_Ok in E as ([] & H2%fail_if_Ok & E). apply rfold_unit_Forall in E. bool_inv.
    repeat match goal with Hz : (_ =? _) = true |- _ => apply Z.eqb_eq in Hz end.
    repeat match goal with Hz : is_ok _ = true |- _ => apply is_ok_true in Hz as [[] Hz] end. subst root.
    constructor; try done. by apply Intent_Validate_spec.
  - intros [Hv (N1 & N2 & N3 & N4) (P1 & P2) (H1 & H2 & H3 & H4) (V1 & V2) Hc Hr].
    apply Intent_Validate_spec in Hv. rewrite Hv, N1, N2, N3, N4, P1, P2, H1, H2, H3, H4, V1, V2, Hc, !Z.eqb_refl. decide_refl.
    cbn [negb orb is_ok fail_if mbind res_bind or_err]. decide_refl. cbn [negb orb is_ok fail_if mbind res_bind].
    by apply rfold_unit_all.
Qed.

(** ** Chains of certified intents *)

Definition tip_hash (l : list globalCommitIntent) : bytes :=
  match last l with None => zero32 | Some i => HeaderConsensusHash (gi_Header i) end.

(** Every intent extends the one before, from the genesis on, and carries a
    certificate of the validators for its header. *)
Inductive certified_chain (validators : ValidatorSet) : list globalCommitIntent -> Prop :=
| cc_genesis : certified_chain validators []
| cc_extend l i :
    certified_chain validators l ->
    h_Height (gi_Header i) = Z.of_nat (length l) + 1 -> h_ParentHash (gi_Header i) = tip_hash l ->
    VerifyCertificate validators (gi_Certificate i) = Ok tt ->
    c_HeaderHash (gi_Certificate i) = HeaderConsensusHash (gi_Header i) ->
    c_Height (gi_Certificate i) = h_Height (gi_Header i) ->
    certified_chain validators (l ++ [i]).

(** The roots an intent commits to. *)
Definition intent_root (i : globalCommitIntent) (shard : Z) : bytes := root_at (index_roots (gi_Commitments i)) shard.

Lemma index_onto (l : list Commitment) (m : gmap Z bytes) :
  foldl (fun m c => <[ShardID c := StateRoot c]> m) m l = index_roots l ∪ m.
Proof.
  unfold index_roots. revert m. induction l as [|c l IH] using rev_ind; intros m; cbn; [by rewrite (left_id_L ∅ (∪))|].
  rewrite !foldl_snoc, IH. by rewrite insert_union_l.
Qed.

Lemma index_deltas_elem i shard d :
  intent_valid i -> index_deltas (gi_Deltas i) !! shard = Some d -> d ∈ gi_Deltas i /\ jd_ShardID d = shard.
Proof.
  intros Hv E. destruct (iv_lists i Hv) as (_ & _ & _ & Hnd). destruct (index_lookup jd_ShardID (fun d => d) _ Hnd) as [H1 H2].
  unfold index_deltas in E. destruct (decide (shard ∈ jd_ShardID <$> gi_Deltas i)) as [(d' & -> & Hin)%list_elem_of_fmap|Hn].
  - specialize (H1 d' Hin). rewrite E in H1. by injection H1 as ->.
  - by rewrite H2 in E.
Qed.

Lemma recorded_roots h validators i file digest shard :
  checked h validators i -> 0 <= shard < ch_shards h ->
  root_at (ch_roots (record_intent h file i digest)) shard = intent_root i shard.
Proof.
  intros [Hv _ _ _ _ _ Hr] Hs. cbn [record_intent ch_roots]. rewrite index_onto. unfold intent_root, root_at.
  rewrite lookup_union. rewrite Forall_forall in Hr. specialize (Hr shard (proj2 (elem_of_shard_range _ _) Hs)).
  apply bind_Ok in Hr as (old & Hold%some_or_Ok & Hr). rewrite Hold.
  destruct (index_roots (gi_Commitments i) !! shard) as [x|] eqn:Ex; [done|]. change (old = zero32).
  assert (root_at (index_roots (gi_Commitments i)) shard = zero32) as Hz by (unfold root_at; by rewrite Ex).
  destruct (index_deltas (gi_Deltas i) !! shard) as [d|] eqn:Ed; apply fail_if_Ok in Hr; bool_inv; [|congruence].
  apply index_deltas_elem in Ed as [Hin _]; [|done]. destruct (iv_lists i Hv) as (m & _ & Hf & _). rewrite Forall_forall in Hf.
  destruct (Hf _ Hin) as ([_ Hb]%orb_false_iff & _). by replace (jd_PostRoot d) with zero32 in Hb by congruence.
Qed.

(** ** The file as a list of payloads *)

Fixpoint enc_records (prev : bytes) (raws : list bytes) : bytes :=
  match raws with
  | [] => []
  | raw :: raws => history_record raw (record_digest prev raw) ++ enc_records (record_digest prev raw) raws
  end.
Definition last_record (prev : bytes) (raws : list bytes) : bytes := foldl record_digest prev raws.

Lemma enc_records_snoc prev raws raw :
  enc_records prev (raws ++ [raw]) =
  enc_records prev raws ++ history_record raw (record_digest (last_record prev raws) raw).
Proof.
  revert prev. induction raws as [|x raws IH]; intros prev; [by cbn; rewrite app_nil_r|].
  cbn [app enc_records last_record foldl]. rewrite IH, app_assoc. done.
Qed.

Lemma history_record_eq raw digest :
  blen raw <= maxGlobalCommitJournalBytes -> history_record raw digest = be 4 (blen raw) ++ raw ++ digest.
Proof.
  change maxGlobalCommitJournalBytes with 268435456. intros Hl. unfold history_record. writer_norm.
  rewrite Z.mod_small by (unfold blen in *; lia). done.
Qed.

Lemma read_history_record_Ok count unread raw digest rest :
  read_record count unread = Ok (raw, digest, rest) <->
  unread = be 4 (blen raw) ++ raw ++ digest ++ rest /\ 0 < blen raw <= maxGlobalCommitJournalBytes /\ arr32 digest /\
  count < maxCertifiedHistoryRecords.
Proof.
  unfold read_record. change maxGlobalCommitJournalBytes with 268435456. split.
  - intros E. apply bind_Ok in E as ([] & H1%fail_if_Ok & E). apply bind_Ok in E as ([] & H2%fail_if_Ok & E).
    apply bind_Ok in E as ([] & H3%fail_if_Ok & E). apply bind_Ok in E as ([] & H4%fail_if_Ok & E).
    set (size := be_val (take 4 unread)) in *. set (n := Z.to_nat size) in *.
    injection (Ok_inj _ _ E) as <- <- <-. bool_inv. apply Z.ltb_ge in H1, H3, H4. unfold blen, arr in *.
    rewrite length_skipn in H3. rewrite !length_skipn in H4.
    assert (0 <= size < 2 ^ 32) as Hsz.
    { pose proof (be_val_range (take 4 unread)) as Hr. rewrite length_firstn, Nat.min_l in Hr by lia. exact Hr. }
    assert (length (take n (drop 4 unread)) = n) as Hn by (rewrite length_firstn, length_skipn; lia).
    rewrite Hn. split; [|split_and!; try lia; rewrite length_firstn, !length_skipn; lia].
    unfold n. rewrite Z2Nat.id by lia. unfold size.
    replace 4%nat with (length (take 4 unread)) at 1 by (rewrite length_firstn; lia). rewrite be_be_val.
    rewrite <-(take_drop 4 unread) at 1. f_equal. rewrite <-(take_drop n (drop 4 unread)) at 1. f_equal.
    by rewrite <-drop_drop, take_drop.
  - intros (-> & Hl & Hd & Hc). unfold arr in Hd.
    rewrite (proj2 (Z.ltb_ge _ 4)) by (unfold blen; rewrite length_app, length_be; lia). cbn [fail_if mbind res_bind].
    rewrite (take_app_length' (be 4 _)), (drop_app_length' (be 4 _)) by (by rewrite length_be).
    rewrite be_val_small by (cbn; unfold blen in *; lia).
    rewrite (proj2 (Z.eqb_neq _ 0)), (proj2 (Z.ltb_ge 268435456 _)), (proj2 (Z.leb_gt _ count)) by lia.
    cbn [orb fail_if mbind res_bind]. unfold blen in *. rewrite Nat2Z.id.
    rewrite (proj2 (Z.ltb_ge _ (Z.of_nat (length raw)))) by (rewrite length_app; lia). cbn [fail_if mbind res_bind].
    rewrite (take_app_length' raw), (drop_app_length' raw) by done.
    rewrite (proj2 (Z.ltb_ge _ 32)) by (rewrite length_app; lia). cbn [fail_if mbind res_bind].
    rewrite (take_app_length' digest) by done. rewrite <-drop_drop, (drop_app_length' raw), (drop_app_length' digest) by done. done.
Qed.

(** The objects of a parsed intent are well typed. *)
Lemma parsed_typed raw i : parseGlobalCommitIntent raw = Ok i -> Forall (fun d => Forall Object_typed (jd_Created d)) (gi_Deltas i).
Proof.
  unfold parseGlobalCommitIntent. intros E. parse_inv. cbn [gi_Deltas].
  match goal with H : prepeat _ read_delta _ = Ok _ |- _ => apply (prepeat_Forall _ _ _) with (2 := H) end.
  clear. intros r d r' E. unfold read_delta in E. parse_inv. cbn [jd_Created].
  match goal with H : prepeat _ read_created _ = Ok _ |- _ => apply (prepeat_Forall _ _ _) with (2 := H) end.
  clear. intros r o r' E. unfold read_created in E. parse_inv.
  match goal with H : ParseObject _ = Ok _ |- _ => by apply ParseObject_Ok in H as [[H _] _] end.
Qed.

(** ** The stores of a replay *)

Context {St : Type} `{HB : Backend St} `{HS : !BackendSpec St}.

Definition stores_inv (stores : gmap Z St) : Prop := map_Forall (fun _ s => bs_inv s) stores.
Definition deltas_typed (deltas : gmap Z journalShardDelta) : Prop := map_Forall (fun _ d => Forall Object_typed (jd_Created d)) deltas.

(** A shard before and after a record. *)
Definition shard_replayed (roots : gmap Z bytes) (deltas : gmap Z journalShardDelta) (stores stores' : gmap Z St) (shard : Z)
    : Prop :=
  exists store store', stores !! shard = Some store /\ stores' !! shard = Some store' /\
    backend_Root store = root_at roots shard /\
    match deltas !! shard with
    | None => store' = store
    | Some d => backend_Apply store (jd_Consumed d) (jd_Created d) = Ok (store', jd_PostRoot d)
    end.

Lemma replay_shard_Ok roots deltas stores shard stores' :
  replay_shard roots deltas stores shard = (stores', Ok tt) <->
  shard_replayed roots deltas stores stores' shard /\ forall k, k <> shard -> stores' !! k = stores !! k.
Proof.
  unfold replay_shard, shard_replayed. split.
  - destruct (stores !! shard) as [store|] eqn:Es; [|done].
    destruct (bool_decide _) eqn:Er; [|done]. apply bool_decide_eq_true in Er. cbn [negb].
    destruct (deltas !! shard) as [d|]; [|intros [= <-]; split; [by exists store, store|done]].
    destruct (backend_Apply _ _ _) as [[store' root]|] eqn:Ea; [|done]. intros [= <- Hr%fail_if_Ok]. bool_inv. subst root.
    split; [exists store, store'; by rewrite lookup_insert_eq|]. intros k Hk. by rewrite lookup_insert_ne.
  - intros [(store & store' & Hs & Hs' & Hr & Hd) Hk]. rewrite Hs, bool_decide_eq_true_2 by done. cbn [negb].
    destruct (deltas !! shard) as [d|].
    + rewrite Hd, bool_decide_eq_true_2 by done. cbn. f_equal. apply map_eq. intros k.
      destruct (decide (k = shard)) as [->|Hne]; [by rewrite lookup_insert_eq|]. rewrite lookup_insert_ne by done. by rewrite Hk.
    + f_equal. apply map_eq. intros k. destruct (decide (k = shard)) as [->|Hne]; [by rewrite Hs, Hs', Hd|by rewrite Hk].
Qed.

Lemma replay_shards_Ok roots deltas l stores stores' :
  NoDup l -> replay_shards roots deltas l stores = (stores', Ok tt) <->
  (forall shard, shard ∈ l -> shard_replayed roots deltas stores stores' shard) /\
  (forall k, k ∉ l -> stores' !! k = stores !! k).
Proof.
  intros Hnd. revert stores. induction Hnd as [|x l Hx Hnd IH]; intros stores; cbn [replay_shards].
  - split; [intros [= ->]; split; [by intros k ?%elem_of_nil|done]|]. intros [_ Hk]. f_equal. apply map_eq. intros k.
    symmetry. apply Hk. apply not_elem_of_nil.
  - split.
    + destruct (replay_shard roots deltas stores x) as [mid [[]|]] eqn:E1; [|done]. apply replay_shard_Ok in E1 as [H1 H2].
      intros [H3 H4]%IH. split.
      * intros shard [->|Hin]%elem_of_cons.
        -- destruct H1 as (s & s' & ? & ? & ?). exists s, s'. by rewrite H4.
        -- destruct (H3 _ Hin) as (s & s' & ? & ? & ?). exists s, s'. rewrite <-H2; [done|]. by intros ->.
      * intros k [Hk1 Hk2]%not_elem_of_cons. rewrite H4, H2; done.
    + intros [H1 H2]. destruct (H1 x) as (s & s' & Hs & Hs' & Hd); [left|].
      assert (replay_shard roots deltas stores x = (<[x := s']> stores, Ok tt)) as ->.
      { apply replay_shard_Ok. split; [exists s, s'; by rewrite lookup_insert_eq|]. intros k Hk. by rewrite lookup_insert_ne. }
      apply IH. split.
      * intros shard Hin. destruct (H1 shard) as (t & t' & Ht); [by right|]. exists t, t'. rewrite lookup_insert_ne; [done|].
        by intros ->.
      * intros k Hk. destruct (decide (k = x)) as [->|Hne]; [by rewrite lookup_insert_eq|]. rewrite lookup_insert_ne by done.
        apply H2. by apply not_elem_of_cons.
Qed.

(** ** What a replay proves *)

Context (validators : ValidatorSet) (checkpoints : list FinalityCheckpoint).

(** One record: what it holds, and where it takes the replay. *)
Record replayed (s : replay_state) (raw : bytes) (i : globalCommitIntent) (matched : list bool) (unread : bytes)
    (stores : gmap Z St) : Prop := {
  re_unread : rp_unread s = history_record raw (record_digest (rp_previous s) raw) ++ unread;
  re_size : 0 < blen raw <= maxGlobalCommitJournalBytes;
  re_count : ch_count (rp_history s) < maxCertifiedHistoryRecords;
  re_parsed : parseGlobalCommitIntent raw = Ok i;
  re_status : gi_Status i = globalCommitPreparing;
  re_checked : checked (rp_history s) validators i;
  re_matched : match_checkpoints (gi_Header i) (rp_matched s) checkpoints = Ok matched;
  re_stores : replay_shards (ch_roots (rp_history s)) (index_deltas (gi_Deltas i)) (shard_range (ch_shards (rp_history s)))
    (rp_stores s) = (stores, Ok tt);
}.

Definition after_record (s : replay_state (St := St)) (raw : bytes) (i : globalCommitIntent) (matched : list bool)
    (unread : bytes) (stores : gmap Z St) : replay_state :=
  let digest := record_digest (rp_previous s) raw in
  mkReplay (record_intent (rp_history s) (ch_file (rp_history s)) i digest) stores digest (Some i) matched unread.

Lemma replay_history_record_Ok s s' :
  replay_record validators checkpoints s = (s', Ok tt) <->
  exists raw i matched unread stores,
    replayed s raw i matched unread stores /\ s' = after_record s raw i matched unread stores.
Proof.
  unfold replay_record, check_record. split.
  - destruct (x ← _; _) as [[[[i digest] matched] unread]|] eqn:E; [|done].
    destruct (replay_shards _ _ _ _) as [stores [[]|]] eqn:Es; [|done]. intros [= <-].
    apply bind_Ok in E as ([[raw d] u] & (Hu & Hl & Hd & Hct)%read_history_record_Ok & E). apply bind_Ok in E as ([] & Hdg%fail_if_Ok & E).
    apply bind_Ok in E as (j & Hp%or_err_Ok & E). apply bind_Ok in E as ([] & Hst%fail_if_Ok & E).
    apply bind_Ok in E as ([] & Hc%or_err_Ok%checkIntent_spec & E). apply bind_Ok in E as (m & Hm & E).
    injection (Ok_inj _ _ E) as -> -> -> ->. bool_inv. apply Z.eqb_eq in Hst. subst digest.
    exists raw, i, matched, unread, stores. split; [|done]. constructor; try done. rewrite history_record_eq by lia.
    by rewrite Hu, <-!app_assoc.
  - intros (raw & i & matched & unread & stores & [Hu Hl Hct Hp Hst Hc Hm Hs] & ->). rewrite history_record_eq, <-!app_assoc in Hu by lia.
    rewrite (proj2 (read_history_record_Ok _ _ raw (record_digest (rp_previous s) raw) unread)); [|split_and!; try done; try lia; apply length_DomainHash].
    cbn [mbind res_bind]. decide_refl. cbn [negb fail_if mbind res_bind]. rewrite Hp. cbn [or_err mbind res_bind].
    rewrite Hst, Z.eqb_refl. cbn [negb fail_if mbind res_bind]. apply checkIntent_spec in Hc. rewrite Hc. cbn [or_err mbind res_bind].
    rewrite Hm. cbn [mbind res_bind]. by rewrite Hs.
Qed.

(** A checkpoint that names a header of the chain. *)
Definition names_ancestor (l : list globalCommitIntent) (c : FinalityCheckpoint) : Prop :=
  exists i, i ∈ l /\ h_Height (gi_Header i) = fc_Height c /\ HeaderConsensusHash (gi_Header i) = fc_HeaderHash c.

Lemma match_checkpoints_Ok header matched cs matched' :
  length matched = length cs -> match_checkpoints header matched cs = Ok matched' ->
  Forall2 (fun c m' => m' = true -> (h_Height header = fc_Height c /\ HeaderConsensusHash header = fc_HeaderHash c) \/
    exists k, cs !! k = Some c /\ matched !! k = Some true) cs matched'.
Proof.
  revert cs matched'. induction matched as [|m matched IH]; intros [|c cs] matched' Hl E; try done; cbn in E.
  - apply Ok_inj in E as <-. constructor.
  - apply bind_Ok in E as (m1 & E1 & E). apply bind_Ok in E as (ms & E2 & E). apply Ok_inj in E as <-.
    constructor.
    + intros ->. unfold match_checkpoint in E1. destruct (Z.eqb_spec (h_Height header) (fc_Height c)).
      * left. apply bind_Ok in E1 as ([] & Hb%fail_if_Ok & _). by bool_inv.
      * apply Ok_inj in E1 as ->. right. by exists 0%nat.
    + eapply Forall2_impl; [apply IH; [by injection Hl|done]|]. intros x b Hx Hb.
      destruct (Hx Hb) as [?|(k & ? & ?)]; [by left|right; by exists (S k)].
Qed.

Record replay_inv (h0 : History) (s : replay_state) (l : list globalCommitIntent) : Prop := {
  ri_frame : ch_network (rp_history s) = ch_network h0 /\ ch_native (rp_history s) = ch_native h0 /\
    ch_validatorRoot (rp_history s) = ch_validatorRoot h0 /\ ch_shards (rp_history s) = ch_shards h0;
  ri_count : ch_count (rp_history s) = Z.of_nat (length l) /\ ch_height (rp_history s) = Z.of_nat (length l) /\
    Z.of_nat (length l) <= maxCertifiedHistoryRecords;
  ri_chain : certified_chain validators l;
  ri_parent : ch_parent (rp_history s) = tip_hash l;
  ri_last : rp_last s = last l;
  ri_stores : stores_inv (rp_stores s);
  ri_roots : forall i shard, last l = Some i -> 0 <= shard < ch_shards h0 ->
    exists store, rp_stores s !! shard = Some store /\ backend_Root store = intent_root i shard;
  ri_matched : Forall2 (fun c m => m = true -> names_ancestor l c) checkpoints (rp_matched s);
}.

Lemma NoDup_shard_range n : NoDup (shard_range n).
Proof. unfold shard_range. apply NoDup_fmap_2_strong; [intros; lia|apply NoDup_seq]. Qed.

Lemma replay_stores roots deltas n stores stores' :
  stores_inv stores -> deltas_typed deltas -> replay_shards roots deltas (shard_range n) stores = (stores', Ok tt) ->
  stores_inv stores' /\
  forall shard, 0 <= shard < n -> exists store', stores' !! shard = Some store' /\
    backend_Root store' = match deltas !! shard with None => root_at roots shard | Some d => jd_PostRoot d end.
Proof.
  intros Hinv Ht [H1 H2]%replay_shards_Ok; [|apply NoDup_shard_range].
  assert (forall shard, 0 <= shard < n -> exists store', stores' !! shard = Some store' /\ bs_inv store' /\
    backend_Root store' = match deltas !! shard with None => root_at roots shard | Some d => jd_PostRoot d end) as H3.
  { intros shard Hs. destruct (H1 shard) as (store & store' & Es & Es' & Hr & Hd); [by apply elem_of_shard_range|].
    exists store'. split; [done|]. pose proof (Hinv _ _ Es) as Hi. cbn in Hi. destruct (deltas !! shard) as [d|] eqn:Ed.
    - apply bs_apply in Hd as (_ & ? & _ & Hroot); [by rewrite Hroot|done|]. exact (Ht _ _ Ed).
    - by subst store'. }
  split; [|intros shard Hs; destruct (H3 shard Hs) as (st & ? & ? & ?); by exists st].
  intros k st Hk. destruct (decide (0 <= k < n)) as [Hr|Hr].
  - destruct (H3 k Hr) as (st' & Hk' & Hi & _). cbn. congruence.
  - rewrite H2 in Hk; [by apply (Hinv k)|]. by rewrite elem_of_shard_range.
Qed.

Lemma replayed_inv h0 s l raw i matched unread stores :
  replay_inv h0 s l -> replayed s raw i matched unread stores ->
  replay_inv h0 (after_record s raw i matched unread stores) (l ++ [i]).
Proof.
  intros [(F1 & F2 & F3 & F4) (C1 & C2 & C3) Hch Hpar Hlast Hst Hroots Hm] [Hu Hl Hct Hp Hstat Hc Hmm Hs].
  pose proof Hc as [Hv (N1 & N2 & N3 & N4) (P1 & P2) (K1 & K2 & K3 & K4) _ Hcert _].
  assert (deltas_typed (index_deltas (gi_Deltas i))) as Ht.
  { intros k d Hk. pose proof (parsed_typed _ _ Hp) as Hf. rewrite Forall_forall in Hf. apply Hf.
    by apply index_deltas_elem in Hk as [? _]. }
  destruct (replay_stores _ _ _ _ _ Hst Ht Hs) as [Hst' Hr'].
  rewrite C1 in Hct. unfold maxCertifiedHistoryRecords in *.
  assert (h_Height (gi_Header i) = Z.of_nat (length l) + 1) as Hh by (rewrite K1, C2; unfold add64; rewrite Z.mod_small; lia).
  constructor; cbn [after_record rp_history rp_stores rp_last rp_matched record_intent ch_network ch_native ch_validatorRoot
    ch_shards ch_count ch_height ch_parent].
  - done.
  - rewrite length_app, C1. cbn [length]. unfold add32, maxCertifiedHistoryRecords. rewrite Z.mod_small, Hh by lia. lia.
  - destruct (iv_certificate i Hv) as (_ & X2 & X3). apply cc_extend; try done. by rewrite K2.
  - unfold tip_hash. by rewrite last_snoc.
  - by rewrite last_snoc.
  - done.
  - intros j shard Hj Hshard. rewrite last_snoc in Hj. injection Hj as <-. rewrite <-F4 in Hshard.
    destruct (Hr' shard Hshard) as (store & Hstore & Hr''). exists store. split; [done|]. rewrite Hr''.
    destruct Hc as [_ _ _ _ _ _ Hck]. rewrite Forall_forall in Hck.
    specialize (Hck shard (proj2 (elem_of_shard_range _ _) Hshard)). apply bind_Ok in Hck as (old & Hold%some_or_Ok & Hck).
    unfold intent_root. destruct (index_deltas (gi_Deltas i) !! shard); apply fail_if_Ok in Hck; bool_inv; [done|].
    unfold root_at at 1. by rewrite Hold.
  - pose proof (match_checkpoints_Ok _ _ _ _ (eq_sym (Forall2_length _ _ _ Hm)) Hmm) as Hf.
    eapply Forall2_impl; [exact Hf|]. intros c b Hcb Hb. destruct (Hcb Hb) as [[H1 H2]|(k & Hk1 & Hk2)].
    + exists i. split; [apply elem_of_app; right; left|done].
    + destruct (Forall2_lookup_lr _ _ _ _ _ _ Hm Hk1 Hk2 eq_refl) as (j & Hj & H1).
      exists j. split; [apply elem_of_app; by left|done].
Qed.

(** The loop reads the file to its end. *)
Lemma replay_history_Ok fuel h0 s s' l :
  (length (rp_unread s) < fuel)%nat -> replay_inv h0 s l -> replay_history fuel validators checkpoints s = (s', Ok tt) ->
  exists raws l', Forall2 (fun raw i => parseGlobalCommitIntent raw = Ok i) raws l' /\
    rp_unread s = enc_records (rp_previous s) raws /\ replay_inv h0 s' (l ++ l').
Proof.
  revert s l. induction fuel as [|fuel IH]; intros s l Hf Hinv E; [lia|]. cbn [replay_history] in E.
  destruct (Z.eqb_spec (blen (rp_unread s)) 0) as [Hz|Hz].
  - injection E as <-. exists [], []. rewrite app_nil_r. split; [constructor|]. split; [|done].
    destruct (rp_unread s); [done|]. unfold blen in Hz. cbn in Hz. lia.
  - destruct (replay_record _ _ s) as [s1 [[]|]] eqn:E1; [|done].
    apply replay_history_record_Ok in E1 as (raw & i & matched & unread & stores & Hre & ->).
    destruct (IH (after_record s raw i matched unread stores) (l ++ [i])) as (raws & l' & Hp & Hu & Hinv'); try done.
    + cbn [after_record rp_unread]. rewrite (re_unread _ _ _ _ _ _ Hre), history_record_eq in Hf by apply Hre.
      rewrite !length_app, length_be in Hf. lia.
    + by apply replayed_inv.
    + exists (raw :: raws), (i :: l'). split; [constructor; [apply Hre|done]|].
      rewrite (re_unread _ _ _ _ _ _ Hre). cbn [enc_records]. cbn in Hu. split; [by rewrite <-Hu|].
      by rewrite <-app_assoc in Hinv'.
Qed.

(** The last intent of the chain is what the journal holds. *)
Definition journal_holds (journal : option bytes) (i : globalCommitIntent) : Prop :=
  exists raw current payload, journal = Some raw /\ decodeGlobalCommitJournal raw = Ok current /\
    Intent_MarshalBinary (with_status current globalCommitPreparing) = Ok payload /\ Intent_MarshalBinary i = Ok payload.

Lemma opened_history file io network native root genesisRoots file' h :
  openCertifiedHistory file io network native root genesisRoots false = (file', Ok h) ->
  exists data, file = Some data /\ h = mkHistory data network native root (Z.of_nat (size genesisRoots)) genesisRoots 0 zero32 zero32 0 false false /\
    0 < Z.of_nat (size genesisRoots) <= 16 /\
    data = history_header network native root genesisRoots ++ skipn (length (history_header network native root genesisRoots)) data.
Proof.
  unfold openCertifiedHistory. destruct (_ || existsb _ _) eqn:Eg; [done|]. destruct file as [data|]; [|done].
  intros E. injection E as <- E. apply bind_Ok in E as ([] & Hh%fail_if_Ok & E). apply Ok_inj in E as <-. bool_inv.
  assert (0 < Z.of_nat (size genesisRoots) <= 16) as Hs by lia. exists data. split; [done|]. split; [|split; [done|]].
  - unfold uint32. by rewrite Z.mod_small by lia.
  - rewrite <-Hh at 1. by rewrite take_drop.
Qed.

Lemma history_offset_eq h : 0 <= ch_shards h <= 16 -> history_offset h = 104 + 32 * ch_shards h.
Proof. intros Hs. unfold history_offset, add32. rewrite (Z.mod_small (32 * _)), Z.mod_small by lia. done. Qed.

Lemma check_tip_Ok (s : replay_state (St := St)) journal tip :
  check_tip s journal = Ok tip -> rp_last s = Some tip /\ journal_holds journal tip /\ Forall (fun m => m = true) (rp_matched s).
Proof.
  intros E. apply bind_Ok in E as ([] & _ & E). apply bind_Ok in E as ([] & Hm%fail_if_Ok & E).
  apply bind_Ok in E as (raw & Hj%some_or_Ok & E). apply bind_Ok in E as (current & Hc%or_err_Ok & E).
  apply bind_Ok in E as (p1 & H1%or_err_Ok & E). apply bind_Ok in E as (lst & Hl%some_or_Ok & E).
  apply bind_Ok in E as (p2 & H2%or_err_Ok & E). apply bind_Ok in E as ([] & He%fail_if_Ok & E). apply Ok_inj in E as <-.
  bool_inv. subst p2. split; [done|]. split; [by exists raw, current, p1|].
  apply Forall_forall. intros b Hb. destruct b; [done|]. exfalso. apply not_true_iff_false in Hm. apply Hm, existsb_exists.
  exists false. split; [by apply list_elem_of_In|done].
Qed.

Lemma fresh_replay_inv h genesis :
  ch_count h = 0 -> ch_height h = 0 -> ch_parent h = zero32 -> stores_inv genesis ->
  replay_inv h (mkReplay h genesis zero32 None (replicate (length checkpoints) false)
    (skipn (Z.to_nat (history_offset h)) (ch_file h))) [].
Proof.
  intros Hc Hh Hp Hst. constructor; cbn [rp_history rp_last rp_stores rp_matched]; try done; [constructor|].
  clear. induction checkpoints as [|c cs IH]; [constructor|]. by constructor.
Qed.

(** What a replay proves.  If the replay of a history file over the genesis
    stores succeeds, the bytes of the file are exactly the hash-chained records
    of a chain of intents, each of which extends the one before by one height
    from the genesis on and carries a valid certificate of the validators over
    its header; every given checkpoint names a header of that chain; the commit
    journal holds its last intent; and replaying the deltas has brought every
    genesis store to the root that the last certified intent commits to. *)
Lemma replay_sound file io network native root genesisRoots file' h genesis journal h' stores tip :
  openCertifiedHistory file io network native root genesisRoots false = (file', Ok h) -> stores_inv genesis ->
  ReplayWithCheckpoints h validators genesis journal checkpoints = (h', stores, Ok tip) ->
  exists raws chain,
    skipn (Z.to_nat (history_offset h)) (ch_file h) = enc_records zero32 raws /\
    Forall2 (fun raw i => parseGlobalCommitIntent raw = Ok i) raws chain /\
    certified_chain validators chain /\ last chain = Some tip /\
    Forall (names_ancestor chain) checkpoints /\ journal_holds journal tip /\
    (forall shard, 0 <= shard < Z.of_nat (size genesisRoots) ->
      exists store, stores !! shard = Some store /\ backend_Root store = intent_root tip shard) /\
    ch_height h' = Z.of_nat (length chain) /\ ch_parent h' = HeaderConsensusHash (gi_Header tip).
Proof.
  intros (data & -> & -> & Hn & _)%opened_history Hst. set (h := mkHistory _ _ _ _ _ _ _ _ _ _ _ _). unfold ReplayWithCheckpoints.
  destruct (x ← _; _) as [?|]; [|done]. cbv zeta.
  destruct (replay_history _ _ _ _) as [s [[]|]] eqn:Er; [|done]. intros E. injection E as <- <- E.
  apply (replay_history_Ok _ h _ _ []) in Er as (raws & chain & Hp & Hu & Hinv);
    [|cbn [rp_unread]; lia|by apply fresh_replay_inv].
  cbn [app] in Hinv. destruct Hinv as [(F1 & F2 & F3 & F4) (C1 & C2 & C3) Hch Hpar Hl Hsi Hr Hm].
  apply check_tip_Ok in E as (Ht & Hj & Hall). rewrite Hl in Ht.
  exists raws, chain. split_and!; try done.
  - apply Forall_forall. intros c Hc. apply list_elem_of_lookup in Hc as [k Hk].
    destruct (Forall2_lookup_l _ _ _ _ _ Hm Hk) as (b & Hb & Hnb). apply Hnb. rewrite Forall_forall in Hall.
    apply Hall. by eapply list_elem_of_lookup_2.
  - intros shard Hs. by apply Hr.
  - rewrite Hpar. unfold tip_hash. by rewrite Ht.
Qed.
End history.
