(* ===== verification/HistoryRecovery.v ===== *)
(** * HistoryRecovery

    Recovery of a runtime from its certified history, its journal and its
    anchor: what a successful recovery guarantees, and that a node can always
    recover from what its own commits wrote. *)

From S2P Require Import Prelude GoLib Codec Crypto Types Merkle Object Smt SmtProofs SmtTheorems Sharding ShardingProofs.
From S2P Require Import Tx TxProofs Consensus ConsensusProofs ComputeWork Contracts Execution ExecutionExtended ExecutionProofs.
From S2P Require Import Worldstate WorldstateProofs Batch BatchProofs EconomicsPolicy EconomicsEpoch EconomicsCollector EconomicsEngine.
From S2P Require Import EconomicsProofs Node NodeJournal NodeProofs NodeRecovery NodeHistory AnchorProofs HistoryProofs.

Open Scope Z_scope.

Section intents.
Context `{HC : Crypto}.

(** ** Parsed intents *)

Lemma parsed_intent raw i :
  parseGlobalCommitIntent raw = Ok i -> intent_typed i /\ intent_valid i /\ gi_ShardCount i <= 1000000.
Proof.
  unfold parseGlobalCommitIntent. intros E. parse_inv.
  repeat match goal with H : fail_if _ _ = Ok _ |- _ => apply fail_if_Ok in H end. bool_inv.
  repeat match goal with H : (_ <? _) = false |- _ => apply Z.ltb_ge in H end.
  cbn [gi_ShardCount]. split; [|split; [by apply Intent_Validate_spec; match goal with H : Intent_Validate _ = Ok ?u |- _ => destruct u end|done]].
  constructor; cbn; rewrite ?blen32 in *; try done.
  - match goal with H : ParseGlobalHeader _ = Ok _ |- _ => by apply ParseGlobalHeader_Ok in H as [? _] end.
  - match goal with H : ParseCertificate _ = Ok _ |- _ => by apply ParseCertificate_canonical in H as [? _] end.
  - match goal with H : prepeat _ read_commitment _ = Ok _ |- _ => apply (prepeat_Forall _ _ _) with (2 := H) end.
    clear. intros r c r' E. unfold read_commitment in E. parse_inv. unfold Commitment_typed. cbn. by rewrite ?blen32 in *.
  - match goal with H : prepeat _ read_delta _ = Ok _ |- _ => apply (prepeat_Forall _ _ _) with (2 := H) end.
    clear. intros r d r' E. unfold read_delta in E. parse_inv. unfold journalDelta_typed. cbn. rewrite ?blen32 in *.
    repeat match goal with H : prepeat _ (Rd.Fixed _ <!> _) _ = Ok _ |- _ => apply prepeat_fixed_Ok in H as (_ & _ & H) end.
    split_and!; try done.
    + eapply Forall_impl; [eassumption|]. intros x Hx. by apply blen32.
    + match goal with H : prepeat _ read_created _ = Ok _ |- _ => apply (prepeat_Forall _ _ _) with (2 := H) end.
      clear. intros r o r' E. unfold read_created in E. parse_inv.
      match goal with H : ParseObject _ = Ok _ |- _ => by apply ParseObject_Ok in H as [[H _] _] end.
Qed.

Lemma decoded_intent raw i :
  decodeGlobalCommitJournal raw = Ok i -> intent_typed i /\ intent_valid i /\ gi_ShardCount i <= 1000000.
Proof.
  intros E. apply bind_Ok in E as ([] & _ & E). apply bind_Ok in E as ([] & _ & E). apply bind_Ok in E as ([] & _ & E).
  by apply parsed_intent in E.
Qed.

(** Intents of one payload are equal up to the order of their lists. *)
Lemma marshal_same i j payload :
  intent_typed i -> intent_typed j -> gi_ShardCount i <= 1000000 -> gi_ShardCount j <= 1000000 ->
  Intent_MarshalBinary i = Ok payload -> Intent_MarshalBinary j = Ok payload -> sorted_intent i = sorted_intent j.
Proof.
  intros Hi Hj Ni Nj (Vi & ri & Ci & ->)%Intent_MarshalBinary_Ok (Vj & rj & Cj & E)%Intent_MarshalBinary_Ok.
  pose proof (parse_intent (sorted_intent i) ri (sorted_intent_typed _ Hi) (sorted_intent_valid _ Vi) Ni Ci) as Pi.
  pose proof (parse_intent (sorted_intent j) rj (sorted_intent_typed _ Hj) (sorted_intent_valid _ Vj) Nj Cj) as Pj.
  rewrite E, Pj in Pi. by apply Ok_inj in Pi.
Qed.

Lemma index_perm {A B} (key : A -> Z) (val : A -> B) l l' :
  NoDup (key <$> l) -> l ≡ₚ l' ->
  foldl (fun m a => <[key a := val a]> m) (∅ : gmap Z B) l = foldl (fun m a => <[key a := val a]> m) ∅ l'.
Proof.
  intros Hnd Hp. assert (NoDup (key <$> l')) as Hnd' by (by rewrite <-Hp).
  destruct (index_lookup key val l Hnd) as [H1 H2], (index_lookup key val l' Hnd') as [H1' H2'].
  apply map_eq. intros k. destruct (decide (k ∈ key <$> l)) as [(a & -> & Ha)%list_elem_of_fmap|Hk].
  - rewrite H1 by done. rewrite H1'; [done|]. by rewrite <-Hp.
  - rewrite H2 by done. rewrite H2'; [done|]. by rewrite <-Hp.
Qed.

Lemma commitments_NoDup i : intent_valid i -> NoDup (ShardID <$> gi_Commitments i).
Proof.
  intros Hv. pose proof (iv_root i Hv) as Hr. apply bind_Ok in Hr as (s & (Hp & Hs & ->)%sortedCommitments_Ok & _).
  by rewrite Hp in Hs.
Qed.

Lemma index_roots_sorted i : intent_valid i -> index_roots (gi_Commitments (sorted_intent i)) = index_roots (gi_Commitments i).
Proof.
  intros Hv. symmetry. apply index_perm; [by apply commitments_NoDup|]. cbn. by rewrite sort_by_perm.
Qed.

Lemma index_deltas_sorted i : intent_valid i -> index_deltas (gi_Deltas (sorted_intent i)) = index_deltas (gi_Deltas i).
Proof.
  intros Hv. destruct (iv_lists i Hv) as (_ & _ & _ & Hnd). symmetry. apply (index_perm jd_ShardID (fun d => d)); [done|].
  cbn. by rewrite sort_by_perm.
Qed.
End intents.

(** ** Recovery from the journal, from any state *)

Section recovery.
Context `{HC : Crypto} `{HM : MapOrder} `{HH : ScriptHost} `{HI : IdleCapital}.
Context {St : Type} `{HB : Backend St} `{HSim : Simulator St} `{HS : !BackendSpec St} `{HE : !EconomicCheckpoint}.

(** What recovery leaves alone. *)
Definition same_identity (x y : Runtime (St := St)) : Prop :=
  rt_Network y = rt_Network x /\ rt_ValidatorRoot y = rt_ValidatorRoot x /\ rt_ShardCount y = rt_ShardCount x /\
  rt_history y = rt_history x /\ rt_anchorStore y = rt_anchorStore x.

#[local] Instance same_identity_preorder : PreOrder same_identity.
Proof. split; [by unfold same_identity|]. unfold same_identity. intros x y z. naive_solver congruence. Qed.

Definition root_reached (commitments : gmap Z bytes) (y : Runtime (St := St)) (shard : Z) : Prop :=
  exists store, rt_States y !! shard = Some store /\ commitments !! shard = Some (backend_Root store).

Lemma recover_shard_Ok intent deltas io (x y : Runtime) shard :
  stores_inv (rt_States x) -> deltas_typed deltas -> intent_valid intent -> deltas = index_deltas (gi_Deltas intent) ->
  recover_shard intent (index_roots (gi_Commitments intent)) deltas io x shard = (y, Ok tt) ->
  same_identity x y /\ stores_inv (rt_States y) /\ root_reached (index_roots (gi_Commitments intent)) y shard /\
  forall k, k <> shard -> rt_States y !! k = rt_States x !! k.
Proof.
  intros Hst Ht Hv Hd. unfold recover_shard, root_reached.
  destruct (index_roots _ !! shard) as [postRoot|] eqn:Ep; [|done]. destruct (rt_States x !! shard) as [store|] eqn:Es; [|done].
  destruct (deltas !! shard) as [d|] eqn:Ed.
  - assert (postRoot = jd_PostRoot d) as ->.
    { destruct (iv_lists _ Hv) as (m & Hm & Hf & _). subst deltas. apply index_deltas_elem in Ed as [Hin <-]; [|done].
      rewrite Forall_forall in Hf. destruct (Hf _ Hin) as (_ & Hc & _). apply fmap_Some in Hc as (c & Hc & ->).
      destruct (index_commitments_Ok _ _ _ _ Hm) as (K1 & _). apply K1 in Hc as [Hc|[Hc1 Hc2]]; [done|].
      destruct (index_lookup ShardID StateRoot _ (commitments_NoDup _ Hv)) as [L1 _]. specialize (L1 _ Hc1).
      unfold index_roots in Ep. rewrite Hc2, Ep in L1. by injection L1. }
    destruct (bool_decide _) eqn:Eb; [apply bool_decide_eq_true in Eb|].
    { intros [= <-]. split_and!; [done|done|exists store; by rewrite Eb|done]. }
    destruct (_ || negb _); [done|]. destruct (simulator store) as [sim|]; [|done]. destruct (sim _ _) as [pre|]; [|done].
    destruct (negb _); [done|]. destruct (backend_Apply _ _ _) as [[store' root]|] eqn:Ea; [|done].
    destruct (io shard); [|done|done]. destruct (bool_decide (root = _)) eqn:Er; [|done]. apply bool_decide_eq_true in Er. subst root.
    intros [= <-]. apply bs_apply in Ea as (_ & Hi & _ & Hroot); [|by apply (Hst shard)|exact (Ht _ _ Ed)].
    cbn [set_states rt_States rt_Network rt_ValidatorRoot rt_ShardCount rt_history rt_anchorStore]. split_and!; [done| | |].
    + by apply map_Forall_insert_2.
    + exists store'. by rewrite lookup_insert_eq, Hroot.
    + intros k Hk. by rewrite lookup_insert_ne.
  - intros E. injection E as <- Hr%fail_if_Ok. bool_inv. split_and!; [done|done|exists store; by rewrite Hr|done].
Qed.

Lemma recover_shards_Ok intent io l (x y : Runtime) :
  NoDup l -> stores_inv (rt_States x) -> deltas_typed (index_deltas (gi_Deltas intent)) -> intent_valid intent ->
  recover_shards intent (index_roots (gi_Commitments intent)) (index_deltas (gi_Deltas intent)) io l x = (y, Ok tt) ->
  same_identity x y /\ stores_inv (rt_States y) /\
  (forall shard, shard ∈ l -> root_reached (index_roots (gi_Commitments intent)) y shard) /\
  (forall k, k ∉ l -> rt_States y !! k = rt_States x !! k).
Proof.
  intros Hnd Hst Ht Hv. revert x Hst. induction Hnd as [|shard l Hx Hnd IH]; intros x Hst E; cbn [recover_shards] in E.
  - injection E as <-. split_and!; [done|done|by intros k ?%elem_of_nil|done].
  - apply then_do_Ok in E as (z & Ez & E). apply recover_shard_Ok in Ez as (I1 & Hz & R1 & F1); [|done..].
    destruct (IH z Hz E) as (I2 & Hy & R2 & F2). split_and!.
    + by transitivity z.
    + done.
    + intros k [->|Hk]%elem_of_cons; [|by apply R2]. destruct R1 as (st & ? & ?). exists st. by rewrite F2.
    + intros k [K1 K2]%not_elem_of_cons. by rewrite F2, F1.
Qed.

Lemma deltas_typed_of intent : intent_typed intent -> intent_valid intent -> deltas_typed (index_deltas (gi_Deltas intent)).
Proof.
  intros Ht Hv k d Hk. apply index_deltas_elem in Hk as [Hin _]; [|done]. destruct Ht as [_ _ _ _ _ Hd].
  rewrite Forall_forall in Hd. apply (Hd d Hin).
Qed.

Lemma write_intent_identity (x y : Runtime) o intent out : write_intent x o intent = (y, out) -> same_identity x y.
Proof.
  unfold write_intent, writeGlobalCommitJournal. destruct intent; [|by intros [= <- _]].
  destruct (encodeGlobalCommitJournal _); [|by intros [= <- _]]. by destruct o; intros [= <- _].
Qed.

Lemma restore_frame (x y : Runtime) raw registry config height parent :
  restoreJournalEconomics x raw registry config height parent = Ok y -> same_identity x y /\ rt_States y = rt_States x.
Proof.
  unfold restoreJournalEconomics. destruct (blen raw =? 0); intros E.
  - apply bind_Ok in E as ([] & _ & E). by apply Ok_inj in E as <-.
  - apply bind_Ok in E as (d & _ & E). apply bind_Ok in E as ([] & _ & E). by apply Ok_inj in E as <-.
Qed.

(** A recovery that succeeds, from any state of the runtime. *)
Lemma RecoverGlobal_Ok (x y : Runtime) io validators registry config :
  stores_inv (rt_States x) -> RecoverGlobalCommitJournal x io validators registry config = (y, Ok tt) ->
  exists raw intent, rt_journal x = Some raw /\ decodeGlobalCommitJournal raw = Ok intent /\ same_identity x y /\
    rt_Height y = h_Height (gi_Header intent) /\ rt_ParentHash y = HeaderConsensusHash (gi_Header intent) /\
    rt_recoveryRequired y = false /\
    forall shard, 0 <= shard < rt_ShardCount x -> root_reached (index_roots (gi_Commitments intent)) y shard.
Proof.
  intros Hst E. unfold RecoverGlobalCommitJournal in E.
  destruct (recover_checks x validators) as [intent|] eqn:Ec; [|done].
  apply bind_Ok in Ec as ([] & _ & Ec). apply bind_Ok in Ec as (raw & Hj%some_or_Ok & Ec). apply bind_Ok in Ec as (i & Hd & Ec).
  repeat (apply bind_Ok in Ec as (? & _ & Ec)). apply Ok_inj in Ec. subst i.
  destruct (decoded_intent _ _ Hd) as (Ht & Hv & _).
  apply then_do_Ok in E as (z & Ez & E). apply recover_shards_Ok in Ez as (I1 & _ & Hr & _);
    [|apply NoDup_shard_range|done|by apply deltas_typed_of|done].
  destruct (restoreJournalEconomics _ _ _ _ _ _) as [w|] eqn:Ew; [|done]. apply restore_frame in Ew as [I2 Hs2].
  apply then_do_Ok in E as (v & Ev & E).
  assert (same_identity w v /\ rt_States v = rt_States w) as [I3 Hs3].
  { destruct (_ =? _); [by injection Ev as <-|]. pose proof Ev as F%write_intent_identity.
    by apply write_intent_frame in Ev as [_ ?]. }
  injection E as <-. exists raw, intent. split_and!; try done.
  - transitivity z; [done|]. transitivity w; [done|]. transitivity v; [done|]. by unfold same_identity.
  - intros shard Hs. destruct (Hr shard) as (st & K1 & K2); [by apply elem_of_shard_range|]. exists st.
    cbn [set_recovery set_tip rt_States]. by rewrite Hs3, Hs2.
Qed.

(** ** Recovery from the history *)

Lemma chain_heights validators chain i :
  certified_chain validators chain -> i ∈ chain -> h_Height (gi_Header i) <= Z.of_nat (length chain).
Proof.
  induction 1 as [|l j Hl IH Hh _ _ _ _]; intros Hin; [by apply not_elem_of_nil in Hin|]. rewrite length_app. cbn [length].
  apply elem_of_app in Hin as [Hin| ->%list_elem_of_singleton]; [apply IH in Hin; lia|lia].
Qed.

Lemma chain_tip_height validators chain tip :
  certified_chain validators chain -> last chain = Some tip -> h_Height (gi_Header tip) = Z.of_nat (length chain).
Proof.
  destruct 1 as [|l i _ Hh _ _ _ _]; [done|]. rewrite last_snoc. intros [= ->]. rewrite Hh, length_app. cbn [length]. lia.
Qed.

(** The journal and the history agree on the roots of the tip. *)
Lemma journal_holds_roots journal tip raw current :
  journal_holds journal tip -> intent_typed tip -> intent_valid tip -> gi_ShardCount tip <= 1000000 ->
  journal = Some raw -> decodeGlobalCommitJournal raw = Ok current ->
  index_roots (gi_Commitments current) = index_roots (gi_Commitments tip).
Proof.
  intros (raw' & cur & payload & -> & Hd & H1' & H2') Ht Hv Hn [= ->] Hd'. rewrite Hd in Hd'. apply Ok_inj in Hd' as ->.
  destruct (decoded_intent _ _ Hd) as (Tc & Vc & Nc).
  assert (sorted_intent (with_status current globalCommitPreparing) = sorted_intent tip) as Hs
    by (apply (marshal_same _ _ payload); [by apply with_status_typed|done..]).
  rewrite <-(index_roots_sorted tip Hv), <-Hs. symmetry.
  exact (index_roots_sorted (with_status current globalCommitPreparing) (proj1 (Intent_MarshalBinary_Ok _ _ H1'))).
Qed.

Lemma recovery_checkpoints_Ok (anchor : option AnchorStore) checkpoint cs :
  recovery_checkpoints anchor checkpoint = Ok cs ->
  (forall c, checkpoint = Some c -> c ∈ cs) /\
  (forall a, anchor = Some a -> 0 < fa_height a ->
    mkFinalityCheckpoint (fa_network a) (fa_validatorRoot a) (fa_height a) (fa_hash a) ∈ cs).
Proof.
  unfold recovery_checkpoints. destruct anchor as [a|]; intros E.
  - apply bind_Ok in E as (hw & Hc%or_err_Ok & E). apply Ok_inj in E as <-.
    apply bind_Ok in Hc as ([] & _ & Hc). apply Ok_inj in Hc as <-. cbn [fc_Height]. split.
    + intros c ->. destruct (0 <? _); [apply elem_of_app; left|]; left.
    + intros a' [= <-] Hp. apply Z.ltb_lt in Hp. rewrite Hp. apply elem_of_app. right. left.
  - apply Ok_inj in E as <-. split; [|done]. intros c ->. left.
Qed.

(** C5: recovery never rolls a node back.  When a restarted node recovers from its
    certified history, it stands at the tip of a chain of certified headers that
    starts at the genesis, every shard at the root the last of them commits to;
    that chain contains the checkpoint the operator demanded and the high-water
    mark of the anchor, so the tip is never below the mark; and the anchor has
    moved to the tip.  A directory rolled back to an older state is refused. *)
Theorem recovery_never_rolls_back (r r' : Runtime) io validators genesis checkpoint file fio genesisRoots file' h :
  openCertifiedHistory file fio (rt_Network r) (rt_NativeToken r) (rt_ValidatorRoot r) genesisRoots false = (file', Ok h) ->
  rt_history r = Some h -> Z.of_nat (size genesisRoots) = rt_ShardCount r ->
  stores_inv genesis -> stores_inv (rt_States r) ->
  RecoverCertifiedHistoryWithCheckpoint r io validators genesis checkpoint = (r', Ok tt) ->
  exists chain tip, certified_chain validators chain /\ last chain = Some tip /\
    rt_Height r' = Z.of_nat (length chain) /\ rt_ParentHash r' = HeaderConsensusHash (gi_Header tip) /\
    RecoveryRequired r' = false /\
    (forall shard, 0 <= shard < rt_ShardCount r ->
      exists store, rt_States r' !! shard = Some store /\ backend_Root store = intent_root tip shard) /\
    (forall c, checkpoint = Some c -> names_ancestor chain c) /\
    (forall a, rt_anchorStore r = Some a ->
      (0 < fa_height a ->
        names_ancestor chain (mkFinalityCheckpoint (fa_network a) (fa_validatorRoot a) (fa_height a) (fa_hash a)) /\
        fa_height a <= rt_Height r') /\
      exists a', rt_anchorStore r' = Some a' /\ fa_height a' = rt_Height r' /\ fa_hash a' = rt_ParentHash r').
Proof.
  intros Hopen Hh Hn Hg Hst E. unfold RecoverCertifiedHistoryWithCheckpoint in E. rewrite Hh in E.
  destruct (recovery_checkpoints _ _) as [cs|] eqn:Ecs; [|done].
  destruct (ReplayWithCheckpoints _ _ _ _ _) as [[h' stores] [tip|]] eqn:Er; [|done].
  destruct (replay_sound _ _ _ _ _ _ _ _ _ _ _ _ _ _ _ Hopen Hg Er) as
    (raws & chain & _ & Hp & Hch & Hlast & Hcs & Hj & _ & _ & _). exists chain, tip.
  assert (exists raw, parseGlobalCommitIntent raw = Ok tip) as [raw Hraw].
  { apply last_Some_elem_of, list_elem_of_lookup in Hlast as [k Hk].
    destruct (Forall2_lookup_r _ _ _ _ _ Hp Hk) as (raw & _ & ?). by exists raw. }
  destruct (parsed_intent _ _ Hraw) as (Tt & Tv & Tn).
  apply then_do_Ok in E as (x & Ex & E). apply RecoverGlobal_Ok in Ex as (jr & cur & Hjr & Hcur & (I1 & I2 & I3 & I4 & I5) & Hht & Hpa & Hrq & Hro);
    [|done]. cbn [set_stores rt_journal rt_ShardCount rt_anchorStore] in *.
  destruct (tip_is x (gi_Header tip)) eqn:Etip; [|done]. cbn [negb] in E.
  apply andb_prop in Etip as [Etip _]. apply andb_prop in Etip as [T1%Z.eqb_eq T2%bool_decide_eq_true].
  pose proof (chain_tip_height _ _ _ Hch Hlast) as Hlen. destruct (recovery_checkpoints_Ok _ _ _ Ecs) as [K1 K2].
  rewrite Forall_forall in Hcs.
  assert (rt_Height r' = rt_Height x /\ rt_ParentHash r' = rt_ParentHash x /\ rt_States r' = rt_States x /\
    rt_recoveryRequired r' = false /\
    forall a, rt_anchorStore x = Some a -> exists a', rt_anchorStore r' = Some a' /\ fa_height a' = rt_Height x /\ fa_hash a' = rt_ParentHash x)
    as (R1 & R2 & R3 & R4 & R5).
  { unfold commit_anchor in E. destruct (rt_anchorStore x) as [a|] eqn:Ea; [|by injection E as <-; rewrite Ea].
    change anchor_advance with advance in E. cbn [anchor_advance durable_stores] in E.
    destruct (advance _ _ _) as [a' [[]|]] eqn:Ead; [|done]. injection E as <-. cbn. split_and!; try done.
    intros ? _. exists a'. apply advance_Ok in Ead as [A1 A2]. cbn in A1, A2. split; [done|]. by rewrite A1, A2, T1. }
  split_and!; try done; try congruence.
  - intros shard Hs. destruct (Hro shard Hs) as (st & S1 & S2). exists st. rewrite R3. split; [done|].
    rewrite (journal_holds_roots _ _ _ _ Hj Tt Tv Tn Hjr Hcur) in S2. unfold intent_root, root_at. by rewrite S2.
  - intros c Hc. by apply Hcs, K1.
  - intros a Ha. rewrite <-I5 in Ha. split; [|rewrite R1, R2; by apply (R5 a)]. intros Hpos. rewrite I5 in Ha.
    pose proof (Hcs _ (K2 a Ha Hpos)) as Hna. split; [done|]. destruct Hna as (i & Hi & Hih & _).
    apply (chain_heights _ _ _ Hch) in Hi. cbn in Hih. lia.
Qed.
End recovery.
