(* ===== verification/HistoryReplay.v ===== *)
(** * HistoryReplay

    A node can recover from what it wrote: the history that its own commits
    appended replays over the genesis stores, and together with the journal it
    brings a restarted node back to the tip, wherever the last commit stopped
    after it was recorded. *)

From S2P Require Import Prelude GoLib Codec Crypto Types Merkle Object Smt SmtProofs SmtTheorems Sharding ShardingProofs.
From S2P Require Import Tx TxProofs Consensus ConsensusProofs ComputeWork Contracts Execution ExecutionExtended ExecutionProofs.
From S2P Require Import Worldstate WorldstateProofs Batch BatchProofs EconomicsPolicy EconomicsEpoch EconomicsCollector EconomicsEngine.
From S2P Require Import EconomicsProofs Node NodeJournal NodeProofs NodeRecovery NodeHistory AnchorProofs HistoryProofs HistoryRecovery.

Open Scope Z_scope.

(** ** Histories that were written *)

Definition with_file (h : History) (file : bytes) : History :=
  mkHistory file (ch_network h) (ch_native h) (ch_validatorRoot h) (ch_shards h) (ch_roots h) (ch_height h) (ch_parent h)
    (ch_lastDigest h) (ch_count h) (ch_closed h) (ch_poisoned h).

Section written.
Context `{HC : Crypto} {St : Type} `{HB : Backend St} `{HS : !BackendSpec St}.
Context (validators : ValidatorSet).

(** The payloads [raws] take the history from [h0] to [h] and the stores from
    the genesis to [stores]; [tip] is the last intent. *)
Inductive written (h0 : History) (genesis : gmap Z St)
    : list bytes -> History -> gmap Z St -> option globalCommitIntent -> Prop :=
| wr_open : written h0 genesis [] h0 genesis None
| wr_append raws h stores tip raw i stores' :
    written h0 genesis raws h stores tip -> 0 < blen raw <= maxGlobalCommitJournalBytes ->
    ch_count h < maxCertifiedHistoryRecords -> parseGlobalCommitIntent raw = Ok i -> gi_Status i = globalCommitPreparing ->
    checked h validators i ->
    replay_shards (ch_roots h) (index_deltas (gi_Deltas i)) (shard_range (ch_shards h)) stores = (stores', Ok tt) ->
    written h0 genesis (raws ++ [raw]) (record_intent h (ch_file h) i (record_digest (ch_lastDigest h) raw)) stores' (Some i).

Lemma written_digest h0 genesis raws h stores tip :
  written h0 genesis raws h stores tip -> ch_lastDigest h0 = zero32 -> ch_lastDigest h = last_record zero32 raws.
Proof.
  induction 1 as [|raws h stores tip raw i stores' _ IH _ _ _ _ _ _]; intros H0; [done|]. cbn [record_intent ch_lastDigest].
  unfold last_record. rewrite foldl_snoc, (IH H0). done.
Qed.

(** A written history replays, and the loop goes on behind it. *)
Lemma written_replays h0 genesis raws h stores tip :
  written h0 genesis raws h stores tip -> ch_lastDigest h0 = zero32 -> forall fuel rest,
  replay_history (length raws + fuel) validators [] (mkReplay h0 genesis zero32 None [] (enc_records zero32 raws ++ rest)) =
  replay_history fuel validators [] (mkReplay h stores (ch_lastDigest h) tip [] rest).
Proof.
  intros Hw H0. induction Hw as [|raws h stores tip raw i stores' Hw IH Hl Hc Hp Hst Hck Hs]; intros fuel rest; [by rewrite H0|].
  rewrite length_app, <-Nat.add_assoc, enc_records_snoc, <-app_assoc, IH by done. cbn [length Nat.add replay_history rp_unread].
  rewrite <-(written_digest _ _ _ _ _ _ Hw H0).
  assert (replay_record validators [] (mkReplay h stores (ch_lastDigest h) tip []
    (history_record raw (record_digest (ch_lastDigest h) raw) ++ rest)) =
    (mkReplay (record_intent h (ch_file h) i (record_digest (ch_lastDigest h) raw)) stores' (record_digest (ch_lastDigest h) raw)
       (Some i) [] rest, Ok tt)) as Hr.
  { apply replay_history_record_Ok. exists raw, i, [], rest, stores'. split; [|done]. by constructor. }
  rewrite Hr. destruct (Z.eqb_spec (blen (history_record raw (record_digest (ch_lastDigest h) raw) ++ rest)) 0) as [Hz|_]; [|done].
  rewrite history_record_eq in Hz by lia. unfold blen in Hz. rewrite !length_app, length_be in Hz. lia.
Qed.

(** ** What [Append] writes *)

Lemma Append_Ok h io intent h' :
  Append h io intent validators = (h', Ok tt) ->
  exists payload, Intent_MarshalBinary (with_status intent globalCommitPreparing) = Ok payload /\
    0 < blen payload <= maxGlobalCommitJournalBytes /\ ch_count h < maxCertifiedHistoryRecords /\ checked h validators intent /\
    blen (ch_file h') <= maxCertifiedHistoryBytes /\ ch_closed h = false /\ ch_poisoned h = false /\
    let digest := record_digest (ch_lastDigest h) payload in
    h' = record_intent h (ch_file h ++ history_record payload digest) (with_status intent globalCommitPreparing) digest.
Proof.
  unfold Append. destruct (_ || negb (is_ok _)) eqn:Eg; [done|]. bool_inv.
  match goal with H : is_ok _ = true |- _ => apply is_ok_true in H as [[] Hck%checkIntent_spec] end.
  destruct (Intent_MarshalBinary _) as [payload|] eqn:Em; [|done].
  destruct (_ || (maxGlobalCommitJournalBytes <? _)) eqn:El; [done|]. bool_inv.
  destruct (maxCertifiedHistoryBytes <? _) eqn:Ef; [done|]. destruct io; [|done]. intros [= <-]. exists payload.
  apply Z.ltb_ge in Ef. cbn [append_file record_intent ch_file]. unfold blen in *. rewrite length_app.
  split_and!; try done; lia.
Qed.

Lemma checked_sorted h i : checked h validators i -> checked h validators (sorted_intent i).
Proof.
  intros [Hv Hn Hp Hh Hvs Hc Hr]. constructor; try done; [by apply sorted_intent_valid|].
  by rewrite index_roots_sorted, index_deltas_sorted.
Qed.

Lemma checked_status h i : checked h validators i -> checked h validators (with_status i globalCommitPreparing).
Proof. intros []. constructor; try done. apply with_status_valid; [done|by left]. Qed.

Lemma checked_file h i file : checked h validators i -> checked (with_file h file) validators i.
Proof. by intros []. Qed.

Lemma record_sorted h file i digest :
  intent_valid i -> record_intent h file (sorted_intent i) digest = record_intent h file i digest.
Proof.
  intros Hv. unfold record_intent. rewrite !index_onto, index_roots_sorted by done. done.
Qed.

Lemma written_count h0 genesis raws h stores tip :
  written h0 genesis raws h stores tip -> ch_count h0 = 0 -> ch_count h = Z.of_nat (length raws).
Proof.
  induction 1 as [|raws h stores tip raw i stores' _ IH _ Hc _ _ _ _]; intros H0; [done|]. specialize (IH H0).
  cbn [record_intent ch_count]. unfold add32, maxCertifiedHistoryRecords in *. rewrite length_app, Z.mod_small by lia. cbn [length]. lia.
Qed.

Lemma enc_records_longer raws prev : (length raws <= length (enc_records prev raws))%nat.
Proof.
  revert prev. induction raws as [|raw raws IH]; intros prev; [done|]. cbn [enc_records length]. rewrite length_app.
  specialize (IH (record_digest prev raw)). unfold history_record. writer_norm. rewrite !length_app, length_be. lia.
Qed.

(** The end of a replay over a written history. *)
Lemma written_replay_tip (h0 : History) genesis raws h stores tip journal :
  written h0 genesis raws h stores (Some tip) -> ch_lastDigest h0 = zero32 -> ch_count h0 = 0 -> ch_height h0 = 0 ->
  ch_closed h0 = false -> ch_poisoned h0 = false -> Z.of_nat (size genesis) = ch_shards h0 ->
  blen (ch_file h0) <= maxCertifiedHistoryBytes ->
  skipn (Z.to_nat (history_offset h0)) (ch_file h0) = enc_records zero32 raws ->
  check_tip (mkReplay h stores (ch_lastDigest h) (Some tip) [] []) journal = Ok tip ->
  ReplayWithCheckpoints h0 validators genesis journal [] = (h, stores, Ok tip).
Proof.
  intros Hw H0 Hc0 Hh0 Hcl Hpo Hn Hsz Hu Ht. unfold ReplayWithCheckpoints. rewrite Hc0, Hh0, Hcl, Hpo, Hn, !Z.eqb_refl.
  rewrite (proj2 (Z.ltb_ge maxCertifiedHistoryBytes _)) by done. cbn [negb orb existsb fail_if mbind res_bind].
  change (2 <? blen []) with false. cbn [fail_if mbind res_bind Z.eqb negb orb length replicate]. rewrite Hu.
  pose proof (enc_records_longer raws zero32) as Hlen.
  replace (S (length (enc_records zero32 raws))) with (length raws + S (length (enc_records zero32 raws) - length raws))%nat by lia.
  pose proof (written_replays _ _ _ _ _ _ Hw H0 (S (length (enc_records zero32 raws) - length raws)) []) as Hr.
  rewrite app_nil_r in Hr. rewrite Hr. cbn [replay_history rp_unread].
  change (blen [] =? 0) with true. cbn [rp_history rp_stores]. by rewrite Ht.
Qed.
End written.

(** ** Commits record themselves *)

Section node.
Context `{HC : Crypto} `{HM : MapOrder} `{HH : ScriptHost} `{HI : IdleCapital}.
Context {St : Type} `{HB : Backend St} `{HSim : Simulator St} `{HS : !BackendSpec St} `{HE : !EconomicCheckpoint}.

Lemma apply_shards_history (r x : Runtime (St := St)) io deltas commitments shards out :
  apply_shards r io deltas commitments shards = (x, out) -> rt_history x = rt_history r.
Proof.
  revert r. induction shards as [|shard shards IH]; intros r E; cbn [apply_shards] in E; [by injection E as <- _|].
  destruct (store ← _; _) as [[store root]|]; [|by injection E as <- _].
  destruct (io_apply io shard); [|by injection E as <- _..]. destruct (bool_decide (Some root = _)); [|by injection E as <- _].
  apply IH in E. by rewrite E.
Qed.

Lemma commit_anchor_history (r x : Runtime (St := St)) io header parent out :
  commit_anchor r io header parent = (x, out) -> rt_history x = rt_history r.
Proof.
  unfold commit_anchor. destruct (rt_anchorStore r); [|by intros [= <- _]]. by destruct (anchor_advance _ _ _) as [? []]; intros [= <- _].
Qed.

(** Once the entry is in the journal, the history holds what [Append] made of
    it, whatever happens afterwards. *)
Lemma commit_appends (r x : Runtime (St := St)) io candidate validators plan intent h raw out :
  pl_intent plan = Some intent -> rt_history r = Some h -> io_prepare io = WriteOk ->
  encodeGlobalCommitJournal intent = Ok raw -> run_commit r io candidate validators plan = (x, out) ->
  rt_history x = Some (Append h (io_history io) intent validators).1 /\
  (is_ok out = true -> (Append h (io_history io) intent validators).2 = Ok tt).
Proof.
  intros Hpi Hh Hio Henc E. unfold run_commit in E. rewrite Hpi in E. unfold write_intent at 1, writeGlobalCommitJournal in E.
  rewrite Henc, Hio in E. cbn [then_do] in E. unfold commit_history in E. cbn [set_journal rt_history] in E. rewrite Hh in E.
  change (history_Append h) with (Append h) in E. cbn [history_Append durable_stores] in E.
  destruct (Append h (io_history io) intent validators) as [h1 [[]|e]] eqn:Ea; cbn [then_do fail_closed] in E;
    [|by injection E as <- <-].
  split; [|done]. destruct (apply_shards _ _ _ _ _) as [b [[]|]] eqn:Eb; cbn [then_do] in E; apply apply_shards_history in Eb;
    cbn in Eb; [|injection E as <- _; by rewrite Eb].
  destruct (write_intent _ _ _) as [c [[]|]] eqn:Ec; cbn [then_do] in E; apply write_intent_identity in Ec as (_ & _ & _ & Ec & _);
    [|injection E as <- _; by rewrite Ec].
  destruct (commit_anchor _ _ _ _) as [d [[]|]] eqn:Ed; cbn [then_do] in E; apply commit_anchor_history in Ed;
    injection E as <- _; cbn [rt_history set_tip set_economics]; by rewrite Ed, Ec.
Qed.

(** The history on disk and the stores in memory, from the genesis on. *)
Record recorded (validators : ValidatorSet) (h0 : History) (genesis : gmap Z St) (h : History) (stores : gmap Z St)
    (raws : list bytes) (tip : option globalCommitIntent) : Prop := {
  rc_file : ch_file h = ch_file h0 ++ enc_records zero32 raws;
  rc_size : blen (ch_file h) <= maxCertifiedHistoryBytes;
  rc_shards : ch_shards h = ch_shards h0;
  rc_written : forall file, written validators (with_file h0 file) genesis raws (with_file h file) stores tip;
}.

Lemma append_recorded validators h0 genesis h h1 stores stores' raws tip io intent :
  recorded validators h0 genesis h stores raws tip -> ch_lastDigest h0 = zero32 ->
  Append h io intent validators = (h1, Ok tt) -> intent_typed intent -> gi_ShardCount intent <= 1000000 ->
  replay_shards (ch_roots h) (index_deltas (gi_Deltas intent)) (shard_range (ch_shards h)) stores = (stores', Ok tt) ->
  exists raw, recorded validators h0 genesis h1 stores' (raws ++ [raw])
    (Some (sorted_intent (with_status intent globalCommitPreparing))).
Proof.
  intros [Hf Hsz Hsh Hw] H0 (payload & Hm & Hl & Hc & Hck & Hsz' & _ & _ & ->)%Append_Ok Ht Hn Hs.
  set (i := with_status intent globalCommitPreparing) in *.
  destruct (Intent_MarshalBinary_Ok _ _ Hm) as (Hv & craw & Hcraw & Hpay).
  assert (parseGlobalCommitIntent payload = Ok (sorted_intent i)) as Hp.
  { rewrite Hpay. apply parse_intent; [by apply sorted_intent_typed, with_status_typed|by apply sorted_intent_valid|done|done]. }
  exists payload. constructor; cbn [record_intent ch_file ch_shards].
  - rewrite Hf, <-app_assoc, enc_records_snoc. do 3 f_equal.
    pose proof (written_digest _ _ _ _ _ _ _ (Hw []) H0) as Hd. cbn in Hd. by rewrite Hd.
  - done.
  - done.
  - intros file. specialize (Hw file).
    replace (with_file (record_intent h _ i _) file) with
      (record_intent (with_file h file) file (sorted_intent i) (record_digest (ch_lastDigest h) payload))
      by (rewrite record_sorted by done; reflexivity).
    apply (wr_append _ _ _ raws (with_file h file) stores tip payload (sorted_intent i) stores'); try done.
    + by apply checked_file, checked_sorted, checked_status.
    + cbn [with_file ch_roots ch_shards]. by rewrite index_deltas_sorted.
Qed.

(** The deltas that a commit recorded take its stores from before to after. *)
Lemma commit_replays (r r1 : Runtime (St := St)) candidate certificate validators commitments shards intent h :
  preflighted r candidate commitments shards ->
  buildGlobalCommitIntent r candidate certificate commitments [] = Ok intent ->
  (forall shard, 0 <= shard < rt_ShardCount r -> exists pre post c, shard_moved r r1 candidate commitments shard pre post c) ->
  (forall shard, is_Some (rt_States r !! shard) <-> 0 <= shard < rt_ShardCount r) ->
  (forall shard, is_Some (rt_States r1 !! shard) <-> 0 <= shard < rt_ShardCount r) ->
  checked h validators intent -> ch_shards h = rt_ShardCount r ->
  replay_shards (ch_roots h) (index_deltas (gi_Deltas intent)) (shard_range (ch_shards h)) (rt_States r) =
    (rt_States r1, Ok tt).
Proof.
  intros Hpf Hb Hmoved Hd Hd1 Hck Hn. destruct (intent_index _ _ _ _ _ _ _ Hpf Hb) as (Hv & _ & Hir & Hid).
  rewrite index_roots_sorted in Hir by done. rewrite index_deltas_sorted in Hid by done.
  apply replay_shards_Ok; [apply NoDup_shard_range|]. rewrite Hn. split.
  - intros shard Hs%elem_of_shard_range. destruct (Hmoved shard Hs) as (pre & post & c & [M1 M2 M3 M4 M5]).
    exists pre, post. split; [done|]. split; [done|].
    pose proof (ck_roots _ _ _ Hck) as Hr. rewrite Forall_forall in Hr. specialize (Hr shard).
    rewrite elem_of_shard_range, Hn in Hr. specialize (Hr Hs). apply bind_Ok in Hr as (old & Hold%some_or_Ok & Hr).
    specialize (Hid shard). specialize (Hir shard). unfold root_at in Hr |- *. rewrite Hold. rewrite Hir, M3 in Hr. cbn in Hr.
    destruct (cn_deltas candidate !! shard) as [delta|].
    + destruct Hid as (store & c' & S1 & S2 & Hid). rewrite Hid in Hr |- *. apply fail_if_Ok in Hr. bool_inv. cbn in *.
      rewrite M1 in S1. injection S1 as <-. rewrite M3 in S2. injection S2 as <-. split; [congruence|apply M5].
    + rewrite Hid in Hr |- *. apply fail_if_Ok in Hr. bool_inv. cbn in *. subst post. split; [congruence|done].
  - intros k Hk. rewrite elem_of_shard_range in Hk. rewrite <-Hd in Hk. apply eq_None_not_Some in Hk as Hk1. rewrite Hk1.
    apply eq_None_not_Some. by rewrite Hd1, <-Hd.
Qed.

(** ** The life of a node *)

(** The commits of a node since the genesis; the validators stay the same, as the
    history requires. *)
Inductive node_run (validators : ValidatorSet) (r0 : Runtime (St := St)) : Runtime -> Prop :=
| nr_genesis : node_run validators r0 r0
| nr_commit r sg candidate certificate r1 finalized :
    node_run validators r0 r -> commit_inputs r sg candidate -> durable r -> certified_typed candidate certificate validators ->
    Commit r io_ok sg candidate certificate validators = (r1, Ok finalized) -> node_run validators r0 r1.

Section run.
Context (validators : ValidatorSet) (r0 : Runtime (St := St)) (h0 : History).
Context (Hh0 : rt_history r0 = Some h0) (H0d : ch_lastDigest h0 = zero32) (H0n : ch_shards h0 = rt_ShardCount r0).
Context (H0s : blen (ch_file h0) <= maxCertifiedHistoryBytes).

(** What one commit adds, wherever it stops behind the history. *)
Lemma commit_recorded (r r1 x : Runtime) io sg candidate certificate finalized out h raws tip :
  commit_inputs r sg candidate -> durable r -> certified_typed candidate certificate validators ->
  Commit r io_ok sg candidate certificate validators = (r1, Ok finalized) ->
  Commit r io sg candidate certificate validators = (x, out) -> io_prepare io = WriteOk -> io_history io = IoOk ->
  rt_history r = Some h -> recorded validators h0 (rt_States r0) h (rt_States r) raws tip -> rt_ShardCount r = ch_shards h0 ->
  exists plan intent raw h1,
    prepare_commit r sg candidate certificate validators = Ok plan /\ pl_intent plan = Some intent /\ intent_typed intent /\
    gi_Status intent = globalCommitPreparing /\ intent_valid intent /\ is_ok (Intent_MarshalBinary intent) = true /\
    rt_history x = Some h1 /\
    recorded validators h0 (rt_States r0) h1 (rt_States r1) (raws ++ [raw]) (Some (sorted_intent intent)) /\
    stores_inv (rt_States r1).
Proof.
  intros Hci Hd Hct E Ex Hio1 Hio2 Hh Hrec Hn.
  destruct (crash_interrupted _ _ _ _ _ _ _ Hci Hd Hct E) as (plan & intent & raw2 & Ep & Hpi & Hpf & Hb & Hty & _ & _ & _ &
    He2 & _ & _ & _ & Hmoved & Hcut & _).
  destruct (intent_index _ _ _ _ _ _ _ Hpf Hb) as (Hv & Hst & _ & _).
  assert (exists raw1, encodeGlobalCommitJournal intent = Ok raw1) as [raw1 He1].
  { unfold Commit in E. rewrite Ep in E. unfold run_commit in E. rewrite Hpi in E. unfold write_intent at 1, writeGlobalCommitJournal in E.
    destruct (encodeGlobalCommitJournal intent) as [raw1|]; [by exists raw1|done]. }
  pose proof E as E'. unfold Commit in E', Ex. rewrite Ep in E', Ex.
  destruct (commit_appends _ _ io_ok _ _ _ _ _ _ _ Hpi Hh eq_refl He1 E') as [_ Hok].
  destruct (commit_appends _ _ _ _ _ _ _ _ _ _ Hpi Hh Hio1 He1 Ex) as [Hx _].
  rewrite Hio2 in Hx. cbn [io_history io_ok] in Hok.
  destruct (Append h IoOk intent validators) as [h1 o] eqn:Ea. cbn in Hok, Hx. specialize (Hok eq_refl) as ->.
  destruct (Append_Ok _ _ _ _ _ Ea) as (_ & _ & _ & _ & Hck & _).
  assert (gi_ShardCount intent <= 1000000) as Hmax.
  { destruct (ck_names _ _ _ Hck) as (_ & _ & _ & ->). rewrite (rc_shards _ _ _ _ _ _ _ Hrec), <-Hn. by apply (du_count r Hd). }
  assert (replay_shards (ch_roots h) (index_deltas (gi_Deltas intent)) (shard_range (ch_shards h)) (rt_States r) =
    (rt_States r1, Ok tt)) as Hre.
  { apply (commit_replays r r1 candidate certificate validators (pl_commitments plan) (pl_shards plan)); try done.
    - apply Hd.
    - specialize (Hcut _ _ _ E). cbn in Hcut. by apply (proj2 (in_stores _ _ _ _ _ _ Hcut)).
    - by rewrite (rc_shards _ _ _ _ _ _ _ Hrec). }
  destruct (append_recorded _ _ _ _ _ _ _ _ _ _ _ Hrec H0d Ea Hty Hmax Hre) as [raw Hrec1].
  replace (with_status intent globalCommitPreparing) with intent in Hrec1 by (rewrite <-Hst; by destruct intent).
  apply bind_Ok in He1 as (payload & Hpay%or_err_Ok & _). exists plan, intent, raw, h1. rewrite Hpay. split_and!; try done.
  apply replay_stores in Hre; [apply Hre| |by apply deltas_typed_of]. intros k s. apply (ci_stores _ _ _ Hci).
Qed.

(** A commit keeps the identity of the runtime. *)
Lemma commit_identity (r r1 : Runtime) sg candidate certificate finalized :
  commit_inputs r sg candidate -> durable r -> certified_typed candidate certificate validators ->
  Commit r io_ok sg candidate certificate validators = (r1, Ok finalized) ->
  rt_Network r1 = rt_Network r /\ rt_NativeToken r1 = rt_NativeToken r /\ rt_ValidatorRoot r1 = rt_ValidatorRoot r /\
  rt_ShardCount r1 = rt_ShardCount r.
Proof.
  intros Hci Hd Hct E. destruct (crash_interrupted _ _ _ _ _ _ _ Hci Hd Hct E) as (? & ? & ? & _ & _ & _ & _ & _ & _ & _ & _ & _ & _ & _ & _ & _ & Hcut & _).
  specialize (Hcut _ _ _ E). cbn in Hcut. by destruct (in_config _ _ _ _ _ _ Hcut) as (-> & -> & -> & -> & _).
Qed.

Lemma run_recorded r : node_run validators r0 r ->
  (rt_Network r = rt_Network r0 /\ rt_NativeToken r = rt_NativeToken r0 /\ rt_ValidatorRoot r = rt_ValidatorRoot r0 /\
   rt_ShardCount r = rt_ShardCount r0) /\
  exists h raws tip, rt_history r = Some h /\ recorded validators h0 (rt_States r0) h (rt_States r) raws tip.
Proof.
  induction 1 as [|r sg candidate certificate r1 finalized Hrun [(I1 & I2 & I3 & I4) (h & raws & tip & Hh & Hrec)] Hci Hd Hct E].
  - split; [done|]. exists h0, [], None. split; [done|]. constructor; try done; [by rewrite app_nil_r|]. intros file. constructor.
  - destruct (commit_recorded _ _ _ _ _ _ _ _ _ _ _ _ Hci Hd Hct E E eq_refl eq_refl Hh Hrec ltac:(congruence))
      as (plan & intent & raw & h1 & _ & _ & _ & _ & _ & _ & Hh1 & Hrec1 & _). split; [|by eauto].
    destruct (commit_identity _ _ _ _ _ _ Hci Hd Hct E) as (-> & -> & -> & ->). done.
Qed.
End run.

(** ** Restart *)

(** A node that restarts opens its stores, its journal and its history again. *)
Definition reopen (x : Runtime (St := St)) (file : option bytes) (genesisRoots : gmap Z bytes) : res Runtime :=
  r ← restart x;
  (EnableCertifiedHistory r file IoOk genesisRoots false).2.

Lemma length_roots (roots : gmap Z bytes) l : Forall (fun shard => arr32 (root_at roots shard)) l ->
  length (concat (root_at roots <$> l)) = (32 * length l)%nat.
Proof.
  induction 1 as [|x l Hx _ IH]; [done|]. cbn [fmap list_fmap concat length]. rewrite length_app, Hx, IH. lia.
Qed.

Lemma length_history_header network native root (roots : gmap Z bytes) :
  arr32 network -> arr32 native -> arr32 root -> Z.of_nat (size roots) <= 16 ->
  (forall shard, arr32 (root_at roots shard)) ->
  length (history_header network native root roots) = (104 + 32 * size roots)%nat.
Proof.
  intros Hn Hna Hr Hs Hro. unfold history_header. rewrite uint32_small by (unfold u32; lia).
  rewrite (writer_loop _ (root_at roots)) by (intros; by writer_norm). writer_norm. unfold arr in *.
  rewrite !length_app, length_be, Hn, Hna, Hr, length_roots by (apply Forall_forall; intros; apply Hro).
  unfold shard_range. rewrite length_seqZ. change (length certifiedHistoryMagic) with 4%nat. lia.
Qed.

(** The history of a new node. *)
Lemma created_history (g r0 : Runtime (St := St)) roots file :
  EnableCertifiedHistory g None IoOk roots true = (file, Ok r0) ->
  (0 < Z.of_nat (size roots) <= 16) /\ Z.of_nat (size roots) = rt_ShardCount r0 /\
  rt_history r0 = Some (mkHistory (history_header (rt_Network r0) (rt_NativeToken r0) (rt_ValidatorRoot r0) roots)
    (rt_Network r0) (rt_NativeToken r0) (rt_ValidatorRoot r0) (Z.of_nat (size roots)) roots 0 zero32 zero32 0 false false) /\
  forall data, data = history_header (rt_Network r0) (rt_NativeToken r0) (rt_ValidatorRoot r0) roots ++
      skipn (length (history_header (rt_Network r0) (rt_NativeToken r0) (rt_ValidatorRoot r0) roots)) data ->
    openCertifiedHistory (Some data) IoOk (rt_Network r0) (rt_NativeToken r0) (rt_ValidatorRoot r0) roots false =
    (Some data, Ok (mkHistory data (rt_Network r0) (rt_NativeToken r0) (rt_ValidatorRoot r0) (Z.of_nat (size roots)) roots 0
       zero32 zero32 0 false false)).
Proof.
  unfold EnableCertifiedHistory. destruct (_ || negb (_ =? rt_ShardCount g)) eqn:Eg; [done|]. bool_inv.
  unfold openCertifiedHistory at 1. destruct (_ || existsb _ _) eqn:Eo; [done|]. intros [= _ <-].
  cbn [set_stores rt_history rt_ShardCount rt_Network rt_NativeToken rt_ValidatorRoot append_file app].
  assert (0 < Z.of_nat (size roots) <= 16) as Hs by (bool_inv; lia).
  rewrite uint32_small by (unfold u32; lia). split_and!; try done; try lia.
  intros data Hd. apply (f_equal (take (length (history_header (rt_Network g) (rt_NativeToken g) (rt_ValidatorRoot g) roots)))) in Hd.
  rewrite take_app_length in Hd. unfold openCertifiedHistory. rewrite Eo, uint32_small by (unfold u32; lia). do 2 f_equal.
  by rewrite bool_decide_eq_true_2.
Qed.

(** A restarted node with its history attached is still in an interrupted state. *)
Lemma reopen_interrupted (r r1 x : Runtime (St := St)) candidate certificate commitments shards intent roots data h :
  preflighted r candidate commitments shards ->
  buildGlobalCommitIntent r candidate certificate commitments [] = Ok intent -> 0 < rt_ShardCount r <= 1000000 ->
  interrupted r r1 candidate commitments intent x -> Z.of_nat (size roots) = rt_ShardCount r ->
  openCertifiedHistory (Some data) IoOk (rt_Network r) (rt_NativeToken r) (rt_ValidatorRoot r) roots false = (Some data, Ok h) ->
  exists z, reopen x (Some data) roots = Ok z /\ interrupted r r1 candidate commitments intent z /\
    rt_history z = Some h /\ rt_anchorStore z = None /\ rt_journal z = rt_journal x /\ rt_States z = rt_States x.
Proof.
  intros Hpf Hb Hn Hi Hs Ho. destruct (restart_interrupted _ _ _ _ _ _ _ _ Hpf Hb Hn Hi) as (y & Hy & Hiy).
  unfold reopen. rewrite Hy. cbn [mbind res_bind].
  assert (rt_history y = None /\ rt_journalConfigured y = true /\ rt_Height y = 0 /\ rt_ParentHash y = zero32 /\
    rt_anchorStore y = None /\ rt_journal y = rt_journal x /\ rt_States y = rt_States x) as (Y1 & Y2 & Y3 & Y4 & Y5 & Y6 & Y7).
  { unfold restart in Hy. apply bind_Ok in Hy as (w & Hw & Hy). apply bind_Ok in Hw as ([] & _ & Hw).
    apply bind_Ok in Hw as ([] & _ & Hw). apply Ok_inj in Hw as <-. apply bind_Ok in Hy as ([] & _ & Hy). apply Ok_inj in Hy as <-.
    done. }
  destruct (in_config _ _ _ _ _ _ Hiy) as (C1 & C2 & C3 & C4 & _).
  unfold EnableCertifiedHistory. rewrite Y1, Y2, Y3, Y4, C1, C2, C3, C4, Hs, !Z.eqb_refl. decide_refl. cbn [negb orb].
  rewrite Ho. cbn [snd mbind res_bind]. eexists. split; [reflexivity|].
  split; [by apply (interrupted_frame _ _ _ _ _ y)|]. by cbn [set_recovery set_stores rt_history rt_anchorStore rt_journal rt_States].
Qed.

(** The tip of the replay is what the journal holds. *)
Lemma interrupted_tip (r r1 x : Runtime (St := St)) candidate commitments intent (h : History) (stores : gmap Z St) digest :
  interrupted r r1 candidate commitments intent x -> intent_typed intent -> gi_ShardCount intent <= 1000000 ->
  gi_Status intent = globalCommitPreparing -> intent_valid intent -> is_ok (Intent_MarshalBinary intent) = true ->
  ch_count h <> 0 ->
  check_tip (mkReplay h stores digest (Some (sorted_intent intent)) [] []) (rt_journal x) = Ok (sorted_intent intent).
Proof.
  intros Hi Ht Hn Hst Hv Hm Hc. destruct (in_journal _ _ _ _ _ _ Hi) as (status & raw & Hs & Henc & Hj & _).
  unfold check_tip. cbn [rp_history rp_matched rp_last existsb]. rewrite (proj2 (Z.eqb_neq _ 0) Hc), Hj.
  cbn [fail_if mbind res_bind some_or].
  rewrite (decode_encode (with_status intent status) raw); [|by apply with_status_typed|done|done].
  cbn [or_err mbind res_bind].
  replace (with_status (sorted_intent (with_status intent status)) globalCommitPreparing) with (sorted_intent intent)
    by (unfold sorted_intent, with_lists, with_status; cbn; by rewrite <-Hst).
  rewrite marshal_sorted by done. apply is_ok_true in Hm as [payload ->]. cbn [or_err mbind res_bind some_or]. by decide_refl.
Qed.

Lemma stores_between_inv (r r1 x : Runtime (St := St)) :
  stores_inv (rt_States r) -> stores_inv (rt_States r1) -> stores_between r r1 x -> stores_inv (rt_States x).
Proof.
  intros H0 H1 [Hb Hd] k s Hk. destruct (Hb k) as (s' & Hs & [Hw|Hw]); [by apply Hd; rewrite Hk| |]; rewrite Hk in Hs;
    injection Hs as <-; [by apply (H0 k)|by apply (H1 k)].
Qed.

(** Recovery of a node whose history replays up to the interrupted commit. *)
Lemma recover_replayed (r r1 z : Runtime) candidate certificate validators commitments shards intent h h1 genesis stores :
  preflighted r candidate commitments shards ->
  buildGlobalCommitIntent r candidate certificate commitments [] = Ok intent ->
  (forall shard, 0 <= shard < rt_ShardCount r -> exists pre post c, shard_moved r r1 candidate commitments shard pre post c) ->
  0 < rt_ShardCount r <= 1000000 -> intent_typed intent -> ValidatorSet_Root validators = Ok (rt_ValidatorRoot r) ->
  s_Network validators = rt_Network r -> VerifyCertificate validators certificate = Ok tt ->
  is_ok (encodeGlobalCommitJournal (with_status intent globalCommitCommitted)) = true ->
  interrupted r r1 candidate commitments intent z -> stores_inv (rt_States z) ->
  rt_history z = Some h -> rt_anchorStore z = None ->
  ReplayWithCheckpoints h validators genesis (rt_journal z) [] = (h1, stores, Ok (sorted_intent intent)) ->
  exists y, RecoverCertifiedHistory z io_ok validators genesis = (y, Ok tt) /\ rt_recoveryRequired y = false /\
    rt_Height y = h_Height (cn_Header candidate) /\ rt_ParentHash y = HeaderConsensusHash (cn_Header candidate) /\
    forall shard, 0 <= shard < rt_ShardCount r -> at_post commitments y shard.
Proof.
  intros Hpf Hb Hmoved Hn Hty Hvr Hnet Hcert Hok Hi Hinv Hh Ha Hrep.
  unfold RecoverCertifiedHistory, RecoverCertifiedHistoryWithCheckpoint. rewrite Hh, Ha. cbn [recovery_checkpoints]. rewrite Hrep.
  set (z' := set_stores z (Some h1) None).
  assert (interrupted r r1 candidate commitments intent z') as Hi' by (by apply (interrupted_frame _ _ _ _ _ z)).
  destruct (RecoverGlobalCommitJournal z' io_ok validators None zero_engine_config) as [y out] eqn:Er.
  destruct (recover_step r r1 candidate certificate validators commitments shards intent Hpf Hb Hmoved Hn Hty Hvr Hnet Hcert
    _ _ _ _ _ _ Hi' Hok Er) as [_ Hfin]. destruct (Hfin eq_refl) as (-> & Hrec & Hhy & Hpy & _ & Hat).
  pose proof Er as (_ & _ & _ & _ & (_ & _ & _ & _ & Hay) & _)%RecoverGlobal_Ok; [|done]. cbn in Hay.
  destruct (intent_names r candidate certificate commitments intent Hb) as (_ & _ & _ & _ & _ & _ & N7 & _).
  cbn [then_do]. unfold tip_is, RecoveryRequired. change (gi_Header (sorted_intent intent)) with (gi_Header intent).
  rewrite N7, Hhy, Hpy, Z.eqb_refl, Hrec. decide_refl. cbn [andb negb]. unfold commit_anchor. rewrite Hay.
  exists y. by rewrite Hpy.
Qed.

Lemma size_stores (r : Runtime (St := St)) : durable r -> Z.of_nat (size (rt_States r)) = rt_ShardCount r.
Proof.
  intros Hd. rewrite <-size_dom. replace (dom (rt_States r)) with (list_to_set (C := gset Z) (shard_range (rt_ShardCount r))).
  - rewrite size_list_to_set by apply NoDup_shard_range. unfold shard_range. rewrite length_seqZ.
    pose proof (du_count r Hd). lia.
  - apply set_eq. intros k. rewrite elem_of_list_to_set, elem_of_shard_range, elem_of_dom. symmetry. apply (du_stores r Hd).
Qed.

(** The records of a recorded history, read back from its file, end in the
    journal of an interrupted commit. *)
Lemma recorded_replays validators (r0 : Runtime) h0 (h1 : History) stores raws tip journal :
  recorded validators h0 (rt_States r0) h1 stores raws (Some tip) -> durable r0 ->
  h0 = mkHistory (ch_file h0) (ch_network h0) (ch_native h0) (ch_validatorRoot h0) (rt_ShardCount r0) (ch_roots h0) 0 zero32
    zero32 0 false false ->
  rt_ShardCount r0 <= 16 -> length (ch_file h0) = Z.to_nat (104 + 32 * rt_ShardCount r0) -> raws <> [] ->
  (forall digest h, ch_count h <> 0 -> check_tip (mkReplay h stores digest (Some tip) [] []) journal = Ok tip) ->
  ReplayWithCheckpoints (with_file h0 (ch_file h1)) validators (rt_States r0) journal [] = (with_file h1 (ch_file h1), stores, Ok tip).
Proof.
  intros Hrec Hd H0 Hn Hlen Hne Ht. pose proof (rc_written _ _ _ _ _ _ _ Hrec (ch_file h1)) as Hw.
  assert (ch_count (with_file h1 (ch_file h1)) <> 0) as Hc.
  { rewrite (written_count _ _ _ _ _ _ _ Hw) by (by rewrite H0). destruct raws; [done|]. cbn [length]. lia. }
  apply (written_replay_tip _ _ _ (raws)); try (by rewrite H0); try done.
  - rewrite (size_stores r0 Hd), H0. done.
  - apply (rc_size _ _ _ _ _ _ _ Hrec).
  - rewrite history_offset_eq by (rewrite H0; cbn; pose proof (du_count r0 Hd); lia). cbn [with_file ch_shards ch_file].
    rewrite (rc_file _ _ _ _ _ _ _ Hrec). replace (ch_shards h0) with (rt_ShardCount r0) by (by rewrite H0).
    rewrite <-Hlen. apply drop_app_length.
  - by apply Ht.
Qed.

(** C4: the history of a node without shadow economics is enough to bring it back.
    Take a node that keeps a journal, that has no economic collector, engine or
    pending epoch (a recovery from the history replays without them) and at most
    1,000,000 shards, that created its certified history at the genesis and has
    committed blocks since, always under the same validators.  Let its next commit,
    one that would succeed if no write failed (so the history has no more than the
    4096 records its format allows), be cut short anywhere behind the append to the
    history.  If the node then restarts
    over the stores, the journal and the history file that it finds, replaying the
    file over the genesis stores verifies every record, and the recovery ends on
    the tip of the commit that was never interrupted, with the roots of that
    commit in every shard, ready to go on. *)
Theorem own_history_recovers (g r0 r r1 x : Runtime) (roots : gmap Z bytes) (file : option bytes) (io : CommitIO)
    (sg : Scheduling) (candidate : Candidate) (certificate : Certificate) (validators : ValidatorSet)
    (finalized : GlobalHeader) (out : res GlobalHeader) :
  EnableCertifiedHistory g None IoOk roots true = (file, Ok r0) -> durable r0 -> (forall shard, arr32 (root_at roots shard)) ->
  node_run validators r0 r ->
  commit_inputs r sg candidate -> durable r -> certified_typed candidate certificate validators ->
  Commit r io_ok sg candidate certificate validators = (r1, Ok finalized) ->
  Commit r io sg candidate certificate validators = (x, out) -> io_prepare io = WriteOk -> io_history io = IoOk ->
  exists h z y, rt_history x = Some h /\ reopen x (Some (ch_file h)) roots = Ok z /\
    RecoverCertifiedHistory z io_ok validators (rt_States r0) = (y, Ok tt) /\
    rt_Height y = rt_Height r1 /\ rt_ParentHash y = rt_ParentHash r1 /\ RecoveryRequired y = false /\
    forall shard, 0 <= shard < rt_ShardCount r0 ->
      exists s s1, rt_States y !! shard = Some s /\ rt_States r1 !! shard = Some s1 /\ backend_Root s = backend_Root s1.
Proof.
  intros Hen Hd0 Hro Hrun Hci Hd Hct E Ex Hio1 Hio2.
  destruct (created_history _ _ _ _ Hen) as (Hs & Hn & Hh0 & Hopen). rewrite Hn in Hh0, Hopen.
  match type of Hh0 with _ = Some ?h => set (h0 := h) in * end.
  destruct (du_ids r0 Hd0) as (D1 & D2 & D3 & _).
  assert (length (ch_file h0) = Z.to_nat (104 + 32 * rt_ShardCount r0)) as Hlen.
  { unfold h0. cbn [ch_file]. rewrite length_history_header by (done || lia). lia. }
  assert (blen (ch_file h0) <= maxCertifiedHistoryBytes) as Hsz by (unfold blen; rewrite Hlen; change maxCertifiedHistoryBytes with 536870912; lia).
  destruct (run_recorded validators r0 h0 Hh0 eq_refl eq_refl Hsz r Hrun) as [(I1 & I2 & I3 & I4) (h & raws & tip & Hh & Hrec)].
  destruct (commit_recorded validators r0 h0 eq_refl _ _ _ _ _ _ _ _ _ _ _ _ Hci Hd Hct E Ex Hio1 Hio2 Hh Hrec I4)
    as (plan & intent & raw & h1 & Ep & Hpi & Hty & Hst & Hv & Hm & Hh1 & Hrec1 & Hinv1).
  destruct (crash_interrupted _ _ _ _ _ _ _ Hci Hd Hct E) as (plan' & intent' & raw2 & Ep' & Hpi' & Hpf & Hb & _ & Hnet & Hvr & Hcert &
    He2 & _ & Hhe & Hpa & Hmoved & Hcut & _).
  rewrite Ep in Ep'. injection Ep' as <-. rewrite Hpi in Hpi'. injection Hpi' as <-.
  specialize (Hcut _ _ _ Ex). rewrite Hio1 in Hcut.
  assert (ch_file h1 = history_header (rt_Network r0) (rt_NativeToken r0) (rt_ValidatorRoot r0) roots ++
    skipn (length (history_header (rt_Network r0) (rt_NativeToken r0) (rt_ValidatorRoot r0) roots)) (ch_file h1)) as Hdata.
  { rewrite (rc_file _ _ _ _ _ _ _ Hrec1). unfold h0. cbn [ch_file]. by rewrite drop_app_length. }
  specialize (Hopen _ Hdata). rewrite <-I1, <-I2, <-I3 in Hopen.
  destruct (reopen_interrupted _ _ _ _ _ _ _ _ roots (ch_file h1) _ Hpf Hb (du_count r Hd) Hcut ltac:(congruence) Hopen)
    as (z & Hz & Hzi & Hzh & Hza & Hzj & Hzs).
  assert (gi_ShardCount intent = rt_ShardCount r) as N4 by apply (intent_names r candidate certificate _ intent Hb).
  pose proof (du_count r Hd) as Hcnt.
  assert (ReplayWithCheckpoints (with_file h0 (ch_file h1)) validators (rt_States r0) (rt_journal z) [] =
    (with_file h1 (ch_file h1), rt_States r1, Ok (sorted_intent intent))) as Hrep.
  { apply (recorded_replays _ _ _ _ _ (raws ++ [raw])); try done; [lia|by destruct raws|].
    intros digest h' Hc. eapply interrupted_tip; try done. lia. }
  destruct (recover_replayed r r1 z candidate certificate validators (pl_commitments plan) (pl_shards plan) intent
    (with_file h0 (ch_file h1)) (with_file h1 (ch_file h1)) (rt_States r0) (rt_States r1))
    as (y & Hy & Y1 & Y2 & Y3 & Y4); try done; [by rewrite He2| | |].
  - eapply stores_between_inv; [|exact Hinv1|apply (in_stores _ _ _ _ _ _ Hzi)]. intros k s. apply (ci_stores _ _ _ Hci).
  - by rewrite Hzh, I1, I2, I3.
  - exists h1, z, y. rewrite Hhe, Hpa. split_and!; try done. rewrite <-I4. intros shard Hsh.
    destruct (Y4 shard Hsh) as (s & c & S1 & S2 & S3). destruct (Hmoved shard Hsh) as (pre & post & c' & [M1 M2 M3 M4 M5]).
    rewrite S2 in M3. injection M3 as <-. exists s, post. split_and!; try done. congruence.
Qed.
End node.

(** ** A node at its first block *)

Module HistoryExample.
#[local] Existing Instance small_crypto.
#[local] Existing Instance some_order.
#[local] Existing Instance Example.host.
#[local] Existing Instance NodeExample.no_capital.
#[local] Existing Instance NodeExample.no_checkpoint.

Definition roots : gmap Z bytes := <[1 := Memory_Root NewMemory]> {[0 := Memory_Root NewMemory]}.
Definition booted : Node.Runtime (St := Memory) :=
  mkRuntime (be 32 3) Example.token sample_validator_root 2 (<[1 := NewMemory]> {[0 := NewMemory]}) 2 0 zero32
    None None 0 no_balances None true None None None false.
Definition history : History :=
  mkHistory (history_header (be 32 3) Example.token sample_validator_root roots) (be 32 3) Example.token sample_validator_root
    2 roots 0 zero32 zero32 0 false false.
Definition genesis : Node.Runtime (St := Memory) := set_stores booted (Some history) None.
Definition first : Candidate :=
  mkCandidate (mkGlobalHeader 2 (be 32 3) 1 zero32 (ok_or [] (CommitmentRoot NodeExample.commitments)) sample_validator_root
      sample_validator_root (Merkle.Root ((fun c => Leaf (str "shard-data-root") (DataRoot c)) <$> NodeExample.commitments)) zero32)
    NodeExample.commitments ∅ ∅ {[1 := mkDelta [] [NodeExample.created]]} ∅ zero32.
Definition certificate : Certificate :=
  let hash := HeaderConsensusHash (cn_Header first) in
  mkCertificate (be 32 3) 1 0 hash
    ((fun i => mkVote (be 32 3) 1 0 hash (v_ID (sample_validator i)) (sample_key i) (be 32 1 ++ be 32 1)) <$> [2; 3; 4]).

Lemma is_typed : RecoveryExample.typed first = true.
Proof. vm_compute. reflexivity. Qed.
Lemma first_typed : GlobalHeader_ok (cn_Header first) /\ Forall Commitment_typed (cn_Commitments first).
Proof.
  apply (RecoveryExample.typed_ok _ is_typed); [reflexivity|cbn [cn_Header first h_Height]; lia|exact RecoveryExample.shard_ids].
Qed.
Lemma first_certificate_typed : Certificate_typed certificate.
Proof.
  unfold Certificate_typed, certificate. cbn [c_Network c_Height c_Round c_HeaderHash c_Votes].
  split; [done|]. split; [done|]. split; [done|]. split; [apply arr32_DomainHash|]. apply Forall_fmap, Forall_forall.
  intros i _. split; [done|]. split; [done|]. split; [done|]. split; [apply arr32_DomainHash|].
  cbn [vt_Voter]. unfold sample_validator. cbn [v_ID]. apply arr32_DomainHash.
Qed.
Lemma first_certified : certified_typed first certificate sample_set.
Proof.
  destruct first_typed as [Hh Hc]. constructor; [exact Hh|exact Hc| |exact first_certificate_typed|exact sample_set_typed].
  intros shard delta [_ ->]%RecoveryExample.creation_delta. constructor.
Qed.
Lemma genesis_inputs : commit_inputs genesis (NodeExample.schedule [0; 1]) first.
Proof. destruct RecoveryExample.inputs as [K1 K2 K3]. constructor; [exact K1|exact K2|exact K3]. Qed.
Lemma genesis_durable : durable genesis.
Proof.
  destruct RecoveryExample.runtime_durable as [K1 K2 K3 K4 (K5 & K6 & K7 & _) _].
  constructor; [exact K1|exact K2|exact K3|exact K4| |change (u64 0); unfold u64; lia].
  exact (conj K5 (conj K6 (conj K7 eq_refl))).
Qed.
Lemma roots_present :
  IsZero32 (be 32 3) || IsZero32 Example.token || IsZero32 sample_validator_root || (Z.of_nat (size roots) =? 0)
  || (16 <? Z.of_nat (size roots)) || existsb (fun shard => IsZero32 (root_at roots shard)) (shard_range (Z.of_nat (size roots))) =
  false.
Proof. vm_compute. reflexivity. Qed.
Lemma roots_size : Z.of_nat (size roots) = 2.
Proof. vm_compute. reflexivity. Qed.
Lemma genesis_opened : exists file, EnableCertifiedHistory booted None IoOk roots true = (file, Ok genesis).
Proof.
  eexists. unfold EnableCertifiedHistory, openCertifiedHistory.
  cbn [booted rt_history rt_journalConfigured rt_Height rt_ParentHash rt_ShardCount rt_Network rt_NativeToken rt_ValidatorRoot].
  rewrite roots_present, roots_size. decide_refl. cbn [negb orb Z.eqb Pos.eqb mbind res_bind append_file app]. reflexivity.
Qed.
Lemma roots_typed shard : arr32 (root_at roots shard).
Proof.
  unfold root_at, roots. destruct (decide (shard = 1)) as [->|Hne]; [rewrite lookup_insert_eq; by vm_compute|].
  rewrite lookup_insert_ne by done. destruct (decide (shard = 0)) as [->|Hne']; [rewrite lookup_singleton_eq; by vm_compute|].
  by rewrite lookup_singleton_ne.
Qed.
Lemma first_commits : is_ok (Commit genesis io_ok (NodeExample.schedule [0; 1]) first certificate sample_set).2 = true.
Proof. vm_compute. reflexivity. Qed.

Lemma own_history_recovers_witness :
  exists x h z y,
    (Commit genesis NodeExample.failing (NodeExample.schedule [0; 1]) first certificate sample_set).1 = x /\
    rt_history x = Some h /\ reopen x (Some (ch_file h)) roots = Ok z /\
    RecoverCertifiedHistory z io_ok sample_set (rt_States genesis) = (y, Ok tt) /\ RecoveryRequired y = false.
Proof.
  destruct genesis_opened as [file Hopen].
  destruct (Commit genesis io_ok (NodeExample.schedule [0; 1]) first certificate sample_set) as [r1 o] eqn:E.
  pose proof first_commits as Hok. rewrite E in Hok. apply is_ok_true in Hok as [finalized Hok]. cbn in Hok. subst o.
  destruct (Commit genesis NodeExample.failing (NodeExample.schedule [0; 1]) first certificate sample_set) as [x out] eqn:Ex.
  destruct (own_history_recovers booted genesis genesis r1 x roots file NodeExample.failing (NodeExample.schedule [0; 1]) first
    certificate sample_set finalized out Hopen genesis_durable roots_typed (nr_genesis _ _) genesis_inputs genesis_durable
    first_certified E Ex eq_refl eq_refl) as (h & z & y & K1 & K2 & K3 & _ & _ & K4 & _).
  exists x, h, z, y. exact (conj eq_refl (conj K1 (conj K2 (conj K3 K4)))).
Defined.

(** The node restarted after the interrupted commit, with an anchor at the block. *)
Definition crashed : Node.Runtime (St := Memory) :=
  (Commit genesis NodeExample.failing (NodeExample.schedule [0; 1]) first certificate sample_set).1.
Definition file_of (r : Node.Runtime (St := Memory)) : bytes :=
  match rt_history r with Some h => ch_file h | None => [] end.
Definition data : bytes := file_of crashed.
Definition checkpoint : FinalityCheckpoint :=
  mkFinalityCheckpoint (be 32 3) sample_validator_root 1 (HeaderConsensusHash (cn_Header first)).
Definition anchor : AnchorStore :=
  (advance (AnchorProofs.opened (be 32 3) sample_validator_root (anchor_header (be 32 3) sample_validator_root)) IoOk checkpoint).1.
Definition restored : Node.Runtime (St := Memory) :=
  mkRuntime (be 32 3) Example.token sample_validator_root 2 (<[1 := NewMemory]> {[0 := NewMemory]}) 2 0 zero32
    None None 0 no_balances None true (rt_journal crashed) (Some (with_file history data)) (Some anchor) true.

Lemma data_opens : bool_decide (firstn (length (ch_file history)) data = ch_file history) = true.
Proof. vm_compute. reflexivity. Qed.
Lemma restored_opens :
  openCertifiedHistory (Some data) IoOk (be 32 3) Example.token sample_validator_root roots false =
  (Some data, Ok (with_file history data)).
Proof.
  unfold openCertifiedHistory. rewrite roots_present, roots_size. pose proof data_opens as Hd. cbn [ch_file history] in Hd. by rewrite Hd.
Qed.
Lemma fresh_stores : stores_inv (rt_States restored).
Proof. intros shard s [_ ->]%(RecoveryExample.fresh_states true). exact NewMemory_inv. Qed.
Lemma restored_recovers :
  is_ok (RecoverCertifiedHistoryWithCheckpoint restored io_ok sample_set (rt_States genesis) (Some checkpoint)).2
  && (fa_height anchor =? 1) = true.
Proof. vm_compute. reflexivity. Qed.

Lemma recovery_never_rolls_back_witness :
  exists r' chain,
    RecoverCertifiedHistoryWithCheckpoint restored io_ok sample_set (rt_States genesis) (Some checkpoint) = (r', Ok tt) /\
    certified_chain sample_set chain /\ names_ancestor chain checkpoint /\ 1 <= rt_Height r'.
Proof.
  destruct (RecoverCertifiedHistoryWithCheckpoint restored io_ok sample_set (rt_States genesis) (Some checkpoint)) as [r' o] eqn:E.
  pose proof restored_recovers as Hok. rewrite E in Hok. apply andb_true_iff in Hok as [[[] Hok]%is_ok_true Ha%Z.eqb_eq].
  cbn [snd] in Hok. subst o.
  destruct (recovery_never_rolls_back restored r' io_ok sample_set (rt_States genesis) (Some checkpoint) (Some data) IoOk roots
    (Some data) (with_file history data) restored_opens eq_refl roots_size fresh_stores fresh_stores E)
    as (chain & tip & K1 & _ & _ & _ & _ & _ & K2 & K3).
  destruct (K3 anchor eq_refl) as [K4 _]. rewrite Ha in K4. destruct (K4 ltac:(lia)) as [_ K5].
  exists r', chain. exact (conj eq_refl (conj K1 (conj (K2 _ eq_refl) K5))).
Defined.
End HistoryExample.
