(* ===== verification/Governance.v ===== *)
(** * Governance

    Package [internal/v2/governance]: proposals for future actions and the
    timelocks that give an authorised proposal its execution window
    ([timelock.go]). *)

From S2P Require Import Prelude GoLib Codec Crypto Types Object.

Open Scope Z_scope.

Module Governance.

Definition Version : Z := 1.

(** [iota] *)
Definition ActionProtocolParameter : Z := 1.
Definition ActionValidatorTransition : Z := 2.
Definition ActionEconomicActivation : Z := 3.

Definition ActionKind_Valid (k : Z) : bool :=
  (k =? ActionProtocolParameter) || (k =? ActionValidatorTransition) || (k =? ActionEconomicActivation).

Record Proposal := mkProposal {
  p_Proposer : bytes;
  p_ActionKind : Z;
  p_ActionHash : bytes;
  p_CreatedHeight : Z;
  p_Nonce : bytes;
}.

Record Timelock := mkTimelock {
  t_ProposalHash : bytes;
  t_AuthorizationHash : bytes;
  t_AuthorizedHeight : Z;
  t_ExecuteAfterHeight : Z;
  t_ExpiresHeight : Z;
}.

Definition Proposal_Validate (p : Proposal) : res unit :=
  fail_if (IsZero32 (p_Proposer p) || negb (ActionKind_Valid (p_ActionKind p)) || IsZero32 (p_ActionHash p)
    || (p_CreatedHeight p =? 0) || IsZero32 (p_Nonce p)) ErrGovernance.

Definition Proposal_MarshalBinary (p : Proposal) : res bytes :=
  Proposal_Validate p;;
  Ok (Writer.BytesCopy (Writer.new |> Writer.U16 Version |> Writer.Fixed (p_Proposer p) |> Writer.U16 (p_ActionKind p)
    |> Writer.Fixed (p_ActionHash p) |> Writer.U64 (p_CreatedHeight p) |> Writer.Fixed (p_Nonce p))).

Definition ParseProposal (data : bytes) : res Proposal :=
  parse (version ← Rd.U16 <!> ErrGovernance;
         plift (fail_if (negb (version =? Version)) ErrGovernance);;
         proposer ← Rd.Fixed 32 <!> ErrGovernance;
         kind ← Rd.U16 <!> ErrGovernance;
         action ← Rd.Fixed 32 <!> ErrGovernance;
         createdHeight ← Rd.U64 <!> ErrGovernance;
         nonce ← Rd.Fixed 32 <!> ErrGovernance;
         Rd.Done <!> ErrGovernance;;
         let out := mkProposal proposer kind action createdHeight nonce in
         plift (Proposal_Validate out);;
         mret out) data.

Definition Timelock_Validate (t : Timelock) : res unit :=
  fail_if (IsZero32 (t_ProposalHash t) || IsZero32 (t_AuthorizationHash t) || (t_AuthorizedHeight t =? 0)
    || (t_ExecuteAfterHeight t <=? t_AuthorizedHeight t)
    || (negb (t_ExpiresHeight t =? 0) && (t_ExpiresHeight t <=? t_ExecuteAfterHeight t))) ErrGovernance.

Definition ValidateMinDelay (t : Timelock) (minDelayBlocks : Z) : res unit :=
  Timelock_Validate t;;
  fail_if (sub64 (t_ExecuteAfterHeight t) (t_AuthorizedHeight t) <? minDelayBlocks) ErrGovernance.

Definition ReadyAt (t : Timelock) (height : Z) : bool :=
  if (height =? 0) || negb (is_ok (Timelock_Validate t)) || (height <? t_ExecuteAfterHeight t) then false
  else (t_ExpiresHeight t =? 0) || (height <? t_ExpiresHeight t).

Definition ExpiredAt (t : Timelock) (height : Z) : bool :=
  is_ok (Timelock_Validate t) && negb (t_ExpiresHeight t =? 0) && (t_ExpiresHeight t <=? height).

Definition Timelock_MarshalBinary (t : Timelock) : res bytes :=
  Timelock_Validate t;;
  Ok (Writer.BytesCopy (Writer.new |> Writer.U16 Version |> Writer.Fixed (t_ProposalHash t)
    |> Writer.Fixed (t_AuthorizationHash t) |> Writer.U64 (t_AuthorizedHeight t) |> Writer.U64 (t_ExecuteAfterHeight t)
    |> Writer.U64 (t_ExpiresHeight t))).

Definition ParseTimelock (data : bytes) : res Timelock :=
  parse (version ← Rd.U16 <!> ErrGovernance;
         plift (fail_if (negb (version =? Version)) ErrGovernance);;
         proposal ← Rd.Fixed 32 <!> ErrGovernance;
         authorization ← Rd.Fixed 32 <!> ErrGovernance;
         authorizedHeight ← Rd.U64 <!> ErrGovernance;
         executeAfterHeight ← Rd.U64 <!> ErrGovernance;
         expiresHeight ← Rd.U64 <!> ErrGovernance;
         Rd.Done <!> ErrGovernance;;
         let out := mkTimelock proposal authorization authorizedHeight executeAfterHeight expiresHeight in
         plift (Timelock_Validate out);;
         mret out) data.

Section hash.
Context `{Crypto}.

Definition Proposal_Hash (p : Proposal) : res bytes :=
  raw ← Proposal_MarshalBinary p;
  Ok (DomainHash (str "zephyr/governance/proposal/v1") raw).

Definition Timelock_Hash (t : Timelock) : res bytes :=
  raw ← Timelock_MarshalBinary t;
  Ok (DomainHash (str "zephyr/governance/timelock/v1") raw).
End hash.

(** ** The formats *)

Definition Proposal_typed (p : Proposal) : Prop :=
  arr32 (p_Proposer p) /\ u16 (p_ActionKind p) /\ arr32 (p_ActionHash p) /\ u64 (p_CreatedHeight p) /\ arr32 (p_Nonce p).
Definition Timelock_typed (t : Timelock) : Prop :=
  arr32 (t_ProposalHash t) /\ arr32 (t_AuthorizationHash t) /\ u64 (t_AuthorizedHeight t) /\ u64 (t_ExecuteAfterHeight t) /\
  u64 (t_ExpiresHeight t).

#[global] Instance Proposal_wire : Wire Proposal := {|
  wire_typed := Proposal_typed; wire_marshal := Proposal_MarshalBinary; wire_parse := ParseProposal |}.
#[global] Instance Timelock_wire : Wire Timelock := {|
  wire_typed := Timelock_typed; wire_marshal := Timelock_MarshalBinary; wire_parse := ParseTimelock |}.

#[global] Instance Proposal_canonical : Canonical Proposal.
Proof.
  intros d p. cbn. split.
  - unfold ParseProposal. intros E. parse_inv. split; [unfold Proposal_typed; cbn; by rewrite !blen32|].
    unfold Proposal_MarshalBinary. match goal with H : Proposal_Validate _ = _ |- _ => rewrite H end.
    cbn [mbind res_bind]. f_equal. cbn. writer_norm. rest_rw. rewrite app_nil_r. repeat f_equal. lia.
  - intros [(Hp & Hk & Ha & Hc & Hn) E]. unfold Proposal_MarshalBinary in E. res_inv.
    unfold ParseProposal. apply reads_parse. writer_norm. rewrite blen32 in *. solve_reads; try done; destruct p.
    apply reads_ret.
Qed.

#[global] Instance Timelock_canonical : Canonical Timelock.
Proof.
  intros d t. cbn. split.
  - unfold ParseTimelock. intros E. parse_inv. split; [unfold Timelock_typed; cbn; by rewrite !blen32|].
    unfold Timelock_MarshalBinary. match goal with H : Timelock_Validate _ = _ |- _ => rewrite H end.
    cbn [mbind res_bind]. f_equal. cbn. writer_norm. rest_rw. rewrite app_nil_r. repeat f_equal. lia.
  - intros [(Hp & Ha & Hh & He & Hx) E]. unfold Timelock_MarshalBinary in E. res_inv.
    unfold ParseTimelock. apply reads_parse. writer_norm. rewrite blen32 in *. solve_reads; try done; destruct t.
    apply reads_ret.
Qed.

(** ** The execution window *)

Lemma Timelock_Validate_spec t :
  Timelock_Validate t = Ok tt <->
  t_ProposalHash t <> zero32 /\ t_AuthorizationHash t <> zero32 /\ t_AuthorizedHeight t <> 0 /\
  t_AuthorizedHeight t < t_ExecuteAfterHeight t /\ (t_ExpiresHeight t = 0 \/ t_ExecuteAfterHeight t < t_ExpiresHeight t).
Proof.
  unfold Timelock_Validate. split.
  - intros E%fail_if_Ok. bool_inv. split_and!; try done; lia.
  - intros (H1 & H2 & H3 & H4 & H5). unfold IsZero32. rewrite !bool_decide_eq_false_2 by done.
    rewrite (proj2 (Z.eqb_neq _ 0) H3), (proj2 (Z.leb_gt _ _) H4). cbn [orb].
    destruct H5 as [-> | H5]; [done|]. rewrite (proj2 (Z.leb_gt _ _) H5), andb_false_r. done.
Qed.

(** The life of an authorised action.  A valid timelock with a minimum delay that
    was checked is executable in exactly one window of heights: it opens at least
    the minimum delay after the authorisation, it is never open once the timelock
    has expired, an expired timelock never becomes executable again, and between
    the authorisation and the opening it is neither. *)
Theorem execution_window t delay :
  Timelock_typed t -> 0 <= delay -> ValidateMinDelay t delay = Ok tt ->
  (forall height, ReadyAt t height = true <->
    t_ExecuteAfterHeight t <= height /\ (t_ExpiresHeight t = 0 \/ height < t_ExpiresHeight t)) /\
  (forall height, ReadyAt t height = true -> t_AuthorizedHeight t + delay <= height /\ t_AuthorizedHeight t < height) /\
  (forall height later, ExpiredAt t height = true -> height <= later -> ExpiredAt t later = true /\ ReadyAt t later = false) /\
  (forall height, t_ExecuteAfterHeight t <= height -> ReadyAt t height = negb (ExpiredAt t height)) /\
  ReadyAt t (t_ExecuteAfterHeight t) = true.
Proof.
  intros (_ & _ & Ha & He & _) Hd E. apply bind_Ok in E as ([] & Hv & E%fail_if_Ok).
  pose proof Hv as (_ & _ & H3 & H4 & H5)%Timelock_Validate_spec.
  unfold sub64 in E. unfold u64 in Ha, He. rewrite Z.mod_small in E by lia. apply Z.ltb_ge in E.
  assert (forall height, ReadyAt t height = true <->
    t_ExecuteAfterHeight t <= height /\ (t_ExpiresHeight t = 0 \/ height < t_ExpiresHeight t)) as Hr.
  { intros height. unfold ReadyAt. rewrite Hv. cbn [is_ok negb].
    destruct (Z.eqb_spec height 0), (Z.ltb_spec height (t_ExecuteAfterHeight t)), (Z.eqb_spec (t_ExpiresHeight t) 0),
      (Z.ltb_spec height (t_ExpiresHeight t)); cbn [orb]; split; intros; try done; lia. }
  assert (forall height, ExpiredAt t height = true <-> t_ExpiresHeight t <> 0 /\ t_ExpiresHeight t <= height) as Hx.
  { intros height. unfold ExpiredAt. rewrite Hv. cbn [is_ok andb].
    destruct (Z.eqb_spec (t_ExpiresHeight t) 0), (Z.leb_spec (t_ExpiresHeight t) height); cbn; split; intros; try done; lia. }
  split_and!.
  - done.
  - intros height [? ?]%Hr. lia.
  - intros height later [? ?]%Hx Hl. split; [apply Hx; lia|]. apply not_true_iff_false. intros [_ ?]%Hr. lia.
  - intros height Hh. apply eq_true_iff_eq. rewrite negb_true_iff, <-not_true_iff_false, Hr, Hx. lia.
  - apply Hr. split; [lia|]. lia.
Qed.
End Governance.
