(* ===== verification/Checkpoint.v ===== *)
(** * Checkpoint

    Package [internal/v2/checkpoint]: the chain of certified headers that a light
    client follows from a genesis validator set ([chain.go]), and what it shows:
    every entry is certified by the set its predecessor announced, and two chains
    from one genesis can only part where validators signed twice. *)

From S2P Require Import Prelude GoLib Codec Crypto Types Merkle Object Sharding ShardingProofs Tx TxProofs Consensus ConsensusProofs.

Open Scope Z_scope.

Module Checkpoint.

Record Entry := mkEntry {
  e_Header : GlobalHeader;
  e_Certificate : Certificate;
  e_Validators : ValidatorSet;
}.

Record Chain := mkChain {
  ck_network : bytes;
  ck_currentRoot : bytes;
  ck_lastHeight : Z;
  ck_lastHash : bytes;
  ck_entries : gmap Z Entry;
  ck_sets : gmap bytes ValidatorSet;
}.

(** A copy of the set that shares nothing with it. *)
Definition cloneSet (s : ValidatorSet) : ValidatorSet :=
  mkValidatorSet (s_Network s) ((fun v => mkValidator (v_ID v) (v_PublicKey v) (v_Power v)) <$> s_Validators s).

Section chain.
Context `{Crypto}.

Definition New (network : bytes) (genesis : ValidatorSet) : res Chain :=
  fail_if (IsZero32 network || negb (bool_decide (s_Network genesis = network))) ErrCheckpointConfig;;
  root ← ValidatorSet_Root genesis <?> ErrCheckpointConfig;
  fail_if (IsZero32 root) ErrCheckpointConfig;;
  Ok (mkChain network root 0 zero32 ∅ {[root := cloneSet genesis]}).

Definition Height (c : Chain) : Z := ck_lastHeight c.
Definition CurrentRoot (c : Chain) : bytes := ck_currentRoot c.

(** The set of the next height: the header announces its root, and a set of this
    root must come with it unless nothing changes. *)
Definition store_next (c : Chain) (currentRoot nextRoot : bytes) (next : option ValidatorSet) : res (gmap bytes ValidatorSet) :=
  if negb (bool_decide (nextRoot = currentRoot)) then
    next ← some_or next ErrCheckpointValidators;
    fail_if (negb (bool_decide (s_Network next = ck_network c))) ErrCheckpointValidators;;
    computed ← ValidatorSet_Root next <?> ErrCheckpointValidators;
    fail_if (negb (bool_decide (computed = nextRoot))) ErrCheckpointValidators;;
    Ok (<[nextRoot := cloneSet next]> (ck_sets c))
  else
    match next with
    | None => Ok (ck_sets c)
    | Some next =>
        computed ← ValidatorSet_Root next <?> ErrCheckpointValidators;
        fail_if (negb (bool_decide (computed = nextRoot))) ErrCheckpointValidators;;
        Ok (<[nextRoot := cloneSet next]> (ck_sets c))
    end.

Definition Append (c : Chain) (header : GlobalHeader) (certificate : Certificate) (current : ValidatorSet)
    (next : option ValidatorSet) : res Chain :=
  fail_if (negb (bool_decide (h_Network header = ck_network c)) || negb (bool_decide (c_Network certificate = ck_network c))
           || negb (bool_decide (s_Network current = ck_network c))) ErrCheckpointSequence;;
  fail_if (negb (h_Height header =? add64 (ck_lastHeight c) 1)
           || ((0 <? ck_lastHeight c) && negb (bool_decide (h_ParentHash header = ck_lastHash c)))) ErrCheckpointSequence;;
  currentRoot ← ValidatorSet_Root current <?> ErrCheckpointValidators;
  fail_if (negb (bool_decide (currentRoot = ck_currentRoot c)) || negb (bool_decide (h_ValidatorRoot header = currentRoot)))
    ErrCheckpointValidators;;
  fail_if (negb (c_Height certificate =? h_Height header)
           || negb (bool_decide (c_HeaderHash certificate = HeaderConsensusHash header))
           || negb (bool_decide (h_CertificateHash header = Certificate_Hash certificate))) ErrCheckpointCert;;
  VerifyCertificate current certificate <?> ErrCheckpointCert;;
  let nextRoot := EffectiveNextValidatorRoot header in
  sets ← store_next c currentRoot nextRoot next;
  Ok (mkChain (ck_network c) nextRoot (h_Height header) (HeaderConsensusHash header)
    (<[h_Height header := mkEntry header certificate (cloneSet current)]> (ck_entries c))
    (<[currentRoot := cloneSet current]> sets)).

Definition Chain_Entry (c : Chain) (height : Z) : option Entry :=
  e ← ck_entries c !! height;
  Some (mkEntry (e_Header e) (e_Certificate e) (cloneSet (e_Validators e))).

Definition Chain_ValidatorSet (c : Chain) (root : bytes) : option ValidatorSet := cloneSet <$> ck_sets c !! root.

Definition VerifyEntry (c : Chain) (height : Z) : res unit :=
  entry ← some_or (ck_entries c !! height) ErrCheckpointSequence;
  root ← ValidatorSet_Root (e_Validators entry) <?> ErrCheckpointValidators;
  fail_if (negb (bool_decide (root = h_ValidatorRoot (e_Header entry)))) ErrCheckpointValidators;;
  fail_if (negb (bool_decide (c_HeaderHash (e_Certificate entry) = HeaderConsensusHash (e_Header entry)))
           || negb (bool_decide (h_CertificateHash (e_Header entry) = Certificate_Hash (e_Certificate entry)))) ErrCheckpointCert;;
  VerifyCertificate (e_Validators entry) (e_Certificate entry) <?> ErrCheckpointCert.
End chain.

(** ** Chains that grow *)

Lemma cloneSet_id s : cloneSet s = s.
Proof.
  destruct s as [n vs]. unfold cloneSet. cbn [s_Network s_Validators]. f_equal.
  rewrite <-(list_fmap_id vs) at 2. apply list_fmap_ext. by intros i [].
Qed.

Section proofs.
Context `{HC : Crypto}.
Context (network : bytes) (genesis : ValidatorSet).

(** The chains reachable from the genesis set, by headers as [ParseGlobalHeader]
    returns them; an append that fails leaves the chain as it is. *)
Inductive grown : Chain -> Prop :=
| gr_new c : New network genesis = Ok c -> grown c
| gr_append c header certificate current next c' :
    grown c -> GlobalHeader_ok header -> ValidatorSet_typed current ->
    Append c header certificate current next = Ok c' -> grown c'.

(** What is known of an entry and of the root it was checked against. *)
Record certified_entry (e : Entry) (root : bytes) : Prop := {
  ce_header : GlobalHeader_ok (e_Header e) /\ h_Network (e_Header e) = network;
  ce_root : ValidatorSet_Root (e_Validators e) = Ok root /\ h_ValidatorRoot (e_Header e) = root;
  ce_validators : ValidatorSet_typed (e_Validators e);
  ce_network : s_Network (e_Validators e) = network;
  ce_certificate : VerifyCertificate (e_Validators e) (e_Certificate e) = Ok tt;
  ce_binds : c_Height (e_Certificate e) = h_Height (e_Header e) /\
    c_HeaderHash (e_Certificate e) = HeaderConsensusHash (e_Header e) /\
    h_CertificateHash (e_Header e) = Certificate_Hash (e_Certificate e);
}.

Definition root_after (c : Chain) (height : Z) : option bytes :=
  if height =? 0 then match ValidatorSet_Root genesis with Ok root => Some root | Err _ => None end
  else (fun e => EffectiveNextValidatorRoot (e_Header e)) <$> ck_entries c !! height.

Record chain_inv (c : Chain) : Prop := {
  ci_network : ck_network c = network;
  ci_height : 0 <= ck_lastHeight c < 2 ^ 64;
  ci_current : root_after c (ck_lastHeight c) = Some (ck_currentRoot c);
  ci_last : 0 < ck_lastHeight c -> exists e, ck_entries c !! ck_lastHeight c = Some e /\ ck_lastHash c = HeaderConsensusHash (e_Header e);
  ci_domain : forall k, is_Some (ck_entries c !! k) <-> 1 <= k <= ck_lastHeight c;
  ci_entries : forall k e, ck_entries c !! k = Some e ->
    h_Height (e_Header e) = k /\ exists root, root_after c (k - 1) = Some root /\ certified_entry e root;
  ci_links : forall k e e', ck_entries c !! k = Some e -> ck_entries c !! (k + 1) = Some e' ->
    h_ParentHash (e_Header e') = HeaderConsensusHash (e_Header e);
  ci_sets : forall root s, ck_sets c !! root = Some s -> ValidatorSet_Root s = Ok root;
}.

Lemma New_inv c : New network genesis = Ok c -> chain_inv c.
Proof.
  unfold New. intros E. apply bind_Ok in E as ([] & _ & E). apply bind_Ok in E as (root & Hr%or_err_Ok & E).
  apply bind_Ok in E as ([] & _ & E). apply Ok_inj in E as <-.
  constructor; cbn [ck_network ck_lastHeight ck_currentRoot ck_entries ck_sets].
  - done.
  - lia.
  - unfold root_after. cbn [Z.eqb]. by rewrite Hr.
  - lia.
  - intros k. rewrite lookup_empty. split; [by intros []|lia].
  - intros k e. by rewrite lookup_empty.
  - intros k e e'. by rewrite lookup_empty.
  - intros r s [<- <-]%lookup_singleton_Some. by rewrite cloneSet_id.
Qed.

Lemma store_next_Ok c currentRoot nextRoot next sets :
  store_next c currentRoot nextRoot next = Ok sets ->
  (forall root s, ck_sets c !! root = Some s -> ValidatorSet_Root s = Ok root) ->
  forall root s, sets !! root = Some s -> ValidatorSet_Root s = Ok root.
Proof.
  unfold store_next. intros E Hs.
  assert (forall n, ValidatorSet_Root n = Ok nextRoot -> forall root s, <[nextRoot := cloneSet n]> (ck_sets c) !! root = Some s ->
    ValidatorSet_Root s = Ok root) as Hin.
  { intros n Hn root s [[<- <-]|[_ Hrs]]%lookup_insert_Some; [by rewrite cloneSet_id|by apply Hs]. }
  destruct (negb _).
  - apply bind_Ok in E as (n & _ & E). apply bind_Ok in E as ([] & _ & E). apply bind_Ok in E as (r & Hr%or_err_Ok & E).
    apply bind_Ok in E as ([] & Hb%fail_if_Ok & E). apply Ok_inj in E as <-. bool_inv. subst r. by apply Hin.
  - destruct next as [n|]; [|by apply Ok_inj in E as <-]. apply bind_Ok in E as (r & Hr%or_err_Ok & E).
    apply bind_Ok in E as ([] & Hb%fail_if_Ok & E). apply Ok_inj in E as <-. bool_inv. subst r. by apply Hin.
Qed.

(** What an append that succeeds has checked and done. *)
Lemma chain_Append_Ok c header certificate current next c' :
  GlobalHeader_ok header -> ValidatorSet_typed current -> chain_inv c -> Append c header certificate current next = Ok c' ->
  exists sets, h_Height header = ck_lastHeight c + 1 /\ (0 < ck_lastHeight c -> h_ParentHash header = ck_lastHash c) /\
    certified_entry (mkEntry header certificate current) (ck_currentRoot c) /\
    (forall root s, sets !! root = Some s -> ValidatorSet_Root s = Ok root) /\
    c' = mkChain network (EffectiveNextValidatorRoot header) (ck_lastHeight c + 1) (HeaderConsensusHash header)
      (<[ck_lastHeight c + 1 := mkEntry header certificate current]> (ck_entries c)) (<[ck_currentRoot c := current]> sets).
Proof.
  intros Hh Hc Hinv E. unfold Append in E. apply bind_Ok in E as ([] & H1%fail_if_Ok & E).
  apply bind_Ok in E as ([] & H2%fail_if_Ok & E). apply bind_Ok in E as (root & Hr%or_err_Ok & E).
  apply bind_Ok in E as ([] & H3%fail_if_Ok & E). apply bind_Ok in E as ([] & H4%fail_if_Ok & E).
  apply bind_Ok in E as ([] & Hv%or_err_Ok & E). apply bind_Ok in E as (sets & Hs & E). apply Ok_inj in E as <-.
  apply orb_false_iff in H2 as [Hn Hp]. apply negb_false_iff, Z.eqb_eq in Hn. bool_inv. subst root.
  rewrite cloneSet_id, (ci_network c Hinv) in *. pose proof (ci_height c Hinv) as Hl.
  assert (h_Height header = ck_lastHeight c + 1) as Hnext.
  { destruct Hh as (_ & _ & _ & Hnz & _). rewrite Hn in Hnz |- *. unfold add64 in *.
    destruct (decide (ck_lastHeight c = 2 ^ 64 - 1)) as [El|]; [by rewrite El in Hnz|]. apply Z.mod_small. lia. }
  exists sets. rewrite Hnext in *. split_and!; try done.
  - intros Hpos. rewrite (proj2 (Z.ltb_lt _ _) Hpos) in Hp. cbn [andb] in Hp. by bool_inv.
  - constructor; cbn [e_Header e_Certificate e_Validators]; try done; split_and!; try done; lia.
  - eapply store_next_Ok; [exact Hs|apply (ci_sets c Hinv)].
Qed.

Lemma Append_inv c header certificate current next c' :
  GlobalHeader_ok header -> ValidatorSet_typed current -> chain_inv c -> Append c header certificate current next = Ok c' ->
  chain_inv c'.
Proof.
  intros Hh Hc Hinv E. destruct (chain_Append_Ok _ _ _ _ _ _ Hh Hc Hinv E) as (sets & Hn & Hp & He & Hs & ->).
  pose proof Hinv as [I1 I2 I3 I4 I5 I6 I7 I8]. set (n := ck_lastHeight c) in *.
  assert (ck_entries c !! (n + 1) = None) as Hnew by (apply eq_None_not_Some; rewrite I5; lia).
  assert (forall k, k <> n + 1 -> root_after (mkChain network (EffectiveNextValidatorRoot header) (n + 1) (HeaderConsensusHash header)
    (<[n + 1 := mkEntry header certificate current]> (ck_entries c)) (<[ck_currentRoot c := current]> sets)) k = root_after c k) as Hra.
  { intros k Hk. unfold root_after. cbn [ck_entries]. by rewrite lookup_insert_ne. }
  assert (h_Height header < 2 ^ 64) as Hu by (destruct Hh as (_ & _ & Hu & _); apply Hu).
  constructor; cbn [ck_network ck_lastHeight ck_currentRoot ck_entries ck_sets ck_lastHash].
  - done.
  - lia.
  - unfold root_after. cbn [ck_entries]. rewrite lookup_insert_eq. by destruct (Z.eqb_spec (n + 1) 0); [lia|].
  - intros _. rewrite lookup_insert_eq. by eexists.
  - intros k. destruct (decide (k = n + 1)) as [->|Hk]; [rewrite lookup_insert_eq; split; [lia|done]|].
    rewrite lookup_insert_ne, I5 by done. lia.
  - intros k e [[<- <-]|[Hk Hl]]%lookup_insert_Some.
    + split; [done|]. exists (ck_currentRoot c). split; [|done]. rewrite Hra by lia. replace (n + 1 - 1) with n by lia. done.
    + destruct (I6 k e Hl) as (Hk' & root & Hr & Hce). split; [done|]. exists root. split; [|done]. rewrite Hra; [done|].
      assert (is_Some (ck_entries c !! k)) as Hin by done. apply I5 in Hin. lia.
  - intros k e e' [[<- <-]|[Hk Hl]]%lookup_insert_Some [[Hk' <-]|[Hk' Hl']]%lookup_insert_Some.
    + lia.
    + assert (is_Some (ck_entries c !! (n + 1 + 1))) as Hin by done. apply I5 in Hin. lia.
    + assert (k = n) as -> by lia. assert (is_Some (ck_entries c !! n)) as Hin by done. apply I5 in Hin.
      destruct I4 as (e0 & He0 & Hh0); [lia|]. cbn [e_Header]. rewrite Hp by lia. rewrite He0 in Hl. injection Hl as <-. done.
    + by apply (I7 k).
  - intros root s [[<- <-]|[_ Hrs]]%lookup_insert_Some; [apply (ce_root _ _ He)|by apply Hs].
Qed.

Lemma grown_inv c : grown c -> chain_inv c.
Proof. induction 1; [by apply New_inv|by eapply Append_inv]. Qed.

(** C31: every entry of a checkpoint chain is trusted for a reason.  However the
    chain grew, it holds exactly the heights up to its tip; every entry verifies
    again at any time, its parent hash is the hash of the entry below, and the set
    that certified it has the root that the entry below announced, at the bottom
    the root of the genesis set; and every set the chain hands out has the root it
    is asked for. *)
Theorem checkpoint_chain_certified c : grown c ->
  (forall height, VerifyEntry c height = Ok tt <-> 1 <= height <= Height c) /\
  (forall height e, Chain_Entry c height = Some e ->
    h_Height (e_Header e) = height /\ h_Network (e_Header e) = network /\
    (height = 1 -> ValidatorSet_Root genesis = Ok (h_ValidatorRoot (e_Header e))) /\
    (forall below, Chain_Entry c (height - 1) = Some below ->
      h_ParentHash (e_Header e) = HeaderConsensusHash (e_Header below) /\
      h_ValidatorRoot (e_Header e) = EffectiveNextValidatorRoot (e_Header below))) /\
  (forall root s, Chain_ValidatorSet c root = Some s -> ValidatorSet_Root s = Ok root).
Proof.
  intros [I1 I2 I3 I4 I5 I6 I7 I8]%grown_inv. split_and!.
  - intros height. unfold Height. rewrite <-I5. unfold VerifyEntry. split.
    + intros E. apply bind_Ok in E as (e & He%some_or_Ok & _). by exists e.
    + intros [e He]. rewrite He. cbn [some_or mbind res_bind]. destruct (I6 _ _ He) as (_ & root & _ & [_ [R1 R2] _ _ R4 (B1 & B2 & B3)]).
      rewrite R1. cbn [or_err mbind res_bind]. rewrite R2, B2, B3, !bool_decide_eq_true_2 by done. cbn [negb orb fail_if mbind res_bind].
      by rewrite R4.
  - intros height e Hg. unfold Chain_Entry in Hg. destruct (ck_entries c !! height) as [e0|] eqn:He; [|done]. injection Hg as <-.
    destruct (I6 _ _ He) as (Hh & root & Hr & [[_ Hn] [_ R2] _ _ _ _]). cbn [e_Header]. split_and!; try done.
    + intros ->. unfold root_after in Hr. cbn in Hr. rewrite R2. by destruct (ValidatorSet_Root genesis); [injection Hr as ->|].
    + intros below Hb. unfold Chain_Entry in Hb. destruct (ck_entries c !! (height - 1)) as [b|] eqn:Eb; [|done]. injection Hb as <-.
      cbn [e_Header]. split.
      * apply (I7 (height - 1)); [done|]. by replace (height - 1 + 1) with height by lia.
      * unfold root_after in Hr. assert (is_Some (ck_entries c !! (height - 1))) as Hin by done. apply I5 in Hin.
        destruct (Z.eqb_spec (height - 1) 0); [lia|]. rewrite Eb in Hr. cbn in Hr. congruence.
  - intros root s. unfold Chain_ValidatorSet. destruct (ck_sets c !! root) as [s0|] eqn:Es; [|done]. intros [= <-].
    rewrite cloneSet_id. by apply I8.
Qed.
End proofs.

Section forks.
Context `{HC : Crypto}.

(** Two headers that collide. *)
Definition headers_collide (h1 h2 : GlobalHeader) : Prop :=
  header_input h1 <> header_input h2 /\ sha256 (header_input h1) = sha256 (header_input h2).

(** More than a third of the power of a set signed both certificates: each of
    these validators cast a vote with a verified signature in each; if the
    certificates are of one round, each signed two headers of one round. *)
Definition double_signed (s : ValidatorSet) (c1 c2 : Certificate) : Prop :=
  powers (s_Validators s) < 3 * powers (common_voters s c1 c2) /\
  (forall v, v ∈ common_voters s c1 c2 -> exists v1 v2, cast_in c1 v1 v /\ cast_in c2 v2 v) /\
  (c_Round c1 = c_Round c2 -> powers (s_Validators s) < 3 * powers (equivocators s c1 c2)).

(** The entries at which two chains part: different headers of one height,
    certified under one validator root, by sets with the same members, of which
    more than a third of the power signed both headers.  Or the two sets are
    different and SHA-256 collides on what their root was computed from. *)
Definition fork_at (c1 c2 : Chain) (k : Z) : Prop :=
  exists e1 e2, ck_entries c1 !! k = Some e1 /\ ck_entries c2 !! k = Some e2 /\
    HeaderConsensusHash (e_Header e1) <> HeaderConsensusHash (e_Header e2) /\
    h_ValidatorRoot (e_Header e1) = h_ValidatorRoot (e_Header e2) /\
    ((s_Validators (e_Validators e1) ≡ₚ s_Validators (e_Validators e2) /\
      double_signed (e_Validators e1) (e_Certificate e1) (e_Certificate e2)) \/
     inputs_collide (set_root_inputs (e_Validators e1)) (set_root_inputs (e_Validators e2))).

(** A Go slice has fewer elements than this. *)
Definition sets_fit (c : Chain) : Prop := forall k e, ck_entries c !! k = Some e -> blen (s_Validators (e_Validators e)) <= 2 ^ 62.

Definition agree_below (c1 c2 : Chain) (k : Z) : Prop :=
  forall j b1 b2, 1 <= j < k -> ck_entries c1 !! j = Some b1 -> ck_entries c2 !! j = Some b2 ->
    HeaderConsensusHash (e_Header b1) = HeaderConsensusHash (e_Header b2).

Definition collision_below (c1 c2 : Chain) (k : Z) : Prop :=
  exists j b1 b2, 1 <= j < k /\ ck_entries c1 !! j = Some b1 /\ ck_entries c2 !! j = Some b2 /\
    headers_collide (e_Header b1) (e_Header b2).

Lemma same_parent_root network genesis c1 c2 k e1 e2 :
  chain_inv network genesis c1 -> chain_inv network genesis c2 ->
  ck_entries c1 !! k = Some e1 -> ck_entries c2 !! k = Some e2 ->
  (k = 1 \/ exists b1 b2, ck_entries c1 !! (k - 1) = Some b1 /\ ck_entries c2 !! (k - 1) = Some b2 /\
     clear_certificate (e_Header b1) = clear_certificate (e_Header b2)) ->
  h_ValidatorRoot (e_Header e1) = h_ValidatorRoot (e_Header e2).
Proof.
  intros I J H1 H2 Hb. destruct (ci_entries _ _ _ I _ _ H1) as (_ & r1 & R1 & E1), (ci_entries _ _ _ J _ _ H2) as (_ & r2 & R2 & E2).
  rewrite (proj2 (ce_root _ _ _ E1)), (proj2 (ce_root _ _ _ E2)). unfold root_after in R1, R2.
  destruct Hb as [->|(b1 & b2 & B1 & B2 & Hb)]; [change (1 - 1 =? 0) with true in R1, R2; cbv iota in R1, R2; rewrite R1 in R2; by injection R2|].
  assert (is_Some (ck_entries c1 !! (k - 1))) as Hin by done. apply (ci_domain _ _ _ I) in Hin.
  destruct (Z.eqb_spec (k - 1) 0); [lia|]. rewrite B1 in R1. rewrite B2 in R2. cbn in R1, R2.
  injection R1 as <-. injection R2 as <-. unfold EffectiveNextValidatorRoot.
  apply (f_equal (fun h => (h_ValidatorRoot h, h_NextValidatorRoot h))) in Hb. cbn in Hb. injection Hb as -> ->. done.
Qed.

Lemma entries_fork network genesis c1 c2 k e1 e2 :
  chain_inv network genesis c1 -> chain_inv network genesis c2 -> sets_fit c1 -> sets_fit c2 ->
  ck_entries c1 !! k = Some e1 -> ck_entries c2 !! k = Some e2 ->
  HeaderConsensusHash (e_Header e1) <> HeaderConsensusHash (e_Header e2) ->
  h_ValidatorRoot (e_Header e1) = h_ValidatorRoot (e_Header e2) -> fork_at c1 c2 k.
Proof.
  intros I J B1 B2 H1 H2 Hne Hr. exists e1, e2. split_and!; try done.
  destruct (ci_entries _ _ _ I _ _ H1) as (K1 & r1 & _ & [_ [R1 R1'] V1 N1 C1 (D1 & X1 & _)]).
  destruct (ci_entries _ _ _ J _ _ H2) as (K2 & r2 & _ & [_ [R2 R2'] V2 N2 C2 (D2 & X2 & _)]).
  assert (r2 = r1) as -> by congruence.
  destruct (ValidatorSet_Root_binding _ _ _ V1 V2 (B1 _ _ H1) (B2 _ _ H2) R1 R2) as [Hp|Hcol]; [left|by right]. split; [by symmetry|].
  apply (VerifyCertificate_perm _ (e_Validators e1)) in C2; [|done|congruence|by symmetry].
  split; [by apply quorum_overlap|]. split; [by apply equivocators_cover|]. intros Hround. apply Z.nle_gt. intros Hfew.
  apply Hne. rewrite <-X1, <-X2. apply (same_round_same_header (e_Validators e1)); try done. congruence.
Qed.

Lemma first_fork network genesis c1 c2 (n : nat) :
  chain_inv network genesis c1 -> chain_inv network genesis c2 -> sets_fit c1 -> sets_fit c2 ->
  Z.of_nat n <= ck_lastHeight c1 -> Z.of_nat n <= ck_lastHeight c2 ->
  agree_below c1 c2 (Z.of_nat n + 1) \/
  (exists k, 1 <= k <= Z.of_nat n /\ fork_at c1 c2 k /\ agree_below c1 c2 k) \/ collision_below c1 c2 (Z.of_nat n).
Proof.
  intros I J S1 S2. induction n as [|m IH]; intros Hl1 Hl2; [left; intros j; lia|].
  destruct IH as [IH|[(k & Hk & Hf)|(k & b1 & b2 & Hk & Hb)]]; [lia|lia| |right; left; exists k; split; [lia|done]|
    right; right; exists k, b1, b2; split; [lia|done]].
  destruct (proj2 (ci_domain _ _ _ I (Z.of_nat (S m)))) as [g1 L1]; [lia|].
  destruct (proj2 (ci_domain _ _ _ J (Z.of_nat (S m)))) as [g2 L2]; [lia|].
  destruct (decide (HeaderConsensusHash (e_Header g1) = HeaderConsensusHash (e_Header g2))) as [Heq|Hne].
  { left. intros j b1 b2 Hj B1 B2. destruct (decide (j = Z.of_nat (S m))) as [->|]; [congruence|]. apply (IH j); [lia|done|done]. }
  right. destruct (decide (m = 0%nat)) as [->|Hm0].
  { left. exists 1. split; [lia|]. split; [|intros j; lia]. apply (entries_fork network genesis c1 c2 _ g1 g2); try done.
    apply (same_parent_root network genesis c1 c2 1); try done. by left. }
  destruct (proj2 (ci_domain _ _ _ I (Z.of_nat m))) as [b1 B1]; [lia|].
  destruct (proj2 (ci_domain _ _ _ J (Z.of_nat m))) as [b2 B2]; [lia|].
  destruct (ci_entries _ _ _ I _ _ B1) as (_ & _ & _ & [[O1 _] _ _ _ _ _]), (ci_entries _ _ _ J _ _ B2) as (_ & _ & _ & [[O2 _] _ _ _ _ _]).
  assert (1 <= Z.of_nat m < Z.of_nat m + 1) as Hm by lia.
  destruct (HeaderConsensusHash_binding _ _ O1 O2 (IH _ _ _ Hm B1 B2)) as [Hs|Hc].
  - left. exists (Z.of_nat (S m)). split; [lia|]. split; [|intros j d1 d2 Hj; apply IH; lia].
    apply (entries_fork network genesis c1 c2 _ g1 g2); try done. apply (same_parent_root network genesis c1 c2 (Z.of_nat (S m))); try done.
    right. exists b1, b2. by replace (Z.of_nat (S m) - 1) with (Z.of_nat m) by lia.
  - right. exists (Z.of_nat m), b1, b2. split; [lia|done].
Qed.

Lemma Chain_Entry_header c n e : Chain_Entry c n = Some e -> exists f, ck_entries c !! n = Some f /\ e_Header f = e_Header e.
Proof. unfold Chain_Entry. destruct (ck_entries c !! n) as [f|]; [|done]. intros [= <-]. by exists f. Qed.

(** C7: light clients that part can name the culprits.  Two checkpoint chains that
    grew from one genesis set either hold headers of one hash at a common height,
    or there is a lowest height at which they part: there the two headers are
    certified under one validator root by sets with the same members, and members
    with more than a third of the power signed both headers, in one round if the
    certificates are of one round; or SHA-256 collides, on two headers or on the
    inputs of that root. *)
Theorem fork_accountable (network : bytes) (genesis : ValidatorSet) (c1 c2 : Chain) (n : Z) (e1 e2 : Entry) :
  grown network genesis c1 -> grown network genesis c2 -> sets_fit c1 -> sets_fit c2 ->
  Chain_Entry c1 n = Some e1 -> Chain_Entry c2 n = Some e2 ->
  HeaderConsensusHash (e_Header e1) = HeaderConsensusHash (e_Header e2) \/
  (exists k, 1 <= k <= n /\ fork_at c1 c2 k /\ agree_below c1 c2 k) \/ collision_below c1 c2 n.
Proof.
  intros I%grown_inv J%grown_inv S1 S2 (f1 & F1 & <-)%Chain_Entry_header (f2 & F2 & <-)%Chain_Entry_header.
  assert (is_Some (ck_entries c1 !! n)) as Hin1 by done. assert (is_Some (ck_entries c2 !! n)) as Hin2 by done.
  apply (ci_domain _ _ _ I) in Hin1. apply (ci_domain _ _ _ J) in Hin2.
  destruct (first_fork network genesis c1 c2 (Z.to_nat n) I J S1 S2) as [Hall|Hrest]; [lia|lia| |]; rewrite Z2Nat.id in * by lia; [|by right].
  left. apply (Hall n); [lia|done|done].
Qed.
End forks.

(** ** Two light clients that were shown different first blocks *)

Module CheckpointExample.
#[local] Existing Instance small_crypto.

Definition unsigned (data : Z) : GlobalHeader :=
  mkGlobalHeader 2 (be 32 3) 1 zero32 (be 32 9) sample_validator_root sample_validator_root (be 32 data) zero32.
Definition certificate (data : Z) : Certificate :=
  let hash := HeaderConsensusHash (unsigned data) in
  mkCertificate (be 32 3) 1 0 hash
    ((fun i => mkVote (be 32 3) 1 0 hash (v_ID (sample_validator i)) (sample_key i) (be 32 1 ++ be 32 1)) <$> [2; 3; 4]).
Definition header (data : Z) : GlobalHeader :=
  mkGlobalHeader 2 (be 32 3) 1 zero32 (be 32 9) sample_validator_root sample_validator_root (be 32 data)
    (Certificate_Hash (certificate data)).
Definition opened : res Chain := New (be 32 3) sample_set.
Definition followed (data : Z) : res Chain :=
  c ← opened;
  Append c (header data) (certificate data) sample_set None.

Definition hash_at (data : Z) : option bytes :=
  match followed data with Ok c => HeaderConsensusHash ∘ e_Header <$> Chain_Entry c 1 | Err _ => None end.

Lemma follows : is_ok opened && is_ok (followed 7) && is_ok (followed 8) = true.
Proof. vm_compute. reflexivity. Qed.
Lemma hashes_differ : bool_decide (is_Some (hash_at 7)) && bool_decide (is_Some (hash_at 8)) && bool_decide (hash_at 7 <> hash_at 8) = true.
Proof. vm_compute. reflexivity. Qed.
Definition parses (data : Z) : bool :=
  bool_decide (ParseGlobalHeader (GlobalHeader_CanonicalBytes (header data)) = Ok (header data)).
Lemma headers_parse : parses 7 && parses 8 = true.
Proof. vm_compute. reflexivity. Qed.
Lemma header_ok (data : Z) : data = 7 \/ data = 8 -> GlobalHeader_ok (header data).
Proof.
  assert (parses data = true -> GlobalHeader_ok (header data)) as Hp.
  { unfold parses. intros Hp. apply bool_decide_eq_true_1 in Hp. exact (proj1 (ParseGlobalHeader_Ok _ _ Hp)). }
  pose proof headers_parse as [H7 H8]%andb_true_iff. intros [-> | ->]; apply Hp; [exact H7|exact H8].
Qed.

Lemma followed_grown data c : data = 7 \/ data = 8 -> followed data = Ok c -> grown (be 32 3) sample_set c.
Proof.
  intros Hd E. unfold followed in E. apply bind_Ok in E as (c0 & E0 & E).
  exact (gr_append _ _ c0 _ _ _ _ _ (gr_new _ _ c0 E0) (header_ok data Hd) sample_set_typed E).
Qed.

Lemma followed_sets_fit data c : followed data = Ok c -> sets_fit c.
Proof.
  intros E. unfold followed in E. apply bind_Ok in E as (c0 & E0 & E). unfold opened, New in E0.
  apply bind_Ok in E0 as ([] & _ & E0). apply bind_Ok in E0 as (root & _ & E0). apply bind_Ok in E0 as ([] & _ & E0). apply Ok_inj in E0 as <-.
  unfold Append in E. do 2 apply bind_Ok in E as ([] & _ & E). apply bind_Ok in E as (r & _ & E).
  do 3 apply bind_Ok in E as ([] & _ & E). apply bind_Ok in E as (sets & _ & E). apply Ok_inj in E as <-.
  intros k e. cbn [ck_entries]. intros [[_ <-]|[_ He]]%lookup_insert_Some; [|by rewrite lookup_empty in He].
  cbn [e_Validators]. rewrite cloneSet_id. vm_compute. discriminate.
Qed.

Lemma checkpoint_chain_certified_witness : exists c, followed 7 = Ok c /\ VerifyEntry c 1 = Ok tt.
Proof.
  pose proof follows as [[_ [c E]%is_ok_true]%andb_true_iff _]%andb_true_iff. exists c. split; [exact E|].
  destruct (checkpoint_chain_certified _ _ c (followed_grown 7 c (or_introl eq_refl) E)) as (Hv & _).
  apply Hv. pose proof hashes_differ as [[H7%bool_decide_eq_true _]%andb_true_iff _]%andb_true_iff.
  unfold hash_at in H7. rewrite E in H7. destruct (Chain_Entry c 1) as [e|] eqn:He; [|by destruct H7].
  apply Chain_Entry_header in He as (f & Hf & _).
  destruct (grown_inv _ _ _ (followed_grown 7 c (or_introl eq_refl) E)) as [_ _ _ _ Hdom _ _ _].
  apply Hdom. exact (mk_is_Some _ _ Hf).
Defined.

Lemma fork_accountable_witness :
  exists c1 c2, followed 7 = Ok c1 /\ followed 8 = Ok c2 /\ fork_at c1 c2 1.
Proof.
  pose proof follows as [[_ [c1 E1]%is_ok_true]%andb_true_iff [c2 E2]%is_ok_true]%andb_true_iff. exists c1, c2.
  split; [exact E1|]. split; [exact E2|].
  pose proof hashes_differ as [[H7%bool_decide_eq_true H8%bool_decide_eq_true]%andb_true_iff Hne%bool_decide_eq_true]%andb_true_iff.
  unfold hash_at in H7, H8, Hne. rewrite E1 in H7, Hne. rewrite E2 in H8, Hne.
  destruct (Chain_Entry c1 1) as [e1|] eqn:X1; [|by destruct H7]. destruct (Chain_Entry c2 1) as [e2|] eqn:X2; [|by destruct H8].
  destruct (fork_accountable _ _ c1 c2 1 e1 e2 (followed_grown 7 c1 (or_introl eq_refl) E1)
    (followed_grown 8 c2 (or_intror eq_refl) E2) (followed_sets_fit 7 c1 E1) (followed_sets_fit 8 c2 E2) X1 X2) as [Hs|[(k & Hk & Hf & _)|(k & _ & _ & Hk & _)]].
  - exfalso. apply Hne. cbn. by f_equal.
  - assert (k = 1) as -> by lia. exact Hf.
  - exfalso. lia.
Defined.
End CheckpointExample.
End Checkpoint.
