(* ===== verification/Genesis.v ===== *)
(** * Genesis

    Package [internal/v2/genesis]: the configuration of a chain and its network
    identifier ([genesis.go]), the stores it seeds ([state.go]) and the trust
    anchor of light clients ([trust.go]), with the theorem that a chain starts the
    same way on every node: whatever the order of its lists, and however often the
    node is started. *)

From S2P Require Import Prelude GoLib Codec Crypto Types Merkle Object Smt SmtProofs SmtTheorems Sharding Tx TxProofs Consensus ConsensusProofs.
From S2P Require Import ComputeWork Contracts Execution ExecutionExtended ExecutionProofs Worldstate WorldstateProofs Batch BatchProofs EconomicsCollector.

Open Scope Z_scope.

Module Genesis.

Definition ProtocolVersion : Z := 2.

Record Validator := mkValidator {
  gv_ID : bytes;
  gv_ConsensusPublicKey : bytes;
  gv_VotingPower : Z;
}.

Record Allocation := mkAllocation {
  ga_Owner : bytes;
  ga_Amount : Z;
}.

Record Config := mkConfig {
  g_Version : Z;
  g_ChainName : bytes;
  g_GenesisUnix : Z;
  g_InitialShardCount : Z;
  g_MaxShardCount : Z;
  g_NativeSymbol : bytes;
  g_Validators : list Validator;
  g_Allocations : list Allocation;
}.

Definition validate_validator (st : gset bytes * Z) (v : Validator) : res (gset bytes * Z) :=
  let '(seen, total) := st in
  fail_if (IsZero32 (gv_ID v) || (blen (gv_ConsensusPublicKey v) =? 0) || (gv_VotingPower v =? 0)) ErrValidator;;
  fail_if (bool_decide (gv_ID v ∈ seen)) ErrValidator;;
  fail_if (sub64 MaxUint64 total <? gv_VotingPower v) ErrVotingPower;;
  Ok ({[gv_ID v]} ∪ seen, add64 total (gv_VotingPower v)).

Definition validate_allocation (st : gset bytes * Z) (a : Allocation) : res (gset bytes * Z) :=
  let '(seen, supply) := st in
  fail_if (IsZero32 (ga_Owner a) || (ga_Amount a =? 0)) ErrAllocation;;
  fail_if (bool_decide (ga_Owner a ∈ seen)) ErrAllocation;;
  fail_if (sub64 MaxUint64 supply <? ga_Amount a) ErrAllocationSupply;;
  Ok ({[ga_Owner a]} ∪ seen, add64 supply (ga_Amount a)).

Definition Config_Validate (g : Config) : res unit :=
  fail_if (negb (g_Version g =? ProtocolVersion)) ErrProtocolVersion;;
  fail_if (bool_decide (TrimSpace (g_ChainName g) = [])) ErrChainName;;
  fail_if ((g_InitialShardCount g =? 0) || (g_MaxShardCount g <? g_InitialShardCount g)) ErrShardConfig;;
  let symbol := TrimSpace (g_NativeSymbol g) in
  fail_if (bool_decide (symbol = []) || (16 <? blen symbol)) ErrAllocation;;
  '(_, total) ← rfold validate_validator (∅, 0) (g_Validators g);
  fail_if ((blen (g_Validators g) =? 0) || (total =? 0)) ErrValidator;;
  rfold validate_allocation (∅, 0) (g_Allocations g);;
  Ok tt.

Definition write_validator (w : bytes) (v : Validator) : bytes :=
  w |> Writer.Fixed (gv_ID v) |> Writer.Bytes (gv_ConsensusPublicKey v) |> Writer.U64 (gv_VotingPower v).
Definition write_allocation (w : bytes) (a : Allocation) : bytes :=
  w |> Writer.Fixed (ga_Owner a) |> Writer.U64 (ga_Amount a).

Definition Config_CanonicalBytes (g : Config) : res bytes :=
  Config_Validate g;;
  let validators := sort_by gv_ID (g_Validators g) in
  let allocations := sort_by ga_Owner (g_Allocations g) in
  let w := Writer.new |> Writer.U16 (g_Version g) |> Writer.String (TrimSpace (g_ChainName g)) |> Writer.U64 (g_GenesisUnix g)
    |> Writer.U32 (g_InitialShardCount g) |> Writer.U32 (g_MaxShardCount g) |> Writer.String (TrimSpace (g_NativeSymbol g))
    |> Writer.U32 (blen validators mod 2 ^ 32) in
  let w := foldl write_validator w validators |> Writer.U32 (blen allocations mod 2 ^ 32) in
  Ok (Writer.BytesCopy (foldl write_allocation w allocations)).

Definition TotalVotingPower (g : Config) : res Z :=
  Config_Validate g;;
  rfold (fun total v => fail_if (sub64 MaxUint64 total <? gv_VotingPower v) ErrVotingPower;;
                        Ok (add64 total (gv_VotingPower v))) 0 (g_Validators g).

Record TrustAnchor := mkTrustAnchor { ta_Network : bytes; ta_ValidatorRoot : bytes }.

Section network.
Context `{Crypto}.

Definition Config_NetworkID (g : Config) : res bytes :=
  payload ← Config_CanonicalBytes g;
  Ok (DomainHash (str "zephyr/genesis/v2") payload).

Definition Config_NativeTokenID (g : Config) : res bytes :=
  network ← Config_NetworkID g;
  Ok (HashBytes (str "zephyr/native-token/v2") (network ++ TrimSpace (g_NativeSymbol g))).

Definition Config_ValidatorSet (g : Config) : res ValidatorSet :=
  network ← Config_NetworkID g;
  let set := mkValidatorSet network
    ((fun v => Consensus.mkValidator (gv_ID v) (gv_ConsensusPublicKey v) (gv_VotingPower v)) <$> g_Validators g) in
  ValidatorSet_Validate set <?> ErrValidator;;
  Ok set.

Definition Config_TrustAnchor (g : Config) : res TrustAnchor :=
  set ← Config_ValidatorSet g;
  root ← ValidatorSet_Root set <?> ErrValidator;
  Ok (mkTrustAnchor (s_Network set) root).

(** ** The stores of a new chain *)

Definition GenesisMarkerID (network : bytes) (shard : Z) : bytes := ObjectIDForShard network 0xfffffff0 shard.

Definition GenesisAllocationID (network owner : bytes) (shard : Z) : bytes :=
  let seed := DomainHash (str "zephyr/genesis/allocation/v2")
    (Writer.BytesCopy (Writer.new |> Writer.Fixed network |> Writer.Fixed owner)) in
  ObjectIDForShard seed 0 shard.

Definition marker_matches (marker : Object) (genesisHash : bytes) (shard : Z) : bool :=
  (Kind marker =? KindSystem) && (blen (Data marker) =? 36) && bool_decide (firstn 32 (Data marker) = genesisHash)
  && (be_val (skipn 32 (Data marker)) =? shard).

Definition seed_allocation (network native : bytes) (shardCount shard : Z) (created : list Object) (a : Allocation)
    : res (list Object) :=
  if negb (AccountShard (ga_Owner a) shardCount =? shard) then Ok created
  else
    coin ← NewCoinOutput (ga_Owner a) native (ga_Amount a);
    Ok (created ++ [mkObject (GenesisAllocationID network (ga_Owner a) shard) 1 (ga_Owner a) (o_Kind coin) (o_Data coin)]).

(** The object that marks a seeded shard. *)
Definition marker (network genesisHash : bytes) (shard : Z) : Object :=
  mkObject (GenesisMarkerID network shard) 1 zero32 KindSystem (genesisHash ++ be 4 shard).

Context {St : Type} `{Backend St}.

Definition seed_shard (g : Config) (network native genesisHash : bytes) (states : gmap Z St) (shard : Z) : res (gmap Z St) :=
  store ← some_or (states !! shard) ErrGenesisState;
  match backend_GetObject store (GenesisMarkerID network shard) with
  | Some m => fail_if (negb (marker_matches m genesisHash shard)) ErrGenesisState;; Ok states
  | None =>
      fail_if (negb (bool_decide (backend_Root store = Memory_Root NewMemory))) ErrGenesisState;;
      created ← rfold (seed_allocation network native (g_InitialShardCount g) shard) [] (g_Allocations g);
      '(store, _) ← backend_Apply store [] (created ++ [marker network genesisHash shard]);
      Ok (<[shard := store]> states)
  end.

(** The shards in order; those before the one that fails stay seeded. *)
Fixpoint seed_shards (g : Config) (network native genesisHash : bytes) (shards : list Z) (states : gmap Z St)
    : gmap Z St * res unit :=
  match shards with
  | [] => (states, Ok tt)
  | shard :: shards =>
      match seed_shard g network native genesisHash states shard with
      | Err e => (states, Err e)
      | Ok states => seed_shards g network native genesisHash shards states
      end
  end.

Definition SeedStates (g : Config) (states : gmap Z St) : gmap Z St * res unit :=
  match fail_if (negb (is_ok (Config_Validate g)) || negb (Z.of_nat (size states) =? g_InitialShardCount g)) ErrGenesisState;;
        network ← Config_NetworkID g;
        native ← Config_NativeTokenID g;
        canonical ← Config_CanonicalBytes g;
        Ok (network, native, DomainHash (str "zephyr/genesis/state/v2") canonical) with
  | Err e => (states, Err e)
  | Ok (network, native, genesisHash) => seed_shards g network native genesisHash (shard_range (g_InitialShardCount g)) states
  end.
End network.

(** ** The order of the lists *)

Record Config_typed (g : Config) : Prop := {
  gt_shards : u32 (g_InitialShardCount g);
  gt_powers : Forall (fun v => u64 (gv_VotingPower v)) (g_Validators g);
  gt_owners : Forall (fun a => arr32 (ga_Owner a) /\ u64 (ga_Amount a)) (g_Allocations g);
}.

(** A loop of [Validate]: distinct keys, no bad entry and a sum within [uint64]. *)
Section distinct.
Context {A : Type} (key : A -> bytes) (amount : A -> Z) (bad : A -> bool).
Context (step : gset bytes * Z -> A -> res (gset bytes * Z)) (e1 e2 e3 : error).
Context (Hstep : forall seen total x, step (seen, total) x =
  (fail_if (bad x) e1;; fail_if (bool_decide (key x ∈ seen)) e2;;
   fail_if (sub64 MaxUint64 total <? amount x) e3;; Ok ({[key x]} ∪ seen, add64 total (amount x)))).

Definition distinct_ok (l : list A) (seen : gset bytes) (total : Z) : Prop :=
  Forall (fun x => bad x = false) l /\ NoDup (key <$> l) /\ Forall (fun x => key x ∉ seen) l /\
  total + zsum (amount <$> l) <= MaxUint64.

Lemma distinct_loop l seen total :
  Forall (fun x => u64 (amount x)) l -> 0 <= total <= MaxUint64 ->
  match rfold step (seen, total) l with
  | Ok st => distinct_ok l seen total /\ st.2 = total + zsum (amount <$> l)
  | Err _ => ~ distinct_ok l seen total
  end.
Proof.
  revert seen total. induction l as [|x l IH]; intros seen total Hu Ht.
  { cbn [rfold fmap list_fmap]. cbn. split; [|lia]. split_and!; try constructor. cbn. lia. }
  apply Forall_cons_1 in Hu as [Hx Hu]. unfold u64 in Hx. cbn [rfold]. rewrite Hstep. unfold MaxUint64 in *.
  assert (0 <= zsum (amount <$> l)) as Hpos.
  { apply zsum_nonneg, Forall_fmap. eapply Forall_impl; [exact Hu|]. intros y [Hy _]. exact Hy. }
  assert (distinct_ok (x :: l) seen total <->
    bad x = false /\ key x ∉ seen /\ total + amount x <= 2 ^ 64 - 1 /\ distinct_ok l ({[key x]} ∪ seen) (total + amount x)) as Hd.
  { unfold distinct_ok, MaxUint64. rewrite !Forall_cons, fmap_cons, NoDup_cons, fmap_cons, zsum_cons. split.
    - intros ((B1 & B2) & (N1 & N2) & (S1 & S2) & Hs). split_and!; try done; try lia.
      rewrite Forall_forall in S2 |- *. intros y Hy. apply not_elem_of_union. split; [|by apply S2].
      apply not_elem_of_singleton. intros Heq. apply N1. rewrite <-Heq. by apply list_elem_of_fmap_2.
    - intros (B1 & S1 & Hle & B2 & N2 & S2 & Hs). rewrite Forall_forall in S2. split_and!; try done; try lia.
      + intros (y & Heq & Hy)%list_elem_of_fmap. apply (S2 y Hy). rewrite <-Heq. set_solver.
      + apply Forall_forall. intros y Hy. specialize (S2 y Hy). set_solver. }
  destruct (bad x) eqn:Eb; cbn [fail_if mbind res_bind]; [rewrite Hd; naive_solver|].
  destruct (bool_decide (key x ∈ seen)) eqn:Es; bool_inv; cbn [fail_if mbind res_bind]; [rewrite Hd; naive_solver|].
  unfold sub64. rewrite Z.mod_small by lia.
  destruct (Z.ltb_spec (2 ^ 64 - 1 - total) (amount x)) as [Hlt|Hge]; cbn [fail_if mbind res_bind]; [rewrite Hd; intros (_ & _ & ? & _); lia|].
  unfold add64. rewrite Z.mod_small by lia. specialize (IH ({[key x]} ∪ seen) (total + amount x) Hu ltac:(lia)).
  destruct (rfold _ _ l) as [st|]; [|rewrite Hd; naive_solver]. destruct IH as [IH ->]. rewrite Hd, fmap_cons, zsum_cons.
  split; [|lia]. split_and!; try done; lia.
Qed.

Lemma distinct_ok_perm l l' seen total : l ≡ₚ l' -> distinct_ok l seen total -> distinct_ok l' seen total.
Proof.
  intros Hp (H1 & H2 & H3 & H4). split_and!.
  - revert H1. rewrite !Forall_forall. intros H1 x Hx. apply H1. by rewrite Hp.
  - by rewrite <-(fmap_Permutation key _ _ Hp).
  - revert H3. rewrite !Forall_forall. intros H3 x Hx. apply H3. by rewrite Hp.
  - by rewrite <-(zsum_proper _ _ (fmap_Permutation amount _ _ Hp)).
Qed.

(** Whether the loop succeeds does not depend on the order. *)
Lemma distinct_loop_perm l l' :
  Forall (fun x => u64 (amount x)) l -> l ≡ₚ l' ->
  match rfold step (∅, 0) l, rfold step (∅, 0) l' with
  | Ok st, Ok st' => st.2 = st'.2
  | Err _, Err _ => True
  | _, _ => False
  end.
Proof.
  intros Hu Hp. assert (Forall (fun x => u64 (amount x)) l') as Hu' by (by rewrite <-Hp).
  pose proof (distinct_loop l ∅ 0 Hu) as H1. pose proof (distinct_loop l' ∅ 0 Hu') as H2.
  assert (distinct_ok l ∅ 0 <-> distinct_ok l' ∅ 0) as Heq by (split; apply distinct_ok_perm; [done|by symmetry]).
  unfold MaxUint64 in *. specialize (H1 ltac:(lia)). specialize (H2 ltac:(lia)).
  destruct (rfold step (∅, 0) l), (rfold step (∅, 0) l'); try done.
  - destruct H1 as [_ ->], H2 as [_ ->]. by rewrite (zsum_proper _ _ (fmap_Permutation amount _ _ Hp)).
  - apply H2, Heq, H1.
  - apply H1, Heq, H2.
Qed.
End distinct.

(** Two spellings of one configuration. *)
Record same_chain (g g' : Config) : Prop := {
  sc_version : g_Version g' = g_Version g;
  sc_name : TrimSpace (g_ChainName g') = TrimSpace (g_ChainName g);
  sc_time : g_GenesisUnix g' = g_GenesisUnix g;
  sc_shards : g_InitialShardCount g' = g_InitialShardCount g /\ g_MaxShardCount g' = g_MaxShardCount g;
  sc_symbol : TrimSpace (g_NativeSymbol g') = TrimSpace (g_NativeSymbol g);
  sc_validators : g_Validators g ≡ₚ g_Validators g';
  sc_allocations : g_Allocations g ≡ₚ g_Allocations g';
}.

Lemma validators_loop l : Forall (fun v => u64 (gv_VotingPower v)) l ->
  match rfold validate_validator (∅, 0) l with
  | Ok st => distinct_ok gv_ID gv_VotingPower
      (fun v => IsZero32 (gv_ID v) || (blen (gv_ConsensusPublicKey v) =? 0) || (gv_VotingPower v =? 0)) l ∅ 0 /\
      st.2 = 0 + zsum (gv_VotingPower <$> l)
  | Err _ => ~ distinct_ok gv_ID gv_VotingPower
      (fun v => IsZero32 (gv_ID v) || (blen (gv_ConsensusPublicKey v) =? 0) || (gv_VotingPower v =? 0)) l ∅ 0
  end.
Proof. intros Hu. eapply distinct_loop; [by intros|done|unfold MaxUint64; lia]. Qed.

Lemma allocations_loop l : Forall (fun a => u64 (ga_Amount a)) l ->
  match rfold validate_allocation (∅, 0) l with
  | Ok st => distinct_ok ga_Owner ga_Amount (fun a => IsZero32 (ga_Owner a) || (ga_Amount a =? 0)) l ∅ 0 /\
      st.2 = 0 + zsum (ga_Amount <$> l)
  | Err _ => ~ distinct_ok ga_Owner ga_Amount (fun a => IsZero32 (ga_Owner a) || (ga_Amount a =? 0)) l ∅ 0
  end.
Proof. intros Hu. eapply distinct_loop; [by intros|done|unfold MaxUint64; lia]. Qed.

Lemma amounts_typed g : Config_typed g -> Forall (fun a => u64 (ga_Amount a)) (g_Allocations g).
Proof. intros Ht. eapply Forall_impl; [apply (gt_owners g Ht)|]. by intros a [_ ?]. Qed.

Lemma Config_Validate_same g g' : Config_typed g -> same_chain g g' ->
  Config_Validate g = Ok tt -> Config_Validate g' = Ok tt.
Proof.
  intros Ht [S1 S2 _ [S4 S5] S6 S7 S8]. unfold Config_Validate. rewrite S1, S2, S4, S5, S6. intros E.
  apply bind_Ok in E as ([] & -> & E). apply bind_Ok in E as ([] & -> & E). apply bind_Ok in E as ([] & -> & E).
  apply bind_Ok in E as ([] & -> & E). cbn [mbind res_bind]. apply bind_Ok in E as ([seen total] & Hv & E).
  apply bind_Ok in E as ([] & Hne & E). apply bind_Ok in E as (st & Ha & _).
  pose proof (distinct_loop_perm gv_ID gv_VotingPower
    (fun v => IsZero32 (gv_ID v) || (blen (gv_ConsensusPublicKey v) =? 0) || (gv_VotingPower v =? 0)) validate_validator
    ErrValidator ErrValidator ErrVotingPower ltac:(by intros) _ _ (gt_powers g Ht) S7) as Hv'.
  rewrite Hv in Hv'. destruct (rfold validate_validator (∅, 0) (g_Validators g')) as [[seen' total']|]; [|done].
  cbn in Hv'. subst total'. cbn [mbind res_bind]. unfold blen in *. rewrite <-S7, Hne. cbn [mbind res_bind].
  pose proof (distinct_loop_perm ga_Owner ga_Amount (fun a => IsZero32 (ga_Owner a) || (ga_Amount a =? 0)) validate_allocation
    ErrAllocation ErrAllocation ErrAllocationSupply ltac:(by intros) _ _ (amounts_typed g Ht) S8) as Ha'.
  rewrite Ha in Ha'. by destruct (rfold validate_allocation (∅, 0) (g_Allocations g')).
Qed.

Lemma Config_Validate_lists g : Config_typed g -> Config_Validate g = Ok tt ->
  NoDup (gv_ID <$> g_Validators g) /\ NoDup (ga_Owner <$> g_Allocations g) /\
  Forall (fun a => IsZero32 (ga_Owner a) = false /\ ga_Amount a <> 0) (g_Allocations g) /\
  zsum (ga_Amount <$> g_Allocations g) <= MaxUint64 /\ 0 < g_InitialShardCount g.
Proof.
  intros Ht E. pose proof (gt_shards g Ht) as Hn. unfold u32 in Hn. unfold Config_Validate in E.
  apply bind_Ok in E as ([] & _ & E). apply bind_Ok in E as ([] & _ & E).
  apply bind_Ok in E as ([] & Hsh%fail_if_Ok & E). apply bind_Ok in E as ([] & _ & E). apply bind_Ok in E as ([seen total] & Hv & E).
  apply bind_Ok in E as ([] & _ & E). apply bind_Ok in E as (st & Ha & _). bool_inv.
  pose proof (validators_loop _ (gt_powers g Ht)) as Lv. rewrite Hv in Lv. destruct Lv as [(_ & Nv & _) _].
  pose proof (allocations_loop _ (amounts_typed g Ht)) as La. rewrite Ha in La. destruct La as [(Ba & Na & _ & Hs) _].
  split_and!; try done; [|lia]. eapply Forall_impl; [exact Ba|]. intros a Hb. apply orb_false_iff in Hb as [? ?]. split; [done|lia].
Qed.

Lemma Config_CanonicalBytes_same g g' raw : Config_typed g -> same_chain g g' ->
  Config_CanonicalBytes g = Ok raw -> Config_CanonicalBytes g' = Ok raw.
Proof.
  intros Ht Hs E. unfold Config_CanonicalBytes in *. apply bind_Ok in E as ([] & Hv & E).
  rewrite (Config_Validate_same g g' Ht Hs Hv). cbn [mbind res_bind].
  destruct (Config_Validate_lists g Ht Hv) as (Nv & Na & _). destruct Hs as [S1 S2 S3 [S4 S5] S6 S7 S8].
  rewrite S1, S2, S3, S4, S5, S6, <-(sort_by_proper gv_ID _ _ Nv S7), <-(sort_by_proper ga_Owner _ _ Na S8). exact E.
Qed.


(** ** What is seeded *)

(** The native coins in a store. *)
Definition coin_amount (native : bytes) (o : Object) : Z :=
  if Kind o =? KindCoin then
    match ParseCoin (Data o) with Ok c => if bool_decide (Token c = native) then Amount c else 0 | Err _ => 0 end
  else 0.
Definition supply (native : bytes) (objects : gmap bytes Object) : Z := msum (coin_amount native <$> objects).

Lemma supply_created native l : NoDup (ID <$> l) ->
  supply native (delta_objects ∅ [] l) = zsum (coin_amount native <$> l).
Proof.
  unfold delta_objects. cbn [foldl]. induction l as [|o l IH] using rev_ind; intros Hnd.
  { unfold supply. cbn [foldl]. by rewrite fmap_empty, msum_empty. }
  rewrite foldl_snoc, fmap_app, zsum_app. cbn [fmap list_fmap]. rewrite fmap_app in Hnd. apply NoDup_app in Hnd as (Hnd & Hd & _).
  unfold supply in *. rewrite fmap_insert, msum_insert_fresh; [rewrite IH by done; cbn; lia|].
  rewrite lookup_fmap. change (foldl (fun m o => <[ID o := o]> m) ∅ l) with (delta_objects ∅ [] l).
  destruct (delta_objects ∅ [] l !! ID o) as [x|] eqn:E; [|done]. apply delta_objects_Some in E; [|done].
  destruct E as [[Hx Hid]|(_ & _ & E)]; [|by rewrite lookup_empty in E]. exfalso. apply (Hd (ID o)); [|cbn; by left].
  rewrite <-Hid. by apply list_elem_of_fmap_2.
Qed.

Section seeding.
Context `{HC : Crypto} {St : Type} `{HB : Backend St} `{HS : !BackendSpec St}.

Definition allocation_object (network native : bytes) (shard : Z) (a : Allocation) : Object :=
  mkObject (GenesisAllocationID network (ga_Owner a) shard) 1 (ga_Owner a) KindCoin
    (Coin_MarshalBinary (mkCoin native (ga_Amount a) 0)).
Definition shard_allocations (g : Config) (shard : Z) : list Allocation :=
  filter (fun a => AccountShard (ga_Owner a) (g_InitialShardCount g) = shard) (g_Allocations g).
Definition seeded (g : Config) (network native genesisHash : bytes) (shard : Z) : list Object :=
  (allocation_object network native shard <$> shard_allocations g shard) ++ [marker network genesisHash shard].

Lemma seed_allocations_Ok network native n shard l created out :
  rfold (seed_allocation network native n shard) created l = Ok out ->
  out = created ++ (allocation_object network native shard <$> filter (fun a => AccountShard (ga_Owner a) n = shard) l) /\
  (filter (fun a => AccountShard (ga_Owner a) n = shard) l <> [] -> IsZero32 native = false).
Proof.
  revert created. induction l as [|a l IH]; intros created E; cbn [rfold] in E.
  { apply Ok_inj in E as <-. cbn. by rewrite app_nil_r. }
  apply bind_Ok in E as (c & Hc & E). unfold seed_allocation in Hc. rewrite filter_cons.
  destruct (Z.eqb_spec (AccountShard (ga_Owner a) n) shard) as [Hs|Hs]; cbn [negb] in Hc.
  - apply bind_Ok in Hc as (coin & Hcoin & Hc). apply Ok_inj in Hc as <-. rewrite decide_True by done. cbn [fmap list_fmap].
    unfold NewCoinOutput, NewCoinOutputAtHeight in Hcoin. apply bind_Ok in Hcoin as ([] & Hz%fail_if_Ok & Hcoin).
    apply bind_Ok in Hcoin as ([] & _ & Hcoin). apply Ok_inj in Hcoin as <-. apply IH in E as [-> _].
    split; [by rewrite <-app_assoc|]. intros _. by apply orb_false_iff in Hz as [[_ Hz]%orb_false_iff _].
  - apply Ok_inj in Hc as <-. rewrite decide_False by done. by apply IH.
Qed.

Lemma marker_found network genesisHash shard :
  arr32 genesisHash -> u32 shard -> marker_matches (marker network genesisHash shard) genesisHash shard = true.
Proof.
  intros Hh Hs. unfold marker_matches, marker. cbn [Kind Data]. unfold blen, arr in *. rewrite length_app, length_be, Hh.
  rewrite take_app_length', drop_app_length', be_val_be by done. change (256 ^ Z.of_nat 4) with (2 ^ 32). rewrite Z.mod_small by done.
  rewrite bool_decide_eq_true_2, !Z.eqb_refl by done. done.
Qed.

(** A store that one configuration has seeded. *)
Definition seeded_store (g : Config) (network native genesisHash : bytes) (shard : Z) (s : St) : Prop :=
  bs_inv s /\ NoDup (ID <$> seeded g network native genesisHash shard) /\
  (shard_allocations g shard <> [] -> IsZero32 native = false) /\
  bs_objects s = delta_objects ∅ [] (seeded g network native genesisHash shard).

Lemma seeded_typed g network native genesisHash shard :
  arr32 native -> u32 shard -> Config_typed g -> Forall Object_typed (seeded g network native genesisHash shard).
Proof.
  intros Hna Hs Ht. apply Forall_app. split.
  - apply Forall_fmap, Forall_forall. intros a [_ Ha]%list_elem_of_filter. pose proof (gt_owners g Ht) as Ho.
    rewrite Forall_forall in Ho. destruct (Ho a Ha) as [Ho1 Ho2]. unfold Object_typed. cbn. split_and!; try done.
    unfold GenesisAllocationID. apply length_ObjectIDForShard.
  - apply Forall_singleton. unfold Object_typed, marker. cbn. split_and!; try done. apply length_ObjectIDForShard.
Qed.

Definition fresh_store (s : St) : Prop := bs_inv s /\ bs_objects s = ∅.

Section chain.
Context (g : Config) (network native genesisHash : bytes).
Context (Ht : Config_typed g) (Hna : arr32 native) (Hgh : arr32 genesisHash).

Lemma seed_shard_fresh states shard s out :
  u32 shard -> states !! shard = Some s -> fresh_store s -> seed_shard g network native genesisHash states shard = Ok out ->
  exists s', out = <[shard := s']> states /\ seeded_store g network native genesisHash shard s'.
Proof.
  intros Hu Hs [Hi He] E. unfold seed_shard in E. rewrite Hs in E. cbn [some_or mbind res_bind] in E.
  rewrite (bs_get s _ Hi), He, lookup_empty in E. apply bind_Ok in E as ([] & _ & E).
  apply bind_Ok in E as (created & [-> Hz]%seed_allocations_Ok & E). apply bind_Ok in E as ([s' root] & Ha & E). apply Ok_inj in E as <-.
  cbn [app] in Ha. fold (shard_allocations g shard) in Ha, Hz. fold (seeded g network native genesisHash shard) in Ha.
  apply bs_apply in Ha as (Hd & Hi' & Ho & _); [|done|by apply seeded_typed]. exists s'. split; [done|].
  rewrite He in Ho. split_and!; try done. apply (dl_fresh _ _ _ Hd).
Qed.

Lemma seed_shard_again states shard s :
  u32 shard -> states !! shard = Some s -> seeded_store g network native genesisHash shard s ->
  seed_shard g network native genesisHash states shard = Ok states.
Proof.
  intros Hu Hs (Hi & Hnd & _ & Ho). unfold seed_shard. rewrite Hs. cbn [some_or mbind res_bind]. rewrite (bs_get s _ Hi), Ho.
  rewrite (proj2 (delta_objects_Some ∅ [] (seeded g network native genesisHash shard) (GenesisMarkerID network shard)
    (marker network genesisHash shard) Hnd)); [by rewrite marker_found|]. left. split; [|done]. apply elem_of_app. right. left.
Qed.

Lemma seed_shards_fresh shards states out :
  NoDup shards -> Forall u32 shards -> (forall shard s, shard ∈ shards -> states !! shard = Some s -> fresh_store s) ->
  seed_shards g network native genesisHash shards states = (out, Ok tt) ->
  (forall shard, shard ∈ shards -> exists s, out !! shard = Some s /\ seeded_store g network native genesisHash shard s) /\
  (forall k, k ∉ shards -> out !! k = states !! k).
Proof.
  revert states. induction shards as [|shard shards IH]; intros states Hnd Hu Hf E; cbn [seed_shards] in E.
  { injection E as <-. split; [intros k Hk; by apply not_elem_of_nil in Hk|done]. }
  apply NoDup_cons in Hnd as [Hni Hnd]. apply Forall_cons_1 in Hu as [Hu1 Hu].
  destruct (seed_shard _ _ _ _ states shard) as [mid|] eqn:Em; [|done].
  destruct (states !! shard) as [s|] eqn:Es; [|by unfold seed_shard in Em; rewrite Es in Em].
  destruct (seed_shard_fresh _ _ _ _ Hu1 Es (Hf shard s ltac:(left) Es) Em) as (s' & -> & Hs').
  apply IH in E as [H1 H2]; [|done|done|].
  - split.
    + intros k [->|Hk]%elem_of_cons; [|by apply H1]. exists s'. rewrite H2 by done. by rewrite lookup_insert_eq.
    + intros k [Hne Hk]%not_elem_of_cons. rewrite H2 by done. by rewrite lookup_insert_ne.
  - intros k x Hk. rewrite lookup_insert_ne by (intros <-; done). apply Hf. by right.
Qed.

Lemma seed_shards_again shards states :
  Forall u32 shards -> (forall shard, shard ∈ shards -> exists s, states !! shard = Some s /\
    seeded_store g network native genesisHash shard s) ->
  seed_shards g network native genesisHash shards states = (states, Ok tt).
Proof.
  induction shards as [|shard shards IH]; intros Hu Hs; [done|]. apply Forall_cons_1 in Hu as [Hu1 Hu]. cbn [seed_shards].
  destruct (Hs shard ltac:(left)) as (s & E & Hst). rewrite (seed_shard_again _ _ _ Hu1 E Hst). apply IH; [done|].
  intros k Hk. apply Hs. by right.
Qed.

Lemma seeded_supply shard s : Config_Validate g = Ok tt -> seeded_store g network native genesisHash shard s ->
  supply native (bs_objects s) = zsum (ga_Amount <$> shard_allocations g shard).
Proof.
  intros Hv (_ & Hnd & Hz & ->). rewrite supply_created by done. unfold seeded. rewrite fmap_app, zsum_app.
  replace (zsum (coin_amount native <$> [marker network genesisHash shard])) with 0 by done. rewrite Z.add_0_r, <-list_fmap_compose.
  f_equal. apply list_fmap_ext. intros i a Ha. apply list_elem_of_lookup_2 in Ha.
  assert (IsZero32 native = false) as Hnz by (apply Hz; intros He; rewrite He in Ha; by apply not_elem_of_nil in Ha).
  apply list_elem_of_filter in Ha as [_ Ha]. pose proof (gt_owners g Ht) as Ho. rewrite Forall_forall in Ho.
  destruct (Config_Validate_lists g Ht Hv) as (_ & _ & Hall & _). rewrite Forall_forall in Hall.
  destruct (Ho a Ha) as [_ Hu]. destruct (Hall a Ha) as [_ Hne].
  unfold compose, coin_amount, allocation_object. cbn [Kind Data]. rewrite Z.eqb_refl.
  rewrite ParseCoin_MarshalBinary by (by split_and!). cbn [Token Amount]. by rewrite bool_decide_eq_true_2.
Qed.
End chain.

(** A sum over the shards of the sums of their parts. *)
Lemma sum_by_shard {A} (f : A -> Z) (amount : A -> Z) (l : list A) n :
  Forall (fun a => 0 <= f a < n) l ->
  zsum ((fun shard => zsum (amount <$> filter (fun a => f a = shard) l)) <$> shard_range n) = zsum (amount <$> l).
Proof.
  induction 1 as [|a l Ha _ IH].
  { cbn [filter list_filter fmap list_fmap]. generalize (shard_range n) as k. intros k. induction k as [|x k IHk]; [done|]. exact IHk. }
  rewrite fmap_cons, zsum_cons, <-IH. clear IH.
  assert (forall k, NoDup k -> zsum ((fun shard => zsum (amount <$> filter (fun a => f a = shard) (a :: l))) <$> k) =
    (if decide (f a ∈ k) then amount a else 0) + zsum ((fun shard => zsum (amount <$> filter (fun a => f a = shard) l)) <$> k)) as Hk.
  { induction k as [|x k IHk]; intros Hnd; [done|]. apply NoDup_cons in Hnd as [Hx Hnd]. rewrite !fmap_cons, !zsum_cons, IHk by done.
    rewrite filter_cons. destruct (decide (f a = x)) as [<-|Hne].
    - rewrite fmap_cons, zsum_cons. rewrite decide_False by done. rewrite decide_True by left. lia.
    - destruct (decide (f a ∈ k)) as [Hin|Hin]; [rewrite decide_True by (by right)|rewrite decide_False by (by apply not_elem_of_cons)]; lia. }
  rewrite Hk by (unfold shard_range; apply NoDup_seqZ). rewrite decide_True; [done|]. unfold shard_range. apply elem_of_seqZ. lia.
Qed.

Lemma seed_shards_dom g network native genesisHash shards (states out : gmap Z St) r :
  seed_shards g network native genesisHash shards states = (out, r) -> dom out = dom states.
Proof.
  revert states. induction shards as [|shard shards IH]; intros states E; cbn [seed_shards] in E; [by injection E as <-|].
  destruct (seed_shard _ _ _ _ states shard) as [mid|] eqn:Em; [|by injection E as <-]. apply IH in E as ->.
  unfold seed_shard in Em. apply bind_Ok in Em as (s & Hs%some_or_Ok & Em). destruct (backend_GetObject s _).
  - apply bind_Ok in Em as ([] & _ & Em). by apply Ok_inj in Em as <-.
  - apply bind_Ok in Em as ([] & _ & Em). apply bind_Ok in Em as (created & _ & Em). apply bind_Ok in Em as ([s' root] & _ & Em).
    apply Ok_inj in Em as <-. apply dom_insert_lookup_L. by exists s.
Qed.

Lemma same_chain_typed g g' : Config_typed g -> same_chain g g' -> Config_typed g'.
Proof.
  intros [H1 H2 H3] [_ _ _ [S4 _] _ S7 S8]. constructor; [by rewrite S4|..].
  - revert H2. rewrite !Forall_forall. intros H2 x Hx. apply H2. by rewrite S7.
  - revert H3. rewrite !Forall_forall. intros H3 x Hx. apply H3. by rewrite S8.
Qed.

(** Everything a successful start has established. *)
Lemma SeedStates_Ok g (states fin : gmap Z St) : Config_typed g -> map_Forall (fun _ s => fresh_store s) states ->
  SeedStates g states = (fin, Ok tt) ->
  exists network native genesisHash,
    Config_NetworkID g = Ok network /\ Config_NativeTokenID g = Ok native /\ arr32 native /\ arr32 genesisHash /\
    (canonical ← Config_CanonicalBytes g; Ok (DomainHash (str "zephyr/genesis/state/v2") canonical)) = Ok genesisHash /\
    Config_Validate g = Ok tt /\ Z.of_nat (size fin) = g_InitialShardCount g /\
    forall shard, 0 <= shard < g_InitialShardCount g ->
      exists s, fin !! shard = Some s /\ seeded_store g network native genesisHash shard s.
Proof.
  intros Ht Hf E. unfold SeedStates in E. destruct (x ← _; _) as [[[network native] genesisHash]|] eqn:Ep; [|done].
  apply bind_Ok in Ep as ([] & [Hv Hn]%fail_if_Ok%orb_false_iff & Ep). apply bind_Ok in Ep as (n1 & Hn1 & Ep).
  apply bind_Ok in Ep as (n2 & Hn2 & Ep). apply bind_Ok in Ep as (raw & Hraw & Ep). apply Ok_inj in Ep. injection Ep as <- <- <-.
  apply negb_false_iff, is_ok_true in Hv as [[] Hv]. apply negb_false_iff, Z.eqb_eq in Hn.
  pose proof (seed_shards_dom _ _ _ _ _ _ _ _ E) as Hdom. pose proof (gt_shards g Ht) as Hu. unfold u32 in Hu.
  assert (arr32 n2) as Hna.
  { unfold Config_NativeTokenID in Hn2. apply bind_Ok in Hn2 as (? & _ & Hn2). apply Ok_inj in Hn2 as <-. apply arr32_DomainHash. }
  assert (Forall u32 (shard_range (g_InitialShardCount g))) as Hus.
  { apply Forall_forall. intros k Hk. unfold shard_range in Hk. apply elem_of_seqZ in Hk. unfold u32. lia. }
  apply seed_shards_fresh in E as [H1 _]; [|done|done|apply NoDup_seqZ|done|intros shard s _ Hs; exact (Hf shard s Hs)].
  exists n1, n2, (DomainHash (str "zephyr/genesis/state/v2") raw). rewrite Hraw. split_and!; try done.
  - apply arr32_DomainHash.
  - by rewrite <-Hn, <-!size_dom, Hdom.
  - intros shard Hs. apply H1. unfold shard_range. apply elem_of_seqZ. lia.
Qed.

Lemma seeded_same g g' network native genesisHash shard s s' : same_chain g g' ->
  seeded_store g network native genesisHash shard s -> seeded_store g' network native genesisHash shard s' ->
  bs_objects s = bs_objects s' /\ backend_Root s = backend_Root s'.
Proof.
  intros Hs (Hi & Hnd & _ & Ho) (Hi' & _ & _ & Ho').
  assert (bs_objects s = bs_objects s') as Heq.
  { rewrite Ho, Ho'. apply delta_objects_perm; [done|done|]. unfold seeded, shard_allocations.
    rewrite (proj1 (sc_shards _ _ Hs)). by rewrite (sc_allocations _ _ Hs). }
  split; [done|]. rewrite !bs_root by done. by rewrite Heq.
Qed.

Lemma seeded_transfer g g' network native genesisHash shard s : same_chain g g' ->
  seeded_store g network native genesisHash shard s -> seeded_store g' network native genesisHash shard s.
Proof.
  intros Hs (Hi & Hnd & Hz & Ho).
  assert (seeded g network native genesisHash shard ≡ₚ seeded g' network native genesisHash shard) as Hp.
  { unfold seeded, shard_allocations. rewrite (proj1 (sc_shards _ _ Hs)). by rewrite (sc_allocations _ _ Hs). }
  split_and!; [done|by rewrite <-Hp| |].
  - intros Hne. apply Hz. intros He. apply Hne. unfold shard_allocations in *. rewrite (proj1 (sc_shards _ _ Hs)).
    apply Permutation_nil_r. by rewrite <-He, (sc_allocations _ _ Hs).
  - rewrite Ho. by apply delta_objects_perm.
Qed.

Definition objects_at (states : gmap Z St) (shard : Z) : gmap bytes Object :=
  match states !! shard with Some s => bs_objects s | None => ∅ end.

Lemma SeedStates_again g (fin : gmap Z St) network native genesisHash : Config_typed g ->
  Config_NetworkID g = Ok network -> Config_NativeTokenID g = Ok native -> arr32 native -> arr32 genesisHash ->
  (canonical ← Config_CanonicalBytes g; Ok (DomainHash (str "zephyr/genesis/state/v2") canonical)) = Ok genesisHash ->
  Config_Validate g = Ok tt -> Z.of_nat (size fin) = g_InitialShardCount g ->
  (forall shard, 0 <= shard < g_InitialShardCount g ->
    exists s, fin !! shard = Some s /\ seeded_store g network native genesisHash shard s) ->
  SeedStates g fin = (fin, Ok tt).
Proof.
  intros Ht Hn Hna Ha Hg Hh Hv Hs Hall. unfold SeedStates. rewrite Hv, Hs, Z.eqb_refl, Hn, Hna.
  apply bind_Ok in Hh as (raw & -> & Hh). apply Ok_inj in Hh as <-. cbn [is_ok negb orb fail_if mbind res_bind].
  pose proof (gt_shards g Ht) as Hu. unfold u32 in Hu. apply seed_shards_again; [apply arr32_DomainHash|..].
  - apply Forall_forall. intros k Hk. unfold shard_range in Hk. apply elem_of_seqZ in Hk. unfold u32. lia.
  - intros k Hk. unfold shard_range in Hk. apply elem_of_seqZ in Hk. apply Hall. lia.
Qed.

(** C32: a chain starts the same way everywhere.  Two nodes that are given the
    genesis with its validators and allocations in any order, and names with any
    surrounding space, derive the same network and token identifiers and seed
    their empty stores with the same objects, hence the same roots; the native
    coins of all shards add up to the allocations exactly, within [uint64]; and a
    node that starts again, with either spelling, finds its stores seeded and
    leaves them alone. *)
Theorem genesis_starts_alike (g g' : Config) (states states' fin fin' : gmap Z St) :
  Config_typed g -> same_chain g g' ->
  map_Forall (fun _ s => fresh_store s) states -> map_Forall (fun _ s => fresh_store s) states' ->
  SeedStates g states = (fin, Ok tt) -> SeedStates g' states' = (fin', Ok tt) ->
  exists network native,
    Config_NetworkID g = Ok network /\ Config_NetworkID g' = Ok network /\
    Config_NativeTokenID g = Ok native /\ Config_NativeTokenID g' = Ok native /\
    (forall shard, 0 <= shard < g_InitialShardCount g -> exists s s', fin !! shard = Some s /\ fin' !! shard = Some s' /\
      bs_objects s = bs_objects s' /\ backend_Root s = backend_Root s') /\
    zsum ((fun shard => supply native (objects_at fin shard)) <$> shard_range (g_InitialShardCount g)) =
      zsum (ga_Amount <$> g_Allocations g) /\ zsum (ga_Amount <$> g_Allocations g) <= MaxUint64 /\
    SeedStates g fin = (fin, Ok tt) /\ SeedStates g' fin = (fin, Ok tt).
Proof.
  intros Ht Hs Hf Hf' E E'. pose proof (same_chain_typed _ _ Ht Hs) as Ht'.
  destruct (SeedStates_Ok _ _ _ Ht Hf E) as (network & native & hash & Hn & Hna & Ha & Hg & Hh & Hv & Hsz & Hall).
  destruct (SeedStates_Ok _ _ _ Ht' Hf' E') as (network' & native' & hash' & Hn' & Hna' & _ & _ & Hh' & Hv' & _ & Hall').
  assert (network' = network /\ native' = native /\ hash' = hash) as (-> & -> & ->).
  { pose proof Hh as Hraw. apply bind_Ok in Hraw as (raw & Hraw & Hr). pose proof (Config_CanonicalBytes_same _ _ _ Ht Hs Hraw) as Hraw'.
    unfold Config_NativeTokenID in Hna, Hna'. unfold Config_NetworkID in *. rewrite Hraw in *. rewrite Hraw' in *.
    cbn [mbind res_bind] in *. rewrite (sc_symbol _ _ Hs) in Hna'. repeat split; congruence. }
  rewrite (proj1 (sc_shards _ _ Hs)) in Hall'. destruct (Config_Validate_lists _ Ht Hv) as (_ & _ & _ & Hsum & Hpos).
  pose proof (gt_shards g Ht) as Hu. unfold u32 in Hu.
  exists network, native. split_and!; try done.
  - intros shard Hsh. destruct (Hall shard Hsh) as (s & E1 & S1), (Hall' shard Hsh) as (s' & E2 & S2).
    exists s, s'. split; [done|]. split; [done|]. exact (seeded_same _ _ _ _ _ _ _ _ Hs S1 S2).
  - rewrite <-(sum_by_shard (fun a => AccountShard (ga_Owner a) (g_InitialShardCount g)) ga_Amount (g_Allocations g)
      (g_InitialShardCount g)) by (apply Forall_forall; intros a _; apply AccountShard_range; [unfold u32|]; lia).
    f_equal. apply list_fmap_ext. intros i shard Hi. apply list_elem_of_lookup_2 in Hi. unfold shard_range in Hi.
    apply elem_of_seqZ in Hi. destruct (Hall shard ltac:(lia)) as (s & E1 & S1). unfold objects_at. rewrite E1.
    by eapply seeded_supply.
  - by apply (SeedStates_again g fin network native hash).
  - apply (SeedStates_again g' fin network native hash); try done; [by rewrite (proj1 (sc_shards _ _ Hs))|].
    rewrite (proj1 (sc_shards _ _ Hs)). intros shard Hsh. destruct (Hall shard Hsh) as (s & E1 & S1). exists s. split; [done|].
    by apply (seeded_transfer g).
Qed.
End seeding.

(** ** A chain of two shards, spelled twice *)

Module GenesisExample.
#[local] Existing Instance small_crypto.

Definition validators : list Validator := [mkValidator (be 32 5) (be 3 1) 10; mkValidator (be 32 4) (be 3 2) 20].
Definition allocations : list Allocation :=
  [mkAllocation (be 8 6 ++ be 24 1) 100; mkAllocation (be 8 7 ++ be 24 2) 250; mkAllocation (be 8 8 ++ be 24 3) 7].
Definition config : Config := mkConfig 2 (str "zephyr") 1700000000 2 4 (str "ZPH") validators allocations.
Definition respelled : Config :=
  mkConfig 2 (str " zephyr ") 1700000000 2 4 (str "ZPH ") (reverse validators) (reverse allocations).
Definition empty_stores : gmap Z Memory := <[1 := NewMemory]> {[0 := NewMemory]}.

Lemma both_start : is_ok (SeedStates config empty_stores).2 && is_ok (SeedStates respelled empty_stores).2 = true.
Proof. vm_compute. reflexivity. Qed.
Lemma config_typed : Config_typed config.
Proof. constructor; [done| |]; repeat constructor; vm_compute; (reflexivity || discriminate). Qed.
Lemma one_chain : same_chain config respelled.
Proof. constructor; try (vm_compute; reflexivity); [done|..]; symmetry; apply reverse_Permutation. Qed.
Lemma stores_fresh : map_Forall (fun _ s => fresh_store s) empty_stores.
Proof.
  intros shard s Hs. assert (s = NewMemory) as ->; [|split; [exact NewMemory_inv|reflexivity]].
  unfold empty_stores in Hs. apply lookup_insert_Some in Hs as [[_ <-]|[_ [_ <-]%lookup_singleton_Some]]; reflexivity.
Qed.

Lemma genesis_starts_alike_witness :
  exists fin fin' s s',
    SeedStates config empty_stores = (fin, Ok tt) /\ SeedStates respelled empty_stores = (fin', Ok tt) /\
    fin !! 1 = Some s /\ fin' !! 1 = Some s' /\ Memory_Root s = Memory_Root s'.
Proof.
  pose proof both_start as [H1 H2]%andb_true_iff.
  destruct (SeedStates config empty_stores) as [fin o] eqn:E. destruct (SeedStates respelled empty_stores) as [fin' o'] eqn:E'.
  apply is_ok_true in H1 as [[] H1], H2 as [[] H2]. cbn [snd] in H1, H2. subst o o'.
  destruct (genesis_starts_alike config respelled empty_stores empty_stores fin fin' config_typed one_chain stores_fresh
    stores_fresh E E') as (network & native & _ & _ & _ & _ & Hall & _).
  destruct (Hall 1 ltac:(split; [discriminate|reflexivity])) as (s & s' & E1 & E2 & _ & Hr).
  exists fin, fin', s, s'. exact (conj eq_refl (conj eq_refl (conj E1 (conj E2 Hr)))).
Defined.
End GenesisExample.
End Genesis.
