(* ===== verification/Vrf.v ===== *)
(** * Vrf

    Package [internal/v2/vrf]: the verifier of RFC 9381 ECVRF-P256-SHA256-TAI
    proofs ([p256_tai.go]).  The group operations of [crypto/elliptic] are the
    class [Curve]; [go_curve] computes them. *)

From S2P Require Import Prelude GoLib Codec Crypto Types.

Open Scope Z_scope.

(** [*big.Int] coordinates; (0, 0) is the point at infinity. *)
Definition ecPoint : Type := Z * Z.

(** What the package uses of [elliptic.P256()]. *)
Class Curve := {
  UnmarshalCompressed : bytes -> option ecPoint;
  MarshalCompressed : ecPoint -> bytes;
  curve_ScalarBaseMult : Z -> ecPoint;
  curve_ScalarMult : ecPoint -> Z -> ecPoint;
  curve_Add : ecPoint -> ecPoint -> ecPoint;
  (** The compressed form of a point is unique. *)
  Marshal_Unmarshal : forall k P, UnmarshalCompressed k = Some P -> MarshalCompressed P = k;
}.

(** ** The curve of the Go library *)

Module GoCurve.
Definition of_affine (P : ecPoint) : option (Z * Z) := if (P.1 =? 0) && (P.2 =? 0) then None else Some P.
Definition to_affine (P : option (Z * Z)) : ecPoint := match P with None => (0, 0) | Some P => P end.

(** The coordinate [y] of the parity of [tag] for [x]; the square root is the power
    (p+1)/4 if there is one, as p is 3 modulo 4. *)
Definition square_root (a : Z) : option Z :=
  let root := P256.pow_mod a (Z.to_pos ((P256.p + 1) / 4)) P256.p in
  if root * root mod P256.p =? a then Some root else None.
Definition select_root (tag root : Z) : option Z :=
  let y := if root mod 2 =? tag mod 2 then root else (P256.p - root) mod P256.p in
  if y mod 2 =? tag mod 2 then Some y else None.

(** 0x02 or 0x03 by the parity of [y], then [x]. *)
Definition unmarshal (k : bytes) : option ecPoint :=
  let tag := Z_of_byte (nth 0 k x00) in
  let x := be_val (skipn 1 k) in
  if negb (blen k =? 33) || negb ((tag =? 2) || (tag =? 3)) || (P256.p <=? x) then None
  else
    root ← square_root ((x * x * x - 3 * x + P256.B) mod P256.p);
    y ← select_root tag root;
    Some (x, y).

Definition marshal (P : ecPoint) : bytes := byte_of_Z (2 + P.2 mod 2) :: be 32 P.1.

Lemma select_root_parity tag root y : select_root tag root = Some y -> y mod 2 = tag mod 2.
Proof.
  unfold select_root. generalize (if root mod 2 =? tag mod 2 then root else (P256.p - root) mod P256.p) as z. intros z. cbv zeta.
  destruct (Z.eqb_spec (z mod 2) (tag mod 2)) as [Hz|]; [|discriminate]. by intros [= <-].
Qed.

Lemma marshal_unmarshal k P : unmarshal k = Some P -> marshal P = k.
Proof.
  unfold unmarshal. cbv zeta. destruct (negb (blen k =? 33) || _ || _) eqn:E1; [discriminate|].
  generalize (square_root ((be_val (skipn 1 k) * be_val (skipn 1 k) * be_val (skipn 1 k) - 3 * be_val (skipn 1 k) + P256.B) mod P256.p)).
  intros [root|]; [|discriminate]. cbn [mbind option_bind]. destruct (select_root _ root) as [y|] eqn:Ey; [|discriminate].
  cbn [mbind option_bind]. intros E. injection E as <-. apply select_root_parity in Ey.
  unfold marshal. cbn [fst snd]. rewrite Ey. apply orb_false_iff in E1 as [[Hl Ht]%orb_false_iff _]. apply negb_false_iff, Z.eqb_eq in Hl.
  destruct k as [|tag k]; [done|]. cbn [nth skipn] in *. apply negb_false_iff, orb_true_iff in Ht.
  assert (2 + Z_of_byte tag mod 2 = Z_of_byte tag) as -> by (destruct Ht as [Ht%Z.eqb_eq|Ht%Z.eqb_eq]; rewrite Ht; done).
  rewrite byte_of_Z_of_byte. f_equal. unfold blen in Hl. cbn [length] in Hl. replace 32%nat with (length k) by lia. apply be_be_val.
Qed.
End GoCurve.

Definition go_curve : Curve := {|
  UnmarshalCompressed := GoCurve.unmarshal;
  MarshalCompressed := GoCurve.marshal;
  curve_ScalarBaseMult k := GoCurve.to_affine (P256.mul k (Some (P256.Gx, P256.Gy)));
  curve_ScalarMult P k := GoCurve.to_affine (P256.mul k (GoCurve.of_affine P));
  curve_Add P Q := GoCurve.to_affine (P256.add (GoCurve.of_affine P) (GoCurve.of_affine Q));
  Marshal_Unmarshal := GoCurve.marshal_unmarshal;
|}.

(** ** The verifier *)

Module Vrf.

Definition SuiteP256SHA256TAI : byte := x01.
Definition P256PublicKeySize : Z := 33.
Definition P256ProofSize : Z := 81.
Definition MaxInputBytes : Z := Z.shiftl 4 10.

Definition identityPoint : ecPoint := (0, 0).
Definition isIdentity (P : ecPoint) : bool := (P.1 =? 0) && (P.2 =? 0).
Definition negateY (y : Z) : Z := if y =? 0 then 0 else P256.p - y.

Section verify.
Context `{Crypto} `{Curve}.

Definition scalarBaseMult (scalar : Z) : ecPoint := if scalar =? 0 then identityPoint else curve_ScalarBaseMult scalar.
Definition scalarMult (P : ecPoint) (scalar : Z) : ecPoint := if scalar =? 0 then identityPoint else curve_ScalarMult P scalar.

Definition subPoints (left right : ecPoint) : ecPoint :=
  if isIdentity right then left
  else if isIdentity left then (right.1, negateY right.2)
  else curve_Add left (right.1, negateY right.2).

(** One try of the loop: the candidate point of a counter. *)
Definition hashed_point (publicKey alpha : bytes) (counter : Z) : option ecPoint :=
  let digest := sha256 ([SuiteP256SHA256TAI; x01] ++ publicKey ++ alpha ++ [byte_of_Z counter; x00]) in
  match UnmarshalCompressed (x02 :: digest) with
  | Some P => if isIdentity P then None else Some P
  | None => None
  end.

Fixpoint find_point (publicKey alpha : bytes) (counters : list Z) : res ecPoint :=
  match counters with
  | [] => Err ErrVerifyFailed
  | counter :: counters =>
      match hashed_point publicKey alpha counter with
      | Some P => Ok P
      | None => find_point publicKey alpha counters
      end
  end.

Definition encodeToCurveP256TAI (publicKey alpha : bytes) : res ecPoint := find_point publicKey alpha (seqZ 0 256).

Definition challengeP256 (points : list ecPoint) : bytes :=
  sha256 ([SuiteP256SHA256TAI; x02] ++ concat (MarshalCompressed <$> points) ++ [x00]).

(** [ECVRF_proof_to_hash] of the cofactor 1 suite. *)
Definition proof_to_hash (gamma : ecPoint) : bytes :=
  sha256 ([SuiteP256SHA256TAI; x03] ++ MarshalCompressed gamma ++ [x00]).

Definition valid_point (k : bytes) (e : error) : res ecPoint :=
  P ← some_or (UnmarshalCompressed k) e;
  fail_if (isIdentity P) e;;
  Ok P.

Definition VerifyP256SHA256TAI (publicKey alpha proof : bytes) : res bytes :=
  fail_if (negb (blen publicKey =? P256PublicKeySize)) ErrInvalidPublicKey;;
  fail_if (MaxInputBytes <? blen alpha) ErrInvalidInput;;
  fail_if (negb (blen proof =? P256ProofSize)) Vrf_ErrInvalidProof;;
  public ← valid_point publicKey ErrInvalidPublicKey;
  gamma ← valid_point (firstn 33 proof) Vrf_ErrInvalidProof;
  let challenge := be_val (firstn 16 (skipn 33 proof)) in
  let response := be_val (skipn 49 proof) in
  fail_if (P256.N <=? response) Vrf_ErrInvalidProof;;
  hashedInput ← encodeToCurveP256TAI publicKey alpha;
  let u := subPoints (scalarBaseMult response) (scalarMult public challenge) in
  let v := subPoints (scalarMult hashedInput response) (scalarMult gamma challenge) in
  fail_if (isIdentity u || isIdentity v) ErrVerifyFailed;;
  let expectedChallenge := challengeP256 [public; hashedInput; gamma; u; v] in
  fail_if (negb (bool_decide (firstn 16 expectedChallenge = firstn 16 (skipn 33 proof)))) ErrVerifyFailed;;
  Ok (proof_to_hash gamma).
End verify.

(** ** The output of a proof *)

Section output.
Context `{HC : Crypto} `{HU : Curve}.

Lemma valid_point_Ok k e P : valid_point k e = Ok P -> MarshalCompressed P = k /\ isIdentity P = false.
Proof.
  unfold valid_point. intros E. apply bind_Ok in E as (Q & HQ%some_or_Ok & E). apply bind_Ok in E as ([] & Hi%fail_if_Ok & E).
  apply Ok_inj in E as <-. split; [by apply Marshal_Unmarshal|done].
Qed.

(** The output of an accepted proof is the hash of its first 33 bytes: neither the
    challenge nor the response can be ground to move it. *)
Lemma Verify_output publicKey alpha proof out :
  VerifyP256SHA256TAI publicKey alpha proof = Ok out ->
  blen proof = P256ProofSize /\ out = sha256 ([SuiteP256SHA256TAI; x03] ++ firstn 33 proof ++ [x00]).
Proof.
  unfold VerifyP256SHA256TAI. intros E. apply bind_Ok in E as ([] & _ & E). apply bind_Ok in E as ([] & _ & E).
  apply bind_Ok in E as ([] & Hl%fail_if_Ok & E). apply bind_Ok in E as (public & _ & E).
  apply bind_Ok in E as (gamma & [Hg _]%valid_point_Ok & E). apply bind_Ok in E as ([] & _ & E). apply bind_Ok in E as (hp & _ & E).
  apply bind_Ok in E as ([] & _ & E). apply bind_Ok in E as ([] & _ & E). apply Ok_inj in E as <-. unfold proof_to_hash.
  rewrite Hg. apply negb_false_iff, Z.eqb_eq in Hl. done.
Qed.
End output.
End Vrf.
