(* ===== verification/Committee.v ===== *)
(** * Committee

    Package [internal/v2/committee]: the selection of a committee from a verified
    VRF output ([vrf_selection.go]) and the schedule of the keys a producer may
    use ([vrf_key_schedule.go]). *)

From S2P Require Import Prelude GoLib Codec Crypto Types Object Vrf.

Open Scope Z_scope.

Module Committee.

Definition Version : Z := 1.

Record Input := mkInput {
  i_Network : bytes;
  i_FinalizedHeight : Z;
  i_FinalizedHeaderHash : bytes;
  i_EligibilityRoot : bytes;
  i_VRFKeyHash : bytes;
  i_Purpose : bytes;
  i_Round : Z;
  i_CommitteeSize : Z;
}.

Definition Input_Validate (i : Input) : res unit :=
  fail_if (IsZero32 (i_Network i) || (i_FinalizedHeight i =? 0) || IsZero32 (i_FinalizedHeaderHash i)
    || IsZero32 (i_EligibilityRoot i) || IsZero32 (i_VRFKeyHash i) || IsZero32 (i_Purpose i) || (i_CommitteeSize i =? 0))
    ErrCommittee.

Definition Input_MarshalBinary (i : Input) : res bytes :=
  Input_Validate i;;
  Ok (Writer.BytesCopy (Writer.new |> Writer.U16 Version |> Writer.Fixed (i_Network i) |> Writer.U64 (i_FinalizedHeight i)
    |> Writer.Fixed (i_FinalizedHeaderHash i) |> Writer.Fixed (i_EligibilityRoot i) |> Writer.Fixed (i_VRFKeyHash i)
    |> Writer.Fixed (i_Purpose i) |> Writer.U64 (i_Round i) |> Writer.U32 (i_CommitteeSize i))).

Definition ParseInput (data : bytes) : res Input :=
  parse (version ← Rd.U16 <!> ErrCommittee;
         plift (fail_if (negb (version =? Version)) ErrCommittee);;
         network ← Rd.Fixed 32 <!> ErrCommittee;
         height ← Rd.U64 <!> ErrCommittee;
         header ← Rd.Fixed 32 <!> ErrCommittee;
         eligibility ← Rd.Fixed 32 <!> ErrCommittee;
         key ← Rd.Fixed 32 <!> ErrCommittee;
         purpose ← Rd.Fixed 32 <!> ErrCommittee;
         round ← Rd.U64 <!> ErrCommittee;
         size ← Rd.U32 <!> ErrCommittee;
         Rd.Done <!> ErrCommittee;;
         let out := mkInput network height header eligibility key purpose round size in
         plift (Input_Validate out);;
         mret out) data.

(** Only [VerifyProof] makes one with [valid] set. *)
Record VerifiedProof := mkVerified {
  vp_inputHash : bytes;
  vp_publicKeyHash : bytes;
  vp_proofHash : bytes;
  vp_output : bytes;
  vp_valid : bool;
}.

(** The scan of the sorted candidates: none is zero and no two neighbours are equal. *)
Fixpoint distinct_sorted (previous : option bytes) (l : list bytes) : res unit :=
  match l with
  | [] => Ok tt
  | candidate :: l =>
      fail_if (IsZero32 candidate) ErrCommittee;;
      fail_if (bool_decide (Some candidate = previous)) ErrCommittee;;
      distinct_sorted (Some candidate) l
  end.

Section selection.
Context `{Crypto} `{Curve}.

Definition Input_Hash (i : Input) : res bytes :=
  raw ← Input_MarshalBinary i;
  Ok (DomainHash (str "zephyr/committee/vrf-input/v1") raw).

Definition VRFPublicKeyHash (publicKey : bytes) : res bytes :=
  fail_if (negb (blen publicKey =? Vrf.P256PublicKeySize)) ErrCommittee;;
  Ok (DomainHash (str "zephyr/committee/vrf-key/v1") publicKey).

Definition EligibilityRoot (candidates : list bytes) : res bytes :=
  fail_if ((blen candidates =? 0) || (2 ^ 32 - 1 <? blen candidates)) ErrCommittee;;
  let ordered := sort_by (fun c => c) candidates in
  distinct_sorted None ordered;;
  let w := foldl (fun w c => w |> Writer.Fixed c) (Writer.new |> Writer.U32 (blen ordered mod 2 ^ 32)) ordered in
  Ok (DomainHash (str "zephyr/committee/eligibility/v1") (Writer.BytesCopy w)).

Definition VerifyProof (input : Input) (publicKey proof : bytes) : res VerifiedProof :=
  Input_Validate input;;
  keyHash ← VRFPublicKeyHash publicKey <?> ErrCommittee;
  fail_if (negb (bool_decide (keyHash = i_VRFKeyHash input))) ErrCommittee;;
  inputHash ← Input_Hash input;
  output ← Vrf.VerifyP256SHA256TAI publicKey inputHash proof;
  Ok (mkVerified inputHash keyHash (DomainHash (str "zephyr/committee/vrf-proof/v1") proof) output true).

Definition rank_of (inputHash output candidate : bytes) : bytes :=
  DomainHash (str "zephyr/committee/unweighted-rank/v1")
    (Writer.BytesCopy (Writer.new |> Writer.Fixed inputHash |> Writer.Fixed output |> Writer.Fixed candidate)).

(** [sort.Slice] by rank, then by identifier. *)
Definition ranked (inputHash output : bytes) (candidates : list bytes) : list bytes :=
  sort_by (fun c => (rank_of inputHash output c, c)) candidates.

Definition SelectUnweighted (input : Input) (verified : VerifiedProof) (candidates : list bytes) : res (list bytes) :=
  fail_if (negb (vp_valid verified)) ErrCommittee;;
  inputHash ← Input_Hash input <?> ErrCommittee;
  fail_if (negb (bool_decide (inputHash = vp_inputHash verified))
           || negb (bool_decide (i_VRFKeyHash input = vp_publicKeyHash verified))) ErrCommittee;;
  root ← EligibilityRoot candidates <?> ErrCommittee;
  fail_if (negb (bool_decide (root = i_EligibilityRoot input)) || (blen candidates <? i_CommitteeSize input)) ErrCommittee;;
  Ok (firstn (Z.to_nat (i_CommitteeSize input)) (ranked inputHash (vp_output verified) candidates)).
End selection.

(** ** The schedule of keys *)

Definition VRFKeyEpochVersion : Z := 1.

Record VRFKeyEpoch := mkEpoch {
  ke_Network : bytes;
  ke_Producer : bytes;
  ke_PublicKey : bytes;
  ke_Sequence : Z;
  ke_RegistrationHeight : Z;
  ke_ActiveFromHeight : Z;
  ke_InactiveFromHeight : Z;
  ke_PreviousEpochHash : bytes;
}.

Record ScheduledVRFObservation := mkObservation {
  so_ScheduleHash : bytes;
  so_KeyEpochHash : bytes;
  so_InputHash : bytes;
  so_ProofHash : bytes;
  so_Output : bytes;
}.

Section schedule.
Context `{Crypto} `{Curve}.

Definition VRFKeyEpoch_Validate (e : VRFKeyEpoch) : res unit :=
  fail_if (IsZero32 (ke_Network e) || IsZero32 (ke_Producer e) || (ke_Sequence e =? 0) || (ke_RegistrationHeight e =? 0)
    || (ke_ActiveFromHeight e <=? ke_RegistrationHeight e)
    || (negb (ke_InactiveFromHeight e =? 0) && (ke_InactiveFromHeight e <=? ke_ActiveFromHeight e))) ErrCommittee;;
  fail_if (negb (Bool.eqb (ke_Sequence e =? 1) (IsZero32 (ke_PreviousEpochHash e)))) ErrCommittee;;
  some_or (UnmarshalCompressed (ke_PublicKey e)) ErrCommittee;;
  Ok tt.

Definition VRFKeyEpoch_CanonicalBytes (e : VRFKeyEpoch) : res bytes :=
  VRFKeyEpoch_Validate e;;
  Ok (Writer.BytesCopy (Writer.new |> Writer.U16 VRFKeyEpochVersion |> Writer.Fixed (ke_Network e)
    |> Writer.Fixed (ke_Producer e) |> Writer.Fixed (ke_PublicKey e) |> Writer.U64 (ke_Sequence e)
    |> Writer.U64 (ke_RegistrationHeight e) |> Writer.U64 (ke_ActiveFromHeight e) |> Writer.U64 (ke_InactiveFromHeight e)
    |> Writer.Fixed (ke_PreviousEpochHash e))).

Definition VRFKeyEpoch_Hash (e : VRFKeyEpoch) : res bytes :=
  raw ← VRFKeyEpoch_CanonicalBytes e <?> ErrCommittee;
  Ok (DomainHash (str "zephyr/committee/vrf-key-epoch/v1") raw).

(** The loop of [checkedVRFKeyEpochs]: [prior] is [ordered[i-1]]. *)
Fixpoint check_epochs (minLeadBlocks : Z) (first : VRFKeyEpoch) (i : Z) (seen : gset bytes) (prior : option VRFKeyEpoch)
    (l : list VRFKeyEpoch) : res unit :=
  match l with
  | [] => Ok tt
  | epoch :: l =>
      VRFKeyEpoch_Validate epoch <?> ErrCommittee;;
      fail_if (negb (bool_decide (ke_Network epoch = ke_Network first)) || negb (bool_decide (ke_Producer epoch = ke_Producer first))
        || (sub64 (ke_ActiveFromHeight epoch) (ke_RegistrationHeight epoch) <? minLeadBlocks)
        || negb (ke_Sequence epoch =? add64 i 1)) ErrCommittee;;
      fail_if (bool_decide (ke_PublicKey epoch ∈ seen)) ErrCommittee;;
      match prior with
      | None => Ok tt
      | Some prior =>
          priorHash ← VRFKeyEpoch_Hash prior <?> ErrCommittee;
          fail_if (negb (bool_decide (ke_PreviousEpochHash epoch = priorHash))
            || (ke_RegistrationHeight epoch <=? ke_RegistrationHeight prior)
            || (ke_ActiveFromHeight epoch <=? ke_ActiveFromHeight prior)
            || (ke_InactiveFromHeight prior =? 0)
            || (ke_ActiveFromHeight epoch <? ke_InactiveFromHeight prior)) ErrCommittee
      end;;
      check_epochs minLeadBlocks first (i + 1) ({[ke_PublicKey epoch]} ∪ seen) (Some epoch) l
  end.

Definition checkedVRFKeyEpochs (epochs : list VRFKeyEpoch) (minLeadBlocks : Z) : res (list VRFKeyEpoch) :=
  fail_if ((minLeadBlocks =? 0) || (blen epochs =? 0) || (2 ^ 32 - 1 <? blen epochs)) ErrCommittee;;
  let ordered := sort_by ke_Sequence epochs in
  match ordered with
  | [] => Err ErrCommittee
  | first :: _ => check_epochs minLeadBlocks first 0 ∅ None ordered;; Ok ordered
  end.

Definition write_epoch (w : bytes) (epoch : VRFKeyEpoch) : res bytes :=
  raw ← VRFKeyEpoch_CanonicalBytes epoch <?> ErrCommittee;
  Ok (w |> Writer.Bytes raw).

Definition VRFKeyScheduleCommitment (epochs : list VRFKeyEpoch) (minLeadBlocks : Z) : res bytes :=
  ordered ← checkedVRFKeyEpochs epochs minLeadBlocks <?> ErrCommittee;
  w ← rfold write_epoch (Writer.new |> Writer.U16 VRFKeyEpochVersion |> Writer.U64 minLeadBlocks
                          |> Writer.U32 (blen ordered mod 2 ^ 32)) ordered;
  Ok (DomainHash (str "zephyr/committee/vrf-key-schedule/v1") (Writer.BytesCopy w)).

Definition active_at (height : Z) (epoch : VRFKeyEpoch) : bool :=
  negb ((height <? ke_ActiveFromHeight epoch)
        || (negb (ke_InactiveFromHeight epoch =? 0) && (ke_InactiveFromHeight epoch <=? height))).

(** The second loop: the first epoch that is active decides. *)
Fixpoint match_epoch (input : Input) (l : list VRFKeyEpoch) : res VRFKeyEpoch :=
  match l with
  | [] => Err ErrCommittee
  | epoch :: l =>
      if negb (active_at (i_FinalizedHeight input) epoch) then match_epoch input l
      else
        keyHash ← VRFPublicKeyHash (ke_PublicKey epoch) <?> ErrCommittee;
        fail_if (negb (bool_decide (keyHash = i_VRFKeyHash input))) ErrCommittee;;
        Ok epoch
  end.

Definition CheckVRFKeyScheduleAtInput (input : Input) (producer : bytes) (epochs : list VRFKeyEpoch) (minLeadBlocks : Z)
    : res VRFKeyEpoch :=
  fail_if (negb (is_ok (Input_Validate input)) || IsZero32 producer) ErrCommittee;;
  ordered ← checkedVRFKeyEpochs epochs minLeadBlocks <?> ErrCommittee;
  match ordered with
  | [] => Err ErrCommittee
  | first :: _ =>
      fail_if (negb (bool_decide (ke_Network first = i_Network input)) || negb (bool_decide (ke_Producer first = producer)))
        ErrCommittee;;
      fail_if (existsb (fun epoch => i_FinalizedHeight input <? ke_RegistrationHeight epoch) ordered) ErrCommittee;;
      match_epoch input ordered
  end.

Definition ObserveScheduledVRFProof (input : Input) (producer : bytes) (epochs : list VRFKeyEpoch) (minLeadBlocks : Z)
    (publicKey proof : bytes) : res ScheduledVRFObservation :=
  epoch ← CheckVRFKeyScheduleAtInput input producer epochs minLeadBlocks <?> ErrCommittee;
  fail_if (negb (bool_decide (ke_PublicKey epoch = publicKey))) ErrCommittee;;
  scheduleHash ← VRFKeyScheduleCommitment epochs minLeadBlocks <?> ErrCommittee;
  epochHash ← VRFKeyEpoch_Hash epoch <?> ErrCommittee;
  verified ← VerifyProof input publicKey proof;
  Ok (mkObservation scheduleHash epochHash (vp_inputHash verified) (vp_proofHash verified) (vp_output verified)).
End schedule.

(** ** The committee *)

Definition Input_typed (i : Input) : Prop :=
  arr32 (i_Network i) /\ u64 (i_FinalizedHeight i) /\ arr32 (i_FinalizedHeaderHash i) /\ arr32 (i_EligibilityRoot i) /\
  arr32 (i_VRFKeyHash i) /\ arr32 (i_Purpose i) /\ u64 (i_Round i) /\ u32 (i_CommitteeSize i).

#[global] Instance Input_wire : Wire Input := {|
  wire_typed := Input_typed; wire_marshal := Input_MarshalBinary; wire_parse := ParseInput |}.

#[global] Instance Input_canonical : Canonical Input.
Proof.
  intros d i. cbn. split.
  - unfold ParseInput. intros E. parse_inv. split; [unfold Input_typed; cbn; by rewrite !blen32|].
    unfold Input_MarshalBinary. match goal with H : Input_Validate _ = _ |- _ => rewrite H end.
    cbn [mbind res_bind]. f_equal. cbn. writer_norm. rest_rw. rewrite app_nil_r. repeat f_equal. lia.
  - intros [(H1 & H2 & H3 & H4 & H5 & H6 & H7 & H8) E]. unfold Input_MarshalBinary in E. res_inv.
    unfold ParseInput. apply reads_parse. writer_norm. rewrite blen32 in *. solve_reads; try done; destruct i. apply reads_ret.
Qed.

Lemma distinct_sorted_Ok previous l :
  StronglySorted kle l -> (forall p, previous = Some p -> Forall (kle p) l) -> distinct_sorted previous l = Ok tt ->
  NoDup l /\ (forall p, previous = Some p -> p ∉ l).
Proof.
  intros Hs. revert previous. induction Hs as [|c l Hs IH Hc]; intros previous Hp E.
  { split; [constructor|]. intros p _ Hin. by apply not_elem_of_nil in Hin. }
  cbn [distinct_sorted] in E. apply bind_Ok in E as ([] & _ & E). apply bind_Ok in E as ([] & Hne%fail_if_Ok & E).
  apply bool_decide_eq_false in Hne. destruct (IH (Some c) ltac:(by intros ? [= <-]) E) as [Hnd Hni]. specialize (Hni c eq_refl).
  split; [by constructor|]. intros p -> [->|Hin]%elem_of_cons; [done|]. apply Hne. f_equal.
  specialize (Hp p eq_refl). apply Forall_cons in Hp as [Hpc _]. rewrite Forall_forall in Hc. apply (kle_antisym c p); [by apply Hc|done].
Qed.

Lemma concat_arr32_inj (l l' : list bytes) : Forall arr32 l -> Forall arr32 l' -> concat l = concat l' -> l = l'.
Proof.
  intros Hl. revert l'. induction Hl as [|x l Hx Hl IH]; intros l' Hl' E.
  - destruct Hl' as [|y l' Hy _]; [done|]. cbn in E. apply (f_equal length) in E. rewrite length_app, Hy in E. cbn in E. lia.
  - destruct Hl' as [|y l' Hy Hl']. { cbn in E. apply (f_equal length) in E. rewrite length_app, Hx in E. cbn in E. lia. }
    cbn [concat] in E. apply app_inj_1 in E as [-> E]; [|congruence]. f_equal. by apply IH.
Qed.

Section selected.
Context `{HC : Crypto} `{HU : Curve}.

(** The bytes hashed for the eligibility root. *)
Definition eligibility_input (candidates : list bytes) : bytes :=
  domain_preimage (str "zephyr/committee/eligibility/v1")
    (be 4 (blen candidates mod 2 ^ 32) ++ concat (sort_by (fun c => c) candidates)).

Lemma EligibilityRoot_Ok candidates root : EligibilityRoot candidates = Ok root ->
  NoDup candidates /\ root = sha256 (eligibility_input candidates).
Proof.
  unfold EligibilityRoot. intros E. apply bind_Ok in E as ([] & _ & E). apply bind_Ok in E as ([] & Hd & E). apply Ok_inj in E as <-.
  apply distinct_sorted_Ok in Hd as [Hnd _]; [|apply (sort_by_sorted (fun c : bytes => c))|done]. rewrite sort_by_perm in Hnd.
  split; [done|]. unfold DomainHash, eligibility_input. do 2 f_equal. unfold blen. rewrite length_sort_by.
  generalize (sort_by (fun c : bytes => c) candidates) as l. intros l. unfold Writer.BytesCopy, Writer.U32, Writer.new. cbn [app].
  generalize (be 4 (Z.of_nat (length candidates) mod 2 ^ 32)) as w. intros w. revert w.
  induction l as [|c l IH]; intros w; cbn [foldl concat]; [by rewrite app_nil_r|]. rewrite IH. unfold Writer.Fixed. by rewrite <-app_assoc.
Qed.

Lemma EligibilityRoot_perm candidates candidates' root :
  candidates' ≡ₚ candidates -> EligibilityRoot candidates = Ok root -> EligibilityRoot candidates' = Ok root.
Proof.
  intros Hp E. destruct (EligibilityRoot_Ok _ _ E) as [Hnd _]. unfold EligibilityRoot in *. unfold blen in *. rewrite Hp.
  rewrite (sort_by_proper (fun c : bytes => c) candidates' candidates); [exact E| |done]. by rewrite list_fmap_id, Hp.
Qed.

(** The candidates behind one root. *)
Lemma EligibilityRoot_binding l l' root :
  Forall arr32 l -> Forall arr32 l' -> EligibilityRoot l = Ok root -> EligibilityRoot l' = Ok root ->
  l ≡ₚ l' \/ (eligibility_input l <> eligibility_input l' /\ sha256 (eligibility_input l) = sha256 (eligibility_input l')).
Proof.
  intros Hl Hl' [_ ->]%EligibilityRoot_Ok [_ Hr]%EligibilityRoot_Ok.
  destruct (decide (eligibility_input l = eligibility_input l')) as [E|E]; [left|by right].
  unfold eligibility_input, domain_preimage in E. do 2 apply app_inv_head in E.
  apply app_inj_1 in E as [_ E]; [|by rewrite !length_be]. apply app_inj_1 in E as [_ E]; [|by rewrite !length_be].
  apply concat_arr32_inj in E; [by rewrite <-(sort_by_perm (fun c : bytes => c) l), E, sort_by_perm|..]; by rewrite sort_by_perm.
Qed.

Lemma SelectUnweighted_Ok input verified candidates selected :
  SelectUnweighted input verified candidates = Ok selected <->
  vp_valid verified = true /\ Input_Hash input = Ok (vp_inputHash verified) /\ i_VRFKeyHash input = vp_publicKeyHash verified /\
  EligibilityRoot candidates = Ok (i_EligibilityRoot input) /\ i_CommitteeSize input <= blen candidates /\
  selected = firstn (Z.to_nat (i_CommitteeSize input)) (ranked (vp_inputHash verified) (vp_output verified) candidates).
Proof.
  unfold SelectUnweighted. split.
  - intros E. apply bind_Ok in E as ([] & Hv%fail_if_Ok & E). apply bind_Ok in E as (h & Hh%or_err_Ok & E).
    apply bind_Ok in E as ([] & Hb%fail_if_Ok & E). apply bind_Ok in E as (root & Hr%or_err_Ok & E).
    apply bind_Ok in E as ([] & Hc%fail_if_Ok & E). apply Ok_inj in E as <-. bool_inv. subst. split_and!; try done. lia.
  - intros (-> & -> & Hk & -> & Hc & ->). cbn [negb fail_if mbind res_bind or_err]. rewrite !bool_decide_eq_true_2 by done.
    rewrite (proj2 (Z.ltb_ge _ _) Hc). done.
Qed.

Lemma VerifyProof_Ok input publicKey proof verified : VerifyProof input publicKey proof = Ok verified ->
  vp_valid verified = true /\ Input_Hash input = Ok (vp_inputHash verified) /\ i_VRFKeyHash input = vp_publicKeyHash verified /\
  vp_output verified = sha256 ([Vrf.SuiteP256SHA256TAI; x03] ++ firstn 33 proof ++ [x00]).
Proof.
  unfold VerifyProof. intros E. apply bind_Ok in E as ([] & _ & E). apply bind_Ok in E as (key & _ & E).
  apply bind_Ok in E as ([] & Hk%fail_if_Ok & E). apply bind_Ok in E as (h & Hh & E).
  apply bind_Ok in E as (out & [_ Ho]%Vrf.Verify_output & E). apply Ok_inj in E as <-. bool_inv. by subst.
Qed.

Lemma ranked_perm inputHash output l l' : NoDup l -> l' ≡ₚ l -> ranked inputHash output l' = ranked inputHash output l.
Proof.
  intros Hnd Hp. apply sort_by_proper; [|done]. apply (NoDup_fmap_1 snd). rewrite <-list_fmap_compose.
  rewrite (list_fmap_ext (snd ∘ _) (fun c => c)) by done. by rewrite list_fmap_id, Hp.
Qed.

(** C33: a committee cannot be steered.  A selection from a verified proof returns
    exactly the asked number of distinct candidates, those of the lowest ranks;
    the order in which the candidates are listed does not matter; no other proof
    with the same 33 byte point, whatever its challenge and response, and no other
    list of candidates that the input admits selects a different committee, unless
    two lists are a SHA-256 collision. *)
Theorem committee_determined (input : Input) (publicKey proof : bytes) (verified : VerifiedProof)
    (candidates selected : list bytes) :
  u32 (i_CommitteeSize input) -> Forall arr32 candidates ->
  VerifyProof input publicKey proof = Ok verified -> SelectUnweighted input verified candidates = Ok selected ->
  NoDup selected /\ blen selected = i_CommitteeSize input /\ selected ⊆+ candidates /\
  (forall c d, c ∈ selected -> d ∈ candidates -> d ∉ selected ->
    pair_le (rank_of (vp_inputHash verified) (vp_output verified) c, c) (rank_of (vp_inputHash verified) (vp_output verified) d, d)) /\
  (forall proof' verified' candidates' selected',
    VerifyProof input publicKey proof' = Ok verified' -> firstn 33 proof' = firstn 33 proof -> Forall arr32 candidates' ->
    SelectUnweighted input verified' candidates' = Ok selected' ->
    selected' = selected \/
    (eligibility_input candidates' <> eligibility_input candidates /\
     sha256 (eligibility_input candidates') = sha256 (eligibility_input candidates))) /\
  (forall candidates', candidates' ≡ₚ candidates -> SelectUnweighted input verified candidates' = Ok selected).
Proof.
  intros Hu Hty (V1 & V2 & V3 & V4)%VerifyProof_Ok (_ & _ & _ & S4 & S5 & ->)%SelectUnweighted_Ok. unfold u32 in Hu.
  destruct (EligibilityRoot_Ok _ _ S4) as [Hnd _].
  set (l := ranked (vp_inputHash verified) (vp_output verified) candidates).
  assert (l ≡ₚ candidates) as Hl by apply sort_by_perm.
  assert (NoDup l) as Hndl by (by rewrite Hl). set (n := Z.to_nat (i_CommitteeSize input)).
  assert (firstn n l ⊆+ candidates) as Hsub.
  { rewrite <-Hl. rewrite <-(take_drop n l) at 2. apply submseteq_inserts_r. done. }
  split_and!.
  - apply (NoDup_app (firstn n l) (skipn n l)). by rewrite take_drop.
  - unfold blen in *. rewrite length_take, Hl. unfold n. lia.
  - done.
  - intros c d Hc Hd Hnd'. rewrite <-Hl, <-(take_drop n l), elem_of_app in Hd. destruct Hd as [Hd|Hd]; [done|].
    apply list_elem_of_lookup in Hc as [i Hi], Hd as [j Hj]. rewrite lookup_drop in Hj. apply lookup_take_Some in Hi as [Hi Hin].
    set (key := fun c : bytes => (rank_of (vp_inputHash verified) (vp_output verified) c, c)).
    exact (sorted_lookup key l i (n + j) c d (sort_by_sorted key candidates) ltac:(lia) Hi Hj).
  - intros proof' verified' candidates' selected' (W1 & W2 & W3 & W4)%VerifyProof_Ok Hg Hty' (_ & _ & _ & T4 & _ & ->)%SelectUnweighted_Ok.
    destruct (EligibilityRoot_binding _ _ _ Hty' Hty T4 S4) as [Hp|Hcol]; [left|by right].
    assert (vp_inputHash verified' = vp_inputHash verified) as -> by congruence.
    assert (vp_output verified' = vp_output verified) as -> by (by rewrite V4, W4, Hg). f_equal. by apply ranked_perm.
  - intros candidates' Hp. apply SelectUnweighted_Ok. split_and!; try done.
    + by apply (EligibilityRoot_perm candidates).
    + unfold blen in *. by rewrite Hp.
    + f_equal. symmetry. by apply ranked_perm.
Qed.
End selected.

(** ** The schedule *)

Section scheduled.
Context `{HC : Crypto} `{HU : Curve}.

Definition Epoch_typed (e : VRFKeyEpoch) : Prop := u64 (ke_RegistrationHeight e) /\ u64 (ke_ActiveFromHeight e).

(** An epoch that ends before another begins. *)
Definition before (a b : VRFKeyEpoch) : Prop :=
  ke_Sequence a < ke_Sequence b /\ ke_InactiveFromHeight a <> 0 /\ ke_InactiveFromHeight a <= ke_ActiveFromHeight b.

Definition window_ok (e : VRFKeyEpoch) : Prop :=
  ke_RegistrationHeight e < ke_ActiveFromHeight e /\
  (ke_InactiveFromHeight e = 0 \/ ke_ActiveFromHeight e < ke_InactiveFromHeight e).

Lemma VRFKeyEpoch_Validate_window e : VRFKeyEpoch_Validate e = Ok tt -> window_ok e.
Proof.
  unfold VRFKeyEpoch_Validate. intros E. apply bind_Ok in E as ([] & Hb%fail_if_Ok & _).
  repeat (apply orb_false_iff in Hb as [Hb ?]). unfold window_ok. lia.
Qed.

Lemma epoch_before_trans a b c : window_ok b -> before a b -> before b c -> before a c.
Proof. unfold window_ok, before. lia. Qed.

(** What the loop has checked of every epoch. *)
Definition epoch_checked (first : VRFKeyEpoch) (minLead : Z) (e : VRFKeyEpoch) : Prop :=
  window_ok e /\ ke_Network e = ke_Network first /\ ke_Producer e = ke_Producer first /\
  ke_RegistrationHeight e + minLead <= ke_ActiveFromHeight e.

Lemma check_epochs_Ok minLead first i seen prior l :
  Forall Epoch_typed l -> 0 <= i -> i + Z.of_nat (length l) <= 2 ^ 32 ->
  (forall p, prior = Some p -> window_ok p /\ ke_Sequence p = i) ->
  check_epochs minLead first i seen prior l = Ok tt ->
  Forall (epoch_checked first minLead) l /\ StronglySorted before l /\ (forall p, prior = Some p -> Forall (before p) l).
Proof.
  intros Ht. revert i seen prior. induction Ht as [|e l [Hr Ha] _ IH]; intros i seen prior Hi Hn Hp E.
  { split_and!; try constructor. }
  cbn [check_epochs length] in *. apply bind_Ok in E as ([] & Hv%or_err_Ok%VRFKeyEpoch_Validate_window & E).
  apply bind_Ok in E as ([] & Hb%fail_if_Ok & E). apply bind_Ok in E as ([] & _ & E). apply bind_Ok in E as ([] & Hpr & E).
  apply orb_false_iff in Hb as [[[Hb1 Hb2]%orb_false_iff Hb3]%orb_false_iff Hb4]. bool_inv. unfold u64 in *.
  pose proof Hv as [Hw _]. unfold sub64 in Hb3. rewrite Z.mod_small in Hb3 by lia.
  unfold add64 in *. rewrite Z.mod_small in * by lia.
  assert (ke_Sequence e = i + 1) as Hseq by lia.
  destruct (IH (i + 1) _ (Some e) ltac:(lia) ltac:(lia) ltac:(intros p [= <-]; done) E) as (H1 & H2 & H3). specialize (H3 e eq_refl).
  assert (forall p, prior = Some p -> before p e) as Hbe.
  { intros p ->. destruct (Hp p eq_refl) as [_ Hps]. apply bind_Ok in Hpr as (ph & _ & Hpr%fail_if_Ok).
    repeat (apply orb_false_iff in Hpr as [Hpr ?]). unfold before. lia. }
  split_and!.
  - constructor; [|done]. split_and!; try done; lia.
  - by constructor.
  - intros p Hpe. specialize (Hbe p Hpe). constructor; [done|]. eapply Forall_impl; [exact H3|]. intros x Hx. by apply (epoch_before_trans p e).
Qed.

Lemma before_NoDup l : StronglySorted before l -> NoDup (ke_Sequence <$> l).
Proof.
  induction 1 as [|e l _ IH Hl]; [constructor|]. rewrite fmap_cons. apply NoDup_cons. split; [|done].
  intros (x & Hx & Hin)%list_elem_of_fmap. rewrite Forall_forall in Hl. destruct (Hl x Hin) as [Hs _]. lia.
Qed.

Lemma checkedVRFKeyEpochs_Ok epochs minLead ordered : Forall Epoch_typed epochs ->
  checkedVRFKeyEpochs epochs minLead = Ok ordered ->
  ordered = sort_by ke_Sequence epochs /\ StronglySorted before ordered /\
  exists first rest, ordered = first :: rest /\ Forall (epoch_checked first minLead) ordered.
Proof.
  intros Ht E. unfold checkedVRFKeyEpochs in E. apply bind_Ok in E as ([] & Hb%fail_if_Ok & E). cbv zeta in E.
  assert (Forall Epoch_typed (sort_by ke_Sequence epochs)) as Hts by (by rewrite sort_by_perm).
  assert (Z.of_nat (length (sort_by ke_Sequence epochs)) <= 2 ^ 32) as Hlen.
  { rewrite length_sort_by. apply orb_false_iff in Hb as [_ Hb]. unfold blen in Hb. lia. }
  destruct (sort_by ke_Sequence epochs) as [|first rest] eqn:Es; [done|].
  apply bind_Ok in E as ([] & Hc & E). apply Ok_inj in E as <-. rewrite <-Es in Hc |- *.
  apply check_epochs_Ok in Hc as (H1 & H2 & _); [|by rewrite Es|lia|rewrite Es; lia|done].
  split; [done|]. split; [done|]. by exists first, rest.
Qed.

(** At most one of the ordered epochs is active at a height. *)
Lemma one_active height l e e' : StronglySorted before l -> e ∈ l -> e' ∈ l ->
  active_at height e = true -> active_at height e' = true -> e = e'.
Proof.
  assert (forall a b, before a b -> active_at height a = true -> active_at height b = true -> False) as Hab.
  { unfold before, active_at. intros a b (_ & Hn & Hle) Ha Hb. apply negb_true_iff in Ha, Hb.
    apply orb_false_iff in Ha as [_ Ha], Hb as [Hb _]. apply andb_false_iff in Ha as [Ha|Ha]; [apply negb_false_iff in Ha|]; lia. }
  induction 1 as [|x l _ IH Hl]; intros He He' Ha Ha'; [by apply not_elem_of_nil in He|]. rewrite Forall_forall in Hl.
  apply elem_of_cons in He as [->|He], He' as [->|He']; [done|..].
  - exfalso. by apply (Hab x e'); [apply Hl|..].
  - exfalso. by apply (Hab x e); [apply Hl|..].
  - by apply IH.
Qed.

Lemma match_epoch_Ok input l e : match_epoch input l = Ok e ->
  e ∈ l /\ active_at (i_FinalizedHeight input) e = true /\ VRFPublicKeyHash (ke_PublicKey e) = Ok (i_VRFKeyHash input).
Proof.
  induction l as [|x l IH]; intros E; cbn [match_epoch] in E; [done|]. destruct (active_at _ x) eqn:Ea; cbn [negb] in E.
  - apply bind_Ok in E as (h & Hh%or_err_Ok & E). apply bind_Ok in E as ([] & Hb%fail_if_Ok & E). apply Ok_inj in E as <-.
    bool_inv. subst h. split_and!; try done. left.
  - apply IH in E as (? & ? & ?). split_and!; try done. by right.
Qed.

(** C34: a producer has one key at a time.  When the schedule admits a key for a
    selection input, that key belongs to the only epoch of the schedule active at
    the finalized height; it was registered under the producer on this network at
    least the lead before it became active; and neither the verdict nor the
    commitment to the schedule depends on the order in which the epochs are
    listed. *)
Theorem schedule_admits_one_key (input : Input) (producer : bytes) (epochs : list VRFKeyEpoch) (minLead : Z) (e : VRFKeyEpoch) :
  Forall Epoch_typed epochs -> CheckVRFKeyScheduleAtInput input producer epochs minLead = Ok e ->
  e ∈ epochs /\ VRFPublicKeyHash (ke_PublicKey e) = Ok (i_VRFKeyHash input) /\
  ke_Producer e = producer /\ ke_Network e = i_Network input /\
  active_at (i_FinalizedHeight input) e = true /\ ke_RegistrationHeight e + minLead <= ke_ActiveFromHeight e /\
  (forall e', e' ∈ epochs -> active_at (i_FinalizedHeight input) e' = true -> e' = e) /\
  (forall epochs', epochs' ≡ₚ epochs ->
    CheckVRFKeyScheduleAtInput input producer epochs' minLead = Ok e /\
    VRFKeyScheduleCommitment epochs' minLead = VRFKeyScheduleCommitment epochs minLead).
Proof.
  intros Ht E. pose proof E as E'. unfold CheckVRFKeyScheduleAtInput in E'. apply bind_Ok in E' as ([] & _ & E').
  apply bind_Ok in E' as (ordered & Ho%or_err_Ok & E').
  destruct (checkedVRFKeyEpochs_Ok _ _ _ Ht Ho) as (Hs & Hst & first & rest & Hfr & Hall). rewrite Hfr in E'.
  apply bind_Ok in E' as ([] & Hb%fail_if_Ok & E'). apply bind_Ok in E' as ([] & _ & E'). rewrite <-Hfr in E'.
  apply match_epoch_Ok in E' as (Hin & Hact & Hk). bool_inv.
  assert (ordered ≡ₚ epochs) as Hp by (rewrite Hs; apply sort_by_perm).
  rewrite Forall_forall in Hall. destruct (Hall e Hin) as (_ & Hnet & Hprod & Hlead).
  assert (forall epochs', epochs' ≡ₚ epochs -> checkedVRFKeyEpochs epochs' minLead = checkedVRFKeyEpochs epochs minLead) as Hperm.
  { intros epochs' Hp'. unfold checkedVRFKeyEpochs, blen. rewrite Hp'. rewrite (sort_by_proper ke_Sequence epochs' epochs); [done| |done].
    rewrite Hp', <-Hp. by apply before_NoDup. }
  split_and!; try done.
  - by rewrite <-Hp.
  - congruence.
  - congruence.
  - intros x Hx Hxa. rewrite <-Hp in Hx. by apply (one_active (i_FinalizedHeight input) ordered).
  - intros epochs' Hp'. unfold CheckVRFKeyScheduleAtInput, VRFKeyScheduleCommitment in *. rewrite (Hperm _ Hp'). done.
Qed.
End scheduled.

(** ** A committee of two, and a key that was rotated *)

Module CommitteeExample.
#[local] Existing Instance small_crypto.

(** A group with one sum, for an example that evaluates quickly. *)
Definition toy_curve : Curve.
Proof.
  refine {| UnmarshalCompressed k := if blen k =? 33 then Some (be_val k, 1) else None;
            MarshalCompressed P := be 33 P.1;
            curve_ScalarBaseMult _ := (7, 1); curve_ScalarMult _ _ := (8, 1); curve_Add _ _ := (9, 1) |}.
  intros k P. destruct (blen k =? 33) eqn:E; [|discriminate]. intros [= <-]. cbn [fst]. apply Z.eqb_eq in E. unfold blen in E.
  replace 33%nat with (length k) by lia. apply be_be_val.
Defined.
#[local] Existing Instance toy_curve.

Definition key (i : Z) : bytes := be 33 i.
Definition candidates : list bytes := be 32 <$> [11; 12; 13; 14].
Definition input : Input :=
  mkInput (be 32 3) 120 (be 32 4) (ok_or [] (EligibilityRoot candidates)) (ok_or [] (VRFPublicKeyHash (key 5))) (be 32 6) 1 2.
Definition gamma : bytes := be 33 17.
(** Responses of 1 and of 2; the challenge does not depend on them in this group. *)
Definition proof_with (response : Z) : bytes :=
  let alpha := ok_or [] (Input_Hash input) in
  let hashed := ok_or (0, 0) (Vrf.encodeToCurveP256TAI (key 5) alpha) in
  let points := [(be_val (key 5), 1); hashed; (be_val gamma, 1); (9, 1); (9, 1)] in
  gamma ++ firstn 16 (Vrf.challengeP256 points) ++ be 32 response.
Definition selects (response : Z) : res (list bytes) :=
  verified ← VerifyProof input (key 5) (proof_with response);
  SelectUnweighted input verified candidates.

Lemma both_select : is_ok (selects 1) && is_ok (selects 2) && bool_decide (firstn 33 (proof_with 2) = firstn 33 (proof_with 1)) = true.
Proof. vm_compute. reflexivity. Qed.
Lemma candidates_typed : Forall arr32 candidates.
Proof. repeat constructor. Qed.

Lemma committee_determined_witness :
  exists selected selected', selects 1 = Ok selected /\ selects 2 = Ok selected' /\ blen selected = 2 /\
    (selected' = selected \/ eligibility_input candidates <> eligibility_input candidates).
Proof.
  pose proof both_select as [[[s1 H1]%is_ok_true [s2 H2]%is_ok_true]%andb_true_iff H3]%andb_true_iff.
  apply bool_decide_eq_true_1 in H3. exists s1, s2. split; [exact H1|]. split; [exact H2|]. unfold selects in H1, H2.
  apply bind_Ok in H1 as (v1 & V1 & S1), H2 as (v2 & V2 & S2).
  destruct (committee_determined input (key 5) (proof_with 1) v1 candidates s1 ltac:(split; [discriminate|reflexivity])
    candidates_typed V1 S1) as (_ & Hl & _ & _ & Hd & _). split; [exact Hl|].
  destruct (Hd (proof_with 2) v2 candidates s2 V2 H3 candidates_typed S2) as [Heq|[Hne _]]; [left; exact Heq|right; exact Hne].
Defined.

Definition first_epoch : VRFKeyEpoch := mkEpoch (be 32 3) (be 32 9) (key 4) 1 10 50 100 zero32.
Definition second_epoch : VRFKeyEpoch :=
  mkEpoch (be 32 3) (be 32 9) (key 5) 2 60 100 0 (ok_or [] (VRFKeyEpoch_Hash first_epoch)).
Lemma schedule_ok : is_ok (CheckVRFKeyScheduleAtInput input (be 32 9) [second_epoch; first_epoch] 20) = true.
Proof. vm_compute. reflexivity. Qed.

Lemma schedule_admits_one_key_witness :
  exists e, CheckVRFKeyScheduleAtInput input (be 32 9) [second_epoch; first_epoch] 20 = Ok e /\
    CheckVRFKeyScheduleAtInput input (be 32 9) [first_epoch; second_epoch] 20 = Ok e.
Proof.
  destruct (is_ok_true _ schedule_ok) as [e E]. exists e. split; [exact E|].
  assert (Forall Epoch_typed [second_epoch; first_epoch]) as Ht by (repeat constructor; vm_compute; (reflexivity || discriminate)).
  destruct (schedule_admits_one_key _ _ _ _ _ Ht E) as (_ & _ & _ & _ & _ & _ & _ & Hp).
  apply (Hp [first_epoch; second_epoch]). constructor.
Defined.
End CommitteeExample.
End Committee.
