(* ===== verification/Witness.v ===== *)
(** * Witness

    The witness checkpoints of package [internal/v2/node]: threshold signed
    bundles and the checks over several of them ([witness_checkpoint.go],
    [witness_bundle_assembly.go], [witness_quorum_consistency.go],
    [witness_evidence_set.go]), the floors a recovering node demands
    ([witness_quorum_floor.go], [witness_minimum_floor.go],
    [witness_multi_source_floor.go]), and the journal of signing intents with its
    gates ([witness_signing_intent.go], [witness_atomic_gate.go],
    [witness_remote_floor.go], [witness_remote_fencing_grant.go],
    [witness_runtime_verifier.go]).

    [crypto/ed25519] and [encoding/json] are the classes [Ed25519] and
    [EnvelopeJSON]; what a remote party answers is an argument. *)

From S2P Require Import Prelude GoLib Codec Crypto Types Merkle Object Smt SmtProofs SmtTheorems Sharding Tx Consensus ComputeWork Contracts.
From S2P Require Import Execution ExecutionExtended Worldstate Batch EconomicsPolicy EconomicsEpoch EconomicsCollector EconomicsEngine.
From S2P Require Import Node NodeJournal NodeHistory AnchorProofs.

Open Scope Z_scope.

#[global] Instance FinalityCheckpoint_eq_dec : EqDecision FinalityCheckpoint.
Proof. solve_decision. Defined.

(** ** encoding/hex *)

Definition hex_value (c : byte) : option Z :=
  let v := Z_of_byte c in
  if (48 <=? v) && (v <=? 57) then Some (v - 48)
  else if (97 <=? v) && (v <=? 102) then Some (v - 87)
  else if (65 <=? v) && (v <=? 70) then Some (v - 55)
  else None.

(** [hex.DecodeString]: pairs of digits of either case. *)
Fixpoint hex_decode (s : bytes) : option bytes :=
  match s with
  | [] => Some []
  | hi :: lo :: s =>
      h ← hex_value hi;
      l ← hex_value lo;
      rest ← hex_decode s;
      Some (byte_of_Z (16 * h + l) :: rest)
  | _ => None
  end.

Module Witness.

Definition maxWitnessBundleBytes : Z := Z.shiftl 16 10.
Definition minWitnessKeys : Z := 3.
Definition maxWitnessKeys : Z := 16.
Definition PublicKeySize : Z := 32.
Definition SignatureSize : Z := 64.

Record WitnessSignature := mkSignature {
  ws_PublicKey : bytes;
  ws_Signature : bytes;
}.

Record SignedWitnessCheckpoint := mkEnvelope {
  we_NetworkID : bytes;
  we_ValidatorRoot : bytes;
  we_Height : Z;
  we_HeaderHash : bytes;
  we_Signatures : list WitnessSignature;
}.

(** [ed25519.Verify] *)
Class Ed25519 := ed25519_Verify : bytes -> bytes -> bytes -> bool.

(** [Decode] of exactly one value without unknown fields, and [json.Marshal]. *)
Class EnvelopeJSON := {
  json_decode : bytes -> option SignedWitnessCheckpoint;
  json_marshal : SignedWitnessCheckpoint -> option bytes;
}.

Section bundles.
Context `{Crypto} `{Ed25519} `{EnvelopeJSON}.

Definition WitnessCheckpointDigest (c : FinalityCheckpoint) : res bytes :=
  FinalityCheckpoint_Validate c (fc_Network c) (fc_ValidatorRoot c) <?> ErrWitnessCheckpoint;;
  Ok (DomainHash (str "zephyr/external-finalized-witness-checkpoint/v1")
    (Writer.BytesCopy (Writer.new |> Writer.Fixed (fc_Network c) |> Writer.Fixed (fc_ValidatorRoot c)
      |> Writer.U64 (fc_Height c) |> Writer.Fixed (fc_HeaderHash c)))).

Definition allow_key (allowed : gmap bytes bytes) (raw : bytes) : res (gmap bytes bytes) :=
  fail_if (negb (blen raw =? PublicKeySize)) ErrWitnessCheckpoint;;
  let key := hex raw in
  fail_if (bool_decide (is_Some (allowed !! key))) ErrWitnessCheckpoint;;
  Ok (<[key := raw]> allowed).

(** The header hash in the spelling of the envelope. *)
Definition header_of (s : bytes) : res bytes :=
  headerBytes ← some_or (hex_decode s) ErrWitnessCheckpoint;
  fail_if (negb (blen headerBytes =? 32) || negb (bool_decide (s = hex headerBytes))) ErrWitnessCheckpoint;;
  Ok headerBytes.

(** One signature: the keys seen and the previous one. *)
Definition check_signature (allowed : gmap bytes bytes) (digest : bytes) (st : gset bytes * bytes) (s : WitnessSignature)
    : res (gset bytes * bytes) :=
  let '(seen, previous) := st in
  pub ← some_or (allowed !! ws_PublicKey s) ErrWitnessCheckpoint;
  fail_if (negb (blen (ws_PublicKey s) =? PublicKeySize * 2)
           || (bool_decide (kle (ws_PublicKey s) previous) && negb (bool_decide (previous = [])))) ErrWitnessCheckpoint;;
  fail_if (bool_decide (ws_PublicKey s ∈ seen)) ErrWitnessCheckpoint;;
  raw ← some_or (hex_decode (ws_Signature s)) ErrWitnessCheckpoint;
  fail_if (negb (blen raw =? SignatureSize) || negb (bool_decide (ws_Signature s = hex raw))
           || negb (ed25519_Verify pub digest raw)) ErrWitnessCheckpoint;;
  Ok ({[ws_PublicKey s]} ∪ seen, ws_PublicKey s).

Definition ParseSignedWitnessCheckpoint (data : bytes) (trustedKeys : list bytes) (network validatorRoot : bytes)
    : res FinalityCheckpoint :=
  fail_if ((blen data =? 0) || (maxWitnessBundleBytes <? blen data) || (blen trustedKeys <? minWitnessKeys)
           || (maxWitnessKeys <? blen trustedKeys) || IsZero32 network || IsZero32 validatorRoot) ErrWitnessCheckpoint;;
  allowed ← rfold allow_key ∅ trustedKeys;
  envelope ← some_or (json_decode data) ErrWitnessCheckpoint;
  canonical ← some_or (json_marshal envelope) ErrWitnessCheckpoint;
  fail_if (negb (bool_decide (TrimSpace data = canonical))) ErrWitnessCheckpoint;;
  fail_if (negb (bool_decide (we_NetworkID envelope = hex network))
           || negb (bool_decide (we_ValidatorRoot envelope = hex validatorRoot))
           || negb (blen (we_HeaderHash envelope) =? 64) || (we_Height envelope =? 0)) ErrWitnessCheckpoint;;
  header ← header_of (we_HeaderHash envelope);
  let checkpoint := mkFinalityCheckpoint network validatorRoot (we_Height envelope) header in
  digest ← WitnessCheckpointDigest checkpoint <?> ErrWitnessCheckpoint;
  let count := Z.of_nat (size allowed) in
  fail_if ((blen (we_Signatures envelope) <? (2 * count) / 3 + 1) || (count <? blen (we_Signatures envelope))) ErrWitnessCheckpoint;;
  rfold (check_signature allowed digest) (∅, []) (we_Signatures envelope);;
  Ok checkpoint.

Definition AssembleSignedWitnessCheckpoint (cp : FinalityCheckpoint) (trustedKeys : list bytes)
    (signatures : list WitnessSignature) : res bytes :=
  fail_if (negb (is_ok (FinalityCheckpoint_Validate cp (fc_Network cp) (fc_ValidatorRoot cp)))
           || (blen signatures <? minWitnessKeys) || (maxWitnessKeys <? blen signatures)) ErrWitnessCheckpoint;;
  let envelope := mkEnvelope (hex (fc_Network cp)) (hex (fc_ValidatorRoot cp)) (fc_Height cp)
    (hex (fc_HeaderHash cp)) (sort_by ws_PublicKey signatures) in
  payload ← some_or (json_marshal envelope) ErrWitnessCheckpoint;
  fail_if (maxWitnessBundleBytes <? blen payload) ErrWitnessCheckpoint;;
  verified ← ParseSignedWitnessCheckpoint payload trustedKeys (fc_Network cp) (fc_ValidatorRoot cp) <?> ErrWitnessCheckpoint;
  fail_if (negb (bool_decide (verified = cp))) ErrWitnessCheckpoint;;
  Ok payload.

Definition CheckWitnessQuorumConsistency (first second : bytes) (trustedKeys : list bytes) (network validatorRoot : bytes)
    : res unit :=
  a ← ParseSignedWitnessCheckpoint first trustedKeys network validatorRoot <?> ErrWitnessCheckpoint;
  b ← ParseSignedWitnessCheckpoint second trustedKeys network validatorRoot <?> ErrWitnessCheckpoint;
  fail_if ((fc_Height a =? fc_Height b) && negb (bool_decide (fc_HeaderHash a = fc_HeaderHash b))) ErrWitnessEquivocation.

(** [errors.Join] keeps both errors; the first stands for the pair. *)
Definition check_claim (trustedKeys : list bytes) (network validatorRoot : bytes)
    (st : list FinalityCheckpoint * gmap Z bytes) (data : bytes) : res (list FinalityCheckpoint * gmap Z bytes) :=
  let '(claims, byHeight) := st in
  cp ← ParseSignedWitnessCheckpoint data trustedKeys network validatorRoot <?> ErrWitnessEvidenceSet;
  fail_if (match byHeight !! fc_Height cp with Some hash => negb (bool_decide (hash = fc_HeaderHash cp)) | None => false end)
    ErrWitnessEvidenceSet;;
  Ok (claims ++ [cp], <[fc_Height cp := fc_HeaderHash cp]> byHeight).

Definition VerifyWitnessEvidenceSet (bundles : list bytes) (trustedKeys : list bytes) (network validatorRoot : bytes)
    : res (list FinalityCheckpoint) :=
  fail_if ((blen bundles =? 0) || (64 <? blen bundles)) ErrWitnessEvidenceSet;;
  '(claims, _) ← rfold (check_claim trustedKeys network validatorRoot) ([], ∅) bundles;
  Ok claims.

(** ** Floors *)

Record QuorumFloor := mkQuorumFloor { qf_trustedKeys : list bytes; qf_network : bytes; qf_validatorRoot : bytes }.

Definition floor_key (st : gset bytes * list bytes) (key : bytes) : res (gset bytes * list bytes) :=
  let '(seen, copied) := st in
  fail_if (negb (blen key =? 32)) ErrWitnessSigningIntent;;
  fail_if (bool_decide (key ∈ seen)) ErrWitnessSigningIntent;;
  Ok ({[key]} ∪ seen, copied ++ [key]).

Definition NewQuorumAuthenticatedWitnessFloor (keys : list bytes) (network root : bytes) : res QuorumFloor :=
  fail_if ((blen keys <? minWitnessKeys) || (maxWitnessKeys <? blen keys) || IsZero32 network || IsZero32 root)
    ErrWitnessSigningIntent;;
  '(_, copied) ← rfold floor_key (∅, []) keys;
  Ok (mkQuorumFloor copied network root).

(** [source] is what the untrusted source returned. *)
Definition Quorum_AuthenticatedWitnessFloor (f : QuorumFloor) (source : res bytes) : res FinalityCheckpoint :=
  data ← source <?> ErrWitnessSigningIntent;
  ParseSignedWitnessCheckpoint data (qf_trustedKeys f) (qf_network f) (qf_validatorRoot f) <?> ErrWitnessSigningIntent.

Definition NewCertifiedWitnessFloorMinimum (floor : FinalityCheckpoint) : res FinalityCheckpoint :=
  fail_if (negb (is_ok (FinalityCheckpoint_Validate floor (fc_Network floor) (fc_ValidatorRoot floor)))
           || IsZero32 (fc_HeaderHash floor)) ErrWitnessSigningIntent;;
  Ok floor.

(** [remote] is what the wrapped verifier returned. *)
Definition Minimum_AuthenticatedWitnessFloor (floor : FinalityCheckpoint) (remote : res FinalityCheckpoint) : res FinalityCheckpoint :=
  cp ← remote <?> ErrWitnessSigningIntent;
  fail_if (negb (bool_decide (fc_Network cp = fc_Network floor)) || negb (bool_decide (fc_ValidatorRoot cp = fc_ValidatorRoot floor))
           || (fc_Height cp <? fc_Height floor) || IsZero32 (fc_HeaderHash cp)) ErrWitnessSigningIntent;;
  fail_if ((fc_Height cp =? fc_Height floor) && negb (bool_decide (fc_HeaderHash cp = fc_HeaderHash floor))) ErrWitnessSigningIntent;;
  Ok cp.

(** A source gives its answer to the [n]th question; [mf_last] is [last] once
    [observed]. *)
Record MultiFloor := mkMultiFloor { mf_sources : list (nat -> res FinalityCheckpoint); mf_last : option FinalityCheckpoint }.

Definition NewMultiSourceWitnessFloor (sources : list (nat -> res FinalityCheckpoint)) : res MultiFloor :=
  fail_if ((blen sources <? 2) || (8 <? blen sources)) ErrWitnessSigningIntent;;
  Ok (mkMultiFloor sources None).

(** The loop over the sources; [agreed] is [None] before the first. *)
Fixpoint agree (n : nat) (agreed : option FinalityCheckpoint) (sources : list (nat -> res FinalityCheckpoint))
    : res (option FinalityCheckpoint) :=
  match sources with
  | [] => Ok agreed
  | source :: sources =>
      cp ← source n <?> ErrWitnessSigningIntent;
      fail_if (negb (is_ok (FinalityCheckpoint_Validate cp (fc_Network cp) (fc_ValidatorRoot cp))) || IsZero32 (fc_HeaderHash cp))
        ErrWitnessSigningIntent;;
      fail_if (match agreed with Some a => negb (bool_decide (cp = a)) | None => false end) ErrWitnessSigningIntent;;
      agree n (Some cp) sources
  end.

Definition Multi_AuthenticatedWitnessFloor (f : MultiFloor) (n : nat) : MultiFloor * res FinalityCheckpoint :=
  match fail_if ((blen (mf_sources f) <? 2) || (8 <? blen (mf_sources f))) ErrWitnessSigningIntent;;
        agreed ← agree n None (mf_sources f);
        agreed ← some_or agreed ErrWitnessSigningIntent;
        match mf_last f with
        | None => Ok tt
        | Some last =>
            fail_if (negb (bool_decide (fc_Network agreed = fc_Network last))
                     || negb (bool_decide (fc_ValidatorRoot agreed = fc_ValidatorRoot last))
                     || (fc_Height agreed <? fc_Height last)) ErrWitnessSigningIntent;;
            fail_if ((fc_Height agreed =? fc_Height last) && negb (bool_decide (fc_HeaderHash agreed = fc_HeaderHash last)))
              ErrWitnessSigningIntent
        end;;
        Ok agreed with
  | Err e => (f, Err e)
  | Ok agreed => (mkMultiFloor (mf_sources f) (Some agreed), Ok agreed)
  end.
End bundles.

(** ** The journal of signing intents *)

(** A finality verifier behind a pointer; [wv_Verify n] is its answer to the [n]th
    question. *)
Record WitnessVerifier := mkVerifier {
  wv_address : Z;
  wv_Verify : nat -> FinalityCheckpoint -> res unit;
}.

Record IntentJournal := mkJournal {
  wj_store : AnchorStore;
  wj_verifier : WitnessVerifier;
  wj_closed : bool;
}.

Definition set_intent_store (j : IntentJournal) (s : AnchorStore) : IntentJournal := mkJournal s (wj_verifier j) (wj_closed j).

Section journal.
Context `{Crypto} `{Ed25519}.

Definition OpenWitnessSigningIntentJournal (file : option bytes) (io : io_outcome) (network root : bytes) (create : bool)
    (verifier : option WitnessVerifier) : option bytes * res IntentJournal :=
  match verifier with
  | None => (file, Err ErrWitnessSigningIntent)
  | Some verifier =>
      let '(file, opened) := OpenFinalityAnchorStore file io network root create in
      (file, store ← opened <?> ErrWitnessSigningIntent; Ok (mkJournal store verifier false))
  end.

(** Verify, then reserve: the part that the three gates share. *)
Definition reserve (j : IntentJournal) (io : io_outcome) (n : nat) (cp : FinalityCheckpoint) : IntentJournal * res unit :=
  if wj_closed j then (j, Err ErrWitnessSigningIntent)
  else
    match wv_Verify (wj_verifier j) n cp with
    | Err _ => (j, Err ErrWitnessSigningIntent)
    | Ok _ =>
        let '(store, out) := advance (wj_store j) io cp in
        (set_intent_store j store, out <?> ErrWitnessSigningIntent)
    end.

Definition ReserveFinalizedIntent (j : IntentJournal) (io : io_outcome) (n : nat) (cp : FinalityCheckpoint)
    : IntentJournal * res unit := reserve j io n cp.

Definition Journal_Current (j : IntentJournal) : res FinalityCheckpoint :=
  fail_if (wj_closed j) ErrWitnessSigningIntent;;
  anchor_Current (wj_store j) <?> ErrWitnessSigningIntent.

Definition Journal_Close (j : IntentJournal) : IntentJournal :=
  if wj_closed j then j else mkJournal (anchor_Close (wj_store j)) (wj_verifier j) true.

(** What follows a step of the journal, skipped when the step failed. *)
Definition then_gate (r : IntentJournal * res unit) (k : IntentJournal -> res unit) : IntentJournal * res unit :=
  let '(j, out) := r in (j, out;; k j).

(** The store holds exactly the checkpoint that was just reserved. *)
Definition holds_intent (j : IntentJournal) (cp : FinalityCheckpoint) : res unit :=
  current ← anchor_Current (wj_store j) <?> ErrWitnessSigningIntent;
  fail_if (negb (bool_decide (current = cp))) ErrWitnessSigningIntent.

(** [floor] is what the remote floor verifier returned. *)
Definition ReserveAndReconcileWitnessIntent (j : IntentJournal) (io : io_outcome) (n : nat) (cp : FinalityCheckpoint)
    (floor : res FinalityCheckpoint) : IntentJournal * res unit :=
  then_gate (reserve j io n cp) (fun j =>
        holds_intent j cp;;
        floor ← floor <?> ErrWitnessSigningIntent;
        fail_if (negb (is_ok (FinalityCheckpoint_Validate floor (fc_Network cp) (fc_ValidatorRoot cp)))
                 || negb (bool_decide (floor = cp)) || IsZero32 (fc_HeaderHash cp)) ErrWitnessSigningIntent;;
        wv_Verify (wj_verifier j) (S n) cp <?> ErrWitnessSigningIntent).

Definition ReconcileWitnessIntentWithExternalFloor (j : IntentJournal) (n : nat) (floor : res FinalityCheckpoint) : res unit :=
  fail_if (wj_closed j) ErrWitnessSigningIntent;;
  local ← anchor_Current (wj_store j) <?> ErrWitnessSigningIntent;
  floor ← floor <?> ErrWitnessSigningIntent;
  fail_if (negb (is_ok (FinalityCheckpoint_Validate floor (fc_Network local) (fc_ValidatorRoot local)))
           || (fc_Height local =? 0) || negb (bool_decide (floor = local)) || IsZero32 (fc_HeaderHash local))
    ErrWitnessSigningIntent;;
  wv_Verify (wj_verifier j) n floor <?> ErrWitnessSigningIntent.

(** ** The remote fence *)

Record WitnessFencingGrant := mkGrant {
  fg_Checkpoint : FinalityCheckpoint;
  fg_Challenge : bytes;
  fg_Revision : Z;
  fg_Signature : bytes;
}.

Definition WitnessFencingGrantDigest (g : WitnessFencingGrant) : res bytes :=
  let c := fg_Checkpoint g in
  fail_if (negb (is_ok (FinalityCheckpoint_Validate c (fc_Network c) (fc_ValidatorRoot c))) || (fg_Revision g =? 0)
           || IsZero32 (fg_Challenge g)) ErrWitnessSigningIntent;;
  Ok (DomainHash (str "zephyr/witness-remote-fencing-grant/v1")
    (Writer.BytesCopy (Writer.new |> Writer.Fixed (fc_Network c) |> Writer.Fixed (fc_ValidatorRoot c)
      |> Writer.U64 (fc_Height c) |> Writer.Fixed (fc_HeaderHash c) |> Writer.Fixed (fg_Challenge g)
      |> Writer.U64 (fg_Revision g)))).

Definition VerifyWitnessFencingGrant (g : WitnessFencingGrant) (checkpoint : FinalityCheckpoint) (challenge : bytes)
    (pinnedAuthorityKey : bytes) : res unit :=
  fail_if (negb (blen pinnedAuthorityKey =? PublicKeySize) || negb (blen (fg_Signature g) =? SignatureSize)
           || negb (is_ok (FinalityCheckpoint_Validate checkpoint (fc_Network checkpoint) (fc_ValidatorRoot checkpoint)))
           || negb (bool_decide (fg_Checkpoint g = checkpoint)) || negb (bool_decide (fg_Challenge g = challenge))
           || IsZero32 challenge) ErrWitnessSigningIntent;;
  digest ← WitnessFencingGrantDigest g <?> ErrWitnessSigningIntent;
  fail_if (negb (ed25519_Verify pinnedAuthorityKey digest (fg_Signature g))) ErrWitnessSigningIntent.

(** [expired] is [ctx.Err() != nil], [challenge] what [rand.Read] gave and [remote]
    what the authority answered within the deadline. *)
Definition ReserveAndVerifyWitnessFence (j : IntentJournal) (io : io_outcome) (n : nat) (checkpoint : FinalityCheckpoint)
    (expired : bool) (challenge : res bytes) (remote : bytes -> res WitnessFencingGrant) (pinnedAuthorityKey : bytes) : IntentJournal * res unit :=
  if negb (blen pinnedAuthorityKey =? PublicKeySize) || expired then (j, Err ErrWitnessSigningIntent)
  else
    then_gate (reserve j io n checkpoint) (fun j =>
          holds_intent j checkpoint;;
          challenge ← challenge <?> ErrWitnessSigningIntent;
          fail_if (IsZero32 challenge) ErrWitnessSigningIntent;;
          grant ← remote challenge <?> ErrWitnessSigningIntent;
          VerifyWitnessFencingGrant grant checkpoint challenge pinnedAuthorityKey;;
          wv_Verify (wj_verifier j) (S n) checkpoint <?> ErrWitnessSigningIntent).

(** ** The verifier of a running node *)

Context `{HM : MapOrder} `{HH : ScriptHost} `{HI : IdleCapital} {St : Type} `{HB : Backend St} `{HS : Simulator St}.

Definition history_at_tip (r : Runtime (St := St)) (h : History) : bool :=
  negb (ch_closed h) && negb (ch_poisoned h) && (0 <? ch_count h) && (ch_height h =? rt_Height r)
  && bool_decide (ch_parent h = rt_ParentHash r) && bool_decide (ch_network h = rt_Network r)
  && bool_decide (ch_validatorRoot h = rt_ValidatorRoot r).

(** The certified checkpoint of the verifier that is sealed. *)
Definition NewRuntimeWitnessFinalityVerifier (r : Runtime (St := St)) : res FinalityCheckpoint :=
  fail_if (rt_recoveryRequired r || negb (rt_journalConfigured r) || (rt_Height r =? 0) || IsZero32 (rt_ParentHash r))
    ErrWitnessSigningIntent;;
  h ← some_or (rt_history r) ErrWitnessSigningIntent;
  store ← some_or (rt_anchorStore r) ErrWitnessSigningIntent;
  fail_if (negb (history_at_tip r h)) ErrWitnessSigningIntent;;
  anchor ← anchor_Current store <?> ErrWitnessSigningIntent;
  let cp := mkFinalityCheckpoint (rt_Network r) (rt_ValidatorRoot r) (rt_Height r) (rt_ParentHash r) in
  fail_if (negb (bool_decide (anchor = cp))) ErrWitnessSigningIntent;;
  FinalityCheckpoint_Validate cp (rt_Network r) (rt_ValidatorRoot r) <?> ErrWitnessSigningIntent;;
  Ok cp.

Definition runtime_verifier (address : Z) (certified : FinalityCheckpoint) : WitnessVerifier :=
  mkVerifier address (fun _ cp => fail_if (negb (bool_decide (cp = certified))) ErrWitnessSigningIntent).

(** [j.verifier == verifier] compares the pointers. *)
Definition ReserveRuntimeVerifiedWitnessTip (j : IntentJournal) (io : io_outcome) (n : nat) (address : Z)
    (certified : FinalityCheckpoint) : IntentJournal * res unit :=
  if negb (negb (wj_closed j) && (wv_address (wj_verifier j) =? address)) then (j, Err ErrWitnessSigningIntent)
  else ReserveFinalizedIntent j io n certified.
End journal.
End Witness.
