(* ===== verification/WitnessProofs.v ===== *)
(** * WitnessProofs

    A witness bundle that is accepted carries the verified signatures of more than
    two thirds of the pinned keys, so two accepted bundles that contradict each
    other name the keys that signed both; and a journal of signing intents never
    authorizes two headers of one height, nor a height below one it authorized. *)

From S2P Require Import Prelude GoLib Codec Crypto Types Merkle Object Smt SmtProofs SmtTheorems Sharding Tx Consensus ComputeWork Contracts.
From S2P Require Import Execution ExecutionExtended Worldstate Batch EconomicsPolicy EconomicsEpoch EconomicsCollector EconomicsEngine.
From S2P Require Import Node NodeJournal NodeHistory AnchorProofs Witness.

Open Scope Z_scope.

Module WitnessProofs.
Import Witness.

Lemma checkpoint_ext a b :
  fc_Network a = fc_Network b -> fc_ValidatorRoot a = fc_ValidatorRoot b -> fc_Height a = fc_Height b ->
  fc_HeaderHash a = fc_HeaderHash b -> a = b.
Proof. destruct a, b. cbn. congruence. Qed.

(** ** Quorums of witnesses *)

Section quorums.
Context `{HC : Crypto} `{HE : Ed25519} `{HJ : EnvelopeJSON}.

(** [pub] is pinned and its signature over the digest of [cp] verifies. *)
Definition attests (keys : list bytes) (cp : FinalityCheckpoint) (pub : bytes) : Prop :=
  pub ∈ keys /\ exists digest raw, WitnessCheckpointDigest cp = Ok digest /\ blen raw = SignatureSize /\
    ed25519_Verify pub digest raw = true.

Lemma allow_keys_Ok (keys : list bytes) allowed :
  rfold allow_key ∅ keys = Ok allowed ->
  NoDup keys /\ size allowed = length keys /\ forall k pub, allowed !! k = Some pub <-> k = hex pub /\ pub ∈ keys.
Proof.
  apply (rfold_inv (fun m l => NoDup l /\ size m = length l /\ forall k pub, m !! k = Some pub <-> k = hex pub /\ pub ∈ l)
    allow_key keys ∅ allowed []).
  - split; [constructor|]. split; [apply map_size_empty|]. intros k pub. rewrite lookup_empty. split; [done|]. intros [_ Hin]. by apply not_elem_of_nil in Hin.
  - intros m m' l raw (Hd & Hs & Hm) _ E. unfold allow_key in E. res_inv. bool_inv.
    assert (m !! hex raw = None) as Hnone by (apply eq_None_not_Some; done).
    assert (raw ∉ l) as Hnot by (intros Hin; assert (m !! hex raw = Some raw) by (by apply Hm); congruence).
    split; [apply NoDup_app; split_and!; [done|set_solver|apply NoDup_singleton]|].
    split; [rewrite map_size_insert, Hnone, length_app; cbn; lia|].
    intros k pub. destruct (decide (k = hex raw)) as [->|Hk].
    + rewrite lookup_insert_eq. split; [intros [= <-]; set_solver|]. by intros [E%(inj hex) _]; subst.
    + rewrite lookup_insert_ne by done. rewrite Hm. split; [set_solver|]. intros [-> Hin]. split; [done|].
      apply elem_of_app in Hin as [?| ->%list_elem_of_singleton]; done.
Qed.

Lemma check_signatures_Ok allowed digest sigs st :
  rfold (check_signature allowed digest) (∅, []) sigs = Ok st ->
  size st.1 = length sigs /\
  forall k, k ∈ st.1 -> exists pub raw, allowed !! k = Some pub /\ blen raw = SignatureSize /\ ed25519_Verify pub digest raw = true.
Proof.
  apply (rfold_inv (fun st l => size st.1 = length l /\ forall k, k ∈ st.1 -> exists pub raw, allowed !! k = Some pub /\
    blen raw = SignatureSize /\ ed25519_Verify pub digest raw = true) _ sigs (∅, []) st []).
  - split; [apply size_empty|]. cbn. set_solver.
  - intros [seen prev] st' l s (Hs & Hk) _ E. cbn [fst] in Hs, Hk. unfold check_signature in E. res_inv. bool_inv.
    cbn [fst]. split; [rewrite size_union by set_solver; rewrite size_singleton, Hs, length_app; cbn; lia|].
    intros k [->%elem_of_singleton|Hin]%elem_of_union; [|by apply Hk].
    match goal with Hl : (blen _ =? SignatureSize) = true |- _ => apply Z.eqb_eq in Hl end. by eauto.
Qed.

(** What an accepted bundle proves. *)
Lemma Parse_quorum data keys network root cp :
  ParseSignedWitnessCheckpoint data keys network root = Ok cp ->
  fc_Network cp = network /\ fc_ValidatorRoot cp = root /\ NoDup keys /\
  exists signers : gset bytes, 2 * blen keys < 3 * Z.of_nat (size signers) /\
    forall k, k ∈ signers -> exists pub, k = hex pub /\ attests keys cp pub.
Proof.
  unfold ParseSignedWitnessCheckpoint. intros E. res_inv. bool_inv.
  match goal with Hk : rfold allow_key _ _ = _ |- _ => apply allow_keys_Ok in Hk as (Hd & Hs & Hm) end.
  match goal with Hk : rfold (check_signature _ _) _ _ = _ |- _ => apply check_signatures_Ok in Hk as (Hn & Hv) end.
  split; [done|]. split; [done|]. split; [done|].
  eexists. split; [|intros k (pub & raw & (-> & Hin)%Hm & Hraw & Hver)%Hv; exists pub; split; [done|]; split; [done|]; by eauto].
  rewrite Hs in *. unfold blen in *. rewrite Hn. pose proof (Z.div_mod (2 * Z.of_nat (length keys)) 3).
  pose proof (Z.mod_pos_bound (2 * Z.of_nat (length keys)) 3). lia.
Qed.

Lemma quorums_meet (keys : list bytes) (s1 s2 : gset bytes) (P Q : bytes -> Prop) :
  NoDup keys -> 2 * blen keys < 3 * Z.of_nat (size s1) -> 2 * blen keys < 3 * Z.of_nat (size s2) ->
  (forall k, k ∈ s1 -> exists pub, k = hex pub /\ pub ∈ keys /\ P pub) ->
  (forall k, k ∈ s2 -> exists pub, k = hex pub /\ pub ∈ keys /\ Q pub) ->
  exists both : gset bytes, blen keys < 3 * Z.of_nat (size both) /\
    forall k, k ∈ both -> exists pub, k = hex pub /\ P pub /\ Q pub.
Proof.
  intros Hd H1 H2 S1 S2. exists (s1 ∩ s2). split.
  - assert (s1 ∪ s2 ⊆ list_to_set (hex <$> keys)) as Hsub.
    { intros k [Hk|Hk]%elem_of_union; [apply S1 in Hk as (pub & -> & Hin & _)|apply S2 in Hk as (pub & -> & Hin & _)];
        apply elem_of_list_to_set, list_elem_of_fmap; eauto. }
    apply subseteq_size in Hsub. rewrite size_list_to_set, length_fmap in Hsub by (apply NoDup_fmap; [apply _|done]).
    pose proof (size_union_alt s1 s2). pose proof (size_difference_alt s2 s1). unfold blen in *.
    assert (s2 ∩ s1 = s1 ∩ s2) as Hc by set_solver. rewrite Hc in *.
    assert (size (s1 ∩ s2) <= size s2)%nat by (apply subseteq_size; set_solver). lia.
  - intros k [(p & -> & _ & Hp)%S1 (q & ->%(inj hex) & _ & Hq)%S2]%elem_of_intersection. eauto.
Qed.

(** The message a witness signs. *)
Definition digest_preimage (c : FinalityCheckpoint) : bytes :=
  domain_preimage (str "zephyr/external-finalized-witness-checkpoint/v1")
    (Writer.BytesCopy (Writer.new |> Writer.Fixed (fc_Network c) |> Writer.Fixed (fc_ValidatorRoot c)
      |> Writer.U64 (fc_Height c) |> Writer.Fixed (fc_HeaderHash c))).

Lemma digests_differ a b :
  fc_Network a = fc_Network b -> fc_ValidatorRoot a = fc_ValidatorRoot b -> fc_Height a = fc_Height b ->
  fc_HeaderHash a <> fc_HeaderHash b -> is_ok (WitnessCheckpointDigest a) = true ->
  WitnessCheckpointDigest a <> WitnessCheckpointDigest b \/
  (digest_preimage a <> digest_preimage b /\ sha256 (digest_preimage a) = sha256 (digest_preimage b)).
Proof.
  intros Hn Hr Hh Hne [d Ha]%is_ok_true. destruct (decide (WitnessCheckpointDigest a = WitnessCheckpointDigest b)) as [E|]; [|by left].
  right. rewrite Ha in E. symmetry in E. unfold WitnessCheckpointDigest in Ha, E. res_inv. subst. split.
  - unfold digest_preimage. rewrite Hn, Hr, Hh. intros Ep. unfold domain_preimage in Ep. do 2 apply app_inv_head in Ep.
    apply app_inj_1 in Ep as [_ Ep]; [|by rewrite !length_be].
    unfold Writer.BytesCopy, Writer.Fixed in Ep. by apply app_inv_head in Ep.
  - by unfold DomainHash, digest_preimage in *.
Qed.

(** C9: conflicting witness bundles convict their signers.  When the consistency
    check reports an equivocation, both bundles are accepted for different headers
    of one height of the pinned network, more than a third of the pinned witness
    keys verifiably signed both, and the two messages they signed differ or are a
    SHA-256 collision; when it reports none, the two bundles do not contradict each
    other. *)
Theorem witness_equivocation_accountable first second keys network root :
  (CheckWitnessQuorumConsistency first second keys network root = Err ErrWitnessEquivocation ->
   exists a b (both : gset bytes),
     ParseSignedWitnessCheckpoint first keys network root = Ok a /\ ParseSignedWitnessCheckpoint second keys network root = Ok b /\
     fc_Height a = fc_Height b /\ fc_HeaderHash a <> fc_HeaderHash b /\
     (WitnessCheckpointDigest a <> WitnessCheckpointDigest b \/
      (digest_preimage a <> digest_preimage b /\ sha256 (digest_preimage a) = sha256 (digest_preimage b))) /\
     blen keys < 3 * Z.of_nat (size both) /\
     forall k, k ∈ both -> exists pub, k = hex pub /\ attests keys a pub /\ attests keys b pub) /\
  (CheckWitnessQuorumConsistency first second keys network root = Ok tt ->
   exists a b,
     ParseSignedWitnessCheckpoint first keys network root = Ok a /\ ParseSignedWitnessCheckpoint second keys network root = Ok b /\
     (fc_Height a = fc_Height b -> a = b)).
Proof.
  unfold CheckWitnessQuorumConsistency.
  destruct (ParseSignedWitnessCheckpoint first _ _ _) as [a|e] eqn:Ea; cbn [or_err mbind res_bind]; [|done].
  destruct (ParseSignedWitnessCheckpoint second _ _ _) as [b|e] eqn:Eb; cbn [or_err mbind res_bind]; [|done].
  apply Parse_quorum in Ea as (N1 & R1 & Hd & s1 & Z1 & S1). apply Parse_quorum in Eb as (N2 & R2 & _ & s2 & Z2 & S2).
  destruct (_ && _) eqn:Ec; (split; [|]); try done; intros _.
  - apply andb_true_iff in Ec as [Hh%Z.eqb_eq Hne%negb_true_iff%bool_decide_eq_false].
    destruct (quorums_meet keys s1 s2 (attests keys a) (attests keys b)) as (both & Hb & Hk); try done.
    + intros k (pub & -> & Hp)%S1. exists pub. split; [done|]. split; [apply Hp|done].
    + intros k (pub & -> & Hp)%S2. exists pub. split; [done|]. split; [apply Hp|done].
    + exists a, b, both. split_and!; try done. apply digests_differ; try done; [congruence..|].
      destruct (set_choose_L both) as [k (pub & _ & (_ & d & _ & -> & _) & _)%Hk]; [|done].
      intros ->. rewrite size_empty in Hb. unfold blen in Hb. lia.
  - exists a, b. split; [done|]. split; [done|]. intros Hh. rewrite Hh, Z.eqb_refl in Ec.
    apply negb_false_iff, bool_decide_eq_true in Ec. apply checkpoint_ext; congruence.
Qed.
End quorums.

(** ** Signing intents *)

Section intents.
Context `{HC : Crypto} `{HE : Ed25519}.
Context (network root : bytes) (Hnet : arr32 network) (Hroot : arr32 root).
Context (Hnz : IsZero32 network = false) (Hrz : IsZero32 root = false).

(** A call of one of the gates for [cp]: the journal after it and what it
    returned. *)
Inductive gate_call (j : IntentJournal) (cp : FinalityCheckpoint) : IntentJournal * res unit -> Prop :=
| gc_reserve io n : gate_call j cp (ReserveFinalizedIntent j io n cp)
| gc_reconcile io n floor : gate_call j cp (ReserveAndReconcileWitnessIntent j io n cp floor)
| gc_fence io n expired challenge remote key : gate_call j cp (ReserveAndVerifyWitnessFence j io n cp expired challenge remote key)
| gc_tip io n address : gate_call j cp (ReserveRuntimeVerifiedWitnessTip j io n address cp).

(** A gate leaves the journal alone and fails, or reserves; it succeeds only after
    the reservation did. *)
Lemma gate_call_reserve j cp r :
  gate_call j cp r -> (r.1 = j /\ is_ok r.2 = false) \/
    exists io n, r.1 = (reserve j io n cp).1 /\ (r.2 = Ok tt -> (reserve j io n cp).2 = Ok tt).
Proof.
  assert (forall io n k, (then_gate (reserve j io n cp) k).1 = (reserve j io n cp).1 /\
    ((then_gate (reserve j io n cp) k).2 = Ok tt -> (reserve j io n cp).2 = Ok tt)) as Hthen.
  { intros io n k. unfold then_gate. destruct (reserve j io n cp) as [j' [[]|e]]; done. }
  intros [io n|io n floor|io n expired challenge remote key|io n address].
  - right. by exists io, n.
  - right. exists io, n. apply Hthen.
  - unfold ReserveAndVerifyWitnessFence. destruct (_ || _); [by left|]. right. exists io, n. apply Hthen.
  - unfold ReserveRuntimeVerifiedWitnessTip. destruct (negb _); [by left|]. right. by exists io, n.
Qed.

(** What the journal sees: calls of its gates, closes, and restarts that open the
    file again, with any verifier. *)
Inductive journal_step : IntentJournal -> IntentJournal -> Prop :=
| js_gate j cp r : checkpoint_typed cp -> gate_call j cp r -> journal_step j r.1
| js_close j : journal_step j (Journal_Close j)
| js_restart j io verifier file j' :
    OpenWitnessSigningIntentJournal (Some (fa_file (wj_store j))) io network root false verifier = (file, Ok j') -> journal_step j j'.

Lemma reserve_advance j io n cp :
  (reserve j io n cp).1 = j \/ exists out, advance (wj_store j) io cp = (wj_store (reserve j io n cp).1, out).
Proof.
  unfold reserve. destruct (wj_closed j); [by left|]. destruct (wv_Verify _ _ _) as [[]|e]; [|by left]. right.
  destruct (advance _ _ _) as [store out]. by exists out.
Qed.

Lemma reserve_Ok j io n cp :
  (reserve j io n cp).2 = Ok tt ->
  advance (wj_store j) io cp = (wj_store (reserve j io n cp).1, Ok tt) /\ wv_Verify (wj_verifier j) n cp = Ok tt.
Proof.
  unfold reserve. destruct (wj_closed j); [done|]. destruct (wv_Verify _ _ _) as [[]|e]; [|done].
  by destruct (advance _ _ _) as [store [[]|e]].
Qed.

(** The checkpoint an advance stored is of the store's network and root. *)
Lemma advance_identity s io c s' :
  advance s io c = (s', Ok tt) -> fc_Network c = fa_network s /\ fc_ValidatorRoot c = fa_validatorRoot s.
Proof.
  unfold advance. destruct (_ || negb (is_ok _)) eqn:Eg; [done|]. intros _.
  apply orb_false_iff in Eg as [_ [[] Hval]%negb_false_iff%is_ok_true]. apply fail_if_Ok in Hval. by bool_inv.
Qed.

Lemma open_journal_store file io create verifier file' j :
  OpenWitnessSigningIntentJournal file io network root create verifier = (file', Ok j) ->
  OpenFinalityAnchorStore file io network root create = (file', Ok (wj_store j)).
Proof.
  unfold OpenWitnessSigningIntentJournal. destruct verifier; [|done]. destruct (OpenFinalityAnchorStore _ _ _ _ _) as [f' [s|e]]; [|done].
  cbn. by intros [= -> <-].
Qed.

Lemma journal_step_anchor j j' : journal_step j j' -> rtc (anchor_step network root) (wj_store j) (wj_store j').
Proof.
  intros [? cp r Hc Hg|?|? io v file ? E].
  - destruct (gate_call_reserve _ _ _ Hg) as [[-> _]|(io & n & -> & _)]; [done|].
    destruct (reserve_advance j0 io n cp) as [->|(out & Ha)]; [done|].
    apply rtc_once. by apply (as_advance _ _ _ io cp _ out).
  - unfold Journal_Close. destruct (wj_closed _); [done|]. apply rtc_once. apply as_close.
  - apply open_journal_store in E. apply rtc_once. by apply (as_restart _ _ _ io file).
Qed.

Lemma journal_steps_anchor j j' : rtc journal_step j j' -> rtc (anchor_step network root) (wj_store j) (wj_store j').
Proof. induction 1 as [|j j1 j2 Hs _ IH]; [done|]. etransitivity; [by apply journal_step_anchor|done]. Qed.

(** What a gate that said yes left in the store. *)
Lemma gate_call_Ok j cp r :
  gate_call j cp r -> r.2 = Ok tt ->
  (exists io, advance (wj_store j) io cp = (wj_store r.1, Ok tt)) /\ exists n, wv_Verify (wj_verifier j) n cp = Ok tt.
Proof.
  intros Hg Hok. destruct (gate_call_reserve _ _ _ Hg) as [[_ Hno]|(io & n & -> & Hr)]; [by rewrite Hok in Hno|].
  destruct (reserve_Ok _ _ _ _ (Hr Hok)). eauto.
Qed.

(** C8: a witness is never cleared to sign twice.  From the creation of the journal
    on, through any calls of its gates, failed and torn writes, closes and
    restarts, a checkpoint that a gate clears later is never lower than one cleared
    before, and at the same height it is the same checkpoint; and what is cleared
    was accepted by the verifier of that moment. *)
Theorem witness_intents_never_conflict file verifier j0 j cp r j2 cp' r' :
  OpenWitnessSigningIntentJournal None IoOk network root true verifier = (file, Ok j0) ->
  rtc journal_step j0 j -> checkpoint_typed cp -> gate_call j cp r -> r.2 = Ok tt ->
  rtc journal_step r.1 j2 -> checkpoint_typed cp' -> gate_call j2 cp' r' -> r'.2 = Ok tt ->
  fc_Height cp <= fc_Height cp' /\ (fc_Height cp = fc_Height cp' -> cp = cp') /\
  (exists n, wv_Verify (wj_verifier j) n cp = Ok tt) /\ (exists n, wv_Verify (wj_verifier j2) n cp' = Ok tt).
Proof.
  intros Ho%open_journal_store S0%journal_steps_anchor Hc G Hok S1%journal_steps_anchor Hc' G' Hok'.
  pose proof (created_holds network root Hnz Hrz _ _ Ho) as Ho'.
  destruct (anchor_steps_holds _ _ Hnet Hroot Hnz Hrz _ _ _ _ Ho' S0) as [(l & tail & Hl) _].
  destruct (gate_call_Ok _ _ _ G Hok) as [[io Ha] Hv]. destruct (gate_call_Ok _ _ _ G' Hok') as [[io' Ha'] Hv'].
  destruct (advance_holds _ _ _ _ _ _ _ _ _ Hl Hc Ha) as [(l1 & tail1 & Hl1) _].
  destruct (anchor_steps_holds _ _ Hnet Hroot Hnz Hrz _ _ _ _ Hl1 S1) as [(l2 & tail2 & Hl2) [H1 H2]].
  destruct (advance_holds _ _ _ _ _ _ _ _ _ Hl2 Hc' Ha') as [_ [H3 H4]].
  pose proof (advance_identity _ _ _ _ Ha) as [N1 R1]. pose proof (advance_identity _ _ _ _ Ha') as [N2 R2].
  pose proof (ah_network _ _ _ _ _ Hl) as M1. pose proof (ah_validatorRoot _ _ _ _ _ Hl) as Q1.
  pose proof (ah_network _ _ _ _ _ Hl2) as M2. pose proof (ah_validatorRoot _ _ _ _ _ Hl2) as Q2.
  apply advance_Ok in Ha as [E1 E2]. apply advance_Ok in Ha' as [E3 E4].
  split; [lia|]. split; [|done]. intros Hh. specialize (H2 ltac:(lia)). specialize (H4 ltac:(lia)).
  apply checkpoint_ext; congruence.
Qed.
End intents.

(** ** The floor of several sources *)

(** One call of the floor: the state after it, and the checkpoint it returned. *)
Definition floor_step (f g : MultiFloor) : Prop := exists n, (Multi_AuthenticatedWitnessFloor f n).1 = g.

Definition not_below (last cp : FinalityCheckpoint) : Prop :=
  fc_Network cp = fc_Network last /\ fc_ValidatorRoot cp = fc_ValidatorRoot last /\ fc_Height last <= fc_Height cp /\
  (fc_Height cp = fc_Height last -> cp = last).

#[local] Instance not_below_preorder : PreOrder not_below.
Proof.
  split; [done|]. intros a b c (N1 & R1 & H1 & E1) (N2 & R2 & H2 & E2). split; [congruence|]. split; [congruence|].
  split; [lia|]. intros E. rewrite E2, E1; [done|lia|lia].
Qed.

Lemma agree_Ok n agreed sources cp :
  agree n agreed sources = Ok (Some cp) ->
  (forall a, agreed = Some a -> a = cp) /\ Forall (fun source => source n = Ok cp) sources.
Proof.
  revert agreed. induction sources as [|source sources IH]; intros agreed E; cbn in E.
  - apply Ok_inj in E as ->. split; [by intros a [= ->]|constructor].
  - res_inv. match goal with Ha : agree _ _ _ = _ |- _ => apply IH in Ha as [Hs Hf] end. specialize (Hs _ eq_refl) as ->.
    split; [|by constructor]. intros a ->. bool_inv. done.
Qed.

Lemma floor_call f n g out :
  Multi_AuthenticatedWitnessFloor f n = (g, out) ->
  mf_sources g = mf_sources f /\
  match out with
  | Err _ => g = f
  | Ok cp => mf_last g = Some cp /\ Forall (fun source => source n = Ok cp) (mf_sources f) /\
      (forall last, mf_last f = Some last -> not_below last cp)
  end.
Proof.
  unfold Multi_AuthenticatedWitnessFloor. destruct (mbind _ _) as [cp|e] eqn:E; intros [= <- <-]; [|done].
  split; [done|]. split; [done|]. res_inv.
  match goal with Ha : agree _ _ _ = Ok ?o, Hs : ?o = Some _ |- _ => rewrite Hs in Ha; apply agree_Ok in Ha as [_ Hf] end.
  split; [done|]. intros last Hl. rewrite Hl in *. res_inv. bool_inv. split_and!; try done.
  - by apply Z.ltb_ge.
  - intros Hh. apply checkpoint_ext; try done. rewrite Hh, Z.eqb_refl in *. cbn [andb] in *. by bool_inv.
Qed.

(** The floor of several sources never moves back: what a call returns was
    answered by every source, and is not below what any earlier call returned. *)
Theorem multi_source_floor_monotone f n g cp h m g' cp' :
  Multi_AuthenticatedWitnessFloor f n = (g, Ok cp) -> rtc floor_step g h ->
  Multi_AuthenticatedWitnessFloor h m = (g', Ok cp') ->
  Forall (fun source => source n = Ok cp) (mf_sources f) /\ not_below cp cp'.
Proof.
  intros (_ & Hl & Hf & _)%floor_call Hs (_ & _ & _ & Hlast)%floor_call. split; [done|].
  assert (exists last, mf_last h = Some last /\ not_below cp last) as (last & Hh & Hb).
  { clear Hlast Hf. revert cp Hl. induction Hs as [g|g g1 g2 [k Hk] _ IH]; intros cp Hl; [by exists cp|].
    destruct (Multi_AuthenticatedWitnessFloor g k) as [x [c|e]] eqn:E; cbn in Hk; subst x.
    - apply floor_call in E as (_ & Hc & _ & Hn). destruct (IH _ Hc) as (last & H1 & H2). exists last. split; [done|].
      transitivity c; [by apply Hn|done].
    - apply floor_call in E as (_ & ->). by apply IH. }
  transitivity last; [done|by apply Hlast].
Qed.

(** ** Witnesses that contradict themselves, and a journal *)

Module WitnessExample.
#[local] Existing Instance small_crypto.

(** A signature is the key followed by the message. *)
#[local] Instance toy_ed25519 : Ed25519 := fun pub digest raw => bool_decide (raw = pub ++ digest).

Definition net : bytes := replicate 32 x07.
Definition root : bytes := replicate 32 x09.
Definition key (i : Z) : bytes := be 32 i.
Definition keys : list bytes := key <$> [1; 2; 3].
Definition checkpoint (height h : Z) : FinalityCheckpoint := mkFinalityCheckpoint net root height (be 32 h).

Definition sign (h i : Z) : WitnessSignature :=
  mkSignature (hex (key i)) (match WitnessCheckpointDigest (checkpoint 4 h) with Ok d => hex (key i ++ d) | Err _ => [] end).
Definition envelope (h : Z) : SignedWitnessCheckpoint :=
  mkEnvelope (hex net) (hex root) 4 (hex (be 32 h)) (sign h <$> [1; 2; 3]).

(** Two envelopes, written as one byte each. *)
#[local] Instance toy_json : EnvelopeJSON :=
  {| json_decode data := Some (envelope (be_val data)); json_marshal e := Some (match hex_decode (we_HeaderHash e) with Some b => skipn 31 b | None => [] end) |}.

Lemma equivocates : bool_decide (CheckWitnessQuorumConsistency [x41] [x42] keys net root = Err ErrWitnessEquivocation) = true.
Proof. vm_compute. reflexivity. Qed.

Lemma witness_equivocation_accountable_witness :
  exists a b (both : gset bytes), fc_Height a = fc_Height b /\ fc_HeaderHash a <> fc_HeaderHash b /\ 3 < 3 * Z.of_nat (size both) /\
    forall k, k ∈ both -> exists pub, k = hex pub /\ attests keys a pub /\ attests keys b pub.
Proof.
  destruct (proj1 (witness_equivocation_accountable [x41] [x42] keys net root) (bool_decide_eq_true_1 _ equivocates))
    as (a & b & both & _ & _ & H1 & H2 & _ & H3 & H4).
  exists a, b, both. exact (conj H1 (conj H2 (conj H3 H4))).
Defined.

Definition trusting : WitnessVerifier := mkVerifier 1 (fun _ _ => Ok tt).
Definition created : IntentJournal := mkJournal AnchorExample.fresh trusting false.
Definition first_intent := ReserveFinalizedIntent created IoOk 0 (AnchorExample.checkpoint 3).
Definition torn_intent := ReserveFinalizedIntent first_intent.1 (IoFail 50) 1 (AnchorExample.checkpoint 8).
Definition second_intent :=
  ReserveAndReconcileWitnessIntent first_intent.1 IoOk 1 (AnchorExample.checkpoint 8) (Ok (AnchorExample.checkpoint 8)).

Lemma witness_intents_never_conflict_witness :
  fc_Height (AnchorExample.checkpoint 3) <= fc_Height (AnchorExample.checkpoint 8).
Proof.
  apply (witness_intents_never_conflict AnchorExample.net AnchorExample.root eq_refl eq_refl eq_refl eq_refl
    (Some (anchor_header AnchorExample.net AnchorExample.root)) (Some trusting) created created (AnchorExample.checkpoint 3)
    first_intent first_intent.1 (AnchorExample.checkpoint 8) second_intent).
  - vm_compute. reflexivity.
  - apply rtc_refl.
  - by vm_compute.
  - apply gc_reserve.
  - vm_compute. reflexivity.
  - apply rtc_refl.
  - by vm_compute.
  - apply gc_reconcile.
  - vm_compute. reflexivity.
Defined.
End WitnessExample.
End WitnessProofs.
