(* ===== verification/IdleCapital.v ===== *)
(** * IdleCapital

    Package [internal/v2/economics], the lineage of capital
    ([idle_capital.go]): lots of capital with the height since which they lie
    idle, how they are split among outputs, marked productive, and counted by
    age.  Splitting keeps every age, so that cutting one coin into many changes
    no histogram. *)

From S2P Require Import Prelude GoLib Crypto Types.

Open Scope Z_scope.

Module Idle.

Record CapitalLot := mkLot {
  lot_LineageID : bytes;
  lot_Amount : Z;
  lot_IdleSinceHeight : Z;
}.

#[global] Instance CapitalLot_eq_dec : EqDecision CapitalLot.
Proof. solve_decision. Defined.

Definition Lot_Validate (l : CapitalLot) : res unit :=
  fail_if (IsZero32 (lot_LineageID l) || (lot_Amount l =? 0) || (lot_IdleSinceHeight l =? 0)) ErrIdleCapital.

Definition with_amount (l : CapitalLot) (amount : Z) : CapitalLot := mkLot (lot_LineageID l) amount (lot_IdleSinceHeight l).
Definition with_height (l : CapitalLot) (height : Z) : CapitalLot := mkLot (lot_LineageID l) (lot_Amount l) height.

(** What the code sorts by: lineage, then height; or height, then lineage. *)
Definition lot_key (l : CapitalLot) : bytes * Z := (lot_LineageID l, lot_IdleSinceHeight l).
Definition age_key (l : CapitalLot) : Z * bytes := (lot_IdleSinceHeight l, lot_LineageID l).

Definition total (lots : list CapitalLot) : Z := zsum (lot_Amount <$> lots).

(** The loop of [compactCapitalLots] over the sorted lots; [last] is the last lot
    of [compacted]. *)
Fixpoint merge_lots (last : CapitalLot) (lots : list CapitalLot) : res (list CapitalLot) :=
  match lots with
  | [] => Ok [last]
  | lot :: lots =>
      if bool_decide (lot_LineageID last = lot_LineageID lot) && (lot_IdleSinceHeight last =? lot_IdleSinceHeight lot) then
        fail_if (overflows (lot_Amount last) (lot_Amount lot)) ErrIdleCapital;;
        merge_lots (with_amount last (add64 (lot_Amount last) (lot_Amount lot))) lots
      else
        rest ← merge_lots lot lots;
        Ok (last :: rest)
  end.

Definition compactCapitalLots (lots : list CapitalLot) : res (list CapitalLot) :=
  fail_if (blen lots =? 0) ErrIdleCapital;;
  rfold (fun _ => Lot_Validate) tt lots;;
  match sort_by lot_key lots with
  | [] => Ok []
  | first :: rest => merge_lots first rest
  end.

(** ** Splitting *)

(** The inner loop for one output: the lots it takes, and those that are left, the
    first with the amount [remaining]. *)
Fixpoint take_lots (need : Z) (lots : list CapitalLot) : res (list CapitalLot * list CapitalLot) :=
  match lots with
  | [] => if need =? 0 then Ok ([], []) else Err ErrIdleCapital
  | lot :: rest =>
      if need =? 0 then Ok ([], lots)
      else if need <? lot_Amount lot then
        Ok ([with_amount lot need], with_amount lot (sub64 (lot_Amount lot) need) :: rest)
      else
        '(taken, rest) ← take_lots (sub64 need (lot_Amount lot)) rest;
        Ok (lot :: taken, rest)
  end.

Fixpoint split_outputs (lots : list CapitalLot) (amounts : list Z) : res (list (list CapitalLot) * list CapitalLot) :=
  match amounts with
  | [] => Ok ([], lots)
  | amount :: amounts =>
      '(taken, lots) ← take_lots amount lots;
      '(outs, lots) ← split_outputs lots amounts;
      Ok (taken :: outs, lots)
  end.

Definition SplitCapitalLineage (lots : list CapitalLot) (outputAmounts : list Z) : res (list (list CapitalLot)) :=
  fail_if ((blen lots =? 0) || (blen outputAmounts =? 0)) ErrIdleCapital;;
  canonical ← compactCapitalLots lots;
  rfold (fun _ amount => fail_if (amount =? 0) ErrIdleCapital) tt outputAmounts;;
  fail_if (negb (total canonical =? zsum outputAmounts) || negb (IsUint64 (total canonical))) ErrIdleCapital;;
  '(out, unused) ← split_outputs canonical outputAmounts;
  fail_if (negb (blen unused =? 0)) ErrIdleCapital;;
  Ok out.

(** ** Productive use *)

(** The loop of [MarkProductiveCoverage]: what is left of the target, and the lots. *)
Fixpoint mark_lots (height remaining : Z) (lots : list CapitalLot) : Z * list CapitalLot :=
  match lots with
  | [] => (remaining, [])
  | lot :: lots =>
      if remaining =? 0 then let '(remaining, out) := mark_lots height 0 lots in (remaining, lot :: out)
      else
        let productive := if remaining <? lot_Amount lot then remaining else lot_Amount lot in
        let '(remaining, out) := mark_lots height (sub64 remaining productive) lots in
        (remaining,
         (if productive <? lot_Amount lot then [with_amount lot (sub64 (lot_Amount lot) productive)] else [])
         ++ with_height (with_amount lot productive) height :: out)
  end.

Definition MarkProductiveCoverage (lots : list CapitalLot) (height coverageBps : Z) : res (list CapitalLot) :=
  fail_if ((height =? 0) || (10000 <? coverageBps)) ErrIdleCapital;;
  canonical ← compactCapitalLots lots;
  rfold (fun _ lot => fail_if (height <? lot_IdleSinceHeight lot) ErrIdleCapital) tt canonical;;
  let target := Z.quot (total canonical * coverageBps) 10000 in
  fail_if (negb (IsUint64 target)) ErrIdleCapital;;
  let '(remaining, out) := mark_lots height target (sort_by age_key canonical) in
  fail_if (negb (remaining =? 0)) ErrIdleCapital;;
  compactCapitalLots out.

Record ProductiveCoverageAccumulator := mkCoverage { pc_observedCapital : Z; pc_weightedCoverageBps : Z }.
Record ProductiveCoverageSnapshot := mkCoverageSnapshot { ps_ObservedCapital : Z; ps_ProductiveCoverageBps : Z }.

Definition no_coverage : ProductiveCoverageAccumulator := mkCoverage 0 0.

Definition Coverage_Observe (a : ProductiveCoverageAccumulator) (amount coverageBps : Z) : res ProductiveCoverageAccumulator :=
  fail_if ((amount =? 0) || (10000 <? coverageBps) || overflows (pc_observedCapital a) amount) ErrIdleCapital;;
  Ok (mkCoverage (add64 (pc_observedCapital a) amount) (pc_weightedCoverageBps a + amount * coverageBps)).

Definition Coverage_Snapshot (a : ProductiveCoverageAccumulator) : res ProductiveCoverageSnapshot :=
  fail_if (pc_observedCapital a =? 0) ErrIdleCapital;;
  let value := Z.quot (pc_weightedCoverageBps a) (pc_observedCapital a) in
  fail_if (negb (IsUint64 value) || (10000 <? value)) ErrIdleCapital;;
  Ok (mkCoverageSnapshot (pc_observedCapital a) value).

(** ** Ages *)

Record DormancyBucket := mkBucket { db_MaxAgeBlocks : Z; db_Amount : Z }.
Record DormancyHistogram := mkHistogram { dh_Height : Z; dh_Total : Z; dh_Buckets : list DormancyBucket }.

(** [i > 0 && bound <= upperBounds[i-1]] *)
Fixpoint check_bounds (previous : option Z) (bounds : list Z) : res unit :=
  match bounds with
  | [] => Ok tt
  | bound :: bounds =>
      fail_if ((bound =? 0) || match previous with Some p => bound <=? p | None => false end) ErrIdleCapital;;
      check_bounds (Some bound) bounds
  end.

Definition age_index (age : Z) (bounds : list Z) : nat :=
  sort_Search (length bounds) (fun i => age <=? nth i bounds 0).

Definition count_lot (bounds : list Z) (out : DormancyHistogram) (lot : CapitalLot) : res DormancyHistogram :=
  fail_if (negb (is_ok (Lot_Validate lot)) || (dh_Height out <? lot_IdleSinceHeight lot)) ErrIdleCapital;;
  let index := age_index (sub64 (dh_Height out) (lot_IdleSinceHeight lot)) bounds in
  let bucket := nth index (dh_Buckets out) (mkBucket 0 0) in
  fail_if (overflows (db_Amount bucket) (lot_Amount lot) || overflows (dh_Total out) (lot_Amount lot)) ErrIdleCapital;;
  Ok (mkHistogram (dh_Height out) (add64 (dh_Total out) (lot_Amount lot))
    (<[index := mkBucket (db_MaxAgeBlocks bucket) (add64 (db_Amount bucket) (lot_Amount lot))]> (dh_Buckets out))).

Definition BuildDormancyHistogram (lots : list CapitalLot) (height : Z) (upperBounds : list Z) : res DormancyHistogram :=
  fail_if ((height =? 0) || (blen lots =? 0)) ErrIdleCapital;;
  check_bounds None upperBounds;;
  rfold (count_lot upperBounds)
    (mkHistogram height 0 ((fun bound => mkBucket bound 0) <$> (upperBounds ++ [MaxUint64]))) lots.

(** ** The cost of fragments *)

Record StateCarryingCostPolicy := mkCostPolicy { cp_BaseUnitsPerObject : Z; cp_UnitsPerKiB : Z }.
Record FragmentationScenario := mkScenario { fs_Fragments : Z; fs_Histogram : DormancyHistogram; fs_CarryingCostUnits : Z }.

Definition EstimateStateCarryingCost (objectCount payloadBytes : Z) (policy : StateCarryingCostPolicy) : res Z :=
  fail_if ((objectCount =? 0) || (cp_BaseUnitsPerObject policy =? 0) || (cp_UnitsPerKiB policy =? 0)) ErrIdleCapital;;
  let kilobytes := payloadBytes / 1024 + (if negb (payloadBytes mod 1024 =? 0) then 1 else 0) in
  let cost := objectCount * cp_BaseUnitsPerObject policy + kilobytes * cp_UnitsPerKiB policy in
  fail_if (negb (IsUint64 cost)) ErrIdleCapital;;
  Ok cost.

(** [base] everywhere, and one more for the first [remainder] fragments. *)
Definition fragment_amounts (amount fragments : Z) : list Z :=
  (fun i => amount / fragments + (if i <? amount mod fragments then 1 else 0)) <$> seqZ 0 fragments.

Definition SimulateWalletFragmentation (seed : CapitalLot) (fragments height payloadBytesPerObject : Z) (bounds : list Z)
    (policy : StateCarryingCostPolicy) : res FragmentationScenario :=
  fail_if (negb (is_ok (Lot_Validate seed)) || (fragments =? 0) || (lot_Amount seed <? fragments)) ErrIdleCapital;;
  split ← SplitCapitalLineage [seed] (fragment_amounts (lot_Amount seed) fragments);
  histogram ← BuildDormancyHistogram (concat split) height bounds;
  fail_if (negb (IsUint64 (fragments * payloadBytesPerObject))) ErrIdleCapital;;
  cost ← EstimateStateCarryingCost fragments (fragments * payloadBytesPerObject) policy;
  Ok (mkScenario fragments histogram cost).

(** ** Values

    Two lists of lots stand for the same capital when they have the same value
    under every weighting of lineages and heights. *)

Definition valid (l : CapitalLot) : Prop :=
  u64 (lot_Amount l) /\ u64 (lot_IdleSinceHeight l) /\ arr32 (lot_LineageID l) /\ Lot_Validate l = Ok tt.

Definition typed (l : CapitalLot) : Prop := u64 (lot_Amount l) /\ u64 (lot_IdleSinceHeight l) /\ arr32 (lot_LineageID l).

Lemma Lot_Validate_Ok l :
  Lot_Validate l = Ok tt <-> IsZero32 (lot_LineageID l) = false /\ lot_Amount l <> 0 /\ lot_IdleSinceHeight l <> 0.
Proof.
  unfold Lot_Validate. destruct (IsZero32 _), (Z.eqb_spec (lot_Amount l) 0), (Z.eqb_spec (lot_IdleSinceHeight l) 0);
    split; cbn; try done; intros (? & ? & ?); done.
Qed.

Lemma valid_pos l : valid l -> 0 < lot_Amount l <= MaxUint64 /\ 0 < lot_IdleSinceHeight l.
Proof. unfold valid, u64, MaxUint64. rewrite Lot_Validate_Ok. lia. Qed.

Lemma valid_with_amount l amount : valid l -> 0 < amount <= MaxUint64 -> valid (with_amount l amount).
Proof.
  unfold valid, u64, MaxUint64. rewrite !Lot_Validate_Ok. unfold with_amount. cbn [lot_LineageID lot_Amount lot_IdleSinceHeight].
  intros (? & ? & ? & ? & ? & ?) ?. split_and!; try done; lia.
Qed.

Definition weight : Type := bytes * Z -> Z.

Definition value (w : weight) (lots : list CapitalLot) : Z := zsum ((fun l => w (lot_key l) * lot_Amount l) <$> lots).

Definition same_capital (l1 l2 : list CapitalLot) : Prop := forall w, value w l1 = value w l2.

#[global] Instance same_capital_equiv : Equivalence same_capital.
Proof. split; [done|by intros a b H w|]. intros a b c H1 H2 w. by rewrite H1. Qed.

Lemma value_cons w l lots : value w (l :: lots) = w (lot_key l) * lot_Amount l + value w lots.
Proof. done. Qed.
Lemma value_app w l1 l2 : value w (l1 ++ l2) = value w l1 + value w l2.
Proof. unfold value. by rewrite fmap_app, zsum_app. Qed.
#[global] Instance value_perm w : Proper ((≡ₚ) ==> eq) (value w).
Proof. intros l1 l2 Hp. unfold value. by rewrite Hp. Qed.
Lemma perm_same_capital l1 l2 : l1 ≡ₚ l2 -> same_capital l1 l2.
Proof. intros Hp w. by rewrite Hp. Qed.
Lemma total_value lots : total lots = value (fun _ => 1) lots.
Proof. unfold total, value. f_equal. apply list_fmap_ext. intros i x _. lia. Qed.

Lemma value_nonneg w lots : Forall valid lots -> (forall k, 0 <= w k) -> 0 <= value w lots.
Proof.
  intros Hv Hw. apply zsum_nonneg, Forall_fmap. eapply Forall_impl; [exact Hv|]. intros l Hl%valid_pos. cbn.
  specialize (Hw (lot_key l)). nia.
Qed.

(** The weight that counts one key, or the keys with a property. *)
Definition only (P : bytes * Z -> bool) : weight := fun k => if P k then 1 else 0.
Definition at_key (k : bytes * Z) : weight := only (fun k' => bool_decide (k' = k)).

Lemma only_bound P k : 0 <= only P k <= 1.
Proof. unfold only. destruct (P k); lia. Qed.

Lemma value_mono P w lots : Forall valid lots -> (forall k, only P k <= w k) -> value (only P) lots <= value w lots.
Proof.
  intros Hv Hw. induction Hv as [|l lots Hl _ IH]; [done|]. rewrite !value_cons. apply valid_pos in Hl.
  specialize (Hw (lot_key l)). nia.
Qed.

Lemma value_none P lots : Forall valid lots ->
  value (only P) lots = 0 <-> Forall (fun l => P (lot_key l) = false) lots.
Proof.
  induction 1 as [|l lots Hl Hv IH]; [split; [constructor|done]|]. rewrite value_cons, Forall_cons, <-IH.
  pose proof (value_nonneg (only P) lots Hv (fun k => proj1 (only_bound P k))). apply valid_pos in Hl.
  unfold only at 1. destruct (P (lot_key l)); split; try lia; intros [? ?]; try done; lia.
Qed.

Lemma at_key_absent k lots : k ∉ (lot_key <$> lots) -> value (at_key k) lots = 0.
Proof.
  induction lots as [|l lots IH]; intros Hk; [done|]. cbn in Hk. apply not_elem_of_cons in Hk as [H1 H2].
  rewrite value_cons, IH by done. unfold at_key, only. by rewrite bool_decide_eq_false_2 by congruence.
Qed.

Lemma at_key_unique l lots : NoDup (lot_key <$> lots) -> l ∈ lots -> value (at_key (lot_key l)) lots = lot_Amount l.
Proof.
  induction lots as [|x lots IH]; intros Hn Hin; [by apply not_elem_of_nil in Hin|]. cbn in Hn. apply NoDup_cons in Hn as [H1 H2].
  rewrite value_cons. apply elem_of_cons in Hin as [->|Hin].
  - rewrite at_key_absent by done. unfold at_key, only. rewrite bool_decide_eq_true_2 by done. lia.
  - rewrite IH by done. unfold at_key, only. rewrite bool_decide_eq_false_2; [lia|]. intros E. apply H1.
    rewrite E. by apply list_elem_of_fmap_2.
Qed.

Lemma same_capital_nil lots : Forall valid lots -> same_capital [] lots -> lots = [].
Proof.
  intros Hv Hs. destruct Hv as [|l lots Hl Hv]; [done|]. specialize (Hs (fun _ => 1)). rewrite value_cons in Hs.
  pose proof (value_nonneg (fun _ => 1) lots Hv ltac:(lia)). apply valid_pos in Hl. unfold value at 1 in Hs. cbn in Hs. lia.
Qed.

(** ** The canonical form *)

Record canonical (lots : list CapitalLot) : Prop := {
  cn_sorted : StronglySorted kle (lot_key <$> lots);
  cn_distinct : NoDup (lot_key <$> lots);
  cn_valid : Forall valid lots;
}.

Lemma sorted_keys {A K} `{KeyOrder K} (key : A -> K) l : StronglySorted (key_le key) l <-> StronglySorted kle (key <$> l).
Proof.
  induction l as [|x l IH]; [split; constructor|]. cbn. split; intros Hs; apply StronglySorted_inv in Hs as [H1 H2]; constructor.
  - by apply IH.
  - rewrite Forall_fmap. exact H2.
  - by apply IH.
  - rewrite Forall_fmap in H2. exact H2.
Qed.

Lemma canonical_unique l1 l2 : canonical l1 -> canonical l2 -> same_capital l1 l2 -> l1 = l2.
Proof.
  intros [S1 D1 V1] [S2 D2 V2] Hs. apply (sorted_unique lot_key); [done|by apply sorted_keys..|].
  assert (forall a b, NoDup (lot_key <$> a) -> NoDup (lot_key <$> b) -> Forall valid a -> same_capital a b ->
    forall l, l ∈ a -> l ∈ b) as Hincl.
  { intros a b Da Db Va Hab l Hl. pose proof (at_key_unique l a Da Hl) as Ha. rewrite Hab in Ha.
    rewrite Forall_forall in Va. apply Va, valid_pos in Hl.
    destruct (decide (lot_key l ∈ lot_key <$> b)) as [Hin|Hnot]; [|rewrite at_key_absent in Ha by done; lia].
    apply list_elem_of_fmap in Hin as (y & Hk & Hy). rewrite Hk, (at_key_unique y b Db Hy) in Ha.
    enough (l = y) by congruence. destruct l, y. unfold lot_key in Hk. cbn in *. congruence. }
  apply NoDup_Permutation; [by eapply NoDup_fmap_1..|]. intros l. split; apply Hincl; done || by intros w.
Qed.

Lemma merge_key last lot :
  bool_decide (lot_LineageID last = lot_LineageID lot) && (lot_IdleSinceHeight last =? lot_IdleSinceHeight lot) =
  bool_decide (lot_key last = lot_key lot).
Proof.
  unfold lot_key. destruct (Z.eqb_spec (lot_IdleSinceHeight last) (lot_IdleSinceHeight lot)) as [E|E].
  - rewrite E, andb_true_r. apply bool_decide_ext. split; congruence.
  - rewrite andb_false_r. symmetry. apply bool_decide_eq_false_2. congruence.
Qed.

Lemma merged_valid last lot :
  valid last -> valid lot -> overflows (lot_Amount last) (lot_Amount lot) = false ->
  add64 (lot_Amount last) (lot_Amount lot) = lot_Amount last + lot_Amount lot /\
  valid (with_amount last (add64 (lot_Amount last) (lot_Amount lot))).
Proof.
  intros Hl1 Hl2 Ho. pose proof (valid_pos _ Hl1). pose proof (valid_pos _ Hl2).
  apply add64_small in Ho as [Hs Hu]; [|by destruct Hl1|lia]. rewrite Hs. split; [done|].
  apply valid_with_amount; [done|]. unfold u64, MaxUint64 in *. lia.
Qed.

Lemma merge_lots_Ok lots : forall last out,
  StronglySorted kle (lot_key <$> last :: lots) -> Forall valid (last :: lots) -> merge_lots last lots = Ok out ->
  canonical out /\ same_capital (last :: lots) out /\
  (exists amount rest, out = with_amount last amount :: rest) /\ (forall k, k ∈ lot_key <$> out -> k ∈ lot_key <$> last :: lots).
Proof.
  induction lots as [|lot lots IH]; intros last out Hs Hv E; cbn [merge_lots] in E.
  - apply Ok_inj in E as <-. split_and!; [split; [done|apply NoDup_singleton|done]|done| |done].
    exists (lot_Amount last), []. by destruct last.
  - rewrite merge_key in E. apply Forall_cons in Hv as [V1 Hv]. pose proof (Forall_cons_1 _ _ _ Hv) as [V2 V3].
    cbn in Hs. apply StronglySorted_inv in Hs as [Hs Hall]. case_bool_decide as Hk.
    + apply bind_Ok in E as ([] & Ho%fail_if_Ok & E). destruct (merged_valid _ _ V1 V2 Ho) as [Hsum Hmv].
      apply IH in E as (C & Hc & (amount & rest & ->) & Hkeys); [| |by constructor].
      * split_and!; [done| |by exists amount, rest|].
        -- intros w. rewrite <-Hc, !value_cons. unfold with_amount at 1 2. cbn [lot_Amount]. rewrite Hsum.
           change (lot_key (mkLot _ _ _)) with (lot_key last). rewrite <-Hk. lia.
        -- intros k Hin. apply Hkeys in Hin. cbn in Hin |- *. set_solver.
      * cbn. apply StronglySorted_inv in Hs as [Hs Hs']. constructor; [done|]. by apply Forall_cons in Hall as [_ ?].
    + apply bind_Ok in E as (rest & E & Hout). apply Ok_inj in Hout as <-. apply IH in E as (C & Hc & Hhd & Hkeys); [|done|done].
      assert (lot_key last ∉ lot_key <$> rest) as Hfresh.
      { intros Hin%Hkeys. cbn in Hin. apply elem_of_cons in Hin as [?|Hin]; [done|]. apply StronglySorted_inv in Hs as [_ Hs'].
        rewrite Forall_forall in Hs'. apply Hk. apply (anti_symm kle).
        - apply Forall_cons in Hall as [? _]. done.
        - by apply Hs'. }
      destruct C as [C1 C2 C3]. split_and!.
      * split; [|by constructor|by constructor]. cbn. constructor; [done|]. rewrite Forall_forall in Hall |- *.
        intros k Hin. by apply Hall, Hkeys.
      * intros w. by rewrite !value_cons, <-Hc.
      * exists (lot_Amount last), rest. by destruct last.
      * intros k Hin. cbn in Hin |- *. apply elem_of_cons in Hin as [->|Hin]; [left|]. right. by apply Hkeys.
Qed.

Lemma merge_lots_succeeds lots : forall last,
  Forall valid (last :: lots) -> (forall k, value (at_key k) (last :: lots) <= MaxUint64) -> is_ok (merge_lots last lots) = true.
Proof.
  induction lots as [|lot lots IH]; intros last Hv Hb; [done|]. cbn [merge_lots]. rewrite merge_key.
  apply Forall_cons in Hv as [V1 Hv]. pose proof (Forall_cons_1 _ _ _ Hv) as [V2 V3].
  pose proof (valid_pos _ V1). pose proof (valid_pos _ V2).
  assert (forall k, 0 <= value (at_key k) lots) as Hnn by (intros k; apply value_nonneg; [done|intros ?; apply only_bound]).
  case_bool_decide as Hk.
  - assert (overflows (lot_Amount last) (lot_Amount lot) = false) as Ho.
    { specialize (Hb (lot_key lot)). specialize (Hnn (lot_key lot)). rewrite !value_cons, Hk in Hb.
      unfold at_key at 1 2, only in Hb. rewrite bool_decide_eq_true_2 in Hb by done.
      rewrite overflows_spec by (by destruct V1). apply negb_false_iff, Z.leb_le. lia. }
    rewrite Ho. cbn [fail_if mbind res_bind]. destruct (merged_valid _ _ V1 V2 Ho) as [Hsum Hmv]. apply IH; [by constructor|].
    intros k. specialize (Hb k). rewrite !value_cons in *. unfold with_amount. cbn [lot_Amount].
    change (lot_key (mkLot _ _ _)) with (lot_key last). rewrite Hsum. rewrite <-Hk in Hb. lia.
  - assert (is_ok (merge_lots lot lots) = true) as [out ->]%is_ok_true; [|done]. apply IH; [done|]. intros k.
    specialize (Hb k). rewrite value_cons in Hb. pose proof (only_bound (fun k' => bool_decide (k' = k)) (lot_key last)).
    unfold at_key in *. nia.
Qed.

Lemma typed_valid lots : Forall typed lots -> Forall (fun l => Lot_Validate l = Ok tt) lots -> Forall valid lots.
Proof. intros Ht Hv. eapply Forall_impl; [apply Forall_and; exact (conj Ht Hv)|]. intros l [(? & ? & ?) ?]. done. Qed.

Lemma valid_validates lots : Forall valid lots -> rfold (fun _ => Lot_Validate) tt lots = Ok tt.
Proof. intros Hv. apply rfold_unit_intro. eapply Forall_impl; [exact Hv|]. by intros l (_ & _ & _ & ?). Qed.

(** Compaction succeeds exactly when a canonical form exists, and returns it: the
    order of the lots and the sorting algorithm do not matter. *)
Lemma compact_iff lots c : Forall typed lots ->
  compactCapitalLots lots = Ok c <-> lots <> [] /\ Forall valid lots /\ canonical c /\ same_capital lots c.
Proof.
  intros Ht. unfold compactCapitalLots. split.
  - intros E. apply bind_Ok in E as ([] & Hn%fail_if_Ok & E). apply bind_Ok in E as ([] & Hv%rfold_unit_Forall & E).
    apply typed_valid in Hv; [|done]. split; [by intros ->|]. split; [done|].
    pose proof (sort_by_perm lot_key lots) as Hp. pose proof (proj1 (sorted_keys _ _) (sort_by_sorted lot_key lots)) as Hs.
    destruct (sort_by lot_key lots) as [|first rest]; [apply Permutation_nil_l in Hp; by subst|].
    apply merge_lots_Ok in E as (C & Hc & _ & _); [|done|by rewrite Hp]. split; [done|]. intros w. by rewrite <-Hc, Hp.
  - intros (Hn & Hv & C & Hs). rewrite (proj2 (Z.eqb_neq _ 0)) by (destruct lots; [done|unfold blen; cbn; lia]).
    cbn [fail_if mbind res_bind]. rewrite valid_validates by done. cbn [mbind res_bind].
    pose proof (sort_by_perm lot_key lots) as Hp. pose proof (proj1 (sorted_keys _ _) (sort_by_sorted lot_key lots)) as Hsort.
    destruct (sort_by lot_key lots) as [|first rest]; [apply Permutation_nil_l in Hp; by subst|].
    assert (is_ok (merge_lots first rest) = true) as [out E]%is_ok_true.
    { apply merge_lots_succeeds; [by rewrite Hp|]. intros k. rewrite Hp, (Hs (at_key k)).
      destruct (decide (k ∈ lot_key <$> c)) as [(l & -> & Hl)%list_elem_of_fmap|Hnot]; [|by rewrite at_key_absent].
      rewrite at_key_unique by (done || apply C). destruct C as [_ _ Cv]. rewrite Forall_forall in Cv. apply Cv, valid_pos in Hl. lia. }
    rewrite E. f_equal. apply merge_lots_Ok in E as (C' & Hc & _ & _); [|done|by rewrite Hp].
    apply canonical_unique; [done|done|]. intros w. by rewrite <-Hc, <-(Hs w), Hp.
Qed.

Lemma compact_typed lots c : compactCapitalLots lots = Ok c -> Forall typed lots -> Forall typed c.
Proof.
  intros E Ht. apply compact_iff in E as (_ & _ & [_ _ Cv] & _); [|done]. eapply Forall_impl; [exact Cv|]. by intros l (? & ? & ? & _).
Qed.

Lemma compact_canonical c : canonical c -> c <> [] -> compactCapitalLots c = Ok c.
Proof.
  intros C Hn. apply compact_iff; [|split_and!; [done|apply C|done|done]].
  destruct C as [_ _ Cv]. eapply Forall_impl; [exact Cv|]. by intros l (? & ? & ? & _).
Qed.

Lemma compact_error lots e : compactCapitalLots lots = Err e -> e = ErrIdleCapital.
Proof.
  assert (forall l last e, merge_lots last l = Err e -> e = ErrIdleCapital) as Hm.
  { induction l as [|lot l IH]; intros last e'; cbn [merge_lots]; [done|]. destruct (_ && _).
    - destruct (overflows _ _); cbn; [by intros [= <-]|apply IH].
    - destruct (merge_lots lot l) eqn:E; cbn; [done|]. intros [= <-]. by apply (IH lot). }
  assert (forall l e, rfold (fun _ => Lot_Validate) tt l = Err e -> e = ErrIdleCapital) as Hv.
  { induction l as [|lot l IH]; intros e'; [done|]. cbn [rfold]. destruct (Lot_Validate lot) as [[]|e1] eqn:E; cbn.
    - apply IH.
    - intros [= <-]. unfold Lot_Validate, fail_if in E. destruct (_ || _); [by injection E|done]. }
  unfold compactCapitalLots. destruct (blen lots =? 0); cbn; [by intros [= <-]|]. destruct (rfold _ _ _) as [[]|e'] eqn:E; cbn.
  - destruct (sort_by _ _); [done|apply Hm].
  - intros [= <-]. by apply (Hv lots).
Qed.

(** The same capital compacts to the same lots, or fails the same way. *)
Lemma compact_same l1 l2 :
  Forall valid l1 -> Forall valid l2 -> same_capital l1 l2 -> compactCapitalLots l1 = compactCapitalLots l2.
Proof.
  intros V1 V2 Hs. assert (forall a b, Forall valid a -> Forall valid b -> same_capital a b -> forall c,
    compactCapitalLots a = Ok c -> compactCapitalLots b = Ok c) as Hdir.
  { intros a b Va Vb Hab c E. apply compact_iff in E as (Hn & _ & C & Hc); [|by eapply Forall_impl; [exact Va|intros l (? & ? & ? & _)]].
    apply compact_iff; [by eapply Forall_impl; [exact Vb|intros l (? & ? & ? & _)]|]. split_and!; try done.
    - intros ->. apply Hn. apply same_capital_nil; [done|by symmetry].
    - intros w. by rewrite <-Hc, Hab. }
  destruct (compactCapitalLots l1) as [c|e] eqn:E1.
  - symmetry. by apply (Hdir l1).
  - destruct (compactCapitalLots l2) as [c|e'] eqn:E2; [|by rewrite (compact_error _ _ E1), (compact_error _ _ E2)].
    rewrite (Hdir l2 l1 V2 V1 ltac:(by symmetry) c E2) in E1. done.
Qed.

(** ** Splitting keeps the capital *)

Lemma sub64_small a b : 0 <= b <= a -> a <= MaxUint64 -> sub64 a b = a - b.
Proof. unfold sub64, MaxUint64. intros. apply Z.mod_small. lia. Qed.

Lemma take_lots_Ok lots : forall need taken rest,
  canonical lots -> 0 <= need <= MaxUint64 -> take_lots need lots = Ok (taken, rest) ->
  canonical taken /\ canonical rest /\ total taken = need /\ forall w, value w taken + value w rest = value w lots.
Proof.
  induction lots as [|lot lots IH]; intros need taken rest C Hn E; cbn [take_lots] in E.
  - destruct (Z.eqb_spec need 0); [|done]. apply Ok_inj in E. injection E as <- <-. by subst.
  - destruct C as [C1 C2 C3]. cbn in C1, C2. apply StronglySorted_inv in C1 as [S1 S2]. apply NoDup_cons in C2 as [N1 N2].
    apply Forall_cons in C3 as [V1 V2]. pose proof (valid_pos _ V1) as Hpos.
    destruct (Z.eqb_spec need 0) as [->|Hn0]; [apply Ok_inj in E; injection E as <- <-; split_and!; try done|].
    { split; [constructor|constructor|constructor]. }
    { split; [by constructor|by constructor|by constructor]. }
    destruct (Z.ltb_spec need (lot_Amount lot)) as [Hlt|Hge].
    + apply Ok_inj in E. injection E as <- <-. rewrite sub64_small by lia.
      assert (valid (with_amount lot need)) by (apply valid_with_amount; [done|lia]).
      assert (valid (with_amount lot (lot_Amount lot - need))) by (apply valid_with_amount; [done|lia]).
      split_and!.
      * split; [cbn; repeat constructor|cbn; apply NoDup_singleton|by apply Forall_singleton].
      * split; [by constructor|by constructor|by constructor].
      * cbn. lia.
      * intros w. rewrite !value_cons. change (lot_key (with_amount lot _)) with (lot_key lot). unfold with_amount. cbn [lot_Amount].
        unfold value at 1. cbn. lia.
    + rewrite sub64_small in E by lia.
      apply bind_Ok in E as ([t r] & E & Hout). apply Ok_inj in Hout. injection Hout as <- <-.
      pose proof E as E'. apply IH in E as (T & R & Ht & Hv); [|by split|lia]. split_and!; [|done| |].
      * destruct T as [T1 T2 T3].
        assert (forall k, k ∈ lot_key <$> t -> k ∈ lot_key <$> lots) as Hkeys.
        { intros k Hk. destruct (decide (k ∈ lot_key <$> lots)) as [|Hnot]; [done|]. exfalso.
          apply list_elem_of_fmap in Hk as (l & -> & Hl). specialize (Hv (at_key (lot_key l))).
          rewrite (at_key_absent _ lots), (at_key_unique l t) in Hv by done.
          pose proof (value_nonneg (at_key (lot_key l)) r (cn_valid _ R) (fun k => proj1 (only_bound _ k))).
          rewrite Forall_forall in T3. apply T3, valid_pos in Hl. lia. }
        split; cbn; [constructor; [done|]|constructor; [|done]|by constructor].
        -- rewrite Forall_forall in S2 |- *. intros k Hk. by apply S2, Hkeys.
        -- intros Hk. by apply N1, Hkeys.
      * unfold total in *. cbn. fold (zsum (lot_Amount <$> t)). lia.
      * intros w. rewrite !value_cons. specialize (Hv w). lia.
Qed.

Lemma take_lots_succeeds lots : forall need,
  Forall valid lots -> 0 <= need <= MaxUint64 -> need <= total lots -> is_ok (take_lots need lots) = true.
Proof.
  induction lots as [|lot lots IH]; intros need Hv Hn Ht; cbn [take_lots].
  - unfold total in Ht. cbn in Ht. by replace need with 0 by lia.
  - apply Forall_cons in Hv as [V1 V2]. pose proof (valid_pos _ V1). destruct (Z.eqb_spec need 0); [done|].
    destruct (Z.ltb_spec need (lot_Amount lot)); [done|]. unfold total in Ht. cbn in Ht. fold (zsum (lot_Amount <$> lots)) in Ht.
    rewrite sub64_small by lia.
    assert (is_ok (take_lots (need - lot_Amount lot) lots) = true) as [[t r] ->]%is_ok_true; [|done].
    apply IH; [done|lia|]. unfold total. lia.
Qed.

Lemma total_nonneg lots : Forall valid lots -> 0 <= total lots.
Proof. intros Hv. rewrite total_value. apply value_nonneg; [done|lia]. Qed.

Lemma lots_total_cons l lots : total (l :: lots) = lot_Amount l + total lots.
Proof. done. Qed.

Lemma split_outputs_Ok amounts : forall lots outs rest,
  canonical lots -> Forall (fun a => 0 < a <= MaxUint64) amounts -> split_outputs lots amounts = Ok (outs, rest) ->
  Forall canonical outs /\ canonical rest /\ total <$> outs = amounts /\ Forall (fun out => out <> []) outs /\
  forall w, value w (concat outs) + value w rest = value w lots.
Proof.
  induction amounts as [|amount amounts IH]; intros lots outs rest C Ha E; cbn [split_outputs] in E.
  - apply Ok_inj in E. injection E as <- <-. done.
  - apply Forall_cons in Ha as [Ha Has]. apply bind_Ok in E as ([taken left] & Et & E). apply bind_Ok in E as ([os r] & Es & E).
    apply Ok_inj in E. injection E as <- <-. apply take_lots_Ok in Et as (T & L & Ht & Hv); [|done|lia].
    apply IH in Es as (O & R & Hts & Hne & Hvs); [|done|done]. split_and!; [by constructor|done|cbn; by rewrite Ht, Hts| |].
    + constructor; [|done]. intros ->. unfold total in Ht. cbn in Ht. lia.
    + intros w. cbn [concat]. rewrite value_app. specialize (Hv w). specialize (Hvs w). lia.
Qed.

Lemma split_outputs_succeeds amounts : forall lots,
  canonical lots -> Forall (fun a => 0 < a <= MaxUint64) amounts -> zsum amounts <= total lots ->
  is_ok (split_outputs lots amounts) = true.
Proof.
  induction amounts as [|amount amounts IH]; intros lots C Ha Ht; [done|]. cbn [split_outputs]. rewrite zsum_cons in Ht.
  apply Forall_cons in Ha as [Ha Has].
  assert (0 <= zsum amounts) by (apply zsum_nonneg; eapply Forall_impl; [exact Has|cbn; lia]).
  assert (is_ok (take_lots amount lots) = true) as [[taken left] Et]%is_ok_true by (apply take_lots_succeeds; [apply C|lia|lia]).
  rewrite Et. cbn [mbind res_bind]. apply take_lots_Ok in Et as (T & L & Htk & Hv); [|done|lia].
  assert (is_ok (split_outputs left amounts) = true) as [[os r] ->]%is_ok_true; [|done].
  apply IH; [done|done|]. specialize (Hv (fun _ => 1)). rewrite <-!total_value in Hv. lia.
Qed.

Lemma split_Ok lots amounts outs :
  Forall typed lots -> Forall (fun a => 0 <= a <= MaxUint64) amounts -> SplitCapitalLineage lots amounts = Ok outs ->
  Forall valid lots /\ Forall canonical outs /\ Forall (fun out => out <> []) outs /\ total <$> outs = amounts /\
  same_capital lots (concat outs).
Proof.
  intros Ht Ha E. unfold SplitCapitalLineage in E. apply bind_Ok in E as ([] & _ & E). apply bind_Ok in E as (c & Hc & E).
  apply bind_Ok in E as ([] & Hz%rfold_unit_Forall & E). apply bind_Ok in E as ([] & _ & E).
  apply bind_Ok in E as ([out unused] & Es & E). apply bind_Ok in E as ([] & Hu%fail_if_Ok & E). apply Ok_inj in E as <-.
  apply compact_iff in Hc as (_ & Hv & C & Hs); [|done].
  apply split_outputs_Ok in Es as (O & R & Hts & Hne & Hvs); [|done|].
  - split_and!; try done. intros w. rewrite Hs, <-Hvs. destruct unused; [|done]. change (value w []) with 0. lia.
  - eapply Forall_impl; [apply Forall_and; exact (conj Ha Hz)|]. cbn. intros a [? H%fail_if_Ok%Z.eqb_neq]. lia.
Qed.

(** Splitting succeeds whenever the amounts are positive and add up. *)
Lemma split_succeeds lots amounts :
  Forall valid lots -> lots <> [] -> amounts <> [] -> Forall (fun a => 0 < a) amounts -> total lots = zsum amounts ->
  total lots <= MaxUint64 -> is_ok (SplitCapitalLineage lots amounts) = true.
Proof.
  intros Hv Hn Ha Hp Hs Hm. unfold SplitCapitalLineage, blen.
  destruct lots as [|l lots]; [done|]. destruct amounts as [|a amounts]; [done|]. cbn [length orb Z.eqb Z.of_nat fail_if mbind res_bind].
  assert (Forall typed (l :: lots)) as Ht by (eapply Forall_impl; [exact Hv|]; by intros x (? & ? & ? & _)).
  assert (is_ok (compactCapitalLots (l :: lots)) = true) as [c Hc]%is_ok_true.
  { unfold compactCapitalLots, blen. cbn [length Z.eqb Z.of_nat fail_if mbind res_bind]. rewrite valid_validates by done. cbn [mbind res_bind].
    pose proof (sort_by_perm lot_key (l :: lots)) as Hpm. destruct (sort_by lot_key (l :: lots)) as [|f r]; [done|].
    apply merge_lots_succeeds; [by rewrite Hpm|]. intros k. rewrite Hpm. etrans; [|exact Hm]. rewrite total_value. apply value_mono; [done|].
    intros k'. apply only_bound. }
  rewrite Hc. cbn [mbind res_bind]. apply compact_iff in Hc as (_ & _ & C & Hsc); [|done].
  assert (total c = total (l :: lots)) as Htot by (rewrite !total_value; by rewrite <-Hsc).
  rewrite rfold_unit_intro; [|eapply Forall_impl; [exact Hp|]; cbn; intros x Hx; by rewrite (proj2 (Z.eqb_neq x 0)) by lia].
  cbn [mbind res_bind]. rewrite Htot, Hs, Z.eqb_refl. pose proof (total_nonneg _ Hv).
  assert (IsUint64 (zsum (a :: amounts)) = true) as -> by (apply andb_true_iff; split; apply Z.leb_le; lia). cbn [negb orb fail_if mbind res_bind].
  assert (Forall (fun x => 0 < x <= MaxUint64) (a :: amounts)) as Hb.
  { assert (forall (b : list Z), Forall (fun x => 0 < x) b -> zsum b <= MaxUint64 -> Forall (fun x => 0 < x <= MaxUint64) b) as Hg.
    { induction 1 as [|x b Hx Hb IH]; intros Hz; constructor; rewrite zsum_cons in Hz.
      - assert (0 <= zsum b) by (apply zsum_nonneg; eapply Forall_impl; [exact Hb|cbn; lia]). lia.
      - apply IH. lia. }
    apply Hg; [done|lia]. }
  assert (is_ok (split_outputs c (a :: amounts)) = true) as [[outs rest] Es]%is_ok_true by (apply split_outputs_succeeds; [done|done|lia]).
  rewrite Es. cbn [mbind res_bind]. apply split_outputs_Ok in Es as (_ & R & Hts & _ & Hvs); [|done|done].
  assert (rest = []) as ->; [|done]. apply same_capital_nil; [apply R|].
  assert (total rest = 0) as Hz0.
  { specialize (Hvs (fun _ => 1)). rewrite <-!total_value in Hvs. assert (total (concat outs) = zsum (total <$> outs)) as Hco.
    { clear. induction outs as [|o outs IH]; [done|]. cbn [concat fmap list_fmap]. rewrite zsum_cons, <-IH, !total_value. apply value_app. }
    rewrite Hco, Hts in Hvs. lia. }
  destruct rest as [|x rest]; [done|]. exfalso. destruct R as [_ _ Rv]. apply Forall_cons in Rv as [Rx Rv].
  rewrite lots_total_cons in Hz0. pose proof (total_nonneg _ Rv). apply valid_pos in Rx. lia.
Qed.

(** ** The histogram sees only the capital *)

Lemma search_loop_bound fuel f : forall i j, (i <= j)%nat -> (search_loop fuel f i j <= j)%nat.
Proof.
  induction fuel as [|fuel IH]; intros i j Hij; cbn [search_loop]; [lia|].
  destruct (Nat.ltb_spec i j) as [Hlt|]; [|lia].
  pose proof (Nat.Div0.div_le_upper_bound (i + j) 2 j ltac:(lia)). pose proof (Nat.Div0.div_lt_upper_bound (i + j) 2 j ltac:(lia)).
  destruct (negb _); [apply IH; lia|]. etrans; [apply IH|]; pose proof (Nat.div_le_lower_bound (i + j) 2 i ltac:(lia) ltac:(lia)); lia.
Qed.

Section histogram.
Context (height : Z) (bounds : list Z).

Definition in_bucket (i : nat) : weight := only (fun k => Nat.eqb (age_index (sub64 height k.2) bounds) i).

Definition histogram (lots : list CapitalLot) : DormancyHistogram :=
  mkHistogram height (total lots) (imap (fun i bound => mkBucket bound (value (in_bucket i) lots)) (bounds ++ [MaxUint64])).

Lemma age_index_bound age : (age_index age bounds < length (bounds ++ [MaxUint64]))%nat.
Proof. rewrite length_app. cbn. pose proof (search_loop_bound (length bounds) (fun i => age <=? nth i bounds 0) 0 (length bounds)). unfold age_index, sort_Search. lia. Qed.

Lemma histogram_nil : histogram [] = mkHistogram height 0 ((fun bound => mkBucket bound 0) <$> (bounds ++ [MaxUint64])).
Proof. unfold histogram. f_equal. apply list_eq. intros i. rewrite list_lookup_imap, list_lookup_fmap. done. Qed.

Lemma bucket_le i lots : Forall valid lots -> value (in_bucket i) lots <= total lots.
Proof. intros Hv. rewrite total_value. apply value_mono; [done|]. intros k. apply only_bound. Qed.

Lemma total_snoc lots lot : total (lots ++ [lot]) = total lots + lot_Amount lot.
Proof. rewrite !total_value, value_app. cbn. lia. Qed.

Lemma count_lot_step done lot :
  Forall valid done -> valid lot -> total done <= MaxUint64 ->
  count_lot bounds (histogram done) lot =
  if (lot_IdleSinceHeight lot <=? height) && (total (done ++ [lot]) <=? MaxUint64) then Ok (histogram (done ++ [lot])) else Err ErrIdleCapital.
Proof.
  intros Hd Hl Ht. pose proof (valid_pos _ Hl) as Hp. pose proof (total_nonneg _ Hd). unfold count_lot.
  assert (Lot_Validate lot = Ok tt) as -> by apply Hl. cbn [is_ok negb orb dh_Height histogram].
  rewrite Z.ltb_antisym. destruct (Z.leb_spec (lot_IdleSinceHeight lot) height); [|done]. cbn [negb fail_if mbind res_bind andb].
  set (index := age_index _ _). pose proof (age_index_bound (sub64 height (lot_IdleSinceHeight lot))) as Hi. fold index in Hi.
  destruct (lookup_lt_is_Some_2 _ _ Hi) as [bound Hb].
  assert (nth index (dh_Buckets (histogram done)) (mkBucket 0 0) = mkBucket bound (value (in_bucket index) done)) as Hn.
  { apply nth_lookup_Some. cbn [histogram dh_Buckets]. by rewrite list_lookup_imap, Hb. }
  rewrite Hn. cbn [db_Amount db_MaxAgeBlocks histogram dh_Total].
  pose proof (bucket_le index _ Hd). pose proof (value_nonneg (in_bucket index) done Hd (fun k => proj1 (only_bound _ k))).
  rewrite !overflows_spec by (unfold u64, MaxUint64 in *; lia). rewrite total_snoc.
  destruct (Z.leb_spec (total done + lot_Amount lot) MaxUint64).
  - rewrite (proj2 (Z.leb_le (value (in_bucket index) done + _) _)) by lia. cbn [negb orb fail_if mbind res_bind].
    unfold add64. rewrite !Z.mod_small by (unfold MaxUint64 in *; lia). unfold histogram. rewrite total_snoc. f_equal. f_equal. cbn [dh_Buckets].
    apply list_eq. intros i. rewrite list_lookup_imap. destruct (decide (i = index)) as [->|Hne].
    + rewrite list_lookup_insert_eq by (by rewrite length_imap). rewrite Hb. cbn. rewrite value_app. cbn. do 2 f_equal.
      unfold in_bucket at 3, only. cbn [lot_key snd]. fold index. rewrite Nat.eqb_refl. lia.
    + rewrite list_lookup_insert_ne, list_lookup_imap by done. destruct ((bounds ++ _) !! i); [|done]. cbn. rewrite value_app. cbn.
      unfold in_bucket at 3, only. cbn [lot_key snd]. fold index. rewrite (proj2 (Nat.eqb_neq index i)) by done. do 2 f_equal. lia.
  - by rewrite orb_true_r.
Qed.

Lemma count_lots lots : forall done,
  Forall valid done -> Forall valid lots -> total done <= MaxUint64 ->
  rfold (count_lot bounds) (histogram done) lots =
  if forallb (fun l => lot_IdleSinceHeight l <=? height) lots && (total (done ++ lots) <=? MaxUint64)
  then Ok (histogram (done ++ lots)) else Err ErrIdleCapital.
Proof.
  induction lots as [|lot lots IH]; intros done Hd Hv Ht; cbn [rfold forallb].
  - rewrite app_nil_r. by rewrite (proj2 (Z.leb_le _ _)).
  - apply Forall_cons in Hv as [V1 V2]. rewrite count_lot_step by done. pose proof (valid_pos _ V1).
    assert (total (done ++ lot :: lots) = total (done ++ [lot]) + total lots) as Htot.
    { rewrite !total_value, !value_app, value_cons. cbn. lia. }
    pose proof (total_nonneg _ V2).
    destruct (lot_IdleSinceHeight lot <=? height); [|done]. cbn [andb].
    destruct (Z.leb_spec (total (done ++ [lot])) MaxUint64); cbn [mbind res_bind].
    + rewrite IH; [by rewrite <-app_assoc|apply Forall_app; split; [done|by apply Forall_singleton]|done|done].
    + rewrite Htot. rewrite (proj2 (Z.leb_gt _ _)) by lia. by rewrite andb_false_r.
Qed.

Lemma histogram_same l1 l2 : same_capital l1 l2 -> histogram l1 = histogram l2.
Proof. intros Hs. unfold histogram. rewrite !total_value, Hs. f_equal. apply imap_ext. intros i b _. by rewrite Hs. Qed.
End histogram.

(** Lists of lots that stand for the same capital have the same histogram. *)
Lemma BuildDormancyHistogram_same l1 l2 height bounds :
  Forall valid l1 -> Forall valid l2 -> same_capital l1 l2 ->
  BuildDormancyHistogram l1 height bounds = BuildDormancyHistogram l2 height bounds.
Proof.
  intros V1 V2 Hs. unfold BuildDormancyHistogram.
  assert ((blen l1 =? 0) = (blen l2 =? 0)) as ->.
  { destruct l1 as [|x l1]; [by rewrite (same_capital_nil l2) by done|]. destruct l2 as [|y l2]; [|done].
    symmetry in Hs. by apply same_capital_nil in Hs. }
  destruct (_ || _); [done|]. cbn [fail_if mbind res_bind]. destruct (check_bounds None bounds) as [[]|e]; [|done]. cbn [mbind res_bind].
  rewrite <-(histogram_nil height bounds), !count_lots by (done || constructor). cbn [app].
  assert (forallb (fun l => lot_IdleSinceHeight l <=? height) l1 = forallb (fun l => lot_IdleSinceHeight l <=? height) l2) as ->.
  { apply eq_true_iff_eq. rewrite !forallb_forall.
    pose proof (value_none (fun k => negb (k.2 <=? height)) l1 V1) as N1. pose proof (value_none (fun k => negb (k.2 <=? height)) l2 V2) as N2.
    rewrite Hs in N1. rewrite Forall_forall in N1, N2. setoid_rewrite negb_false_iff in N1. setoid_rewrite negb_false_iff in N2.
    setoid_rewrite <-list_elem_of_In. cbn [lot_key snd] in *. by rewrite <-N1, <-N2. }
  rewrite !total_value, Hs. by rewrite (histogram_same _ _ l1 l2 Hs).
Qed.

(** ** Marking capital productive *)

(** Marking moves capital to a younger height but never to another lineage. *)
Definition by_lineage (f : bytes -> Z) : weight := fun k => f k.1.

Lemma mark_lots_spec height lots : forall remaining r out,
  0 < height <= MaxUint64 -> Forall valid lots -> 0 <= remaining <= MaxUint64 -> mark_lots height remaining lots = (r, out) ->
  Forall valid out /\ (lots <> [] -> out <> []) /\ r = Z.max 0 (remaining - total lots) /\
  (forall f, value (by_lineage f) out = value (by_lineage f) lots).
Proof.
  induction lots as [|lot lots IH]; intros remaining r out Hh Hv Hr E; cbn [mark_lots] in E.
  - injection E as <- <-. split_and!; try done. unfold total. cbn. lia.
  - apply Forall_cons in Hv as [V1 V2]. pose proof (valid_pos _ V1) as Hp. pose proof (total_nonneg _ V2).
    destruct (Z.eqb_spec remaining 0) as [->|Hne].
    + destruct (mark_lots height 0 lots) as [r' out'] eqn:Em. injection E as <- <-. apply IH in Em as (M1 & _ & M3 & M4); [|done|done|lia].
      rewrite lots_total_cons. split_and!; [by constructor|done|lia|]. intros f. by rewrite !value_cons, M4.
    + set (productive := if remaining <? lot_Amount lot then remaining else lot_Amount lot) in E.
      assert (0 < productive <= remaining /\ productive <= lot_Amount lot /\ remaining - productive = Z.max 0 (remaining - lot_Amount lot)) as Hpr.
      { unfold productive. destruct (Z.ltb_spec remaining (lot_Amount lot)); lia. }
      destruct (mark_lots height _ lots) as [r' out'] eqn:Em. injection E as <- <-. rewrite sub64_small in Em by lia.
      rewrite sub64_small by lia. apply IH in Em as (M1 & _ & M3 & M4); [|done|done|lia]. rewrite lots_total_cons.
      assert (valid (with_height (with_amount lot productive) height)) as Vp.
      { destruct (valid_with_amount lot productive V1 ltac:(lia)) as (W1 & W2 & W3 & W4). apply Lot_Validate_Ok in W4 as (W4 & W5 & W6).
        split; [done|]. split; [unfold u64, MaxUint64 in *; cbn; lia|]. split; [done|]. apply Lot_Validate_Ok. cbn. split_and!; [done|done|lia]. }
      split_and!; [|intros _ [_ ?]%app_nil; done|lia|].
      * apply Forall_app. split; [|by constructor]. destruct (Z.ltb_spec productive (lot_Amount lot)); [|constructor].
        apply Forall_singleton, valid_with_amount; [done|lia].
      * intros f. rewrite value_app, !value_cons, M4. unfold by_lineage at 2 4. cbn [lot_key with_height with_amount lot_LineageID lot_Amount fst].
        destruct (Z.ltb_spec productive (lot_Amount lot)) as [Hl|Hl].
        -- rewrite value_cons. change (value _ []) with 0. unfold by_lineage at 1. cbn [lot_key with_amount lot_LineageID lot_Amount fst]. lia.
        -- change (value _ []) with 0. assert (productive = lot_Amount lot) as -> by lia. lia.
Qed.

(** Marking succeeds with a canonical list of the same lineages. *)
Lemma mark_Ok lots height bps out :
  Forall typed lots -> u64 height -> 0 <= bps -> MarkProductiveCoverage lots height bps = Ok out ->
  canonical out /\ out <> [] /\ (forall f, value (by_lineage f) out = value (by_lineage f) lots).
Proof.
  intros Ht Hh Hb E. unfold MarkProductiveCoverage in E. apply bind_Ok in E as ([] & Hg%fail_if_Ok & E).
  apply bind_Ok in E as (c & Hc & E). apply bind_Ok in E as ([] & _ & E). apply bind_Ok in E as ([] & Hu%fail_if_Ok & E).
  apply orb_false_iff in Hg as [Hg%Z.eqb_neq _]. apply negb_false_iff, andb_true_iff in Hu as [Hu1%Z.leb_le Hu2%Z.leb_le].
  apply compact_iff in Hc as (Hn & Hv & C & Hs); [|done].
  destruct (mark_lots _ _ _) as [r marked] eqn:Em. apply bind_Ok in E as ([] & _ & E).
  assert (sort_by age_key c ≡ₚ c) as Hp by apply sort_by_perm.
  apply mark_lots_spec in Em as (M1 & M2 & _ & M4); [|unfold u64, MaxUint64 in *; lia|rewrite Hp; apply C|lia].
  assert (Forall typed marked) as Mt by (eapply Forall_impl; [exact M1|]; by intros l (? & ? & ? & _)).
  pose proof (proj1 (compact_iff _ _ Mt) E) as (Hmn & _ & Co & Hso). split; [done|]. split.
  - intros ->. apply Hmn. apply (same_capital_nil marked); [done|]. by symmetry.
  - intros f. by rewrite <-(Hso _), M4, Hp, <-(Hs _).
Qed.

(** ** The theorem *)

(** C27: cutting capital into pieces does not make it younger.  The outputs of a
    split hold exactly the amounts asked for, and together they have the same
    histogram of ages, for all heights and bounds, the same canonical form, and the
    same further splits as the lots before: no sequence of transfers between
    wallets changes what the telemetry sees. *)
Theorem fragmentation_keeps_age lots amounts outs :
  Forall typed lots -> Forall u64 amounts -> SplitCapitalLineage lots amounts = Ok outs ->
  total <$> outs = amounts /\
  (forall height bounds, BuildDormancyHistogram (concat outs) height bounds = BuildDormancyHistogram lots height bounds) /\
  compactCapitalLots (concat outs) = compactCapitalLots lots /\
  (forall amounts', SplitCapitalLineage (concat outs) amounts' = SplitCapitalLineage lots amounts').
Proof.
  intros Ht Ha E. apply split_Ok in E as (Hv & Hc & _ & Htot & Hs); [|done|by eapply Forall_impl; [exact Ha|unfold u64, MaxUint64; cbn; lia]].
  assert (Forall valid (concat outs)) as Hvo.
  { clear -Hc. induction Hc as [|o outs Ho _ IH]; [constructor|]. apply Forall_app. split; [apply Ho|done]. }
  split; [done|]. split; [intros height bounds; apply BuildDormancyHistogram_same; [done|done|by symmetry]|].
  assert (compactCapitalLots (concat outs) = compactCapitalLots lots) as Hcmp by (apply compact_same; [done|done|by symmetry]).
  split; [done|]. intros amounts'. unfold SplitCapitalLineage. rewrite Hcmp.
  destruct (decide (lots = [])) as [->|Hn]; [rewrite (same_capital_nil (concat outs)) by done; done|].
  assert (concat outs <> []) as Hn' by (intros E; rewrite E in Hs; apply Hn, same_capital_nil; [done|by symmetry]).
  by destruct lots, (concat outs).
Qed.

(** The simulation of fragments shows the ages of the whole. *)
Lemma SimulateWalletFragmentation_age seed fragments height payload bounds policy sc :
  typed seed -> u64 fragments -> SimulateWalletFragmentation seed fragments height payload bounds policy = Ok sc ->
  BuildDormancyHistogram [seed] height bounds = Ok (fs_Histogram sc).
Proof.
  intros Ht Hf E. unfold SimulateWalletFragmentation in E. apply bind_Ok in E as ([] & Hg%fail_if_Ok & E).
  apply bind_Ok in E as (split & Hs & E). apply bind_Ok in E as (h & Hh & E). apply bind_Ok in E as ([] & _ & E).
  apply bind_Ok in E as (cost & _ & E). apply Ok_inj in E as <-. cbn [fs_Histogram].
  apply orb_false_iff in Hg as [[_ Hz%Z.eqb_neq]%orb_false_iff Hlt%Z.ltb_ge].
  pose proof Hs as Hs'. apply split_Ok in Hs' as (Hv & Hc & _ & _ & Hsame); [|by apply Forall_singleton|].
  - rewrite <-Hh. apply BuildDormancyHistogram_same; [done| |done].
    clear -Hc. induction Hc as [|o outs Ho _ IH]; [constructor|]. apply Forall_app. split; [apply Ho|done].
  - unfold fragment_amounts. apply Forall_fmap, Forall_forall. intros i Hi. cbn. destruct Ht as (Ha & _). unfold u64, MaxUint64 in *.
    pose proof (Z.div_le_upper_bound (lot_Amount seed) fragments (lot_Amount seed) ltac:(lia) ltac:(nia)).
    pose proof (Z.div_pos (lot_Amount seed) fragments ltac:(lia) ltac:(lia)).
    pose proof (Z.mod_pos_bound (lot_Amount seed) fragments ltac:(lia)).
    destruct (Z.ltb_spec i (lot_Amount seed mod fragments)); [|lia]. split; [lia|].
    apply elem_of_seqZ in Hi. pose proof (Z.div_mod (lot_Amount seed) fragments ltac:(lia)).
    assert (lot_Amount seed / fragments <= fragments * (lot_Amount seed / fragments)) by nia. lia.
Qed.

Module IdleExample.
Definition lots : list CapitalLot := [mkLot (be 32 5) 70 12; mkLot (be 32 4) 30 3; mkLot (be 32 5) 20 12].
Definition outs : list (list CapitalLot) := ok_or [] (SplitCapitalLineage lots [50; 60; 10]).

Lemma fragmentation_keeps_age_witness :
  total <$> outs = [50; 60; 10] /\ length (concat outs) = 4%nat /\
  BuildDormancyHistogram (concat outs) 20 [5; 10] = BuildDormancyHistogram lots 20 [5; 10].
Proof.
  destruct (fragmentation_keeps_age lots [50; 60; 10] outs) as (H1 & H2 & _).
  - by repeat constructor; vm_compute.
  - by repeat constructor; vm_compute.
  - vm_compute. reflexivity.
  - split; [exact H1|]. split; [vm_compute; reflexivity|]. apply H2.
Defined.
End IdleExample.
End Idle.
