(* ===== verification/IdleTracker.v ===== *)
(** * IdleTracker

    Package [internal/v2/economics], the tracker of idle capital
    ([idle_tracker.go]): which lots every live object and every transfer under
    way hold, the transitions that move them, and the checkpoint the tracker is
    restored from. *)

From S2P Require Import Prelude GoLib Codec Crypto Types IdleCapital.

Open Scope Z_scope.

(** [big.Int.Bytes]: big endian without leading zeros. *)
Definition big_bytes (z : Z) : bytes := if z =? 0 then [] else be (Z.to_nat (Z.log2 z / 8 + 1)) z.

Module Tracker.
Import Idle.

Definition idleCapitalTrackerVersion : Z := 1.
Definition maxIdleTrackerObjects : Z := 250000.
Definition maxIdleTrackerTransfers : Z := 250000.
Definition maxIdleTrackerLots : Z := 500000.
Definition maxIdleTrackerBigIntBytes : Z := 128.

Record CapitalTarget := mkTarget {
  ct_ObjectID : bytes;
  ct_TransferID : bytes;
  ct_Amount : Z;
}.

Definition to_object (id : bytes) (amount : Z) : CapitalTarget := mkTarget id zero32 amount.
Definition to_transfer (id : bytes) (amount : Z) : CapitalTarget := mkTarget zero32 id amount.

Definition Target_Validate (t : CapitalTarget) : res unit :=
  fail_if ((ct_Amount t =? 0) || eqb (negb (IsZero32 (ct_ObjectID t))) (negb (IsZero32 (ct_TransferID t)))) ErrIdleCapital.

Record IdleCapitalSnapshot := mkIdleSnapshot {
  is_Height : Z;
  is_TrackedCapital : Z;
  is_BootstrapCapital : Z;
  is_LiveObjects : Z;
  is_PendingTransfers : Z;
  is_Dormancy : DormancyHistogram;
  is_ProductiveObservedCapital : Z;
  is_ProductiveCoverageBps : Z;
}.

Record IdleCapitalTracker := mkTracker {
  tr_objects : gmap bytes (list CapitalLot);
  tr_pendingTransfers : gmap bytes (list CapitalLot);
  tr_bootstrapLineages : gset bytes;
  tr_productive : ProductiveCoverageAccumulator;
}.

Definition NewIdleCapitalTracker : IdleCapitalTracker := mkTracker ∅ ∅ ∅ no_coverage.

Definition set_objects (t : IdleCapitalTracker) (objects : gmap bytes (list CapitalLot)) : IdleCapitalTracker :=
  mkTracker objects (tr_pendingTransfers t) (tr_bootstrapLineages t) (tr_productive t).
Definition set_pending (t : IdleCapitalTracker) (pending : gmap bytes (list CapitalLot)) : IdleCapitalTracker :=
  mkTracker (tr_objects t) pending (tr_bootstrapLineages t) (tr_productive t).
Definition set_productive (t : IdleCapitalTracker) (productive : ProductiveCoverageAccumulator) : IdleCapitalTracker :=
  mkTracker (tr_objects t) (tr_pendingTransfers t) (tr_bootstrapLineages t) productive.

Definition objects_count (t : IdleCapitalTracker) : Z := Z.of_nat (size (tr_objects t)).
Definition transfers_count (t : IdleCapitalTracker) : Z := Z.of_nat (size (tr_pendingTransfers t)).

Section tracker.
Context `{Crypto} `{MapOrder}.

Definition ObjectLots (t : IdleCapitalTracker) (id : bytes) : option (list CapitalLot) := tr_objects t !! id.

Definition allLots (t : IdleCapitalTracker) : list CapitalLot :=
  concat (range_map (tr_objects t)).*2 ++ concat (range_map (tr_pendingTransfers t)).*2.

Definition lineages (lots : list CapitalLot) : gset bytes := list_to_set (lot_LineageID <$> lots).

Definition pruneBootstrapLineages (t : IdleCapitalTracker) : IdleCapitalTracker :=
  mkTracker (tr_objects t) (tr_pendingTransfers t) (tr_bootstrapLineages t ∩ lineages (allLots t)) (tr_productive t).

Definition bootstrap_lineage (id : bytes) : bytes := HashBytes (str "idle-capital/bootstrap-lineage/v1") id.

Definition BootstrapObject (t : IdleCapitalTracker) (id : bytes) (amount createdHeight : Z) : res IdleCapitalTracker :=
  fail_if (IsZero32 id || (amount =? 0) || (createdHeight =? 0)) ErrIdleCapital;;
  fail_if (maxIdleTrackerObjects <=? objects_count t) ErrIdleCapital;;
  fail_if (bool_decide (is_Some (tr_objects t !! id))) ErrIdleCapital;;
  let lot := mkLot (bootstrap_lineage id) amount createdHeight in
  Lot_Validate lot;;
  Ok (mkTracker (<[id := [lot]]> (tr_objects t)) (tr_pendingTransfers t)
    ({[bootstrap_lineage id]} ∪ tr_bootstrapLineages t) (tr_productive t)).

(** ** Transitions *)

Definition collect_input (t : IdleCapitalTracker) (st : gset bytes * list CapitalLot) (id : bytes)
    : res (gset bytes * list CapitalLot) :=
  let '(seen, lots) := st in
  fail_if (IsZero32 id) ErrIdleCapital;;
  fail_if (bool_decide (id ∈ seen)) ErrIdleCapital;;
  found ← some_or (tr_objects t !! id) ErrIdleCapital;
  fail_if (blen found =? 0) ErrIdleCapital;;
  Ok ({[id]} ∪ seen, lots ++ found).

Definition is_object (target : CapitalTarget) : bool := negb (IsZero32 (ct_ObjectID target)).

Definition check_target (t : IdleCapitalTracker) (st : gset bytes * gset bytes) (target : CapitalTarget)
    : res (gset bytes * gset bytes) :=
  let '(seenObjects, seenTransfers) := st in
  Target_Validate target;;
  if is_object target then
    fail_if (bool_decide (ct_ObjectID target ∈ seenObjects)) ErrIdleCapital;;
    fail_if (bool_decide (is_Some (tr_objects t !! ct_ObjectID target))) ErrIdleCapital;;
    Ok ({[ct_ObjectID target]} ∪ seenObjects, seenTransfers)
  else
    fail_if (bool_decide (ct_TransferID target ∈ seenTransfers)) ErrIdleCapital;;
    fail_if (bool_decide (is_Some (tr_pendingTransfers t !! ct_TransferID target))) ErrIdleCapital;;
    Ok (seenObjects, {[ct_TransferID target]} ∪ seenTransfers).

(** Objects before transfers, each by identifier. *)
Definition target_key (target : CapitalTarget) : Z * bytes :=
  if is_object target then (0, ct_ObjectID target) else (1, ct_TransferID target).

Definition allocate (t : IdleCapitalTracker) (entry : CapitalTarget * list CapitalLot) : IdleCapitalTracker :=
  let '(target, lots) := entry in
  if is_object target then set_objects t (<[ct_ObjectID target := lots]> (tr_objects t))
  else set_pending t (<[ct_TransferID target := lots]> (tr_pendingTransfers t)).

Definition delete_inputs (t : IdleCapitalTracker) (inputs : list bytes) : IdleCapitalTracker :=
  set_objects t (foldr delete (tr_objects t) inputs).

Definition applyTransition (t : IdleCapitalTracker) (inputs : list bytes) (targets : list CapitalTarget) (burned : Z)
    : res IdleCapitalTracker :=
  '(_, inputLots) ← rfold (collect_input t) (∅, []) inputs;
  canonicalLots ← compactCapitalLots inputLots;
  '(seenObjects, seenTransfers) ← rfold (check_target t) (∅, ∅) targets;
  fail_if ((maxIdleTrackerObjects <? objects_count t - blen inputs + Z.of_nat (size seenObjects))
           || (maxIdleTrackerTransfers <? transfers_count t + Z.of_nat (size seenTransfers))) ErrIdleCapital;;
  let ordered := sort_by target_key targets in
  let amounts := (ct_Amount <$> ordered) ++ (if 0 <? burned then [burned] else []) in
  fail_if (blen amounts =? 0) ErrIdleCapital;;
  allocations ← SplitCapitalLineage canonicalLots amounts;
  Ok (pruneBootstrapLineages (foldl allocate (delete_inputs t inputs) (zip ordered allocations))).

(** The clone makes the transition atomic. *)
Definition ApplyTransition (t : IdleCapitalTracker) (inputs : list bytes) (targets : list CapitalTarget) (burned : Z)
    : res IdleCapitalTracker :=
  fail_if ((blen inputs =? 0) || ((blen targets =? 0) && (burned =? 0))) ErrIdleCapital;;
  applyTransition t inputs targets burned.

Definition MaterializeTransfer (t : IdleCapitalTracker) (transferID objectID : bytes) : res IdleCapitalTracker :=
  fail_if (IsZero32 transferID || IsZero32 objectID) ErrIdleCapital;;
  fail_if (maxIdleTrackerObjects <=? objects_count t) ErrIdleCapital;;
  fail_if (bool_decide (is_Some (tr_objects t !! objectID))) ErrIdleCapital;;
  lots ← some_or (tr_pendingTransfers t !! transferID) ErrIdleCapital;
  fail_if (blen lots =? 0) ErrIdleCapital;;
  Ok (mkTracker (<[objectID := lots]> (tr_objects t)) (delete transferID (tr_pendingTransfers t))
    (tr_bootstrapLineages t) (tr_productive t)).

Definition add_amount (sum : Z) (lot : CapitalLot) : res Z :=
  fail_if (overflows sum (lot_Amount lot)) ErrIdleCapital;;
  Ok (add64 sum (lot_Amount lot)).

Definition MarkObjectProductive (t : IdleCapitalTracker) (objectID : bytes) (height coverageBps : Z) : res IdleCapitalTracker :=
  fail_if (IsZero32 objectID || (height =? 0) || (10000 <? coverageBps)) ErrIdleCapital;;
  lots ← some_or (tr_objects t !! objectID) ErrIdleCapital;
  fail_if (blen lots =? 0) ErrIdleCapital;;
  amount ← rfold add_amount 0 lots;
  marked ← MarkProductiveCoverage lots height coverageBps;
  productive ← Coverage_Observe (tr_productive t) amount coverageBps;
  Ok (set_productive (set_objects t (<[objectID := marked]> (tr_objects t))) productive).

Definition ResetProductiveCoverage (t : IdleCapitalTracker) : IdleCapitalTracker := set_productive t no_coverage.

Definition add_bootstrap (known : gset bytes) (sum : Z) (lot : CapitalLot) : res Z :=
  if negb (bool_decide (lot_LineageID lot ∈ known)) then Ok sum else add_amount sum lot.

Definition Tracker_Snapshot (t : IdleCapitalTracker) (height : Z) (bounds : list Z) : res IdleCapitalSnapshot :=
  fail_if (height =? 0) ErrIdleCapital;;
  let lots := allLots t in
  fail_if (blen lots =? 0) ErrIdleCapital;;
  histogram ← BuildDormancyHistogram lots height bounds;
  bootstrap ← rfold (add_bootstrap (tr_bootstrapLineages t)) 0 lots;
  '(observed, coverage) ←
    if 0 <? pc_observedCapital (tr_productive t) then
      coverage ← Coverage_Snapshot (tr_productive t);
      Ok (ps_ObservedCapital coverage, ps_ProductiveCoverageBps coverage)
    else Ok (0, 0);
  Ok (mkIdleSnapshot height (dh_Total histogram) bootstrap (objects_count t) (transfers_count t) histogram observed coverage).

(** ** The checkpoint *)

Definition write_lot (w : Writer.t) (lot : CapitalLot) : Writer.t :=
  w |> Writer.Fixed (lot_LineageID lot) |> Writer.U64 (lot_Amount lot) |> Writer.U64 (lot_IdleSinceHeight lot).

Definition writeCapitalLots (w : Writer.t) (lots : list CapitalLot) : res Writer.t :=
  canonical ← compactCapitalLots lots <?> ErrIdleCapital;
  fail_if (maxIdleTrackerLots <? blen canonical) ErrIdleCapital;;
  Ok (foldl write_lot (w |> Writer.U32 (blen canonical mod 2 ^ 32)) canonical).

Definition write_entry (w : Writer.t) (entry : bytes * list CapitalLot) : res Writer.t :=
  writeCapitalLots (w |> Writer.Fixed entry.1) entry.2.

Definition write_entries (w : Writer.t) (m : gmap bytes (list CapitalLot)) : res Writer.t :=
  let entries := sort_by fst (range_map m) in
  rfold write_entry (w |> Writer.U32 (blen entries mod 2 ^ 32)) entries.

Definition CheckpointBytes (t : IdleCapitalTracker) : res bytes :=
  fail_if ((maxIdleTrackerObjects <? objects_count t) || (maxIdleTrackerTransfers <? transfers_count t)) ErrIdleCapital;;
  w ← write_entries (Writer.new |> Writer.U16 idleCapitalTrackerVersion) (tr_objects t);
  w ← write_entries w (tr_pendingTransfers t);
  let known := sort_by (fun l => l) (elements (tr_bootstrapLineages t)) in
  let w := foldl (fun w lineage => w |> Writer.Fixed lineage) (w |> Writer.U32 (blen known mod 2 ^ 32)) known in
  let weighted := big_bytes (pc_weightedCoverageBps (tr_productive t)) in
  fail_if (maxIdleTrackerBigIntBytes <? blen weighted) ErrIdleCapital;;
  Ok (Writer.BytesCopy (w |> Writer.U64 (pc_observedCapital (tr_productive t)) |> Writer.Bytes weighted)).

(** The visit of [validate]: the lots counted so far and the lineages seen. *)
Definition visit_lots (st : Z * gset bytes) (lots : list CapitalLot) : res (Z * gset bytes) :=
  let '(lotCount, active) := st in
  canonical ← compactCapitalLots lots <?> ErrIdleCapital;
  fail_if (negb (blen canonical =? blen lots) || (maxIdleTrackerLots - blen lots <? lotCount)) ErrIdleCapital;;
  fail_if (negb (bool_decide (lots = canonical))) ErrIdleCapital;;
  Ok (lotCount + blen lots, lineages lots ∪ active).

Definition visit_entry (st : Z * gset bytes) (entry : bytes * list CapitalLot) : res (Z * gset bytes) :=
  fail_if (IsZero32 entry.1) ErrIdleCapital;;
  visit_lots st entry.2.

Definition Tracker_validate (t : IdleCapitalTracker) : res unit :=
  fail_if ((maxIdleTrackerObjects <? objects_count t) || (maxIdleTrackerTransfers <? transfers_count t)) ErrIdleCapital;;
  st ← rfold visit_entry (0, ∅) (range_map (tr_objects t));
  '(_, active) ← rfold visit_entry st (range_map (tr_pendingTransfers t));
  rfold (fun _ lineage => fail_if (IsZero32 lineage) ErrIdleCapital;; fail_if (negb (bool_decide (lineage ∈ active))) ErrIdleCapital)
    tt (elements (tr_bootstrapLineages t));;
  let weighted := pc_weightedCoverageBps (tr_productive t) in
  if pc_observedCapital (tr_productive t) =? 0 then fail_if (negb (weighted =? 0)) ErrIdleCapital
  else fail_if ((weighted <? 0) || (pc_observedCapital (tr_productive t) * 10000 <? weighted)) ErrIdleCapital.

Definition read_lot : parser CapitalLot :=
  lineage ← Rd.Fixed 32 <!> ErrIdleCapital;
  amount ← Rd.U64 <!> ErrIdleCapital;
  idleSince ← Rd.U64 <!> ErrIdleCapital;
  let lot := mkLot lineage amount idleSince in
  plift (Lot_Validate lot <?> ErrIdleCapital);;
  mret lot.

(** [total] counts the lots read so far. *)
Definition readCapitalLots (total : Z) : parser (list CapitalLot * Z) :=
  count ← Rd.U32 <!> ErrIdleCapital;
  plift (fail_if ((count =? 0) || (maxIdleTrackerLots <? count) || (maxIdleTrackerLots - count <? total)) ErrIdleCapital);;
  lots ← prepeat (Z.to_nat count) read_lot;
  canonical ← plift (compactCapitalLots lots <?> ErrIdleCapital);
  plift (fail_if (negb (blen canonical =? blen lots)) ErrIdleCapital);;
  plift (fail_if (negb (bool_decide (lots = canonical))) ErrIdleCapital);;
  mret (lots, total + count).

Definition read_entry (st : gmap bytes (list CapitalLot) * Z) : parser (gmap bytes (list CapitalLot) * Z) :=
  let '(entries, lotCount) := st in
  id ← Rd.Fixed 32 <!> ErrIdleCapital;
  plift (fail_if (IsZero32 id) ErrIdleCapital);;
  plift (fail_if (bool_decide (is_Some (entries !! id))) ErrIdleCapital);;
  '(lots, lotCount) ← readCapitalLots lotCount;
  mret (<[id := lots]> entries, lotCount).

Fixpoint read_entries (n : nat) (st : gmap bytes (list CapitalLot) * Z) : parser (gmap bytes (list CapitalLot) * Z) :=
  match n with
  | O => mret st
  | S n => st ← read_entry st; read_entries n st
  end.

Definition read_lineage (known : gset bytes) : parser (gset bytes) :=
  lineage ← Rd.Fixed 32 <!> ErrIdleCapital;
  plift (fail_if (IsZero32 lineage) ErrIdleCapital);;
  plift (fail_if (bool_decide (lineage ∈ known)) ErrIdleCapital);;
  mret ({[lineage]} ∪ known).

Fixpoint read_lineages (n : nat) (known : gset bytes) : parser (gset bytes) :=
  match n with
  | O => mret known
  | S n => known ← read_lineage known; read_lineages n known
  end.

Definition RestoreIdleCapitalTracker (data : bytes) : res IdleCapitalTracker :=
  parse (version ← Rd.U16 <!> ErrIdleCapital;
         plift (fail_if (negb (version =? idleCapitalTrackerVersion)) ErrIdleCapital);;
         objectCount ← Rd.U32 <!> ErrIdleCapital;
         plift (fail_if (maxIdleTrackerObjects <? objectCount) ErrIdleCapital);;
         '(objects, lotCount) ← read_entries (Z.to_nat objectCount) (∅, 0);
         transferCount ← Rd.U32 <!> ErrIdleCapital;
         plift (fail_if (maxIdleTrackerTransfers <? transferCount) ErrIdleCapital);;
         '(transfers, _) ← read_entries (Z.to_nat transferCount) (∅, lotCount);
         bootstrapCount ← Rd.U32 <!> ErrIdleCapital;
         plift (fail_if (maxIdleTrackerLots <? bootstrapCount) ErrIdleCapital);;
         known ← read_lineages (Z.to_nat bootstrapCount) ∅;
         observed ← Rd.U64 <!> ErrIdleCapital;
         weighted ← Rd.Bytes maxIdleTrackerBigIntBytes <!> ErrIdleCapital;
         Rd.Done <!> ErrIdleCapital;;
         let out := mkTracker objects transfers known (mkCoverage observed (be_val weighted)) in
         plift (Tracker_validate out);;
         mret out) data.
End tracker.
End Tracker.
