(* ===== verification/IdleTrackerProofs.v ===== *)
(** * IdleTrackerProofs

    The tracker moves capital exactly: a transition gives every target the amount
    it asks for, destroys the burned amount, keeps every lineage and age, and does
    not depend on the order in which inputs and targets are listed; a tracker
    reached by any operations is restored from its checkpoint. *)

From S2P Require Import Prelude GoLib Codec Crypto Types Object IdleCapital IdleTracker.

Open Scope Z_scope.

Module TrackerProofs.
Import Idle Tracker.

Section proofs.
Context `{HC : Crypto} `{HM : MapOrder}.

(** ** The value of a map of lots *)

Definition mvalue (w : weight) (m : gmap bytes (list CapitalLot)) : Z := msum (value w <$> m).

Lemma mvalue_insert w m k lots : m !! k = None -> mvalue w (<[k := lots]> m) = value w lots + mvalue w m.
Proof. intros Hk. unfold mvalue. rewrite fmap_insert. apply msum_insert_fresh. by rewrite lookup_fmap, Hk. Qed.

Lemma mvalue_delete w m k lots : m !! k = Some lots -> mvalue w m = value w lots + mvalue w (delete k m).
Proof. intros Hk. rewrite <-(insert_delete_id m k lots Hk) at 1. apply mvalue_insert. apply lookup_delete_eq. Qed.

Lemma mvalue_range w m : mvalue w m = value w (concat (range_map m).*2).
Proof.
  unfold mvalue, msum. rewrite map_to_list_fmap. rewrite <-range_map_perm.
  induction (range_map m) as [|[k lots] l IH]; [done|]. cbn [fmap list_fmap concat]. rewrite zsum_cons, value_app. f_equal. exact IH.
Qed.

Lemma allLots_value w t : value w (allLots t) = mvalue w (tr_objects t) + mvalue w (tr_pendingTransfers t).
Proof. unfold allLots. by rewrite value_app, !mvalue_range. Qed.

(** ** The invariant *)

Definition entry_ok (id : bytes) (lots : list CapitalLot) : Prop :=
  arr32 id /\ IsZero32 id = false /\ canonical lots /\ lots <> [].

Definition coverage_ok (a : ProductiveCoverageAccumulator) : Prop :=
  u64 (pc_observedCapital a) /\ 0 <= pc_weightedCoverageBps a <= pc_observedCapital a * 10000.

Record tracker_ok (t : IdleCapitalTracker) : Prop := {
  tk_objects : map_Forall entry_ok (tr_objects t);
  tk_pending : map_Forall entry_ok (tr_pendingTransfers t);
  tk_known : tr_bootstrapLineages t ⊆ lineages (allLots t);
  tk_objects_max : objects_count t <= maxIdleTrackerObjects;
  tk_pending_max : transfers_count t <= maxIdleTrackerTransfers;
  tk_coverage : coverage_ok (tr_productive t);
}.

Lemma elem_of_range_concat (m : gmap bytes (list CapitalLot)) lot :
  lot ∈ concat (range_map m).*2 <-> exists id lots, m !! id = Some lots /\ lot ∈ lots.
Proof.
  rewrite list_elem_of_In, in_concat. setoid_rewrite <-list_elem_of_In. split.
  - intros (lots & Hin & Hl). apply list_elem_of_fmap in Hin as ([id lots'] & -> & Hin). rewrite range_map_perm in Hin.
    apply elem_of_map_to_list in Hin. by exists id, lots'.
  - intros (id & lots & Hm & Hl). exists lots. split; [|done]. apply list_elem_of_fmap. exists (id, lots). split; [done|].
    rewrite range_map_perm. by apply elem_of_map_to_list.
Qed.

Lemma elem_of_allLots t lot : lot ∈ allLots t <->
  (exists id lots, tr_objects t !! id = Some lots /\ lot ∈ lots) \/ (exists id lots, tr_pendingTransfers t !! id = Some lots /\ lot ∈ lots).
Proof. unfold allLots. by rewrite elem_of_app, !elem_of_range_concat. Qed.

Lemma allLots_valid t : tracker_ok t -> Forall valid (allLots t).
Proof.
  intros [Ho Hp _ _ _ _]. apply Forall_forall. intros lot [(id & lots & Hm & Hl)|(id & lots & Hm & Hl)]%elem_of_allLots.
  - destruct (Ho _ _ Hm) as (_ & _ & [_ _ Hv] & _). rewrite Forall_forall in Hv. by apply Hv.
  - destruct (Hp _ _ Hm) as (_ & _ & [_ _ Hv] & _). rewrite Forall_forall in Hv. by apply Hv.
Qed.

(** A lineage is alive exactly when it carries value. *)
Definition on_lineage (l : bytes) : weight := by_lineage (fun l' => if bool_decide (l' = l) then 1 else 0).

Lemma lineage_alive l lots : Forall valid lots -> l ∈ lineages lots <-> value (on_lineage l) lots <> 0.
Proof.
  intros Hv. assert (value (on_lineage l) lots = value (only (fun k => bool_decide (k.1 = l))) lots) as ->.
  { unfold value. f_equal. }
  unfold lineages. rewrite elem_of_list_to_set. split.
  - intros Hin E. apply value_none in E; [|done]. apply list_elem_of_fmap in Hin as (x & -> & Hx).
    rewrite Forall_forall in E. specialize (E x Hx). cbn in E. by case_bool_decide.
  - intros Hne. destruct (decide (l ∈ lot_LineageID <$> lots)) as [|Hnot]; [done|]. exfalso. apply Hne. apply value_none; [done|].
    apply Forall_forall. intros x Hx. cbn. apply bool_decide_eq_false_2. intros <-. apply Hnot. by apply list_elem_of_fmap_2.
Qed.

Lemma lineages_same l1 l2 : Forall valid l1 -> Forall valid l2 -> (forall f, value (by_lineage f) l1 = value (by_lineage f) l2) ->
  lineages l1 = lineages l2.
Proof.
  intros V1 V2 Hs. apply set_eq. intros l. rewrite !lineage_alive by done. unfold on_lineage. by rewrite Hs.
Qed.

(** ** Inputs and targets *)

Definition lots_of (t : IdleCapitalTracker) (id : bytes) : list CapitalLot := default [] (tr_objects t !! id).

Definition input_ok (t : IdleCapitalTracker) (id : bytes) : Prop :=
  IsZero32 id = false /\ exists lots, tr_objects t !! id = Some lots /\ lots <> [].

Definition inputs_ok (t : IdleCapitalTracker) (inputs : list bytes) : Prop := NoDup inputs /\ Forall (input_ok t) inputs.

Lemma blen_nil {A} (l : list A) : (blen l =? 0) = false <-> l <> [].
Proof. unfold blen. rewrite Z.eqb_neq. destruct l; cbn; split; try done; lia. Qed.

Lemma collect_iff t inputs : forall seen lots out,
  (exists seen', rfold (collect_input t) (seen, lots) inputs = Ok (seen', out)) <->
  inputs_ok t inputs /\ Forall (fun id => id ∉ seen) inputs /\ out = lots ++ concat (lots_of t <$> inputs).
Proof.
  induction inputs as [|id inputs IH]; intros seen lots out; cbn [rfold].
  - cbn. rewrite app_nil_r. split; [intros [seen' [= -> ->]]|intros (_ & _ & ->); by eexists].
    split; [split; constructor|]. split; [constructor|done].
  - split.
    + intros [seen' E]. apply bind_Ok in E as ([s1 l1] & E1 & E). unfold collect_input in E1.
      apply bind_Ok in E1 as ([] & Hz%fail_if_Ok & E1). apply bind_Ok in E1 as ([] & Hn%fail_if_Ok & E1).
      apply bind_Ok in E1 as (found & Hf%some_or_Ok & E1). apply bind_Ok in E1 as ([] & Hb%fail_if_Ok%blen_nil & E1).
      apply Ok_inj in E1. injection E1 as <- <-. destruct (proj1 (IH _ _ _) (ex_intro _ _ E)) as ((Hd & Hall) & Hfresh & ->).
      apply bool_decide_eq_false in Hn. rewrite Forall_forall in Hfresh.
      split; [split; [constructor; [|done]|constructor; [split; [done|by exists found]|done]]|].
      * intros Hin. apply (Hfresh id Hin). set_solver.
      * split; [constructor; [done|]; apply Forall_forall; intros x Hx; specialize (Hfresh x Hx); set_solver|].
        cbn. unfold lots_of at 2. by rewrite Hf, <-app_assoc.
    + intros ([Hd Hall] & Hfresh & ->). apply NoDup_cons in Hd as [Hni Hd]. apply Forall_cons in Hall as [(Hz & found & Hf & Hb) Hall].
      apply Forall_cons in Hfresh as [Hn Hfresh]. apply blen_nil in Hb.
      assert (collect_input t (seen, lots) id = Ok ({[id]} ∪ seen, lots ++ found)) as ->.
      { unfold collect_input. rewrite Hz, bool_decide_eq_false_2 by done. rewrite Hf. cbn [fail_if some_or mbind res_bind]. by rewrite Hb. }
      cbn [mbind res_bind]. apply IH. split; [done|]. split.
      * rewrite Forall_forall in Hfresh |- *. intros x Hx. specialize (Hfresh x Hx). set_solver.
      * cbn. unfold lots_of at 1. by rewrite Hf, <-app_assoc.
Qed.

Lemma value_concat w (ls : list (list CapitalLot)) : value w (concat ls) = zsum (value w <$> ls).
Proof. induction ls as [|l ls IH]; [done|]. cbn [concat fmap list_fmap]. by rewrite value_app, zsum_cons, IH. Qed.

Lemma delete_inputs_value w t inputs :
  inputs_ok t inputs -> mvalue w (foldr delete (tr_objects t) inputs) + value w (concat (lots_of t <$> inputs)) = mvalue w (tr_objects t).
Proof.
  intros [Hd Hall]. induction inputs as [|id inputs IH]; cbn [foldr concat fmap list_fmap]; [change (value w []) with 0; lia|].
  apply NoDup_cons in Hd as [Hni Hd]. apply Forall_cons in Hall as [(_ & found & Hf & _) Hall].
  specialize (IH Hd Hall). rewrite value_app. unfold lots_of at 1. rewrite Hf. change (default [] (Some found)) with found.
  assert (foldr delete (tr_objects t) inputs !! id = Some found) as Hl.
  { clear -Hni Hf. induction inputs as [|x inputs IH]; [done|]. cbn. apply not_elem_of_cons in Hni as [? ?].
    rewrite lookup_delete_ne by done. by apply IH. }
  pose proof (mvalue_delete w _ _ _ Hl). lia.
Qed.

Lemma lookup_foldr_delete (m : gmap bytes (list CapitalLot)) inputs id :
  foldr delete m inputs !! id = if bool_decide (id ∈ inputs) then None else m !! id.
Proof.
  induction inputs as [|x inputs IH]; cbn; [done|]. destruct (decide (x = id)) as [->|Hne].
  - rewrite lookup_delete_eq, bool_decide_eq_true_2 by left. done.
  - rewrite lookup_delete_ne, IH by done. repeat case_bool_decide; try done; set_solver.
Qed.

Definition fresh_target (t : IdleCapitalTracker) (target : CapitalTarget) : Prop :=
  Target_Validate target = Ok tt /\
  if is_object target then tr_objects t !! ct_ObjectID target = None else tr_pendingTransfers t !! ct_TransferID target = None.

Definition object_ids (targets : list CapitalTarget) : gset bytes := list_to_set (ct_ObjectID <$> List.filter is_object targets).
Definition transfer_ids (targets : list CapitalTarget) : gset bytes :=
  list_to_set (ct_TransferID <$> List.filter (fun target => negb (is_object target)) targets).

Definition targets_ok (t : IdleCapitalTracker) (targets : list CapitalTarget) : Prop :=
  NoDup (target_key <$> targets) /\ Forall (fresh_target t) targets.

Definition unseen (so st : gset bytes) (target : CapitalTarget) : Prop :=
  if is_object target then ct_ObjectID target ∉ so else ct_TransferID target ∉ st.

Lemma unseen_object so st id target x :
  is_object target = true -> ct_ObjectID target = id ->
  unseen ({[id]} ∪ so) st x <-> target_key x <> target_key target /\ unseen so st x.
Proof.
  intros Ho <-. unfold unseen, target_key. rewrite Ho. destruct (is_object x); [|naive_solver].
  rewrite not_elem_of_union, not_elem_of_singleton. split; intros [? ?]; split; congruence.
Qed.

Lemma unseen_transfer so st id target x :
  is_object target = false -> ct_TransferID target = id ->
  unseen so ({[id]} ∪ st) x <-> target_key x <> target_key target /\ unseen so st x.
Proof.
  intros Ho <-. unfold unseen, target_key. rewrite Ho. destruct (is_object x); [naive_solver|].
  rewrite not_elem_of_union, not_elem_of_singleton. split; intros [? ?]; split; congruence.
Qed.

Lemma check_target_iff t so st target st' :
  check_target t (so, st) target = Ok st' <->
  fresh_target t target /\ unseen so st target /\
  st' = if is_object target then ({[ct_ObjectID target]} ∪ so, st) else (so, {[ct_TransferID target]} ∪ st).
Proof.
  unfold check_target, fresh_target, unseen. destruct (Target_Validate target) as [[]|e]; cbn [mbind res_bind];
    [|split; [done|by intros [[? _] _]]].
  destruct (is_object target).
  - destruct (bool_decide (_ ∈ so)) eqn:E1; cbn [fail_if mbind res_bind].
    + apply bool_decide_eq_true in E1. split; [done|by intros (_ & ? & _)].
    + apply bool_decide_eq_false in E1. destruct (bool_decide (is_Some _)) eqn:E2; cbn [fail_if mbind res_bind].
      * apply bool_decide_eq_true in E2 as [x E2]. split; [done|intros ([_ ?] & _); congruence].
      * apply bool_decide_eq_false, eq_None_not_Some in E2. split; [by intros <-%Ok_inj|by intros (_ & _ & ->)].
  - destruct (bool_decide (_ ∈ st)) eqn:E1; cbn [fail_if mbind res_bind].
    + apply bool_decide_eq_true in E1. split; [done|by intros (_ & ? & _)].
    + apply bool_decide_eq_false in E1. destruct (bool_decide (is_Some _)) eqn:E2; cbn [fail_if mbind res_bind].
      * apply bool_decide_eq_true in E2 as [x E2]. split; [done|intros ([_ ?] & _); congruence].
      * apply bool_decide_eq_false, eq_None_not_Some in E2. split; [by intros <-%Ok_inj|by intros (_ & _ & ->)].
Qed.

Lemma check_targets_iff t targets : forall so st so' st',
  rfold (check_target t) (so, st) targets = Ok (so', st') <->
  targets_ok t targets /\ Forall (unseen so st) targets /\ so' = object_ids targets ∪ so /\ st' = transfer_ids targets ∪ st.
Proof.
  induction targets as [|target targets IH]; intros so st so' st'; cbn [rfold].
  - unfold object_ids, transfer_ids. cbn. split; [|intros (_ & _ & -> & ->); by rewrite !union_empty_l_L].
    intros [= <- <-]. rewrite !union_empty_l_L. split; [split; constructor|]. split; [constructor|done].
  - assert (forall so1 st1, (forall x, unseen so1 st1 x <-> target_key x <> target_key target /\ unseen so st x) ->
      Forall (unseen so1 st1) targets <-> target_key target ∉ target_key <$> targets /\ Forall (unseen so st) targets) as Hun.
    { intros so1 st1 Hx. rewrite !Forall_forall. setoid_rewrite Hx. split.
      - intros Hall. split; [|intros x Hin; by apply Hall]. intros Hin. apply list_elem_of_fmap in Hin as (y & Hk & Hy).
        by apply (Hall y Hy).
      - intros [Hn Hall] x Hin. split; [|by apply Hall]. intros Hk. apply Hn. rewrite <-Hk. by apply list_elem_of_fmap_2. }
    unfold targets_ok. rewrite fmap_cons, NoDup_cons, !Forall_cons.
    assert ((exists st1, check_target t (so, st) target = Ok st1 /\ rfold (check_target t) st1 targets = Ok (so', st')) <->
      (st1 ← check_target t (so, st) target; rfold (check_target t) st1 targets) = Ok (so', st')) as <-.
    { split; [intros (st1 & -> & E); done|intros (st1 & ? & ?)%bind_Ok; eauto]. }
    setoid_rewrite check_target_iff. unfold object_ids, transfer_ids. cbn [List.filter]. destruct (is_object target) eqn:Eo; cbn [negb].
    + split.
      * intros ([a b] & (Hf & Hu & [= -> ->]) & E). apply IH in E as ([Hd Hall] & Hun' & -> & ->).
        apply (Hun _ _ (fun x => unseen_object so st _ target x Eo eq_refl)) in Hun' as [Hn Hun'].
        split_and!; try done. cbn. set_solver.
      * intros (([Hn Hd] & Hf & Hall) & (Hu & Hun') & -> & ->). eexists. split; [split_and!; done|]. apply IH.
        split_and!; try done; [|cbn; set_solver]. by apply (Hun _ _ (fun x => unseen_object so st _ target x Eo eq_refl)).
    + split.
      * intros ([a b] & (Hf & Hu & [= -> ->]) & E). apply IH in E as ([Hd Hall] & Hun' & -> & ->).
        apply (Hun _ _ (fun x => unseen_transfer so st _ target x Eo eq_refl)) in Hun' as [Hn Hun'].
        split_and!; try done. cbn. set_solver.
      * intros (([Hn Hd] & Hf & Hall) & (Hu & Hun') & -> & ->). eexists. split; [split_and!; done|]. apply IH.
        split_and!; try done; [|cbn; set_solver]. by apply (Hun _ _ (fun x => unseen_transfer so st _ target x Eo eq_refl)).
Qed.

(** ** Allocation *)

(** Where the lots of a target are kept. *)
Definition target_lots (t : IdleCapitalTracker) (key : Z * bytes) : option (list CapitalLot) :=
  if key.1 =? 0 then tr_objects t !! key.2 else tr_pendingTransfers t !! key.2.

Lemma target_lots_target t target : target_lots t (target_key target) =
  if is_object target then tr_objects t !! ct_ObjectID target else tr_pendingTransfers t !! ct_TransferID target.
Proof. unfold target_lots, target_key. by destruct (is_object target). Qed.

Definition slot (key : Z * bytes) : Prop := key.1 = 0 \/ key.1 = 1.

Lemma target_lots_allocate t target lots key :
  slot key -> target_lots (allocate t (target, lots)) key = if bool_decide (key = target_key target) then Some lots else target_lots t key.
Proof.
  destruct key as [c id]. intros [Hc|Hc]; cbn in Hc; subst c; unfold target_lots, allocate, target_key; destruct (is_object target);
    cbn [fst snd Z.eqb tr_objects tr_pendingTransfers set_objects set_pending].
  - destruct (decide (ct_ObjectID target = id)) as [<-|Hne].
    + by rewrite lookup_insert_eq, bool_decide_eq_true_2.
    + rewrite lookup_insert_ne, bool_decide_eq_false_2 by congruence. done.
  - by rewrite bool_decide_eq_false_2.
  - by rewrite bool_decide_eq_false_2.
  - destruct (decide (ct_TransferID target = id)) as [<-|Hne].
    + by rewrite lookup_insert_eq, bool_decide_eq_true_2.
    + rewrite lookup_insert_ne, bool_decide_eq_false_2 by congruence. done.
Qed.

Lemma allocate_value w t target lots :
  target_lots t (target_key target) = None -> value w (allLots (allocate t (target, lots))) = value w lots + value w (allLots t).
Proof.
  rewrite target_lots_target, !allLots_value. unfold allocate. destruct (is_object target); intros Hn; cbn [set_objects set_pending tr_objects tr_pendingTransfers].
  - rewrite mvalue_insert by done. lia.
  - rewrite mvalue_insert by done. lia.
Qed.

Lemma slot_target target : slot (target_key target).
Proof. unfold slot, target_key. destruct (is_object target); [by left|by right]. Qed.

Lemma allocate_all entries : forall t,
  NoDup (target_key <$> entries.*1) -> Forall (fun entry => target_lots t (target_key entry.1) = None) entries ->
  let t' := foldl allocate t entries in
  (forall w, value w (allLots t') = value w (concat entries.*2) + value w (allLots t)) /\
  (forall target lots, (target, lots) ∈ entries -> target_lots t' (target_key target) = Some lots) /\
  (forall key, slot key -> key ∉ target_key <$> entries.*1 -> target_lots t' key = target_lots t key) /\
  tr_bootstrapLineages t' = tr_bootstrapLineages t /\ tr_productive t' = tr_productive t.
Proof.
  induction entries as [|[target lots] entries IH]; intros t Hd Hf; cbn [foldl fmap list_fmap concat].
  - split_and!; try done. set_solver.
  - cbn in Hd. apply NoDup_cons in Hd as [Hn Hd]. apply Forall_cons in Hf as [Hf0 Hf]. cbn [fst snd] in *.
    destruct (IH (allocate t (target, lots))) as (I1 & I2 & I3 & I4 & I5); [done| |].
    { rewrite Forall_forall in Hf |- *. intros [x l] Hin. cbn [fst]. rewrite target_lots_allocate by apply slot_target.
      rewrite bool_decide_eq_false_2; [by apply (Hf (x, l))|]. intros Hk. apply Hn. rewrite <-Hk.
      apply list_elem_of_fmap. exists x. split; [done|]. apply list_elem_of_fmap. by exists (x, l). }
    split_and!.
    + intros w. rewrite I1, allocate_value, value_app by done. lia.
    + intros x l [[= -> ->]|Hin]%elem_of_cons; [|by apply I2]. rewrite I3 by (done || apply slot_target).
      rewrite target_lots_allocate by apply slot_target. by rewrite bool_decide_eq_true_2.
    + intros key Hs Hk. apply not_elem_of_cons in Hk as [H1 H2]. rewrite I3 by done. rewrite target_lots_allocate by done.
      by rewrite bool_decide_eq_false_2.
    + rewrite I4. unfold allocate. by destruct (is_object target).
    + rewrite I5. unfold allocate. by destruct (is_object target).
Qed.

(** ** Transitions *)

Definition target_typed (target : CapitalTarget) : Prop :=
  arr32 (ct_ObjectID target) /\ arr32 (ct_TransferID target) /\ u64 (ct_Amount target).

(** What a transition that succeeds does. *)
Record transition (t : IdleCapitalTracker) (inputs : list bytes) (targets : list CapitalTarget) (burned : Z)
    (t' : IdleCapitalTracker) : Prop := {
  tn_inputs : inputs_ok t inputs;
  tn_targets : targets_ok t targets;
  tn_given : forall target, target ∈ targets ->
    exists lots, target_lots t' (target_key target) = Some lots /\ canonical lots /\ lots <> [] /\ total lots = ct_Amount target;
  tn_rest : forall key, slot key -> key ∉ target_key <$> targets ->
    target_lots t' key = if bool_decide (key.1 = 0 /\ key.2 ∈ inputs) then None else target_lots t key;
  tn_value : exists burnt, canonical burnt /\ total burnt = burned /\
    forall w, value w (allLots t) = value w (allLots t') + value w burnt;
  tn_known : tr_bootstrapLineages t' = tr_bootstrapLineages t ∩ lineages (allLots t');
  tn_productive : tr_productive t' = tr_productive t;
  tn_objects_max : objects_count t - blen inputs + Z.of_nat (size (object_ids targets)) <= maxIdleTrackerObjects;
  tn_pending_max : transfers_count t + Z.of_nat (size (transfer_ids targets)) <= maxIdleTrackerTransfers;
}.

Lemma target_lots_delete t inputs key : slot key ->
  target_lots (delete_inputs t inputs) key = if bool_decide (key.1 = 0 /\ key.2 ∈ inputs) then None else target_lots t key.
Proof.
  destruct key as [c id]. intros [Hc|Hc]; cbn in Hc; subst c; unfold target_lots; cbn [fst snd Z.eqb delete_inputs set_objects tr_objects tr_pendingTransfers].
  - rewrite lookup_foldr_delete. repeat case_bool_decide; naive_solver.
  - rewrite bool_decide_eq_false_2; [done|]. by intros [? _].
Qed.

Lemma lots_of_valid t inputs : tracker_ok t -> Forall valid (concat (lots_of t <$> inputs)).
Proof.
  intros [Ho _ _ _ _ _]. induction inputs as [|id inputs IH]; [constructor|]. apply Forall_app. split; [|done].
  unfold lots_of. destruct (tr_objects t !! id) as [lots|] eqn:E; [|constructor]. apply (Ho _ _ E).
Qed.

Lemma valid_typed lots : Forall valid lots -> Forall typed lots.
Proof. intros Hv. eapply Forall_impl; [exact Hv|]. by intros l (? & ? & ? & _). Qed.

Lemma Target_Validate_Ok target : Target_Validate target = Ok tt -> ct_Amount target <> 0 /\
  if is_object target then IsZero32 (ct_ObjectID target) = false else IsZero32 (ct_TransferID target) = false.
Proof.
  unfold Target_Validate, is_object. intros E%fail_if_Ok. apply orb_false_iff in E as [E1%Z.eqb_neq E2]. split; [done|].
  destruct (IsZero32 (ct_ObjectID target)), (IsZero32 (ct_TransferID target)); done.
Qed.

(** What is given to the targets, and what is burned. *)
Lemma allocations_split ordered burned allocations :
  Forall canonical allocations -> Forall (fun out => out <> []) allocations -> 0 <= burned ->
  total <$> allocations = (ct_Amount <$> ordered) ++ (if 0 <? burned then [burned] else []) ->
  (zip ordered allocations).*1 = ordered /\
  (forall target lots, (target, lots) ∈ zip ordered allocations -> canonical lots /\ lots <> [] /\ total lots = ct_Amount target) /\
  (forall target, target ∈ ordered -> exists lots, (target, lots) ∈ zip ordered allocations) /\
  exists burnt, canonical burnt /\ total burnt = burned /\
    forall w, value w (concat allocations) = value w (concat (zip ordered allocations).*2) + value w burnt.
Proof.
  intros Hc Hn Hb. revert ordered. induction allocations as [|lots allocations IH]; intros ordered Ht.
  - destruct ordered as [|target ordered]; [|done]. destruct (Z.ltb_spec 0 burned); [done|]. split_and!; try done; [intros ? ? Hx; by apply not_elem_of_nil in Hx|intros ? Hx; by apply not_elem_of_nil in Hx|].
    exists []. split; [split; constructor|]. split; [unfold total; cbn; lia|done].
  - apply Forall_cons in Hc as [C1 Hc]. apply Forall_cons in Hn as [N1 Hn]. destruct ordered as [|target ordered].
    + cbn in Ht. destruct (Z.ltb_spec 0 burned); [|done]. injection Ht as Ht1 Ht2. apply fmap_nil_inv in Ht2 as ->.
      split_and!; try done; [intros ? ? Hx; by apply not_elem_of_nil in Hx|intros ? Hx; by apply not_elem_of_nil in Hx|]. exists lots. split_and!; try done. intros w. cbn. by rewrite app_nil_r.
    + cbn in Ht. injection Ht as Ht1 Ht2. destruct (IH Hc Hn _ Ht2) as (I1 & I2 & I3 & burnt & B1 & B2 & B3). split_and!.
      * cbn. by rewrite I1.
      * intros x l [[= -> ->]|Hin]%elem_of_cons; [done|by apply I2].
      * intros x [->|Hin]%elem_of_cons; [exists lots; left|]. destruct (I3 _ Hin) as [l Hl]. exists l. by right.
      * exists burnt. split_and!; try done. intros w. cbn [zip zip_with fmap list_fmap concat snd]. rewrite !value_app, B3. lia.
Qed.

Lemma applyTransition_Ok t inputs targets burned t' :
  tracker_ok t -> Forall target_typed targets -> u64 burned -> applyTransition t inputs targets burned = Ok t' ->
  transition t inputs targets burned t'.
Proof.
  intros Hok Htt Hb E. unfold applyTransition in E.
  apply bind_Ok in E as ([seen inputLots] & Hcol & E). apply bind_Ok in E as (canonicalLots & Hcomp & E).
  apply bind_Ok in E as ([so st] & Hchk & E). apply bind_Ok in E as ([] & Hmax%fail_if_Ok & E).
  apply bind_Ok in E as ([] & _ & E). apply bind_Ok in E as (allocations & Hsplit & E). apply Ok_inj in E as <-.
  destruct (proj1 (collect_iff t inputs ∅ [] inputLots) (ex_intro _ _ Hcol)) as (Hin & _ & ->). cbn [app] in *.
  apply check_targets_iff in Hchk as (Htg & _ & -> & ->). rewrite !union_empty_r_L in Hmax.
  apply orb_false_iff in Hmax as [Hm1%Z.ltb_ge Hm2%Z.ltb_ge].
  pose proof (lots_of_valid t inputs Hok) as Hv. apply compact_iff in Hcomp as (_ & _ & C & Hs); [|by apply valid_typed].
  assert (sort_by target_key targets ≡ₚ targets) as Hp by apply sort_by_perm.
  apply split_Ok in Hsplit as (_ & Hac & Han & Htot & Hsame);
    [|by apply valid_typed, C|apply Forall_app; split].
  2:{ rewrite Hp. apply Forall_fmap. eapply Forall_impl; [exact Htt|]. intros x (_ & _ & Hx). unfold u64, MaxUint64 in *. cbn. lia. }
  2:{ destruct (_ <? _); [apply Forall_singleton|constructor]. unfold u64, MaxUint64 in *. lia. }
  assert (0 <= burned) as Hb0 by (unfold u64 in Hb; lia).
  destruct (allocations_split _ _ _ Hac Han Hb0 Htot) as (Z1 & Z2 & Z3 & burnt & B1 & B2 & B3).
  destruct Htg as [Hnd Hfresh].
  destruct (allocate_all (zip (sort_by target_key targets) allocations) (delete_inputs t inputs)) as (A1 & A2 & A3 & A4 & A5).
  { rewrite Z1, Hp. done. }
  { apply Forall_forall. intros [x l] Hxl. cbn [fst]. rewrite target_lots_delete by apply slot_target.
    assert (x ∈ targets) as Hx. { rewrite <-Hp, <-Z1. apply list_elem_of_fmap. by exists (x, l). }
    rewrite Forall_forall in Hfresh. destruct (Hfresh x Hx) as [_ Hfr]. rewrite target_lots_target. case_bool_decide; [done|]. by destruct (is_object x). }
  set (t1 := foldl allocate _ _) in *.
  assert (forall w, value w (allLots t) = value w (allLots (pruneBootstrapLineages t1)) + value w burnt) as Hval.
  { intros w. change (allLots (pruneBootstrapLineages t1)) with (allLots t1). rewrite A1. pose proof (delete_inputs_value w t inputs Hin) as Hdel.
    rewrite !allLots_value. cbn [delete_inputs set_objects tr_objects tr_pendingTransfers]. specialize (B3 w).
    rewrite <-(Hsame w), <-(Hs w) in B3. lia. }
  split; try done.
  - intros x Hx. rewrite <-Hp in Hx. destruct (Z3 _ Hx) as [l Hl]. exists l. split; [|by apply (Z2 x)].
    change (target_lots (pruneBootstrapLineages t1)) with (target_lots t1). by apply A2.
  - intros key Hsl Hk. change (target_lots (pruneBootstrapLineages t1)) with (target_lots t1).
    rewrite A3; [by apply target_lots_delete|done|]. by rewrite Z1, Hp.
  - by exists burnt.
  - change (allLots (pruneBootstrapLineages t1)) with (allLots t1). cbn [pruneBootstrapLineages tr_bootstrapLineages]. by rewrite A4.
Qed.

Lemma key_of_target key (targets : list CapitalTarget) : key ∈ target_key <$> targets -> exists target, target ∈ targets /\ target_key target = key.
Proof. intros (x & -> & Hx)%list_elem_of_fmap. by exists x. Qed.

Lemma elem_of_object_ids id targets : id ∈ object_ids targets <-> (0, id) ∈ target_key <$> targets.
Proof.
  unfold object_ids. rewrite elem_of_list_to_set, !list_elem_of_fmap. split.
  - intros (x & -> & Hx). rewrite list_elem_of_In, filter_In in Hx. destruct Hx as [Hx Ho]. exists x.
    rewrite list_elem_of_In. split; [|done]. unfold target_key. by rewrite Ho.
  - intros (x & Hk & Hx). exists x. unfold target_key in Hk. destruct (is_object x) eqn:Ho; [|done].
    rewrite list_elem_of_In, filter_In. injection Hk as ->. rewrite <-list_elem_of_In. done.
Qed.

Lemma elem_of_transfer_ids id targets : id ∈ transfer_ids targets <-> (1, id) ∈ target_key <$> targets.
Proof.
  unfold transfer_ids. rewrite elem_of_list_to_set, !list_elem_of_fmap. split.
  - intros (x & -> & Hx). rewrite list_elem_of_In, filter_In in Hx. destruct Hx as [Hx Ho]. exists x.
    rewrite list_elem_of_In. split; [|done]. unfold target_key. apply negb_true_iff in Ho. by rewrite Ho.
  - intros (x & Hk & Hx). exists x. unfold target_key in Hk. destruct (is_object x) eqn:Ho; [done|].
    rewrite list_elem_of_In, filter_In, Ho. injection Hk as ->. rewrite <-list_elem_of_In. done.
Qed.

Section transitions.
Context (t : IdleCapitalTracker) (inputs : list bytes) (targets : list CapitalTarget) (burned : Z) (t' : IdleCapitalTracker).
Context (Hok : tracker_ok t) (Htt : Forall target_typed targets) (Htn : transition t inputs targets burned t').

(** The entry of a key after the transition is that of a target, or was there before. *)
Lemma transition_entry key lots :
  slot key -> target_lots t' key = Some lots ->
  (exists target, target ∈ targets /\ target_key target = key /\ canonical lots /\ lots <> [] /\ total lots = ct_Amount target) \/
  (key ∉ target_key <$> targets /\ target_lots t key = Some lots /\ ~ (key.1 = 0 /\ key.2 ∈ inputs)).
Proof.
  intros Hs Hl. destruct (decide (key ∈ target_key <$> targets)) as [Hin|Hnot].
  - left. apply key_of_target in Hin as (x & Hx & <-). destruct (tn_given _ _ _ _ _ Htn x Hx) as (l & Hl' & ? & ? & ?).
    rewrite Hl in Hl'. injection Hl' as ->. by exists x.
  - right. rewrite (tn_rest _ _ _ _ _ Htn key Hs Hnot) in Hl. case_bool_decide; [done|]. done.
Qed.

Lemma transition_objects : dom (tr_objects t') = (dom (tr_objects t) ∖ list_to_set inputs) ∪ object_ids targets.
Proof.
  apply set_eq. intros id. rewrite elem_of_union, elem_of_difference, elem_of_list_to_set, elem_of_object_ids, !elem_of_dom.
  change (tr_objects t' !! id) with (target_lots t' (0, id)). change (tr_objects t !! id) with (target_lots t (0, id)). split.
  - intros [lots Hl]. apply transition_entry in Hl as [(x & Hx & Hk & _)|(_ & Hl & Hi)]; [| |by left].
    + right. rewrite <-Hk. by apply list_elem_of_fmap_2.
    + left. split; [by exists lots|]. intros ?. by apply Hi.
  - intros [[[lots Hl] Hi]|Hk].
    + destruct (decide ((0, id) ∈ target_key <$> targets)) as [Hin|Hnot].
      * apply key_of_target in Hin as (x & Hx & <-). destruct (tn_given _ _ _ _ _ Htn x Hx) as (l & -> & _). by exists l.
      * rewrite (tn_rest _ _ _ _ _ Htn) by (done || by left). rewrite bool_decide_eq_false_2; [by exists lots|]. by intros [_ ?].
    + apply key_of_target in Hk as (x & Hx & <-). destruct (tn_given _ _ _ _ _ Htn x Hx) as (l & -> & _). by exists l.
Qed.

Lemma transition_pending : dom (tr_pendingTransfers t') = dom (tr_pendingTransfers t) ∪ transfer_ids targets.
Proof.
  apply set_eq. intros id. rewrite elem_of_union, elem_of_transfer_ids, !elem_of_dom.
  change (tr_pendingTransfers t' !! id) with (target_lots t' (1, id)).
  change (tr_pendingTransfers t !! id) with (target_lots t (1, id)). split.
  - intros [lots Hl]. apply transition_entry in Hl as [(x & Hx & Hk & _)|(_ & Hl & _)]; [| |by right].
    + right. rewrite <-Hk. by apply list_elem_of_fmap_2.
    + left. by exists lots.
  - intros [[lots Hl]|Hk].
    + destruct (decide ((1, id) ∈ target_key <$> targets)) as [Hin|Hnot].
      * apply key_of_target in Hin as (x & Hx & <-). destruct (tn_given _ _ _ _ _ Htn x Hx) as (l & -> & _). by exists l.
      * rewrite (tn_rest _ _ _ _ _ Htn) by (done || by right). rewrite bool_decide_eq_false_2; [by exists lots|]. by intros [? _].
    + apply key_of_target in Hk as (x & Hx & <-). destruct (tn_given _ _ _ _ _ Htn x Hx) as (l & -> & _). by exists l.
Qed.

Lemma transition_ok : tracker_ok t'.
Proof.
  destruct Htn as [[Hid Hin] [Hnd Hfr] _ _ _ Hkn Hpr Hom Hpm]. split.
  - intros id lots Hl. change (target_lots t' (0, id) = Some lots) in Hl. apply transition_entry in Hl as [(x & Hx & Hk & ? & ? & _)|(_ & Hl & _)]; [| |by left].
    + rewrite Forall_forall in Htt, Hfr. destruct (Htt x Hx) as (? & _ & _). destruct (Hfr x Hx) as [[_ Hv]%Target_Validate_Ok _].
      unfold target_key in Hk. destruct (is_object x); [|done]. injection Hk as <-. done.
    + apply (tk_objects _ Hok). exact Hl.
  - intros id lots Hl. change (target_lots t' (1, id) = Some lots) in Hl. apply transition_entry in Hl as [(x & Hx & Hk & ? & ? & _)|(_ & Hl & _)]; [| |by right].
    + rewrite Forall_forall in Htt, Hfr. destruct (Htt x Hx) as (_ & ? & _). destruct (Hfr x Hx) as [[_ Hv]%Target_Validate_Ok _].
      unfold target_key in Hk. destruct (is_object x); [done|]. injection Hk as <-. done.
    + apply (tk_pending _ Hok). exact Hl.
  - rewrite Hkn. set_solver.
  - unfold objects_count. rewrite <-size_dom, transition_objects. etrans; [|exact Hom]. unfold objects_count, blen.
    rewrite <-(size_dom (tr_objects t)). rewrite size_union_alt.
    assert (list_to_set inputs ⊆ dom (tr_objects t)) as Hsub.
    { intros id Hi. apply elem_of_list_to_set in Hi. rewrite Forall_forall in Hin. destruct (Hin id Hi) as (_ & l & Hl & _).
      by apply elem_of_dom_2 in Hl. }
    rewrite size_difference by done. rewrite size_list_to_set by done.
    pose proof (subseteq_size _ _ Hsub) as Hle. rewrite size_list_to_set in Hle by done.
    pose proof (subseteq_size (object_ids targets ∖ (dom (tr_objects t) ∖ list_to_set inputs)) (object_ids targets) ltac:(set_solver)). lia.
  - unfold transfers_count. rewrite <-size_dom, transition_pending. etrans; [|exact Hpm]. unfold transfers_count.
    rewrite <-(size_dom (tr_pendingTransfers t)), size_union_alt.
    pose proof (subseteq_size (transfer_ids targets ∖ dom (tr_pendingTransfers t)) (transfer_ids targets) ltac:(set_solver)). lia.
  - rewrite Hpr. apply Hok.
Qed.
End transitions.

(** A transition does not depend on the order of its inputs and targets. *)
Lemma applyTransition_perm t inputs inputs' targets targets' burned t' :
  tracker_ok t -> inputs ≡ₚ inputs' -> targets ≡ₚ targets' -> applyTransition t inputs targets burned = Ok t' ->
  applyTransition t inputs' targets' burned = Ok t'.
Proof.
  intros Hok Hpi Hpt E. unfold applyTransition in *.
  apply bind_Ok in E as ([seen inputLots] & Hcol & E). apply bind_Ok in E as (c & Hc & E).
  apply bind_Ok in E as ([so st] & Hchk & E). apply bind_Ok in E as ([] & Hmax & E).
  destruct (proj1 (collect_iff t inputs ∅ [] inputLots) (ex_intro _ _ Hcol)) as ([Hd Hall] & _ & ->). cbn [app] in *.
  destruct (proj2 (collect_iff t inputs' ∅ [] (concat (lots_of t <$> inputs')))) as [seen' ->].
  { split; [split; [by rewrite <-Hpi|by rewrite <-Hpi]|]. split; [apply Forall_forall; set_solver|done]. }
  cbn [mbind res_bind].
  assert (compactCapitalLots (concat (lots_of t <$> inputs')) = Ok c) as ->.
  { rewrite <-Hc. apply compact_same; [by apply lots_of_valid..|]. intros w. rewrite !value_concat. by rewrite Hpi. }
  cbn [mbind res_bind]. apply check_targets_iff in Hchk as ([Hnd Hfr] & _ & -> & ->).
  assert (rfold (check_target t) (∅, ∅) targets' = Ok (object_ids targets ∪ ∅, transfer_ids targets ∪ ∅)) as ->.
  { apply check_targets_iff. split; [split; by rewrite <-Hpt|]. split; [apply Forall_forall; intros x _; unfold unseen; destruct (is_object x); set_solver|].
    split; f_equal; apply set_eq; intros id; [rewrite !elem_of_object_ids|rewrite !elem_of_transfer_ids]; by rewrite Hpt. }
  cbn [mbind res_bind]. unfold blen in Hmax |- *. rewrite <-Hpi. unfold blen in Hmax. rewrite Hmax. cbn [mbind res_bind].
  rewrite <-(sort_by_proper target_key targets targets') by done.
  assert (delete_inputs t inputs' = delete_inputs t inputs) as ->.
  { unfold delete_inputs. f_equal. apply map_eq. intros id. rewrite !lookup_foldr_delete.
    by rewrite (bool_decide_ext (id ∈ inputs') (id ∈ inputs)) by (by rewrite Hpi). }
  exact E.
Qed.

(** ** The other operations *)

Lemma lineages_mono t t' : (forall lot, lot ∈ allLots t -> lot ∈ allLots t') -> lineages (allLots t) ⊆ lineages (allLots t').
Proof.
  intros Hm l. unfold lineages. rewrite !elem_of_list_to_set, !list_elem_of_fmap. intros (lot & -> & Hl). exists lot. split; [done|by apply Hm].
Qed.

Lemma BootstrapObject_Ok t id amount height t' :
  tracker_ok t -> arr32 id -> u64 amount -> u64 height -> BootstrapObject t id amount height = Ok t' ->
  tracker_ok t' /\ tr_objects t !! id = None /\ tr_objects t' = <[id := [mkLot (bootstrap_lineage id) amount height]]> (tr_objects t) /\
  tr_pendingTransfers t' = tr_pendingTransfers t /\ tr_productive t' = tr_productive t /\
  (forall w, value w (allLots t') = w (bootstrap_lineage id, height) * amount + value w (allLots t)).
Proof.
  intros Hok Hid Ha Hh E. unfold BootstrapObject in E. apply bind_Ok in E as ([] & Hg%fail_if_Ok & E).
  apply bind_Ok in E as ([] & Hm%fail_if_Ok%Z.leb_gt & E). apply bind_Ok in E as ([] & Hn%fail_if_Ok%bool_decide_eq_false%eq_None_not_Some & E).
  apply bind_Ok in E as ([] & Hv & E). apply Ok_inj in E as <-. apply orb_false_iff in Hg as [[Hz _]%orb_false_iff _].
  set (lot := mkLot _ _ _) in *. assert (valid lot) as Hlot by (split_and!; try done; apply arr32_DomainHash).
  assert (forall w, value w (allLots (mkTracker (<[id := [lot]]> (tr_objects t)) (tr_pendingTransfers t)
    ({[bootstrap_lineage id]} ∪ tr_bootstrapLineages t) (tr_productive t))) = w (bootstrap_lineage id, height) * amount + value w (allLots t)) as Hval.
  { intros w. rewrite !allLots_value. cbn [tr_objects tr_pendingTransfers]. rewrite mvalue_insert, value_cons by done.
    change (value w []) with 0. change (lot_key lot) with (bootstrap_lineage id, height). change (lot_Amount lot) with amount. lia. }
  split_and!; try done. destruct Hok as [Ho Hp Hk Hom Hpm Hc]. split; try done; cbn [tr_objects tr_pendingTransfers tr_bootstrapLineages tr_productive].
  - apply map_Forall_insert_2; [|done]. split_and!; try done. split; [cbn; repeat constructor|cbn; apply NoDup_singleton|by apply Forall_singleton].
  - apply union_subseteq. split.
    + intros l ->%elem_of_singleton. unfold lineages. rewrite elem_of_list_to_set, list_elem_of_fmap. exists lot. split; [done|].
      apply elem_of_allLots. left. exists id, [lot]. cbn. rewrite lookup_insert_eq. split; [done|left].
    + etrans; [exact Hk|]. apply lineages_mono. intros x. rewrite !elem_of_allLots. intros [(i & ls & Hi & Hx)|Hx]; [left|by right].
      exists i, ls. split; [|done]. cbn. rewrite lookup_insert_ne; [done|]. intros ->. congruence.
  - unfold objects_count in *. cbn [tr_objects]. rewrite map_size_insert, Hn. lia.
Qed.

Lemma MaterializeTransfer_Ok t transferID objectID t' :
  tracker_ok t -> arr32 objectID -> MaterializeTransfer t transferID objectID = Ok t' ->
  exists lots, tracker_ok t' /\ tr_pendingTransfers t !! transferID = Some lots /\ tr_objects t !! objectID = None /\
    tr_objects t' = <[objectID := lots]> (tr_objects t) /\ tr_pendingTransfers t' = delete transferID (tr_pendingTransfers t) /\
    tr_productive t' = tr_productive t /\ same_capital (allLots t') (allLots t).
Proof.
  intros Hok Hid E. unfold MaterializeTransfer in E. apply bind_Ok in E as ([] & Hg%fail_if_Ok & E).
  apply bind_Ok in E as ([] & Hm%fail_if_Ok%Z.leb_gt & E). apply bind_Ok in E as ([] & Hn%fail_if_Ok%bool_decide_eq_false%eq_None_not_Some & E).
  apply bind_Ok in E as (lots & Hl%some_or_Ok & E). apply bind_Ok in E as ([] & _ & E). apply Ok_inj in E as <-.
  apply orb_false_iff in Hg as [_ Hz]. exists lots.
  match goal with |- tracker_ok ?x /\ _ => assert (same_capital (allLots x) (allLots t)) as Hsame end.
  { intros w. rewrite !allLots_value. cbn [tr_objects tr_pendingTransfers]. rewrite mvalue_insert by done.
    rewrite (mvalue_delete w (tr_pendingTransfers t) transferID lots) by done. lia. }
  split_and!; try done. destruct Hok as [Ho Hp Hk Hom Hpm Hc]. destruct (Hp _ _ Hl) as (_ & _ & C & Hne).
  split; try done; cbn [tr_objects tr_pendingTransfers tr_bootstrapLineages tr_productive].
  - apply map_Forall_insert_2; [|done]. done.
  - intros i ls Hi. apply lookup_delete_Some in Hi as [_ Hi]. by apply Hp.
  - etrans; [exact Hk|]. apply lineages_mono. intros x. rewrite !elem_of_allLots. cbn [tr_objects tr_pendingTransfers].
    intros [(i & ls & Hi & Hx)|(i & ls & Hi & Hx)].
    + left. exists i, ls. split; [|done]. rewrite lookup_insert_ne; [done|]. intros ->. congruence.
    + destruct (decide (i = transferID)) as [->|Hne'].
      * left. exists objectID, lots. rewrite lookup_insert_eq. split; [done|]. congruence.
      * right. exists i, ls. split; [|done]. by rewrite lookup_delete_ne.
  - unfold objects_count in *. cbn [tr_objects]. rewrite map_size_insert, Hn. lia.
  - unfold transfers_count in *. cbn [tr_pendingTransfers]. rewrite map_size_delete, Hl. lia.
Qed.

Lemma Coverage_Observe_ok a amount bps a' :
  coverage_ok a -> u64 amount -> 0 <= bps -> Coverage_Observe a amount bps = Ok a' -> coverage_ok a'.
Proof.
  unfold coverage_ok. intros [Hu Hw] Ha Hb E. unfold Coverage_Observe in E. apply bind_Ok in E as ([] & Hg%fail_if_Ok & E). apply Ok_inj in E as <-.
  apply orb_false_iff in Hg as [[_ Hm%Z.ltb_ge]%orb_false_iff Ho]. apply add64_small in Ho as [-> Hu']; [|done|unfold u64 in Ha; lia].
  cbn [pc_observedCapital pc_weightedCoverageBps]. split; [done|]. unfold u64 in *. nia.
Qed.

Lemma add_amounts_Ok lots : forall acc amount,
  u64 acc -> Forall valid lots -> rfold add_amount acc lots = Ok amount -> amount = acc + total lots /\ u64 amount.
Proof.
  induction lots as [|lot lots IH]; intros acc amount Ha Hv E; cbn [rfold] in E.
  - apply Ok_inj in E as <-. unfold total. cbn. split; [lia|done].
  - apply Forall_cons in Hv as [V1 V2]. apply bind_Ok in E as (x & Hx & E). unfold add_amount in Hx.
    apply bind_Ok in Hx as ([] & Ho%fail_if_Ok & Hx). apply Ok_inj in Hx as <-. pose proof (valid_pos _ V1).
    apply add64_small in Ho as [Hs Hu]; [|done|lia]. rewrite Hs in E. apply IH in E as [-> ?]; [|done|done]. rewrite lots_total_cons. split; [lia|done].
Qed.

Lemma MarkObjectProductive_Ok t id height bps t' :
  tracker_ok t -> u64 height -> 0 <= bps -> MarkObjectProductive t id height bps = Ok t' ->
  exists lots marked, tr_objects t !! id = Some lots /\ tr_objects t' = <[id := marked]> (tr_objects t) /\
    tracker_ok t' /\ (forall f, value (by_lineage f) (allLots t') = value (by_lineage f) (allLots t)).
Proof.
  intros Hok Hh Hb E. unfold MarkObjectProductive in E. apply bind_Ok in E as ([] & Hg%fail_if_Ok & E).
  apply bind_Ok in E as (lots & Hl%some_or_Ok & E). apply bind_Ok in E as ([] & _ & E). apply bind_Ok in E as (amount & Ha & E).
  apply bind_Ok in E as (marked & Hmk & E). apply bind_Ok in E as (productive & Hpr & E). apply Ok_inj in E as <-.
  destruct (tk_objects _ Hok _ _ Hl) as (Hid & Hz & C & Hne). exists lots, marked. split; [done|]. split; [done|].
  apply mark_Ok in Hmk as (Cm & Hmn & Hmv); [|apply valid_typed, C|done|done].
  set (t' := set_productive _ _).
  assert (forall f, value (by_lineage f) (allLots t') = value (by_lineage f) (allLots t)) as Hval.
  { intros f. rewrite !allLots_value. cbn [t' set_productive set_objects tr_objects tr_pendingTransfers].
    rewrite <-insert_delete_eq, mvalue_insert by apply lookup_delete_eq. rewrite (mvalue_delete _ (tr_objects t) id lots) by done. rewrite Hmv. lia. }
  split; [|done]. pose proof (allLots_valid _ Hok) as Hav.
  assert (map_Forall entry_ok (tr_objects t')) as Ho' by (apply map_Forall_insert_2; [done|apply Hok]).
  assert (Forall valid (allLots t')) as Hav'.
  { apply Forall_forall. intros x Hx. apply elem_of_allLots in Hx as [(i & ls & Hi & Hx)|(i & ls & Hi & Hx)].
    - destruct (Ho' _ _ Hi) as (_ & _ & [_ _ Hv] & _). rewrite Forall_forall in Hv. by apply Hv.
    - destruct (tk_pending _ Hok _ _ Hi) as (_ & _ & [_ _ Hv] & _). rewrite Forall_forall in Hv. by apply Hv. }
  split; [done|apply Hok| | |apply Hok|].
  - rewrite (lineages_same (allLots t') (allLots t)) by done. apply Hok.
  - unfold objects_count. cbn [t' set_productive set_objects tr_objects]. rewrite map_size_insert, Hl. apply Hok.
  - cbn [t' set_productive tr_productive]. apply add_amounts_Ok in Ha as [_ Hu]; [|done|apply C].
    eapply Coverage_Observe_ok; [apply Hok|exact Hu|exact Hb|exact Hpr].
Qed.

(** ** Validation *)

Definition entries_lots (entries : list (bytes * list CapitalLot)) : Z := zsum ((fun entry => blen entry.2) <$> entries).

Lemma entries_lots_nonneg entries : 0 <= entries_lots entries.
Proof. apply zsum_nonneg, Forall_fmap, Forall_forall. intros x _. unfold blen. cbn. lia. Qed.

Lemma entries_lots_cons id lots entries : entries_lots ((id, lots) :: entries) = blen lots + entries_lots entries.
Proof. unfold entries_lots. rewrite fmap_cons, zsum_cons. done. Qed.

Lemma lineages_app l1 l2 : lineages (l1 ++ l2) = lineages l1 ∪ lineages l2.
Proof. unfold lineages. by rewrite fmap_app, list_to_set_app_L. Qed.

Lemma visit_entries_Ok entries : forall count active count' active',
  rfold visit_entry (count, active) entries = Ok (count', active') ->
  Forall (fun entry => IsZero32 entry.1 = false /\ compactCapitalLots entry.2 = Ok entry.2) entries /\
  active' = lineages (concat entries.*2) ∪ active.
Proof.
  induction entries as [|[id lots] entries IH]; intros count active count' active' E; cbn [rfold] in E.
  - apply Ok_inj in E. injection E as <- <-. split; [constructor|]. cbn. set_solver.
  - apply bind_Ok in E as ([c1 a1] & E1 & E). unfold visit_entry, visit_lots in E1. cbn [fst snd] in E1.
    apply bind_Ok in E1 as ([] & Hz%fail_if_Ok & E1). apply bind_Ok in E1 as (c & Hc%or_err_Ok & E1).
    apply bind_Ok in E1 as ([] & _ & E1). apply bind_Ok in E1 as ([] & He%fail_if_Ok%negb_false_iff%bool_decide_eq_true & E1).
    apply Ok_inj in E1. injection E1 as <- <-. subst c. apply IH in E as [Hall ->]. split; [by constructor|].
    cbn [fmap list_fmap concat snd]. rewrite lineages_app. set_solver.
Qed.

Lemma visit_entries_intro entries : forall count active,
  0 <= count -> Forall (fun entry => entry_ok entry.1 entry.2) entries -> count + entries_lots entries <= maxIdleTrackerLots ->
  rfold visit_entry (count, active) entries = Ok (count + entries_lots entries, lineages (concat entries.*2) ∪ active).
Proof.
  induction entries as [|[id lots] entries IH]; intros count active H0 Hall Hm; cbn [rfold].
  - unfold entries_lots. cbn. do 2 f_equal; [lia|set_solver].
  - apply Forall_cons in Hall as [(Hid & Hz & C & Hn) Hall]. cbn [fst snd] in *. rewrite entries_lots_cons in Hm |- *. pose proof (entries_lots_nonneg entries).
    assert (visit_entry (count, active) (id, lots) = Ok (count + blen lots, lineages lots ∪ active)) as ->.
    { unfold visit_entry, visit_lots. cbn [fst snd]. rewrite Hz, compact_canonical by done. cbn [fail_if or_err mbind res_bind].
      rewrite Z.eqb_refl, bool_decide_eq_true_2 by done. rewrite (proj2 (Z.ltb_ge _ count)) by lia. done. }
    cbn [mbind res_bind]. rewrite IH; [|unfold blen; lia|done|lia]. do 2 f_equal.
    + lia.
    + cbn [fmap list_fmap concat snd]. rewrite lineages_app. set_solver.
Qed.

Definition tracker_lots (t : IdleCapitalTracker) : Z := blen (allLots t).

Lemma entries_lots_range (m : gmap bytes (list CapitalLot)) : entries_lots (range_map m) = blen (concat (range_map m).*2).
Proof.
  unfold entries_lots, blen. induction (range_map m) as [|[id lots] l IH]; [done|]. cbn [fmap list_fmap concat snd].
  rewrite zsum_cons, IH, length_app. unfold blen. lia.
Qed.

Lemma range_entry_ok (m : gmap bytes (list CapitalLot)) :
  map_Forall entry_ok m <-> Forall (fun entry => entry_ok entry.1 entry.2) (range_map m).
Proof. rewrite range_map_perm, map_Forall_to_list. apply Forall_iff. by intros [id lots]. Qed.

Lemma tracker_ok_validate t : tracker_ok t -> tracker_lots t <= maxIdleTrackerLots -> Tracker_validate t = Ok tt.
Proof.
  intros Hok Hl. pose proof (allLots_valid _ Hok) as Hv. destruct Hok as [Ho Hp Hk Hom Hpm [Hu Hw]]. unfold Tracker_validate.
  rewrite (proj2 (Z.ltb_ge _ (objects_count t)) Hom), (proj2 (Z.ltb_ge _ (transfers_count t)) Hpm). cbn [orb fail_if mbind res_bind].
  unfold tracker_lots, allLots in Hl. unfold blen in Hl. rewrite length_app, Nat2Z.inj_add in Hl.
  fold (blen (concat (range_map (tr_objects t)).*2)) (blen (concat (range_map (tr_pendingTransfers t)).*2)) in Hl.
  rewrite <-!entries_lots_range in Hl. pose proof (entries_lots_nonneg (range_map (tr_objects t))).
  pose proof (entries_lots_nonneg (range_map (tr_pendingTransfers t))).
  rewrite visit_entries_intro; [|lia|by apply range_entry_ok|lia]. cbn [mbind res_bind].
  rewrite visit_entries_intro; [|lia|by apply range_entry_ok|lia]. cbn [mbind res_bind].
  rewrite rfold_unit_intro.
  - cbn [mbind res_bind]. destruct (Z.eqb_spec (pc_observedCapital (tr_productive t)) 0) as [E|E].
    + rewrite E in Hw. replace (pc_weightedCoverageBps (tr_productive t)) with 0 by lia. done.
    + rewrite (proj2 (Z.ltb_ge _ 0)), (proj2 (Z.ltb_ge (_ * _) _)) by lia. done.
  - apply Forall_forall. intros l Hin%elem_of_elements%Hk. pose proof Hin as Hin'. unfold lineages in Hin'.
    rewrite elem_of_list_to_set in Hin'. apply list_elem_of_fmap in Hin' as (lot & -> & Hlot). rewrite Forall_forall in Hv.
    destruct (Hv _ Hlot) as (_ & _ & _ & [-> _]%Lot_Validate_Ok). cbn [fail_if mbind res_bind].
    rewrite bool_decide_eq_true_2; [done|]. unfold allLots in Hin. rewrite lineages_app in Hin. set_solver.
Qed.

Definition tracker_typed (t : IdleCapitalTracker) : Prop :=
  map_Forall (fun id lots => arr32 id /\ Forall typed lots) (tr_objects t) /\
  map_Forall (fun id lots => arr32 id /\ Forall typed lots) (tr_pendingTransfers t) /\ u64 (pc_observedCapital (tr_productive t)).

Lemma validate_tracker_ok t : tracker_typed t -> Tracker_validate t = Ok tt -> tracker_ok t.
Proof.
  intros (To & Tp & Tu) E. unfold Tracker_validate in E. apply bind_Ok in E as ([] & Hm%fail_if_Ok & E).
  apply bind_Ok in E as ([c1 a1] & V1 & E). apply bind_Ok in E as ([c2 a2] & V2 & E). apply bind_Ok in E as ([] & Hk%rfold_unit_Forall & E).
  apply orb_false_iff in Hm as [Hm1%Z.ltb_ge Hm2%Z.ltb_ge]. apply visit_entries_Ok in V1 as [A1 ->]. apply visit_entries_Ok in V2 as [A2 ->].
  assert (forall (m : gmap bytes (list CapitalLot)), map_Forall (fun id lots => arr32 id /\ Forall typed lots) m ->
    Forall (fun entry => IsZero32 entry.1 = false /\ compactCapitalLots entry.2 = Ok entry.2) (range_map m) -> map_Forall entry_ok m) as Hent.
  { intros m Tm Am id lots Hl. destruct (Tm _ _ Hl) as [? Ht]. rewrite range_map_perm, Forall_forall in Am.
    destruct (Am (id, lots)) as [? Hc]; [by apply elem_of_map_to_list|]. apply compact_iff in Hc as (? & _ & ? & _); done. }
  split; [by apply Hent|by apply Hent| |done|done|].
  - intros l Hl. rewrite Forall_forall in Hk. specialize (Hk l ltac:(by apply elem_of_elements)).
    apply bind_Ok in Hk as ([] & _ & Hk%fail_if_Ok%negb_false_iff%bool_decide_eq_true). unfold allLots. rewrite lineages_app. set_solver.
  - split; [done|]. destruct (Z.eqb_spec (pc_observedCapital (tr_productive t)) 0) as [E0|E0].
    + apply fail_if_Ok, negb_false_iff, Z.eqb_eq in E. rewrite E, E0. lia.
    + apply fail_if_Ok, orb_false_iff in E as [E1%Z.ltb_ge E2%Z.ltb_ge]. lia.
Qed.

(** ** The checkpoint *)

Definition enc_lot (lot : CapitalLot) : bytes := lot_LineageID lot ++ be 8 (lot_Amount lot) ++ be 8 (lot_IdleSinceHeight lot).
Definition enc_lots (lots : list CapitalLot) : bytes := be 4 (blen lots) ++ concat (enc_lot <$> lots).
Definition enc_entry (entry : bytes * list CapitalLot) : bytes := entry.1 ++ enc_lots entry.2.
Definition enc_entries (entries : list (bytes * list CapitalLot)) : bytes := be 4 (blen entries) ++ concat (enc_entry <$> entries).

Lemma big_bytes_length z : 0 < z -> blen (big_bytes z) = Z.log2 z / 8 + 1.
Proof.
  intros Hz. unfold big_bytes, blen. rewrite (proj2 (Z.eqb_neq _ _)) by lia. rewrite length_be, Z2Nat.id; [done|].
  pose proof (Z.log2_nonneg z). pose proof (Z.div_pos (Z.log2 z) 8). lia.
Qed.

Lemma big_bytes_val z : 0 <= z -> be_val (big_bytes z) = z.
Proof.
  intros Hz. unfold big_bytes. destruct (Z.eqb_spec z 0) as [->|Hne]; [done|]. pose proof (Z.log2_nonneg z).
  apply be_val_small. split; [done|]. rewrite Z2Nat.id by (pose proof (Z.div_pos (Z.log2 z) 8); lia).
  change 256 with (2 ^ 8). rewrite <-Z.pow_mul_r by (try lia; pose proof (Z.div_pos (Z.log2 z) 8); lia).
  apply Z.log2_lt_pow2; [lia|]. pose proof (Z.mul_succ_div_gt (Z.log2 z) 8). lia.
Qed.

Lemma coverage_bytes a : coverage_ok a -> blen (big_bytes (pc_weightedCoverageBps a)) <= maxIdleTrackerBigIntBytes.
Proof.
  intros [Hu Hw]. destruct (Z.eq_dec (pc_weightedCoverageBps a) 0) as [->|Hne]; [by vm_compute|].
  rewrite big_bytes_length by lia. assert (Z.log2 (pc_weightedCoverageBps a) < 80) as Hlog.
  { apply Z.log2_lt_pow2; [lia|]. unfold u64 in Hu. lia. }
  assert (Z.log2 (pc_weightedCoverageBps a) / 8 < 10) by (apply Z.div_lt_upper_bound; lia). unfold maxIdleTrackerBigIntBytes. lia.
Qed.

Lemma writeCapitalLots_Ok w lots : canonical lots -> lots <> [] -> blen lots <= maxIdleTrackerLots -> writeCapitalLots w lots = Ok (w ++ enc_lots lots).
Proof.
  intros C Hn Hl. unfold writeCapitalLots. rewrite compact_canonical by done. cbn [or_err mbind res_bind].
  rewrite (proj2 (Z.ltb_ge _ _)) by done. cbn [fail_if mbind res_bind].
  rewrite (writer_loop _ enc_lot) by (intros; unfold write_lot, enc_lot; by writer_norm).
  unfold enc_lots. writer_norm. by rewrite be4_mod.
Qed.

Lemma write_entries_loop entries : forall w,
  Forall (fun entry => entry_ok entry.1 entry.2) entries -> entries_lots entries <= maxIdleTrackerLots ->
  rfold write_entry w entries = Ok (w ++ concat (enc_entry <$> entries)).
Proof.
  induction entries as [|[id lots] entries IH]; intros w Hall Hm; cbn [rfold fmap list_fmap concat]; [by rewrite app_nil_r|].
  apply Forall_cons in Hall as [(_ & _ & C & Hn) Hall]. rewrite entries_lots_cons in Hm. pose proof (entries_lots_nonneg entries).
  assert (0 <= blen lots) by (unfold blen; lia). cbn [fst snd] in *.
  change (write_entry w (id, lots)) with (writeCapitalLots (w |> Writer.Fixed id) lots). rewrite writeCapitalLots_Ok by (done || lia).
  cbn [mbind res_bind]. rewrite IH by (done || lia). unfold Writer.Fixed, enc_entry. cbn [fst snd]. by rewrite <-!app_assoc.
Qed.

Lemma entries_lots_perm l1 l2 : l1 ≡ₚ l2 -> entries_lots l1 = entries_lots l2.
Proof. intros Hp. unfold entries_lots. by rewrite Hp. Qed.

(** The entries of a map as the checkpoint lists them. *)
Definition listed (m : gmap bytes (list CapitalLot)) : list (bytes * list CapitalLot) := sort_by fst (range_map m).

Lemma listed_perm m : listed m ≡ₚ map_to_list m.
Proof. unfold listed. by rewrite sort_by_perm, range_map_perm. Qed.

Lemma listed_ok m : map_Forall entry_ok m -> Forall (fun entry => entry_ok entry.1 entry.2) (listed m).
Proof. intros Hm. rewrite listed_perm, <-range_map_perm. by apply range_entry_ok. Qed.

Lemma listed_lots m : entries_lots (listed m) = blen (concat (range_map m).*2).
Proof. rewrite <-entries_lots_range. apply entries_lots_perm, sort_by_perm. Qed.

Lemma listed_map m : list_to_map (listed m) = m.
Proof.
  rewrite <-(list_to_map_to_list m) at 2. apply list_to_map_proper; [|apply listed_perm].
  rewrite listed_perm. apply NoDup_fst_map_to_list.
Qed.

Lemma listed_length m : blen (listed m) = Z.of_nat (size m).
Proof. unfold blen. by rewrite listed_perm, length_map_to_list. Qed.

Lemma write_entries_Ok w m :
  map_Forall entry_ok m -> entries_lots (listed m) <= maxIdleTrackerLots -> write_entries w m = Ok (w ++ enc_entries (listed m)).
Proof.
  intros Hm Hl. unfold write_entries. rewrite (write_entries_loop (sort_by fst (range_map m))); [|by apply listed_ok|done].
  unfold enc_entries, listed. writer_norm. by rewrite be4_mod.
Qed.

Lemma reads_lot post lot : valid lot -> reads post read_lot (enc_lot lot) lot.
Proof.
  intros (Ha & Hi & Hl & Hv). rewrite blen32 in Hl. unfold read_lot, enc_lot. destruct lot as [l a i]. cbn [lot_LineageID lot_Amount lot_IdleSinceHeight] in *.
  solve_reads; try done. by rewrite Hv.
Qed.

Lemma reads_lots post total lots :
  canonical lots -> lots <> [] -> 0 <= total -> total + blen lots <= maxIdleTrackerLots ->
  reads post (readCapitalLots total) (enc_lots lots) (lots, total + blen lots).
Proof.
  intros C Hne Ht Hm. pose proof (proj1 (Z.eqb_neq _ _) (proj2 (blen_nil lots) Hne)) as Hn. unfold maxIdleTrackerLots in *. assert (0 <= blen lots) by (unfold blen; lia).
  unfold readCapitalLots, enc_lots. rewrite <-(app_nil_r (concat _)). eapply reads_bind.
  { apply reads_or_err, reads_u32. unfold u32. lia. }
  eapply reads_bind0. { apply reads_fail_if. unfold maxIdleTrackerLots. lia. }
  eapply reads_bind. { apply (reads_repeat_count _ _ valid); [apply reads_lot|apply C]. }
  solve_reads.
  - by rewrite compact_canonical.
  - by rewrite Z.eqb_refl.
  - by rewrite bool_decide_eq_true_2.
Qed.

Lemma reads_entries entries : forall post acc total,
  Forall (fun entry => entry_ok entry.1 entry.2) entries -> NoDup entries.*1 -> Forall (fun entry => acc !! entry.1 = None) entries ->
  0 <= total -> total + entries_lots entries <= maxIdleTrackerLots ->
  reads post (read_entries (length entries) (acc, total)) (concat (enc_entry <$> entries)) (list_to_map entries ∪ acc, total + entries_lots entries).
Proof.
  induction entries as [|[id lots] entries IH]; intros post acc total Hall Hd Hf Ht Hm; cbn [length read_entries fmap list_fmap concat list_to_map foldr].
  - change (entries_lots []) with 0. rewrite Z.add_0_r. unfold list_to_map. cbn. rewrite (left_id_L ∅ (∪)). apply reads_ret.
  - apply Forall_cons in Hall as [(Hid & Hz & C & Hn) Hall], Hf as [Hf0 Hf]. apply NoDup_cons in Hd as [Hni Hd].
    cbn [fst snd] in *. rewrite entries_lots_cons in Hm |- *. pose proof (entries_lots_nonneg entries).
    assert (0 <= blen lots) by (unfold blen; lia).
    eapply reads_bind.
    + unfold read_entry, enc_entry. cbn [fst snd]. rewrite blen32 in Hid. rewrite <-(app_nil_r (enc_lots lots)).
      eapply reads_bind; [by apply reads_or_err, reads_fixed|]. eapply reads_bind0; [by apply reads_fail_if|].
      eapply reads_bind0; [apply reads_fail_if; by rewrite Hf0|]. eapply reads_bind; [apply reads_lots; [done|done|done|lia]|]. apply reads_ret.
    + cbn [fst snd]. assert (list_to_map entries !! id = None) as Hli by (by apply not_elem_of_list_to_map_1).
      rewrite <-insert_union_l, insert_union_r, Z.add_assoc by done. apply IH; [done|done| |lia|lia].
      apply Forall_forall. intros [id' lots'] Hin. rewrite Forall_forall in Hf. rewrite lookup_insert_ne; [by apply (Hf (id', lots'))|].
      cbn. intros <-. apply Hni. apply list_elem_of_fmap. by exists (id, lots').
Qed.

Lemma reads_lineages ls : forall post known,
  Forall (fun l => arr32 l /\ IsZero32 l = false) ls -> NoDup ls -> Forall (fun l => l ∉ known) ls ->
  reads post (read_lineages (length ls) known) (concat ls) (list_to_set ls ∪ known).
Proof.
  induction ls as [|l ls IH]; intros post known Hall Hd Hf; cbn [length read_lineages concat list_to_set].
  - rewrite union_empty_l_L. apply reads_ret.
  - apply Forall_cons in Hall as [[Hl Hz] Hall], Hf as [Hf0 Hf]. apply NoDup_cons in Hd as [Hni Hd]. rewrite blen32 in Hl.
    eapply reads_bind.
    + unfold read_lineage. solve_reads; try done. by apply bool_decide_eq_false_2.
    + replace ({[l]} ∪ list_to_set ls ∪ known) with (list_to_set ls ∪ ({[l]} ∪ known)) by set_solver.
      apply IH; [done|done|]. rewrite Forall_forall in Hf |- *. intros x Hx. specialize (Hf x Hx). set_solver.
Qed.

(** The lineages as the checkpoint lists them. *)
Definition listed_lineages (t : IdleCapitalTracker) : list bytes := sort_by (fun l => l) (elements (tr_bootstrapLineages t)).

Definition enc_tracker (t : IdleCapitalTracker) : bytes :=
  be 2 idleCapitalTrackerVersion ++ enc_entries (listed (tr_objects t)) ++ enc_entries (listed (tr_pendingTransfers t)) ++
  be 4 (blen (listed_lineages t)) ++ concat (listed_lineages t) ++
  be 8 (pc_observedCapital (tr_productive t)) ++ enc_bytes (big_bytes (pc_weightedCoverageBps (tr_productive t))).

Lemma known_typed t : tracker_ok t -> Forall (fun l => arr32 l /\ IsZero32 l = false) (listed_lineages t).
Proof.
  intros Hok. pose proof (allLots_valid _ Hok) as Hv. unfold listed_lineages. rewrite sort_by_perm. apply Forall_forall.
  intros l Hl%elem_of_elements%(tk_known _ Hok). unfold lineages in Hl. rewrite elem_of_list_to_set in Hl.
  apply list_elem_of_fmap in Hl as (lot & -> & Hlot). rewrite Forall_forall in Hv. destruct (Hv _ Hlot) as (_ & _ & ? & [? _]%Lot_Validate_Ok). done.
Qed.

Lemma size_list_to_set_le (l : list bytes) : (size (list_to_set l : gset bytes) <= length l)%nat.
Proof.
  induction l as [|x l IH]; [done|]. cbn [list_to_set length].
  rewrite size_union_alt, size_singleton. pose proof (subseteq_size (list_to_set l ∖ {[x]}) (list_to_set l : gset bytes) ltac:(set_solver)). lia.
Qed.

(** No more lineages are known than lots are held. *)
Lemma known_count t : tracker_ok t -> blen (listed_lineages t) <= tracker_lots t.
Proof.
  intros Hok. unfold tracker_lots, blen, listed_lineages. rewrite sort_by_perm. change (length (elements (tr_bootstrapLineages t))) with (size (tr_bootstrapLineages t)).
  pose proof (subseteq_size _ _ (tk_known _ Hok)) as Hs. unfold lineages in Hs.
  pose proof (size_list_to_set_le (lot_LineageID <$> allLots t)) as Hs'. rewrite length_fmap in Hs'. lia.
Qed.

Lemma tracker_lots_sum t : entries_lots (listed (tr_objects t)) + entries_lots (listed (tr_pendingTransfers t)) = tracker_lots t.
Proof. rewrite !listed_lots. unfold tracker_lots, allLots, blen. rewrite length_app. lia. Qed.

Lemma CheckpointBytes_Ok t : tracker_ok t -> tracker_lots t <= maxIdleTrackerLots -> CheckpointBytes t = Ok (enc_tracker t).
Proof.
  intros Hok Hl. rewrite <-tracker_lots_sum in Hl. unfold CheckpointBytes.
  rewrite (proj2 (Z.ltb_ge _ (objects_count t)) (tk_objects_max _ Hok)), (proj2 (Z.ltb_ge _ (transfers_count t)) (tk_pending_max _ Hok)).
  pose proof (entries_lots_nonneg (listed (tr_objects t))). pose proof (entries_lots_nonneg (listed (tr_pendingTransfers t))).
  cbn [orb fail_if mbind res_bind]. rewrite write_entries_Ok by (apply Hok || lia). cbn [mbind res_bind].
  rewrite write_entries_Ok by (apply Hok || lia). cbn [mbind res_bind].
  rewrite (proj2 (Z.ltb_ge _ _)) by apply coverage_bytes, Hok. cbn [fail_if mbind res_bind].
  rewrite (writer_loop _ (fun l => l)) by done. rewrite list_fmap_id. unfold enc_tracker, listed_lineages. writer_norm. by rewrite be4_mod.
Qed.

Lemma reads_listed post m total :
  map_Forall entry_ok m -> 0 <= total -> total + entries_lots (listed m) <= maxIdleTrackerLots ->
  reads post (read_entries (Z.to_nat (blen (listed m))) (∅, total)) (concat (enc_entry <$> listed m)) (m, total + entries_lots (listed m)).
Proof.
  intros Hm Ht Hl. unfold blen. rewrite Nat2Z.id.
  pose proof (reads_entries (listed m) post ∅ total (listed_ok m Hm)) as Hr. rewrite listed_map, (right_id_L ∅ (∪)) in Hr.
  apply Hr; [rewrite listed_perm; apply NoDup_fst_map_to_list| |done|done]. apply Forall_forall. intros x _. apply lookup_empty.
Qed.

Lemma restore_checkpoint t : tracker_ok t -> tracker_lots t <= maxIdleTrackerLots -> RestoreIdleCapitalTracker (enc_tracker t) = Ok t.
Proof.
  intros Hok Hl. pose proof (tracker_ok_validate t Hok Hl) as Hv. pose proof (known_count t Hok) as Hkc.
  pose proof (known_typed t Hok) as Hkt. pose proof (tk_objects_max _ Hok) as Hom. pose proof (tk_pending_max _ Hok) as Hpm.
  pose proof (coverage_bytes _ (tk_coverage _ Hok)) as Hcb. destruct (tk_coverage _ Hok) as [Hu Hw]. rewrite <-tracker_lots_sum in Hl, Hkc.
  pose proof (entries_lots_nonneg (listed (tr_objects t))). pose proof (entries_lots_nonneg (listed (tr_pendingTransfers t))).
  assert (0 <= blen (listed_lineages t)) by (unfold blen; lia).
  unfold objects_count, transfers_count in Hom, Hpm. rewrite <-listed_length in Hom, Hpm.
  assert (0 <= blen (listed (tr_objects t))) by (unfold blen; lia). assert (0 <= blen (listed (tr_pendingTransfers t))) by (unfold blen; lia).
  unfold maxIdleTrackerObjects, maxIdleTrackerTransfers, maxIdleTrackerLots in *.
  unfold RestoreIdleCapitalTracker, enc_tracker, enc_entries. apply reads_parse. app_norm.
  eapply reads_bind; [by apply reads_or_err, reads_u16|]. eapply reads_bind0; [by apply reads_fail_if|].
  eapply reads_bind; [apply reads_or_err, reads_u32; unfold u32; lia|].
  eapply reads_bind0; [apply reads_fail_if; unfold maxIdleTrackerObjects; lia|].
  eapply reads_bind; [apply reads_listed; [apply Hok|lia|unfold maxIdleTrackerLots; lia]|]. cbv beta iota.
  eapply reads_bind; [apply reads_or_err, reads_u32; unfold u32; lia|].
  eapply reads_bind0; [apply reads_fail_if; unfold maxIdleTrackerTransfers; lia|].
  eapply reads_bind; [apply reads_listed; [apply Hok|lia|unfold maxIdleTrackerLots; lia]|]. cbv beta iota.
  eapply reads_bind; [apply reads_or_err, reads_u32; unfold u32; lia|].
  eapply reads_bind0; [apply reads_fail_if; unfold maxIdleTrackerLots; lia|].
  eapply reads_bind.
  { unfold blen at 1. rewrite Nat2Z.id. apply reads_lineages; [done| |apply Forall_forall; set_solver].
    unfold listed_lineages. rewrite sort_by_perm. apply NoDup_elements. }
  eapply reads_bind; [by apply reads_or_err, reads_u64|]. eapply reads_bind1; [by apply reads_or_err, reads_bytes|].
  eapply reads_bind0; [apply reads_or_err, reads_done|]. cbv zeta.
  match goal with |- context [Tracker_validate ?x] => assert (x = t) as Ht end.
  { destruct t as [ob pe kn [ob' we]]. cbn [tr_objects tr_pendingTransfers tr_bootstrapLineages tr_productive pc_observedCapital pc_weightedCoverageBps listed_lineages] in *.
    f_equal; [|f_equal; apply big_bytes_val; lia]. unfold listed_lineages. cbn. apply set_eq. intros l.
    rewrite elem_of_union, elem_of_list_to_set, sort_by_perm, elem_of_elements. set_solver. }
  rewrite Ht. eapply reads_bind0; [by apply reads_lift|]. apply reads_ret.
Qed.

(** ** Histories

    The trackers the operations reach, with what they bootstrapped less what they
    burned. *)

Inductive history : IdleCapitalTracker -> Z -> Prop :=
  | history_new : history NewIdleCapitalTracker 0
  | history_bootstrap t c id amount height t' :
      history t c -> arr32 id -> u64 amount -> u64 height -> BootstrapObject t id amount height = Ok t' -> history t' (c + amount)
  | history_transition t c inputs targets burned t' :
      history t c -> Forall target_typed targets -> u64 burned -> ApplyTransition t inputs targets burned = Ok t' -> history t' (c - burned)
  | history_materialize t c transferID objectID t' :
      history t c -> arr32 objectID -> MaterializeTransfer t transferID objectID = Ok t' -> history t' c
  | history_mark t c id height bps t' :
      history t c -> u64 height -> 0 <= bps -> MarkObjectProductive t id height bps = Ok t' -> history t' c
  | history_reset t c : history t c -> history (ResetProductiveCoverage t) c.

Lemma ApplyTransition_Ok t inputs targets burned t' :
  ApplyTransition t inputs targets burned = Ok t' -> applyTransition t inputs targets burned = Ok t'.
Proof. intros E. by apply bind_Ok in E as ([] & _ & E). Qed.

Lemma total_by_lineage lots : total lots = value (by_lineage (fun _ => 1)) lots.
Proof. apply total_value. Qed.

Lemma on_lineage_pos l k : 0 <= on_lineage l k.
Proof. unfold on_lineage, by_lineage. by case_bool_decide. Qed.

(** A transition leaves no lineage that was not there. *)
Lemma transition_lineages t inputs targets burned t' :
  tracker_ok t -> tracker_ok t' -> transition t inputs targets burned t' -> lineages (allLots t') ⊆ lineages (allLots t).
Proof.
  intros Hok Hok' [_ _ _ _ (burnt & C & _ & Hv) _ _ _ _] l. rewrite !lineage_alive by (by apply allLots_valid). rewrite Hv.
  pose proof (value_nonneg (on_lineage l) (allLots t') (allLots_valid _ Hok') (on_lineage_pos l)).
  pose proof (value_nonneg (on_lineage l) burnt (cn_valid _ C) (on_lineage_pos l)). lia.
Qed.

Lemma history_inv t c : history t c -> tracker_ok t /\ total (allLots t) = c /\ tr_bootstrapLineages t = lineages (allLots t).
Proof.
  induction 1 as [|t c id amount height t' _ (Hok & Hc & Hk) Hid Ha Hh E|t c inputs targets burned t' _ (Hok & Hc & Hk) Htt Hb E
    |t c transferID objectID t' _ (Hok & Hc & Hk) Hid E|t c id height bps t' _ (Hok & Hc & Hk) Hh Hb E|t c _ (Hok & Hc & Hk)].
  - assert (allLots NewIdleCapitalTracker = []) as Hnil.
    { destruct (allLots NewIdleCapitalTracker) as [|x l] eqn:E; [done|]. exfalso.
      assert (x ∈ allLots NewIdleCapitalTracker) as Hx by (rewrite E; left).
      apply elem_of_allLots in Hx as [(i & ls & Hi & _)|(i & ls & Hi & _)]; cbn in Hi; by rewrite lookup_empty in Hi. }
    rewrite Hnil. split; [|done]. split; [apply map_Forall_empty|apply map_Forall_empty|by rewrite Hnil|by vm_compute|by vm_compute|]. by split; vm_compute.
  - pose proof (BootstrapObject_Ok _ _ _ _ _ Hok Hid Ha Hh E) as (Hok' & _ & _ & _ & _ & Hv). split; [done|].
    split; [rewrite total_value, Hv, <-total_value; lia|].
    apply (anti_symm (⊆)); [apply Hok'|]. intros l. rewrite lineage_alive by (by apply allLots_valid). rewrite Hv.
    unfold BootstrapObject in E. repeat (apply bind_Ok in E as ([] & _ & E)). apply Ok_inj in E as <-. cbn [tr_bootstrapLineages].
    rewrite Hk, elem_of_union, elem_of_singleton, lineage_alive by (by apply allLots_valid).
    destruct (decide (l = bootstrap_lineage id)) as [->|Hne]; [by left|]. intros Hl. right.
    assert (on_lineage l (bootstrap_lineage id, height) = 0) as H0 by (unfold on_lineage, by_lineage; cbn [fst]; by rewrite bool_decide_eq_false_2).
    rewrite H0 in Hl. lia.
  - apply ApplyTransition_Ok, applyTransition_Ok in E; [|done..]. pose proof (transition_ok _ _ _ _ _ Hok Htt E) as Hok'.
    split; [done|]. pose proof (transition_lineages _ _ _ _ _ Hok Hok' E) as Hs. destruct E as [_ _ _ _ (burnt & _ & Hb' & Hv) Hkn _ _ _].
    split; [|rewrite Hkn, Hk; set_solver]. rewrite total_value in Hc, Hb' |- *. specialize (Hv (fun _ => 1)). lia.
  - pose proof (MaterializeTransfer_Ok _ _ _ _ Hok Hid E) as (lots & Hok' & _ & _ & _ & _ & _ & Hs). split; [done|].
    split; [by rewrite total_value, Hs, <-total_value|].
    rewrite (lineages_same (allLots t') (allLots t)) by (try (by apply allLots_valid); intros f; apply Hs). rewrite <-Hk.
    unfold MaterializeTransfer in E. apply bind_Ok in E as ([] & _ & E). apply bind_Ok in E as ([] & _ & E).
    apply bind_Ok in E as ([] & _ & E). apply bind_Ok in E as (? & _ & E). apply bind_Ok in E as ([] & _ & E). by apply Ok_inj in E as <-.
  - pose proof (MarkObjectProductive_Ok _ _ _ _ _ Hok Hh Hb E) as (lots & marked & _ & _ & Hok' & Hs). split; [done|].
    split; [by rewrite total_by_lineage, Hs, <-total_by_lineage|].
    rewrite (lineages_same (allLots t') (allLots t)) by (try (by apply allLots_valid); done). rewrite <-Hk.
    unfold MarkObjectProductive in E. apply bind_Ok in E as ([] & _ & E). apply bind_Ok in E as (? & _ & E). apply bind_Ok in E as ([] & _ & E).
    apply bind_Ok in E as (? & _ & E). apply bind_Ok in E as (? & _ & E). apply bind_Ok in E as (? & _ & E). by apply Ok_inj in E as <-.
  - split; [|done]. destruct Hok. by split.
Qed.

(** ** Snapshots *)

Lemma BuildDormancyHistogram_total lots height bounds h :
  Forall valid lots -> BuildDormancyHistogram lots height bounds = Ok h -> dh_Total h = total lots /\ total lots <= MaxUint64.
Proof.
  intros Hv E. unfold BuildDormancyHistogram in E. apply bind_Ok in E as ([] & _ & E). apply bind_Ok in E as ([] & _ & E).
  rewrite <-(histogram_nil height bounds), count_lots in E by (done || constructor). cbn [app] in E.
  destruct (forallb _ _); [|done]. cbn [andb] in E. destruct (Z.leb_spec (total lots) MaxUint64); [|done]. by apply Ok_inj in E as <-.
Qed.

Lemma add_bootstraps known lots : forall acc amount,
  Forall valid lots -> lineages lots ⊆ known -> 0 <= acc -> acc + total lots <= MaxUint64 ->
  rfold (add_bootstrap known) acc lots = Ok amount -> amount = acc + total lots.
Proof.
  induction lots as [|lot lots IH]; intros acc amount Hv Hk Ha Hm E; cbn [rfold] in E.
  - apply Ok_inj in E as <-. change (total []) with 0. lia.
  - apply Forall_cons in Hv as [V1 V2]. rewrite lots_total_cons in Hm |- *. pose proof (valid_pos _ V1). pose proof (total_nonneg _ V2).
    apply bind_Ok in E as (x & Hx & E). unfold add_bootstrap in Hx.
    rewrite bool_decide_eq_true_2 in Hx by (apply Hk; unfold lineages; set_solver). cbn [negb] in Hx.
    apply bind_Ok in Hx as ([] & Ho%fail_if_Ok & Hx). apply Ok_inj in Hx as <-.
    apply add64_small in Ho as [Hs _]; [|unfold u64, MaxUint64 in *; lia|lia]. rewrite Hs in E.
    apply IH in E; [lia|done| |lia|lia]. etrans; [|exact Hk]. unfold lineages. set_solver.
Qed.

Lemma listed_any_order (HM' : MapOrder) (m : gmap bytes (list CapitalLot)) : sort_by fst (@range_map HM' _ m) = sort_by fst (@range_map HM _ m).
Proof.
  apply sort_by_proper; [|by rewrite !range_map_perm]. rewrite range_map_perm. apply NoDup_fst_map_to_list.
Qed.

Lemma CheckpointBytes_any_order (HM' : MapOrder) t : @CheckpointBytes HM' t = @CheckpointBytes HM t.
Proof. unfold CheckpointBytes, write_entries. by rewrite !(listed_any_order HM'). Qed.

(** ** The accounting of a tracker *)

(** C26: A tracker reached from the empty one by bootstraps, transitions,
    materialisations, productive marks and coverage resets, in any order, holds
    exactly the capital that was bootstrapped less the capital that was burned,
    every live lineage is a bootstrap lineage, every snapshot reports that amount
    as tracked and as bootstrap capital, and, if it holds at most 500,000 lots, its
    checkpoint exists, does not depend on the order in which its maps are listed
    and restores the same tracker.  (The legs that replace the components of a
    settled job are not among these operations; the trackers of a collector
    are the subject of IdleLineageProofs.) *)
Theorem tracked_capital_accounted t c :
  history t c ->
  total (allLots t) = c /\ tr_bootstrapLineages t = lineages (allLots t) /\
  (forall height bounds snapshot, Tracker_Snapshot t height bounds = Ok snapshot ->
    is_TrackedCapital snapshot = c /\ is_BootstrapCapital snapshot = c) /\
  (tracker_lots t <= maxIdleTrackerLots ->
    exists data, (forall order : MapOrder, @CheckpointBytes order t = Ok data) /\ RestoreIdleCapitalTracker data = Ok t).
Proof.
  intros (Hok & Hc & Hk)%history_inv. split; [done|]. split; [done|]. pose proof (allLots_valid _ Hok) as Hv. split.
  - intros height bounds snapshot E. unfold Tracker_Snapshot in E. apply bind_Ok in E as ([] & _ & E). apply bind_Ok in E as ([] & _ & E).
    apply bind_Ok in E as (h & Hh & E). apply bind_Ok in E as (b & Hb & E). apply bind_Ok in E as ([o cv] & _ & E). apply Ok_inj in E as <-.
    cbn [is_TrackedCapital is_BootstrapCapital]. apply BuildDormancyHistogram_total in Hh as [-> Hm]; [|done]. split; [done|].
    apply add_bootstraps in Hb; [lia|done|by rewrite Hk|lia|lia].
  - intros Hl. exists (enc_tracker t). split; [|by apply restore_checkpoint]. intros order.
    rewrite (CheckpointBytes_any_order order t). by apply CheckpointBytes_Ok.
Qed.

(** A transition of a tracker reached by any operations gives every target lots
    of exactly its amount, takes away its inputs, leaves every other object and
    transfer as it was, and destroys exactly the burned amount; no capital changes
    its lineage or its age, whatever is counted by lineage and height; and the
    result does not depend on the order in which inputs and targets are listed. *)
Theorem transition_moves_exactly t c inputs targets burned t' :
  history t c -> Forall target_typed targets -> u64 burned -> ApplyTransition t inputs targets burned = Ok t' ->
  (forall target, target ∈ targets ->
    exists lots, target_lots t' (target_key target) = Some lots /\ canonical lots /\ total lots = ct_Amount target) /\
  (forall key, slot key -> key ∉ target_key <$> targets ->
    target_lots t' key = if bool_decide (key.1 = 0 /\ key.2 ∈ inputs) then None else target_lots t key) /\
  (exists burnt, canonical burnt /\ total burnt = burned /\ forall w, value w (allLots t) = value w (allLots t') + value w burnt) /\
  (forall inputs' targets', inputs ≡ₚ inputs' -> targets ≡ₚ targets' -> ApplyTransition t inputs' targets' burned = Ok t').
Proof.
  intros (Hok & _ & _)%history_inv Htt Hb E. pose proof (ApplyTransition_Ok _ _ _ _ _ E) as E'.
  pose proof (applyTransition_Ok _ _ _ _ _ Hok Htt Hb E') as [_ _ Hg Hr Hv _ _ _ _]. split_and!; try done.
  - intros x Hx. destruct (Hg x Hx) as (lots & ? & ? & _ & ?). by exists lots.
  - intros inputs' targets' Hi Ht. unfold ApplyTransition in E |- *. apply bind_Ok in E as ([] & Hn & _).
    unfold blen in Hn |- *. rewrite <-Hi, <-Ht, Hn. by apply (applyTransition_perm t inputs inputs' targets targets').
Qed.

(** The lots of the inputs, and what makes a transition acceptable. *)
Definition input_lots (t : IdleCapitalTracker) (inputs : list bytes) : list CapitalLot := concat (lots_of t <$> inputs).

Record acceptable (t : IdleCapitalTracker) (inputs : list bytes) (targets : list CapitalTarget) (burned : Z) : Prop := {
  ac_inputs : inputs <> [] /\ inputs_ok t inputs;
  ac_targets : targets_ok t targets;
  ac_moves : targets <> [] \/ 0 < burned;
  ac_objects : objects_count t - blen inputs + Z.of_nat (size (object_ids targets)) <= maxIdleTrackerObjects;
  ac_transfers : transfers_count t + Z.of_nat (size (transfer_ids targets)) <= maxIdleTrackerTransfers;
  ac_balance : total (input_lots t inputs) = zsum (ct_Amount <$> targets) + burned;
  ac_bound : total (input_lots t inputs) <= MaxUint64;
}.

Lemma input_lots_nil t inputs : inputs_ok t inputs -> inputs <> [] -> input_lots t inputs <> [].
Proof.
  intros [_ Hall] Hn. destruct inputs as [|id inputs]; [done|]. apply Forall_cons in Hall as [(_ & lots & Hl & Hne) _].
  unfold input_lots, lots_of. cbn. rewrite Hl. by destruct lots.
Qed.

Lemma compact_succeeds lots : Forall valid lots -> lots <> [] -> total lots <= MaxUint64 -> exists c, compactCapitalLots lots = Ok c.
Proof.
  intros Hv Hn Hm. assert (is_ok (SplitCapitalLineage lots [total lots]) = true) as [outs E]%is_ok_true.
  { apply split_succeeds; [done|done|done| |cbn; lia|done]. apply Forall_singleton.
    destruct lots as [|l lots]; [done|]. apply Forall_cons in Hv as [V1%valid_pos V2%total_nonneg]. rewrite lots_total_cons. lia. }
  unfold SplitCapitalLineage in E. apply bind_Ok in E as ([] & _ & E). apply bind_Ok in E as (c & Hc & _). by exists c.
Qed.

Lemma applyTransition_succeeds t inputs targets burned :
  tracker_ok t -> Forall target_typed targets -> u64 burned -> acceptable t inputs targets burned ->
  is_ok (applyTransition t inputs targets burned) = true.
Proof.
  intros Hok Htt Hb [[Hn Hin] Htg Hmv Ho Hp Hbal Hmax]. unfold applyTransition.
  destruct (proj2 (collect_iff t inputs ∅ [] (input_lots t inputs))) as [seen ->].
  { split; [done|]. split; [apply Forall_forall; set_solver|done]. }
  cbn [mbind res_bind]. pose proof (lots_of_valid t inputs Hok) as Hv. pose proof (input_lots_nil _ _ Hin Hn) as Hne.
  destruct (compact_succeeds _ Hv Hne Hmax) as [c Hc]. fold (input_lots t inputs) in Hc. rewrite Hc. cbn [mbind res_bind].
  apply compact_iff in Hc as (_ & _ & C & Hs); [|by apply valid_typed].
  assert (rfold (check_target t) (∅, ∅) targets = Ok (object_ids targets, transfer_ids targets)) as ->.
  { apply check_targets_iff. rewrite !union_empty_r_L. split; [done|]. split; [|done].
    apply Forall_forall. intros x _. unfold unseen. destruct (is_object x); set_solver. }
  cbn [mbind res_bind]. rewrite (proj2 (Z.ltb_ge _ (objects_count t - _ + _)) Ho), (proj2 (Z.ltb_ge _ (transfers_count t + _)) Hp).
  cbn [orb fail_if mbind res_bind]. set (ordered := sort_by target_key targets).
  assert (ordered ≡ₚ targets) as Hperm by apply sort_by_perm.
  set (amounts := (ct_Amount <$> ordered) ++ _). assert (0 <= burned) by (unfold u64 in Hb; lia).
  assert (amounts <> []) as Han.
  { unfold amounts. intros [E1 E2]%app_eq_nil. apply fmap_nil_inv in E1. rewrite E1 in Hperm. apply Permutation_nil_l in Hperm.
    destruct Hmv as [Hmv|Hmv]; [done|]. by rewrite (proj2 (Z.ltb_lt _ _) Hmv) in E2. }
  assert (zsum amounts = zsum (ct_Amount <$> targets) + burned) as Hsum.
  { unfold amounts. rewrite zsum_app. rewrite Hperm. destruct (Z.ltb_spec 0 burned); cbn; lia. }
  rewrite (proj2 (blen_nil amounts) Han). cbn [fail_if mbind res_bind].
  assert (total c = total (input_lots t inputs)) as Htc by (by rewrite !total_value, Hs).
  assert (is_ok (SplitCapitalLineage c amounts) = true) as [outs ->]%is_ok_true; [|done].
  apply split_succeeds; [apply C| |done| |lia|lia].
  - intros ->. symmetry in Hs. apply same_capital_nil in Hs; done.
  - unfold amounts. apply Forall_app. split.
    + rewrite Hperm. apply Forall_fmap. destruct Htg as [_ Hf]. rewrite Forall_forall in Hf, Htt |- *. intros x Hx.
      destruct (Hf x Hx) as [[Hz _]%Target_Validate_Ok _]. destruct (Htt x Hx) as (_ & _ & Hu). unfold u64 in Hu. cbn. lia.
    + destruct (Z.ltb_spec 0 burned); [by apply Forall_singleton|constructor].
Qed.

(** Every acceptable transition goes through: distinct tracked inputs, fresh
    distinct targets, room for them, and targets and burned amount that add up to
    what the inputs hold are all that [ApplyTransition] asks for. *)
Theorem balanced_transition_succeeds t c inputs targets burned :
  history t c -> Forall target_typed targets -> u64 burned -> acceptable t inputs targets burned ->
  exists t', ApplyTransition t inputs targets burned = Ok t' /\ history t' (c - burned).
Proof.
  intros Hh Htt Hb Hacc. destruct (history_inv _ _ Hh) as (Hok & _ & _).
  pose proof (applyTransition_succeeds _ _ _ _ Hok Htt Hb Hacc) as [t' E]%is_ok_true.
  assert (ApplyTransition t inputs targets burned = Ok t') as E'.
  { unfold ApplyTransition. destruct Hacc as [[Hn _] _ Hmv _ _ _ _]. rewrite (proj2 (blen_nil inputs) Hn). cbn [orb].
    destruct Hmv as [Hmv|Hmv].
    - by rewrite (proj2 (blen_nil targets) Hmv).
    - rewrite (proj2 (Z.eqb_neq burned 0)) by lia. by rewrite andb_false_r. }
  exists t'. split; [done|]. by eapply history_transition.
Qed.
End proofs.

(** A tracker that is bootstrapped twice, then pays one object, one transfer and a fee. *)
Module TrackerExample.
#[local] Existing Instance small_crypto.
#[local] Existing Instance some_order.

Definition first : IdleCapitalTracker := ok_or NewIdleCapitalTracker (BootstrapObject NewIdleCapitalTracker (be 32 7) 100 5).
Definition second : IdleCapitalTracker := ok_or NewIdleCapitalTracker (BootstrapObject first (be 32 3) 20 9).
Definition inputs : list bytes := [be 32 7; be 32 3].
Definition targets : list CapitalTarget := [to_transfer (be 32 9) 70; to_object (be 32 8) 40].
Definition paid : IdleCapitalTracker := ok_or NewIdleCapitalTracker (ApplyTransition second inputs targets 10).

Lemma first_history : history first (0 + 100).
Proof. eapply (history_bootstrap _ _ (be 32 7) 100 5); [apply history_new|by vm_compute..|]. vm_compute. reflexivity. Defined.

Lemma second_history : history second (0 + 100 + 20).
Proof. eapply (history_bootstrap _ _ (be 32 3) 20 9); [apply first_history|by vm_compute..|]. vm_compute. reflexivity. Defined.

Lemma targets_typed : Forall target_typed targets.
Proof. repeat constructor; by vm_compute. Qed.

Lemma paid_Ok : ApplyTransition second inputs targets 10 = Ok paid.
Proof. vm_compute. reflexivity. Qed.

Lemma paid_history : history paid (0 + 100 + 20 - 10).
Proof. eapply (history_transition _ _ inputs targets 10); [apply second_history|apply targets_typed|by vm_compute|apply paid_Ok]. Qed.

Lemma tracked_capital_accounted_witness :
  total (allLots paid) = 110 /\ exists data, CheckpointBytes paid = Ok data /\ RestoreIdleCapitalTracker data = Ok paid.
Proof.
  destruct (tracked_capital_accounted paid (0 + 100 + 20 - 10) paid_history) as (H1 & _ & _ & H4). split; [exact H1|].
  destruct H4 as (data & Hd & Hr); [vm_compute; discriminate|]. exists data. split; [apply Hd|exact Hr].
Defined.

Lemma transition_moves_exactly_witness :
  (exists lots, tr_objects paid !! be 32 8 = Some lots /\ canonical lots /\ total lots = 40) /\
  ApplyTransition second [be 32 3; be 32 7] [to_object (be 32 8) 40; to_transfer (be 32 9) 70] 10 = Ok paid.
Proof.
  destruct (transition_moves_exactly second (0 + 100 + 20) inputs targets 10 paid second_history targets_typed ltac:(by vm_compute) paid_Ok)
    as (H1 & _ & _ & H4). split.
  - apply (H1 (to_object (be 32 8) 40)). right. left.
  - apply H4; apply Permutation_swap.
Defined.

Lemma balanced_transition_succeeds_witness :
  exists t', ApplyTransition second inputs targets 10 = Ok t' /\ history t' (0 + 100 + 20 - 10).
Proof.
  apply (balanced_transition_succeeds second (0 + 100 + 20) inputs targets 10 second_history targets_typed); [by vm_compute|].
  split; [split; [discriminate|split; [apply (bool_decide_eq_true_1 _); vm_compute; reflexivity|]]|split; [apply (bool_decide_eq_true_1 _); vm_compute; reflexivity|]
    |left; discriminate|vm_compute; discriminate|vm_compute; discriminate|vm_compute; reflexivity|vm_compute; discriminate].
  - apply Forall_cons. split; [|apply Forall_singleton]; (split; [vm_compute; reflexivity|]); eexists; (split; [vm_compute; reflexivity|discriminate]).
  - apply Forall_cons. split; [|apply Forall_singleton]; split; vm_compute; reflexivity.
Defined.
End TrackerExample.
End TrackerProofs.
