(* ===== verification/IdleLineage.v ===== *)
(** * IdleLineage

    Package [internal/v2/economics], the lineage of idle capital through
    finalised transactions: native transfers and imports
    ([finalized_idle_capital.go]), the compute market
    ([finalized_compute_capital.go], [finalized_compute_capital_settlement.go],
    [finalized_compute_productive.go], [compute_capital_components.go]) and
    cross-shard lending ([finalized_lending_capital.go]).

    The functions of the source return a boolean and change the tracker only when
    it is true: here they return [None] for false, and [Some] of the tracker for
    true.  The instance [idle_tracker] at the end is what the collector of an
    epoch calls. *)

From S2P Require Import Prelude GoLib Codec Crypto Types Object Sharding Tx Lending ComputeModel ComputeMarket ComputeWork.
From S2P Require Import Contracts Execution ExecutionExtended.
From S2P Require Import EconomicsPolicy EconomicsEpoch EconomicsCollector IdleCapital IdleTracker.

Open Scope Z_scope.

Module Lineage.
Import Idle Tracker.

Definition computeSettlementReceiptOutputIndex : Z := 0xC0000000.
Definition computeSettlementLegUnknown : Z := 0.
Definition computeSettlementLegPayment : Z := 1.
Definition computeSettlementLegRefund : Z := 2.
Definition computeSettlementLegCollateralReturn : Z := 3.
Definition computeSettlementLegCollateralSlash : Z := 4.
Definition computeSettlementLegOfferExcess : Z := 5.

Section lineage.
Context `{Crypto} `{MapOrder}.

Abbreviation tracker := IdleCapitalTracker.

(** ** Amounts and inputs *)

Definition lots_amount_step (sum : Z) (lot : CapitalLot) : res Z :=
  Lot_Validate lot <?> ErrFinalizedEconomics;;
  fail_if (overflows sum (lot_Amount lot)) ErrFinalizedEconomics;;
  Ok (add64 sum (lot_Amount lot)).

Definition idleCapitalLotsAmount (lots : list CapitalLot) : res Z :=
  fail_if (blen lots =? 0) ErrFinalizedEconomics;;
  rfold lots_amount_step 0 lots.

(** [amount, err := idleCapitalLotsAmount(lots); err != nil || amount != expected] *)
Definition holds_amount (lots : list CapitalLot) (expected : Z) : res unit :=
  amount ← idleCapitalLotsAmount lots <?> ErrFinalizedEconomics;
  fail_if (negb (amount =? expected)) ErrFinalizedEconomics.

Definition consumed_set (ids : list bytes) : res (gset bytes) :=
  rfold (fun (seen : gset bytes) id => fail_if (IsZero32 id) ErrFinalizedEconomics;; Ok ({[id]} ∪ seen)) ∅ ids.

(** The witnesses of consumed native coins: the inputs, whether one was tracked
    before, whether one has no known age, and the tracker with the others
    bootstrapped. *)
Record native_inputs := mkInputs { ni_inputs : list bytes; ni_tracked : bool; ni_unknown : bool; ni_tracker : tracker }.

Definition native_input (nativeToken : bytes) (consumed : gset bytes) (st : native_inputs) (w : Witness) : res native_inputs :=
  let id := ID (w_Object w) in
  if negb (bool_decide (id ∈ consumed)) || negb (Kind (w_Object w) =? KindCoin) then Ok st
  else
    coin ← ParseCoin (Data (w_Object w));
    if negb (bool_decide (Token coin = nativeToken)) then Ok st
    else
      let inputs := ni_inputs st ++ [id] in
      match ObjectLots (ni_tracker st) id with
      | Some lots => holds_amount lots (Amount coin);; Ok (mkInputs inputs true (ni_unknown st) (ni_tracker st))
      | None =>
          if CreatedHeight coin =? 0 then Ok (mkInputs inputs (ni_tracked st) true (ni_tracker st))
          else
            t ← BootstrapObject (ni_tracker st) id (Amount coin) (CreatedHeight coin);
            Ok (mkInputs inputs (ni_tracked st) (ni_unknown st) t)
      end.

Definition prepareFinalizedNativeInputs (t : tracker) (nativeToken : bytes) (transaction : Transaction) (result : Result)
    : res native_inputs :=
  consumed ← consumed_set (Consumed result);
  rfold (native_input nativeToken consumed) (mkInputs [] false false t) (t_Witnesses transaction).

Definition finalizedNativeInputsContainTracked (t : tracker) (nativeToken : bytes) (transaction : Transaction) (result : Result) : bool :=
  existsb (fun w =>
    let id := ID (w_Object w) in
    bool_decide (id ∈ Consumed result) && (Kind (w_Object w) =? KindCoin)
    && match ParseCoin (Data (w_Object w)) with
       | Ok coin => bool_decide (Token coin = nativeToken) && bool_decide (is_Some (ObjectLots t id))
       | Err _ => false
       end) (t_Witnesses transaction).

(** ** Native transfers *)

Definition created_target (height : Z) (nativeToken : bytes) (targets : list CapitalTarget) (created : Object) : res (list CapitalTarget) :=
  if negb (Kind created =? KindCoin) then Ok targets
  else
    coin ← ParseCoin (Data created);
    if negb (bool_decide (Token coin = nativeToken)) then Ok targets
    else
      fail_if (negb (CreatedHeight coin =? height) || IsZero32 (ID created)) ErrFinalizedEconomics;;
      Ok (targets ++ [to_object (ID created) (Amount coin)]).

Definition expected_export (height : Z) (nativeToken : bytes) (shard : Z) (expected : gmap (Z * Z) OutboundOutput) (outbound : OutboundOutput)
    : res (gmap (Z * Z) OutboundOutput) :=
  if negb (o_Kind (ob_Output outbound) =? KindCoin) then Ok expected
  else
    coin ← ParseCoin (o_Data (ob_Output outbound));
    if negb (bool_decide (Token coin = nativeToken)) then Ok expected
    else
      fail_if (negb (CreatedHeight coin =? height) || (ob_DestinationShard outbound =? shard)) ErrFinalizedEconomics;;
      let key := (ob_DestinationShard outbound, ob_OutputIndex outbound) in
      fail_if (bool_decide (is_Some (expected !! key))) ErrFinalizedEconomics;;
      Ok (<[key := outbound]> expected).

(** The state of the loop over the exports: the keys seen, the exports still
    expected and the targets. *)
Definition match_export (height : Z) (nativeToken : bytes) (transaction : Transaction) (result : Result)
    (st : gset (Z * Z) * gmap (Z * Z) OutboundOutput * list CapitalTarget) (receipt : CrossShardReceipt)
    : res (gset (Z * Z) * gmap (Z * Z) OutboundOutput * list CapitalTarget) :=
  let '(seen, expected, targets) := st in
  Receipt_Validate receipt <?> ErrFinalizedEconomics;;
  fail_if (negb (SourceShard receipt =? t_ShardID transaction) || negb (SourceHeight receipt =? height)
           || negb (bool_decide (TransactionID receipt = TxID result))) ErrFinalizedEconomics;;
  let key := (DestinationShard receipt, OutputIndex receipt) in
  fail_if (bool_decide (key ∈ seen)) ErrFinalizedEconomics;;
  outbound ← some_or (expected !! key) ErrFinalizedEconomics;
  fail_if (negb (bool_decide (OutputSpec_CanonicalBytes (ob_Output outbound) = OutputSpec_CanonicalBytes (Output receipt)))) ErrFinalizedEconomics;;
  coin ← ParseCoin (o_Data (Output receipt)) <?> ErrFinalizedEconomics;
  fail_if (negb (bool_decide (Token coin = nativeToken)) || negb (CreatedHeight coin =? height)) ErrFinalizedEconomics;;
  transferID ← Receipt_Hash receipt;
  Ok ({[key]} ∪ seen, delete key expected, targets ++ [to_transfer transferID (Amount coin)]).

Definition ApplyFinalizedIdleCapitalTransfer (t : tracker) (height : Z) (nativeToken : bytes) (transaction : Transaction) (result : Result)
    (exports : list CrossShardReceipt) : res (option tracker) :=
  fail_if ((height =? 0) || IsZero32 nativeToken || negb (bool_decide (TxID result = tx_ID transaction))) ErrFinalizedEconomics;;
  match t_Operations transaction with
  | [op] =>
      if negb (op_Kind op =? OpTransfer) then Ok None
      else
        prepared ← prepareFinalizedNativeInputs t nativeToken transaction result;
        if blen (ni_inputs prepared) =? 0 then Ok None
        else if ni_unknown prepared then (if ni_tracked prepared then Err ErrFinalizedEconomics else Ok None)
        else
          targets ← rfold (created_target height nativeToken) [] (Created result);
          expected ← rfold (expected_export height nativeToken (t_ShardID transaction)) ∅ (Outbound result);
          '(_, expected, targets) ← rfold (match_export height nativeToken transaction result) (∅, expected, targets) exports;
          fail_if (negb (bool_decide (expected = ∅))) ErrFinalizedEconomics;;
          t' ← ApplyTransition (ni_tracker prepared) (ni_inputs prepared) targets (t_Fee transaction);
          Ok (Some t')
  | _ => Ok None
  end.

Definition ApplyFinalizedIdleCapitalImport (t : tracker) (nativeToken : bytes) (receipt : CrossShardReceipt) : res (option tracker) :=
  fail_if (IsZero32 nativeToken) ErrFinalizedEconomics;;
  Receipt_Validate receipt <?> ErrFinalizedEconomics;;
  '(amount, carriesNative) ← finalizedReceiptNativeValue receipt nativeToken;
  if negb carriesNative then Ok None
  else
    transferID ← Receipt_Hash receipt;
    destination ← DestinationObject receipt;
    match tr_pendingTransfers t !! transferID with
    | Some lots =>
        holds_amount lots amount;;
        t' ← MaterializeTransfer t transferID (ID destination);
        Ok (Some t')
    | None =>
        let bootstrap createdHeight :=
          fail_if (bool_decide (is_Some (tr_objects t !! ID destination))) ErrFinalizedEconomics;;
          t' ← BootstrapObject t (ID destination) amount createdHeight;
          Ok (Some t') in
        if o_Kind (Output receipt) =? KindCoin then
          coin ← ParseCoin (o_Data (Output receipt));
          if negb (bool_decide (Token coin = nativeToken)) then Ok None
          else
            fail_if ((CreatedHeight coin =? 0) || negb (CreatedHeight coin =? SourceHeight receipt)) ErrFinalizedEconomics;;
            bootstrap (CreatedHeight coin)
        else bootstrap (SourceHeight receipt)
    end.

(** ** Targets of outputs *)

Definition same_spec (a b : OutputSpec) : bool := bool_decide (OutputSpec_CanonicalBytes a = OutputSpec_CanonicalBytes b).

Definition find_local (localID : bytes) (spec : OutputSpec) (found : bool) (created : Object) : res bool :=
  if negb (bool_decide (ID created = localID)) then Ok found
  else
    fail_if (found || negb (bool_decide (Owner created = o_Owner spec)) || negb (Kind created =? o_Kind spec)
             || negb (bool_decide (Data created = o_Data spec))) ErrFinalizedEconomics;;
    Ok true.

Definition find_outbound (shard index : Z) (spec : OutputSpec) (found : option OutboundOutput) (candidate : OutboundOutput)
    : res (option OutboundOutput) :=
  if negb (ob_OutputIndex candidate =? index) || negb (same_spec (ob_Output candidate) spec) then Ok found
  else
    fail_if (bool_decide (is_Some found) || (ob_DestinationShard candidate =? shard)) ErrFinalizedEconomics;;
    Ok (Some candidate).

Definition find_receipt (transaction : Transaction) (result : Result) (destination index : Z) (spec : OutputSpec)
    (found : option CrossShardReceipt) (candidate : CrossShardReceipt) : res (option CrossShardReceipt) :=
  if negb (bool_decide (TransactionID candidate = TxID result)) || negb (SourceShard candidate =? t_ShardID transaction)
     || negb (DestinationShard candidate =? destination) || negb (OutputIndex candidate =? index) || negb (same_spec (Output candidate) spec)
  then Ok found
  else
    fail_if (bool_decide (is_Some found)) ErrFinalizedEconomics;;
    Receipt_Validate candidate <?> ErrFinalizedEconomics;;
    Ok (Some candidate).

Definition finalizedCapitalTargetForOutput (transaction : Transaction) (result : Result) (exports : list CrossShardReceipt) (index : Z)
    (spec : OutputSpec) : res CapitalTarget :=
  coin ← ParseCoin (o_Data spec) <?> ErrFinalizedEconomics;
  fail_if (negb (o_Kind spec =? KindCoin)) ErrFinalizedEconomics;;
  let localID := ObjectIDForShard (tx_ID transaction) index (t_ShardID transaction) in
  localFound ← rfold (find_local localID spec) false (Created result);
  outbound ← rfold (find_outbound (t_ShardID transaction) index spec) None (Outbound result);
  match localFound, outbound with
  | true, None => Ok (to_object localID (Amount coin))
  | false, Some outbound =>
      receipt ← rfold (find_receipt transaction result (ob_DestinationShard outbound) index spec) None exports;
      receipt ← some_or receipt ErrFinalizedEconomics;
      transferID ← Receipt_Hash receipt;
      Ok (to_transfer transferID (Amount coin))
  | _, _ => Err ErrFinalizedEconomics
  end.

Definition ordinary_target (nativeToken : bytes) (transaction : Transaction) (result : Result) (exports : list CrossShardReceipt)
    (i : Z) (targets : list CapitalTarget) (spec : OutputSpec) : res (list CapitalTarget) :=
  fail_if (negb (o_Kind spec =? KindCoin)) ErrFinalizedEconomics;;
  coin ← ParseCoin (o_Data spec) <?> ErrFinalizedEconomics;
  fail_if (negb (bool_decide (Token coin = nativeToken))) ErrFinalizedEconomics;;
  target ← finalizedCapitalTargetForOutput transaction result exports (i mod 2 ^ 32) spec;
  Ok (targets ++ [target]).

Definition finalizedComputeOrdinaryTargets (nativeToken : bytes) (transaction : Transaction) (result : Result)
    (exports : list CrossShardReceipt) : res (list CapitalTarget) :=
  rfoldi 0 (ordinary_target nativeToken transaction result exports) [] (t_Outputs transaction).

Definition applyFinalizedNativeInputsTransition (t : tracker) (nativeToken : bytes) (transaction : Transaction) (result : Result)
    (targets : list CapitalTarget) (burned : Z) : res (option tracker) :=
  prepared ← prepareFinalizedNativeInputs t nativeToken transaction result;
  if ni_unknown prepared then (if ni_tracked prepared then Err ErrFinalizedEconomics else Ok None)
  else if blen (ni_inputs prepared) =? 0 then
    fail_if (negb (blen targets =? 0) || negb (burned =? 0)) ErrFinalizedEconomics;;
    Ok None
  else
    t' ← ApplyTransition (ni_tracker prepared) (ni_inputs prepared) targets burned;
    Ok (Some t').

(** ** Lookups in transactions and results *)

Definition uniqueCreatedObjectOfKind (created : list Object) (kind : Z) : res (option Object) :=
  match List.filter (fun o => Kind o =? kind) created with
  | [] => Ok None
  | [o] => Ok (Some o)
  | _ => Err ErrFinalizedEconomics
  end.

Definition uniqueWitnessOfKind (transaction : Transaction) (kind : Z) : option Witness :=
  match List.filter (fun w => Kind (w_Object w) =? kind) (t_Witnesses transaction) with
  | [w] => Some w
  | _ => None
  end.

Definition witnessByObjectID (transaction : Transaction) (id : bytes) : option Witness :=
  snd <$> list_find (fun w => ID (w_Object w) = id) (t_Witnesses transaction).

Definition finalizedConsumedCount (consumed : list bytes) (id : bytes) : Z :=
  blen (List.filter (fun candidate => bool_decide (candidate = id)) consumed).

(** The only outbound output of an index. *)
Definition uniqueExportDestination (result : Result) (outputIndex : Z) : option Z :=
  match List.filter (fun o => ob_OutputIndex o =? outputIndex) (Outbound result) with
  | [o] => Some (ob_DestinationShard o)
  | _ => None
  end.

(** ** Components of a compute job *)

Definition ComputeCapitalComponentEscrow : Z := 1.
Definition ComputeCapitalComponentCollateral : Z := 2.

Record ComputeCapitalComponent := mkComponent {
  cc_ID : bytes;
  cc_Kind : Z;
  cc_JobID : bytes;
  cc_Provider : bytes;
  cc_Amount : Z;
}.

Record ComputeCapitalComponentSet := mkComponentSet {
  cs_JobID : bytes;
  cs_Escrow : ComputeCapitalComponent;
  cs_Collateral : list ComputeCapitalComponent;
  cs_TotalLocked : Z;
}.

Definition ComputeEscrowComponentID (jobID : bytes) : res bytes :=
  fail_if (IsZero32 jobID) ErrFinalizedEconomics;;
  Ok (HashBytes (str "economics/compute-capital/escrow/v1") jobID).

Definition ComputeCollateralComponentID (jobID provider : bytes) : res bytes :=
  fail_if (IsZero32 jobID || IsZero32 provider) ErrFinalizedEconomics;;
  Ok (HashBytes (str "economics/compute-capital/collateral/v1") (jobID ++ provider)).

Definition add_component (record : OnChainJob) (st : gset bytes * Z * list ComputeCapitalComponent) (assignment : Assignment)
    : res (gset bytes * Z * list ComputeCapitalComponent) :=
  let '(seen, locked, collateral) := st in
  let required := jb_CollateralRequired (oj_Job record) in
  fail_if (bool_decide (as_Provider assignment ∈ seen)) ErrFinalizedEconomics;;
  componentID ← ComputeCollateralComponentID (oj_ID record) (as_Provider assignment) <?> ErrFinalizedEconomics;
  fail_if (overflows locked required) ErrFinalizedEconomics;;
  Ok ({[as_Provider assignment]} ∪ seen, add64 locked required,
      collateral ++ [mkComponent componentID ComputeCapitalComponentCollateral (oj_ID record) (as_Provider assignment) required]).

Definition DeriveComputeCapitalComponents (record : OnChainJob) : res ComputeCapitalComponentSet :=
  OnChainJob_MarshalBinary record <?> ErrFinalizedEconomics;;
  fail_if (oj_Escrow record =? 0) ErrFinalizedEconomics;;
  escrowID ← ComputeEscrowComponentID (oj_ID record);
  let escrow := mkComponent escrowID ComputeCapitalComponentEscrow (oj_ID record) zero32 (oj_Escrow record) in
  if jb_CollateralRequired (oj_Job record) =? 0 then Ok (mkComponentSet (oj_ID record) escrow [] (oj_Escrow record))
  else
    '(_, locked, collateral) ← rfold (add_component record) (∅, oj_Escrow record, []) (oj_Assignments record);
    Ok (mkComponentSet (oj_ID record) escrow (sort_by cc_Provider collateral) locked).

(** ** Evidence of productive capital *)

Record FinalizedComputeProductiveEvidence := mkProductive {
  pe_JobObjectID : bytes;
  pe_JobID : bytes;
  pe_EscrowComponentID : bytes;
  pe_Escrow : Z;
  pe_Paid : Z;
  pe_CoverageBps : Z;
  pe_ResultRoot : bytes;
  pe_Verification : Z;
}.

Definition find_settlement_receipt (jobID : bytes) (found : option SettlementReceipt) (created : Object) : res (option SettlementReceipt) :=
  if negb (Kind created =? KindSystem) then Ok found
  else
    match ParseSettlementReceipt (Data created) with
    | Err _ => Ok found
    | Ok receipt =>
        if negb (bool_decide (sr_JobID receipt = jobID)) then Ok found
        else fail_if (bool_decide (is_Some found)) ErrFinalizedEconomics;; Ok (Some receipt)
    end.

Definition uniqueSettlementReceiptForJob (created : list Object) (jobID : bytes) : res (option SettlementReceipt) :=
  rfold (find_settlement_receipt jobID) None created.

Definition productiveCoverageBps (paid escrow : Z) : res Z :=
  fail_if ((paid =? 0) || (escrow =? 0) || (escrow <? paid)) ErrFinalizedEconomics;;
  let bps := Z.quot (paid * 10000) escrow in
  fail_if (10000 <? bps) ErrFinalizedEconomics;;
  Ok bps.

Definition find_job (transaction : Transaction) (jobObject : bytes) (found : option OnChainJob) (w : Witness) : res (option OnChainJob) :=
  if negb (bool_decide (ID (w_Object w) = jobObject)) then Ok found
  else
    fail_if (bool_decide (is_Some (found : option OnChainJob)) || negb (Kind (w_Object w) =? KindComputeJob)
             || negb (bool_decide (Owner (w_Object w) = t_Sender transaction))) ErrFinalizedEconomics;;
    parsed ← ParseOnChainJob (Data (w_Object w)) <?> ErrFinalizedEconomics;
    fail_if (negb (bool_decide (jb_Owner (oj_Job parsed) = t_Sender transaction))) ErrFinalizedEconomics;;
    Ok (Some parsed).

(** The receipt the settlement of a record must have left. *)
Definition expected_receipt (record : OnChainJob) (settlement : OnChainSettlement) (expired : bool) : SettlementReceipt :=
  mkSettlementReceipt (oj_ID record) (st_ResultRoot (os_Settlement settlement)) (st_Payments (os_Settlement settlement))
    (st_Refund (os_Settlement settlement)) (SlashedCollateral settlement) (SlashReward settlement) expired.

Definition check_receipt (created : list Object) (record : OnChainJob) (expected : SettlementReceipt) : res SettlementReceipt :=
  found ← uniqueSettlementReceiptForJob created (oj_ID record) <?> ErrFinalizedEconomics;
  receipt ← some_or found ErrFinalizedEconomics;
  fail_if (negb (bool_decide (SettlementReceipt_MarshalBinary receipt = SettlementReceipt_MarshalBinary expected))) ErrFinalizedEconomics;;
  Ok receipt.

Definition DeriveFinalizedComputeProductiveEvidence (transaction : Transaction) (result : Result)
    : res (option FinalizedComputeProductiveEvidence) :=
  fail_if (negb (bool_decide (TxID result = tx_ID transaction))) ErrFinalizedEconomics;;
  match t_Operations transaction with
  | [op] =>
      if negb (op_Kind op =? OpComputeFinalize) && negb (op_Kind op =? OpComputeResolveReplicated) then Ok None
      else
        ref ← ParseJobRef (op_Payload op) <?> ErrFinalizedEconomics;
        found ← rfold (find_job transaction (jr_JobObject ref)) None (t_Witnesses transaction);
        record ← some_or found ErrFinalizedEconomics;
        fail_if (negb (finalizedConsumedCount (Consumed result) (jr_JobObject ref) =? 1)) ErrFinalizedEconomics;;
        '(_, settlement) ←
          if op_Kind op =? OpComputeFinalize then
            fail_if (negb (jb_Verification (oj_Job record) =? VerificationReplicated)) ErrFinalizedEconomics;;
            FinalizeOnChain record no_evidence <?> ErrFinalizedEconomics
          else ResolveReplicatedMajority record <?> ErrFinalizedEconomics;
        receipt ← check_receipt (Created result) record (expected_receipt record settlement false);
        paid ← SettlementPaid receipt <?> ErrFinalizedEconomics;
        fail_if ((paid =? 0) || (oj_Escrow record <? paid)) ErrFinalizedEconomics;;
        coverage ← productiveCoverageBps paid (oj_Escrow record);
        components ← DeriveComputeCapitalComponents record <?> ErrFinalizedEconomics;
        fail_if (negb (cc_Amount (cs_Escrow components) =? oj_Escrow record)) ErrFinalizedEconomics;;
        Ok (Some (mkProductive (jr_JobObject ref) (oj_ID record) (cc_ID (cs_Escrow components)) (oj_Escrow record) paid coverage
          (sr_ResultRoot receipt) (jb_Verification (oj_Job record))))
  | _ => Ok None
  end.

(** ** Settlements *)

Definition settle_record (kind height : Z) (record : OnChainJob) : res OnChainSettlement :=
  if kind =? OpComputeFinalize then snd <$> FinalizeOnChain record no_evidence
  else if kind =? OpComputeResolveReplicated then snd <$> ResolveReplicatedMajority record
  else if kind =? OpComputeExpire then
    '(_, refund, collateral) ← ExpireOnChain record height;
    Ok (mkOnChainSettlement (mkSettlement (oj_ID record) zero32 ∅ refund) collateral ∅ 0)
  else Err ErrFinalizedEconomics.

(** The record, what it settles to, and the evidence of a productive settlement. *)
Definition finalizedComputeSettlement (height : Z) (transaction : Transaction) (result : Result)
    : res (OnChainJob * OnChainSettlement * option FinalizedComputeProductiveEvidence) :=
  fail_if (height =? 0) ErrFinalizedEconomics;;
  match t_Operations transaction with
  | [op] =>
      ref ← ParseJobRef (op_Payload op) <?> ErrFinalizedEconomics;
      w ← some_or (witnessByObjectID transaction (jr_JobObject ref)) ErrFinalizedEconomics;
      fail_if (negb (Kind (w_Object w) =? KindComputeJob) || negb (bool_decide (Owner (w_Object w) = t_Sender transaction))
               || negb (finalizedConsumedCount (Consumed result) (jr_JobObject ref) =? 1)) ErrFinalizedEconomics;;
      record ← ParseOnChainJob (Data (w_Object w)) <?> ErrFinalizedEconomics;
      fail_if (negb (bool_decide (jb_Owner (oj_Job record) = t_Sender transaction))) ErrFinalizedEconomics;;
      settlement ← settle_record (op_Kind op) height record <?> ErrFinalizedEconomics;
      check_receipt (Created result) record (expected_receipt record settlement (op_Kind op =? OpComputeExpire));;
      if op_Kind op =? OpComputeExpire then Ok (record, settlement, None)
      else
        evidence ← DeriveFinalizedComputeProductiveEvidence transaction result <?> ErrFinalizedEconomics;
        evidence ← some_or evidence ErrFinalizedEconomics;
        fail_if (negb (bool_decide (pe_JobID evidence = oj_ID record)) || negb (pe_Escrow evidence =? oj_Escrow record)) ErrFinalizedEconomics;;
        Ok (record, settlement, Some evidence)
  | _ => Err ErrFinalizedEconomics
  end.

Definition addAccountAmount (values : gmap bytes Z) (account : bytes) (amount : Z) : res (gmap bytes Z) :=
  fail_if ((amount =? 0) || IsZero32 account || overflows (mget values account) amount) ErrFinalizedEconomics;;
  Ok (<[account := add64 (mget values account) amount]> values).

Definition settlement_target (nativeToken : bytes) (transaction : Transaction) (result : Result) (exports : list CrossShardReceipt)
    (amounts : gmap bytes Z) (i : Z) (out : gmap bytes CapitalTarget) (account : bytes) : res (gmap bytes CapitalTarget) :=
  spec ← NewCoinOutput account nativeToken (mget amounts account);
  let index := add32 (add32 computeSettlementReceiptOutputIndex 1) (i mod 2 ^ 32) in
  target ← finalizedCapitalTargetForOutput transaction result exports index spec;
  Ok (<[account := target]> out).

Definition finalizedComputeSettlementTargets (nativeToken : bytes) (transaction : Transaction) (result : Result)
    (exports : list CrossShardReceipt) (record : OnChainJob) (settlement : OnChainSettlement) : res (gmap bytes CapitalTarget) :=
  amounts ← rfold (fun values entry => addAccountAmount values entry.1 entry.2) ∅ (range_map (st_Payments (os_Settlement settlement)));
  amounts ← rfold (fun values entry => addAccountAmount values entry.1 entry.2) amounts (range_map (CollateralReturns settlement));
  let refund := st_Refund (os_Settlement settlement) in
  fail_if (overflows refund (SlashReward settlement)) ErrFinalizedEconomics;;
  let ownerAmount := add64 refund (SlashReward settlement) in
  amounts ← if 0 <? ownerAmount then addAccountAmount amounts (jb_Owner (oj_Job record)) ownerAmount else Ok amounts;
  fail_if (existsb (fun entry : bytes * Z => entry.2 =? 0) (range_map amounts)) ErrFinalizedEconomics;;
  rfoldi 0 (settlement_target nativeToken transaction result exports amounts) ∅ (sort_by hex (range_map amounts).*1).

(** The loop that marks the oldest lots productive first. *)
Fixpoint split_productive (height remaining : Z) (lots : list CapitalLot) : Z * list CapitalLot * list CapitalLot :=
  match lots with
  | [] => (remaining, [], [])
  | lot :: lots =>
      if remaining =? 0 then
        let '(r, productive, idle) := split_productive height remaining lots in (r, productive, lot :: idle)
      else
        let take := if remaining <? lot_Amount lot then remaining else lot_Amount lot in
        let '(r, productive, idle) := split_productive height (sub64 remaining take) lots in
        (r, with_height (with_amount lot take) height :: productive,
         if take <? lot_Amount lot then with_amount lot (sub64 (lot_Amount lot) take) :: idle else idle)
  end.

Definition check_age (height sum : Z) (lot : CapitalLot) : res Z :=
  fail_if ((height <? lot_IdleSinceHeight lot) || overflows sum (lot_Amount lot)) ErrIdleCapital;;
  Ok (add64 sum (lot_Amount lot)).

Definition splitProductiveCapitalAmount (lots : list CapitalLot) (height productiveAmount : Z)
    : res (list CapitalLot * list CapitalLot) :=
  fail_if ((height =? 0) || (productiveAmount =? 0)) ErrIdleCapital;;
  canonical ← compactCapitalLots lots;
  sum ← rfold (check_age height) 0 canonical;
  fail_if (sum <? productiveAmount) ErrIdleCapital;;
  let '(remaining, productive, idle) := split_productive height productiveAmount (sort_by age_key canonical) in
  fail_if (negb (remaining =? 0)) ErrIdleCapital;;
  productive ← compactCapitalLots productive;
  idle ← if 0 <? blen idle then compactCapitalLots idle else Ok idle;
  Ok (productive, idle).

Definition computeSettlementLegObjectID (jobID : bytes) (kind : Z) (account extra : bytes) : res bytes :=
  fail_if (IsZero32 jobID || (kind <=? computeSettlementLegUnknown) || (computeSettlementLegOfferExcess <? kind)) ErrFinalizedEconomics;;
  let id := HashBytes (str "economics/compute-capital/settlement-leg/v1") (jobID ++ [byte_of_Z kind] ++ account ++ extra) in
  fail_if (IsZero32 id) ErrFinalizedEconomics;;
  Ok id.

Definition sortedPositiveAccountAmounts (values : gmap bytes Z) : list bytes :=
  sort_by (fun account => account) (List.filter (fun entry : bytes * Z => 0 <? entry.2) (range_map values)).*1.

Definition check_leg (t : tracker) (sources : gset bytes) (entry : bytes * list CapitalLot) : res unit :=
  let '(id, lots) := entry in
  fail_if (IsZero32 id) ErrIdleCapital;;
  fail_if (bool_decide (id ∈ sources)) ErrIdleCapital;;
  fail_if (bool_decide (is_Some (tr_objects t !! id))) ErrIdleCapital;;
  canonical ← compactCapitalLots lots <?> ErrIdleCapital;
  fail_if (negb (blen canonical =? blen lots)) ErrIdleCapital;;
  fail_if (negb (bool_decide (canonical = lots))) ErrIdleCapital.

Definition collect_source (t : tracker) (sources : gset bytes) (id : bytes) : res (gset bytes) :=
  fail_if (bool_decide (id ∈ sources)) ErrIdleCapital;;
  fail_if (bool_decide (tr_objects t !! id = None)) ErrIdleCapital;;
  Ok ({[id]} ∪ sources).

Definition replaceComputeComponentsWithSettlementLegs (t : tracker) (componentIDs : list bytes) (legs : gmap bytes (list CapitalLot))
    : res tracker :=
  fail_if ((blen componentIDs =? 0) || bool_decide (legs = ∅)) ErrIdleCapital;;
  sources ← rfold (collect_source t) ∅ componentIDs;
  fail_if (maxIdleTrackerObjects <? objects_count t - Z.of_nat (size sources) + Z.of_nat (size legs)) ErrIdleCapital;;
  rfold (fun _ => check_leg t sources) tt (range_map legs);;
  Ok (set_objects t (legs ∪ foldr delete (tr_objects t) componentIDs)).

(** The legs of a settlement: which belong to an account, and the lots they carry. *)
Record settlement_legs := mkLegs { lg_byAccount : gmap bytes (list bytes); lg_lots : gmap bytes (list CapitalLot) }.

Definition no_legs : settlement_legs := mkLegs ∅ ∅.
Definition legs_of (legs : settlement_legs) (account : bytes) : list bytes := default [] (lg_byAccount legs !! account).
Definition add_leg (legs : settlement_legs) (account legID : bytes) (lots : list CapitalLot) : settlement_legs :=
  mkLegs (<[account := legs_of legs account ++ [legID]]> (lg_byAccount legs)) (<[legID := lots]> (lg_lots legs)).

Definition payment_leg (record : OnChainJob) (legs : settlement_legs) (entry : bytes * list CapitalLot) : res settlement_legs :=
  legID ← computeSettlementLegObjectID (oj_ID record) computeSettlementLegPayment entry.1 [];
  Ok (add_leg legs entry.1 legID entry.2).

Definition refund_leg (record : OnChainJob) (legs : settlement_legs) (lots : list CapitalLot) : res settlement_legs :=
  legID ← computeSettlementLegObjectID (oj_ID record) computeSettlementLegRefund (jb_Owner (oj_Job record)) [];
  Ok (add_leg legs (jb_Owner (oj_Job record)) legID lots).

(** The escrow of a productive settlement: the paid part is productive now, the
    refund keeps its age. *)
Definition productive_legs (t : tracker) (height : Z) (record : OnChainJob) (settlement : OnChainSettlement)
    (evidence : FinalizedComputeProductiveEvidence) (escrowLots : list CapitalLot) : res (settlement_legs * tracker) :=
  '(productiveLots, idleLots) ← splitProductiveCapitalAmount escrowLots height (pe_Paid evidence);
  let payments := st_Payments (os_Settlement settlement) in
  let refund := st_Refund (os_Settlement settlement) in
  let providers := sortedPositiveAccountAmounts payments in
  paymentLots ← SplitCapitalLineage productiveLots (mget payments <$> providers);
  legs ← rfold (payment_leg record) no_legs (zip providers paymentLots);
  legs ← if 0 <? refund then holds_amount idleLots refund;; refund_leg record legs idleLots
         else fail_if (negb (blen idleLots =? 0)) ErrFinalizedEconomics;; Ok legs;
  productive ← Coverage_Observe (tr_productive t) (oj_Escrow record) (pe_CoverageBps evidence);
  Ok (legs, set_productive t productive).

Definition collateral_leg (t : tracker) (record : OnChainJob) (settlement : OnChainSettlement) (legs : settlement_legs)
    (component : ComputeCapitalComponent) : res settlement_legs :=
  let lots := default [] (ObjectLots t (cc_ID component)) in
  let returned := mget (CollateralReturns settlement) (cc_Provider component) in
  let slashed := mget (SlashedCollateral settlement) (cc_Provider component) in
  fail_if (((0 <? returned) && (0 <? slashed)) || negb (add64 returned slashed =? cc_Amount component)) ErrFinalizedEconomics;;
  let '(kind, recipient, amount) :=
    if 0 <? slashed then (computeSettlementLegCollateralSlash, jb_Owner (oj_Job record), slashed)
    else (computeSettlementLegCollateralReturn, cc_Provider component, returned) in
  fail_if (negb (amount =? cc_Amount component)) ErrFinalizedEconomics;;
  legID ← computeSettlementLegObjectID (oj_ID record) kind (cc_Provider component) [];
  Ok (add_leg legs recipient legID lots).

Definition count_tracked (t : tracker) (count : Z) (component : ComputeCapitalComponent) : res Z :=
  match ObjectLots t (cc_ID component) with
  | None => Ok count
  | Some lots => holds_amount lots (cc_Amount component);; Ok (count + 1)
  end.

Definition pay_account (legs : settlement_legs) (outputTargets : gmap bytes CapitalTarget) (t : tracker) (account : bytes) : res tracker :=
  let inputs := legs_of legs account in
  fail_if (blen inputs =? 0) ErrFinalizedEconomics;;
  target ← some_or (outputTargets !! account) ErrFinalizedEconomics;
  ApplyTransition t inputs [target] 0.

(** ** The compute market *)

Section compute.
Context (t : tracker) (height : Z) (nativeToken : bytes) (transaction : Transaction) (result : Result) (exports : list CrossShardReceipt).

Definition applyFinalizedComputeSideCapital : res (option tracker) :=
  targets ← finalizedComputeOrdinaryTargets nativeToken transaction result exports;
  applyFinalizedNativeInputsTransition t nativeToken transaction result targets (t_Fee transaction).

Definition applyFinalizedComputeOfferCapital (payload : bytes) : res (option tracker) :=
  offer ← ParseOffer payload <?> ErrFinalizedEconomics;
  fail_if (negb (bool_decide (of_Provider offer = t_Sender transaction))) ErrFinalizedEconomics;;
  found ← uniqueCreatedObjectOfKind (Created result) KindComputeOffer <?> ErrFinalizedEconomics;
  offerObject ← some_or found ErrFinalizedEconomics;
  fail_if (negb (bool_decide (Owner offerObject = of_Provider offer))) ErrFinalizedEconomics;;
  parsed ← ParseOffer (Data offerObject) <?> ErrFinalizedEconomics;
  fail_if (negb (bool_decide (ok_or [] (Offer_MarshalBinary offer) = ok_or [] (Offer_MarshalBinary parsed)))) ErrFinalizedEconomics;;
  targets ← finalizedComputeOrdinaryTargets nativeToken transaction result exports;
  let targets := if 0 <? of_Collateral offer then targets ++ [to_object (ID offerObject) (of_Collateral offer)] else targets in
  applyFinalizedNativeInputsTransition t nativeToken transaction result targets (t_Fee transaction).

Definition applyFinalizedComputeJobCapital (payload : bytes) : res (option tracker) :=
  job ← ParseJob payload <?> ErrFinalizedEconomics;
  fail_if (negb (bool_decide (jb_Owner job = t_Sender transaction))) ErrFinalizedEconomics;;
  found ← uniqueCreatedObjectOfKind (Created result) KindComputeJob <?> ErrFinalizedEconomics;
  jobObject ← some_or found ErrFinalizedEconomics;
  fail_if (negb (bool_decide (Owner jobObject = jb_Owner job))) ErrFinalizedEconomics;;
  record ← ParseOnChainJob (Data jobObject) <?> ErrFinalizedEconomics;
  fail_if (negb (bool_decide (jb_Owner (oj_Job record) = jb_Owner job)) || negb (oj_Escrow record =? jb_MaxPrice job)
           || negb (blen (oj_Assignments record) =? 0)) ErrFinalizedEconomics;;
  fail_if (negb (bool_decide (ok_or [] (Job_MarshalBinary job) = ok_or [] (Job_MarshalBinary (oj_Job record))))) ErrFinalizedEconomics;;
  escrowID ← ComputeEscrowComponentID (oj_ID record);
  targets ← finalizedComputeOrdinaryTargets nativeToken transaction result exports;
  applyFinalizedNativeInputsTransition t nativeToken transaction result (targets ++ [to_object escrowID (oj_Escrow record)])
    (t_Fee transaction).

Definition finalizedComputeMessageCreated (kind destinationShard : Z) (output : res OutputSpec) : bool :=
  match output with
  | Err _ => false
  | Ok spec =>
      if negb (o_Kind spec =? kind) then false
      else if destinationShard =? t_ShardID transaction then
        let id := ObjectIDForShard (tx_ID transaction) computeSettlementReceiptOutputIndex (t_ShardID transaction) in
        existsb (fun created => bool_decide (ID created = id) && bool_decide (Owner created = o_Owner spec) && (Kind created =? o_Kind spec)
                                && bool_decide (Data created = o_Data spec)) (Created result)
      else
        existsb (fun outbound =>
          (ob_DestinationShard outbound =? destinationShard) && (ob_OutputIndex outbound =? computeSettlementReceiptOutputIndex)
          && same_spec (ob_Output outbound) spec
          && existsb (fun receipt =>
               bool_decide (TransactionID receipt = TxID result) && (SourceShard receipt =? t_ShardID transaction)
               && (DestinationShard receipt =? destinationShard) && (OutputIndex receipt =? ob_OutputIndex outbound)
               && same_spec (Output receipt) spec && is_ok (Receipt_Validate receipt)) exports) (Outbound result)
  end.

(** The collateral of an accepted offer: what the job requires is locked, the
    excess becomes an object of its own until the outputs take it. *)
Definition lock_collateral (message : AssignmentMessage) (offerObject : bytes) : res (option (tracker * option bytes)) :=
  let excess := sub64 (of_Collateral (am_Offer message)) (jb_CollateralRequired (am_Job message)) in
  if negb (0 <? of_Collateral (am_Offer message)) then Ok (Some (t, None))
  else
    match ObjectLots t offerObject with
    | None => if finalizedNativeInputsContainTracked t nativeToken transaction result then Err ErrFinalizedEconomics else Ok None
    | Some lots =>
        holds_amount lots (of_Collateral (am_Offer message));;
        locked ← if 0 <? jb_CollateralRequired (am_Job message) then
                   collateralID ← ComputeCollateralComponentID (am_JobID message) (of_Provider (am_Offer message));
                   Ok [to_object collateralID (jb_CollateralRequired (am_Job message))]
                 else Ok [];
        excessID ← if 0 <? excess then
                     id ← computeSettlementLegObjectID (am_JobID message) computeSettlementLegOfferExcess (of_Provider (am_Offer message)) offerObject;
                     Ok (Some id)
                   else Ok None;
        let targets := locked ++ match excessID with Some id => [to_object id excess] | None => [] end in
        fail_if (blen targets =? 0) ErrFinalizedEconomics;;
        t' ← ApplyTransition t [offerObject] targets 0;
        Ok (Some (t', excessID))
    end.

Definition applyFinalizedComputeAcceptCapital (payload : bytes) : res (option tracker) :=
  message ← ParseAssignmentMessage payload <?> ErrFinalizedEconomics;
  fail_if (negb (bool_decide (of_Provider (am_Offer message) = t_Sender transaction))) ErrFinalizedEconomics;;
  w ← some_or (uniqueWitnessOfKind transaction KindComputeOffer) ErrFinalizedEconomics;
  let offerObject := w_Object w in
  fail_if (negb (bool_decide (Owner offerObject = t_Sender transaction)) || negb (bool_decide (ID offerObject = am_OfferID message)))
    ErrFinalizedEconomics;;
  offer ← ParseOffer (Data offerObject) <?> ErrFinalizedEconomics;
  fail_if (negb (bool_decide (ok_or [] (Offer_MarshalBinary offer) = ok_or [] (Offer_MarshalBinary (am_Offer message))))
           || negb (finalizedConsumedCount (Consumed result) (ID offerObject) =? 1)) ErrFinalizedEconomics;;
  fail_if (negb (finalizedComputeMessageCreated KindComputeAssignment (am_JobShard message) (AssignmentMessage_Output message)))
    ErrFinalizedEconomics;;
  let excess := sub64 (of_Collateral (am_Offer message)) (jb_CollateralRequired (am_Job message)) in
  locked ← lock_collateral message (ID offerObject);
  match locked with
  | None => Ok None
  | Some (t, excessID) =>
      ordinaryTargets ← finalizedComputeOrdinaryTargets nativeToken transaction result exports;
      prepared ← prepareFinalizedNativeInputs t nativeToken transaction result;
      if ni_unknown prepared then
        fail_if (ni_tracked prepared || (0 <? excess)) ErrFinalizedEconomics;;
        Ok (Some (ni_tracker prepared))
      else
        let inputs := ni_inputs prepared ++ (if 0 <? excess then [default zero32 excessID] else []) in
        if blen inputs =? 0 then
          fail_if (negb (blen ordinaryTargets =? 0) || negb (t_Fee transaction =? 0)) ErrFinalizedEconomics;;
          Ok (Some (ni_tracker prepared))
        else
          t' ← ApplyTransition (ni_tracker prepared) inputs ordinaryTargets (t_Fee transaction);
          Ok (Some t')
  end.

Definition check_component (now : tracker) (id : bytes) (expected : Z) : res unit :=
  match ObjectLots now id with
  | None => Ok tt
  | Some lots => holds_amount lots expected
  end.

Definition applyFinalizedComputeAssignmentIngestCapital (payload : bytes) : res (option tracker) :=
  applied ← applyFinalizedComputeSideCapital;
  let now := default t applied in
  ref ← ParseIngestRef payload <?> ErrFinalizedEconomics;
  jobWitness ← some_or (witnessByObjectID transaction (ir_JobObject ref)) ErrFinalizedEconomics;
  fail_if (negb (Kind (w_Object jobWitness) =? KindComputeJob)) ErrFinalizedEconomics;;
  messageWitness ← some_or (witnessByObjectID transaction (ir_MessageObject ref)) ErrFinalizedEconomics;
  fail_if (negb (Kind (w_Object messageWitness) =? KindComputeAssignment)) ErrFinalizedEconomics;;
  record ← ParseOnChainJob (Data (w_Object jobWitness)) <?> ErrFinalizedEconomics;
  message ← ParseAssignmentMessage (Data (w_Object messageWitness)) <?> ErrFinalizedEconomics;
  ValidateForRecord message record <?> ErrFinalizedEconomics;;
  escrowID ← ComputeEscrowComponentID (oj_ID record);
  check_component now escrowID (oj_Escrow record);;
  collateralID ← ComputeCollateralComponentID (oj_ID record) (of_Provider (am_Offer message));
  check_component now collateralID (jb_CollateralRequired (oj_Job record));;
  Ok applied.

Definition applyFinalizedComputeSettlementCapital : res (option tracker) :=
  sideApplied ← applyFinalizedComputeSideCapital;
  let t := default t sideApplied in
  '(record, settlement, evidence) ← finalizedComputeSettlement height transaction result;
  components ← DeriveComputeCapitalComponents record;
  let all := cs_Escrow components :: cs_Collateral components in
  trackedCount ← rfold (count_tracked t) 0 all;
  if trackedCount =? 0 then Ok sideApplied
  else
    fail_if (negb (trackedCount =? blen all)) ErrFinalizedEconomics;;
    outputTargets ← finalizedComputeSettlementTargets nativeToken transaction result exports record settlement;
    let escrowLots := default [] (ObjectLots t (cc_ID (cs_Escrow components))) in
    '(legs, t) ←
      match evidence with
      | Some evidence => productive_legs t height record settlement evidence escrowLots
      | None =>
          fail_if (negb (st_Refund (os_Settlement settlement) =? oj_Escrow record)) ErrFinalizedEconomics;;
          legs ← refund_leg record no_legs escrowLots;
          Ok (legs, t)
      end;
    legs ← rfold (collateral_leg t record settlement) legs (cs_Collateral components);
    t ← replaceComputeComponentsWithSettlementLegs t (cc_ID <$> all) (lg_lots legs);
    t ← rfold (pay_account legs outputTargets) t (sort_by (fun account => account) (range_map outputTargets).*1);
    Ok (Some t).

Definition compute_operation (op : Operation) : res (option tracker) :=
  if op_Kind op =? OpComputeOffer then applyFinalizedComputeOfferCapital (op_Payload op)
  else if op_Kind op =? OpComputeJob then applyFinalizedComputeJobCapital (op_Payload op)
  else if op_Kind op =? OpComputeAccept then applyFinalizedComputeAcceptCapital (op_Payload op)
  else if op_Kind op =? OpComputeIngestAssignment then applyFinalizedComputeAssignmentIngestCapital (op_Payload op)
  else if (op_Kind op =? OpComputeResult) || (op_Kind op =? OpComputeIngestResult) then applyFinalizedComputeSideCapital
  else if (op_Kind op =? OpComputeFinalize) || (op_Kind op =? OpComputeResolveReplicated) || (op_Kind op =? OpComputeExpire)
  then applyFinalizedComputeSettlementCapital
  else Ok None.

Definition ApplyFinalizedComputeCapitalLineage : res (option tracker) :=
  fail_if ((height =? 0) || IsZero32 nativeToken || negb (bool_decide (TxID result = tx_ID transaction))) ErrFinalizedEconomics;;
  match t_Operations transaction with
  | [op] =>
      applied ← compute_operation op;
      match applied with
      | None => Ok None
      | Some preview => Tracker_validate preview;; Ok (Some preview)
      end
  | _ => Ok None
  end.
End compute.

(** ** Cross-shard lending *)

Section lending.
Context (t : tracker) (height : Z) (nativeToken : bytes) (transaction : Transaction) (result : Result) (exports : list CrossShardReceipt).

(** A locked amount that is not a coin: the object that carries it. *)
Record lendingValueInput := mkValueInput { li_id : bytes; li_amount : Z }.

Definition special_input (now : tracker) (inputs : list bytes) (value : lendingValueInput) : res (list bytes) :=
  fail_if ((li_amount value =? 0) || IsZero32 (li_id value)) ErrFinalizedEconomics;;
  lots ← some_or (ObjectLots now (li_id value)) ErrFinalizedEconomics;
  holds_amount lots (li_amount value);;
  Ok (inputs ++ [li_id value]).

Definition applyLendingValueTransition (special : list lendingValueInput) (targets : list CapitalTarget) (burned : Z) : res (option tracker) :=
  prepared ← prepareFinalizedNativeInputs t nativeToken transaction result;
  inputs ← rfold (special_input (ni_tracker prepared)) (ni_inputs prepared) special;
  let existingTracked := ni_tracked prepared || negb (blen special =? 0) in
  if ni_unknown prepared then (if existingTracked then Err ErrFinalizedEconomics else Ok None)
  else if blen inputs =? 0 then Ok None
  else
    t' ← ApplyTransition (ni_tracker prepared) inputs targets burned;
    Ok (Some t').

Definition find_message (destinationShard outputIndex : Z) (spec : OutputSpec) (found : option OutboundOutput) (item : OutboundOutput)
    : res (option OutboundOutput) :=
  if (ob_DestinationShard item =? destinationShard) && (ob_OutputIndex item =? outputIndex) && same_spec (ob_Output item) spec then
    fail_if (bool_decide (is_Some found)) ErrFinalizedEconomics;; Ok (Some item)
  else Ok found.

Definition find_message_receipt (destinationShard outputIndex : Z) (spec : OutputSpec) (found : option CrossShardReceipt)
    (item : CrossShardReceipt) : res (option CrossShardReceipt) :=
  if (SourceShard item =? t_ShardID transaction) && (DestinationShard item =? destinationShard)
     && bool_decide (TransactionID item = TxID result) && (OutputIndex item =? outputIndex)
     && same_spec (Output item) spec && is_ok (Receipt_Validate item) then
    fail_if (bool_decide (is_Some found)) ErrFinalizedEconomics;; Ok (Some item)
  else Ok found.

Definition finalizedLendingMessageTarget (destinationShard outputIndex : Z) (spec : OutputSpec) (amount : Z) : res CapitalTarget :=
  fail_if ((amount =? 0) || (destinationShard =? t_ShardID transaction)) ErrFinalizedEconomics;;
  outbound ← rfold (find_message destinationShard outputIndex spec) None (Outbound result);
  some_or outbound ErrFinalizedEconomics;;
  found ← rfold (find_message_receipt destinationShard outputIndex spec) None exports;
  receipt ← some_or found ErrFinalizedEconomics;
  transferID ← Receipt_Hash receipt;
  Ok (to_transfer transferID amount).

(** The consumed object of a kind an operation refers to. *)
Definition referred_object (payload : bytes) (kind : Z) : res Object :=
  ref ← Lending.ParseRef payload <?> ErrFinalizedEconomics;
  w ← some_or (witnessByObjectID transaction (r_ObjectID ref)) ErrFinalizedEconomics;
  fail_if (negb (Kind (w_Object w) =? kind) || negb (finalizedConsumedCount (Consumed result) (ID (w_Object w)) =? 1)) ErrFinalizedEconomics;;
  Ok (w_Object w).

Definition applyCrossLoanOfferCapital (payload : bytes) : res (option tracker) :=
  terms ← ParseTerms payload <?> ErrFinalizedEconomics;
  fail_if (negb (bool_decide (Lender terms = t_Sender transaction))) ErrFinalizedEconomics;;
  borrowerShard ← some_or (uniqueExportDestination result CrossOfferMessageIndex) ErrFinalizedEconomics;
  fail_if (borrowerShard =? t_ShardID transaction) ErrFinalizedEconomics;;
  let offerID := ObjectIDForShard (tx_ID transaction) CrossOfferMessageIndex borrowerShard in
  raw ← CrossOffer_MarshalBinary (mkCrossOffer offerID (t_ShardID transaction) borrowerShard height terms);
  targets ← finalizedComputeOrdinaryTargets nativeToken transaction result exports;
  target ← finalizedLendingMessageTarget borrowerShard CrossOfferMessageIndex
             (mkOutputSpec (Borrower terms) KindCrossLoanOffer raw) (Principal terms);
  applyLendingValueTransition [] (targets ++ [target]) (t_Fee transaction).

Definition applyCrossLoanAcceptCapital (payload : bytes) : res (option tracker) :=
  offerObject ← referred_object payload KindCrossLoanOffer;
  offer ← ParseCrossOffer (Data offerObject) <?> ErrFinalizedEconomics;
  let terms := co_Terms offer in
  fail_if (negb (bool_decide (co_OfferObject offer = ID offerObject)) || negb (bool_decide (Borrower terms = t_Sender transaction))
           || negb (co_BorrowerShard offer =? t_ShardID transaction) || (height <=? co_OfferedHeight offer)) ErrFinalizedEconomics;;
  let activationID := ObjectIDForShard (tx_ID transaction) CrossActivationObjectIndex (co_BorrowerShard offer) in
  raw ← CrossAcceptance_MarshalBinary
          (mkCrossAcceptance (co_OfferObject offer) activationID (co_LenderShard offer) (co_BorrowerShard offer) height terms);
  targets ← finalizedComputeOrdinaryTargets nativeToken transaction result exports;
  principalSpec ← NewCoinOutputAtHeight (Borrower terms) nativeToken (Principal terms) height;
  principalTarget ← finalizedCapitalTargetForOutput transaction result exports CrossPrincipalObjectIndex principalSpec;
  let targets := targets ++ [principalTarget] in
  targets ← if 0 <? Collateral terms then
              acceptanceTarget ← finalizedLendingMessageTarget (co_LenderShard offer) CrossAcceptanceMessageIndex
                (mkOutputSpec (Lender terms) KindCrossLoanAcceptance raw) (Collateral terms);
              Ok (targets ++ [acceptanceTarget])
            else Ok targets;
  applyLendingValueTransition [mkValueInput (ID offerObject) (Principal terms)] targets (t_Fee transaction).

Definition applyCrossLoanRepayCapital (payload : bytes) : res (option tracker) :=
  activationObject ← referred_object payload KindCrossLoanActivation;
  activation ← ParseCrossActivation (Data activationObject) <?> ErrFinalizedEconomics;
  let terms := cv_Terms activation in
  fail_if (negb (bool_decide (Borrower terms = t_Sender transaction)) || negb (cv_BorrowerShard activation =? t_ShardID transaction))
    ErrFinalizedEconomics;;
  due ← RepaymentDue terms;
  termsHash ← Terms_Hash terms;
  raw ← CrossRepayment_MarshalBinary
          (mkCrossRepayment (cv_AcceptanceObject activation) (ID activationObject) (cv_LenderShard activation) (cv_BorrowerShard activation)
             due height termsHash);
  targets ← finalizedComputeOrdinaryTargets nativeToken transaction result exports;
  repaymentTarget ← finalizedLendingMessageTarget (cv_LenderShard activation) CrossRepaymentMessageIndex
    (mkOutputSpec (Lender terms) KindCrossLoanRepayment raw) due;
  applyLendingValueTransition [] (targets ++ [repaymentTarget]) (t_Fee transaction).

Definition consumed_witness_of_kind (kind : Z) : res Object :=
  w ← some_or (uniqueWitnessOfKind transaction kind) ErrFinalizedEconomics;
  fail_if (negb (finalizedConsumedCount (Consumed result) (ID (w_Object w)) =? 1)) ErrFinalizedEconomics;;
  Ok (w_Object w).

(** The target of a coin the protocol pays out. *)
Definition payout_target (owner : bytes) (amount index : Z) : res CapitalTarget :=
  spec ← NewCoinOutputAtHeight owner nativeToken amount height;
  finalizedCapitalTargetForOutput transaction result exports index spec.

Definition applyCrossLoanSettleCapital : res (option tracker) :=
  acceptanceObject ← consumed_witness_of_kind KindCrossLoanAcceptance;
  repaymentObject ← consumed_witness_of_kind KindCrossLoanRepayment;
  acceptance ← ParseCrossAcceptance (Data acceptanceObject) <?> ErrFinalizedEconomics;
  fail_if (negb (ca_LenderShard acceptance =? t_ShardID transaction)) ErrFinalizedEconomics;;
  repayment ← ParseCrossRepayment (Data repaymentObject) <?> ErrFinalizedEconomics;
  fail_if (negb (bool_decide (cr_AcceptanceObject repayment = ID acceptanceObject))
           || negb (bool_decide (cr_ActivationObject repayment = ca_ActivationObject acceptance))) ErrFinalizedEconomics;;
  let terms := ca_Terms acceptance in
  due ← RepaymentDue terms <?> ErrFinalizedEconomics;
  fail_if (negb (cr_Amount repayment =? due)) ErrFinalizedEconomics;;
  targets ← finalizedComputeOrdinaryTargets nativeToken transaction result exports;
  lenderTarget ← payout_target (Lender terms) due PayoutObjectIndex;
  let targets := targets ++ [lenderTarget] in
  targets ← if 0 <? Collateral terms then
              collateralTarget ← payout_target (Borrower terms) (Collateral terms) CrossCollateralReturnIndex;
              Ok (targets ++ [collateralTarget])
            else Ok targets;
  let special := mkValueInput (ID repaymentObject) due
                 :: (if 0 <? Collateral terms then [mkValueInput (ID acceptanceObject) (Collateral terms)] else []) in
  applyLendingValueTransition special targets (t_Fee transaction).

Definition applyCrossLoanDefaultCapital (payload : bytes) : res (option tracker) :=
  acceptanceObject ← referred_object payload KindCrossLoanAcceptance;
  acceptance ← ParseCrossAcceptance (Data acceptanceObject) <?> ErrFinalizedEconomics;
  let terms := ca_Terms acceptance in
  fail_if (negb (bool_decide (Lender terms = t_Sender transaction))) ErrFinalizedEconomics;;
  targets ← finalizedComputeOrdinaryTargets nativeToken transaction result exports;
  if 0 <? Collateral terms then
    target ← payout_target (Lender terms) (Collateral terms) PayoutObjectIndex;
    applyLendingValueTransition [mkValueInput (ID acceptanceObject) (Collateral terms)] (targets ++ [target]) (t_Fee transaction)
  else applyLendingValueTransition [] targets (t_Fee transaction).

Definition applyCrossLoanExpireCapital (payload : bytes) : res (option tracker) :=
  offerObject ← referred_object payload KindCrossLoanOffer;
  offer ← ParseCrossOffer (Data offerObject) <?> ErrFinalizedEconomics;
  let terms := co_Terms offer in
  targets ← finalizedComputeOrdinaryTargets nativeToken transaction result exports;
  target ← payout_target (Lender terms) (Principal terms) CrossPrincipalReturnIndex;
  applyLendingValueTransition [mkValueInput (ID offerObject) (Principal terms)] (targets ++ [target]) (t_Fee transaction).

Definition ApplyFinalizedCrossLendingCapitalLineage : res (option tracker) :=
  fail_if ((height =? 0) || negb (bool_decide (TxID result = tx_ID transaction))) ErrFinalizedEconomics;;
  match t_Operations transaction with
  | [op] =>
      if op_Kind op =? OpCrossLoanOffer then applyCrossLoanOfferCapital (op_Payload op)
      else if op_Kind op =? OpCrossLoanAccept then applyCrossLoanAcceptCapital (op_Payload op)
      else if op_Kind op =? OpCrossLoanRepay then applyCrossLoanRepayCapital (op_Payload op)
      else if op_Kind op =? OpCrossLoanSettle then applyCrossLoanSettleCapital
      else if op_Kind op =? OpCrossLoanDefault then applyCrossLoanDefaultCapital (op_Payload op)
      else if op_Kind op =? OpCrossLoanExpire then applyCrossLoanExpireCapital (op_Payload op)
      else Ok None
  | _ => Err ErrFinalizedEconomics
  end.
End lending.

(** ** The tracker as the collector calls it *)

Definition tracker_is_empty (t : tracker) : bool :=
  bool_decide (tr_objects t = ∅) && bool_decide (tr_pendingTransfers t = ∅) && bool_decide (tr_bootstrapLineages t = ∅)
  && (pc_observedCapital (tr_productive t) =? 0) && (pc_weightedCoverageBps (tr_productive t) =? 0).

(** [if _, err := Apply...(c.idleCapital, ...); err != nil]: the tracker the call
    leaves behind. *)
Definition kept (t : tracker) (applied : res (option tracker)) : res tracker := default t <$> applied.

Definition idle_tracker : IdleCapital := {|
  EconomicsCollector.Tracker := tracker;
  EconomicsCollector.ApplyFinalizedIdleCapitalTransfer := fun t height native transaction result exports =>
    kept t (ApplyFinalizedIdleCapitalTransfer t height native transaction result exports);
  EconomicsCollector.ApplyFinalizedComputeCapitalLineage := fun t height native transaction result exports =>
    kept t (ApplyFinalizedComputeCapitalLineage t height native transaction result exports);
  EconomicsCollector.ApplyFinalizedCrossLendingCapitalLineage := fun t height native transaction result exports =>
    kept t (ApplyFinalizedCrossLendingCapitalLineage t height native transaction result exports);
  EconomicsCollector.ApplyFinalizedIdleCapitalImport := fun t native receipt => kept t (ApplyFinalizedIdleCapitalImport t native receipt);
  EconomicsCollector.ResetProductiveCoverage := fun t => Ok (ResetProductiveCoverage t);
  EconomicsCollector.tracker_empty := tracker_is_empty;
|}.
End lineage.
End Lineage.
