(* ===== verification/IdleLineageProofs.v ===== *)
(** * IdleLineageProofs

    What the collector of an epoch tells the tracker keeps the books of the
    tracker: every lineage function is a sequence of bootstraps, transitions and
    materialisations (and, for settlements of compute jobs, an exchange of
    components for legs); a transfer moves exactly its coins; capital keeps its
    age across shards; and every tracker the collector reaches can be
    checkpointed. *)

From S2P Require Import Prelude GoLib Codec Crypto Types Object Sharding Tx Lending ComputeModel ComputeMarket ComputeWork ComputeWire.
From S2P Require Import Contracts Execution ExecutionExtended ExecutionLoans.
From S2P Require Import EconomicsPolicy EconomicsEpoch EconomicsCollector IdleCapital IdleTracker IdleTrackerProofs IdleLineage.

Open Scope Z_scope.

Module LineageProofs.
Import Idle Tracker TrackerProofs Lineage.

(** Go through one step of a successful computation, forgetting its result. *)
Ltac skip E := let v := fresh "skipped" in apply bind_Ok in E as (v & _ & E); try clear v.

Section proofs.
Context `{HC : Crypto} `{HM : MapOrder}.

(** ** Sequences of tracker operations

    [steps t d t']: bootstraps, transitions and materialisations lead from [t] to
    [t'] and change the tracked capital by [d]. *)

Inductive steps (t : IdleCapitalTracker) : Z -> IdleCapitalTracker -> Prop :=
  | steps_none : steps t 0 t
  | steps_bootstrap d t1 id amount height t2 :
      steps t d t1 -> arr32 id -> u64 amount -> u64 height -> BootstrapObject t1 id amount height = Ok t2 -> steps t (d + amount) t2
  | steps_transition d t1 inputs targets burned t2 :
      steps t d t1 -> Forall target_typed targets -> u64 burned -> ApplyTransition t1 inputs targets burned = Ok t2 -> steps t (d - burned) t2
  | steps_materialize d t1 transferID objectID t2 :
      steps t d t1 -> arr32 objectID -> MaterializeTransfer t1 transferID objectID = Ok t2 -> steps t d t2.

Lemma steps_trans t d1 t1 d2 t2 : steps t d1 t1 -> steps t1 d2 t2 -> steps t (d1 + d2) t2.
Proof.
  intros Hs. induction 1.
  - by rewrite Z.add_0_r.
  - rewrite Z.add_assoc. by eapply steps_bootstrap.
  - rewrite Z.add_sub_assoc. by eapply steps_transition.
  - by eapply steps_materialize.
Qed.


Lemma steps_ok t d t' : tracker_ok t -> steps t d t' -> tracker_ok t'.
Proof.
  intros Hok. induction 1 as [|d t1 id amount height t2 _ IH ? ? ? E|d t1 inputs targets burned t2 _ IH ? ? E|d t1 transferID objectID t2 _ IH ? E].
  - done.
  - by apply BootstrapObject_Ok in E as (? & _).
  - apply ApplyTransition_Ok, applyTransition_Ok in E; [|done..]. by eapply transition_ok.
  - by apply MaterializeTransfer_Ok in E as (? & ? & _).
Qed.

(** ** The inputs of a transaction *)

(** What is known of a finalised transaction and its result by their types. *)
Record finalized (transaction : Transaction) (result : Result) : Prop := {
  fz_witnesses : Forall (fun w => arr32 (ID (w_Object w))) (t_Witnesses transaction);
  fz_created : Forall (fun o => arr32 (ID o)) (Created result);
  fz_fee : u64 (t_Fee transaction);
}.

(** The coin of a witness, when it is a consumed coin of the native token. *)
Definition native_coin (nativeToken : bytes) (consumed : list bytes) (w : Witness) : option Coin :=
  if bool_decide (ID (w_Object w) ∈ consumed) && (Kind (w_Object w) =? KindCoin) then
    match ParseCoin (Data (w_Object w)) with
    | Ok coin => if bool_decide (Token coin = nativeToken) then Some coin else None
    | Err _ => None
    end
  else None.

(** The coins a transaction brings into the tracker: consumed native coins of
    known age that are not tracked. *)
Definition fresh_amount (t : IdleCapitalTracker) (nativeToken : bytes) (consumed : list bytes) (w : Witness) : Z :=
  match native_coin nativeToken consumed w with
  | Some coin => if bool_decide (tr_objects t !! ID (w_Object w) = None) && negb (CreatedHeight coin =? 0) then Amount coin else 0
  | None => 0
  end.

Definition fresh_capital (t : IdleCapitalTracker) (nativeToken : bytes) (transaction : Transaction) (result : Result) : Z :=
  zsum (fresh_amount t nativeToken (Consumed result) <$> t_Witnesses transaction).

(** The same under any weight of lineage and height. *)
Definition fresh_weight (t : IdleCapitalTracker) (nativeToken : bytes) (consumed : list bytes) (f : weight) (w : Witness) : Z :=
  match native_coin nativeToken consumed w with
  | Some coin => f (bootstrap_lineage (ID (w_Object w)), CreatedHeight coin) * fresh_amount t nativeToken consumed w
  | None => 0
  end.

Definition native_ids (nativeToken : bytes) (consumed : list bytes) (ws : list Witness) : list bytes :=
  (fun w => ID (w_Object w)) <$> List.filter (fun w => bool_decide (is_Some (native_coin nativeToken consumed w))) ws.

Lemma consumed_set_Ok ids : forall seen out,
  rfold (fun (seen : gset bytes) id => fail_if (IsZero32 id) ErrFinalizedEconomics;; Ok ({[id]} ∪ seen)) seen ids = Ok out ->
  out = list_to_set ids ∪ seen.
Proof.
  induction ids as [|id ids IH]; intros seen out E; cbn [rfold] in E.
  - apply Ok_inj in E as <-. cbn. set_solver.
  - apply bind_Ok in E as (s & E1 & E). skip E1. apply Ok_inj in E1 as <-. apply IH in E as ->. cbn. set_solver.
Qed.

(** One witness: nothing, or one more input. *)
Lemma native_input_cases nativeToken ids consumed st w st' :
  consumed = list_to_set ids -> arr32 (ID (w_Object w)) -> native_input nativeToken consumed st w = Ok st' ->
  (native_coin nativeToken ids w = None /\ st' = st) \/
  exists coin, native_coin nativeToken ids w = Some coin /\ Coin_ok coin /\ ni_inputs st' = ni_inputs st ++ [ID (w_Object w)] /\
    ((exists lots, tr_objects (ni_tracker st) !! ID (w_Object w) = Some lots /\ ni_tracked st' = true /\
        ni_unknown st' = ni_unknown st /\ ni_tracker st' = ni_tracker st) \/
     (tr_objects (ni_tracker st) !! ID (w_Object w) = None /\ ni_tracked st' = ni_tracked st /\
       ((CreatedHeight coin = 0 /\ ni_unknown st' = true /\ ni_tracker st' = ni_tracker st) \/
        (CreatedHeight coin <> 0 /\ ni_unknown st' = ni_unknown st /\
         BootstrapObject (ni_tracker st) (ID (w_Object w)) (Amount coin) (CreatedHeight coin) = Ok (ni_tracker st'))))).
Proof.
  intros -> Hid E. unfold native_input in E. unfold native_coin.
  rewrite (bool_decide_ext (_ ∈ list_to_set ids) (ID (w_Object w) ∈ ids)) in E by apply elem_of_list_to_set.
  destruct (bool_decide (ID (w_Object w) ∈ ids)), (Kind (w_Object w) =? KindCoin); cbn [negb orb andb] in E |- *;
    try (left; split; [done|by apply Ok_inj in E]).
  apply bind_Ok in E as (coin & Hc & E). rewrite Hc. pose proof (ParseCoin_Ok _ _ Hc) as [Hco _].
  destruct (bool_decide (Token coin = nativeToken)); cbn [negb] in E; [|left; split; [done|by apply Ok_inj in E]].
  right. exists coin. split; [done|]. split; [done|]. unfold ObjectLots in E.
  destruct (tr_objects (ni_tracker st) !! ID (w_Object w)) as [lots|] eqn:El.
  - skip E. apply Ok_inj in E as <-. split; [done|]. left. by exists lots.
  - destruct (Z.eqb_spec (CreatedHeight coin) 0).
    + apply Ok_inj in E as <-. split; [done|]. right. split; [done|]. split; [done|]. by left.
    + apply bind_Ok in E as (t & Ht & E). apply Ok_inj in E as <-. split; [done|]. right. split; [done|]. split; [done|]. by right.
Qed.

Section inputs.
Context (t : IdleCapitalTracker) (nativeToken : bytes) (ids : list bytes).

Lemma native_inputs_list ws : forall st p,
  Forall (fun w => arr32 (ID (w_Object w))) ws -> rfold (native_input nativeToken (list_to_set ids)) st ws = Ok p ->
  ni_inputs p = ni_inputs st ++ native_ids nativeToken ids ws /\ exists d, steps (ni_tracker st) d (ni_tracker p).
Proof.
  induction ws as [|w ws IH]; intros st p Hw E; cbn [rfold] in E.
  - apply Ok_inj in E as <-. cbn. rewrite app_nil_r. split; [done|]. exists 0. apply steps_none.
  - apply Forall_cons in Hw as [Hid Hw]. apply bind_Ok in E as (st1 & E1 & E). apply IH in E as [-> (d & Hs)]; [|done].
    assert (exists d1, steps (ni_tracker st) d1 (ni_tracker st1)) as [d1 Hs1].
    { apply (native_input_cases _ ids) in E1; [|done|done].
      destruct E1 as [[_ ->]|(coin & _ & ((_ & Ha & Hh) & _) & _ & [(? & _ & _ & _ & Ht)|(_ & _ & [(_ & _ & Ht)|(_ & _ & Hb)])])].
      - exists 0. apply steps_none.
      - rewrite Ht. exists 0. apply steps_none.
      - rewrite Ht. exists 0. apply steps_none.
      - eexists. exact (steps_bootstrap _ _ _ _ _ _ _ (steps_none _) Hid Ha Hh Hb). }
    split.
    + unfold native_ids. cbn [List.filter].
      apply (native_input_cases _ ids) in E1; [|done|done]. destruct E1 as [[-> ->]|(coin & -> & _ & -> & _)]; [done|].
      rewrite bool_decide_eq_true_2 by done. cbn. by rewrite <-app_assoc.
    + exists (d1 + d). by eapply steps_trans.
Qed.

(** Without a repeated input the tracker gains exactly the fresh coins, each as old as it is. *)
Lemma native_inputs_steps ws : forall st d p,
  Forall (fun w => arr32 (ID (w_Object w))) ws -> steps t d (ni_tracker st) ->
  (forall id, id ∉ ni_inputs st -> tr_objects (ni_tracker st) !! id = tr_objects t !! id) ->
  rfold (native_input nativeToken (list_to_set ids)) st ws = Ok p -> NoDup (ni_inputs p) ->
  steps t (d + zsum (fresh_amount t nativeToken ids <$> ws)) (ni_tracker p) /\
  (tracker_ok t -> forall f, value f (allLots (ni_tracker p)) =
    value f (allLots (ni_tracker st)) + zsum (fresh_weight t nativeToken ids f <$> ws)).
Proof.
  induction ws as [|w ws IH]; intros st d p Hw Hs Hsame E Hnd.
  - cbn [rfold] in E. apply Ok_inj in E as <-. cbn. split; [by rewrite Z.add_0_r|]. intros _ f. lia.
  - pose proof (native_inputs_list _ _ _ Hw E) as [Hin _]. cbn [rfold] in E. apply Forall_cons in Hw as [Hid Hw].
    apply bind_Ok in E as (st1 & E1 & E).
    cut (steps t (d + fresh_amount t nativeToken ids w) (ni_tracker st1) /\
      (forall id, id ∉ ni_inputs st1 -> tr_objects (ni_tracker st1) !! id = tr_objects t !! id) /\
      (tracker_ok t -> forall f, value f (allLots (ni_tracker st1)) = value f (allLots (ni_tracker st)) + fresh_weight t nativeToken ids f w)).
    { intros (G1 & G2 & G3). destruct (IH st1 _ p Hw G1 G2 E Hnd) as [I1 I2]. split; [by rewrite fmap_cons, zsum_cons, Z.add_assoc|].
      intros Hok f. rewrite I2, G3, fmap_cons, zsum_cons by done. lia. }
    unfold fresh_weight, fresh_amount.
    apply (native_input_cases _ ids) in E1; [|done|done]. destruct E1 as [[Hnc ->]|(coin & Hnc & ((_ & Ha & Hh) & _) & Hi & Hcase)]; rewrite Hnc.
    + rewrite Z.add_0_r. split; [done|]. split; [done|]. intros _ f. lia.
    + assert (ID (w_Object w) ∉ ni_inputs st) as Hni.
      { unfold native_ids in Hin. cbn [List.filter] in Hin. rewrite Hnc, bool_decide_eq_true_2 in Hin by done. cbn in Hin. rewrite Hin in Hnd.
        apply NoDup_app in Hnd as (_ & Hd & _). intros Hx. apply (Hd _ Hx). left. }
      rewrite <-(Hsame _ Hni). rewrite Hi.
      destruct Hcase as [(lots & Hl & _ & _ & Ht)|(Hl & _ & [(H0 & _ & Ht)|(H0 & _ & Ht)])]; rewrite Hl.
      * rewrite bool_decide_eq_false_2 by done. cbn [andb]. rewrite Ht, Z.add_0_r. split; [done|].
        split; [intros id Hx; apply Hsame; set_solver|]. intros _ f. lia.
      * rewrite H0. cbn [Z.eqb negb]. rewrite andb_false_r, Ht, Z.add_0_r. split; [done|].
        split; [intros id Hx; apply Hsame; set_solver|]. intros _ f. lia.
      * rewrite bool_decide_eq_true_2 by done. rewrite (proj2 (Z.eqb_neq _ _) H0). cbn [andb negb].
        split; [by eapply steps_bootstrap|]. split.
        -- intros id Hx. rewrite <-Hsame by set_solver. unfold BootstrapObject in Ht. repeat skip Ht. apply Ok_inj in Ht as <-.
           cbn [tr_objects]. apply lookup_insert_ne. set_solver.
        -- intros Hok f. apply BootstrapObject_Ok in Ht as (_ & _ & _ & _ & _ & Hv); [|by eapply steps_ok|done..]. rewrite Hv. lia.
Qed.
End inputs.

Lemma prepare_steps t nativeToken transaction result p :
  finalized transaction result -> prepareFinalizedNativeInputs t nativeToken transaction result = Ok p ->
  ni_inputs p = native_ids nativeToken (Consumed result) (t_Witnesses transaction) /\ (exists d, steps t d (ni_tracker p)) /\
  (NoDup (ni_inputs p) -> steps t (fresh_capital t nativeToken transaction result) (ni_tracker p) /\
    (tracker_ok t -> forall f, value f (allLots (ni_tracker p)) =
      value f (allLots t) + zsum (fresh_weight t nativeToken (Consumed result) f <$> t_Witnesses transaction))).
Proof.
  intros [Hw _ _] E. unfold prepareFinalizedNativeInputs in E. apply bind_Ok in E as (consumed & Hc & E).
  apply consumed_set_Ok in Hc. rewrite union_empty_r_L in Hc. subst consumed.
  pose proof (native_inputs_list _ _ _ _ _ Hw E) as [Hi Hd]. split; [exact Hi|]. split; [exact Hd|]. intros Hnd.
  by apply (native_inputs_steps t nativeToken (Consumed result) (t_Witnesses transaction) (mkInputs [] false false t) 0 p Hw (steps_none t)).
Qed.

(** What a transition that succeeds says of its inputs. *)
Lemma transition_inputs t inputs targets burned t' :
  ApplyTransition t inputs targets burned = Ok t' -> NoDup inputs /\ inputs <> [].
Proof.
  intros E. unfold ApplyTransition in E. apply bind_Ok in E as ([] & Hg%fail_if_Ok & E). apply orb_false_iff in Hg as [Hn%blen_nil _].
  split; [|done]. unfold applyTransition in E. apply bind_Ok in E as ([seen lots] & Hc & _).
  by destruct (proj1 (collect_iff t inputs ∅ [] lots) (ex_intro _ _ Hc)) as ([? _] & _).
Qed.

Lemma applied_steps t nativeToken transaction result p targets t' :
  finalized transaction result -> prepareFinalizedNativeInputs t nativeToken transaction result = Ok p -> Forall target_typed targets ->
  ApplyTransition (ni_tracker p) (ni_inputs p) targets (t_Fee transaction) = Ok t' ->
  steps t (fresh_capital t nativeToken transaction result - t_Fee transaction) t'.
Proof.
  intros Hf Hp Ht E. destruct (prepare_steps _ _ _ _ _ Hf Hp) as (_ & _ & Hs). destruct (transition_inputs _ _ _ _ _ E) as [Hnd _].
  eapply steps_transition; [by apply Hs|done|apply Hf|exact E].
Qed.

(** ** Targets *)

Lemma object_target_typed id amount : arr32 id -> u64 amount -> target_typed (to_object id amount).
Proof. intros ? ?. unfold target_typed. split_and!; done. Qed.

Lemma transfer_target_typed id amount : arr32 id -> u64 amount -> target_typed (to_transfer id amount).
Proof. intros ? ?. unfold target_typed. split_and!; done. Qed.

Lemma Receipt_Hash_arr receipt h : Receipt_Hash receipt = Ok h -> arr32 h.
Proof. intros E. apply bind_Ok in E as (payload & _ & E). apply Ok_inj in E as <-. apply arr32_DomainHash. Qed.

Lemma capital_target_typed transaction result exports index spec target :
  finalizedCapitalTargetForOutput transaction result exports index spec = Ok target ->
  target_typed target /\ exists coin, ParseCoin (o_Data spec) = Ok coin /\ ct_Amount target = Amount coin.
Proof.
  intros E. unfold finalizedCapitalTargetForOutput in E. apply bind_Ok in E as (coin & Hc%or_err_Ok & E). skip E.
  pose proof (ParseCoin_Ok _ _ Hc) as [((_ & Ha & _) & _) _].
  apply bind_Ok in E as (localFound & _ & E). apply bind_Ok in E as (outbound & _ & E).
  destruct localFound, outbound as [outbound|]; try done.
  - apply Ok_inj in E as <-. split; [|by exists coin]. apply object_target_typed; [apply length_ObjectIDForShard|done].
  - skip E. skip E. apply bind_Ok in E as (h & Hh%Receipt_Hash_arr & E). apply Ok_inj in E as <-. split; [|by exists coin].
    by apply transfer_target_typed.
Qed.

Lemma ordinary_targets_typed nativeToken transaction result exports specs : forall i acc targets,
  Forall target_typed acc -> rfoldi i (ordinary_target nativeToken transaction result exports) acc specs = Ok targets ->
  Forall target_typed targets.
Proof.
  induction specs as [|spec specs IH]; intros i acc targets Ha E; cbn [rfoldi] in E; [by apply Ok_inj in E as <-|].
  apply bind_Ok in E as (acc' & E1 & E). apply IH in E; [done|]. unfold ordinary_target in E1. skip E1. skip E1. skip E1.
  apply bind_Ok in E1 as (target & Ht & E1). apply Ok_inj in E1 as <-. apply capital_target_typed in Ht as [Ht _].
  apply Forall_app. split; [done|by apply Forall_singleton].
Qed.

Lemma ordinary_typed nativeToken transaction result exports targets :
  finalizedComputeOrdinaryTargets nativeToken transaction result exports = Ok targets -> Forall target_typed targets.
Proof. apply ordinary_targets_typed. constructor. Qed.

Lemma created_targets height nativeToken created : forall acc targets,
  Forall (fun o => arr32 (ID o)) created -> rfold (created_target height nativeToken) acc created = Ok targets ->
  (Forall target_typed acc -> Forall target_typed targets) /\ (forall x, x ∈ acc -> x ∈ targets) /\
  (forall o coin, o ∈ created -> Kind o = KindCoin -> ParseCoin (Data o) = Ok coin -> Token coin = nativeToken ->
    to_object (ID o) (Amount coin) ∈ targets /\ IsZero32 (ID o) = false) /\
  (forall x, x ∈ targets -> x ∈ acc \/ exists o coin, o ∈ created /\ ParseCoin (Data o) = Ok coin /\ x = to_object (ID o) (Amount coin)).
Proof.
  induction created as [|o created IH]; intros acc targets Hc E; cbn [rfold] in E.
  - apply Ok_inj in E as <-. split_and!; try done; [set_solver|by left].
  - apply Forall_cons in Hc as [Hid Hc]. apply bind_Ok in E as (acc' & E1 & E). apply IH in E as (H1 & H2 & H3 & H4); [|done].
    unfold created_target in E1. destruct (Z.eqb_spec (Kind o) KindCoin) as [Hk|Hk]; cbn [negb] in E1.
    + apply bind_Ok in E1 as (coin & Hp & E1). pose proof (ParseCoin_Ok _ _ Hp) as [((_ & Ha & _) & _) _].
      destruct (bool_decide (Token coin = nativeToken)) eqn:Ht; cbn [negb] in E1.
      * apply bind_Ok in E1 as ([] & Hg%fail_if_Ok & E1). apply Ok_inj in E1 as <-. apply orb_false_iff in Hg as [_ Hz]. split_and!.
        -- intros Hacc. apply H1, Forall_app. split; [done|]. by apply Forall_singleton, object_target_typed.
        -- intros x Hx. apply H2, elem_of_app. by left.
        -- intros o' coin' [->|Hin]%elem_of_cons Hk' Hp' Ht'; [|by apply (H3 o')]. rewrite Hp in Hp'. apply Ok_inj in Hp' as <-.
           split; [|done]. apply H2, elem_of_app. right. left.
        -- intros x [Hx|(o' & coin' & Hin & ?)]%H4; [|right; exists o', coin'; split; [by right|done]].
           apply elem_of_app in Hx as [Hx| ->%list_elem_of_singleton]; [by left|]. right. exists o, coin. split; [left|done].
      * apply Ok_inj in E1 as <-. apply bool_decide_eq_false in Ht. split_and!; try done.
        -- intros o' coin' [->|Hin]%elem_of_cons Hk' Hp' Ht'; [|by apply (H3 o')]. rewrite Hp in Hp'. apply Ok_inj in Hp' as <-. done.
        -- intros x [Hx|(o' & coin' & Hin & ?)]%H4; [by left|right; exists o', coin'; split; [by right|done]].
    + apply Ok_inj in E1 as <-. split_and!; try done.
      * intros o' coin' [->|Hin]%elem_of_cons Hk' Hp' Ht'; [done|by apply (H3 o')].
      * intros x [Hx|(o' & coin' & Hin & ?)]%H4; [by left|right; exists o', coin'; split; [by right|done]].
Qed.

Lemma export_targets height nativeToken transaction result exports : forall seen expected acc st,
  rfold (match_export height nativeToken transaction result) (seen, expected, acc) exports = Ok st ->
  (Forall target_typed acc -> Forall target_typed st.2) /\ (forall x, x ∈ acc -> x ∈ st.2) /\
  (forall receipt, receipt ∈ exports -> exists id coin,
    Receipt_Hash receipt = Ok id /\ ParseCoin (o_Data (Output receipt)) = Ok coin /\ Token coin = nativeToken /\ to_transfer id (Amount coin) ∈ st.2) /\
  (forall x, x ∈ st.2 -> x ∈ acc \/ exists id amount, x = to_transfer id amount).
Proof.
  induction exports as [|receipt exports IH]; intros seen expected acc st E; cbn [rfold] in E.
  - apply Ok_inj in E as <-. cbn. split_and!; try done; [set_solver|by left].
  - apply bind_Ok in E as ([[seen' expected'] acc'] & E1 & E). apply IH in E as (H1 & H2 & H3 & H4). unfold match_export in E1.
    skip E1. skip E1. skip E1. skip E1. skip E1. apply bind_Ok in E1 as (coin & Hp%or_err_Ok & E1).
    apply bind_Ok in E1 as ([] & Hg%fail_if_Ok & E1). apply bind_Ok in E1 as (id & Hh & E1). apply Ok_inj in E1. injection E1 as <- <- <-.
    apply orb_false_iff in Hg as [Ht%negb_false_iff%bool_decide_eq_true _]. pose proof (ParseCoin_Ok _ _ Hp) as [((_ & Ha & _) & _) _]. split_and!.
    + intros Hacc. apply H1, Forall_app. split; [done|]. apply Forall_singleton, transfer_target_typed; [by eapply Receipt_Hash_arr|done].
    + intros x Hx. apply H2, elem_of_app. by left.
    + intros r [->|Hin]%elem_of_cons; [|by apply H3]. exists id, coin. split_and!; try done. apply H2, elem_of_app. right. left.
    + intros x [Hx|?]%H4; [|by right]. apply elem_of_app in Hx as [Hx| ->%list_elem_of_singleton]; [by left|]. right. by eexists _, _.
Qed.

(** ** Native transfers *)



(** The parts of a transfer that is applied. *)
Lemma transfer_applied t height nativeToken transaction result exports t' :
  finalized transaction result -> ApplyFinalizedIdleCapitalTransfer t height nativeToken transaction result exports = Ok (Some t') ->
  exists p targets,
    prepareFinalizedNativeInputs t nativeToken transaction result = Ok p /\
    ApplyTransition (ni_tracker p) (ni_inputs p) targets (t_Fee transaction) = Ok t' /\ Forall target_typed targets /\ IsZero32 nativeToken = false /\
    (forall o coin, o ∈ Created result -> Kind o = KindCoin -> ParseCoin (Data o) = Ok coin -> Token coin = nativeToken ->
      to_object (ID o) (Amount coin) ∈ targets /\ IsZero32 (ID o) = false) /\
    (forall receipt, receipt ∈ exports -> exists id coin,
      Receipt_Hash receipt = Ok id /\ ParseCoin (o_Data (Output receipt)) = Ok coin /\ Token coin = nativeToken /\
      to_transfer id (Amount coin) ∈ targets) /\
    (forall x, x ∈ targets -> (exists id amount, x = to_transfer id amount) \/
      exists o coin, o ∈ Created result /\ ParseCoin (Data o) = Ok coin /\ x = to_object (ID o) (Amount coin)).
Proof.
  intros Hf E. unfold ApplyFinalizedIdleCapitalTransfer in E. apply bind_Ok in E as ([] & Hg%fail_if_Ok & E).
  apply orb_false_iff in Hg as [[_ Hz]%orb_false_iff _].
  destruct (t_Operations transaction) as [|op [|? ?]]; try done. destruct (negb _); [done|].
  apply bind_Ok in E as (p & Hp & E). destruct (blen (ni_inputs p) =? 0); [done|]. destruct (ni_unknown p); [by destruct (ni_tracked p)|].
  apply bind_Ok in E as (created & Hc & E). apply bind_Ok in E as (expected & _ & E).
  apply bind_Ok in E as ([[seen rest] targets] & He & E). skip E. apply bind_Ok in E as (t2 & Ht & E). apply Ok_inj in E. injection E as ->.
  apply created_targets in Hc as (C1 & _ & C3 & C4); [|apply Hf]. apply export_targets in He as (E1 & E2 & E3 & E4). cbn [snd] in *.
  exists p, targets. split_and!; try done.
  - by apply E1, C1.
  - intros o coin Ho Hk Hpc Htk. destruct (C3 o coin Ho Hk Hpc Htk) as [Hin ?]. split; [|done]. by apply E2.
  - intros x [Hx|?]%E4; [|by left]. apply C4 in Hx as [Hx|?]; [by apply elem_of_nil in Hx|by right].
Qed.


(** ** Imports *)



Lemma ParseCrossRepayment_typed d m : ParseCrossRepayment d = Ok m -> CrossRepayment_typed m.
Proof. exact (wire_parse_typed (A := CrossRepayment) d m). Qed.

Lemma import_steps t nativeToken receipt t' :
  ApplyFinalizedIdleCapitalImport t nativeToken receipt = Ok (Some t') -> u64 (SourceHeight receipt) ->
  exists d, steps t d t'.
Proof.
  intros E Hsh. unfold ApplyFinalizedIdleCapitalImport in E. skip E. skip E. apply bind_Ok in E as ([amount native] & Hv & E).
  assert (u64 amount) as Ha.
  { clear E. unfold finalizedReceiptNativeValue in Hv. repeat case_match; try done.
    - apply bind_Ok in Hv as (coin & Hc & Hv). apply ParseCoin_Ok in Hc as [((_ & Ha & _) & _) _]. destruct (negb _); apply Ok_inj in Hv; by injection Hv as <- _.
    - apply bind_Ok in Hv as (m & Hm%or_err_Ok & Hv). apply Ok_inj in Hv. injection Hv as <- _. apply ParseCrossOffer_typed in Hm. by destruct Hm as (_ & _ & _ & _ & (_ & _ & ? & _)).
    - apply bind_Ok in Hv as (m & Hm%or_err_Ok & Hv). apply ParseCrossAcceptance_typed in Hm. destruct Hm as (_ & _ & _ & _ & _ & (_ & _ & _ & Hcl & _)).
      destruct (_ =? 0); apply Ok_inj in Hv; injection Hv as <- _; done.
    - apply bind_Ok in Hv as (m & Hm%or_err_Ok & Hv). apply Ok_inj in Hv. injection Hv as <- _. apply ParseCrossRepayment_typed in Hm. by destruct Hm as (_ & _ & _ & _ & ? & _).
    - apply Ok_inj in Hv. by injection Hv as <- _. }
  destruct native; cbn [negb] in E; [|done]. apply bind_Ok in E as (id & Hid & E). apply bind_Ok in E as (destination & Hd & E).
  assert (arr32 (ID destination)) as Hda.
  { unfold DestinationObject in Hd. skip Hd. apply Ok_inj in Hd as <-. apply length_ObjectIDForShard. }
  destruct (tr_pendingTransfers t !! id) as [lots|].
  - skip E. apply bind_Ok in E as (t1 & Ht & E). apply Ok_inj in E. injection E as ->. eexists.
    exact (steps_materialize _ _ _ _ _ _ (steps_none t) Hda Ht).
  - destruct (o_Kind (Output receipt) =? KindCoin).
    + apply bind_Ok in E as (coin & Hc & E). apply ParseCoin_Ok in Hc as [((_ & _ & Hh) & _) _]. destruct (negb _); [done|]. skip E. skip E.
      apply bind_Ok in E as (t1 & Ht & E). apply Ok_inj in E. injection E as ->. eexists. exact (steps_bootstrap _ _ _ _ _ _ _ (steps_none t) Hda Ha Hh Ht).
    + skip E. apply bind_Ok in E as (t1 & Ht & E). apply Ok_inj in E. injection E as ->. eexists.
      exact (steps_bootstrap _ _ _ _ _ _ _ (steps_none t) Hda Ha Hsh Ht).
Qed.



(** ** Trackers whose known lineages are not pruned yet

    In the middle of a settlement the components of a job are replaced by legs
    before the lineages are pruned. *)

Definition entries_fine (t : IdleCapitalTracker) : Prop := tracker_ok (pruneBootstrapLineages t).

Lemma prune_ok t : tracker_ok t -> entries_fine t.
Proof. intros [Ho Hp Hk Hom Hpm Hc]. split; try done. change (allLots (pruneBootstrapLineages t)) with (allLots t). cbn. set_solver. Qed.

Lemma validate_fine t : entries_fine t -> Tracker_validate t = Ok tt -> tracker_ok t.
Proof.
  intros [Ho Hp _ _ _ [Hc _]] E. apply validate_tracker_ok; [|done]. split_and!; [| |exact Hc].
  - intros id lots Hl. destruct (Ho id lots Hl) as (? & _ & C & _). split; [done|]. by apply valid_typed, C.
  - intros id lots Hl. destruct (Hp id lots Hl) as (? & _ & C & _). split; [done|]. by apply valid_typed, C.
Qed.

Definition with_known (t : IdleCapitalTracker) (known : gset bytes) : IdleCapitalTracker :=
  mkTracker (tr_objects t) (tr_pendingTransfers t) known (tr_productive t).

Lemma allocate_known entries : forall t known, foldl allocate (with_known t known) entries = with_known (foldl allocate t entries) known.
Proof.
  induction entries as [|[target lots] entries IH]; intros t known; [done|]. cbn [foldl]. rewrite <-IH. f_equal.
  unfold allocate. by destruct (is_object target).
Qed.

Lemma allocate_keeps_known entries : forall t, tr_bootstrapLineages (foldl allocate t entries) = tr_bootstrapLineages t.
Proof.
  induction entries as [|[target lots] entries IH]; intros t; [done|]. cbn [foldl]. rewrite IH. unfold allocate. by destruct (is_object target).
Qed.

Lemma applyTransition_fine t inputs targets burned t' :
  entries_fine t -> Forall target_typed targets -> u64 burned -> applyTransition t inputs targets burned = Ok t' -> tracker_ok t'.
Proof.
  intros Hf Htt Hb E. set (known := tr_bootstrapLineages t ∩ lineages (allLots t)).
  assert (applyTransition (pruneBootstrapLineages t) inputs targets burned = Ok (with_known t' (known ∩ lineages (allLots t'))) /\
    tr_bootstrapLineages t' = tr_bootstrapLineages t ∩ lineages (allLots t')) as [E' Hk].
  { unfold applyTransition in E |- *. apply bind_Ok in E as ([seen lots] & E1 & E). apply bind_Ok in E as (c & E2 & E).
    apply bind_Ok in E as ([so st] & E3 & E). apply bind_Ok in E as ([] & E4 & E). apply bind_Ok in E as ([] & E5 & E).
    apply bind_Ok in E as (allocations & E6 & E). apply Ok_inj in E as <-.
    change (rfold (collect_input (pruneBootstrapLineages t)) (∅, []) inputs) with (rfold (collect_input t) (∅, []) inputs). rewrite E1. cbn [mbind res_bind].
    rewrite E2. cbn [mbind res_bind].
    change (rfold (check_target (pruneBootstrapLineages t)) (∅, ∅) targets) with (rfold (check_target t) (∅, ∅) targets). rewrite E3. cbn [mbind res_bind].
    change (objects_count (pruneBootstrapLineages t)) with (objects_count t). change (transfers_count (pruneBootstrapLineages t)) with (transfers_count t).
    rewrite E4. cbn [mbind res_bind]. rewrite E5. cbn [mbind res_bind]. rewrite E6. cbn [mbind res_bind].
    change (delete_inputs (pruneBootstrapLineages t) inputs) with (with_known (delete_inputs t inputs) known).
    split; [by rewrite allocate_known|]. cbn [pruneBootstrapLineages tr_bootstrapLineages]. by rewrite allocate_keeps_known. }
  pose proof (applyTransition_Ok _ _ _ _ _ Hf Htt Hb E') as Htn. pose proof (transition_ok _ _ _ _ _ Hf Htt Htn) as Hok.
  pose proof (transition_lineages _ _ _ _ _ Hf Hok Htn) as Hsub.
  change (allLots (with_known t' (known ∩ lineages (allLots t')))) with (allLots t') in Hsub. change (allLots (pruneBootstrapLineages t)) with (allLots t) in Hsub.
  assert (with_known t' (known ∩ lineages (allLots t')) = t') as <-; [|done].
  replace (known ∩ lineages (allLots t')) with (tr_bootstrapLineages t') by (rewrite Hk; unfold known; set_solver). by destruct t'.
Qed.

(** ** Settlement legs *)

Definition legs_typed (legs : settlement_legs) : Prop := map_Forall (fun id lots => arr32 id /\ Forall typed lots) (lg_lots legs).

Lemma add_leg_typed legs account legID lots :
  legs_typed legs -> arr32 legID -> Forall typed lots -> legs_typed (add_leg legs account legID lots).
Proof. intros Hl Hid Ht. by apply map_Forall_insert_2. Qed.

Lemma leg_id_arr jobID kind account extra id : computeSettlementLegObjectID jobID kind account extra = Ok id -> arr32 id.
Proof. intros E. unfold computeSettlementLegObjectID in E. skip E. skip E. apply Ok_inj in E as <-. apply arr32_DomainHash. Qed.

Lemma sub64_u64 a b : u64 (sub64 a b).
Proof. unfold u64, sub64. apply Z.mod_pos_bound. lia. Qed.

Lemma split_productive_typed height lots : forall remaining r productive idle,
  u64 height -> u64 remaining -> Forall typed lots -> split_productive height remaining lots = (r, productive, idle) ->
  Forall typed productive /\ Forall typed idle.
Proof.
  induction lots as [|lot lots IH]; intros remaining r productive idle Hh Hr Ht E; cbn [split_productive] in E.
  - injection E as <- <- <-. split; constructor.
  - apply Forall_cons in Ht as [(Ta & Ti & Tl) Ht]. destruct (remaining =? 0).
    + destruct (split_productive height remaining lots) as [[r1 p1] i1] eqn:E1. injection E as <- <- <-.
      apply IH in E1 as [? ?]; [|done..]. split; [done|]. by constructor.
    + set (take := if remaining <? lot_Amount lot then remaining else lot_Amount lot) in *.
      assert (u64 take) as Htake by (unfold take; by destruct (_ <? _)).
      destruct (split_productive height (sub64 remaining take) lots) as [[r1 p1] i1] eqn:E1. injection E as <- <- <-.
      apply IH in E1 as [? ?]; [|done|apply sub64_u64|done]. split; [constructor; [by split_and!|done]|]. destruct (take <? lot_Amount lot); [|done].
      constructor; [|done]. split; [apply sub64_u64|done].
Qed.

Lemma compacted_typed lots c : Forall typed lots -> compactCapitalLots lots = Ok c -> Forall typed c.
Proof. intros Ht E. apply compact_iff in E as (_ & _ & C & _); [|done]. by apply valid_typed, C. Qed.

Lemma split_amount_typed lots height amount productive idle :
  Forall typed lots -> u64 height -> u64 amount -> splitProductiveCapitalAmount lots height amount = Ok (productive, idle) ->
  Forall typed productive /\ Forall typed idle.
Proof.
  intros Ht Hh Ha E. unfold splitProductiveCapitalAmount in E. skip E. apply bind_Ok in E as (c & Hc & E). skip E. skip E.
  apply compacted_typed in Hc; [|done].
  destruct (split_productive height amount (sort_by age_key c)) as [[r p] i] eqn:Es.
  apply split_productive_typed in Es as [Hp Hi]; [|done|done|by rewrite sort_by_perm]. skip E. apply bind_Ok in E as (p' & Hp' & E).
  apply bind_Ok in E as (i' & Hi' & E). apply Ok_inj in E. injection E as <- <-. apply compacted_typed in Hp'; [|done]. split; [done|].
  destruct (0 <? blen i); [by apply compacted_typed in Hi'|by apply Ok_inj in Hi' as <-].
Qed.

Lemma zsum_member (l : list Z) x : Forall (fun a => 0 < a) l -> x ∈ l -> x <= zsum l.
Proof.
  intros Hp Hx. apply list_elem_of_split in Hx as (l1 & l2 & ->). rewrite zsum_app, zsum_cons. apply Forall_app in Hp as [P1 P2].
  apply Forall_cons in P2 as [_ P2].
  assert (forall l, Forall (fun a => 0 < a) l -> 0 <= zsum l) as Hn.
  { intros l Hl. apply zsum_nonneg. eapply Forall_impl; [exact Hl|]. cbn. lia. }
  pose proof (Hn l1 P1). pose proof (Hn l2 P2). lia.
Qed.

Lemma split_positive_typed lots amounts outs :
  Forall typed lots -> Forall (fun a => 0 < a) amounts -> SplitCapitalLineage lots amounts = Ok outs -> Forall (Forall typed) outs.
Proof.
  intros Ht Hp E. assert (zsum amounts <= MaxUint64) as Hm.
  { unfold SplitCapitalLineage in E. skip E. apply bind_Ok in E as (c & _ & E). skip E. apply bind_Ok in E as ([] & Hg%fail_if_Ok & _).
    apply orb_false_iff in Hg as [Hs%negb_false_iff%Z.eqb_eq Hu%negb_false_iff]. unfold IsUint64 in Hu. lia. }
  apply split_Ok in E as (_ & Hc & _); [|done|].
  - eapply Forall_impl; [exact Hc|]. intros out C. by apply valid_typed, C.
  - apply Forall_forall. intros x Hx. pose proof (zsum_member _ _ Hp Hx). rewrite Forall_forall in Hp. specialize (Hp x Hx). lia.
Qed.

Lemma payment_legs_typed record entries : forall legs out,
  legs_typed legs -> Forall (fun entry => Forall typed entry.2) entries -> rfold (payment_leg record) legs entries = Ok out -> legs_typed out.
Proof.
  induction entries as [|[account lots] entries IH]; intros legs out Hl Hall E; cbn [rfold] in E; [by apply Ok_inj in E as <-|].
  apply Forall_cons in Hall as [H1 Hall]. apply bind_Ok in E as (legs1 & E1 & E). apply IH in E; [done| |done].
  unfold payment_leg in E1. apply bind_Ok in E1 as (id & Hid%leg_id_arr & E1). apply Ok_inj in E1 as <-. by apply add_leg_typed.
Qed.

Lemma refund_leg_typed record legs lots out : legs_typed legs -> Forall typed lots -> refund_leg record legs lots = Ok out -> legs_typed out.
Proof.
  intros Hl Ht E. unfold refund_leg in E. apply bind_Ok in E as (id & Hid%leg_id_arr & E). apply Ok_inj in E as <-. by apply add_leg_typed.
Qed.

Lemma sorted_positive values : Forall (fun account => 0 < mget values account) (sortedPositiveAccountAmounts values).
Proof.
  unfold sortedPositiveAccountAmounts. rewrite sort_by_perm. apply Forall_fmap, Forall_forall. intros [account amount] Hin.
  rewrite list_elem_of_In, filter_In, <-list_elem_of_In in Hin. destruct Hin as [Hin Hpos%Z.ltb_lt]. rewrite range_map_perm in Hin.
  apply elem_of_map_to_list in Hin. unfold mget. cbn in *. by rewrite Hin.
Qed.

Lemma productive_legs_Ok t height record settlement evidence lots legs t' :
  coverage_ok (tr_productive t) -> Forall typed lots -> u64 height -> u64 (pe_Paid evidence) -> u64 (oj_Escrow record) -> 0 <= pe_CoverageBps evidence ->
  productive_legs t height record settlement evidence lots = Ok (legs, t') ->
  legs_typed legs /\ exists productive, t' = set_productive t productive /\ coverage_ok productive.
Proof.
  intros Hc Ht Hh Hp He Hb E. unfold productive_legs in E. apply bind_Ok in E as ([productive idle] & Hs & E).
  apply split_amount_typed in Hs as [T1 T2]; [|done..]. apply bind_Ok in E as (paymentLots & Hpl & E).
  apply split_positive_typed in Hpl; [|done|apply Forall_fmap, sorted_positive].
  apply bind_Ok in E as (legs1 & L1 & E). apply payment_legs_typed in L1.
  2:{ apply map_Forall_empty. }
  2:{ apply Forall_forall. intros [account ls] Hin. apply elem_of_zip_r in Hin. rewrite Forall_forall in Hpl. by apply Hpl. }
  apply bind_Ok in E as (legs2 & L2 & E). apply bind_Ok in E as (pr & Ho & E). apply Ok_inj in E. injection E as <- <-. split.
  - destruct (0 <? _); skip L2; [by eapply refund_leg_typed|by apply Ok_inj in L2 as <-].
  - exists pr. split; [done|]. eapply Coverage_Observe_ok; [exact Hc|exact He|exact Hb|exact Ho].
Qed.

Lemma collateral_legs_typed t record settlement components : forall legs out,
  (forall id, Forall typed (default [] (tr_objects t !! id))) -> legs_typed legs ->
  rfold (collateral_leg t record settlement) legs components = Ok out -> legs_typed out.
Proof.
  induction components as [|component components IH]; intros legs out Ht Hl E; cbn [rfold] in E; [by apply Ok_inj in E as <-|].
  apply bind_Ok in E as (legs1 & E1 & E). apply IH in E; [done|done|]. unfold collateral_leg in E1. skip E1.
  destruct (0 <? mget (SlashedCollateral settlement) (cc_Provider component)).
  - skip E1. apply bind_Ok in E1 as (id & Hid%leg_id_arr & E1). apply Ok_inj in E1 as <-. apply add_leg_typed; [done|done|apply Ht].
  - skip E1. apply bind_Ok in E1 as (id & Hid%leg_id_arr & E1). apply Ok_inj in E1 as <-. apply add_leg_typed; [done|done|apply Ht].
Qed.

Lemma collect_sources t ids : forall sources out,
  rfold (collect_source t) sources ids = Ok out -> NoDup ids -> Forall (fun id => id ∉ sources) ids ->
  out = list_to_set ids ∪ sources /\ Forall (fun id => is_Some (tr_objects t !! id)) ids.
Proof.
  induction ids as [|id ids IH]; intros sources out E Hd Hf; cbn [rfold] in E.
  - apply Ok_inj in E as <-. split; [cbn; set_solver|constructor].
  - apply NoDup_cons in Hd as [Hn Hd]. apply Forall_cons in Hf as [_ Hf]. apply bind_Ok in E as (s1 & E1 & E). unfold collect_source in E1.
    skip E1. apply bind_Ok in E1 as ([] & Hs%fail_if_Ok%bool_decide_eq_false & E1). apply Ok_inj in E1 as <-.
    apply IH in E as [-> Hall]; [|done|]. 2:{ rewrite Forall_forall in Hf |- *. intros x Hx. specialize (Hf x Hx). set_solver. }
    split; [cbn; set_solver|]. constructor; [|done]. by destruct (tr_objects t !! id).
Qed.

Lemma collect_NoDup t ids : forall sources out,
  rfold (collect_source t) sources ids = Ok out -> NoDup ids /\ Forall (fun id => id ∉ sources) ids.
Proof.
  induction ids as [|id ids IH]; intros sources out E; cbn [rfold] in E; [split; constructor|].
  apply bind_Ok in E as (s1 & E1 & E). unfold collect_source in E1. apply bind_Ok in E1 as ([] & Hn%fail_if_Ok%bool_decide_eq_false & E1).
  skip E1. apply Ok_inj in E1 as <-. apply IH in E as [Hd Hf]. rewrite Forall_forall in Hf. split.
  - constructor; [|done]. intros Hin. apply (Hf id Hin). set_solver.
  - constructor; [done|]. apply Forall_forall. intros x Hx. specialize (Hf x Hx). set_solver.
Qed.

Lemma dom_foldr_delete (m : gmap bytes (list CapitalLot)) ids : dom (foldr delete m ids) = dom m ∖ list_to_set ids.
Proof. induction ids as [|id ids IH]; cbn [foldr list_to_set]; [set_solver|]. rewrite dom_delete_L, IH. set_solver. Qed.

Lemma replace_fine t ids legs t' :
  entries_fine t -> map_Forall (fun id lots => arr32 id /\ Forall typed lots) legs ->
  replaceComputeComponentsWithSettlementLegs t ids legs = Ok t' -> entries_fine t'.
Proof.
  intros [Ho Hp _ _ Hpm Hc] Hl E. unfold replaceComputeComponentsWithSettlementLegs in E. skip E. apply bind_Ok in E as (sources & Hs & E).
  apply bind_Ok in E as ([] & Hm%fail_if_Ok%Z.ltb_ge & E). apply bind_Ok in E as ([] & Hk%rfold_unit_Forall & E). apply Ok_inj in E as <-.
  destruct (collect_NoDup _ _ _ _ Hs) as [Hnd Hf]. apply collect_sources in Hs as [-> Hin]; [|done|done]. rewrite union_empty_r_L in *.
  split; cbn [pruneBootstrapLineages set_objects tr_objects tr_pendingTransfers tr_bootstrapLineages tr_productive]; try done.
  - intros id lots Hid. apply lookup_union_Some_raw in Hid as [Hid|[_ Hid]].
    + rewrite range_map_perm, Forall_forall in Hk. specialize (Hk (id, lots) ltac:(by apply elem_of_map_to_list)). unfold check_leg in Hk.
      apply bind_Ok in Hk as ([] & Hz%fail_if_Ok & Hk). skip Hk. skip Hk. apply bind_Ok in Hk as (c & Hcc%or_err_Ok & Hk). skip Hk.
      apply fail_if_Ok, negb_false_iff, bool_decide_eq_true in Hk. subst c. destruct (Hl id lots Hid) as [Ha Ht].
      apply compact_iff in Hcc as (Hne & _ & C & _); [|done]. done.
    + rewrite lookup_foldr_delete in Hid. case_bool_decide; [done|]. by apply Ho.
  - match goal with |- _ ⊆ lineages (allLots ?x) => change (allLots x) with (allLots (set_objects t (legs ∪ foldr delete (tr_objects t) ids))) end. set_solver.
  - unfold objects_count in *. cbn [tr_objects pruneBootstrapLineages set_objects] in *. etrans; [|exact Hm].
    rewrite <-(size_dom (legs ∪ _)), dom_union_L, dom_foldr_delete, size_union_alt, !size_dom.
    assert ((list_to_set ids : gset bytes) ⊆ dom (tr_objects t)) as Hsub.
    { intros id Hi%elem_of_list_to_set. rewrite Forall_forall in Hin. by apply elem_of_dom, Hin. }
    pose proof (subseteq_size ((dom (tr_objects t) ∖ list_to_set ids) ∖ dom legs) (dom (tr_objects t) ∖ list_to_set ids) ltac:(set_solver)) as Hle.
    rewrite (size_difference (dom (tr_objects t)) (list_to_set ids)) in Hle by done. pose proof (subseteq_size _ _ Hsub). rewrite size_dom in *. lia.
Qed.

Lemma settlement_targets_typed nativeToken transaction result exports amounts accounts : forall i out targets,
  map_Forall (fun _ target => target_typed target) out ->
  rfoldi i (settlement_target nativeToken transaction result exports amounts) out accounts = Ok targets ->
  map_Forall (fun _ target => target_typed target) targets.
Proof.
  induction accounts as [|account accounts IH]; intros i out targets Ho E; cbn [rfoldi] in E; [by apply Ok_inj in E as <-|].
  apply bind_Ok in E as (out1 & E1 & E). apply IH in E; [done|]. unfold settlement_target in E1. skip E1.
  apply bind_Ok in E1 as (target & [Ht _]%capital_target_typed & E1). apply Ok_inj in E1 as <-. by apply map_Forall_insert_2.
Qed.

Lemma pay_accounts_fine legs targets accounts : forall t t',
  entries_fine t -> map_Forall (fun _ target => target_typed target) targets -> rfold (pay_account legs targets) t accounts = Ok t' -> entries_fine t'.
Proof.
  induction accounts as [|account accounts IH]; intros t t' Hf Ht E; cbn [rfold] in E; [by apply Ok_inj in E as <-|].
  apply bind_Ok in E as (t1 & E1 & E). apply IH in E; [done| |done]. unfold pay_account in E1. skip E1.
  apply bind_Ok in E1 as (target & Htg%some_or_Ok & E1). apply prune_ok. apply ApplyTransition_Ok, applyTransition_fine in E1; [done|done| |done].
  apply Forall_singleton. by apply (Ht account).
Qed.

(** ** The compute market *)

Section market.
Context (t : IdleCapitalTracker) (height : Z) (nativeToken : bytes) (transaction : Transaction) (result : Result) (exports : list CrossShardReceipt).
Context (Hok : tracker_ok t) (Hf : finalized transaction result) (Hh : u64 height).

Lemma native_transition_ok targets t' :
  Forall target_typed targets -> applyFinalizedNativeInputsTransition t nativeToken transaction result targets (t_Fee transaction) = Ok (Some t') ->
  tracker_ok t'.
Proof.
  intros Ht E. unfold applyFinalizedNativeInputsTransition in E. apply bind_Ok in E as (p & Hp & E).
  destruct (ni_unknown p); [by destruct (ni_tracked p)|]. destruct (blen (ni_inputs p) =? 0); [by skip E|].
  apply bind_Ok in E as (t1 & Ha & E). apply Ok_inj in E. injection E as ->. eapply steps_ok; [done|]. by eapply applied_steps.
Qed.

Lemma side_ok t' :
  applyFinalizedComputeSideCapital t nativeToken transaction result exports = Ok (Some t') -> tracker_ok t'.
Proof. intros E. apply bind_Ok in E as (targets & Ht%ordinary_typed & E). by eapply native_transition_ok. Qed.

Lemma side_default applied :
  applyFinalizedComputeSideCapital t nativeToken transaction result exports = Ok applied -> tracker_ok (default t applied).
Proof. intros E. destruct applied as [t'|]; [by apply side_ok in E|done]. Qed.

Lemma created_of_kind kind o : uniqueCreatedObjectOfKind (Created result) kind = Ok (Some o) -> arr32 (ID o).
Proof.
  intros E. unfold uniqueCreatedObjectOfKind in E.
  destruct (List.filter (fun o => Kind o =? kind) (Created result)) as [|o' [|? ?]] eqn:El; try done. apply Ok_inj in E. injection E as ->.
  assert (In o (List.filter (fun o => Kind o =? kind) (Created result))) as Hin by (rewrite El; by left).
  apply filter_In in Hin as [Hin _]. pose proof (fz_created _ _ Hf) as Hc. rewrite Forall_forall in Hc. apply Hc. by apply list_elem_of_In.
Qed.

Lemma offer_ok payload t' :
  applyFinalizedComputeOfferCapital t nativeToken transaction result exports payload = Ok (Some t') -> tracker_ok t'.
Proof.
  intros E. apply bind_Ok in E as (offer & Ho%or_err_Ok & E). skip E. apply bind_Ok in E as (found & Hfo%or_err_Ok & E).
  apply bind_Ok in E as (o & ->%some_or_Ok & E). skip E. skip E. skip E. apply bind_Ok in E as (targets & Ht%ordinary_typed & E).
  apply created_of_kind in Hfo. apply ParseOffer_Ok in Ho as [(_ & _ & _ & Hc & _) _]. eapply native_transition_ok; [|exact E].
  destruct (0 <? of_Collateral offer); [|done]. apply Forall_app. split; [done|]. by apply Forall_singleton, object_target_typed.
Qed.

Lemma job_ok payload t' :
  applyFinalizedComputeJobCapital t nativeToken transaction result exports payload = Ok (Some t') -> tracker_ok t'.
Proof.
  intros E. apply bind_Ok in E as (job & _ & E). skip E. apply bind_Ok in E as (found & _ & E). apply bind_Ok in E as (o & _ & E). skip E.
  apply bind_Ok in E as (record & Hr%or_err_Ok & E). skip E. skip E. apply bind_Ok in E as (escrowID & He & E).
  apply bind_Ok in E as (targets & Ht%ordinary_typed & E). apply ParseOnChainJob_Ok in Hr as [(_ & _ & Hu & _) _].
  eapply native_transition_ok; [|exact E]. apply Forall_app. split; [done|]. apply Forall_singleton, object_target_typed; [|done].
  unfold ComputeEscrowComponentID in He. skip He. apply Ok_inj in He as <-. apply arr32_DomainHash.
Qed.

Lemma lock_collateral_ok message offerObject t' excessID :
  AssignmentMessage_typed message -> lock_collateral t nativeToken transaction result message offerObject = Ok (Some (t', excessID)) -> tracker_ok t'.
Proof.
  intros (_ & _ & _ & _ & _ & (_ & _ & _ & _ & _ & Hc & _)) E. unfold lock_collateral in E.
  destruct (negb _); [apply Ok_inj in E; by injection E as -> _|]. destruct (ObjectLots t offerObject); [|by destruct (finalizedNativeInputsContainTracked _ _ _ _)].
  skip E. apply bind_Ok in E as (locked & Hl & E). apply bind_Ok in E as (ex & Hx & E). skip E. apply bind_Ok in E as (t1 & Ha & E).
  apply Ok_inj in E. injection E as -> ->. eapply (steps_ok t); [done|]. eapply steps_transition; [apply steps_none| | |exact Ha]; [|done].
  apply Forall_app. split.
  - destruct (0 <? jb_CollateralRequired (am_Job message)); [|apply Ok_inj in Hl as <-; constructor]. apply bind_Ok in Hl as (id & Hid & Hl). apply Ok_inj in Hl as <-.
    apply Forall_singleton, object_target_typed; [|done]. unfold ComputeCollateralComponentID in Hid. skip Hid. apply Ok_inj in Hid as <-. apply arr32_DomainHash.
  - destruct excessID as [id|]; [|constructor]. apply Forall_singleton, object_target_typed; [|apply sub64_u64].
    destruct (0 <? sub64 _ _); [|done]. apply bind_Ok in Hx as (id' & Hid%leg_id_arr & Hx). apply Ok_inj in Hx. by injection Hx as ->.
Qed.

Lemma accept_ok payload t' :
  applyFinalizedComputeAcceptCapital t nativeToken transaction result exports payload = Ok (Some t') -> tracker_ok t'.
Proof.
  intros E. apply bind_Ok in E as (message & Hm%or_err_Ok & E). skip E. apply bind_Ok in E as (w & _ & E). skip E.
  apply bind_Ok in E as (offer & _ & E). skip E. skip E. apply ParseAssignmentMessage_Ok in Hm as [Hm _].
  apply bind_Ok in E as (locked & Hl & E). destruct locked as [[t1 excessID]|]; [|done]. apply lock_collateral_ok in Hl as Hok1; [|done].
  apply bind_Ok in E as (targets & Ht%ordinary_typed & E). apply bind_Ok in E as (p & Hp & E).
  destruct (prepare_steps _ _ _ _ _ Hf Hp) as (_ & [d Hs] & _). pose proof (steps_ok _ _ _ Hok1 Hs) as Hokp.
  destruct (ni_unknown p); [skip E; apply Ok_inj in E; by injection E as <-|]. cbv zeta in E.
  destruct (blen (ni_inputs p ++ _) =? 0); [skip E; apply Ok_inj in E; by injection E as <-|].
  apply bind_Ok in E as (t2 & Ha & E). apply Ok_inj in E. injection E as ->. eapply (steps_ok (ni_tracker p)); [done|].
  eapply steps_transition; [apply steps_none|done|apply Hf|exact Ha].
Qed.

Lemma ingest_ok payload t' :
  applyFinalizedComputeAssignmentIngestCapital t nativeToken transaction result exports payload = Ok (Some t') -> tracker_ok t'.
Proof.
  intros E. apply bind_Ok in E as (applied & Hs & E). repeat skip E. apply Ok_inj in E as ->. by apply side_ok in Hs.
Qed.

Lemma paid_nonneg (entries : list (bytes * Z)) : forall acc paid, u64 acc ->
  rfold (fun paid entry => fail_if (overflows paid entry.2) ErrMarketEscrow;; Ok (add64 paid entry.2)) acc entries = Ok paid -> u64 paid.
Proof.
  induction entries as [|e entries IH]; intros acc paid Ha E; cbn [rfold] in E; [by apply Ok_inj in E as <-|].
  apply bind_Ok in E as (x & Hx & E). skip Hx. apply Ok_inj in Hx as <-. apply IH in E; [done|]. unfold u64, add64. apply Z.mod_pos_bound. lia.
Qed.

Lemma evidence_bounds evidence :
  DeriveFinalizedComputeProductiveEvidence transaction result = Ok (Some evidence) -> u64 (pe_Paid evidence) /\ 0 <= pe_CoverageBps evidence.
Proof.
  intros E. unfold DeriveFinalizedComputeProductiveEvidence in E. skip E. destruct (t_Operations transaction) as [|op [|? ?]]; try done.
  destruct (_ && _); [done|]. skip E. skip E. apply bind_Ok in E as (record & _ & E). skip E. apply bind_Ok in E as ([? settlement] & _ & E).
  apply bind_Ok in E as (receipt & _ & E). apply bind_Ok in E as (paid & Hp%or_err_Ok & E). skip E. apply bind_Ok in E as (coverage & Hc & E).
  skip E. skip E. apply Ok_inj in E. injection E as <-. cbn [pe_Paid pe_CoverageBps]. apply paid_nonneg in Hp; [|done]. split; [done|].
  unfold productiveCoverageBps in Hc. apply bind_Ok in Hc as ([] & Hg%fail_if_Ok & Hc). skip Hc. apply Ok_inj in Hc as <-.
  apply orb_false_iff in Hg as [[_ Hne%Z.eqb_neq]%orb_false_iff Hle%Z.ltb_ge]. unfold u64 in Hp. apply Z.quot_pos; lia.
Qed.

Lemma finalized_settlement_Ok record settlement evidence :
  finalizedComputeSettlement height transaction result = Ok (record, settlement, evidence) ->
  u64 (oj_Escrow record) /\ (forall e, evidence = Some e -> u64 (pe_Paid e) /\ 0 <= pe_CoverageBps e).
Proof.
  intros E. unfold finalizedComputeSettlement in E. skip E. destruct (t_Operations transaction) as [|op [|? ?]] eqn:Eop; try done.
  skip E. apply bind_Ok in E as (w & _ & E). skip E. apply bind_Ok in E as (r & Hr%or_err_Ok & E). skip E. apply bind_Ok in E as (s & _ & E). skip E.
  apply ParseOnChainJob_Ok in Hr as [(_ & _ & Hu & _) _]. destruct (op_Kind op =? OpComputeExpire).
  - apply Ok_inj in E. injection E as <- _ <-. by split.
  - apply bind_Ok in E as (e & He%or_err_Ok & E). apply bind_Ok in E as (e' & ->%some_or_Ok & E). skip E. apply Ok_inj in E. injection E as <- _ <-.
    split; [done|]. intros ? [= <-]. by apply evidence_bounds.
Qed.

Lemma tracked_typed now id : entries_fine now -> Forall typed (default [] (tr_objects now !! id)).
Proof.
  intros [Ho _ _ _ _ _]. destruct (tr_objects now !! id) as [lots|] eqn:E; [|constructor]. destruct (Ho id lots E) as (_ & _ & C & _). by apply valid_typed, C.
Qed.

Lemma settlement_fine t' :
  applyFinalizedComputeSettlementCapital t height nativeToken transaction result exports = Ok (Some t') -> entries_fine t'.
Proof.
  intros E. apply bind_Ok in E as (side & Hs & E). pose proof (side_default _ Hs) as Hok1. set (t1 := default t side) in *.
  apply bind_Ok in E as ([[record settlement] evidence] & Hfs & E). apply finalized_settlement_Ok in Hfs as [He Hev].
  apply bind_Ok in E as (components & _ & E). apply bind_Ok in E as (count & _ & E). destruct (count =? 0).
  { apply Ok_inj in E. subst side. by apply prune_ok. }
  skip E. apply bind_Ok in E as (targets & Ht & E). apply bind_Ok in E as ([legs t2] & Hl & E).
  assert (legs_typed legs /\ entries_fine t2) as [L1 F2].
  { destruct evidence as [evidence|].
    - destruct (Hev _ eq_refl) as [Hp Hb]. apply productive_legs_Ok in Hl as (Hl & pr & -> & Hc); [|apply Hok1|by apply tracked_typed, prune_ok|done..].
      split; [done|]. apply prune_ok in Hok1 as [Ho Hp' Hk Hom Hpm _]. by split.
    - skip Hl. apply bind_Ok in Hl as (legs1 & Hl1 & Hl). apply Ok_inj in Hl. injection Hl as -> ->. split; [|by apply prune_ok].
      eapply (refund_leg_typed record no_legs); [unfold legs_typed; cbn; apply map_Forall_empty|by apply tracked_typed, prune_ok|exact Hl1]. }
  apply bind_Ok in E as (legs' & L2 & E). apply collateral_legs_typed in L2; [|intros id; by apply tracked_typed|done].
  apply bind_Ok in E as (t3 & Hr & E). apply replace_fine in Hr; [|done|exact L2]. apply bind_Ok in E as (t4 & Hp & E). apply Ok_inj in E. injection E as ->.
  eapply pay_accounts_fine; [exact Hr| |exact Hp]. unfold finalizedComputeSettlementTargets in Ht. skip Ht. skip Ht. skip Ht. skip Ht. skip Ht.
  eapply settlement_targets_typed; [|exact Ht]. apply map_Forall_empty.
Qed.

Lemma compute_lineage_ok t' :
  ApplyFinalizedComputeCapitalLineage t height nativeToken transaction result exports = Ok (Some t') -> tracker_ok t'.
Proof.
  intros E. unfold ApplyFinalizedComputeCapitalLineage in E. skip E. destruct (t_Operations transaction) as [|op [|? ?]]; try done.
  apply bind_Ok in E as ([preview|] & Hc & E); [|done]. apply bind_Ok in E as ([] & Hv & E). apply Ok_inj in E. injection E as ->.
  unfold compute_operation in Hc. repeat (destruct (_ =? _) in Hc; cbn [orb] in Hc); try done;
    first [by eapply offer_ok|by eapply job_ok|by eapply accept_ok|by eapply ingest_ok|by eapply side_ok|apply validate_fine; [by apply settlement_fine|done]].
Qed.
End market.

(** ** Cross-shard lending *)

Section loans.
Context (t : IdleCapitalTracker) (height : Z) (nativeToken : bytes) (transaction : Transaction) (result : Result) (exports : list CrossShardReceipt).
Context (Hok : tracker_ok t) (Hf : finalized transaction result).

Lemma lending_transition_ok special targets t' :
  Forall target_typed targets -> applyLendingValueTransition t nativeToken transaction result special targets (t_Fee transaction) = Ok (Some t') ->
  tracker_ok t'.
Proof.
  intros Ht E. unfold applyLendingValueTransition in E. apply bind_Ok in E as (p & Hp & E). apply bind_Ok in E as (inputs & _ & E). cbv zeta in E.
  destruct (prepare_steps _ _ _ _ _ Hf Hp) as (_ & [d Hs] & _). pose proof (steps_ok _ _ _ Hok Hs) as Hokp.
  destruct (ni_unknown p); [by destruct (_ || _)|]. destruct (blen inputs =? 0); [done|]. apply bind_Ok in E as (t1 & Ha & E). apply Ok_inj in E. injection E as ->.
  eapply (steps_ok (ni_tracker p)); [done|]. eapply steps_transition; [apply steps_none|done|apply Hf|exact Ha].
Qed.

Lemma message_target_typed destination index spec amount target :
  u64 amount -> finalizedLendingMessageTarget transaction result exports destination index spec amount = Ok target -> target_typed target.
Proof.
  intros Ha E. unfold finalizedLendingMessageTarget in E. skip E. skip E. skip E. skip E. apply bind_Ok in E as (receipt & _ & E).
  apply bind_Ok in E as (h & Hh%Receipt_Hash_arr & E). apply Ok_inj in E as <-. by apply transfer_target_typed.
Qed.

Lemma payout_target_typed owner amount index target :
  payout_target height nativeToken transaction result exports owner amount index = Ok target -> target_typed target.
Proof. intros E. unfold payout_target in E. skip E. by apply capital_target_typed in E as [? _]. Qed.

Lemma snoc_typed targets target : Forall target_typed targets -> target_typed target -> Forall target_typed (targets ++ [target]).
Proof. intros. apply Forall_app. split; [done|by apply Forall_singleton]. Qed.

Lemma lending_lineage_ok t' :
  ApplyFinalizedCrossLendingCapitalLineage t height nativeToken transaction result exports = Ok (Some t') -> tracker_ok t'.
Proof.
  intros E. unfold ApplyFinalizedCrossLendingCapitalLineage in E. skip E. destruct (t_Operations transaction) as [|op [|? ?]]; try done.
  destruct (op_Kind op =? OpCrossLoanOffer).
  { apply bind_Ok in E as (terms & [(_ & _ & Hp & _) _]%or_err_Ok%ParseTerms_Ok & E). skip E. skip E. skip E. skip E.
    apply bind_Ok in E as (targets & Ht%ordinary_typed & E). apply bind_Ok in E as (target & Hm%message_target_typed & E); [|done].
    eapply lending_transition_ok; [|exact E]. by apply snoc_typed. }
  destruct (op_Kind op =? OpCrossLoanAccept).
  { apply bind_Ok in E as (o & _ & E). apply bind_Ok in E as (offer & Ho%or_err_Ok%ParseCrossOffer_typed & E). destruct Ho as (_ & _ & _ & _ & (_ & _ & _ & Hc & _)).
    skip E. skip E. apply bind_Ok in E as (targets & Ht%ordinary_typed & E). skip E. apply bind_Ok in E as (target & [Hm _]%capital_target_typed & E).
    apply bind_Ok in E as (all & Hall & E). eapply lending_transition_ok; [|exact E]. destruct (0 <? _); [|apply Ok_inj in Hall as <-; by apply snoc_typed].
    apply bind_Ok in Hall as (x & Hx%message_target_typed & Hall); [|done]. apply Ok_inj in Hall as <-. by repeat apply snoc_typed. }
  destruct (op_Kind op =? OpCrossLoanRepay).
  { apply bind_Ok in E as (o & _ & E). apply bind_Ok in E as (activation & Ho%or_err_Ok%ParseCrossActivation_typed & E). destruct Ho as (_ & _ & _ & _ & (_ & _ & Hp & _)).
    skip E. apply bind_Ok in E as (due & Hd%RepaymentDue_pos & E); [|done]. skip E. skip E. apply bind_Ok in E as (targets & Ht%ordinary_typed & E).
    apply bind_Ok in E as (target & Hm%message_target_typed & E); [|unfold u64; lia]. eapply lending_transition_ok; [|exact E]. by apply snoc_typed. }
  destruct (op_Kind op =? OpCrossLoanSettle).
  { apply bind_Ok in E as (o & _ & E). apply bind_Ok in E as (o' & _ & E). apply bind_Ok in E as (acceptance & _ & E). skip E. skip E. skip E.
    apply bind_Ok in E as (due & _ & E). skip E. apply bind_Ok in E as (targets & Ht%ordinary_typed & E).
    apply bind_Ok in E as (target & Hm%payout_target_typed & E). apply bind_Ok in E as (all & Hall & E). eapply lending_transition_ok; [|exact E].
    destruct (0 <? _); [|apply Ok_inj in Hall as <-; by apply snoc_typed].
    apply bind_Ok in Hall as (x & Hx%payout_target_typed & Hall). apply Ok_inj in Hall as <-. by repeat apply snoc_typed. }
  destruct (op_Kind op =? OpCrossLoanDefault).
  { apply bind_Ok in E as (o & _ & E). apply bind_Ok in E as (acceptance & _ & E). skip E. apply bind_Ok in E as (targets & Ht%ordinary_typed & E).
    destruct (0 <? _); [|by eapply lending_transition_ok]. apply bind_Ok in E as (target & Hm%payout_target_typed & E).
    eapply lending_transition_ok; [|exact E]. by apply snoc_typed. }
  destruct (op_Kind op =? OpCrossLoanExpire); [|done].
  apply bind_Ok in E as (o & _ & E). apply bind_Ok in E as (offer & _ & E). apply bind_Ok in E as (targets & Ht%ordinary_typed & E).
  apply bind_Ok in E as (target & Hm%payout_target_typed & E). eapply lending_transition_ok; [|exact E]. by apply snoc_typed.
Qed.
End loans.

(** ** The trackers the collector reaches *)

Lemma transfer_lineage_ok t height nativeToken transaction result exports t' :
  tracker_ok t -> finalized transaction result ->
  ApplyFinalizedIdleCapitalTransfer t height nativeToken transaction result exports = Ok (Some t') -> tracker_ok t'.
Proof.
  intros Hok Hf E. destruct (transfer_applied _ _ _ _ _ _ _ Hf E) as (p & targets & Hp & Ha & Ht & _). eapply steps_ok; [done|]. by eapply applied_steps.
Qed.

Inductive collected : IdleCapitalTracker -> Prop :=
  | collected_new : collected NewIdleCapitalTracker
  | collected_transaction t height nativeToken transaction result exports t1 t2 t3 :
      collected t -> finalized transaction result -> u64 height ->
      kept t (ApplyFinalizedIdleCapitalTransfer t height nativeToken transaction result exports) = Ok t1 ->
      kept t1 (ApplyFinalizedComputeCapitalLineage t1 height nativeToken transaction result exports) = Ok t2 ->
      kept t2 (ApplyFinalizedCrossLendingCapitalLineage t2 height nativeToken transaction result exports) = Ok t3 -> collected t3
  | collected_import t nativeToken receipt t1 :
      collected t -> u64 (SourceHeight receipt) -> kept t (ApplyFinalizedIdleCapitalImport t nativeToken receipt) = Ok t1 -> collected t1
  | collected_epoch t : collected t -> collected (ResetProductiveCoverage t).

Lemma kept_Ok t applied t' : kept t applied = Ok t' -> (applied = Ok None /\ t' = t) \/ applied = Ok (Some t').
Proof. unfold kept. destruct applied as [[x|]|]; cbn; intros E; try done; apply Ok_inj in E as <-; [by right|by left]. Qed.

(** C25: Whatever the collector tells its tracker (transfers, the compute market
    with its settlements, cross-shard loans, imports, new epochs), the tracker
    stays well formed: every object and transfer holds a canonical, non-empty list
    of lots, only live lineages are known, and the coverage is within the capital
    observed; so a tracker within the bound on lots validates, and its checkpoint
    restores it. *)
Theorem collected_tracker_restores t :
  collected t -> tracker_ok t /\
  (tracker_lots t <= maxIdleTrackerLots ->
    Tracker_validate t = Ok tt /\ exists data, CheckpointBytes t = Ok data /\ RestoreIdleCapitalTracker data = Ok t).
Proof.
  intros Hc. assert (tracker_ok t) as Hok.
  { induction Hc as [|t height nativeToken transaction result exports t1 t2 t3 _ IH Hf Hh E1 E2 E3|t nativeToken receipt t1 _ IH Hh E|t _ IH].
    - apply (history_inv _ _ history_new).
    - assert (tracker_ok t1) as Hok1 by (apply kept_Ok in E1 as [[_ ->]|E1]; [done|by eapply transfer_lineage_ok]).
      assert (tracker_ok t2) as Hok2 by (apply kept_Ok in E2 as [[_ ->]|E2]; [done|by eapply compute_lineage_ok]).
      apply kept_Ok in E3 as [[_ ->]|E3]; [done|by eapply lending_lineage_ok].
    - apply kept_Ok in E as [[_ ->]|E]; [done|]. apply import_steps in E as [d Hs]; [|done]. by eapply steps_ok.
    - destruct IH. by split. }
  split; [done|]. intros Hl. split; [by apply tracker_ok_validate|]. exists (enc_tracker t). split; [by apply CheckpointBytes_Ok|by apply restore_checkpoint].
Qed.
End proofs.

(** A transfer of a coin of 100 that pays 60 on its shard, 30 to another and a fee of 10. *)
Module LineageExample.
#[local] Existing Instance small_crypto.
#[local] Existing Instance some_order.

Definition native : bytes := be 32 11.
Definition alice : bytes := be 32 21.
Definition bob : bytes := be 32 22.
Definition coin_spec (owner : bytes) (amount : Z) : OutputSpec := mkOutputSpec owner KindCoin (Coin_MarshalBinary (mkCoin native amount 9)).
Definition spent : Object := mkObject (be 32 7) 1 alice KindCoin (Coin_MarshalBinary (mkCoin native 100 5)).
Definition pays : Transaction :=
  mkTransaction 1 (be 32 31) 0 alice [] (be 32 41) [] [] [mkOperation OpTransfer []] 10 100 (be 32 51) [] [mkWitness spent (Smt.mkProof false [] [])].
Definition change : Object := mkObject (ObjectIDForShard (tx_ID pays) 0 0) 1 alice KindCoin (o_Data (coin_spec alice 60)).
Definition outcome : Result := mkResult [be 32 7] [change] [mkOutbound 1 1 (coin_spec bob 30)] (tx_ID pays).
Definition receipt : CrossShardReceipt := mkReceipt 0 1 9 (tx_ID pays) 1 (coin_spec bob 30) (be 32 61).
Definition followed : IdleCapitalTracker :=
  ok_or NewIdleCapitalTracker (kept NewIdleCapitalTracker (ApplyFinalizedIdleCapitalTransfer NewIdleCapitalTracker 9 native pays outcome [receipt])).

Lemma pays_finalized : finalized pays outcome.
Proof. split; [by apply Forall_singleton; vm_compute|apply Forall_singleton; vm_compute; reflexivity|by vm_compute]. Qed.





Lemma followed_collected : collected followed.
Proof.
  eapply (collected_transaction NewIdleCapitalTracker 9 native pays outcome [receipt] followed followed);
    [apply collected_new|apply pays_finalized|by vm_compute|vm_compute; reflexivity|vm_compute; reflexivity|vm_compute; reflexivity].
Qed.

Lemma collected_tracker_restores_witness :
  tracker_ok followed /\ exists data, CheckpointBytes followed = Ok data /\ RestoreIdleCapitalTracker data = Ok followed.
Proof.
  destruct (collected_tracker_restores followed followed_collected) as (H1 & H2). split; [exact H1|].
  destruct H2 as (_ & H2); [vm_compute; discriminate|exact H2].
Defined.
End LineageExample.
End LineageProofs.
